(* ===== verification/_CoqProject ===== *)
-Q . S2P
Prelude.v
UList.v
Sched.v
SchedQueue.v
SchedProps.v
SchedRun.v
SchedLive.v
SchedGroups.v
SchedTime.v
Task.v
TaskProps.v
Util.v
Bytes.v
Restore.v
Override.v
Loop.v
Timetravel.v
SchedCtrl.v
SchedCtrlProps.v
Vhost.v
Net.v
Control.v
ControlProps.v
ControlRun.v
VhostProps.v
SharedMem.v
SharedMemProps.v
Rpc.v
RpcProps.v
Pci.v
PciProps.v
Sort.v
Wallclock.v
WallclockProps.v
NetProps.v
DwarfBuf.v
DwarfAttr.v
Search.v
DwarfAbbrev.v
BtMmap.v
DwarfLine.v
DwarfRange.v
DwarfUnit.v
DwarfFunc.v
DwarfVars.v
DwarfTypes.v
DwarfPath.v
DwarfLookup.v
DwarfFuncEnds.v
DwarfNames.v
StaticRef.v
TestRun.v
ElfSum.v
ElfHuff.v
ElfHuffTable.v
ElfHuffLong.v
ElfHuffCode.v
