(* ===== verification/Prelude.v ===== *)
(** * Verification of USFSTL, a simulation and test framework in C

    USFSTL (src/ of the repository) runs C code in simulated time.  A scheduler
    keeps jobs in the order of their start; tasks and semaphores are built on
    it; several processes share one notion of time through a controller; devices
    are offered to virtual machines over vhost-user; tests stub functions,
    restore globals and call each other over RPC; debug information is read by a
    copy of libbacktrace, to find static functions and variables and to print
    backtraces.  This development translates these parts into Rocq functions and
    proves what they promise.

    ** How code is translated

    A C function is a function of the state monad [M S] of this file with
    explicit faults: a failing assertion, a NULL pointer, an access out of
    bounds, a signed overflow, a division by zero, an uninitialised read, and a
    call that would wait forever for input ([Blocked]) are results of their own.
    Unsigned integers are integers with their wrap-around written out ([u8] to
    [u64]).  Records of C are records, changed with [r <| field := v |>].
    Function pointers are tags whose meaning is an instance of a class
    ([SchedEnv], [VhostEnv], [RpcEnv]), the interface between components.  What
    the operating system, other processes or the C library do is part of the
    state: bytes and messages to arrive, how far a transfer gets, whether an
    allocation succeeds; what the code sends is recorded.

    ** Components

    - [UList]: include/usfstl/list.h on a heap of linked entries, proved to
      implement mathematical lists, which the other files use.
    - [Sched]: src/sched.c.  [SchedQueue] has the order of jobs under
      wrap-around comparison and the invariant; [SchedProps] adding and removing;
      [SchedRun] running, a refinement to a stable sort; [SchedLive] that no job
      starves; [SchedGroups] blocking; [SchedTime] clocks and linked schedulers.
    - [Task]: src/task.c over src/ctx-ucontext.c and src/ctx-common.c, contexts
      as programs of API calls; [TaskProps] has the invariant without lost
      wake-ups.
    - [Util]: src/rand.c, src/string.c, src/alloc.c.  [Bytes]: byte memory.
      [Restore]: src/restore.c.  [Override]: src/override.c.  [Loop]: src/loop.c.
    - [Timetravel], [SchedCtrl], [SchedCtrlProps]: the protocol of
      um_timetravel.h and the client side, src/schedctrl.c, with messages and
      with shared memory.
    - [Control], [ControlProps], [ControlRun]: the controller, control/main.c.
      [Net], [NetProps]: its virtual network, control/net.c, whose state is a part
      of the controller's ([Net.Network]).
    - [Wallclock], [WallclockProps]: src/wallclock.c.
    - [Vhost], [VhostProps]: src/vhost.c.  [Pci], [PciProps]: src/pci.c on it.
    - [SharedMem], [SharedMemProps]: src/multi-shared-mem.c.
    - [Rpc], [RpcProps]: src/rpc.c, src/rpc-posix.c, src/rpc-rpc.c and the sizes
      that the macros of rpc.h put into requests.

    - libbacktrace, src/dwarf/: [Sort] is sort.c, [Search] bsearch of the C
      library, [BtMmap] the allocator of mmap.c.  dwarf.c is [DwarfBuf] (readers
      of numbers), [DwarfAttr] (forms of attributes), [DwarfAbbrev], [DwarfLine]
      (line tables and programs), [DwarfRange], [DwarfUnit] (loading),
      [DwarfFunc] (functions and what is inlined into them; [DwarfFuncEnds] that
      reading them ends), [DwarfVars] (global variables), [DwarfTypes] (types as
      text), [DwarfPath] (file names), [DwarfLookup] (addresses to lines),
      [DwarfNames] (functions by name).  These files share the monad [D] of
      [DwarfBuf]: the buffer being read, the errors reported, the answers of the
      allocator.
      elf.c: [ElfSum] (checksums) and the tables of the zlib inflater: [ElfHuff] is
      the construction, [ElfHuffTable], [ElfHuffLong] and [ElfHuffCode] its proof,
      for the primary table, for the secondary tables, and as a whole.
    - [StaticRef]: src/dwarf.c, the static functions and variables of a test.
    - [TestRun]: src/testrun.c and src/main.c, the run of a test case with its
      aborts and jumps, and the run of all tests.

    ** What the theorems show

    Scheduling: any set of jobs runs in the order of a stable sort; adding,
    blocking and restoring keep the invariant and move exactly the right jobs.
    Tasks: a semaphore that could be taken never has a waiter able to run.
    Processes: a client reaches a time through the controller with exactly the
    messages expected, and the controller gives each client its turn.  Devices:
    notified data arrive in the memory of the other side and are announced once;
    configuration writes and reads agree up to the mask.  RPC: the function runs
    on the bytes the caller passed and the caller gets its result, however the
    socket splits them.  Shared memory: contents reach the other participant.
    Network: a packet reaches exactly its receivers, its delay later, on the
    controller's scheduler.  Wall clock: no time is shown before it has come.  Sorting: a sorted permutation.
    Debug information: whatever the bytes, readers stay inside their section and
    loading ends; abbreviations and line programs are decoded as the standard
    encodes them; ranges, variables, types and functions by name are what the
    entries say, and an address is reported with its line and its inlined
    functions; static variables are resolved to the right one; checksums are
    those of the standards, and the Huffman tables decode the codes of RFC 1951.
    Tests: globals come back, stubs take effect whatever was cached, allocations
    are freed but for those a failed reallocation forgets; the verdict on a case is
    right however its functions end, and the run of all tests is reported
    truthfully.  Where the code does not do what it means to, a lemma behind the
    theorem of the component gives a state that leads there.

    What a theorem needs is in its comment: scheduling theorems leave a start
    exactly 2^63 ticks away aside, where the comparison is ambiguous; functions and
    units by address are those the search finds; types are written as text without
    arrays, unnamed structs and functions with "..." only; with a load address the
    line table may repeat rows.

    ** Bounds and fuel

    Loops that are not structural take fuel and fault with [OutOfFuel].  Loops
    over lists need one round more than there are entries, and the theorems say
    so; transfers need one round for each byte and each interruption, which the
    definitions of rpc_read, rpc_writev and rpc_readv compute themselves, as
    those of [SharedMem] do from the size of the message; the walk over a
    descriptor chain needs its length, and has no bound for a cyclic chain.
    Calls back through function pointers are tied [n] times ([Sched.tie]).
    Readers of debug information need a round for each byte of the section they
    read, which their definitions compute; only a chain of DW_AT_specification
    references and the nesting of types take fuel from outside ([rfuel],
    [tfuel]), since the code follows them without a bound.
    Theorems conclude that the code returns, not only what holds if it does; the
    lookups in [DwarfLookup] and [DwarfNames], which may have to read units from
    arbitrary bytes first, are described whenever they return, and return when
    the units have been read.
    The host is 64-bit and little-endian.

    ** Not modelled

    Code that only calls the system or prints: the command line and signals of
    the test runner, sockets, watchdog, fuzzing input, logging; alternative back
    ends (threads, fibers, Windows); of src/dwarf/ the readers of object files
    (pecoff.c, and elf.c but for the checksums and Huffman tables), the unwinding
    of the stack and the search for the executable, and of src/dwarf.c the
    backtrace over RPC.  What the hash table
    of [Override] finds in debug information is a parameter there.  Also not
    modelled: src/opt.c and the participants of multi-process tests
    (src/multi*.c but for the shared memory). *)
From stdpp Require Export base gmap list strings fin_maps.
From Stdlib Require Export ZArith Lia ZifyBool ZifyNat Sorted.

#[global] Open Scope Z_scope.

Ltac Zify.zify_post_hook ::= Z.to_euclidean_division_equations.

(** ** Record update

    [r <| field := v |>] is the C assignment [r->field = v] on a record value.
    A record type declares its eta expansion as a [Settable] instance; the
    setter of a projection is computed from it. *)
Class Settable (R : Type) := eta : R → R.
Class Setter {R T : Type} (proj : R → T) := set_field : (T → T) → R → R.

Ltac solve_setter :=
  match goal with
  | |- @Setter ?R ?T ?proj =>
      let i := constr:(_ : Settable R) in
      unfold Setter;
      let f := fresh "f" in
      let r := fresh "r" in
      intros f r;
      let e := eval hnf in (@eta R i r) in
      match (eval pattern (proj r) in e) with
      | ?g (proj r) =>
          let t := eval cbv beta in (g (f (proj r))) in exact t
      end
  end.

#[export] Hint Extern 0 (Setter _) => solve_setter : typeclass_instances.

Notation "r <| p := v |>" := (set_field (proj := p) (fun _ => v) r)
  (at level 1, left associativity, format "r  <| p  :=  v |>").

(** ** Machine integers

    A [w]-bit unsigned integer is a [Z] kept in range by its wrap-around. *)
Definition u8 (z : Z) : Z := z mod 2^8.
Definition u16 (z : Z) : Z := z mod 2^16.
Definition u32 (z : Z) : Z := z mod 2^32.
Definition u64 (z : Z) : Z := z mod 2^64.

(** The two's complement reading of the low 64 (32) bits: [(int64_t)z]. *)
Definition s64 (z : Z) : Z :=
  let r := z mod 2^64 in if r <? 2^63 then r else r - 2^64.
Definition s32 (z : Z) : Z :=
  let r := z mod 2^32 in if r <? 2^31 then r else r - 2^32.

(** [x & (1 << n)] as a condition, for an [n] the shift is defined for (groups are
    below 32, as [usfstl_sched_add_job] asserts). *)
Definition has_bit (x n : Z) : bool := negb (Z.land (Z.shiftl 1 n) x =? 0).

(** ** Outcomes and the state monad

    A C function either returns or ends the program: an assertion fails
    ([usfstl_abort], [assert]), a bad pointer is dereferenced, an access is out
    of bounds, a signed computation overflows, a division is by zero, a
    variable is read that was never set, the process blocks for ever on
    input that never comes, or (an artefact of the model only) the fuel of a
    loop runs out. *)
Inductive fault :=
  | Assertion
  | NullDeref
  | OutOfBounds
  | SignedOverflow
  | DivByZero
  | Uninitialized
  | Blocked
  | OutOfFuel.

#[export] Instance fault_eq_dec : EqDecision fault.
Proof. solve_decision. Defined.

Inductive res (A : Type) :=
  | Ok (a : A)
  | Err (f : fault).
Arguments Ok {_} _.
Arguments Err {_} _.

Definition M (S A : Type) : Type := S → res (A * S).

#[export] Instance M_ret (S : Type) : MRet (M S) := λ A a s, Ok (a, s).
#[export] Instance M_bind (S : Type) : MBind (M S) := λ A B k m s,
  match m s with
  | Ok (a, s') => k a s'
  | Err f => Err f
  end.

#[export] Instance M_fmap (S : Type) : FMap (M S) := λ A B f m s,
  match m s with
  | Ok (a, s') => Ok (f a, s')
  | Err e => Err e
  end.

Definition fail {S A : Type} (f : fault) : M S A := λ _, Err f.
Definition get {S : Type} : M S S := λ s, Ok (s, s).
Definition gets {S A : Type} (f : S → A) : M S A := λ s, Ok (f s, s).
Definition modify {S : Type} (f : S → S) : M S unit := λ s, Ok (tt, f s).

(** [USFSTL_ASSERT(cond)]. *)
Definition usfstl_assert {S : Type} (b : bool) : M S unit :=
  if b then mret tt else fail Assertion.

(** A pointer that must not be NULL (or dangling) when it is used. *)
Definition deref {S A : Type} (o : option A) : M S A :=
  match o with
  | Some a => mret a
  | None => fail NullDeref
  end.

Definition when {S : Type} (b : bool) (m : M S unit) : M S unit :=
  if b then m else mret tt.

(** The value of an [int] computation, if it fits. *)
Definition int_arith {S : Type} (z : Z) : M S Z :=
  if (-2^31 <=? z) && (z <? 2^31) then mret z else fail SignedOverflow.

(** An unsigned division. *)
Definition div_by {S : Type} (a b : Z) : M S Z :=
  if b =? 0 then fail DivByZero else mret (a / b).

(** [a[i]], inside the bounds of the array. *)
Definition array_get {S A : Type} (l : list A) (i : Z) : M S A :=
  if i <? 0 then fail OutOfBounds
  else match l !! Z.to_nat i with Some a => mret a | None => fail OutOfBounds end.

(** [a[i] = f(a[i])], inside the bounds of the array. *)
Definition array_upd {S A : Type} (l : list A) (i : Z) (f : A → A) : M S (list A) :=
  a ← array_get l i; mret (<[Z.to_nat i := f a]> l).

(** [while (cond) body], one unit of fuel for each round. *)
Fixpoint while {S : Type} (fuel : nat) (cond : M S bool) (body : M S unit) : M S unit :=
  b ← cond;
  if (b : bool) then
    match fuel with
    | O => fail OutOfFuel
    | S fuel => body;; while fuel cond body
    end
  else mret tt.

Section monad_lemmas.
Context {S : Type}.

Lemma bind_ok {A B} (m : M S A) (k : A → M S B) s a s1 :
  m s = Ok (a, s1) → (m ≫= k) s = k a s1.
Proof. intros H. unfold mbind, M_bind. by rewrite H. Qed.

Lemma bind_err {A B} (m : M S A) (k : A → M S B) s f :
  m s = Err f → (m ≫= k) s = Err f.
Proof. intros H. unfold mbind, M_bind. by rewrite H. Qed.

Lemma bind_inv {A B} (m : M S A) (k : A → M S B) s r :
  (m ≫= k) s = Ok r → ∃ a s1, m s = Ok (a, s1) ∧ k a s1 = Ok r.
Proof. unfold mbind, M_bind. destruct (m s) as [[a s1]|f]; naive_solver. Qed.

Lemma bind_assoc {A B C} (m : M S A) (k : A → M S B) (h : B → M S C) s :
  ((m ≫= k) ≫= h) s = (m ≫= λ a, k a ≫= h) s.
Proof. unfold mbind, M_bind. by destruct (m s) as [[a s1]|]. Qed.

Lemma bind_ext {A B} (m : M S A) (k k' : A → M S B) s :
  (∀ a s', m s = Ok (a, s') → k a s' = k' a s') → (m ≫= k) s = (m ≫= k') s.
Proof. intros H. unfold mbind, M_bind. destruct (m s) as [[a s']|]; auto. Qed.

Lemma bind_ext_l {A B} (m m' : M S A) (k : A → M S B) s : m s = m' s → (m ≫= k) s = (m' ≫= k) s.
Proof. intros H. unfold mbind, M_bind. by rewrite H. Qed.

Lemma fmap_inv {A B} (f : A → B) (m : M S A) s r s' :
  (f <$> m) s = Ok (r, s') → ∃ a, m s = Ok (a, s') ∧ r = f a.
Proof. unfold fmap, M_fmap. destruct (m s) as [[a s1]|]; naive_solver. Qed.

Lemma mret_inv {A} (a : A) s r : (mret a : M S A) s = Ok r → r = (a, s).
Proof. unfold mret, M_ret. congruence. Qed.

Lemma assert_inv b s (r : unit * S) :
  usfstl_assert b s = Ok r → b = true ∧ r = (tt, s).
Proof. destruct b; cbn; intros [= <-]; auto. Qed.

Lemma deref_inv {A} (o : option A) s (r : A * S) :
  deref o s = Ok r → ∃ a, o = Some a ∧ r = (a, s).
Proof. destruct o; cbn; intros [= <-]; eauto. Qed.

Lemma gets_inv {A} (f : S → A) s r : gets f s = Ok r → r = (f s, s).
Proof. unfold gets. congruence. Qed.

Lemma modify_inv (f : S → S) s (r : unit * S) : modify f s = Ok r → r = (tt, f s).
Proof. unfold modify. congruence. Qed.
End monad_lemmas.

(** [monad_inv H] decomposes [H : m s = Ok r] along the binds, returns, reads
    and assertions of [m]. *)
Ltac monad_inv_step H :=
  lazymatch type of H with
  | (mbind _ _) _ = Ok _ =>
      let a := fresh "a" in let s1 := fresh "s" in
      let H1 := fresh H in let H2 := fresh H in
      apply bind_inv in H as (a & s1 & H1 & H2); cbn beta in H2;
      try monad_inv_step H1; try monad_inv_step H2
  | (mret _) _ = Ok _ => apply mret_inv in H; simplify_eq
  | usfstl_assert _ _ = Ok _ =>
      let Hb := fresh "Hassert" in
      apply assert_inv in H as [Hb H]; simplify_eq
  | deref _ _ = Ok _ =>
      let a := fresh "a" in let Hs := fresh "Hderef" in
      apply deref_inv in H as (a & Hs & H); simplify_eq
  | gets _ _ = Ok _ => apply gets_inv in H; simplify_eq
  | modify _ _ = Ok _ => apply modify_inv in H; simplify_eq
  | fail _ _ = Ok _ => discriminate H
  | Ok _ = Ok _ => simplify_eq H
  | Err _ = Ok _ => discriminate H
  end.
Ltac monad_inv H := monad_inv_step H.

(** ** A partial-correctness triple for preservation proofs

    [preserves I m]: whenever [m] returns from a state satisfying [I], it
    returns in a state satisfying [I]. *)
Definition preserves {S A : Type} (I : S → Prop) (m : M S A) : Prop :=
  ∀ s a s', I s → m s = Ok (a, s') → I s'.

Section preserves_lemmas.
Context {S : Type} (I : S → Prop).

Lemma preserves_ret {A} (a : A) : preserves I (mret a).
Proof. intros s b s' HI H. monad_inv H. done. Qed.

Lemma preserves_bind {A B} (m : M S A) (k : A → M S B) :
  preserves I m → (∀ a, preserves I (k a)) → preserves I (m ≫= k).
Proof. intros Hm Hk s b s' HI H. apply bind_inv in H as (a & s1 & H1 & H2). eapply Hk, H2; eauto. Qed.

Lemma preserves_fail {A} f : preserves (A := A) I (fail f).
Proof. by intros s a s' _ H. Qed.

Lemma preserves_assert b : preserves I (usfstl_assert b).
Proof. intros s a s' HI H. monad_inv H. done. Qed.

Lemma preserves_gets {A} (f : S → A) : preserves I (gets f).
Proof. intros s a s' HI H. monad_inv H. done. Qed.

Lemma preserves_deref {A} (o : option A) : preserves I (deref o).
Proof. intros s a s' HI H. monad_inv H. done. Qed.

Lemma preserves_when b m : preserves I m → preserves I (when b m).
Proof. intros Hm. destruct b; [done|]. apply preserves_ret. Qed.

Lemma preserves_if {A} (b : bool) (m1 m2 : M S A) :
  preserves I m1 → preserves I m2 → preserves I (if b then m1 else m2).
Proof. by destruct b. Qed.

Lemma preserves_modify f : (∀ s, I s → I (f s)) → preserves I (modify f).
Proof. intros Hf s a s' HI H. monad_inv H. auto. Qed.
End preserves_lemmas.

Create HintDb usfstl discriminated.
#[export] Hint Resolve preserves_ret preserves_bind preserves_fail preserves_assert
  preserves_gets preserves_deref preserves_when preserves_if : usfstl.

(** ** Arithmetic lemmas *)
Lemma array_get_ok {S A} (l : list A) i a (s : S) : 0 ≤ i → l !! Z.to_nat i = Some a → array_get l i s = Ok (a, s).
Proof. intros Hi E. unfold array_get. replace (i <? 0) with false by lia. by rewrite E. Qed.

Lemma int_arith_ok {S} z (s : S) : -2^31 ≤ z < 2^31 → int_arith z s = Ok (z, s).
Proof. intros. unfold int_arith. by replace (_ && _) with true by lia. Qed.

Lemma u64_range z : 0 ≤ u64 z < 2^64.
Proof. unfold u64. lia. Qed.

Lemma u32_range z : 0 ≤ u32 z < 2^32.
Proof. unfold u32. lia. Qed.

Lemma u64_small z : 0 ≤ z < 2^64 → u64 z = z.
Proof. unfold u64. lia. Qed.

Lemma s64_range z : -2^63 ≤ s64 z < 2^63.
Proof. unfold s64. destruct (Z.ltb_spec (z mod 2^64) (2^63)); lia. Qed.

(** Numbers without common bits. *)
Lemma lor_disj n hi lo : 0 ≤ n → hi mod 2^n = 0 → 0 ≤ lo < 2^n → Z.lor hi lo = hi + lo.
Proof.
  intros Hn Hh Hl. replace hi with (Z.shiftl (hi / 2^n) n) by (rewrite Z.shiftl_mul_pow2 by lia; lia).
  assert (Z.land (Z.shiftl (hi / 2 ^ n) n) lo = 0) as H0.
  { apply Z.bits_inj'. intros k Hk. rewrite Z.land_spec, Z.bits_0.
    destruct (Z_lt_le_dec k n).
    - by rewrite Z.shiftl_spec_low.
    - rewrite <-(Z.mod_small lo (2^n)) by done. rewrite Z.mod_pow2_bits_high by lia. apply andb_false_r. }
  rewrite Z.add_nocarry_lxor, Z.lxor_lor by done. done.
Qed.

Lemma has_bit_spec x n : 0 ≤ n → has_bit x n = Z.testbit x n.
Proof.
  intros Hn. unfold has_bit. rewrite Z.shiftl_1_l, Z.land_comm.
  destruct (Z.testbit x n) eqn:E.
  - apply negb_true_iff, Z.eqb_neq. intros H0.
    assert (Z.testbit (Z.land x (2 ^ n)) n = false) as H1 by (rewrite H0; apply Z.bits_0).
    rewrite Z.land_spec, E, Z.pow2_bits_true in H1 by lia. done.
  - apply negb_false_iff, Z.eqb_eq. apply Z.bits_inj'. intros k Hk.
    rewrite Z.land_spec, Z.bits_0. destruct (decide (k = n)) as [->|Hne].
    + by rewrite E.
    + rewrite Z.pow2_bits_false by lia. by rewrite andb_false_r.
Qed.

Lemma has_bit_lor x y n : 0 ≤ n → has_bit (Z.lor x y) n = has_bit x n || has_bit y n.
Proof. intros. rewrite !has_bit_spec by done. apply Z.lor_spec. Qed.
