(* ===== verification/UList.v ===== *)
(** * The intrusive doubly-linked list (include/usfstl/list.h)

    The pointer-level operations of [list.h] over a heap of list entries, and
    the proof that on a well-formed ring they implement the operations of a
    mathematical list.  The scheduler, task, loop and controller models use
    that list view ([entry] membership plus an ordered list of items). *)
From S2P Require Import Prelude.

(** ** The heap of list entries *)

(** The two fields of every allocated [struct usfstl_list_entry]; an address
    outside the maps is not a valid object, and NULL is 0. *)
Record heap := Heap {
  h_next : gmap Z Z;
  h_prev : gmap Z Z;
}.
#[export] Instance heap_settable : Settable heap := λ h, Heap (h_next h) (h_prev h).

Definition load_next (e : Z) : M heap Z := h ← get; deref (h_next h !! e).
Definition load_prev (e : Z) : M heap Z := h ← get; deref (h_prev h !! e).
Definition store_next (e v : Z) : M heap unit :=
  _ ← load_next e; modify (λ h, h <| h_next := <[e:=v]> (h_next h) |>).
Definition store_prev (e v : Z) : M heap unit :=
  _ ← load_prev e; modify (λ h, h <| h_prev := <[e:=v]> (h_prev h) |>).

(** ** The operations *)

Definition usfstl_list_init (list : Z) : M heap unit :=
  store_next list list;;
  store_prev list list.

Definition usfstl_list_insert_before (existing new : Z) : M heap unit :=
  p ← load_prev existing;
  store_prev new p;;
  p' ← load_prev existing;
  store_next p' new;;
  store_prev existing new;;
  store_next new existing.

Definition usfstl_list_append (list new : Z) : M heap unit :=
  usfstl_list_insert_before list new.

Definition usfstl_list_empty (list : Z) : M heap bool :=
  n ← load_next list;
  mret (n =? list).

(** NULL (0) past the last entry. *)
Definition usfstl_next_item (list entry : Z) : M heap Z :=
  n ← load_next entry;
  mret (if n =? list then 0 else n).

Definition usfstl_list_first_item (list : Z) : M heap Z :=
  e ← usfstl_list_empty list;
  if (e : bool) then mret 0 else load_next list.

Definition usfstl_list_item_remove (entry : Z) : M heap unit :=
  n ← load_next entry;
  p ← load_prev entry;
  store_prev n p;;
  p' ← load_prev entry;
  n' ← load_next entry;
  store_next p' n';;
  store_next entry 0;;
  store_prev entry 0.

(** [for (item = list->list.next; item != &list->list; item = item->next) count++]. *)
Fixpoint list_length_loop (fuel : nat) (list item count : Z) : M heap Z :=
  match fuel with
  | O => fail OutOfFuel
  | S fuel =>
      if item =? list then mret count
      else n ← load_next item; list_length_loop fuel list n (u32 (count + 1))
  end.

Definition usfstl_list_length (fuel : nat) (list : Z) : M heap Z :=
  n ← load_next list;
  list_length_loop fuel list n 0.

(** [usfstl_for_each_list_item]: run [body] on each item in turn, reading the
    successor after the body. *)
Fixpoint for_each_loop {S : Type} (fuel : nat) (list item : Z)
    (body : Z → S → M heap S) (acc : S) : M heap S :=
  match fuel with
  | O => fail OutOfFuel
  | Datatypes.S fuel =>
      if item =? 0 then mret acc
      else acc' ← body item acc;
           n ← usfstl_next_item list item;
           for_each_loop fuel list n body acc'
  end.

Definition usfstl_for_each_list_item {S : Type} (fuel : nat) (list : Z)
    (body : Z → S → M heap S) (acc : S) : M heap S :=
  i ← usfstl_list_first_item list;
  for_each_loop fuel list i body acc.

(** [usfstl_for_each_list_item_safe]: the successor is read before the body
    runs, so the body may unlink the item it is given. *)
Fixpoint for_each_safe_loop {S : Type} (fuel : nat) (list item next : Z)
    (body : Z → S → M heap S) (acc : S) : M heap S :=
  match fuel with
  | O => fail OutOfFuel
  | Datatypes.S fuel =>
      if item =? 0 then mret acc
      else acc' ← body item acc;
           n ← (if next =? 0 then mret 0 else usfstl_next_item list next);
           for_each_safe_loop fuel list next n body acc'
  end.

Definition usfstl_for_each_list_item_safe {S : Type} (fuel : nat) (list : Z)
    (body : Z → S → M heap S) (acc : S) : M heap S :=
  i ← usfstl_list_first_item list;
  n ← (if i =? 0 then mret 0 else usfstl_next_item list i);
  for_each_safe_loop fuel list i n body acc.

(** ** The representation predicate *)

(** [dseg h p xs q]: following [next] from [p] one meets [xs] and then [q],
    and the [prev] fields point back. *)
Fixpoint dseg (h : heap) (p : Z) (xs : list Z) (q : Z) : Prop :=
  match xs with
  | [] => h_next h !! p = Some q ∧ h_prev h !! q = Some p
  | x :: xs' => h_next h !! p = Some x ∧ h_prev h !! x = Some p ∧ dseg h x xs' q
  end.

(** The ring of the list head [hd] holds the entries [xs], in order. *)
Definition is_list (h : heap) (hd : Z) (xs : list Z) : Prop :=
  dseg h hd xs hd ∧ NoDup (hd :: xs) ∧ 0 ∉ hd :: xs.

(** An allocated entry on no list (its [next] is NULL). *)
Definition unlinked (h : heap) (e : Z) : Prop :=
  h_next h !! e = Some 0 ∧ h_prev h !! e = Some 0.

(** ** Segment lemmas *)

Lemma dseg_app h p xs y ys q :
  dseg h p (xs ++ y :: ys) q ↔ dseg h p xs y ∧ dseg h y ys q.
Proof. revert p. induction xs as [|x xs IH]; intros p; cbn; [tauto|]. rewrite IH. tauto. Qed.

Definition seg_last (p : Z) (xs : list Z) : Z := default p (last xs).

Lemma seg_last_cons p x xs : seg_last p (x :: xs) = seg_last x xs.
Proof. unfold seg_last. rewrite last_cons. by destruct (last xs). Qed.

Lemma seg_last_elem p xs : seg_last p xs ∈ p :: xs.
Proof.
  unfold seg_last. destruct (last xs) as [y|] eqn:E; cbn; [|set_solver].
  apply last_Some_elem_of in E. set_solver.
Qed.

Lemma dseg_last h p xs q :
  dseg h p xs q → h_next h !! seg_last p xs = Some q ∧ h_prev h !! q = Some (seg_last p xs).
Proof.
  revert p. induction xs as [|x xs IH]; intros p; cbn; [done|].
  intros (_ & _ & H). rewrite seg_last_cons. auto.
Qed.

Lemma dseg_frame h h' p xs q :
  dseg h p xs q →
  (∀ a, a ∈ p :: xs → h_next h' !! a = h_next h !! a) →
  (∀ a, a ∈ xs ++ [q] → h_prev h' !! a = h_prev h !! a) →
  dseg h' p xs q.
Proof.
  revert p. induction xs as [|x xs IH]; intros p; cbn; intros Hd Hn Hp.
  - rewrite Hn, Hp by set_solver. done.
  - destruct Hd as (H1 & H2 & H3). rewrite Hn, Hp by set_solver. split_and!; [done..|].
    apply IH; [done|..]; set_solver.
Qed.

(** Redirecting the last link of a segment to [n]. *)
Lemma dseg_relink h h' p xs q n :
  dseg h p xs q → NoDup (p :: xs) →
  (∀ a, a ∈ p :: xs → a ≠ seg_last p xs → h_next h' !! a = h_next h !! a) →
  (∀ a, a ∈ xs → h_prev h' !! a = h_prev h !! a) →
  h_next h' !! seg_last p xs = Some n → h_prev h' !! n = Some (seg_last p xs) →
  dseg h' p xs n.
Proof.
  revert p. induction xs as [|x xs IH]; intros p; [done|].
  intros Hd Hnd Hn Hp Hl1 Hl2. destruct Hd as (H1 & H2 & H3).
  rewrite seg_last_cons in *. pose proof (seg_last_elem x xs).
  apply NoDup_cons in Hnd as [Hpx Hnd]. cbn.
  rewrite Hn, Hp by set_solver. split_and!; [done..|].
  apply IH; [done|done|set_solver..].
Qed.

Lemma is_list_split h hd xs ys :
  is_list h hd (xs ++ ys) →
  dseg h hd xs (default hd (head ys)) ∧
  match ys with [] => True | y :: ys' => dseg h y ys' hd end.
Proof.
  intros (Hd & _). destruct ys as [|y ys]; cbn.
  - by rewrite app_nil_r in Hd.
  - by apply dseg_app in Hd.
Qed.

(** The entries of a ring are pairwise distinct: what that gives for a split. *)
Lemma ring_parts (hd : Z) (xs ys : list Z) :
  NoDup (hd :: xs ++ ys) ↔
  NoDup xs ∧ NoDup ys ∧ (hd ∉ xs) ∧ (hd ∉ ys) ∧ (∀ a, a ∈ xs → a ∉ ys).
Proof. rewrite NoDup_cons, NoDup_app, not_elem_of_app. naive_solver. Qed.

(** ** Running the pointer operations *)

(** Evaluates a sequence of loads and stores, using the lookups in context. *)
Ltac run_heap :=
  unfold store_next, store_prev, load_next, load_prev, get, modify, deref,
    mbind, M_bind, mret, M_ret; cbn;
  repeat (simplify_map_eq; cbn).

Lemma insert_before_run h e new p n0 m0 m1 :
  h_prev h !! e = Some p → h_next h !! p = Some n0 →
  h_next h !! new = Some m0 → h_prev h !! new = Some m1 → new ≠ e →
  usfstl_list_insert_before e new h =
  Ok (tt, Heap (<[new:=e]> (<[p:=new]> (h_next h)))
               (<[e:=new]> (<[new:=p]> (h_prev h)))).
Proof.
  intros Hp Hn Hm0 Hm1 Hne. destruct h as [hn hp]. cbn in *.
  destruct (decide (p = new)) as [->|]; unfold usfstl_list_insert_before; run_heap; done.
Qed.

Lemma item_remove_run h e p n :
  h_next h !! e = Some n → h_prev h !! e = Some p →
  is_Some (h_prev h !! n) → is_Some (h_next h !! p) → n ≠ e → p ≠ e →
  usfstl_list_item_remove e h =
  Ok (tt, Heap (<[e:=0]> (<[p:=n]> (h_next h))) (<[e:=0]> (<[n:=p]> (h_prev h)))).
Proof.
  intros Hn Hp [x Hx] [y Hy] Hne Hpe. destruct h as [hn hp]. cbn in *.
  unfold usfstl_list_item_remove; run_heap; done.
Qed.

Lemma seg_last_next h p xs q :
  dseg h p xs q → is_Some (h_next h !! seg_last p xs).
Proof. intros H. apply dseg_last in H as [H _]. eauto. Qed.

(** Everything outside the touched ring keeps its fields. *)
Definition same_outside (h h' : heap) (l : list Z) : Prop :=
  ∀ a, a ∉ l → h_next h' !! a = h_next h !! a ∧ h_prev h' !! a = h_prev h !! a.

(** ** Theorems *)

Lemma is_list_frame h h' l hd xs :
  same_outside h h' l → is_list h hd xs → (∀ a, a ∈ hd :: xs → a ∉ l) → is_list h' hd xs.
Proof.
  intros Hs (Hd & Hnd & H0) Hdis. split_and!; [|done..].
  eapply dseg_frame; [done|..]; intros a Ha; apply Hs, Hdis; set_solver.
Qed.

(** [usfstl_list_insert_before] on the ring of [hd], holding [xs ++ ys],
    with [existing] the first entry of [ys] (the head itself when [ys] is
    empty) and [new] an allocated entry off the ring, returns and leaves the
    ring holding [xs ++ new :: ys]; no other entry is touched, so every other
    list in the heap is unchanged. *)
Theorem insert_before_correct h hd xs ys new m0 m1 :
  is_list h hd (xs ++ ys) →
  new ∉ 0 :: hd :: xs ++ ys →
  h_next h !! new = Some m0 → h_prev h !! new = Some m1 →
  ∃ h', usfstl_list_insert_before (default hd (head ys)) new h = Ok (tt, h') ∧
        is_list h' hd (xs ++ new :: ys) ∧
        same_outside h h' (new :: hd :: xs ++ ys).
Proof.
  intros Hl Hnew Hm0 Hm1. pose proof (is_list_split _ _ _ _ Hl) as [Hs1 Hs2].
  destruct Hl as (Hd & Hnd & H0). remember (default hd (head ys)) as e eqn:Ee.
  pose proof (dseg_last _ _ _ _ Hs1) as [Hln Hlp].
  apply ring_parts in Hnd as (Hndx & Hndy & Hhx & Hhy & Hxy).
  apply not_elem_of_cons in Hnew as [Hnew0 Hnew].
  assert (Hnx : ∀ a, a ∈ hd :: xs ++ ys → new ≠ a) by (intros a Ha ->; done).
  assert (He : e ∈ hd :: ys) by (subst e; destruct ys; left || (right; left)).
  assert (Hex : ∀ a, a ∈ xs → e ≠ a) by (clear -He Hhx Hxy; set_solver).
  assert (Hly : ∀ a, a ∈ ys → seg_last hd xs ≠ a).
  { generalize (seg_last_elem hd xs). generalize (seg_last hd xs). clear -Hhy Hxy. set_solver. }
  assert (Hne : new ≠ e) by (apply Hnx; clear -He; set_solver).
  assert (Hnl : new ≠ seg_last hd xs).
  { apply Hnx. generalize (seg_last_elem hd xs). generalize (seg_last hd xs). clear. set_solver. }
  eexists. split; [by eapply insert_before_run|]. split; [split_and!|].
  - apply dseg_app. split.
    + eapply dseg_relink; [exact Hs1|by constructor|..]; cbn; [| |by simplify_map_eq..].
      * intros a Ha Hal. rewrite !lookup_insert_ne; [done|done|].
        apply Hnx. clear -Ha. set_solver.
      * intros a Ha. rewrite !lookup_insert_ne; [done| |by apply Hex].
        apply Hnx. clear -Ha. set_solver.
    + destruct ys as [|y ys']; cbn in *; subst e.
      * by simplify_map_eq.
      * rewrite !lookup_insert_eq. split_and!; [done..|].
        apply NoDup_cons in Hndy as [Hy Hndy].
        eapply dseg_frame; [exact Hs2|..]; cbn; intros a Ha.
        -- rewrite !lookup_insert_ne; [done|by apply Hly|].
           apply Hnx. clear -Ha. set_solver.
        -- rewrite !lookup_insert_ne; [done| |].
           ++ apply Hnx. clear -Ha. set_solver.
           ++ clear -Ha Hy Hhy. set_solver.
  - apply ring_parts. split_and!; [done| |done|..].
    + constructor; [|done]. clear -Hnew. set_solver.
    + clear -Hnew Hhy. set_solver.
    + clear -Hnew Hxy. set_solver.
  - clear -H0 Hnew0. set_solver.
  - intros a Ha. cbn.
    assert (a ≠ new ∧ a ≠ seg_last hd xs ∧ a ≠ e) as (?&?&?).
    { generalize (seg_last_elem hd xs). generalize (seg_last hd xs). clear -Ha He. set_solver. }
    by rewrite !lookup_insert_ne.
Qed.

Lemma insert_before_correct_witness :
  let h := Heap (<[1:=2]> (<[2:=1]> {[3:=0]})) (<[1:=2]> (<[2:=1]> {[3:=0]})) in
  ∃ h', usfstl_list_insert_before 2 3 h = Ok (tt, h') ∧ is_list h' 1 [3; 2] ∧
        same_outside h h' [3; 1; 2].
Proof.
  apply (insert_before_correct _ 1 [] [2] 3 0 0); [|set_solver|done|done].
  split_and!; [done| |set_solver].
  repeat constructor; set_solver.
Defined.

Lemma item_remove_ok h hd xs x ys :
  is_list h hd (xs ++ x :: ys) →
  ∃ h', usfstl_list_item_remove x h = Ok (tt, h') ∧
        is_list h' hd (xs ++ ys) ∧ unlinked h' x ∧
        same_outside h h' (hd :: xs ++ x :: ys).
Proof.
  intros (Hd & Hnd & H0). apply dseg_app in Hd as [Hs1 Hs2].
  pose proof (dseg_last _ _ _ _ Hs1) as [Hln Hlp].
  apply ring_parts in Hnd as (Hndx & Hndy & Hhx & Hhy & Hxy).
  apply NoDup_cons in Hndy as [Hx Hndy].
  remember (default hd (head ys)) as n eqn:En.
  assert (h_next h !! x = Some n ∧ h_prev h !! n = Some x) as [Hxn Hnx].
  { subst n. destruct ys; cbn in *; tauto. }
  assert (Hn : n ∈ hd :: ys) by (subst n; destruct ys; left || (right; left)).
  pose proof (seg_last_elem hd xs) as Hle.
  assert (Hxh : ∀ a, a ∈ hd :: xs → x ≠ a) by (clear -Hhy Hxy; set_solver).
  assert (Hne : n ≠ x) by (clear -Hn Hhy Hx; set_solver).
  assert (Hle' : seg_last hd xs ≠ x) by (symmetry; by apply Hxh).
  assert (Hnx' : ∀ a, a ∈ xs → n ≠ a) by (clear -Hn Hhx Hxy; set_solver).
  eexists. split; [by eapply item_remove_run; eauto|].
  split; [split_and!|split].
  - assert (dseg (Heap (<[x:=0]> (<[seg_last hd xs:=n]> (h_next h)))
               (<[x:=0]> (<[n:=seg_last hd xs]> (h_prev h)))) hd xs n) as Hseg.
    { eapply dseg_relink; [exact Hs1|by constructor|..]; cbn; [| |by simplify_map_eq..].
      - intros a Ha Hal. rewrite !lookup_insert_ne; [done|done|by apply Hxh].
      - intros a Ha. rewrite !lookup_insert_ne; [done|by apply Hnx'|].
        apply Hxh. by right. }
    destruct ys as [|y ys']; cbn in *; subst n; [by rewrite app_nil_r|].
    apply dseg_app. split; [done|]. destruct Hs2 as (_ & _ & Hs2).
    apply NoDup_cons in Hndy as [Hy Hndy].
    eapply dseg_frame; [exact Hs2|..]; cbn; intros a Ha; rewrite !lookup_insert_ne; try done.
    + revert Hle. generalize (seg_last hd xs). clear -Ha Hhy Hxy. set_solver.
    + clear -Ha Hx. set_solver.
    + clear -Ha Hy Hhy. set_solver.
    + clear -Ha Hx Hhy. set_solver.
  - apply ring_parts. split_and!; [done..|clear -Hhy; set_solver|clear -Hxy; set_solver].
  - clear -H0. set_solver.
  - split; cbn; by rewrite lookup_insert_eq.
  - intros a Ha. cbn.
    assert (a ≠ x ∧ a ≠ seg_last hd xs ∧ a ≠ n) as (?&?&?).
    { revert Hle. generalize (seg_last hd xs). clear -Ha Hn. set_solver. }
    by rewrite !lookup_insert_ne.
Qed.

(** [usfstl_list_item_remove] of an entry [x] of the ring returns, leaves the
    ring holding the other entries in their order, marks [x] as unlinked (both
    its pointers NULL, so that "is on a list" tests [next != NULL] are right)
    and touches nothing outside the ring. *)
Theorem item_remove_correct h hd xs x ys :
  is_list h hd (xs ++ x :: ys) →
  ∃ h', usfstl_list_item_remove x h = Ok (tt, h') ∧
        is_list h' hd (xs ++ ys) ∧ unlinked h' x ∧
        same_outside h h' (hd :: xs ++ x :: ys).
Proof. apply item_remove_ok. Qed.

Lemma item_remove_correct_witness :
  let h := Heap (<[1:=2]> (<[2:=3]> {[3:=1]})) (<[1:=3]> (<[2:=1]> {[3:=2]})) in
  ∃ h', usfstl_list_item_remove 2 h = Ok (tt, h') ∧ is_list h' 1 [3] ∧ unlinked h' 2 ∧
        same_outside h h' [1; 2; 3].
Proof.
  apply (item_remove_correct _ 1 [] 2 [3]).
  split_and!; [done| |set_solver].
  repeat constructor; set_solver.
Defined.

(** ** Traversals *)

(** The successor of an entry of the ring, as [usfstl_next_item] reports it. *)
Lemma next_item_run h hd xs x ys :
  is_list h hd (xs ++ x :: ys) →
  usfstl_next_item hd x h = Ok (default 0 (head ys), h).
Proof.
  intros (Hd & Hnd & H0). apply dseg_app in Hd as [_ Hs].
  unfold usfstl_next_item, load_next, get, deref, mbind, M_bind, mret, M_ret.
  apply ring_parts in Hnd as (_ & _ & _ & Hhy & _). apply not_elem_of_cons in Hhy as [_ Hhy].
  destruct ys as [|y ys]; cbn in *.
  - destruct Hs as [-> _]. by rewrite Z.eqb_refl.
  - destruct Hs as (-> & _). destruct (Z.eqb_spec y hd) as [->|]; [|done].
    clear -Hhy. set_solver.
Qed.

Lemma first_item_run h hd xs :
  is_list h hd xs → usfstl_list_first_item hd h = Ok (default 0 (head xs), h).
Proof.
  intros (Hd & Hnd & _).
  unfold usfstl_list_first_item, usfstl_list_empty, load_next, get, deref,
    mbind, M_bind, mret, M_ret.
  destruct xs as [|x xs]; cbn in *.
  - destruct Hd as [-> _]. cbn. by rewrite Z.eqb_refl.
  - destruct Hd as (Hd & _). rewrite Hd. cbn. apply NoDup_cons in Hnd as [Hx _].
    destruct (Z.eqb_spec x hd) as [->|]; [clear -Hx; set_solver|]. by rewrite Hd.
Qed.

(** The item a traversal is at, given the entries still to visit. *)
Abbreviation item_of l := (default 0 (head l)).

Lemma item_of_ne (hd : Z) (xs : list Z) x ys h :
  is_list h hd (xs ++ x :: ys) → (x =? 0) = false.
Proof. intros (_ & _ & H0). apply Z.eqb_neq. intros ->. clear -H0. set_solver. Qed.

Lemma list_length_loop_run h hd ys x p fuel count :
  dseg h p ys hd → (hd ∉ ys) → h_next h !! p = Some x →
  (length ys < fuel)%nat → count = u32 count →
  list_length_loop fuel hd x count h = Ok (u32 (count + Z.of_nat (length ys)), h).
Proof.
  revert x p fuel count. induction ys as [|y ys IH]; intros x p [|fuel] count Hd Hhd Hx Hf Hc;
    cbn in *; try lia.
  - destruct Hd as [Hd _]. simplify_eq. rewrite Z.eqb_refl. unfold mret, M_ret.
    do 2 f_equal. by rewrite Z.add_0_r.
  - destruct Hd as (Hd1 & _ & Hd). assert (x = y) as -> by congruence.
    apply not_elem_of_cons in Hhd as [Hne Hhd].
    destruct (Z.eqb_spec y hd) as [->|_]; [done|].
    assert (is_Some (h_next h !! y)) as [n Hn].
    { destruct ys; cbn in Hd; destruct Hd; eauto. }
    erewrite bind_ok by (unfold load_next, get, mbind, M_bind, deref; rewrite Hn; done).
    rewrite (IH n y); [|done|done|done|lia|unfold u32; lia].
    do 2 f_equal. unfold u32. lia.
Qed.

(** [usfstl_list_length] terminates on every well-formed list (any fuel above
    the number of entries is enough) and returns the number of entries, as the
    32-bit counter the code uses. *)
Theorem list_length_correct h hd xs fuel :
  is_list h hd xs → (length xs < fuel)%nat →
  usfstl_list_length fuel hd h = Ok (u32 (Z.of_nat (length xs)), h).
Proof.
  intros (Hd & Hnd & _) Hf. apply NoDup_cons in Hnd as [Hhd _].
  assert (is_Some (h_next h !! hd)) as [n Hn] by (destruct xs; cbn in Hd; destruct Hd; eauto).
  unfold usfstl_list_length.
  erewrite bind_ok by (unfold load_next, get, mbind, M_bind, deref; rewrite Hn; done).
  by rewrite (list_length_loop_run _ _ xs _ hd).
Qed.

Lemma list_length_correct_witness :
  usfstl_list_length 5 1 (Heap (<[1:=2]> (<[2:=3]> {[3:=1]})) (<[1:=3]> (<[2:=1]> {[3:=2]})))
  = Ok (2, Heap (<[1:=2]> (<[2:=3]> {[3:=1]})) (<[1:=3]> (<[2:=1]> {[3:=2]}))).
Proof.
  apply (list_length_correct _ 1 [2; 3] 5); [|cbn; lia].
  split_and!; [done| |set_solver]. repeat constructor; set_solver.
Defined.

(** A read-only traversal is a left fold over the contents. *)
Lemma for_each_run {A : Type} (h : heap) hd (body : Z → A → M heap A) (f : Z → A → A) xs :
  is_list h hd xs → (∀ i a, i ∈ xs → body i a h = Ok (f i a, h)) →
  ∀ fuel acc, (length xs < fuel)%nat →
  usfstl_for_each_list_item fuel hd body acc h = Ok (foldl (λ a i, f i a) acc xs, h).
Proof.
  intros Hl Hb fuel acc Hf. unfold usfstl_for_each_list_item.
  erewrite bind_ok by (by eapply first_item_run).
  assert (∀ ys pre fuel acc, xs = pre ++ ys → (length ys < fuel)%nat →
    for_each_loop fuel hd (item_of ys) body acc h = Ok (foldl (λ a i, f i a) acc ys, h)) as Hgen.
  { clear fuel acc Hf. induction ys as [|y ys IH]; intros pre [|fuel] acc -> Hf; cbn in *; try lia; [done|].
    erewrite item_of_ne by done.
    erewrite bind_ok by (apply Hb; clear; set_solver).
    erewrite bind_ok by (by eapply next_item_run).
    apply (IH (pre ++ [y])); [by rewrite <- app_assoc|lia]. }
  by apply (Hgen xs []).
Qed.

(** The body of a loop that unlinks the items selected by [sel]. *)
Definition unlink_body (sel : Z → bool) (i : Z) (seen : list Z) : M heap (list Z) :=
  when (sel i) (usfstl_list_item_remove i);;
  mret (seen ++ [i]).

Lemma for_each_safe_loop_run sel hd rest kept seen fuel h :
  is_list h hd (kept ++ rest) → (length rest < fuel)%nat →
  ∃ h', for_each_safe_loop fuel hd (item_of rest) (item_of (tail rest)) (unlink_body sel) seen h
          = Ok (seen ++ rest, h') ∧
        is_list h' hd (kept ++ List.filter (λ i, negb (sel i)) rest).
Proof.
  revert kept seen fuel h.
  induction rest as [|x rest IH]; intros kept seen [|fuel] h Hl Hf; cbn in *; try lia.
  { exists h. by rewrite app_nil_r. }
  erewrite item_of_ne by done.
  assert (∃ h1, unlink_body sel x seen h = Ok (seen ++ [x], h1) ∧
     is_list h1 hd ((kept ++ (if sel x then [] else [x])) ++ rest)) as (h1 & Hb & Hl1).
  { unfold unlink_body, when. destruct (sel x).
    - destruct (item_remove_ok _ _ _ _ _ Hl) as (h1 & Hr & Hl1 & _).
      exists h1. erewrite bind_ok by done. by rewrite app_nil_r.
    - exists h. by rewrite <- app_assoc. }
  erewrite bind_ok by done. cbn.
  destruct rest as [|y rest]; cbn in *.
  - destruct (IH _ (seen ++ [x]) fuel h1 Hl1) as (h' & Hr & Hl'); [lia|].
    erewrite bind_ok by done. exists h'. rewrite Hr, <- app_assoc.
    split; [done|]. destruct (sel x); cbn in *; by rewrite ?app_nil_r in *.
  - rewrite (item_of_ne _ _ _ _ _ Hl1).
    erewrite bind_ok by (by eapply next_item_run).
    destruct (IH _ (seen ++ [x]) fuel h1 Hl1) as (h' & Hr & Hl'); [lia|].
    exists h'. rewrite Hr, <- app_assoc. split; [done|].
    destruct (sel x); cbn in *; [by rewrite app_nil_r in Hl'|by rewrite <- app_assoc in Hl'].
Qed.

(** [usfstl_for_each_list_item_safe] may be used to unlink entries while the
    list is walked: for every choice of the entries to unlink, the loop ends
    after visiting every entry of the original list exactly once and in order,
    and leaves exactly the entries that were not selected. *)
Theorem for_each_safe_unlink h hd xs sel fuel :
  is_list h hd xs → (length xs < fuel)%nat →
  ∃ h', usfstl_for_each_list_item_safe fuel hd (unlink_body sel) [] h = Ok (xs, h') ∧
        is_list h' hd (List.filter (λ i, negb (sel i)) xs).
Proof.
  intros Hl Hf. unfold usfstl_for_each_list_item_safe.
  erewrite bind_ok by (by eapply first_item_run).
  assert ((if item_of xs =? 0 then mret 0 else usfstl_next_item hd (item_of xs)) h
          = Ok (item_of (tail xs), h)) as Hn.
  { destruct xs as [|x xs]; [done|]. cbn. rewrite (item_of_ne hd [] x xs h Hl).
    by apply (next_item_run _ _ []). }
  erewrite bind_ok by exact Hn.
  by apply (for_each_safe_loop_run sel hd xs [] [] fuel h).
Qed.

Lemma for_each_safe_unlink_witness :
  let h := Heap (<[1:=2]> (<[2:=3]> {[3:=1]})) (<[1:=3]> (<[2:=1]> {[3:=2]})) in
  ∃ h', usfstl_for_each_list_item_safe 5 1 (unlink_body (λ i, i =? 2)) [] h = Ok ([2; 3], h') ∧
        is_list h' 1 [3].
Proof.
  apply (for_each_safe_unlink _ 1 [2; 3] (λ i, i =? 2) 5); [|cbn; lia].
  split_and!; [done| |set_solver]. repeat constructor; set_solver.
Defined.
