(* ===== verification/Sched.v ===== *)
(** * The job scheduler (src/sched.c, include/usfstl/sched.h)

    A world holds the jobs and the schedulers of a process by address, and an
    environment for everything the scheduler calls through its function
    pointers.  A function pointer is a tag of type [F]; what calling it does is
    given by an instance of [SchedEnv], the interface between the scheduler and
    its clients (tasks, linked schedulers, the controller, ...). *)
From S2P Require Import Prelude.

(** ** Time, with wrap-around *)

(** [usfstl_time_cmp(a, op, b)] is [0 op (int64_t)((b) - (a))]. *)
Definition usfstl_time_cmp (a : Z) (op : Z → Z → bool) (b : Z) : bool := op 0 (s64 (b - a)).

Definition DIV_ROUND_UP (a b : Z) : Z := u64 (a + b - 1) / b.

(** ** Data *)

(** Which list a job is linked on through its [entry]. *)
Inductive job_queue := QJobs | QPending.

#[export] Instance job_queue_eq_dec : EqDecision job_queue.
Proof. solve_decision. Defined.

Record usfstl_job (F : Type) := Job {
  start : Z;
  priority : Z;
  group : Z;
  name : string;
  data : Z;
  callback : option F;
  (* the scheduler and list the job is linked on; [None] is [entry.next == NULL] *)
  entry : option (Z * job_queue);
  blocked : bool;
  pending : bool;
}.
Arguments Job {F}.
Arguments start {F}.
Arguments priority {F}.
Arguments group {F}.
Arguments name {F}.
Arguments data {F}.
Arguments callback {F}.
Arguments entry {F}.
Arguments blocked {F}.
Arguments pending {F}.
#[export] Instance job_settable F : Settable (usfstl_job F) := λ r,
  Job (start r) (priority r) (group r) (name r) (data r) (callback r) (entry r)
      (blocked r) (pending r).

(** A zeroed job ([calloc], [memset]). *)
Definition job_zero {F : Type} : usfstl_job F := Job 0 0 0 EmptyString 0 None None false false.

Inductive usfstl_sched_req_status :=
  | USFSTL_SCHED_REQ_STATUS_CAN_RUN
  | USFSTL_SCHED_REQ_STATUS_WAIT.

Record sched_wallclock := Wallclock {
  wc_fd : Z;
  wc_start : Z;
  wc_nsec_per_tick : Z;
  wc_timer_triggered : bool;
  wc_initialized : bool;
}.
#[export] Instance wallclock_settable : Settable sched_wallclock := λ r,
  Wallclock (wc_fd r) (wc_start r) (wc_nsec_per_tick r) (wc_timer_triggered r) (wc_initialized r).

(** [link.job] is embedded in the scheduler; it is the job at address
    [link_job]. *)
Record sched_link := Link {
  link_parent : option Z;
  link_offset : Z;
  link_tick_ratio : Z;
  link_job : Z;
  link_waiting : bool;
}.
#[export] Instance link_settable : Settable sched_link := λ r,
  Link (link_parent r) (link_offset r) (link_tick_ratio r) (link_job r) (link_waiting r).

Record usfstl_scheduler (F : Type) := Scheduler {
  external_request : option F;
  external_wait : option F;
  external_get_time : option F;
  external_set_time : option F;
  time_advanced : option F;
  next_time_changed : option F;
  sched_name : string;
  current_time : Z;
  prev_external_sync : Z;
  next_external_sync : Z;
  joblist : list Z;
  pending_jobs : list Z;
  allowed_job : option Z;
  blocked_groups : Z;
  next_external_sync_set : bool;
  prev_external_sync_set : bool;
  waiting : bool;
  wallclock : sched_wallclock;
  link : sched_link;
  ext_ctrl : option Z;
}.
Arguments Scheduler {F}.
Arguments external_request {F}.
Arguments external_wait {F}.
Arguments external_get_time {F}.
Arguments external_set_time {F}.
Arguments time_advanced {F}.
Arguments next_time_changed {F}.
Arguments sched_name {F}.
Arguments current_time {F}.
Arguments prev_external_sync {F}.
Arguments next_external_sync {F}.
Arguments joblist {F}.
Arguments pending_jobs {F}.
Arguments allowed_job {F}.
Arguments blocked_groups {F}.
Arguments next_external_sync_set {F}.
Arguments prev_external_sync_set {F}.
Arguments waiting {F}.
Arguments wallclock {F}.
Arguments link {F}.
Arguments ext_ctrl {F}.
#[export] Instance scheduler_settable F : Settable (usfstl_scheduler F) := λ r,
  Scheduler (external_request r) (external_wait r) (external_get_time r) (external_set_time r)
    (time_advanced r) (next_time_changed r) (sched_name r) (current_time r) (prev_external_sync r)
    (next_external_sync r) (joblist r) (pending_jobs r) (allowed_job r) (blocked_groups r)
    (next_external_sync_set r) (prev_external_sync_set r) (waiting r) (wallclock r) (link r)
    (ext_ctrl r).

(** [USFSTL_SCHEDULER(name)]: all zero, both lists empty. *)
Definition USFSTL_SCHEDULER {F : Type} (_name : string) (link_job_addr : Z) : usfstl_scheduler F :=
  Scheduler None None None None None None _name 0 0 0 [] [] None 0 false false false
    (Wallclock 0 0 0 false false) (Link None 0 0 link_job_addr false) None.

Record usfstl_sched_block_data := BlockData {
  bd_groups : Z;
  bd_job : option Z;
}.

(** ** The world and the interface to the clients *)

Record world (E F : Type) := World {
  jobs : gmap Z (usfstl_job F);
  scheds : gmap Z (usfstl_scheduler F);
  env : E;
}.
Arguments World {E F}.
Arguments jobs {E F}.
Arguments scheds {E F}.
Arguments env {E F}.
#[export] Instance world_settable E F : Settable (world E F) := λ r,
  World (jobs r) (scheds r) (env r).

(** What the calls through the scheduler's and the jobs' function pointers do;
    the second argument is the scheduler (the job for [call_callback]). *)
Class SchedEnv (E F : Type) := {
  disable_skip_external_request : bool;
  call_request : F → Z → Z → M (world E F) usfstl_sched_req_status;
  call_wait : F → Z → M (world E F) unit;
  call_get_time : F → Z → M (world E F) Z;
  call_set_time : F → Z → Z → M (world E F) unit;
  call_time_advanced : F → Z → Z → M (world E F) unit;
  call_next_time_changed : F → Z → M (world E F) unit;
  call_callback : F → Z → M (world E F) unit;
}.

(** The environment whose every call runs out of fuel, and the [n]-fold
    unfolding of callbacks that call back into the scheduler. *)
Definition env_bottom {E F : Type} : SchedEnv E F := {|
  disable_skip_external_request := false;
  call_request _ _ _ := fail OutOfFuel;
  call_wait _ _ := fail OutOfFuel;
  call_get_time _ _ := fail OutOfFuel;
  call_set_time _ _ _ := fail OutOfFuel;
  call_time_advanced _ _ _ := fail OutOfFuel;
  call_next_time_changed _ _ := fail OutOfFuel;
  call_callback _ _ := fail OutOfFuel;
|}.

Fixpoint tie {E F : Type} (n : nat) (G : SchedEnv E F → SchedEnv E F) : SchedEnv E F :=
  match n with
  | O => env_bottom
  | S n => G (tie n G)
  end.

(** The function pointers that [usfstl_sched_link] installs. *)
Class LinkFns (F : Type) := {
  link_external_request_fn : F;
  link_external_wait_fn : F;
  link_external_get_time_fn : F;
  link_external_set_time_fn : F;
  link_job_callback_fn : F;
}.

(** ** The scheduler's operations *)
Section sched.
Context {E F : Type}.
Abbreviation W := (world E F).

Definition get_job (j : Z) : M W (usfstl_job F) := w ← get; deref (jobs w !! j).
Definition get_sched (s : Z) : M W (usfstl_scheduler F) := w ← get; deref (scheds w !! s).
Definition put_job (j : Z) (jb : usfstl_job F) : M W unit :=
  modify (λ w, w <| jobs := <[j:=jb]> (jobs w) |>).
Definition put_sched (s : Z) (sc : usfstl_scheduler F) : M W unit :=
  modify (λ w, w <| scheds := <[s:=sc]> (scheds w) |>).
Definition upd_job (j : Z) (f : usfstl_job F → usfstl_job F) : M W unit :=
  jb ← get_job j; put_job j (f jb).
Definition upd_sched (s : Z) (f : usfstl_scheduler F → usfstl_scheduler F) : M W unit :=
  sc ← get_sched s; put_sched s (f sc).

(** The list views of [joblist] and [pending_jobs]. *)
Definition queue (q : job_queue) (sc : usfstl_scheduler F) : list Z :=
  match q with QJobs => joblist sc | QPending => pending_jobs sc end.
Definition set_queue (q : job_queue) (l : list Z) (sc : usfstl_scheduler F) : usfstl_scheduler F :=
  match q with QJobs => sc <| joblist := l |> | QPending => sc <| pending_jobs := l |> end.

(** [usfstl_list_append(&sched->q, &job->entry)]. *)
Definition queue_append (s : Z) (q : job_queue) (j : Z) : M W unit :=
  upd_sched s (λ sc, set_queue q (queue q sc ++ [j]) sc);;
  upd_job j (λ jb, jb <| entry := Some (s, q) |>).

(** The entry after [j] on [l]. *)
Fixpoint successor (j : Z) (l : list Z) : option Z :=
  match l with
  | [] => None
  | x :: l' => if x =? j then head l' else successor j l'
  end.

(** [usfstl_next_item(&sched->q, job, struct usfstl_job, entry)]; a job that
    is not on that list has no valid [next]. *)
Definition next_item (s : Z) (q : job_queue) (j : Z) : M W (option Z) :=
  jb ← get_job j;
  sc ← get_sched s;
  if decide (entry jb = Some (s, q)) then mret (successor j (queue q sc))
  else fail NullDeref.

(** [usfstl_for_each_list_item_continue_safe(job, next, &sched->q, entry)],
    from [job == NULL]. *)
Fixpoint for_each_safe_loop (fuel : nat) (s : Z) (q : job_queue) (item next : option Z)
    (body : Z → M W unit) : M W unit :=
  match fuel with
  | O => fail OutOfFuel
  | S fuel =>
      match item with
      | None => mret tt
      | Some j =>
          body j;;
          n ← match next with None => mret None | Some x => next_item s q x end;
          for_each_safe_loop fuel s q next n body
      end
  end.

Definition for_each_safe (fuel : nat) (s : Z) (q : job_queue) (body : Z → M W unit) : M W unit :=
  sc ← get_sched s;
  let item := head (queue q sc) in
  n ← match item with None => mret None | Some x => next_item s q x end;
  for_each_safe_loop fuel s q item n body.

Definition usfstl_job_scheduled (j : Z) : M W bool :=
  jb ← get_job j;
  mret (match entry jb with None => false | Some _ => true end).

Definition usfstl_sched_del_job (j : Z) : M W unit :=
  b ← usfstl_job_scheduled j;
  if negb b then mret tt
  else
    jb ← get_job j;
    match entry jb with
    | None => mret tt
    | Some (s, q) =>
        upd_sched s (λ sc, set_queue q (List.filter (λ x, negb (x =? j)) (queue q sc)) sc);;
        upd_job j (λ jb, jb <| entry := None |>)
    end.

Definition usfstl_sched_next_pending (s : Z) (job : option Z) : M W (option Z) :=
  match job with
  | Some j => next_item s QJobs j
  | None => sc ← get_sched s; mret (head (joblist sc))
  end.

Context `{SE : SchedEnv E F}.

Definition usfstl_sched_current_time (s : Z) : M W Z :=
  sc ← get_sched s;
  match external_get_time sc with
  | Some f => call_get_time f s
  | None => mret (current_time sc)
  end.

Definition usfstl_sched_external_request (s : Z) (time : Z) : M W usfstl_sched_req_status :=
  sc ← get_sched s;
  match external_request sc with
  | None => mret USFSTL_SCHED_REQ_STATUS_CAN_RUN
  | Some f =>
      if negb disable_skip_external_request && negb (waiting sc) && next_external_sync_set sc &&
         usfstl_time_cmp time Z.ltb (next_external_sync sc)
      then mret USFSTL_SCHED_REQ_STATUS_CAN_RUN
      else if waiting sc && prev_external_sync_set sc && (time =? prev_external_sync sc)
      then mret USFSTL_SCHED_REQ_STATUS_WAIT
      else
        put_sched s (sc <| prev_external_sync := time |> <| prev_external_sync_set := true |>);;
        call_request f s time
  end.

Definition usfstl_sched_external_wait (s : Z) : M W unit :=
  upd_sched s (λ sc, sc <| prev_external_sync_set := false |> <| waiting := true |>);;
  sc ← get_sched s;
  f ← deref (external_wait sc);
  call_wait f s;;
  upd_sched s (λ sc, sc <| waiting := false |>).

(** Whether the insertion loop of [usfstl_sched_add_job] stops at [tmp]. *)
Definition add_job_stops (tmp jb : usfstl_job F) : bool :=
  usfstl_time_cmp (start tmp) Z.gtb (start jb) ||
  ((start tmp =? start jb) && (priority tmp <? priority jb)).

(** The joblist with [j] inserted before the first entry the loop stops at. *)
Fixpoint insert_job (js : gmap Z (usfstl_job F)) (jb : usfstl_job F) (j : Z) (l : list Z)
    : option (list Z) :=
  match l with
  | [] => Some [j]
  | tmp :: l' =>
      tj ← js !! tmp;
      if add_job_stops tj jb then Some (j :: l)
      else cons tmp <$> insert_job js jb j l'
  end.

Definition usfstl_sched_add_job (s j : Z) : M W unit :=
  jb ← get_job j;
  now ← usfstl_sched_current_time s;
  usfstl_assert (usfstl_time_cmp (start jb) Z.geb now);;
  scheduled ← usfstl_job_scheduled j;
  usfstl_assert (negb scheduled);;
  jb ← get_job j;
  usfstl_assert (group jb <? 32);;
  sc ← get_sched s;
  if (blocked jb : bool) then
    put_job j (jb <| start := 0 |> <| pending := true |>)
  else if has_bit (blocked_groups sc) (group jb) && negb (bool_decide (allowed_job sc = Some j)) then
    put_job j (jb <| start := 0 |>);;
    queue_append s QPending j
  else
    w ← get;
    l ← deref (insert_job (jobs w) jb j (joblist sc));
    put_sched s (sc <| joblist := l |>);;
    put_job j (jb <| entry := Some (s, QJobs) |>);;
    usfstl_sched_external_request s (start jb);;
    sc ← get_sched s;
    match next_time_changed sc with
    | Some f => call_next_time_changed f s
    | None => mret tt
    end.

Definition _usfstl_sched_set_time (s time : Z) : M W unit :=
  sc ← get_sched s;
  match external_set_time sc with
  | Some f => call_set_time f s time
  | None => mret tt
  end;;
  sc ← get_sched s;
  now ← match external_get_time sc with
        | Some _ =>
            now ← usfstl_sched_current_time s;
            usfstl_assert (usfstl_time_cmp time Z.eqb now);;
            mret now
        | None =>
            usfstl_assert (usfstl_time_cmp time Z.geb (current_time sc));;
            put_sched s (sc <| current_time := time |>);;
            mret time
        end;
  if now =? time then mret tt
  else
    sc ← get_sched s;
    match time_advanced sc with
    | Some f => call_time_advanced f s (u64 (time - now))
    | None => mret tt
    end.

Definition usfstl_sched_set_time (s time : Z) : M W unit :=
  job ← usfstl_sched_next_pending s None;
  match job with
  | None => mret tt
  | Some j => jb ← get_job j; usfstl_assert (usfstl_time_cmp time Z.leb (start jb))
  end;;
  _usfstl_sched_set_time s time.

Definition usfstl_sched_forward (s until : Z) : M W unit :=
  now ← usfstl_sched_current_time s;
  usfstl_assert (usfstl_time_cmp until Z.geb now);;
  st ← usfstl_sched_external_request s until;
  match st with
  | USFSTL_SCHED_REQ_STATUS_WAIT => usfstl_sched_external_wait s
  | USFSTL_SCHED_REQ_STATUS_CAN_RUN => _usfstl_sched_set_time s until
  end.

Definition usfstl_sched_start (s : Z) : M W unit :=
  now ← usfstl_sched_current_time s;
  st ← usfstl_sched_external_request s now;
  match st with
  | USFSTL_SCHED_REQ_STATUS_WAIT => usfstl_sched_external_wait s
  | USFSTL_SCHED_REQ_STATUS_CAN_RUN => mret tt
  end.

(** [usfstl_sched_next]: each round of the [while (true)] loop takes one unit
    of fuel.  Returns the job that was run. *)
Fixpoint usfstl_sched_next (fuel : nat) (s : Z) : M W Z :=
  match fuel with
  | O => fail OutOfFuel
  | S fuel =>
      job ← usfstl_sched_next_pending s None;
      match job with
      | None =>
          sc ← get_sched s;
          match external_request sc with
          | Some _ => usfstl_sched_external_wait s;; usfstl_sched_next fuel s
          | None => fail Assertion
          end
      | Some j =>
          jb ← get_job j;
          now ← usfstl_sched_current_time s;
          when (usfstl_time_cmp (start jb) Z.gtb now) (usfstl_sched_forward s (start jb));;
          job' ← usfstl_sched_next_pending s None;
          if bool_decide (job' = Some j) then
            usfstl_sched_del_job j;;
            jb ← get_job j;
            f ← deref (callback jb);
            call_callback f j;;
            mret j
          else usfstl_sched_next fuel s
      end
  end.

Definition usfstl_sched_set_sync_time (s time : Z) : M W unit :=
  now ← usfstl_sched_current_time s;
  usfstl_assert (usfstl_time_cmp time Z.geb now);;
  upd_sched s (λ sc, sc <| next_external_sync := time |> <| next_external_sync_set := true |>).

Definition usfstl_sched_block_job_in_group (s j : Z) : M W unit :=
  usfstl_sched_del_job j;;
  queue_append s QPending j.

Definition usfstl_sched_remove_blocked_jobs (fuel : nat) (s : Z) : M W unit :=
  for_each_safe fuel s QJobs (λ j,
    sc ← get_sched s;
    jb ← get_job j;
    if bool_decide (allowed_job sc = Some j) then mret tt
    else when (has_bit (blocked_groups sc) (group jb)) (usfstl_sched_block_job_in_group s j)).

Definition usfstl_sched_restore_job (s j : Z) : M W unit :=
  usfstl_sched_del_job j;;
  jb ← get_job j;
  now ← usfstl_sched_current_time s;
  when (usfstl_time_cmp (start jb) Z.ltb now)
    (now' ← usfstl_sched_current_time s; upd_job j (λ jb, jb <| start := now' |>));;
  usfstl_sched_add_job s j.

Definition usfstl_sched_restore_blocked_jobs (fuel : nat) (s : Z) : M W unit :=
  for_each_safe fuel s QPending (λ j,
    sc ← get_sched s;
    jb ← get_job j;
    when (bool_decide (allowed_job sc = Some j) || negb (has_bit (blocked_groups sc) (group jb)))
      (usfstl_sched_restore_job s j)).

(** The saved block data is the result. *)
Definition usfstl_sched_block_groups (fuel : nat) (s groups : Z) (job : option Z)
    : M W usfstl_sched_block_data :=
  sc ← get_sched s;
  let save := BlockData (blocked_groups sc) (allowed_job sc) in
  match job with
  | None => mret tt
  | Some j =>
      jb ← get_job j;
      usfstl_assert (has_bit (Z.lor groups (bd_groups save)) (group jb));;
      usfstl_assert (negb (blocked jb))
  end;;
  put_sched s (sc <| blocked_groups := Z.lor (blocked_groups sc) groups |>
                  <| allowed_job := job |>);;
  usfstl_sched_remove_blocked_jobs fuel s;;
  mret save.

Definition usfstl_sched_restore_groups (fuel : nat) (s : Z) (restore : usfstl_sched_block_data)
    : M W unit :=
  upd_sched s (λ sc, sc <| blocked_groups := bd_groups restore |>
                        <| allowed_job := bd_job restore |>);;
  usfstl_sched_restore_blocked_jobs fuel s;;
  usfstl_sched_remove_blocked_jobs fuel s.

Definition usfstl_sched_block_job (s j : Z) : M W unit :=
  jb ← get_job j;
  usfstl_assert (negb (blocked jb));;
  usfstl_assert (negb (pending jb));;
  put_job j (jb <| blocked := true |>);;
  b ← usfstl_job_scheduled j;
  when b (upd_job j (λ jb, jb <| pending := true |>);; usfstl_sched_del_job j).

Definition usfstl_sched_unblock_job (s j : Z) : M W unit :=
  jb ← get_job j;
  usfstl_assert (blocked jb);;
  put_job j (jb <| blocked := false |>);;
  when (pending jb)
    (upd_job j (λ jb, jb <| pending := false |>);; usfstl_sched_restore_job s j).

Definition usfstl_sched_get_sync_time (s : Z) : M W Z :=
  time ← usfstl_sched_current_time s;
  sc ← get_sched s;
  let sync := u64 (time + 2^62) in
  let sync :=
    if next_external_sync_set sc && usfstl_time_cmp sync Z.gtb (next_external_sync sc) &&
       usfstl_time_cmp (next_external_sync sc) Z.geb time
    then next_external_sync sc else sync in
  job ← usfstl_sched_next_pending s None;
  match job with
  | None => mret sync
  | Some j =>
      jb ← get_job j;
      mret (if usfstl_time_cmp (start jb) Z.ltb sync then start jb else sync)
  end.

(** ** Linking a scheduler under a parent *)

Definition usfstl_sched_link_job_callback (j : Z) : M W unit :=
  jb ← get_job j;
  upd_sched (data jb) (λ sc, sc <| link := (link sc) <| link_waiting := false |> |>).

Definition usfstl_sched_link_external_get_time (s : Z) : M W Z :=
  sc ← get_sched s;
  p ← deref (link_parent (link sc));
  parent_time ← usfstl_sched_current_time p;
  mret (DIV_ROUND_UP (u64 (parent_time - link_offset (link sc))) (link_tick_ratio (link sc))).

Definition link_to_parent (lk : sched_link) (time : Z) : Z :=
  u64 (link_tick_ratio lk * time + link_offset lk).

Definition usfstl_sched_link_external_set_time (s time : Z) : M W unit :=
  sc ← get_sched s;
  p ← deref (link_parent (link sc));
  usfstl_sched_set_time p (link_to_parent (link sc) time).

(** [while (sched->link.waiting) usfstl_sched_next(sched->link.parent);] *)
Fixpoint link_wait_loop (fuel next_fuel : nat) (s : Z) : M W unit :=
  match fuel with
  | O => fail OutOfFuel
  | S fuel =>
      sc ← get_sched s;
      if link_waiting (link sc) then
        p ← deref (link_parent (link sc));
        usfstl_sched_next next_fuel p;;
        link_wait_loop fuel next_fuel s
      else mret tt
  end.

Definition usfstl_sched_link_external_wait (fuel next_fuel : nat) (s : Z) : M W unit :=
  upd_sched s (λ sc, sc <| link := (link sc) <| link_waiting := true |> |>);;
  link_wait_loop fuel next_fuel s;;
  now ← usfstl_sched_current_time s;
  usfstl_sched_set_time s now.

Definition usfstl_sched_link_external_request (s time : Z) : M W usfstl_sched_req_status :=
  sc ← get_sched s;
  let job := link_job (link sc) in
  usfstl_sched_del_job job;;
  upd_job job (λ jb, jb <| start := link_to_parent (link sc) time |>);;
  p ← deref (link_parent (link sc));
  usfstl_sched_add_job p job;;
  mret USFSTL_SCHED_REQ_STATUS_WAIT.

Context `{LF : LinkFns F}.

Definition usfstl_sched_link (s parent tick_ratio : Z) : M W unit :=
  usfstl_assert (negb (tick_ratio =? 0));;
  sc ← get_sched s;
  usfstl_assert (bool_decide (link_parent (link sc) = None));;
  usfstl_assert (match external_request sc with None => true | _ => false end);;
  usfstl_assert (match external_wait sc with None => true | _ => false end);;
  usfstl_assert (match external_get_time sc with None => true | _ => false end);;
  usfstl_assert (match external_set_time sc with None => true | _ => false end);;
  put_sched s (sc <| external_request := Some link_external_request_fn |>
                  <| external_wait := Some link_external_wait_fn |>
                  <| external_get_time := Some link_external_get_time_fn |>
                  <| external_set_time := Some link_external_set_time_fn |>
                  <| link := (link sc) <| link_tick_ratio := tick_ratio |>
                                       <| link_parent := Some parent |> |>);;
  upd_job (link_job (link sc)) (λ jb,
    jb <| callback := Some link_job_callback_fn |> <| data := s |> <| name := sched_name sc |>);;
  parent_time ← usfstl_sched_current_time parent;
  upd_sched s (λ sc, sc <| link := (link sc) <| link_offset :=
    s64 (parent_time - u64 (current_time sc * tick_ratio)) |> |>);;
  job ← usfstl_sched_next_pending s None;
  match job with
  | None => mret tt
  | Some j =>
      jb ← get_job j;
      usfstl_sched_external_request s (start jb);;
      mret tt
  end.

Definition usfstl_sched_unlink (s : Z) : M W unit :=
  sc ← get_sched s;
  usfstl_assert (match link_parent (link sc) with None => false | _ => true end);;
  now ← usfstl_sched_current_time s;
  upd_sched s (λ sc, sc <| current_time := now |> <| external_get_time := None |>
    <| external_set_time := None |> <| external_wait := None |> <| external_request := None |>);;
  usfstl_sched_del_job (link_job (link sc));;
  put_job (link_job (link sc)) job_zero;;
  upd_sched s (λ sc, sc <| link := Link None 0 0 (link_job (link sc)) false |>).

End sched.
