(* ===== verification/SchedQueue.v ===== *)
(** * The scheduler's queue: ordering, invariant and blocking

    Theorems on src/sched.c for schedulers that keep their own clock: the
    joblist is sorted by (start, priority, insertion order) under wrap-around
    time comparison, the operations keep the queue invariant, and running the
    scheduler executes the jobs in that order. *)
From stdpp Require Import sorting.
From S2P Require Import Prelude Sched.

(** ** Time comparison inside a window *)

(** The distance from [now] forward to [t]. *)
Definition off (now t : Z) : Z := u64 (t - now).

Lemma off_range now t : 0 ≤ off now t < 2^64.
Proof. apply u64_range. Qed.

Lemma s64_off now a b :
  off now a < 2^63 → off now b < 2^63 → s64 (b - a) = off now b - off now a.
Proof.
  unfold off, u64, s64. intros Ha Hb.
  destruct (Z.ltb_spec ((b - a) mod 2^64) (2^63)); lia.
Qed.

Lemma off_self now : off now now = 0.
Proof. unfold off, u64. by rewrite Z.sub_diag. Qed.

Lemma off_inj now a b :
  0 ≤ a < 2^64 → 0 ≤ b < 2^64 → off now a = off now b → a = b.
Proof. unfold off, u64. intros. lia. Qed.

(** Moving the reference forward to [now'] shifts all later distances. *)
Lemma off_shift now now' t :
  off now now' ≤ off now t → off now' t = off now t - off now now'.
Proof. unfold off, u64. intros. lia. Qed.

Lemma time_lt_window now a b :
  off now a < 2^63 → off now b < 2^63 →
  usfstl_time_cmp a Z.ltb b = (off now a <? off now b).
Proof. intros. unfold usfstl_time_cmp. rewrite (s64_off now) by done. lia. Qed.

Lemma time_gt_window now a b :
  off now a < 2^63 → off now b < 2^63 →
  usfstl_time_cmp a Z.gtb b = (off now b <? off now a).
Proof. intros. unfold usfstl_time_cmp. rewrite (s64_off now) by done. lia. Qed.

Lemma time_ge_now now t :
  usfstl_time_cmp t Z.geb now = true ↔ off now t ≤ 2^63.
Proof.
  unfold usfstl_time_cmp, off, u64, s64.
  destruct (Z.ltb_spec ((now - t) mod 2^64) (2^63)); lia.
Qed.

Lemma time_le_window now a b :
  off now a < 2^63 → off now b < 2^63 →
  usfstl_time_cmp a Z.leb b = (off now a <=? off now b).
Proof. intros. unfold usfstl_time_cmp. rewrite (s64_off now) by done. lia. Qed.

(** ** The order of jobs *)
Section order.
Context {F : Type}.
Implicit Types a b c jb : usfstl_job F.
Implicit Types js : gmap Z (usfstl_job F).

(** [a] runs no later than [b]: earlier start, or the same start and at least
    the priority. *)
Definition job_le (now : Z) a b : Prop :=
  off now (start a) < off now (start b) ∨
  (off now (start a) = off now (start b) ∧ priority b ≤ priority a).

Definition job_lt (now : Z) a b : Prop := ¬ job_le now b a.

Lemma job_le_trans now a b c : job_le now a b → job_le now b c → job_le now a c.
Proof. unfold job_le. lia. Qed.

Lemma job_lt_le now a b : job_lt now a b → job_le now a b.
Proof. unfold job_lt, job_le. lia. Qed.

Definition in_window (now : Z) a : Prop := 0 ≤ start a < 2^64 ∧ off now (start a) < 2^63.

Lemma stops_spec now a b :
  in_window now a → in_window now b →
  add_job_stops a b = true ↔ job_lt now b a.
Proof.
  intros [Ha Ha'] [Hb Hb']. unfold add_job_stops, job_lt, job_le.
  rewrite (time_gt_window now) by done.
  destruct (Z.eqb_spec (start a) (start b)) as [Heq|Hne].
  - rewrite Heq. lia.
  - assert (off now (start a) ≠ off now (start b)) by (intros ?; apply Hne; by eapply off_inj).
    lia.
Qed.

(** The job at an address (the queue lemmas only use it for mapped addresses). *)
Definition job_at js (i : Z) : usfstl_job F := default job_zero (js !! i).

Definition queue_le (now : Z) js (i k : Z) : Prop := job_le now (job_at js i) (job_at js k).

Definition queue_sorted (now : Z) js (l : list Z) : Prop := StronglySorted (queue_le now js) l.

Definition queue_window (now : Z) js (l : list Z) : Prop :=
  ∀ i, i ∈ l → is_Some (js !! i) ∧ in_window now (job_at js i).

Lemma queue_sorted_ext now js js' l :
  (∀ i, i ∈ l → start (job_at js' i) = start (job_at js i) ∧
                priority (job_at js' i) = priority (job_at js i)) →
  queue_sorted now js l → queue_sorted now js' l.
Proof.
  induction l as [|x l IH]; intros Hext Hs; [constructor|].
  apply StronglySorted_inv in Hs as [Hs Hx]. constructor.
  - apply IH; [|done]. intros i Hi. apply Hext. by right.
  - rewrite Forall_forall in Hx |- *. intros y Hy. specialize (Hx y Hy).
    destruct (Hext x) as [E1 E2]; [by left|].
    destruct (Hext y) as [E3 E4]; [by right|].
    unfold queue_le, job_le in *. by rewrite E1, E2, E3, E4.
Qed.

(** Only one order of the jobs is sorted, if no two have the same start and
    priority. *)
Definition distinct_keys js (l : list Z) : Prop :=
  ∀ i k, i ∈ l → k ∈ l → start (job_at js i) = start (job_at js k) →
    priority (job_at js i) = priority (job_at js k) → i = k.

Lemma queue_sorted_unique now js l1 l2 :
  distinct_keys js l2 → queue_window now js l2 → l1 ≡ₚ l2 →
  queue_sorted now js l1 → queue_sorted now js l2 → l1 = l2.
Proof.
  intros Hd Hw Hp Hs1 Hs2. apply (StronglySorted_unique_strong (queue_le now js)); [|done..].
  intros i k Hi Hk Hik Hki. rewrite Hp in Hi. destruct (Hw i Hi) as [_ [Ri _]]. destruct (Hw k Hk) as [_ [Rk _]].
  apply Hd; [done|done| |unfold queue_le, job_le in *; lia].
  apply (off_inj now); [done|done|]. unfold queue_le, job_le in *. lia.
Qed.

(** What the insertion loop computes. *)
Lemma insert_job_spec now js jb j l :
  queue_window now js l → in_window now jb → queue_sorted now js l →
  ∃ l1 l2, l = l1 ++ l2 ∧ insert_job js jb j l = Some (l1 ++ j :: l2) ∧
    (∀ i, i ∈ l1 → job_le now (job_at js i) jb) ∧
    (∀ i, i ∈ l2 → job_lt now jb (job_at js i)).
Proof.
  intros Hw Hjb. induction l as [|x l IH]; intros Hs.
  { exists [], []. split_and!; [done..|set_solver|set_solver]. }
  destruct (Hw x) as [[tj Htj] Hwx]; [by left|].
  assert (job_at js x = tj) as Hat by (unfold job_at; by rewrite Htj).
  cbn. rewrite Htj. cbn. apply StronglySorted_inv in Hs as [Hs Hx].
  destruct (add_job_stops tj jb) eqn:Est.
  - exists [], (x :: l). split_and!; [done..|set_solver|].
    rewrite <- Hat in Est. apply (stops_spec now) in Est; [|done..].
    intros i [->|Hi]%elem_of_cons; [done|].
    rewrite Forall_forall in Hx. specialize (Hx i Hi).
    unfold queue_le, job_lt, job_le in *. lia.
  - destruct IH as (l1 & l2 & -> & -> & H1 & H2); [intros i Hi; apply Hw; by right|done|].
    exists (x :: l1), l2. split_and!; [done..| |done].
    intros i [->|Hi]%elem_of_cons; [|by apply H1].
    assert (¬ job_lt now jb (job_at js x)) as Hlt.
    { rewrite <- stops_spec by done. congruence. }
    unfold job_lt, job_le in *. lia.
Qed.
End order.

(** ** The invariant *)
Section invariant.
Context {E F : Type}.
Implicit Types w : world E F.
Implicit Types sc : usfstl_scheduler F.
Implicit Types jb : usfstl_job F.

(** The [entry] of a job and the lists agree, and no job is on a list twice. *)
Definition links_ok w : Prop :=
  (∀ s sc q, scheds w !! s = Some sc →
     NoDup (queue q sc) ∧
     ∀ j, j ∈ queue q sc ↔ ∃ jb, jobs w !! j = Some jb ∧ entry jb = Some (s, q)) ∧
  (∀ j jb s q, jobs w !! j = Some jb → entry jb = Some (s, q) → is_Some (scheds w !! s)).

(** A scheduler with its own clock has a sorted joblist, all of it less than
    half the clock's range ahead of the current time. *)
Definition order_ok w : Prop :=
  ∀ s sc, scheds w !! s = Some sc →
    0 ≤ current_time sc < 2^64 ∧
    (external_get_time sc = None →
       queue_sorted (current_time sc) (jobs w) (joblist sc) ∧
       queue_window (current_time sc) (jobs w) (joblist sc)).

(** A job may sit on the joblist: its group is not blocked, or it is the one
    that is allowed anyway. *)
Definition eligible sc (j : Z) jb : Prop :=
  has_bit (blocked_groups sc) (group jb) = true → allowed_job sc = Some j.

(** [x] is the scheduler, if any, whose groups are just being changed. *)
Definition groups_ok (x : option Z) w : Prop :=
  ∀ s sc j jb, x ≠ Some s → scheds w !! s = Some sc → j ∈ joblist sc →
    jobs w !! j = Some jb → eligible sc j jb.

Definition flags_ok w : Prop :=
  ∀ j jb, jobs w !! j = Some jb →
    0 ≤ start jb < 2^64 ∧ 0 ≤ group jb ∧
    (blocked jb = true → entry jb = None) ∧ (pending jb = true → blocked jb = true).

Record world_wf_but (x : option Z) w : Prop := {
  ww_links : links_ok w;
  ww_order : order_ok w;
  ww_groups : groups_ok x w;
  ww_flags : flags_ok w;
}.
Definition world_wf w : Prop := world_wf_but None w.

(** *** Lemmas on lookups *)

Ltac lk :=
  repeat match goal with
  | H : <[_:=_]> _ !! _ = Some _ |- _ =>
      apply lookup_insert_Some in H as [[? ?]|[? H]]; subst
  end.

Lemma job_at_insert_ne (js : gmap Z (usfstl_job F)) j jb i :
  i ≠ j → job_at (<[j:=jb]> js) i = job_at js i.
Proof. intros. unfold job_at. by rewrite lookup_insert_ne. Qed.

Lemma job_at_insert (js : gmap Z (usfstl_job F)) j jb : job_at (<[j:=jb]> js) j = jb.
Proof. unfold job_at. by rewrite lookup_insert_eq. Qed.

Lemma job_at_some (js : gmap Z (usfstl_job F)) j jb : js !! j = Some jb → job_at js j = jb.
Proof. unfold job_at. by intros ->. Qed.

Lemma queue_window_ext now (js js' : gmap Z (usfstl_job F)) l :
  (∀ i, i ∈ l → is_Some (js' !! i) ∧ start (job_at js' i) = start (job_at js i)) →
  queue_window now js l → queue_window now js' l.
Proof.
  intros Hext Hw i Hi. destruct (Hw i Hi) as [_ [H1 H2]]. destruct (Hext i Hi) as [? Hst].
  split; [done|]. unfold in_window. by rewrite Hst.
Qed.

Lemma queue_set_queue q l sc : queue q (set_queue q l sc) = l.
Proof. by destruct q. Qed.

Lemma queue_set_queue_ne q q' l sc : q ≠ q' → queue q (set_queue q' l sc) = queue q sc.
Proof. by destruct q, q'. Qed.

Lemma not_queued w s sc q j jb :
  links_ok w → scheds w !! s = Some sc → jobs w !! j = Some jb →
  entry jb ≠ Some (s, q) → j ∉ queue q sc.
Proof.
  intros [Hl _] Hs Hj He Hin. apply (Hl _ _ _ Hs) in Hin as (jb' & Hj' & He'). by simplify_eq.
Qed.

Lemma queued_ne w s sc q j jb i :
  links_ok w → scheds w !! s = Some sc → jobs w !! j = Some jb →
  entry jb = None → i ∈ queue q sc → i ≠ j.
Proof.
  intros Hl Hs Hj He Hi ->. eapply not_queued in Hi; try done. by rewrite He.
Qed.

(** *** Replacing an unlinked job by an unlinked job *)
Section put_unlinked.
Context (w : world E F) (j : Z) (jb0 jb : usfstl_job F).
Context (Hj : jobs w !! j = Some jb0) (He0 : entry jb0 = None) (He : entry jb = None).
Abbreviation w' := (w <| jobs := <[j:=jb]> (jobs w) |>).

Lemma put_unlinked_links : links_ok w → links_ok w'.
Proof.
  intros [Hl Ho]. split; cbn.
  - intros s sc q Hs. destruct (Hl _ _ q Hs) as [Hnd Hm]. split; [done|]. intros i.
    rewrite Hm, lookup_insert. case_decide; naive_solver congruence.
  - intros i jb' s q Hi Hen. lk; [congruence|by eauto].
Qed.

Lemma put_unlinked_order : links_ok w → order_ok w → order_ok w'.
Proof.
  intros Hl Ho s sc Hs. destruct (Ho _ _ Hs) as [Hnow Hq]. split; [done|]. intros Hg.
  destruct (Hq Hg) as [H1 H2]. cbn in Hs.
  assert (∀ i, i ∈ joblist sc → i ≠ j) as Hne
    by (intros i Hi; by eapply (queued_ne w s sc QJobs)).
  split; [eapply queue_sorted_ext; [|done]|eapply queue_window_ext; [|done]]; intros i Hi; cbn;
    rewrite ?job_at_insert_ne, ?lookup_insert_ne by (done || (symmetry; by apply Hne) || by apply Hne);
    [done|]. split; [|done]. by apply H2.
Qed.

Lemma put_unlinked_groups x : links_ok w → groups_ok x w → groups_ok x w'.
Proof.
  intros Hl Hg s sc i jb' Hx Hs Hi Hjb'. cbn in *.
  assert (i ≠ j) by (by eapply (queued_ne w s sc QJobs)). lk; [done|by eauto].
Qed.

Lemma put_unlinked_wf x :
  world_wf_but x w → 0 ≤ start jb < 2^64 → 0 ≤ group jb →
  (pending jb = true → blocked jb = true) → world_wf_but x w'.
Proof.
  intros [H1 H2 H3 H4] Hst Hgr Hpb. split.
  - by apply put_unlinked_links.
  - by apply put_unlinked_order.
  - by apply put_unlinked_groups.
  - intros i jb' Hi. cbn in Hi. lk; [by auto|by eauto].
Qed.
End put_unlinked.

(** *** Linking a job on a list *)
Section link_job.
Context (w : world E F) (s : Z) (sc : usfstl_scheduler F) (q : job_queue) (l1 l2 : list Z).
Context (j : Z) (jb : usfstl_job F).
Context (Hs : scheds w !! s = Some sc) (Hj : jobs w !! j = Some jb) (He : entry jb = None).
Context (Hq : queue q sc = l1 ++ l2).
Definition w_link : world E F :=
  w <| scheds := <[s:=set_queue q (l1 ++ j :: l2) sc]> (scheds w) |>
    <| jobs := <[j:=jb <| entry := Some (s, q) |>]> (jobs w) |>.

Lemma link_links : links_ok w → links_ok w_link.
Proof.
  intros Hl. pose proof Hl as [Hl1 Hl2]. split; cbn.
  - intros s' sc' q' Hs'.
    assert (∀ sc' q', scheds w !! s' = Some sc' → j ∉ queue q' sc') as Hnin.
    { intros. eapply not_queued; try done. by rewrite He. }
    assert (∀ i q', i ≠ j → (∃ jb', <[j:=jb <| entry := Some (s, q) |>]> (jobs w) !! i = Some jb' ∧ entry jb' = Some (s', q'))
             ↔ (∃ jb', jobs w !! i = Some jb' ∧ entry jb' = Some (s', q'))) as Hother.
    { intros i q'' Hij. by rewrite lookup_insert_ne. }
    assert (∀ q', (∃ jb', <[j:=jb <| entry := Some (s, q) |>]> (jobs w) !! j = Some jb' ∧ entry jb' = Some (s', q'))
             ↔ s' = s ∧ q' = q) as Hthis.
    { intros q''. rewrite lookup_insert_eq. naive_solver. }
    apply lookup_insert_Some in Hs' as [[<- <-]|[Hss Hs']].
    + destruct (decide (q' = q)) as [->|Hqq].
      * rewrite queue_set_queue. destruct (Hl1 _ _ q Hs) as [Hnd Hm]. rewrite Hq in Hnd, Hm.
        pose proof (Hnin _ q Hs) as Hjq. rewrite Hq in Hjq. split.
        -- rewrite <- Permutation_middle. by constructor.
        -- intros i. destruct (decide (i = j)) as [->|Hij]; [rewrite Hthis; set_solver|].
           rewrite Hother by done. rewrite <- Hm. set_solver.
      * rewrite queue_set_queue_ne by done. destruct (Hl1 _ _ q' Hs) as [Hnd Hm]. split; [done|].
        intros i. destruct (decide (i = j)) as [->|Hij]; [|by rewrite Hother].
        rewrite Hthis. pose proof (Hnin _ q' Hs). naive_solver.
    + destruct (Hl1 _ _ q' Hs') as [Hnd Hm]. split; [done|].
      intros i. destruct (decide (i = j)) as [->|Hij]; [|by rewrite Hother].
      rewrite Hthis. pose proof (Hnin _ q' Hs'). naive_solver.
  - intros i jb' s' q' Hi Hen. rewrite lookup_insert_is_Some'. lk; cbn in *; naive_solver.
Qed.

(** Linking does not change when any job runs. *)
Lemma link_job_at i :
  start (job_at (jobs w_link) i) = start (job_at (jobs w) i) ∧
  priority (job_at (jobs w_link) i) = priority (job_at (jobs w) i) ∧
  (is_Some (jobs w !! i) → is_Some (jobs w_link !! i)).
Proof.
  cbn. destruct (decide (i = j)) as [->|].
  - rewrite job_at_insert, (job_at_some _ _ _ Hj), lookup_insert_eq. eauto.
  - rewrite job_at_insert_ne, lookup_insert_ne by done. eauto.
Qed.

Lemma link_order :
  order_ok w →
  (q = QJobs → external_get_time sc = None →
     queue_sorted (current_time sc) (jobs w) (l1 ++ j :: l2) ∧ in_window (current_time sc) jb) →
  order_ok w_link.
Proof.
  intros Ho Hnew s' sc' Hs'.
  assert (∀ now l, queue_sorted now (jobs w) l ∧ queue_window now (jobs w) l →
                   queue_sorted now (jobs w_link) l ∧ queue_window now (jobs w_link) l) as Hext.
  { intros now l [H1 H2]. split.
    - eapply queue_sorted_ext; [|done]. intros i _. destruct (link_job_at i) as (?&?&_). done.
    - eapply queue_window_ext; [|done]. intros i Hi. destruct (link_job_at i) as (?&_&?).
      split; [|done]. by apply H0, H2. }
  cbn in Hs'. apply lookup_insert_Some in Hs' as [[<- <-]|[Hss Hs']].
  - destruct (Ho _ _ Hs) as [Hnow Hold]. destruct q; cbn in *; (split; [done|]); intros Hg; apply Hext.
    + destruct (Hnew eq_refl Hg) as [Hsort Hwin]. split; [done|].
      destruct (Hold Hg) as [_ Hw]. rewrite Hq in Hw. intros i Hi.
      destruct (decide (i = j)) as [->|Hij].
      * rewrite (job_at_some _ _ _ Hj). eauto.
      * apply Hw. set_solver.
    + by apply Hold.
  - destruct (Ho _ _ Hs') as [Hnow Hold]. split; [done|]. intros Hg. by apply Hext, Hold.
Qed.

Lemma link_groups x :
  links_ok w → groups_ok x w → (q = QJobs → x ≠ Some s → eligible sc j jb) → groups_ok x w_link.
Proof.
  intros Hl Hg Hnew s' sc' i jb' Hx Hs' Hi Hjb'. cbn in *.
  apply lookup_insert_Some in Hs' as [[<- <-]|[Hss Hs']].
  - assert (eligible sc i jb') as Hel; [|by destruct q].
    apply lookup_insert_Some in Hjb' as [[<- <-]|[Hij Hjb']].
    + destruct q; [by apply Hnew|]. cbn in Hi. by eapply (queued_ne w s sc QJobs) in Hi.
    + eapply (Hg s sc); [done..| |done]. destruct q; cbn in *; [|done]. rewrite Hq. set_solver.
  - assert (i ≠ j) by (by eapply (queued_ne w s' sc' QJobs)). lk; [done|by eauto].
Qed.

Lemma link_wf x :
  world_wf_but x w → blocked jb = false →
  (q = QJobs → external_get_time sc = None →
     queue_sorted (current_time sc) (jobs w) (l1 ++ j :: l2) ∧ in_window (current_time sc) jb) →
  (q = QJobs → x ≠ Some s → eligible sc j jb) →
  world_wf_but x w_link.
Proof.
  intros [H1 H2 H3 H4] Hb Ho Hg. split.
  - by apply link_links.
  - by apply link_order.
  - by apply link_groups.
  - intros i jb' Hi. cbn in Hi. lk; [|by eauto].
    destruct (H4 _ _ Hj) as (?&?&?&?). cbn. split_and!; [lia..|congruence|done].
Qed.
End link_job.

(** *** Unlinking a job *)
Definition without (j : Z) (l : list Z) : list Z := List.filter (λ x, negb (x =? j)) l.

Lemma elem_of_without i j l : i ∈ without j l ↔ i ∈ l ∧ i ≠ j.
Proof.
  unfold without. rewrite list_elem_of_In, filter_In, <- list_elem_of_In, negb_true_iff, Z.eqb_neq. done.
Qed.

Lemma queue_sorted_without now (js : gmap Z (usfstl_job F)) j l :
  queue_sorted now js l → queue_sorted now js (without j l).
Proof.
  induction 1 as [|x l Hs IH Hx]; cbn; [constructor|]. case_match; [|done]. constructor; [done|].
  rewrite Forall_forall in Hx |- *. intros y Hy%elem_of_without. naive_solver.
Qed.

Section unlink_job.
Context (w : world E F) (s : Z) (sc : usfstl_scheduler F) (q : job_queue) (j : Z) (jb : usfstl_job F).
Context (Hs : scheds w !! s = Some sc) (Hj : jobs w !! j = Some jb) (He : entry jb = Some (s, q)).
Definition w_unlink : world E F :=
  w <| scheds := <[s:=set_queue q (without j (queue q sc)) sc]> (scheds w) |>
    <| jobs := <[j:=jb <| entry := None |>]> (jobs w) |>.

Lemma unlink_links : links_ok w → links_ok w_unlink.
Proof.
  intros Hl. pose proof Hl as [Hl1 Hl2]. split; cbn.
  - intros s' sc' q' Hs'.
    assert (∀ i q', (∃ jb', <[j:=jb <| entry := None |>]> (jobs w) !! i = Some jb' ∧ entry jb' = Some (s', q'))
             ↔ (∃ jb', jobs w !! i = Some jb' ∧ entry jb' = Some (s', q')) ∧ i ≠ j) as Hm'.
    { intros i q''. rewrite lookup_insert. case_decide; naive_solver. }
    apply lookup_insert_Some in Hs' as [[<- <-]|[Hss Hs']].
    + destruct (decide (q' = q)) as [->|Hqq].
      * rewrite queue_set_queue. destruct (Hl1 _ _ q Hs) as [Hnd Hm]. split.
        -- unfold without. apply NoDup_ListNoDup, List.NoDup_filter, NoDup_ListNoDup, Hnd.
        -- intros i. by rewrite elem_of_without, Hm, Hm'.
      * rewrite queue_set_queue_ne by done. destruct (Hl1 _ _ q' Hs) as [Hnd Hm]. split; [done|].
        intros i. rewrite Hm', <- Hm. split; [|naive_solver]. intros Hi. split; [done|].
        intros ->. eapply not_queued in Hi; try done. congruence.
    + destruct (Hl1 _ _ q' Hs') as [Hnd Hm]. split; [done|].
      intros i. rewrite Hm', <- Hm. split; [|naive_solver]. intros Hi. split; [done|].
      intros ->. eapply not_queued in Hi; try done. congruence.
  - intros i jb' s' q' Hi Hen. rewrite lookup_insert_is_Some'. lk; cbn in *; naive_solver.
Qed.

Lemma unlink_job_at i :
  start (job_at (jobs w_unlink) i) = start (job_at (jobs w) i) ∧
  priority (job_at (jobs w_unlink) i) = priority (job_at (jobs w) i) ∧
  (is_Some (jobs w !! i) → is_Some (jobs w_unlink !! i)).
Proof.
  cbn. destruct (decide (i = j)) as [->|].
  - rewrite job_at_insert, (job_at_some _ _ _ Hj), lookup_insert_eq. eauto.
  - rewrite job_at_insert_ne, lookup_insert_ne by done. eauto.
Qed.

Lemma unlink_order : order_ok w → order_ok w_unlink.
Proof.
  intros Ho s' sc' Hs'.
  assert (∀ now l, queue_sorted now (jobs w) l ∧ queue_window now (jobs w) l →
                   queue_sorted now (jobs w_unlink) l ∧ queue_window now (jobs w_unlink) l) as Hext.
  { intros now l [H1 H2]. split.
    - eapply queue_sorted_ext; [|done]. intros i _. destruct (unlink_job_at i) as (?&?&_). done.
    - eapply queue_window_ext; [|done]. intros i Hi. destruct (unlink_job_at i) as (?&_&?).
      split; [|done]. by apply H0, H2. }
  cbn in Hs'. apply lookup_insert_Some in Hs' as [[<- <-]|[Hss Hs']].
  - destruct (Ho _ _ Hs) as [Hnow Hold]. destruct q; cbn in *; (split; [done|]); intros Hg; apply Hext.
    + destruct (Hold Hg) as [H1 H2]. split; [by apply queue_sorted_without|].
      intros i [Hi _]%elem_of_without. by apply H2.
    + by apply Hold.
  - destruct (Ho _ _ Hs') as [Hnow Hold]. split; [done|]. intros Hg. by apply Hext, Hold.
Qed.

Lemma unlink_groups x : groups_ok x w → groups_ok x w_unlink.
Proof.
  intros Hg s' sc' i jb' Hx Hs' Hi Hjb'. cbn in *.
  assert (∃ jb'', jobs w !! i = Some jb'' ∧ group jb'' = group jb') as (jb'' & Hjb'' & Hgr)
    by (lk; eauto).
  unfold eligible. rewrite <- Hgr.
  apply lookup_insert_Some in Hs' as [[<- <-]|[Hss Hs']]; [|by eapply Hg].
  destruct q; cbn in *; [apply elem_of_without in Hi as [Hi _]|]; by eapply Hg.
Qed.

Lemma unlink_wf x : world_wf_but x w → world_wf_but x w_unlink.
Proof.
  intros [H1 H2 H3 H4]. split.
  - by apply unlink_links.
  - by apply unlink_order.
  - by apply unlink_groups.
  - intros i jb' Hi. cbn in Hi. lk; [|by eauto].
    destruct (H4 _ _ Hj) as (?&?&?&?). cbn. split_and!; [lia..|done|done].
Qed.
End unlink_job.

(** *** Changing a scheduler's own fields *)

(** [sc'] differs from [sc] at most in fields the invariant does not mention. *)
Definition same_queues sc sc' : Prop :=
  joblist sc' = joblist sc ∧ pending_jobs sc' = pending_jobs sc ∧
  blocked_groups sc' = blocked_groups sc ∧ allowed_job sc' = allowed_job sc ∧
  external_get_time sc' = external_get_time sc ∧ current_time sc' = current_time sc.

Lemma put_sched_links w s sc sc' :
  links_ok w → scheds w !! s = Some sc → (∀ q, queue q sc' = queue q sc) →
  links_ok (w <| scheds := <[s:=sc']> (scheds w) |>).
Proof.
  intros [Hl Ho] Hs Hq. split; cbn.
  - intros s' sc'' q Hs'. lk; [rewrite Hq|]; by eapply Hl.
  - intros j jb s' q Hj He. rewrite lookup_insert_is_Some'. right. by eapply Ho.
Qed.

Lemma put_sched_wf x w s sc sc' :
  world_wf_but x w → scheds w !! s = Some sc → (∀ q, queue q sc' = queue q sc) →
  0 ≤ current_time sc' < 2^64 →
  (external_get_time sc' = None →
     queue_sorted (current_time sc') (jobs w) (joblist sc) ∧
     queue_window (current_time sc') (jobs w) (joblist sc)) →
  (x ≠ Some s → ∀ j jb, j ∈ joblist sc → jobs w !! j = Some jb → eligible sc' j jb) →
  world_wf_but x (w <| scheds := <[s:=sc']> (scheds w) |>).
Proof.
  intros [H1 H2 H3 H4] Hs Hq Hnow Hord Hgr. pose proof (Hq QJobs) as HqJ. cbn in HqJ. split.
  - by eapply put_sched_links.
  - intros s' sc'' Hs'. cbn in *. lk; [rewrite HqJ; by split|by apply (H2 s')].
  - intros s' sc'' j jb Hx Hs' Hj Hjb. cbn in *. lk; [rewrite HqJ in Hj; by apply Hgr|by eapply H3].
  - done.
Qed.

Lemma put_sched_same_wf x w s sc sc' :
  world_wf_but x w → scheds w !! s = Some sc → same_queues sc sc' →
  world_wf_but x (w <| scheds := <[s:=sc']> (scheds w) |>).
Proof.
  intros Hw Hs (Hj & Hp & Hb & Ha & Hg & Ht). destruct (ww_order _ _ Hw _ _ Hs) as [Hnow Hold].
  eapply put_sched_wf; [done|done| |rewrite Ht; done|rewrite Hg, Ht; done|].
  - intros []; cbn; done.
  - intros Hx j jb Hin Hjb. unfold eligible. rewrite Hb, Ha. by eapply (ww_groups _ _ Hw).
Qed.

(** Moving the clock forward, not past the first job. *)
Lemma queue_advance now now' (js : gmap Z (usfstl_job F)) l :
  (∀ i, i ∈ l → off now now' ≤ off now (start (job_at js i))) →
  queue_sorted now js l → queue_window now js l →
  queue_sorted now' js l ∧ queue_window now' js l.
Proof.
  intros Hle Hs Hw. split.
  - induction Hs as [|x l Hs IH Hx]; constructor.
    + apply IH; intros i Hi; [apply Hle|apply Hw]; by right.
    + rewrite Forall_forall in Hx |- *. intros y Hy. specialize (Hx y Hy).
      unfold queue_le, job_le in *.
      rewrite !(off_shift now now') by (apply Hle; (by left) || by right). lia.
  - intros i Hi. destruct (Hw i Hi) as [Hsome [Hr Hwin]]. split; [done|split; [done|]].
    rewrite (off_shift now now') by (by apply Hle). pose proof (off_range now now'). lia.
Qed.

(** The first job of a sorted queue is a lower bound. *)
Lemma queue_first now (js : gmap Z (usfstl_job F)) j l i :
  queue_sorted now js (j :: l) → i ∈ j :: l →
  off now (start (job_at js j)) ≤ off now (start (job_at js i)).
Proof.
  intros [Hs Hj]%StronglySorted_inv [->|Hi]%elem_of_cons; [lia|].
  rewrite Forall_forall in Hj. specialize (Hj i Hi). unfold queue_le, job_le in Hj. lia.
Qed.

Lemma advance_wf x w s sc t :
  world_wf_but x w → scheds w !! s = Some sc → external_get_time sc = None → 0 ≤ t < 2^64 →
  (∀ j, head (joblist sc) = Some j →
     off (current_time sc) t ≤ off (current_time sc) (start (job_at (jobs w) j))) →
  world_wf_but x (w <| scheds := <[s:=sc <| current_time := t |>]> (scheds w) |>).
Proof.
  intros Hw Hs Hg Ht Hfirst. destruct (ww_order _ _ Hw _ _ Hs) as [Hnow Hold].
  destruct (Hold Hg) as [Hsort Hwin].
  eapply put_sched_wf; [done|done|by intros []|done| |].
  - intros _. cbn. eapply queue_advance; [|done..]. intros i Hi.
    destruct (joblist sc) as [|j l]; [set_solver|].
    etransitivity; [by apply Hfirst|]. by eapply queue_first.
  - intros Hx j jb Hin Hjb. by eapply (ww_groups _ _ Hw _ _ _ _ Hx Hs).
Qed.
End invariant.
