(* ===== verification/SchedProps.v ===== *)
(** * Theorems on the scheduler's operations (src/sched.c)

    Functional behaviour of adding, deleting, running and blocking jobs, the
    error branches, and the preservation of the invariant of [SchedQueue]. *)
From S2P Require Import Prelude Sched SchedQueue.

(** ** Running the primitive operations *)
Section run.
Context {E F : Type} `{SE : SchedEnv E F}.
Implicit Types w : world E F.
Implicit Types sc : usfstl_scheduler F.
Implicit Types jb : usfstl_job F.

Lemma get_job_run w j jb : jobs w !! j = Some jb → get_job j w = Ok (jb, w).
Proof. intros H. unfold get_job, get, mbind, M_bind. by rewrite H. Qed.

Lemma get_sched_run w s sc : scheds w !! s = Some sc → get_sched s w = Ok (sc, w).
Proof. intros H. unfold get_sched, get, mbind, M_bind. by rewrite H. Qed.

Lemma get_job_inv w j jb w' : get_job j w = Ok (jb, w') → jobs w !! j = Some jb ∧ w' = w.
Proof. unfold get_job, get, mbind, M_bind, deref. case_match; intros [= -> ->]; auto. Qed.

Lemma get_sched_inv w s sc w' : get_sched s w = Ok (sc, w') → scheds w !! s = Some sc ∧ w' = w.
Proof. unfold get_sched, get, mbind, M_bind, deref. case_match; intros [= -> ->]; auto. Qed.

Lemma put_job_run w j jb : put_job j jb w = Ok (tt, w <| jobs := <[j:=jb]> (jobs w) |>).
Proof. done. Qed.

Lemma put_sched_run w s sc : put_sched s sc w = Ok (tt, w <| scheds := <[s:=sc]> (scheds w) |>).
Proof. done. Qed.

Lemma upd_job_run w j jb f :
  jobs w !! j = Some jb → upd_job j f w = Ok (tt, w <| jobs := <[j:=f jb]> (jobs w) |>).
Proof. intros H. unfold upd_job. by erewrite bind_ok by (by apply get_job_run). Qed.

Lemma upd_sched_run w s sc f :
  scheds w !! s = Some sc → upd_sched s f w = Ok (tt, w <| scheds := <[s:=f sc]> (scheds w) |>).
Proof. intros H. unfold upd_sched. by erewrite bind_ok by (by apply get_sched_run). Qed.

Lemma job_scheduled_run w j jb :
  jobs w !! j = Some jb →
  usfstl_job_scheduled j w = Ok (match entry jb with None => false | Some _ => true end, w).
Proof. intros H. unfold usfstl_job_scheduled. by erewrite bind_ok by (by apply get_job_run). Qed.

Lemma assert_true w : usfstl_assert true w = Ok (tt, w).
Proof. done. Qed.

Lemma current_time_run w s sc :
  scheds w !! s = Some sc → external_get_time sc = None →
  usfstl_sched_current_time s w = Ok (current_time sc, w).
Proof.
  intros Hs Hg. unfold usfstl_sched_current_time.
  erewrite bind_ok by (by apply get_sched_run). by rewrite Hg.
Qed.

Lemma next_pending_run w s sc :
  scheds w !! s = Some sc → usfstl_sched_next_pending s None w = Ok (head (joblist sc), w).
Proof. intros Hs. unfold usfstl_sched_next_pending. by erewrite bind_ok by (by apply get_sched_run). Qed.

End run.

(** Steps through a bind whose first action is one of the above. *)
Ltac mstep :=
  erewrite bind_ok by
    first [ apply get_job_run; cbn; by simplify_map_eq
          | apply get_sched_run; cbn; by simplify_map_eq
          | apply put_job_run | apply put_sched_run
          | eapply upd_job_run; cbn; by simplify_map_eq
          | eapply upd_sched_run; cbn; by simplify_map_eq
          | eapply job_scheduled_run; cbn; by simplify_map_eq
          | eapply current_time_run; cbn; by simplify_map_eq
          | eapply next_pending_run; cbn; by simplify_map_eq ]; cbn beta.

Section ops.
Context {E F : Type} `{SE : SchedEnv E F}.
Implicit Types w : world E F.
Implicit Types sc : usfstl_scheduler F.
Implicit Types jb : usfstl_job F.

Lemma queue_append_run w s sc q j jb :
  scheds w !! s = Some sc → jobs w !! j = Some jb →
  queue_append s q j w = Ok (tt, w_link w s sc q (queue q sc) [] j jb).
Proof. intros Hs Hj. unfold queue_append. mstep. by erewrite upd_job_run by done. Qed.

Lemma del_job_run w j jb :
  jobs w !! j = Some jb → links_ok w →
  usfstl_sched_del_job j w =
  match entry jb with
  | None => Ok (tt, w)
  | Some (s, q) =>
      match scheds w !! s with
      | Some sc => Ok (tt, w_unlink w s sc q j jb)
      | None => Err NullDeref
      end
  end.
Proof.
  intros Hj [_ Hl]. unfold usfstl_sched_del_job. mstep.
  destruct (entry jb) as [[s q]|] eqn:He; [|done]. cbn.
  destruct (Hl _ _ _ _ Hj He) as [sc Hs]. rewrite Hs. mstep. rewrite He. mstep.
  by erewrite upd_job_run by done.
Qed.

(** A scheduler that is not connected to an external one.  (The
    [time_advanced] hook may be set.) *)
Definition standalone sc : Prop :=
  external_request sc = None ∧ external_get_time sc = None ∧
  external_set_time sc = None ∧ next_time_changed sc = None.

(** The world in which [j] has been put on the joblist of [s]. *)
Lemma add_job_insert_run x w s sc j jb :
  world_wf_but x w → scheds w !! s = Some sc → external_get_time sc = None →
  jobs w !! j = Some jb → entry jb = None → blocked jb = false → group jb < 32 →
  eligible sc j jb → in_window (current_time sc) jb →
  ∃ l1 l2, joblist sc = l1 ++ l2 ∧
    (∀ i, i ∈ l1 → job_le (current_time sc) (job_at (jobs w) i) jb) ∧
    (∀ i, i ∈ l2 → job_lt (current_time sc) jb (job_at (jobs w) i)) ∧
    usfstl_sched_add_job s j w =
    (usfstl_sched_external_request s (start jb);;
     sc ← get_sched s;
     match next_time_changed sc with
     | Some f => call_next_time_changed f s
     | None => mret tt
     end) (w_link w s sc QJobs l1 l2 j jb).
Proof.
  intros Hw Hs Hg Hj He Hb Hgr Hel Hwin.
  destruct (ww_order _ _ Hw _ _ Hs) as [_ Hq]. destruct (Hq Hg) as [Hsort Hqw].
  destruct (insert_job_spec (current_time sc) (jobs w) jb j (joblist sc)) as (l1 & l2 & Hl & Hins & H1 & H2);
    [done..|].
  exists l1, l2. split_and!; [done..|]. unfold usfstl_sched_add_job.
  mstep. mstep.
  assert (usfstl_time_cmp (start jb) Z.geb (current_time sc) = true) as ->.
  { apply time_ge_now. destruct Hwin. lia. }
  erewrite bind_ok by apply assert_true. mstep. rewrite He. cbn [negb].
  erewrite bind_ok by apply assert_true. mstep.
  replace (group jb <? 32) with true by lia.
  erewrite bind_ok by apply assert_true. mstep. rewrite Hb.
  assert (has_bit (blocked_groups sc) (group jb) && negb (bool_decide (allowed_job sc = Some j)) = false) as ->.
  { destruct (has_bit (blocked_groups sc) (group jb)) eqn:Hbit; [|done]. cbn.
    rewrite bool_decide_true by (by apply Hel). done. }
  erewrite bind_ok by done. rewrite Hins. done.
Qed.

Lemma external_request_none w s sc t :
  scheds w !! s = Some sc → external_request sc = None →
  usfstl_sched_external_request s t w = Ok (USFSTL_SCHED_REQ_STATUS_CAN_RUN, w).
Proof. intros Hs Hr. unfold usfstl_sched_external_request. mstep. by rewrite Hr. Qed.

Lemma add_job_run x w s sc j jb :
  world_wf_but x w → scheds w !! s = Some sc → standalone sc →
  jobs w !! j = Some jb → entry jb = None → blocked jb = false → group jb < 32 →
  eligible sc j jb → in_window (current_time sc) jb →
  ∃ l1 l2, joblist sc = l1 ++ l2 ∧
    (∀ i, i ∈ l1 → job_le (current_time sc) (job_at (jobs w) i) jb) ∧
    (∀ i, i ∈ l2 → job_lt (current_time sc) jb (job_at (jobs w) i)) ∧
    usfstl_sched_add_job s j w = Ok (tt, w_link w s sc QJobs l1 l2 j jb).
Proof.
  intros Hw Hs (Hr & Hg & _ & Hn) Hj He Hb Hgr Hel Hwin.
  destruct (add_job_insert_run x w s sc j jb) as (l1 & l2 & Hl & H1 & H2 & Hrun); [done..|].
  exists l1, l2. split_and!; [done..|]. rewrite Hrun.
  erewrite bind_ok.
  2:{ eapply external_request_none; cbn; [by rewrite lookup_insert_eq|done]. }
  mstep. cbn. by rewrite Hn.
Qed.

(** Inserting at the place found keeps the queue sorted. *)
Lemma insert_sorted now (js : gmap Z (usfstl_job F)) jb j l1 l2 :
  js !! j = Some jb → queue_sorted now js (l1 ++ l2) →
  (∀ i, i ∈ l1 → job_le now (job_at js i) jb) →
  (∀ i, i ∈ l2 → job_lt now jb (job_at js i)) →
  queue_sorted now js (l1 ++ j :: l2).
Proof.
  intros Hj Hs H1 H2. pose proof (job_at_some _ _ _ Hj) as Hat.
  induction l1 as [|x l1 IH]; cbn in *.
  - constructor; [done|]. apply Forall_forall. intros y Hy.
    unfold queue_le. rewrite Hat. by apply job_lt_le, H2.
  - apply StronglySorted_inv in Hs as [Hs Hx]. constructor.
    + apply IH; [done|]. intros i Hi. apply H1. by right.
    + rewrite Forall_forall in Hx |- *. intros y Hy.
      rewrite elem_of_app, elem_of_cons in Hy. destruct Hy as [Hy|[->|Hy]].
      * apply Hx. set_solver.
      * unfold queue_le. rewrite Hat. apply H1. by left.
      * apply Hx. set_solver.
Qed.

(** What the environment promises the scheduler: its calls keep the invariant, and
    reading an external clock changes nothing. *)
Class EnvOk : Prop := {
  ok_request f s t : preserves world_wf (call_request f s t);
  ok_next_time_changed f s : preserves world_wf (call_next_time_changed f s);
  ok_get_time f s w t w' : call_get_time f s w = Ok (t, w') → w' = w;
}.

Lemma external_request_wf `{OK : EnvOk} s t : preserves world_wf (usfstl_sched_external_request s t).
Proof.
  intros w st w' Hw H. unfold usfstl_sched_external_request in H.
  apply bind_inv in H as (sc & w1 & [Hs ->]%get_sched_inv & H).
  destruct (external_request sc) as [f|] eqn:Ef; [|by monad_inv H].
  destruct (_ && _); [by monad_inv H|]. destruct (_ && _); [by monad_inv H|].
  apply bind_inv in H as ([] & w1 & H1 & H). unfold put_sched in H1. monad_inv H1.
  eapply ok_request; [|done]. by eapply put_sched_same_wf.
Qed.
(** The world after the first job [j] of [s] was taken off the joblist and the
    clock set to its start. *)
Definition w_popped w (s : Z) sc (j : Z) jb (l : list Z) : world E F :=
  w <| scheds := <[s:=sc <| current_time := start jb |> <| joblist := l |>]> (scheds w) |>
    <| jobs := <[j:=jb <| entry := None |>]> (jobs w) |>.

Lemma set_time_run w s sc t :
  scheds w !! s = Some sc → standalone sc → off (current_time sc) t ≤ 2^63 →
  _usfstl_sched_set_time s t w =
    Ok (tt, w <| scheds := <[s:=sc <| current_time := t |>]> (scheds w) |>).
Proof.
  intros Hs (Hr & Hg & Hst & Hn) Ht. unfold _usfstl_sched_set_time. mstep. rewrite Hst.
  erewrite bind_ok by done. mstep. rewrite Hg.
  rewrite (proj2 (time_ge_now _ _) Ht). erewrite bind_ok by done. by rewrite Z.eqb_refl.
Qed.

Lemma forward_run w s sc t :
  scheds w !! s = Some sc → standalone sc → off (current_time sc) t ≤ 2^63 →
  usfstl_sched_forward s t w =
    Ok (tt, w <| scheds := <[s:=sc <| current_time := t |>]> (scheds w) |>).
Proof.
  intros Hs Hst Ht. pose proof Hst as (Hr & Hg & _). unfold usfstl_sched_forward. mstep.
  rewrite (proj2 (time_ge_now _ _) Ht). erewrite bind_ok by apply assert_true.
  erewrite bind_ok by (by eapply external_request_none). by apply set_time_run.
Qed.

Lemma without_head j l : j ∉ l → without j (j :: l) = l.
Proof.
  intros Hj. unfold without. cbn. rewrite Z.eqb_refl. cbn.
  induction l as [|x l IH]; [done|]. cbn. apply not_elem_of_cons in Hj as [? Hj].
  destruct (Z.eqb_spec x j); [done|]. cbn. f_equal. by apply IH.
Qed.

(** Going forward to the first job's start, if it is not reached yet. *)
Lemma forward_to_first w s sc j jb l :
  world_wf w → scheds w !! s = Some sc → standalone sc →
  joblist sc = j :: l → jobs w !! j = Some jb →
  when (usfstl_time_cmp (start jb) Z.gtb (current_time sc)) (usfstl_sched_forward s (start jb)) w =
    Ok (tt, w <| scheds := <[s:=sc <| current_time := start jb |>]> (scheds w) |>).
Proof.
  intros Hw Hs Hst Hq Hj. pose proof Hst as (_ & Hg & _).
  destruct (ww_order _ _ Hw _ _ Hs) as [Hnow Ho]. destruct (Ho Hg) as [_ Hwin].
  destruct (Hwin j) as [_ [Hj64 Hjw]]; [rewrite Hq; set_solver|].
  rewrite (job_at_some _ _ _ Hj) in *.
  rewrite (time_gt_window (current_time sc)) by (done || rewrite off_self; lia). rewrite off_self.
  destruct (Z.ltb_spec 0 (off (current_time sc) (start jb))) as [Hlt|Hle]; cbn [when].
  - apply forward_run; [done|done|lia].
  - assert (start jb = current_time sc) as ->.
    { apply (off_inj (current_time sc)); [done|done|]. rewrite off_self.
      pose proof (off_range (current_time sc) (start jb)). lia. }
    replace (sc <| current_time := current_time sc |>) with sc by (by destruct sc).
    rewrite insert_id by done. by destruct w.
Qed.

Lemma sched_next_run n w s sc j jb l :
  world_wf w → scheds w !! s = Some sc → standalone sc →
  joblist sc = j :: l → jobs w !! j = Some jb →
  usfstl_sched_next (S n) s w =
    (f ← deref (callback jb); call_callback f j;; mret j) (w_popped w s sc j jb l).
Proof.
  intros Hw Hs Hst Hq Hj. pose proof Hst as (_ & Hg & _). cbn [usfstl_sched_next].
  mstep. rewrite Hq. cbn [head]. mstep. mstep. erewrite bind_ok by (by eapply forward_to_first).
  erewrite bind_ok by (eapply next_pending_run; cbn; by rewrite lookup_insert_eq).
  change (joblist sc <| current_time := start jb |>) with (joblist sc).
  rewrite Hq. cbn [head]. rewrite bool_decide_true by done.
  pose proof (ww_links _ _ Hw) as Hl. destruct Hl as [Hl1 Hl2].
  destruct (Hl1 _ _ QJobs Hs) as [Hnd Hin]. cbn in Hnd, Hin. rewrite Hq in Hnd, Hin.
  destruct (proj1 (Hin j)) as (jb' & Hj' & He); [set_solver|].
  rewrite Hj in Hj'. injection Hj' as <-.
  erewrite bind_ok.
  2:{ rewrite (del_job_run _ j jb); [|done|].
      2:{ eapply put_sched_links; [done|done|]. by intros []. }
      rewrite He. cbn. rewrite lookup_insert_eq. done. }
  erewrite bind_ok by (apply get_job_run; cbn; by rewrite lookup_insert_eq). f_equal. unfold w_popped, w_unlink. cbn. rewrite insert_insert_eq.
  change (List.filter _ (joblist sc)) with (without j (joblist sc)).
  rewrite Hq, without_head; [done|]. by apply NoDup_cons in Hnd as [? _].
Qed.

Lemma popped_wf w s sc j jb l :
  world_wf w → scheds w !! s = Some sc → standalone sc →
  joblist sc = j :: l → jobs w !! j = Some jb → world_wf (w_popped w s sc j jb l).
Proof.
  intros Hw Hs Hst Hq Hj. pose proof Hst as (_ & Hg & _).
  pose proof (ww_flags _ _ Hw _ _ Hj) as (Hj64 & _).
  pose proof (ww_links _ _ Hw) as [Hl1 Hl2]. destruct (Hl1 _ _ QJobs Hs) as [Hnd Hin].
  cbn in Hnd, Hin. rewrite Hq in Hnd, Hin.
  destruct (proj1 (Hin j)) as (jb' & Hj' & He); [set_solver|].
  rewrite Hj in Hj'. injection Hj' as <-.
  assert (world_wf (w <| scheds := <[s:=sc <| current_time := start jb |>]> (scheds w) |>)) as Hw1.
  { eapply advance_wf; try done. intros i. rewrite Hq. intros [= ->].
    by rewrite (job_at_some _ _ _ Hj). }
  eapply (unlink_wf _ s (sc <| current_time := start jb |>) QJobs j jb) in Hw1;
    [|cbn; by rewrite lookup_insert_eq|done|done].
  revert Hw1. unfold w_unlink, w_popped. cbn. rewrite insert_insert_eq.
  change (List.filter _ (joblist sc)) with (without j (joblist sc)).
  rewrite Hq, without_head; [done|].
  by apply NoDup_cons in Hnd as [? _].
Qed.
End ops.

(** ** A concrete instance

    Callbacks that only log which job ran; nothing is connected. *)
#[export] Instance log_env : SchedEnv (list Z) unit := {|
  disable_skip_external_request := false;
  call_request _ _ _ := fail Assertion;
  call_wait _ _ := fail Assertion;
  call_get_time _ _ := fail Assertion;
  call_set_time _ _ _ := fail Assertion;
  call_time_advanced _ _ _ := fail Assertion;
  call_next_time_changed _ _ := fail Assertion;
  call_callback _ j := modify (λ w, w <| env := env w ++ [j] |>);
|}.

#[export] Instance log_env_ok : EnvOk (E := list Z) (F := unit).
Proof. split; [intros; apply preserves_fail..|done]. Qed.

Definition demo_job (start prio group : Z) : usfstl_job unit :=
  Job start prio group EmptyString 0 (Some tt) None false false.

Definition demo_sched : usfstl_scheduler unit := USFSTL_SCHEDULER EmptyString 100.

(** One scheduler, four jobs, none of them scheduled. *)
Definition demo : world (list Z) unit :=
  World (list_to_map [(10, demo_job 5 0 0); (11, demo_job 5 0 1); (12, demo_job 5 7 2);
                      (13, demo_job 2 0 0); (100, job_zero)])
        (list_to_map [(1, demo_sched)]) [].

(** Worlds in which nothing is scheduled. *)
Lemma fresh_wf {E F} (w : world E F) :
  map_Forall (λ _ sc, joblist sc = [] ∧ pending_jobs sc = [] ∧ 0 ≤ current_time sc < 2^64) (scheds w) →
  map_Forall (λ _ jb, entry jb = None ∧ 0 ≤ start jb < 2^64 ∧ 0 ≤ group jb ∧ pending jb = false) (jobs w) →
  world_wf w.
Proof.
  intros Hs Hj. split.
  - split.
    + intros s sc q (H1 & H2 & _)%Hs. replace (queue q sc) with (@nil Z) by (by destruct q).
      split; [constructor|]. intros j. split; [set_solver|]. intros (jb & (He & _)%Hj & He'). congruence.
    + intros j jb s q (He & _)%Hj He'. congruence.
  - intros s sc (H1 & _ & H3)%Hs. rewrite H1. split; [done|]. intros _. split; [constructor|]. intros i. set_solver.
  - intros s sc j jb _ (H1 & _)%Hs. rewrite H1. set_solver.
  - intros j jb (H1 & H2 & H3 & H4)%Hj. rewrite H4. done.
Qed.

Lemma demo_wf : world_wf demo.
Proof.
  apply fresh_wf; unfold demo; cbn; repeat apply map_Forall_insert_2;
    try apply map_Forall_empty; cbn; split_and!; (done || lia).
Qed.

(** Job 10 is on the joblist. *)
Definition demo1 : world (list Z) unit :=
  w_link demo 1 demo_sched QJobs [] [] 10 (demo_job 5 0 0).

Lemma demo1_wf : world_wf demo1.
Proof.
  apply link_wf; [done|done|done|done|apply demo_wf|done| |done].
  intros _ _. split; [repeat constructor|]. split; vm_compute; done.
Qed.

(** ** Adding a job *)
Section add_job.
Context {E F : Type} `{SE : SchedEnv E F}.
Implicit Types w : world E F.

(** [usfstl_sched_add_job] of a job that may run, on a scheduler without
    external connection, returns and puts the job on the joblist exactly
    between the jobs that run no later than it (an earlier start, or the same
    start and at least its priority: so equal jobs keep their insertion order)
    and the jobs that run strictly after it, for wrap-around time comparison;
    nothing else changes but the job's [entry]. *)
Theorem add_job_position w s sc j jb :
  world_wf w → scheds w !! s = Some sc → standalone sc →
  jobs w !! j = Some jb → entry jb = None → blocked jb = false → group jb < 32 →
  eligible sc j jb → in_window (current_time sc) jb →
  ∃ l1 l2, joblist sc = l1 ++ l2 ∧
    (∀ i, i ∈ l1 → job_le (current_time sc) (job_at (jobs w) i) jb) ∧
    (∀ i, i ∈ l2 → job_lt (current_time sc) jb (job_at (jobs w) i)) ∧
    usfstl_sched_add_job s j w =
      Ok (tt, w <| scheds := <[s:=sc <| joblist := l1 ++ j :: l2 |>]> (scheds w) |>
                <| jobs := <[j:=jb <| entry := Some (s, QJobs) |>]> (jobs w) |>).
Proof. apply add_job_run. Qed.

Lemma current_time_same `{OK : !EnvOk (E := E) (F := F)} w s t w' : usfstl_sched_current_time s w = Ok (t, w') → w' = w.
Proof.
  unfold usfstl_sched_current_time. intros H. apply bind_inv in H as (sc & w1 & [_ ->]%get_sched_inv & H).
  destruct (external_get_time sc) as [f|]; [by eapply ok_get_time|by monad_inv H].
Qed.

(** The job goes somewhere. *)
Lemma insert_job_split (js : gmap Z (usfstl_job F)) jb j l l' :
  insert_job js jb j l = Some l' → ∃ l1 l2, l = l1 ++ l2 ∧ l' = l1 ++ j :: l2.
Proof.
  revert l'. induction l as [|t l IH]; intros l'; cbn; [intros [= <-]; by exists [], []|].
  destruct (js !! t) as [tj|]; [|done]. cbn. destruct (add_job_stops tj jb); [intros [= <-]; by exists [], (t :: l)|].
  destruct (insert_job js jb j l) as [l0|]; [|done]. intros [= <-]. destruct (IH _ eq_refl) as (l1 & l2 & -> & ->).
  by exists (t :: l1), l2.
Qed.

(** Linking the job into the joblist, under either clock. *)
Lemma insert_wf w s sc j jb l : world_wf w → scheds w !! s = Some sc → jobs w !! j = Some jb →
  entry jb = None → blocked jb = false → eligible sc j jb →
  (external_get_time sc = None → in_window (current_time sc) jb) →
  insert_job (jobs w) jb j (joblist sc) = Some l →
  world_wf (w <| scheds := <[s := sc <| joblist := l |>]> (scheds w) |> <| jobs := <[j := jb <| entry := Some (s, QJobs) |>]> (jobs w) |>).
Proof.
  intros Hw Hs Hj He Hb Hel Hwin Hins. destruct (insert_job_split _ _ _ _ _ Hins) as (l1 & l2 & Hl & ->).
  apply (link_wf w s sc QJobs l1 l2 j jb); try done. intros _ Hg.
  destruct (ww_order _ _ Hw _ _ Hs) as [_ Ho]. destruct (Ho Hg) as [Hso Hqw].
  split; [|by apply Hwin].
  destruct (insert_job_spec (current_time sc) (jobs w) jb j (joblist sc)) as (k1 & k2 & Hk & Hins' & H1 & H2); [done|by apply Hwin|done|].
  rewrite Hins in Hins'. injection Hins' as Heq. rewrite Heq. eapply insert_sorted; try done. by rewrite <- Hk.
Qed.

(** C3. [usfstl_sched_add_job] keeps the scheduler invariant (lists and entries
    agree, the joblist of a scheduler with its own clock is sorted and inside the
    time window, no blocked group on the joblist, flags consistent) on every path on
    which it returns: inserting, parking a blocked job and parking a job of a blocked
    group; for schedulers with their own or an external clock, whatever the external
    scheduler and the time hook do, as long as they keep the invariant and reading the
    clock changes nothing.  The one excluded case is a job exactly 2^63 ticks ahead of
    the scheduler's own clock, which the assertion lets pass although it is not
    comparable. *)
Theorem add_job_keeps_invariant `{OK : !EnvOk (E := E) (F := F)} w s sc j jb w' :
  world_wf w → scheds w !! s = Some sc → jobs w !! j = Some jb →
  (external_get_time sc = None → off (current_time sc) (start jb) ≠ 2^63) →
  usfstl_sched_add_job s j w = Ok (tt, w') → world_wf w'.
Proof.
  intros Hw Hs Hj Hoff H. pose proof (ww_flags _ _ Hw _ _ Hj) as (Hst & Hgr0 & Hbe & Hpb).
  unfold usfstl_sched_add_job in H. rewrite (bind_ok _ _ _ _ _ (get_job_run _ _ _ Hj)) in H.
  apply bind_inv in H as (now & w1 & Hnow & H). pose proof (current_time_same _ _ _ _ Hnow) as ->.
  apply bind_inv in H as ([] & w1 & H1 & H). apply assert_inv in H1 as [Hge [= ->]].
  rewrite (bind_ok _ _ _ _ _ (job_scheduled_run _ _ _ Hj)) in H.
  apply bind_inv in H as ([] & w1 & H1 & H). apply assert_inv in H1 as [Hns [= ->]].
  assert (entry jb = None) as He by (by destruct (entry jb)).
  rewrite (bind_ok _ _ _ _ _ (get_job_run _ _ _ Hj)) in H.
  apply bind_inv in H as ([] & w1 & H1 & H). apply assert_inv in H1 as [Hgr [= ->]].
  rewrite (bind_ok _ _ _ _ _ (get_sched_run _ _ _ Hs)) in H.
  destruct (blocked jb) eqn:Hb.
  { unfold put_job in H. monad_inv H. by eapply put_unlinked_wf. }
  destruct (has_bit _ _ && _) eqn:Hbit.
  { apply bind_inv in H as ([] & w1 & H1 & H). unfold put_job in H1. monad_inv H1.
    assert (world_wf (w <| jobs := <[j:=jb <| start := 0 |>]> (jobs w) |>)) as Hw1
      by (eapply put_unlinked_wf; try done; cbn; by rewrite Hb).
    erewrite queue_append_run in H; [|done|cbn; by rewrite lookup_insert_eq]. simplify_eq.
    eapply link_wf; cbn; try done; [by rewrite lookup_insert_eq|by rewrite app_nil_r]. }
  erewrite bind_ok in H by done. apply bind_inv in H as (l & w1 & Hl & H).
  destruct (insert_job (jobs w) jb j (joblist sc)) as [l'|] eqn:Hins; [|done]. injection Hl as -> <-.
  erewrite bind_ok in H by apply put_sched_run. erewrite bind_ok in H by apply put_job_run.
  set (w1 := _ <| jobs := _ |>) in H.
  assert (world_wf w1) as Hw1.
  { eapply (insert_wf w s sc j jb l); try done.
    - intros Hh. rewrite Hh in Hbit. cbn in Hbit. by apply negb_false_iff, bool_decide_eq_true in Hbit.
    - intros Hg. rewrite (current_time_run _ _ _ Hs Hg) in Hnow. injection Hnow as <-.
      split; [done|]. apply time_ge_now in Hge. specialize (Hoff Hg). lia. }
  apply bind_inv in H as (st & w2 & Hreq & H). eapply external_request_wf in Hreq; [|done..].
  apply bind_inv in H as (sc' & w3 & [Hs' ->]%get_sched_inv & H).
  destruct (next_time_changed sc') as [f|]; [exact (ok_next_time_changed f s w2 tt w' Hreq H)|by monad_inv H].
Qed.

(** [usfstl_sched_add_job] refuses (fails an assertion on) a job whose start
    is in the past under wrap-around comparison, a job that is already on a
    list, and a job with a group above 31. *)
Theorem add_job_refuses w s sc j jb :
  scheds w !! s = Some sc → external_get_time sc = None → jobs w !! j = Some jb →
  (2^63 < off (current_time sc) (start jb) ∨ entry jb ≠ None ∨ 32 ≤ group jb) →
  usfstl_sched_add_job s j w = Err Assertion.
Proof.
  intros Hs Hg Hj Hbad. unfold usfstl_sched_add_job. mstep. mstep.
  destruct (usfstl_time_cmp (start jb) Z.geb (current_time sc)) eqn:Hge; [|done].
  apply time_ge_now in Hge. erewrite bind_ok by apply assert_true. mstep.
  destruct (entry jb) as [e|] eqn:He; [done|]. cbn [negb].
  erewrite bind_ok by apply assert_true. mstep.
  destruct (Z.ltb_spec (group jb) 32); [|done]. naive_solver lia.
Qed.
End add_job.

Lemma add_job_position_witness :
  ∃ l1 l2, [10] = l1 ++ l2 ∧
    usfstl_sched_add_job 1 12 demo1 =
      Ok (tt, demo1 <| scheds := <[1:=demo_sched <| joblist := l1 ++ 12 :: l2 |>]> (scheds demo1) |>
                    <| jobs := <[12:=(demo_job 5 7 2) <| entry := Some (1, QJobs) |>]> (jobs demo1) |>).
Proof.
  destruct (add_job_position demo1 1 (demo_sched <| joblist := [10] |>) 12 (demo_job 5 7 2))
    as (l1 & l2 & Hl & _ & _ & Hr); [exact demo1_wf|done|done|done|done|done|done|done|vm_compute; done|].
  exists l1, l2. split; [exact Hl|]. exact Hr.
Defined.

Lemma add_job_keeps_invariant_witness :
  ∃ w', usfstl_sched_add_job 1 12 demo1 = Ok (tt, w') ∧ world_wf w'.
Proof.
  destruct (usfstl_sched_add_job 1 12 demo1) as [[[] w']|f] eqn:Hr; [|vm_compute in Hr; discriminate].
  exists w'. split; [done|].
  apply (add_job_keeps_invariant demo1 1 (demo_sched <| joblist := [10] |>) 12 (demo_job 5 7 2) w');
    [exact demo1_wf|done|done|intros _; vm_compute; done|exact Hr].
Defined.

Lemma add_job_refuses_witness : usfstl_sched_add_job 1 10 demo1 = Err Assertion.
Proof.
  apply (add_job_refuses demo1 1 (demo_sched <| joblist := [10] |>) 10
           ((demo_job 5 0 0) <| entry := Some (1, QJobs) |>)); [done|done|done|].
  right. left. done.
Defined.
