(* ===== verification/SchedRun.v ===== *)
(** * Running jobs (src/sched.c: usfstl_sched_next)

    One round of the main loop, its failure without work, and the refinement of
    the whole add/run cycle to a stable sort by start time and priority. *)
From S2P Require Import Prelude Sched SchedQueue SchedProps.

(** ** Adding and running many jobs *)
Section many.
Context {E F : Type} `{SE : SchedEnv E F}.
Implicit Types w : world E F.
Implicit Types sc : usfstl_scheduler F.

Fixpoint add_jobs (s : Z) (js : list Z) : M (world E F) unit :=
  match js with
  | [] => mret tt
  | j :: js => usfstl_sched_add_job s j;; add_jobs s js
  end.

(** [n] rounds of the main loop; the jobs run, in order. *)
Fixpoint run_jobs (n : nat) (s : Z) : M (world E F) (list Z) :=
  match n with
  | O => mret []
  | S n => j ← usfstl_sched_next 1 s; l ← run_jobs n s; mret (j :: l)
  end.

(** Callbacks that leave jobs and schedulers alone. *)
Definition inert : Prop :=
  ∀ (f : F) j w, ∃ e, call_callback f j w = Ok (tt, w <| env := e |>).

(** A job that can be added now. *)
Definition ready (now : Z) w (j : Z) : Prop :=
  ∃ jb, jobs w !! j = Some jb ∧ entry jb = None ∧ blocked jb = false ∧ group jb < 32 ∧
        callback jb ≠ None ∧ in_window now jb.

(** Apart from being linked or not, jobs are the same. *)
Definition same_jobs w w' : Prop :=
  ∀ i jb, jobs w !! i = Some jb → ∃ e, jobs w' !! i = Some (jb <| entry := e |>).

(** The jobs of [l] that start at [t] with priority [p], in order. *)
Definition with_key (js : gmap Z (usfstl_job F)) (t p : Z) (l : list Z) : list Z :=
  filter (λ i, start (job_at js i) = t ∧ priority (job_at js i) = p) l.

Lemma same_jobs_refl w : same_jobs w w.
Proof. intros i jb H. exists (entry jb). rewrite H. by destruct jb. Qed.

Lemma same_jobs_trans w1 w2 w3 : same_jobs w1 w2 → same_jobs w2 w3 → same_jobs w1 w3.
Proof. intros H1 H2 i jb Hi. destruct (H1 _ _ Hi) as [e He]. destruct (H2 _ _ He) as [e' He']. by exists e'. Qed.

Lemma same_jobs_put w w' j jb e :
  jobs w !! j = Some jb → jobs w' = <[j:=jb <| entry := e |>]> (jobs w) → same_jobs w w'.
Proof.
  intros Hj Hw i jb' Hi. rewrite Hw, lookup_insert. case_decide; simplify_eq; [by eauto|].
  exists (entry jb'). rewrite Hi. by destruct jb'.
Qed.

Lemma same_jobs_at w w' i :
  same_jobs w w' → is_Some (jobs w !! i) →
  start (job_at (jobs w') i) = start (job_at (jobs w) i) ∧
  priority (job_at (jobs w') i) = priority (job_at (jobs w) i).
Proof. intros H [jb Hi]. destruct (H _ _ Hi) as [e He]. unfold job_at. by rewrite Hi, He. Qed.

Lemma with_key_app js t p l1 l2 : with_key js t p (l1 ++ l2) = with_key js t p l1 ++ with_key js t p l2.
Proof. apply filter_app. Qed.

Lemma with_key_ext js js' t p l :
  (∀ i, start (job_at js' i) = start (job_at js i) ∧ priority (job_at js' i) = priority (job_at js i)) →
  with_key js t p l = with_key js' t p l.
Proof. intros H. apply list_filter_iff. intros i. destruct (H i) as [-> ->]. done. Qed.

(** A job goes after all those of the same start and priority. *)
Lemma with_key_insert now js jb j l1 l2 t p :
  js !! j = Some jb → (∀ i, i ∈ l2 → job_lt now jb (job_at js i)) →
  with_key js t p (l1 ++ j :: l2) = with_key js t p (l1 ++ l2) ++ with_key js t p [j].
Proof.
  intros Hj H2. rewrite (cons_middle j l1 l2), !with_key_app.
  destruct (decide (start jb = t ∧ priority jb = p)) as [[<- <-]|Hne].
  - assert (with_key js (start jb) (priority jb) l2 = []) as ->; [|by rewrite !app_nil_r].
    unfold with_key.
    destruct (filter _ l2) as [|x l] eqn:Hf; [done|]. exfalso.
    assert (x ∈ filter (λ i, start (job_at js i) = start jb ∧ priority (job_at js i) = priority jb) l2)
      as [[Hs Hp] Hx]%list_elem_of_filter by (rewrite Hf; left).
    apply (H2 _ Hx). right. rewrite Hs, Hp. lia.
  - assert (with_key js t p [j] = []) as ->; [|by rewrite !app_nil_r].
    unfold with_key. rewrite filter_cons_False; [done|]. by rewrite (job_at_some _ _ _ Hj).
Qed.

Lemma ready_same now w w' j i :
  ready now w i → i ≠ j → (∀ k, k ≠ j → jobs w' !! k = jobs w !! k) → ready now w' i.
Proof. intros (jb & Hi & H) Hne Hk. exists jb. by rewrite Hk. Qed.

(** The state of scheduler [s] is that of [sc] but for its joblist. *)
Definition sched_with w (s : Z) sc (l : list Z) : Prop := scheds w !! s = Some (sc <| joblist := l |>).

Lemma add_jobs_run s sc js : ∀ w l,
  world_wf w → sched_with w s sc l → standalone sc → blocked_groups sc = 0 → NoDup js →
  (∀ j, j ∈ js → ready (current_time sc) w j) →
  ∃ l' w', add_jobs s js w = Ok (tt, w') ∧ world_wf w' ∧ sched_with w' s sc l' ∧
    same_jobs w w' ∧ l' ≡ₚ l ++ js ∧
    ∀ t p, with_key (jobs w) t p l' = with_key (jobs w) t p l ++ with_key (jobs w) t p js.
Proof.
  induction js as [|j js IH]; intros w l Hw Hs Hst Hb Hnd Hr.
  { exists l, w. split_and!; try done; [apply same_jobs_refl|by rewrite app_nil_r|].
    intros. by rewrite app_nil_r. }
  apply NoDup_cons in Hnd as [Hj Hnd].
  destruct (Hr j) as (jb & Hjb & He & Hbl & Hgr & Hcb & Hwin); [by left|].
  pose proof (ww_flags _ _ Hw _ _ Hjb) as (_ & Hg0 & _).
  destruct (add_job_run None w s (sc <| joblist := l |>) j jb) as (l1 & l2 & Hl & H1 & H2 & Hrun); try done.
  { intros Hbit. cbn in Hbit. rewrite Hb, has_bit_spec, Z.bits_0 in Hbit; done. }
  cbn in Hl. subst l.
  set (w1 := w_link w s (sc <| joblist := l1 ++ l2 |>) QJobs l1 l2 j jb) in *.
  assert (world_wf w1) as Hw1.
  { eapply link_wf; try done.
    - intros _ _. split; [|done]. eapply insert_sorted; try done.
      destruct (ww_order _ _ Hw _ _ Hs) as [_ Ho]. by apply Ho, Hst.
    - intros _ _ Hbit. cbn in Hbit. rewrite Hb, has_bit_spec, Z.bits_0 in Hbit; done. }
  assert (same_jobs w w1) as Hsame by (by eapply same_jobs_put).
  destruct (IH w1 (l1 ++ j :: l2)) as (l' & w' & Hrun' & Hw' & Hs' & Hsj & Hp & Hk); try done.
  { unfold sched_with, w1, w_link. cbn. by rewrite lookup_insert_eq. }
  { intros i Hi. eapply (ready_same _ w _ j); [apply Hr; by right|set_solver|].
    intros k Hk. cbn. by rewrite lookup_insert_ne. }
  exists l', w'. split_and!; try done.
  - cbn [add_jobs]. by erewrite bind_ok by done.
  - by eapply same_jobs_trans.
  - rewrite Hp. clear. solve_Permutation.
  - intros t p. change (j :: js) with ([j] ++ js). rewrite (with_key_app _ _ _ [j] js), app_assoc.
    rewrite <- (with_key_insert (current_time sc) (jobs w) jb) by done.
    assert (∀ l, with_key (jobs w) t p l = with_key (jobs w1) t p l) as Hat.
    { intros l. apply with_key_ext. intros i.
      by destruct (link_job_at w s (sc <| joblist := l1 ++ l2 |>) QJobs l1 l2 j jb Hjb i) as (?&?&_). }
    rewrite !Hat. apply Hk.
Qed.

(** The clock after running [l]: the start of its last job. *)
Definition clock_after (js : gmap Z (usfstl_job F)) (now : Z) (l : list Z) : Z :=
  List.fold_left (λ _ j, start (job_at js j)) l now.

Lemma clock_after_put js j jb e now l :
  js !! j = Some jb → clock_after (<[j:=jb <| entry := e |>]> js) now l = clock_after js now l.
Proof.
  intros Hj. revert now. induction l as [|x l IH]; intros now; [done|].
  unfold clock_after in *. cbn. rewrite IH. f_equal.
  unfold job_at. rewrite lookup_insert. case_decide; [|done]. subst. by rewrite Hj.
Qed.

Lemma run_jobs_run s l : ∀ w sc,
  inert → world_wf w → scheds w !! s = Some sc → standalone sc → joblist sc = l →
  (∀ j jb, j ∈ l → jobs w !! j = Some jb → callback jb ≠ None) →
  ∃ w', run_jobs (length l) s w = Ok (l, w') ∧ world_wf w' ∧
    scheds w' !! s = Some (sc <| joblist := [] |>
                              <| current_time := clock_after (jobs w) (current_time sc) l |>).
Proof.
  induction l as [|j l IH]; intros w sc Hin Hw Hs Hst Hq Hcb.
  { exists w. split_and!; [done..|]. rewrite Hs. destruct sc; cbn in *. by subst. }
  destruct (proj1 (ww_links _ _ Hw) _ _ QJobs Hs) as [Hnd Hm]. cbn in Hnd, Hm. rewrite Hq in Hnd, Hm.
  destruct (proj1 (Hm j)) as (jb & Hj & He); [by left|].
  destruct (callback jb) as [f|] eqn:Hf; [|by destruct (Hcb j jb); [left|..]].
  destruct (Hin f j (w_popped w s sc j jb l)) as [e Hcall].
  pose proof (popped_wf _ _ _ _ _ _ Hw Hs Hst Hq Hj) as Hw1.
  set (w1 := w_popped w s sc j jb l) in *.
  apply NoDup_cons in Hnd as [Hjl Hnd].
  destruct (IH (w1 <| env := e |>) (sc <| current_time := start jb |> <| joblist := l |>))
    as (w' & Hrun & Hw' & Hs'); try done.
  - by destruct Hw1; split.
  - cbn. by rewrite lookup_insert_eq.
  - intros i jb' Hi. cbn. rewrite lookup_insert. case_decide; [by subst|]. apply Hcb. by right.
  - exists w'. split_and!; [|done|].
    + cbn [length run_jobs]. erewrite bind_ok.
      2:{ rewrite (sched_next_run 0 _ _ _ _ _ _ Hw Hs Hst Hq Hj), Hf.
          erewrite bind_ok by done. by erewrite bind_ok by done. }
      cbn beta. by erewrite bind_ok by done.
    + rewrite Hs'. cbn. rewrite clock_after_put by done.
      by rewrite (job_at_some _ _ _ Hj).
Qed.
End many.

(** ** The claims *)
Section claims.
Context {E F : Type} `{SE : SchedEnv E F}.
Implicit Types w : world E F.

(** One call of [usfstl_sched_next] on a scheduler without external
    connection needs a single round of its loop: it takes the first job off the
    joblist, sets the clock to exactly that job's start, and calls its callback
    in that state, which satisfies the invariant again; the job chosen runs no
    later than every other job queued, and the clock never goes backwards (it
    moves less than half its range). *)
Theorem sched_next_runs_first n w s sc j jb l :
  world_wf w → scheds w !! s = Some sc → standalone sc →
  joblist sc = j :: l → jobs w !! j = Some jb →
  usfstl_sched_next (S n) s w =
    (f ← deref (callback jb); call_callback f j;; mret j) (w_popped w s sc j jb l) ∧
  world_wf (w_popped w s sc j jb l) ∧
  (∀ i, i ∈ l → job_le (current_time sc) jb (job_at (jobs w) i)) ∧
  off (current_time sc) (start jb) < 2^63.
Proof.
  intros Hw Hs Hst Hq Hj. split_and!; [by apply sched_next_run|by apply popped_wf|..].
  - intros i Hi. destruct (ww_order _ _ Hw _ _ Hs) as [_ Ho]. destruct Ho as [Ho _]; [apply Hst|].
    rewrite Hq in Ho. apply StronglySorted_inv in Ho as [_ Ho]. rewrite Forall_forall in Ho.
    specialize (Ho i Hi). unfold queue_le in Ho. by rewrite (job_at_some _ _ _ Hj) in Ho.
  - destruct (ww_order _ _ Hw _ _ Hs) as [_ Ho]. destruct Ho as [_ Ho]; [apply Hst|].
    destruct (Ho j) as [_ [_ Hwin]]; [rewrite Hq; by left|]. by rewrite (job_at_some _ _ _ Hj) in Hwin.
Qed.

(** [usfstl_sched_next] with nothing on the joblist and no external
    scheduler to wait for fails its assertion. *)
Theorem sched_next_no_work n w s sc :
  scheds w !! s = Some sc → joblist sc = [] → external_request sc = None →
  usfstl_sched_next (S n) s w = Err Assertion.
Proof.
  intros Hs Hq Hr. cbn [usfstl_sched_next]. mstep. rewrite Hq. cbn [head]. mstep. by rewrite Hr.
Qed.

(** C1. The scheduler refines a stable sort: adding the jobs [js] to an empty
    scheduler and calling [usfstl_sched_next] once per job always returns, runs
    exactly these jobs, ordered by wrap-around start time and then by descending
    priority, with jobs of equal start and priority in the order they were
    added, and leaves the joblist empty and the clock at the last job's start. *)
Theorem schedule_refines_stable_sort w s sc js :
  inert → world_wf w → scheds w !! s = Some sc → standalone sc →
  joblist sc = [] → blocked_groups sc = 0 → NoDup js →
  (∀ j, j ∈ js → ready (current_time sc) w j) →
  ∃ l w', (add_jobs s js;; run_jobs (length js) s) w = Ok (l, w') ∧
    l ≡ₚ js ∧ queue_sorted (current_time sc) (jobs w) l ∧
    (∀ t p, with_key (jobs w) t p l = with_key (jobs w) t p js) ∧
    scheds w' !! s = Some (sc <| joblist := [] |>
                              <| current_time := clock_after (jobs w) (current_time sc) l |>).
Proof.
  intros Hin Hw Hs Hst Hq Hb Hnd Hr.
  destruct (add_jobs_run s sc js w []) as (l & w1 & Hrun & Hw1 & Hs1 & Hsame & Hp & Hk); try done.
  { unfold sched_with. rewrite Hs, <- Hq. by destruct sc. }
  assert (∀ j, j ∈ l → j ∈ js) as Hlj by (intros j; by rewrite Hp).
  assert (∀ i, i ∈ l → is_Some (jobs w !! i)) as Hsome.
  { intros i Hi. destruct (Hr i) as (jb & -> & _); [by apply Hlj|done]. }
  destruct (run_jobs_run s l w1 (sc <| joblist := l |>)) as (w' & Hrun' & Hw' & Hs'); try done.
  { intros j jb Hj Hjb. destruct (Hr j) as (jb0 & Hj0 & _ & _ & _ & Hcb & _); [by apply Hlj|].
    destruct (Hsame _ _ Hj0) as [e He]. by simplify_eq. }
  exists l, w'. split_and!.
  - erewrite bind_ok by done. rewrite <- Hrun'. f_equal. by rewrite Hp.
  - done.
  - destruct (ww_order _ _ Hw1 _ _ Hs1) as [_ Ho]. destruct Ho as [Ho _]; [apply Hst|].
    eapply queue_sorted_ext; [|exact Ho]. intros i Hi.
    destruct (same_jobs_at w w1 i) as [-> ->]; [done|by apply Hsome|done].
  - exact Hk.
  - rewrite Hs'. cbn. do 3 f_equal. unfold clock_after. clear -Hsame Hsome.
    generalize (current_time sc). induction l as [|x l IH]; intros now; [done|]. cbn.
    destruct (same_jobs_at w w1 x) as [-> _]; [done|apply Hsome; by left|].
    apply IH. intros i Hi. apply Hsome. by right.
Qed.
End claims.

Lemma sched_next_runs_first_witness :
  usfstl_sched_next 1 1 demo1 =
    Ok (10, (w_popped demo1 1 (demo_sched <| joblist := [10] |>) 10
               ((demo_job 5 0 0) <| entry := Some (1, QJobs) |>) []) <| env := [10] |>).
Proof.
  destruct (sched_next_runs_first 0 demo1 1 (demo_sched <| joblist := [10] |>) 10
              ((demo_job 5 0 0) <| entry := Some (1, QJobs) |>) []) as (H & _);
    [exact demo1_wf|done|done|done|done|].
  rewrite H. done.
Defined.

Lemma sched_next_no_work_witness : usfstl_sched_next 1 1 demo = Err Assertion.
Proof. by apply (sched_next_no_work 0 demo 1 demo_sched). Defined.

Lemma demo_ready j : j ∈ [10; 11; 12; 13] → ready 0 demo j.
Proof.
  rewrite !elem_of_cons, elem_of_nil. intros [->|[->|[->|[->|[]]]]];
    eexists; (split; [reflexivity|]); vm_compute; done.
Qed.

(** Jobs 10 and 11 tie and keep their order, 12 has priority, 13 is earlier. *)
Lemma schedule_refines_stable_sort_witness :
  ∃ w', (add_jobs 1 [10; 11; 12; 13];; run_jobs 4 1) demo = Ok ([13; 12; 10; 11], w').
Proof.
  destruct (schedule_refines_stable_sort demo 1 demo_sched [10; 11; 12; 13])
    as (l & w' & Hrun & _); [..|exists w'; assert (l = [13; 12; 10; 11]) as <-; [|exact Hrun]].
  - intros f j w. by eexists.
  - exact demo_wf.
  - done.
  - done.
  - done.
  - done.
  - by apply (bool_decide_unpack _).
  - exact demo_ready.
  - vm_compute in Hrun. by injection Hrun as <- _.
Defined.
