(* ===== verification/SchedLive.v ===== *)
(** * No job starves (src/sched.c: usfstl_sched_add_job, usfstl_sched_next)

    Callbacks may add jobs, themselves among them, for as long as they like: a
    job on the joblist is reached after finitely many rounds of the main loop, if
    callbacks return and add nothing at the very time they run at. *)
From S2P Require Import Prelude Sched SchedQueue SchedProps SchedRun.

Section live.
Context {E F : Type} `{SE : SchedEnv E F}.
Implicit Types w : world E F.
Variable s : Z.

(** What is asked of the callbacks, for the worlds of [I]: run for the first job
    on the joblist, they return into [I]; the jobs behind it keep their place on
    the joblist and their start; what they add does not start at once. *)
Record served (I : world E F → Prop) : Prop := mk_served {
  served_wf w : I w → world_wf w;
  served_sched w : I w → ∃ sc, scheds w !! s = Some sc ∧ standalone sc;
  served_call w sc j jb l : I w → scheds w !! s = Some sc → joblist sc = j :: l → jobs w !! j = Some jb →
    ∃ f w' sc', callback jb = Some f ∧ call_callback f j (w_popped w s sc j jb l) = Ok (tt, w') ∧ I w' ∧
      scheds w' !! s = Some sc' ∧ current_time sc' = start jb ∧
      (∀ i, i ∈ l → i ∈ joblist sc' ∧ start (job_at (jobs w') i) = start (job_at (jobs w) i)) ∧
      (∀ i, i ∈ joblist sc' → i ∉ l → start (job_at (jobs w') i) ≠ start jb);
}.

(** The jobs that start right now. *)
Definition due (js : gmap Z (usfstl_job F)) (now : Z) (l : list Z) : nat :=
  length (filter (λ i, start (job_at js i) = now) l).

Lemma due_served js js' now j l l' : NoDup l' → start (job_at js j) = now →
  (∀ i, i ∈ l → start (job_at js' i) = start (job_at js i)) →
  (∀ i, i ∈ l' → i ∉ l → start (job_at js' i) ≠ now) →
  (due js' now l' < due js now (j :: l))%nat.
Proof.
  intros Hnd Hj Hold Hnew. unfold due. rewrite filter_cons_True by done. cbn.
  apply Nat.lt_succ_r, submseteq_length, NoDup_submseteq; [by apply NoDup_filter|].
  intros i [Hi Hin]%list_elem_of_filter. apply list_elem_of_filter.
  destruct (decide (i ∈ l)) as [Hl|Hl]; [|by destruct (Hnew i Hin Hl)]. by rewrite <-Hold.
Qed.

(** One round: it is the job's turn, or the job has come closer. *)
Lemma served_round I w sc j : served I → I w → scheds w !! s = Some sc → j ∈ joblist sc →
  ∃ i w' sc', usfstl_sched_next 1 s w = Ok (i, w') ∧ I w' ∧ scheds w' !! s = Some sc' ∧
    (i = j ∨ j ∈ joblist sc' ∧
      (let left w sc := off (current_time sc) (start (job_at (jobs w) j)) in
       left w' sc' < left w sc ∨
       left w' sc' = left w sc ∧ (due (jobs w') (current_time sc') (joblist sc') < due (jobs w) (current_time sc) (joblist sc))%nat)).
Proof.
  intros HI Hw Hs Hj. pose proof (served_wf I HI w Hw) as Hwf.
  destruct (served_sched I HI w Hw) as (sc0 & Hs0 & Hst). rewrite Hs in Hs0. injection Hs0 as <-.
  destruct (joblist sc) as [|i l] eqn:Hl; [by apply not_elem_of_nil in Hj|].
  destruct (ww_order _ _ Hwf _ _ Hs) as [Hct Ho]. destruct Ho as [Ho Hwin]; [apply Hst|]. rewrite Hl in Ho, Hwin.
  destruct (Hwin i ltac:(left)) as [[jb Hjb] [Hr1 Hr2]]. rewrite (job_at_some _ _ _ Hjb) in Hr1, Hr2.
  destruct (served_call I HI w sc i jb l Hw Hs Hl Hjb) as (f & w' & sc' & Hf & Hcall & Hw' & Hs' & Hct' & Hold & Hnew).
  exists i, w', sc'. split; [|split; [done|split; [done|]]].
  { rewrite (sched_next_run 0 _ _ _ _ _ _ Hwf Hs Hst Hl Hjb), Hf. erewrite bind_ok by done. by erewrite bind_ok by done. }
  destruct (decide (i = j)) as [|Hne]; [by left|right].
  apply elem_of_cons in Hj as [->|Hj]; [done|]. destruct (Hold j Hj) as [Hj' Hsame]. split; [done|]. cbv beta zeta. rewrite Hsame, Hct'.
  apply StronglySorted_inv in Ho as [_ Ho]. rewrite Forall_forall in Ho. specialize (Ho j Hj). unfold queue_le, job_le in Ho.
  rewrite (job_at_some _ _ _ Hjb) in Ho. rewrite (off_shift (current_time sc) (start jb)) by lia.
  destruct (decide (start jb = current_time sc)) as [Heq|Hne'].
  - right. rewrite Heq, off_self. split; [lia|]. apply due_served; try done.
    + apply (proj1 (ww_links _ _ (served_wf I HI w' Hw')) _ _ QJobs Hs').
    + by rewrite (job_at_some _ _ _ Hjb).
    + intros k Hk. by apply Hold.
    + rewrite <-Heq. exact Hnew.
  - left. assert (off (current_time sc) (start jb) ≠ 0); [|pose proof (off_range (current_time sc) (start jb)); lia].
    intros H0. apply Hne'. apply (off_inj (current_time sc)); [done|lia|by rewrite off_self].
Qed.

Lemma job_reached I : served I → ∀ d k w sc j, I w → scheds w !! s = Some sc → j ∈ joblist sc →
  off (current_time sc) (start (job_at (jobs w) j)) < Z.of_nat d →
  (due (jobs w) (current_time sc) (joblist sc) < k)%nat →
  ∃ n l w', run_jobs n s w = Ok (l ++ [j], w') ∧ I w'.
Proof.
  intros HI d. induction d as [|d IHd].
  { intros k w sc j _ _ _ H. pose proof (off_range (current_time sc) (start (job_at (jobs w) j))). lia. }
  induction k as [|k IHk]; [lia|]. intros w sc j Hw Hs Hj Hd Hk.
  destruct (served_round I w sc j HI Hw Hs Hj) as (i & w1 & sc1 & E1 & Hw1 & Hs1 & [->|[Hj1 Hleft]]).
  { exists 1%nat, [], w1. split; [|done]. cbn [run_jobs]. by rewrite (bind_ok _ _ _ _ _ E1). }
  assert (∃ n l w', run_jobs n s w1 = Ok (l ++ [j], w') ∧ I w') as (n & l & w' & E2 & Hw').
  { cbv beta zeta in Hleft. destruct Hleft as [Hlt|[Heq Hdue]].
    - eapply IHd; try done; [lia|apply Nat.lt_succ_diag_r].
    - eapply IHk; try done; lia. }
  exists (S n), (i :: l), w'. split; [|done]. cbn [run_jobs]. by rewrite (bind_ok _ _ _ _ _ E1), (bind_ok _ _ _ _ _ E2).
Qed.

(** C2. No job starves: whatever the callbacks do, as long as they return, leave the
    jobs that wait alone, and add no job for the very time at which they run, the
    main loop reaches every job on the joblist after finitely many calls of
    [usfstl_sched_next], all of which return.  New jobs may be added without end
    and may go in front of the job that waits. *)
Theorem job_eventually_runs (I : world E F → Prop) w sc j :
  served I → I w → scheds w !! s = Some sc → j ∈ joblist sc →
  ∃ n l w', run_jobs n s w = Ok (l ++ [j], w') ∧ I w'.
Proof.
  intros HI Hw Hs Hj. eapply (job_reached I HI (Z.to_nat (2^64))); try done; [|apply Nat.lt_succ_diag_r].
  pose proof (off_range (current_time sc) (start (job_at (jobs w) j))). lia.
Qed.
End live.

(** ** Periodic jobs

    A callback that starts its job again a period later meets what is asked. *)
Section periodic.
Variable s : Z.
Abbreviation W := (world unit Z).
Implicit Types w : W.

Definition again (period j : Z) : M W unit :=
  sc ← get_sched s;
  upd_job j (λ jb, jb <| start := u64 (current_time sc + period) |>);;
  usfstl_sched_add_job (SE := env_bottom) s j.

#[local] Instance periodic_env : SchedEnv unit Z := {|
  disable_skip_external_request := false;
  call_request _ _ _ := fail OutOfFuel;
  call_wait _ _ := fail OutOfFuel;
  call_get_time _ _ := fail OutOfFuel;
  call_set_time _ _ _ := fail OutOfFuel;
  call_time_advanced _ _ _ := fail OutOfFuel;
  call_next_time_changed _ _ := fail OutOfFuel;
  call_callback := again;
|}.

Record periodic w : Prop := mk_periodic {
  pe_wf : world_wf w;
  pe_sched : ∃ sc, scheds w !! s = Some sc ∧ standalone sc ∧ blocked_groups sc = 0;
  pe_jobs j jb : jobs w !! j = Some jb → entry jb = Some (s, QJobs) →
    blocked jb = false ∧ group jb < 32 ∧ ∃ period, callback jb = Some period ∧ 0 < period < 2^63;
}.

Lemma again_run w sc j jb period : world_wf w → scheds w !! s = Some sc → standalone sc → blocked_groups sc = 0 →
  jobs w !! j = Some jb → entry jb = None → blocked jb = false → group jb < 32 → 0 < period < 2^63 →
  ∃ l1 l2, joblist sc = l1 ++ l2 ∧
    let jb' := jb <| start := u64 (current_time sc + period) |> in
    let w' := w_link (w <| jobs := <[j:=jb']> (jobs w) |>) s sc QJobs l1 l2 j jb' in
    again period j w = Ok (tt, w') ∧ world_wf w'.
Proof.
  intros Hw Hs Hst Hb Hj He Hbl Hg Hp. set (jb' := jb <| start := u64 (current_time sc + period) |>).
  set (w1 := w <| jobs := <[j:=jb']> (jobs w) |>). pose proof (ww_flags _ _ Hw _ _ Hj) as (_ & Hg0 & _ & Hpend).
  assert (world_wf w1) as Hw1.
  { apply (put_unlinked_wf w j jb jb' Hj He); [done|done|apply u64_range|done|done]. }
  assert (jobs w1 !! j = Some jb') as Hj1 by (cbn; by rewrite lookup_insert_eq).
  assert (eligible sc j jb') as Hel by (intros Hbit; rewrite Hb, has_bit_spec, Z.bits_0 in Hbit; done).
  assert (in_window (current_time sc) jb') as Hwin.
  { split; [apply u64_range|]. unfold jb', off, u64. cbn. lia. }
  destruct (add_job_run (SE := env_bottom) None w1 s sc j jb') as (l1 & l2 & Hl & H1 & H2 & Hrun); try done.
  exists l1, l2. split; [done|]. cbv zeta. split.
  - unfold again. rewrite (bind_ok _ _ _ _ _ (get_sched_run _ _ _ Hs)). erewrite bind_ok; [exact Hrun|].
    unfold upd_job. by rewrite (bind_ok _ _ _ _ _ (get_job_run _ _ _ Hj)).
  - eapply link_wf; try done. intros _ _. split; [|done]. eapply insert_sorted; try done.
    rewrite <-Hl. destruct (ww_order _ _ Hw1 _ _ Hs) as [_ Ho]. apply Ho, Hst.
Qed.

Lemma periodic_served : served s periodic.
Proof.
  split.
  - by intros w [].
  - intros w [_ (sc & Hs & Hst & _) _]. by exists sc.
  - intros w sc j jb l [Hw (sc0 & Hs0 & Hst & Hb) Hjobs] Hs Hl Hj. rewrite Hs in Hs0. injection Hs0 as <-.
    destruct (proj1 (ww_links _ _ Hw) _ _ QJobs Hs) as [Hnd Hm]. cbn in Hnd, Hm. rewrite Hl in Hnd, Hm.
    destruct (proj1 (Hm j) ltac:(left)) as (jb0 & Hj0 & He). rewrite Hj in Hj0. injection Hj0 as <-.
    destruct (Hjobs j jb Hj He) as (Hbl & Hg & period & Hcb & Hp). apply NoDup_cons in Hnd as [Hjl _].
    destruct (again_run (w_popped w s sc j jb l) (sc <| current_time := start jb |> <| joblist := l |>) j (jb <| entry := None |>) period)
      as (l1 & l2 & Hl' & Hrun & Hw'); try done.
    { by eapply popped_wf. }
    { cbn. by rewrite lookup_insert_eq. }
    { cbn. by rewrite lookup_insert_eq. }
    cbn in Hl', Hrun. eexists period, _, _. split; [done|]. split; [exact Hrun|]. split; [|split; [cbn; by rewrite lookup_insert_eq|split; [done|]]].
    + split; [exact Hw'|eexists; split; [cbn; by rewrite lookup_insert_eq|done]|].
      intros i jb' Hi He'. cbn in Hi. apply lookup_insert_Some in Hi as [[_ <-]|[Hne Hi]]; [cbn; by eauto|].
      rewrite !lookup_insert_ne in Hi by done. by eapply Hjobs.
    + cbn. split.
      * intros i Hi. rewrite Hl' in Hi. split; [set_solver|]. assert (i ≠ j) by (rewrite Hl' in Hjl; set_solver).
        by rewrite !job_at_insert_ne by done.
      * intros i Hi Hil. assert (i = j) as -> by (rewrite Hl' in Hil; set_solver). rewrite job_at_insert. cbn.
        pose proof (ww_flags _ _ Hw _ _ Hj) as (Hr & _). unfold u64. lia.
Qed.
End periodic.

(** Job 10 with the period 2 and priority over job 11, which waits at time 5:
    job 10 runs at 1, 3 and 5 before it. *)
Definition live_job (start prio period : Z) : usfstl_job Z := Job start prio 0 EmptyString 0 (Some period) None false false.
Definition live_sched : usfstl_scheduler Z := USFSTL_SCHEDULER EmptyString 100.
Definition live0 : world unit Z :=
  World (list_to_map [(10, live_job 1 5 2); (11, live_job 5 0 100)]) (list_to_map [(1, live_sched)]) tt.
Definition live1 : world unit Z := w_link live0 1 live_sched QJobs [] [] 11 (live_job 5 0 100).
Definition live_world : world unit Z := w_link live1 1 (live_sched <| joblist := [11] |>) QJobs [] [11] 10 (live_job 1 5 2).

Lemma live_world_periodic : periodic 1 live_world.
Proof.
  split.
  - apply link_wf; [done|done|done|done| |done| |done].
    + apply link_wf; [done|done|done|done| |done| |done].
      * apply fresh_wf; unfold live0; cbn; repeat apply map_Forall_insert_2; try apply map_Forall_empty; cbn; split_and!; (done || lia).
      * intros _ _. split; [repeat constructor|]. split; vm_compute; done.
    + intros _ _. split; [|split; vm_compute; done]. repeat constructor; vm_compute; by left.
  - eexists. split; [reflexivity|]. done.
  - intros j jb Hj _. cbn in Hj.
    repeat (apply lookup_insert_Some in Hj as [[_ <-]|[_ Hj]]; [split; [done|]; split; [done|]; eexists; split; [reflexivity|lia]|]).
    by rewrite lookup_empty in Hj.
Qed.

Lemma job_eventually_runs_witness :
  (∃ n l w', run_jobs (SE := periodic_env 1) n 1 live_world = Ok (l ++ [11], w') ∧ periodic 1 w') ∧
  (∃ w', run_jobs (SE := periodic_env 1) 4 1 live_world = Ok ([10; 10; 10] ++ [11], w')).
Proof.
  split.
  - eapply (job_eventually_runs (SE := periodic_env 1) 1 (periodic 1) live_world).
    + apply periodic_served.
    + exact live_world_periodic.
    + reflexivity.
    + cbn. set_solver.
  - eexists. vm_compute. reflexivity.
Defined.
