(* ===== verification/SchedGroups.v ===== *)
(** * Blocking groups and single jobs (src/sched.c)

    The loops over the job lists run to the end with fuel for one more round
    than there are jobs; blocking and restoring groups move exactly the right
    jobs, and blocking a job and unblocking it again brings it back. *)
From S2P Require Import Prelude Sched SchedQueue SchedProps SchedRun.

Section loops.
Context {E F : Type} `{SE : SchedEnv E F}.
Implicit Types w : world E F.
Implicit Types sc : usfstl_scheduler F.
Implicit Types jb : usfstl_job F.

Lemma successor_app l1 y l2 : NoDup (l1 ++ y :: l2) → successor y (l1 ++ y :: l2) = head l2.
Proof.
  induction l1 as [|x l1 IH]; cbn.
  - by rewrite Z.eqb_refl.
  - intros [Hx Hnd]%NoDup_cons. destruct (Z.eqb_spec x y) as [->|]; [set_solver|by apply IH].
Qed.

Lemma queue_next_run w s sc q l1 y l2 :
  links_ok w → scheds w !! s = Some sc → queue q sc = l1 ++ y :: l2 →
  next_item s q y w = Ok (head l2, w).
Proof.
  intros [Hl _] Hs Hq. destruct (Hl _ _ q Hs) as [Hnd Hin]. rewrite Hq in Hnd, Hin.
  destruct (proj1 (Hin y)) as (jb & Hy & He); [set_solver|].
  unfold next_item. mstep. mstep. rewrite decide_True by done. by rewrite Hq, successor_app.
Qed.

(** What a loop body may do: the state relation [R] tells, for the entries
    still to be visited, that they are the end of the list. *)
Lemma for_each_safe_rule s q body (R : list Z → world E F → Prop) :
  (∀ rest w, R rest w → ∃ sc kept, links_ok w ∧ scheds w !! s = Some sc ∧ queue q sc = kept ++ rest) →
  (∀ x rest w, R (x :: rest) w → ∃ w', body x w = Ok (tt, w') ∧ R rest w') →
  ∀ rest w fuel, R rest w → (length rest < fuel)%nat →
  ∃ w', for_each_safe_loop fuel s q (head rest) (head (tail rest)) body w = Ok (tt, w') ∧ R [] w'.
Proof.
  intros Hend Hbody rest. induction rest as [|x rest IH]; intros w fuel HR Hf.
  { destruct fuel; [cbn in Hf; lia|]. by exists w. }
  destruct fuel as [|fuel]; [cbn in Hf; lia|]. cbn [head tail for_each_safe_loop].
  destruct (Hbody _ _ _ HR) as (w1 & Hb & HR1). erewrite bind_ok by done.
  destruct (IH w1 fuel HR1) as (w' & Hrun & HR'); [cbn in Hf; lia|].
  exists w'. split; [|done]. rewrite <- Hrun.
  destruct rest as [|y rest]; [done|]. cbn [head tail].
  destruct (Hend _ _ HR1) as (sc & kept & Hl & Hs & Hq).
  erewrite bind_ok by (by eapply queue_next_run). done.
Qed.

Lemma for_each_safe_run s q body (R : list Z → world E F → Prop) w sc fuel :
  (∀ rest w, R rest w → ∃ sc kept, links_ok w ∧ scheds w !! s = Some sc ∧ queue q sc = kept ++ rest) →
  (∀ x rest w, R (x :: rest) w → ∃ w', body x w = Ok (tt, w') ∧ R rest w') →
  links_ok w → scheds w !! s = Some sc → R (queue q sc) w → (length (queue q sc) < fuel)%nat →
  ∃ w', for_each_safe fuel s q body w = Ok (tt, w') ∧ R [] w'.
Proof.
  intros Hend Hbody Hl Hs HR Hf. unfold for_each_safe. mstep.
  destruct (for_each_safe_rule s q body R Hend Hbody _ _ _ HR Hf) as (w' & Hrun & HR').
  exists w'. split; [|done]. rewrite <- Hrun.
  destruct (queue q sc) as [|x l] eqn:Hq; [done|]. cbn [head tail].
  erewrite bind_ok by (eapply (queue_next_run _ _ _ _ []); done). done.
Qed.

(** ** Taking blocked jobs off the joblist *)

(** Whether the job at [j] stays on the joblist. *)
Definition keeps sc (js : gmap Z (usfstl_job F)) (j : Z) : bool :=
  bool_decide (allowed_job sc = Some j) || negb (has_bit (blocked_groups sc) (group (job_at js j))).

Definition kept_jobs sc js (l : list Z) : list Z := List.filter (keeps sc js) l.
Definition removed_jobs sc js (l : list Z) : list Z := List.filter (λ j, negb (keeps sc js j)) l.

Lemma keeps_eligible sc js j jb : js !! j = Some jb → keeps sc js j = true → eligible sc j jb.
Proof.
  intros Hj Hk Hb. unfold keeps in Hk. rewrite (job_at_some _ _ _ Hj), Hb in Hk.
  rewrite orb_false_r in Hk. by apply bool_decide_eq_true in Hk.
Qed.

Lemma keeps_same w w' sc j : same_jobs w w' → is_Some (jobs w !! j) → keeps sc (jobs w') j = keeps sc (jobs w) j.
Proof. intros H [jb Hj]. destruct (H _ _ Hj) as [e He]. unfold keeps, job_at. by rewrite Hj, He. Qed.

(** The loop state of [usfstl_sched_remove_blocked_jobs] on [s]. *)
Definition remove_state (w0 : world E F) (s : Z) sc (rest : list Z) w : Prop :=
  ∃ seen, joblist sc = seen ++ rest ∧ world_wf_but (Some s) w ∧ same_jobs w0 w ∧
    scheds w = <[s := sc <| joblist := kept_jobs sc (jobs w0) seen ++ rest |>
                         <| pending_jobs := pending_jobs sc ++ removed_jobs sc (jobs w0) seen |>]>
               (scheds w0).

Lemma without_middle j l1 l2 : NoDup (l1 ++ j :: l2) → without j (l1 ++ j :: l2) = l1 ++ l2.
Proof.
  intros Hnd. apply NoDup_app in Hnd as (H1 & H2 & H3). unfold without.
  rewrite List.filter_app.
  change (List.filter ?f l1 ++ List.filter ?f (j :: l2)) with (without j l1 ++ without j (j :: l2)).
  apply NoDup_cons in H3 as [H3 _]. rewrite without_head by done. f_equal.
  assert (j ∉ l1) as Hj by set_solver. clear -Hj. rewrite <- (without_head j l1 Hj) at 2.
  unfold without. cbn. by rewrite Z.eqb_refl.
Qed.

(** Moving a job of the joblist to the pending list. *)
Lemma block_job_in_group_run w s sc j jb l1 l2 x :
  world_wf_but x w → scheds w !! s = Some sc → joblist sc = l1 ++ j :: l2 → jobs w !! j = Some jb →
  ∃ w', usfstl_sched_block_job_in_group s j w = Ok (tt, w') ∧ world_wf_but x w' ∧ same_jobs w w' ∧
    scheds w' = <[s := sc <| joblist := l1 ++ l2 |> <| pending_jobs := pending_jobs sc ++ [j] |>]> (scheds w).
Proof.
  intros Hw Hs Hq Hj. destruct (proj1 (ww_links _ _ Hw) _ _ QJobs Hs) as [Hnd Hin].
  cbn in Hnd, Hin. rewrite Hq in Hnd, Hin.
  destruct (proj1 (Hin j)) as (jb' & Hj' & He); [set_solver|]. rewrite Hj in Hj'. injection Hj' as <-.
  destruct (ww_flags _ _ Hw _ _ Hj) as (_ & _ & Hb & _).
  set (w1 := w_unlink w s sc QJobs j jb).
  set (sc1 := set_queue QJobs (without j (queue QJobs sc)) sc).
  assert (scheds w1 !! s = Some sc1) as Hs1 by (cbn; by rewrite lookup_insert_eq).
  assert (jobs w1 !! j = Some (jb <| entry := None |>)) as Hj1 by (cbn; by rewrite lookup_insert_eq).
  exists (w_link w1 s sc1 QPending (pending_jobs sc) [] j (jb <| entry := None |>)). split_and!.
  - unfold usfstl_sched_block_job_in_group. erewrite bind_ok.
    2:{ rewrite (del_job_run _ j jb) by (done || apply Hw). rewrite He, Hs. done. }
    by apply queue_append_run.
  - apply link_wf; try done; [by rewrite app_nil_r|by apply unlink_wf|].
    cbn. destruct (blocked jb); [|done]. by rewrite Hb in He.
  - apply (same_jobs_trans _ w1); by eapply same_jobs_put.
  - cbn. rewrite insert_insert_eq. change (List.filter _ (joblist sc)) with (without j (joblist sc)).
    by rewrite Hq, without_middle.
Qed.

Lemma filter_snoc {A} (f : A → bool) l x :
  List.filter f (l ++ [x]) = List.filter f l ++ (if f x then [x] else []).
Proof. by rewrite List.filter_app. Qed.

(** The body of the loop. *)
Definition remove_body (s x : Z) : M (world E F) unit :=
  sc ← get_sched s;
  jb ← get_job x;
  if bool_decide (allowed_job sc = Some x) then mret tt
  else when (has_bit (blocked_groups sc) (group jb)) (usfstl_sched_block_job_in_group s x).

Lemma remove_body_step w0 s sc x rest w :
  world_wf_but (Some s) w0 → scheds w0 !! s = Some sc →
  remove_state w0 s sc (x :: rest) w →
  ∃ w', remove_body s x w = Ok (tt, w') ∧ remove_state w0 s sc rest w'.
Proof.
  intros Hw0 Hs0 (seen & Hq & Hw & Hsame & Hs).
  assert (∃ jb0, jobs w0 !! x = Some jb0) as [jb0 Hj0].
  { destruct (proj1 (ww_links _ _ Hw0) _ _ QJobs Hs0) as [_ Hin].
    destruct (proj1 (Hin x)) as (jb & Hj & _); [|by eauto]. cbn. rewrite Hq. set_solver. }
  destruct (Hsame _ _ Hj0) as [e Hj]. unfold remove_state, remove_body.
  assert (joblist sc = (seen ++ [x]) ++ rest) as Hq' by (by rewrite <- app_assoc).
  set (k := keeps sc (jobs w0) x).
  assert (keeps sc (jobs w0) x = k) as Hk by done. unfold keeps in Hk.
  rewrite (job_at_some _ _ _ Hj0) in Hk.
  erewrite bind_ok by (apply get_sched_run; rewrite Hs; apply lookup_insert_eq).
  mstep. cbn.
  destruct k eqn:Ek.
  - exists w. split; [case_bool_decide; [done|]; cbn in Hk; apply negb_true_iff in Hk; by rewrite Hk|].
    exists (seen ++ [x]). split_and!; [done..|].
    unfold kept_jobs, removed_jobs. rewrite !filter_snoc.
    change (keeps sc (jobs w0) x) with k. rewrite Ek. cbn. by rewrite app_nil_r, <- app_assoc.
  - apply orb_false_iff in Hk as [-> Hk%negb_false_iff]. rewrite Hk. cbn [when].
    pose proof (lookup_insert_eq (scheds w0) s (sc <| joblist := kept_jobs sc (jobs w0) seen ++ x :: rest |>
      <| pending_jobs := pending_jobs sc ++ removed_jobs sc (jobs w0) seen |>)) as Hsw.
    rewrite <- Hs in Hsw.
    destruct (block_job_in_group_run _ _ _ x _ (kept_jobs sc (jobs w0) seen) rest _ Hw Hsw eq_refl Hj)
      as (w' & Hrun & Hw' & Hsame' & Hs').
    exists w'. split; [exact Hrun|]. exists (seen ++ [x]).
    split_and!; [done|done|by eapply same_jobs_trans|].
    rewrite Hs', Hs, insert_insert_eq. unfold kept_jobs, removed_jobs. rewrite !filter_snoc.
    change (keeps sc (jobs w0) x) with k. rewrite Ek. cbn. by rewrite app_nil_r, <- app_assoc.
Qed.

Lemma remove_blocked_jobs_run fuel w s sc :
  world_wf_but (Some s) w → scheds w !! s = Some sc → (length (joblist sc) < fuel)%nat →
  ∃ w', usfstl_sched_remove_blocked_jobs fuel s w = Ok (tt, w') ∧ world_wf w' ∧ same_jobs w w' ∧
    scheds w' = <[s := sc <| joblist := kept_jobs sc (jobs w) (joblist sc) |>
                          <| pending_jobs := pending_jobs sc ++ removed_jobs sc (jobs w) (joblist sc) |>]>
                (scheds w).
Proof.
  intros Hw Hs Hf. unfold usfstl_sched_remove_blocked_jobs.
  destruct (for_each_safe_run s QJobs (remove_body s) (remove_state w s sc) w sc fuel) as (w' & Hrun & HR).
  - intros rest w1 (seen & Hq & Hw1 & _ & Hs1). do 2 eexists.
    split_and!; [apply Hw1|by rewrite Hs1, lookup_insert_eq|done].
  - intros x rest w1 HR. by apply remove_body_step.
  - apply Hw.
  - done.
  - exists []. split_and!; [done|done|apply same_jobs_refl|]. cbn. rewrite app_nil_r, insert_id; [done|].
    rewrite Hs. f_equal. by destruct sc.
  - done.
  - exists w'. split; [exact Hrun|]. destruct HR as (seen & Hq & Hw' & Hsame & Hs').
    rewrite app_nil_r in Hq. subst seen. rewrite app_nil_r in Hs'. split_and!; [|done|done].
    destruct Hw' as [H1 H2 H3 H4]. split; [done|done| |done].
    intros s' sc' j jb _ Hsc' Hj Hjb. destruct (decide (s = s')) as [<-|Hne].
    2:{ eapply H3; try done. by intros [= ->]. }
    rewrite Hs', lookup_insert_eq in Hsc'. injection Hsc' as <-. cbn in Hj.
    unfold kept_jobs in Hj. rewrite list_elem_of_In, filter_In, <- list_elem_of_In in Hj.
    destruct Hj as [Hj Hk]. destruct (proj1 (ww_links _ _ Hw) _ _ QJobs Hs) as [_ Hin].
    destruct (proj1 (Hin j) Hj) as (jb0 & Hj0 & _). destruct (Hsame _ _ Hj0) as [e He].
    simplify_eq. exact (keeps_eligible sc (jobs w) j jb0 Hj0 Hk).
Qed.

(** ** Bringing jobs back *)

(** The jobs of [w'] are those of [w], some of which are linked differently,
    and some overdue ones start at [now] instead. *)
Definition restored (now : Z) w w' : Prop :=
  ∀ i jb, jobs w !! i = Some jb → ∃ e t, jobs w' !! i = Some (jb <| entry := e |> <| start := t |>) ∧
    (t = start jb ∨ usfstl_time_cmp (start jb) Z.ltb now = true ∧ t = now).

Lemma restored_refl now w : restored now w w.
Proof. intros i jb H. exists (entry jb), (start jb). rewrite H. destruct jb; eauto. Qed.

Lemma time_lt_irrefl t : usfstl_time_cmp t Z.ltb t = false.
Proof. unfold usfstl_time_cmp. by rewrite Z.sub_diag. Qed.

Lemma restored_trans now w1 w2 w3 : restored now w1 w2 → restored now w2 w3 → restored now w1 w3.
Proof.
  intros H1 H2 i jb Hi. destruct (H1 _ _ Hi) as (e & t & He & Ht).
  destruct (H2 _ _ He) as (e' & t' & He' & Ht'). exists e', t'. split; [done|]. cbn in Ht'.
  destruct Ht as [->|[Hlt ->]]; [done|]. right. split; [done|].
  destruct Ht' as [->|[_ ->]]; done.
Qed.

Lemma same_restored now w w' : same_jobs w w' → restored now w w'.
Proof. intros H i jb Hi. destruct (H _ _ Hi) as [e He]. exists e, (start jb). rewrite He. by destruct jb; eauto. Qed.

(** A job that can go back to the joblist. *)
Definition restorable (now : Z) jb : Prop := group jb < 32 ∧ off now (start jb) ≠ 2^63.

Lemma restored_restorable now w w' j jb jb' :
  restored now w w' → jobs w !! j = Some jb → jobs w' !! j = Some jb' →
  restorable now jb → restorable now jb'.
Proof.
  intros H Hj Hj' [Hg Ho]. destruct (H _ _ Hj) as (e & t & He & Ht). simplify_eq. split; [done|].
  cbn. destruct Ht as [->|[_ ->]]; [done|]. rewrite off_self. done.
Qed.

Lemma start_in_window now t :
  0 ≤ now < 2^64 → 0 ≤ t < 2^64 → off now t ≠ 2^63 →
  let t' := if usfstl_time_cmp t Z.ltb now then now else t in
  0 ≤ t' < 2^64 ∧ off now t' < 2^63.
Proof.
  intros Hn Ht Ho. cbn. destruct (usfstl_time_cmp t Z.ltb now) eqn:Hc.
  - split; [done|]. rewrite off_self. done.
  - split; [done|]. revert Hc Ho. unfold usfstl_time_cmp, off, u64, s64.
    destruct (Z.ltb_spec ((now - t) mod 2^64) (2^63)); lia.
Qed.

(** The job as it is when [usfstl_sched_restore_job] adds it. *)
Definition restart (now : Z) jb : usfstl_job F :=
  if usfstl_time_cmp (start jb) Z.ltb now
  then jb <| entry := None |> <| start := now |> else jb <| entry := None |>.

Lemma restart_start now jb :
  start (restart now jb) = if usfstl_time_cmp (start jb) Z.ltb now then now else start jb.
Proof. unfold restart. by case_match. Qed.

Lemma restart_put_wf x w j jb now :
  world_wf_but x w → 0 ≤ now < 2^64 → jobs w !! j = Some (jb <| entry := None |>) →
  world_wf_but x (w <| jobs := <[j:=restart now jb]> (jobs w) |>).
Proof.
  intros Hw Hnow Hj. destruct (ww_flags _ _ Hw _ _ Hj) as (Hst & Hg & _ & Hp). cbn in Hst, Hg, Hp.
  eapply put_unlinked_wf; try done; [unfold restart; by case_match|..];
    unfold restart; case_match; cbn; done.
Qed.

(** [usfstl_sched_restore_job] from the moment the job is off its list. *)
Lemma restore_unlinked_run x w s sc j jb :
  world_wf_but x w → scheds w !! s = Some sc → standalone sc → jobs w !! j = Some jb →
  entry jb = None → blocked jb = false → eligible sc j jb → restorable (current_time sc) jb →
  ∃ l1 l2 w', usfstl_sched_restore_job s j w = Ok (tt, w') ∧ world_wf_but x w' ∧
    joblist sc = l1 ++ l2 ∧ scheds w' = <[s := sc <| joblist := l1 ++ j :: l2 |>]> (scheds w) ∧
    jobs w' = <[j := (restart (current_time sc) jb) <| entry := Some (s, QJobs) |>]> (jobs w).
Proof.
  intros Hw Hs Hst Hj He Hb Hel [Hg Ho]. pose proof Hst as (_ & Hgt & _).
  set (now := current_time sc) in *.
  destruct (ww_order _ _ Hw _ _ Hs) as [Hnow _].
  destruct (ww_flags _ _ Hw _ _ Hj) as (Hjst & _).
  assert (jb = jb <| entry := None |>) as Hjb by (destruct jb; cbn in He; by subst).
  assert (in_window now (restart now jb)) as Hwin.
  { unfold in_window. rewrite restart_start. by apply start_in_window. }
  set (w1 := w <| jobs := <[j:=restart now jb]> (jobs w) |>).
  assert (world_wf_but x w1) as Hw1 by (apply restart_put_wf; [done|done|by rewrite <- Hjb]).
  destruct (add_job_run x w1 s sc j (restart now jb)) as (l1 & l2 & Hl & H1 & H2 & Hrun); try done.
  1: by cbn; rewrite lookup_insert_eq.
  1-4: unfold restart; by case_match.
  exists l1, l2, (w_link w1 s sc QJobs l1 l2 j (restart now jb)). split_and!; [| |done|done|].
  - unfold usfstl_sched_restore_job. erewrite bind_ok.
    2:{ rewrite (del_job_run _ j jb) by (done || apply Hw). by rewrite He. }
    mstep. mstep. rewrite <- Hrun. subst w1. unfold restart. fold now.
    destruct (usfstl_time_cmp (start jb) Z.ltb now); cbn [when].
    + erewrite bind_ok; [|erewrite bind_ok by (by eapply current_time_run); by eapply upd_job_run].
      cbn beta. fold now. by rewrite <- Hjb.
    + erewrite bind_ok by done. rewrite <- Hjb, insert_id by done. by destruct w.
  - eapply link_wf; try done; [by cbn; rewrite lookup_insert_eq|unfold restart; by case_match|..].
    + unfold restart; by case_match.
    + intros _ _. split; [|done]. eapply insert_sorted; try done; [by cbn; rewrite lookup_insert_eq|].
      rewrite <- Hl. by apply (ww_order _ _ Hw1 _ _ Hs).
    + intros _ _. unfold restart; by case_match.
  - cbn. by rewrite insert_insert_eq.
Qed.

(** Restoring a job that is on a list is restoring it once it is off it. *)
Lemma restore_job_linked w s s' q sc' j jb :
  links_ok w → jobs w !! j = Some jb → entry jb = Some (s', q) → scheds w !! s' = Some sc' →
  usfstl_sched_restore_job s j w = usfstl_sched_restore_job s j (w_unlink w s' sc' q j jb).
Proof.
  intros Hl Hj He Hs. unfold usfstl_sched_restore_job.
  erewrite bind_ok by (rewrite (del_job_run _ _ _ Hj Hl), He, Hs; done).
  symmetry. etransitivity; [eapply bind_ok|done]. unfold usfstl_sched_del_job. by mstep.
Qed.

Lemma restored_put now w w' j jb e :
  jobs w !! j = Some jb → jobs w' = <[j:=(restart now jb) <| entry := e |>]> (jobs w) → restored now w w'.
Proof.
  intros Hj Hw i jb' Hi. rewrite Hw, lookup_insert. case_decide as Hij.
  - subst i. rewrite Hj in Hi. injection Hi as <-.
    exists e, (start (restart now jb)). rewrite restart_start. unfold restart.
    destruct (usfstl_time_cmp _ _ _) eqn:Hc; (split; [by destruct jb|by eauto]).
  - exists (entry jb'), (start jb'). rewrite Hi. destruct jb'; eauto.
Qed.

(** Moving a job of the pending list back to the joblist. *)
Lemma restore_pending_run w s sc j jb l1 l2 x :
  world_wf_but x w → scheds w !! s = Some sc → standalone sc → pending_jobs sc = l1 ++ j :: l2 →
  jobs w !! j = Some jb → eligible sc j jb → restorable (current_time sc) jb →
  ∃ w' jl, usfstl_sched_restore_job s j w = Ok (tt, w') ∧ world_wf_but x w' ∧
    restored (current_time sc) w w' ∧ jl ≡ₚ joblist sc ++ [j] ∧
    scheds w' = <[s := sc <| joblist := jl |> <| pending_jobs := l1 ++ l2 |>]> (scheds w).
Proof.
  intros Hw Hs Hst Hq Hj Hel Hre. destruct (proj1 (ww_links _ _ Hw) _ _ QPending Hs) as [Hnd Hin].
  cbn in Hnd, Hin. rewrite Hq in Hnd, Hin.
  destruct (proj1 (Hin j)) as (jb' & Hj' & He); [set_solver|]. rewrite Hj in Hj'. injection Hj' as <-.
  destruct (ww_flags _ _ Hw _ _ Hj) as (_ & _ & Hb & _).
  rewrite (restore_job_linked w s s QPending sc j jb) by (done || apply Hw).
  set (w1 := w_unlink w s sc QPending j jb).
  destruct (restore_unlinked_run x w1 s (sc <| pending_jobs := l1 ++ l2 |>) j (jb <| entry := None |>))
    as (k1 & k2 & w' & Hrun & Hw' & Hl & Hs' & Hjs); try done.
  - by apply unlink_wf.
  - cbn. rewrite lookup_insert_eq. change (List.filter _ _) with (without j (pending_jobs sc)).
    by rewrite Hq, without_middle.
  - cbn. by rewrite lookup_insert_eq.
  - cbn. destruct (blocked jb); [|done]. by rewrite Hb in He.
  - cbn in Hl. exists w', (k1 ++ j :: k2). split_and!; [done|done| | |].
    + eapply (restored_trans _ _ w1); [apply same_restored; by eapply same_jobs_put|].
      eapply restored_put; [|exact Hjs]. cbn. by rewrite lookup_insert_eq.
    + rewrite Hl. clear. solve_Permutation.
    + rewrite Hs'. cbn. by rewrite insert_insert_eq.
Qed.

(** The loop state of [usfstl_sched_restore_blocked_jobs] on [s]. *)
Definition restore_state (w0 : world E F) (s : Z) sc (rest : list Z) w : Prop :=
  ∃ seen jl, pending_jobs sc = seen ++ rest ∧ world_wf_but (Some s) w ∧ restored (current_time sc) w0 w ∧
    jl ≡ₚ joblist sc ++ kept_jobs sc (jobs w0) seen ∧
    scheds w = <[s := sc <| joblist := jl |>
                         <| pending_jobs := removed_jobs sc (jobs w0) seen ++ rest |>]> (scheds w0).

Definition restore_body (s j : Z) : M (world E F) unit :=
  sc ← get_sched s;
  jb ← get_job j;
  when (bool_decide (allowed_job sc = Some j) || negb (has_bit (blocked_groups sc) (group jb)))
    (usfstl_sched_restore_job s j).

Lemma restore_body_step w0 s sc x rest w :
  world_wf_but (Some s) w0 → scheds w0 !! s = Some sc → standalone sc →
  (∀ j jb, j ∈ pending_jobs sc → jobs w0 !! j = Some jb → restorable (current_time sc) jb) →
  restore_state w0 s sc (x :: rest) w →
  ∃ w', restore_body s x w = Ok (tt, w') ∧ restore_state w0 s sc rest w'.
Proof.
  intros Hw0 Hs0 Hst Hre (seen & jl & Hq & Hw & Hsame & Hjl & Hs).
  assert (x ∈ pending_jobs sc) as Hx by (rewrite Hq; set_solver).
  destruct (proj1 (proj2 (proj1 (ww_links _ _ Hw0) _ _ QPending Hs0) x) Hx) as (jb0 & Hj0 & _).
  destruct (Hsame _ _ Hj0) as (e & t & Hj & _). unfold restore_state, restore_body.
  assert (pending_jobs sc = (seen ++ [x]) ++ rest) as Hq' by (by rewrite <- app_assoc).
  set (sc1 := sc <| joblist := jl |> <| pending_jobs := removed_jobs sc (jobs w0) seen ++ x :: rest |>) in *.
  assert (scheds w !! s = Some sc1) as Hs1 by (by rewrite Hs, lookup_insert_eq).
  mstep. mstep.
  change (bool_decide _ || _) with (bool_decide (allowed_job sc = Some x) || negb (has_bit (blocked_groups sc) (group jb0))).
  assert (keeps sc (jobs w0) x = bool_decide (allowed_job sc = Some x) || negb (has_bit (blocked_groups sc) (group jb0)))
    as <- by (unfold keeps; by rewrite (job_at_some _ _ _ Hj0)).
  destruct (keeps sc (jobs w0) x) eqn:Hk; cbn [when].
  - destruct (restore_pending_run w s sc1 x (jb0 <| entry := e |> <| start := t |>) (removed_jobs sc (jobs w0) seen) rest (Some s) Hw Hs1)
      as (w' & jl' & Hrun & Hw' & Hr' & Hjl' & Hs'); try done.
    { exact (keeps_eligible sc _ _ _ Hj0 Hk). }
    { by eapply restored_restorable; [..|by eapply Hre]. }
    exists w'. split; [exact Hrun|]. exists (seen ++ [x]), jl'.
    split_and!; [done|done|by eapply restored_trans|..]; unfold kept_jobs, removed_jobs; rewrite filter_snoc, Hk.
    + rewrite Hjl'. cbn. rewrite Hjl. unfold kept_jobs. by rewrite app_assoc.
    + rewrite Hs', Hs, insert_insert_eq. cbn. by rewrite app_nil_r.
  - exists w. split; [done|]. exists (seen ++ [x]), jl.
    split_and!; [done..| |]; unfold kept_jobs, removed_jobs; rewrite filter_snoc, Hk.
    + by rewrite app_nil_r.
    + rewrite Hs. subst sc1. unfold removed_jobs. cbn. by rewrite <- app_assoc.
Qed.

Lemma restore_blocked_jobs_run fuel w s sc :
  world_wf_but (Some s) w → scheds w !! s = Some sc → standalone sc →
  (∀ j jb, j ∈ pending_jobs sc → jobs w !! j = Some jb → restorable (current_time sc) jb) →
  (length (pending_jobs sc) < fuel)%nat →
  ∃ w' jl, usfstl_sched_restore_blocked_jobs fuel s w = Ok (tt, w') ∧ world_wf_but (Some s) w' ∧
    restored (current_time sc) w w' ∧ jl ≡ₚ joblist sc ++ kept_jobs sc (jobs w) (pending_jobs sc) ∧
    scheds w' = <[s := sc <| joblist := jl |>
                          <| pending_jobs := removed_jobs sc (jobs w) (pending_jobs sc) |>]> (scheds w).
Proof.
  intros Hw Hs Hst Hre Hf. unfold usfstl_sched_restore_blocked_jobs.
  destruct (for_each_safe_run s QPending (restore_body s) (restore_state w s sc) w sc fuel) as (w' & Hrun & HR).
  - intros rest w1 (seen & jl & Hq & Hw1 & _ & _ & Hs1). do 2 eexists.
    split_and!; [apply Hw1|by rewrite Hs1, lookup_insert_eq|done].
  - intros x rest w1 HR. by apply restore_body_step.
  - apply Hw.
  - done.
  - exists [], (joblist sc). split_and!; [done|done|apply restored_refl|by rewrite app_nil_r|].
    cbn. rewrite insert_id; [done|]. rewrite Hs. f_equal. by destruct sc.
  - done.
  - destruct HR as (seen & jl & Hq & Hw' & Hr & Hjl & Hs'). rewrite app_nil_r in Hq. subst seen.
    rewrite app_nil_r in Hs'. by exists w', jl.
Qed.
End loops.

(** ** The claims *)
Section claims.
Context {E F : Type} `{SE : SchedEnv E F}.
Implicit Types w : world E F.
Implicit Types sc : usfstl_scheduler F.

(** The scheduler with other groups and another allowed job. *)
Definition with_groups sc (groups : Z) (job : option Z) : usfstl_scheduler F :=
  sc <| blocked_groups := groups |> <| allowed_job := job |>.

Lemma with_groups_wf w s sc groups job :
  world_wf w → scheds w !! s = Some sc →
  world_wf_but (Some s) (w <| scheds := <[s:=with_groups sc groups job]> (scheds w) |>).
Proof.
  intros [H1 H2 H3 H4] Hs. destruct (H2 _ _ Hs) as [Hn Hq].
  eapply (put_sched_wf _ _ _ sc); [|done|by intros []|done|done|done].
  split; [done|done| |done]. intros s' sc' j jb Hx. eapply H3. done.
Qed.

(** The job allowed to run although its group is blocked, as
    [usfstl_sched_block_groups] asserts it. *)
Definition allowed_ok w sc (groups : Z) (job : option Z) : Prop :=
  match job with
  | None => True
  | Some j => ∃ jb, jobs w !! j = Some jb ∧ blocked jb = false ∧
                    has_bit (Z.lor groups (blocked_groups sc)) (group jb) = true
  end.

Lemma block_groups_run fuel w s sc groups job :
  world_wf w → scheds w !! s = Some sc → (length (joblist sc) < fuel)%nat →
  allowed_ok w sc groups job →
  let sc' := with_groups sc (Z.lor (blocked_groups sc) groups) job in
  ∃ w', usfstl_sched_block_groups fuel s groups job w =
          Ok (BlockData (blocked_groups sc) (allowed_job sc), w') ∧
    world_wf w' ∧ same_jobs w w' ∧
    scheds w' = <[s := sc' <| joblist := kept_jobs sc' (jobs w) (joblist sc) |>
                           <| pending_jobs := pending_jobs sc ++ removed_jobs sc' (jobs w) (joblist sc) |>]>
                (scheds w).
Proof.
  intros Hw Hs Hf Hjob sc'. set (w1 := w <| scheds := <[s:=sc']> (scheds w) |>).
  destruct (remove_blocked_jobs_run fuel w1 s sc') as (w' & Hrun & Hw' & Hsame & Hs'); try done.
  - by apply with_groups_wf.
  - cbn. by rewrite lookup_insert_eq.
  - exists w'. split_and!; [|done|done|].
    + unfold usfstl_sched_block_groups. mstep. cbn [bd_groups]. rewrite (bind_ok _ _ _ tt w).
      * mstep. by erewrite bind_ok by done.
      * destruct job as [j|]; [|done]. destruct Hjob as (jb & Hj & Hb & Hbit).
        mstep. rewrite Hbit, Hb. done.
    + rewrite Hs'. cbn. by rewrite insert_insert_eq.
Qed.

(** C24. [usfstl_sched_block_groups] always returns (with fuel for one more
    round than there are jobs), saves the old groups and allowed job, and moves
    to the end of the pending list, in order, exactly the jobs of the joblist
    that are in a group blocked now and are not the allowed job; the other
    jobs stay, in order; the invariant holds again, so no job of a blocked
    group but the allowed one can run. *)
Theorem block_groups_correct fuel w s sc groups job :
  world_wf w → scheds w !! s = Some sc → (length (joblist sc) < fuel)%nat →
  allowed_ok w sc groups job →
  let sc' := with_groups sc (Z.lor (blocked_groups sc) groups) job in
  ∃ w', usfstl_sched_block_groups fuel s groups job w =
          Ok (BlockData (blocked_groups sc) (allowed_job sc), w') ∧
    world_wf w' ∧ same_jobs w w' ∧
    scheds w' = <[s := sc' <| joblist := kept_jobs sc' (jobs w) (joblist sc) |>
                           <| pending_jobs := pending_jobs sc ++ removed_jobs sc' (jobs w) (joblist sc) |>]>
                (scheds w).
Proof. apply block_groups_run. Qed.

Lemma kept_app sc js l1 l2 : kept_jobs sc js (l1 ++ l2) = kept_jobs sc js l1 ++ kept_jobs sc js l2.
Proof. apply List.filter_app. Qed.

Lemma kept_kept sc js l : kept_jobs sc js (kept_jobs sc js l) = kept_jobs sc js l.
Proof. unfold kept_jobs. induction l as [|x l IH]; [done|]. cbn. destruct (keeps sc js x) eqn:H; cbn; rewrite ?H, IH; done. Qed.

Lemma removed_kept sc js l : removed_jobs sc js (kept_jobs sc js l) = [].
Proof. unfold removed_jobs, kept_jobs. induction l as [|x l IH]; [done|]. cbn. destruct (keeps sc js x) eqn:H; cbn; rewrite ?H, IH; done. Qed.

Lemma keeps_restored now w w' sc l :
  restored now w w' → (∀ j, j ∈ l → is_Some (jobs w !! j)) →
  kept_jobs sc (jobs w') l = kept_jobs sc (jobs w) l ∧
  removed_jobs sc (jobs w') l = removed_jobs sc (jobs w) l.
Proof.
  intros Hr Hl. assert (∀ j, j ∈ l → keeps sc (jobs w') j = keeps sc (jobs w) j) as Hk.
  { intros j Hj. destruct (Hl j Hj) as [jb Hjb]. destruct (Hr _ _ Hjb) as (e & t & He & _).
    unfold keeps, job_at. by rewrite Hjb, He. }
  unfold kept_jobs, removed_jobs. split; apply List.filter_ext_in; intros j Hj%list_elem_of_In;
    by rewrite Hk.
Qed.

Lemma Permutation_filter {A} (f : A → bool) l l' : l ≡ₚ l' → List.filter f l ≡ₚ List.filter f l'.
Proof.
  induction 1 as [|x l l' Hp IH|x y l|l1 l2 l3 H1 IH1 H2 IH2]; cbn.
  - done.
  - case_match; by rewrite IH.
  - repeat case_match; try done. constructor.
  - by etransitivity.
Qed.

Lemma queued_some w s sc q j :
  links_ok w → scheds w !! s = Some sc → j ∈ queue q sc → is_Some (jobs w !! j).
Proof. intros [Hl _] Hs Hj. apply (Hl _ _ _ Hs) in Hj as (jb & Hjb & _). by eauto. Qed.

Lemma restore_groups_run fuel w s sc sv :
  world_wf w → scheds w !! s = Some sc → standalone sc →
  (∀ j jb, j ∈ pending_jobs sc → jobs w !! j = Some jb → restorable (current_time sc) jb) →
  (length (joblist sc ++ pending_jobs sc) < fuel)%nat →
  let sc' := with_groups sc (bd_groups sv) (bd_job sv) in
  ∃ w' jl pl, usfstl_sched_restore_groups fuel s sv w = Ok (tt, w') ∧ world_wf w' ∧
    restored (current_time sc) w w' ∧
    jl ≡ₚ kept_jobs sc' (jobs w) (joblist sc ++ pending_jobs sc) ∧
    pl ≡ₚ removed_jobs sc' (jobs w) (joblist sc ++ pending_jobs sc) ∧
    scheds w' = <[s := sc' <| joblist := jl |> <| pending_jobs := pl |>]> (scheds w).
Proof.
  intros Hw Hs Hst Hre Hf sc'. rewrite length_app in Hf.
  set (w1 := w <| scheds := <[s:=sc']> (scheds w) |>).
  destruct (restore_blocked_jobs_run fuel w1 s sc') as (w2 & jl & Hrun & Hw2 & Hr & Hjl & Hs2); try done.
  { by apply with_groups_wf. }
  { cbn. by rewrite lookup_insert_eq. }
  { cbn. lia. }
  set (sc2 := sc' <| joblist := jl |> <| pending_jobs := removed_jobs sc' (jobs w1) (pending_jobs sc') |>) in *.
  assert (scheds w2 !! s = Some sc2) as Hsc2 by (by rewrite Hs2, lookup_insert_eq).
  destruct (remove_blocked_jobs_run fuel w2 s sc2) as (w' & Hrun' & Hw' & Hsame & Hs'); try done.
  { cbn. rewrite Hjl, length_app. cbn.
    pose proof (List.filter_length_le (keeps sc' (jobs w)) (pending_jobs sc)). unfold kept_jobs. lia. }
  destruct (keeps_restored (current_time sc) w w2 sc' jl) as [Hk Hrm]; [exact Hr| |].
  { intros j. rewrite Hjl. unfold kept_jobs. rewrite elem_of_app, (list_elem_of_In (List.filter _ _)), filter_In,
      <- list_elem_of_In. intros [Hj|[Hj _]]; [eapply (queued_some w s sc QJobs)|eapply (queued_some w s sc QPending)];
      done || apply Hw. }
  exists w', (kept_jobs sc' (jobs w2) jl),
    (removed_jobs sc' (jobs w) (pending_jobs sc) ++ removed_jobs sc' (jobs w2) jl).
  split_and!; [|done| | | |].
  - unfold usfstl_sched_restore_groups. mstep. by erewrite bind_ok by exact Hrun.
  - eapply restored_trans; [exact Hr|]. by apply same_restored.
  - rewrite Hk. unfold kept_jobs at 1. rewrite (Permutation_filter _ _ _ Hjl).
    change (List.filter (keeps sc' (jobs w)) ?l) with (kept_jobs sc' (jobs w) l).
    change (jobs w1) with (jobs w). rewrite !kept_app. by rewrite kept_kept.
  - rewrite Hrm. unfold removed_jobs at 2. rewrite (Permutation_filter _ _ _ Hjl).
    rewrite List.filter_app.
    change (List.filter (λ j, negb (keeps sc' (jobs w) j)) ?l) with (removed_jobs sc' (jobs w) l).
    change (jobs w1) with (jobs w). rewrite removed_kept, app_nil_r. unfold removed_jobs. rewrite List.filter_app. by rewrite Permutation_app_comm.
  - rewrite Hs', Hs2, insert_insert_eq. cbn. by rewrite insert_insert_eq.
Qed.

(** C25. [usfstl_sched_restore_groups] always returns (with fuel for one more
    round than there are jobs), and afterwards the joblist holds exactly those
    jobs of the joblist and the pending list that may run under the restored
    groups and allowed job, sorted again by the invariant, and the pending list
    the others; a job's start changes only if it is overdue, and then to the
    current time. *)
Theorem restore_groups_correct fuel w s sc sv :
  world_wf w → scheds w !! s = Some sc → standalone sc →
  (∀ j jb, j ∈ pending_jobs sc → jobs w !! j = Some jb → restorable (current_time sc) jb) →
  (length (joblist sc ++ pending_jobs sc) < fuel)%nat →
  let sc' := with_groups sc (bd_groups sv) (bd_job sv) in
  ∃ w' jl pl, usfstl_sched_restore_groups fuel s sv w = Ok (tt, w') ∧ world_wf w' ∧
    restored (current_time sc) w w' ∧
    jl ≡ₚ kept_jobs sc' (jobs w) (joblist sc ++ pending_jobs sc) ∧
    pl ≡ₚ removed_jobs sc' (jobs w) (joblist sc ++ pending_jobs sc) ∧
    scheds w' = <[s := sc' <| joblist := jl |> <| pending_jobs := pl |>]> (scheds w).
Proof. apply restore_groups_run. Qed.

Lemma keeps_all w s sc :
  world_wf w → scheds w !! s = Some sc → ∀ l, (∀ j, j ∈ l → j ∈ joblist sc) →
  kept_jobs sc (jobs w) l = l ∧ removed_jobs sc (jobs w) l = [].
Proof.
  intros Hw Hs. assert (∀ j, j ∈ joblist sc → keeps sc (jobs w) j = true) as Hk.
  { intros j Hj. destruct (queued_some w s sc QJobs j) as [jb Hjb]; [apply Hw|done|done|].
    unfold keeps. rewrite (job_at_some _ _ _ Hjb).
    destruct (has_bit (blocked_groups sc) (group jb)) eqn:Hb; [|by rewrite orb_true_r].
    rewrite bool_decide_true; [done|]. by apply (ww_groups _ _ Hw s sc j jb). }
  unfold kept_jobs, removed_jobs. induction l as [|x l IH]; intros Hl; [done|]. cbn.
  rewrite Hk by (apply Hl; by left). cbn. destruct IH as [-> ->]; [|done]. intros j Hj. apply Hl. by right.
Qed.

Lemma kept_removed sc js l : kept_jobs sc js l ++ removed_jobs sc js l ≡ₚ l.
Proof.
  unfold kept_jobs, removed_jobs. induction l as [|x l IH]; [done|]. cbn.
  destruct (keeps sc js x); cbn; [by rewrite IH|]. rewrite <- Permutation_middle. by rewrite IH.
Qed.

Lemma kept_same w w' sc l :
  same_jobs w w' → (∀ j, j ∈ l → is_Some (jobs w !! j)) →
  kept_jobs sc (jobs w') l = kept_jobs sc (jobs w) l ∧ removed_jobs sc (jobs w') l = removed_jobs sc (jobs w) l.
Proof. intros Hs. by apply (keeps_restored 0), same_restored. Qed.

Lemma kept_Permutation sc js l l' : l ≡ₚ l' → kept_jobs sc js l ≡ₚ kept_jobs sc js l'.
Proof. apply Permutation_filter. Qed.
Lemma removed_Permutation sc js l l' : l ≡ₚ l' → removed_jobs sc js l ≡ₚ removed_jobs sc js l'.
Proof. apply Permutation_filter. Qed.
Lemma removed_app sc js l1 l2 : removed_jobs sc js (l1 ++ l2) = removed_jobs sc js l1 ++ removed_jobs sc js l2.
Proof. apply List.filter_app. Qed.

(** The jobs on the pending list stay there: they may not run, and their group and
    start are valid. *)
Definition stays_pending w sc : Prop :=
  ∀ j jb, j ∈ pending_jobs sc → jobs w !! j = Some jb →
    keeps sc (jobs w) j = false ∧ restorable (current_time sc) jb.

Lemma keeps_none w s sc : world_wf w → scheds w !! s = Some sc → stays_pending w sc →
  kept_jobs sc (jobs w) (pending_jobs sc) = [] ∧ removed_jobs sc (jobs w) (pending_jobs sc) = pending_jobs sc.
Proof.
  intros Hw Hs Hp. assert (∀ j, j ∈ pending_jobs sc → keeps sc (jobs w) j = false) as Hk.
  { intros j Hj. destruct (queued_some w s sc QPending j) as [jb Hjb]; [apply Hw|done|done|]. by eapply Hp. }
  unfold kept_jobs, removed_jobs. clear Hp. induction (pending_jobs sc) as [|x l IH]; [done|]. cbn.
  rewrite Hk by (by left). cbn. destruct IH as [-> ->]; [|done]. intros j Hj. apply Hk. by right.
Qed.

(** Between blocking and restoring all jobs are there, and can go back. *)
Lemma blocked_restorable w w1 s sc j jb : world_wf w → scheds w !! s = Some sc → standalone sc →
  stays_pending w sc → (∀ j jb, j ∈ joblist sc → jobs w !! j = Some jb → group jb < 32) →
  same_jobs w w1 → j ∈ joblist sc ++ pending_jobs sc → jobs w1 !! j = Some jb → restorable (current_time sc) jb.
Proof.
  intros Hw Hs Hst Hp Hg Hsame Hj Hjb.
  destruct (ww_order _ _ Hw _ _ Hs) as [_ Ho]. destruct (Ho (proj1 (proj2 Hst))) as [_ Hwin].
  assert (∃ jb0, jobs w !! j = Some jb0 ∧ restorable (current_time sc) jb0) as (jb0 & Hjb0 & Hr).
  { apply elem_of_app in Hj as [Hj|Hj].
    - destruct (Hwin j Hj) as [[jb0 Hjb0] [_ Hlt]]. exists jb0. split; [done|].
      rewrite (job_at_some _ _ _ Hjb0) in Hlt. split; [by eapply Hg|lia].
    - destruct (queued_some w s sc QPending j) as [jb0 Hjb0]; [apply Hw|done|done|]. exists jb0. split; [done|]. by eapply Hp. }
  by eapply restored_restorable; [apply same_restored| | |].
Qed.

(** The starts of the jobs that were on the joblist do not change. *)
Lemma restored_starts w w1 w' s sc j jb : world_wf w → scheds w !! s = Some sc → standalone sc →
  same_jobs w w1 → restored (current_time sc) w1 w' → j ∈ joblist sc → jobs w !! j = Some jb →
  ∃ e, jobs w' !! j = Some (jb <| entry := e |>).
Proof.
  intros Hw Hs Hst Hsame Hr Hj Hjb.
  destruct (ww_order _ _ Hw _ _ Hs) as [Hnow Ho]. destruct (Ho (proj1 (proj2 Hst))) as [_ Hwin].
  destruct (Hsame _ _ Hjb) as [e1 He1].
  destruct (Hr _ _ He1) as (e & t & He & [->|[Hlt _]]); [exists e; rewrite He; by destruct jb|exfalso].
  destruct (Hwin j Hj) as [_ [_ Hlt']]. rewrite (job_at_some _ _ _ Hjb) in Hlt'. cbn in Hlt.
  rewrite (time_lt_window (current_time sc)), off_self in Hlt by (done || rewrite off_self; lia).
  pose proof (off_range (current_time sc) (start jb)). lia.
Qed.


Lemma scheduled_flags w j jb l :
  world_wf w → jobs w !! j = Some jb → entry jb = Some l → blocked jb = false ∧ pending jb = false.
Proof.
  intros Hw Hj He. destruct (ww_flags _ _ Hw _ _ Hj) as (_ & _ & Hb & Hp).
  assert (blocked jb = false) as Hb0 by (destruct (blocked jb); [by rewrite Hb in He|done]).
  split; [done|]. destruct (pending jb); [by rewrite Hp in Hb0|done].
Qed.

Lemma without_Permutation j l : NoDup l → j ∈ l → j :: without j l ≡ₚ l.
Proof.
  intros Hnd (k1 & k2 & ->)%list_elem_of_split. rewrite without_middle by done. clear. solve_Permutation.
Qed.

Lemma restart_future now (jb : usfstl_job F) : off now (start jb) < 2^63 → restart now jb = jb <| entry := None |>.
Proof.
  intros Hlt. unfold restart. rewrite (time_lt_window now), off_self by (done || rewrite off_self; lia).
  destruct (Z.ltb_spec (off now (start jb)) 0); [|done]. pose proof (off_range now (start jb)). lia.
Qed.

Lemma block_scheduled_run w s sc j jb :
  world_wf w → scheds w !! s = Some sc → jobs w !! j = Some jb → entry jb = Some (s, QJobs) →
  ∃ w', usfstl_sched_block_job s j w = Ok (tt, w') ∧ world_wf w' ∧
    scheds w' = <[s := sc <| joblist := without j (joblist sc) |>]> (scheds w) ∧
    jobs w' = <[j := jb <| entry := None |> <| blocked := true |> <| pending := true |>]> (jobs w).
Proof.
  intros Hw Hs Hj He. destruct (ww_flags _ _ Hw _ _ Hj) as (Hst & Hg & Hb & Hp).
  destruct (scheduled_flags _ _ _ _ Hw Hj He) as [Hb0 Hp0].
  exists (w <| scheds := <[s := sc <| joblist := without j (joblist sc) |>]> (scheds w) |>
            <| jobs := <[j := jb <| entry := None |> <| blocked := true |> <| pending := true |>]> (jobs w) |>).
  split_and!; [| |done|done].
  - unfold usfstl_sched_block_job. mstep. rewrite Hb0, Hp0.
    erewrite bind_ok by apply assert_true. erewrite bind_ok by apply assert_true.
    mstep. mstep. cbn [entry set_field]. rewrite He. cbn [when]. mstep.
    unfold usfstl_sched_del_job. mstep. cbn. rewrite He. cbn. mstep. cbn. rewrite He. mstep.
    erewrite upd_job_run by (cbn; by rewrite lookup_insert_eq). cbn. rewrite !insert_insert_eq. done.
  - pose proof (unlink_wf w s sc QJobs j jb Hs Hj He None Hw) as Hu.
    eapply (put_unlinked_wf _ j _ (jb <| entry := None |> <| blocked := true |> <| pending := true |>)) in Hu;
      [|cbn; by rewrite lookup_insert_eq|done..].
    revert Hu. unfold w_unlink. cbn. by rewrite insert_insert_eq.
Qed.

(** Blocking a scheduled job and unblocking it again brings it back: in
    between it is on no list, so it cannot run; afterwards exactly the same
    jobs are on the joblist, sorted, and the job's flags and start are what
    they were. *)
Theorem block_unblock_job w s sc j jb :
  world_wf w → scheds w !! s = Some sc → standalone sc → jobs w !! j = Some jb →
  entry jb = Some (s, QJobs) → group jb < 32 →
  ∃ w1 w2 jl, usfstl_sched_block_job s j w = Ok (tt, w1) ∧ world_wf w1 ∧
    (∀ s' sc' q, scheds w1 !! s' = Some sc' → j ∉ queue q sc') ∧
    usfstl_sched_unblock_job s j w1 = Ok (tt, w2) ∧ world_wf w2 ∧ jobs w2 = jobs w ∧
    scheds w2 = <[s := sc <| joblist := jl |>]> (scheds w) ∧ jl ≡ₚ joblist sc.
Proof.
  intros Hw Hs Hst Hj He Hg.
  destruct (block_scheduled_run w s sc j jb Hw Hs Hj He) as (w1 & Hrun1 & Hw1 & Hs1 & Hj1).
  set (jb1 := jb <| entry := None |> <| blocked := true |> <| pending := true |>) in *.
  assert (jobs w1 !! j = Some jb1) as Hjw1 by (by rewrite Hj1, lookup_insert_eq).
  set (jb2 := jb <| entry := None |>).
  destruct (ww_flags _ _ Hw _ _ Hj) as (Hjst & Hg0 & _).
  destruct (scheduled_flags _ _ _ _ Hw Hj He) as [Hb0 Hp0].
  assert (jb1 <| blocked := false |> <| pending := false |> = jb2) as Hjb2
    by (subst jb1 jb2; destruct jb; cbn in *; by subst).
  destruct (ww_order _ _ Hw _ _ Hs) as [_ Ho]. destruct (Ho (proj1 (proj2 Hst))) as [_ Hwin].
  destruct (proj1 (ww_links _ _ Hw) _ _ QJobs Hs) as [Hnd Hin].
  assert (j ∈ joblist sc) as Hjl by (apply Hin; by eauto).
  destruct (Hwin j Hjl) as [_ [_ Hlt]]. rewrite (job_at_some _ _ _ Hj) in Hlt.
  set (w1' := w1 <| jobs := <[j:=jb2]> (jobs w1) |>).
  assert (world_wf w1') as Hw1' by (eapply put_unlinked_wf; try done; cbn; by rewrite Hp0).
  set (sc1 := sc <| joblist := without j (joblist sc) |>) in *.
  destruct (restore_unlinked_run None w1' s sc1 j jb2)
    as (l1 & l2 & w2 & Hrun2 & Hw2 & Hl & Hs2 & Hj2); try done.
  { change (scheds w1') with (scheds w1). by rewrite Hs1, lookup_insert_eq. }
  { cbn. by rewrite lookup_insert_eq. }
  { exact (ww_groups _ _ Hw s sc j jb (λ H, match H with end) Hs Hjl Hj). }
  { split; [done|cbn; lia]. }
  exists w1, w2, (l1 ++ j :: l2). split_and!; try done.
  - intros s' sc' q Hs'. eapply not_queued; [apply Hw1|done|done|done].
  - unfold usfstl_sched_unblock_job. mstep. erewrite bind_ok by done. mstep. cbn [pending jb1 set_field when].
    mstep. rewrite <- Hrun2. f_equal. subst w1'. cbn. rewrite insert_insert_eq.
    rewrite <- Hjb2. done.
  - rewrite Hj2. subst w1'. cbn. rewrite Hj1, !insert_insert_eq. apply insert_id. rewrite Hj. f_equal.
    rewrite restart_future by exact Hlt. destruct jb; cbn in *. by subst.
  - rewrite Hs2. cbn. rewrite Hs1, insert_insert_eq. done.
  - cbn in Hl. rewrite <- (without_Permutation j (joblist sc)), Hl by done. clear. solve_Permutation.
Qed.

(** [usfstl_sched_block_groups] refuses to allow a job that is in none of
    the groups blocked afterwards, or that is blocked itself. *)
Theorem block_groups_refuses fuel w s sc groups j jb :
  scheds w !! s = Some sc → jobs w !! j = Some jb →
  (has_bit (Z.lor groups (blocked_groups sc)) (group jb) = false ∨ blocked jb = true) →
  usfstl_sched_block_groups fuel s groups (Some j) w = Err Assertion.
Proof.
  intros Hs Hj Hbad. unfold usfstl_sched_block_groups. mstep. cbn [bd_groups].
  apply bind_err. mstep. destruct (has_bit _ _); [|done]. erewrite bind_ok by done.
  destruct Hbad as [|Hb]; [done|]. by rewrite Hb.
Qed.

(** A blocked job that is added gets start 0 as "overdue" mark; once the
    clock is past 2^63 that is not overdue but in the future: unblocking the
    job right away does not schedule it for the current time, as it does
    before, but for the clock's wrap-around to 0. *)
Theorem blocked_job_delayed w s sc j jb :
  world_wf w → scheds w !! s = Some sc → standalone sc → jobs w !! j = Some jb →
  blocked jb = true → group jb < 32 → eligible sc j jb → in_window (current_time sc) jb →
  current_time sc ≠ 2^63 →
  ∃ w', (usfstl_sched_add_job s j;; usfstl_sched_unblock_job s j) w = Ok (tt, w') ∧
    start (job_at (jobs w') j) = (if current_time sc <? 2^63 then current_time sc else 0) ∧
    (∃ sc', scheds w' !! s = Some sc' ∧ current_time sc' = current_time sc ∧ j ∈ joblist sc').
Proof.
  intros Hw Hs Hst Hj Hb Hg Hel [Hwin1 Hwin2] Hne. pose proof Hst as (_ & Hgt & _).
  destruct (ww_flags _ _ Hw _ _ Hj) as (_ & Hg0 & He & _). specialize (He Hb).
  destruct (ww_order _ _ Hw _ _ Hs) as [Hnow _].
  set (jb1 := jb <| start := 0 |> <| pending := false |> <| blocked := false |>).
  set (w1 := w <| jobs := <[j:=jb1]> (jobs w) |>).
  assert (world_wf w1) as Hw1 by (by eapply put_unlinked_wf).
  assert (jobs w1 !! j = Some jb1) as Hj1 by (cbn; by rewrite lookup_insert_eq).
  assert (restorable (current_time sc) jb1) as Hre.
  { split; [done|]. cbn. unfold off, u64. lia. }
  destruct (restore_unlinked_run None w1 s sc j jb1) as (l1 & l2 & w' & Hrun & _ & Hl & Hs' & Hj'); try done.
  exists w'. split_and!.
  - rewrite (bind_ok _ _ _ tt (w <| jobs := <[j:=jb <| start := 0 |> <| pending := true |>]> (jobs w) |>)).
    + unfold usfstl_sched_unblock_job. mstep. cbn [blocked pending set_field]. rewrite Hb.
      erewrite bind_ok by done. mstep. cbn [when]. mstep. rewrite <- Hrun. f_equal. subst w1. cbn.
      by rewrite !insert_insert_eq.
    + unfold usfstl_sched_add_job. mstep. mstep.
      rewrite (proj2 (time_ge_now _ _)) by lia. erewrite bind_ok by apply assert_true.
      mstep. rewrite He. erewrite bind_ok by done. mstep. replace (group jb <? 32) with true by lia.
      erewrite bind_ok by done. mstep. by rewrite Hb.
  - rewrite Hj', job_at_insert. unfold restart. cbn.
    assert (usfstl_time_cmp 0 Z.ltb (current_time sc) = (0 <? current_time sc) && (current_time sc <? 2^63)) as ->.
    { unfold usfstl_time_cmp, s64. destruct (Z.ltb_spec ((current_time sc - 0) mod 2^64) (2^63)); lia. }
    destruct (Z.ltb_spec (current_time sc) (2^63)); destruct (Z.ltb_spec 0 (current_time sc)); cbn; lia.
  - eexists. split; [by rewrite Hs', lookup_insert_eq|]. cbn. split; [done|]. set_solver.
Qed.
End claims.

(** ** Witnesses *)
Lemma block_groups_correct_witness :
  ∃ w', usfstl_sched_block_groups 2 1 1 None demo1 = Ok (BlockData 0 None, w') ∧ world_wf w'.
Proof.
  destruct (block_groups_correct 2 demo1 1 (demo_sched <| joblist := [10] |>) 1 None) as (w' & Hrun & Hw & _);
    [exact demo1_wf|done|cbn; lia|done|]. by exists w'.
Defined.

(** Job 10 is pending, its group blocked. *)
Definition demo2 : world (list Z) unit :=
  w_link (demo <| scheds := <[1:=demo_sched <| blocked_groups := 1 |>]> (scheds demo) |>)
    1 (demo_sched <| blocked_groups := 1 |>) QPending [] [] 10 (demo_job 5 0 0).

Lemma demo2_wf : world_wf demo2.
Proof.
  apply link_wf; try done. apply fresh_wf; unfold demo; cbn; repeat apply map_Forall_insert_2;
    try apply map_Forall_empty; cbn; split_and!; (done || lia).
Qed.

Lemma restore_groups_correct_witness :
  ∃ w', usfstl_sched_restore_groups 2 1 (BlockData 0 None) demo2 = Ok (tt, w') ∧ world_wf w'.
Proof.
  destruct (restore_groups_correct 2 demo2 1
              (demo_sched <| blocked_groups := 1 |> <| pending_jobs := [10] |>) (BlockData 0 None))
    as (w' & jl & pl & Hrun & Hw & _); [exact demo2_wf|done|done| |cbn; lia|].
  - intros j jb. cbn. rewrite list_elem_of_singleton. intros -> [= <-]. split; vm_compute; done.
  - by exists w'.
Defined.


Lemma block_unblock_job_witness :
  ∃ w1 w2, usfstl_sched_block_job 1 10 demo1 = Ok (tt, w1) ∧ usfstl_sched_unblock_job 1 10 w1 = Ok (tt, w2).
Proof.
  destruct (block_unblock_job demo1 1 (demo_sched <| joblist := [10] |>) 10
              ((demo_job 5 0 0) <| entry := Some (1, QJobs) |>))
    as (w1 & w2 & jl & H1 & _ & _ & H2 & _); [exact demo1_wf|done..|]. by exists w1, w2.
Defined.

Lemma block_groups_refuses_witness : usfstl_sched_block_groups 2 1 1 (Some 11) demo1 = Err Assertion.
Proof.
  apply (block_groups_refuses 2 demo1 1 (demo_sched <| joblist := [10] |>) 1 11 (demo_job 5 0 1)); [done|done|].
  left. vm_compute. done.
Defined.

(** The clock is past 2^63 and job 10 is blocked. *)
Definition demo_late : world (list Z) unit :=
  World {[10 := (demo_job (2^63 + 7) 0 0) <| blocked := true |>]}
        {[1 := demo_sched <| current_time := 2^63 + 5 |>]} [].

Lemma demo_late_wf : world_wf demo_late.
Proof.
  apply fresh_wf; unfold demo_late; cbn; apply map_Forall_singleton; cbn; split_and!; (done || lia).
Qed.

Lemma blocked_job_delayed_witness :
  ∃ w', (usfstl_sched_add_job 1 10;; usfstl_sched_unblock_job 1 10) demo_late = Ok (tt, w') ∧
    start (job_at (jobs w') 10) = 0.
Proof.
  destruct (blocked_job_delayed demo_late 1 (demo_sched <| current_time := 2^63 + 5 |>) 10
              ((demo_job (2^63 + 7) 0 0) <| blocked := true |>)) as (w' & Hrun & Hst & _);
    [exact demo_late_wf|done|done|done|done|done|done|vm_compute; done|done|].
  by exists w'.
Defined.
