(* ===== verification/SchedTime.v ===== *)
(** * Time: setting it, the next synchronisation, linked schedulers
    (src/sched.c) *)
From S2P Require Import Prelude Sched SchedQueue SchedProps.

(** The environment [SE] with another [time_advanced] behaviour. *)
Definition with_time_advanced {E F} (SE : SchedEnv E F) (g : F → Z → Z → M (world E F) unit) : SchedEnv E F := {|
  disable_skip_external_request := @disable_skip_external_request _ _ SE;
  call_request := @call_request _ _ SE;
  call_wait := @call_wait _ _ SE;
  call_get_time := @call_get_time _ _ SE;
  call_set_time := @call_set_time _ _ SE;
  call_time_advanced := g;
  call_next_time_changed := @call_next_time_changed _ _ SE;
  call_callback := @call_callback _ _ SE;
|}.

Section time.
Context {E F : Type} `{SE : SchedEnv E F}.
Implicit Types w : world E F.
Implicit Types sc : usfstl_scheduler F.

Lemma time_eq_s64 a b : 0 ≤ a < 2^64 → 0 ≤ b < 2^64 → usfstl_time_cmp a Z.eqb b = true → a = b.
Proof.
  intros Ha Hb. unfold usfstl_time_cmp, s64. destruct (Z.ltb_spec ((b - a) mod 2^64) (2^63)); lia.
Qed.

(** The [time_advanced] hook is never called: setting the time does the
    same whatever the hook does, for a scheduler with its own clock as for one
    with an external clock. *)
Theorem time_advanced_never_called (g : F → Z → Z → M (world E F) unit) s t w :
  0 ≤ t < 2^64 →
  (∀ f s' w0 t' w1, call_get_time f s' w0 = Ok (t', w1) → 0 ≤ t' < 2^64) →
  _usfstl_sched_set_time s t w = _usfstl_sched_set_time (SE := with_time_advanced SE g) s t w.
Proof.
  intros Ht Hget. unfold _usfstl_sched_set_time.
  apply bind_ext. intros sc w1 _. apply bind_ext. intros [] w2 _.
  apply bind_ext. intros sc2 w3 [Hs ->]%get_sched_inv. apply bind_ext. intros now w4 Hnow.
  assert (now = t) as ->; [|by rewrite Z.eqb_refl].
  destruct (external_get_time sc2) as [f|] eqn:Hf.
  - apply bind_inv in Hnow as (now' & w5 & Hcur & Hnow). monad_inv Hnow.
    unfold usfstl_sched_current_time in Hcur. erewrite bind_ok in Hcur by (by apply get_sched_run).
    rewrite Hf in Hcur. symmetry. apply time_eq_s64; eauto.
  - apply bind_inv in Hnow as ([] & w5 & Hcur & Hnow). unfold put_sched in Hnow. by monad_inv Hnow.
Qed.

Lemma set_time_cases w s sc t :
  world_wf w → scheds w !! s = Some sc → standalone sc → 0 ≤ t < 2^64 → off (current_time sc) t ≠ 2^63 →
  let w' := w <| scheds := <[s:=sc <| current_time := t |>]> (scheds w) |> in
  let ok := (off (current_time sc) t <? 2^63) &&
            match head (joblist sc) with
            | None => true
            | Some j => off (current_time sc) t <=? off (current_time sc) (start (job_at (jobs w) j))
            end in
  usfstl_sched_set_time s t w = (if ok then Ok (tt, w') else Err Assertion) ∧
  (ok = true → world_wf w').
Proof.
  intros Hw Hs Hst Ht Hne w' ok. pose proof Hst as (_ & Hg & _).
  destruct (ww_order _ _ Hw _ _ Hs) as [Hnow Ho]. destruct (Ho Hg) as [_ Hwin]. split.
  2:{ intros [H1 H2]%andb_true_iff. eapply advance_wf; try done. intros j Hj. rewrite Hj in H2. lia. }
  unfold usfstl_sched_set_time. mstep. subst ok. destruct (Z.ltb_spec (off (current_time sc) t) (2^63)) as [Hlt|Hge]; cbn [andb].
  - destruct (joblist sc) as [|j l] eqn:Hq; cbn [head].
    { erewrite bind_ok by done. apply set_time_run; [done|done|lia]. }
    destruct (Hwin j) as [[jb Hj] [_ Hjw]]; [by left|]. rewrite (job_at_some _ _ _ Hj) in *.
    destruct (Z.leb_spec (off (current_time sc) t) (off (current_time sc) (start jb))) as [Hle|Hgt].
    + rewrite (bind_ok _ _ _ tt w); [apply set_time_run; [done|done|lia]|].
      mstep. rewrite (time_le_window (current_time sc)) by done. by replace (_ <=? _) with true by lia.
    + apply bind_err. mstep. rewrite (time_le_window (current_time sc)) by done.
      by replace (_ <=? _) with false by lia.
  - assert (_usfstl_sched_set_time s t w = Err Assertion) as Hset.
    { unfold _usfstl_sched_set_time. mstep. destruct Hst as (_ & _ & -> & _). erewrite bind_ok by done.
      mstep. rewrite Hg. apply bind_err, bind_err. destruct (usfstl_time_cmp t Z.geb _) eqn:Hc; [|done].
      apply time_ge_now in Hc. lia. }
    destruct (head (joblist sc)) as [j|] eqn:Hq; [|by erewrite bind_ok by done].
    destruct (joblist sc) as [|j' l]; [done|]. injection Hq as ->.
    destruct (Hwin j) as [[jb Hj] _]; [by left|]. unfold mbind at 1, M_bind at 1.
    erewrite bind_ok by (by apply get_job_run). destruct (usfstl_time_cmp t Z.leb _); [exact Hset|done].
Qed.

(** C39. [usfstl_sched_set_time] on a scheduler with its own clock: it accepts
    exactly the times that do not move backwards and do not pass the first
    job's start (by wrap-around comparison, a time exactly 2^63 ticks away left
    aside); it then sets the clock and keeps
    the invariant, so that no job is ever overdue; any other time fails its
    assertions. *)
Theorem set_time_correct w s sc t :
  world_wf w → scheds w !! s = Some sc → standalone sc → 0 ≤ t < 2^64 → off (current_time sc) t ≠ 2^63 →
  let w' := w <| scheds := <[s:=sc <| current_time := t |>]> (scheds w) |> in
  let ok := (off (current_time sc) t <? 2^63) &&
            match head (joblist sc) with
            | None => true
            | Some j => off (current_time sc) t <=? off (current_time sc) (start (job_at (jobs w) j))
            end in
  usfstl_sched_set_time s t w = (if ok then Ok (tt, w') else Err Assertion) ∧
  (ok = true → world_wf w').
Proof. apply set_time_cases. Qed.

Lemma off_far now : off now (u64 (now + 2^62)) = 2^62.
Proof. unfold off, u64. lia. Qed.

(** The synchronisation point as limit. *)
Lemma sync_limit now nes (b : bool) :
  let far := u64 (now + 2^62) in
  let sync := if b && usfstl_time_cmp far Z.gtb nes && usfstl_time_cmp nes Z.geb now then nes else far in
  off now sync ≤ 2^62 ∧ (b = true → off now nes < 2^63 → off now sync ≤ off now nes) ∧
  (sync = far ∨ sync = nes).
Proof.
  intros far sync. pose proof (off_far now) as Hfar. fold far in Hfar.
  subst sync. destruct b; cbn [andb]; [|rewrite Hfar; split_and!; [lia|done|by left]].
  destruct (usfstl_time_cmp nes Z.geb now) eqn:Hge.
  - apply time_ge_now in Hge. destruct (decide (off now nes = 2^63)) as [Heq|Hne].
    + destruct (usfstl_time_cmp far Z.gtb nes) eqn:Hgt; cbn [andb].
      * exfalso. revert Hgt Heq. subst far. unfold usfstl_time_cmp, off, u64, s64. case_match; lia.
      * rewrite Hfar. split_and!; [lia|lia|by left].
    + rewrite (time_gt_window now) by lia. rewrite Hfar.
      destruct (Z.ltb_spec (off now nes) (2^62)); cbn [andb]; rewrite ?Hfar; split_and!; lia || eauto.
  - rewrite andb_false_r, Hfar. split_and!; [lia| |by left]. intros _ Hlt.
    apply not_true_iff_false in Hge. rewrite time_ge_now in Hge. lia.
Qed.

(** [usfstl_sched_get_sync_time]: the time returned is at most 2^62 ticks
    ahead, no later than any job queued and no later than the external
    synchronisation point (if one is set and not past), and it is one of these
    three: a component told to run freely until then neither misses a job nor
    passes a synchronisation point. *)
Theorem get_sync_time_bounds w s sc :
  world_wf w → scheds w !! s = Some sc → external_get_time sc = None →
  0 ≤ next_external_sync sc < 2^64 →
  let now := current_time sc in
  ∃ t, usfstl_sched_get_sync_time s w = Ok (t, w) ∧ off now t ≤ 2^62 ∧
    (∀ j, j ∈ joblist sc → off now t ≤ off now (start (job_at (jobs w) j))) ∧
    (next_external_sync_set sc = true → off now (next_external_sync sc) < 2^63 →
       off now t ≤ off now (next_external_sync sc)) ∧
    (t = u64 (now + 2^62) ∨ t = next_external_sync sc ∨
     ∃ j, head (joblist sc) = Some j ∧ t = start (job_at (jobs w) j)).
Proof.
  intros Hw Hs Hg Hn now. destruct (ww_order _ _ Hw _ _ Hs) as [Hnow Ho]. destruct (Ho Hg) as [Hsort Hwin].
  destruct (sync_limit now (next_external_sync sc) (next_external_sync_set sc)) as (H1 & H2 & H3).
  unfold usfstl_sched_get_sync_time. mstep. mstep. cbv zeta. fold now.
  set (sync := if _ : bool then _ else _) in *. mstep.
  destruct (joblist sc) as [|j l] eqn:Hq; cbn [head].
  { exists sync. split_and!; [done..|set_solver|done|]. naive_solver. }
  destruct (Hwin j) as [[jb Hj] [_ Hjw]]; [by left|].
  assert (∀ i, i ∈ j :: l → off now (start jb) ≤ off now (start (job_at (jobs w) i))) as Hfirst.
  { intros i Hi. rewrite <- (job_at_some _ _ _ Hj). by eapply queue_first. }
  rewrite (job_at_some _ _ _ Hj) in Hjw. mstep. rewrite (time_lt_window now) by (done || lia).
  destruct (Z.ltb_spec (off now (start jb)) (off now sync)) as [Hlt|Hge].
  - exists (start jb). split_and!; [done|lia|done|lia|]. right. right. exists j.
    by rewrite (job_at_some _ _ _ Hj).
  - exists sync. split_and!; [done|done| |done|naive_solver]. intros i Hi. specialize (Hfirst i Hi). lia.
Qed.

(** ** Linked schedulers *)

(** The link of [s] to the parent [p] with [ratio] parent ticks per tick. *)
Definition linked sc (p : Z) : Prop :=
  link_parent (link sc) = Some p ∧ 0 < link_tick_ratio (link sc) < 2^32.

Lemma div_round_up_link r t o :
  0 < r → 0 ≤ t → r * (t + 1) ≤ 2^64 → DIV_ROUND_UP (u64 (u64 (r * t + o) - o)) r = t.
Proof.
  intros Hr Ht Hfit. assert (u64 (u64 (r * t + o) - o) = r * t) as ->.
  { unfold u64. rewrite Zminus_mod_idemp_l. replace (r * t + o - o) with (r * t) by lia.
    apply Z.mod_small. nia. }
  unfold DIV_ROUND_UP. rewrite u64_small by nia.
  replace (r * t + r - 1) with (t * r + (r - 1)) by lia.
  rewrite Z.div_add_l by lia. rewrite Z.div_small by lia. lia.
Qed.

(** A linked scheduler's time survives the conversion to its parent's
    clock: if setting the time through the link returns, the time read back
    through the link is the time that was set, as long as the tick count scaled
    to parent ticks, rounding included, fits 64 bits; and the parent's clock is
    the scaled time plus the link's offset. *)
Theorem link_time_roundtrip w s sc p psc t :
  world_wf w → scheds w !! s = Some sc → linked sc p → scheds w !! p = Some psc → standalone psc →
  s ≠ p → 0 ≤ t → link_tick_ratio (link sc) * (t + 1) ≤ 2^64 →
  let pt := u64 (link_tick_ratio (link sc) * t + link_offset (link sc)) in
  off (current_time psc) pt < 2^63 →
  (∀ j, head (joblist psc) = Some j →
        off (current_time psc) pt ≤ off (current_time psc) (start (job_at (jobs w) j))) →
  ∃ w', usfstl_sched_link_external_set_time s t w = Ok (tt, w') ∧ world_wf w' ∧
    scheds w' = <[p := psc <| current_time := pt |>]> (scheds w) ∧
    usfstl_sched_link_external_get_time s w' = Ok (t, w').
Proof.
  intros Hw Hs [Hp Hr] Hps Hst Hne Ht Hfit pt Hlt Hfirst. pose proof Hst as (_ & Hpg & _).
  assert (0 ≤ pt < 2^64) as Hpt by apply u64_range.
  destruct (set_time_cases w p psc pt) as [Hset Hwf]; [done|done|done|done|lia|].
  rewrite (proj2 (Z.ltb_lt _ _) Hlt) in Hset, Hwf. cbn [andb] in Hset, Hwf.
  assert (match head (joblist psc) with
          | None => true
          | Some j => off (current_time psc) pt <=? off (current_time psc) (start (job_at (jobs w) j))
          end = true) as Hok.
  { destruct (head (joblist psc)) as [j|]; [|done]. apply Z.leb_le. by apply Hfirst. }
  rewrite Hok in Hset, Hwf.
  exists (w <| scheds := <[p:=psc <| current_time := pt |>]> (scheds w) |>). split_and!; [|by apply Hwf|done|].
  - unfold usfstl_sched_link_external_set_time. mstep. rewrite Hp. erewrite bind_ok by done. exact Hset.
  - unfold usfstl_sched_link_external_get_time.
    erewrite bind_ok by (apply get_sched_run; cbn; rewrite lookup_insert_ne; done).
    rewrite Hp. erewrite bind_ok by done.
    erewrite bind_ok by (eapply current_time_run; cbn; [by rewrite lookup_insert_eq|done]).
    unfold mret, M_ret. do 2 f_equal. cbn. subst pt. apply div_round_up_link; [lia|lia|done].
Qed.
End time.

(** ** Witnesses *)
Lemma time_advanced_never_called_witness :
  _usfstl_sched_set_time 1 3 demo1 =
  _usfstl_sched_set_time (SE := with_time_advanced log_env (λ _ _ _, fail Assertion)) 1 3 demo1.
Proof. apply (time_advanced_never_called (SE := log_env)); [lia|]. intros f s' w0 t' w1 [=]. Defined.

Lemma set_time_correct_witness :
  usfstl_sched_set_time 1 3 demo1 =
    Ok (tt, demo1 <| scheds := <[1:=demo_sched <| joblist := [10] |> <| current_time := 3 |>]> (scheds demo1) |>) ∧
  usfstl_sched_set_time 1 6 demo1 = Err Assertion.
Proof.
  split.
  - refine (proj1 (set_time_correct demo1 1 (demo_sched <| joblist := [10] |>) 3 _ _ _ _ _));
      [exact demo1_wf|done|done|lia|vm_compute; done].
  - refine (proj1 (set_time_correct demo1 1 (demo_sched <| joblist := [10] |>) 6 _ _ _ _ _));
      [exact demo1_wf|done|done|lia|vm_compute; done].
Defined.

Lemma get_sync_time_bounds_witness : ∃ t, usfstl_sched_get_sync_time 1 demo1 = Ok (t, demo1) ∧ off 0 t ≤ 2^62.
Proof.
  destruct (get_sync_time_bounds demo1 1 (demo_sched <| joblist := [10] |>)) as (t & Hrun & Hle & _);
    [exact demo1_wf|done|done|cbn; lia|]. exists t. split; [exact Hrun|exact Hle].
Defined.

(** Scheduler 2 is linked to scheduler 1: 1000 parent ticks per tick. *)
Definition demo_linked_sched : usfstl_scheduler unit :=
  demo_sched <| external_get_time := Some tt |> <| link := Link (Some 1) 0 1000 100 false |>.
Definition demo_linked : world (list Z) unit :=
  World {[100 := job_zero]} (list_to_map [(1, demo_sched); (2, demo_linked_sched)]) [].

Lemma demo_linked_wf : world_wf demo_linked.
Proof.
  apply fresh_wf; unfold demo_linked; cbn; repeat apply map_Forall_insert_2;
    try apply map_Forall_empty; try apply map_Forall_singleton; cbn; split_and!; (done || lia).
Qed.

Lemma link_time_roundtrip_witness :
  ∃ w', usfstl_sched_link_external_set_time 2 7 demo_linked = Ok (tt, w') ∧
        usfstl_sched_link_external_get_time 2 w' = Ok (7, w').
Proof.
  destruct (link_time_roundtrip demo_linked 2 demo_linked_sched 1 demo_sched 7)
    as (w' & H1 & _ & _ & H2); [exact demo_linked_wf|done|done|done|done|done|lia|cbn; lia|vm_compute; done|done|].
  by exists w'.
Defined.
