(* ===== verification/Task.v ===== *)
(** * Tasks, contexts and semaphores (src/task.c, src/ctx-common.c,
    src/ctx-ucontext.c)

    A context is a coroutine: its control state is the rest of its program.  A
    program is a tree of calls to the task API; what a context does when it
    regains control after [swapcontext] is recorded as its continuation.  The
    jobs of tasks and the scheduler are those of [Sched]; the job embedded in a
    task has the task's address. *)
From S2P Require Import Prelude Sched.
From stdpp Require Import pretty.
From Stdlib Require Import Ascii.
#[local] Open Scope Z_scope.

(** ** Programs *)

(** Calls that do not leave the calling context. *)
Inductive nbop :=
  | NResume (t : Z)
  | NPost (s : Z)
  | NTryWait (s : Z)
  | NBlock (t : Z)
  | NUnblock (t : Z)
  | NEnd (t : Z)
  | NSetPriority (t prio : Z)
  | NSetGroup (t group : Z)
  | NAddJob (j start : Z).

(** The program of a task function; [PCreate] has the addresses that the
    allocator returns for the new task and its context. *)
Inductive prog :=
  | PReturn
  | PCall (op : nbop) (k : bool → prog)
  | PCreate (t c : Z) (name : string) (group : Z) (fn : prog) (free : bool) (data : Z) (k : prog)
  | PSleep (delay : Z) (k : prog)
  | PSuspend (k : prog)
  | PTimedWait (s timeout : Z) (k : bool → prog)
  | PWait (s : Z) (k : prog)
  | PEndSelf.

(** Where a context is inside the API when it is not running. *)
Inductive cont :=
  | CSleep (k : prog)
  | CSuspend (k : prog)
  | CSem (s timeout : Z) (k : bool → prog)
  | CSemWait (s : Z) (k : prog)
  | CEnd.

Inductive control :=
  | Fresh
  | Running
  | Suspended (k : cont).

(** ** Data *)
Record usfstl_ctx := Ctx {
  ctx_name : string;
  ctx_data : option Z;
  (* [free] is [usfstl_task_ctx_free] for all contexts but the main one *)
  ctx_free : bool;
  ctx_control : control;
}.
#[export] Instance ctx_settable : Settable usfstl_ctx := λ r,
  Ctx (ctx_name r) (ctx_data r) (ctx_free r) (ctx_control r).

Record usfstl_task := Task {
  t_ctx : option Z;
  t_fn : option prog;
  t_free : bool;
  t_data : Z;
  (* the semaphore whose list [sem_entry] is on; [None] is [sem_entry.next == NULL] *)
  sem_entry : option Z;
  check_sem : option Z;
  woken_by_sem_post : bool;
}.
#[export] Instance task_settable : Settable usfstl_task := λ r,
  Task (t_ctx r) (t_fn r) (t_free r) (t_data r) (sem_entry r) (check_sem r) (woken_by_sem_post r).

Record usfstl_sem := Sem {
  s_name : string;
  (* whether [waiters] was initialised *)
  s_init : bool;
  waiters : list Z;
  ctr : Z;
  _name : string;
}.
#[export] Instance sem_settable : Settable usfstl_sem := λ r,
  Sem (s_name r) (s_init r) (waiters r) (ctr r) (_name r).

(** Calls of hooks and of the tasks' free functions, in order. *)
Inductive hook_event := HLeave | HEnter | HFree (t data : Z).

Record tenv := TEnv {
  g_usfstl_current_ctx : option Z;
  g_usfstl_main_ctx : option Z;
  g_usfstl_destroy_ctx : option Z;
  g_usfstl_destroy_caller : option Z;
  ctxs : gmap Z usfstl_ctx;
  g_usfstl_ctxs : list Z;
  tasks : gmap Z usfstl_task;
  sems : gmap Z usfstl_sem;
  g_usfstl_task_to_end : option Z;
  g_usfstl_task_running : bool;
  g_usfstl_task_selected : bool;
  g_usfstl_task_leave : bool;
  g_usfstl_task_enter : bool;
  (* control has passed to the context [g_usfstl_current_ctx] *)
  switched : bool;
  hooks : list hook_event;
}.
#[export] Instance tenv_settable : Settable tenv := λ r,
  TEnv (g_usfstl_current_ctx r) (g_usfstl_main_ctx r) (g_usfstl_destroy_ctx r) (g_usfstl_destroy_caller r)
    (ctxs r) (g_usfstl_ctxs r) (tasks r) (sems r) (g_usfstl_task_to_end r) (g_usfstl_task_running r)
    (g_usfstl_task_selected r) (g_usfstl_task_leave r) (g_usfstl_task_enter r) (switched r) (hooks r).

(** The callbacks: of a task's job, and of other jobs of the program. *)
Inductive job_fn := usfstl_task_job_fn_tag | user_fn (u : Z).

Abbreviation W := (world tenv job_fn).

Definition NO_TIMEOUT : Z := 2^64 - 1.

(** The address of [g_usfstl_task_scheduler]. *)
Definition g_usfstl_task_scheduler : Z := 1.

(** ** Access to the state *)
Definition upd_env (f : tenv → tenv) : M W unit := modify (λ w, w <| env := f (env w) |>).
Definition get_ctx (c : Z) : M W usfstl_ctx := w ← get; deref (ctxs (env w) !! c).
Definition put_ctx (c : Z) (x : usfstl_ctx) : M W unit := upd_env (λ e, e <| ctxs := <[c:=x]> (ctxs e) |>).
Definition get_task (t : Z) : M W usfstl_task := w ← get; deref (tasks (env w) !! t).
Definition put_task (t : Z) (x : usfstl_task) : M W unit := upd_env (λ e, e <| tasks := <[t:=x]> (tasks e) |>).
Definition get_sem (s : Z) : M W usfstl_sem := w ← get; deref (sems (env w) !! s).
Definition put_sem (s : Z) (x : usfstl_sem) : M W unit := upd_env (λ e, e <| sems := <[s:=x]> (sems e) |>).
Definition upd_task (t : Z) (f : usfstl_task → usfstl_task) : M W unit := x ← get_task t; put_task t (f x).
Definition upd_sem (s : Z) (f : usfstl_sem → usfstl_sem) : M W unit := x ← get_sem s; put_sem s (f x).
Definition set_control (c : Z) (k : control) : M W unit := x ← get_ctx c; put_ctx c (x <| ctx_control := k |>).
Definition log_hook (h : hook_event) : M W unit := upd_env (λ e, e <| hooks := hooks e ++ [h] |>).

(** ** Contexts *)
Section ctx.
(** The address of the main context when it is allocated. *)
Context (main_ctx_addr : Z).

Definition usfstl_create_main_ctx : M W Z :=
  put_ctx main_ctx_addr (Ctx "main" None false Running);;
  mret main_ctx_addr.

Definition usfstl_current_ctx : M W Z :=
  w ← get;
  match g_usfstl_current_ctx (env w) with
  | Some c => mret c
  | None =>
      m ← match g_usfstl_main_ctx (env w) with
          | Some m => mret m
          | None => m ← usfstl_create_main_ctx; upd_env (λ e, e <| g_usfstl_main_ctx := Some m |>);; mret m
          end;
      upd_env (λ e, e <| g_usfstl_current_ctx := Some m |>);;
      mret m
  end.

Definition usfstl_main_ctx : M W (option Z) := gets (λ w, g_usfstl_main_ctx (env w)).

Definition usfstl_ctx_get_data (c : option Z) : M W (option Z) := c ← deref c; x ← get_ctx c; mret (ctx_data x).
Definition usfstl_ctx_set_data (c : option Z) (d : option Z) : M W unit :=
  c ← deref c; x ← get_ctx c; put_ctx c (x <| ctx_data := d |>).
Definition usfstl_ctx_get_name (c : option Z) : M W string := c ← deref c; x ← get_ctx c; mret (ctx_name x).

(** Creating a context, with all of its [usfstl_ctx_common_init]. *)
Definition usfstl_ctx_create (c : Z) (name : string) (data : Z) : M W Z :=
  w ← get;
  match g_usfstl_main_ctx (env w) with
  | Some _ => mret tt
  | None =>
      usfstl_assert (bool_decide (g_usfstl_current_ctx (env w) = None));;
      m ← usfstl_current_ctx;
      upd_env (λ e, e <| g_usfstl_main_ctx := Some m |>)
  end;;
  put_ctx c (Ctx name (Some data) true Fresh);;
  upd_env (λ e, e <| g_usfstl_ctxs := c :: g_usfstl_ctxs e |>);;
  mret c.

(** [usfstl_task_ctx_free]: the task's own free function is called and the task
    freed, with the job inside it. *)
Definition usfstl_task_ctx_free (t : Z) : M W unit :=
  x ← get_task t;
  when (t_free x) (log_hook (HFree t (t_data x)));;
  modify (λ w, w <| jobs := delete t (jobs w) |>
                 <| env := (env w) <| tasks := delete t (tasks (env w)) |> |>).

Definition usfstl_free_ctx (c : Z) : M W unit :=
  cur ← usfstl_current_ctx;
  usfstl_assert (negb (cur =? c));;
  w ← get;
  usfstl_assert (bool_decide (c ∈ g_usfstl_ctxs (env w)));;
  upd_env (λ e, e <| g_usfstl_ctxs := List.filter (λ x, negb (x =? c)) (g_usfstl_ctxs e) |>);;
  x ← get_ctx c;
  match ctx_data x with
  | Some t => when (ctx_free x) (usfstl_task_ctx_free t)
  | None => when (ctx_free x) (fail NullDeref)
  end;;
  upd_env (λ e, e <| ctxs := delete c (ctxs e) |>).

(** [_usfstl_complete_ctx_switch] in the context [c] that got control, when no
    context asked for this one to be ended. *)
Definition complete_ctx_switch (c : Z) : M W unit :=
  upd_env (λ e, e <| g_usfstl_current_ctx := Some c |>);;
  w ← get;
  match g_usfstl_destroy_ctx (env w) with
  | Some d => usfstl_free_ctx d;; upd_env (λ e, e <| g_usfstl_destroy_ctx := None |>)
  | None => mret tt
  end.

(** [_usfstl_switch_ctx] up to the point where control arrives in [c]; if [c] is
    to be ended by the caller, it only switches back, asking to be destroyed. *)
Definition _usfstl_switch_ctx (c : Z) (terminate : bool) : M W unit :=
  prev ← usfstl_current_ctx;
  when terminate (upd_env (λ e, e <| g_usfstl_destroy_ctx := Some prev |>));;
  get_ctx c;;
  w ← get;
  match g_usfstl_destroy_caller (env w) with
  | None => complete_ctx_switch c
  | Some destroyer =>
      upd_env (λ e, e <| g_usfstl_current_ctx := Some c |> <| g_usfstl_destroy_caller := None |>
                      <| g_usfstl_destroy_ctx := Some c |>);;
      complete_ctx_switch destroyer
  end.

Definition usfstl_end_self (next : Z) : M W unit := _usfstl_switch_ctx next true.
Definition usfstl_switch_ctx (c : Z) : M W unit := _usfstl_switch_ctx c false.

Definition usfstl_end_ctx (c : Z) : M W unit :=
  w ← get;
  usfstl_assert (negb (bool_decide (g_usfstl_current_ctx (env w) = Some c)));;
  cur ← usfstl_current_ctx;
  upd_env (λ e, e <| g_usfstl_destroy_caller := Some cur |>);;
  usfstl_switch_ctx c.
End ctx.

(** ** Tasks *)
Section task.
(** The addresses the allocator returns for the main context and task, and what
    the callbacks of the program's own jobs do. *)
Context (main_ctx_addr main_task_addr : Z).
Context (user_script : Z → list nbop).

(** The task scheduler has no external connection; operations other than
    [usfstl_sched_next] do not call job callbacks. *)
#[local] Instance env0 : SchedEnv tenv job_fn := env_bottom.

Definition sched : Z := g_usfstl_task_scheduler.

Definition usfstl_task_alloc (t : Z) (fn : option prog) (free : bool) (data : Z) : M W Z :=
  put_task t (Task None fn free data None None false);;
  put_job t (job_zero <| callback := Some usfstl_task_job_fn_tag |> <| Sched.data := t |>);;
  mret t.

Definition usfstl_task_alloc_main : M W unit :=
  ctx ← usfstl_main_ctx;
  t ← usfstl_task_alloc main_task_addr None false 0;
  upd_task t (λ x, x <| t_ctx := ctx |>);;
  usfstl_ctx_set_data ctx (Some t).

Definition usfstl_task_cleanup : M W unit :=
  ctx ← usfstl_main_ctx;
  d ← usfstl_ctx_get_data ctx;
  match d with
  | Some t => modify (λ w, w <| jobs := delete t (jobs w) |>
                             <| env := (env w) <| tasks := delete t (tasks (env w)) |> |>)
  | None => mret tt
  end.

Definition usfstl_task_main : M W (option Z) :=
  ctx ← usfstl_main_ctx;
  d ← usfstl_ctx_get_data ctx;
  match d with
  | Some _ => mret tt
  | None => usfstl_task_alloc_main
  end;;
  usfstl_ctx_get_data ctx.

Definition usfstl_task_create (t c : Z) (name : string) (group : Z) (fn : prog) (free : bool) (data : Z) : M W Z :=
  usfstl_task_alloc t (Some fn) free data;;
  ctx ← usfstl_ctx_create main_ctx_addr c name t;
  upd_task t (λ x, x <| t_ctx := Some ctx |>);;
  upd_job t (λ jb, jb <| Sched.group := group |>);;
  mret t.

Definition usfstl_task_current : M W (option Z) :=
  w ← get;
  if g_usfstl_task_running (env w) then
    ctx ← usfstl_current_ctx main_ctx_addr;
    d ← usfstl_ctx_get_data (Some ctx);
    match d with
    | Some t => mret (Some t)
    | None =>
        m ← usfstl_main_ctx;
        usfstl_assert (bool_decide (Some ctx = m));;
        usfstl_task_alloc_main;;
        usfstl_ctx_get_data (Some ctx)
    end
  else mret None.

Definition usfstl_task_set_priority (t prio : Z) : M W unit :=
  b ← usfstl_job_scheduled t;
  usfstl_assert (negb b);;
  upd_job t (λ jb, jb <| priority := prio |>).

Definition usfstl_task_get_priority (t : Z) : M W Z := jb ← get_job t; mret (priority jb).

Definition usfstl_task_set_group (t grp : Z) : M W unit :=
  b ← usfstl_job_scheduled t;
  usfstl_assert (negb b);;
  usfstl_assert (grp <? 32);;
  upd_job t (λ jb, jb <| group := grp |>).

(** [usfstl_list_item_remove(&task->sem_entry)]. *)
Definition sem_entry_remove (t : Z) : M W unit :=
  x ← get_task t;
  s ← deref (sem_entry x);
  upd_sem s (λ sem, sem <| waiters := List.filter (λ i, negb (i =? t)) (waiters sem) |>);;
  upd_task t (λ x, x <| sem_entry := None |>).

Definition usfstl_task_end (t : Z) : M W unit :=
  x ← get_task t;
  b ← usfstl_job_scheduled t;
  usfstl_assert (negb b);;
  match sem_entry x with
  | Some _ => sem_entry_remove t
  | None => mret tt
  end;;
  ctx ← deref (t_ctx x);
  usfstl_end_ctx main_ctx_addr ctx.

Definition usfstl_task_resume (t : Z) : M W unit :=
  now ← usfstl_sched_current_time sched;
  upd_job t (λ jb, jb <| start := now |> <| name := "preempt" |>);;
  usfstl_sched_add_job sched t.

(** *** Semaphores *)
Definition usfstl_sem_init_if_needed (s : Z) : M W unit :=
  sem ← get_sem s;
  when (negb (s_init sem)) (put_sem s (sem <| s_init := true |> <| waiters := [] |>)).

Definition usfstl_sem_trywait (s : Z) : M W bool :=
  usfstl_sem_init_if_needed s;;
  sem ← get_sem s;
  if 0 <? ctr sem then put_sem s (sem <| ctr := ctr sem - 1 |>);; mret true
  else mret false.

(** The loop of [usfstl_process_sem_wakeup] over the waiters. *)
Fixpoint wakeup_loop (s : Z) (l : list Z) : M W bool :=
  match l with
  | [] => mret false
  | t :: l =>
      jb ← get_job t;
      if blocked jb then upd_task t (λ x, x <| check_sem := Some s |>);; wakeup_loop s l
      else
        usfstl_sched_del_job t;;
        now ← usfstl_sched_current_time sched;
        upd_job t (λ jb, jb <| start := now |> <| name := String "!"%char (name jb) |>);;
        upd_task t (λ x, x <| woken_by_sem_post := true |>);;
        usfstl_sched_add_job sched t;;
        sem_entry_remove t;;
        mret true
  end.

Definition usfstl_process_sem_wakeup (s : Z) : M W bool :=
  sem ← get_sem s;
  wakeup_loop s (waiters sem).

Definition usfstl_sem_post (s : Z) : M W unit :=
  usfstl_sem_init_if_needed s;;
  b ← usfstl_process_sem_wakeup s;
  when (negb b) (upd_sem s (λ sem, sem <| ctr := u32 (ctr sem + 1) |>)).

Definition usfstl_task_block (t : Z) : M W unit := usfstl_sched_block_job sched t.

Definition usfstl_task_unblock (t : Z) : M W unit :=
  x ← get_task t;
  usfstl_sched_unblock_job sched t;;
  match check_sem x with
  | None => mret tt
  | Some s =>
      sem ← get_sem s;
      when (negb (ctr sem =? 0))
        (put_sem s (sem <| ctr := ctr sem - 1 |>);;
         b ← usfstl_process_sem_wakeup s;
         usfstl_assert b);;
      upd_task t (λ x, x <| check_sem := None |>)
  end.

(** *** Calls that stay in the context *)
Definition call (op : nbop) : M W bool :=
  match op with
  | NResume t => usfstl_task_resume t;; mret true
  | NPost s => usfstl_sem_post s;; mret true
  | NTryWait s => usfstl_sem_trywait s
  | NBlock t => usfstl_task_block t;; mret true
  | NUnblock t => usfstl_task_unblock t;; mret true
  | NEnd t => usfstl_task_end t;; mret true
  | NSetPriority t p => usfstl_task_set_priority t p;; mret true
  | NSetGroup t g => usfstl_task_set_group t g;; mret true
  | NAddJob j t => upd_job j (λ jb, jb <| start := t |>);; usfstl_sched_add_job sched j;; mret true
  end.

Fixpoint run_script (l : list nbop) : M W unit :=
  match l with
  | [] => mret tt
  | op :: l => call op;; run_script l
  end.

(** *** Switching tasks *)

(** The job function of a task: control ends up in the task's context; if that
    context was suspended it marks the selection. *)
Definition usfstl_task_job_fn (j : Z) : M W unit :=
  jb ← get_job j;
  x ← get_task (Sched.data jb);
  c ← deref (t_ctx x);
  w ← get;
  match g_usfstl_task_to_end (env w) with
  | Some e =>
      ex ← get_task e;
      cur ← usfstl_current_ctx main_ctx_addr;
      usfstl_assert (bool_decide (t_ctx ex = Some cur));;
      usfstl_assert (bool_decide (sem_entry ex = None));;
      upd_env (λ e, e <| g_usfstl_task_to_end := None |>);;
      usfstl_end_self main_ctx_addr c
  | None => usfstl_switch_ctx main_ctx_addr c
  end;;
  upd_env (λ e, e <| switched := true |>);;
  ctx ← get_ctx c;
  match ctx_control ctx with
  | Fresh => mret tt
  | _ => upd_env (λ e, e <| g_usfstl_task_selected := true |>)
  end.

Definition task_env : SchedEnv tenv job_fn := {|
  disable_skip_external_request := false;
  call_request _ _ _ := fail OutOfFuel;
  call_wait _ _ := fail OutOfFuel;
  call_get_time _ _ := fail OutOfFuel;
  call_set_time _ _ _ := fail OutOfFuel;
  call_time_advanced _ _ _ := fail OutOfFuel;
  call_next_time_changed _ _ := fail OutOfFuel;
  call_callback f j :=
    match f with
    | usfstl_task_job_fn_tag => usfstl_task_job_fn j
    | user_fn u => run_script (user_script u)
    end;
|}.

(** [do usfstl_sched_next(...) while (!g_usfstl_task_selected)], until control
    is in another context. *)
Fixpoint sched_loop (fuel : nat) : M W unit :=
  match fuel with
  | O => fail OutOfFuel
  | S fuel =>
      usfstl_sched_next (SE := task_env) 1 sched;;
      w ← get;
      if switched (env w) then mret tt else sched_loop fuel
  end.

(** [usfstl_task_next] of the calling context, up to the point where control
    arrives in the next one. *)
Definition usfstl_task_next (fuel : nat) (k : cont) : M W unit :=
  c ← usfstl_current_ctx main_ctx_addr;
  set_control c (Suspended k);;
  w ← get;
  when (g_usfstl_task_leave (env w)) (log_hook HLeave);;
  upd_env (λ e, e <| g_usfstl_task_running := false |> <| g_usfstl_task_selected := false |>
                  <| switched := false |>);;
  sched_loop fuel.

(** The end of [usfstl_task_next], and the start of [usfstl_task_ctx_fn]. *)
Definition task_entered : M W unit :=
  upd_env (λ e, e <| g_usfstl_task_running := true |>);;
  w ← get;
  when (g_usfstl_task_enter (env w)) (log_hook HEnter).

(** The rest of [usfstl_sem_timedwait] after the suspension. *)
Definition sem_timedwait_resumed (timeout : Z) : M W bool :=
  t ← usfstl_task_current;
  t ← deref t;
  upd_job t (λ jb, jb <| name := EmptyString |>);;
  x ← get_task t;
  usfstl_assert (bool_decide (check_sem x = None));;
  if negb (woken_by_sem_post x) then
    usfstl_assert (negb (bool_decide (sem_entry x = None)));;
    usfstl_assert (negb (timeout =? NO_TIMEOUT));;
    sem_entry_remove t;;
    mret false
  else
    put_task t (x <| woken_by_sem_post := false |>);;
    mret true.

(** What the context that got control does: the program it goes on with. *)
Definition resume : M W prog :=
  c ← usfstl_current_ctx main_ctx_addr;
  x ← get_ctx c;
  put_ctx c (x <| ctx_control := Running |>);;
  task_entered;;
  match ctx_control x with
  | Fresh => t ← deref (ctx_data x); task ← get_task t; deref (t_fn task)
  | Suspended (CSleep k) | Suspended (CSuspend k) => mret k
  | Suspended (CSem s timeout k) => b ← sem_timedwait_resumed timeout; mret (k b)
  | Suspended (CSemWait s k) => b ← sem_timedwait_resumed NO_TIMEOUT; usfstl_assert b;; mret k
  | Suspended CEnd => fail Assertion
  | Running => fail Assertion
  end.

Definition usfstl_task_end_self (fuel : nat) : M W unit :=
  task ← usfstl_task_current;
  match task with
  | None => fail Assertion
  | Some t =>
      b ← usfstl_job_scheduled t;
      usfstl_assert (negb b);;
      upd_env (λ e, e <| g_usfstl_task_to_end := Some t |>);;
      usfstl_task_next fuel CEnd
  end.

(** Eight hexadecimal digits ([%08x]). *)
Fixpoint hex_digits (n : nat) (z : Z) : string :=
  match n with
  | O => EmptyString
  | S n =>
      String (match String.get (Z.to_nat (Z.shiftr z (4 * Z.of_nat n) mod 16)) "0123456789abcdef" with
              | Some a => a
              | None => "0"%char
              end) (hex_digits n z)
  end.

Definition sleep_name (delay : Z) : string :=
  if delay =? 0 then "yield"
  else if delay <=? 0xffffffff then "sleep " +:+ pretty (s32 delay)
  else "sleep 0x" +:+ hex_digits 8 (u32 (Z.shiftr delay 32)) +:+ hex_digits 8 (u32 delay).

Definition usfstl_task_sleep (fuel : nat) (delay : Z) (k : prog) : M W unit :=
  task ← usfstl_task_current;
  match task with
  | None => fail Assertion
  | Some t =>
      now ← usfstl_sched_current_time sched;
      upd_job t (λ jb, jb <| name := sleep_name delay |> <| start := u64 (now + delay) |>);;
      usfstl_sched_add_job sched t;;
      usfstl_task_next fuel (CSleep k)
  end.

Definition usfstl_task_suspend (fuel : nat) (k : cont) : M W unit := usfstl_task_next fuel k.

(** The insertion loop of [usfstl_sem_timedwait]: before the first waiter of
    lower priority. *)
Fixpoint insert_waiter (js : gmap Z (usfstl_job job_fn)) (prio t : Z) (l : list Z) : option (list Z) :=
  match l with
  | [] => Some [t]
  | tmp :: l' =>
      tj ← js !! tmp;
      if priority tj <? prio then Some (t :: l) else cons tmp <$> insert_waiter js prio t l'
  end.

(** [usfstl_sem_timedwait] up to the suspension: [Some] is its result, [None]
    means that the task is in the list of waiters. *)
Definition sem_timedwait_start (s timeout : Z) : M W (option bool) :=
  task ← usfstl_task_current;
  match task with
  | None => fail Assertion
  | Some t =>
      x ← get_task t;
      usfstl_assert (negb (woken_by_sem_post x));;
      usfstl_sem_init_if_needed s;;
      sem ← get_sem s;
      when (bool_decide (_name sem = EmptyString))
        (put_sem s (sem <| _name := String.substring 0 50 (String "!"%char (s_name sem)) |>));;
      sem ← get_sem s;
      if negb (ctr sem =? 0) then put_sem s (sem <| ctr := ctr sem - 1 |>);; mret (Some true)
      else
        upd_job t (λ jb, jb <| name := String.substring 1 50 (_name sem) |>);;
        when (negb (timeout =? NO_TIMEOUT))
          (now ← usfstl_sched_current_time sched;
           upd_job t (λ jb, jb <| start := u64 (now + timeout) |>);;
           usfstl_sched_add_job sched t);;
        jb ← get_job t;
        w ← get;
        sem ← get_sem s;
        l ← deref (insert_waiter (jobs w) (priority jb) t (waiters sem));
        put_sem s (sem <| waiters := l |>);;
        upd_task t (λ x, x <| sem_entry := Some s |>);;
        mret None
  end.

(** [usfstl_sem_timedwait] until it returns ([Some], the context goes on) or
    control is in another context ([None]). *)
Definition usfstl_sem_timedwait (fuel : nat) (s timeout : Z) (k : cont) : M W (option bool) :=
  r ← sem_timedwait_start s timeout;
  match r with
  | Some b => mret (Some b)
  | None => usfstl_task_suspend fuel k;; mret None
  end.

(** ** The machine: one call of the running context's program; [None] when the
    main program is done. *)
Definition step (fuel : nat) (p : prog) : M W (option prog) :=
  match p with
  | PReturn =>
      c ← usfstl_current_ctx main_ctx_addr;
      w ← get;
      if bool_decide (g_usfstl_main_ctx (env w) = Some c) then mret None
      else usfstl_task_end_self fuel;; Some <$> resume
  | PCall op k => b ← call op; mret (Some (k b))
  | PCreate t c nm grp fn free data k => usfstl_task_create t c nm grp fn free data;; mret (Some k)
  | PSleep d k => usfstl_task_sleep fuel d k;; Some <$> resume
  | PSuspend k => usfstl_task_suspend fuel (CSuspend k);; Some <$> resume
  | PTimedWait s timeout k =>
      r ← usfstl_sem_timedwait fuel s timeout (CSem s timeout k);
      match r with
      | Some b => mret (Some (k b))
      | None => Some <$> resume
      end
  | PWait s k =>
      r ← usfstl_sem_timedwait fuel s NO_TIMEOUT (CSemWait s k);
      match r with
      | Some b => usfstl_assert b;; mret (Some k)
      | None => Some <$> resume
      end
  | PEndSelf => usfstl_task_end_self fuel;; Some <$> resume
  end.

Fixpoint run (n fuel : nat) (p : prog) : M W unit :=
  match n with
  | O => fail OutOfFuel
  | S n =>
      r ← step fuel p;
      match r with
      | None => mret tt
      | Some p' => run n fuel p'
      end
  end.
End task.
