(* ===== verification/TaskProps.v ===== *)
(** * Theorems on semaphores (src/task.c)

    The invariant of tasks and semaphores, with the absence of lost wake-ups,
    its preservation by the calls of the API, and what a post does. *)
From S2P Require Import Prelude Sched SchedQueue SchedProps Task.
From Stdlib Require Import Ascii.
#[local] Open Scope Z_scope.

(** ** What scheduler operations leave alone

    The environment is not touched, no job appears or disappears, and no
    [blocked] flag changes. *)
Section frame.
#[local] Existing Instance env0.
Implicit Types w : W.

Definition flag w (j : Z) : option bool := blocked <$> (jobs w !! j).

Record framed w w' : Prop := {
  fr_env : env w' = env w;
  fr_flag j : flag w' j = flag w j;
}.

Lemma framed_refl w : framed w w.
Proof. done. Qed.

Lemma framed_trans w1 w2 w3 : framed w1 w2 → framed w2 w3 → framed w1 w3.
Proof. intros [H1 H2] [H3 H4]. split; [congruence|]. intros j. by rewrite H4. Qed.

(** [m] only does framed changes. *)
Definition frames {A} (m : M W A) : Prop := ∀ w a w', m w = Ok (a, w') → framed w w'.

Lemma frames_ret {A} (a : A) : frames (mret a).
Proof. intros w b w' H. monad_inv H. apply framed_refl. Qed.

Lemma frames_bind {A B} (m : M W A) (k : A → M W B) : frames m → (∀ a, frames (k a)) → frames (m ≫= k).
Proof. intros Hm Hk w b w' H. apply bind_inv in H as (a & w1 & H1 & H2). eapply framed_trans; [by eapply Hm|by eapply Hk]. Qed.

Lemma frames_fail {A} f : frames (A := A) (fail f).
Proof. by intros w a w' H. Qed.

Lemma frames_assert b : frames (usfstl_assert b).
Proof. intros w a w' H. monad_inv H. apply framed_refl. Qed.

Lemma frames_when b m : frames m → frames (when b m).
Proof. destruct b; [done|]. intros _. apply frames_ret. Qed.

Lemma frames_get_job j : frames (get_job j).
Proof. by intros w a w' [_ ->]%get_job_inv. Qed.

Lemma frames_get_sched s : frames (get_sched s).
Proof. by intros w a w' [_ ->]%get_sched_inv. Qed.

Lemma frames_get : frames get.
Proof. by intros w a w' [= <- <-]. Qed.

Lemma frames_deref {A} (o : option A) : frames (deref o).
Proof. intros w a w' H. monad_inv H. apply framed_refl. Qed.

Lemma frames_put_sched s sc : frames (put_sched s sc).
Proof. intros w a w' [= <- <-]. done. Qed.

Lemma frames_upd_sched s f : frames (upd_sched s f).
Proof. apply frames_bind; [apply frames_get_sched|]. intros. apply frames_put_sched. Qed.

Lemma frames_upd_job j f : (∀ jb, blocked (f jb) = blocked jb) → frames (upd_job j f).
Proof.
  intros Hf w [] w' H. unfold upd_job in H. apply bind_inv in H as (jb & w1 & [Hj ->]%get_job_inv & H).
  unfold put_job in H. monad_inv H. split; [done|]. intros i. unfold flag. cbn. rewrite lookup_insert.
  case_decide as Hij; [|done]. subst i. by rewrite Hj; cbn; rewrite Hf.
Qed.

(** A job that was just read may be written back with the same flag. *)
Lemma frames_get_put_job {A} j (f : usfstl_job job_fn → M W A) :
  (∀ w jb a w', jobs w !! j = Some jb → f jb w = Ok (a, w') → framed w w') → frames (jb ← get_job j; f jb).
Proof. intros Hf w a w' H. apply bind_inv in H as (jb & w1 & [Hj ->]%get_job_inv & H). by eapply Hf. Qed.

Lemma put_job_framed w j jb jb' a w' :
  jobs w !! j = Some jb → blocked jb' = blocked jb → put_job j jb' w = Ok (a, w') → framed w w'.
Proof.
  intros Hj Hb H. unfold put_job in H. monad_inv H. split; [done|]. intros i. unfold flag. cbn.
  rewrite lookup_insert. case_decide as Hij; [|done]. subst i. by rewrite Hj; cbn; rewrite Hb.
Qed.

Create HintDb frames discriminated.
#[local] Hint Resolve frames_ret frames_bind frames_fail frames_assert frames_when frames_get_job frames_get_sched
  frames_get frames_deref frames_put_sched frames_upd_sched : frames.

Lemma frames_current_time s : frames (usfstl_sched_current_time s).
Proof. unfold usfstl_sched_current_time. apply frames_bind; [auto with frames|]. intros sc.
  destruct (external_get_time sc); [apply frames_fail|apply frames_ret]. Qed.

Lemma frames_job_scheduled j : frames (usfstl_job_scheduled j).
Proof. unfold usfstl_job_scheduled. eauto with frames. Qed.

Lemma frames_queue_append s q j : frames (queue_append s q j).
Proof. unfold queue_append. apply frames_bind; [auto with frames|]. intros _. by apply frames_upd_job. Qed.

Lemma frames_del_job j : frames (usfstl_sched_del_job j).
Proof.
  unfold usfstl_sched_del_job. apply frames_bind; [apply frames_job_scheduled|]. intros b.
  destruct (negb b); [auto with frames|]. apply frames_bind; [auto with frames|]. intros jb.
  destruct (entry jb) as [[s q]|]; [|auto with frames]. apply frames_bind; [auto with frames|].
  intros _. by apply frames_upd_job.
Qed.

Lemma frames_external_request s t : frames (usfstl_sched_external_request s t).
Proof.
  unfold usfstl_sched_external_request. apply frames_bind; [auto with frames|]. intros sc.
  destruct (external_request sc); [|auto with frames]. destruct (_ && _); [auto with frames|].
  destruct (_ && _); [auto with frames|]. apply frames_bind; [auto with frames|]. intros _. apply frames_fail.
Qed.

Lemma frames_add_job s j : frames (usfstl_sched_add_job s j).
Proof.
  unfold usfstl_sched_add_job. apply frames_bind; [auto with frames|]. intros jb0.
  apply frames_bind; [apply frames_current_time|]. intros now. apply frames_bind; [auto with frames|]. intros _.
  apply frames_bind; [apply frames_job_scheduled|]. intros b. apply frames_bind; [auto with frames|]. intros _.
  apply frames_get_put_job. intros w jb [] w' Hj H.
  apply bind_inv in H as ([] & w1 & [_ [= ->]]%assert_inv & H).
  apply bind_inv in H as (sc & w1 & [Hs ->]%get_sched_inv & H).
  destruct (blocked jb) eqn:Hb.
  { eapply put_job_framed; [done| |done]. by cbn. }
  destruct (_ && _).
  { apply bind_inv in H as ([] & w1 & H1 & H). eapply framed_trans.
    - eapply put_job_framed; [done| |done]. by cbn.
    - by eapply frames_queue_append. }
  apply bind_inv in H as (w0 & w1 & [= <- <-] & H). apply bind_inv in H as (l & w1 & Hl & H).
  apply deref_inv in Hl as (l' & Hl & [= -> ->]).
  apply bind_inv in H as ([] & w1 & H1 & H). unfold put_sched in H1. monad_inv H1.
  apply bind_inv in H as ([] & w1 & H1 & H).
  eapply framed_trans; [|eapply framed_trans].
  - by eapply (frames_put_sched s (sc <| joblist := l' |>)).
  - eapply put_job_framed; [|..|exact H1]; [exact Hj|]. by cbn.
  - revert H. apply frames_bind; [apply frames_external_request|]. intros _.
    apply frames_bind; [auto with frames|]. intros sc'.
    destruct (next_time_changed sc'); [apply frames_fail|apply frames_ret].
Qed.

Lemma frames_restore_job s j : frames (usfstl_sched_restore_job s j).
Proof.
  unfold usfstl_sched_restore_job. apply frames_bind; [apply frames_del_job|]. intros _.
  apply frames_bind; [auto with frames|]. intros jb. apply frames_bind; [apply frames_current_time|]. intros now.
  apply frames_bind; [|intros _; apply frames_add_job]. apply frames_when.
  apply frames_bind; [apply frames_current_time|]. intros now'. by apply frames_upd_job.
Qed.
End frame.

(** ** The invariant of semaphores *)
Section invariant.
#[local] Existing Instance env0.
Implicit Types w : W.

Abbreviation tasks_of w := (tasks (env w)).
Abbreviation sems_of w := (sems (env w)).

(** The lists of waiters and the tasks agree; a task asked to check a semaphore
    ([check_sem]) is blocked and waits for it; and no wake-up is lost: when the
    counter is positive, every waiter is blocked and will check the semaphore
    once unblocked.  [ex] is the task, if any, that is just being unblocked. *)
Record sems_ok_but (ex : option Z) w : Prop := {
  so_jobs t x : tasks_of w !! t = Some x → is_Some (flag w t);
  so_lists s sem : sems_of w !! s = Some sem →
    NoDup (waiters sem) ∧ (s_init sem = false → waiters sem = []) ∧ 0 ≤ ctr sem < 2^32 ∧
    ∀ t, t ∈ waiters sem ↔ ∃ x, tasks_of w !! t = Some x ∧ sem_entry x = Some s;
  so_entry t x s : tasks_of w !! t = Some x → sem_entry x = Some s → is_Some (sems_of w !! s);
  so_check t x s : ex ≠ Some t → tasks_of w !! t = Some x → check_sem x = Some s →
    sem_entry x = Some s ∧ flag w t = Some true;
  so_lost s sem t x : sems_of w !! s = Some sem → 0 < ctr sem → t ∈ waiters sem →
    tasks_of w !! t = Some x → check_sem x = Some s;
}.
Definition sems_ok w : Prop := sems_ok_but None w.

Lemma sems_ok_framed ex w w' : framed w w' → sems_ok_but ex w → sems_ok_but ex w'.
Proof.
  intros [He Hf] [H1 H2 H3 H4 H5]. split; rewrite ?He; try done.
  - intros t x Hx. rewrite Hf. by eapply H1.
  - intros t x s Hne Hx Hc. rewrite Hf. by eapply H4.
Qed.

Lemma sems_ok_weaken ex w : sems_ok w → sems_ok_but ex w.
Proof. intros [H1 H2 H3 H4 H5]. split; try done. intros t x s _ Hx Hc. by eapply H4. Qed.

(** Changing a semaphore's counter and names. *)
Lemma put_sem_ok ex w s sem sem' :
  sems_ok_but ex w → sems_of w !! s = Some sem → waiters sem' = waiters sem →
  (s_init sem' = false → waiters sem = []) → 0 ≤ ctr sem' < 2^32 →
  (0 < ctr sem' → ∀ t x, t ∈ waiters sem → tasks_of w !! t = Some x → check_sem x = Some s) →
  sems_ok_but ex (w <| env := (env w) <| sems := <[s:=sem']> (sems_of w) |> |>).
Proof.
  intros [H1 H2 H3 H4 H5] Hs Hw Hi Hc Hl. split; cbn; try done.
  - intros s' sem1 Hs'. apply lookup_insert_Some in Hs' as [[<- <-]|[Hne Hs']]; [|by apply H2].
    destruct (H2 _ _ Hs) as (? & ? & ? & ?). rewrite Hw. done.
  - intros t x s' Hx He. rewrite lookup_insert_is_Some'. right. by eapply H3.
  - intros s' sem1 t x Hs'. apply lookup_insert_Some in Hs' as [[<- <-]|[Hne Hs']]; [|by apply H5].
    rewrite Hw. intros Hpos Hin. by apply Hl.
Qed.

(** Changing a task's wake-up fields. *)
Lemma put_task_ok ex w t x x' :
  sems_ok_but ex w → tasks_of w !! t = Some x → sem_entry x' = sem_entry x →
  (∀ s, ex ≠ Some t → check_sem x' = Some s → sem_entry x = Some s ∧ flag w t = Some true) →
  (∀ s sem, sem_entry x = Some s → sems_of w !! s = Some sem → 0 < ctr sem → check_sem x' = Some s) →
  sems_ok_but ex (w <| env := (env w) <| tasks := <[t:=x']> (tasks_of w) |> |>).
Proof.
  intros [H1 H2 H3 H4 H5] Ht He Hc Hl. split; cbn.
  - intros i y Hy. apply lookup_insert_Some in Hy as [[<- <-]|[Hne Hy]]; [by eapply H1|by eapply H1].
  - intros s sem Hs. destruct (H2 _ _ Hs) as (Hnd & Hi & Hr & Hin). split_and!; [done|done|lia|lia|].
    intros i. rewrite Hin. rewrite lookup_insert. case_decide; naive_solver congruence.
  - intros i y s Hy. apply lookup_insert_Some in Hy as [[<- <-]|[Hne Hy]]; [rewrite He; by eapply H3|by eapply H3].
  - intros i y s Hex Hy Hcs. apply lookup_insert_Some in Hy as [[<- <-]|[Hne Hy]].
    + rewrite He. by apply Hc.
    + by eapply H4.
  - intros s sem i y Hs Hpos Hin Hy. apply lookup_insert_Some in Hy as [[<- <-]|[Hne Hy]]; [|by eapply H5].
    eapply Hl; [|done|done]. apply (H2 _ _ Hs) in Hin as (x0 & Hx0 & Hx0e). by simplify_eq.
Qed.

Lemma get_sem_inv w s sem w' : get_sem s w = Ok (sem, w') → sems_of w !! s = Some sem ∧ w' = w.
Proof. unfold get_sem, get, mbind, M_bind, deref. case_match; intros [= -> ->]; auto. Qed.

Lemma get_task_inv w t x w' : get_task t w = Ok (x, w') → tasks_of w !! t = Some x ∧ w' = w.
Proof. unfold get_task, get, mbind, M_bind, deref. case_match; intros [= -> ->]; auto. Qed.

Lemma upd_task_inv w t f w' :
  upd_task t f w = Ok (tt, w') →
  ∃ x, tasks_of w !! t = Some x ∧ w' = w <| env := (env w) <| tasks := <[t:=f x]> (tasks_of w) |> |>.
Proof.
  unfold upd_task. intros H. apply bind_inv in H as (x & w1 & [Hx ->]%get_task_inv & H).
  unfold put_task, upd_env in H. monad_inv H. eauto.
Qed.

Lemma upd_sem_inv w s f w' :
  upd_sem s f w = Ok (tt, w') →
  ∃ x, sems_of w !! s = Some x ∧ w' = w <| env := (env w) <| sems := <[s:=f x]> (sems_of w) |> |>.
Proof.
  unfold upd_sem. intros H. apply bind_inv in H as (x & w1 & [Hx ->]%get_sem_inv & H).
  unfold put_sem, upd_env in H. monad_inv H. eauto.
Qed.

(** Taking a task off the list of waiters. *)
Definition unqueued w (s t : Z) (sem : usfstl_sem) (x : usfstl_task) : W :=
  w <| env := (env w) <| sems := <[s:=sem <| waiters := without t (waiters sem) |>]> (sems_of w) |>
                      <| tasks := <[t:=x <| sem_entry := None |>]> (tasks_of w) |> |>.

Lemma unqueued_ok ex w s t sem x :
  sems_ok_but ex w → sems_of w !! s = Some sem → tasks_of w !! t = Some x → sem_entry x = Some s →
  (ex ≠ Some t → check_sem x = None) → sems_ok_but ex (unqueued w s t sem x).
Proof.
  intros [H1 H2 H3 H4 H5] Hs Ht He Hc. split; cbn.
  - intros i y Hy. apply lookup_insert_Some in Hy as [[<- <-]|[Hne Hy]]; by eapply H1.
  - intros s' sem' Hs'. apply lookup_insert_Some in Hs' as [[<- <-]|[Hne Hs']].
    + destruct (H2 _ _ Hs) as (Hnd & Hi & Hr & Hin). cbn. split_and!; [|by intros ->%Hi|lia..|].
      * apply NoDup_ListNoDup, List.NoDup_filter. by apply NoDup_ListNoDup.
      * intros i. change (List.filter _ (waiters sem)) with (without t (waiters sem)).
        rewrite elem_of_without, Hin, lookup_insert. case_decide; naive_solver.
    + destruct (H2 _ _ Hs') as (Hnd & Hi & Hr & Hin). split_and!; [done|done|lia|lia|]. intros i. rewrite Hin, lookup_insert.
      case_decide; naive_solver.
  - intros i y s' Hy He'. rewrite lookup_insert_is_Some'. right.
    apply lookup_insert_Some in Hy as [[<- <-]|[Hne Hy]]; [done|by eapply H3].
  - intros i y s' Hex Hy Hcs. apply lookup_insert_Some in Hy as [[<- <-]|[Hne Hy]]; [|by eapply H4].
    cbn in Hcs. by rewrite (Hc Hex) in Hcs.
  - intros s' sem' i y Hs' Hpos Hin Hy.
    apply lookup_insert_Some in Hs' as [[<- <-]|[Hne Hs']].
    + cbn in Hin, Hpos. change (List.filter _ (waiters sem)) with (without t (waiters sem)) in Hin.
      apply elem_of_without in Hin as [Hin Hit]. rewrite lookup_insert_ne in Hy by done. by eapply H5.
    + apply lookup_insert_Some in Hy as [[<- <-]|[Hit Hy]]; [|by eapply H5].
      apply (H2 _ _ Hs') in Hin as (x0 & Hx0 & Hx0e). simplify_eq.
Qed.

Lemma sem_entry_remove_inv w t w' :
  sem_entry_remove t w = Ok (tt, w') →
  ∃ s sem x, sems_of w !! s = Some sem ∧ tasks_of w !! t = Some x ∧ sem_entry x = Some s ∧ w' = unqueued w s t sem x.
Proof.
  unfold sem_entry_remove. intros H. apply bind_inv in H as (x & w1 & [Hx ->]%get_task_inv & H).
  apply bind_inv in H as (s & w1 & Hd & H). apply deref_inv in Hd as (s' & He & [= -> ->]).
  apply bind_inv in H as ([] & w1 & (sem & Hs & ->)%upd_sem_inv & H). apply upd_task_inv in H as (x' & Hx' & ->).
  cbn in Hx'. simplify_eq. by exists s', sem, x.
Qed.

(** *** Waking a waiter *)

(** Everything but the woken flag of [t] and its place in the list stays. *)
Lemma wake_inv ex w s sem t x w' b :
  sems_ok_but ex w → sems_of w !! s = Some sem → tasks_of w !! t = Some x → sem_entry x = Some s →
  flag w t = Some false →
  (usfstl_sched_del_job t;;
   now ← usfstl_sched_current_time sched;
   upd_job t (λ jb, jb <| start := now |> <| name := String "!"%char (name jb) |>);;
   upd_task t (λ x, x <| woken_by_sem_post := true |>);;
   usfstl_sched_add_job sched t;;
   sem_entry_remove t;;
   mret true) w = Ok (b, w') →
  sems_ok_but ex w' ∧ b = true ∧ (∀ j, flag w' j = flag w j) ∧
  env w' = (env w) <| sems := <[s:=sem <| waiters := without t (waiters sem) |>]> (sems_of w) |>
                   <| tasks := <[t:=x <| woken_by_sem_post := true |> <| sem_entry := None |>]> (tasks_of w) |>.
Proof.
  intros Hok Hs Hx He Hfl H.
  assert (∃ w1, framed w w1 ∧ (upd_task t (λ x, x <| woken_by_sem_post := true |>);;
      usfstl_sched_add_job sched t;; sem_entry_remove t;; mret true) w1 = Ok (b, w')) as (w1 & Hf1 & H1).
  { apply bind_inv in H as ([] & w1 & H1%frames_del_job & H). apply bind_inv in H as (now & w2 & H2%frames_current_time & H).
    apply bind_inv in H as ([] & w3 & H3 & H). apply frames_upd_job in H3; [|done].
    exists w3. split; [|done]. eapply framed_trans; [done|]. by eapply framed_trans. }
  clear H. apply bind_inv in H1 as ([] & w2 & (x1 & Hx1 & ->)%upd_task_inv & H).
  apply bind_inv in H as ([] & w3 & H3%frames_add_job & H). apply bind_inv in H as ([] & w4 & H4 & H). monad_inv H.
  pose proof (sems_ok_framed _ _ _ Hf1 Hok) as Hok1. rewrite (fr_env _ _ Hf1) in Hx1.
  rewrite Hx in Hx1. injection Hx1 as <-.
  set (w2 := w1 <| env := _ |>) in H3.
  assert (sems_ok_but ex w2) as Hok2.
  { eapply put_task_ok; [done|by rewrite (fr_env _ _ Hf1)|done|..]; cbn.
    - intros s' Hex Hc. rewrite (fr_flag _ _ Hf1). by eapply (so_check _ _ Hok).
    - intros s' sem' He' Hs'. rewrite (fr_env _ _ Hf1) in Hs'. intros Hpos. eapply (so_lost _ _ Hok); try done.
      apply (so_lists _ _ Hok _ _ Hs'). by exists x. }
  pose proof (sems_ok_framed _ _ _ H3 Hok2) as Hok3.
  apply sem_entry_remove_inv in H4 as (s' & sem' & x' & Hs' & Hx' & He' & ->).
  rewrite (fr_env _ _ H3) in Hs', Hx'. cbn in Hs', Hx'. rewrite (fr_env _ _ Hf1) in Hs'.
  rewrite lookup_insert_eq in Hx'. injection Hx' as <-. cbn in He'. rewrite He in He'. injection He' as <-.
  rewrite Hs in Hs'. injection Hs' as <-. split_and!.
  - apply unqueued_ok; [done|rewrite (fr_env _ _ H3); cbn; by rewrite (fr_env _ _ Hf1)|
      rewrite (fr_env _ _ H3); cbn; by rewrite lookup_insert_eq|done|].
    intros Hex. cbn. destruct (check_sem x) as [c|] eqn:Hc; [|done].
    destruct (so_check _ _ Hok t x c Hex Hx Hc) as [_ Hfl']. congruence.
  - done.
  - intros j. change (flag (unqueued _ _ _ _ _) j) with (flag w3 j). rewrite (fr_flag _ _ H3).
    change (flag w2 j) with (flag w1 j). apply (fr_flag _ _ Hf1).
  - cbn. rewrite (fr_env _ _ H3). cbn. rewrite (fr_env _ _ Hf1). by rewrite insert_insert_eq.
Qed.

(** The result of the loop over the rest [l] of the waiters. *)
Definition wake_result w (s : Z) (sem : usfstl_sem) (l : list Z) (b : bool) w' : Prop :=
  if b then
    ∃ l1 t l2 x, l = l1 ++ t :: l2 ∧ (∀ u, u ∈ l1 → flag w u = Some true) ∧ flag w t = Some false ∧
      tasks_of w !! t = Some x ∧
      sems_of w' = <[s:=sem <| waiters := without t (waiters sem) |>]> (sems_of w) ∧
      tasks_of w' !! t = Some (x <| woken_by_sem_post := true |> <| sem_entry := None |>)
  else
    (∀ u, u ∈ l → flag w u = Some true) ∧ sems_of w' = sems_of w ∧
    (∀ u x, u ∈ waiters sem → tasks_of w' !! u = Some x → check_sem x = Some s).

Lemma wakeup_loop_inv ex s sem l : ∀ pre w b w',
  sems_ok_but ex w → sems_of w !! s = Some sem → waiters sem = pre ++ l →
  (∀ u x, u ∈ pre → tasks_of w !! u = Some x → check_sem x = Some s) →
  wakeup_loop s l w = Ok (b, w') →
  sems_ok_but ex w' ∧ (∀ j, flag w' j = flag w j) ∧ wake_result w s sem l b w'.
Proof.
  induction l as [|t l IH]; intros pre w b w' Hok Hs Hw Hpre H.
  { cbn [wakeup_loop] in H. monad_inv H. rewrite app_nil_r in Hw. split_and!; [done|done|]. split_and!; [set_solver|done|].
    rewrite Hw. done. }
  destruct (so_lists _ _ Hok _ _ Hs) as (Hnd & _ & _ & Hin).
  destruct (proj1 (Hin t)) as (x & Hx & He); [rewrite Hw; set_solver|].
  cbn [wakeup_loop] in H. apply bind_inv in H as (jb & w1 & [Hj ->]%get_job_inv & H).
  assert (flag w t = Some (blocked jb)) as Hfl by (unfold flag; by rewrite Hj).
  destruct (blocked jb).
  - apply bind_inv in H as ([] & w1 & (x' & Hx' & ->)%upd_task_inv & H). rewrite Hx in Hx'. injection Hx' as <-.
    eapply (IH (pre ++ [t])) in H as (Hok' & Hflag & Hres).
    + split_and!; [done|done|]. destruct b.
      * destruct Hres as (l1 & t' & l2 & x' & -> & Hl1 & Hft & Hx' & Hs' & Ht').
        assert (t' ≠ t) as Hne by (rewrite Hw in Hnd; apply NoDup_app in Hnd as (_ & _ & Hnd);
          apply NoDup_cons in Hnd as [Hnd _]; set_solver).
        exists (t :: l1), t', l2, x'. cbn in Hx'. rewrite lookup_insert_ne in Hx' by done.
        split_and!; [done| |done|done|done|done]. intros u [->|Hu]%elem_of_cons; [done|by apply Hl1].
      * destruct Hres as (Hall & Hs' & Hc). split_and!; [|done|done].
        intros u [->|Hu]%elem_of_cons; [done|by apply Hall].
    + eapply put_task_ok; [done|done|done|..]; cbn.
      * intros s' _ [= <-]. done.
      * intros s' sem' He' Hs' _. congruence.
    + done.
    + by rewrite <- app_assoc.
    + cbn. intros u y [Hu|Hu%list_elem_of_singleton]%elem_of_app Hy;
        apply lookup_insert_Some in Hy as [[<- <-]|[Hne Hy]]; try done. by eapply Hpre.
  - eapply wake_inv in H as (Hok' & -> & Hflag & Henv); [|done..]. split_and!; [done|done|].
    exists [], t, l, x. rewrite Henv. cbn. rewrite lookup_insert_eq. split_and!; try done. set_solver.
Qed.

(** *** The operations *)
Lemma init_if_needed_inv ex w s w' :
  sems_ok_but ex w → usfstl_sem_init_if_needed s w = Ok (tt, w') →
  sems_ok_but ex w' ∧ tasks_of w' = tasks_of w ∧ (∀ j, flag w' j = flag w j) ∧
  ∃ sem sem', sems_of w !! s = Some sem ∧ sems_of w' !! s = Some sem' ∧ s_init sem' = true ∧
    waiters sem' = waiters sem ∧ ctr sem' = ctr sem ∧ _name sem' = _name sem.
Proof.
  intros Hok H. unfold usfstl_sem_init_if_needed in H. apply bind_inv in H as (sem & w1 & [Hs ->]%get_sem_inv & H).
  destruct (so_lists _ _ Hok _ _ Hs) as (_ & Hi & Hr & _).
  destruct (s_init sem) eqn:Hinit; cbn [when negb] in H.
  - monad_inv H. split_and!; [done..|]. exists sem, sem. done.
  - unfold put_sem, upd_env in H. monad_inv H. split_and!; [|done|done|].
    + eapply put_sem_ok; try done; [by rewrite Hi|lia..|]. cbn. rewrite (Hi eq_refl). set_solver.
    + exists sem, (sem <| s_init := true |> <| waiters := [] |>). cbn. rewrite lookup_insert_eq.
      rewrite (Hi eq_refl). done.
Qed.

Lemma process_wakeup_inv ex w s b w' :
  sems_ok_but ex w → usfstl_process_sem_wakeup s w = Ok (b, w') →
  ∃ sem, sems_of w !! s = Some sem ∧ sems_ok_but ex w' ∧ (∀ j, flag w' j = flag w j) ∧
         wake_result w s sem (waiters sem) b w'.
Proof.
  intros Hok H. unfold usfstl_process_sem_wakeup in H. apply bind_inv in H as (sem & w1 & [Hs ->]%get_sem_inv & H).
  exists sem. split; [done|]. eapply (wakeup_loop_inv ex s sem _ []); try done. set_solver.
Qed.

Lemma sem_post_keeps s : preserves sems_ok (usfstl_sem_post s).
Proof.
  intros w [] w' Hok H. unfold usfstl_sem_post in H. apply bind_inv in H as ([] & w1 & H1 & H).
  apply (init_if_needed_inv None) in H1 as (Hok1 & _ & _ & _); [|done].
  apply bind_inv in H as (b & w2 & H2 & H). apply (process_wakeup_inv None) in H2 as (sem & Hs & Hok2 & Hf & Hres); [|done].
  destruct b; cbn [negb when] in H; [by monad_inv H|]. destruct Hres as (Hall & Hse & Hc).
  apply upd_sem_inv in H as (sem' & Hs' & ->). rewrite Hse in Hs'. rewrite Hs in Hs'. injection Hs' as <-.
  destruct (so_lists _ _ Hok1 _ _ Hs) as (_ & Hi & _).
  rewrite <- Hse in Hs. eapply put_sem_ok; try done. apply u32_range.
Qed.

Lemma sem_trywait_keeps s : preserves sems_ok (usfstl_sem_trywait s).
Proof.
  intros w b w' Hok H. unfold usfstl_sem_trywait in H. apply bind_inv in H as ([] & w1 & H1 & H).
  apply (init_if_needed_inv None) in H1 as (Hok1 & _ & _ & _); [|done].
  apply bind_inv in H as (sem & w2 & [Hs ->]%get_sem_inv & H).
  destruct (Z.ltb_spec 0 (ctr sem)); [|by monad_inv H].
  apply bind_inv in H as ([] & w2 & H2 & H). unfold put_sem, upd_env in H2. monad_inv H2. monad_inv H.
  destruct (so_lists _ _ Hok1 _ _ Hs) as (_ & Hi & Hr & _).
  eapply put_sem_ok; try done; cbn; [lia|]. intros _ t x Hin Hx. eapply (so_lost _ _ Hok1); done || lia.
Qed.

(** Setting a [blocked] flag. *)
Lemma sems_ok_blocked w w' t :
  env w' = env w → (∀ j, flag w' j = if decide (j = t) then Some true else flag w j) →
  sems_ok w → sems_ok w'.
Proof.
  intros He Hf [H1 H2 H3 H4 H5]. split; rewrite ?He; try done.
  - intros i x Hx. rewrite Hf. case_decide; [done|by eapply H1].
  - intros i x s Hne Hx Hc. rewrite Hf. destruct (H4 i x s Hne Hx Hc) as [? ?]. split; [done|]. by case_decide.
Qed.

Lemma block_job_inv s t w w' :
  usfstl_sched_block_job s t w = Ok (tt, w') →
  env w' = env w ∧ ∀ j, flag w' j = if decide (j = t) then Some true else flag w j.
Proof.
  intros H. unfold usfstl_sched_block_job in H. apply bind_inv in H as (jb & w1 & [Hj ->]%get_job_inv & H).
  apply bind_inv in H as ([] & w1 & [_ [= ->]]%assert_inv & H). apply bind_inv in H as ([] & w1 & [_ [= ->]]%assert_inv & H).
  apply bind_inv in H as ([] & w1 & H1 & H). unfold put_job in H1. monad_inv H1.
  assert (framed (w <| jobs := <[t:=jb <| blocked := true |>]> (jobs w) |>) w') as [He Hf].
  { revert H. apply frames_bind; [apply frames_job_scheduled|]. intros b. apply frames_when.
    apply frames_bind; [by apply frames_upd_job|]. intros _. apply frames_del_job. }
  split; [done|]. intros j. rewrite Hf. unfold flag. cbn. rewrite lookup_insert.
  destruct (decide (t = j)) as [->|]; [by rewrite decide_True|by rewrite decide_False].
Qed.

Lemma unblock_job_inv s t w w' :
  usfstl_sched_unblock_job s t w = Ok (tt, w') →
  env w' = env w ∧ ∀ j, flag w' j = if decide (j = t) then Some false else flag w j.
Proof.
  intros H. unfold usfstl_sched_unblock_job in H. apply bind_inv in H as (jb & w1 & [Hj ->]%get_job_inv & H).
  apply bind_inv in H as ([] & w1 & [_ [= ->]]%assert_inv & H).
  apply bind_inv in H as ([] & w1 & H1 & H). unfold put_job in H1. monad_inv H1.
  assert (framed (w <| jobs := <[t:=jb <| blocked := false |>]> (jobs w) |>) w') as [He Hf].
  { revert H. apply frames_when. apply frames_bind; [by apply frames_upd_job|]. intros _. apply frames_restore_job. }
  split; [done|]. intros j. rewrite Hf. unfold flag. cbn. rewrite lookup_insert.
  destruct (decide (t = j)) as [->|]; [by rewrite decide_True|by rewrite decide_False].
Qed.

(** The state while [t] is being unblocked. *)
Lemma sems_ok_unblocking w w' t :
  env w' = env w → (∀ j, flag w' j = if decide (j = t) then Some false else flag w j) →
  sems_ok w → sems_ok_but (Some t) w'.
Proof.
  intros He Hf [H1 H2 H3 H4 H5]. split; rewrite ?He; try done.
  - intros i x Hx. rewrite Hf. case_decide; [done|by eapply H1].
  - intros i x s Hne Hx Hc. rewrite Hf. rewrite decide_False by congruence. by eapply H4.
Qed.

(** Once [t] has nothing to check, it is no exception any more. *)
Lemma sems_ok_unblocked w t x :
  sems_ok_but (Some t) w → tasks_of w !! t = Some x → check_sem x = None → sems_ok w.
Proof.
  intros [H1 H2 H3 H4 H5] Hx Hc. split; try done. intros i y s _ Hy Hcy.
  destruct (decide (i = t)) as [->|]; [by simplify_eq|]. eapply H4; try done. congruence.
Qed.

Lemma uncheck_ok w t x :
  sems_ok_but (Some t) w → tasks_of w !! t = Some x →
  (∀ s sem, sem_entry x = Some s → sems_of w !! s = Some sem → ctr sem = 0) →
  sems_ok (w <| env := (env w) <| tasks := <[t:=x <| check_sem := None |>]> (tasks_of w) |> |>).
Proof.
  intros Hok Hx Hz. eapply (sems_ok_unblocked _ t (x <| check_sem := None |>)); [|cbn; by rewrite lookup_insert_eq|done].
  eapply put_task_ok; try done. intros s sem He Hs Hpos. specialize (Hz s sem He Hs). lia.
Qed.

(** With a positive counter, the wake-up that unblocking [t] does wakes [t]. *)
Lemma unblock_wakes w w1 t x s sem b w3 :
  sems_ok w → env w1 = env w → (∀ j, flag w1 j = if decide (j = t) then Some false else flag w j) →
  tasks_of w !! t = Some x → check_sem x = Some s → sems_of w !! s = Some sem → 0 < ctr sem →
  (put_sem s (sem <| ctr := ctr sem - 1 |>);; usfstl_process_sem_wakeup s) w1 = Ok (b, w3) →
  b = true ∧ sems_ok_but (Some t) w3 ∧
  tasks_of w3 !! t = Some (x <| woken_by_sem_post := true |> <| sem_entry := None |>).
Proof.
  intros Hok He Hf Hx Hc Hs Hpos H. pose proof (sems_ok_unblocking _ _ _ He Hf Hok) as Hok1.
  destruct (so_check _ _ Hok t x s ltac:(done) Hx Hc) as [Hxe _].
  destruct (so_lists _ _ Hok _ _ Hs) as (_ & Hi & Hr & Hin).
  assert (t ∈ waiters sem) as Htin by (apply Hin; by exists x).
  apply bind_inv in H as ([] & w2 & H2 & H). unfold put_sem, upd_env in H2. monad_inv H2.
  assert (sems_ok_but (Some t) (w1 <| env := (env w1) <| sems := <[s:=sem <| ctr := ctr sem - 1 |>]> (sems_of w1) |> |>)) as Hok2.
  { eapply put_sem_ok; [done|by rewrite He|done|done|cbn; lia|]. intros _ u y Hu Hy. rewrite He in Hy.
    by eapply (so_lost _ _ Hok). }
  apply (process_wakeup_inv (Some t)) in H as (sem' & Hs' & Hok3 & _ & Hres); [|done].
  cbn in Hs'. rewrite lookup_insert_eq in Hs'. injection Hs' as <-. cbn in Hres.
  assert (∀ u, u ∈ waiters sem → flag w1 u = Some false → u = t) as Huniq.
  { intros u Hu Hfu. destruct (decide (u = t)) as [|Hne]; [done|]. rewrite Hf, decide_False in Hfu by done.
    apply Hin in Hu as (y & Hy & Hye). destruct (so_check _ _ Hok u y s ltac:(done) Hy) as [_ Hfu'].
    - apply (so_lost _ _ Hok s sem u y Hs Hpos); [apply Hin; by exists y|done].
    - congruence. }
  destruct b.
  - destruct Hres as (l1 & t' & l2 & x' & Hl & _ & Hft & Hx' & _ & Ht').
    assert (t' = t) as -> by (apply Huniq; [rewrite Hl; set_solver|exact Hft]).
    cbn in Hx'. rewrite He, Hx in Hx'. injection Hx' as <-. done.
  - destruct Hres as (Hall & _). specialize (Hall t Htin).
    change (flag (w1 <| env := _ |>) t) with (flag w1 t) in Hall. rewrite Hf, decide_True in Hall by done. done.
Qed.

Lemma task_unblock_keeps t : preserves sems_ok (usfstl_task_unblock t).
Proof.
  intros w [] w' Hok H. unfold usfstl_task_unblock in H.
  apply bind_inv in H as (x & w0 & [Hx ->]%get_task_inv & H).
  apply bind_inv in H as ([] & w1 & [He Hf]%unblock_job_inv & H).
  pose proof (sems_ok_unblocking _ _ _ He Hf Hok) as Hok1.
  destruct (check_sem x) as [s|] eqn:Hc.
  2:{ monad_inv H. eapply sems_ok_unblocked; [done|by rewrite He|done]. }
  apply bind_inv in H as (sem & w2 & [Hs ->]%get_sem_inv & H). rewrite He in Hs.
  destruct (so_check _ _ Hok t x s ltac:(done) Hx Hc) as [Hxe _].
  destruct (so_lists _ _ Hok _ _ Hs) as (_ & _ & Hr & _).
  apply bind_inv in H as ([] & w3 & H3 & H). apply upd_task_inv in H as (x' & Hx' & ->).
  destruct (Z.eqb_spec (ctr sem) 0) as [Hz|Hz]; cbn [negb when] in H3.
  - monad_inv H3. rewrite He, Hx in Hx'. injection Hx' as <-. apply uncheck_ok; [done|by rewrite He|].
    intros s' sem' He' Hs'. rewrite He in Hs'. congruence.
  - apply bind_inv in H3 as ([] & w4 & H4 & H3). apply bind_inv in H3 as (b & w5 & H5 & H3).
    apply assert_inv in H3 as [-> [= ->]].
    destruct (unblock_wakes w w1 t x s sem true w5) as (_ & Hok3 & Ht3); try done; [lia| |].
    { by erewrite bind_ok by exact H4. }
    rewrite Ht3 in Hx'. injection Hx' as <-. apply uncheck_ok; [done|done|]. done.
Qed.

(** Unblocking a task without the assertion on the wake-up. *)
Definition task_unblock_unasserted (t : Z) : M W unit :=
  x ← get_task t;
  usfstl_sched_unblock_job sched t;;
  match check_sem x with
  | None => mret tt
  | Some s =>
      sem ← get_sem s;
      when (negb (ctr sem =? 0))
        (put_sem s (sem <| ctr := ctr sem - 1 |>);; usfstl_process_sem_wakeup s;; mret tt);;
      upd_task t (λ x, x <| check_sem := None |>)
  end.

(** The assertion of [usfstl_task_unblock], that some waiter is woken when
    the semaphore to be checked has a positive counter, never fails: the
    function does the same without it. *)
Theorem unblock_assertion_holds t w :
  sems_ok w → usfstl_task_unblock t w = task_unblock_unasserted t w.
Proof.
  intros Hok. unfold usfstl_task_unblock, task_unblock_unasserted.
  apply bind_ext. intros x w0 [Hx ->]%get_task_inv. apply bind_ext. intros [] w1 [He Hf]%unblock_job_inv.
  destruct (check_sem x) as [s|] eqn:Hc; [|done].
  apply bind_ext. intros sem w2 [Hs ->]%get_sem_inv. rewrite He in Hs.
  destruct (so_lists _ _ Hok _ _ Hs) as (_ & _ & Hr & _).
  destruct (Z.eqb_spec (ctr sem) 0) as [Hz|Hz]; cbn [negb when]; [done|].
  apply bind_ext_l. apply bind_ext. intros [] w2 H2. apply bind_ext. intros b w3 H3.
  destruct (unblock_wakes w w1 t x s sem b w3) as (-> & _); try done; [lia|]. by erewrite bind_ok by exact H2.
Qed.

(** The calls that only use the scheduler. *)
Lemma frames_keep {A} (m : M W A) : frames m → preserves sems_ok m.
Proof. intros Hm w a w' Hok H. by eapply sems_ok_framed; [eapply Hm|]. Qed.

Lemma then_true_keeps {A} (m : M W A) : preserves sems_ok m → preserves sems_ok (m;; mret true).
Proof. intros Hm. apply preserves_bind; [done|]. intros. apply preserves_ret. Qed.

(** *** Ending a task *)

(** The task's context was made for it, as [usfstl_task_create] does. *)
Definition own_context (main_ctx_addr : Z) w (t : Z) : Prop :=
  ∀ x c, tasks_of w !! t = Some x → t_ctx x = Some c →
    c ≠ main_ctx_addr ∧ ∃ cx, ctxs (env w) !! c = Some cx ∧ ctx_data cx = Some t ∧ ctx_free cx = true.

Lemma current_ctx_inv main_ctx_addr w c w' : usfstl_current_ctx main_ctx_addr w = Ok (c, w') →
  jobs w' = jobs w ∧ tasks_of w' = tasks_of w ∧ sems_of w' = sems_of w ∧ g_usfstl_current_ctx (env w') = Some c ∧
  g_usfstl_destroy_caller (env w') = g_usfstl_destroy_caller (env w) ∧
  g_usfstl_destroy_ctx (env w') = g_usfstl_destroy_ctx (env w) ∧
  ∀ d, d ≠ main_ctx_addr → ctxs (env w') !! d = ctxs (env w) !! d.
Proof.
  unfold usfstl_current_ctx. intros H. erewrite bind_ok in H by done.
  destruct (g_usfstl_current_ctx (env w)) as [c0|] eqn:Hc; [injection H as <- <-; by split_and!|].
  destruct (g_usfstl_main_ctx (env w)) as [m|]; [injection H as <- <-; by split_and!|].
  injection H as <- <-. split_and!; try done. intros d Hd. cbn. by rewrite lookup_insert_ne.
Qed.

(** Freeing the context of a task frees the task. *)
Lemma free_ctx_inv main_ctx_addr w c cx t w' : usfstl_free_ctx main_ctx_addr c w = Ok (tt, w') →
  c ≠ main_ctx_addr → ctxs (env w) !! c = Some cx → ctx_data cx = Some t → ctx_free cx = true →
  jobs w' = delete t (jobs w) ∧ tasks_of w' = delete t (tasks_of w) ∧ sems_of w' = sems_of w.
Proof.
  unfold usfstl_free_ctx. intros H Hne Hc Hd Hf.
  apply bind_inv in H as (cur & w1 & (Hj & Ht & Hs & _ & _ & _ & Hx)%current_ctx_inv & H).
  apply bind_inv in H as ([] & w2 & [_ [= ->]]%assert_inv & H). erewrite bind_ok in H by done.
  apply bind_inv in H as ([] & w2 & [_ [= ->]]%assert_inv & H). erewrite bind_ok in H by done.
  unfold get_ctx in H. erewrite bind_ok in H; [|erewrite bind_ok by done; cbn; rewrite Hx by done; by rewrite Hc].
  rewrite Hd, Hf in H. cbn [when] in H. apply bind_inv in H as ([] & w2 & H2 & H). injection H as <-.
  unfold usfstl_task_ctx_free in H2. apply bind_inv in H2 as (x & w3 & [Hx3 ->]%get_task_inv & H2).
  rewrite <- Hj, <- Ht, <- Hs. destruct (t_free x); injection H2 as <-; done.
Qed.

Lemma end_ctx_inv main_ctx_addr w c cx t w' : usfstl_end_ctx main_ctx_addr c w = Ok (tt, w') →
  c ≠ main_ctx_addr → ctxs (env w) !! c = Some cx → ctx_data cx = Some t → ctx_free cx = true →
  jobs w' = delete t (jobs w) ∧ tasks_of w' = delete t (tasks_of w) ∧ sems_of w' = sems_of w.
Proof.
  unfold usfstl_end_ctx, usfstl_switch_ctx, _usfstl_switch_ctx. intros H Hne Hc Hd Hf. erewrite bind_ok in H by done.
  apply bind_inv in H as ([] & w1 & [_ [= ->]]%assert_inv & H).
  apply bind_inv in H as (cur & w1 & (Hj & Ht & Hs & Hcur & _ & _ & Hx)%current_ctx_inv & H).
  erewrite bind_ok in H by done. set (wd := w1 <| env := _ |>) in H.
  assert (g_usfstl_current_ctx (env wd) = Some cur) as Hwd by exact Hcur.
  rewrite (bind_ok _ _ wd cur wd) in H by (unfold usfstl_current_ctx; erewrite bind_ok by done; by rewrite Hwd).
  cbn [when] in H. erewrite bind_ok in H by done. apply bind_inv in H as (cx' & w3 & H3 & H).
  assert (w3 = wd) as ->.
  { unfold get_ctx in H3. erewrite bind_ok in H3 by done. apply deref_inv in H3 as (? & _ & [= _ ->]). done. }
  assert (g_usfstl_destroy_caller (env wd) = Some cur) as Hdc by done.
  erewrite bind_ok in H by done. rewrite Hdc in H. erewrite bind_ok in H by done. unfold complete_ctx_switch in H.
  erewrite bind_ok in H by done. erewrite bind_ok in H by done.
  apply bind_inv in H as ([] & w4 & H4 & H). injection H as <-.
  eapply (free_ctx_inv _ _ c cx t) in H4; [|done|cbn; by rewrite Hx|done|done].
  rewrite <- Hj, <- Ht, <- Hs. exact H4.
Qed.

(** A task that waits for nothing goes away. *)
Lemma removed_ok w w' t : sems_ok_but (Some t) w → (∀ x, tasks_of w !! t = Some x → sem_entry x = None) →
  jobs w' = delete t (jobs w) → tasks_of w' = delete t (tasks_of w) → sems_of w' = sems_of w → sems_ok w'.
Proof.
  intros [H1 H2 H3 H4 H5] Hn Hj Ht Hs. split; rewrite ?Ht, ?Hs; unfold flag; rewrite ?Hj.
  - intros i x [Hi Hx]%lookup_delete_Some. rewrite lookup_delete_ne by done. by eapply H1.
  - intros s sem Hsem. destruct (H2 _ _ Hsem) as (Hnd & Hi & Hr & Hin). split_and!; [done|done|lia|lia|].
    intros i. rewrite Hin. split; intros (x & Hx & He); exists x; (split; [|done]).
    + apply lookup_delete_Some. split; [|done]. intros ->. by rewrite (Hn _ Hx) in He.
    + by apply lookup_delete_Some in Hx as [_ ?].
  - intros i x s [_ Hx]%lookup_delete_Some. by eapply H3.
  - intros i x s _ [Hi Hx]%lookup_delete_Some Hc. rewrite lookup_delete_ne by done. eapply H4; [congruence|done|done].
  - intros s sem i x Hsem Hpos Hin [_ Hx]%lookup_delete_Some. by eapply H5.
Qed.

Lemma task_end_keeps main_ctx_addr t w w' : own_context main_ctx_addr w t → sems_ok w →
  usfstl_task_end main_ctx_addr t w = Ok (tt, w') → sems_ok w'.
Proof.
  intros Hown Hok H. unfold usfstl_task_end in H. apply bind_inv in H as (x & w1 & [Hx ->]%get_task_inv & H).
  apply bind_inv in H as (b & w1 & Hb & H). unfold usfstl_job_scheduled in Hb.
  apply bind_inv in Hb as (jb & w2 & [_ ->]%get_job_inv & [= _ <-]).
  apply bind_inv in H as ([] & w1 & [_ [= ->]]%assert_inv & H). apply bind_inv in H as ([] & w1 & Hrm & H).
  apply bind_inv in H as (c & w2 & Hc & H). apply deref_inv in Hc as (c' & Hc & [= -> ->]).
  destruct (Hown x c' Hx Hc) as (Hne & cx & Hcx & Hd & Hf).
  assert (sems_ok_but (Some t) w1 ∧ (∀ x, tasks_of w1 !! t = Some x → sem_entry x = None) ∧ ctxs (env w1) = ctxs (env w))
    as (Hok1 & Hn & Hcs).
  { destruct (sem_entry x) as [s|] eqn:He.
    - apply sem_entry_remove_inv in Hrm as (s' & sem & x' & Hs & Hx' & He' & ->). simplify_eq. split; [|split; [|done]].
      + apply unqueued_ok; [by apply sems_ok_weaken|done..].
      + intros y. cbn. rewrite lookup_insert_eq. by intros [= <-].
    - injection Hrm as <-. split; [by apply sems_ok_weaken|split; [|done]]. intros y Hy. by simplify_eq. }
  eapply end_ctx_inv in H as (Hj & Ht & Hse); [|done|by rewrite Hcs|done|done]. by eapply removed_ok.
Qed.

Lemma other_calls_keep main_ctx_addr op : (∀ t, op ≠ NEnd t) → preserves sems_ok (call main_ctx_addr op).
Proof.
  intros Hne. destruct op as [t|s|s|t|t|t|t p|t g|j st]; cbn [call].
  - apply then_true_keeps, frames_keep. unfold usfstl_task_resume.
    apply frames_bind; [apply frames_current_time|]. intros now. apply frames_bind; [by apply frames_upd_job|].
    intros _. apply frames_add_job.
  - apply then_true_keeps, sem_post_keeps.
  - apply sem_trywait_keeps.
  - apply then_true_keeps. intros w [] w' Hok H.
    apply (block_job_inv sched) in H as [He Hf]. by eapply sems_ok_blocked.
  - apply then_true_keeps, task_unblock_keeps.
  - by destruct (Hne t).
  - apply then_true_keeps, frames_keep. unfold usfstl_task_set_priority.
    apply frames_bind; [apply frames_job_scheduled|]. intros b. apply frames_bind; [apply frames_assert|].
    intros _. by apply frames_upd_job.
  - apply then_true_keeps, frames_keep. unfold usfstl_task_set_group.
    apply frames_bind; [apply frames_job_scheduled|]. intros b. apply frames_bind; [apply frames_assert|].
    intros _. apply frames_bind; [apply frames_assert|]. intros _. by apply frames_upd_job.
  - apply preserves_bind; [apply frames_keep; by apply frames_upd_job|]. intros _.
    apply then_true_keeps, frames_keep, frames_add_job.
Qed.

(** C4. No lost wake-up, as an invariant: the lists of waiters, the tasks' links
    and the [check_sem] marks agree, and a semaphore with a positive counter has
    no waiter that could run (each is blocked and will check the semaphore when
    unblocked).  Every call of the API that stays in its context keeps this:
    posting, trying to decrement, blocking, unblocking, resuming, ending another
    task (whose context was made for it), changing priority or group, adding a job;
    whichever tasks and semaphores they name, whenever they return. *)
Theorem no_lost_wakeup main_ctx_addr op w b w' :
  sems_ok w → (∀ t, op = NEnd t → own_context main_ctx_addr w t) →
  call main_ctx_addr op w = Ok (b, w') → sems_ok w'.
Proof.
  intros Hok Hown H. destruct op as [| | | | |t| | |] eqn:Eop; try by (eapply other_calls_keep; [|exact Hok|exact H]).
  cbn [call] in H. apply bind_inv in H as ([] & w1 & H & [= _ <-]). eapply task_end_keeps; [by apply Hown|done|exact H].
Qed.

(** *** What a post does *)

(** Adding an unscheduled, unblocked job returns. *)
Lemma add_job_returns w s sc j jb :
  world_wf w → scheds w !! s = Some sc → standalone sc → jobs w !! j = Some jb → entry jb = None →
  blocked jb = false → group jb < 32 → in_window (current_time sc) jb →
  ∃ w', usfstl_sched_add_job s j w = Ok (tt, w').
Proof.
  intros Hw Hs Hst Hj He Hb Hg Hwin. pose proof Hst as (_ & Hgt & _).
  destruct (decide (has_bit (blocked_groups sc) (group jb) = true ∧ allowed_job sc ≠ Some j)) as [[Hbit Hal]|Hel].
  - unfold usfstl_sched_add_job. mstep. mstep.
    rewrite (proj2 (time_ge_now _ _)) by (destruct Hwin; lia).
    erewrite bind_ok by apply assert_true. mstep. rewrite He. cbn [negb]. erewrite bind_ok by apply assert_true.
    mstep. replace (group jb <? 32) with true by lia. erewrite bind_ok by apply assert_true. mstep.
    rewrite Hb, Hbit, bool_decide_false by done. cbn [andb negb]. mstep.
    erewrite queue_append_run; [|exact Hs|cbn; by rewrite lookup_insert_eq]. eauto.
  - destruct (add_job_run None w s sc j jb) as (l1 & l2 & _ & _ & _ & Hrun); try done; [|by eauto].
    intros Hbit. destruct (decide (allowed_job sc = Some j)); [done|]. by destruct Hel.
Qed.

(** The first waiter that is not blocked. *)
Definition first_unblocked w (l : list Z) : option Z :=
  List.find (λ t, bool_decide (flag w t = Some false)) l.

Lemma find_unblocked w l1 t l2 :
  (∀ u, u ∈ l1 → flag w u = Some true) → flag w t = Some false → first_unblocked w (l1 ++ t :: l2) = Some t.
Proof.
  intros H1 Ht. unfold first_unblocked. induction l1 as [|u l1 IH]; cbn.
  - by rewrite bool_decide_true.
  - rewrite bool_decide_false by (rewrite H1 by set_solver; done). apply IH. set_solver.
Qed.

Lemma find_all_blocked w l : (∀ u, u ∈ l → flag w u = Some true) → first_unblocked w l = None.
Proof.
  intros H. unfold first_unblocked. induction l as [|u l IH]; cbn; [done|].
  rewrite bool_decide_false by (rewrite H by set_solver; done). apply IH. set_solver.
Qed.

Lemma sem_post_result w s sem w' :
  sems_ok w → sems_of w !! s = Some sem → usfstl_sem_post s w = Ok (tt, w') →
  match first_unblocked w (waiters sem) with
  | Some t => ∃ x, tasks_of w !! t = Some x ∧
      tasks_of w' !! t = Some (x <| woken_by_sem_post := true |> <| sem_entry := None |>) ∧
      ∃ sem', sems_of w' !! s = Some sem' ∧ waiters sem' = without t (waiters sem) ∧ ctr sem' = ctr sem
  | None => ∃ sem', sems_of w' !! s = Some sem' ∧ waiters sem' = waiters sem ∧ ctr sem' = u32 (ctr sem + 1) ∧
      ∀ t x, t ∈ waiters sem → tasks_of w' !! t = Some x → check_sem x = Some s
  end.
Proof.
  intros Hok Hs H. unfold usfstl_sem_post in H. apply bind_inv in H as ([] & w1 & H1 & H).
  apply (init_if_needed_inv None) in H1 as (Hok1 & Ht1 & Hf1 & sem0 & sem1 & Hs0 & Hs1 & _ & Hw1 & Hc1 & _); [|done].
  rewrite Hs in Hs0. injection Hs0 as <-.
  apply bind_inv in H as (b & w2 & H2 & H). apply (process_wakeup_inv None) in H2 as (sem2 & Hs2 & Hok2 & Hf & Hres); [|done].
  rewrite Hs1 in Hs2. injection Hs2 as <-. destruct b; cbn [negb when] in H.
  - monad_inv H. destruct Hres as (l1 & t & l2 & x & Hl & Hl1 & Hft & Hx & Hse & Ht). rewrite Hw1 in Hl.
    rewrite Hl, (find_unblocked w l1 t l2); [|intros u Hu; rewrite <- Hf1; by apply Hl1|by rewrite <- Hf1].
    exists x. rewrite <- Ht1. split_and!; [done|done|]. eexists. split; [by rewrite Hse, lookup_insert_eq|].
    cbn. by rewrite <- Hl, Hw1.
  - destruct Hres as (Hall & Hse & Hc). rewrite Hw1 in Hall, Hc.
    rewrite (find_all_blocked w) by (intros u Hu; rewrite <- Hf1; by apply Hall).
    apply upd_sem_inv in H as (sem' & Hs' & ->). rewrite Hse, Hs1 in Hs'. injection Hs' as <-.
    eexists. cbn. rewrite lookup_insert_eq. split; [done|]. cbn. rewrite Hw1, Hc1. done.
Qed.

(** *** A post returns *)

(** The task scheduler is usable. *)
Definition sched_ready w : Prop :=
  world_wf w ∧ ∃ sc, scheds w !! sched = Some sc ∧ standalone sc.

Lemma world_wf_env w e : world_wf w → world_wf (w <| env := e |>).
Proof. by intros [H1 H2 H3 H4]. Qed.

Lemma put_task_run w t x : put_task t x w = Ok (tt, w <| env := (env w) <| tasks := <[t:=x]> (tasks_of w) |> |>).
Proof. done. Qed.

Lemma upd_task_run w t x f :
  tasks_of w !! t = Some x → upd_task t f w = Ok (tt, w <| env := (env w) <| tasks := <[t:=f x]> (tasks_of w) |> |>).
Proof. intros H. unfold upd_task, get_task, get, mbind, M_bind. by rewrite H. Qed.

Lemma upd_sem_run w s x f :
  sems_of w !! s = Some x → upd_sem s f w = Ok (tt, w <| env := (env w) <| sems := <[s:=f x]> (sems_of w) |> |>).
Proof. intros H. unfold upd_sem, get_sem, get, mbind, M_bind. by rewrite H. Qed.

Lemma sem_entry_remove_run w t x s sem :
  tasks_of w !! t = Some x → sem_entry x = Some s → sems_of w !! s = Some sem →
  ∃ w', sem_entry_remove t w = Ok (tt, w').
Proof.
  intros Hx He Hs. unfold sem_entry_remove. rewrite (bind_ok _ _ _ x w).
  - rewrite He. erewrite bind_ok by done. erewrite bind_ok by (by apply upd_sem_run).
    erewrite upd_task_run by done. eauto.
  - unfold get_task, get, mbind, M_bind. by rewrite Hx.
Qed.

(** A scheduled or unscheduled job taken off its list. *)
Lemma del_job_ready w t jb sc :
  world_wf w → scheds w !! sched = Some sc → standalone sc → jobs w !! t = Some jb →
  ∃ w1 sc1, usfstl_sched_del_job t w = Ok (tt, w1) ∧ world_wf w1 ∧ scheds w1 !! sched = Some sc1 ∧
    standalone sc1 ∧ jobs w1 !! t = Some (jb <| entry := None |>).
Proof.
  intros Hw Hs Hst Hj. rewrite (del_job_run _ _ _ Hj (ww_links _ _ Hw)).
  destruct (entry jb) as [[s q]|] eqn:He.
  - destruct (proj2 (ww_links _ _ Hw) _ _ _ _ Hj He) as [sc' Hs']. rewrite Hs'.
    exists (w_unlink w s sc' q t jb). destruct (decide (s = sched)) as [->|Hne].
    + rewrite Hs in Hs'. injection Hs' as <-. eexists. split_and!; [done|by apply unlink_wf|cbn; by rewrite lookup_insert_eq|by destruct q|].
      cbn. by rewrite lookup_insert_eq.
    + exists sc. split_and!; [done|by apply unlink_wf|cbn; by rewrite lookup_insert_ne|done|]. cbn. by rewrite lookup_insert_eq.
  - exists w, sc. split_and!; try done. rewrite Hj. f_equal. destruct jb; cbn in He. by subst.
Qed.

Lemma wakeup_loop_returns s sem l : ∀ w,
  sched_ready w → sems_ok w → sems_of w !! s = Some sem → (∀ t, t ∈ l → t ∈ waiters sem) →
  (∀ t jb, t ∈ l → jobs w !! t = Some jb → group jb < 32) →
  ∃ b w', wakeup_loop s l w = Ok (b, w').
Proof.
  induction l as [|t l IH]; intros w [Hw (sc & Hsc & Hst)] Hok Hs Hl Hg; [by exists false, w|].
  destruct (so_lists _ _ Hok _ _ Hs) as (_ & _ & _ & Hin).
  destruct (proj1 (Hin t)) as (x & Hx & He); [apply Hl; by left|].
  destruct (so_jobs _ _ Hok _ _ Hx) as [b Hb]. unfold flag in Hb.
  destruct (jobs w !! t) as [jb|] eqn:Hj; [|done]. cbn in Hb. injection Hb as Hb.
  cbn [wakeup_loop]. mstep. destruct (blocked jb) eqn:Hblk.
  - erewrite bind_ok by (by apply upd_task_run).
    destruct (IH (w <| env := (env w) <| tasks := <[t:=x <| check_sem := Some s |>]> (tasks_of w) |> |>)) as (b' & w' & Hrun).
    + split; [by apply world_wf_env|by exists sc].
    + eapply put_task_ok; try done; cbn.
      * intros s' _ [= <-]. split; [done|]. unfold flag. rewrite Hj. cbn. by rewrite Hblk.
      * intros s' sem' He' Hs' _. congruence.
    + done.
    + intros u Hu. apply Hl. by right.
    + intros u jb' Hu. apply Hg. by right.
    + eauto.
  - destruct (del_job_ready w t jb sc Hw Hsc Hst Hj) as (w1 & sc1 & Hdel & Hw1 & Hsc1 & Hst1 & Hj1).
    pose proof (frames_del_job _ _ _ _ Hdel) as Hf1.
    destruct (ww_order _ _ Hw1 _ _ Hsc1) as [Hct _]. destruct (ww_flags _ _ Hw1 _ _ Hj1) as (_ & Hg0 & _ & Hpb).
    erewrite bind_ok by exact Hdel.
    erewrite bind_ok by (eapply current_time_run; [done|apply Hst1]).
    erewrite bind_ok by (by apply upd_job_run).
    erewrite bind_ok by (apply upd_task_run; cbn; by rewrite (fr_env _ _ Hf1)).
    set (w2 := w1 <| jobs := _ |>). set (w3 := w2 <| env := _ |>).
    assert (world_wf w3) as Hw3 by (apply world_wf_env; eapply put_unlinked_wf; done).
    destruct (add_job_returns w3 sched sc1 t
      (jb <| entry := None |> <| start := current_time sc1 |> <| name := String "!"%char (name jb) |>)) as (w4 & Hadd); try done.
    { cbn. by rewrite lookup_insert_eq. }
    { cbn. apply (Hg t jb); [by left|done]. }
    { split; cbn; [done|]. rewrite off_self. lia. }
    pose proof (frames_add_job _ _ _ _ _ Hadd) as Hf4. erewrite bind_ok by exact Hadd.
    destruct (sem_entry_remove_run w4 t (x <| woken_by_sem_post := true |>) s sem) as (w5 & Hrem).
    { rewrite (fr_env _ _ Hf4). cbn. by rewrite lookup_insert_eq. }
    { done. }
    { rewrite (fr_env _ _ Hf4). cbn. by rewrite (fr_env _ _ Hf1). }
    erewrite bind_ok by exact Hrem. by exists true, w5.
Qed.

Lemma sem_post_returns w s sem :
  sched_ready w → sems_ok w → sems_of w !! s = Some sem →
  (∀ t jb, t ∈ waiters sem → jobs w !! t = Some jb → group jb < 32) →
  ∃ w', usfstl_sem_post s w = Ok (tt, w').
Proof.
  intros [Hw (sc & Hsc & Hst)] Hok Hs Hg. unfold usfstl_sem_post.
  assert (∃ w1, usfstl_sem_init_if_needed s w = Ok (tt, w1) ∧ jobs w1 = jobs w ∧ scheds w1 = scheds w) as (w1 & Hi & Hjs & Hss).
  { unfold usfstl_sem_init_if_needed, get_sem, get, mbind, M_bind. rewrite Hs. cbn. destruct (s_init sem); cbn; eauto. }
  pose proof (init_if_needed_inv None w s w1 Hok Hi) as (Hok1 & Ht1 & Hf1 & sem0 & sem1 & Hs0 & Hs1 & _ & Hw1 & _).
  rewrite Hs in Hs0. injection Hs0 as <-. erewrite bind_ok by exact Hi.
  assert (sched_ready w1) as Hr1.
  { split; [|exists sc; by rewrite Hss]. destruct w as [js ss e], w1 as [js1 ss1 e1]. cbn in *. subst.
    by destruct Hw as [A B C D]; split. }
  destruct (wakeup_loop_returns s sem1 (waiters sem1) w1) as (b & w2 & Hrun); try done.
  { intros t jb. rewrite Hw1, Hjs. apply Hg. }
  assert (usfstl_process_sem_wakeup s w1 = Ok (b, w2)) as Hproc.
  { unfold usfstl_process_sem_wakeup, get_sem, get. unfold mbind at 1 2, M_bind at 1 2. rewrite Hs1. exact Hrun. }
  erewrite bind_ok by exact Hproc. destruct b; cbn [negb when]; [by eexists|].
  apply (process_wakeup_inv None) in Hproc as (sem2 & Hs2 & _ & _ & (_ & Hse & _)); [|done].
  rewrite upd_sem_run with (x := sem1); [by eexists|]. by rewrite Hse.
Qed.

(** C33. [usfstl_sem_post] always returns, and hands the semaphore to the first waiter in the list
    that is not blocked, if there is one: exactly that task leaves the list and
    is marked woken, and the counter stays; otherwise the counter goes up by
    one, the list stays, and every waiter will check the semaphore when it is
    unblocked. *)
Theorem sem_post_correct w s sem :
  sched_ready w → sems_ok w → sems_of w !! s = Some sem →
  (∀ t jb, t ∈ waiters sem → jobs w !! t = Some jb → group jb < 32) →
  ∃ w', usfstl_sem_post s w = Ok (tt, w') ∧
  match first_unblocked w (waiters sem) with
  | Some t => ∃ x, tasks_of w !! t = Some x ∧
      tasks_of w' !! t = Some (x <| woken_by_sem_post := true |> <| sem_entry := None |>) ∧
      ∃ sem', sems_of w' !! s = Some sem' ∧ waiters sem' = without t (waiters sem) ∧ ctr sem' = ctr sem
  | None => ∃ sem', sems_of w' !! s = Some sem' ∧ waiters sem' = waiters sem ∧ ctr sem' = u32 (ctr sem + 1) ∧
      ∀ t x, t ∈ waiters sem → tasks_of w' !! t = Some x → check_sem x = Some s
  end.
Proof.
  intros Hr Hok Hs Hg. destruct (sem_post_returns w s sem Hr Hok Hs Hg) as [w' Hrun].
  exists w'. split; [done|]. by apply sem_post_result.
Qed.

(** *** Waiting *)

(** Higher priorities first. *)
Definition prio_sorted (js : gmap Z (usfstl_job job_fn)) (l : list Z) : Prop :=
  StronglySorted (λ a b, priority (job_at js b) ≤ priority (job_at js a)) l.

Lemma insert_waiter_spec js prio t l :
  (∀ u, u ∈ l → is_Some (js !! u)) → prio_sorted js l →
  ∃ l1 l2, l = l1 ++ l2 ∧ insert_waiter js prio t l = Some (l1 ++ t :: l2) ∧
    (∀ u, u ∈ l1 → prio ≤ priority (job_at js u)) ∧ (∀ u, u ∈ l2 → priority (job_at js u) < prio).
Proof.
  intros Hl Hs. induction Hs as [|u l Hs IH Hu]; cbn.
  { exists [], []. split_and!; [done|done|set_solver|set_solver]. }
  destruct (Hl u) as [jb Hj]; [by left|]. rewrite Hj. cbn.
  pose proof (job_at_some _ _ _ Hj) as Hat. rewrite Forall_forall in Hu.
  destruct (Z.ltb_spec (priority jb) prio) as [Hlt|Hge].
  - exists [], (u :: l). split_and!; [done|done|set_solver|]. intros v [->|Hv]%elem_of_cons; [by rewrite Hat|].
    specialize (Hu v Hv). rewrite Hat in Hu. lia.
  - destruct IH as (l1 & l2 & -> & Hins & H1 & H2); [intros v Hv; apply Hl; by right|].
    exists (u :: l1), l2. rewrite Hins. split_and!; [done|done| |done].
    intros v [->|Hv]%elem_of_cons; [by rewrite Hat|by apply H1].
Qed.

Lemma prio_sorted_insert js t l1 l2 :
  prio_sorted js (l1 ++ l2) → (∀ u, u ∈ l1 → priority (job_at js t) ≤ priority (job_at js u)) →
  (∀ u, u ∈ l2 → priority (job_at js u) < priority (job_at js t)) → prio_sorted js (l1 ++ t :: l2).
Proof.
  intros Hs H1 H2. induction l1 as [|u l1 IH]; cbn in *.
  - constructor; [done|]. apply Forall_forall. intros v Hv. specialize (H2 v Hv). lia.
  - apply StronglySorted_inv in Hs as [Hs Hu]. constructor; [apply IH; [done|set_solver]|].
    rewrite Forall_forall in Hu |- *. intros v [Hv|[->|Hv]%elem_of_cons]%elem_of_app; [apply Hu|apply H1|apply Hu]; set_solver.
Qed.

(** Queueing a task keeps the invariant. *)
Lemma enqueue_ok w s sem t x l1 l2 :
  sems_ok w → sems_of w !! s = Some sem → s_init sem = true → ctr sem = 0 → waiters sem = l1 ++ l2 →
  tasks_of w !! t = Some x → sem_entry x = None → check_sem x = None →
  sems_ok (w <| env := (env w) <| sems := <[s:=sem <| waiters := l1 ++ t :: l2 |>]> (sems_of w) |>
                                <| tasks := <[t:=x <| sem_entry := Some s |>]> (tasks_of w) |> |>).
Proof.
  intros [H1 H2 H3 H4 H5] Hs Hi Hz Hw Hx He Hc.
  assert (∀ s' sem', sems_of w !! s' = Some sem' → t ∉ waiters sem') as Hnin.
  { intros s' sem' Hs' Hin. apply (H2 _ _ Hs') in Hin as (x' & Hx' & He'). congruence. }
  split; cbn.
  - intros i y Hy. apply lookup_insert_Some in Hy as [[<- <-]|[Hne Hy]]; by eapply H1.
  - intros s' sem' Hs'. apply lookup_insert_Some in Hs' as [[<- <-]|[Hne Hs']].
    + destruct (H2 _ _ Hs) as (Hnd & _ & Hr & Hin). pose proof (Hnin _ _ Hs) as Ht. rewrite Hw in Hnd, Hin, Ht.
      split_and!; cbn; [|by rewrite Hi|lia|lia|].
      * assert (l1 ++ t :: l2 ≡ₚ t :: (l1 ++ l2)) as -> by (clear; solve_Permutation). by constructor.
      * intros i. rewrite lookup_insert. case_decide as Hti; [subst i; set_solver|].
        rewrite <- Hin. clear -Hti. set_solver.
    + destruct (H2 _ _ Hs') as (Hnd & Hi' & Hr & Hin). pose proof (Hnin _ _ Hs') as Ht.
      split_and!; [done|done|lia|lia|]. intros i. rewrite Hin, lookup_insert. case_decide; [|done]. subst.
      split; [|naive_solver congruence]. intros (y & Hy & Hye). congruence.
  - intros i y s' Hy He'. rewrite lookup_insert_is_Some'.
    apply lookup_insert_Some in Hy as [[<- <-]|[Hne Hy]]; [cbn in He'; left; congruence|right; by eapply H3].
  - intros i y s' Hex Hy Hcs. apply lookup_insert_Some in Hy as [[<- <-]|[Hne Hy]]; [|by eapply H4].
    cbn in Hcs. congruence.
  - intros s' sem' i y Hs' Hpos Hin Hy. apply lookup_insert_Some in Hs' as [[<- <-]|[Hne Hs']]; [cbn in Hpos; lia|].
    apply lookup_insert_Some in Hy as [[<- <-]|[Hit Hy]]; [by destruct (Hnin _ _ Hs' Hin)|by eapply H5].
Qed.

Lemma get_sem_run w s sem : sems_of w !! s = Some sem → get_sem s w = Ok (sem, w).
Proof. intros H. unfold get_sem, get, mbind, M_bind. by rewrite H. Qed.

Lemma get_task_run w t x : tasks_of w !! t = Some x → get_task t w = Ok (x, w).
Proof. intros H. unfold get_task, get, mbind, M_bind. by rewrite H. Qed.

Lemma init_if_needed_run w s sem :
  sems_ok w → sems_of w !! s = Some sem →
  ∃ w1 sem1, usfstl_sem_init_if_needed s w = Ok (tt, w1) ∧ sems_ok w1 ∧ tasks_of w1 = tasks_of w ∧
    jobs w1 = jobs w ∧ sems_of w1 !! s = Some sem1 ∧ s_init sem1 = true ∧ waiters sem1 = waiters sem ∧ ctr sem1 = ctr sem.
Proof.
  intros Hok Hs.
  assert (∃ w1, usfstl_sem_init_if_needed s w = Ok (tt, w1) ∧ jobs w1 = jobs w) as (w1 & Hi & Hjs).
  { unfold usfstl_sem_init_if_needed. erewrite bind_ok by (by apply get_sem_run). destruct (s_init sem); cbn; eauto. }
  pose proof (init_if_needed_inv None w s w1 Hok Hi) as (Hok1 & Ht1 & _ & sem0 & sem1 & Hs0 & Hs1 & H1 & H2 & H3 & _).
  rewrite Hs in Hs0. injection Hs0 as <-. by exists w1, sem1.
Qed.

(** Setting [_name] on first use. *)
Lemma sem_name_run w s sem n :
  sems_ok w → sems_of w !! s = Some sem → s_init sem = true →
  ∃ w1 sem1, when (bool_decide (_name sem = EmptyString)) (put_sem s (sem <| _name := n |>)) w = Ok (tt, w1) ∧
    sems_ok w1 ∧ tasks_of w1 = tasks_of w ∧ jobs w1 = jobs w ∧ sems_of w1 !! s = Some sem1 ∧
    s_init sem1 = true ∧ waiters sem1 = waiters sem ∧ ctr sem1 = ctr sem.
Proof.
  intros Hok Hs Hi. case_bool_decide; cbn [when]; [|by exists w, sem].
  destruct (so_lists _ _ Hok _ _ Hs) as (_ & _ & Hr & _).
  eexists _, (sem <| _name := n |>). split; [done|]. split_and!; try done; [|cbn; by rewrite lookup_insert_eq].
  eapply put_sem_ok; try done; [cbn; congruence|]. intros Hpos t x Hin Hx. by eapply (so_lost _ _ Hok).
Qed.

Lemma prio_sorted_ext js js' l :
  (∀ u, u ∈ l → priority (job_at js' u) = priority (job_at js u)) → prio_sorted js l → prio_sorted js' l.
Proof.
  intros Hsame Hs. unfold prio_sorted in *. induction Hs as [|u l Hs IH Hu]; constructor.
  - apply IH. intros v Hv. apply Hsame. by right.
  - rewrite Forall_forall in Hu |- *. intros v Hv. rewrite !Hsame by set_solver. by apply Hu.
Qed.

(** The part of [sem_timedwait_start] that queues the task [t]. *)
Definition queue_waiter (t s : Z) (n : string) : M W (option bool) :=
  upd_job t (λ jb, jb <| name := n |>);;
  mret tt;;
  jb ← get_job t;
  w ← get;
  sem ← get_sem s;
  l ← deref (insert_waiter (jobs w) (priority jb) t (waiters sem));
  put_sem s (sem <| waiters := l |>);;
  upd_task t (λ x, x <| sem_entry := Some s |>);;
  mret None.

Lemma queue_waiter_run w t x jb s sem n :
  sems_ok w → tasks_of w !! t = Some x → jobs w !! t = Some jb → sem_entry x = None → check_sem x = None →
  sems_of w !! s = Some sem → s_init sem = true → ctr sem = 0 → prio_sorted (jobs w) (waiters sem) →
  ∃ w' l1 l2, queue_waiter t s n w = Ok (None, w') ∧ sems_ok w' ∧ waiters sem = l1 ++ l2 ∧
    sems_of w' !! s = Some (sem <| waiters := l1 ++ t :: l2 |>) ∧ prio_sorted (jobs w') (l1 ++ t :: l2) ∧
    (∀ u, u ∈ l1 → priority jb ≤ priority (job_at (jobs w) u)) ∧
    (∀ u, u ∈ l2 → priority (job_at (jobs w) u) < priority jb).
Proof.
  intros Hok Hx Hj He Hc Hs Hi Hz Hsort. destruct (so_lists _ _ Hok _ _ Hs) as (_ & _ & _ & Hin).
  set (js := <[t:=jb <| name := n |>]> (jobs w)).
  assert (∀ u, priority (job_at js u) = priority (job_at (jobs w) u)) as Hat.
  { intros u. subst js. unfold job_at. rewrite lookup_insert. case_decide; [|done]. subst. by rewrite Hj. }
  assert (∀ u, u ∈ waiters sem → is_Some (js !! u)) as Hdom.
  { intros u (y & Hy & _)%Hin. destruct (so_jobs _ _ Hok _ _ Hy) as [b Hb]. unfold flag in Hb.
    subst js. rewrite lookup_insert. case_decide; [by eexists|]. by destruct (jobs w !! u). }
  assert (prio_sorted js (waiters sem)) as Hsort' by (eapply prio_sorted_ext; [|done]; done).
  destruct (insert_waiter_spec js (priority jb) t (waiters sem) Hdom Hsort') as (l1 & l2 & Hl & Hins & H1 & H2).
  eexists _, l1, l2. split_and!.
  - unfold queue_waiter. erewrite bind_ok by (by apply upd_job_run). erewrite bind_ok by done.
    erewrite bind_ok by (apply get_job_run; cbn; by rewrite lookup_insert_eq). erewrite bind_ok by done.
    erewrite bind_ok by (by apply get_sem_run).
    change (insert_waiter _ _ _ _) with (insert_waiter js (priority jb) t (waiters sem)). rewrite Hins. erewrite bind_ok by done. erewrite bind_ok by done.
    erewrite bind_ok by (by apply upd_task_run). done.
  - eapply (enqueue_ok (w <| jobs := js |>) s sem t x l1 l2); try done.
    eapply sems_ok_framed; [|exact Hok]. by apply (put_job_framed w t jb (jb <| name := n |>) tt).
  - done.
  - cbn. by rewrite lookup_insert_eq.
  - cbn. fold js. assert (job_at js t = jb <| name := n |>) as Ht by (subst js; by rewrite job_at_insert).
    apply prio_sorted_insert; [by rewrite <- Hl|by rewrite Ht|by rewrite Ht].
  - intros u Hu. rewrite <- Hat. by apply H1.
  - intros u Hu. rewrite <- Hat. by apply H2.
Qed.

(** Waiting for a semaphore without timeout, up to the suspension, always
    returns: with a positive counter it takes one and goes on; otherwise the
    calling task is put in the list of waiters after all those of at least its
    priority and before those of lower priority, so the list stays sorted and
    first-come first-served within a priority; and the invariant is kept. *)
Theorem sem_wait_correct main_ctx_addr main_task_addr w t x jb s sem :
  sems_ok w → usfstl_task_current main_ctx_addr main_task_addr w = Ok (Some t, w) →
  tasks_of w !! t = Some x → jobs w !! t = Some jb →
  sem_entry x = None → check_sem x = None → woken_by_sem_post x = false →
  sems_of w !! s = Some sem → prio_sorted (jobs w) (waiters sem) →
  ∃ r w' sem', sem_timedwait_start main_ctx_addr main_task_addr s NO_TIMEOUT w = Ok (r, w') ∧ sems_ok w' ∧
    sems_of w' !! s = Some sem' ∧
    if ctr sem =? 0 then
      r = None ∧ ctr sem' = 0 ∧ prio_sorted (jobs w') (waiters sem') ∧
      ∃ l1 l2, waiters sem = l1 ++ l2 ∧ waiters sem' = l1 ++ t :: l2 ∧
        (∀ u, u ∈ l1 → priority jb ≤ priority (job_at (jobs w) u)) ∧
        (∀ u, u ∈ l2 → priority (job_at (jobs w) u) < priority jb)
    else r = Some true ∧ ctr sem' = ctr sem - 1 ∧ waiters sem' = waiters sem.
Proof.
  intros Hok Hcur Hx Hj He Hc Hwk Hs Hsort. unfold sem_timedwait_start.
  erewrite bind_ok by exact Hcur. cbv beta iota. erewrite bind_ok by (by apply get_task_run). rewrite Hwk.
  erewrite bind_ok by done.
  destruct (init_if_needed_run w s sem Hok Hs) as (w1 & sem1 & Hrun1 & Hok1 & Ht1 & Hj1 & Hs1 & Hi1 & Hw1 & Hc1).
  erewrite bind_ok by exact Hrun1. erewrite bind_ok by (by apply get_sem_run).
  destruct (sem_name_run w1 s sem1 (String.substring 0 50 (String "!"%char (s_name sem1))) Hok1 Hs1 Hi1)
    as (w2 & sem2 & Hrun2 & Hok2 & Ht2 & Hj2 & Hs2 & Hi2 & Hw2 & Hc2).
  erewrite bind_ok by exact Hrun2. erewrite bind_ok by (by apply get_sem_run). rewrite Hc2, Hc1.
  destruct (so_lists _ _ Hok2 _ _ Hs2) as (_ & _ & Hr2 & Hin2).
  destruct (Z.eqb_spec (ctr sem) 0) as [Hz|Hz]; cbn [negb].
  - rewrite Z.eqb_refl. cbn [negb when].
    destruct (queue_waiter_run w2 t x jb s sem2 (String.substring 1 50 (_name sem2)))
      as (w' & l1 & l2 & Hrun & Hok' & Hl & Hs' & Hp & H1 & H2); try congruence.
    exists None, w', (sem2 <| waiters := l1 ++ t :: l2 |>). split; [exact Hrun|].
    rewrite Hj2, Hj1 in H1, H2. split_and!; [done|done|done|cbn; congruence|done|].
    exists l1, l2. split_and!; [congruence|done|done|done].
  - erewrite bind_ok by done. exists (Some true). eexists. exists (sem2 <| ctr := ctr sem - 1 |>).
    split; [done|]. split_and!; try done; [|cbn; by rewrite lookup_insert_eq|cbn; congruence].
    eapply put_sem_ok; try done; [cbn; congruence|cbn; lia|]. intros _ u y Hu Hy. eapply (so_lost _ _ Hok2); try done. lia.
Qed.
End invariant.

(** ** A concrete state and the witnesses

    The main task 3 runs; 20 and 21 wait for semaphore 50, 21 being blocked; 22
    waits for semaphore 51, which was posted while 22 was blocked. *)
Section demo.
#[local] Existing Instance env0.

Definition demo_task_job (t prio : Z) (b : bool) : usfstl_job job_fn :=
  Job 0 prio 0 EmptyString t (Some usfstl_task_job_fn_tag) None b false.
Definition demo_waiting (c : Z) (s check : option Z) : usfstl_task :=
  Task (Some c) (Some PReturn) false 0 s check false.

Definition demo_tasks : W :=
  World (list_to_map [(3, demo_task_job 3 4 false); (20, demo_task_job 20 5 false);
                      (21, demo_task_job 21 9 true); (22, demo_task_job 22 0 true)])
        {[1 := USFSTL_SCHEDULER EmptyString 100]}
        (TEnv (Some 2) (Some 2) None None
           (list_to_map [(2, Ctx EmptyString (Some 3) false Running);
                         (30, Ctx EmptyString (Some 20) true (Suspended (CSemWait 50 PReturn)));
                         (31, Ctx EmptyString (Some 21) true (Suspended (CSemWait 50 PReturn)));
                         (32, Ctx EmptyString (Some 22) true (Suspended (CSemWait 51 PReturn)))])
           [32; 31; 30]
           (list_to_map [(3, demo_waiting 2 None None); (20, demo_waiting 30 (Some 50) None);
                         (21, demo_waiting 31 (Some 50) None); (22, demo_waiting 32 (Some 51) (Some 51))])
           (list_to_map [(50, Sem EmptyString true [21; 20] 0 EmptyString); (51, Sem EmptyString true [22] 1 EmptyString)])
           None true false false false false []).

Ltac lookups :=
  repeat match goal with
  | H : <[_:=_]> _ !! _ = Some _ |- _ => apply lookup_insert_Some in H as [[? ?]|[? H]]; subst
  | H : ∅ !! _ = Some _ |- _ => by rewrite lookup_empty in H
  end.

Lemma demo_tasks_ok : sems_ok demo_tasks.
Proof.
  split; unfold demo_tasks; cbn.
  - intros t x Hx. lookups; by eexists.
  - intros s sem Hs. lookups; cbn; (split_and!; [apply (bool_decide_unpack _); by vm_compute|done|lia|lia|]);
      intros t; (split; [rewrite !elem_of_cons, elem_of_nil; intros; naive_solver|]);
      intros (x & Hx & He); lookups; cbn in He; try discriminate; set_solver.
  - intros t x s Hx He. lookups; cbn in He; simplify_eq; by eexists.
  - intros t x s _ Hx Hc. lookups; cbn in Hc; simplify_eq; done.
  - intros s sem t x Hs Hpos Hin Hx. lookups; cbn in *; try lia; set_solver.
Qed.

Lemma demo_tasks_ready : sched_ready demo_tasks.
Proof.
  split.
  - apply fresh_wf; unfold demo_tasks; cbn; repeat apply map_Forall_insert_2;
      try apply map_Forall_singleton; try apply map_Forall_empty; cbn; split_and!; (done || lia).
  - eexists. split; [reflexivity|done].
Qed.

Lemma unblock_assertion_holds_witness :
  usfstl_task_unblock 22 demo_tasks = task_unblock_unasserted 22 demo_tasks ∧
  ∃ w', task_unblock_unasserted 22 demo_tasks = Ok (tt, w').
Proof.
  split; [apply (unblock_assertion_holds 22 demo_tasks demo_tasks_ok)|].
  destruct (task_unblock_unasserted 22 demo_tasks) as [[[] w']|f] eqn:H; [by eexists|vm_compute in H; discriminate].
Defined.

Lemma no_lost_wakeup_witness :
  ∃ b w', call 2 (NPost 50) demo_tasks = Ok (b, w') ∧ sems_ok w'.
Proof.
  destruct (call 2 (NPost 50) demo_tasks) as [[b w']|f] eqn:H; [|vm_compute in H; discriminate].
  exists b, w'. split; [done|].
  apply (no_lost_wakeup 2 (NPost 50) demo_tasks b w' demo_tasks_ok); [discriminate|exact H].
Defined.

Lemma sem_post_correct_witness : ∃ w' sem', usfstl_sem_post 50 demo_tasks = Ok (tt, w') ∧
  sems (env w') !! 50 = Some sem' ∧ waiters sem' = [21].
Proof.
  destruct (sem_post_correct demo_tasks 50 (Sem EmptyString true [21; 20] 0 EmptyString))
    as (w' & Hrun & x & _ & _ & sem' & Hs & Hw & _).
  - exact demo_tasks_ready.
  - exact demo_tasks_ok.
  - done.
  - intros t jb Hin Hj. unfold demo_tasks in Hj. cbn in Hj. lookups; done.
  - exists w', sem'. done.
Defined.

Lemma sem_wait_correct_witness : ∃ w' sem', sem_timedwait_start 2 3 50 NO_TIMEOUT demo_tasks = Ok (None, w') ∧
  sems (env w') !! 50 = Some sem' ∧ waiters sem' = [21; 20; 3].
Proof.
  destruct (sem_wait_correct 2 3 demo_tasks 3 (demo_waiting 2 None None) (demo_task_job 3 4 false) 50
    (Sem EmptyString true [21; 20] 0 EmptyString)) as (r & w' & sem' & Hrun & _ & Hs & -> & _ & _ & l1 & l2 & Hl & Hl' & H1 & H2).
  - exact demo_tasks_ok.
  - done.
  - done.
  - done.
  - done.
  - done.
  - done.
  - done.
  - repeat constructor; vm_compute; done.
  - exists w', sem'. split; [exact Hrun|]. split; [exact Hs|]. rewrite Hl'. vm_compute in Hrun. injection Hrun as <-.
    vm_compute in Hs. injection Hs as <-. exact (eq_sym Hl').
Defined.
End demo.
