(* ===== verification/Util.v ===== *)
(** * Utilities: random numbers (src/rand.c), string routines (src/string.c),
    tracked allocations (src/alloc.c) *)
From S2P Require Import Prelude.

(** ** src/rand.c *)
Module Rand.

(** [seed]: the state, an [int]. *)
Record state := State { seed : Z }.
#[export] Instance state_settable : Settable state := λ r, State (seed r).

Definition initial : state := State 2.

Definition usfstl_rand : M state Z :=
  s ← gets seed;
  let hi := Z.quot s 127773 in
  let lo := Z.rem s 127773 in
  a ← int_arith (16807 * lo);
  b ← int_arith (2836 * hi);
  x ← int_arith (a - b);
  x ← (if x <? 0 then int_arith (x + 0x7fffffff) else mret x);
  modify (λ st, st <| seed := x |>);;
  int_arith (x - 1).

(** [%] and [+] are unsigned here: the left operand is a [uint32_t]. *)
Definition usfstl_rand_range (min max : Z) : M state Z :=
  usfstl_assert (min <? max);;
  r ← usfstl_rand;
  d ← int_arith (max - min);
  d ← int_arith (d + 1);
  mret (s32 (u32 (u32 r mod u32 d + u32 min))).

Lemma minstd_nonzero s : 1 ≤ s ≤ 2^31 - 2 → (7^5 * s) mod (2^31 - 1) ≠ 0.
Proof.
  intros Hs Hm. apply Z.mod_divide in Hm; [|lia]. apply Z.gauss in Hm; [|by vm_compute].
  apply Z.divide_pos_le in Hm; lia.
Qed.

(** The quotient and remainder by 127773 do not overflow, and their combination
    is congruent to the product. *)
Lemma schrage q r x :
  0 ≤ q → 0 ≤ r < 127773 → 127773 * q + r ≤ 2^31 - 2 → x = 16807 * r - 2836 * q →
  (7^5 * (127773 * q + r)) mod (2^31 - 1) = (if x <? 0 then x + (2^31 - 1) else x) ∧ -(2^31 - 1) < x < 2^31 - 1.
Proof.
  intros Hq Hr Hb Hx. assert (q ≤ 16807) by lia. split; [|lia].
  replace (7^5 * (127773 * q + r)) with (x + q * (2^31 - 1)) by lia.
  rewrite Z_mod_plus_full. destruct (Z.ltb_spec x 0).
  - rewrite <- (Z_mod_plus_full x 1 (2^31 - 1)). apply Z.mod_small. lia.
  - apply Z.mod_small. lia.
Qed.

Lemma rand_run s :
  1 ≤ s ≤ 2^31 - 2 →
  let s' := (7^5 * s) mod (2^31 - 1) in
  usfstl_rand (State s) = Ok (s' - 1, State s') ∧ 1 ≤ s' ≤ 2^31 - 2.
Proof.
  intros Hs s'. pose proof (minstd_nonzero s Hs) as Hnz. fold s' in Hnz.
  assert (0 ≤ s' < 2^31 - 1) as Hs' by (subst s'; apply Z.mod_pos_bound; lia). split; [|lia].
  pose proof (Z.quot_pos s 127773 ltac:(lia) ltac:(lia)) as Hq.
  pose proof (Z.rem_bound_pos s 127773 ltac:(lia) ltac:(lia)) as Hr.
  pose proof (Z.quot_rem' s 127773) as Hqr.
  destruct (schrage (Z.quot s 127773) (Z.rem s 127773) (16807 * Z.rem s 127773 - 2836 * Z.quot s 127773)) as [Hm Hx];
    [done|done|lia|done|].
  rewrite <- Hqr in Hm. fold s' in Hm. unfold usfstl_rand.
  erewrite bind_ok by done. cbn [seed].
  assert (Z.quot s 127773 ≤ 16807) by lia.
  do 3 (erewrite bind_ok by (apply int_arith_ok; lia)).
  destruct (Z.ltb_spec (16807 * Z.rem s 127773 - 2836 * Z.quot s 127773) 0).
  - erewrite bind_ok by (apply int_arith_ok; lia). erewrite bind_ok by done.
    rewrite int_arith_ok by lia. cbn. by rewrite Hm.
  - erewrite bind_ok by done. erewrite bind_ok by done. rewrite int_arith_ok by lia. cbn. by rewrite Hm.
Qed.

(** [usfstl_rand] is the minimal standard generator: from a seed in
    [1, 2^31-2] no intermediate [int] overflows, the new seed is exactly
    7^5 * seed mod (2^31 - 1), which is in [1, 2^31-2] again, and the result is
    the new seed minus one. *)
Theorem rand_minstd s :
  1 ≤ s ≤ 2^31 - 2 →
  let s' := (7^5 * s) mod (2^31 - 1) in
  usfstl_rand (State s) = Ok (s' - 1, State s') ∧ 1 ≤ s' ≤ 2^31 - 2.
Proof. apply rand_run. Qed.

Lemma rand_minstd_witness : usfstl_rand initial = Ok (33613, State 33614).
Proof. exact (proj1 (rand_minstd 2 ltac:(lia))). Defined.

(** [usfstl_rand_range] returns a value between [min] and [max], both
    included, for every non-empty range whose size fits an [int], and refuses an
    empty range. *)
Theorem rand_range_in_range s min max :
  1 ≤ s ≤ 2^31 - 2 → -2^31 ≤ min < 2^31 → -2^31 ≤ max < 2^31 → max - min + 1 < 2^31 →
  if min <? max
  then ∃ r s', usfstl_rand_range min max (State s) = Ok (r, State s') ∧ min ≤ r ≤ max ∧ 1 ≤ s' ≤ 2^31 - 2
  else usfstl_rand_range min max (State s) = Err Assertion.
Proof.
  intros Hs Hmin Hmax Hd. unfold usfstl_rand_range.
  destruct (Z.ltb_spec min max) as [Hlt|]; [|done].
  destruct (rand_run s Hs) as [Hrun Hs']. set (s' := (7^5 * s) mod (2^31 - 1)) in *.
  do 2 eexists. split; [|split; [|exact Hs']].
  - erewrite bind_ok by done. erewrite bind_ok by exact Hrun.
    do 2 (erewrite bind_ok by (apply int_arith_ok; lia)). done.
  - assert (u32 (s' - 1) = s' - 1) as -> by (unfold u32; lia).
    assert (u32 (max - min + 1) = max - min + 1) as -> by (unfold u32; lia).
    pose proof (Z.mod_pos_bound (s' - 1) (max - min + 1) ltac:(lia)) as Hm.
    set (m := (s' - 1) mod (max - min + 1)) in *.
    assert (s32 (u32 (m + u32 min)) = m + min) as ->; [|lia].
    clearbody m. unfold s32, u32. destruct (Z.ltb_spec (((m + min mod 2^32) mod 2^32) mod 2^32) (2^31)); lia.
Qed.

Lemma rand_range_in_range_witness :
  ∃ r s', usfstl_rand_range (-5) 5 initial = Ok (r, State s') ∧ -5 ≤ r ≤ 5.
Proof.
  destruct (rand_range_in_range 2 (-5) 5 ltac:(lia) ltac:(lia) ltac:(lia) ltac:(lia)) as (r & s' & H & Hr & _).
  by exists r, s'.
Defined.

End Rand.

(** ** src/string.c

    Memory maps addresses to bytes; an access outside it is out of bounds. *)
Module Str.

Abbreviation mem := (gmap Z Z).

Fixpoint load (n : nat) (a : Z) : M mem (list Z) :=
  match n with
  | O => mret []
  | S n =>
      m ← get;
      match m !! a with
      | Some b => bs ← load n (a + 1); mret (b :: bs)
      | None => fail OutOfBounds
      end
  end.

Fixpoint store (a : Z) (bs : list Z) : M mem unit :=
  match bs with
  | [] => mret tt
  | b :: bs =>
      m ← get;
      match m !! a with
      | Some _ => modify (λ m, <[a:=b]> m);; store (a + 1) bs
      | None => fail OutOfBounds
      end
  end.

(** An assignment through pointers to a type of [width] bytes. *)
Definition copy_word (width : nat) (d s : Z) : M mem unit :=
  bs ← load width s;
  store d bs.

(** [for (; *s1 && *s1 == *s2; s1++, s2++) {}] and the comparison. *)
Fixpoint _usfstl_no_asan_strcmp (s1 s2 : list Z) : res Z :=
  match s1, s2 with
  | c1 :: s1', c2 :: s2' =>
      if negb (c1 =? 0) && (c1 =? c2) then _usfstl_no_asan_strcmp s1' s2'
      else Ok (if c1 =? c2 then 0 else if c1 <? c2 then -1 else 1)
  | _, _ => Err OutOfBounds
  end.

(** [for (i = 0; i < qword_sz; i++) d[i] = s[i];] from index [i]. *)
Fixpoint copy_qwords (count : nat) (i d s : Z) : M mem unit :=
  match count with
  | O => mret tt
  | S count => copy_word 8 (d + 8 * i) (s + 8 * i);; copy_qwords count (i + 1) d s
  end.

Definition _usfstl_no_asan_memcpy (dest src n : Z) : M mem Z :=
  copy_qwords (Z.to_nat (n / 8)) 0 dest src;;
  when (negb (Z.land n 4 =? 0)) (copy_word 4 (dest + Z.land n (Z.lnot 7)) (src + Z.land n (Z.lnot 7)));;
  when (negb (Z.land n 2 =? 0)) (copy_word 2 (dest + Z.land n (Z.lnot 3)) (src + Z.land n (Z.lnot 3)));;
  when (negb (Z.land n 1 =? 0)) (copy_word 1 (dest + Z.land n (Z.lnot 1)) (src + Z.land n (Z.lnot 1)));;
  mret dest.

(** *** Comparison *)

(** Lexicographic order of the bytes before the terminator. *)
Fixpoint lex (s1 s2 : list Z) : Z :=
  match s1, s2 with
  | [], [] => 0
  | [], _ :: _ => -1
  | _ :: _, [] => 1
  | c1 :: s1, c2 :: s2 => if c1 =? c2 then lex s1 s2 else if c1 <? c2 then -1 else 1
  end.

Lemma strcmp_lex s1 s2 r1 r2 :
  Forall (λ c, 0 < c < 256) s1 → Forall (λ c, 0 < c < 256) s2 →
  _usfstl_no_asan_strcmp (s1 ++ 0 :: r1) (s2 ++ 0 :: r2) = Ok (lex s1 s2).
Proof.
  revert s2. induction s1 as [|c1 s1 IH]; intros [|c2 s2] H1 H2; cbn -[Z.ltb Z.eqb].
  - done.
  - apply Forall_cons in H2 as [Hc _]. destruct (Z.eqb_spec 0 c2); [lia|].
    by replace (0 <? c2) with true by lia.
  - apply Forall_cons in H1 as [Hc _]. destruct (Z.eqb_spec c1 0); [lia|].
    by replace (c1 <? 0) with false by lia.
  - apply Forall_cons in H1 as [Hc1 H1], H2 as [Hc2 H2]. destruct (Z.eqb_spec c1 0); [lia|]. cbn [negb andb].
    destruct (c1 =? c2); [by apply IH|done].
Qed.

Lemma lex_eq s1 s2 : lex s1 s2 = 0 ↔ s1 = s2.
Proof.
  revert s2. induction s1 as [|c1 s1 IH]; intros [|c2 s2]; cbn; [done..|].
  destruct (Z.eqb_spec c1 c2) as [->|]; [rewrite IH; naive_solver|]. case_match; naive_solver.
Qed.

(** *** Copying *)

(** [m] is [m0] with the first [k] bytes at [s] copied to [d]. *)
Definition copied (m0 : mem) (d s k : Z) (m : mem) : Prop :=
  ∀ i, m !! i = if (d <=? i) && (i <? d + k) then m0 !! (s + (i - d)) else m0 !! i.

Definition mapped (m : mem) (a n : Z) : Prop := ∀ i, a ≤ i < a + n → is_Some (m !! i).

Definition disjoint_ranges (a b n : Z) : Prop := a + n ≤ b ∨ b + n ≤ a.

Lemma load_run n a m : mapped m a (Z.of_nat n) →
  ∃ bs, load n a m = Ok (bs, m) ∧ length bs = n ∧ ∀ k, (k < n)%nat → bs !! k = m !! (a + Z.of_nat k).
Proof.
  revert a. induction n as [|n IH]; intros a Hm; [exists []; split_and!; [done|done|lia]|].
  destruct (Hm a) as [b Hb]; [lia|]. destruct (IH (a + 1)) as (bs & Hl & Hlen & Hbs).
  { intros i Hi. apply Hm. lia. }
  exists (b :: bs). split_and!; [|cbn; lia|].
  - cbn [load]. erewrite bind_ok by done. rewrite Hb. by erewrite bind_ok by done.
  - intros [|k] Hk; cbn; [by rewrite Z.add_0_r|]. rewrite Hbs by lia. f_equal. lia.
Qed.

Lemma store_run a bs m : mapped m a (Z.of_nat (length bs)) →
  ∃ m', store a bs m = Ok (tt, m') ∧
    ∀ i, m' !! i = if (a <=? i) && (i <? a + Z.of_nat (length bs)) then bs !! Z.to_nat (i - a) else m !! i.
Proof.
  revert a m. induction bs as [|b bs IH]; intros a m Hm.
  { exists m. split; [done|]. intros i. change (Z.of_nat (length [])) with 0. by replace (_ && _) with false by lia. }
  destruct (Hm a) as [b0 Hb]; [cbn; lia|]. destruct (IH (a + 1) (<[a:=b]> m)) as (m' & Hst & Hm').
  { intros i Hi. destruct (decide (i = a)) as [->|]; [by rewrite lookup_insert_eq|].
    rewrite lookup_insert_ne by done. apply Hm. cbn [length]. lia. }
  exists m'. split.
  - cbn [store]. erewrite bind_ok by done. rewrite Hb. by erewrite bind_ok by done.
  - intros i. rewrite Hm'. cbn [length]. destruct (decide (i = a)) as [->|Hne].
    + rewrite lookup_insert_eq. replace ((a + 1 <=? a) && _) with false by lia.
      replace (_ && _) with true by lia. by rewrite Z.sub_diag.
    + rewrite lookup_insert_ne by done.
      replace ((a + 1 <=? i) && (i <? a + 1 + Z.of_nat (length bs)))
        with ((a <=? i) && (i <? a + Z.of_nat (S (length bs)))) by lia.
      destruct (_ && _) eqn:Hin; [|done].
      replace (Z.to_nat (i - a)) with (S (Z.to_nat (i - (a + 1)))) by lia. done.
Qed.

Lemma copy_word_run m0 d s n width k m :
  disjoint_ranges d s n → mapped m0 d n → mapped m0 s n →
  0 ≤ k → k + Z.of_nat width ≤ n → copied m0 d s k m →
  ∃ m', copy_word width (d + k) (s + k) m = Ok (tt, m') ∧ copied m0 d s (k + Z.of_nat width) m'.
Proof.
  intros Hd Hmd Hms Hk Hn Hc.
  assert (∀ i, s ≤ i < s + n → m !! i = m0 !! i) as Hsrc.
  { intros i Hi. rewrite Hc. by replace (_ && _) with false by (unfold disjoint_ranges in Hd; lia). }
  assert (∀ i, is_Some (m0 !! i) → is_Some (m !! i)) as Hdom.
  { intros i Hi. rewrite Hc. destruct (_ && _) eqn:Hin; [|done]. apply Hms. lia. }
  destruct (load_run width (s + k) m) as (bs & Hl & Hlen & Hbs).
  { intros i Hi. apply Hdom, Hms. lia. }
  destruct (store_run (d + k) bs m) as (m' & Hst & Hm').
  { intros i Hi. apply Hdom, Hmd. lia. }
  exists m'. split; [unfold copy_word; by erewrite bind_ok by done|].
  intros i. rewrite Hm', Hlen. destruct ((d + k <=? i) && _) eqn:Hin.
  - replace (_ && _) with true by lia. rewrite Hbs by lia. rewrite Hsrc by lia. f_equal. lia.
  - rewrite Hc. by replace ((d <=? i) && (i <? d + (k + Z.of_nat width))) with ((d <=? i) && (i <? d + k)) by lia.
Qed.

Lemma copy_qwords_run m0 d s n count : ∀ i m,
  disjoint_ranges d s n → mapped m0 d n → mapped m0 s n →
  0 ≤ i → 8 * (i + Z.of_nat count) ≤ n → copied m0 d s (8 * i) m →
  ∃ m', copy_qwords count i d s m = Ok (tt, m') ∧ copied m0 d s (8 * (i + Z.of_nat count)) m'.
Proof.
  induction count as [|count IH]; intros i m Hd Hmd Hms Hi Hn Hc.
  { exists m. split; [done|]. by replace (8 * (i + Z.of_nat 0)) with (8 * i) by lia. }
  destruct (copy_word_run m0 d s n 8 (8 * i) m) as (m1 & Hw & Hc1); try done; try lia.
  destruct (IH (i + 1) m1) as (m' & Hrun & Hc'); try done; try lia.
  { by replace (8 * (i + 1)) with (8 * i + Z.of_nat 8) by lia. }
  exists m'. split; [cbn [copy_qwords]; by erewrite bind_ok by done|].
  by replace (8 * (i + Z.of_nat (S count))) with (8 * (i + 1 + Z.of_nat count)) by lia.
Qed.

(** [n & ~(2^j - 1)] rounds down, [n & 2^j] tests whether a word of 2^j bytes
    remains. *)
Lemma land_lnot_ones n j : 0 ≤ j → Z.land n (Z.lnot (Z.ones j)) = 2^j * (n / 2^j).
Proof.
  intros Hj. rewrite <- Z.ldiff_land, Z.ldiff_ones_r, Z.shiftl_mul_pow2, Z.shiftr_div_pow2 by done. lia.
Qed.

Lemma land_pow2 n j : 0 ≤ j → negb (Z.land n (2^j) =? 0) = ((n / 2^j) mod 2 =? 1).
Proof.
  intros Hj. transitivity (has_bit n j).
  - unfold has_bit. by rewrite Z.shiftl_1_l, Z.land_comm.
  - rewrite has_bit_spec, Z.testbit_odd, Z.shiftr_div_pow2, Zodd_mod by done. done.
Qed.

(** The copy of the remainder word of [2^j] bytes, if there is one. *)
Lemma copy_rest_run m0 d s n j m :
  disjoint_ranges d s n → mapped m0 d n → mapped m0 s n → 0 ≤ j → 0 ≤ n →
  copied m0 d s (2^(j+1) * (n / 2^(j+1))) m →
  ∃ m', when (negb (Z.land n (2^j) =? 0))
          (copy_word (Z.to_nat (2^j)) (d + Z.land n (Z.lnot (Z.ones (j+1)))) (s + Z.land n (Z.lnot (Z.ones (j+1))))) m
        = Ok (tt, m') ∧ copied m0 d s (2^j * (n / 2^j)) m'.
Proof.
  intros Hd Hmd Hms Hj Hn Hc. rewrite land_pow2, land_lnot_ones by lia.
  pose proof (Z.pow_pos_nonneg 2 j ltac:(lia) Hj) as Hp.
  assert (n / 2^(j+1) = (n / 2^j) / 2) as Hdiv by (rewrite Z.pow_add_r, Z.div_div by lia; done).
  rewrite Hdiv in *. rewrite Z.pow_add_r in * by lia. change (2^1) with 2 in *.
  pose proof (Z.div_mod (n / 2^j) 2 ltac:(lia)) as Hq.
  pose proof (Z.mul_div_le n (2^j) Hp) as Hle.
  pose proof (Z.mod_pos_bound (n / 2^j) 2 ltac:(lia)) as Hb.
  pose proof (Z.div_pos n (2^j) Hn Hp).
  destruct (Z.eqb_spec ((n / 2^j) mod 2) 1) as [H1|H1]; cbn [when].
  - destruct (copy_word_run m0 d s n (Z.to_nat (2^j)) (2^j * 2 * (n / 2^j / 2)) m) as (m' & Hr & Hc'); try done; try nia.
    exists m'. split; [done|]. rewrite Z2Nat.id in Hc' by lia.
    by replace (2^j * (n / 2^j)) with (2^j * 2 * (n / 2^j / 2) + 2^j) by nia.
  - exists m. split; [done|]. by replace (2^j * (n / 2^j)) with (2^j * 2 * (n / 2^j / 2)) by nia.
Qed.

(** [_usfstl_no_asan_memcpy], which copies by 8-byte words and then the
    remaining 4, 2 and 1 bytes, is the byte-wise copy for every length: for
    disjoint mapped buffers it returns [dest], the [n] bytes at [dest] are those
    at [src], and no other byte changes. *)
Theorem memcpy_correct m d s n :
  0 ≤ n → mapped m d n → mapped m s n → disjoint_ranges d s n →
  ∃ m', _usfstl_no_asan_memcpy d s n m = Ok (d, m') ∧
    ∀ i, m' !! i = if (d <=? i) && (i <? d + n) then m !! (s + (i - d)) else m !! i.
Proof.
  intros Hn Hmd Hms Hd. unfold _usfstl_no_asan_memcpy.
  destruct (copy_qwords_run m d s n (Z.to_nat (n / 8)) 0 m) as (m1 & H1 & C1); try done; try lia.
  { intros i. by replace (_ && _) with false by lia. }
  destruct (copy_rest_run m d s n 2 m1) as (m2 & H2 & C2); try done.
  { by replace (2^(2+1) * (n / 2^(2+1))) with (8 * (0 + Z.of_nat (Z.to_nat (n / 8)))) by lia. }
  destruct (copy_rest_run m d s n 1 m2) as (m3 & H3 & C3); try done.
  destruct (copy_rest_run m d s n 0 m3) as (m4 & H4 & C4); try done.
  exists m4. split.
  - erewrite bind_ok by exact H1. erewrite bind_ok by exact H2. erewrite bind_ok by exact H3.
    by erewrite bind_ok by exact H4.
  - intros i. rewrite C4. by rewrite Z.div_1_r, Z.mul_1_l.
Qed.

Lemma memcpy_correct_witness :
  ∃ m', _usfstl_no_asan_memcpy 0 20 15 (list_to_map ((λ i, (Z.of_nat i, Z.of_nat (i * 7))) <$> seq 0 40)) = Ok (0, m').
Proof.
  destruct (memcpy_correct (list_to_map ((λ i, (Z.of_nat i, Z.of_nat (i * 7))) <$> seq 0 40)) 0 20 15)
    as (m' & H & _); [lia| | |unfold disjoint_ranges; lia|by exists m'].
  - intros i Hi. assert (i ∈ seqZ 0 15) as Hin by (apply elem_of_seqZ; lia).
    clear Hi. revert i Hin. apply Forall_forall. vm_compute. repeat constructor; by eexists.
  - intros i Hi. assert (i ∈ seqZ 20 15) as Hin by (apply elem_of_seqZ; lia).
    clear Hi. revert i Hin. apply Forall_forall. vm_compute. repeat constructor; by eexists.
Defined.

End Str.

(** ** src/alloc.c

    The C library's heap holds the live blocks by address; a byte is [None]
    until it is written.  Which address [malloc] or [realloc] returns, if any,
    is the allocator's choice, an argument of the operations. *)
Module Alloc.

Record state := State {
  (* the keys of the hash table [alloc_elems_head], in insertion order *)
  alloc_elems : list Z;
  heap : gmap Z (list (option Z));
}.
#[export] Instance state_settable : Settable state := λ r, State (alloc_elems r) (heap r).

Definition NULL : Z := 0.

(** The C library: *)
Definition malloc (choice : option Z) (size : Z) : M state Z :=
  match choice with
  | None => mret NULL
  | Some p => modify (λ st, st <| heap := <[p := replicate (Z.to_nat size) None]> (heap st) |>);; mret p
  end.

Definition free (p : Z) : M state unit :=
  if p =? NULL then mret tt
  else
    st ← get;
    deref (heap st !! p);;
    modify (λ st, st <| heap := delete p (heap st) |>).

Definition resize (size : Z) (bs : list (option Z)) : list (option Z) :=
  take (Z.to_nat size) (bs ++ replicate (Z.to_nat size) None).

Definition realloc (choice : option Z) (p size : Z) : M state Z :=
  if p =? NULL then malloc choice size
  else
    st ← get;
    bs ← deref (heap st !! p);
    match choice with
    | None => when (size =? 0) (free p);; mret NULL
    | Some q => modify (λ st, st <| heap := <[q := resize size bs]> (delete p (heap st)) |>);; mret q
    end.

(** [memset]/[memcpy] of [bs] to the start of the block at [p]. *)
Definition write_block (p : Z) (bs : list Z) : M state unit :=
  st ← get;
  old ← deref (heap st !! p);
  if (length bs <=? length old)%nat
  then modify (λ st, st <| heap := <[p := (Some <$> bs) ++ drop (length bs) old]> (heap st) |>)
  else fail OutOfBounds.

(** The functions of alloc.c.  ([calloc] of the table's own elements does not
    fail here; its failure is an assertion.) *)
Definition usfstl_alloc_track (ptr : Z) : M state unit :=
  modify (λ st, st <| alloc_elems := alloc_elems st ++ [ptr] |>).

(** The list without its first [p]. *)
Fixpoint remove_first (p : Z) (l : list Z) : list Z :=
  match l with
  | [] => []
  | q :: l => if q =? p then l else q :: remove_first p l
  end.

Definition usfstl_alloc_remove (ptr : Z) : M state unit :=
  if ptr =? NULL then mret tt
  else
    st ← get;
    usfstl_assert (bool_decide (ptr ∈ alloc_elems st));;
    modify (λ st, st <| alloc_elems := remove_first ptr (alloc_elems st) |>).

Definition usfstl_malloc (choice : option Z) (size : Z) : M state Z :=
  ret ← malloc choice size;
  when (negb (ret =? NULL)) (usfstl_alloc_track ret);;
  mret ret.

Definition usfstl_calloc (choice : option Z) (nmemb size : Z) : M state Z :=
  let len := u64 (nmemb * size) in
  ret ← usfstl_malloc choice len;
  when (negb (ret =? NULL)) (write_block ret (replicate (Z.to_nat len) 0));;
  mret ret.

Definition usfstl_realloc (choice : option Z) (ptr size : Z) : M state Z :=
  usfstl_alloc_remove ptr;;
  ptr ← realloc choice ptr size;
  when (negb (ptr =? NULL)) (usfstl_alloc_track ptr);;
  mret ptr.

(** [strdup] of the bytes before the terminator of [s], at most [n] of them. *)
Definition strdup_bytes (choice : option Z) (bytes : list Z) : M state Z :=
  ret ← usfstl_malloc choice (Z.of_nat (length bytes) + 1);
  when (negb (ret =? NULL)) (write_block ret (bytes ++ [0]));;
  mret ret.

Fixpoint until_nul (s : list Z) : list Z :=
  match s with
  | [] => []
  | c :: s => if c =? 0 then [] else c :: until_nul s
  end.

Definition usfstl_strdup (choice : option Z) (s : list Z) : M state Z :=
  strdup_bytes choice (until_nul s).

Definition usfstl_strndup (choice : option Z) (s : list Z) (n : Z) : M state Z :=
  strdup_bytes choice (take (Z.to_nat n) (until_nul s)).

Definition usfstl_free (ptr : Z) : M state unit :=
  usfstl_alloc_remove ptr;;
  free ptr.

Fixpoint free_keys (l : list Z) : M state unit :=
  match l with
  | [] => mret tt
  | p :: l =>
      modify (λ st, st <| alloc_elems := remove_first p (alloc_elems st) |>);;
      free p;;
      free_keys l
  end.

Definition usfstl_free_all : M state unit :=
  l ← gets alloc_elems;
  free_keys l;;
  modify (λ st, st <| alloc_elems := [] |>).

(** Every call of the interface, with the allocator's choice. *)
Inductive call :=
  | CMalloc (choice : option Z) (size : Z)
  | CCalloc (choice : option Z) (nmemb size : Z)
  | CRealloc (choice : option Z) (ptr size : Z)
  | CStrdup (choice : option Z) (s : list Z)
  | CStrndup (choice : option Z) (s : list Z) (n : Z)
  | CFree (ptr : Z).

Definition do_call (c : call) : M state unit :=
  match c with
  | CMalloc ch size => usfstl_malloc ch size;; mret tt
  | CCalloc ch nmemb size => usfstl_calloc ch nmemb size;; mret tt
  | CRealloc ch ptr size => usfstl_realloc ch ptr size;; mret tt
  | CStrdup ch s => usfstl_strdup ch s;; mret tt
  | CStrndup ch s n => usfstl_strndup ch s n;; mret tt
  | CFree ptr => usfstl_free ptr
  end.

(** A choice is an address that is not in use ([old] is given back). *)
Definition choice_ok (st : state) (old : Z) (choice : option Z) : Prop :=
  match choice with
  | None => True
  | Some p => p ≠ NULL ∧ (p = old ∨ heap st !! p = None)
  end.

(** The call is one the allocator can make. *)
Definition call_ok (st : state) (c : call) : Prop :=
  match c with
  | CMalloc ch _ | CCalloc ch _ _ | CStrdup ch _ | CStrndup ch _ _ => choice_ok st NULL ch
  | CRealloc ch ptr _ => choice_ok st ptr ch
  | CFree _ => True
  end.

(** The block that a failing [realloc] leaves allocated ([realloc] to nothing
    frees it). *)
Definition lost_by (st : state) (c : call) : gmap Z (list (option Z)) :=
  match c with
  | CRealloc None ptr size =>
      match heap st !! ptr with
      | Some bs => if (ptr =? NULL) || (size =? 0) then ∅ else {[ptr := bs]}
      | None => ∅
      end
  | _ => ∅
  end.

(** Runs of calls, with the blocks lost by failing [realloc]s. *)
Inductive runs : state → gmap Z (list (option Z)) → state → Prop :=
  | runs_nil st : runs st ∅ st
  | runs_cons st c st1 lost st2 : call_ok st c → do_call c st = Ok (tt, st1) → runs st1 lost st2 →
      runs st (lost ∪ lost_by st c) st2.

(** The tracked blocks are live, and tracked once. *)
Definition wf (st : state) : Prop :=
  NoDup (alloc_elems st) ∧ ∀ p, p ∈ alloc_elems st → p ≠ NULL ∧ is_Some (heap st !! p).

(** The blocks that are not tracked: allocated by other code. *)
Definition foreign (st : state) : gmap Z (list (option Z)) :=
  filter (λ '(p, _), p ∉ alloc_elems st) (heap st).

Lemma foreign_lookup st p :
  foreign st !! p = if decide (p ∈ alloc_elems st) then None else heap st !! p.
Proof.
  unfold foreign. rewrite map_lookup_filter. destruct (heap st !! p) as [bs|]; cbn; [|by case_decide].
  case_decide; by case_guard.
Qed.

(** What every call keeps. *)
Definition keeps (st st' : state) : Prop := wf st → wf st' ∧ foreign st' = foreign st.

(** The same but for blocks that are forgotten. *)
Definition loses (lost : gmap Z (list (option Z))) (st st' : state) : Prop :=
  wf st → wf st' ∧ lost ##ₘ foreign st ∧ foreign st' = lost ∪ foreign st.

Lemma keeps_loses st st' : keeps st st' → loses ∅ st st'.
Proof. intros H Hw. destruct (H Hw) as [Hw' Hf]. split_and!; [done|apply map_disjoint_empty_l|by rewrite map_empty_union]. Qed.

Lemma loses_trans l1 l2 st1 st2 st3 : loses l1 st1 st2 → loses l2 st2 st3 → loses (l2 ∪ l1) st1 st3.
Proof.
  intros H1 H2 Hw. destruct (H1 Hw) as (Hw2 & Hd1 & Hf1). destruct (H2 Hw2) as (Hw3 & Hd2 & Hf2).
  rewrite Hf1 in Hd2, Hf2. split; [done|]. rewrite map_disjoint_union_r in Hd2. destruct Hd2 as [_ Hd2].
  split; [by apply map_disjoint_union_l|]. by rewrite Hf2, map_union_assoc.
Qed.

Lemma keeps_trans st1 st2 st3 : keeps st1 st2 → keeps st2 st3 → keeps st1 st3.
Proof. intros H1 H2 Hw. destruct (H1 Hw) as [Hw2 Hf2]. destruct (H2 Hw2). split; congruence. Qed.

Lemma remove_first_NoDup p l : NoDup l → NoDup (remove_first p l) ∧ ∀ q, q ∈ remove_first p l ↔ q ∈ l ∧ q ≠ p.
Proof.
  induction l as [|x l IH]; cbn; intros Hnd; [split; [constructor|set_solver]|].
  apply NoDup_cons in Hnd as [Hx Hnd]. destruct (IH Hnd) as [IH1 IH2].
  destruct (Z.eqb_spec x p) as [->|Hne].
  - split; [done|]. intros q. rewrite elem_of_cons. naive_solver.
  - split; [constructor; [rewrite IH2; naive_solver|done]|]. intros q. rewrite !elem_of_cons, IH2. naive_solver.
Qed.

(** A new block is tracked. *)
Lemma keeps_new st p bs :
  p ≠ NULL → heap st !! p = None → keeps st (State (alloc_elems st ++ [p]) (<[p:=bs]> (heap st))).
Proof.
  intros Hp Hh [Hnd Hl]. assert (p ∉ alloc_elems st) as Hnin.
  { intros Hin. destruct (Hl p Hin) as [_ [? ?]]. congruence. }
  split; [split|].
  - cbn. apply NoDup_app. split_and!; [done|set_solver|apply NoDup_singleton].
  - intros q. cbn. rewrite elem_of_app, list_elem_of_singleton. intros [Hq| ->].
    + destruct (Hl q Hq) as [Hq0 Hqs]. split; [done|]. rewrite lookup_insert. by case_decide.
    + rewrite lookup_insert_eq. eauto.
  - apply map_eq. intros q. rewrite !foreign_lookup. cbn. rewrite lookup_insert.
    repeat case_decide; set_solver.
Qed.

(** A tracked block is written, or is given back. *)
Lemma keeps_write st p bs :
  p ∈ alloc_elems st → keeps st (st <| heap := <[p:=bs]> (heap st) |>).
Proof.
  intros Hin [Hnd Hl]. split; [split; [done|]|].
  - intros q Hq. cbn in *. destruct (Hl q Hq) as [Hq0 Hqs]. split; [done|]. rewrite lookup_insert. by case_decide.
  - apply map_eq. intros q. rewrite !foreign_lookup. cbn. case_decide; [done|].
    rewrite lookup_insert_ne; [done|]. set_solver.
Qed.

Lemma keeps_drop st p :
  p ∈ alloc_elems st → keeps st (State (remove_first p (alloc_elems st)) (delete p (heap st))).
Proof.
  intros Hin [Hnd Hl]. destruct (remove_first_NoDup p _ Hnd) as [Hnd' Hin']. split; [split; [done|]|].
  - intros q. cbn. rewrite Hin'. intros [Hq Hne]. destruct (Hl q Hq). by rewrite lookup_delete_ne.
  - apply map_eq. intros q. rewrite !foreign_lookup. cbn.
    destruct (decide (q = p)) as [->|Hne]; [rewrite lookup_delete_eq; repeat case_decide; done|].
    rewrite lookup_delete_ne by done. repeat case_decide; set_solver.
Qed.

Lemma usfstl_malloc_inv st ch size ret st' :
  choice_ok st NULL ch → usfstl_malloc ch size st = Ok (ret, st') →
  keeps st st' ∧ (ret ≠ NULL → ret ∈ alloc_elems st').
Proof.
  intros Hch H. unfold usfstl_malloc, malloc in H. destruct ch as [p|].
  - destruct Hch as [Hp [?|Hfree]]; [done|]. destruct st as [al hp]. cbn in *.
    unfold mbind, M_bind, modify, mret, M_ret in H. cbn in H.
    destruct (Z.eqb_spec p NULL) as [|_]; [done|]. cbn in H. injection H as <- <-.
    split; [by apply (keeps_new (State al hp))|]. intros _. cbn. set_solver.
  - unfold mbind, M_bind, mret, M_ret in H. cbn in H. injection H as <- <-. done.
Qed.

Lemma write_block_inv st p bs st' :
  p ∈ alloc_elems st → write_block p bs st = Ok (tt, st') → keeps st st' .
Proof.
  intros Hin H. unfold write_block in H.
  apply bind_inv in H as (st1 & st2 & [= <- <-] & H). apply bind_inv in H as (old & st2 & Hd & H).
  monad_inv Hd. case_match; [|done]. monad_inv H. by apply keeps_write.
Qed.

(** Allocating a block and filling it. *)
Lemma malloc_fill_inv st ch size bs ret st' :
  choice_ok st NULL ch →
  (ret ← usfstl_malloc ch size; when (negb (ret =? NULL)) (write_block ret bs);; mret ret) st = Ok (ret, st') →
  keeps st st'.
Proof.
  intros Hch H. apply bind_inv in H as (r & st1 & H1 & H). apply usfstl_malloc_inv in H1 as [Hk Hr]; [|done].
  apply bind_inv in H as ([] & st2 & Hw & H). apply mret_inv in H. injection H as -> ->.
  destruct (Z.eqb_spec r NULL); cbn in Hw; [by monad_inv Hw|].
  eapply keeps_trans; [done|]. eapply write_block_inv; [|done]. by apply Hr.
Qed.

Lemma alloc_remove_inv st p st' :
  p ≠ NULL → usfstl_alloc_remove p st = Ok (tt, st') →
  p ∈ alloc_elems st ∧ st' = State (remove_first p (alloc_elems st)) (heap st).
Proof.
  intros Hp H. unfold usfstl_alloc_remove in H. destruct (Z.eqb_spec p NULL); [done|].
  apply bind_inv in H as (st1 & st2 & [= <- <-] & H). apply bind_inv in H as ([] & st2 & Ha & H).
  apply assert_inv in Ha as [Ha [= ->]]. apply bool_decide_eq_true in Ha. monad_inv H. by destruct st.
Qed.

(** A tracked block is forgotten. *)
Lemma loses_forget st p bs : p ∈ alloc_elems st → heap st !! p = Some bs →
  loses {[p := bs]} st (State (remove_first p (alloc_elems st)) (heap st)).
Proof.
  intros Hin Hp [Hnd Hl]. destruct (remove_first_NoDup p _ Hnd) as [Hnd' Hin']. split_and!; [split; [done|]|..].
  - intros q. cbn. rewrite Hin'. intros [Hq _]. by apply Hl.
  - apply map_disjoint_singleton_l. rewrite foreign_lookup. by case_decide.
  - apply map_eq. intros q. rewrite <- insert_union_singleton_l, lookup_insert, !foreign_lookup. cbn.
    destruct (decide (p = q)) as [<-|Hne]; [case_decide; set_solver|]. repeat case_decide; set_solver.
Qed.

Lemma usfstl_realloc_fails st p size ret st' : p ≠ NULL → usfstl_realloc None p size st = Ok (ret, st') →
  loses (lost_by st (CRealloc None p size)) st st'.
Proof.
  intros Hp H. unfold usfstl_realloc in H.
  apply bind_inv in H as ([] & st1 & [Hin ->]%alloc_remove_inv & H); [|done].
  apply bind_inv in H as (r & st2 & H1 & H). unfold realloc in H1.
  destruct (Z.eqb_spec p NULL) as [|_]; [done|].
  apply bind_inv in H1 as (st3 & st4 & [= <- <-] & H1). apply bind_inv in H1 as (bs & st4 & Hd & H1).
  cbn [heap] in Hd. destruct (heap st !! p) as [bs'|] eqn:Hbs; [|done]. injection Hd as -> <-.
  cbn [lost_by]. rewrite Hbs. replace (p =? NULL) with false by lia. cbn [orb].
  apply bind_inv in H1 as ([] & st5 & H1 & Hr). apply mret_inv in Hr. injection Hr as -> ->.
  cbn in H. apply mret_inv in H. injection H as -> ->. destruct (size =? 0); cbn [when] in H1.
  - unfold free in H1. rewrite (proj2 (Z.eqb_neq p NULL) Hp) in H1. erewrite bind_ok in H1 by done.
    cbn [heap] in H1. rewrite Hbs in H1. erewrite bind_ok in H1 by done. injection H1 as <-.
    by apply keeps_loses, (keeps_drop st p).
  - injection H1 as <-. by apply loses_forget.
Qed.

Lemma usfstl_realloc_inv st q p size ret st' :
  choice_ok st p (Some q) → p ≠ NULL → usfstl_realloc (Some q) p size st = Ok (ret, st') → keeps st st'.
Proof.
  intros [Hq Hfree] Hp H. unfold usfstl_realloc in H.
  apply bind_inv in H as ([] & st1 & [Hin ->]%alloc_remove_inv & H); [|done].
  apply bind_inv in H as (r & st2 & H1 & H). unfold realloc in H1.
  destruct (Z.eqb_spec p NULL); [done|].
  apply bind_inv in H1 as (st3 & st4 & [= <- <-] & H1). apply bind_inv in H1 as (bs & st4 & Hd & H1).
  monad_inv Hd. monad_inv H1. apply bind_inv in H as ([] & st5 & Ht & H).
  apply mret_inv in H. injection H as -> ->. destruct (Z.eqb_spec q NULL); [done|]. cbn in Ht. unfold usfstl_alloc_track in Ht. monad_inv Ht. cbn in *.
  eapply keeps_trans; [by apply (keeps_drop st p)|].
  apply (keeps_new (State _ _)); [done|]. cbn. destruct Hfree as [->|Hfree]; [apply lookup_delete_eq|].
  by rewrite lookup_delete_None; right.
Qed.

Lemma usfstl_free_inv st p st' : usfstl_free p st = Ok (tt, st') → keeps st st'.
Proof.
  intros H. unfold usfstl_free in H. apply bind_inv in H as ([] & st1 & H1 & H).
  unfold free in H. destruct (Z.eqb_spec p NULL) as [->|Hp].
  - monad_inv H. unfold usfstl_alloc_remove in H1. cbn in H1. by monad_inv H1.
  - apply alloc_remove_inv in H1 as [Hin ->]; [|done].
    apply bind_inv in H as (st3 & st4 & [= <- <-] & H). apply bind_inv in H as (bs & st4 & Hd & H).
    monad_inv Hd. monad_inv H. exact (keeps_drop st p Hin).
Qed.

Lemma lost_null st ch size : lost_by st (CRealloc ch NULL size) = ∅.
Proof. destruct ch; [done|]. cbn. by destruct (heap st !! NULL). Qed.

Lemma do_call_loses c st st' : call_ok st c → do_call c st = Ok (tt, st') → loses (lost_by st c) st st'.
Proof.
  destruct c as [ch size|ch nmemb size|ch p size|ch t|ch t n|p]; cbn [do_call call_ok]; intros Hok H;
    [..|by eapply keeps_loses, usfstl_free_inv]; apply bind_inv in H as (r & st1 & H1 & H); monad_inv H.
  - by eapply keeps_loses, usfstl_malloc_inv.
  - by eapply keeps_loses, malloc_fill_inv.
  - destruct (decide (p = NULL)) as [->|Hp].
    { rewrite lost_null. eapply keeps_loses, usfstl_malloc_inv; [exact Hok|exact H1]. }
    destruct ch as [q|]; [by eapply keeps_loses, usfstl_realloc_inv|by eapply usfstl_realloc_fails].
  - by eapply keeps_loses, malloc_fill_inv.
  - by eapply keeps_loses, malloc_fill_inv.
Qed.

Lemma runs_step st c st1 lost lost' st2 : call_ok st c → do_call c st = Ok (tt, st1) →
  lost' = lost ∪ lost_by st c → runs st1 lost st2 → runs st lost' st2.
Proof. intros ? ? -> ?. by eapply runs_cons. Qed.

Lemma runs_loses st lost st' : runs st lost st' → loses lost st st'.
Proof. induction 1; [by apply keeps_loses|]. eapply loses_trans; [by eapply do_call_loses|done]. Qed.

Lemma free_keys_run l : ∀ st, wf st → alloc_elems st = l →
  ∃ st', free_keys l st = Ok (tt, st') ∧ wf st' ∧ alloc_elems st' = [] ∧ foreign st' = foreign st.
Proof.
  induction l as [|p l IH]; intros st Hw Hl; [by exists st|].
  destruct (keeps_drop st p) as [Hw' Hf']; [rewrite Hl; by left|done|].
  destruct (proj2 Hw p) as [Hp [bs Hbs]]; [rewrite Hl; by left|].
  rewrite Hl in Hw', Hf'. cbn in Hw', Hf'. rewrite Z.eqb_refl in Hw', Hf'.
  destruct (IH _ Hw' eq_refl) as (st' & Hrun & Hw2 & He & Hf).
  exists st'. split_and!; [|done|done|congruence]. cbn [free_keys]. erewrite bind_ok by done.
  cbn. rewrite Hl. cbn. rewrite Z.eqb_refl. erewrite bind_ok; [exact Hrun|].
  unfold free. destruct (Z.eqb_spec p NULL); [done|]. erewrite bind_ok by done. cbn. rewrite Hbs.
  by erewrite bind_ok by done.
Qed.

Lemma wf_foreign st : alloc_elems st = [] → foreign st = heap st.
Proof. intros H. apply map_eq. intros p. rewrite foreign_lookup, H. case_decide; [set_solver|done]. Qed.

(** C38. No leak and no stray free: whatever calls to the allocation functions
    a program makes (in any order, with any choices of the C allocator, which may
    also fail, as long as the calls return), [usfstl_free_all] then frees every
    block still allocated through this interface, except exactly those that a
    failing [realloc] to a size other than 0 left behind; the blocks of other code
    are untouched. *)
Theorem free_all_complete st lost st1 :
  wf st → runs st lost st1 →
  ∃ st2, usfstl_free_all st1 = Ok (tt, st2) ∧ alloc_elems st2 = [] ∧
    heap st2 = lost ∪ foreign st ∧ lost ##ₘ foreign st.
Proof.
  intros Hw Hr. destruct (runs_loses _ _ _ Hr Hw) as (Hw1 & Hd & Hf1).
  destruct (free_keys_run _ st1 Hw1 eq_refl) as (st2 & Hrun & Hw2 & He & Hf2).
  exists (st2 <| alloc_elems := [] |>). split_and!; [|done| |done].
  - unfold usfstl_free_all. erewrite bind_ok by done. by erewrite bind_ok by done.
  - cbn. rewrite <- (wf_foreign _ He). congruence.
Qed.

Lemma free_all_complete_witness :
  ∃ st1 st2, usfstl_free_all st1 = Ok (tt, st2) ∧ heap st2 = {[7 := [None; None]; 5 := []]}.
Proof.
  destruct (free_all_complete (State [] {[5 := []]}) {[7 := [None; None]]}
              (State [9] {[5 := []; 7 := [None; None]; 9 := [Some 104; Some 105; Some 0]]})) as (st2 & H & _ & Hh & _).
  - split; [constructor|set_solver].
  - apply (runs_step _ (CStrndup (Some 9) [104; 105; 106; 0] 2) (State [9] {[5 := []; 9 := [Some 104; Some 105; Some 0]]})
             {[7 := [None; None]]}); [by split; [|right]|vm_compute; reflexivity|reflexivity|].
    apply (runs_step _ (CMalloc (Some 7) 2) (State [9; 7] {[5 := []; 7 := [None; None]; 9 := [Some 104; Some 105; Some 0]]})
             {[7 := [None; None]]}); [by split; [|right]|vm_compute; reflexivity|reflexivity|].
    apply (runs_step _ (CRealloc None 7 4) (State [9] {[5 := []; 7 := [None; None]; 9 := [Some 104; Some 105; Some 0]]})
             ∅); [done|vm_compute; reflexivity|reflexivity|]. constructor.
  - exists (State [9] {[5 := []; 7 := [None; None]; 9 := [Some 104; Some 105; Some 0]]}), st2. split; [exact H|]. exact Hh.
Defined.

(** A [usfstl_realloc] whose [realloc] fails forgets the old block: it is
    still allocated, but freeing it is refused, and [usfstl_free_all] does not
    free it. *)
Theorem realloc_failure_forgets st p bs size :
  wf st → p ∈ alloc_elems st → heap st !! p = Some bs → size ≠ 0 →
  ∃ st', usfstl_realloc None p size st = Ok (NULL, st') ∧ heap st' = heap st ∧
    usfstl_free p st' = Err Assertion ∧
    ∃ st'', usfstl_free_all st' = Ok (tt, st'') ∧ heap st'' !! p = Some bs.
Proof.
  intros [Hnd Hl] Hin Hh Hsz. destruct (Hl p Hin) as [Hp _].
  destruct (remove_first_NoDup p _ Hnd) as [Hnd' Hin'].
  set (st' := State (remove_first p (alloc_elems st)) (heap st)).
  assert (wf st') as Hw'.
  { split; [done|]. intros q. cbn. rewrite Hin'. intros [Hq _]. by apply Hl. }
  assert (p ∉ alloc_elems st') as Hnin by (cbn; rewrite Hin'; naive_solver).
  exists st'. split_and!; [|done| |].
  - unfold usfstl_realloc, usfstl_alloc_remove, realloc. destruct (Z.eqb_spec p NULL); [done|].
    rewrite (bind_ok _ _ _ tt st').
    + erewrite bind_ok; [|erewrite bind_ok by done; cbn; rewrite Hh; erewrite bind_ok by done;
        destruct (Z.eqb_spec size 0); [done|reflexivity]]. done.
    + erewrite bind_ok by done. rewrite bool_decide_true by done. by destruct st.
  - unfold usfstl_free. apply bind_err. unfold usfstl_alloc_remove. destruct (Z.eqb_spec p NULL); [done|].
    erewrite bind_ok by done. by rewrite bool_decide_false.
  - destruct (free_keys_run _ st' Hw' eq_refl) as (st2 & Hrun & Hw2 & He & Hf2).
    exists (st2 <| alloc_elems := [] |>). split.
    + unfold usfstl_free_all. erewrite bind_ok by done. by erewrite bind_ok by done.
    + cbn. rewrite <- (wf_foreign _ He), Hf2, foreign_lookup. by case_decide.
Qed.

Lemma realloc_failure_forgets_witness :
  ∃ st', usfstl_realloc None 9 16 (State [9] {[9 := [None]]}) = Ok (NULL, st') ∧ usfstl_free 9 st' = Err Assertion.
Proof.
  destruct (realloc_failure_forgets (State [9] {[9 := [None]]}) 9 [None] 16) as (st' & H1 & _ & H2 & _).
  - split; [apply NoDup_singleton|]. intros p. cbn. rewrite list_elem_of_singleton. intros ->. split; [done|by eexists].
  - cbn. by left.
  - done.
  - done.
  - by exists st'.
Defined.

End Alloc.
