(* ===== verification/Bytes.v ===== *)
(** * Bytes and memory

    Byte sequences as lists of integers below 256, little-endian integers, and
    the typed accesses to the flat byte memory of [Util.Str]. *)
From S2P Require Import Prelude Util.

Abbreviation mem := (gmap Z Z).

Definition is_byte (b : Z) : Prop := 0 ≤ b < 256.
Definition bytes_ok (bs : list Z) : Prop := Forall is_byte bs.

(** The [n] low bytes of [z], lowest first, and back. *)
Fixpoint le_split (n : nat) (z : Z) : list Z :=
  match n with
  | O => []
  | S n => z mod 256 :: le_split n (z / 256)
  end.

Fixpoint le_combine (bs : list Z) : Z :=
  match bs with
  | [] => 0
  | b :: bs => b + 256 * le_combine bs
  end.

Lemma le_split_length n z : length (le_split n z) = n.
Proof. revert z. induction n; intros; cbn; auto. Qed.

Lemma le_split_ok n z : bytes_ok (le_split n z).
Proof. revert z. induction n; intros; cbn; constructor; [unfold is_byte; lia|apply IHn]. Qed.

Lemma le_combine_split n z : le_combine (le_split n z) = z mod 2 ^ (8 * Z.of_nat n).
Proof.
  revert z. induction n as [|n IH]; intros z; cbn [le_split le_combine].
  { cbn. by rewrite Z.mod_1_r. }
  rewrite IH. replace (8 * Z.of_nat (S n)) with (8 + 8 * Z.of_nat n) by lia.
  rewrite Z.pow_add_r by lia. change (2 ^ 8) with 256.
  rewrite Z.rem_mul_r by lia. lia.
Qed.

Lemma le_combine_range bs : bytes_ok bs → 0 ≤ le_combine bs < 2 ^ (8 * Z.of_nat (length bs)).
Proof.
  induction 1 as [|b bs Hb _ IH]; cbn [le_combine length]; [cbn; lia|].
  replace (8 * Z.of_nat (S (length bs))) with (8 + 8 * Z.of_nat (length bs)) by lia.
  rewrite Z.pow_add_r by lia. unfold is_byte in Hb. lia.
Qed.

Lemma le_split_combine bs : bytes_ok bs → le_split (length bs) (le_combine bs) = bs.
Proof.
  induction 1 as [|b bs Hb _ IH]; cbn [le_combine length le_split]; [done|].
  unfold is_byte in Hb. f_equal; [lia|].
  replace ((b + 256 * le_combine bs) / 256) with (le_combine bs) by lia. done.
Qed.

(** The bytes at [a], as far as they are mapped. *)
Fixpoint peek (m : mem) (a : Z) (n : nat) : list Z :=
  match n with
  | O => []
  | S n => match m !! a with Some b => b :: peek m (a + 1) n | None => [] end
  end.

(** Memory after the bytes were written at [a]. *)
Fixpoint poke (m : mem) (a : Z) (bs : list Z) : mem :=
  match bs with
  | [] => m
  | b :: bs => poke (<[a:=b]> m) (a + 1) bs
  end.

Definition range_mapped (m : mem) (a n : Z) : Prop := ∀ i, a ≤ i < a + n → is_Some (m !! i).

Lemma peek_length m n : ∀ a, range_mapped m a (Z.of_nat n) → length (peek m a n) = n.
Proof.
  induction n as [|n IH]; intros a Hm; cbn; [done|].
  destruct (Hm a ltac:(lia)) as [b Hb]. rewrite Hb. cbn. f_equal. apply IH. intros i Hi. apply Hm. lia.
Qed.

Lemma poke_lookup_lt m a bs i : i < a → poke m a bs !! i = m !! i.
Proof.
  revert m a. induction bs as [|b bs IH]; intros m a Hi; cbn; [done|].
  rewrite IH by lia. by rewrite lookup_insert_ne by lia.
Qed.

Lemma poke_lookup_ge m a bs i : a + Z.of_nat (length bs) ≤ i → poke m a bs !! i = m !! i.
Proof.
  revert m a. induction bs as [|b bs IH]; intros m a Hi; cbn in *; [done|].
  rewrite IH by lia. by rewrite lookup_insert_ne by lia.
Qed.

Lemma poke_lookup_in m a bs i : a ≤ i < a + Z.of_nat (length bs) →
  poke m a bs !! i = bs !! Z.to_nat (i - a).
Proof.
  revert m a. induction bs as [|b bs IH]; intros m a Hi; cbn in *; [lia|].
  destruct (decide (i = a)) as [->|Hne].
  - rewrite poke_lookup_lt, lookup_insert_eq by lia. by rewrite Z.sub_diag.
  - rewrite IH by lia. replace (Z.to_nat (i - a)) with (S (Z.to_nat (i - (a + 1)))) by lia. done.
Qed.

Lemma poke_lookup m a bs i :
  poke m a bs !! i =
  if bool_decide (a ≤ i < a + Z.of_nat (length bs)) then bs !! Z.to_nat (i - a) else m !! i.
Proof.
  case_bool_decide as H.
  - by apply poke_lookup_in.
  - destruct (Z.lt_ge_cases i a); [by apply poke_lookup_lt|apply poke_lookup_ge; lia].
Qed.

Lemma poke_mapped m a bs b n : range_mapped m b n → range_mapped (poke m a bs) b n.
Proof.
  intros Hm i Hi. rewrite poke_lookup. case_bool_decide as H; [|auto].
  apply lookup_lt_is_Some_2. lia.
Qed.

Lemma peek_ext m m' n : ∀ a, (∀ i, a ≤ i < a + Z.of_nat n → m !! i = m' !! i) → peek m a n = peek m' a n.
Proof.
  induction n as [|n IH]; intros a H; cbn; [done|]. rewrite H by lia.
  destruct (m' !! a); [|done]. f_equal. apply IH. intros i Hi. apply H. lia.
Qed.

Lemma peek_poke_same m a bs : peek (poke m a bs) a (length bs) = bs.
Proof.
  revert m a. induction bs as [|b bs IH]; intros m a; cbn; [done|].
  rewrite poke_lookup_lt, lookup_insert_eq by lia. f_equal. apply IH.
Qed.

Lemma peek_poke_disjoint m a bs b n :
  b + Z.of_nat n ≤ a ∨ a + Z.of_nat (length bs) ≤ b → peek (poke m a bs) b n = peek m b n.
Proof.
  intros H. apply peek_ext. intros i Hi. rewrite poke_lookup.
  rewrite bool_decide_false by lia. done.
Qed.

Lemma load_peek n : ∀ m a, range_mapped m a (Z.of_nat n) → Str.load n a m = Ok (peek m a n, m).
Proof.
  induction n as [|n IH]; intros m a Hm; cbn; [done|].
  destruct (Hm a ltac:(lia)) as [b Hb]. erewrite bind_ok by done. rewrite Hb.
  erewrite bind_ok; [|apply IH; intros i Hi; apply Hm; lia]. done.
Qed.

Lemma store_poke bs : ∀ m a, range_mapped m a (Z.of_nat (length bs)) →
  Str.store a bs m = Ok (tt, poke m a bs).
Proof.
  induction bs as [|b bs IH]; intros m a Hm; cbn; [done|].
  destruct (Hm a ltac:(cbn; lia)) as [c Hc]. erewrite bind_ok by done. rewrite Hc.
  erewrite bind_ok by done. apply IH. intros i Hi.
  rewrite lookup_insert_is_Some. destruct (decide (a = i)); [by left|right]. split; [done|].
  apply Hm. cbn. lia.
Qed.

(** Deciding [range_mapped]. *)
Definition range_mapped_b (m : mem) (a n : Z) : bool :=
  forallb (λ i, bool_decide (is_Some (m !! i))) (seqZ a n).

Lemma range_mapped_b_true m a n : range_mapped_b m a n = true → range_mapped m a n.
Proof.
  unfold range_mapped_b. rewrite forallb_forall. intros H i Hi.
  specialize (H i). rewrite bool_decide_eq_true, <- list_elem_of_In, elem_of_seqZ in H. auto.
Qed.
