(* ===== verification/Restore.v ===== *)
(** * Saving and restoring global variables (src/restore.c)

    The information file is the array of its entries; reading it filters,
    rebases and merges the entries in place.  Memory is that of [Util.Str]. *)
From S2P Require Import Prelude Util.
Import Str.

(** [struct usfstl_restore_info]. *)
Record restore_info := Info { ri_ptr : Z; ri_size : Z }.
#[export] Instance info_settable : Settable restore_info := λ r, Info (ri_ptr r) (ri_size r).
Definition info_zero : restore_info := Info 0 0.

(** ** usfstl_read_restore_info *)
Section read.
(* the linker's section bounds and the program's load address *)
Context (start_norestore stop_norestore base : Z).

Definition should_restore (ptr : Z) : bool :=
  negb ((start_norestore <=? ptr) && (ptr <? stop_norestore)).

(** The variables of the loop: the array, the index of [iter], that of [out]
    (if not NULL), and [prev]. *)
Record read_state := ReadState {
  rs_info : list restore_info;
  rs_iter : nat;
  rs_out : option nat;
  rs_prev : Z;
}.

Definition index (l : list restore_info) (i : nat) : M unit restore_info :=
  match l !! i with
  | Some e => mret e
  | None => fail OutOfBounds
  end.

(** One round of [for (iter = info; iter->ptr != 0; iter++)]; [None] at the
    terminator. *)
Definition read_step (st : read_state) : M unit (option read_state) :=
  e ← index (rs_info st) (rs_iter st);
  if ri_ptr e =? 0 then mret None
  else
    let ptr := u64 (ri_ptr e + base) in
    usfstl_assert (rs_prev st <? ptr);;
    if negb (should_restore ptr)
    then mret (Some (ReadState (rs_info st) (S (rs_iter st)) (rs_out st) ptr))
    else
      prev_out ← match rs_out st with
                 | Some o => e' ← index (rs_info st) o; mret (Some (o, e'))
                 | None => mret None
                 end;
      match prev_out with
      | Some (o, e') =>
          if u64 (ri_ptr e' + ri_size e') =? ptr
          then mret (Some (ReadState (<[o := Info (ri_ptr e') (u64 (ri_size e' + ri_size e))]> (rs_info st))
                                     (S (rs_iter st)) (Some o) ptr))
          else index (rs_info st) (S o);;
               mret (Some (ReadState (<[S o := Info ptr (ri_size e)]> (rs_info st))
                                     (S (rs_iter st)) (Some (S o)) ptr))
      | None =>
          mret (Some (ReadState (<[O := Info ptr (ri_size e)]> (rs_info st))
                                (S (rs_iter st)) (Some O) ptr))
      end.

Fixpoint read_loop (fuel : nat) (st : read_state) : M unit read_state :=
  match fuel with
  | O => fail OutOfFuel
  | S fuel =>
      r ← read_step st;
      match r with
      | None => mret st
      | Some st' => read_loop fuel st'
      end
  end.

(** [file]: the entries of the file; one zero entry follows them in memory. *)
Definition usfstl_read_restore_info (file : list restore_info) : M unit (list restore_info) :=
  let info := file ++ [info_zero] in
  st ← read_loop (S (length info)) (ReadState info 0 None 0);
  let out := match rs_out st with None => O | Some o => S o end in
  index (rs_info st) out;;
  mret (<[out := info_zero]> (rs_info st)).

(** *** What it computes *)

(** Append an entry, merging it with the last one if they are adjacent.  The
    accumulator is in reverse order. *)
Definition merge_entry (acc : list restore_info) (e : restore_info) : list restore_info :=
  let ptr := u64 (ri_ptr e + base) in
  if should_restore ptr then
    match acc with
    | e' :: acc' =>
        if u64 (ri_ptr e' + ri_size e') =? ptr
        then Info (ri_ptr e') (u64 (ri_size e' + ri_size e)) :: acc'
        else Info ptr (ri_size e) :: acc
    | [] => [Info ptr (ri_size e)]
    end
  else acc.

Definition merged (file : list restore_info) : list restore_info :=
  rev (fold_left merge_entry file []).

(** The entries are sorted by their rebased address, and not zero. *)
Fixpoint sorted_from (prev : Z) (file : list restore_info) : Prop :=
  match file with
  | [] => True
  | e :: file => ri_ptr e ≠ 0 ∧ prev < u64 (ri_ptr e + base) ∧ sorted_from (u64 (ri_ptr e + base)) file
  end.
End read.

(** ** Saving and restoring *)

(** The entries before the terminator. *)
Fixpoint entries (info : list restore_info) : list restore_info :=
  match info with
  | [] => []
  | e :: info => if (ri_ptr e =? 0) && (ri_size e =? 0) then [] else e :: entries info
  end.

(** [while (iter->ptr || iter->size)] [memcpy(data, iter->ptr, iter->size)]:
    the bytes saved. *)
Fixpoint save_loop (info : list restore_info) : M mem (list Z) :=
  match info with
  | [] => fail OutOfBounds
  | e :: info =>
      if (ri_ptr e =? 0) && (ri_size e =? 0) then mret []
      else
        bs ← load (Z.to_nat (ri_size e)) (ri_ptr e);
        rest ← save_loop info;
        mret (bs ++ rest)
  end.

Definition usfstl_save_restore_data (info : list restore_info) : M mem (list Z) := save_loop info.

Fixpoint usfstl_restore_data (info : list restore_info) (data : list Z) : M mem unit :=
  match info with
  | [] => fail OutOfBounds
  | e :: info =>
      if (ri_ptr e =? 0) && (ri_size e =? 0) then mret tt
      else
        let n := Z.to_nat (ri_size e) in
        (if (n <=? length data)%nat then mret tt else fail OutOfBounds);;
        store (ri_ptr e) (take n data);;
        usfstl_restore_data info (drop n data)
  end.

(** [g_usfstl_restore_info] and [g_usfstl_restore_data]. *)
Record globals := Globals { restore_info_ : list restore_info; restore_data_ : list Z }.

Definition usfstl_save_globals (start stop base : Z) (file : list restore_info) : M mem globals :=
  match usfstl_read_restore_info start stop base file tt with
  | Ok (info, _) => data ← usfstl_save_restore_data info; mret (Globals info data)
  | Err f => fail f
  end.

Definition usfstl_restore_globals (g : globals) : M mem unit :=
  usfstl_restore_data (restore_info_ g) (restore_data_ g).

(** ** Theorems on reading *)
Section read_theorems.
Context (start stop base : Z).
Abbreviation step := (merge_entry start stop base).

(** After [k] entries the array holds the merged entries, reversed in [acc], and
    from [k] on the file's entries. *)
Definition read_inv (all : list restore_info) (k : nat) (acc : list restore_info) (prev : Z) (st : read_state) : Prop :=
  rs_iter st = k ∧ rs_prev st = prev ∧ (length acc ≤ k)%nat ∧
  rs_out st = match length acc with O => None | S n => Some n end ∧
  length (rs_info st) = length all ∧
  (∀ i, (k ≤ i)%nat → rs_info st !! i = all !! i) ∧
  (∀ i, (i < length acc)%nat → rs_info st !! i = rev acc !! i).

Lemma rev_cons_last (x : restore_info) l : rev (x :: l) !! length l = Some x.
Proof. cbn. rewrite lookup_app_r by (rewrite length_rev; lia). by rewrite length_rev, Nat.sub_diag. Qed.

Lemma rev_cons_init (x : restore_info) l i : (i < length l)%nat → rev (x :: l) !! i = rev l !! i.
Proof. intros Hi. cbn. by rewrite lookup_app_l by (rewrite length_rev; lia). Qed.

Lemma read_step_inv all k acc prev st e u :
  read_inv all k acc prev st → all !! k = Some e → ri_ptr e ≠ 0 → prev < u64 (ri_ptr e + base) →
  ∃ st', read_step start stop base st u = Ok (Some st', u) ∧
    read_inv all (S k) (step acc e) (u64 (ri_ptr e + base)) st'.
Proof.
  intros (Hit & Hpr & Hacc & Hout & Hlen & Hrest & Hdone) He Hnz Hlt.
  assert (k < length all)%nat as Hk by (by eapply lookup_lt_Some).
  unfold read_step, index. rewrite Hit, Hrest, He by lia. erewrite bind_ok by done. cbv zeta.
  destruct (Z.eqb_spec (ri_ptr e) 0); [done|].
  rewrite Hpr, (proj2 (Z.ltb_lt _ _) Hlt). erewrite bind_ok by done. unfold merge_entry.
  set (ptr := u64 (ri_ptr e + base)) in *. destruct (should_restore start stop ptr); cbn [negb].
  2:{ eexists. split; [done|]. split_and!; cbn; try done; [lia|]. intros i Hi. apply Hrest. lia. }
  destruct acc as [|e' acc]; cbn [length] in Hout; rewrite Hout.
  - erewrite bind_ok by done. eexists. split; [done|]. split_and!; cbn; try done; [lia|by rewrite length_insert|..].
    + intros i Hi. rewrite list_lookup_insert_ne by lia. apply Hrest. lia.
    + intros i Hi. assert (i = 0%nat) as -> by lia. rewrite list_lookup_insert_eq by lia. done.
  - cbn [length] in Hacc, Hdone. rewrite Hdone, rev_cons_last by lia. erewrite bind_ok by done. cbv beta iota.
    destruct (u64 (ri_ptr e' + ri_size e') =? ptr).
    + eexists. split; [done|]. split_and!; cbn -[rev]; try done; [lia|by rewrite length_insert|..].
      * intros i Hi. rewrite list_lookup_insert_ne by lia. apply Hrest. lia.
      * intros i Hi. destruct (decide (i = length acc)) as [->|Hne].
        -- rewrite list_lookup_insert_eq by lia. by rewrite rev_cons_last.
        -- rewrite list_lookup_insert_ne by lia. rewrite Hdone by lia. by rewrite !rev_cons_init by lia.
    + assert (is_Some (rs_info st !! S (length acc))) as [x Hx] by (apply lookup_lt_is_Some; lia).
      rewrite Hx. erewrite bind_ok by done.
      eexists. split; [done|]. split_and!; cbn -[rev]; try done; [lia|by rewrite length_insert|..].
      * intros i Hi. rewrite list_lookup_insert_ne by lia. apply Hrest. lia.
      * intros i Hi. destruct (decide (i = S (length acc))) as [->|Hne].
        -- rewrite list_lookup_insert_eq by lia. rewrite <- (rev_cons_last (Info ptr (ri_size e)) (e' :: acc)). done.
        -- rewrite list_lookup_insert_ne by lia. rewrite Hdone by lia. by rewrite (rev_cons_init (Info _ _)) by (cbn; lia).
Qed.

Lemma read_loop_run all tl : ∀ k acc prev st fuel u,
  drop k all = tl ++ [info_zero] → read_inv all k acc prev st → sorted_from base prev tl →
  (length tl < fuel)%nat →
  ∃ st' prev', read_loop start stop base fuel st u = Ok (st', u) ∧
    read_inv all (k + length tl) (fold_left step tl acc) prev' st'.
Proof.
  induction tl as [|e tl IH]; intros k acc prev st fuel u Hd Hinv Hs Hf.
  - destruct fuel as [|fuel]; [cbn in Hf; lia|].
    assert (all !! k = Some info_zero) as Hk.
    { rewrite <- (Nat.add_0_r k), <- lookup_drop, Hd. done. }
    exists st, prev. split; [|by rewrite Nat.add_0_r].
    destruct Hinv as (Hit & _ & _ & _ & _ & Hrest & _). cbn [read_loop].
    rewrite (bind_ok _ _ _ None u); [done|]. unfold read_step, index. rewrite Hit, Hrest, Hk by lia. done.
  - destruct fuel as [|fuel]; [cbn in Hf; lia|]. destruct Hs as (Hnz & Hlt & Hs).
    assert (all !! k = Some e) as Hk.
    { rewrite <- (Nat.add_0_r k), <- lookup_drop, Hd. done. }
    destruct (read_step_inv _ _ _ _ _ _ u Hinv Hk Hnz Hlt) as (st1 & Hstep & Hinv1).
    destruct (IH (S k) (step acc e) (u64 (ri_ptr e + base)) st1 fuel u) as (st' & prev' & Hrun & Hinv'); try done.
    { rewrite <- Nat.add_1_r, <- drop_drop, Hd. done. }
    { cbn in Hf. lia. }
    exists st', prev'. split; [cbn [read_loop]; by erewrite bind_ok by done|].
    cbn [length fold_left]. by replace (k + S (length tl))%nat with (S k + length tl)%nat by lia.
Qed.

(** Reading in place computes [merged], with a terminator after it. *)
Lemma read_restore_info_run file u :
  sorted_from base 0 file →
  ∃ info, usfstl_read_restore_info start stop base file u = Ok (info, u) ∧
    take (S (length (merged start stop base file))) info = merged start stop base file ++ [info_zero].
Proof.
  intros Hs. set (all := file ++ [info_zero]).
  destruct (read_loop_run all file 0 [] 0 (ReadState all 0 None 0) (S (length all)) u)
    as (st & prev & Hrun & (Hit & _ & Hacc & Hout & Hlen & _ & Hdone)); try done.
  { split_and!; cbn; try done; lia. }
  { unfold all. rewrite length_app. cbn. lia. }
  unfold usfstl_read_restore_info. fold all. erewrite bind_ok by done. cbv zeta.
  unfold merged. set (acc := fold_left step file []) in *.
  assert (match rs_out st with None => O | Some o => S o end = length acc) as ->
    by (rewrite Hout; by destruct (length acc)).
  assert (length acc < length (rs_info st))%nat as Hlt.
  { rewrite Hlen. unfold all. rewrite length_app. cbn in *. lia. }
  assert (is_Some (rs_info st !! length acc)) as [x Hx] by (by apply lookup_lt_is_Some).
  unfold index. rewrite Hx. erewrite bind_ok by done.
  eexists. split; [done|]. rewrite length_rev. apply list_eq. intros i.
  destruct (decide (i < S (length acc))%nat) as [Hi|Hi].
  - rewrite lookup_take_lt by done. destruct (decide (i = length acc)) as [->|Hne].
    + rewrite list_lookup_insert_eq by done. rewrite lookup_app_r by (rewrite length_rev; lia).
      by rewrite length_rev, Nat.sub_diag.
    + rewrite list_lookup_insert_ne by done. rewrite Hdone by lia.
      by rewrite lookup_app_l by (rewrite length_rev; lia).
  - rewrite lookup_take_ge by lia. symmetry. apply lookup_ge_None. rewrite length_app, length_rev. cbn. lia.
Qed.

(** The addresses an entry covers. *)
Definition covers (e : restore_info) (a : Z) : Prop := ri_ptr e ≤ a < ri_ptr e + ri_size e.

(** The addresses the file asks for: those of its rebased entries, except the
    entries that start in the section of variables that are not restored. *)
Definition wanted (file : list restore_info) (a : Z) : Prop :=
  ∃ e, e ∈ file ∧ should_restore start stop (ri_ptr e + base) = true ∧
       covers (Info (ri_ptr e + base) (ri_size e)) a.

(** Rebased entries are inside the address space. *)
Definition in_space (e : restore_info) : Prop :=
  0 ≤ ri_ptr e + base ∧ 0 ≤ ri_size e ∧ ri_ptr e + base + ri_size e < 2^64.

Definition entry_ok (e : restore_info) : Prop :=
  0 ≤ ri_ptr e ∧ 0 ≤ ri_size e ∧ ri_ptr e + ri_size e < 2^64.

Definition covered (l : list restore_info) (a : Z) : Prop := ∃ e, e ∈ l ∧ covers e a.

Lemma covered_cons e l a : covered (e :: l) a ↔ covers e a ∨ covered l a.
Proof. unfold covered. set_solver. Qed.

Lemma wanted_cons e l a : wanted (e :: l) a ↔ wanted [e] a ∨ wanted l a.
Proof. unfold wanted. set_solver. Qed.

Lemma wanted_one e a :
  wanted [e] a ↔ should_restore start stop (ri_ptr e + base) = true ∧
                 covers (Info (ri_ptr e + base) (ri_size e)) a.
Proof. unfold wanted. set_solver. Qed.

Lemma covered_nil a : ¬ covered [] a.
Proof. unfold covered. set_solver. Qed.

Lemma covered_dec l a : {covered l a} + {¬ covered l a}.
Proof.
  destruct (decide (Exists (λ e, ri_ptr e ≤ a ∧ a < ri_ptr e + ri_size e) l)) as [H|H]; [left|right];
    unfold covered, covers; by rewrite Exists_exists in H.
Qed.

Lemma merge_entry_covers acc e :
  in_space e → Forall entry_ok acc →
  Forall entry_ok (step acc e) ∧ ∀ a, covered (step acc e) a ↔ covered acc a ∨ wanted [e] a.
Proof.
  intros (He1 & He2 & He3) Hacc. setoid_rewrite wanted_one. unfold merge_entry.
  rewrite (u64_small (ri_ptr e + base)) by lia.
  destruct (should_restore start stop (ri_ptr e + base)); [|naive_solver].
  destruct acc as [|e' acc].
  { split; [constructor; [|constructor]; split_and!; cbn; lia|]. intros a. rewrite covered_cons.
    pose proof (covered_nil a). tauto. }
  pose proof Hacc as [(Ha1 & Ha2 & Ha3) Hacc']%Forall_cons.
  rewrite (u64_small (ri_ptr e' + ri_size e')) by lia.
  destruct (Z.eqb_spec (ri_ptr e' + ri_size e') (ri_ptr e + base)) as [Heq|Hne].
  - rewrite (u64_small (ri_size e' + ri_size e)) by lia. split; [constructor; [split_and!; cbn; lia|done]|].
    intros a. rewrite !covered_cons.
    assert (covers (Info (ri_ptr e') (ri_size e' + ri_size e)) a ↔
            covers e' a ∨ covers (Info (ri_ptr e + base) (ri_size e)) a) as ->; [|tauto].
    unfold covers. cbn. lia.
  - split; [constructor; [split_and!; cbn; lia|done]|]. intros a. rewrite covered_cons. tauto.
Qed.

Lemma merge_covers file acc :
  Forall in_space file → Forall entry_ok acc →
  Forall entry_ok (fold_left step file acc) ∧
  ∀ a, covered (fold_left step file acc) a ↔ covered acc a ∨ wanted file a.
Proof.
  revert acc. induction file as [|e file IH]; intros acc Hf Hacc.
  { split; [done|]. intros a. cbn. unfold wanted. set_solver. }
  apply Forall_cons in Hf as [He Hf]. destruct (merge_entry_covers acc e He Hacc) as [H1 H2].
  destruct (IH (step acc e) Hf H1) as [H3 H4]. split; [exact H3|].
  intros a. cbn [fold_left]. rewrite H4, H2, (wanted_cons e file). tauto.
Qed.

Lemma merged_covers file :
  Forall in_space file →
  Forall entry_ok (merged start stop base file) ∧
  ∀ a, covered (merged start stop base file) a ↔ wanted file a.
Proof.
  intros Hf. destruct (merge_covers file [] Hf) as [H1 H2]; [constructor|]. unfold merged. split.
  - by apply Forall_rev.
  - intros a. pose proof (covered_nil a). transitivity (covered (fold_left step file []) a); [|rewrite H2; tauto].
    unfold covered. split; intros (e & He & Hc); exists e; (split; [|done]);
      rewrite list_elem_of_In in *; [by apply in_rev|by apply -> in_rev].
Qed.
End read_theorems.

(** ** Theorems on saving and restoring *)

(** What the loops need of an entry in a memory: it is not the terminator, and
    its bytes are there. *)
Definition accessible (m : mem) (e : restore_info) : Prop :=
  ri_ptr e ≠ 0 ∧ 0 ≤ ri_size e ∧ mapped m (ri_ptr e) (ri_size e).

Lemma save_restore_run es rest m :
  Forall (accessible m) es →
  ∃ data, save_loop (es ++ info_zero :: rest) m = Ok (data, m) ∧
    ∀ m1, Forall (accessible m1) es →
    ∃ m2, usfstl_restore_data (es ++ info_zero :: rest) data m1 = Ok (tt, m2) ∧
      (∀ a, covered es a → m2 !! a = m !! a) ∧ (∀ a, ¬ covered es a → m2 !! a = m1 !! a).
Proof.
  induction es as [|e es IH]; intros Hes.
  { exists []. split; [done|]. intros m1 _. exists m1. split_and!; [done|..]; [|done].
    intros a Hc. by apply covered_nil in Hc. }
  apply Forall_cons in Hes as [(Hp & Hs & Hm) Hes]. destruct (IH Hes) as (data & Hsave & Hrest).
  destruct (load_run (Z.to_nat (ri_size e)) (ri_ptr e) m) as (bs & Hl & Hlen & Hbs).
  { by rewrite Z2Nat.id. }
  assert ((ri_ptr e =? 0) && (ri_size e =? 0) = false) as Hnt by lia.
  exists (bs ++ data). split.
  { cbn [save_loop app]. rewrite Hnt. erewrite bind_ok by done. by erewrite bind_ok by done. }
  intros m1 Hm1. apply Forall_cons in Hm1 as [(_ & _ & Hm1e) Hm1].
  destruct (store_run (ri_ptr e) bs m1) as (m1' & Hst & Hm1').
  { rewrite Hlen, Z2Nat.id by done. done. }
  destruct (Hrest m1') as (m2 & Hrun & Hc & Hnc).
  { eapply Forall_impl; [exact Hm1|]. intros x (Hx & Hxs & Hxm). split_and!; [done..|]. intros i Hi.
    rewrite Hm1'. destruct ((ri_ptr e <=? i) && _) eqn:Hin; [|by apply Hxm].
    apply lookup_lt_is_Some. lia. }
  exists m2. split_and!.
  - cbn [usfstl_restore_data app]. rewrite Hnt, length_app. cbv zeta.
    rewrite (proj2 (Nat.leb_le _ _)) by lia. erewrite bind_ok by done.
    rewrite <- Hlen, take_app_length, drop_app_length. by erewrite bind_ok by done.
  - intros a. rewrite covered_cons. intros Ha. destruct (covered_dec es a) as [Hes'|Hes']; [by apply Hc|].
    destruct Ha as [Ha|]; [|done]. unfold covers in Ha. rewrite Hnc, Hm1', Hlen by done.
    replace (_ && _) with true by lia. rewrite Hbs by lia. f_equal. lia.
  - intros a. rewrite covered_cons. intros Ha. rewrite Hnc by tauto. rewrite Hm1', Hlen.
    unfold covers in Ha. by replace (_ && _) with false by lia.
Qed.

(** All entries of a sorted file have a nonzero address. *)
Lemma merged_nonzero start stop base file :
  sorted_from base 0 file → Forall (λ e, ri_ptr e ≠ 0) (merged start stop base file).
Proof.
  intros Hs. unfold merged. apply Forall_rev.
  assert (∀ prev acc, 0 ≤ prev → sorted_from base prev file → Forall (λ e, ri_ptr e ≠ 0) acc →
            Forall (λ e, ri_ptr e ≠ 0) (fold_left (merge_entry start stop base) file acc)) as H;
    [|by apply (H 0); [lia|done|constructor]].
  clear Hs. induction file as [|e file IH]; intros prev acc Hprev Hs Hacc; [done|].
  destruct Hs as (_ & Hlt & Hs). cbn [fold_left]. apply (IH (u64 (ri_ptr e + base))); [lia|done|].
  unfold merge_entry. destruct (should_restore _ _ _); [|done].
  destruct acc as [|e' acc]; [by constructor; [cbn; lia|]|]. apply Forall_cons in Hacc as [He' Hacc].
  case_match; constructor; [done|done|cbn; lia|by constructor].
Qed.

(** C28. Saving and restoring the global variables is a round trip: from a
    sorted file of entries inside the address space, whose wanted addresses
    are mapped, [usfstl_save_globals] returns; whatever happens to memory
    after that (as long as it stays mapped), [usfstl_restore_globals] returns
    and gives every wanted address the value it had when saved, and changes no
    other address; wanted are the addresses of the rebased entries that do not
    start in the section of variables to be left alone. *)
Theorem save_restore_globals start stop base file m :
  sorted_from base 0 file → Forall (in_space base) file →
  (∀ a, wanted start stop base file a → is_Some (m !! a)) →
  ∃ g, usfstl_save_globals start stop base file m = Ok (g, m) ∧
    ∀ m1, (∀ a, wanted start stop base file a → is_Some (m1 !! a)) →
    ∃ m2, usfstl_restore_globals g m1 = Ok (tt, m2) ∧
      (∀ a, wanted start stop base file a → m2 !! a = m !! a) ∧
      (∀ a, ¬ wanted start stop base file a → m2 !! a = m1 !! a).
Proof.
  intros Hs Hsp Hm. destruct (merged_covers start stop base file Hsp) as [Hok Hcov].
  pose proof (merged_nonzero start stop base file Hs) as Hnz.
  set (es := merged start stop base file) in *.
  assert (∀ m', (∀ a, wanted start stop base file a → is_Some (m' !! a)) → Forall (accessible m') es) as Hacc.
  { intros m' Hm'. apply Forall_forall. intros e He. rewrite Forall_forall in Hok, Hnz.
    destruct (Hok e He) as (H1 & H2 & H3). split_and!; [by apply Hnz|done|].
    intros a Ha. apply Hm', Hcov. by exists e. }
  destruct (read_restore_info_run start stop base file tt Hs) as (info & Hread & Htake). fold es in Htake.
  rewrite <- (take_drop (S (length es)) info) in Hread. rewrite Htake, <- app_assoc in Hread. cbn [app] in Hread.
  destruct (save_restore_run es (drop (S (length es)) info) m (Hacc m Hm)) as (data & Hsave & Hrest).
  eexists. split.
  { unfold usfstl_save_globals. rewrite Hread. unfold usfstl_save_restore_data. by erewrite bind_ok by done. }
  intros m1 Hm1. destruct (Hrest m1 (Hacc m1 Hm1)) as (m2 & Hrun & Hc & Hnc).
  exists m2. split_and!; [exact Hrun|..]; intros a; rewrite <- Hcov; auto.
Qed.

Lemma save_restore_globals_witness :
  ∃ g, usfstl_save_globals 110 120 100 [Info 1 2; Info 3 2; Info 11 4; Info 20 1]
         (list_to_map ((λ i, (i, i * 3)) <$> seqZ 100 30)) =
       Ok (g, list_to_map ((λ i, (i, i * 3)) <$> seqZ 100 30)) ∧ restore_data_ g = [303; 306; 309; 312; 360].
Proof.
  destruct (save_restore_globals 110 120 100 [Info 1 2; Info 3 2; Info 11 4; Info 20 1]
              (list_to_map ((λ i, (i, i * 3)) <$> seqZ 100 30))) as (g & H & _).
  - vm_compute. done.
  - repeat constructor; cbn; lia.
  - intros a (e & He & Hsr & Hc). assert (a ∈ seqZ 100 30) as Ha.
    { apply elem_of_seqZ. unfold covers in Hc. cbn in Hc.
      rewrite !elem_of_cons, elem_of_nil in He. destruct He as [->|[->|[->|[->|[]]]]]; cbn in Hc; lia. }
    clear Hc. revert a Ha. apply Forall_forall. vm_compute. repeat constructor; by eexists.
  - exists g. split; [exact H|]. vm_compute in H. by injection H as <-.
Defined.
