(* ===== verification/Override.v ===== *)
(** * Function stubs (src/override.c)

    The table of stubs by function name, and the address-keyed cache in front
    of its lookup.  What the debug information says of an address or of a
    function is a parameter; C strings are the lists of their bytes before the
    terminator. *)
From S2P Require Import Prelude.

Abbreviation cstring := (list Z).

Definition MAX_OVERRIDES : Z := 2^14.
Definition HASH_SIZE_SHIFT : Z := 15.
Definition HASH_SIZE : Z := 2^15.

(** [HASH_BER] of the 8 bytes of the pointer, in [int] arithmetic. *)
Fixpoint HASH_BER (bytes : list Z) (hashv : Z) : Z :=
  match bytes with
  | [] => hashv
  | b :: bytes => HASH_BER bytes (s32 (s32 (s32 (Z.shiftl hashv 5) + hashv) + b))
  end.

Definition ptr_bytes (ptr : Z) : list Z :=
  (λ k, Z.land (Z.shiftr ptr (8 * Z.of_nat k)) 255) <$> seq 0 8.

Definition HASH_PTR (ptr : Z) : Z :=
  let ret := HASH_BER (ptr_bytes ptr) 0 in
  Z.land (Z.lxor ret (Z.shiftr ret HASH_SIZE_SHIFT)) (HASH_SIZE - 1).

(** [struct usfstl_test], as far as it is used here. *)
Record usfstl_test := Test {
  flow_test : bool;
  tested_files : option (list cstring);
}.

(** [g_usfstl_hash] holds the slots that were written ([orig] and [repl]). *)
Record state := State {
  g_usfstl_hash : gmap Z (Z * Z);
  g_usfstl_overrides : list (cstring * Z);
  g_usfstl_current_test : option usfstl_test;
  g_usfstl_list_tests : bool;
  g_usfstl_recurse : bool;
}.
#[export] Instance state_settable : Settable state := λ r,
  State (g_usfstl_hash r) (g_usfstl_overrides r) (g_usfstl_current_test r) (g_usfstl_list_tests r)
        (g_usfstl_recurse r).

Definition NULL : Z := 0.

(** Separators of path components. *)
Definition is_sep (c : Z) : bool := (c =? 47) || (c =? 92).

Fixpoint skip_seps (f : cstring) : cstring :=
  match f with
  | c :: f' => if is_sep c then skip_seps f' else f
  | [] => []
  end.

(** The loop of [same_filename] and its result [f1[i1] == f2[i2]]. *)
Fixpoint same_filename_loop (fuel : nat) (f1 f2 : cstring) : option bool :=
  match fuel with
  | O => None
  | S fuel =>
      match f1, f2 with
      | c1 :: f1', c2 :: f2' =>
          if c1 =? c2 then same_filename_loop fuel f1' f2'
          else if is_sep c1 && is_sep c2 then same_filename_loop fuel (skip_seps f1) (skip_seps f2)
          else Some false
      | [], [] => Some true
      | _, _ => Some false
      end
  end.

Definition same_filename (f1 f2 : cstring) : M state bool :=
  match same_filename_loop (S (length f1)) f1 f2 with
  | Some b => mret b
  | None => fail OutOfFuel
  end.

Lemma skip_seps_length f : (length (skip_seps f) ≤ length f)%nat.
Proof. induction f as [|c f IH]; cbn; [done|]. case_match; cbn in *; lia. Qed.

(** The fuel is enough: the loop of [same_filename] ends. *)
Lemma same_filename_total f1 f2 st : ∃ b, same_filename f1 f2 st = Ok (b, st).
Proof.
  assert (∀ fuel f1 f2, (length f1 < fuel)%nat → ∃ b, same_filename_loop fuel f1 f2 = Some b) as H.
  { induction fuel as [|fuel IH]; intros g1 g2 Hf; [lia|].
    destruct g1 as [|c1 g1], g2 as [|c2 g2]; cbn; eauto. cbn in Hf.
    destruct (c1 =? c2); [apply IH; lia|]. destruct (is_sep c1) eqn:Hs; cbn; [|eauto].
    destruct (is_sep c2); cbn; [|eauto]. apply IH. pose proof (skip_seps_length g1). lia. }
  unfold same_filename. destruct (H (S (length f1)) f1 f2) as [b ->]; [lia|]. by exists b.
Qed.

Section override.
(** The debug information: [usfstl_get_function_info_ptr] (name and file of the
    function at an address) and [usfstl_get_func_info] (return type and
    arguments), and the bounds of the section of test code. *)
Context (function_info_ptr : Z → option (cstring * cstring)).
Context (func_info : option cstring → cstring → option (cstring * option cstring)).
Context (start_text_test stop_text_test : Z).
Context (usfstl_void_stub : Z).

Definition find_info (filename : option cstring) (funcname : cstring) : M state (cstring * option cstring) :=
  match func_info filename funcname with
  | Some r => mret r
  | None => match func_info None funcname with
            | Some r => mret r
            | None => fail Assertion
            end
  end.

(** [void] as return type. *)
Definition void_string : cstring := [118; 111; 105; 100].

Definition eq_args (a b : option cstring) : M state bool :=
  a ← deref a;
  b ← deref b;
  mret (bool_decide (a = b)).

(** The checks of [usfstl_install_stub] on the replacement's type. *)
Definition check_stub_type (fname : cstring) (repl : Z) (check_args : bool) : M state unit :=
  let info := function_info_ptr repl in
  repl_info ← (if repl =? usfstl_void_stub then
                 usfstl_assert (negb check_args);;
                 mret (void_string, None)
               else
                 i ← deref info;
                 find_info (Some (snd i)) (fst i));
  orig_info ← find_info None fname;
  usfstl_assert (bool_decide (fst repl_info = fst orig_info));;
  when check_args
    (same ← eq_args (snd repl_info) (snd orig_info);
     usfstl_assert same).

(** The table with the entry for [fname], if there is one, replaced. *)
Fixpoint replace_override (fname : cstring) (repl : Z) (l : list (cstring * Z)) : option (list (cstring * Z)) :=
  match l with
  | [] => None
  | (n, r) :: l =>
      if bool_decide (n = fname) then Some ((n, repl) :: l)
      else cons (n, r) <$> replace_override fname repl l
  end.

Definition usfstl_install_stub (fname : cstring) (repl : Z) (check_args : bool) : M state unit :=
  st ← get;
  usfstl_assert (negb (g_usfstl_list_tests st));;
  modify (λ st, st <| g_usfstl_hash := ∅ |>);;
  when (negb (repl =? NULL)) (check_stub_type fname repl check_args);;
  match replace_override fname repl (g_usfstl_overrides st) with
  | Some l => modify (λ st, st <| g_usfstl_overrides := l |>)
  | None =>
      (* exit(2) when the table is full *)
      usfstl_assert (negb (Z.of_nat (length (g_usfstl_overrides st)) =? MAX_OVERRIDES));;
      modify (λ st, st <| g_usfstl_overrides := g_usfstl_overrides st ++ [(fname, repl)] |>)
  end.

(** Slot [i], if its [orig] is not NULL. *)
Definition slot (h : gmap Z (Z * Z)) (i : Z) : option (Z * Z) :=
  match h !! i with
  | Some (o, r) => if o =? NULL then None else Some (o, r)
  | None => None
  end.

(** [for (i = HASH_PTR(orig); i < HASH_SIZE && g_usfstl_hash[i].orig; i++)];
    [n] slots are left. *)
Fixpoint hash_find (n : nat) (h : gmap Z (Z * Z)) (i orig : Z) : option Z :=
  match n with
  | O => None
  | S n =>
      match slot h i with
      | None => None
      | Some (o, r) => if o =? orig then Some r else hash_find n h (i + 1) orig
      end
  end.

(** The loop after the label [hash]. *)
Fixpoint hash_insert (n : nat) (h : gmap Z (Z * Z)) (i orig repl : Z) : gmap Z (Z * Z) :=
  match n with
  | O => h
  | S n =>
      match slot h i with
      | None => <[i := (orig, repl)]> h
      | Some _ => hash_insert n h (i + 1) orig repl
      end
  end.

Definition slots_left (i : Z) : nat := Z.to_nat (HASH_SIZE - i).

Definition find_override (fname : cstring) (l : list (cstring * Z)) : option Z :=
  snd <$> List.find (λ '(n, _), bool_decide (n = fname)) l.

(** [!strcmp(filename + strlen(filename) - 2, ".h")]. *)
Definition is_header (filename : cstring) : M state bool :=
  if (2 <=? length filename)%nat
  then mret (bool_decide (drop (length filename - 2) filename = [46; 104]))
  else fail OutOfBounds.

(** The loop over [tested_files]. *)
Fixpoint is_tested (filename : cstring) (files : list cstring) : M state bool :=
  match files with
  | [] => mret false
  | okf :: files =>
      if (length okf <=? length filename)%nat then
        b ← same_filename (drop (length filename - length okf) filename) okf;
        if (b : bool) then mret true else is_tested filename files
      else is_tested filename files
  end.

(** What the body of [usfstl_find_repl] does after the cache missed: [Some] is
    [goto hash] with that [repl], [None] the [return repl] in a recursion. *)
Definition find_repl_uncached (_orig : Z) : M state (option Z) :=
  let orig := _orig - 5 in
  i ← match function_info_ptr orig with Some i => mret i | None => fail Assertion end;
  let fname := fst i in
  let filename := snd i in
  usfstl_assert (negb (bool_decide (fname = [])));;
  usfstl_assert (negb (bool_decide (filename = [])));;
  st ← get;
  match find_override fname (g_usfstl_overrides st) with
  | Some repl => mret (Some repl)
  | None =>
      if (start_text_test <=? orig) && (orig <? stop_text_test) then mret (Some _orig)
      else if g_usfstl_recurse st then mret None
      else
        test ← deref (g_usfstl_current_test st);
        if flow_test test then mret (Some _orig)
        else
          h ← is_header filename;
          if (h : bool) then mret (Some _orig)
          else
            t ← match tested_files test with
                | Some files => is_tested filename files
                | None => mret false
                end;
            if (t : bool) then mret (Some _orig) else fail Assertion
  end.

Definition usfstl_find_repl (_orig : Z) : M state Z :=
  let orig := _orig - 5 in
  st ← get;
  match g_usfstl_current_test st with
  | None => mret _orig
  | Some _ =>
      if g_usfstl_list_tests st then mret _orig
      else
        match hash_find (slots_left (HASH_PTR orig)) (g_usfstl_hash st) (HASH_PTR orig) orig with
        | Some repl => mret repl
        | None =>
            r ← find_repl_uncached _orig;
            match r with
            | Some repl =>
                modify (λ st, st <| g_usfstl_hash :=
                  hash_insert (slots_left (HASH_PTR orig)) (g_usfstl_hash st) (HASH_PTR orig) orig repl |>);;
                mret repl
            | None => mret _orig
            end
        end
  end.

(** ** The cache is transparent *)

(** Every cached answer is the one the lookup gives outside a recursion. *)
Definition coherent (st : state) : Prop :=
  ∀ i o r, slot (g_usfstl_hash st) i = Some (o, r) →
    find_repl_uncached (o + 5) (st <| g_usfstl_recurse := false |>) =
      Ok (Some r, st <| g_usfstl_recurse := false |>).

Lemma hash_find_slot n h i orig r : hash_find n h i orig = Some r → ∃ k, slot h k = Some (orig, r).
Proof.
  revert i. induction n as [|n IH]; intros i; cbn; [done|].
  destruct (slot h i) as [[o r']|] eqn:Hs; [|done]. destruct (Z.eqb_spec o orig) as [->|]; [|by apply IH].
  intros [= ->]. by exists i.
Qed.

Lemma hash_insert_slot n h i orig repl k o r :
  slot (hash_insert n h i orig repl) k = Some (o, r) → slot h k = Some (o, r) ∨ (o, r) = (orig, repl).
Proof.
  revert i. induction n as [|n IH]; intros i; cbn; [by left|].
  destruct (slot h i) as [?|] eqn:Hs; [by apply IH|]. unfold slot at 1. rewrite lookup_insert.
  case_decide; [|by left]. case_match; [done|]. intros [= <- <-]. by right.
Qed.

Lemma same_filename_keeps f1 f2 st b st' : same_filename f1 f2 st = Ok (b, st') → st' = st.
Proof. unfold same_filename. case_match; [|done]. by intros [= <- <-]. Qed.

Lemma is_tested_keeps filename files st b st' : is_tested filename files st = Ok (b, st') → st' = st.
Proof.
  revert b. induction files as [|okf files IH]; intros b H; cbn in H; [by monad_inv H|].
  case_match; [|by eauto]. apply bind_inv in H as (b' & st1 & H1 & H).
  apply same_filename_keeps in H1 as ->. destruct b'; [by monad_inv H|by eauto].
Qed.

Lemma same_filename_state f1 f2 st st' :
  same_filename f1 f2 st' = match same_filename f1 f2 st with Ok (b, _) => Ok (b, st') | Err f => Err f end.
Proof. unfold same_filename. by case_match. Qed.

Lemma is_tested_state filename files st st' :
  is_tested filename files st' = match is_tested filename files st with Ok (b, _) => Ok (b, st') | Err f => Err f end.
Proof.
  induction files as [|okf files IH]; [done|]. cbn [is_tested].
  destruct (length okf <=? length filename)%nat; [|done]. unfold mbind, M_bind.
  rewrite (same_filename_state _ _ st st'). destruct (same_filename _ _ st) as [[b st1]|] eqn:H1; [|done].
  apply same_filename_keeps in H1 as ->. by destruct b.
Qed.

(** The lookup depends on the stub of the function looked up, the test and the
    recursion only (so not on the cache), and does not change the state. *)
Lemma uncached_ext _orig st st' :
  (∀ fname filename, function_info_ptr (_orig - 5) = Some (fname, filename) →
     find_override fname (g_usfstl_overrides st') = find_override fname (g_usfstl_overrides st)) →
  g_usfstl_recurse st' = g_usfstl_recurse st → g_usfstl_current_test st' = g_usfstl_current_test st →
  find_repl_uncached _orig st' =
    match find_repl_uncached _orig st with Ok (r, _) => Ok (r, st') | Err f => Err f end ∧
  (∀ r st1, find_repl_uncached _orig st = Ok (r, st1) → st1 = st).
Proof.
  intros Hov Hrec Htest.
  unfold find_repl_uncached. destruct (function_info_ptr (_orig - 5)) as [[fname filename]|]; [|done].
  unfold mbind, M_bind, mret, M_ret. cbn [fst snd usfstl_assert].
  destruct (bool_decide (fname = [])); [done|]. destruct (bool_decide (filename = [])); [done|].
  cbn -[find_override is_header is_tested]. rewrite (Hov fname filename eq_refl), Hrec, Htest.
  assert (∀ o : option Z, (∀ r st2, Ok (o, st) = Ok (r, st2) → st2 = st)) as Hret by (by intros o r st2 [= <- <-]).
  destruct (find_override fname (g_usfstl_overrides st)); [split; [done|apply Hret]|].
  destruct ((start_text_test <=? _) && _); [split; [done|apply Hret]|].
  destruct (g_usfstl_recurse st); [split; [done|apply Hret]|].
  destruct (g_usfstl_current_test st) as [t|]; [|done]. cbn -[is_header is_tested].
  destruct (flow_test t); [split; [done|apply Hret]|].
  unfold is_header. destruct (2 <=? length filename)%nat; [|done]. unfold mret, M_ret.
  destruct (bool_decide (drop _ filename = _)); [split; [done|apply Hret]|].
  destruct (tested_files t) as [files|]; [|done]. rewrite (is_tested_state filename files st).
  destruct (is_tested filename files st) as [[b st1]|] eqn:Ht; [|done].
  apply is_tested_keeps in Ht as ->. destruct b; [split; [done|apply Hret]|done].
Qed.

Lemma uncached_state _orig st h :
  find_repl_uncached _orig (st <| g_usfstl_hash := h |>) =
    match find_repl_uncached _orig st with Ok (r, _) => Ok (r, st <| g_usfstl_hash := h |>) | Err f => Err f end ∧
  (∀ r st', find_repl_uncached _orig st = Ok (r, st') → st' = st).
Proof. by apply uncached_ext. Qed.

(** What is cached in a recursion is what is answered outside, and the other way
    round for the answer. *)
Lemma uncached_recurse _orig st :
  (∀ r, find_repl_uncached _orig st = Ok (Some r, st) →
        find_repl_uncached _orig (st <| g_usfstl_recurse := false |>) = Ok (Some r, st <| g_usfstl_recurse := false |>)) ∧
  (∀ r st', find_repl_uncached _orig (st <| g_usfstl_recurse := false |>) = Ok (Some r, st') →
        ∃ a, find_repl_uncached _orig st = Ok (a, st) ∧ default _orig a = r).
Proof.
  destruct (g_usfstl_recurse st) eqn:Hr.
  2:{ assert (st <| g_usfstl_recurse := false |> = st) as Hst by (destruct st; cbn in *; by subst).
      split; [intros r Hu|intros r st' Hu].
      - by rewrite Hst, Hu.
      - rewrite Hst in Hu. pose proof Hu as Hk. apply (uncached_state _orig st ∅) in Hk as ->. eauto. }
  unfold find_repl_uncached. destruct (function_info_ptr (_orig - 5)) as [[fname filename]|]; [|done].
  unfold mbind, M_bind, mret, M_ret. cbn [fst snd usfstl_assert].
  destruct (bool_decide (fname = [])); [done|]. destruct (bool_decide (filename = [])); [done|].
  cbn -[find_override is_header is_tested]. rewrite Hr.
  destruct (find_override fname (g_usfstl_overrides st)); [split; [by intros r [= <-]|intros r st' [= <- <-]; eauto]|].
  destruct ((start_text_test <=? _) && _); [split; [by intros r [= <-]|intros r st' [= <- <-]; eauto]|].
  split; [done|]. intros r st' H. exists None. split; [done|]. cbn.
  destruct (g_usfstl_current_test st) as [t|]; [|done]. cbn -[is_header is_tested] in H.
  destruct (flow_test t); [by simplify_eq|].
  unfold is_header in H. destruct (2 <=? length filename)%nat; [|done]. unfold mret, M_ret in H.
  destruct (bool_decide (drop _ filename = _)); [by simplify_eq|].
  destruct (tested_files t) as [files|]; [|done].
  destruct (is_tested filename files _) as [[b st1]|]; [|done]. by destruct b; simplify_eq.
Qed.

Lemma coherent_cached _orig st repl :
  coherent st → hash_find (slots_left (HASH_PTR (_orig - 5))) (g_usfstl_hash st) (HASH_PTR (_orig - 5)) (_orig - 5) = Some repl →
  ∃ a, find_repl_uncached _orig st = Ok (a, st) ∧ default _orig a = repl.
Proof.
  intros Hc Hf. apply hash_find_slot in Hf as [k Hk]. apply Hc in Hk.
  replace (_orig - 5 + 5) with _orig in Hk by lia. by eapply uncached_recurse.
Qed.

Lemma coherent_insert _orig st repl n i :
  coherent st → find_repl_uncached _orig st = Ok (Some repl, st) →
  coherent (st <| g_usfstl_hash := hash_insert n (g_usfstl_hash st) i (_orig - 5) repl |>).
Proof.
  intros Hc Hu k o r. set (h := hash_insert _ _ _ _ _). intros Hs.
  change (st <| g_usfstl_hash := h |> <| g_usfstl_recurse := false |>)
    with (st <| g_usfstl_recurse := false |> <| g_usfstl_hash := h |>).
  rewrite (proj1 (uncached_state _ _ h)).
  apply hash_insert_slot in Hs as [Hs|[= -> ->]]; [by rewrite (Hc _ _ _ Hs)|].
  replace (_orig - 5 + 5) with _orig by lia. by rewrite (proj1 (uncached_recurse _orig st) repl Hu).
Qed.

Lemma find_repl_run _orig st t :
  coherent st → g_usfstl_current_test st = Some t → g_usfstl_list_tests st = false →
  match find_repl_uncached _orig st with
  | Ok (a, _) => ∃ h, usfstl_find_repl _orig st = Ok (default _orig a, st <| g_usfstl_hash := h |>) ∧
                      coherent (st <| g_usfstl_hash := h |>)
  | Err f => usfstl_find_repl _orig st = Err f
  end.
Proof.
  intros Hc Ht Hl. unfold usfstl_find_repl. erewrite !bind_ok by done. rewrite Ht, Hl.
  assert (st <| g_usfstl_hash := g_usfstl_hash st |> = st) as Hid by (by destruct st).
  destruct (hash_find _ _ _ _) as [repl|] eqn:Hf.
  - destruct (coherent_cached _ _ _ Hc Hf) as (a & -> & <-). exists (g_usfstl_hash st). by rewrite Hid.
  - unfold mbind, M_bind. destruct (find_repl_uncached _orig st) as [[a st']|f] eqn:Hu; [|done].
    pose proof (proj2 (uncached_state _orig st ∅) _ _ Hu) as ->. destruct a as [repl|].
    + eexists. split; [done|]. by apply coherent_insert.
    + exists (g_usfstl_hash st). by rewrite Hid.
Qed.

(** C29. The hash table in front of [usfstl_find_repl] is transparent: as long
    as only the functions of this file change it, the replacement found, or the
    failure for a function that may not be called, is that of the lookup
    without the table, whether or not the call happens in a recursion and
    wherever entries collide or fall off the table's end; and the table stays
    coherent. *)
Theorem find_repl_cache_transparent _orig st t :
  coherent st → g_usfstl_current_test st = Some t → g_usfstl_list_tests st = false →
  match find_repl_uncached _orig st with
  | Ok (a, _) => ∃ h, usfstl_find_repl _orig st = Ok (default _orig a, st <| g_usfstl_hash := h |>) ∧
                      coherent (st <| g_usfstl_hash := h |>)
  | Err f => usfstl_find_repl _orig st = Err f
  end.
Proof. apply find_repl_run. Qed.

Lemma replace_override_find fname repl l l' :
  replace_override fname repl l = Some l' → find_override fname l' = Some repl ∧
  ∀ n, n ≠ fname → find_override n l' = find_override n l.
Proof.
  unfold find_override. revert l'. induction l as [|[n r] l IH]; intros l'; cbn; [done|].
  case_bool_decide as Hn.
  - intros [= <-]. subst n. cbn. rewrite bool_decide_true by done. split; [done|].
    intros n Hne. by rewrite !bool_decide_false by done.
  - destruct (replace_override fname repl l) as [l1|]; [|done]. cbn. intros [= <-]. cbn.
    rewrite bool_decide_false by done. destruct (IH l1 eq_refl) as [-> IH2]. split; [done|].
    intros m Hne. case_bool_decide; [done|by apply IH2].
Qed.

Lemma append_override_find fname repl l :
  replace_override fname repl l = None → find_override fname (l ++ [(fname, repl)]) = Some repl ∧
  ∀ n, n ≠ fname → find_override n (l ++ [(fname, repl)]) = find_override n l.
Proof.
  unfold find_override. induction l as [|[n r] l IH]; cbn.
  - intros _. rewrite bool_decide_true by done. split; [done|]. intros n Hne. by rewrite bool_decide_false.
  - case_bool_decide as Hn; [done|]. destruct (replace_override fname repl l) as [l1|]; [done|].
    destruct (IH eq_refl) as [IH1 IH2]. intros _. split; [done|].
    intros m Hne. case_bool_decide; [done|by apply IH2].
Qed.

Lemma check_stub_type_keeps fname repl check st st' :
  check_stub_type fname repl check st = Ok (tt, st') → st' = st.
Proof.
  assert (∀ f n r st1 st2, find_info f n st1 = Ok (r, st2) → st2 = st1) as Hfi.
  { intros f n r st1 st2. unfold find_info. repeat case_match; try done; by intros [= <- <-]. }
  unfold check_stub_type. intros H. apply bind_inv in H as (i1 & st1 & H1 & H).
  assert (st1 = st) as ->.
  { destruct (repl =? usfstl_void_stub); [by monad_inv H1|].
    apply bind_inv in H1 as (i & st2 & Hd & H1). monad_inv Hd. by apply Hfi in H1. }
  apply bind_inv in H as (i2 & st2 & ->%Hfi & H). apply bind_inv in H as ([] & st3 & Ha & H). monad_inv Ha.
  destruct check; cbn in H; [|by monad_inv H]. apply bind_inv in H as (b & st4 & Hb & H).
  unfold eq_args in Hb. monad_inv Hb. by monad_inv H.
Qed.

(** C40. A stub takes effect at once: after [usfstl_install_stub] returns, every
    call of the named function is answered with the replacement (NULL: call the
    original), even if that function was looked up and cached before, and the
    answers for functions of other names are what they were. *)
Theorem install_stub_effective fname repl check st st' t _orig filename :
  usfstl_install_stub fname repl check st = Ok (tt, st') → g_usfstl_current_test st = Some t →
  function_info_ptr (_orig - 5) = Some (fname, filename) → fname ≠ [] → filename ≠ [] →
  (∃ st'', usfstl_find_repl _orig st' = Ok (repl, st'')) ∧
  (∀ orig' fname' filename', function_info_ptr (orig' - 5) = Some (fname', filename') → fname' ≠ fname →
     ∀ a, find_repl_uncached orig' st = Ok (a, st) → ∃ st'', usfstl_find_repl orig' st' = Ok (default orig' a, st'')).
Proof.
  intros H Ht Hfi Hfn Hfile. unfold usfstl_install_stub in H.
  apply bind_inv in H as (st0 & st1 & [= <- <-] & H). apply bind_inv in H as ([] & st1 & Hl & H).
  apply assert_inv in Hl as [Hl%negb_true_iff [= ->]]. apply bind_inv in H as ([] & st1 & Hm & H).
  apply modify_inv in Hm as [= ->]. apply bind_inv in H as ([] & st1 & Hc & H).
  assert (st1 = st <| g_usfstl_hash := ∅ |>) as ->.
  { destruct (negb _); cbn in Hc; [by eapply check_stub_type_keeps|by monad_inv Hc]. }
  assert (∃ l, st' = st <| g_usfstl_hash := ∅ |> <| g_usfstl_overrides := l |> ∧ find_override fname l = Some repl ∧
            ∀ n, n ≠ fname → find_override n l = find_override n (g_usfstl_overrides st)) as (l & -> & Hl1 & Hl2).
  { destruct (replace_override fname repl (g_usfstl_overrides st)) as [l|] eqn:Hr.
    - apply modify_inv in H as [= ->]. exists l. split; [done|]. by apply replace_override_find.
    - apply bind_inv in H as ([] & st2 & Ha & H). monad_inv Ha. apply modify_inv in H as [= ->].
      eexists. split; [done|]. by apply append_override_find. }
  set (st' := st <| g_usfstl_hash := ∅ |> <| g_usfstl_overrides := l |>).
  assert (coherent st') as Hcoh by (intros i o r; cbn; unfold slot; by rewrite lookup_empty).
  split.
  - pose proof (find_repl_run _orig st' t Hcoh Ht Hl) as Hrun.
    assert (find_repl_uncached _orig st' = Ok (Some repl, st')) as Hu.
    { unfold find_repl_uncached. rewrite Hfi. unfold mbind, M_bind, mret, M_ret. cbn [fst snd].
      rewrite !bool_decide_false by done. cbn -[find_override]. by rewrite Hl1. }
    rewrite Hu in Hrun. destruct Hrun as (h & Hrun & _). eauto.
  - intros orig' fname' filename' Hfi' Hne a Hu. pose proof (find_repl_run orig' st' t Hcoh Ht Hl) as Hrun.
    assert (find_repl_uncached orig' st' = Ok (a, st')) as Hu'; [|rewrite Hu' in Hrun; destruct Hrun as (h & Hrun & _); eauto].
    rewrite (proj1 (uncached_ext orig' st st' ltac:(intros ?? Hx; rewrite Hfi' in Hx; injection Hx as <- <-; by apply Hl2)
                     eq_refl eq_refl)), Hu. done.
Qed.
End override.

(** ** Witnesses

    Two functions, at 105 (named 1) and 205 (named 2), of file 7. *)
Definition demo_info (a : Z) : option (cstring * cstring) :=
  if a =? 100 then Some ([1], [7; 7]) else if a =? 200 then Some ([2], [7; 7])
  else if a =? 300 then Some ([3], [7; 7]) else None.
Definition demo_func (file : option cstring) (f : cstring) : option (cstring * option cstring) :=
  Some (void_string, None).
Definition demo_state : state := State ∅ [] (Some (Test true None)) false false.

Lemma find_repl_cache_transparent_witness :
  ∃ h, usfstl_find_repl demo_info 0 0 105 demo_state = Ok (105, demo_state <| g_usfstl_hash := h |>).
Proof.
  destruct (find_repl_cache_transparent demo_info 0 0 105 demo_state (Test true None)) as (h & H & _).
  - intros i o r. cbn. unfold slot. by rewrite lookup_empty.
  - done.
  - done.
  - by exists h.
Defined.

(** The state in which the lookup of function 1 is cached. *)
Definition demo_cached : state := demo_state <| g_usfstl_hash := {[HASH_PTR 100 := (100, 105)]} |>.

Lemma install_stub_effective_witness :
  ∃ st1 st2 st3, usfstl_install_stub demo_info demo_func 999 [1] 300 false demo_cached = Ok (tt, st1) ∧
    usfstl_find_repl demo_info 0 0 105 st1 = Ok (300, st2) ∧
    usfstl_find_repl demo_info 0 0 205 st1 = Ok (205, st3).
Proof.
  set (st1 := demo_state <| g_usfstl_overrides := [([1], 300)] |>).
  assert (usfstl_install_stub demo_info demo_func 999 [1] 300 false demo_cached = Ok (tt, st1)) as Hi
    by (vm_compute; reflexivity).
  destruct (install_stub_effective demo_info demo_func 0 0 999 [1] 300 false demo_cached st1 (Test true None) 105 [7; 7] Hi)
    as [[st2 H2] Hother]; [done|done|done|done|].
  destruct (Hother 205 [2] [7; 7]) with (a := Some 205) as [st3 H3]; [done|done|done|].
  exists st1, st2, st3. split; [exact Hi|]. split; [exact H2|exact H3].
Defined.
