(* ===== verification/Loop.v ===== *)
(** * The main loop (src/loop.c, include/usfstl/loop.h)

    The registered entries in list order; an entry's priority does not change
    while it is registered, as loop.h asks. *)
From S2P Require Import Prelude.

Section loop.
Context (priority : Z → Z).

(** The list after [usfstl_loop_register(entry)]. *)
Fixpoint usfstl_loop_register (entry : Z) (entries : list Z) : list Z :=
  match entries with
  | [] => [entry]
  | tmp :: rest =>
      if priority entry >=? priority tmp then entry :: entries
      else tmp :: usfstl_loop_register entry rest
  end.

(** The list after [usfstl_loop_unregister(entry)]. *)
Definition usfstl_loop_unregister (entry : Z) (entries : list Z) : list Z :=
  List.filter (λ e, negb (e =? entry)) entries.

(** The entry whose handler [usfstl_loop_wait_and_handle] calls when the entries
    in [isset] are the readable ones. *)
Definition loop_choose (isset : Z → bool) (entries : list Z) : option Z := List.find isset entries.

(** Higher priorities first. *)
Definition loop_sorted (entries : list Z) : Prop :=
  StronglySorted (λ a b, priority b ≤ priority a) entries.

Lemma loop_register_elem e l x : x ∈ usfstl_loop_register e l ↔ x = e ∨ x ∈ l.
Proof.
  induction l as [|y l IH]; cbn; [set_solver|]. destruct (_ >=? _); set_solver.
Qed.

Lemma loop_register_sorted e l : loop_sorted l → loop_sorted (usfstl_loop_register e l).
Proof.
  unfold loop_sorted. induction 1 as [|y l Hl IH Hy]; cbn.
  { repeat constructor. }
  destruct (priority e >=? priority y) eqn:Hc; [|constructor; [done|]].
  - constructor; [by constructor|]. constructor; [lia|].
    eapply Forall_impl; [done|]. cbn. lia.
  - apply Forall_forall. intros z Hz. apply loop_register_elem in Hz as [->|Hz]; [lia|].
    rewrite Forall_forall in Hy. auto.
Qed.

Lemma loop_unregister_sorted e l : loop_sorted l → loop_sorted (usfstl_loop_unregister e l).
Proof.
  unfold loop_sorted, usfstl_loop_unregister. induction 1 as [|y l Hl IH Hy]; cbn; [constructor|].
  destruct (negb _); [|done]. constructor; [done|]. rewrite Forall_forall in Hy |- *.
  intros z Hz. apply Hy. apply list_elem_of_In, filter_In in Hz as [Hz _]. by apply list_elem_of_In.
Qed.

(** The entries that a sequence of registrations and unregistrations leaves. *)
Inductive loop_op := LReg (e : Z) | LUnreg (e : Z).

Definition do_loop_op (l : list Z) (op : loop_op) : list Z :=
  match op with LReg e => usfstl_loop_register e l | LUnreg e => usfstl_loop_unregister e l end.

(** After any sequence of registrations and unregistrations the loop serves a
    readable entry of the highest priority, and it serves one whenever an entry
    is readable. *)
Theorem loop_serves_highest ops isset :
  let entries := foldl do_loop_op [] ops in
  match loop_choose isset entries with
  | Some e => e ∈ entries ∧ isset e = true ∧
      ∀ e', e' ∈ entries → isset e' = true → priority e' ≤ priority e
  | None => ∀ e', e' ∈ entries → isset e' = false
  end.
Proof.
  intros entries. assert (loop_sorted entries) as Hs.
  { subst entries. assert (loop_sorted []) as H0 by constructor. revert H0. generalize ([] : list Z).
    induction ops as [|op ops IH]; intros l Hl; [done|]. apply IH.
    destruct op; [by apply loop_register_sorted|by apply loop_unregister_sorted]. }
  clearbody entries. unfold loop_choose. induction Hs as [|y l Hl IH Hy]; cbn; [set_solver|].
  destruct (isset y) eqn:Ey.
  - split_and!; [set_solver|done|]. intros e' [->|He']%elem_of_cons _; [lia|].
    rewrite Forall_forall in Hy. auto.
  - destruct (List.find isset l) as [e|]; [|intros e' [->|?]%elem_of_cons; auto].
    destruct IH as (H1 & H2 & H3). split_and!; [set_solver|done|].
    intros e' [->|He']%elem_of_cons Hi; [congruence|auto].
Qed.
End loop.
