(* ===== verification/Timetravel.v ===== *)
(** * The time travel protocol (include/linux/um_timetravel.h)

    The messages between the controller (the calendar) and its clients (the
    hosts), and the shared memory they schedule through. *)
From S2P Require Import Prelude.

Abbreviation UM_TIMETRAVEL_ACK := 0%Z (only parsing).
Abbreviation UM_TIMETRAVEL_START := 1%Z (only parsing).
Abbreviation UM_TIMETRAVEL_REQUEST := 2%Z (only parsing).
Abbreviation UM_TIMETRAVEL_WAIT := 3%Z (only parsing).
Abbreviation UM_TIMETRAVEL_GET := 4%Z (only parsing).
Abbreviation UM_TIMETRAVEL_UPDATE := 5%Z (only parsing).
Abbreviation UM_TIMETRAVEL_RUN := 6%Z (only parsing).
Abbreviation UM_TIMETRAVEL_FREE_UNTIL := 7%Z (only parsing).
Abbreviation UM_TIMETRAVEL_GET_TOD := 8%Z (only parsing).
Abbreviation UM_TIMETRAVEL_BROADCAST := 9%Z (only parsing).

Abbreviation UM_TIMETRAVEL_MAX_FDS := 2%Z (only parsing).
Abbreviation UM_TIMETRAVEL_SHARED_MEMFD := 0%Z (only parsing).
Abbreviation UM_TIMETRAVEL_SHARED_LOGFD := 1%Z (only parsing).
Abbreviation UM_TIMETRAVEL_SHARED_MAX_FDS := 2%Z (only parsing).
Abbreviation UM_TIMETRAVEL_START_ACK_ID := 65535%Z (only parsing).
Abbreviation UM_TIMETRAVEL_SCHEDSHM_VERSION := 2%Z (only parsing).
Abbreviation UM_TIMETRAVEL_SCHEDSHM_CAP_TIME_SHARE := 1%Z (only parsing).
Abbreviation UM_TIMETRAVEL_SCHEDSHM_FLAGS_REQ_RUN := 1%Z (only parsing).

Record um_timetravel_msg := Msg {
  msg_op : Z;
  msg_seq : Z;
  msg_time : Z;
}.

Record um_timetravel_schedshm_client := ShmClient {
  capa : Z;
  flags : Z;
  req_time : Z;
  shm_client_name : Z;
}.
#[export] Instance shm_client_settable : Settable um_timetravel_schedshm_client := λ r,
  ShmClient (capa r) (flags r) (req_time r) (shm_client_name r).

(** All zero ([memset]). *)
Definition shm_client_zero : um_timetravel_schedshm_client := ShmClient 0 0 0 0.

(** The size of the [clients] array is that of the mapping. *)
Record um_timetravel_schedshm := Schedshm {
  version : Z;
  len : Z;
  free_until : Z;
  shm_time : Z;
  running_id : Z;
  max_clients : Z;
  shm_clients : list um_timetravel_schedshm_client;
}.
#[export] Instance schedshm_settable : Settable um_timetravel_schedshm := λ r,
  Schedshm (version r) (len r) (free_until r) (shm_time r) (running_id r) (max_clients r)
    (shm_clients r).

(** [mem->clients[id] = f(mem->clients[id])], inside the array. *)
Definition upd_shm_client (id : Z) (f : um_timetravel_schedshm_client → um_timetravel_schedshm_client)
    (mem : um_timetravel_schedshm) : um_timetravel_schedshm :=
  mem <| shm_clients := alter f (Z.to_nat id) (shm_clients mem) |>.

Definition has_time_share (c : um_timetravel_schedshm_client) : bool :=
  negb (Z.land (capa c) UM_TIMETRAVEL_SCHEDSHM_CAP_TIME_SHARE =? 0).

Definition has_req_run (c : um_timetravel_schedshm_client) : bool :=
  negb (Z.land (flags c) UM_TIMETRAVEL_SCHEDSHM_FLAGS_REQ_RUN =? 0).

Definition set_req_run (c : um_timetravel_schedshm_client) : um_timetravel_schedshm_client :=
  c <| flags := Z.lor (flags c) UM_TIMETRAVEL_SCHEDSHM_FLAGS_REQ_RUN |>.

Definition clear_req_run (c : um_timetravel_schedshm_client) : um_timetravel_schedshm_client :=
  c <| flags := Z.ldiff (flags c) UM_TIMETRAVEL_SCHEDSHM_FLAGS_REQ_RUN |>.

(** Computes comparisons of operation codes. *)
Ltac eval_ops :=
  cbn [msg_op msg_seq msg_time Z.eqb Pos.eqb andb orb negb].
