(* ===== verification/SchedCtrl.v ===== *)
(** * The controller client (src/schedctrl.c, include/usfstl/schedctrl.h)

    A scheduler whose time is given by a controller process, through messages
    on a socket or through shared memory.  What the other processes do is a
    list of events in the order in which the main loop (src/loop.c) sees them;
    what is sent is recorded.  Handlers that run while the code waits for an
    answer may call back into it. *)
From S2P Require Import Prelude Sched Timetravel.

(** ** Data *)

(** Calls that user code makes: from handlers of other main loop entries and of
    broadcast messages, and from the callbacks of jobs. *)
Inductive user_op :=
  | UAddJob (s j start : Z)
  | UDelJob (j : Z)
  | USyncTo (ctrl : Z)
  | USyncFrom (ctrl : Z)
  | UYield (ctrl : Z)
  | UBroadcast (ctrl bc_message : Z)
  | USetFrozen (ctrl : Z) (frozen : bool).

Inductive ctrl_fn :=
  | usfstl_sched_ctrl_request_fn
  | usfstl_sched_ctrl_wait_fn
  | _schedctrl_get_time_fn
  | _schedctrl_set_time_fn
  | _schedctrl_request_shm_fn
  | user_script_fn (ops : list user_op).

Inductive msg_fds_fn :=
  | _sched_ctrl_ack_start_handle_fn
  | user_msg_fds_fn (ops : list user_op).

(** [shm_mem] and [flog] are the descriptors the mapping and the stream were
    made from; [offset] is an [int64_t]. *)
Record usfstl_sched_ctrl := Ctrl {
  ctrl_sched : option Z;
  ack_time : Z;
  offset : Z;
  nsec_per_tick : Z;
  ctrl_fd : Z;
  ctrl_waiting : bool;
  acked : bool;
  frozen : bool;
  started : bool;
  expected_ack_seq : Z;
  shm_id : Z;
  shm_mem : option Z;
  flog : option Z;
  handle_bc_message : option (list user_op);
  handle_msg_fds : option msg_fds_fn;
}.
#[export] Instance ctrl_settable : Settable usfstl_sched_ctrl := λ r,
  Ctrl (ctrl_sched r) (ack_time r) (offset r) (nsec_per_tick r) (ctrl_fd r) (ctrl_waiting r)
    (acked r) (frozen r) (started r) (expected_ack_seq r) (shm_id r) (shm_mem r) (flog r)
    (handle_bc_message r) (handle_msg_fds r).

Definition ctrl_zero : usfstl_sched_ctrl :=
  Ctrl None 0 0 0 0 false false false false 0 0 None None None None.

(** What becomes readable, with what the other processes wrote to the shared
    memory before it. *)
Inductive readable :=
  | RMsg (fd : Z) (msg : um_timetravel_msg) (fds : list Z)
  | RHangup (fd : Z)
  | ROther (ops : list user_op).

Record event := Event {
  peer_writes : list (Z * um_timetravel_schedshm);
  ready : readable;
}.

(** [send_seq] and [old_expected] are the static variables of
    [usfstl_sched_ctrl_send_msg]; [mems] are the shared memory files by
    descriptor, [conns] the connections made by [usfstl_uds_connect]. *)
Record cenv := CEnv {
  ctrls : gmap Z usfstl_sched_ctrl;
  mems : gmap Z um_timetravel_schedshm;
  conns : gmap Z Z;
  closed : list Z;
  send_seq : Z;
  old_expected : Z;
  inbox : list event;
  sent : list (Z * um_timetravel_msg);
  write_error : bool;
}.
#[export] Instance cenv_settable : Settable cenv := λ r,
  CEnv (ctrls r) (mems r) (conns r) (closed r) (send_seq r) (old_expected r) (inbox r) (sent r)
    (write_error r).

Abbreviation CW := (world cenv ctrl_fn).

Definition upd_cenv (f : cenv → cenv) : M CW unit := modify (λ w, w <| env := f (env w) |>).
Definition get_ctrl (c : Z) : M CW usfstl_sched_ctrl := w ← get; deref (ctrls (env w) !! c).
Definition put_ctrl (c : Z) (x : usfstl_sched_ctrl) : M CW unit :=
  upd_cenv (λ e, e <| ctrls := <[c:=x]> (ctrls e) |>).
Definition upd_ctrl (c : Z) (f : usfstl_sched_ctrl → usfstl_sched_ctrl) : M CW unit :=
  x ← get_ctrl c; put_ctrl c (f x).

(** [*ctrl->shm.mem]. *)
Definition get_mem (x : usfstl_sched_ctrl) : M CW um_timetravel_schedshm :=
  k ← deref (shm_mem x); w ← get; deref (mems (env w) !! k).
Definition put_mem (x : usfstl_sched_ctrl) (mem : um_timetravel_schedshm) : M CW unit :=
  k ← deref (shm_mem x); upd_cenv (λ e, e <| mems := <[k:=mem]> (mems e) |>).

Definition is_null {A : Type} (o : option A) : bool := match o with None => true | Some _ => false end.

(** ** Incoming events *)

Definition apply_writes (ws : list (Z * um_timetravel_schedshm)) : M CW unit :=
  upd_cenv (λ e, e <| mems := foldl (λ m p, <[p.1:=p.2]> m) (mems e) ws |>).

(** The next event of the main loop; the process blocks when there is none. *)
Definition next_event : M CW readable :=
  w ← get;
  match inbox (env w) with
  | [] => fail Blocked
  | ev :: evs =>
      upd_cenv (λ e, e <| inbox := evs |>);;
      apply_writes (peer_writes ev);;
      mret (ready ev)
  end.

Definition is_from (fd : Z) (ev : event) : bool :=
  match ready ev with RMsg fd' _ _ => fd' =? fd | RHangup fd' => fd' =? fd | ROther _ => false end.

(** The first event on [fd], and the others. *)
Fixpoint take_from (fd : Z) (evs : list event) : option (event * list event) :=
  match evs with
  | [] => None
  | ev :: evs =>
      if is_from fd ev then Some (ev, evs)
      else p ← take_from fd evs; Some (p.1, ev :: p.2)
  end.

(** The next event of one socket. *)
Definition next_event_on (fd : Z) : M CW readable :=
  w ← get;
  match take_from fd (inbox (env w)) with
  | None => fail Blocked
  | Some (ev, evs) =>
      upd_cenv (λ e, e <| inbox := evs |>);;
      apply_writes (peer_writes ev);;
      mret (ready ev)
  end.

(** ** Sending *)
Definition _usfstl_sched_ctrl_send_msg (c op time seq : Z) : M CW unit :=
  x ← get_ctrl c;
  w ← get;
  usfstl_assert (negb (write_error (env w)));;
  upd_cenv (λ e, e <| sent := sent e ++ [(ctrl_fd x, Msg op seq time)] |>).

(** ** Shared memory *)

Definition _schedshm_setup_shared_mem (c : Z) (schedshm_fds : list Z) : M CW unit :=
  memfd ← array_get schedshm_fds UM_TIMETRAVEL_SHARED_MEMFD;
  x ← get_ctrl c;
  usfstl_assert (is_null (shm_mem x));;
  w ← get;
  usfstl_assert (negb (is_null (mems (env w) !! memfd)));;
  logfd ← array_get schedshm_fds UM_TIMETRAVEL_SHARED_LOGFD;
  put_ctrl c (x <| shm_mem := Some memfd |> <| flog := Some logfd |>).

Definition _schedshm_cleanup (c : Z) : M CW unit :=
  x ← get_ctrl c;
  when (negb (is_null (shm_mem x))) (put_ctrl c (x <| shm_mem := None |> <| flog := None |>)).

Definition _schedshm_handle_fds (c : Z) (schedshm_fds : list Z) : M CW bool :=
  _schedshm_setup_shared_mem c schedshm_fds;;
  x ← get_ctrl c;
  mem ← get_mem x;
  if negb (version mem =? UM_TIMETRAVEL_SCHEDSHM_VERSION) then
    _schedshm_cleanup c;;
    mret true
  else mret false.

Definition _schedctrl_get_time (s : Z) : M CW Z :=
  sc ← get_sched s;
  c ← deref (ext_ctrl sc);
  x ← get_ctrl c;
  mem ← get_mem x;
  if frozen x then
    s' ← deref (ctrl_sched x);
    sc' ← get_sched s';
    let local := u64 (current_time sc' * nsec_per_tick x) in
    put_ctrl c (x <| offset := s64 (shm_time mem - local) |>);;
    mret (current_time sc')
  else
    if nsec_per_tick x =? 0 then fail DivByZero
    else mret (DIV_ROUND_UP (u64 (shm_time mem - offset x)) (nsec_per_tick x)).

(** Local to controller time. *)
Definition to_ctrl (x : usfstl_sched_ctrl) (time : Z) : Z := u64 (time * nsec_per_tick x + offset x).

Definition _schedctrl_set_time (s time : Z) : M CW unit :=
  sc ← get_sched s;
  c ← deref (ext_ctrl sc);
  x ← get_ctrl c;
  mem ← get_mem x;
  let old_time := shm_time mem in
  let new_time := to_ctrl x time in
  usfstl_assert (negb (frozen x));;
  usfstl_assert (running_id mem =? shm_id x);;
  usfstl_assert (usfstl_time_cmp new_time Z.geb old_time);;
  usfstl_assert (usfstl_time_cmp new_time Z.leb (free_until mem));;
  put_mem x (mem <| shm_time := new_time |>).

(** ** Messages

    [env0] is what calls through the scheduler's function pointers do, and
    [run_user] runs user code, when they are called back from here. *)
Section schedctrl.
Context (env0 : SchedEnv cenv ctrl_fn) (run_user : list user_op → M CW unit).
#[local] Existing Instance env0.

Definition _sched_ctrl_ack_start_handle (c : Z) (msg : um_timetravel_msg) (fds : list Z) : M CW unit :=
  upd_ctrl c (λ x, x <| shm_id := Z.land (msg_time msg) UM_TIMETRAVEL_START_ACK_ID |>
                     <| handle_msg_fds := None |>);;
  usfstl_assert (Z.of_nat (length fds) =? UM_TIMETRAVEL_SHARED_MAX_FDS);;
  unsupported ← _schedshm_handle_fds c fds;
  if (unsupported : bool) then mret tt
  else
    x ← get_ctrl c;
    s ← deref (ctrl_sched x);
    now ← usfstl_sched_current_time s;
    x ← get_ctrl c;
    mem ← get_mem x;
    let local := u64 (now * nsec_per_tick x) in
    put_ctrl c (x <| offset := s64 (shm_time mem - local) |>);;
    upd_sched s (λ sc, sc <| external_get_time := Some _schedctrl_get_time_fn |>
                          <| external_set_time := Some _schedctrl_set_time_fn |>
                          <| external_request := Some _schedctrl_request_shm_fn |>);;
    array_get (shm_clients mem) (shm_id x);;
    put_mem x (upd_shm_client (shm_id x)
      (λ cl, cl <| capa := Z.lor (capa cl) UM_TIMETRAVEL_SCHEDSHM_CAP_TIME_SHARE |>) mem).

Definition _sched_ctrl_get_msg_fds (fds : list Z) (max_fds : Z) : M CW (list Z) :=
  usfstl_assert (Z.of_nat (length fds) <=? max_fds);;
  mret fds.

Definition _sched_ctrl_handle_fds (c : Z) (msg : um_timetravel_msg) (fds : list Z) : M CW unit :=
  msg_fds ← _sched_ctrl_get_msg_fds fds UM_TIMETRAVEL_MAX_FDS;
  match msg_fds with
  | [] => mret tt
  | _ =>
      x ← get_ctrl c;
      match handle_msg_fds x with
      | None => mret tt
      | Some _sched_ctrl_ack_start_handle_fn => _sched_ctrl_ack_start_handle c msg msg_fds
      | Some (user_msg_fds_fn ops) => run_user ops
      end;;
      upd_cenv (λ e, e <| closed := closed e ++ msg_fds |>)
  end.

(** [usfstl_sched_ctrl_sock_read], on what [recvmsg] returned. *)
Definition usfstl_sched_ctrl_sock_read (c : Z) (r : readable) : M CW unit :=
  match r with
  | ROther _ => fail Blocked
  | RHangup _ => fail Assertion
  | RMsg _ msg fds =>
      x ← get_ctrl c;
      if msg_op msg =? UM_TIMETRAVEL_ACK then
        when (msg_seq msg =? expected_ack_seq x)
          (put_ctrl c (x <| acked := true |> <| ack_time := msg_time msg |>);;
           _sched_ctrl_handle_fds c msg fds)
      else if (msg_op msg =? UM_TIMETRAVEL_RUN) && negb (is_null (shm_mem x)) then
        put_ctrl c (x <| ctrl_waiting := false |>);;
        mem ← get_mem x;
        usfstl_assert (running_id mem =? shm_id x)
      else
        (if msg_op msg =? UM_TIMETRAVEL_RUN then
           put_ctrl c (x <| ctrl_waiting := false |>);;
           s ← deref (ctrl_sched x);
           if nsec_per_tick x =? 0 then fail DivByZero
           else usfstl_sched_set_time s
                  (DIV_ROUND_UP (u64 (msg_time msg - offset x)) (nsec_per_tick x))
         else if msg_op msg =? UM_TIMETRAVEL_FREE_UNTIL then
           s ← deref (ctrl_sched x);
           time ← div_by (u64 (msg_time msg - offset x)) (nsec_per_tick x);
           usfstl_sched_set_sync_time s time
         else if msg_op msg =? UM_TIMETRAVEL_BROADCAST then
           match handle_bc_message x with None => mret tt | Some ops => run_user ops end
         else
           usfstl_assert (negb (bool_decide (msg_op msg ∈
             [UM_TIMETRAVEL_START; UM_TIMETRAVEL_REQUEST; UM_TIMETRAVEL_WAIT; UM_TIMETRAVEL_GET;
              UM_TIMETRAVEL_UPDATE; UM_TIMETRAVEL_GET_TOD]))));;
        _usfstl_sched_ctrl_send_msg c UM_TIMETRAVEL_ACK 0 (msg_seq msg)
  end.

(** [usfstl_loop_wait_and_handle] in a process whose entries are the
    connections to controllers and user entries. *)
Definition usfstl_loop_wait_and_handle : M CW unit :=
  r ← next_event;
  match r with
  | ROther ops => run_user ops
  | RMsg fd _ _ | RHangup fd =>
      w ← get;
      c ← deref (conns (env w) !! fd);
      usfstl_sched_ctrl_sock_read c r
  end.

(** Each round of a waiting loop takes an event. *)
Definition wait_while (cond : M CW bool) : M CW unit :=
  w ← get;
  while (S (length (inbox (env w)))) cond usfstl_loop_wait_and_handle.

(** [do { seq++; } while (seq == 0);] *)
Definition bump_seq (seq : Z) : Z :=
  let seq := u32 (seq + 1) in if seq =? 0 then 1 else seq.

Definition usfstl_sched_ctrl_send_msg (c op time : Z) : M CW unit :=
  upd_cenv (λ e, e <| send_seq := bump_seq (send_seq e) |>);;
  w ← get;
  let seq := send_seq (env w) in
  _usfstl_sched_ctrl_send_msg c op time seq;;
  x ← get_ctrl c;
  if negb (is_null (shm_mem x)) && (op =? UM_TIMETRAVEL_WAIT) then mret tt
  else
    upd_cenv (λ e, e <| old_expected := expected_ack_seq x |>);;
    put_ctrl c (x <| expected_ack_seq := seq |>);;
    usfstl_assert (negb (acked x));;
    when (op =? UM_TIMETRAVEL_WAIT)
      (r ← next_event_on (ctrl_fd x);
       usfstl_sched_ctrl_sock_read c r;;
       x ← get_ctrl c;
       usfstl_assert (acked x));;
    wait_while (x ← get_ctrl c; mret (negb (acked x)));;
    w ← get;
    upd_ctrl c (λ x, x <| acked := false |> <| expected_ack_seq := old_expected (env w) |>);;
    when (op =? UM_TIMETRAVEL_GET)
      (x ← get_ctrl c;
       s ← deref (ctrl_sched x);
       if frozen x then
         now ← usfstl_sched_current_time s;
         upd_ctrl c (λ x, x <| offset := s64 (ack_time x - u64 (now * nsec_per_tick x)) |>)
       else if nsec_per_tick x =? 0 then fail DivByZero
       else usfstl_sched_set_time s
              (DIV_ROUND_UP (u64 (ack_time x - offset x)) (nsec_per_tick x))).

Definition usfstl_sched_ctrl_send_bc (c bc_message : Z) : M CW unit :=
  x ← get_ctrl c;
  usfstl_assert (started x);;
  usfstl_sched_ctrl_send_msg c UM_TIMETRAVEL_BROADCAST bc_message.

Definition usfstl_sched_ctrl_request (s time : Z) : M CW usfstl_sched_req_status :=
  sc ← get_sched s;
  c ← deref (ext_ctrl sc);
  x ← get_ctrl c;
  if negb (started x) then mret USFSTL_SCHED_REQ_STATUS_CAN_RUN
  else
    usfstl_sched_ctrl_send_msg c UM_TIMETRAVEL_REQUEST (to_ctrl x time);;
    mret USFSTL_SCHED_REQ_STATUS_WAIT.

Definition usfstl_sched_ctrl_wait (s : Z) : M CW unit :=
  sc ← get_sched s;
  c ← deref (ext_ctrl sc);
  upd_ctrl c (λ x, x <| ctrl_waiting := true |>);;
  usfstl_sched_ctrl_send_msg c UM_TIMETRAVEL_WAIT (u64 (-1));;
  wait_while (x ← get_ctrl c; mret (ctrl_waiting x));;
  x ← get_ctrl c;
  when (negb (is_null (shm_mem x)) && started x)
    (mem ← get_mem x;
     usfstl_assert (running_id mem =? shm_id x);;
     array_get (shm_clients mem) (shm_id x);;
     put_mem x (upd_shm_client (shm_id x) clear_req_run mem)).

Definition usfstl_sched_ctrl_yield (c : Z) : M CW unit :=
  x ← get_ctrl c;
  s ← deref (ctrl_sched x);
  time ← usfstl_sched_current_time s;
  usfstl_sched_ctrl_request s time;;
  usfstl_sched_ctrl_wait s.

Definition _schedctrl_request_shm (s time : Z) : M CW usfstl_sched_req_status :=
  sc ← get_sched s;
  c ← deref (ext_ctrl sc);
  x ← get_ctrl c;
  let req := to_ctrl x time in
  if negb (started x) then mret USFSTL_SCHED_REQ_STATUS_CAN_RUN
  else
    mem ← get_mem x;
    shm_running ← array_get (shm_clients mem) (running_id mem);
    if negb (has_time_share shm_running) then
      usfstl_sched_ctrl_send_msg c UM_TIMETRAVEL_REQUEST (to_ctrl x time);;
      mret USFSTL_SCHED_REQ_STATUS_WAIT
    else
      usfstl_assert (usfstl_time_cmp req Z.geb (shm_time mem));;
      if usfstl_time_cmp req Z.ltb (free_until mem) && negb (ctrl_waiting x) then
        mret USFSTL_SCHED_REQ_STATUS_CAN_RUN
      else
        let mem := if usfstl_time_cmp req Z.ltb (free_until mem)
                   then mem <| free_until := req |> else mem in
        array_get (shm_clients mem) (shm_id x);;
        put_mem x (upd_shm_client (shm_id x)
          (λ cl, set_req_run (cl <| req_time := req |>)) mem);;
        mret USFSTL_SCHED_REQ_STATUS_WAIT.

(** [fd] is what [usfstl_uds_connect] returns, [tick] is [nsec_per_tick]. *)
Definition usfstl_sched_ctrl_start (c fd tick client_id s : Z) : M CW unit :=
  x ← get_ctrl c;
  usfstl_assert (is_null (ctrl_sched x));;
  sc ← get_sched s;
  usfstl_assert (is_null (ext_ctrl sc));;
  put_ctrl c ctrl_zero;;
  now ← usfstl_sched_current_time s;
  upd_ctrl c (λ x, x <| offset := s64 (u64 (- now) * tick) |>
                     <| nsec_per_tick := tick |> <| ctrl_sched := Some s |>);;
  upd_sched s (λ sc, sc <| ext_ctrl := Some c |>);;
  job ← usfstl_sched_next_pending s None;
  usfstl_assert (is_null job);;
  sc ← get_sched s;
  usfstl_assert (is_null (external_request sc));;
  usfstl_assert (is_null (external_wait sc));;
  put_sched s (sc <| external_request := Some usfstl_sched_ctrl_request_fn |>
                  <| external_wait := Some usfstl_sched_ctrl_wait_fn |>);;
  upd_cenv (λ e, e <| conns := <[fd:=c]> (conns e) |>);;
  upd_ctrl c (λ x, x <| ctrl_fd := fd |> <| ctrl_waiting := true |>
                     <| handle_msg_fds := Some _sched_ctrl_ack_start_handle_fn |>);;
  usfstl_sched_ctrl_send_msg c UM_TIMETRAVEL_START client_id;;
  upd_ctrl c (λ x, x <| started := true |> <| ctrl_waiting := false |>);;
  job ← usfstl_sched_next_pending s None;
  match job with
  | None => mret tt
  | Some j =>
      jb ← get_job j;
      usfstl_sched_ctrl_send_msg c UM_TIMETRAVEL_REQUEST (u64 (start jb * tick))
  end.

Definition usfstl_sched_ctrl_sync_to (c : Z) : M CW unit :=
  x ← get_ctrl c;
  usfstl_assert (started x);;
  if negb (is_null (shm_mem x)) then mret tt
  else
    s ← deref (ctrl_sched x);
    now ← usfstl_sched_current_time s;
    x ← get_ctrl c;
    usfstl_sched_ctrl_send_msg c UM_TIMETRAVEL_UPDATE (to_ctrl x now).

Definition usfstl_sched_ctrl_sync_from (c : Z) : M CW unit :=
  x ← get_ctrl c;
  if negb (started x) then mret tt
  else if negb (is_null (shm_mem x)) then mret tt
  else usfstl_sched_ctrl_send_msg c UM_TIMETRAVEL_GET (u64 (-1)).

Definition usfstl_sched_ctrl_stop (c : Z) : M CW unit :=
  x ← get_ctrl c;
  s ← deref (ctrl_sched x);
  sc ← get_sched s;
  usfstl_assert (bool_decide (ext_ctrl sc = Some c));;
  upd_cenv (λ e, e <| conns := delete (ctrl_fd x) (conns e) |>
                   <| closed := closed e ++ [ctrl_fd x] |>);;
  _schedshm_cleanup c;;
  upd_sched s (λ sc, sc <| ext_ctrl := None |> <| external_request := None |>
    <| external_wait := None |> <| external_get_time := None |> <| external_set_time := None |>);;
  upd_ctrl c (λ x, x <| ctrl_sched := None |>).

Definition usfstl_sched_ctrl_set_frozen (c : Z) (b : bool) : M CW unit :=
  upd_ctrl c (λ x, x <| frozen := b |>).

(** ** Calls from user code *)
Definition do_user_op (op : user_op) : M CW unit :=
  match op with
  | UAddJob s j start => upd_job j (λ jb, jb <| Sched.start := start |>);; usfstl_sched_add_job s j
  | UDelJob j => usfstl_sched_del_job j
  | USyncTo c => usfstl_sched_ctrl_sync_to c
  | USyncFrom c => usfstl_sched_ctrl_sync_from c
  | UYield c => usfstl_sched_ctrl_yield c
  | UBroadcast c m => usfstl_sched_ctrl_send_bc c m
  | USetFrozen c b => usfstl_sched_ctrl_set_frozen c b
  end.

Fixpoint do_user (ops : list user_op) : M CW unit :=
  match ops with
  | [] => mret tt
  | op :: ops => do_user_op op;; do_user ops
  end.

Definition ctrl_env : SchedEnv cenv ctrl_fn := {|
  disable_skip_external_request := false;
  call_request f s t :=
    match f with
    | usfstl_sched_ctrl_request_fn => usfstl_sched_ctrl_request s t
    | _schedctrl_request_shm_fn => _schedctrl_request_shm s t
    | _ => fail NullDeref
    end;
  call_wait f s :=
    match f with usfstl_sched_ctrl_wait_fn => usfstl_sched_ctrl_wait s | _ => fail NullDeref end;
  call_get_time f s :=
    match f with _schedctrl_get_time_fn => _schedctrl_get_time s | _ => fail NullDeref end;
  call_set_time f s t :=
    match f with _schedctrl_set_time_fn => _schedctrl_set_time s t | _ => fail NullDeref end;
  call_time_advanced f s t := match f with user_script_fn ops => do_user ops | _ => fail NullDeref end;
  call_next_time_changed f s := match f with user_script_fn ops => do_user ops | _ => fail NullDeref end;
  call_callback f j := match f with user_script_fn ops => do_user ops | _ => fail NullDeref end;
|}.
End schedctrl.

(** Calls nested at most [n] deep. *)
Fixpoint ctrl_level (n : nat) : SchedEnv cenv ctrl_fn * (list user_op → M CW unit) :=
  match n with
  | O => (env_bottom, λ _, fail OutOfFuel)
  | S n => let '(e, u) := ctrl_level n in (ctrl_env e u, do_user e u)
  end.

Definition env_at (n : nat) : SchedEnv cenv ctrl_fn := (ctrl_level n).1.
Definition user_at (n : nat) : list user_op → M CW unit := (ctrl_level n).2.
