(* ===== verification/SchedCtrlProps.v ===== *)
(** * Theorems on the controller client (src/schedctrl.c)

    A scheduler that moves to a time through its controller: the messages it
    exchanges and the time it arrives at, without and with shared memory; what
    happens when exchanges nest. *)
From S2P Require Import Prelude Sched SchedQueue SchedProps SchedTime Timetravel SchedCtrl.

(** A message on the controller's socket. *)
Definition from_ctrl (x : usfstl_sched_ctrl) (m : um_timetravel_msg) : event :=
  Event [] (RMsg (ctrl_fd x) m []).

(** The state of a process that uses the controller [c] for the scheduler [s],
    over a base state [w]. *)
Definition client_world (w : CW) (s c : Z) (sc : usfstl_scheduler ctrl_fn) (x : usfstl_sched_ctrl)
    (seq old : Z) (evs : list event) (out : list (Z * um_timetravel_msg)) : CW :=
  World (jobs w) (<[s:=sc]> (scheds w))
    ((env w) <| ctrls := <[c:=x]> (ctrls (env w)) |> <| send_seq := seq |> <| old_expected := old |>
             <| inbox := evs |> <| sent := out |>).

(** A started client in message mode, between calls. *)
Record connected (w : CW) (s c : Z) (sc : usfstl_scheduler ctrl_fn) (x : usfstl_sched_ctrl) : Prop := {
  co_sched : scheds w !! s = Some sc;
  co_ctrl : ctrls (env w) !! c = Some x;
  co_ext : ext_ctrl sc = Some c;
  co_of : ctrl_sched x = Some s;
  co_conn : conns (env w) !! ctrl_fd x = Some c;
  co_request : external_request sc = Some usfstl_sched_ctrl_request_fn;
  co_wait : external_wait sc = Some usfstl_sched_ctrl_wait_fn;
  co_get : external_get_time sc = None;
  co_set : external_set_time sc = None;
  co_idle : Sched.waiting sc = false;
  co_started : started x = true;
  co_shm : shm_mem x = None;
  co_acked : acked x = false;
  co_write : write_error (env w) = false;
  co_tick : 0 < nsec_per_tick x;
}.

Section run.
Context (env0 : SchedEnv cenv ctrl_fn) (run_user : list user_op → M CW unit).
Context (w : CW) (s c : Z).
Implicit Types sc : usfstl_scheduler ctrl_fn.
Implicit Types x : usfstl_sched_ctrl.

Abbreviation CWs := (client_world w s c).

Lemma cw_id sc x : scheds w !! s = Some sc → ctrls (env w) !! c = Some x →
  w = CWs sc x (send_seq (env w)) (old_expected (env w)) (inbox (env w)) (sent (env w)).
Proof.
  intros Hs Hc. unfold client_world. rewrite (insert_id _ _ _ Hs). cbn.
  rewrite (insert_id _ _ _ Hc). by destruct w as [js ss []].
Qed.

Lemma cw_get_sched sc x q o ib out : get_sched s (CWs sc x q o ib out) = Ok (sc, CWs sc x q o ib out).
Proof. apply get_sched_run. cbn. apply lookup_insert_eq. Qed.

Lemma cw_put_sched sc x q o ib out sc' :
  put_sched s sc' (CWs sc x q o ib out) = Ok (tt, CWs sc' x q o ib out).
Proof. unfold put_sched, modify, client_world. cbn. by rewrite insert_insert_eq. Qed.

Lemma cw_upd_sched sc x q o ib out f :
  upd_sched s f (CWs sc x q o ib out) = Ok (tt, CWs (f sc) x q o ib out).
Proof. unfold upd_sched. erewrite bind_ok by apply cw_get_sched. apply cw_put_sched. Qed.

Lemma cw_get_ctrl sc x q o ib out : get_ctrl c (CWs sc x q o ib out) = Ok (x, CWs sc x q o ib out).
Proof. unfold get_ctrl, get, mbind, M_bind. cbn. by rewrite lookup_insert_eq. Qed.

Lemma cw_put_ctrl sc x q o ib out x' :
  put_ctrl c x' (CWs sc x q o ib out) = Ok (tt, CWs sc x' q o ib out).
Proof. unfold put_ctrl, upd_cenv, modify, client_world. cbn. by rewrite insert_insert_eq. Qed.

Lemma cw_upd_ctrl sc x q o ib out f :
  upd_ctrl c f (CWs sc x q o ib out) = Ok (tt, CWs sc (f x) q o ib out).
Proof. unfold upd_ctrl. erewrite bind_ok by apply cw_get_ctrl. apply cw_put_ctrl. Qed.

Lemma cw_send sc x q o ib out op t n : write_error (env w) = false →
  _usfstl_sched_ctrl_send_msg c op t n (CWs sc x q o ib out) =
  Ok (tt, CWs sc x q o ib (out ++ [(ctrl_fd x, Msg op n t)])).
Proof.
  intros Hw. unfold _usfstl_sched_ctrl_send_msg. erewrite bind_ok by apply cw_get_ctrl.
  erewrite bind_ok by done. unfold client_world. cbn. by rewrite Hw.
Qed.

Lemma cw_bump sc x q o ib out f :
  upd_cenv (λ e, e <| send_seq := f (send_seq e) |>) (CWs sc x q o ib out) =
  Ok (tt, CWs sc x (f q) o ib out).
Proof. done. Qed.

Lemma cw_old sc x q o ib out o' :
  upd_cenv (λ e, e <| old_expected := o' |>) (CWs sc x q o ib out) = Ok (tt, CWs sc x q o' ib out).
Proof. done. Qed.

Lemma cw_read sc x q o ib out :
  let st := CWs sc x q o ib out in
  send_seq (env st) = q ∧ old_expected (env st) = o ∧ inbox (env st) = ib.
Proof. done. Qed.

Lemma cw_next_event sc x q o out m ib :
  next_event (CWs sc x q o (from_ctrl x m :: ib) out) = Ok (RMsg (ctrl_fd x) m [], CWs sc x q o ib out).
Proof. done. Qed.

Lemma cw_next_event_on sc x q o out m ib :
  next_event_on (ctrl_fd x) (CWs sc x q o (from_ctrl x m :: ib) out) =
  Ok (RMsg (ctrl_fd x) m [], CWs sc x q o ib out).
Proof.
  unfold next_event_on. erewrite bind_ok by done. cbn. unfold is_from. cbn. by rewrite Z.eqb_refl.
Qed.

Lemma cw_current_time `{SE : SchedEnv cenv ctrl_fn} sc x q o ib out : external_get_time sc = None →
  usfstl_sched_current_time s (CWs sc x q o ib out) = Ok (current_time sc, CWs sc x q o ib out).
Proof. intros Hg. apply current_time_run; [cbn; apply lookup_insert_eq|done]. Qed.

End run.

(** Steps through a bind on a [client_world]. *)
Ltac cstep :=
  lazymatch goal with
  | |- (mbind _ ?m) _ = _ =>
      lazymatch m with
      | get_sched _ => erewrite bind_ok by apply cw_get_sched
      | put_sched _ _ => erewrite bind_ok by apply cw_put_sched
      | upd_sched _ _ => erewrite bind_ok by apply cw_upd_sched
      | get_ctrl _ => erewrite bind_ok by apply cw_get_ctrl
      | put_ctrl _ _ => erewrite bind_ok by apply cw_put_ctrl
      | upd_ctrl _ _ => erewrite bind_ok by apply cw_upd_ctrl
      | _usfstl_sched_ctrl_send_msg _ _ _ _ => erewrite bind_ok by (by apply cw_send)
      | usfstl_sched_current_time _ => erewrite bind_ok by (by apply cw_current_time)
      | usfstl_assert true => erewrite bind_ok by apply assert_true
      | upd_cenv _ => erewrite bind_ok by first [ apply (cw_bump _ _ _ _ _ _ _ _ _ bump_seq) | apply cw_old ]
      | _ => erewrite bind_ok by reflexivity
      end
  end; cbn beta.

(** The local time of a controller time, rounded down, and the answer to a
    message that gave it. *)
Definition free_local (x : usfstl_sched_ctrl) (t : Z) : Z := u64 (t - offset x) / nsec_per_tick x.

Definition free_msg (p : Z * Z) : um_timetravel_msg := Msg UM_TIMETRAVEL_FREE_UNTIL p.1 p.2.

Definition ack_for (x : usfstl_sched_ctrl) (seq : Z) : Z * um_timetravel_msg :=
  (ctrl_fd x, Msg UM_TIMETRAVEL_ACK seq 0).

(** The scheduler after the FREE_UNTIL messages [frees]. *)
Definition synced (x : usfstl_sched_ctrl) (sc : usfstl_scheduler ctrl_fn) (frees : list (Z * Z))
    : usfstl_scheduler ctrl_fn :=
  match last frees with
  | None => sc
  | Some p => sc <| next_external_sync := free_local x p.2 |> <| next_external_sync_set := true |>
  end.

Lemma synced_cons x sc p frees : synced x sc (p :: frees) = synced x (synced x sc [p]) frees.
Proof. unfold synced. rewrite last_cons. by destruct (last frees). Qed.

Section protocol.
Context (env0 : SchedEnv cenv ctrl_fn) (run_user : list user_op → M CW unit).
Context (w : CW) (s c : Z).
Hypothesis Hwrite : write_error (env w) = false.
Implicit Types sc : usfstl_scheduler ctrl_fn.
Implicit Types x : usfstl_sched_ctrl.

Abbreviation CWs := (client_world w s c).
Abbreviation sock_read := (usfstl_sched_ctrl_sock_read env0 run_user).
Abbreviation loop := (usfstl_loop_wait_and_handle env0 run_user).
Abbreviation send_msg := (usfstl_sched_ctrl_send_msg env0 run_user).

Lemma sock_read_ack sc x q o ib out t :
  sock_read c (RMsg (ctrl_fd x) (Msg UM_TIMETRAVEL_ACK (expected_ack_seq x) t) [])
    (CWs sc x q o ib out) =
  Ok (tt, CWs sc (x <| acked := true |> <| ack_time := t |>) q o ib out).
Proof.
  unfold usfstl_sched_ctrl_sock_read. cstep. cbn [msg_op msg_seq]. rewrite !Z.eqb_refl. cbn [when].
  cstep. done.
Qed.

Lemma sock_read_free sc x q o ib out p :
  ctrl_sched x = Some s → external_get_time sc = None → 0 < nsec_per_tick x →
  usfstl_time_cmp (free_local x p.2) Z.geb (current_time sc) = true →
  sock_read c (RMsg (ctrl_fd x) (free_msg p) []) (CWs sc x q o ib out) =
  Ok (tt, CWs (synced x sc [p]) x q o ib (out ++ [ack_for x p.1])).
Proof.
  intros Hs Hg Hn Hp. unfold usfstl_sched_ctrl_sock_read. cstep. unfold free_msg. eval_ops.
  erewrite (bind_ok _ _ _ tt).
  2:{ cbn. rewrite Hs. erewrite bind_ok by done. unfold div_by.
      replace (nsec_per_tick x =? 0) with false by lia. erewrite bind_ok by done.
      unfold usfstl_sched_set_sync_time. cstep. unfold free_local in Hp. cbn in Hp |- *. rewrite Hp.
      cstep. apply cw_upd_sched. }
  by apply cw_send.
Qed.

Lemma sock_read_run sc x q o ib out n t :
  ctrl_sched x = Some s → external_get_time sc = None → external_set_time sc = None →
  0 < nsec_per_tick x → shm_mem x = None →
  let time := DIV_ROUND_UP (u64 (t - offset x)) (nsec_per_tick x) in
  (∀ j, head (joblist sc) = Some j →
     ∃ jb, jobs w !! j = Some jb ∧ usfstl_time_cmp time Z.leb (start jb) = true) →
  usfstl_time_cmp time Z.geb (current_time sc) = true →
  sock_read c (RMsg (ctrl_fd x) (Msg UM_TIMETRAVEL_RUN n t) []) (CWs sc x q o ib out) =
  Ok (tt, CWs (sc <| current_time := time |>) (x <| ctrl_waiting := false |>) q o ib
        (out ++ [ack_for x n])).
Proof.
  intros Hs Hg Hset Hn Hshm time Hj Ht. unfold usfstl_sched_ctrl_sock_read. cstep.
  eval_ops. rewrite Hshm. cbn [is_null negb andb].
  erewrite (bind_ok _ _ _ tt).
  2:{ cbn. cstep. rewrite Hs. erewrite bind_ok by done.
      replace (nsec_per_tick x =? 0) with false by lia. fold time.
      unfold usfstl_sched_set_time.
      erewrite bind_ok by (eapply next_pending_run; cbn; apply lookup_insert_eq).
      erewrite (bind_ok _ _ _ tt).
      2:{ destruct (head (joblist sc)) as [j|] eqn:Ej; [|done].
          destruct (Hj j eq_refl) as (jb & Hjb & Hle).
          erewrite bind_ok by (apply get_job_run; done). by rewrite Hle. }
      unfold _usfstl_sched_set_time. cstep. rewrite Hset. cbn. cstep. cstep. rewrite Hg.
      erewrite bind_ok; [|rewrite Ht; cstep; cstep; done]. cbn. by rewrite Z.eqb_refl. }
  by apply cw_send.
Qed.

Lemma synced_time x frees sc : current_time (synced x sc frees) = current_time sc.
Proof. unfold synced. by case_match. Qed.

Lemma synced_get x frees sc : external_get_time (synced x sc frees) = external_get_time sc.
Proof. unfold synced. by case_match. Qed.

Lemma synced_set x frees sc : external_set_time (synced x sc frees) = external_set_time sc.
Proof. unfold synced. by case_match. Qed.

Lemma synced_jobs x frees sc : joblist (synced x sc frees) = joblist sc.
Proof. unfold synced. by case_match. Qed.

Definition frees_ok x sc (frees : list (Z * Z)) : Prop :=
  Forall (λ p, usfstl_time_cmp (free_local x p.2) Z.geb (current_time sc) = true) frees.

Lemma loop_from_ctrl sc x q o ib out m : conns (env w) !! ctrl_fd x = Some c →
  loop (CWs sc x q o (from_ctrl x m :: ib) out) =
  sock_read c (RMsg (ctrl_fd x) m []) (CWs sc x q o ib out).
Proof.
  intros Hc. unfold usfstl_loop_wait_and_handle. erewrite bind_ok by apply cw_next_event.
  cbv beta iota. erewrite bind_ok by done. by erewrite bind_ok by (cbn; by rewrite Hc).
Qed.

(** A waiting loop takes the FREE_UNTIL messages that come before what it
    waits for. *)
Lemma while_frees cond x q o frees fuel ib : ∀ sc out,
  conns (env w) !! ctrl_fd x = Some c → ctrl_sched x = Some s → external_get_time sc = None →
  0 < nsec_per_tick x → frees_ok x sc frees →
  (∀ sc ib out, cond (CWs sc x q o ib out) = Ok (true, CWs sc x q o ib out)) →
  while (length frees + fuel) cond loop
    (CWs sc x q o (map (from_ctrl x ∘ free_msg) frees ++ ib) out) =
  while fuel cond loop
    (CWs (synced x sc frees) x q o ib (out ++ map (ack_for x ∘ fst) frees)).
Proof.
  induction frees as [|p frees IH]; intros sc out Hc Hs Hg Hn Hf Hcond.
  { cbn. by rewrite app_nil_r. }
  inversion Hf as [|?? Hp Hf']; subst. cbn [length Nat.add while].
  erewrite bind_ok by apply Hcond. cbv beta iota. cbn [map app].
  erewrite bind_ok by (unfold compose; rewrite loop_from_ctrl by done; by apply sock_read_free).
  rewrite IH; try done. rewrite (synced_cons x sc p frees). by rewrite <- app_assoc.
Qed.

(** A waiting loop ends with the message after which its condition is false. *)
Lemma while_last cond x q o fuel m ib sc out st :
  conns (env w) !! ctrl_fd x = Some c →
  cond (CWs sc x q o (from_ctrl x m :: ib) out) = Ok (true, CWs sc x q o (from_ctrl x m :: ib) out) →
  sock_read c (RMsg (ctrl_fd x) m []) (CWs sc x q o ib out) = Ok (tt, st) →
  cond st = Ok (false, st) →
  while (S fuel) cond loop (CWs sc x q o (from_ctrl x m :: ib) out) = Ok (tt, st).
Proof.
  intros Hc H1 Hm H2. cbn [while]. erewrite bind_ok by done. cbv beta iota.
  erewrite bind_ok by (by rewrite loop_from_ctrl).
  destruct fuel; cbn [while]; by erewrite bind_ok by done.
Qed.

Lemma wait_done cond st : cond st = Ok (false, st) → wait_while env0 run_user cond st = Ok (tt, st).
Proof.
  intros H. unfold wait_while. erewrite bind_ok by done. cbn [while]. by erewrite bind_ok by done.
Qed.

Lemma wait_frees_last cond x q o frees m ib sc out st :
  conns (env w) !! ctrl_fd x = Some c → ctrl_sched x = Some s → external_get_time sc = None →
  0 < nsec_per_tick x → frees_ok x sc frees →
  (∀ sc ib out, cond (CWs sc x q o ib out) = Ok (true, CWs sc x q o ib out)) →
  sock_read c (RMsg (ctrl_fd x) m [])
    (CWs (synced x sc frees) x q o ib (out ++ map (ack_for x ∘ fst) frees)) = Ok (tt, st) →
  cond st = Ok (false, st) →
  wait_while env0 run_user cond
    (CWs sc x q o (map (from_ctrl x ∘ free_msg) frees ++ from_ctrl x m :: ib) out) = Ok (tt, st).
Proof.
  intros Hc Hs Hg Hn Hf Hcond Hm Hend. unfold wait_while. erewrite bind_ok by done.
  rewrite (proj2 (proj2 (cw_read _ _ _ _ _ _ _ _ _))), length_app, length_map. cbn [length].
  replace (S (length frees + S (length ib)))%nat with (length frees + S (S (length ib)))%nat by lia.
  rewrite while_frees by done. by apply while_last.
Qed.

(** An exchange: the message is sent under a new sequence number, FREE_UNTIL
    messages are handled until the ACK comes, and the controller is as before
    but for the time in the ACK. *)
Lemma send_exchange sc x q o frees t ib out op time :
  conns (env w) !! ctrl_fd x = Some c → ctrl_sched x = Some s → external_get_time sc = None →
  0 < nsec_per_tick x → acked x = false → frees_ok x sc frees →
  op ≠ UM_TIMETRAVEL_WAIT → op ≠ UM_TIMETRAVEL_GET →
  let q' := bump_seq q in
  send_msg c op time
    (CWs sc x q o (map (from_ctrl x ∘ free_msg) frees ++ from_ctrl x (Msg UM_TIMETRAVEL_ACK q' t) :: ib) out) =
  Ok (tt, CWs (synced x sc frees) (x <| ack_time := t |>) q' (expected_ack_seq x) ib
            ((out ++ [(ctrl_fd x, Msg op q' time)]) ++ map (ack_for x ∘ fst) frees)).
Proof.
  intros Hc Hs Hg Hn Ha Hf Hnw Hng q'. unfold usfstl_sched_ctrl_send_msg.
  cstep. cstep. rewrite (proj1 (cw_read _ _ _ _ _ _ _ _ _)). fold q'. cstep. cstep.
  replace (op =? UM_TIMETRAVEL_WAIT) with false by lia. rewrite andb_false_r. cstep. cstep.
  rewrite Ha. cstep. cbn [when]. cstep.
  erewrite bind_ok.
  2:{ set (x1 := x <| expected_ack_seq := q' |>).
      change (from_ctrl x) with (from_ctrl x1).
      eapply wait_frees_last; [done..| | |].
      - intros. cstep. change (acked x1) with (acked x). by rewrite Ha.
      - exact (sock_read_ack _ x1 _ _ _ _ _).
      - cstep. done. }
  cstep. cstep. replace (op =? UM_TIMETRAVEL_GET) with false by lia.
  rewrite (proj1 (proj2 (cw_read _ _ _ _ _ _ _ _ _))). cbn [when]. unfold mret, M_ret. do 2 f_equal.
  destruct x; cbn in *. by subst.
Qed.

Lemma send_wait sc x q o t ib out time :
  shm_mem x = None → acked x = false →
  let q' := bump_seq q in
  send_msg c UM_TIMETRAVEL_WAIT time
    (CWs sc x q o (from_ctrl x (Msg UM_TIMETRAVEL_ACK q' t) :: ib) out) =
  Ok (tt, CWs sc (x <| ack_time := t |>) q' (expected_ack_seq x) ib
            (out ++ [(ctrl_fd x, Msg UM_TIMETRAVEL_WAIT q' time)])).
Proof.
  intros Hshm Ha q'. unfold usfstl_sched_ctrl_send_msg.
  cstep. cstep. rewrite (proj1 (cw_read _ _ _ _ _ _ _ _ _)). fold q'. cstep. cstep.
  rewrite Hshm. cbn [is_null negb andb]. cstep. cstep. rewrite Ha. cstep.
  erewrite (bind_ok (when _ _)).
  2:{ set (x1 := x <| expected_ack_seq := q' |>). change (from_ctrl x) with (from_ctrl x1).
      change (ctrl_fd x) with (ctrl_fd x1). rewrite Z.eqb_refl. cbn [when].
      erewrite bind_ok by apply cw_next_event_on.
      erewrite bind_ok by exact (sock_read_ack _ x1 _ _ _ _ _).
      cstep. done. }
  erewrite bind_ok by (apply wait_done; by cstep).
  cstep. cstep. eval_ops. rewrite (proj1 (proj2 (cw_read _ _ _ _ _ _ _ _ _))). cbn [when]. unfold mret, M_ret.
  do 2 f_equal. destruct x; cbn in *. by subst.
Qed.

(** WAIT, its ACK, FREE_UNTIL messages and the RUN. *)
Lemma ctrl_wait_run sc x q o t frees n tr ib out :
  ext_ctrl sc = Some c → conns (env w) !! ctrl_fd x = Some c → ctrl_sched x = Some s →
  external_get_time sc = None → external_set_time sc = None → 0 < nsec_per_tick x →
  shm_mem x = None → acked x = false → frees_ok x sc frees →
  let q' := bump_seq q in
  let time := DIV_ROUND_UP (u64 (tr - offset x)) (nsec_per_tick x) in
  (∀ j, head (joblist sc) = Some j →
     ∃ jb, jobs w !! j = Some jb ∧ usfstl_time_cmp time Z.leb (start jb) = true) →
  usfstl_time_cmp time Z.geb (current_time sc) = true →
  usfstl_sched_ctrl_wait env0 run_user s
    (CWs sc x q o (from_ctrl x (Msg UM_TIMETRAVEL_ACK q' t) :: map (from_ctrl x ∘ free_msg) frees ++
                   from_ctrl x (Msg UM_TIMETRAVEL_RUN n tr) :: ib) out) =
  Ok (tt, CWs ((synced x sc frees) <| current_time := time |>)
            (x <| ack_time := t |> <| ctrl_waiting := false |>) q' (expected_ack_seq x) ib
            (((out ++ [(ctrl_fd x, Msg UM_TIMETRAVEL_WAIT q' (u64 (-1)))]) ++
              map (ack_for x ∘ fst) frees) ++ [ack_for x n])).
Proof.
  intros He Hc Hs Hg Hset Hn Hshm Ha Hf q' time Hj Ht. unfold usfstl_sched_ctrl_wait.
  cstep. rewrite He. cstep. cstep. set (x1 := x <| ctrl_waiting := true |>).
  change (from_ctrl x) with (from_ctrl x1). erewrite bind_ok by (by apply send_wait).
  set (x2 := x1 <| ack_time := t |>). change (from_ctrl x1) with (from_ctrl x2).
  erewrite bind_ok.
  2:{ eapply wait_frees_last; [done..| | |].
      - intros. by cstep.
      - eapply sock_read_run; rewrite ?synced_get, ?synced_set, ?synced_jobs, ?synced_time; done.
      - by cstep. }
  cstep. change (shm_mem (x2 <| ctrl_waiting := false |>)) with (shm_mem x). rewrite Hshm. done.
Qed.
End protocol.

(** The scheduler after a move to [until] that took the FREE_UNTIL messages
    [frees]. *)
Definition moved (x : usfstl_sched_ctrl) (sc : usfstl_scheduler ctrl_fn) (until : Z)
    (frees : list (Z * Z)) : usfstl_scheduler ctrl_fn :=
  (synced x (sc <| prev_external_sync := until |> <| prev_external_sync_set := false |>) frees)
    <| current_time := until |>.

Lemma to_ctrl_round x t : 0 < nsec_per_tick x → 0 ≤ t → nsec_per_tick x * (t + 1) ≤ 2^64 →
  DIV_ROUND_UP (u64 (to_ctrl x t - offset x)) (nsec_per_tick x) = t.
Proof. intros. unfold to_ctrl. rewrite Z.mul_comm. by apply div_round_up_link. Qed.

Section forward.
Context (env0 : SchedEnv cenv ctrl_fn) (run_user : list user_op → M CW unit).
Context (w : CW) (s c : Z) (sc : usfstl_scheduler ctrl_fn) (x : usfstl_sched_ctrl).
Hypothesis Hco : connected w s c sc x.
Abbreviation CWs := (client_world w s c).

(** The request half of the move. *)
Lemma request_run until t q o ib out :
  next_external_sync_set sc && usfstl_time_cmp until Z.ltb (next_external_sync sc) = false →
  let q1 := bump_seq q in
  usfstl_sched_external_request (SE := ctrl_env env0 run_user) s until
    (CWs sc x q o (from_ctrl x (Msg UM_TIMETRAVEL_ACK q1 t) :: ib) out) =
  Ok (USFSTL_SCHED_REQ_STATUS_WAIT,
      CWs (sc <| prev_external_sync := until |> <| prev_external_sync_set := true |>)
        (x <| ack_time := t |>) q1 (expected_ack_seq x) ib
        (out ++ [(ctrl_fd x, Msg UM_TIMETRAVEL_REQUEST q1 (to_ctrl x until))])).
Proof.
  intros Hskip q1. destruct Hco as []. unfold usfstl_sched_external_request. cstep.
  rewrite co_request0. cbn [disable_skip_external_request ctrl_env negb andb].
  rewrite co_idle0. cbn [negb andb]. rewrite Hskip. cstep.
  cbn [call_request ctrl_env]. unfold usfstl_sched_ctrl_request. cstep. cbn [ext_ctrl set_field].
  rewrite co_ext0. cstep. cstep. rewrite co_started0. cbn [negb].
  erewrite bind_ok.
  2:{ apply (send_exchange env0 run_user w s c) with (frees := []); [done..|by constructor|done|done]. }
  cbn [map]. by rewrite app_nil_r.
Qed.

Lemma ctrl_forward_run until frees t1 t2 nr rest q o out :
  usfstl_time_cmp until Z.geb (current_time sc) = true →
  next_external_sync_set sc && usfstl_time_cmp until Z.ltb (next_external_sync sc) = false →
  (∀ j, head (joblist sc) = Some j →
     ∃ jb, jobs w !! j = Some jb ∧ usfstl_time_cmp until Z.leb (start jb) = true) →
  0 ≤ until → nsec_per_tick x * (until + 1) ≤ 2^64 → frees_ok x sc frees →
  let q1 := bump_seq q in
  let q2 := bump_seq q1 in
  usfstl_sched_forward (SE := ctrl_env env0 run_user) s until
    (CWs sc x q o (from_ctrl x (Msg UM_TIMETRAVEL_ACK q1 t1) :: from_ctrl x (Msg UM_TIMETRAVEL_ACK q2 t2) ::
       map (from_ctrl x ∘ free_msg) frees ++ from_ctrl x (Msg UM_TIMETRAVEL_RUN nr (to_ctrl x until)) :: rest) out) =
  Ok (tt, CWs (moved x sc until frees) (x <| ack_time := t2 |> <| ctrl_waiting := false |>) q2
            (expected_ack_seq x) rest
            ((((out ++ [(ctrl_fd x, Msg UM_TIMETRAVEL_REQUEST q1 (to_ctrl x until))]) ++
               [(ctrl_fd x, Msg UM_TIMETRAVEL_WAIT q2 (u64 (-1)))]) ++
              map (ack_for x ∘ fst) frees) ++ [ack_for x nr])).
Proof.
  intros Hge Hskip Hj Hu Hfit Hf q1 q2. pose proof Hco as [].
  pose proof (to_ctrl_round x until co_tick0 Hu Hfit) as Hround.
  unfold usfstl_sched_forward. cstep. rewrite Hge. cstep.
  erewrite bind_ok by (by apply request_run). cbv beta iota.
  unfold usfstl_sched_external_wait. cstep. cstep. cbn [external_wait set_field].
  rewrite co_wait0. cstep. cbn [call_wait ctrl_env].
  set (x1 := x <| ack_time := t1 |>). change (from_ctrl x) with (from_ctrl x1).
  erewrite bind_ok.
  2:{ apply ctrl_wait_run; try done.
      all: change (offset x1) with (offset x); change (nsec_per_tick x1) with (nsec_per_tick x);
           rewrite Hround; done. }
  rewrite cw_upd_sched. change (offset x1) with (offset x).
  change (nsec_per_tick x1) with (nsec_per_tick x). rewrite Hround. do 3 f_equal.
  clear -co_idle0. unfold moved, synced. destruct sc; cbn in co_idle0; subst. by case_match.
Qed.
End forward.

(** C6. Moving to a time through the controller: the client asks to run at the
    controller time of [until], waits, takes the FREE_UNTIL messages (rounded
    down to its ticks) and, when the controller lets it run at the time it asked
    for, its clock shows exactly [until].  The messages it sends are the
    request, the WAIT and one ACK for each message it was sent. *)
Theorem forward_through_controller n w s c sc x until frees t1 t2 nr rest :
  connected w s c sc x →
  usfstl_time_cmp until Z.geb (current_time sc) = true →
  next_external_sync_set sc && usfstl_time_cmp until Z.ltb (next_external_sync sc) = false →
  (∀ j, head (joblist sc) = Some j →
     ∃ jb, jobs w !! j = Some jb ∧ usfstl_time_cmp until Z.leb (start jb) = true) →
  0 ≤ until → nsec_per_tick x * (until + 1) ≤ 2^64 →
  frees_ok x sc frees →
  let q1 := bump_seq (send_seq (env w)) in
  let q2 := bump_seq q1 in
  inbox (env w) =
    from_ctrl x (Msg UM_TIMETRAVEL_ACK q1 t1) :: from_ctrl x (Msg UM_TIMETRAVEL_ACK q2 t2) ::
    map (from_ctrl x ∘ free_msg) frees ++ from_ctrl x (Msg UM_TIMETRAVEL_RUN nr (to_ctrl x until)) :: rest →
  ∃ w', usfstl_sched_forward (SE := env_at (S n)) s until w = Ok (tt, w') ∧
    jobs w' = jobs w ∧ scheds w' = <[s:=moved x sc until frees]> (scheds w) ∧
    inbox (env w') = rest ∧
    sent (env w') = sent (env w) ++
      [(ctrl_fd x, Msg UM_TIMETRAVEL_REQUEST q1 (to_ctrl x until));
       (ctrl_fd x, Msg UM_TIMETRAVEL_WAIT q2 (u64 (-1)))] ++
      map (λ q, (ctrl_fd x, Msg UM_TIMETRAVEL_ACK q 0)) (map fst frees ++ [nr]) ∧
    (∃ x', ctrls (env w') = <[c:=x']> (ctrls (env w)) ∧ acked x' = false ∧
       expected_ack_seq x' = expected_ack_seq x ∧ ctrl_waiting x' = false).
Proof.
  intros Hco Hge Hskip Hj Hu Hfit Hf q1 q2 Hin.
  unfold env_at. cbn [ctrl_level]. destruct (ctrl_level n) as [env0 run_user]. cbn [fst].
  pose proof (cw_id w s c sc x (co_sched _ _ _ _ _ Hco) (co_ctrl _ _ _ _ _ Hco)) as Hid.
  rewrite Hin in Hid. eexists. split.
  { rewrite Hid at 1. by apply ctrl_forward_run. }
  cbn. split_and!; try done.
  - unfold ack_for, compose. by rewrite map_app, map_map, <- !app_assoc.
  - eexists. split_and!; [done|..]; cbn; [apply Hco|done..].
Qed.

(** ** Shared memory *)

(** A running client in shared memory mode, between calls. *)
Record sharing (w : CW) (s c k : Z) (sc : usfstl_scheduler ctrl_fn) (x : usfstl_sched_ctrl)
    (mem : um_timetravel_schedshm) : Prop := {
  sh_sched : scheds w !! s = Some sc;
  sh_ctrl : ctrls (env w) !! c = Some x;
  sh_ext : ext_ctrl sc = Some c;
  sh_mem : shm_mem x = Some k;
  sh_file : mems (env w) !! k = Some mem;
  sh_request : external_request sc = Some _schedctrl_request_shm_fn;
  sh_get : external_get_time sc = Some _schedctrl_get_time_fn;
  sh_set : external_set_time sc = Some _schedctrl_set_time_fn;
  sh_started : started x = true;
  sh_thawed : frozen x = false;
  sh_tick : 0 < nsec_per_tick x;
  sh_peer : ∃ cl, shm_clients mem !! Z.to_nat (running_id mem) = Some cl ∧ 0 ≤ running_id mem ∧
                  has_time_share cl = true;
}.

Lemma array_get_run {St A} (l : list A) i a (st : St) : 0 ≤ i → l !! Z.to_nat i = Some a →
  array_get l i st = Ok (a, st).
Proof. intros Hi Hl. unfold array_get. replace (i <? 0) with false by lia. by rewrite Hl. Qed.

Lemma get_ctrl_run w c x : ctrls (env w) !! c = Some x → get_ctrl c w = Ok (x, w).
Proof. intros H. unfold get_ctrl, get, mbind, M_bind. by rewrite H. Qed.

Lemma get_mem_run w x k mem : shm_mem x = Some k → mems (env w) !! k = Some mem →
  get_mem x w = Ok (mem, w).
Proof. intros Hk Hm. unfold get_mem, get, mbind, M_bind. rewrite Hk. cbn. by rewrite Hm. Qed.

Lemma put_mem_run w x k mem : shm_mem x = Some k →
  put_mem x mem w = Ok (tt, w <| env := (env w) <| mems := <[k:=mem]> (mems (env w)) |> |>).
Proof. intros Hk. unfold put_mem. by rewrite Hk. Qed.

(** The memory after a recorded request. *)
Definition requested (mem : um_timetravel_schedshm) (id req : Z) : um_timetravel_schedshm :=
  upd_shm_client id (λ cl, set_req_run (cl <| req_time := req |>))
    (if usfstl_time_cmp req Z.ltb (free_until mem) then mem <| free_until := req |> else mem).

Lemma requested_spec mem id req cl :
  0 ≤ id → shm_clients mem !! Z.to_nat id = Some cl →
  let mem' := requested mem id req in
  shm_clients mem' !! Z.to_nat id = Some (set_req_run (cl <| req_time := req |>)) ∧
  (∀ i, i ≠ Z.to_nat id → shm_clients mem' !! i = shm_clients mem !! i) ∧
  shm_time mem' = shm_time mem ∧ running_id mem' = running_id mem ∧
  free_until mem' = if usfstl_time_cmp req Z.ltb (free_until mem) then req else free_until mem.
Proof.
  intros Hid Hcl mem'. subst mem'. unfold requested, upd_shm_client. destruct (usfstl_time_cmp _ _ _); cbn.
  all: split_and!; try done; [by rewrite list_lookup_alter_eq, Hcl|].
  all: intros; by rewrite list_lookup_alter_ne.
Qed.

Section shm.
Context (env0 : SchedEnv cenv ctrl_fn) (run_user : list user_op → M CW unit).
Context (w : CW) (s c k : Z) (sc : usfstl_scheduler ctrl_fn) (x : usfstl_sched_ctrl).
Context (mem : um_timetravel_schedshm).
Hypothesis Hsh : sharing w s c k sc x mem.

Lemma request_shm_run time cl :
  0 ≤ shm_id x → shm_clients mem !! Z.to_nat (shm_id x) = Some cl →
  _schedctrl_request_shm env0 run_user s time w =
  let req := to_ctrl x time in
  if usfstl_time_cmp req Z.geb (shm_time mem) then
    if usfstl_time_cmp req Z.ltb (free_until mem) && negb (ctrl_waiting x)
    then Ok (USFSTL_SCHED_REQ_STATUS_CAN_RUN, w)
    else Ok (USFSTL_SCHED_REQ_STATUS_WAIT,
             w <| env := (env w) <| mems := <[k:=requested mem (shm_id x) req]> (mems (env w)) |> |>)
  else Err Assertion.
Proof.
  intros Hid Hcl. destruct Hsh as []. destruct sh_peer0 as (cr & Hcr & Hr & Hshare).
  unfold _schedctrl_request_shm. erewrite bind_ok by (by apply get_sched_run).
  rewrite sh_ext0. erewrite bind_ok by done. erewrite bind_ok by (by apply get_ctrl_run).
  rewrite sh_started0. cbn [negb]. erewrite bind_ok by (by eapply get_mem_run).
  erewrite bind_ok by (by apply array_get_run). rewrite Hshare. cbn [negb].
  destruct (usfstl_time_cmp _ Z.geb _); [|done]. erewrite bind_ok by apply assert_true.
  destruct (_ && _); [done|].
  erewrite bind_ok by (apply array_get_run; [done|by case_match]).
  by erewrite bind_ok by (by apply put_mem_run).
Qed.

Lemma shm_get_time_run : usfstl_sched_current_time (SE := ctrl_env env0 run_user) s w =
  Ok (DIV_ROUND_UP (u64 (shm_time mem - offset x)) (nsec_per_tick x), w).
Proof.
  destruct Hsh as []. unfold usfstl_sched_current_time. erewrite bind_ok by (by apply get_sched_run).
  rewrite sh_get0. cbn. unfold _schedctrl_get_time. erewrite bind_ok by (by apply get_sched_run).
  rewrite sh_ext0. erewrite bind_ok by done. erewrite bind_ok by (by apply get_ctrl_run).
  erewrite bind_ok by (by eapply get_mem_run). rewrite sh_thawed0.
  by replace (nsec_per_tick x =? 0) with false by lia.
Qed.

Lemma shm_set_time_run time : running_id mem = shm_id x →
  _schedctrl_set_time s time w =
  let t := to_ctrl x time in
  if usfstl_time_cmp t Z.geb (shm_time mem) && usfstl_time_cmp t Z.leb (free_until mem)
  then Ok (tt, w <| env := (env w) <| mems := <[k:=mem <| shm_time := t |>]> (mems (env w)) |> |>)
  else Err Assertion.
Proof.
  intros Hrun. destruct Hsh as []. unfold _schedctrl_set_time. erewrite bind_ok by (by apply get_sched_run).
  rewrite sh_ext0. erewrite bind_ok by done. erewrite bind_ok by (by apply get_ctrl_run).
  erewrite bind_ok by (by eapply get_mem_run). rewrite sh_thawed0, Hrun, Z.eqb_refl. cbn [negb].
  do 2 erewrite bind_ok by apply assert_true. cbv zeta.
  destruct (usfstl_time_cmp _ Z.geb _); [|done]. erewrite bind_ok by apply assert_true.
  destruct (usfstl_time_cmp _ Z.leb _); [|done]. erewrite bind_ok by apply assert_true.
  cbn [andb]. by apply put_mem_run.
Qed.
End shm.

Lemma s64_mod a b : a mod 2^64 = b mod 2^64 → s64 a = s64 b.
Proof. intros H. unfold s64. by rewrite H. Qed.

Lemma s64_small a : -2^63 ≤ a < 2^63 → s64 a = a.
Proof. intros H. unfold s64. destruct (Z.ltb_spec (a mod 2^64) (2^63)); lia. Qed.

Lemma time_lt_le a b : usfstl_time_cmp a Z.ltb b = true → usfstl_time_cmp a Z.leb b = true.
Proof. unfold usfstl_time_cmp. lia. Qed.

(** Controller times follow local times. *)
Lemma to_ctrl_mono x t until :
  0 < nsec_per_tick x → u64 (t - offset x) ≤ until * nsec_per_tick x →
  nsec_per_tick x * (until + 1) ≤ 2^63 →
  usfstl_time_cmp (to_ctrl x until) Z.geb t = true ∧
  usfstl_time_cmp until Z.geb (DIV_ROUND_UP (u64 (t - offset x)) (nsec_per_tick x)) = true.
Proof.
  intros Hn Hb Hfit. pose proof (u64_range (t - offset x)). unfold usfstl_time_cmp. split.
  - rewrite (s64_mod _ (u64 (t - offset x) - until * nsec_per_tick x)).
    + rewrite s64_small; nia.
    + unfold to_ctrl, u64. rewrite Zminus_mod_idemp_r, Zminus_mod_idemp_l. f_equal. lia.
  - assert (0 ≤ DIV_ROUND_UP (u64 (t - offset x)) (nsec_per_tick x) ≤ until) as [H1 H2].
    { unfold DIV_ROUND_UP. rewrite (u64_small (_ + _ - 1)) by nia. split; [apply Z.div_pos; lia|].
      assert (u64 (t - offset x) + nsec_per_tick x - 1 < (until + 1) * nsec_per_tick x) by lia.
      apply Z.lt_succ_r. apply Z.div_lt_upper_bound; lia. }
    rewrite s64_small; nia.
Qed.

Lemma shm_external_request n w s c k sc x mem until :
  sharing w s c k sc x mem → running_id mem = shm_id x → ctrl_waiting x = false →
  Sched.waiting sc = false → usfstl_time_cmp (to_ctrl x until) Z.geb (shm_time mem) = true →
  usfstl_time_cmp (to_ctrl x until) Z.ltb (free_until mem) = true →
  ∃ sc', sharing (w <| scheds := <[s:=sc']> (scheds w) |>) s c k sc' x mem ∧
    usfstl_sched_external_request (SE := env_at (S n)) s until w =
    Ok (USFSTL_SCHED_REQ_STATUS_CAN_RUN, w <| scheds := <[s:=sc']> (scheds w) |>).
Proof.
  intros Hsh Hrun Hcw Hw Hge Hlt. unfold env_at. cbn [ctrl_level].
  destruct (ctrl_level n) as [env0 run_user]. cbn [fst].
  assert (∀ sc', external_request sc' = external_request sc → external_get_time sc' = external_get_time sc →
    external_set_time sc' = external_set_time sc → ext_ctrl sc' = ext_ctrl sc →
    sharing (w <| scheds := <[s:=sc']> (scheds w) |>) s c k sc' x mem) as Hkeep.
  { intros sc' H1 H2 H3 H4. destruct Hsh as []. constructor; cbn; try congruence.
    by rewrite lookup_insert_eq. }
  unfold usfstl_sched_external_request.
  erewrite bind_ok by (apply get_sched_run, Hsh). rewrite (sh_request _ _ _ _ _ _ _ Hsh), Hw.
  destruct (_ && _ && _ && _).
  { exists sc. split; [by apply Hkeep|]. rewrite (insert_id _ _ _ (sh_sched _ _ _ _ _ _ _ Hsh)). by destruct w. }
  cbn [andb]. set (sc' := sc <| prev_external_sync := until |> <| prev_external_sync_set := true |>).
  exists sc'. split; [by apply Hkeep|]. erewrite bind_ok by apply put_sched_run.
  cbn [call_request ctrl_env]. pose proof (Hkeep sc' eq_refl eq_refl eq_refl eq_refl) as Hsh'.
  destruct (sh_peer _ _ _ _ _ _ _ Hsh') as (cl & Hcl & Hid & _). rewrite Hrun in Hcl, Hid.
  rewrite (request_shm_run env0 run_user _ s c k sc' x mem Hsh' until cl Hid Hcl).
  cbv zeta. by rewrite Hge, Hlt, Hcw.
Qed.

(** In shared memory mode a running client moves its clock by itself: to any
    time before [free_until] without a message; the shared time is then the
    controller time of [until], and the clock reads [until]. *)
Theorem shm_forward n w s c k sc x mem until :
  sharing w s c k sc x mem → running_id mem = shm_id x → ctrl_waiting x = false →
  Sched.waiting sc = false →
  u64 (shm_time mem - offset x) ≤ until * nsec_per_tick x → nsec_per_tick x * (until + 1) ≤ 2^63 →
  usfstl_time_cmp (to_ctrl x until) Z.ltb (free_until mem) = true →
  ∃ w', usfstl_sched_forward (SE := env_at (S n)) s until w = Ok (tt, w') ∧
    usfstl_sched_current_time (SE := env_at (S n)) s w' = Ok (until, w') ∧
    env w' = (env w) <| mems := <[k:=mem <| shm_time := to_ctrl x until |>]> (mems (env w)) |> ∧
    jobs w' = jobs w.
Proof.
  intros Hsh Hrun Hcw Hw Hb Hfit Hlt. pose proof (sh_tick _ _ _ _ _ _ _ Hsh) as Hn.
  destruct (to_ctrl_mono x (shm_time mem) until Hn Hb Hfit) as [Hge Hnow].
  destruct (shm_external_request n w s c k sc x mem until Hsh Hrun Hcw Hw Hge Hlt) as (sc' & Hsh' & Hreq).
  set (w1 := w <| scheds := <[s:=sc']> (scheds w) |>) in *.
  set (mem' := mem <| shm_time := to_ctrl x until |>).
  set (w2 := w1 <| env := (env w1) <| mems := <[k:=mem']> (mems (env w1)) |> |>).
  assert (sharing w2 s c k sc' x mem') as Hsh2.
  { destruct Hsh' as []. constructor; try done. cbn. apply lookup_insert_eq. }
  assert (usfstl_sched_current_time (SE := env_at (S n)) s w2 = Ok (until, w2)) as Hcur.
  { unfold env_at. cbn [ctrl_level]. destruct (ctrl_level n) as [env0 run_user]. cbn [fst].
    rewrite (shm_get_time_run env0 run_user _ _ _ _ _ _ _ Hsh2). cbn [shm_time mem' set_field].
    rewrite to_ctrl_round; [done..|pose proof (u64_range (shm_time mem - offset x)); nia|lia]. }
  exists w2. split_and!; [|done..]. unfold usfstl_sched_forward.
  erewrite bind_ok.
  2:{ unfold env_at. cbn [ctrl_level]. destruct (ctrl_level n) as [env0 run_user]. cbn [fst].
      by apply (shm_get_time_run env0 run_user _ _ _ _ _ _ _ Hsh). }
  rewrite Hnow. erewrite bind_ok by apply assert_true. erewrite bind_ok by done. cbv beta iota.
  unfold _usfstl_sched_set_time. erewrite bind_ok by (apply get_sched_run, Hsh').
  rewrite (sh_set _ _ _ _ _ _ _ Hsh').
  erewrite (bind_ok _ _ w1 tt w2).
  2:{ unfold env_at. cbn [ctrl_level]. destruct (ctrl_level n) as [env0 run_user]. cbn [fst].
      cbn [call_set_time ctrl_env]. rewrite (shm_set_time_run _ _ _ _ _ _ _ Hsh') by done. cbv zeta.
      by rewrite Hge, (time_lt_le _ _ Hlt). }
  erewrite bind_ok by (apply get_sched_run, Hsh2). rewrite (sh_get _ _ _ _ _ _ _ Hsh2).
  erewrite bind_ok.
  2:{ erewrite bind_ok by done. unfold usfstl_time_cmp. rewrite Z.sub_diag. cbn.
      by erewrite bind_ok by apply assert_true. }
  by rewrite Z.eqb_refl.
Qed.

(** A request in shared memory mode, while the running client shares memory:
    a client that runs itself and asks for a time before [free_until] may run
    on, and nothing changes; otherwise the request is recorded for the
    controller, [free_until] comes down to it if it is earlier, no message is
    sent, and the client has to wait. *)
Theorem request_shm_correct n w s c k sc x mem time cl :
  sharing w s c k sc x mem → 0 ≤ shm_id x → shm_clients mem !! Z.to_nat (shm_id x) = Some cl →
  let req := to_ctrl x time in
  let before := usfstl_time_cmp req Z.ltb (free_until mem) in
  usfstl_time_cmp req Z.geb (shm_time mem) = true →
  ∃ st w', call_request (SchedEnv := env_at (S n)) _schedctrl_request_shm_fn s time w = Ok (st, w') ∧
    match st with
    | USFSTL_SCHED_REQ_STATUS_CAN_RUN => before = true ∧ ctrl_waiting x = false ∧ w' = w
    | USFSTL_SCHED_REQ_STATUS_WAIT =>
        (before = false ∨ ctrl_waiting x = true) ∧ jobs w' = jobs w ∧ scheds w' = scheds w ∧
        ∃ mem', env w' = (env w) <| mems := <[k:=mem']> (mems (env w)) |> ∧
          shm_clients mem' !! Z.to_nat (shm_id x) = Some (set_req_run (cl <| req_time := req |>)) ∧
          (∀ i, i ≠ Z.to_nat (shm_id x) → shm_clients mem' !! i = shm_clients mem !! i) ∧
          shm_time mem' = shm_time mem ∧ running_id mem' = running_id mem ∧
          free_until mem' = if before then req else free_until mem
    end.
Proof.
  intros Hsh Hid Hcl req before Hge. unfold env_at. cbn [ctrl_level].
  destruct (ctrl_level n) as [env0 run_user]. cbn [fst call_request ctrl_env].
  rewrite (request_shm_run env0 run_user _ _ _ _ _ _ _ Hsh _ _ Hid Hcl). cbv zeta.
  fold req. fold before. rewrite Hge. destruct (before && negb (ctrl_waiting x)) eqn:E.
  - apply andb_true_iff in E as [E1 E2%negb_true_iff]. eexists _, _. split; [done|]. done.
  - eexists _, _. split; [done|]. split_and!; [|done..|].
    { apply andb_false_iff in E as [E|E%negb_false_iff]; auto. }
    eexists. split; [done|]. by apply requested_spec.
Qed.

(** ** Nested exchanges *)

Definition client_ctrl : usfstl_sched_ctrl :=
  ctrl_zero <| ctrl_sched := Some 1 |> <| nsec_per_tick := 10 |> <| ctrl_fd := 3 |> <| started := true |>.

Definition client_sched : usfstl_scheduler ctrl_fn :=
  (USFSTL_SCHEDULER "client" 0) <| external_request := Some usfstl_sched_ctrl_request_fn |>
    <| external_wait := Some usfstl_sched_ctrl_wait_fn |> <| ext_ctrl := Some 10 |>.

Definition client (evs : list event) : CW :=
  World ∅ {[1 := client_sched]} (CEnv {[10 := client_ctrl]} ∅ {[3 := 10]} [] 0 0 evs [] false).

Definition ack_event (seq : Z) : event := Event [] (RMsg 3 (Msg UM_TIMETRAVEL_ACK seq 0) []).

(** [nest] handlers that each start another exchange while the one before waits
    for its ACK, and the ACKs, for the innermost message first. *)
Definition nested_exchanges (nest : nat) : list event :=
  replicate nest (Event [] (ROther [USyncTo 10])) ++ map ack_event (rev (seqZ 1 (Z.of_nat nest + 1))).

(** An exchange with one nested in it returns.  With two nested in each other
    the outermost never sees its ACK, although every message is acknowledged:
    [old_expected] is one static variable, not one for each call, so the
    expected sequence number of the outermost call is lost. *)
Theorem nested_exchange_lost :
  (∃ w', usfstl_sched_ctrl_sync_to (env_at 4) (user_at 4) 10 (client (nested_exchanges 1)) = Ok (tt, w') ∧
         inbox (env w') = []) ∧
  usfstl_sched_ctrl_sync_to (env_at 4) (user_at 4) 10 (client (nested_exchanges 2)) = Err Blocked.
Proof.
  split; [|vm_compute; reflexivity]. eexists. split; [vm_compute; reflexivity|]. vm_compute. reflexivity.
Qed.

(** ** Starting with a job *)

(** A client whose clock is not at zero, and to which a job at time 9 is added
    while it waits for the ACK of its START. *)
Definition start_world : CW :=
  World {[5 := job_zero]} {[1 := (USFSTL_SCHEDULER "client" 0) <| current_time := 7 |>]}
    (CEnv {[10 := ctrl_zero]} ∅ ∅ [] 0 0
       [Event [] (ROther [UAddJob 1 5 9]); ack_event 1; ack_event 2; ack_event 3] [] false).

(** The request that [usfstl_sched_ctrl_start] sends for a job that is already
    there is in local time: it lacks the offset that every other request has, so
    the controller is asked for 90 although the job is at its time 20. *)
Theorem start_request_lacks_offset :
  ∃ w1 x, usfstl_sched_ctrl_start (env_at 4) (user_at 4) 10 3 10 77 1 start_world = Ok (tt, w1) ∧
    sent (env w1) = [(3, Msg UM_TIMETRAVEL_START 1 77); (3, Msg UM_TIMETRAVEL_REQUEST 2 90)] ∧
    ctrls (env w1) !! 10 = Some x ∧ to_ctrl x 9 = 20 ∧
    ∃ w2, usfstl_sched_ctrl_request (env_at 4) (user_at 4) 1 9 w1 = Ok (USFSTL_SCHED_REQ_STATUS_WAIT, w2) ∧
      sent (env w2) = sent (env w1) ++ [(3, Msg UM_TIMETRAVEL_REQUEST 3 20)].
Proof.
  eexists _, _. split; [vm_compute; reflexivity|]. split; [vm_compute; reflexivity|].
  split; [vm_compute; reflexivity|]. split; [vm_compute; reflexivity|].
  eexists. split; vm_compute; reflexivity.
Qed.

(** ** Witnesses *)
Definition run_events : list event :=
  [ack_event 1; ack_event 2; Event [] (RMsg 3 (Msg UM_TIMETRAVEL_FREE_UNTIL 70 99) []);
   Event [] (RMsg 3 (Msg UM_TIMETRAVEL_RUN 71 40) [])].

Lemma client_connected evs : connected (client evs) 1 10 client_sched client_ctrl.
Proof. by constructor. Qed.

Lemma forward_through_controller_witness :
  ∃ w', usfstl_sched_forward (SE := env_at 3) 1 4 (client run_events) = Ok (tt, w') ∧
    inbox (env w') = [].
Proof.
  destruct (forward_through_controller 2 (client run_events) 1 10 client_sched client_ctrl 4 [(70, 99)]
              0 0 71 []) as (w' & Hrun & _ & _ & Hin & _).
  - apply client_connected.
  - vm_compute. reflexivity.
  - reflexivity.
  - intros j [=].
  - lia.
  - cbn. lia.
  - repeat constructor.
  - reflexivity.
  - exists w'. split; [exact Hrun|exact Hin].
Defined.

Definition shm_ctrl : usfstl_sched_ctrl :=
  client_ctrl <| shm_id := 1 |> <| shm_mem := Some 8 |> <| offset := 5 |>.

Definition shm_sched : usfstl_scheduler ctrl_fn :=
  client_sched <| external_request := Some _schedctrl_request_shm_fn |>
    <| external_get_time := Some _schedctrl_get_time_fn |>
    <| external_set_time := Some _schedctrl_set_time_fn |>.

Definition shm_memory : um_timetravel_schedshm :=
  Schedshm UM_TIMETRAVEL_SCHEDSHM_VERSION 12288 100 25 1 64
    [shm_client_zero; ShmClient 1 0 0 77].

Definition shm_client_world : CW :=
  World ∅ {[1 := shm_sched]} (CEnv {[10 := shm_ctrl]} {[8 := shm_memory]} {[3 := 10]} [] 0 0 [] [] false).

Lemma shm_client_sharing : sharing shm_client_world 1 10 8 shm_sched shm_ctrl shm_memory.
Proof. constructor; try done. by exists (ShmClient 1 0 0 77). Qed.

Lemma shm_forward_witness :
  ∃ w', usfstl_sched_forward (SE := env_at 3) 1 9 shm_client_world = Ok (tt, w') ∧
        usfstl_sched_current_time (SE := env_at 3) 1 w' = Ok (9, w').
Proof.
  destruct (shm_forward 2 shm_client_world 1 10 8 shm_sched shm_ctrl shm_memory 9)
    as (w' & Hrun & Hcur & _).
  - exact shm_client_sharing.
  - reflexivity.
  - reflexivity.
  - reflexivity.
  - vm_compute. discriminate.
  - cbn. lia.
  - reflexivity.
  - exists w'. split; [exact Hrun|exact Hcur].
Defined.

Lemma request_shm_correct_witness :
  ∃ st w', call_request (SchedEnv := env_at 3) _schedctrl_request_shm_fn 1 50 shm_client_world = Ok (st, w').
Proof.
  destruct (request_shm_correct 2 shm_client_world 1 10 8 shm_sched shm_ctrl shm_memory 50
              (ShmClient 1 0 0 77)) as (st & w' & Hrun & _).
  - exact shm_client_sharing.
  - cbn. lia.
  - reflexivity.
  - reflexivity.
  - exists st, w'. exact Hrun.
Defined.
