(* ===== verification/Vhost.v ===== *)
(** * vhost-user devices (src/vhost.c, include/usfstl/vhost.h, vhostproto.h)

    One device of a server: the messages of the other side, its memory with the
    virtqueues in it, and the interrupts in both directions.  The memory of the
    process is a map from addresses to bytes, of which the regions of the other
    side are a part; the host is little-endian, so that the conversions of
    virtio fields are the identity.  What arrives and what the system calls
    return is given; what is written and closed is recorded. *)
From S2P Require Import Prelude Sched Util Bytes.

(** ** Data *)
Definition MAX_REGIONS : Z := 2.
Definition SG_STACK_PREALLOC : Z := 5.

Record iovec := Iovec { iov_base : Z; iov_len : Z }.

(** [in_sg] and [out_sg] are the entries that are in use. *)
Record usfstl_vhost_user_buf := Buf {
  n_in_sg : Z;
  n_out_sg : Z;
  in_sg : list iovec;
  out_sg : list iovec;
  written : Z;
  buf_virtq_idx : Z;
  buf_idx : Z;
  allocated : bool;
}.
#[export] Instance buf_settable : Settable usfstl_vhost_user_buf := λ r,
  Buf (n_in_sg r) (n_out_sg r) (in_sg r) (out_sg r) (written r) (buf_virtq_idx r) (buf_idx r) (allocated r).

(** [struct vring]: the addresses of its three parts. *)
Record vring := Vring { num : Z; desc : Z; avail : Z; used : Z }.
#[export] Instance vring_settable : Settable vring := λ r, Vring (num r) (desc r) (avail r) (used r).

(** [kick_registered] is [entry.list.next != NULL]. *)
Record virtq := Virtq {
  kick_fd : Z;
  kick_registered : bool;
  enabled : bool;
  triggered : bool;
  virtq_ : vring;
  call_fd : Z;
  last_avail_idx : Z;
}.
#[export] Instance virtq_settable : Settable virtq := λ r,
  Virtq (kick_fd r) (kick_registered r) (enabled r) (triggered r) (virtq_ r) (call_fd r)
    (last_avail_idx r).

Record vhost_user_region := Region {
  guest_phys_addr : Z;
  region_size : Z;
  user_addr : Z;
  mmap_offset : Z;
}.

(** [virtqs] has the [max_queues] entries it is allocated with; [irq_job] is
    the address of the embedded job; [region_vaddr] is 0 where it is NULL. *)
Record usfstl_vhost_user_dev_int := Dev {
  irq_job : Z;
  entry_fd : Z;
  entry_registered : bool;
  features : Z;
  protocol_features : Z;
  n_regions : Z;
  regions : list vhost_user_region;
  region_fds : list Z;
  region_vaddr : list Z;
  req_fd : Z;
  virtqs : list virtq;
}.
#[export] Instance dev_settable : Settable usfstl_vhost_user_dev_int := λ r,
  Dev (irq_job r) (entry_fd r) (entry_registered r) (features r) (protocol_features r) (n_regions r)
    (regions r) (region_fds r) (region_vaddr r) (req_fd r) (virtqs r).

Record usfstl_vhost_user_server := Server {
  interrupt_latency : Z;
  max_queues : Z;
  deferred_handling : bool;
  input_queues : Z;
  server_scheduler : option Z;
  server_has_ctrl : bool;
  server_features : Z;
  server_protocol_features : Z;
  config : option (list Z);
}.

(** *** Messages *)
Record vhost_user_msg_hdr := Hdr { request : Z; hdr_flags : Z; hdr_size : Z }.
#[export] Instance hdr_settable : Settable vhost_user_msg_hdr := λ r, Hdr (request r) (hdr_flags r) (hdr_size r).

Abbreviation VHOST_USER_MSG_FLAGS_VERSION := 3%Z (only parsing).
Abbreviation VHOST_USER_VERSION := 1%Z (only parsing).
Abbreviation VHOST_USER_MSG_FLAGS_REPLY := 4%Z (only parsing).
Abbreviation VHOST_USER_MSG_FLAGS_NEED_REPLY := 8%Z (only parsing).
Abbreviation VHOST_USER_U64_VRING_IDX_MSK := 127%Z (only parsing).
Abbreviation VHOST_USER_U64_NO_FD := 128%Z (only parsing).

Abbreviation VHOST_USER_GET_FEATURES := 1%Z (only parsing).
Abbreviation VHOST_USER_SET_FEATURES := 2%Z (only parsing).
Abbreviation VHOST_USER_SET_OWNER := 3%Z (only parsing).
Abbreviation VHOST_USER_SET_MEM_TABLE := 5%Z (only parsing).
Abbreviation VHOST_USER_SET_VRING_NUM := 8%Z (only parsing).
Abbreviation VHOST_USER_SET_VRING_ADDR := 9%Z (only parsing).
Abbreviation VHOST_USER_SET_VRING_BASE := 10%Z (only parsing).
Abbreviation VHOST_USER_SET_VRING_KICK := 12%Z (only parsing).
Abbreviation VHOST_USER_SET_VRING_CALL := 13%Z (only parsing).
Abbreviation VHOST_USER_GET_PROTOCOL_FEATURES := 15%Z (only parsing).
Abbreviation VHOST_USER_SET_PROTOCOL_FEATURES := 16%Z (only parsing).
Abbreviation VHOST_USER_SET_VRING_ENABLE := 18%Z (only parsing).
Abbreviation VHOST_USER_SET_SLAVE_REQ_FD := 21%Z (only parsing).
Abbreviation VHOST_USER_GET_CONFIG := 24%Z (only parsing).
Abbreviation VHOST_USER_VRING_KICK := 35%Z (only parsing).
Abbreviation VHOST_USER_SLAVE_CONFIG_CHANGE_MSG := 2%Z (only parsing).
Abbreviation VHOST_USER_SLAVE_VRING_CALL := 4%Z (only parsing).

Abbreviation VHOST_USER_F_PROTOCOL_FEATURES := 30%Z (only parsing).
Abbreviation VHOST_USER_PROTOCOL_F_REPLY_ACK := 3%Z (only parsing).
Abbreviation VHOST_USER_PROTOCOL_F_SLAVE_REQ := 5%Z (only parsing).
Abbreviation VHOST_USER_PROTOCOL_F_CONFIG := 9%Z (only parsing).
Abbreviation VHOST_USER_PROTOCOL_F_SLAVE_SEND_FD := 10%Z (only parsing).
Abbreviation VHOST_USER_PROTOCOL_F_INBAND_NOTIFICATIONS := 14%Z (only parsing).

(** [linux/virtio_ring.h]. *)
Definition VRING_DESC_F_NEXT : Z := 1.
Definition VRING_DESC_F_WRITE : Z := 2.

(** [sizeof] of the payload union and of the parts that are checked. *)
Definition payload_size : Z := 72.
Definition sizeof_hdr : Z := 12.
Definition sizeof_vring_state : Z := 8.
Definition sizeof_vring_addr : Z := 40.
Definition sizeof_region : Z := 32.
Definition sizeof_cfg_space : Z := 12.

(** What [recvmsg] gives: a message (its header, the bytes that follow and the
    descriptors with it), a short header, or the end of the connection. *)
Inductive vhost_input :=
  | VMsg (hdr : vhost_user_msg_hdr) (payload : list Z) (fds : list Z)
  | VShort
  | VClosed.

Inductive vhost_fn := usfstl_vhost_user_job_callback_fn | usfstl_vhost_user_job_callback_oob_fn.

(** [v_input] are the messages by descriptor; [v_mmaps] what the next calls of
    [mmap] return (the address and the bytes mapped there), [v_accepts] what
    the next calls of [sendmsg] return; [v_calls] are the notifications written
    to event descriptors, [v_out] the bytes written to sockets. *)
Record venv := VEnv {
  v_dev : option usfstl_vhost_user_dev_int;
  v_mem : mem;
  v_input : list (Z * vhost_input);
  v_mmaps : list (Z * mem);
  v_accepts : list Z;
  v_calloc_ok : bool;
  v_closed : list Z;
  v_calls : list Z;
  v_out : list (Z * list Z);
}.
#[export] Instance venv_settable : Settable venv := λ r,
  VEnv (v_dev r) (v_mem r) (v_input r) (v_mmaps r) (v_accepts r) (v_calloc_ok r) (v_closed r) (v_calls r)
    (v_out r).

Abbreviation VW := (world venv vhost_fn).

Definition upd_venv (f : venv → venv) : M VW unit := modify (λ w, w <| env := f (env w) |>).
Definition get_dev : M VW usfstl_vhost_user_dev_int := w ← get; deref (v_dev (env w)).
Definition upd_dev (f : usfstl_vhost_user_dev_int → usfstl_vhost_user_dev_int) : M VW unit :=
  d ← get_dev; upd_venv (λ e, e <| v_dev := Some (f d) |>).

Definition get_virtq (i : Z) : M VW virtq := d ← get_dev; array_get (virtqs d) i.
Definition upd_virtq (i : Z) (f : virtq → virtq) : M VW unit :=
  d ← get_dev;
  l ← array_upd (virtqs d) i f;
  upd_venv (λ e, e <| v_dev := Some (d <| virtqs := l |>) |>).

Definition close (fd : Z) : M VW unit := upd_venv (λ e, e <| v_closed := v_closed e ++ [fd] |>).

(** A computation on the memory. *)
Definition on_mem {A : Type} (m : M mem A) : M VW A := λ w,
  match m (v_mem (env w)) with
  | Ok (a, m') => Ok (a, w <| env := (env w) <| v_mem := m' |> |>)
  | Err f => Err f
  end.

(** Loads and stores of little-endian fields of [n] bytes. *)
Definition ld (n : nat) (a : Z) : M VW Z := le_combine <$> on_mem (Str.load n a).
Definition st (n : nat) (a v : Z) : M VW unit := on_mem (Str.store a (le_split n v)).

(** ** Addresses and scatter-gather lists *)

(** The loop of [usfstl_vhost_user_to_va] over the regions in use. *)
Fixpoint to_va_loop (n : nat) (i : Z) (d : usfstl_vhost_user_dev_int) (addr : Z) : M VW Z :=
  match n with
  | O => fail Assertion
  | S n =>
      r ← array_get (regions d) i;
      if (addr >=? user_addr r) && (addr <? u64 (user_addr r + region_size r)) then
        va ← array_get (region_vaddr d) i;
        mret (va + (addr - user_addr r))
      else to_va_loop n (i + 1) d addr
  end.

Definition usfstl_vhost_user_to_va (addr : Z) : M VW Z :=
  d ← get_dev; to_va_loop (Z.to_nat (n_regions d)) 0 d addr.

Fixpoint iov_len_ (sg : list iovec) : Z :=
  match sg with [] => 0 | v :: sg => u64 (iov_len v + iov_len_ sg) end.

(** [iov_fill]: how many bytes were copied. *)
Fixpoint iov_fill (sg : list iovec) (buf : list Z) : M mem Z :=
  match buf, sg with
  | [], _ | _, [] => mret 0
  | _, v :: sg =>
      let cpy := Z.min (Z.of_nat (length buf)) (iov_len v) in
      Str.store (iov_base v) (take (Z.to_nat cpy) buf);;
      copied ← iov_fill sg (drop (Z.to_nat cpy) buf);
      mret (cpy + copied)
  end.

(** [iov_read]: the bytes that were copied to the buffer. *)
Fixpoint iov_read (buflen : Z) (sg : list iovec) : M mem (list Z) :=
  match sg with
  | [] => mret []
  | v :: sg =>
      if buflen =? 0 then mret []
      else
        let cpy := Z.min buflen (iov_len v) in
        bs ← Str.load (Z.to_nat cpy) (iov_base v);
        rest ← iov_read (buflen - cpy) sg;
        mret (bs ++ rest)
  end.

(** ** Taking buffers from a virtqueue *)

Definition desc_flags (q : vring) (i : Z) : M VW Z := ld 2 (desc q + 16 * i + 12).
Definition desc_next (q : vring) (i : Z) : M VW Z := ld 2 (desc q + 16 * i + 14).

(** The first loop over the chain: the numbers of descriptors to write and to
    read. *)
Fixpoint count_chain (fuel : nat) (q : vring) (i n_in n_out : Z) : M VW (Z * Z) :=
  match fuel with
  | O => fail OutOfFuel
  | S fuel =>
      flags ← desc_flags q i;
      let n_in := if negb (Z.land flags VRING_DESC_F_WRITE =? 0) then u32 (n_in + 1) else n_in in
      let n_out := if negb (Z.land flags VRING_DESC_F_WRITE =? 0) then n_out else u32 (n_out + 1) in
      next ← desc_next q i;
      if negb (Z.land flags VRING_DESC_F_NEXT =? 0) then count_chain fuel q next n_in n_out
      else mret (n_in, n_out)
  end.

(** The second loop: the scatter-gather lists. *)
Fixpoint fill_chain (fuel : nat) (q : vring) (i : Z) (buf : usfstl_vhost_user_buf)
    : M VW usfstl_vhost_user_buf :=
  match fuel with
  | O => fail OutOfFuel
  | S fuel =>
      flags ← desc_flags q i;
      addr ← ld 8 (desc q + 16 * i);
      va ← usfstl_vhost_user_to_va addr;
      len ← ld 4 (desc q + 16 * i + 8);
      let vec := Iovec va len in
      let buf :=
        if negb (Z.land flags VRING_DESC_F_WRITE =? 0)
        then buf <| in_sg := in_sg buf ++ [vec] |> <| n_in_sg := n_in_sg buf + 1 |>
        else buf <| out_sg := out_sg buf ++ [vec] |> <| n_out_sg := n_out_sg buf + 1 |> in
      next ← desc_next q i;
      if negb (Z.land flags VRING_DESC_F_NEXT =? 0) then fill_chain fuel q next buf
      else mret buf
  end.

Definition usfstl_vhost_user_virtq_empty (virtq_idx : Z) : M VW bool :=
  q ← get_virtq virtq_idx;
  avail_idx ← ld 2 (avail (virtq_ q) + 2);
  mret (avail_idx =? last_avail_idx q).

(** The buffer is [fixed] (with its fields set) or a new one. *)
Definition usfstl_vhost_user_get_virtq_buf (fuel : nat) (virtq_idx : Z)
    (fixed : option usfstl_vhost_user_buf) : M VW (option usfstl_vhost_user_buf) :=
  q ← get_virtq virtq_idx;
  avail_idx ← ld 2 (avail (virtq_ q) + 2);
  if avail_idx =? last_avail_idx q then mret None
  else
    upd_virtq virtq_idx (λ q, q <| last_avail_idx := u16 (last_avail_idx q + 1) |>);;
    (if num (virtq_ q) =? 0 then fail DivByZero else mret tt);;
    let idx := last_avail_idx q mod num (virtq_ q) in
    desc_idx ← ld 2 (avail (virtq_ q) + 4 + 2 * idx);
    usfstl_assert (desc_idx <? num (virtq_ q));;
    '(n_in, n_out) ← count_chain fuel (virtq_ q) desc_idx 0 0;
    w ← get;
    let new := Buf 0 0 [] [] 0 0 0 true in
    buf ← match fixed with
          | Some b =>
              if (n_in >? n_in_sg b) || (n_out >? n_out_sg b)
              then mret (if v_calloc_ok (env w) then Some new else None)
              else mret (Some b)
          | None => mret (if v_calloc_ok (env w) then Some new else None)
          end;
    match buf with
    | None => mret None
    | Some buf =>
        Some <$> fill_chain fuel (virtq_ q) desc_idx
          (buf <| n_in_sg := 0 |> <| n_out_sg := 0 |> <| in_sg := [] |> <| out_sg := [] |>
               <| buf_idx := desc_idx |> <| buf_virtq_idx := virtq_idx |>)
    end.

(** ** Messages *)

Definition has_feature (x bit : Z) : bool := negb (Z.land x (Z.shiftl 1 bit) =? 0).

(** The next message on [fd]. *)
Fixpoint take_input (fd : Z) (l : list (Z * vhost_input)) : option (vhost_input * list (Z * vhost_input)) :=
  match l with
  | [] => None
  | p :: l =>
      if p.1 =? fd then Some (p.2, l) else r ← take_input fd l; Some (r.1, p :: r.2)
  end.

(** [usfstl_vhost_user_read_msg] into buffers for [maxlen] bytes of payload;
    [None] if the other side is gone. *)
Definition usfstl_vhost_user_read_msg (fd maxlen : Z)
    : M VW (option (vhost_user_msg_hdr * list Z * list Z)) :=
  w ← get;
  match take_input fd (v_input (env w)) with
  | None => fail Blocked
  | Some (i, rest) =>
      upd_venv (λ e, e <| v_input := rest |>);;
      match i with
      | VClosed => mret None
      | VShort => fail Assertion
      | VMsg hdr payload fds =>
          usfstl_assert (hdr_size hdr <=? maxlen);;
          if hdr_size hdr =? 0 then mret (Some (hdr, [], fds))
          else
            usfstl_assert (hdr_size hdr =? Z.of_nat (length payload));;
            mret (Some (hdr, payload, fds))
      end
  end.

(** A field of [n] bytes at offset [o] of a payload. *)
Definition field (n o : nat) (payload : list Z) : M VW Z :=
  if (o + n <=? length payload)%nat then mret (le_combine (take n (drop o payload)))
  else fail Uninitialized.

(** [write(fd, ...)] of a whole message. *)
Definition write_bytes (fd : Z) (bs : list Z) : M VW unit :=
  usfstl_assert (0 <=? fd);;
  upd_venv (λ e, e <| v_out := v_out e ++ [(fd, bs)] |>).

Definition hdr_bytes (h : vhost_user_msg_hdr) : list Z :=
  le_split 4 (request h) ++ le_split 4 (hdr_flags h) ++ le_split 4 (hdr_size h).

(** What vhost.c calls: the operations of the server, the controller client and
    the main loop, run until a descriptor is readable. *)
Class VhostEnv := {
  op_connected : M VW unit;
  op_handle : usfstl_vhost_user_buf → Z → M VW usfstl_vhost_user_buf;
  op_disconnected : M VW unit;
  ctrl_sync_to : M VW unit;
  ctrl_sync_from : M VW unit;
  loop_until_readable : Z → M VW unit;
}.

Section vhost.
Context `{VE : VhostEnv} (server : usfstl_vhost_user_server).
Context (env0 : SchedEnv venv vhost_fn).
#[local] Existing Instance env0.

Definition usfstl_vhost_user_send_msg (hdr : vhost_user_msg_hdr) (payload : list Z) : M VW unit :=
  d ← get_dev;
  let ack := has_feature (protocol_features d) VHOST_USER_PROTOCOL_F_REPLY_ACK in
  let hdr := if ack then hdr <| hdr_flags := Z.lor (hdr_flags hdr) VHOST_USER_MSG_FLAGS_NEED_REPLY |>
             else hdr in
  write_bytes (req_fd d) (hdr_bytes hdr ++ payload);;
  when ack
    (loop_until_readable (req_fd d);;
     d ← get_dev;
     r ← usfstl_vhost_user_read_msg (req_fd d) payload_size;
     usfstl_assert (match r with Some _ => true | None => false end)).

Definition usfstl_vhost_user_send_virtq_buf (buf : usfstl_vhost_user_buf) (virtq_idx : Z) : M VW unit :=
  q ← get_virtq virtq_idx;
  when (server_has_ctrl server) ctrl_sync_to;;
  q' ← get_virtq virtq_idx;
  let vq := virtq_ q' in
  idx ← ld 2 (used vq + 2);
  let widx := idx + 1 in
  (if num vq =? 0 then fail DivByZero else mret tt);;
  let idx := idx mod num vq in
  st 4 (used vq + 4 + 8 * idx) (buf_idx buf);;
  st 4 (used vq + 4 + 8 * idx + 4) (written buf);;
  st 2 (used vq + 2) widx;;
  d ← get_dev;
  if (call_fd q <? 0) &&
     has_feature (protocol_features d) VHOST_USER_PROTOCOL_F_INBAND_NOTIFICATIONS &&
     has_feature (protocol_features d) VHOST_USER_PROTOCOL_F_SLAVE_REQ
  then usfstl_vhost_user_send_msg
         (Hdr VHOST_USER_SLAVE_VRING_CALL VHOST_USER_VERSION sizeof_vring_state)
         (le_split 4 virtq_idx ++ le_split 4 0)
  else
    q ← get_virtq virtq_idx;
    usfstl_assert (0 <=? call_fd q);;
    upd_venv (λ e, e <| v_calls := v_calls e ++ [call_fd q] |>).

(** The buffer is freed if it was allocated. *)
Definition usfstl_vhost_user_send_response (buf : usfstl_vhost_user_buf) : M VW unit :=
  usfstl_vhost_user_send_virtq_buf buf (buf_virtq_idx buf).

(** The buffer on the stack. *)
Definition stack_buf : usfstl_vhost_user_buf :=
  Buf SG_STACK_PREALLOC SG_STACK_PREALLOC [] [] 0 0 0 false.

(** The loop of [usfstl_vhost_user_handle_queue]: [fixed] is [_buf], which keeps
    its contents from one round to the next. *)
Fixpoint handle_queue_loop (fuel cfuel : nat) (virtq_idx : Z) (fixed : usfstl_vhost_user_buf) : M VW unit :=
  match fuel with
  | O => fail OutOfFuel
  | S fuel =>
      buf ← usfstl_vhost_user_get_virtq_buf cfuel virtq_idx (Some fixed);
      match buf with
      | None => mret tt
      | Some buf =>
          buf ← op_handle buf virtq_idx;
          usfstl_vhost_user_send_response buf;;
          handle_queue_loop fuel cfuel virtq_idx (if allocated buf then fixed else buf)
      end
  end.

Definition usfstl_vhost_user_handle_queue (fuel cfuel : nat) (virtq_idx : Z) : M VW unit :=
  handle_queue_loop fuel cfuel virtq_idx stack_buf.

(** The loop of [usfstl_vhost_user_job_callback] from queue [virtq] on, [n]
    queues. *)
Fixpoint job_callback_loop (n fuel cfuel : nat) (virtq : Z) : M VW unit :=
  match n with
  | O => mret tt
  | S n =>
      q ← get_virtq virtq;
      when (triggered q)
        (upd_virtq virtq (λ q, q <| triggered := false |>);;
         usfstl_vhost_user_handle_queue fuel cfuel virtq);;
      job_callback_loop n fuel cfuel (virtq + 1)
  end.

Definition usfstl_vhost_user_job_callback (fuel cfuel : nat) : M VW unit :=
  job_callback_loop (Z.to_nat (max_queues server)) fuel cfuel 0.

Definition usfstl_vhost_user_handle_queue_oob (cfuel : nat) (virtq_idx : Z) : M VW bool :=
  buf ← usfstl_vhost_user_get_virtq_buf cfuel virtq_idx None;
  match buf with
  | Some buf => op_handle buf virtq_idx;; mret tt
  | None => mret tt
  end;;
  usfstl_vhost_user_virtq_empty virtq_idx.

(** [true] is [goto again]. *)
Fixpoint job_callback_oob_loop (n cfuel : nat) (virtq : Z) (handled_one : bool) : M VW bool :=
  match n with
  | O => mret false
  | S n =>
      q ← get_virtq virtq;
      if negb (triggered q) then job_callback_oob_loop n cfuel (virtq + 1) handled_one
      else if handled_one then mret true
      else
        empty ← usfstl_vhost_user_handle_queue_oob cfuel virtq;
        if negb empty then mret true
        else
          upd_virtq virtq (λ q, q <| triggered := false |>);;
          job_callback_oob_loop n cfuel (virtq + 1) true
  end.

Definition usfstl_vhost_user_job_callback_oob (cfuel : nat) : M VW unit :=
  again ← job_callback_oob_loop (Z.to_nat (max_queues server)) cfuel 0 false;
  when again
    (s ← deref (server_scheduler server);
     d ← get_dev;
     usfstl_sched_add_job s (irq_job d)).

Definition usfstl_vhost_user_virtq_kick (fuel cfuel : nat) (virtq : Z) : M VW unit :=
  if Z.land (input_queues server) (Z.shiftl 1 virtq) =? 0 then mret tt
  else
    upd_virtq virtq (λ q, q <| triggered := true |>);;
    d ← get_dev;
    scheduled ← usfstl_job_scheduled (irq_job d);
    if (scheduled : bool) then mret tt
    else
      match server_scheduler server with
      | None => usfstl_vhost_user_job_callback fuel cfuel
      | Some s =>
          when (server_has_ctrl server) ctrl_sync_from;;
          now ← usfstl_sched_current_time s;
          upd_job (irq_job d) (λ jb, jb <| start := u64 (now + interrupt_latency server) |>);;
          usfstl_sched_add_job s (irq_job d)
      end.

(** [usfstl_vhost_user_virtq_fdkick] for the entry of [virtq]; the eight bytes
    have been read. *)
Definition usfstl_vhost_user_virtq_fdkick (fuel cfuel : nat) (virtq : Z) : M VW unit :=
  usfstl_assert (virtq <? max_queues server);;
  usfstl_vhost_user_virtq_kick fuel cfuel virtq.

(** ** Memory regions *)

(** [munmap]. *)
Definition munmap (a n : Z) : M VW unit :=
  upd_venv (λ e, e <| v_mem := filter (λ p, ¬ (a ≤ p.1 < a + n)) (v_mem e) |>).

Definition clear_mapping (idx : Z) : M VW unit :=
  d ← get_dev;
  va ← array_get (region_vaddr d) idx;
  r ← array_get (regions d) idx;
  when (negb (va =? 0))
    (munmap va (region_size r);;
     upd_dev (λ d, d <| region_vaddr := <[Z.to_nat idx := 0]> (region_vaddr d) |>));;
  fd ← array_get (region_fds d) idx;
  when (negb (fd =? -1))
    (close fd;; upd_dev (λ d, d <| region_fds := <[Z.to_nat idx := -1]> (region_fds d) |>)).

Definition usfstl_vhost_user_clear_mappings : M VW unit := clear_mapping 0;; clear_mapping 1.

(** The loop of [usfstl_vhost_user_setup_mappings]: [n] regions from [idx]. *)
Fixpoint setup_loop (n : nat) (idx : Z) : M VW unit :=
  match n with
  | O => mret tt
  | S n =>
      d ← get_dev;
      va ← array_get (region_vaddr d) idx;
      usfstl_assert (va =? 0);;
      w ← get;
      match v_mmaps (env w) with
      | [] => fail Assertion
      | (a, bytes) :: rest =>
          upd_venv (λ e, e <| v_mmaps := rest |>);;
          usfstl_assert (negb (a =? -1));;
          upd_venv (λ e, e <| v_mem := bytes ∪ v_mem e |>);;
          upd_dev (λ d, d <| region_vaddr := <[Z.to_nat idx := a]> (region_vaddr d) |>);;
          setup_loop n (idx + 1)
      end
  end.

Definition usfstl_vhost_user_setup_mappings : M VW unit :=
  d ← get_dev; setup_loop (Z.to_nat (n_regions d)) 0.

(** ** Kick descriptors *)
Definition usfstl_vhost_user_update_virtq_kick (virtq fd : Z) : M VW unit :=
  q ← get_virtq virtq;
  when (negb (kick_fd q =? -1))
    (if kick_registered q then
       upd_virtq virtq (λ q, q <| kick_registered := false |>);;
       close (kick_fd q)
     else fail NullDeref);;
  when (negb (fd =? -1))
    (upd_virtq virtq (λ q, q <| kick_fd := fd |> <| kick_registered := true |>)).

Fixpoint free_virtqs (n : nat) (virtq : Z) : M VW unit :=
  match n with
  | O => mret tt
  | S n =>
      usfstl_vhost_user_update_virtq_kick virtq (-1);;
      q ← get_virtq virtq;
      when (negb (call_fd q =? -1)) (close (call_fd q));;
      free_virtqs n (virtq + 1)
  end.

Definition usfstl_vhost_user_dev_free : M VW unit :=
  d ← get_dev;
  (if entry_registered d then upd_dev (λ d, d <| entry_registered := false |>) else fail NullDeref);;
  usfstl_sched_del_job (irq_job d);;
  free_virtqs (Z.to_nat (max_queues server)) 0;;
  usfstl_vhost_user_clear_mappings;;
  d ← get_dev;
  when (negb (req_fd d =? -1)) (close (req_fd d));;
  when (server_has_ctrl server) ctrl_sync_from;;
  op_disconnected;;
  d ← get_dev;
  when (negb (entry_fd d =? -1)) (close (entry_fd d));;
  upd_venv (λ e, e <| v_dev := None |>).

Definition usfstl_vhost_user_get_msg_fds (fds : list Z) (max_fds : Z) : M VW (list Z) :=
  usfstl_assert (Z.of_nat (length fds) <=? max_fds);;
  mret fds.

(** ** Replies *)

(** [msg_iov]s cut to [tmp] bytes in all. *)
Fixpoint cut_iov (tmp : nat) (iov : list (list Z)) : list (list Z) :=
  match iov with
  | [] => []
  | v :: iov =>
      if (tmp =? 0)%nat then [] else take tmp v :: cut_iov (tmp - length (take tmp v)) iov
  end.

(** The vectors after [len] bytes were sent. *)
Fixpoint advance_iov (len : nat) (iov : list (list Z)) : list (list Z) :=
  match iov with
  | [] => []
  | v :: iov => drop len v :: advance_iov (len - length (take len v)) iov
  end.

(** [while (reply_len) sendmsg(...)]; [true] if it succeeds. *)
Fixpoint reply_loop (fuel : nat) (fd : Z) (reply_len : nat) (iov : list (list Z)) : M VW bool :=
  if (reply_len =? 0)%nat then mret true
  else
    match fuel with
    | O => fail OutOfFuel
    | S fuel =>
        w ← get;
        match v_accepts (env w) with
        | [] => fail Blocked
        | len :: rest =>
            upd_venv (λ e, e <| v_accepts := rest |>);;
            if len <? 0 then mret false
            else
              usfstl_assert (negb (len =? 0));;
              let n := Nat.min (Z.to_nat len) (length (concat iov)) in
              upd_venv (λ e, e <| v_out := v_out e ++ [(fd, take n (concat iov))] |>);;
              reply_loop fuel fd (reply_len - n) (advance_iov n iov)
        end
    end.

(** Sends [reply_len] bytes of payload from the three parts of the message. *)
Definition send_reply (hdr : vhost_user_msg_hdr) (reply_len : Z) (payload data : list Z) : M VW unit :=
  let hdr := Hdr (request hdr)
                 (Z.lor (Z.ldiff (hdr_flags hdr) VHOST_USER_MSG_FLAGS_NEED_REPLY)
                        VHOST_USER_MSG_FLAGS_REPLY) reply_len in
  let total := Z.to_nat (reply_len + sizeof_hdr) in
  d ← get_dev;
  ok ← reply_loop (S total) (entry_fd d) total (cut_iov total [hdr_bytes hdr; payload; data]);
  when (negb ok) usfstl_vhost_user_dev_free.

(** ** The message handler

    The part before the reply: the length of the reply, the payload and the
    data to send, if there are any. *)
Definition reply := option (Z * list Z * list Z).

Definition u64_reply (v : Z) : M VW reply := mret (Some (8, le_split 8 v, [])).

Definition region_of (bs : list Z) : vhost_user_region :=
  Region (le_combine (take 8 bs)) (le_combine (take 8 (drop 8 bs)))
    (le_combine (take 8 (drop 16 bs))) (le_combine (take 8 (drop 24 bs))).

Definition set_mem_table (len : Z) (payload fds : list Z) : M VW unit :=
  usfstl_assert (0 <? len);;
  n ← field 4 0 payload;
  usfstl_assert (8 + sizeof_region * n <=? len);;
  usfstl_assert (n <=? MAX_REGIONS);;
  usfstl_vhost_user_clear_mappings;;
  let new := map (λ i, region_of (drop (8 + 32 * i) payload)) (seq 0 (Z.to_nat n)) in
  upd_dev (λ d, d <| regions := new ++ drop (Z.to_nat n) (regions d) |> <| n_regions := n |>);;
  fds ← usfstl_vhost_user_get_msg_fds fds MAX_REGIONS;
  upd_dev (λ d, d <| region_fds := fds ++ drop (length fds) (region_fds d) |>);;
  usfstl_vhost_user_setup_mappings.

Definition set_vring_addr (len : Z) (payload : list Z) : M VW unit :=
  usfstl_assert (len =? sizeof_vring_addr);;
  idx ← field 4 0 payload;
  usfstl_assert (idx <=? max_queues server);;
  flags ← field 4 4 payload;
  usfstl_assert (flags =? 0);;
  q ← get_virtq idx;
  usfstl_assert (negb (enabled q));;
  upd_virtq idx (λ q, q <| last_avail_idx := 0 |>);;
  descriptor ← field 8 8 payload;
  d ← usfstl_vhost_user_to_va descriptor;
  upd_virtq idx (λ q, q <| virtq_ := (virtq_ q) <| desc := d |> |>);;
  used_ ← field 8 16 payload;
  u ← usfstl_vhost_user_to_va used_;
  upd_virtq idx (λ q, q <| virtq_ := (virtq_ q) <| used := u |> |>);;
  avail_ ← field 8 24 payload;
  a ← usfstl_vhost_user_to_va avail_;
  upd_virtq idx (λ q, q <| virtq_ := (virtq_ q) <| avail := a |> |>);;
  usfstl_assert (negb (a =? 0) && negb (d =? 0) && negb (u =? 0)).

Definition set_vring_kick (len : Z) (payload fds : list Z) : M VW unit :=
  usfstl_assert (len =? 8);;
  v ← field 8 0 payload;
  let virtq := Z.land v VHOST_USER_U64_VRING_IDX_MSK in
  usfstl_assert (virtq <=? max_queues server);;
  fd ← (if negb (Z.land v VHOST_USER_U64_NO_FD =? 0) then mret (-1)
        else
          fds ← usfstl_vhost_user_get_msg_fds fds 1;
          match fds with fd :: _ => mret fd | [] => fail Uninitialized end);
  usfstl_vhost_user_update_virtq_kick virtq fd.

Definition set_vring_call (len : Z) (payload fds : list Z) : M VW unit :=
  usfstl_assert (len =? 8);;
  v ← field 8 0 payload;
  let virtq := Z.land v VHOST_USER_U64_VRING_IDX_MSK in
  usfstl_assert (virtq <=? max_queues server);;
  q ← get_virtq virtq;
  when (negb (call_fd q =? -1)) (close (call_fd q));;
  if negb (Z.land v VHOST_USER_U64_NO_FD =? 0) then upd_virtq virtq (λ q, q <| call_fd := -1 |>)
  else
    fds ← usfstl_vhost_user_get_msg_fds fds 1;
    match fds with fd :: _ => upd_virtq virtq (λ q, q <| call_fd := fd |>) | [] => mret tt end.

Definition set_slave_req_fd (len : Z) (fds : list Z) : M VW unit :=
  usfstl_assert (len =? 0);;
  d ← get_dev;
  when (negb (req_fd d =? -1)) (close (req_fd d));;
  fds ← usfstl_vhost_user_get_msg_fds fds 1;
  match fds with fd :: _ => upd_dev (λ d, d <| req_fd := fd |>) | [] => mret tt end;;
  d ← get_dev;
  usfstl_assert (negb (req_fd d =? -1)).

Definition get_config (len : Z) (payload : list Z) : M VW reply :=
  offset ← field 4 0 payload;
  size ← field 4 4 payload;
  usfstl_assert (len =? s32 (sizeof_cfg_space + size));;
  match config server with
  | Some (b :: bs) =>
      usfstl_assert (offset =? 0);;
      usfstl_assert (size <=? Z.of_nat (length (b :: bs)));;
      mret (Some (len, le_split 4 offset ++ le_split 4 size ++ le_split 4 0, b :: bs))
  | _ => fail Assertion
  end.

(** A message about a queue that is given with a number. *)
Definition vring_state (len : Z) (payload : list Z) : M VW (Z * Z) :=
  usfstl_assert (len =? sizeof_vring_state);;
  idx ← field 4 0 payload;
  usfstl_assert (idx <? max_queues server);;
  n ← field 4 4 payload;
  mret (idx, n).

Definition handle_request (fuel cfuel : nat) (req len : Z) (payload fds : list Z) : M VW reply :=
  if req =? VHOST_USER_GET_FEATURES then
    usfstl_assert (len =? 0);;
    u64_reply (Z.lor (server_features server) (Z.shiftl 1 VHOST_USER_F_PROTOCOL_FEATURES))
  else if req =? VHOST_USER_SET_FEATURES then
    usfstl_assert (len =? 8);;
    v ← field 8 0 payload;
    upd_dev (λ d, d <| features := v |>);;
    mret None
  else if req =? VHOST_USER_SET_OWNER then
    usfstl_assert (len =? 0);; mret None
  else if req =? VHOST_USER_SET_MEM_TABLE then
    set_mem_table len payload fds;; mret None
  else if req =? VHOST_USER_SET_VRING_NUM then
    '(idx, n) ← vring_state len payload;
    upd_virtq idx (λ q, q <| virtq_ := (virtq_ q) <| num := n |> |>);;
    mret None
  else if req =? VHOST_USER_SET_VRING_ADDR then
    set_vring_addr len payload;; mret None
  else if req =? VHOST_USER_SET_VRING_BASE then mret None
  else if req =? VHOST_USER_SET_VRING_KICK then
    set_vring_kick len payload fds;; mret None
  else if req =? VHOST_USER_SET_VRING_CALL then
    set_vring_call len payload fds;; mret None
  else if req =? VHOST_USER_GET_PROTOCOL_FEATURES then
    usfstl_assert (len =? 0);;
    let v := server_protocol_features server in
    let v := match config server with
             | Some (_ :: _) => Z.lor v (Z.shiftl 1 VHOST_USER_PROTOCOL_F_CONFIG)
             | _ => v
             end in
    u64_reply (Z.lor (Z.lor (Z.lor v (Z.shiftl 1 VHOST_USER_PROTOCOL_F_SLAVE_REQ))
                            (Z.shiftl 1 VHOST_USER_PROTOCOL_F_SLAVE_SEND_FD))
                     (Z.shiftl 1 VHOST_USER_PROTOCOL_F_REPLY_ACK))
  else if req =? VHOST_USER_SET_VRING_ENABLE then
    '(idx, n) ← vring_state len payload;
    upd_virtq idx (λ q, q <| enabled := negb (n =? 0) |>);;
    mret None
  else if req =? VHOST_USER_SET_PROTOCOL_FEATURES then
    usfstl_assert (len =? 8);;
    v ← field 8 0 payload;
    upd_dev (λ d, d <| protocol_features := v |>);;
    mret None
  else if req =? VHOST_USER_SET_SLAVE_REQ_FD then
    set_slave_req_fd len fds;; mret None
  else if req =? VHOST_USER_GET_CONFIG then get_config len payload
  else if req =? VHOST_USER_VRING_KICK then
    '(idx, n) ← vring_state len payload;
    usfstl_assert (n =? 0);;
    usfstl_vhost_user_virtq_kick fuel cfuel idx;;
    mret None
  else fail Assertion.

(** The size of the buffer for configuration data. *)
Definition config_max : Z := 256.

Definition usfstl_vhost_user_handle_msg (fuel cfuel : nat) : M VW unit :=
  d ← get_dev;
  m ← usfstl_vhost_user_read_msg (entry_fd d) (payload_size + config_max);
  match m with
  | None => usfstl_vhost_user_dev_free
  | Some (hdr, payload, fds) =>
      usfstl_assert (Z.land (hdr_flags hdr) VHOST_USER_MSG_FLAGS_VERSION =? VHOST_USER_VERSION);;
      r ← handle_request fuel cfuel (request hdr) (hdr_size hdr) payload fds;
      match r with
      | Some (reply_len, payload, data) => send_reply hdr reply_len payload data
      | None =>
          when (negb (Z.land (hdr_flags hdr) VHOST_USER_MSG_FLAGS_NEED_REPLY =? 0))
            (send_reply hdr 8 (le_split 8 0) [])
      end
  end.

(** ** Devices *)

(** A connection on [fd]; the job of the new device is at [job]. *)
Definition usfstl_vhost_user_connected (fd job : Z) : M VW unit :=
  upd_venv (λ e, e <| v_dev := Some
    (Dev job 0 false 0 0 0 (replicate 2 (Region 0 0 0 0)) (replicate 2 (-1)) (replicate 2 0) (-1)
       (replicate (Z.to_nat (max_queues server))
          (Virtq (-1) false false false (Vring 0 0 0 0) (-1) 0))) |>);;
  put_job job (job_zero <| name := "vhost-user-irq" |> <| priority := 268435456 |>
    <| callback := Some (if deferred_handling server then usfstl_vhost_user_job_callback_oob_fn
                         else usfstl_vhost_user_job_callback_fn) |>);;
  op_connected;;
  upd_dev (λ d, d <| entry_fd := fd |> <| entry_registered := true |>).

Definition usfstl_vhost_user_dev_notify (cfuel : nat) (virtq_idx : Z) (data : list Z) : M VW unit :=
  usfstl_assert (virtq_idx <=? max_queues server);;
  q ← get_virtq virtq_idx;
  if negb (enabled q) then mret tt
  else
    buf ← usfstl_vhost_user_get_virtq_buf cfuel virtq_idx (Some stack_buf);
    match buf with
    | None => mret tt
    | Some buf =>
        usfstl_assert (negb (n_in_sg buf =? 0) && (n_out_sg buf =? 0));;
        on_mem (iov_fill (in_sg buf) data);;
        usfstl_vhost_user_send_virtq_buf (buf <| written := Z.of_nat (length data) |>) virtq_idx
    end.

Definition usfstl_vhost_user_config_changed : M VW unit :=
  d ← get_dev;
  if negb (has_feature (protocol_features d) VHOST_USER_PROTOCOL_F_CONFIG) then mret tt
  else usfstl_vhost_user_send_msg (Hdr VHOST_USER_SLAVE_CONFIG_CHANGE_MSG VHOST_USER_VERSION 0) [].

Definition vhost_env (fuel cfuel : nat) : SchedEnv venv vhost_fn := {|
  disable_skip_external_request := false;
  call_request _ _ _ := fail NullDeref;
  call_wait _ _ := fail NullDeref;
  call_get_time _ _ := fail NullDeref;
  call_set_time _ _ _ := fail NullDeref;
  call_time_advanced _ _ _ := fail NullDeref;
  call_next_time_changed _ _ := fail NullDeref;
  call_callback f j :=
    match f with
    | usfstl_vhost_user_job_callback_fn => usfstl_vhost_user_job_callback fuel cfuel
    | usfstl_vhost_user_job_callback_oob_fn => usfstl_vhost_user_job_callback_oob cfuel
    end;
|}.
End vhost.
