(* ===== verification/Net.v ===== *)
(** * The virtual network of the controller (control/net.c)

    Clients are vhost-user devices on one network; a packet is a job of the
    controller's scheduler.  The job embedded in a packet has the packet's
    address.  The network's variables are a part of the program's state, which
    [Control] provides ([Network]).  What notifying a device does ([usfstl_vhost_user_dev_notify], see
    [Vhost]) is given, as is what the C allocator returns; memory is that of the
    device whose buffer is handled. *)
From S2P Require Import Prelude Sched Util Bytes Vhost.

Definition ETHOFFS : Z := 10.

Record usfstl_net_client := NetClient {
  net_idx : Z;
  addr : list Z;
  addrvalid : bool;
  net_dev : Z;
}.
#[export] Instance net_client_settable : Settable usfstl_net_client := λ r,
  NetClient (net_idx r) (addr r) (addrvalid r) (net_dev r).

Record usfstl_net_packet := NetPacket { transmitter : Z; pkt_len : Z; pkt_buf : list Z }.

(** [client_list] in order, the client structures and packets by address,
    [dev_data] is [dev->data]; [allocs] are the next results of the allocator. *)
Record netenv := NetEnvSt {
  client_list : list Z;
  net_clients : gmap Z usfstl_net_client;
  clients : Z;
  pktdelay : Z;
  packets : gmap Z usfstl_net_packet;
  dev_data : gmap Z Z;
  allocs : list (option Z);
  notified : list (Z * Z * list Z);
}.
#[export] Instance netenv_settable : Settable netenv := λ r,
  NetEnvSt (client_list r) (net_clients r) (clients r) (pktdelay r) (packets r) (dev_data r) (allocs r) (notified r).

(** The part of the program's state that the network has, and the function
    pointer of its jobs. *)
Class Network (E F : Type) := {
  net : E → netenv;
  set_net : netenv → E → E;
  packet_job_fn : F;
  net_set_net v e : net (set_net v e) = v;
  set_net_net e : set_net (net e) e = e;
  set_net_set_net v v' e : set_net v (set_net v' e) = set_net v e;
}.

(** [usfstl_vhost_user_dev_notify(dev, vring, data)]. *)
Class NetNotify (E F : Type) := dev_notify : Z → Z → list Z → M (world E F) unit.

Section net.
Context {E F : Type} `{NT : Network E F} `{NN : NetNotify E F} (env0 : SchedEnv E F) (scheduler : Z).
#[local] Existing Instance env0.
Abbreviation NW := (world E F).

Definition upd_net (f : netenv → netenv) : M NW unit := modify (λ w, w <| env := set_net (f (net (env w))) (env w) |>).
Definition get_client (c : Z) : M NW usfstl_net_client := w ← get; deref (net_clients (net (env w)) !! c).
Definition get_packet (p : Z) : M NW usfstl_net_packet := w ← get; deref (packets (net (env w)) !! p).

(** [n] bytes of the packet from offset [o]; behind its data it has none. *)
Definition pkt_bytes (p : usfstl_net_packet) (o n : Z) : M NW (list Z) :=
  if o + n <=? Z.of_nat (length (pkt_buf p)) then mret (take (Z.to_nat n) (drop (Z.to_nat o) (pkt_buf p)))
  else fail OutOfBounds.

(** Is the packet for the client? *)
Definition for_client (pkt c : Z) : M NW bool :=
  p ← get_packet pkt;
  if c =? transmitter p then mret false
  else
    b ← pkt_bytes p ETHOFFS 1;
    if negb (Z.land (le_combine b) 1 =? 0) then mret true
    else
      x ← get_client c;
      if addrvalid x then dst ← pkt_bytes p ETHOFFS 6; mret (bool_decide (addr x = dst)) else mret false.

(** The loop over the clients from [item] on: the next one is looked up when the
    body is done. *)
Fixpoint deliver_loop (fuel : nat) (pkt : Z) (item : option Z) : M NW unit :=
  match item with
  | None => mret tt
  | Some c =>
      match fuel with
      | O => fail OutOfFuel
      | S fuel =>
          b ← for_client pkt c;
          when b (x ← get_client c; p ← get_packet pkt;
                  dev_notify (net_dev x) 0 (take (Z.to_nat (pkt_len p)) (pkt_buf p)));;
          w ← get;
          if bool_decide (c ∈ client_list (net (env w))) then deliver_loop fuel pkt (successor c (client_list (net (env w))))
          else fail NullDeref
      end
  end.

Definition packet_job_callback (fuel : nat) (pkt : Z) : M NW unit :=
  w ← get;
  deliver_loop fuel pkt (head (client_list (net (env w))));;
  modify (λ w, w <| jobs := delete pkt (jobs w) |>);;
  upd_net (λ e, e <| packets := delete pkt (packets e) |>).

(** The next result of the allocator. *)
Definition alloc : M NW (option Z) :=
  w ← get;
  match allocs (net (env w)) with
  | [] => mret None
  | a :: rest => upd_net (λ e, e <| allocs := rest |>);; mret a
  end.

(** [m] is the memory of the device.  The name of the job is not formatted with
    the number of the client. *)
Definition vu_net_client_handle (fuel : nat) (m : mem) (dev : Z) (buf : usfstl_vhost_user_buf) : M NW unit :=
  w ← get;
  let client := dev_data (net (env w)) !! dev in
  usfstl_assert (negb (n_out_sg buf =? 0));;
  let sz := iov_len_ (out_sg buf) in
  a ← alloc;
  pkt ← deref a;
  data ← (λ w, match iov_read sz (out_sg buf) m with Ok (bs, _) => Ok (bs, w) | Err f => Err f end);
  client ← deref client;
  upd_net (λ e, e <| packets := <[pkt := NetPacket client (u32 sz) data]> (packets e) |>);;
  put_job pkt job_zero;;
  w ← get;
  (if negb (pktdelay (net (env w)) =? 0) then
     now ← usfstl_sched_current_time scheduler;
     upd_job pkt (λ jb, jb <| start := u64 (now + pktdelay (net (env w))) |> <| callback := Some packet_job_fn |>);;
     get_client client;;
     upd_job pkt (λ jb, jb <| name := "packet" |>);;
     usfstl_sched_add_job scheduler pkt
   else packet_job_callback fuel pkt);;
  x ← get_client client;
  if addrvalid x then mret tt
  else
    p ← get_packet pkt;
    when (ETHOFFS + 12 <=? pkt_len p)
      (src ← pkt_bytes p (ETHOFFS + 6) 6;
       upd_net (λ e, e <| net_clients := <[client := x <| addr := src |> <| addrvalid := true |>]> (net_clients e) |>)).

Definition vu_net_client_connected (dev : Z) : M NW unit :=
  a ← alloc;
  match a with
  | None => mret tt
  | Some client =>
      w ← get;
      let n := u32 (clients (net (env w)) + 1) in
      upd_net (λ e, e <| clients := n |> <| dev_data := <[dev := client]> (dev_data e) |>
        <| net_clients := <[client := NetClient n (replicate 6 0) false dev]> (net_clients e) |>
        <| client_list := client_list e ++ [client] |>)
  end.

Definition vu_net_client_disconnected (dev : Z) : M NW unit :=
  w ← get;
  upd_net (λ e, e <| clients := u32 (clients e - 1) |>);;
  client ← deref (dev_data (net (env w)) !! dev);
  w ← get;
  if bool_decide (client ∈ client_list (net (env w))) then
    upd_net (λ e, e <| client_list := List.filter (λ c, negb (c =? client)) (client_list e) |>
                    <| net_clients := delete client (net_clients e) |>)
  else fail NullDeref.
End net.

(** The callbacks of a program with the network: packets are jobs, [env0] has the
    other callbacks. *)
Definition net_env {E F : Type} `{NT : Network E F} `{NN : NetNotify E F} `{EqDecision F}
    (fuel : nat) (env0 : SchedEnv E F) : SchedEnv E F := {|
  disable_skip_external_request := @disable_skip_external_request _ _ env0;
  call_request := @call_request _ _ env0;
  call_wait := @call_wait _ _ env0;
  call_get_time := @call_get_time _ _ env0;
  call_set_time := @call_set_time _ _ env0;
  call_time_advanced := @call_time_advanced _ _ env0;
  call_next_time_changed := @call_next_time_changed _ _ env0;
  call_callback f j := if decide (f = packet_job_fn) then packet_job_callback fuel j else call_callback f j;
|}.
