(* ===== verification/Control.v ===== *)
(** * The simulation controller (control/main.c)

    The calendar process: its clients ask for run time on a scheduler, through
    messages or shared memory, and are run one after the other.  What the
    clients do is a list of batches of arrivals, one (at least) for each time
    the main loop waits; what is sent is recorded.  While the controller waits
    for an answer it handles the messages of all clients, so the code calls
    itself through the main loop and through the scheduler's hooks. *)
From S2P Require Import Prelude Sched Timetravel Loop Net.

(** ** Data *)

Inductive control_fn :=
  | run_client_fn
  | free_client_fn
  | _schedshm_get_time_fn
  | _schedshm_set_time_fn
  | next_time_changed_fn
  | packet_job_callback_fn.

#[export] Instance control_fn_eq_dec : EqDecision control_fn.
Proof. solve_decision. Defined.

Inductive usfstl_schedule_client_state :=
  | USCS_CONNECTED
  | USCS_START_REQUESTED
  | USCS_SHM_CHECK
  | USCS_STARTED.

#[export] Instance client_state_eq_dec : EqDecision usfstl_schedule_client_state.
Proof. solve_decision. Defined.

Inductive conn_handler := handle_message_fn | handle_message_wait_fn.

#[export] Instance conn_handler_eq_dec : EqDecision conn_handler.
Proof. solve_decision. Defined.

Inductive client_name := unnamed (ctr : Z) | named_id (id : Z).

(** The lists that [client->list] can be linked on. *)
Inductive list_head := client_list_head | new_clients_head.

#[export] Instance list_head_eq_dec : EqDecision list_head.
Proof. solve_decision. Defined.

(** A client's job is the job at the client's address; [conn_registered] is
    [conn.list.next != NULL], [c_list] is the list that [list] is linked on. *)
Record usfstl_schedule_client := SClient {
  conn_registered : bool;
  conn_handler_ : conn_handler;
  conn_priority : Z;
  c_list : option list_head;
  c_state : usfstl_schedule_client_state;
  sync_set : bool;
  c_sync : Z;
  n_req : Z;
  n_wait : Z;
  n_update : Z;
  last_message : Z;
  waiting_for : Z;
  c_offset : Z;
  start_seq : Z;
  nest : Z;
  c_name : client_name;
  c_shm_name : Z;
  c_id : Z;
  c_pid : Z;
}.
#[export] Instance sclient_settable : Settable usfstl_schedule_client := λ r,
  SClient (conn_registered r) (conn_handler_ r) (conn_priority r) (c_list r) (c_state r) (sync_set r)
    (c_sync r) (n_req r) (n_wait r) (n_update r) (last_message r) (waiting_for r) (c_offset r)
    (start_seq r) (nest r) (c_name r) (c_shm_name r) (c_id r) (c_pid r).

(** What can be read from a connection, or the listening socket (entry 0). *)
Inductive incoming :=
  | IMsg (msg : um_timetravel_msg)
  | IShort
  | IHangup
  | IConnect (addr : Z) (ucred : option Z).

(** What happens before one [select] returns: writes of the clients to the
    shared memory, arrivals on entries, and connections that break. *)
Record batch := Batch {
  b_mem : option um_timetravel_schedshm;
  b_arrivals : list (Z * incoming);
  b_broken : list Z;
}.

(** The variables of control/main.c, the static variables of its functions
    ([ctl_seq], [update_sync_running], [conn_ctr]), the main loop's entries and
    the sockets' queues, and the variables of control/net.c. *)
Record kenv := KEnv {
  kclients : gmap Z usfstl_schedule_client;
  clients : Z;
  expected_clients : Z;
  running_client : option Z;
  time_at_start : Z;
  nesting : Z;
  g_schedshm_mem : um_timetravel_schedshm;
  started_scheduling : bool;
  client_list : list Z;
  new_clients : list Z;
  disable_shm : bool;
  ctl_seq : Z;
  update_sync_running : bool;
  conn_ctr : Z;
  loop_entries : list Z;
  queues : gmap Z (list incoming);
  batches : list batch;
  broken : list Z;
  outbox : list (Z * um_timetravel_msg * Z);
  network : netenv;
}.
#[export] Instance kenv_settable : Settable kenv := λ r,
  KEnv (kclients r) (clients r) (expected_clients r) (running_client r) (time_at_start r) (nesting r)
    (g_schedshm_mem r) (started_scheduling r) (client_list r) (new_clients r) (disable_shm r)
    (ctl_seq r) (update_sync_running r) (conn_ctr r) (loop_entries r) (queues r) (batches r) (broken r)
    (outbox r) (network r).

#[export] Instance control_network : Network kenv control_fn := {|
  net := network;
  set_net v e := e <| network := v |>;
  packet_job_fn := packet_job_callback_fn;
  net_set_net v e := eq_refl;
  set_net_net e := ltac:(by destruct e);
  set_net_set_net v v' e := eq_refl;
|}.

Abbreviation KW := (world kenv control_fn).

(** The controller's scheduler, and the constants of the file. *)
Definition scheduler : Z := 1.
Definition CTRL_CLIENT_ID : Z := 0.
Definition CTRL_CLIENT_BIT (client_id : Z) : Z := Z.shiftl 1 (client_id - 1).
Definition CTRL_SCHEDSHM_MAX_CLIENTS : Z := 64.
Definition max_priority : Z := 2147483647.

Definition upd_kenv (f : kenv → kenv) : M KW unit := modify (λ w, w <| env := f (env w) |>).
Definition get_env : M KW kenv := gets env.
Definition get_client (c : Z) : M KW usfstl_schedule_client := w ← get; deref (kclients (env w) !! c).
Definition put_client (c : Z) (x : usfstl_schedule_client) : M KW unit :=
  upd_kenv (λ e, e <| kclients := <[c:=x]> (kclients e) |>).
Definition upd_client (c : Z) (f : usfstl_schedule_client → usfstl_schedule_client) : M KW unit :=
  x ← get_client c; put_client c (f x).

(** [g_schedshm_mem->clients[id] = f(...)]. *)
Definition get_shm_client (id : Z) : M KW um_timetravel_schedshm_client :=
  e ← get_env; array_get (shm_clients (g_schedshm_mem e)) id.
Definition set_shm_client (id : Z) (f : um_timetravel_schedshm_client → um_timetravel_schedshm_client)
    : M KW unit :=
  get_shm_client id;;
  upd_kenv (λ e, e <| g_schedshm_mem := upd_shm_client id f (g_schedshm_mem e) |>).

(** ** Lists of clients *)

Definition on_list (h : list_head) (e : kenv) : list Z :=
  match h with client_list_head => client_list e | new_clients_head => new_clients e end.
Definition set_list (h : list_head) (l : list Z) (e : kenv) : kenv :=
  match h with client_list_head => e <| client_list := l |> | new_clients_head => e <| new_clients := l |> end.

(** [usfstl_list_item_remove(&client->list)]. *)
Definition list_remove (c : Z) : M KW unit :=
  x ← get_client c;
  h ← deref (c_list x);
  upd_kenv (λ e, set_list h (List.filter (λ y, negb (y =? c)) (on_list h e)) e);;
  upd_client c (λ x, x <| c_list := None |>).

(** [usfstl_list_append(&head, &client->list)]. *)
Definition list_append (h : list_head) (c : Z) : M KW unit :=
  upd_kenv (λ e, set_list h (on_list h e ++ [c]) e);;
  upd_client c (λ x, x <| c_list := Some h |>).

(** [usfstl_next_item] on the list [h]. *)
Definition list_next (h : list_head) (c : Z) : M KW (option Z) :=
  x ← get_client c;
  e ← get_env;
  if decide (c_list x = Some h) then mret (successor c (on_list h e)) else fail NullDeref.

(** ** The main loop *)

Definition entry_priority (e : kenv) (c : Z) : Z :=
  match kclients e !! c with Some x => conn_priority x | None => 0 end.

(** [usfstl_loop_register(&client->conn)] and [usfstl_loop_unregister]. *)
Definition conn_register (c : Z) : M KW unit :=
  upd_kenv (λ e, e <| loop_entries := usfstl_loop_register (entry_priority e) c (loop_entries e) |>);;
  upd_client c (λ x, x <| conn_registered := true |>).
Definition conn_unregister (c : Z) : M KW unit :=
  x ← get_client c;
  if conn_registered x then
    upd_kenv (λ e, e <| loop_entries := usfstl_loop_unregister c (loop_entries e) |>);;
    upd_client c (λ x, x <| conn_registered := false |>)
  else fail NullDeref.

Definition arrive (q : gmap Z (list incoming)) (p : Z * incoming) : gmap Z (list incoming) :=
  <[p.1 := default [] (q !! p.1) ++ [p.2]]> q.

Definition take_batch (b : batch) (rest : list batch) (e : kenv) : kenv :=
  e <| batches := rest |> <| queues := foldl arrive (queues e) (b_arrivals b) |>
    <| broken := broken e ++ b_broken b |>
    <| g_schedshm_mem := default (g_schedshm_mem e) (b_mem b) |>.

Definition isset (e : kenv) (c : Z) : bool :=
  match queues e !! c with Some (_ :: _) => true | _ => false end.

(** [select], and the entry to handle: waits until an entry is readable. *)
Fixpoint select_loop (bs : list batch) (e : kenv) : res (Z * kenv) :=
  match loop_choose (isset e) (loop_entries e) with
  | Some c => Ok (c, e)
  | None => match bs with [] => Err Blocked | b :: bs => select_loop bs (take_batch b bs e) end
  end.

Definition loop_select : M KW Z := λ w,
  let e := match batches (env w) with [] => env w | b :: bs => take_batch b bs (env w) end in
  match select_loop (batches e) e with
  | Ok (c, e) => Ok (c, w <| env := e |>)
  | Err f => Err f
  end.

(** [read]: what is next on the entry; a connection that was hung up stays so. *)
Definition read (c : Z) : M KW incoming :=
  e ← get_env;
  match queues e !! c with
  | Some (IHangup :: _) => mret IHangup
  | Some (i :: q) => upd_kenv (λ e, e <| queues := <[c:=q]> (queues e) |>);; mret i
  | _ => fail Blocked
  end.

(** ** Clients *)

Definition free_client (job : Z) : M KW unit :=
  upd_kenv (λ e, e <| kclients := delete job (kclients e) |>);;
  modify (λ w, w <| jobs := delete job (jobs w) |>).

Definition _schedshm_client_has_shm (client_id : Z) : M KW bool :=
  has_time_share <$> get_shm_client client_id.

Definition set_running_client (client : option Z) : M KW unit :=
  id ← match client with
       | Some c => c_id <$> get_client c
       | None => mret CTRL_CLIENT_ID
       end;
  upd_kenv (λ e, e <| g_schedshm_mem := (g_schedshm_mem e) <| running_id := id |> |>
                   <| running_client := client |>).

Definition _schedshm_set_time (s time : Z) : M KW unit :=
  e ← get_env;
  shm ← _schedshm_client_has_shm (running_id (g_schedshm_mem e));
  usfstl_assert (negb shm);;
  upd_kenv (λ e, e <| g_schedshm_mem := (g_schedshm_mem e) <| shm_time := time |> |>).

Definition _schedshm_get_time (s : Z) : M KW Z := e ← get_env; mret (shm_time (g_schedshm_mem e)).

(** [env0] is what calls through the scheduler's function pointers do and
    [loop0] is [usfstl_loop_wait_and_handle], when they are called from here. *)
Section control.
Context (env0 : SchedEnv kenv control_fn) (loop0 : M KW unit).
#[local] Existing Instance env0.

Definition remove_client (client : Z) : M KW unit :=
  usfstl_sched_del_job client;;
  conn_unregister client;;
  x ← get_client client;
  when (bool_decide (c_state x ∈ [USCS_STARTED; USCS_SHM_CHECK]))
    (upd_kenv (λ e, e <| clients := Z.ldiff (clients e) (CTRL_CLIENT_BIT (c_id x)) |>));;
  list_remove client;;
  set_shm_client (c_id x) (λ _, shm_client_zero);;
  job ← usfstl_sched_next_pending scheduler None;
  start ← match job with
          | Some j => start <$> get_job j
          | None => usfstl_sched_current_time scheduler
          end;
  upd_job client (λ jb, jb <| Sched.start := start |> <| callback := Some free_client_fn |>);;
  e ← get_env;
  when (bool_decide (running_client e = Some client)) (set_running_client None);;
  usfstl_sched_add_job scheduler client.

Definition write_message_fds (client op seq time : Z) (fds_num : Z) : M KW bool :=
  jb ← get_job client;
  if bool_decide (callback jb = Some free_client_fn) then mret false
  else
    usfstl_assert (fds_num <=? UM_TIMETRAVEL_MAX_FDS);;
    e ← get_env;
    if bool_decide (client ∈ broken e) then
      remove_client client;;
      mret false
    else
      upd_kenv (λ e, e <| outbox := outbox e ++ [(client, Msg op seq time, fds_num)] |>);;
      mret true.

Definition write_message (client op seq time : Z) : M KW bool :=
  write_message_fds client op seq time 0.

Definition _schedshm_client_req_time (client : Z) : M KW unit :=
  x ← get_client client;
  shm_client ← get_shm_client (c_id x);
  if negb (has_req_run shm_client) then mret tt
  else
    scheduled ← usfstl_job_scheduled client;
    jb ← get_job client;
    if scheduled && (start jb =? req_time shm_client) then mret tt
    else
      usfstl_sched_del_job client;;
      upd_job client (λ jb, jb <| start := req_time shm_client |>);;
      usfstl_sched_add_job scheduler client;;
      upd_client client (λ x, x <| n_req := u64 (n_req x + 1) |>).

(** [wait_for]: each round handles one event of the main loop. *)
Fixpoint wait_loop (fuel : nat) (wait op : Z) : M KW unit :=
  match fuel with
  | O => fail OutOfFuel
  | S fuel =>
      upd_client wait (λ x, x <| last_message := u64 (-2) |> <| waiting_for := op |>);;
      x ← get_client wait;
      let wait_registered := if conn_registered x then Some (conn_handler_ x) else None in
      when (conn_registered x) (conn_unregister wait);;
      let wait_prio := conn_priority x in
      upd_client wait (λ x, x <| conn_priority := max_priority |>
                              <| conn_handler_ := handle_message_wait_fn |>);;
      conn_register wait;;
      loop0;;
      x ← get_client wait;
      if conn_registered x && bool_decide (wait_registered = Some handle_message_fn) then
        conn_unregister wait;;
        upd_client wait (λ x, x <| conn_priority := wait_prio |> <| conn_handler_ := handle_message_fn |>);;
        conn_register wait;;
        x ← get_client wait;
        if last_message x =? op then mret tt else wait_loop fuel wait op
      else mret tt
  end.

(** How often [wait_loop] can go round: every round takes what is queued or a
    batch. *)
Definition events_left (e : kenv) : nat :=
  foldr (λ b n, length (b_arrivals b) + n)%nat
    (map_fold (λ _ q n, length q + n)%nat 0%nat (queues e)) (batches e).

Definition wait_for (wait op : Z) : M KW unit :=
  upd_kenv (λ e, e <| nesting := nesting e + 1 |>);;
  e ← get_env;
  wait_loop (S (events_left e)) wait op;;
  upd_client wait (λ x, x <| last_message := u64 (-2) |> <| waiting_for := u64 (-1) |>);;
  upd_kenv (λ e, e <| nesting := nesting e - 1 |>).

Definition send_message (client op time : Z) : M KW bool :=
  upd_kenv (λ e, e <| ctl_seq := u64 (ctl_seq e + 1) |>);;
  upd_client client (λ x, x <| nest := nest x + 1 |>);;
  e ← get_env;
  ok ← write_message client op (u32 (ctl_seq e)) time;
  if negb ok then mret false
  else
    (if negb (op =? UM_TIMETRAVEL_RUN) then wait_for client UM_TIMETRAVEL_ACK
     else
       x ← get_client client;
       shm ← _schedshm_client_has_shm (c_id x);
       when (negb shm) (wait_for client UM_TIMETRAVEL_ACK));;
    upd_client client (λ x, x <| nest := nest x - 1 |>);;
    mret true.

Definition update_sync (client : option Z) : M KW unit :=
  sync ← usfstl_sched_get_sync_time scheduler;
  client ← match client with
           | None => running_client <$> get_env
           | Some c => set_running_client (Some c);; mret (Some c)
           end;
  e ← get_env;
  if negb (started_scheduling e) then mret tt
  else
    upd_kenv (λ e, e <| g_schedshm_mem := (g_schedshm_mem e) <| free_until := sync |> |>);;
    match client with
    | None => mret tt
    | Some c =>
        x ← get_client c;
        shm ← _schedshm_client_has_shm (c_id x);
        if (shm : bool) then mret tt
        else if sync_set x && (c_sync x =? sync) then mret tt
        else if update_sync_running e then mret tt
        else
          upd_kenv (λ e, e <| update_sync_running := true |>);;
          send_message c UM_TIMETRAVEL_FREE_UNTIL (u64 (sync - c_offset x));;
          upd_client c (λ x, x <| sync_set := true |> <| c_sync := sync |>);;
          upd_kenv (λ e, e <| update_sync_running := false |>)
    end.

(** The first client on [new_clients] whose name is greater. *)
Fixpoint insert_named (cs : gmap Z usfstl_schedule_client) (name c : Z) (l : list Z) : option (list Z) :=
  match l with
  | [] => Some [c]
  | y :: l' =>
      x ← cs !! y;
      if c_shm_name x >? name then Some (c :: l) else cons y <$> insert_named cs name c l'
  end.

Definition bad_reply : Z := u32 (-1).

(** [usfstl_for_each_list_item_safe] over [client_list], sending a broadcast to
    the others. *)
Fixpoint broadcast_loop (fuel : nat) (item next : option Z) (client time : Z) : M KW unit :=
  match item with
  | None => mret tt
  | Some other =>
      match fuel with
      | O => fail OutOfFuel
      | S fuel =>
          (if other =? client then mret tt
           else send_message other UM_TIMETRAVEL_BROADCAST time;; mret tt);;
          n ← match next with None => mret None | Some c => list_next client_list_head c end;
          broadcast_loop fuel next n client time
      end
  end.

Definition broadcast (client time : Z) : M KW unit :=
  e ← get_env;
  let item := head (client_list e) in
  n ← match item with None => mret None | Some c => list_next client_list_head c end;
  broadcast_loop (S (length (client_list e))) item n client time.

Definition handle_request (client time : Z) : M KW unit :=
  x ← get_client client;
  let req := u64 (c_offset x + time) in
  usfstl_assert (bool_decide (c_state x = USCS_STARTED));;
  set_shm_client (c_id x) (λ cl, (set_req_run cl) <| req_time := req |>);;
  e ← get_env;
  shm ← _schedshm_client_has_shm (running_id (g_schedshm_mem e));
  (if negb shm then
     usfstl_sched_del_job client;;
     upd_job client (λ jb, jb <| start := req |>);;
     usfstl_sched_add_job scheduler client
   else when (usfstl_time_cmp req Z.ltb (free_until (g_schedshm_mem e)))
          (upd_kenv (λ e, e <| g_schedshm_mem := (g_schedshm_mem e) <| free_until := req |> |>)));;
  upd_client client (λ x, x <| n_req := u64 (n_req x + 1) |>).

Definition handle_start (client seq : Z) : M KW unit :=
  upd_client client (λ x, x <| start_seq := seq |>);;
  x ← get_client client;
  usfstl_assert (negb (bool_decide (c_state x ∈ [USCS_STARTED; USCS_START_REQUESTED])));;
  upd_client client (λ x, x <| c_state := USCS_START_REQUESTED |>);;
  e ← get_env;
  l ← deref (insert_named (kclients e) (c_shm_name x) client (new_clients e));
  upd_kenv (λ e, e <| new_clients := l |>);;
  upd_client client (λ x, x <| c_list := Some new_clients_head |>).

(** [true] when no ACK is to be sent. *)
Definition handle_wait (client : Z) : M KW bool :=
  e ← get_env;
  usfstl_assert (bool_decide (running_client e = Some client) || bool_decide (running_client e = None));;
  upd_client client (λ x, x <| n_wait := u64 (n_wait x + 1) |>);;
  when (bool_decide (running_client e = Some client)) (set_running_client None);;
  x ← get_client client;
  _schedshm_client_has_shm (c_id x).

(** The first message after the START of a client tells whether it uses the
    shared memory. *)
Definition shm_check (client : Z) : M KW unit :=
  x ← get_client client;
  when (bool_decide (c_state x = USCS_SHM_CHECK))
    (upd_client client (λ x, x <| c_state := USCS_STARTED |>);;
     shm ← _schedshm_client_has_shm (c_id x);
     when shm (upd_client client (λ x, x <| c_offset := 0 |>))).

Definition ack_and_return (client op seq val : Z) : M KW Z :=
  write_message client UM_TIMETRAVEL_ACK seq val;;
  mret op.

Definition _handle_message (client : Z) : M KW Z :=
  i ← read client;
  match i with
  | IConnect _ _ => fail Blocked
  | IShort => fail Assertion
  | IHangup => remove_client client;; mret bad_reply
  | IMsg msg =>
      let op := msg_op msg in
      let seq := msg_seq msg in
      when ((op =? UM_TIMETRAVEL_START) && negb (msg_time msg =? u64 (-1)))
        (upd_client client (λ x, x <| c_name := named_id (msg_time msg) |>
                                   <| c_shm_name := msg_time msg |>));;
      shm_check client;;
      if op =? UM_TIMETRAVEL_ACK then mret UM_TIMETRAVEL_ACK
      else if op =? UM_TIMETRAVEL_REQUEST then
        handle_request client (msg_time msg);;
        ack_and_return client op seq 0
      else if op =? UM_TIMETRAVEL_START then
        handle_start client seq;;
        mret UM_TIMETRAVEL_START
      else if op =? UM_TIMETRAVEL_WAIT then
        shm ← handle_wait client;
        if (shm : bool) then mret UM_TIMETRAVEL_WAIT else ack_and_return client op seq 0
      else if op =? UM_TIMETRAVEL_GET then
        x ← get_client client;
        usfstl_assert (bool_decide (c_state x = USCS_STARTED));;
        now ← usfstl_sched_current_time scheduler;
        ack_and_return client op seq (u64 (now - c_offset x))
      else if op =? UM_TIMETRAVEL_GET_TOD then
        x ← get_client client;
        usfstl_assert (bool_decide (c_state x = USCS_STARTED));;
        now ← usfstl_sched_current_time scheduler;
        e ← get_env;
        ack_and_return client op seq (u64 (time_at_start e + now))
      else if op =? UM_TIMETRAVEL_UPDATE then
        e ← get_env;
        usfstl_assert (bool_decide (running_client e = Some client));;
        x ← get_client client;
        usfstl_sched_set_time scheduler (u64 (c_offset x + msg_time msg));;
        upd_client client (λ x, x <| n_update := u64 (n_update x + 1) |>);;
        ack_and_return client op seq 0
      else if op =? UM_TIMETRAVEL_BROADCAST then
        broadcast client (msg_time msg);;
        ack_and_return client op seq 0
      else if (op =? UM_TIMETRAVEL_RUN) || (op =? UM_TIMETRAVEL_FREE_UNTIL) then
        remove_client client;;
        mret bad_reply
      else ack_and_return client op seq 0
  end.

Definition handle_message (client : Z) : M KW unit :=
  op ← _handle_message client;
  usfstl_assert (negb (op =? UM_TIMETRAVEL_ACK)).

Definition handle_message_wait (client : Z) : M KW unit :=
  op ← _handle_message client;
  upd_client client (λ x, x <| last_message := op |>).

(** The new client is at [addr]; [ucred] is the peer's process, if known. *)
Definition handle_new_connection (addr : Z) (ucred : option Z) : M KW unit :=
  upd_kenv (λ e, e <| conn_ctr := conn_ctr e + 1 |>);;
  e ← get_env;
  put_client addr (SClient false handle_message_fn 0 None USCS_CONNECTED false 0 0 0 0 0 0 0 0 0
                     (unnamed (conn_ctr e)) 0 0 0);;
  put_job addr (job_zero <| callback := Some run_client_fn |> <| group := 1 |>);;
  conn_register addr;;
  upd_client addr (λ x, x <| waiting_for := u64 (-1) |>);;
  match ucred with
  | Some pid => upd_client addr (λ x, x <| c_pid := pid |>)
  | None => mret tt
  end.

(** [usfstl_loop_wait_and_handle]; entry 0 is the listening socket. *)
Definition usfstl_loop_wait_and_handle : M KW unit :=
  c ← loop_select;
  if c =? 0 then
    i ← read 0;
    match i with IConnect addr ucred => handle_new_connection addr ucred | _ => fail Assertion end
  else
    x ← get_client c;
    match conn_handler_ x with
    | handle_message_fn => handle_message c
    | handle_message_wait_fn => handle_message_wait c
    end.

(** ** Starting and running clients *)

(** [__builtin_ffsll]: one plus the index of the lowest set bit, zero if there
    is none. *)
Fixpoint ffs_from (n : nat) (i z : Z) : Z :=
  match n with
  | O => 0
  | S n => if Z.testbit z i then i + 1 else ffs_from n (i + 1) z
  end.
Definition __builtin_ffsll (z : Z) : Z := ffs_from 64 0 z.

Definition process_starting_client (client : Z) : M KW unit :=
  now ← usfstl_sched_current_time scheduler;
  e ← get_env;
  let id := __builtin_ffsll (Z.lnot (clients e)) in
  upd_client client (λ x, x <| c_offset := now |> <| c_state := USCS_SHM_CHECK |> <| c_id := id |>);;
  usfstl_assert (negb (id =? 0));;
  x ← get_client client;
  set_shm_client id (λ cl, cl <| shm_client_name := c_shm_name x |>);;
  upd_kenv (λ e, e <| clients := Z.lor (clients e) (CTRL_CLIENT_BIT id) |>);;
  list_remove client;;
  list_append client_list_head client;;
  set_running_client (Some client);;
  usfstl_assert (Z.ldiff id UM_TIMETRAVEL_START_ACK_ID =? 0);;
  e ← get_env;
  (if disable_shm e then write_message client UM_TIMETRAVEL_ACK (start_seq x) 0
   else write_message_fds client UM_TIMETRAVEL_ACK (start_seq x)
          (Z.land id UM_TIMETRAVEL_START_ACK_ID) UM_TIMETRAVEL_SHARED_MAX_FDS);;
  wait_for client UM_TIMETRAVEL_WAIT.

Fixpoint process_starting_clients (fuel : nat) : M KW unit :=
  e ← get_env;
  match new_clients e with
  | [] => mret tt
  | client :: _ =>
      match fuel with
      | O => fail OutOfFuel
      | S fuel => process_starting_client client;; process_starting_clients fuel
      end
  end.

Definition run_client (client : Z) : M KW unit :=
  update_sync (Some client);;
  x ← get_client client;
  shm ← _schedshm_client_has_shm (c_id x);
  when (negb shm) (set_shm_client (c_id x) clear_req_run);;
  now ← usfstl_sched_current_time scheduler;
  x ← get_client client;
  ok ← send_message client UM_TIMETRAVEL_RUN (u64 (now - c_offset x));
  when ok (wait_for client UM_TIMETRAVEL_WAIT).

Definition next_time_changed (s : Z) : M KW unit := update_sync None.

(** Jobs are run by the main loop only, which adds the network's ([net_env]). *)
Definition control_env : SchedEnv kenv control_fn := {|
  disable_skip_external_request := false;
  call_request _ _ _ := fail NullDeref;
  call_wait _ _ := fail NullDeref;
  call_get_time f s :=
    match f with _schedshm_get_time_fn => _schedshm_get_time s | _ => fail NullDeref end;
  call_set_time f s t :=
    match f with _schedshm_set_time_fn => _schedshm_set_time s t | _ => fail NullDeref end;
  call_time_advanced _ _ _ := fail NullDeref;
  call_next_time_changed f s :=
    match f with next_time_changed_fn => next_time_changed s | _ => fail NullDeref end;
  call_callback f j :=
    match f with
    | run_client_fn => run_client j
    | free_client_fn => free_client j
    | _ => fail NullDeref
    end;
|}.
End control.

(** Calls nested at most [n] deep. *)
Fixpoint control_level (n : nat) : SchedEnv kenv control_fn * M KW unit :=
  match n with
  | O => (env_bottom, fail OutOfFuel)
  | S n => let '(e, l) := control_level n in (control_env e l, usfstl_loop_wait_and_handle e l)
  end.

Definition control_env_at (n : nat) : SchedEnv kenv control_fn := (control_level n).1.
Definition control_loop_at (n : nat) : M KW unit := (control_level n).2.

(** ** The main program, with a time socket *)

(** [_schedshm_create_mem_file]. *)
Definition _schedshm_create_mem_file : M KW unit :=
  sc ← get_sched scheduler;
  usfstl_assert (match external_get_time sc with None => true | _ => false end);;
  usfstl_assert (match external_set_time sc with None => true | _ => false end);;
  upd_kenv (λ e, e <| g_schedshm_mem :=
    Schedshm UM_TIMETRAVEL_SCHEDSHM_VERSION (4096 + 128 * CTRL_SCHEDSHM_MAX_CLIENTS)
      (current_time sc) (current_time sc) 0 CTRL_SCHEDSHM_MAX_CLIENTS
      (replicate (Z.to_nat CTRL_SCHEDSHM_MAX_CLIENTS) shm_client_zero) |>);;
  put_sched scheduler (sc <| external_get_time := Some _schedshm_get_time_fn |>
                          <| external_set_time := Some _schedshm_set_time_fn |>).

Section main.
Context `{NN : NetNotify kenv control_fn} (depth : nat).
Abbreviation env1 := (control_env_at depth).
Abbreviation loop1 := (control_loop_at depth).

(** [usfstl_for_each_list_item(tmp, &client_list, list)
      _schedshm_client_req_time(tmp);] *)
Fixpoint req_time_loop (fuel : nat) (item : option Z) : M KW unit :=
  match item with
  | None => mret tt
  | Some c =>
      match fuel with
      | O => fail OutOfFuel
      | S fuel =>
          _schedshm_client_req_time env1 c;;
          n ← list_next client_list_head c;
          req_time_loop fuel n
      end
  end.

Definition req_times : M KW unit :=
  e ← get_env; req_time_loop (S (length (client_list e))) (head (client_list e)).

(** [while (usfstl_list_length(&new_clients) < expected_clients)
      usfstl_loop_wait_and_handle();] *)
Fixpoint wait_clients (fuel : nat) : M KW unit :=
  e ← get_env;
  if Z.of_nat (length (new_clients e)) <? expected_clients e then
    match fuel with O => fail OutOfFuel | S fuel => loop1;; wait_clients fuel end
  else mret tt.

(** The scheduling loop, until no client or no job is left. *)
Fixpoint main_loop (fuel : nat) : M KW unit :=
  e ← get_env;
  job ← usfstl_sched_next_pending scheduler None;
  if (clients e =? 0) || match job with None => true | Some _ => false end then mret tt
  else
    match fuel with
    | O => fail OutOfFuel
    | S fuel =>
        usfstl_sched_next (SE := net_env fuel env1) 1 scheduler;;
        process_starting_clients env1 loop1 fuel;;
        req_times;;
        main_loop fuel
    end.

(** [main] after the options, the time of day and the sockets are set up. *)
Definition control_main (fuel : nat) : M KW unit :=
  upd_sched scheduler (λ sc, sc <| Sched.next_time_changed := Some next_time_changed_fn |>);;
  _schedshm_create_mem_file;;
  usfstl_sched_start (SE := env1) scheduler;;
  wait_clients fuel;;
  process_starting_clients env1 loop1 fuel;;
  req_times;;
  upd_kenv (λ e, e <| started_scheduling := true |>);;
  main_loop fuel.
End main.
