(* ===== verification/ControlProps.v ===== *)
(** * Theorems on the simulation controller (control/main.c) *)
From S2P Require Import Prelude Sched SchedQueue SchedProps SchedTime Timetravel Loop Control.

Lemma get_env_run (w : KW) : get_env w = Ok (env w, w).
Proof. done. Qed.

Lemma get_client_run (w : KW) c x : kclients (env w) !! c = Some x → get_client c w = Ok (x, w).
Proof. intros H. unfold get_client, get, mbind, M_bind. by rewrite H. Qed.

Lemma put_client_run (w : KW) c x :
  put_client c x w = Ok (tt, w <| env := (env w) <| kclients := <[c:=x]> (kclients (env w)) |> |>).
Proof. done. Qed.

Lemma upd_client_run (w : KW) c x f : kclients (env w) !! c = Some x →
  upd_client c f w = Ok (tt, w <| env := (env w) <| kclients := <[c:=f x]> (kclients (env w)) |> |>).
Proof. intros H. unfold upd_client. by erewrite bind_ok by (by apply get_client_run). Qed.

Lemma upd_kenv_run (w : KW) f : upd_kenv f w = Ok (tt, w <| env := f (env w) |>).
Proof. done. Qed.

Lemma get_shm_client_run (w : KW) id cl :
  0 ≤ id → shm_clients (g_schedshm_mem (env w)) !! Z.to_nat id = Some cl →
  get_shm_client id w = Ok (cl, w).
Proof.
  intros Hid Hl. unfold get_shm_client. erewrite bind_ok by apply get_env_run. unfold array_get.
  replace (id <? 0) with false by lia. by rewrite Hl.
Qed.

Lemma fmap_run {St A B} (f : A → B) (m : M St A) s a s1 : m s = Ok (a, s1) → (f <$> m) s = Ok (f a, s1).
Proof. intros H. unfold fmap, M_fmap. by rewrite H. Qed.

Lemma has_shm_run (w : KW) id cl :
  0 ≤ id → shm_clients (g_schedshm_mem (env w)) !! Z.to_nat id = Some cl →
  _schedshm_client_has_shm id w = Ok (has_time_share cl, w).
Proof. intros. unfold _schedshm_client_has_shm. by eapply fmap_run, get_shm_client_run. Qed.

(** Steps through a bind. *)
Ltac kstep :=
  lazymatch goal with
  | |- (mbind _ ?m) _ = _ =>
      lazymatch m with
      | get_env => erewrite bind_ok by apply get_env_run
      | get_client _ => erewrite bind_ok by (apply get_client_run; cbn; by simplify_map_eq)
      | upd_client _ _ => erewrite bind_ok by (eapply upd_client_run; cbn; by simplify_map_eq)
      | upd_kenv _ => erewrite bind_ok by apply upd_kenv_run
      | put_client _ _ => erewrite bind_ok by apply put_client_run
      | usfstl_assert true => erewrite bind_ok by apply assert_true
      | get_job _ => erewrite bind_ok by (apply get_job_run; cbn; by simplify_map_eq)
      | upd_job _ _ => erewrite bind_ok by (eapply upd_job_run; cbn; by simplify_map_eq)
      | get_sched _ => erewrite bind_ok by (apply get_sched_run; cbn; by simplify_map_eq)
      | _ => erewrite bind_ok by reflexivity
      end
  end; cbv beta iota.

(** ** The order in which clients start *)

(** The names of the clients on a list do not decrease. *)
Definition name_at (cs : gmap Z usfstl_schedule_client) (c : Z) : Z :=
  match cs !! c with Some x => c_shm_name x | None => 0 end.

Definition names_sorted (cs : gmap Z usfstl_schedule_client) (l : list Z) : Prop :=
  StronglySorted (λ a b, name_at cs a ≤ name_at cs b) l.

Lemma insert_named_spec cs name c l :
  (∀ y, y ∈ l → is_Some (cs !! y)) → names_sorted cs l →
  ∃ l1 l2, l = l1 ++ l2 ∧ insert_named cs name c l = Some (l1 ++ c :: l2) ∧
    (∀ y, y ∈ l1 → name_at cs y ≤ name) ∧ (∀ y, y ∈ l2 → name < name_at cs y).
Proof.
  intros Hin Hs. induction Hs as [|y l Hs IH Hy]; cbn.
  { exists [], []. split_and!; set_solver. }
  destruct (Hin y) as [x Hx]; [set_solver|]. rewrite Hx. cbn.
  assert (name_at cs y = c_shm_name x) as Hn by (unfold name_at; by rewrite Hx).
  destruct (c_shm_name x >? name) eqn:Hgt.
  - exists [], (y :: l). split_and!; [done|done|set_solver|]. intros z [->|Hz]%elem_of_cons; [lia|].
    rewrite Forall_forall in Hy. specialize (Hy z Hz). cbn in Hy. lia.
  - destruct IH as (l1 & l2 & -> & -> & H1 & H2); [set_solver|].
    exists (y :: l1), l2. split_and!; [done|done| |done]. intros z [->|Hz]%elem_of_cons; [lia|auto].
Qed.

Lemma sorted_insert {A} (R : A → A → Prop) l1 l2 a :
  StronglySorted R (l1 ++ l2) → (∀ y, y ∈ l1 → R y a) → (∀ y, y ∈ l2 → R a y) →
  StronglySorted R (l1 ++ a :: l2).
Proof.
  intros Hs H1 H2. induction l1 as [|x l1 IH]; cbn in *.
  - constructor; [done|]. apply Forall_forall. auto.
  - apply StronglySorted_inv in Hs as [Hs Hx]. constructor.
    + apply IH; [done|]. intros y Hy. apply H1. by right.
    + rewrite Forall_forall in Hx |- *. intros y Hy.
      apply elem_of_app in Hy as [Hy|[->|Hy]%elem_of_cons]; [apply Hx; set_solver|apply H1; by left|].
      apply Hx. set_solver.
Qed.

Lemma name_at_insert cs client x x' y :
  cs !! client = Some x → c_shm_name x' = c_shm_name x → name_at (<[client:=x']> cs) y = name_at cs y.
Proof.
  intros Hx Hn. unfold name_at. destruct (decide (y = client)) as [->|Hne].
  - by rewrite lookup_insert_eq, Hx.
  - by rewrite lookup_insert_ne.
Qed.

Lemma names_sorted_same cs cs' l : (∀ y, name_at cs' y = name_at cs y) →
  names_sorted cs l → names_sorted cs' l.
Proof.
  intros Hn Hs. induction Hs as [|y l Hs IH Hy]; constructor; [done|].
  eapply Forall_impl; [done|]. intros z. by rewrite !Hn.
Qed.

(** A START puts the client on the list of starting clients in the order of the
    clients' IDs, behind those of the same ID, whatever order the STARTs come
    in. *)
Theorem start_keeps_order w client seq x :
  kclients (env w) !! client = Some x → c_state x = USCS_CONNECTED →
  client ∉ new_clients (env w) → (∀ y, y ∈ new_clients (env w) → is_Some (kclients (env w) !! y)) →
  names_sorted (kclients (env w)) (new_clients (env w)) →
  ∃ w' l1 l2, handle_start client seq w = Ok (tt, w') ∧
    new_clients (env w) = l1 ++ l2 ∧ new_clients (env w') = l1 ++ client :: l2 ∧
    (∀ y, y ∈ l1 → name_at (kclients (env w)) y ≤ c_shm_name x) ∧
    (∀ y, y ∈ l2 → c_shm_name x < name_at (kclients (env w)) y) ∧
    names_sorted (kclients (env w')) (new_clients (env w')) ∧
    (∃ x', kclients (env w') = <[client:=x']> (kclients (env w)) ∧
       c_state x' = USCS_START_REQUESTED ∧ start_seq x' = seq ∧ c_list x' = Some new_clients_head).
Proof.
  intros Hx Hst Hni Hin Hs. set (x1 := x <| start_seq := seq |> <| c_state := USCS_START_REQUESTED |>).
  destruct (insert_named_spec (<[client:=x1]> (kclients (env w))) (c_shm_name x) client (new_clients (env w)))
    as (l1 & l2 & Hl & Hins & H1 & H2).
  { intros y Hy. rewrite lookup_insert_is_Some. right. split; [by intros <-|auto]. }
  { eapply names_sorted_same; [|done]. intros y. by eapply name_at_insert. }
  eexists _, l1, l2. split.
  { unfold handle_start. kstep. kstep. cbn [c_state set_field]. rewrite Hst. kstep. kstep. kstep.
    cbn [env kclients set_field c_shm_name new_clients]. rewrite insert_insert_eq. fold x1. rewrite Hins.
    kstep. kstep. by eapply upd_client_run; cbn; simplify_map_eq. }
  cbn [env new_clients kclients set_field]. rewrite !insert_insert_eq.
  split_and!; [done|done| | |..].
  - intros y Hy. erewrite <- name_at_insert; [by apply H1|done|done].
  - intros y Hy. erewrite <- name_at_insert; [by apply H2|done|done].
  - eapply names_sorted_same; [intros y; by eapply name_at_insert|]. apply sorted_insert.
    + by rewrite <- Hl.
    + intros y Hy. unfold name_at at 2. rewrite Hx. erewrite <- name_at_insert; [by apply H1|done|done].
    + intros y Hy. unfold name_at at 1. rewrite Hx.
      apply Z.lt_le_incl. erewrite <- name_at_insert; [by apply H2|done|done].
  - eexists. split; [done|]. done.
Qed.

(** ** A controller between two calls *)

(** The scheduler is set up as [main] does. *)
Record control_ready (w : KW) (sc : usfstl_scheduler control_fn) : Prop := {
  cr_sched : scheds w !! scheduler = Some sc;
  cr_request : external_request sc = None;
  cr_get : external_get_time sc = Some _schedshm_get_time_fn;
  cr_set : external_set_time sc = Some _schedshm_set_time_fn;
  cr_changed : Sched.next_time_changed sc = Some next_time_changed_fn;
}.

Section control_run.
Context (env0 : SchedEnv kenv control_fn) (loop0 : M KW unit).
Abbreviation env1 := (control_env env0 loop0).
Implicit Types w : KW.

Lemma control_time_run w sc : control_ready w sc →
  usfstl_sched_current_time (SE := env1) scheduler w = Ok (shm_time (g_schedshm_mem (env w)), w).
Proof.
  intros []. unfold usfstl_sched_current_time. erewrite bind_ok by (by apply get_sched_run).
  by rewrite cr_get0.
Qed.

(** The world in which the controller's clock shows [t]. *)
Definition at_time (t : Z) w : KW :=
  w <| env := (env w) <| g_schedshm_mem := (g_schedshm_mem (env w)) <| shm_time := t |> |> |>.

Lemma control_set_clock_run w sc cl t :
  control_ready w sc → 0 ≤ running_id (g_schedshm_mem (env w)) →
  shm_clients (g_schedshm_mem (env w)) !! Z.to_nat (running_id (g_schedshm_mem (env w))) = Some cl →
  has_time_share cl = false → _usfstl_sched_set_time (SE := env1) scheduler t w = Ok (tt, at_time t w).
Proof.
  intros Hr Hid Hcl Hns. pose proof Hr as [].
  unfold _usfstl_sched_set_time. erewrite bind_ok by (by apply get_sched_run). rewrite cr_set0.
  erewrite (bind_ok _ _ w tt (at_time t w)).
  2:{ cbn [call_set_time control_env]. unfold _schedshm_set_time. kstep.
      erewrite bind_ok by (by eapply has_shm_run). rewrite Hns. by kstep. }
  erewrite bind_ok by (by apply get_sched_run). rewrite cr_get0.
  erewrite bind_ok.
  2:{ erewrite bind_ok.
      2:{ eapply (control_time_run (at_time t w)). by constructor. }
      cbn. unfold usfstl_time_cmp. rewrite Z.sub_diag. cbn. by kstep. }
  by rewrite Z.eqb_refl.
Qed.

Lemma control_set_time_run w sc cl t :
  control_ready w sc → 0 ≤ running_id (g_schedshm_mem (env w)) →
  shm_clients (g_schedshm_mem (env w)) !! Z.to_nat (running_id (g_schedshm_mem (env w))) = Some cl →
  has_time_share cl = false →
  (∀ j, head (joblist sc) = Some j →
     ∃ jb, jobs w !! j = Some jb ∧ usfstl_time_cmp t Z.leb (start jb) = true) →
  usfstl_sched_set_time (SE := env1) scheduler t w = Ok (tt, at_time t w).
Proof.
  intros Hr Hid Hcl Hns Hj. pose proof Hr as []. unfold usfstl_sched_set_time.
  erewrite bind_ok by (by eapply next_pending_run).
  erewrite (bind_ok _ _ _ tt w).
  2:{ destruct (head (joblist sc)) as [j|] eqn:E; [|done]. destruct (Hj j eq_refl) as (jb & Hjb & Hle).
      erewrite bind_ok by (by apply get_job_run). by rewrite Hle. }
  by eapply control_set_clock_run.
Qed.

(** A client that is connected and not being freed. *)
Record client_live w (client : Z) (x : usfstl_schedule_client) (jb : usfstl_job control_fn) : Prop := {
  cl_client : kclients (env w) !! client = Some x;
  cl_job : jobs w !! client = Some jb;
  cl_run : callback jb = Some run_client_fn;
  cl_ok : client ∉ broken (env w);
}.

Definition sent_to (client : Z) (m : um_timetravel_msg) w : KW :=
  w <| env := (env w) <| outbox := outbox (env w) ++ [(client, m, 0)] |> |>.

Lemma write_message_run e w client x jb op seq t :
  client_live w client x jb →
  write_message e client op seq t w = Ok (true, sent_to client (Msg op seq t) w).
Proof.
  intros []. unfold write_message, write_message_fds. erewrite bind_ok by (by apply get_job_run).
  rewrite cl_run0. rewrite bool_decide_false by done. kstep. kstep.
  rewrite bool_decide_false by done. by kstep.
Qed.

Lemma ack_run e w client x jb op seq v :
  client_live w client x jb →
  ack_and_return e client op seq v w = Ok (op, sent_to client (Msg UM_TIMETRAVEL_ACK seq v) w).
Proof.
  intros H. unfold ack_and_return. by erewrite bind_ok by (by eapply write_message_run).
Qed.

Lemma read_run w client m q : queues (env w) !! client = Some (IMsg m :: q) →
  read client w = Ok (IMsg m, w <| env := (env w) <| queues := <[client:=q]> (queues (env w)) |> |>).
Proof. intros H. unfold read. kstep. rewrite H. by kstep. Qed.

Lemma shm_check_started w client x : kclients (env w) !! client = Some x → c_state x = USCS_STARTED →
  shm_check client w = Ok (tt, w).
Proof. intros Hx Hs. unfold shm_check. kstep. by rewrite Hs. Qed.

(** The world after a message was taken off a connection. *)
Definition took (client : Z) (q : list incoming) w : KW :=
  w <| env := (env w) <| queues := <[client:=q]> (queues (env w)) |> |>.

Definition counted_update (client : Z) (x : usfstl_schedule_client) w : KW :=
  w <| env := (env w) <| kclients := <[client := x <| n_update := u64 (n_update x + 1) |>]>
                            (kclients (env w)) |> |>.

Lemma handle_update_run l1 w sc client x jb cl seq t q :
  control_ready w sc → client_live w client x jb → c_state x = USCS_STARTED →
  running_client (env w) = Some client → running_id (g_schedshm_mem (env w)) = c_id x → 0 ≤ c_id x →
  shm_clients (g_schedshm_mem (env w)) !! Z.to_nat (c_id x) = Some cl → has_time_share cl = false →
  queues (env w) !! client = Some (IMsg (Msg UM_TIMETRAVEL_UPDATE seq t) :: q) →
  (∀ j, head (joblist sc) = Some j →
     ∃ jb, jobs w !! j = Some jb ∧ usfstl_time_cmp (u64 (c_offset x + t)) Z.leb (start jb) = true) →
  handle_message env1 l1 client w =
  Ok (tt, sent_to client (Msg UM_TIMETRAVEL_ACK seq 0)
            (counted_update client x (at_time (u64 (c_offset x + t)) (took client q w)))).
Proof.
  intros Hr Hl Hst Hrun Hrid Hid Hcl Hns Hq Hj. pose proof Hl as [].
  unfold handle_message. erewrite bind_ok.
  2:{ unfold _handle_message. erewrite bind_ok by (by apply read_run). eval_ops.
      cbn [when]. kstep. erewrite bind_ok by (by eapply shm_check_started).
      eval_ops. kstep.
      cbn [env running_client set_field]. rewrite Hrun, bool_decide_true by done. kstep. kstep.
      erewrite bind_ok.
      2:{ apply (control_set_time_run _ sc cl); cbn; rewrite ?Hrid; try done. by destruct Hr. }
      kstep. eapply ack_run. constructor; cbn; [apply lookup_insert_eq|done..]. }
  done.
Qed.

Lemma handle_get_run l1 w sc client x jb seq t q :
  control_ready w sc → client_live w client x jb → c_state x = USCS_STARTED →
  queues (env w) !! client = Some (IMsg (Msg UM_TIMETRAVEL_GET seq t) :: q) →
  handle_message env1 l1 client w =
  Ok (tt, sent_to client (Msg UM_TIMETRAVEL_ACK seq
            (u64 (shm_time (g_schedshm_mem (env w)) - c_offset x))) (took client q w)).
Proof.
  intros Hr Hl Hst Hq. pose proof Hl as [].
  unfold handle_message. erewrite bind_ok.
  2:{ unfold _handle_message. erewrite bind_ok by (by apply read_run). eval_ops.
      cbn [when]. kstep. erewrite bind_ok by (by eapply shm_check_started).
      eval_ops. kstep. rewrite Hst. kstep.
      erewrite bind_ok.
      2:{ eapply (control_time_run _ sc). by destruct Hr. }
      eapply ack_run. by constructor. }
  done.
Qed.
End control_run.

(** A running client in message mode that moves the controller's clock with
    UPDATE and then asks for the time with GET is told the time it gave, in its
    own time base: the offset that the controller adds for the client is taken
    off again. *)
Theorem update_get_roundtrip n w sc client x jb cl q1 q2 t t' rest :
  control_ready w sc → client_live w client x jb → c_state x = USCS_STARTED →
  running_client (env w) = Some client → running_id (g_schedshm_mem (env w)) = c_id x → 0 ≤ c_id x →
  shm_clients (g_schedshm_mem (env w)) !! Z.to_nat (c_id x) = Some cl → has_time_share cl = false →
  queues (env w) !! client =
    Some (IMsg (Msg UM_TIMETRAVEL_UPDATE q1 t) :: IMsg (Msg UM_TIMETRAVEL_GET q2 t') :: rest) →
  0 ≤ t < 2^64 →
  (∀ j, head (joblist sc) = Some j →
     ∃ jb, jobs w !! j = Some jb ∧ usfstl_time_cmp (u64 (c_offset x + t)) Z.leb (start jb) = true) →
  let handle := handle_message (control_env_at (S n)) (control_loop_at (S n)) client in
  ∃ w', (handle;; handle) w = Ok (tt, w') ∧
    outbox (env w') = outbox (env w) ++ [(client, Msg UM_TIMETRAVEL_ACK q1 0, 0);
                                         (client, Msg UM_TIMETRAVEL_ACK q2 t, 0)] ∧
    shm_time (g_schedshm_mem (env w')) = u64 (c_offset x + t) ∧
    queues (env w') !! client = Some rest ∧ jobs w' = jobs w ∧ scheds w' = scheds w.
Proof.
  intros Hr Hl Hst Hrun Hrid Hid Hcl Hns Hq Ht Hj handle.
  subst handle. unfold control_env_at. cbn [control_level].
  destruct (control_level n) as [env0 loop0]. cbn [fst snd]. eexists. split.
  { erewrite bind_ok by (by eapply handle_update_run).
    eapply (handle_get_run _ _ _ _ sc client (x <| n_update := _ |>) jb).
    - by destruct Hr.
    - destruct Hl. constructor; cbn; [apply lookup_insert_eq|done..].
    - done.
    - cbn. apply lookup_insert_eq. }
  cbn. split_and!; [|done| |done..].
  - assert (u64 (u64 (c_offset x + t) - c_offset x) = t) as ->; [|by rewrite <- app_assoc].
    unfold u64. rewrite Zminus_mod_idemp_l. replace (c_offset x + t - c_offset x) with t by lia.
    by apply Z.mod_small.
  - by rewrite insert_insert_eq, lookup_insert_eq.
Qed.

(** ** Faults that clients can cause *)

Lemma ffs_from_spec n : ∀ i z, 0 ≤ i →
  let r := ffs_from n i z in
  (r = 0 ∧ ∀ k, i ≤ k < i + Z.of_nat n → Z.testbit z k = false) ∨
  (i + 1 ≤ r ≤ i + Z.of_nat n ∧ Z.testbit z (r - 1) = true ∧ ∀ k, i ≤ k < r - 1 → Z.testbit z k = false).
Proof.
  induction n as [|n IH]; intros i z Hi; cbn; [left; split; [done|lia]|].
  destruct (Z.testbit z i) eqn:Ez.
  { right. replace (i + 1 - 1) with i by lia. split_and!; [lia..|done|lia]. }
  assert (∀ k, i ≤ k → k < i + 1 → Z.testbit z k = false) as Hk.
  { intros k H1 H2. by replace k with i by lia. }
  destruct (IH (i + 1) z) as [[H0 H]|(H1 & H2 & H3)]; [lia|left|right].
  - split; [done|]. intros k Hr. destruct (Z.lt_ge_cases k (i + 1)); [apply Hk|apply H]; lia.
  - split_and!; [lia..|done|]. intros k Hr. destruct (Z.lt_ge_cases k (i + 1)); [apply Hk|apply H3]; lia.
Qed.

(** The ID of a new client is the lowest that is free, from 1 on. *)
Lemma ffsll_spec z : let r := __builtin_ffsll z in
  (r = 0 ∧ ∀ k, 0 ≤ k < 64 → Z.testbit z k = false) ∨
  (1 ≤ r ≤ 64 ∧ Z.testbit z (r - 1) = true ∧ ∀ k, 0 ≤ k < r - 1 → Z.testbit z k = false).
Proof. exact (ffs_from_spec 64 0 z ltac:(lia)). Qed.

(** The shared memory has room for [CTRL_SCHEDSHM_MAX_CLIENTS] clients, with
    entry 0 for the controller, but clients get the IDs from 1 to 64: the 64th
    client is written beyond the end of the memory. *)
Theorem client_64_out_of_bounds n w sc client x :
  control_ready w sc → kclients (env w) !! client = Some x → clients (env w) = 2^63 - 1 →
  Z.of_nat (length (shm_clients (g_schedshm_mem (env w)))) = CTRL_SCHEDSHM_MAX_CLIENTS →
  process_starting_client (control_env_at (S n)) (control_loop_at (S n)) client w = Err OutOfBounds.
Proof.
  intros Hr Hx Hc Hlen. unfold control_env_at. cbn [control_level].
  destruct (control_level n) as [env0 loop0]. cbn [fst]. unfold process_starting_client.
  erewrite bind_ok by (by eapply control_time_run). kstep. rewrite Hc.
  change (__builtin_ffsll (Z.lnot (2^63 - 1))) with 64. kstep. change (64 =? 0) with false. kstep. kstep.
  erewrite bind_err; [done|]. unfold set_shm_client. erewrite bind_err; [done|].
  unfold get_shm_client. kstep. unfold array_get. change (64 <? 0) with false.
  cbn [env g_schedshm_mem set_field]. cbv beta iota.
  rewrite (lookup_ge_None_2 (shm_clients _)); [done|]. unfold CTRL_SCHEDSHM_MAX_CLIENTS in Hlen. lia.
Qed.

(** A client that closes its connection before it has sent START ends the
    controller: it is on no list, and [remove_client] takes it off one. *)
Theorem hangup_before_start_crashes n w client x jb q :
  kclients (env w) !! client = Some x → jobs w !! client = Some jb → entry jb = None →
  conn_registered x = true → c_list x = None → c_state x = USCS_CONNECTED →
  queues (env w) !! client = Some (IHangup :: q) →
  handle_message (control_env_at (S n)) (control_loop_at (S n)) client w = Err NullDeref.
Proof.
  intros Hx Hj He Hreg Hlist Hst Hq. unfold handle_message. apply bind_err. unfold _handle_message.
  erewrite bind_ok by (unfold read; kstep; by rewrite Hq). cbv iota.
  apply bind_err. unfold remove_client.
  erewrite bind_ok.
  2:{ unfold usfstl_sched_del_job. erewrite bind_ok by (by eapply job_scheduled_run). by rewrite He. }
  erewrite bind_ok.
  2:{ unfold conn_unregister. kstep. rewrite Hreg. kstep. eapply upd_client_run. cbn. done. }
  kstep. cbn [c_state set_field]. rewrite Hst. rewrite bool_decide_false by set_solver. cbn [when]. kstep.
  apply bind_err. unfold list_remove. kstep. cbn [c_list set_field]. by rewrite Hlist.
Qed.
