(* ===== verification/ControlRun.v ===== *)
(** * A client's turn (control/main.c: run_client)

    What the controller does when the job of a client without shared memory
    comes up: the messages it exchanges with the client until the client waits
    again, and the state it leaves. *)
From S2P Require Import Prelude Sched SchedQueue SchedProps SchedTime Timetravel Loop Net Control ControlProps.

(** ** The main loop's list when one entry is taken off and put back *)

Lemma loop_register_ext p p' e l : (∀ x, x = e ∨ x ∈ l → p x = p' x) →
  usfstl_loop_register p e l = usfstl_loop_register p' e l.
Proof.
  intros H. induction l as [|y l IH]; cbn; [done|].
  rewrite (H e), (H y) by set_solver. destruct (_ >=? _); [done|]. f_equal. apply IH. set_solver.
Qed.

Lemma loop_unregister_idem e l :
  usfstl_loop_unregister e (usfstl_loop_unregister e l) = usfstl_loop_unregister e l.
Proof.
  unfold usfstl_loop_unregister. induction l as [|y l IH]; cbn; [done|].
  destruct (negb (y =? e)) eqn:E; cbn; rewrite ?E, ?IH; done.
Qed.

Lemma loop_unregister_notin e l : e ∉ l → usfstl_loop_unregister e l = l.
Proof.
  unfold usfstl_loop_unregister. induction l as [|y l IH]; cbn; intros H; [done|].
  replace (y =? e) with false by (symmetry; apply Z.eqb_neq; set_solver). cbn. f_equal. set_solver.
Qed.

Lemma loop_unregister_out e l : e ∉ usfstl_loop_unregister e l.
Proof.
  unfold usfstl_loop_unregister. intros H%list_elem_of_In%filter_In. destruct H as [_ H].
  by rewrite Z.eqb_refl in H.
Qed.

Lemma loop_unregister_register p e l : e ∉ l →
  usfstl_loop_unregister e (usfstl_loop_register p e l) = l.
Proof.
  intros He. induction l as [|y l IH]; cbn; [by rewrite Z.eqb_refl|].
  destruct (_ >=? _); cbn.
  - rewrite Z.eqb_refl. cbn. apply (loop_unregister_notin e (y :: l)) in He. exact He.
  - replace (y =? e) with false by (symmetry; apply Z.eqb_neq; set_solver). cbn. f_equal. apply IH. set_solver.
Qed.

Lemma loop_register_front p e l : (∀ y, y ∈ l → p y ≤ p e) → usfstl_loop_register p e l = e :: l.
Proof.
  intros H. destruct l as [|y l]; cbn; [done|]. specialize (H y ltac:(by left)).
  by replace (p e >=? p y) with true by lia.
Qed.

(** ** States during the exchange with the client [c], over a base state [w] *)
Section exchange.
Context (w : KW) (c : Z) (x0 : usfstl_schedule_client) (jb : usfstl_job control_fn).
Hypothesis Hx0 : kclients (env w) !! c = Some x0.
Hypothesis Hjb : jobs w !! c = Some jb.
Hypothesis Hcb : callback jb = Some run_client_fn.
Hypothesis Hbroken : c ∉ broken (env w).
Hypothesis Hreg : conn_registered x0 = true.
Hypothesis Hh : conn_handler_ x0 = handle_message_fn.
Hypothesis Hprio : ∀ y, entry_priority (env w) y ≤ max_priority.
Hypothesis Hc0 : c ≠ 0.
Hypothesis Hstarted : c_state x0 = USCS_STARTED.
Implicit Types x : usfstl_schedule_client.

Definition kst x (ents : list Z) (bs : list batch) (q : list incoming)
    (out : list (Z * um_timetravel_msg * Z)) (seq nst : Z) (rc : option Z)
    (mem : um_timetravel_schedshm) (usr : bool) : KW :=
  World (jobs w) (scheds w)
    (KEnv (<[c:=x]> (kclients (env w))) (clients (env w)) (expected_clients (env w)) rc
       (time_at_start (env w)) nst mem (started_scheduling (env w)) (client_list (env w))
       (new_clients (env w)) (disable_shm (env w)) seq usr (conn_ctr (env w)) ents
       (<[c:=q]> (queues (env w))) bs (broken (env w)) out (network (env w))).

(** The other entries, and the entries with [c] put back. *)
Definition others (ents : list Z) : list Z := usfstl_loop_unregister c ents.
Definition put_back (ents : list Z) : list Z :=
  usfstl_loop_register (entry_priority (env w)) c (others ents).

Lemma others_put_back ents : others (put_back ents) = others ents.
Proof. apply loop_unregister_register, loop_unregister_out. Qed.

Lemma kst_get_client x ents bs q out seq nst rc mem usr :
  get_client c (kst x ents bs q out seq nst rc mem usr) = Ok (x, kst x ents bs q out seq nst rc mem usr).
Proof. apply get_client_run. cbn. apply lookup_insert_eq. Qed.

Lemma kst_upd_client x ents bs q out seq nst rc mem usr f :
  upd_client c f (kst x ents bs q out seq nst rc mem usr) = Ok (tt, kst (f x) ents bs q out seq nst rc mem usr).
Proof.
  unfold upd_client. erewrite bind_ok by apply kst_get_client.
  unfold put_client, upd_kenv, modify, kst. cbn. by rewrite insert_insert_eq.
Qed.

Lemma kst_priority x ents bs q out seq nst rc mem usr y :
  entry_priority (env (kst x ents bs q out seq nst rc mem usr)) y =
  if decide (y = c) then conn_priority x else entry_priority (env w) y.
Proof.
  unfold entry_priority. cbn. destruct (decide (y = c)) as [->|Hne].
  - by rewrite lookup_insert_eq.
  - by rewrite lookup_insert_ne.
Qed.

Lemma kst_entries x ents bs q out seq nst rc mem usr f :
  let st := kst x ents bs q out seq nst rc mem usr in
  upd_kenv (λ e, e <| loop_entries := f e |>) st = Ok (tt, kst x (f (env st)) bs q out seq nst rc mem usr).
Proof. done. Qed.

Lemma kst_unregister x ents bs q out seq nst rc mem usr : conn_registered x = true →
  conn_unregister c (kst x ents bs q out seq nst rc mem usr) =
  Ok (tt, kst (x <| conn_registered := false |>) (others ents) bs q out seq nst rc mem usr).
Proof.
  intros Hr. unfold conn_unregister. erewrite bind_ok by apply kst_get_client. rewrite Hr.
  erewrite bind_ok by exact (kst_entries x ents bs q out seq nst rc mem usr _). apply kst_upd_client.
Qed.

Lemma kst_register x ents bs q out seq nst rc mem usr :
  conn_register c (kst x ents bs q out seq nst rc mem usr) =
  Ok (tt, kst (x <| conn_registered := true |>)
            (usfstl_loop_register (entry_priority (env (kst x ents bs q out seq nst rc mem usr))) c ents)
            bs q out seq nst rc mem usr).
Proof.
  unfold conn_register. erewrite bind_ok by exact (kst_entries x ents bs q out seq nst rc mem usr _).
  apply kst_upd_client.
Qed.

Lemma kst_register_max x ents bs q out seq nst rc mem usr : conn_priority x = max_priority →
  conn_register c (kst x ents bs q out seq nst rc mem usr) =
  Ok (tt, kst (x <| conn_registered := true |>) (c :: ents) bs q out seq nst rc mem usr).
Proof.
  intros Hp. rewrite kst_register. rewrite loop_register_front; [done|].
  intros y _. rewrite !kst_priority. rewrite (decide_True _ _ (eq_refl c)), Hp.
  case_decide; [lia|]. apply Hprio.
Qed.

Lemma kst_register_back x ents bs q out seq nst rc mem usr : conn_priority x = conn_priority x0 →
  conn_register c (kst x (others ents) bs q out seq nst rc mem usr) =
  Ok (tt, kst (x <| conn_registered := true |>) (put_back ents) bs q out seq nst rc mem usr).
Proof.
  intros Hp. rewrite kst_register. do 3 f_equal. apply loop_register_ext. intros y _.
  rewrite kst_priority. case_decide as Hd; [|done]. subst y. unfold entry_priority. by rewrite Hx0.
Qed.

(** A message of [c] that arrives before the next [select] returns. *)
Definition arrival (m : um_timetravel_msg) : batch := Batch None [(c, IMsg m)] [].

Lemma select_ready y c' ents bs : loop_entries y = c' :: ents → isset y c' = true →
  select_loop bs y = Ok (c', y).
Proof. intros He Hi. destruct bs; cbn; unfold loop_choose; rewrite He; cbn; by rewrite Hi. Qed.

Lemma kst_take_batch x ents bs bs' m out seq nst rc mem usr :
  take_batch (arrival m) bs (env (kst x ents bs' [] out seq nst rc mem usr)) =
  env (kst x ents bs [IMsg m] out seq nst rc mem usr).
Proof.
  unfold take_batch, arrive. cbn. rewrite lookup_insert_eq, insert_insert_eq, app_nil_r. done.
Qed.

Lemma kst_select x ents bs m out seq nst rc mem usr :
  loop_select (kst x (c :: ents) (arrival m :: bs) [] out seq nst rc mem usr) =
  Ok (c, kst x (c :: ents) bs [IMsg m] out seq nst rc mem usr).
Proof.
  unfold loop_select.
  change (batches (env (kst x (c :: ents) (arrival m :: bs) [] out seq nst rc mem usr)))
    with (arrival m :: bs).
  cbv zeta iota. rewrite kst_take_batch.
  rewrite (select_ready _ c ents); [done|done|]. unfold isset. cbn [queues env kst].
  by rewrite lookup_insert_eq.
Qed.

Lemma kst_read x ents bs m out seq nst rc mem usr :
  read c (kst x ents bs [IMsg m] out seq nst rc mem usr) =
  Ok (IMsg m, kst x ents bs [] out seq nst rc mem usr).
Proof.
  unfold read. kstep. cbn [queues env kst]. rewrite lookup_insert_eq. kstep.
  unfold kst. cbn. by rewrite insert_insert_eq.
Qed.

(** The client record while it is waited for, and when it is idle. *)
Definition waited x (op : Z) : usfstl_schedule_client :=
  x <| last_message := u64 (-2) |> <| waiting_for := op |> <| conn_priority := max_priority |>
    <| conn_handler_ := handle_message_wait_fn |>.

Definition idle x : usfstl_schedule_client :=
  x <| last_message := u64 (-2) |> <| waiting_for := u64 (-1) |>.

(** The client is in the state it has between calls. *)
Definition settled x : Prop :=
  conn_registered x = true ∧ conn_handler_ x = handle_message_fn ∧
  conn_priority x = conn_priority x0 ∧ c_state x = USCS_STARTED.

Context (e : SchedEnv kenv control_fn) (l : M KW unit).

Lemma kst_nesting d x ents bs q out seq nst rc mem usr :
  upd_kenv (λ e, e <| nesting := nesting e + d |>) (kst x ents bs q out seq nst rc mem usr) =
  Ok (tt, kst x ents bs q out seq (nst + d) rc mem usr).
Proof. done. Qed.

(** The next message of [c] reaches its handler. *)
Lemma loop_arrival x ents bs m out seq nst rc mem usr : conn_handler_ x = handle_message_wait_fn →
  usfstl_loop_wait_and_handle e l (kst x (c :: ents) (arrival m :: bs) [] out seq nst rc mem usr) =
  handle_message_wait e l c (kst x (c :: ents) bs [IMsg m] out seq nst rc mem usr).
Proof.
  intros Hw. unfold usfstl_loop_wait_and_handle. erewrite bind_ok by apply kst_select. cbv beta.
  replace (c =? 0) with false by lia. erewrite bind_ok by apply kst_get_client. by rewrite Hw.
Qed.

(** Waiting for a message that is the next thing to come from [c], when handling
    it changes the client by [f] and the state as given. *)
Lemma wait_for_run x f op m ents bs out out' seq nst rc rc' mem mem' usr :
  settled x → settled (f x) → f (waited x op) = waited (f x) op →
  _handle_message e l c (kst (waited x op) (c :: others ents) bs [IMsg m] out seq (nst + 1) rc mem usr) =
    Ok (op, kst (f (waited x op)) (c :: others ents) bs [] out' seq (nst + 1) rc' mem' usr) →
  wait_for (usfstl_loop_wait_and_handle e l) c op
    (kst x ents (arrival m :: bs) [] out seq nst rc mem usr) =
  Ok (tt, kst (idle (f x)) (put_back ents) bs [] out' seq nst rc' mem' usr).
Proof.
  intros (Hr & Hhd & Hp & Hst) (Hr' & Hhd' & Hp' & Hst') Hf Hm. unfold wait_for.
  erewrite bind_ok by apply (kst_nesting 1). kstep.
  erewrite bind_ok.
  2:{ cbn [wait_loop]. erewrite bind_ok by apply kst_upd_client. erewrite bind_ok by apply kst_get_client.
      cbn [conn_registered set_field conn_handler_ conn_priority]. rewrite Hr, Hhd. cbn [when].
      erewrite bind_ok by (apply kst_unregister; done). erewrite bind_ok by apply kst_upd_client.
      erewrite bind_ok by (apply kst_register_max; done).
      match goal with |- context [kst ?y (c :: others ents)] => replace y with (waited x op) end.
      2:{ unfold waited. destruct x; cbn in *. by subst. }
      erewrite bind_ok.
      2:{ rewrite loop_arrival by done. unfold handle_message_wait. erewrite bind_ok by exact Hm.
          rewrite Hf. apply kst_upd_client. }
      erewrite bind_ok by apply kst_get_client.
      cbn [conn_registered set_field waited]. rewrite Hr'. cbn [andb]. rewrite bool_decide_true by done.
      erewrite bind_ok by (apply kst_unregister; done). 
      erewrite bind_ok by apply kst_upd_client.
      change (others (c :: others ents)) with (usfstl_loop_unregister c (c :: others ents)).
      replace (usfstl_loop_unregister c (c :: others ents)) with (others ents).
      2:{ cbn. rewrite Z.eqb_refl. cbn. symmetry. apply loop_unregister_idem. }
      erewrite bind_ok by (apply kst_register_back; done).
      erewrite bind_ok by apply kst_get_client. cbn [last_message set_field]. rewrite Z.eqb_refl. done. }
  erewrite bind_ok by apply kst_upd_client. rewrite (kst_nesting (-1)).
  replace (nst + 1 + -1) with nst by lia. do 3 f_equal.
  unfold idle, waited. rewrite Hp. destruct (f x); cbn in *. by subst.
Qed.

(** Handling an ACK, and a WAIT of the running client. *)
Lemma handle_ack x ents bs out seq nst rc mem usr n t op : settled x →
  _handle_message e l c
    (kst (waited x op) ents bs [IMsg (Msg UM_TIMETRAVEL_ACK n t)] out seq nst rc mem usr) =
  Ok (UM_TIMETRAVEL_ACK, kst (waited x op) ents bs [] out seq nst rc mem usr).
Proof.
  intros (_ & _ & _ & Hst). unfold _handle_message. erewrite bind_ok by apply kst_read. cbv iota.
  eval_ops. cbn [when]. erewrite bind_ok by done.
  erewrite bind_ok by (eapply shm_check_started; [apply lookup_insert_eq|done]). done.
Qed.

Lemma kst_live x ents bs q out seq nst rc mem usr :
  client_live (kst x ents bs q out seq nst rc mem usr) c x jb.
Proof. constructor; try done. cbn. apply lookup_insert_eq. Qed.

Lemma kst_sent x ents bs q out seq nst rc mem usr m :
  sent_to c m (kst x ents bs q out seq nst rc mem usr) = kst x ents bs q (out ++ [(c, m, 0)]) seq nst rc mem usr.
Proof. done. Qed.

Definition one_wait x : usfstl_schedule_client := x <| n_wait := u64 (n_wait x + 1) |>.

Lemma handle_wait_run x ents bs out seq nst mem usr n t op cl : settled x →
  0 ≤ c_id x → shm_clients mem !! Z.to_nat (c_id x) = Some cl → has_time_share cl = false →
  _handle_message e l c
    (kst (waited x op) ents bs [IMsg (Msg UM_TIMETRAVEL_WAIT n t)] out seq nst (Some c) mem usr) =
  Ok (UM_TIMETRAVEL_WAIT,
      kst (one_wait (waited x op)) ents bs [] (out ++ [(c, Msg UM_TIMETRAVEL_ACK n 0, 0)]) seq nst None
        (mem <| running_id := CTRL_CLIENT_ID |>) usr).
Proof.
  intros (_ & _ & _ & Hst) Hid Hcl Hns. unfold _handle_message. erewrite bind_ok by apply kst_read. cbv iota.
  eval_ops. cbn [when]. erewrite bind_ok by done.
  erewrite bind_ok by (eapply shm_check_started; [apply lookup_insert_eq|done]).
  erewrite bind_ok.
  2:{ unfold handle_wait. kstep. cbn [running_client env kst]. rewrite !(bool_decide_true (Some c = Some c)) by done.
      cbn [orb]. kstep. erewrite bind_ok by apply kst_upd_client. cbn [when].
      erewrite bind_ok by reflexivity. erewrite bind_ok by apply (kst_get_client (one_wait (waited x op)) ents bs []).
      eapply has_shm_run; done. }
  rewrite Hns. erewrite ack_run by apply kst_live. done.
Qed.

Abbreviation loop1 := (usfstl_loop_wait_and_handle e l).

Lemma kst_seq x ents bs q out seq nst rc mem usr :
  upd_kenv (λ e, e <| ctl_seq := u64 (ctl_seq e + 1) |>) (kst x ents bs q out seq nst rc mem usr) =
  Ok (tt, kst x ents bs q out (u64 (seq + 1)) nst rc mem usr).
Proof. done. Qed.

(** A message that is answered by an ACK. *)
Lemma send_message_run e0 x ents bs out seq nst rc mem usr op t n ta cl : settled x →
  0 ≤ c_id x → shm_clients mem !! Z.to_nat (c_id x) = Some cl → has_time_share cl = false →
  send_message e0 loop1 c op t
    (kst x ents (arrival (Msg UM_TIMETRAVEL_ACK n ta) :: bs) [] out seq nst rc mem usr) =
  Ok (true, kst (idle x) (put_back ents) bs [] (out ++ [(c, Msg op (u32 (u64 (seq + 1))) t, 0)])
              (u64 (seq + 1)) nst rc mem usr).
Proof.
  intros Hset Hid Hcl Hns. unfold send_message. erewrite bind_ok by apply kst_seq.
  erewrite bind_ok by apply kst_upd_client. kstep.
  erewrite bind_ok by (eapply write_message_run, kst_live). cbn [negb]. rewrite kst_sent.
  set (x1 := x <| nest := nest x + 1 |>).
  assert (settled x1) as Hset1 by exact Hset.
  assert (∀ st, wait_for loop1 c UM_TIMETRAVEL_ACK
    (kst x1 ents (arrival (Msg UM_TIMETRAVEL_ACK n ta) :: bs) [] st (u64 (seq + 1)) nst rc mem usr) =
    Ok (tt, kst (idle x1) (put_back ents) bs [] st (u64 (seq + 1)) nst rc mem usr)) as Hwait.
  { intros st. apply (wait_for_run x1 id); try done. by apply handle_ack. }
  erewrite (bind_ok _ _ _ tt).
  2:{ destruct (negb (op =? UM_TIMETRAVEL_RUN)); [apply Hwait|].
      erewrite bind_ok by apply kst_get_client. erewrite bind_ok by (eapply has_shm_run; done).
      rewrite Hns. apply Hwait. }
  erewrite bind_ok by apply kst_upd_client. unfold mret, M_ret. do 3 f_equal.
  unfold idle, x1. destruct x. unfold set_field. cbn. f_equal. lia.
Qed.

Lemma kst_running x ents bs q out seq nst rc mem usr :
  set_running_client (Some c) (kst x ents bs q out seq nst rc mem usr) =
  Ok (tt, kst x ents bs q out seq nst (Some c) (mem <| running_id := c_id x |>) usr).
Proof.
  unfold set_running_client. erewrite bind_ok; [|eapply fmap_run, kst_get_client]. done.
Qed.

Lemma kst_mem f x ents bs q out seq nst rc mem usr :
  upd_kenv (λ e, e <| g_schedshm_mem := f (g_schedshm_mem e) |>) (kst x ents bs q out seq nst rc mem usr) =
  Ok (tt, kst x ents bs q out seq nst rc (f mem) usr).
Proof. done. Qed.

(** The memory during the client's turn. *)
Definition turn_mem x mem sync : um_timetravel_schedshm :=
  mem <| running_id := c_id x |> <| free_until := sync |>.

Definition synced_to x sync : usfstl_schedule_client := (idle x) <| sync_set := true |> <| c_sync := sync |>.

Lemma update_sync_run e0 x ents bs out seq nst rc mem n ta cl sync : settled x →
  started_scheduling (env w) = true → sync_set x && (c_sync x =? sync) = false →
  0 ≤ c_id x → shm_clients mem !! Z.to_nat (c_id x) = Some cl → has_time_share cl = false →
  let st := kst x ents (arrival (Msg UM_TIMETRAVEL_ACK n ta) :: bs) [] out seq nst rc mem false in
  usfstl_sched_get_sync_time (SE := e0) scheduler st = Ok (sync, st) →
  update_sync e0 loop1 (Some c) st =
  Ok (tt, kst (synced_to x sync) (put_back ents) bs []
            (out ++ [(c, Msg UM_TIMETRAVEL_FREE_UNTIL (u32 (u64 (seq + 1))) (u64 (sync - c_offset x)), 0)])
            (u64 (seq + 1)) nst (Some c) (turn_mem x mem sync) false).
Proof.
  intros Hset Hss Hsync Hid Hcl Hns st Hget. unfold update_sync. erewrite bind_ok by exact Hget.
  erewrite (bind_ok _ _ _ (Some c)) by (by erewrite bind_ok by apply kst_running). cbv beta.
  kstep. cbn [env kst started_scheduling update_sync_running]. rewrite Hss. cbn [negb].
  erewrite (bind_ok _ _ _ tt (kst x ents (arrival (Msg UM_TIMETRAVEL_ACK n ta) :: bs) [] out seq nst (Some c)
    (turn_mem x mem sync) false)) by done.
  erewrite bind_ok by apply kst_get_client.
  erewrite bind_ok by (eapply has_shm_run; done). rewrite Hns, Hsync.
  erewrite (bind_ok _ _ _ tt (kst x ents (arrival (Msg UM_TIMETRAVEL_ACK n ta) :: bs) [] out seq nst (Some c)
    (turn_mem x mem sync) true)) by done.
  erewrite bind_ok by (by eapply send_message_run). erewrite bind_ok by apply kst_upd_client. done.
Qed.

Lemma put_back_idem ents : put_back (put_back ents) = put_back ents.
Proof. unfold put_back at 1. by rewrite others_put_back. Qed.

Lemma clear_req_run_share cl : has_time_share (clear_req_run cl) = has_time_share cl.
Proof. done. Qed.

(** The memory when the client is told to run. *)
Definition run_mem x mem sync : um_timetravel_schedshm :=
  upd_shm_client (c_id x) clear_req_run (turn_mem x mem sync).

Lemma run_mem_client x mem sync cl : shm_clients mem !! Z.to_nat (c_id x) = Some cl →
  shm_clients (run_mem x mem sync) !! Z.to_nat (c_id x) = Some (clear_req_run cl).
Proof. intros H. unfold run_mem, upd_shm_client. cbn. by rewrite list_lookup_alter_eq, H. Qed.

Lemma run_client_run sc x ents bs out seq nst rc mem n1 t1 n2 t2 n3 t3 cl sync :
  control_ready w sc → settled x → started_scheduling (env w) = true →
  sync_set x && (c_sync x =? sync) = false →
  0 ≤ c_id x → shm_clients mem !! Z.to_nat (c_id x) = Some cl → has_time_share cl = false →
  let st := kst x ents (arrival (Msg UM_TIMETRAVEL_ACK n1 t1) :: arrival (Msg UM_TIMETRAVEL_ACK n2 t2) ::
                        arrival (Msg UM_TIMETRAVEL_WAIT n3 t3) :: bs) [] out seq nst rc mem false in
  usfstl_sched_get_sync_time (SE := control_env e l) scheduler st = Ok (sync, st) →
  let seq1 := u64 (seq + 1) in
  let seq2 := u64 (seq1 + 1) in
  run_client (control_env e l) loop1 c st =
  Ok (tt, kst (idle (one_wait (idle (synced_to x sync)))) (put_back ents) bs []
            (((out ++ [(c, Msg UM_TIMETRAVEL_FREE_UNTIL (u32 seq1) (u64 (sync - c_offset x)), 0)]) ++
              [(c, Msg UM_TIMETRAVEL_RUN (u32 seq2) (u64 (shm_time mem - c_offset x)), 0)]) ++
              [(c, Msg UM_TIMETRAVEL_ACK n3 0, 0)])
            seq2 nst None ((run_mem x mem sync) <| running_id := CTRL_CLIENT_ID |>) false).
Proof.
  intros Hr Hset Hss Hsync Hid Hcl Hns st Hget seq1 seq2. unfold run_client.
  erewrite bind_ok by (by eapply update_sync_run).
  erewrite bind_ok by apply kst_get_client.
  erewrite bind_ok by (eapply has_shm_run; done). rewrite Hns. cbn [negb when].
  erewrite bind_ok.
  2:{ unfold set_shm_client. erewrite bind_ok by (eapply get_shm_client_run; done).
      exact (kst_mem (upd_shm_client _ clear_req_run) _ _ _ _ _ _ _ _ _ _). }
  set (x1 := synced_to x sync). assert (settled x1) as Hset1 by exact Hset.
  pose proof (run_mem_client x mem sync cl Hcl) as Hcl1.
  erewrite bind_ok.
  2:{ eapply (control_time_run e l (kst _ _ _ _ _ _ _ _ _ _) sc). by destruct Hr. }
  erewrite bind_ok by apply kst_get_client.
  erewrite bind_ok by (by eapply (send_message_run _ x1 _ _ _ _ _ _ (run_mem x mem sync))).
  cbn [when]. rewrite put_back_idem.
  rewrite (wait_for_run (idle x1) one_wait) with (mem' := (run_mem x mem sync) <| running_id := CTRL_CLIENT_ID |>)
    (rc' := None) (out' := ((out ++ [(c, Msg UM_TIMETRAVEL_FREE_UNTIL (u32 seq1) (u64 (sync - c_offset x)), 0)]) ++
              [(c, Msg UM_TIMETRAVEL_RUN (u32 seq2) (u64 (shm_time mem - c_offset x)), 0)]) ++
              [(c, Msg UM_TIMETRAVEL_ACK n3 0, 0)]); try done.
  - by rewrite put_back_idem.
  - by apply (handle_wait_run (idle x1)) with (cl := clear_req_run cl).
Qed.
End exchange.

(** C5. A client without shared memory gets its turn: the controller tells it how
    far it may run freely (the time of the next other job), then to run at the
    current time, both in the client's own time base, waits for each ACK, and
    returns when the client waits again, which it acknowledges.  Afterwards no
    client is running, the client's run request in the shared memory is cleared,
    [free_until] is the time the client was given, and the clock and the
    schedule are as before. *)
Theorem run_client_turn n w sc c x jb cl sync n1 t1 n2 t2 n3 t3 rest :
  control_ready w sc → client_live w c x jb → c ≠ 0 →
  conn_registered x = true → conn_handler_ x = handle_message_fn → c_state x = USCS_STARTED →
  (∀ y, entry_priority (env w) y ≤ max_priority) →
  started_scheduling (env w) = true → update_sync_running (env w) = false →
  sync_set x && (c_sync x =? sync) = false →
  0 ≤ c_id x → shm_clients (g_schedshm_mem (env w)) !! Z.to_nat (c_id x) = Some cl →
  has_time_share cl = false →
  queues (env w) !! c = Some [] →
  batches (env w) = arrival c (Msg UM_TIMETRAVEL_ACK n1 t1) :: arrival c (Msg UM_TIMETRAVEL_ACK n2 t2) ::
                    arrival c (Msg UM_TIMETRAVEL_WAIT n3 t3) :: rest →
  usfstl_sched_get_sync_time (SE := control_env_at (S n)) scheduler w = Ok (sync, w) →
  let now := shm_time (g_schedshm_mem (env w)) in
  let seq1 := u64 (ctl_seq (env w) + 1) in
  let seq2 := u64 (seq1 + 1) in
  ∃ w', run_client (control_env_at (S n)) (control_loop_at (S n)) c w = Ok (tt, w') ∧
    outbox (env w') = outbox (env w) ++
      [(c, Msg UM_TIMETRAVEL_FREE_UNTIL (u32 seq1) (u64 (sync - c_offset x)), 0);
       (c, Msg UM_TIMETRAVEL_RUN (u32 seq2) (u64 (now - c_offset x)), 0);
       (c, Msg UM_TIMETRAVEL_ACK n3 0, 0)] ∧
    batches (env w') = rest ∧ running_client (env w') = None ∧
    running_id (g_schedshm_mem (env w')) = CTRL_CLIENT_ID ∧
    free_until (g_schedshm_mem (env w')) = sync ∧ shm_time (g_schedshm_mem (env w')) = now ∧
    shm_clients (g_schedshm_mem (env w')) !! Z.to_nat (c_id x) = Some (clear_req_run cl) ∧
    nesting (env w') = nesting (env w) ∧ jobs w' = jobs w ∧ scheds w' = scheds w ∧
    (∃ x', kclients (env w') = <[c:=x']> (kclients (env w)) ∧ sync_set x' = true ∧ c_sync x' = sync ∧
       n_wait x' = u64 (n_wait x + 1) ∧ nest x' = nest x ∧
       conn_registered x' = true ∧ conn_handler_ x' = handle_message_fn).
Proof.
  intros Hr Hl Hc0 Hreg Hh Hst Hprio Hss Husr Hsync Hid Hcl Hns Hq Hb Hget now seq1 seq2.
  pose proof Hl as [Hx Hj Hcb Hbr].
  unfold control_env_at, control_loop_at in *. cbn [control_level] in *.
  destruct (control_level n) as [e l]. cbn [fst snd] in *.
  assert (w = kst w c x (loop_entries (env w)) (batches (env w)) [] (outbox (env w)) (ctl_seq (env w))
                (nesting (env w)) (running_client (env w)) (g_schedshm_mem (env w)) false) as Hw.
  { unfold kst. rewrite (insert_id _ _ _ Hx), (insert_id _ _ _ Hq), <- Husr. by destruct w as [? ? []]. }
  rewrite Hb in Hw. set (st := kst _ _ _ _ _ _ _ _ _ _ _ _) in Hw.
  assert (usfstl_sched_get_sync_time (SE := control_env e l) scheduler st = Ok (sync, st)) as Hget'
    by (by rewrite <- Hw).
  eexists. split.
  { transitivity (run_client (control_env e l) (usfstl_loop_wait_and_handle e l) c st); [by rewrite <- Hw|].
    eapply (run_client_run w c x jb); done. }
  cbn. split_and!; try done.
  - by rewrite <- !app_assoc.
  - exact (run_mem_client x _ sync cl Hcl).
  - eexists. split; [done|]. done.
Qed.

(** ** A broadcast while a client leaves *)

Definition started_client (id : Z) : usfstl_schedule_client :=
  SClient true handle_message_fn 0 (Some client_list_head) USCS_STARTED false 0 0 0 0 0 (u64 (-1)) 0 1 0
    (unnamed id) id id 0.

Definition client_job : usfstl_job control_fn :=
  job_zero <| callback := Some run_client_fn |> <| group := 1 |>.

Definition control_sched : usfstl_scheduler control_fn :=
  (USFSTL_SCHEDULER "control" 99) <| external_get_time := Some _schedshm_get_time_fn |>
    <| external_set_time := Some _schedshm_set_time_fn |>
    <| Sched.next_time_changed := Some next_time_changed_fn |>.

Definition control_mem : um_timetravel_schedshm :=
  Schedshm UM_TIMETRAVEL_SCHEDSHM_VERSION 12288 0 30 0 64 (replicate 64 shm_client_zero).

(** Three started clients, at the addresses 51, 52 and 53. *)
Definition controller (q : gmap Z (list incoming)) (bs : list batch) : KW :=
  World {[51 := client_job; 52 := client_job; 53 := client_job]} {[scheduler := control_sched]}
    (KEnv {[51 := started_client 1; 52 := started_client 2; 53 := started_client 3]} 7 3 (Some 51) 0 0
       (control_mem <| running_id := 1 |>) true [51; 52; 53] [] true 0 false 3 [0; 51; 52; 53] q bs [] []
       (NetEnvSt [] ∅ 0 0 ∅ ∅ [] [])).

Definition broadcast_queue : gmap Z (list incoming) :=
  {[51 := [IMsg (Msg UM_TIMETRAVEL_BROADCAST 5 42)]]}.

Definition ack_from (c : Z) : batch := Batch None [(c, IMsg (Msg UM_TIMETRAVEL_ACK 0 0))] [].
Definition hangup_from (c : Z) : batch := Batch None [(c, IHangup)] [].

(** A broadcast reaches all other clients, and the sender gets its ACK.  But if
    the client that is next on the list leaves while the controller waits for
    an answer to the broadcast, the controller follows a link of a client that
    is on no list any more: iterating with the next entry saved only protects
    against the removal of the current one. *)
Theorem broadcast_next_removed :
  (∃ w', handle_message (control_env_at 4) (control_loop_at 4) 51
           (controller broadcast_queue [ack_from 52; ack_from 53]) = Ok (tt, w') ∧
     outbox (env w') = [(52, Msg UM_TIMETRAVEL_BROADCAST 1 42, 0); (53, Msg UM_TIMETRAVEL_BROADCAST 2 42, 0);
                        (51, Msg UM_TIMETRAVEL_ACK 5 0, 0)]) ∧
  handle_message (control_env_at 4) (control_loop_at 4) 51
    (controller broadcast_queue [hangup_from 53; ack_from 51; ack_from 52]) = Err NullDeref.
Proof.
  split; [|vm_compute; reflexivity]. eexists. split; vm_compute; reflexivity.
Qed.

(** ** Witnesses *)

Lemma controller_ready q bs : control_ready (controller q bs) control_sched.
Proof. by constructor. Qed.

Lemma controller_live q bs : client_live (controller q bs) 51 (started_client 1) client_job.
Proof. constructor; try done. cbn. set_solver. Qed.

Definition starting : KW :=
  (controller ∅ []) <| env := (env (controller ∅ [])) <| new_clients := [52; 53] |>
    <| kclients := <[51 := (started_client 2) <| c_state := USCS_CONNECTED |>]>
                     (kclients (env (controller ∅ []))) |> |>.

Lemma start_keeps_order_witness :
  ∃ w' l1 l2, handle_start 51 9 starting = Ok (tt, w') ∧ new_clients (env w') = l1 ++ 51 :: l2.
Proof.
  destruct (start_keeps_order starting 51 9 ((started_client 2) <| c_state := USCS_CONNECTED |>))
    as (w' & l1 & l2 & Hrun & _ & Hnew & _).
  - reflexivity.
  - reflexivity.
  - cbn. set_solver.
  - intros y Hy. cbn in Hy. apply elem_of_cons in Hy as [->|Hy]; [eauto|].
    apply list_elem_of_singleton in Hy as ->. eauto.
  - repeat constructor; vm_compute; discriminate.
  - exists w', l1, l2. split; [exact Hrun|exact Hnew].
Defined.

Lemma update_get_roundtrip_witness :
  let q := {[51 := [IMsg (Msg UM_TIMETRAVEL_UPDATE 5 40); IMsg (Msg UM_TIMETRAVEL_GET 6 0)]]} in
  let handle := handle_message (control_env_at 2) (control_loop_at 2) 51 in
  ∃ w', (handle;; handle) (controller q []) = Ok (tt, w') ∧
    outbox (env w') = [(51, Msg UM_TIMETRAVEL_ACK 5 0, 0); (51, Msg UM_TIMETRAVEL_ACK 6 40, 0)].
Proof.
  intros q handle.
  destruct (update_get_roundtrip 1 (controller q []) control_sched 51 (started_client 1) client_job
              shm_client_zero 5 6 40 0 []) as (w' & Hrun & Hout & _).
  - apply controller_ready.
  - apply controller_live.
  - reflexivity.
  - reflexivity.
  - reflexivity.
  - cbn. lia.
  - reflexivity.
  - reflexivity.
  - reflexivity.
  - lia.
  - intros j [=].
  - exists w'. split; [exact Hrun|exact Hout].
Defined.

Lemma client_64_out_of_bounds_witness :
  process_starting_client (control_env_at 2) (control_loop_at 2) 51
    ((controller ∅ []) <| env := (env (controller ∅ [])) <| clients := 2^63 - 1 |> |>) = Err OutOfBounds.
Proof.
  apply (client_64_out_of_bounds 1 _ control_sched 51 (started_client 1)).
  - by constructor.
  - reflexivity.
  - reflexivity.
  - reflexivity.
Defined.

Lemma hangup_before_start_crashes_witness :
  handle_message (control_env_at 2) (control_loop_at 2) 51
    ((controller {[51 := [IHangup]]} []) <| env := (env (controller {[51 := [IHangup]]} []))
       <| kclients := {[51 := (started_client 0) <| c_state := USCS_CONNECTED |> <| c_list := None |>]} |> |>) =
  Err NullDeref.
Proof.
  apply (hangup_before_start_crashes 1 _ 51
           ((started_client 0) <| c_state := USCS_CONNECTED |> <| c_list := None |>) client_job []);
    reflexivity.
Defined.

Definition turn_batches : list batch :=
  [arrival 51 (Msg UM_TIMETRAVEL_ACK 1 0); arrival 51 (Msg UM_TIMETRAVEL_ACK 2 0);
   arrival 51 (Msg UM_TIMETRAVEL_WAIT 9 0)].

Lemma run_client_turn_witness :
  ∃ w', run_client (control_env_at 2) (control_loop_at 2) 51 (controller {[51 := []]} turn_batches) = Ok (tt, w') ∧
    batches (env w') = [].
Proof.
  destruct (run_client_turn 1 (controller {[51 := []]} turn_batches) control_sched 51 (started_client 1)
              client_job shm_client_zero (30 + 2^62) 1 0 2 0 9 0 []) as (w' & Hrun & _ & Hb & _).
  - apply controller_ready.
  - apply controller_live.
  - discriminate.
  - reflexivity.
  - reflexivity.
  - reflexivity.
  - intros y. unfold entry_priority.
    destruct (kclients (env (controller {[51 := []]} turn_batches)) !! y) as [z|] eqn:E; [|unfold max_priority; lia].
    cbn in E. rewrite !lookup_insert_Some, lookup_singleton_Some in E.
    destruct E as [[_ <-]|[_ [[_ <-]|[_ [_ <-]]]]]; unfold max_priority; cbn; lia.
  - reflexivity.
  - reflexivity.
  - reflexivity.
  - cbn. lia.
  - reflexivity.
  - reflexivity.
  - reflexivity.
  - reflexivity.
  - vm_compute. reflexivity.
  - exists w'. split; [exact Hrun|exact Hb].
Defined.
