(* ===== verification/VhostProps.v ===== *)
(** * Theorems on vhost-user devices (src/vhost.c) *)
From S2P Require Import Prelude Sched SchedProps Util Bytes Vhost.

(** ** Scatter-gather lists *)

(** The entries of a list lie in mapped memory, apart from each other. *)
Definition iov_end (v : iovec) : Z := iov_base v + iov_len v.
Definition apart (v v' : iovec) : Prop := iov_end v ≤ iov_base v' ∨ iov_end v' ≤ iov_base v.

Fixpoint iov_ok (m : mem) (sg : list iovec) : Prop :=
  match sg with
  | [] => True
  | v :: sg => 0 ≤ iov_len v ∧ range_mapped m (iov_base v) (iov_len v) ∧ Forall (apart v) sg ∧ iov_ok m sg
  end.

Fixpoint iov_total (sg : list iovec) : Z :=
  match sg with [] => 0 | v :: sg => iov_len v + iov_total sg end.

Definition in_iov (sg : list iovec) (a : Z) : Prop := ∃ v, v ∈ sg ∧ iov_base v ≤ a < iov_end v.

(** Memory after [iov_fill]. *)
Fixpoint filled (m : mem) (sg : list iovec) (buf : list Z) : mem :=
  match buf, sg with
  | [], _ | _, [] => m
  | _, v :: sg =>
      let cpy := Z.to_nat (Z.min (Z.of_nat (length buf)) (iov_len v)) in
      filled (poke m (iov_base v) (take cpy buf)) sg (drop cpy buf)
  end.

Lemma iov_total_nonneg m sg : iov_ok m sg → 0 ≤ iov_total sg.
Proof. induction sg as [|v sg IH]; cbn; [lia|]. intros (H & _ & _ & H'). specialize (IH H'). lia. Qed.

Lemma iov_ok_mono m m' sg : (∀ a, is_Some (m !! a) → is_Some (m' !! a)) → iov_ok m sg → iov_ok m' sg.
Proof.
  intros Hm. induction sg as [|v sg IH]; cbn; [done|]. intros (H1 & H2 & H3 & H4).
  split_and!; [done| |done|by apply IH]. intros i Hi. by apply Hm, H2.
Qed.

Lemma iov_ok_poke m sg a bs : iov_ok m sg → iov_ok (poke m a bs) sg.
Proof.
  apply iov_ok_mono. intros b Hb. rewrite poke_lookup. case_bool_decide; [|done].
  apply lookup_lt_is_Some_2. lia.
Qed.

Lemma filled_outside sg : ∀ m buf a, ¬ in_iov sg a → filled m sg buf !! a = m !! a.
Proof.
  induction sg as [|v sg IH]; intros m buf a Ha; cbn; [by destruct buf|].
  destruct buf as [|b buf]; [done|]. cbn -[take drop].
  rewrite IH. 2:{ intros (v' & Hv & Hr). apply Ha. exists v'. set_solver. }
  rewrite poke_lookup. case_bool_decide as Hd; [|done]. exfalso. apply Ha. exists v.
  split; [by left|]. rewrite length_take in Hd. unfold iov_end. lia.
Qed.

Lemma filled_mapped sg : ∀ m buf a, is_Some (m !! a) → is_Some (filled m sg buf !! a).
Proof.
  induction sg as [|v sg IH]; intros m buf a Ha; cbn; [by destruct buf|].
  destruct buf as [|b buf]; [done|]. apply IH. rewrite poke_lookup. case_bool_decide; [|done].
  apply lookup_lt_is_Some_2. lia.
Qed.

Lemma apart_outside v sg a : Forall (apart v) sg → iov_base v ≤ a < iov_end v → ¬ in_iov sg a.
Proof.
  intros Hf Ha (v' & Hv & Hr). rewrite Forall_forall in Hf. destruct (Hf v' Hv); lia.
Qed.

Lemma iov_fill_run sg : ∀ m buf, iov_ok m sg →
  iov_fill sg buf m = Ok (Z.min (Z.of_nat (length buf)) (iov_total sg), filled m sg buf).
Proof.
  induction sg as [|v sg IH]; intros m buf Hok.
  { destruct buf; cbn; [done|]. by rewrite Z.min_r by lia. }
  destruct Hok as (Hlen & Hmap & Hap & Hok). pose proof (iov_total_nonneg m sg Hok) as Ht.
  destruct buf as [|b buf]. { cbn [iov_fill length filled iov_total]. by rewrite Z.min_l by lia. }
  set (bf := b :: buf). cbn [iov_fill filled]. fold bf.
  set (cpy := Z.min (Z.of_nat (length bf)) (iov_len v)).
  assert (0 ≤ cpy ≤ Z.of_nat (length bf)) as Hc by lia.
  replace (match bf with [] => _ | _ :: _ => _ end) with
    (Str.store (iov_base v) (take (Z.to_nat cpy) bf);;
     copied ← iov_fill sg (drop (Z.to_nat cpy) bf); mret (cpy + copied)) by done.
  erewrite bind_ok.
  2:{ apply store_poke. intros i Hi. apply Hmap. rewrite length_take in Hi. lia. }
  erewrite bind_ok by (apply IH; by apply iov_ok_poke). unfold mret, M_ret. do 2 f_equal.
  rewrite length_drop. cbn [iov_total]. lia.
Qed.

Lemma iov_read_run sg : ∀ m n, iov_ok m sg → 0 ≤ n →
  ∃ bs, iov_read n sg m = Ok (bs, m) ∧ Z.of_nat (length bs) = Z.min n (iov_total sg) ∧
    (∀ m', iov_ok m' sg → (∀ a, in_iov sg a → m' !! a = m !! a) → iov_read n sg m' = Ok (bs, m')).
Proof.
  induction sg as [|v sg IH]; intros m n Hok Hn; cbn.
  { exists []. cbn. split_and!; [done|lia|done]. }
  destruct Hok as (Hlen & Hmap & Hap & Hok). pose proof (iov_total_nonneg m sg Hok) as Ht.
  destruct (Z.eqb_spec n 0) as [->|Hn0].
  { exists []. cbn. split_and!; [done|lia|done]. }
  set (cpy := Z.min n (iov_len v)).
  destruct (IH m (n - cpy) Hok ltac:(lia)) as (bs & Hrun & Hl & Hext).
  assert (range_mapped m (iov_base v) (Z.of_nat (Z.to_nat cpy))) as Hmc by (intros i Hi; apply Hmap; lia).
  exists (peek m (iov_base v) (Z.to_nat cpy) ++ bs). split_and!.
  - erewrite bind_ok by (by apply load_peek). by erewrite bind_ok by done.
  - rewrite length_app, peek_length by done. lia.
  - intros m' (_ & Hmap' & _ & Hok') Hsame.
    erewrite bind_ok. 2:{ apply load_peek. intros i Hi. apply Hmap'. lia. }
    erewrite bind_ok. 2:{ apply Hext; [done|]. intros a (v' & Hv & Hr). apply Hsame. exists v'. set_solver. }
    rewrite (peek_ext m' m); [done|]. intros i Hi. apply Hsame. exists v. split; [by left|unfold iov_end; lia].
Qed.

Lemma iov_read_filled sg : ∀ m buf, iov_ok m sg →
  let n := Z.min (Z.of_nat (length buf)) (iov_total sg) in
  iov_read n sg (filled m sg buf) = Ok (take (Z.to_nat n) buf, filled m sg buf).
Proof.
  induction sg as [|v sg IH]; intros m buf Hok n; subst n; cbn [iov_total].
  { rewrite Z.min_r by lia. cbn. by destruct buf. }
  destruct Hok as (Hlen & Hmap & Hap & Hok). pose proof (iov_total_nonneg m sg Hok) as Ht.
  destruct buf as [|b buf]. { cbn [length]. rewrite Z.min_l by lia. done. }
  set (bf := b :: buf). set (n := Z.min (Z.of_nat (length bf)) (iov_len v + iov_total sg)).
  set (cpy := Z.min (Z.of_nat (length bf)) (iov_len v)).
  set (m1 := poke m (iov_base v) (take (Z.to_nat cpy) bf)).
  change (filled m (v :: sg) bf) with (filled m1 sg (drop (Z.to_nat cpy) bf)).
  assert (iov_ok m1 sg) as Hok1 by (by apply iov_ok_poke).
  specialize (IH m1 (drop (Z.to_nat cpy) bf) Hok1). cbn zeta in IH. rewrite length_drop in IH.
  assert (n ≤ 0 ∨ 0 < n) as [Hn|Hn] by lia.
  { assert (n = 0) as Hn0 by lia. assert (cpy = 0) as Hc0 by lia. cbn [iov_read]. rewrite Hn0. cbn. done. }
  cbn [iov_read]. replace (n =? 0) with false by lia.
  replace (Z.min n (iov_len v)) with cpy by lia.
  erewrite bind_ok.
  2:{ apply load_peek. intros i Hi. apply filled_mapped. unfold m1. rewrite poke_lookup.
      case_bool_decide; [apply lookup_lt_is_Some_2; lia|]. apply Hmap. lia. }
  replace (n - cpy) with (Z.min (Z.of_nat (length bf - Z.to_nat cpy)) (iov_total sg)) by lia.
  erewrite bind_ok by exact IH. unfold mret, M_ret. do 2 f_equal.
  rewrite (peek_ext _ m1).
  2:{ intros i Hi. apply filled_outside. eapply apart_outside; [done|]. unfold iov_end. lia. }
  assert (length (take (Z.to_nat cpy) bf) = Z.to_nat cpy) as Hlt by (rewrite length_take; lia).
  pose proof (peek_poke_same m (iov_base v) (take (Z.to_nat cpy) bf)) as Hpk. rewrite Hlt in Hpk.
  unfold m1. rewrite Hpk, take_drop_commute.
  replace (Z.to_nat cpy + Z.to_nat (Z.min (Z.of_nat (length bf - Z.to_nat cpy)) (iov_total sg)))%nat
    with (Z.to_nat n) by lia.
  rewrite <- (take_drop (Z.to_nat cpy) (take (Z.to_nat n) bf)) at 2.
  by rewrite take_take, Nat.min_l by lia.
Qed.

(** Copying data into a scatter-gather list and reading it back gives the data,
    as much of it as the list has room for; the number of bytes copied is
    returned, and no byte outside the list's entries is changed. *)
Theorem iov_fill_read_roundtrip m sg data :
  iov_ok m sg →
  let n := Z.min (Z.of_nat (length data)) (iov_total sg) in
  ∃ m', iov_fill sg data m = Ok (n, m') ∧ iov_read n sg m' = Ok (take (Z.to_nat n) data, m') ∧
    ∀ a, ¬ in_iov sg a → m' !! a = m !! a.
Proof.
  intros Hok n. exists (filled m sg data). split_and!.
  - by apply iov_fill_run.
  - by apply iov_read_filled.
  - intros a. apply filled_outside.
Qed.

(** ** Reading the virtqueue *)

(** A little-endian field in memory. *)
Definition rd (m : mem) (n : nat) (a : Z) : Z := le_combine (peek m a n).

Lemma on_mem_run {A} (f : M mem A) (w : VW) a m' : f (v_mem (env w)) = Ok (a, m') →
  on_mem f w = Ok (a, w <| env := (env w) <| v_mem := m' |> |>).
Proof. intros H. unfold on_mem. by rewrite H. Qed.

Lemma set_mem_id (w : VW) : w <| env := (env w) <| v_mem := v_mem (env w) |> |> = w.
Proof. by destruct w as [? ? []]. Qed.

Lemma ld_run (w : VW) n a : range_mapped (v_mem (env w)) a (Z.of_nat n) →
  ld n a w = Ok (rd (v_mem (env w)) n a, w).
Proof.
  intros H. unfold ld, fmap, M_fmap. erewrite on_mem_run by (by apply load_peek). by rewrite set_mem_id.
Qed.

Lemma range_mapped_sub m a n b k : range_mapped m a n → a ≤ b → b + k ≤ a + n → range_mapped m b k.
Proof. intros H H1 H2 i Hi. apply H. lia. Qed.

Record vdesc := VDesc { d_addr : Z; d_len : Z; d_flags : Z; d_next : Z }.

Definition desc_at (m : mem) (q : vring) (i : Z) : vdesc :=
  let a := desc q + 16 * i in VDesc (rd m 8 a) (rd m 4 (a + 8)) (rd m 2 (a + 12)) (rd m 2 (a + 14)).

Definition is_write (d : vdesc) : bool := negb (Z.land (d_flags d) VRING_DESC_F_WRITE =? 0).
Definition has_next (d : vdesc) : bool := negb (Z.land (d_flags d) VRING_DESC_F_NEXT =? 0).

(** The chain of descriptors from index [i] on. *)
Inductive chain (m : mem) (q : vring) : Z → list vdesc → Prop :=
  | chain_end i :
      range_mapped m (desc q + 16 * i) 16 → has_next (desc_at m q i) = false →
      chain m q i [desc_at m q i]
  | chain_next i ds :
      range_mapped m (desc q + 16 * i) 16 → has_next (desc_at m q i) = true →
      chain m q (d_next (desc_at m q i)) ds → chain m q i (desc_at m q i :: ds).

(** The translation of addresses of the other side. *)
Definition in_region (addr : Z) (r : vhost_user_region) : bool :=
  (addr >=? user_addr r) && (addr <? u64 (user_addr r + region_size r)).

Fixpoint translate_in (rs : list (vhost_user_region * Z)) (addr : Z) : option Z :=
  match rs with
  | [] => None
  | (r, va) :: rs => if in_region addr r then Some (va + (addr - user_addr r)) else translate_in rs addr
  end.

Definition translate (d : usfstl_vhost_user_dev_int) (addr : Z) : option Z :=
  translate_in (take (Z.to_nat (n_regions d)) (zip (regions d) (region_vaddr d))) addr.

Definition regions_ok (d : usfstl_vhost_user_dev_int) : Prop :=
  length (regions d) = 2%nat ∧ length (region_vaddr d) = 2%nat ∧ 0 ≤ n_regions d ≤ 2.

Lemma to_va_loop_run d addr n : ∀ i (w : VW),
  length (regions d) = length (region_vaddr d) → 0 ≤ i → (Z.to_nat i + n ≤ length (regions d))%nat →
  to_va_loop n i d addr w =
  match translate_in (take n (drop (Z.to_nat i) (zip (regions d) (region_vaddr d)))) addr with
  | Some va => Ok (va, w)
  | None => Err Assertion
  end.
Proof.
  induction n as [|n IH]; intros i w Hl Hi Hn; cbn [to_va_loop]; [done|].
  destruct (lookup_lt_is_Some_2 (regions d) (Z.to_nat i)) as [r Hr]; [lia|].
  destruct (lookup_lt_is_Some_2 (region_vaddr d) (Z.to_nat i)) as [va Hva]; [lia|].
  assert (zip (regions d) (region_vaddr d) !! Z.to_nat i = Some (r, va)) as Hz.
  { rewrite lookup_zip_with, Hr, Hva. done. }
  erewrite bind_ok by (by apply array_get_ok). rewrite (drop_S _ _ _ Hz). cbn [firstn translate_in].
  unfold in_region. destruct (_ && _).
  - by erewrite bind_ok by (by apply array_get_ok).
  - rewrite IH by lia. by replace (Z.to_nat (i + 1)) with (S (Z.to_nat i)) by lia.
Qed.

Lemma get_dev_run (w : VW) d : v_dev (env w) = Some d → get_dev w = Ok (d, w).
Proof. intros H. unfold get_dev, get, mbind, M_bind. by rewrite H. Qed.

Lemma to_va_run (w : VW) d addr : v_dev (env w) = Some d → regions_ok d →
  usfstl_vhost_user_to_va addr w =
  match translate d addr with Some va => Ok (va, w) | None => Err Assertion end.
Proof.
  intros Hd (H1 & H2 & H3). unfold usfstl_vhost_user_to_va. erewrite bind_ok by (by apply get_dev_run).
  rewrite to_va_loop_run by (cbn; lia). done.
Qed.

(** What a chain turns into. *)
Definition iov_of (d : usfstl_vhost_user_dev_int) (x : vdesc) : option iovec :=
  va ← translate d (d_addr x); Some (Iovec va (d_len x)).

Definition count_if (f : vdesc → bool) (ds : list vdesc) : Z := Z.of_nat (length (List.filter f ds)).

Lemma count_if_cons f x ds : count_if f (x :: ds) = (if f x then 1 else 0) + count_if f ds.
Proof. unfold count_if. cbn. destruct (f x); cbn [length]; lia. Qed.

Lemma count_chain_run (w : VW) q i ds : chain (v_mem (env w)) q i ds →
  ∀ fuel a b, (length ds ≤ fuel)%nat → 0 ≤ a → 0 ≤ b →
  a + Z.of_nat (length ds) < 2^32 → b + Z.of_nat (length ds) < 2^32 →
  count_chain fuel q i a b w =
  Ok ((a + count_if is_write ds, b + count_if (λ x, negb (is_write x)) ds), w).
Proof.
  induction 1 as [i Hm Hn|i ds Hm Hn Hc IH]; intros fuel a b Hf Ha Hb Hla Hlb.
  all: destruct fuel as [|fuel]; [cbn in Hf; lia|]; cbn [count_chain length] in *.
  all: unfold desc_flags, desc_next.
  all: erewrite bind_ok by (apply ld_run; eapply range_mapped_sub; [done|lia|lia]).
  all: erewrite bind_ok by (apply ld_run; eapply range_mapped_sub; [done|lia|lia]).
  all: change (negb (Z.land (rd _ _ _) VRING_DESC_F_NEXT =? 0)) with (has_next (desc_at (v_mem (env w)) q i)).
  all: rewrite Hn, !count_if_cons.
  all: change (negb (Z.land (rd _ _ _) VRING_DESC_F_WRITE =? 0)) with (is_write (desc_at (v_mem (env w)) q i)).
  - unfold mret, M_ret. do 3 f_equal; destruct (is_write _); unfold count_if, u32; cbn; lia.
  - rewrite IH; [|lia|destruct (is_write _); unfold u32; lia ..].
    do 3 f_equal; destruct (is_write _); unfold u32; cbn; lia.
Qed.

(** The buffer that a chain fills. *)
Definition add_iov (b : usfstl_vhost_user_buf) (x : vdesc) (v : iovec) : usfstl_vhost_user_buf :=
  if is_write x then b <| in_sg := in_sg b ++ [v] |> <| n_in_sg := n_in_sg b + 1 |>
  else b <| out_sg := out_sg b ++ [v] |> <| n_out_sg := n_out_sg b + 1 |>.

Lemma fill_chain_run (w : VW) d q i ds : chain (v_mem (env w)) q i ds →
  v_dev (env w) = Some d → regions_ok d →
  ∀ fuel b vs, (length ds ≤ fuel)%nat → mapM (iov_of d) ds = Some vs →
  fill_chain fuel q i b w = Ok (foldl (λ b p, add_iov b p.1 p.2) b (zip ds vs), w).
Proof.
  intros Hc Hd Hr. induction Hc as [i Hm Hn|i ds Hm Hn Hc IH]; intros fuel b vs Hf Hvs.
  all: destruct fuel as [|fuel]; [cbn in Hf; lia|]; cbn [fill_chain].
  all: cbn [mapM] in Hvs; apply bind_Some in Hvs as (v & Hv & Hvs).
  all: unfold iov_of in Hv; apply bind_Some in Hv as (va & Hva & [= <-]).
  all: unfold desc_flags, desc_next.
  all: erewrite bind_ok by (apply ld_run; eapply range_mapped_sub; [done|lia|lia]).
  all: erewrite bind_ok by (apply ld_run; eapply range_mapped_sub; [done|lia|lia]).
  all: change (rd (v_mem (env w)) 8 (desc q + 16 * i)) with (d_addr (desc_at (v_mem (env w)) q i)).
  all: erewrite bind_ok by (rewrite (to_va_run w d) by done; by rewrite Hva).
  all: erewrite bind_ok by (apply ld_run; eapply range_mapped_sub; [done|lia|lia]).
  all: erewrite bind_ok by (apply ld_run; eapply range_mapped_sub; [done|lia|lia]).
  all: change (negb (Z.land (rd _ _ _) VRING_DESC_F_NEXT =? 0)) with (has_next (desc_at (v_mem (env w)) q i)).
  all: rewrite Hn.
  - cbn in Hvs. injection Hvs as <-. done.
  - apply bind_Some in Hvs as (vs' & Hvs' & [= <-]). cbn [zip zip_with foldl].
    cbn in Hf. by apply IH; [lia|].
Qed.

(** ** Taking a buffer *)

Definition with_dev (w : VW) (d : usfstl_vhost_user_dev_int) : VW :=
  w <| env := (env w) <| v_dev := Some d |> |>.

Definition with_virtq (d : usfstl_vhost_user_dev_int) (i : Z) (q : virtq) : usfstl_vhost_user_dev_int :=
  d <| virtqs := <[Z.to_nat i := q]> (virtqs d) |>.

Definition virtq_at (d : usfstl_vhost_user_dev_int) (i : Z) (q : virtq) : Prop :=
  0 ≤ i ∧ virtqs d !! Z.to_nat i = Some q.

Lemma get_virtq_run (w : VW) d i q : v_dev (env w) = Some d → virtq_at d i q →
  get_virtq i w = Ok (q, w).
Proof.
  intros Hd [Hi Hq]. unfold get_virtq. erewrite bind_ok by (by apply get_dev_run). by apply array_get_ok.
Qed.

Lemma upd_virtq_run (w : VW) d i q f : v_dev (env w) = Some d → virtq_at d i q →
  upd_virtq i f w = Ok (tt, with_dev w (with_virtq d i (f q))).
Proof.
  intros Hd [Hi Hq]. unfold upd_virtq, array_upd. erewrite bind_ok by (by apply get_dev_run).
  erewrite bind_ok by (by erewrite bind_ok by (by apply array_get_ok)). done.
Qed.

Lemma translate_virtq d i q addr : translate (with_virtq d i q) addr = translate d addr.
Proof. done. Qed.

Lemma iovs_of_virtq d i q ds : mapM (iov_of (with_virtq d i q)) ds = mapM (iov_of d) ds.
Proof. induction ds as [|x ds IH]; cbn; [done|]. by rewrite IH. Qed.

(** The writeable entries and the readable ones, in order. *)
Definition pick (f : vdesc → bool) (ds : list vdesc) (vs : list iovec) : list iovec :=
  map snd (List.filter (λ p, f p.1) (zip ds vs)).

Lemma pick_cons f x ds v vs :
  pick f (x :: ds) (v :: vs) = if f x then v :: pick f ds vs else pick f ds vs.
Proof. unfold pick. cbn. by destruct (f x). Qed.

Lemma fold_add_iov ds : ∀ vs b, length ds = length vs →
  foldl (λ b p, add_iov b p.1 p.2) b (zip ds vs) =
  b <| in_sg := in_sg b ++ pick is_write ds vs |>
    <| out_sg := out_sg b ++ pick (λ x, negb (is_write x)) ds vs |>
    <| n_in_sg := n_in_sg b + count_if is_write ds |>
    <| n_out_sg := n_out_sg b + count_if (λ x, negb (is_write x)) ds |>.
Proof.
  induction ds as [|x ds IH]; intros [|v vs] b Hl; try done.
  - destruct b. cbn. by rewrite !app_nil_r, !Z.add_0_r.
  - cbn [zip zip_with foldl]. rewrite IH by (cbn in Hl; lia). rewrite !pick_cons, !count_if_cons.
    unfold add_iov. cbn [fst snd].
    destruct b, (is_write x); unfold set_field; cbn; rewrite <-?app_assoc; cbn; f_equal; lia.
Qed.

(** The next buffer of a queue: the chain at the next entry of the available
    ring, its descriptors all in regions of the other side. *)
Record queue_buf (m : mem) (d : usfstl_vhost_user_dev_int) (q : virtq) (head : Z)
    (ds : list vdesc) (vs : list iovec) : Prop := {
  qb_idx : range_mapped m (avail (virtq_ q) + 2) 2;
  qb_more : rd m 2 (avail (virtq_ q) + 2) ≠ last_avail_idx q;
  qb_num : num (virtq_ q) ≠ 0;
  qb_ring : let a := avail (virtq_ q) + 4 + 2 * (last_avail_idx q mod num (virtq_ q)) in
            range_mapped m a 2 ∧ rd m 2 a = head;
  qb_head : head < num (virtq_ q);
  qb_chain : chain m (virtq_ q) head ds;
  qb_len : Z.of_nat (length ds) < 2^32;
  qb_iovs : mapM (iov_of d) ds = Some vs;
}.

(** The buffer that is used: the fixed one where it is large enough. *)
Definition buf_for (fixed : option usfstl_vhost_user_buf) (ds : list vdesc) : usfstl_vhost_user_buf :=
  match fixed with
  | Some b =>
      if (count_if is_write ds >? n_in_sg b) || (count_if (λ x, negb (is_write x)) ds >? n_out_sg b)
      then Buf 0 0 [] [] 0 0 0 true else b
  | None => Buf 0 0 [] [] 0 0 0 true
  end.

Definition got (b : usfstl_vhost_user_buf) (i head : Z) (ds : list vdesc) (vs : list iovec)
    : usfstl_vhost_user_buf :=
  Buf (count_if is_write ds) (count_if (λ x, negb (is_write x)) ds)
    (pick is_write ds vs) (pick (λ x, negb (is_write x)) ds vs) (written b) i head (allocated b).

Definition taken (q : virtq) : virtq := q <| last_avail_idx := u16 (last_avail_idx q + 1) |>.

Lemma get_virtq_buf_run (w : VW) d i q fixed head ds vs fuel :
  v_dev (env w) = Some d → regions_ok d → virtq_at d i q →
  queue_buf (v_mem (env w)) d q head ds vs → v_calloc_ok (env w) = true → (length ds ≤ fuel)%nat →
  usfstl_vhost_user_get_virtq_buf fuel i fixed w =
  Ok (Some (got (buf_for fixed ds) i head ds vs), with_dev w (with_virtq d i (taken q))).
Proof.
  intros Hd Hr Hq [H1 H2 H3 [H4 H4'] H5 H6 H7 H8] Hc Hf.
  unfold usfstl_vhost_user_get_virtq_buf. erewrite bind_ok by (by apply (get_virtq_run w d)).
  erewrite bind_ok by (by apply ld_run). rewrite (proj2 (Z.eqb_neq _ _) H2).
  erewrite bind_ok by (by apply (upd_virtq_run w d)).
  rewrite (proj2 (Z.eqb_neq _ _) H3). erewrite bind_ok by done.
  set (w1 := with_dev w _). change (v_mem (env w)) with (v_mem (env w1)) in *.
  erewrite bind_ok by (by apply ld_run). rewrite H4'.
  rewrite (proj2 (Z.ltb_lt _ _) H5). erewrite bind_ok by done.
  erewrite bind_ok by (apply (count_chain_run w1 _ _ ds); [done..|lia|lia]).
  rewrite !Z.add_0_l. erewrite bind_ok by done.
  change (v_calloc_ok (env w1)) with (v_calloc_ok (env w)). rewrite Hc.
  erewrite (bind_ok _ _ _ (Some (buf_for fixed ds)) w1).
  2:{ unfold buf_for. destruct fixed as [b|]; [|done]. by destruct (_ || _). }
  unfold fmap, M_fmap.
  erewrite (fill_chain_run w1 (with_virtq d i (taken q)) _ _ ds); [|done|done|done|done|by rewrite iovs_of_virtq].
  do 3 f_equal. rewrite fold_add_iov by (by eapply length_mapM). by destruct (buf_for fixed ds).
Qed.

(** ** Giving buffers back *)

Definition with_mem (w : VW) (m : mem) : VW := w <| env := (env w) <| v_mem := m |> |>.

Lemma st_run (w : VW) n a v : range_mapped (v_mem (env w)) a (Z.of_nat n) →
  st n a v w = Ok (tt, with_mem w (poke (v_mem (env w)) a (le_split n v))).
Proof. intros H. unfold st. apply on_mem_run. apply store_poke. by rewrite le_split_length. Qed.

Lemma rd_poke m n a v : rd (poke m a (le_split n v)) n a = v mod 2 ^ (8 * Z.of_nat n).
Proof.
  unfold rd. pose proof (peek_poke_same m a (le_split n v)) as H. rewrite le_split_length in H.
  by rewrite H, le_combine_split.
Qed.

Lemma rd_poke_ne m n a k b v : a + Z.of_nat n ≤ b ∨ b + Z.of_nat k ≤ a →
  rd (poke m b (le_split k v)) n a = rd m n a.
Proof. intros H. unfold rd. rewrite peek_poke_disjoint; [done|]. rewrite le_split_length. lia. Qed.

(** Memory after an element was put in the used ring and its index advanced. *)
Definition used_put (m : mem) (q : vring) (id len : Z) : mem :=
  let u := rd m 2 (used q + 2) in
  let a := used q + 4 + 8 * (u mod num q) in
  poke (poke (poke m a (le_split 4 id)) (a + 4) (le_split 4 len)) (used q + 2) (le_split 2 (u + 1)).

(** The used ring is mapped. *)
Definition used_mapped (m : mem) (q : vring) : Prop := range_mapped m (used q) (4 + 8 * num q).

Lemma used_put_reads m q id len : 0 < num q →
  let u := rd m 2 (used q + 2) in
  let a := used q + 4 + 8 * (u mod num q) in
  let m' := used_put m q id len in
  rd m' 4 a = u32 id ∧ rd m' 4 (a + 4) = u32 len ∧ rd m' 2 (used q + 2) = u16 (u + 1).
Proof.
  intros Hn u a m'. pose proof (Z.mod_pos_bound u (num q) Hn). subst a m'. unfold used_put. fold u.
  split_and!.
  - rewrite !rd_poke_ne by lia. apply rd_poke.
  - rewrite rd_poke_ne by lia. apply rd_poke.
  - apply rd_poke.
Qed.

Lemma used_put_outside m q id len a : 0 < num q →
  ¬ (used q ≤ a < used q + (4 + 8 * num q)) → used_put m q id len !! a = m !! a.
Proof.
  intros Hn Ha. unfold used_put. pose proof (Z.mod_pos_bound (rd m 2 (used q + 2)) (num q) Hn).
  rewrite !poke_lookup, !le_split_length. by rewrite !bool_decide_false by lia.
Qed.

Lemma used_put_mapped m q id len a : is_Some (m !! a) → is_Some (used_put m q id len !! a).
Proof.
  intros H. unfold used_put. assert (range_mapped m a 1) as Hm.
  { intros i Hi. by replace i with a by lia. }
  by apply (poke_mapped _ _ _ a 1); [do 2 apply poke_mapped|lia].
Qed.

(** Without a controller and with a call descriptor, the other side is notified
    by an event. *)
Definition notified (w : VW) (fd : Z) : VW :=
  w <| env := (env w) <| v_calls := v_calls (env w) ++ [fd] |> |>.

Lemma send_virtq_buf_run `{VE : VhostEnv} server (w : VW) d i q buf :
  v_dev (env w) = Some d → virtq_at d i q → server_has_ctrl server = false →
  0 < num (virtq_ q) → used_mapped (v_mem (env w)) (virtq_ q) → 0 ≤ call_fd q →
  usfstl_vhost_user_send_virtq_buf server buf i w =
  Ok (tt, notified (with_mem w (used_put (v_mem (env w)) (virtq_ q) (buf_idx buf) (written buf))) (call_fd q)).
Proof.
  intros Hd Hq Hs Hn Hu Hc. unfold usfstl_vhost_user_send_virtq_buf.
  erewrite bind_ok by (by apply (get_virtq_run w d)). rewrite Hs. erewrite bind_ok by done.
  erewrite bind_ok by (by apply (get_virtq_run w d)).
  erewrite bind_ok by (apply ld_run; eapply range_mapped_sub; [done|lia|lia]).
  replace (num (virtq_ q) =? 0) with false by lia. erewrite bind_ok by done.
  set (u := rd (v_mem (env w)) 2 (used (virtq_ q) + 2)).
  pose proof (Z.mod_pos_bound u (num (virtq_ q)) Hn) as Hb.
  assert (∀ a bs, used_mapped (poke (v_mem (env w)) a bs) (virtq_ q)) as Hu1 by (intros; by apply poke_mapped).
  erewrite bind_ok by (apply st_run; eapply range_mapped_sub; [exact Hu|lia|lia]).
  erewrite bind_ok by (apply st_run; eapply range_mapped_sub; [apply Hu1|lia|lia]).
  erewrite bind_ok by (apply st_run; eapply range_mapped_sub; [apply poke_mapped, Hu1|lia|lia]).
  set (w3 := with_mem _ _). assert (v_dev (env w3) = Some d) as Hd3 by done.
  erewrite bind_ok by (by apply get_dev_run).
  replace (call_fd q <? 0) with false by lia. cbn [andb].
  erewrite bind_ok by (by apply (get_virtq_run w3 d)).
  replace (0 <=? call_fd q) with true by lia. by erewrite bind_ok by done.
Qed.

(** A queue whose buffers are to be filled: data go to memory apart from the
    used ring. *)
Definition apart_from_used (q : vring) (vs : list iovec) : Prop :=
  ∀ a, in_iov vs a → ¬ (used q ≤ a < used q + (4 + 8 * num q)).

Definition all_write (ds : list vdesc) : Prop := Forall (λ x, is_write x = true) ds.

Lemma pick_all ds : ∀ vs, all_write ds → length ds = length vs → pick is_write ds vs = vs.
Proof.
  induction ds as [|x ds IH]; intros [|v vs] Ha Hl; try done.
  inversion Ha as [|? ? Hx Ha']; subst. rewrite pick_cons, Hx. f_equal. apply IH; [done|]. cbn in Hl. lia.
Qed.

Lemma count_all ds : all_write ds →
  count_if is_write ds = Z.of_nat (length ds) ∧ count_if (λ x, negb (is_write x)) ds = 0.
Proof.
  induction 1 as [|x ds Hx _ [IH1 IH2]]; [done|]. rewrite !count_if_cons, Hx, IH1, IH2. cbn. lia.
Qed.

Lemma iov_fill_w (w : VW) vs data : iov_ok (v_mem (env w)) vs →
  on_mem (iov_fill vs data) w =
  Ok (Z.min (Z.of_nat (length data)) (iov_total vs), with_mem w (filled (v_mem (env w)) vs data)).
Proof. intros H. apply on_mem_run. by apply iov_fill_run. Qed.

(** The final world of a notification. *)
Definition delivered (w : VW) (d : usfstl_vhost_user_dev_int) (i : Z) (q : virtq) (head : Z)
    (vs : list iovec) (data : list Z) : VW :=
  notified (with_mem (with_dev w (with_virtq d i (taken q)))
    (used_put (filled (v_mem (env w)) vs data) (virtq_ q) head (Z.of_nat (length data)))) (call_fd q).

Lemma chain_nonempty m q i ds : chain m q i ds → ds ≠ [].
Proof. by destruct 1. Qed.

Lemma dev_notify_run `{VE : VhostEnv} server (w : VW) d i q head ds vs data fuel :
  v_dev (env w) = Some d → regions_ok d → virtq_at d i q → i ≤ max_queues server →
  server_has_ctrl server = false → enabled q = true → 0 ≤ call_fd q → 0 < num (virtq_ q) →
  queue_buf (v_mem (env w)) d q head ds vs → all_write ds → v_calloc_ok (env w) = true →
  iov_ok (v_mem (env w)) vs → used_mapped (v_mem (env w)) (virtq_ q) → (length ds ≤ fuel)%nat →
  usfstl_vhost_user_dev_notify server fuel i data w = Ok (tt, delivered w d i q head vs data).
Proof.
  intros Hd Hr Hq Hi Hs He Hcf Hn Hqb Haw Hca Hok Hu Hf.
  unfold usfstl_vhost_user_dev_notify. replace (i <=? max_queues server) with true by lia.
  erewrite bind_ok by done. erewrite bind_ok by (by apply (get_virtq_run w d)). rewrite He. cbn [negb].
  erewrite bind_ok by (by eapply (get_virtq_buf_run w d)).
  destruct (count_all ds Haw) as [Hc1 Hc2]. pose proof (chain_nonempty _ _ _ _ (qb_chain _ _ _ _ _ _ Hqb)) as Hne.
  set (w1 := with_dev w _). set (b := got _ _ _ _ _).
  assert (n_in_sg b = Z.of_nat (length ds) ∧ n_out_sg b = 0 ∧ in_sg b = vs) as (-> & -> & ->).
  { split_and!; [done..|]. apply pick_all; [done|]. by eapply length_mapM, qb_iovs. }
  replace (Z.of_nat (length ds) =? 0) with false by (destruct ds; [done|cbn; lia]).
  erewrite bind_ok by done.
  erewrite bind_ok by (by apply iov_fill_w).
  destruct Hq as [Hi0 Hq].
  rewrite (send_virtq_buf_run _ _ (with_virtq d i (taken q)) i (taken q)); [done|done| |done|done| |done].
  - split; [done|]. unfold with_virtq. cbn. rewrite list_lookup_insert_eq; [done|]. by eapply lookup_lt_Some.
  - intros a Ha. cbn. apply filled_mapped. by apply Hu.
Qed.

(** C27. Data given to [usfstl_vhost_user_dev_notify] reach the other side: with a
    buffer in the queue whose descriptors are all writeable, the call returns,
    reading the buffer's memory gives the data (as much as there is room for),
    the used ring gets one element more, with the head of the chain and the
    number of bytes, the available entry is consumed, and the other side is
    notified once. *)
Theorem dev_notify_delivers `{VE : VhostEnv} server (w : VW) d i q head ds vs data fuel :
  v_dev (env w) = Some d → regions_ok d → virtq_at d i q → i ≤ max_queues server →
  server_has_ctrl server = false → enabled q = true → 0 ≤ call_fd q → 0 < num (virtq_ q) →
  queue_buf (v_mem (env w)) d q head ds vs → all_write ds → v_calloc_ok (env w) = true →
  iov_ok (v_mem (env w)) vs → used_mapped (v_mem (env w)) (virtq_ q) →
  apart_from_used (virtq_ q) vs → (length ds ≤ fuel)%nat →
  let u := rd (v_mem (env w)) 2 (used (virtq_ q) + 2) in
  let a := used (virtq_ q) + 4 + 8 * (u mod num (virtq_ q)) in
  let n := Z.min (Z.of_nat (length data)) (iov_total vs) in
  ∃ w', usfstl_vhost_user_dev_notify server fuel i data w = Ok (tt, w') ∧
    let m := v_mem (env w') in
    iov_read n vs m = Ok (take (Z.to_nat n) data, m) ∧
    rd m 4 a = u32 head ∧ rd m 4 (a + 4) = u32 (Z.of_nat (length data)) ∧
    rd m 2 (used (virtq_ q) + 2) = u16 (u + 1) ∧
    v_dev (env w') = Some (with_virtq d i (taken q)) ∧
    v_calls (env w') = v_calls (env w) ++ [call_fd q].
Proof.
  intros Hd Hr Hq Hi Hs He Hcf Hn Hqb Haw Hca Hok Hu Hap Hf u a n.
  exists (delivered w d i q head vs data). split; [by eapply dev_notify_run|].
  assert (rd (filled (v_mem (env w)) vs data) 2 (used (virtq_ q) + 2) = u) as Hu'.
  { unfold rd. erewrite peek_ext; [done|]. intros b Hb. apply filled_outside. intros Hin.
    by apply (Hap b); [|lia]. }
  set (m1 := filled (v_mem (env w)) vs data) in *.
  pose proof (used_put_reads m1 (virtq_ q) head (Z.of_nat (length data)) Hn) as (R1 & R2 & R3).
  rewrite Hu' in R1, R2, R3. cbn zeta. split_and!; [|done..].
  assert (iov_ok m1 vs) as Hok1 by (by apply (iov_ok_mono (v_mem (env w))); [apply filled_mapped|]).
  pose proof (iov_total_nonneg _ _ Hok) as Ht.
  destruct (iov_read_run vs m1 n Hok1 ltac:(lia)) as (bs & Hrun & _ & Hext).
  pose proof (iov_read_filled vs (v_mem (env w)) data Hok) as Hrd. fold m1 n in Hrd.
  rewrite Hrd in Hrun. injection Hrun as <-. apply Hext.
  - apply (iov_ok_mono m1); [|done]. intros b Hb. by apply used_put_mapped.
  - intros b Hb. apply used_put_outside; [done|]. by apply Hap.
Qed.

(** A device with one queue of four descriptors; its first buffer has eight and
    four bytes. *)
#[local] Instance demo_env : VhostEnv := {|
  op_connected := mret tt;
  op_handle b _ := mret b;
  op_disconnected := mret tt;
  ctrl_sync_to := mret tt;
  ctrl_sync_from := mret tt;
  loop_until_readable _ := mret tt;
|}.

Definition demo_server : usfstl_vhost_user_server := Server 0 1 false 1 None false 0 0 None.
Definition demo_vring : vring := Vring 4 65536 65600 65632.
Definition demo_queue : virtq := Virtq (-1) false true false demo_vring 7 0.
Definition demo_dev : usfstl_vhost_user_dev_int :=
  Dev 100 3 true 0 0 1 [Region 0 4096 8192 0; Region 0 0 0 0] [5; -1] [65536; 0] (-1) [demo_queue].
Definition demo_desc (addr len flags next : Z) : list Z :=
  le_split 8 addr ++ le_split 4 len ++ le_split 2 flags ++ le_split 2 next.
Definition demo_mem : mem :=
  poke (poke (poke ∅ 65536 (replicate 200 0)) 65536 (demo_desc 8352 8 3 1 ++ demo_desc 8368 4 2 0))
    65602 [1; 0; 0; 0].
Definition demo_world (m : mem) : VW := World ∅ ∅ (VEnv (Some demo_dev) m [] [] [] true [] [] []).
Definition demo_descs : list vdesc := [VDesc 8352 8 3 1; VDesc 8368 4 2 0].
Definition demo_iovs : list iovec := [Iovec 65696 8; Iovec 65712 4].

Lemma demo_iov_ok : iov_ok demo_mem demo_iovs.
Proof.
  unfold demo_iovs. cbn [iov_ok iov_len iov_base]. split_and!; try lia; try done.
  1, 3: apply range_mapped_b_true; vm_compute; reflexivity.
  constructor; [left; unfold iov_end; cbn; lia|constructor].
Qed.

Lemma demo_chain : chain demo_mem demo_vring 0 demo_descs.
Proof.
  apply (chain_next demo_mem demo_vring 0 [VDesc 8368 4 2 0]);
    [apply range_mapped_b_true; vm_compute; reflexivity|vm_compute; reflexivity|].
  apply (chain_end demo_mem demo_vring 1); [apply range_mapped_b_true|]; vm_compute; reflexivity.
Qed.

Lemma demo_queue_buf : queue_buf demo_mem demo_dev demo_queue 0 demo_descs demo_iovs.
Proof.
  constructor.
  - apply range_mapped_b_true. vm_compute. reflexivity.
  - vm_compute. discriminate.
  - discriminate.
  - split; [apply range_mapped_b_true|]; vm_compute; reflexivity.
  - reflexivity.
  - apply demo_chain.
  - reflexivity.
  - vm_compute. reflexivity.
Qed.

Lemma demo_used : used_mapped demo_mem demo_vring.
Proof. apply range_mapped_b_true. vm_compute. reflexivity. Qed.

Lemma demo_apart : apart_from_used demo_vring demo_iovs.
Proof.
  intros a (v & Hv & Ha). assert (v = Iovec 65696 8 ∨ v = Iovec 65712 4) as Hv' by set_solver.
  unfold iov_end in Ha. destruct Hv' as [->| ->]; cbn in *; lia.
Qed.

Lemma iov_fill_read_roundtrip_witness :
  ∃ m', iov_fill demo_iovs [1; 2; 3; 4; 5; 6; 7; 8; 9; 10] demo_mem = Ok (10, m') ∧
    iov_read 10 demo_iovs m' = Ok ([1; 2; 3; 4; 5; 6; 7; 8; 9; 10], m').
Proof.
  destruct (iov_fill_read_roundtrip demo_mem demo_iovs [1; 2; 3; 4; 5; 6; 7; 8; 9; 10] demo_iov_ok)
    as (m' & H1 & H2 & _).
  exists m'. split; [exact H1|exact H2].
Defined.

Lemma dev_notify_delivers_witness :
  ∃ w', usfstl_vhost_user_dev_notify demo_server 2 0 [1; 2; 3; 4; 5; 6; 7; 8; 9; 10] (demo_world demo_mem) =
        Ok (tt, w') ∧ v_calls (env w') = [7].
Proof.
  destruct (dev_notify_delivers demo_server (demo_world demo_mem) demo_dev 0 demo_queue 0 demo_descs demo_iovs
              [1; 2; 3; 4; 5; 6; 7; 8; 9; 10] 2 eq_refl ltac:(split_and!; cbn; lia)
              (conj (Z.le_refl 0) eq_refl) ltac:(cbn; lia) eq_refl eq_refl ltac:(cbn; lia) ltac:(cbn; lia)
              demo_queue_buf ltac:(repeat constructor) eq_refl demo_iov_ok demo_used demo_apart (le_n 2))
    as (w' & H1 & _ & _ & _ & _ & _ & H2).
  exists w'. split; [exact H1|exact H2].
Defined.

(** ** Replies *)

Lemma concat_advance iov : ∀ n, concat (advance_iov n iov) = drop n (concat iov).
Proof.
  induction iov as [|v iov IH]; intros n; cbn; [by rewrite drop_nil|].
  rewrite IH, drop_app, length_take. f_equal. destruct (decide (n ≤ length v)%nat).
  - by replace (n - Nat.min n (length v))%nat with (n - length v)%nat by lia.
  - by rewrite Nat.min_r by lia.
Qed.

Lemma concat_cut iov : ∀ n, concat (cut_iov n iov) = take n (concat iov).
Proof.
  induction iov as [|v iov IH]; intros n; cbn; [by rewrite take_nil|].
  destruct (Nat.eqb_spec n 0) as [->|Hn]; [done|]. cbn. rewrite IH, take_app, length_take. f_equal.
  f_equal. lia.
Qed.

(** The world after parts of a message were sent. *)
Definition sent (w : VW) (fd : Z) (parts : list (list Z)) (rest : list Z) : VW :=
  w <| env := (env w) <| v_accepts := rest |> <| v_out := v_out (env w) ++ map (pair fd) parts |> |>.

Lemma reply_loop_run fuel : ∀ (w : VW) fd iov,
  Forall (λ l, 0 < l) (v_accepts (env w)) →
  (length (concat iov) ≤ length (v_accepts (env w)))%nat → (length (concat iov) ≤ fuel)%nat →
  ∃ parts rest, reply_loop fuel fd (length (concat iov)) iov w = Ok (true, sent w fd parts rest) ∧
    concat parts = concat iov.
Proof.
  induction fuel as [|fuel IH]; intros w fd iov Hacc Hlen Hf.
  all: cbn [reply_loop]; destruct (Nat.eqb_spec (length (concat iov)) 0) as [H0|H0].
  1, 3: exists [], (v_accepts (env w)); split;
    [unfold sent; cbn; rewrite app_nil_r; by destruct w as [? ? []]|by apply nil_length_inv in H0].
  { lia. }
  destruct (v_accepts (env w)) as [|l rest] eqn:Ha; [cbn in Hlen; lia|].
  inversion Hacc as [|? ? Hl Hrest]; subst. erewrite bind_ok by done. rewrite Ha. erewrite bind_ok by done.
  replace (l <? 0) with false by lia. replace (l =? 0) with false by lia. erewrite bind_ok by done.
  erewrite bind_ok by done. cbn zeta. set (n := Nat.min (Z.to_nat l) (length (concat iov))).
  set (w1 := set_field _ _). replace (length (concat iov) - n)%nat with (length (concat (advance_iov n iov)))
    by (rewrite concat_advance, length_drop; done).
  destruct (IH w1 fd (advance_iov n iov)) as (parts & r & Hrun & Hcat).
  - done.
  - rewrite concat_advance, length_drop. cbn in *. lia.
  - rewrite concat_advance, length_drop. lia.
  - exists (take n (concat iov) :: parts), r. split.
    + etransitivity; [exact Hrun|]. unfold sent. cbn. rewrite <- app_assoc. done.
    + cbn. by rewrite Hcat, concat_advance, take_drop.
Qed.

(** The header of a reply. *)
Definition reply_hdr (hdr : vhost_user_msg_hdr) (reply_len : Z) : vhost_user_msg_hdr :=
  Hdr (request hdr)
    (Z.lor (Z.ldiff (hdr_flags hdr) VHOST_USER_MSG_FLAGS_NEED_REPLY) VHOST_USER_MSG_FLAGS_REPLY) reply_len.

(** However the socket splits a reply, its bytes are sent completely and in
    order: the header of the request with the reply flag and without the one
    that asks for a reply, and [reply_len] bytes of payload and data. *)
Theorem send_reply_whole `{VE : VhostEnv} server (w : VW) d hdr reply_len payload data :
  v_dev (env w) = Some d → 0 ≤ reply_len ≤ Z.of_nat (length (payload ++ data)) →
  Forall (λ l, 0 < l) (v_accepts (env w)) →
  reply_len + sizeof_hdr ≤ Z.of_nat (length (v_accepts (env w))) →
  ∃ parts rest,
    send_reply server hdr reply_len payload data w = Ok (tt, sent w (entry_fd d) parts rest) ∧
    concat parts = hdr_bytes (reply_hdr hdr reply_len) ++ take (Z.to_nat reply_len) (payload ++ data).
Proof.
  intros Hd Hr Hacc Hlen. unfold sizeof_hdr in *. unfold send_reply.
  erewrite bind_ok by (by apply get_dev_run). fold (reply_hdr hdr reply_len).
  set (h := reply_hdr hdr reply_len). set (total := Z.to_nat (reply_len + sizeof_hdr)).
  set (iov := cut_iov total [hdr_bytes h; payload; data]).
  assert (length (hdr_bytes h) = 12%nat) as Hh by (unfold hdr_bytes; rewrite !length_app, !le_split_length; done).
  assert (concat iov = hdr_bytes h ++ take (Z.to_nat reply_len) (payload ++ data)) as Hcat.
  { unfold iov. rewrite concat_cut. cbn [concat]. rewrite app_nil_r, take_app_ge by (unfold total, sizeof_hdr; lia).
    rewrite Hh. do 2 f_equal. unfold total, sizeof_hdr. lia. }
  assert (length (concat iov) = total) as Hl.
  { rewrite Hcat, length_app, length_take, Hh. unfold total, sizeof_hdr. lia. }
  destruct (reply_loop_run (S total) w (entry_fd d) iov) as (parts & rest & Hrun & Hp); [done| |lia|].
  { rewrite Hl. unfold total, sizeof_hdr. lia. }
  rewrite Hl in Hrun. exists parts, rest. erewrite bind_ok by exact Hrun. by rewrite Hp.
Qed.

Lemma send_reply_whole_witness :
  let w := World ∅ ∅ (VEnv (Some demo_dev) ∅ [] [] (replicate 20 3) true [] [] []) in
  ∃ parts rest,
    send_reply demo_server (Hdr 1 9 0) 8 (le_split 8 7) [] w = Ok (tt, sent w 3 parts rest) ∧
    concat parts = hdr_bytes (Hdr 1 5 8) ++ le_split 8 7.
Proof.
  exact (send_reply_whole demo_server (World ∅ ∅ (VEnv (Some demo_dev) ∅ [] [] (replicate 20 3) true [] [] []))
           demo_dev (Hdr 1 9 0) 8 (le_split 8 7) [] eq_refl ltac:(cbn; lia)
           ltac:(cbn; repeat constructor) ltac:(unfold sizeof_hdr; cbn; lia)).
Defined.

(** ** Messages the handler does not survive *)

(** A descriptor that is its own successor: the walk over the chain of an
    available buffer does not end, whatever the fuel. *)
Theorem cyclic_chain_never_ends (w : VW) q i :
  range_mapped (v_mem (env w)) (desc q + 16 * i) 16 →
  has_next (desc_at (v_mem (env w)) q i) = true → d_next (desc_at (v_mem (env w)) q i) = i →
  ∀ fuel n_in n_out, count_chain fuel q i n_in n_out w = Err OutOfFuel.
Proof.
  intros Hm Hn Hnext fuel. induction fuel as [|fuel IH]; intros n_in n_out; cbn [count_chain]; [done|].
  unfold desc_flags, desc_next.
  erewrite bind_ok by (apply ld_run; eapply range_mapped_sub; [done|lia|lia]).
  erewrite bind_ok by (apply ld_run; eapply range_mapped_sub; [done|lia|lia]).
  change (negb (Z.land (rd _ _ _) VRING_DESC_F_NEXT =? 0)) with (has_next (desc_at (v_mem (env w)) q i)).
  rewrite Hn. change (rd (v_mem (env w)) 2 (desc q + 16 * i + 14)) with (d_next (desc_at (v_mem (env w)) q i)).
  rewrite Hnext. apply IH.
Qed.

Definition cyclic_mem : mem := poke demo_mem 65536 (demo_desc 8352 8 3 0).

Lemma cyclic_mapped : range_mapped cyclic_mem 65536 16.
Proof. apply range_mapped_b_true. vm_compute. reflexivity. Qed.

Lemma cyclic_chain_never_ends_witness : count_chain 1000 demo_vring 0 0 0 (demo_world cyclic_mem) = Err OutOfFuel.
Proof.
  exact (cyclic_chain_never_ends (demo_world cyclic_mem) demo_vring 0 cyclic_mapped
           ltac:(vm_compute; reflexivity) ltac:(vm_compute; reflexivity) 1000 0 0).
Defined.

(** No device yet, with the messages to come. *)
Definition fresh_world (input : list (Z * vhost_input)) : VW :=
  World ∅ ∅ (VEnv None ∅ input [] [] true [] [] []).

(** A connection on descriptor 3 and [n] messages. *)
Fixpoint demo_session (n : nat) : M VW unit :=
  match n with
  | O => usfstl_vhost_user_connected demo_server 3 100
  | S n => demo_session n;; usfstl_vhost_user_handle_msg demo_server (env_bottom (E := venv)) 0 0
  end.

(** [USFSTL_ASSERT(virtq <= max_queues)] lets the queue number one past the
    last one through: a message that sets its kick descriptor makes the device
    access the array of queues out of its bounds. *)
Theorem kick_queue_out_of_bounds :
  demo_session 1 (fresh_world [(3, VMsg (Hdr VHOST_USER_SET_VRING_KICK 1 8) (le_split 8 1) [9])]) =
  Err OutOfBounds.
Proof. vm_compute. reflexivity. Qed.

(** Taking the kick descriptor of a queue away leaves it in the entry: when the
    other side closes the connection afterwards, the entry is unregistered a
    second time, through the NULL links of its list element. *)
Theorem kick_removed_then_closed :
  demo_session 3 (fresh_world
    [(3, VMsg (Hdr VHOST_USER_SET_VRING_KICK 1 8) (le_split 8 0) [9]);
     (3, VMsg (Hdr VHOST_USER_SET_VRING_KICK 1 8) (le_split 8 VHOST_USER_U64_NO_FD) []);
     (3, VClosed)]) = Err NullDeref.
Proof. vm_compute. reflexivity. Qed.
