(* ===== verification/SharedMem.v ===== *)
(** * Shared memory of multi-participant tests (src/multi-shared-mem.c)

    Every participant has its own copy of the shared sections and a message
    with its notion of the others' copies.  The message is the list of bytes
    that is sent: for each section its name (32 bytes), its size (4 bytes) and
    its contents.  Section names are the padded C strings of
    [USFSTL_SHARED_MEM_SECTION]. *)
From S2P Require Import Prelude Util Bytes.

(** ** Data *)
Definition name_len : nat := 32.
Definition hdr_len : nat := 36.

(** A section with its contents, the memory from [p_start] to [p_stop]. *)
Record usfstl_shared_mem_section := Section_ { sec_name : list Z; sec_data : list Z }.

Definition SECTION_SIZE (s : usfstl_shared_mem_section) : Z := u32 (Z.of_nat (length (sec_data s))).

Definition PARTICIPANT_WAITING : Z := 1.
Definition PARTICIPANT_SHARED_MEM_OUTDATED : Z := 2.

Record shm_participant := Participant { p_binary : bool; p_flags : Z }.
#[export] Instance shm_participant_settable : Settable shm_participant := λ r, Participant (p_binary r) (p_flags r).

(** [msg] are the bytes of [g_usfstl_sched_req_and_wait_msg->shared_mem] that
    are allocated, [msg_size] is [g_usfstl_shared_mem_msg_size].  What the C
    allocator does is given: whether it succeeds, and the bytes found in new
    memory. *)
Record shm := Shm {
  shms : list (option usfstl_shared_mem_section);
  msg : list Z;
  msg_size : Z;
  shared_mem_dirty : bool;
  participants : list (option shm_participant);
  local_flags : Z;
  current_test : bool;
  realloc_ok : bool;
  junk : Z;
}.
#[export] Instance shm_settable : Settable shm := λ r,
  Shm (shms r) (msg r) (msg_size r) (shared_mem_dirty r) (participants r) (local_flags r) (current_test r)
    (realloc_ok r) (junk r).

(** [strncmp(a, b, n) == 0]. *)
Fixpoint strneq (n : nat) (a b : list Z) : bool :=
  match n with
  | O => true
  | S n =>
      match a, b with
      | x :: a, y :: b => (x =? y) && ((x =? 0) || strneq n a b)
      | _, _ => false
      end
  end.

(** The fields of the section at [pos] of a message. *)
Definition name_at (m : list Z) (pos : nat) : list Z := take name_len (drop pos m).
Definition size_at (m : list Z) (pos : nat) : nat := Z.to_nat (le_combine (take 4 (drop (pos + name_len) m))).
Definition buf_at (m : list Z) (pos : nat) : list Z := take (size_at m pos) (drop (pos + hdr_len) m).

(** The condition of [for_each_msg_section], for a message of [size] bytes. *)
Definition section_fits (m : list Z) (size pos : nat) : bool :=
  (pos + hdr_len <=? size)%nat && (pos + hdr_len + size_at m pos <=? size)%nat.

(** [for_each_msg_section]: where the iteration ends. *)
Fixpoint each_section {S : Type} (fuel : nat) (m : list Z) (size pos : nat) (body : nat → M S unit) : M S nat :=
  match fuel with
  | O => fail OutOfFuel
  | S fuel =>
      if section_fits m size pos
      then body pos;; each_section fuel m size (pos + hdr_len + size_at m pos) body
      else mret pos
  end.

Definition for_each_msg_section {S : Type} (m : list Z) (size : nat) (body : nat → M S unit) : M S nat :=
  each_section (Datatypes.S size) m size 0 body.

(** ** Operations *)
Definition usfstl_shared_mem_get_msg_size (is_participant_outdated : bool) : M shm Z :=
  st ← get; mret (if is_participant_outdated then msg_size st else 0).

(** The loop of [usfstl_shared_mem_find_msg_section]. *)
Fixpoint find_section (fuel : nat) (m : list Z) (size pos : nat) (name : list Z) (buf_size : Z)
    : M shm (option nat) :=
  match fuel with
  | O => fail OutOfFuel
  | S fuel =>
      if section_fits m size pos then
        if strneq name_len (name_at m pos) name
        then usfstl_assert (Z.of_nat (size_at m pos) =? buf_size);; mret (Some pos)
        else find_section fuel m size (pos + hdr_len + size_at m pos) name buf_size
      else mret None
  end.

Definition usfstl_shared_mem_find_msg_section (name : list Z) (buf_size : Z) : M shm (option nat) :=
  st ← get;
  find_section (S (Z.to_nat (msg_size st))) (msg st) (Z.to_nat (msg_size st)) 0 name buf_size.

(** A write to the message. *)
Definition msg_write (pos : nat) (bs : list Z) : M shm unit :=
  st ← get;
  if (pos + length bs <=? length (msg st))%nat
  then modify (λ st, st <| msg := take pos (msg st) ++ bs ++ drop (pos + length bs) (msg st) |>)
  else fail OutOfBounds.

(** [usfstl_realloc] of the whole message to [size] bytes, the first eight of
    which are the time. *)
Definition msg_realloc (size : Z) : M shm unit :=
  st ← get;
  usfstl_assert (realloc_ok st);;
  let n := Z.to_nat (size - 8) in
  modify (λ st, st <| msg := take n (msg st) ++ replicate (n - length (msg st)) (junk st) |>).

Definition usfstl_shared_mem_add_msg_section (name : list Z) (buf_size : Z) : M shm nat :=
  st ← get;
  let new_size := u32 (msg_size st + Z.of_nat hdr_len + buf_size) in
  let new_size_req_and_wait := u32 (new_size + 8) in
  msg_realloc new_size_req_and_wait;;
  let section := Z.to_nat (msg_size st) in
  msg_write section (take name_len name);;
  msg_write (section + name_len) (le_split 4 buf_size);;
  modify (λ st, st <| msg_size := new_size |>);;
  mret section.

(** The [n] bytes of the message at [pos]. *)
Definition msg_read (pos n : nat) : M shm (list Z) :=
  st ← get;
  if (pos + n <=? length (msg st))%nat then mret (take n (drop pos (msg st))) else fail OutOfBounds.

Definition usfstl_shared_mem_merge_local_section (s : usfstl_shared_mem_section) : M shm bool :=
  let n := Z.to_nat (SECTION_SIZE s) in
  let buf := take n (sec_data s) in
  section ← usfstl_shared_mem_find_msg_section (sec_name s) (SECTION_SIZE s);
  match section with
  | None =>
      section ← usfstl_shared_mem_add_msg_section (sec_name s) (SECTION_SIZE s);
      msg_write (section + hdr_len) (replicate n 0);;
      old ← msg_read (section + hdr_len) n;
      usfstl_assert (bool_decide (old = buf));;
      mret false
  | Some section =>
      old ← msg_read (section + hdr_len) n;
      if bool_decide (old = buf) then mret false
      else msg_write (section + hdr_len) buf;; mret true
  end.

(** The first local section with that name. *)
Fixpoint find_local (name : list Z) (l : list (option usfstl_shared_mem_section)) : option usfstl_shared_mem_section :=
  match l with
  | [] => None
  | Some s :: l => if strneq name_len (sec_name s) name then Some s else find_local name l
  | None :: l => find_local name l
  end.

Definition usfstl_shared_mem_merge_remote_section (name buf : list Z) (buf_size : Z) : M shm bool :=
  st ← get;
  match find_local name (shms st) with
  | None => mret false
  | Some s =>
      usfstl_assert (SECTION_SIZE s =? buf_size);;
      section ← usfstl_shared_mem_find_msg_section name buf_size;
      section ← match section with
                | Some section => mret section
                | None => usfstl_shared_mem_add_msg_section name buf_size
                end;
      msg_write (section + hdr_len) buf;;
      mret true
  end.

(** The loop of [usfstl_shared_mem_merge_msg] with the value of
    [relevant_merge]: the end of the iteration and that value. *)
Fixpoint merge_loop (fuel : nat) (m : list Z) (size pos : nat) (relevant_merge : bool) : M shm (nat * bool) :=
  match fuel with
  | O => fail OutOfFuel
  | S fuel =>
      if section_fits m size pos then
        r ← usfstl_shared_mem_merge_remote_section (name_at m pos) (buf_at m pos) (Z.of_nat (size_at m pos));
        merge_loop fuel m size (pos + hdr_len + size_at m pos) (relevant_merge || r)
      else mret (pos, relevant_merge)
  end.

Definition usfstl_shared_mem_merge_msg (m : list Z) (size : nat) : M shm bool :=
  '(section, relevant_merge) ← merge_loop (S size) m size 0 false;
  usfstl_assert (section =? size)%nat;;
  mret relevant_merge.

(** [for_each_participant]: those that are run as a program. *)
Definition each_participant (f : shm_participant → shm_participant) : M shm unit :=
  modify (λ st, st <| participants :=
    map (λ o, match o with Some p => Some (if p_binary p then f p else p) | None => None end)
        (participants st) |>).

Definition flag_set (x f : Z) : bool := negb (Z.land x f =? 0).

(** [usfstl_shared_mem_handle_msg] for the message [m]. *)
Definition usfstl_shared_mem_handle_msg (m : list Z) (do_not_mark_dirty : bool) : M shm unit :=
  st ← get;
  if negb (current_test st) then mret tt
  else if (length m =? 0)%nat then mret tt
  else
    each_participant (λ p,
      if flag_set (p_flags p) PARTICIPANT_WAITING
      then p <| p_flags := Z.lor (p_flags p) PARTICIPANT_SHARED_MEM_OUTDATED |> else p);;
    when (negb do_not_mark_dirty) (modify (λ st, st <| shared_mem_dirty := true |>));;
    relevant ← usfstl_shared_mem_merge_msg m (length m);
    when relevant
      (modify (λ st, st <| local_flags := Z.lor (local_flags st) PARTICIPANT_SHARED_MEM_OUTDATED |>)).

(** The inner loop of [usfstl_shared_mem_update_local_view]: [memcpy] to the
    first local section of that name. *)
Fixpoint copy_to_local (name buf : list Z) (l : list (option usfstl_shared_mem_section))
    : M shm (list (option usfstl_shared_mem_section)) :=
  match l with
  | [] => mret []
  | None :: l => l' ← copy_to_local name buf l; mret (None :: l')
  | Some s :: l =>
      if strneq name_len (sec_name s) name then
        usfstl_assert (SECTION_SIZE s =? Z.of_nat (length buf));;
        mret (Some (Section_ (sec_name s) (buf ++ drop (length buf) (sec_data s))) :: l)
      else l' ← copy_to_local name buf l; mret (Some s :: l')
  end.

Definition usfstl_shared_mem_update_local_view : M shm unit :=
  st ← get;
  when (flag_set (local_flags st) PARTICIPANT_SHARED_MEM_OUTDATED)
    (modify (λ st, st <| local_flags := Z.ldiff (local_flags st) PARTICIPANT_SHARED_MEM_OUTDATED |>);;
     for_each_msg_section (msg st) (Z.to_nat (msg_size st)) (λ pos,
       st' ← get;
       l ← copy_to_local (name_at (msg st) pos) (buf_at (msg st) pos) (shms st');
       modify (λ st, st <| shms := l |>));;
     mret tt).

(** The loop of [usfstl_shared_mem_update_msg]. *)
Fixpoint merge_locals (l : list (option usfstl_shared_mem_section)) (modified : bool) : M shm bool :=
  match l with
  | [] => mret modified
  | None :: l => merge_locals l modified
  | Some s :: l => r ← usfstl_shared_mem_merge_local_section s; merge_locals l (modified || r)
  end.

Definition usfstl_shared_mem_update_msg : M shm bool :=
  st ← get; merge_locals (shms st) false.

Definition usfstl_shared_mem_prepare_msg : M shm unit :=
  st ← get;
  usfstl_assert (negb (flag_set (local_flags st) PARTICIPANT_SHARED_MEM_OUTDATED));;
  modified ← usfstl_shared_mem_update_msg;
  when modified
    (each_participant (λ p, p <| p_flags := Z.lor (p_flags p) PARTICIPANT_SHARED_MEM_OUTDATED |>);;
     modify (λ st, st <| shared_mem_dirty := true |>)).
