(* ===== verification/SharedMemProps.v ===== *)
(** * Theorems on the shared memory of multi-participant tests
    (src/multi-shared-mem.c)

    The message is the encoding of a list of named contents; the operations are
    described on that list, and together they bring one participant's contents
    to another. *)
From S2P Require Import Prelude Util Bytes SharedMem.

(** ** Names and entries *)
Definition canonical (n : list Z) : Prop :=
  length n = name_len ∧ ∃ s k, n = s ++ replicate k 0 ∧ 0 ∉ s.

Lemma strneq_padded s : ∀ t k j, 0 ∉ s → 0 ∉ t → (length s + k = length t + j)%nat →
  strneq (length s + k) (s ++ replicate k 0) (t ++ replicate j 0) =
  bool_decide (s ++ replicate k 0 = t ++ replicate j 0).
Proof.
  induction s as [|x s IH]; intros [|y t] k j Hs Ht Hl; cbn -[Z.eqb] in *.
  - subst. rewrite bool_decide_true by done. by destruct j.
  - destruct k as [|k]; [lia|]. assert (y ≠ 0) by set_solver. cbn -[Z.eqb]. replace (0 =? y) with false by lia.
    rewrite bool_decide_false; [done|]. intros [= ?]. lia.
  - destruct j as [|j]; [lia|]. assert (x ≠ 0) by set_solver. cbn -[Z.eqb]. replace (x =? 0) with false by lia.
    rewrite bool_decide_false; [done|]. intros [= ?]. lia.
  - assert (x ≠ 0) by set_solver. replace (x =? 0) with false by lia. cbn -[Z.eqb].
    rewrite IH by (set_solver || lia).
    destruct (Z.eqb_spec x y) as [->|Hxy]; cbn.
    + apply bool_decide_ext. split; [by intros ->|congruence].
    + rewrite bool_decide_false; [done|congruence].
Qed.

Lemma strneq_canonical a b : canonical a → canonical b → strneq name_len a b = bool_decide (a = b).
Proof.
  intros (Ha & s & k & -> & Hs) (Hb & t & j & -> & Ht). rewrite length_app, length_replicate in *.
  rewrite <- Ha. apply strneq_padded; [done..|lia].
Qed.

(** A section of a message: its name and contents. *)
Definition entry_ok (e : list Z * list Z) : Prop := canonical e.1 ∧ Z.of_nat (length e.2) < 2^32.

Definition encode1 (e : list Z * list Z) : list Z := e.1 ++ le_split 4 (Z.of_nat (length e.2)) ++ e.2.
Definition encode (l : list (list Z * list Z)) : list Z := concat (map encode1 l).

Lemma encode_app l1 l2 : encode (l1 ++ l2) = encode l1 ++ encode l2.
Proof. unfold encode. by rewrite map_app, concat_app. Qed.

Lemma encode_cons e l : encode (e :: l) = encode1 e ++ encode l.
Proof. done. Qed.

Lemma encode1_length e : entry_ok e → length (encode1 e) = (hdr_len + length e.2)%nat.
Proof. intros [[H _] _]. unfold encode1. rewrite !length_app, le_split_length, H. done. Qed.

Lemma encode_length_ge l : Forall entry_ok l → (length l * hdr_len ≤ length (encode l))%nat.
Proof.
  induction 1 as [|e l He _ IH]; [done|]. rewrite encode_cons, length_app, encode1_length by done. cbn in *. lia.
Qed.

(** The fields of the section after the encoding of [l1]. *)
Section fields.
Context (l1 : list (list Z * list Z)) (e : list Z * list Z) (rest : list Z) (He : entry_ok e).
Let m := encode l1 ++ encode1 e ++ rest.
Let pos := length (encode l1).

Lemma name_at_encode : name_at m pos = e.1.
Proof.
  unfold name_at, m, pos. rewrite drop_app_length. unfold encode1. rewrite <- app_assoc.
  destruct He as [[H _] _]. by rewrite take_app_length' by done.
Qed.

Lemma size_at_encode : size_at m pos = length e.2.
Proof.
  unfold size_at, m, pos. destruct He as [[H _] Hl].
  rewrite <- drop_drop, drop_app_length. unfold encode1. rewrite <- app_assoc, drop_app_length' by done.
  rewrite <- app_assoc, take_app_length' by (by rewrite le_split_length). rewrite le_combine_split.
  change (8 * Z.of_nat 4) with 32. lia.
Qed.

Lemma buf_at_encode : buf_at m pos = e.2.
Proof.
  unfold buf_at. rewrite size_at_encode. unfold m, pos. destruct He as [[H _] Hl].
  rewrite <- drop_drop, drop_app_length. unfold encode1. rewrite <- app_assoc.
  change hdr_len with (name_len + 4)%nat. rewrite <- drop_drop, drop_app_length' by done.
  rewrite <- app_assoc, drop_app_length' by (by rewrite le_split_length). by rewrite take_app_length.
Qed.

Lemma fits_encode size : section_fits m size pos = (length (encode l1) + length (encode1 e) <=? size)%nat.
Proof.
  unfold section_fits. rewrite size_at_encode, encode1_length by done. unfold pos.
  apply eq_true_iff_eq. rewrite andb_true_iff, !Nat.leb_le. lia.
Qed.
End fields.

Lemma fits_end m : section_fits m (length m) (length m) = false.
Proof. unfold section_fits. rewrite (proj2 (Nat.leb_gt _ _)); [done|]. unfold hdr_len. lia. Qed.

(** [next_section]: one step of an iteration over a message that starts with
    [encode l1] and continues with [e]. *)
Lemma encode_split l1 e l2 : encode (l1 ++ e :: l2) = encode l1 ++ encode1 e ++ encode l2.
Proof. by rewrite encode_app, encode_cons. Qed.

Lemma next_pos l1 e l2 : entry_ok e →
  (length (encode l1) + hdr_len + size_at (encode (l1 ++ e :: l2)) (length (encode l1)))%nat =
  length (encode (l1 ++ [e])).
Proof.
  intros He. rewrite encode_split, size_at_encode by done. rewrite encode_app, length_app, encode_cons, length_app.
  rewrite encode1_length by done. change (length (encode [])) with 0%nat. lia.
Qed.

Lemma fits_here l1 e l2 : entry_ok e →
  section_fits (encode (l1 ++ e :: l2)) (length (encode (l1 ++ e :: l2))) (length (encode l1)) = true.
Proof.
  intros He. rewrite encode_split, fits_encode by done. apply Nat.leb_le. rewrite !length_app. lia.
Qed.

Lemma name_here l1 e l2 : entry_ok e → name_at (encode (l1 ++ e :: l2)) (length (encode l1)) = e.1.
Proof. intros He. rewrite encode_split. by apply name_at_encode. Qed.

Lemma size_here l1 e l2 : entry_ok e → size_at (encode (l1 ++ e :: l2)) (length (encode l1)) = length e.2.
Proof. intros He. rewrite encode_split. by apply size_at_encode. Qed.

Lemma buf_here l1 e l2 : entry_ok e → buf_at (encode (l1 ++ e :: l2)) (length (encode l1)) = e.2.
Proof. intros He. rewrite encode_split. by apply buf_at_encode. Qed.

(** ** The abstract message *)
Fixpoint alookup (n : list Z) (l : list (list Z * list Z)) : option (list Z) :=
  match l with
  | [] => None
  | e :: l => if bool_decide (e.1 = n) then Some e.2 else alookup n l
  end.

Fixpoint upsert (n d : list Z) (l : list (list Z * list Z)) : list (list Z * list Z) :=
  match l with
  | [] => [(n, d)]
  | e :: l => if bool_decide (e.1 = n) then (n, d) :: l else e :: upsert n d l
  end.

Lemma alookup_upsert n d l : alookup n (upsert n d l) = Some d.
Proof.
  induction l as [|e l IH]; cbn; [by rewrite bool_decide_true|].
  case_bool_decide; cbn; [by rewrite bool_decide_true|by rewrite bool_decide_false].
Qed.

Lemma alookup_upsert_ne n n' d l : n ≠ n' → alookup n' (upsert n d l) = alookup n' l.
Proof.
  intros Hn. induction l as [|e l IH]; cbn; [by rewrite bool_decide_false|].
  case_bool_decide as H; cbn; [subst; by rewrite !bool_decide_false|]. by rewrite IH.
Qed.

Lemma alookup_None n l : alookup n l = None ↔ n ∉ l.*1.
Proof.
  induction l as [|e l IH]; cbn; [set_solver|]. case_bool_decide; [set_solver|]. rewrite IH. set_solver.
Qed.

Lemma alookup_Some n d l : alookup n l = Some d → ∃ a b, l = a ++ (n, d) :: b ∧ n ∉ a.*1.
Proof.
  induction l as [|e l IH]; cbn; [done|]. case_bool_decide as H.
  - intros [= <-]. exists [], l. subst. destruct e. set_solver.
  - intros (a & b & -> & Ha)%IH. exists (e :: a), b. set_solver.
Qed.

Lemma upsert_split a n d d' b : n ∉ a.*1 → upsert n d' (a ++ (n, d) :: b) = a ++ (n, d') :: b.
Proof.
  induction a as [|e a IH]; cbn; intros H; [by rewrite bool_decide_true|].
  rewrite bool_decide_false by set_solver. rewrite IH by set_solver. done.
Qed.

Lemma upsert_new n d l : alookup n l = None → upsert n d l = l ++ [(n, d)].
Proof.
  induction l as [|e l IH]; cbn; [done|]. case_bool_decide; [done|]. intros. by rewrite IH.
Qed.

Lemma upsert_names n d l x : x ∈ (upsert n d l).*1 ↔ x = n ∨ x ∈ l.*1.
Proof. induction l as [|e l IH]; cbn; [set_solver|]. case_bool_decide; set_solver. Qed.

Lemma upsert_nodup n d l : NoDup l.*1 → NoDup (upsert n d l).*1.
Proof.
  induction l as [|e l IH]; cbn; [intros _; apply NoDup_singleton|]. intros [H1 H2]%NoDup_cons.
  case_bool_decide; cbn; [subst; by constructor|]. constructor; [|auto]. rewrite upsert_names. set_solver.
Qed.

Lemma upsert_Forall (P : list Z * list Z → Prop) n d l : P (n, d) → Forall P l → Forall P (upsert n d l).
Proof.
  intros Hp. induction 1 as [|e l He Hl IH]; cbn; [by repeat constructor|]. case_bool_decide; by constructor.
Qed.

Lemma encode_upsert_length n d l :
  (length (encode (upsert n d l)) ≤ length (encode l) + length (encode1 (n, d)))%nat.
Proof.
  induction l as [|e l IH]; cbn [upsert].
  - rewrite encode_cons, length_app. cbn. lia.
  - case_bool_decide; rewrite !encode_cons, !length_app; lia.
Qed.

(** ** Finding a section *)
Lemma find_section_none name sz l2 : ∀ l1 fuel st,
  Forall entry_ok l2 → canonical name → name ∉ l2.*1 → (length l2 < fuel)%nat →
  find_section fuel (encode (l1 ++ l2)) (length (encode (l1 ++ l2))) (length (encode l1)) name sz st =
  Ok (None, st).
Proof.
  induction l2 as [|e l2 IH]; intros l1 [|fuel] st Hok Hn Hin Hf; try (cbn in Hf; lia); cbn [find_section].
  - rewrite app_nil_r. by rewrite fits_end.
  - inversion Hok as [|? ? He Hok']; subst. rewrite fits_here by done. rewrite (next_pos l1 e l2) by done.
    rewrite name_here, strneq_canonical by (done || apply He).
    rewrite bool_decide_false by set_solver. replace (l1 ++ e :: l2) with ((l1 ++ [e]) ++ l2) by (by rewrite <- app_assoc).
    apply IH; [done..|set_solver|cbn in Hf; lia].
Qed.

Lemma find_section_some name d sz b a : ∀ l1 fuel st,
  Forall entry_ok (a ++ (name, d) :: b) → name ∉ a.*1 → (length a < fuel)%nat →
  let l := l1 ++ a ++ (name, d) :: b in
  Z.of_nat (length d) = sz →
  find_section fuel (encode l) (length (encode l)) (length (encode l1)) name sz st =
  Ok (Some (length (encode (l1 ++ a))), st).
Proof.
  induction a as [|e a IH]; intros l1 [|fuel] st Hok Hin Hf l Hsz; try (cbn in Hf; lia); cbn [find_section];
    subst l; inversion Hok as [|? ? He Hok']; subst.
  - cbn [app]. rewrite fits_here by done. rewrite name_here, size_here by done.
    rewrite strneq_canonical, bool_decide_true by (done || apply He). cbn [fst snd]. rewrite Z.eqb_refl.
    by rewrite app_nil_r.
  - cbn [app]. rewrite fits_here by done. rewrite (next_pos l1 e) by done.
    assert (canonical name) as Hn by (apply Forall_app in Hok' as [_ Hf2]; inversion Hf2 as [|? ? [? _]]; done).
    rewrite name_here, strneq_canonical by (done || apply He). rewrite bool_decide_false by set_solver.
    replace (l1 ++ e :: a ++ (name, d) :: b) with ((l1 ++ [e]) ++ a ++ (name, d) :: b) by (by rewrite <- app_assoc).
    rewrite IH by (done || set_solver || (cbn in Hf; lia)). by rewrite <- app_assoc.
Qed.

(** ** Messages that encode a list *)
Record msg_ok (st : shm) (l : list (list Z * list Z)) : Prop := {
  mo_msg : msg st = encode l;
  mo_size : msg_size st = Z.of_nat (length (encode l));
  mo_entries : Forall entry_ok l;
  mo_names : NoDup l.*1;
}.

Definition with_msg (st : shm) (l : list (list Z * list Z)) : shm :=
  st <| msg := encode l |> <| msg_size := Z.of_nat (length (encode l)) |>.

Lemma with_msg_id st l : msg_ok st l → with_msg st l = st.
Proof. intros [H1 H2 _ _]. destruct st. cbn in *. by subst. Qed.

Lemma with_msg_ok st l : Forall entry_ok l → NoDup l.*1 → msg_ok (with_msg st l) l.
Proof. by constructor. Qed.

Lemma fuel_enough l : Forall entry_ok l → (length l < S (length (encode l)))%nat.
Proof. intros H. pose proof (encode_length_ge l H) as Hl. unfold hdr_len in Hl. lia. Qed.

Lemma find_msg_none st l name sz : msg_ok st l → canonical name → alookup name l = None →
  usfstl_shared_mem_find_msg_section name sz st = Ok (None, st).
Proof.
  intros [H1 H2 H3 _] Hn Hl. unfold usfstl_shared_mem_find_msg_section. erewrite bind_ok by done.
  rewrite H1, H2, Nat2Z.id. apply (find_section_none name sz l []); [done..| |by apply fuel_enough].
  by apply alookup_None.
Qed.

Lemma find_msg_some st l name d : msg_ok st l → alookup name l = Some d →
  ∃ a b, l = a ++ (name, d) :: b ∧ (name ∉ a.*1) ∧
    usfstl_shared_mem_find_msg_section name (Z.of_nat (length d)) st = Ok (Some (length (encode a)), st).
Proof.
  intros [H1 H2 H3 _] (a & b & -> & Ha)%alookup_Some. exists a, b. split_and!; [done..|].
  unfold usfstl_shared_mem_find_msg_section. erewrite bind_ok by done. rewrite H1, H2, Nat2Z.id.
  apply (find_section_some name d (Z.of_nat (length d)) b a []); [done..| |done].
  pose proof (fuel_enough _ H3). rewrite length_app in *. cbn in *. lia.
Qed.

(** ** Changing a section *)
Lemma msg_write_run st pos bs : (pos + length bs ≤ length (msg st))%nat →
  msg_write pos bs st = Ok (tt, st <| msg := take pos (msg st) ++ bs ++ drop (pos + length bs) (msg st) |>).
Proof. intros H. unfold msg_write. erewrite bind_ok by done. by rewrite (proj2 (Nat.leb_le _ _) H). Qed.

Lemma msg_read_run st pos n : (pos + n ≤ length (msg st))%nat →
  msg_read pos n st = Ok (take n (drop pos (msg st)), st).
Proof. intros H. unfold msg_read. erewrite bind_ok by done. by rewrite (proj2 (Nat.leb_le _ _) H). Qed.

(** Overwriting the middle of three parts. *)
Lemma splice {A} (x y y' z : list A) : length y = length y' →
  (take (length x) (x ++ y ++ z) ++ y' ++ drop (length x + length y') (x ++ y ++ z))%list = x ++ y' ++ z.
Proof.
  intros H. rewrite take_app_length, <- drop_drop, drop_app_length, drop_app_length' by done. done.
Qed.

Lemma encode_buf_pos a n d b : canonical n →
  encode (a ++ (n, d) :: b) = (encode a ++ n ++ le_split 4 (Z.of_nat (length d))) ++ d ++ encode b ∧
  (length (encode a) + hdr_len)%nat = length (encode a ++ n ++ le_split 4 (Z.of_nat (length d))).
Proof.
  intros [Hn _]. split.
  - rewrite encode_split. unfold encode1. cbn [fst snd]. by rewrite <- !app_assoc.
  - rewrite !length_app, le_split_length, Hn. unfold hdr_len, name_len. lia.
Qed.

Lemma read_section st l a n d b : msg_ok st l → l = a ++ (n, d) :: b → canonical n →
  msg_read (length (encode a) + hdr_len) (length d) st = Ok (d, st).
Proof.
  intros [H1 _ _ _] -> Hn. destruct (encode_buf_pos a n d b Hn) as [E1 E2]. rewrite msg_read_run.
  - rewrite H1, E1, E2, drop_app_length, take_app_length. done.
  - rewrite H1, E1, E2, !length_app. lia.
Qed.

Lemma write_section st l a n d d' b : msg_ok st l → l = a ++ (n, d) :: b → canonical n →
  length d = length d' →
  msg_write (length (encode a) + hdr_len) d' st = Ok (tt, with_msg st (a ++ (n, d') :: b)).
Proof.
  intros [H1 H2 _ _] -> Hn Hl. destruct (encode_buf_pos a n d b Hn) as [E1 E2].
  destruct (encode_buf_pos a n d' b Hn) as [E1' _].
  rewrite msg_write_run. 2:{ rewrite H1, E1, E2, !length_app. lia. }
  assert (length (encode (a ++ (n, d) :: b)) = length (encode (a ++ (n, d') :: b))) as El
    by (rewrite E1, E1', !length_app, !le_split_length; lia).
  rewrite H1, E1, E2, splice by done. rewrite <- Hl in E1'. rewrite <- E1'.
  do 2 f_equal. unfold with_msg. rewrite <- El, <- H2. by destruct st.
Qed.

Definition room (st : shm) (l : list (list Z * list Z)) (n : nat) : Prop :=
  realloc_ok st = true ∧ Z.of_nat (length (encode l) + n) + 8 < 2^32.

Lemma encode1_len n (d : list Z) : canonical n → length (encode1 (n, d)) = (hdr_len + length d)%nat.
Proof. intros [Hn _]. unfold encode1. cbn [fst snd]. by rewrite !length_app, le_split_length, Hn. Qed.

Lemma add_section_run st l n sz : msg_ok st l → canonical n → 0 ≤ sz →
  room st l (hdr_len + Z.to_nat sz) →
  usfstl_shared_mem_add_msg_section n sz st =
  Ok (length (encode l), with_msg st (l ++ [(n, replicate (Z.to_nat sz) (junk st))])).
Proof.
  intros [H1 H2 _ _] Hn Hsz [Hr Hroom]. set (d := replicate (Z.to_nat sz) (junk st)).
  assert (length d = Z.to_nat sz) as Hd by apply length_replicate. pose proof (proj1 Hn) as Hnl.
  unfold usfstl_shared_mem_add_msg_section. erewrite bind_ok by done. rewrite H2.
  assert (u32 (Z.of_nat (length (encode l)) + Z.of_nat hdr_len + sz) =
          Z.of_nat (length (encode l ++ encode1 (n, d)))) as ->.
  { rewrite length_app, encode1_len, Hd by done. unfold u32. lia. }
  assert (u32 (Z.of_nat (length (encode l ++ encode1 (n, d))) + 8) =
          Z.of_nat (length (encode l ++ encode1 (n, d))) + 8) as ->.
  { rewrite length_app, encode1_len, Hd by done. unfold u32. lia. }
  rewrite Nat2Z.id.
  assert (encode (l ++ [(n, d)]) = encode l ++ encode1 (n, d)) as El.
  { rewrite encode_app, encode_cons. cbn. by rewrite app_nil_r. }
  erewrite bind_ok.
  2:{ unfold msg_realloc. erewrite bind_ok by done. rewrite Hr. by erewrite bind_ok by done. }
  rewrite Z.add_simpl_r, Nat2Z.id, H1.
  set (x := (take _ _ ++ _)%list).
  assert (x = encode l ++ replicate (length (encode1 (n, d))) (junk st)) as ->.
  { unfold x. rewrite take_ge by (rewrite length_app; lia). do 2 f_equal. rewrite length_app. lia. }
  rewrite encode1_len by done. rewrite Hd.
  replace (hdr_len + Z.to_nat sz)%nat with (name_len + (4 + Z.to_nat sz))%nat by done.
  rewrite !replicate_add. fold d.
  rewrite take_ge by (rewrite Hnl; done).
  erewrite bind_ok. 2:{ apply msg_write_run. cbn [msg set_field]. rewrite !length_app, Hnl, !length_replicate. lia. }
  cbn [msg set_field]. rewrite (splice (encode l)) by (rewrite length_replicate; done).
  erewrite bind_ok. 2:{ apply msg_write_run. cbn [msg set_field]. rewrite !length_app, le_split_length, Hnl, length_replicate. lia. }
  cbn [msg set_field].
  replace (length (encode l) + name_len)%nat with (length (encode l ++ n)) by (rewrite length_app; lia).
  rewrite (app_assoc (encode l) n), (splice (encode l ++ n)) by (rewrite le_split_length, length_replicate; done).
  erewrite bind_ok by done. unfold mret, M_ret, modify. do 2 f_equal. unfold with_msg. rewrite El.
  unfold encode1. cbn [fst snd]. rewrite Hd, Z2Nat.id, <- !app_assoc by done. by destruct st.
Qed.

(** The effect of both ways to merge: [upsert]. *)
Lemma write_upsert st l n d d' : msg_ok st l → canonical n → alookup n l = Some d → length d = length d' →
  ∃ pos, usfstl_shared_mem_find_msg_section n (Z.of_nat (length d)) st = Ok (Some pos, st) ∧
    msg_read (pos + hdr_len) (length d) st = Ok (d, st) ∧
    msg_write (pos + hdr_len) d' st = Ok (tt, with_msg st (upsert n d' l)).
Proof.
  intros Hok Hn Hl Hd. destruct (find_msg_some st l n d Hok Hl) as (a & b & -> & Ha & Hf).
  exists (length (encode a)). split_and!; [done| |].
  - by eapply read_section.
  - rewrite upsert_split by done. by eapply write_section.
Qed.

Lemma write_new st l n d' : msg_ok st l → canonical n → alookup n l = None →
  room st l (hdr_len + length d') →
  ∃ pos st1, usfstl_shared_mem_add_msg_section n (Z.of_nat (length d')) st = Ok (pos, st1) ∧
    msg_write (pos + hdr_len) d' st1 = Ok (tt, with_msg st (upsert n d' l)).
Proof.
  intros Hok Hn Hl Hr. eexists _, _. split; [eapply add_section_run; try done; [lia|by rewrite Nat2Z.id]|].
  rewrite upsert_new by done. rewrite Nat2Z.id. destruct Hok as [H1 H2 H3 H4].
  erewrite (write_section _ _ l n _ d' []); [done| |done|done|by rewrite length_replicate].
  apply with_msg_ok.
  - apply Forall_app. split; [done|]. repeat constructor; [apply Hn..|]. cbn. rewrite length_replicate.
    destruct Hr as [_ Hr]. lia.
  - rewrite fmap_app. apply NoDup_app. split_and!; [done| |apply NoDup_singleton].
    apply alookup_None in Hl. set_solver.
Qed.

Lemma upsert_ok st l n d : msg_ok st l → canonical n → Z.of_nat (length d) < 2^32 →
  msg_ok (with_msg st (upsert n d l)) (upsert n d l).
Proof. intros [_ _ H3 H4] Hn Hd. apply with_msg_ok; [by apply upsert_Forall|by apply upsert_nodup]. Qed.

(** ** Participants *)

(** The sections that a participant has itself. *)
Definition locals (st : shm) : list usfstl_shared_mem_section := omap id (shms st).

(** Sizes are the same everywhere: [sz] is the size of a section by its name. *)
Record party_ok (sz : list Z → nat) (st : shm) (l : list (list Z * list Z)) : Prop := {
  pa_msg : msg_ok st l;
  pa_sizes : ∀ e, e ∈ l → length e.2 = sz e.1;
  pa_locals : ∀ s, s ∈ locals st →
    canonical (sec_name s) ∧ length (sec_data s) = sz (sec_name s) ∧ Z.of_nat (sz (sec_name s)) < 2^32;
  pa_names : NoDup (sec_name <$> locals st);
}.

Lemma locals_elem st s : s ∈ locals st ↔ Some s ∈ shms st.
Proof. unfold locals. rewrite list_elem_of_omap. split; [intros (x & Hx & E); cbn in E; by subst|intros; by exists (Some s)]. Qed.

Lemma find_local_spec n l : (∀ s, Some s ∈ l → canonical (sec_name s)) → canonical n →
  match find_local n l with
  | Some s => Some s ∈ l ∧ sec_name s = n
  | None => ∀ s, Some s ∈ l → sec_name s ≠ n
  end.
Proof.
  intros Hc Hn. induction l as [|[s|] l IH]; cbn [find_local]; [set_solver| |].
  - rewrite strneq_canonical by (done || apply Hc; set_solver). case_bool_decide; [set_solver|].
    specialize (IH ltac:(set_solver)). destruct (find_local n l); [set_solver|]. intros s'. rewrite elem_of_cons.
    intros [[= ->]|Hs]; [done|by apply IH].
  - specialize (IH ltac:(set_solver)). destruct (find_local n l); set_solver.
Qed.

Definition relevant (st : shm) (n : list Z) : bool := bool_decide (is_Some (find_local n (shms st))).

Lemma relevant_spec sz st l n : party_ok sz st l → canonical n →
  relevant st n = true ↔ n ∈ sec_name <$> locals st.
Proof.
  intros [_ _ H _] Hn. unfold relevant. rewrite bool_decide_eq_true.
  pose proof (find_local_spec n (shms st)) as Hs.
  assert (∀ s, Some s ∈ shms st → canonical (sec_name s)) as Hc by (intros s Hin; by apply H, locals_elem).
  specialize (Hs Hc Hn). rewrite list_elem_of_fmap. destruct (find_local n (shms st)) as [s|].
  - split; [|done]. intros _. exists s. rewrite locals_elem. by destruct Hs.
  - split; [by intros [? ?]|]. intros (s & -> & Hin). by apply locals_elem, Hs in Hin.
Qed.

Lemma upsert_sizes (sz : list Z → nat) n d l : length d = sz n → (∀ e, e ∈ l → length e.2 = sz e.1) →
  ∀ e, e ∈ upsert n d l → length e.2 = sz e.1.
Proof.
  intros Hd Hl. rewrite <- Forall_forall in *. by apply upsert_Forall.
Qed.

Lemma alookup_elem n d l : alookup n l = Some d → (n, d) ∈ l.
Proof. intros (a & b & -> & _)%alookup_Some. set_solver. Qed.

Lemma party_upsert sz st l n d : party_ok sz st l → canonical n → length d = sz n → Z.of_nat (sz n) < 2^32 →
  party_ok sz (with_msg st (upsert n d l)) (upsert n d l).
Proof.
  intros [H1 H2 H3 H4] Hn Hd Hs. constructor; [apply upsert_ok; [done..|lia]|by apply upsert_sizes|done..].
Qed.

(** Merging a list of sections. *)
Definition absorb (rel : list Z → bool) (k l : list (list Z * list Z)) : list (list Z * list Z) :=
  foldl (λ l e, if rel e.1 then upsert e.1 e.2 l else l) l k.

Lemma merge_remote_run sz st l e : party_ok sz st l → entry_ok e → length e.2 = sz e.1 →
  room st l (length (encode1 e)) →
  usfstl_shared_mem_merge_remote_section e.1 e.2 (Z.of_nat (length e.2)) st =
  Ok (relevant st e.1, if relevant st e.1 then with_msg st (upsert e.1 e.2 l) else st).
Proof.
  intros [H1 H2 H3 H4] He Hsz Hr. rewrite encode1_length in Hr by done.
  unfold usfstl_shared_mem_merge_remote_section, relevant. erewrite bind_ok by done.
  pose proof (find_local_spec e.1 (shms st)) as Hs.
  assert (∀ s, Some s ∈ shms st → canonical (sec_name s)) as Hc by (intros s Hin; by apply H3, locals_elem).
  specialize (Hs Hc (proj1 He)). destruct (find_local e.1 (shms st)) as [s|].
  2:{ by rewrite bool_decide_false by (by intros [? ?]). }
  rewrite bool_decide_true by eauto. destruct Hs as [Hin Hname].
  destruct (H3 s (proj2 (locals_elem st s) Hin)) as (_ & Hlen & Hlt). rewrite Hname in *.
  unfold SECTION_SIZE. rewrite Hlen, Hsz. unfold u32. rewrite Z.mod_small by lia.
  rewrite Z.eqb_refl. erewrite bind_ok by done. rewrite <- Hsz. destruct (alookup e.1 l) as [d|] eqn:Hl.
  - assert (length d = length e.2) as Hd by (rewrite Hsz; by apply (H2 (e.1, d)), alookup_elem).
    destruct (write_upsert st l e.1 d e.2 H1 (proj1 He) Hl Hd) as (pos & Hf & _ & Hw). rewrite Hd in Hf.
    erewrite bind_ok by exact Hf. erewrite bind_ok by done. by erewrite bind_ok by exact Hw.
  - erewrite bind_ok by (by apply (find_msg_none st l); [|apply He|]).
    destruct (write_new st l e.1 e.2 H1 (proj1 He) Hl Hr) as (pos & st1 & Ha & Hw).
    erewrite bind_ok by exact Ha. by erewrite bind_ok by exact Hw.
Qed.

Lemma merge_loop_run sz l2 : ∀ st l l1 fuel b,
  party_ok sz st l → Forall entry_ok l2 → (∀ e, e ∈ l2 → length e.2 = sz e.1) →
  room st l (length (encode l2)) → (length l2 < fuel)%nat →
  merge_loop fuel (encode (l1 ++ l2)) (length (encode (l1 ++ l2))) (length (encode l1)) b st =
  Ok ((length (encode (l1 ++ l2)), b || existsb (relevant st) l2.*1),
      with_msg st (absorb (relevant st) l2 l)) ∧
  party_ok sz (with_msg st (absorb (relevant st) l2 l)) (absorb (relevant st) l2 l).
Proof.
  induction l2 as [|e l2 IH]; intros st l l1 [|fuel] b Hp Hok Hsz Hr Hf; try (cbn in Hf; lia); cbn [merge_loop].
  - rewrite app_nil_r, fits_end. cbn. rewrite orb_false_r, with_msg_id by apply Hp. done.
  - inversion Hok as [|? ? He Hok']; subst. rewrite fits_here, name_here, size_here, buf_here by done.
    assert (length e.2 = sz e.1) as Hse by (apply Hsz; by left).
    rewrite encode_cons, length_app in Hr. destruct Hr as [Hr1 Hr2].
    erewrite bind_ok by (eapply merge_remote_run; try done; split; [done|lia]).
    pose proof (next_pos l1 e l2 He) as Hnp. rewrite size_here in Hnp by done. rewrite Hnp.
    replace (l1 ++ e :: l2) with ((l1 ++ [e]) ++ l2) by (by rewrite <- app_assoc).
    cbn [absorb foldl fmap list_fmap existsb]. fold (absorb (relevant st) l2).
    destruct (relevant st e.1) eqn:Hrel.
    + assert (party_ok sz (with_msg st (upsert e.1 e.2 l)) (upsert e.1 e.2 l)) as Hp'.
      { apply party_upsert; [done|apply He|done|]. rewrite <- Hse. apply He. }
      destruct (IH _ _ (l1 ++ [e]) fuel (b || true) Hp' Hok' ltac:(set_solver)) as [E1 E2].
      * split; [done|]. pose proof (encode_upsert_length e.1 e.2 l). destruct e. cbn in *. lia.
      * cbn in Hf. lia.
      * rewrite E1. split; [|exact E2]. by rewrite <- orb_assoc.
    + destruct (IH st l (l1 ++ [e]) fuel (b || false) Hp Hok' ltac:(set_solver)) as [E1 E2].
      * split; [done|]. lia.
      * cbn in Hf. lia.
      * rewrite E1. split; [|exact E2]. by rewrite <- orb_assoc.
Qed.

(** ** Preparing a message *)
Definition sec_entry (s : usfstl_shared_mem_section) : list Z * list Z := (sec_name s, sec_data s).

(** Does the message have other contents for the section? *)
Definition changed (l : list (list Z * list Z)) (s : usfstl_shared_mem_section) : bool :=
  match alookup (sec_name s) l with Some d => negb (bool_decide (d = sec_data s)) | None => false end.

Lemma upsert_same n d l : alookup n l = Some d → upsert n d l = l.
Proof. intros (a & b & -> & Ha)%alookup_Some. by apply upsert_split. Qed.

(** A section that was never in a message is still zero. *)
Definition new_zero (l : list (list Z * list Z)) (s : usfstl_shared_mem_section) : Prop :=
  alookup (sec_name s) l = None → sec_data s = replicate (length (sec_data s)) 0.

Lemma section_size_ok sz st l s : party_ok sz st l → s ∈ locals st →
  SECTION_SIZE s = Z.of_nat (length (sec_data s)).
Proof. intros [_ _ H3 _] Hs. destruct (H3 s Hs) as (_ & Hl & Hlt). unfold SECTION_SIZE, u32. lia. Qed.

Lemma merge_local_run sz st l s : party_ok sz st l → s ∈ locals st → new_zero l s →
  room st l (length (encode1 (sec_entry s))) →
  usfstl_shared_mem_merge_local_section s st = Ok (changed l s, with_msg st (upsert (sec_name s) (sec_data s) l)).
Proof.
  intros Hp Hs Hz Hr. pose proof (section_size_ok sz st l s Hp Hs) as Hsize.
  destruct Hp as [H1 H2 H3 H4]. destruct (H3 s Hs) as (Hn & Hlen & Hlt).
  unfold sec_entry in Hr. rewrite encode1_len in Hr by done.
  unfold usfstl_shared_mem_merge_local_section, changed, new_zero in *.
  rewrite Hsize, Nat2Z.id. rewrite firstn_all. destruct (alookup (sec_name s) l) as [d|] eqn:Hl.
  - assert (length d = length (sec_data s)) as Hd by (rewrite Hlen; by apply (H2 (sec_name s, d)), alookup_elem).
    destruct (write_upsert st l (sec_name s) d (sec_data s) H1 Hn Hl Hd) as (pos & Hf & Hrd & Hw).
    rewrite Hd in Hf, Hrd. erewrite bind_ok by exact Hf. cbv iota beta. erewrite bind_ok by exact Hrd.
    case_bool_decide as E.
    + subst. by rewrite upsert_same, with_msg_id.
    + by erewrite bind_ok by exact Hw.
  - erewrite bind_ok by (by apply (find_msg_none st l)). cbv iota beta.
    destruct (write_new st l (sec_name s) (sec_data s) H1 Hn Hl Hr) as (pos & st1 & Ha & Hw).
    erewrite bind_ok by exact Ha. rewrite <- Hz by done. erewrite bind_ok by exact Hw.
    set (st2 := with_msg st _). assert (msg_ok st2 (upsert (sec_name s) (sec_data s) l)) as Hok2
      by (apply upsert_ok; [done..|lia]).
    assert (pos = length (encode l)) as ->.
    { rewrite (add_section_run st l) in Ha; [|done..|lia|by rewrite Nat2Z.id]. by injection Ha as <- _. }
    erewrite bind_ok.
    2:{ eapply (read_section st2 _ l (sec_name s) (sec_data s) []); [exact Hok2| |done]. by apply upsert_new. }
    rewrite bool_decide_true by done. by erewrite bind_ok by done.
Qed.

(** All local sections are merged. *)
Definition publish (ss : list usfstl_shared_mem_section) (l : list (list Z * list Z)) : list (list Z * list Z) :=
  foldl (λ l s, upsert (sec_name s) (sec_data s) l) l ss.

Lemma merge_locals_run sz ls : ∀ st l b,
  party_ok sz st l → (∀ s, Some s ∈ ls → s ∈ locals st) → NoDup (sec_name <$> omap id ls) →
  (∀ s, Some s ∈ ls → new_zero l s) → room st l (length (encode (map sec_entry (omap id ls)))) →
  merge_locals ls b st =
  Ok (b || existsb (changed l) (omap id ls), with_msg st (publish (omap id ls) l)) ∧
  party_ok sz (with_msg st (publish (omap id ls) l)) (publish (omap id ls) l).
Proof.
  induction ls as [|[s|] ls IH]; intros st l b Hp Hin Hnd Hz Hr; cbn [merge_locals].
  - cbn. rewrite orb_false_r, with_msg_id by apply Hp. done.
  - change (omap id (Some s :: ls)) with (s :: omap id ls) in *. cbn in Hnd. apply NoDup_cons in Hnd as [Hns Hnd].
    assert (s ∈ locals st) as Hs by (apply Hin; by left).
    cbn [map] in Hr. rewrite encode_cons, length_app in Hr. destruct Hr as [Hr1 Hr2].
    erewrite bind_ok by (eapply merge_local_run; try done; [apply Hz; by left|split; [done|lia]]).
    destruct (pa_locals _ _ _ Hp s Hs) as (Hn & Hlen & Hlt).
    destruct (IH (with_msg st (upsert (sec_name s) (sec_data s) l)) (upsert (sec_name s) (sec_data s) l)
                (b || changed l s)) as [E1 E2].
    + by apply party_upsert.
    + intros s' Hs'. apply Hin. by right.
    + done.
    + intros s' Hs'. unfold new_zero. rewrite alookup_upsert_ne; [apply Hz; by right|].
      intros E. apply Hns. rewrite E. apply list_elem_of_fmap. exists s'. split; [done|].
      apply list_elem_of_omap. by exists (Some s').
    + split; [done|]. pose proof (encode_upsert_length (sec_name s) (sec_data s) l). change (encode1 (sec_entry s)) with (encode1 (sec_name s, sec_data s)) in Hr2. lia.
    + rewrite E1. split; [|exact E2]. cbn [existsb]. rewrite <- orb_assoc.
      replace (existsb (changed (upsert (sec_name s) (sec_data s) l)) (omap id ls))
        with (existsb (changed l) (omap id ls)); [done|].
      clear -Hns. induction (omap id ls) as [|x xs IHx]; [done|]. cbn in *.
      rewrite IHx by set_solver. f_equal. unfold changed. rewrite alookup_upsert_ne; [done|set_solver].
  - change (omap id (None :: ls)) with (omap id ls) in *. apply IH; [done| |done| |done].
    + intros s Hs. apply Hin. by right.
    + intros s Hs. apply Hz. by right.
Qed.

Lemma alookup_publish ss : ∀ l s, NoDup (sec_name <$> ss) → s ∈ ss →
  alookup (sec_name s) (publish ss l) = Some (sec_data s).
Proof.
  assert (∀ ss l n, n ∉ sec_name <$> ss → alookup n (publish ss l) = alookup n l) as Hother.
  { clear. induction ss as [|x xs IH]; intros l n Hn; [done|].
    change (publish (x :: xs) l) with (publish xs (upsert (sec_name x) (sec_data x) l)). rewrite IH by set_solver. apply alookup_upsert_ne. set_solver. }
  induction ss as [|x xs IH]; intros l s Hnd Hs; [set_solver|].
  change (publish (x :: xs) l) with (publish xs (upsert (sec_name x) (sec_data x) l)).
  cbn in Hnd. apply NoDup_cons in Hnd as [Hx Hnd]. apply elem_of_cons in Hs as [->|Hs]; [|by apply IH].
  rewrite Hother by done. apply alookup_upsert.
Qed.

(** ** Updating the local view *)
Definition set_local (n d : list Z) (S : list (option usfstl_shared_mem_section)) :=
  map (option_map (λ s, if bool_decide (sec_name s = n) then Section_ n d else s)) S.

Definition view (l : list (list Z * list Z)) (s : usfstl_shared_mem_section) : usfstl_shared_mem_section :=
  match alookup (sec_name s) l with Some d => Section_ (sec_name s) d | None => s end.

Lemma set_local_other n d S : (∀ s, Some s ∈ S → sec_name s ≠ n) → set_local n d S = S.
Proof.
  induction S as [|[s|] S IH]; intros H; cbn; [done| |].
  - rewrite bool_decide_false by (apply H; by left). f_equal. apply IH. intros s' Hs. apply H. by right.
  - f_equal. apply IH. intros s' Hs. apply H. by right.
Qed.

Lemma copy_to_local_run n d S : ∀ (st : shm),
  (∀ s, Some s ∈ S → canonical (sec_name s)) → NoDup (sec_name <$> omap id S) → canonical n →
  (∀ s, Some s ∈ S → sec_name s = n → length (sec_data s) = length d ∧ Z.of_nat (length d) < 2^32) →
  copy_to_local n d S st = Ok (set_local n d S, st).
Proof.
  induction S as [|[s|] S IH]; intros st Hc Hnd Hn Hsz; cbn [copy_to_local]; [done| |].
  - change (omap id (Some s :: S)) with (s :: omap id S) in Hnd. cbn in Hnd. apply NoDup_cons in Hnd as [Hns Hnd].
    rewrite strneq_canonical by (done || (apply Hc; by left)). cbn [set_local map option_map].
    case_bool_decide as E.
    + destruct (Hsz s ltac:(by left) E) as [Hl Hlt]. unfold SECTION_SIZE, u32. rewrite Hl, Z.mod_small by lia.
      rewrite Z.eqb_refl. erewrite bind_ok by done. unfold mret, M_ret. do 2 f_equal.
      rewrite drop_ge, app_nil_r, E by lia. f_equal. symmetry. apply set_local_other.
      intros s' Hs' E'. apply Hns. rewrite E, <- E'. apply list_elem_of_fmap. exists s'. split; [done|].
      apply list_elem_of_omap. by exists (Some s').
    + erewrite bind_ok by (apply IH; [intros; apply Hc; by right|done|done|intros; apply Hsz; [by right|done]]).
      done.
  - erewrite bind_ok by (apply IH; [intros; apply Hc; by right|done|done|intros; apply Hsz; [by right|done]]). done.
Qed.

Lemma fold_set_local l : ∀ S, NoDup l.*1 →
  foldl (λ S e, set_local e.1 e.2 S) S l = map (option_map (view l)) S.
Proof.
  induction l as [|e l IH]; intros S Hnd; cbn [foldl].
  - induction S as [|[s|] S IHS]; cbn; [done| |]; by rewrite <- IHS.
  - cbn in Hnd. apply NoDup_cons in Hnd as [He Hnd]. rewrite IH by done. unfold set_local. rewrite map_map.
    apply map_ext. intros [s|]; [|done]. cbn. f_equal. unfold view. cbn. case_bool_decide as E.
    + rewrite bool_decide_true by done. cbn. apply alookup_None in He. by rewrite He, E.
    + by rewrite bool_decide_false by done.
Qed.

Definition locals_ok (sz : list Z → nat) (S : list (option usfstl_shared_mem_section)) : Prop :=
  (∀ s, Some s ∈ S → canonical (sec_name s) ∧ length (sec_data s) = sz (sec_name s) ∧
    Z.of_nat (sz (sec_name s)) < 2^32) ∧ NoDup (sec_name <$> omap id S).

Lemma map_names (f : usfstl_shared_mem_section → usfstl_shared_mem_section) S :
  (∀ s, sec_name (f s) = sec_name s) → sec_name <$> omap id (map (option_map f) S) = sec_name <$> omap id S.
Proof. intros Hf. induction S as [|[s|] S IH]; cbn in *; [done| |done]. by rewrite Hf, IH. Qed.

Lemma map_elem (f : usfstl_shared_mem_section → usfstl_shared_mem_section) S s :
  Some s ∈ map (option_map f) S ↔ ∃ s0, Some s0 ∈ S ∧ s = f s0.
Proof.
  rewrite list_elem_of_In, in_map_iff. split.
  - intros ([s0|] & [= <-] & Hin). exists s0. by rewrite list_elem_of_In.
  - intros (s0 & Hin & ->). exists (Some s0). by rewrite <- list_elem_of_In.
Qed.

Lemma locals_ok_map sz f S : locals_ok sz S →
  (∀ s, sec_name (f s) = sec_name s) →
  (∀ s, Some s ∈ S → length (sec_data (f s)) = length (sec_data s)) → locals_ok sz (map (option_map f) S).
Proof.
  intros [H1 H2] Hn Hl. split; [|by rewrite map_names].
  intros s (s0 & Hin & ->)%map_elem. destruct (H1 s0 Hin) as (? & ? & ?). rewrite Hn, Hl by done. done.
Qed.

Lemma locals_ok_set sz S n d : locals_ok sz S → length d = sz n → locals_ok sz (set_local n d S).
Proof.
  intros H Hd. apply locals_ok_map; [done| |].
  - intros s. by case_bool_decide.
  - intros s Hin. case_bool_decide as E; [|done]. cbn. rewrite Hd, <- E. symmetry. by apply H.
Qed.

Lemma view_loop sz m l2 : ∀ l1 fuel st,
  m = encode (l1 ++ l2) → locals_ok sz (shms st) → Forall entry_ok l2 →
  (∀ e, e ∈ l2 → length e.2 = sz e.1) → (length l2 < fuel)%nat →
  each_section fuel m (length m) (length (encode l1)) (λ pos,
    st' ← get;
    l ← copy_to_local (name_at m pos) (buf_at m pos) (shms st');
    modify (λ st, st <| shms := l |>)) st =
  Ok (length m, st <| shms := foldl (λ S e, set_local e.1 e.2 S) (shms st) l2 |>).
Proof.
  induction l2 as [|e l2 IH]; intros l1 [|fuel] st Hm Hlo Hok Hsz Hf; try (cbn in Hf; lia); cbn [each_section].
  - rewrite app_nil_r in Hm. rewrite Hm, fits_end. by destruct st.
  - inversion Hok as [|? ? He Hok']; subst. rewrite fits_here by done. rewrite next_pos by done.
    erewrite bind_ok.
    2:{ erewrite bind_ok by done. rewrite name_here, buf_here by done.
        erewrite bind_ok; [done|]. apply copy_to_local_run; [intros; by apply Hlo|apply Hlo|apply He|].
        intros s Hin E. destruct (proj1 Hlo s Hin) as (_ & Hl & _). rewrite Hl, E. split; [|apply He].
        symmetry. apply Hsz. by left. }
    rewrite (IH (l1 ++ [e]) fuel); [done| |by apply locals_ok_set; [|apply Hsz; left]|done|set_solver|cbn in Hf; lia].
    by rewrite <- app_assoc.
Qed.

Definition viewed (st : shm) (l : list (list Z * list Z)) : shm :=
  st <| local_flags := Z.ldiff (local_flags st) PARTICIPANT_SHARED_MEM_OUTDATED |>
     <| shms := map (option_map (view l)) (shms st) |>.

Lemma party_locals sz st l : party_ok sz st l → locals_ok sz (shms st).
Proof. intros [_ _ H3 H4]. split; [intros s Hs; by apply H3, locals_elem|done]. Qed.

Lemma update_local_view_run sz st l : party_ok sz st l →
  flag_set (local_flags st) PARTICIPANT_SHARED_MEM_OUTDATED = true →
  usfstl_shared_mem_update_local_view st = Ok (tt, viewed st l).
Proof.
  intros Hp Hfl. pose proof (party_locals _ _ _ Hp) as Hlo. destruct Hp as [[M1 M2 M3 M4] H2 _ _].
  unfold usfstl_shared_mem_update_local_view. erewrite bind_ok by done. rewrite Hfl. cbn [when].
  erewrite bind_ok by done. unfold for_each_msg_section. rewrite M2, Nat2Z.id, M1.
  erewrite bind_ok.
  2:{ apply (view_loop sz (encode l) l []); [done|exact Hlo|done|done|by apply fuel_enough]. }
  rewrite fold_set_local by done. done.
Qed.

Lemma update_local_view_idle st :
  flag_set (local_flags st) PARTICIPANT_SHARED_MEM_OUTDATED = false →
  usfstl_shared_mem_update_local_view st = Ok (tt, st).
Proof. intros H. unfold usfstl_shared_mem_update_local_view. erewrite bind_ok by done. by rewrite H. Qed.

Lemma viewed_ok sz st l : party_ok sz st l → party_ok sz (viewed st l) l.
Proof.
  intros Hp. pose proof (party_locals _ _ _ Hp) as Hlo. destruct Hp as [M H2 H3 H4].
  assert (locals_ok sz (map (option_map (view l)) (shms st))) as [L1 L2].
  { apply locals_ok_map; [done| |].
    - intros s. unfold view. by destruct (alookup _ _).
    - intros s Hin. unfold view. destruct (alookup (sec_name s) l) as [d|] eqn:E; [|done]. cbn.
      transitivity (sz (sec_name s)); [by apply (H2 (sec_name s, d)), alookup_elem|].
      symmetry. apply H3. by apply locals_elem. }
  constructor; [by destruct M|done| |done]. intros s Hs%locals_elem. by apply L1.
Qed.

(** ** Whole operations *)
Lemma flag_bit x : flag_set x PARTICIPANT_SHARED_MEM_OUTDATED = Z.testbit x 1.
Proof. rewrite <- (has_bit_spec x 1) by lia. unfold flag_set, has_bit. by rewrite Z.land_comm. Qed.

Lemma flag_lor x : flag_set (Z.lor x PARTICIPANT_SHARED_MEM_OUTDATED) PARTICIPANT_SHARED_MEM_OUTDATED = true.
Proof. rewrite flag_bit, Z.lor_spec. apply orb_true_r. Qed.

Lemma flag_ldiff x : flag_set (Z.ldiff x PARTICIPANT_SHARED_MEM_OUTDATED) PARTICIPANT_SHARED_MEM_OUTDATED = false.
Proof. rewrite flag_bit, Z.ldiff_spec. apply andb_false_r. Qed.

Definition same_env (st st' : shm) : Prop :=
  realloc_ok st' = realloc_ok st ∧ current_test st' = current_test st.

(** [usfstl_shared_mem_prepare_msg] publishes the local sections. *)
Lemma prepare_run sz st l : party_ok sz st l →
  flag_set (local_flags st) PARTICIPANT_SHARED_MEM_OUTDATED = false →
  (∀ s, s ∈ locals st → new_zero l s) → room st l (length (encode (map sec_entry (locals st)))) →
  ∃ st', usfstl_shared_mem_prepare_msg st = Ok (tt, st') ∧
    party_ok sz st' (publish (locals st) l) ∧ shms st' = shms st ∧ same_env st st' ∧
    shared_mem_dirty st' = shared_mem_dirty st || existsb (changed l) (locals st).
Proof.
  intros Hp Hfl Hz Hr. unfold usfstl_shared_mem_prepare_msg. erewrite bind_ok by done. rewrite Hfl.
  erewrite bind_ok by done.
  destruct (merge_locals_run sz (shms st) st l false) as [E1 E2]; [done| | | |done|].
  { intros s Hs. by apply locals_elem. }
  { apply Hp. }
  { intros s Hs. by apply Hz, locals_elem. }
  change (omap id (shms st)) with (locals st) in *.
  erewrite bind_ok by (unfold usfstl_shared_mem_update_msg; erewrite bind_ok by done; exact E1).
  cbn [orb]. destruct (existsb (changed l) (locals st)); cbn [when].
  - eexists. split; [done|]. split_and!; [|done|done|cbn; by rewrite orb_true_r].
    destruct E2 as [[]]. by constructor.
  - eexists. split; [done|]. split_and!; [done..|cbn; by rewrite orb_false_r].
Qed.

(** [usfstl_shared_mem_handle_msg] takes over the sections that the participant
    has itself. *)
Lemma handle_run sz st l k nodirty : party_ok sz st l → current_test st = true → k ≠ [] →
  Forall entry_ok k → (∀ e, e ∈ k → length e.2 = sz e.1) → room st l (length (encode k)) →
  ∃ st', usfstl_shared_mem_handle_msg (encode k) nodirty st = Ok (tt, st') ∧
    party_ok sz st' (absorb (relevant st) k l) ∧ shms st' = shms st ∧ same_env st st' ∧
    local_flags st' = (if existsb (relevant st) k.*1
                       then Z.lor (local_flags st) PARTICIPANT_SHARED_MEM_OUTDATED else local_flags st) ∧
    shared_mem_dirty st' = shared_mem_dirty st || negb nodirty.
Proof.
  intros Hp Ht Hk Hok Hsz Hr. unfold usfstl_shared_mem_handle_msg. erewrite bind_ok by done. rewrite Ht. cbn [negb].
  assert (length (encode k) ≠ 0%nat) as Hne.
  { pose proof (encode_length_ge k Hok) as H. unfold hdr_len in H. destruct k; [done|]. cbn in *. lia. }
  rewrite (proj2 (Nat.eqb_neq _ _) Hne). erewrite bind_ok by done. set (st1 := set_field _ _).
  assert (party_ok sz st1 l ∧ shms st1 = shms st ∧ room st1 l (length (encode k)) ∧
          local_flags st1 = local_flags st ∧ shared_mem_dirty st1 = shared_mem_dirty st) as (P1 & S1 & R1 & F1 & D1).
  { split_and!; [|done..]. destruct Hp as [[]]. by constructor. }
  set (st2 := if nodirty then st1 else st1 <| shared_mem_dirty := true |>).
  erewrite (bind_ok _ _ _ tt st2) by (unfold st2; by destruct nodirty).
  assert (party_ok sz st2 l ∧ shms st2 = shms st ∧ room st2 l (length (encode k)) ∧
          local_flags st2 = local_flags st ∧ same_env st st2 ∧
          shared_mem_dirty st2 = shared_mem_dirty st || negb nodirty) as (P2 & S2 & R2 & F2 & V2 & D2).
  { unfold st2. destruct nodirty; cbn; rewrite ?orb_false_r, ?orb_true_r.
    - done.
    - split_and!; [|done..]. destruct P1 as [[]]. by constructor. }
  destruct (merge_loop_run sz k st2 l [] (S (length (encode k))) false) as [E1 E2]; [done..|by apply fuel_enough|].
  assert (relevant st2 = relevant st) as Hrel by (unfold relevant; by rewrite S2). rewrite Hrel in E1, E2.
  unfold usfstl_shared_mem_merge_msg.
  erewrite bind_ok by (erewrite bind_ok by exact E1; cbn [app]; rewrite Nat.eqb_refl; by erewrite bind_ok by done).
  cbn [orb]. destruct (existsb (relevant st) k.*1); cbn [when].
  - eexists. split; [done|]. split_and!; [|done|done|cbn; by rewrite F2|done]. destruct E2 as [[]]. by constructor.
  - eexists. split; [done|]. split_and!; done.
Qed.

Lemma alookup_absorb rel k : ∀ l n, NoDup k.*1 →
  alookup n (absorb rel k l) = match (if rel n then alookup n k else None) with Some d => Some d | None => alookup n l end.
Proof.
  induction k as [|e k IH]; intros l n Hnd; [by destruct (rel n)|]. cbn in Hnd. apply NoDup_cons in Hnd as [He Hnd].
  change (absorb rel (e :: k) l) with (absorb rel k (if rel e.1 then upsert e.1 e.2 l else l)).
  rewrite IH by done. cbn [alookup]. case_bool_decide as E.
  - subst. apply alookup_None in He. rewrite He. destruct (rel e.1); [by rewrite alookup_upsert|done].
  - destruct (if rel n then alookup n k else None); [done|].
    destruct (rel e.1); [by rewrite alookup_upsert_ne|done].
Qed.

(** ** Synchronisation *)
Definition foot (l : list (list Z * list Z)) : nat := length (encode l).

Lemma foot_publish ss : ∀ l, (foot (publish ss l) ≤ foot l + foot (map sec_entry ss))%nat.
Proof.
  induction ss as [|s ss IH]; intros l; [apply Nat.le_add_r|].
  change (publish (s :: ss) l) with (publish ss (upsert (sec_name s) (sec_data s) l)).
  etransitivity; [apply IH|]. pose proof (encode_upsert_length (sec_name s) (sec_data s) l). unfold foot in *.
  cbn [map]. rewrite encode_cons, length_app. change (encode1 (sec_entry s)) with (encode1 (sec_name s, sec_data s)). lia.
Qed.

Lemma foot_absorb rel k : ∀ l, (foot (absorb rel k l) ≤ foot l + foot k)%nat.
Proof.
  induction k as [|e k IH]; intros l; [apply Nat.le_add_r|].
  change (absorb rel (e :: k) l) with (absorb rel k (if rel e.1 then upsert e.1 e.2 l else l)).
  etransitivity; [apply IH|]. pose proof (encode_upsert_length e.1 e.2 l) as H. rewrite <- surjective_pairing in H.
  unfold foot in *. rewrite encode_cons, length_app. destruct (rel e.1); lia.
Qed.

(** A participant between two exchanges: what it has not published before is
    zero, and its view is not outdated. *)
Record synced (sz : list Z → nat) (st : shm) (l : list (list Z * list Z)) : Prop := {
  sy_party : party_ok sz st l;
  sy_zero : ∀ s, s ∈ locals st → new_zero l s;
  sy_view : flag_set (local_flags st) PARTICIPANT_SHARED_MEM_OUTDATED = false;
  sy_test : current_test st = true;
  sy_alloc : realloc_ok st = true;
}.

Lemma viewed_locals st l : locals (viewed st l) = map (view l) (locals st).
Proof. unfold locals, viewed. cbn. induction (shms st) as [|[s|] S IH]; cbn in *; [done| |done]. by rewrite IH. Qed.

Lemma view_name l s : sec_name (view l s) = sec_name s.
Proof. unfold view. by destruct (alookup (sec_name s) l). Qed.

(** The receiving side of an exchange. *)
Definition receive (m : list Z) (nodirty : bool) : M shm unit :=
  usfstl_shared_mem_handle_msg m nodirty;; usfstl_shared_mem_update_local_view.

Lemma receive_run sz st l k nodirty : synced sz st l → k ≠ [] → Forall entry_ok k → NoDup k.*1 →
  (∀ e, e ∈ k → length e.2 = sz e.1) → Z.of_nat (foot l + foot k) + 8 < 2^32 →
  ∃ st', receive (encode k) nodirty st = Ok (tt, st') ∧ synced sz st' (absorb (relevant st) k l) ∧
    (locals st' = locals st ∨ locals st' = map (view (absorb (relevant st) k l)) (locals st)) ∧
    (∀ s, s ∈ locals st' → ∀ d, alookup (sec_name s) k = Some d → sec_data s = d).
Proof.
  intros [Hp Hz Hv Ht Ha] Hk Hok Hnd Hsz Hroom. unfold receive.
  destruct (handle_run sz st l k nodirty Hp Ht Hk Hok Hsz) as (st1 & Hh & Hp1 & Hs1 & [Hr1 Ht1] & Hf1 & _).
  { split; [done|]. unfold foot in Hroom. lia. }
  erewrite bind_ok by exact Hh. set (l1 := absorb (relevant st) k l) in *.
  assert (locals st1 = locals st) as Hl1 by (unfold locals; by rewrite Hs1).
  assert (∀ n, alookup n l1 = None → alookup n l = None) as Hmono.
  { intros n. unfold l1. rewrite alookup_absorb by done.
    destruct (if relevant st n then alookup n k else None); done. }
  destruct (existsb (relevant st) k.*1) eqn:Hex.
  - erewrite update_local_view_run by (done || (rewrite Hf1; apply flag_lor)).
    exists (viewed st1 l1). split; [done|]. rewrite viewed_locals, Hl1. split_and!.
    + constructor; [by apply viewed_ok| |apply flag_ldiff|cbn; congruence|cbn; congruence].
      rewrite viewed_locals, Hl1. intros s (s0 & -> & Hs0)%list_elem_of_fmap. unfold new_zero, view.
      destruct (alookup (sec_name s0) l1) eqn:E; cbn; [by rewrite E|]. intros _. by apply (Hz s0), Hmono.
    + by right.
    + intros s (s0 & -> & Hs0)%list_elem_of_fmap d Hd. rewrite view_name in Hd.
      destruct (pa_locals _ _ _ Hp s0 Hs0) as (Hc & _).
      assert (relevant st (sec_name s0) = true) as Hrel
        by (apply (relevant_spec sz st l); [done..|]; by apply list_elem_of_fmap_2).
      unfold view, l1. by rewrite alookup_absorb, Hrel, Hd by done.
  - rewrite update_local_view_idle by (by rewrite Hf1).
    exists st1. rewrite Hl1. split_and!; [done| |by left|].
    + constructor; [done| |by rewrite Hf1|congruence|congruence]. rewrite Hl1. intros s Hs E.
      by apply (Hz s Hs), Hmono.
    + intros s Hs d Hd. exfalso. destruct (pa_locals _ _ _ Hp s Hs) as (Hc & _).
      assert (existsb (relevant st) k.*1 = true); [|congruence]. apply existsb_exists. exists (sec_name s).
      split; [|apply (relevant_spec sz st l); [done..|]; by apply list_elem_of_fmap_2].
      apply list_elem_of_In. apply dec_stable. rewrite <- alookup_None. by rewrite Hd.
Qed.

(** The sending side: the message with the local sections. *)
Definition send : M shm (list Z) := usfstl_shared_mem_prepare_msg;; gets msg.

Lemma publish_names ss : ∀ l n, n ∈ (publish ss l).*1 ↔ n ∈ sec_name <$> ss ∨ n ∈ l.*1.
Proof.
  induction ss as [|s ss IH]; intros l n; [cbn; set_solver|].
  change (publish (s :: ss) l) with (publish ss (upsert (sec_name s) (sec_data s) l)).
  rewrite IH, upsert_names. cbn. set_solver.
Qed.

Lemma send_run sz st l : synced sz st l → locals st ≠ [] →
  Z.of_nat (foot l + foot (map sec_entry (locals st))) + 8 < 2^32 →
  let k := publish (locals st) l in
  ∃ st', send st = Ok (encode k, st') ∧ locals st' = locals st ∧ party_ok sz st' k ∧ k ≠ [].
Proof.
  intros [Hp Hz Hv Ht Ha] Hne Hroom k.
  destruct (prepare_run sz st l Hp Hv Hz) as (st' & Hrun & Hp' & Hs & _ & _).
  { split; [done|]. unfold foot in Hroom. lia. }
  exists st'. unfold send. erewrite bind_ok by exact Hrun. unfold gets.
  rewrite (mo_msg _ _ (pa_msg _ _ _ Hp')). split_and!; [done|by unfold locals; rewrite Hs|done|].
  intros Hk. destruct (locals st) as [|s ss]; [done|].
  assert (sec_name s ∈ k.*1) as Hin by (apply publish_names; left; cbn; set_solver).
  rewrite Hk in Hin. cbn in Hin. set_solver.
Qed.

Lemma sections_foot ss ss' : Forall2 (λ s s', sec_name s = sec_name s' ∧ length (sec_data s) = length (sec_data s')) ss ss' →
  foot (map sec_entry ss) = foot (map sec_entry ss').
Proof.
  unfold foot. induction 1 as [|s s' ss ss' [H1 H2] _ IH]; [done|]. cbn [map]. rewrite !encode_cons, !length_app.
  f_equal; [|done]. unfold encode1, sec_entry. cbn [fst snd]. rewrite !length_app, H1, H2. done.
Qed.

Lemma same_sections sz st l st' l' : party_ok sz st l → party_ok sz st' l' →
  sec_name <$> locals st' = sec_name <$> locals st →
  foot (map sec_entry (locals st')) = foot (map sec_entry (locals st)).
Proof.
  intros Hp Hp' Hn. apply sections_foot.
  assert (∀ s, s ∈ locals st → length (sec_data s) = sz (sec_name s)) as H by (intros; by apply (pa_locals _ _ _ Hp)).
  assert (∀ s, s ∈ locals st' → length (sec_data s) = sz (sec_name s)) as H' by (intros; by apply (pa_locals _ _ _ Hp')).
  revert Hn H H'. generalize (locals st) (locals st'). clear. intros xs ys. revert xs.
  induction ys as [|y ys IH]; intros [|x xs] E H H'; try discriminate E; [constructor|].
  injection E as E1 E2. constructor.
  - split; [done|]. rewrite (H x), (H' y) by (by left). by rewrite E1.
  - apply IH; [done|set_solver..].
Qed.

(** C11. Contents reach every participant through the controller: when [A] sends its
    message to [C], and [C] then its own to [B], every call returns, and each
    section that all three have holds in [B] what it held in [A]; the sections
    of [A] are unchanged, those of [C] and [B] are the same sections as before. *)
Theorem shared_mem_relay sz (A B C : shm) lA lB lC nodirty1 nodirty2 :
  synced sz A lA → synced sz B lB → synced sz C lC → locals A ≠ [] → locals C ≠ [] →
  Z.of_nat (foot lA + foot (map sec_entry (locals A)) + foot lC + foot (map sec_entry (locals C)) + foot lB) + 8 < 2^32 →
  ∃ mA mC A' B' C' C'',
    send A = Ok (mA, A') ∧ receive mA nodirty1 C = Ok (tt, C') ∧
    send C' = Ok (mC, C'') ∧ receive mC nodirty2 B = Ok (tt, B') ∧
    locals A' = locals A ∧ sec_name <$> locals C'' = sec_name <$> locals C ∧
    sec_name <$> locals B' = sec_name <$> locals B ∧
    (∀ a c b, a ∈ locals A → c ∈ locals C → b ∈ locals B' → sec_name a = sec_name c → sec_name b = sec_name a →
      sec_data b = sec_data a).
Proof.
  intros HA HB HC HneA HneC Hroom.
  destruct (send_run sz A lA HA HneA ltac:(lia)) as (A' & EA & LA & PA & NA).
  set (k := publish (locals A) lA) in *. pose proof (foot_publish (locals A) lA) as FA. fold k in FA.
  destruct (receive_run sz C lC k nodirty1 HC NA (mo_entries _ _ (pa_msg _ _ _ PA)) (mo_names _ _ (pa_msg _ _ _ PA))
              (pa_sizes _ _ _ PA) ltac:(lia)) as (C' & EC & SC & VC & DC).
  set (l1 := absorb (relevant C) k lC) in *. pose proof (foot_absorb (relevant C) k lC) as FC. fold l1 in FC.
  assert (sec_name <$> locals C' = sec_name <$> locals C) as NC.
  { destruct VC as [->| ->]; [done|]. rewrite <- list_fmap_compose. apply list_fmap_ext. intros i s _. apply view_name. }
  pose proof (same_sections sz C lC C' l1 (sy_party _ _ _ HC) (sy_party _ _ _ SC) NC) as FC'.
  assert (locals C' ≠ []) as HneC'.
  { intros E. rewrite E in NC. by destruct (locals C). }
  destruct (send_run sz C' l1 SC HneC' ltac:(lia)) as (C'' & EC'' & LC'' & PC'' & NC'').
  set (k2 := publish (locals C') l1) in *. pose proof (foot_publish (locals C') l1) as FC''. fold k2 in FC''.
  destruct (receive_run sz B lB k2 nodirty2 HB NC'' (mo_entries _ _ (pa_msg _ _ _ PC'')) (mo_names _ _ (pa_msg _ _ _ PC''))
              (pa_sizes _ _ _ PC'') ltac:(lia)) as (B' & EB & SB & VB & DB).
  exists (encode k), (encode k2), A', B', C', C''. split_and!; try done.
  - by rewrite LC''.
  - destruct VB as [->| ->]; [done|]. rewrite <- list_fmap_compose. apply list_fmap_ext. intros i s _. apply view_name.
  - intros a c b Ha Hc Hb Hac Hba.
    assert (sec_name c ∈ sec_name <$> locals C') as Hc' by (rewrite NC; by apply list_elem_of_fmap_2).
    apply list_elem_of_fmap in Hc' as (c' & Ecn & Hc'). apply DB; [done|].
    assert (alookup (sec_name a) k = Some (sec_data a)) as Hka.
    { apply alookup_publish; [apply HA|done]. }
    rewrite Hba, Hac, Ecn. replace (sec_data a) with (sec_data c').
    + apply alookup_publish; [apply (sy_party _ _ _ SC)|done].
    + apply (DC c' Hc'). by rewrite <- Ecn, <- Hac.
Qed.

(** Three participants with one section of two bytes. *)
Definition demo_name : list Z := [83] ++ replicate 31 0.
Definition demo_shm (data : list Z) (l : list (list Z * list Z)) : shm :=
  Shm [None; Some (Section_ demo_name data)] (encode l) (Z.of_nat (length (encode l))) false [] 0 true true 170.

Lemma demo_canonical : canonical demo_name.
Proof. split; [done|]. exists [83], 31%nat. set_solver. Qed.

Lemma demo_synced data l : length data = 2%nat → NoDup l.*1 →
  Forall (λ e, e.1 = demo_name ∧ length e.2 = 2%nat) l →
  new_zero l (Section_ demo_name data) → synced (λ _, 2%nat) (demo_shm data l) l.
Proof.
  intros Hd Hnd Hl Hz.
  assert (∀ s, s ∈ locals (demo_shm data l) → s = Section_ demo_name data) as Hs.
  { intros s Hs%locals_elem. cbn in Hs. set_solver. }
  constructor; [constructor; [constructor| | |]| | | |]; try done.
  - eapply Forall_impl; [exact Hl|]. intros e [E1 E2]. split; [rewrite E1; apply demo_canonical|].
    rewrite E2. reflexivity.
  - intros e He. rewrite Forall_forall in Hl. by apply Hl.
  - intros s ->%Hs. split_and!; [apply demo_canonical|done|reflexivity].
  - apply NoDup_singleton.
  - by intros s ->%Hs.
Qed.

Lemma shared_mem_relay_witness :
  ∃ mA mC A' B' C' C'',
    send (demo_shm [1; 2] [(demo_name, [0; 0])]) = Ok (mA, A') ∧ receive mA false (demo_shm [0; 0] []) = Ok (tt, C') ∧
    send C' = Ok (mC, C'') ∧ receive mC true (demo_shm [0; 0] []) = Ok (tt, B') ∧
    ∀ b, b ∈ locals B' → sec_name b = demo_name → sec_data b = [1; 2].
Proof.
  destruct (shared_mem_relay (λ _, 2%nat) (demo_shm [1; 2] [(demo_name, [0; 0])]) (demo_shm [0; 0] [])
              (demo_shm [0; 0] []) [(demo_name, [0; 0])] [] [] false true)
    as (mA & mC & A' & B' & C' & C'' & H1 & H2 & H3 & H4 & _ & _ & _ & H5).
  1-3: apply demo_synced; [done|repeat constructor; set_solver|repeat constructor|try done].
  1-2: done.
  { vm_compute. reflexivity. }
  exists mA, mC, A', B', C', C''. split_and!; [exact H1|exact H2|exact H3|exact H4|].
  intros b Hb Hn.
  exact (H5 (Section_ demo_name [1; 2]) (Section_ demo_name [0; 0]) b ltac:(by left) ltac:(by left) Hb eq_refl Hn).
Defined.
