(* ===== verification/Rpc.v ===== *)
(** * Remote procedure calls (src/rpc.c, src/rpc-posix.c, src/rpc-rpc.c,
    include/usfstl/rpc.h)

    The state of one process: its connections with the bytes that arrive and the
    bytes written, the entries of the main loop (one for each connection) and
    the functions others may call.  How many bytes a [read] or [write] transfers
    is given by a list, in which a negative number is EINTR; when it is used up
    calls transfer all they can. *)
From S2P Require Import Prelude Bytes Loop.

(** ** Data *)
Abbreviation USFSTL_RPC_TAG_REQUEST := 1970483774%Z (only parsing).
Abbreviation USFSTL_RPC_TAG_RESPONSE := 1970483772%Z (only parsing).
Abbreviation USFSTL_VAR_DATA_SIZE := 2147483648%Z (only parsing).
Abbreviation USFSTL_MAX_RPC_STACK := 20%Z (only parsing).
Abbreviation USFSTL_MAX_RPC_SIZE_ON_STACK := 256%Z (only parsing).
Definition ENOENT : Z := 2.

Definition swap32 (v : Z) : Z :=
  Z.lor (Z.lor (Z.shiftr (Z.land v 4278190080) 24) (Z.shiftr (Z.land v 16711680) 8))
    (Z.lor (Z.shiftl (Z.land v 65280) 8) (Z.shiftl (Z.land v 255) 24)).

(** [req_name] are the 128 bytes of the name. *)
Record usfstl_rpc_request := Request { req_name : list Z; retsize : Z; argsize : Z }.

Definition name_size : nat := 128.
Definition request_size : nat := 136.

Definition request_bytes (r : usfstl_rpc_request) : list Z :=
  req_name r ++ le_split 4 (retsize r) ++ le_split 4 (argsize r).
Definition request_of (bs : list Z) : usfstl_rpc_request :=
  Request (take name_size bs) (le_combine (take 4 (drop 128 bs))) (le_combine (take 4 (drop 132 bs))).

(** [priority], [wait_handler] ([conn.handler == usfstl_rpc_loop_wait_handler])
    and the descriptor are those of the loop entry; [c_in] are the bytes to be
    read, [c_out] the bytes written. *)
Record usfstl_rpc_connection := Conn {
  initialized : bool;
  broken : bool;
  extra_len : Z;
  has_disconnected : bool;
  priority : Z;
  wait_handler : bool;
  c_in : list Z;
  c_out : list Z;
}.
#[export] Instance conn_settable : Settable usfstl_rpc_connection := λ r,
  Conn (initialized r) (broken r) (extra_len r) (has_disconnected r) (priority r) (wait_handler r) (c_in r) (c_out r).

(** The functions of rpc-rpc.c and those of the program. *)
Inductive rpc_fn (F : Type) := Rpc_init | Rpc_disconnect | Rpc_user (f : F).
Arguments Rpc_init {F}.
Arguments Rpc_disconnect {F}.
Arguments Rpc_user {F} f.

Record usfstl_rpc_stub (F : Type) := Stub { stub_req : usfstl_rpc_request; stub_fn : rpc_fn F }.
Arguments Stub {F}.
Arguments stub_req {F}.
Arguments stub_fn {F}.

Record rpc_state (F U : Type) := RpcState {
  conns : gmap Z usfstl_rpc_connection;
  loop_entries : list Z;
  rpc_connections : list Z;
  rpc_stubs : list (option (usfstl_rpc_stub F));
  rpc_stack : list Z;
  rpc_wait_result : Z;
  chunks : list Z;
  malloc_ok : bool;
  user : U;
}.
Arguments RpcState {F U}.
Arguments conns {F U}.
Arguments loop_entries {F U}.
Arguments rpc_connections {F U}.
Arguments rpc_stubs {F U}.
Arguments rpc_stack {F U}.
Arguments rpc_wait_result {F U}.
Arguments chunks {F U}.
Arguments malloc_ok {F U}.
Arguments user {F U}.
#[export] Instance rpc_state_settable F U : Settable (rpc_state F U) := λ r,
  RpcState (conns r) (loop_entries r) (rpc_connections r) (rpc_stubs r) (rpc_stack r) (rpc_wait_result r)
    (chunks r) (malloc_ok r) (user r).

(** [USFSTL_RPC_LOCAL]. *)
Abbreviation USFSTL_RPC_LOCAL := 0%Z (only parsing).

(** What rpc.c calls: the functions of the program (connection, argument with
    its size, size of the result; the bytes left in the result buffer), the
    callbacks for extra data and for the end of a connection. *)
Class RpcEnv (F U : Type) := {
  call_user : F → Z → list Z → Z → M (rpc_state F U) (list Z);
  extra_transmit : Z → M (rpc_state F U) (list Z);
  extra_received : Z → list Z → M (rpc_state F U) unit;
  call_disconnected : Z → M (rpc_state F U) unit;
}.

Section io.
Context {F U : Type}.
Abbreviation W := (rpc_state F U).

Definition get_conn (c : Z) : M W usfstl_rpc_connection := st ← get; deref (conns st !! c).
Definition put_conn (c : Z) (x : usfstl_rpc_connection) : M W unit :=
  modify (λ st, st <| conns := <[c := x]> (conns st) |>).

(** How many bytes the next call transfers. *)
Definition next_chunk (n : Z) : M W Z :=
  st ← get;
  match chunks st with
  | [] => mret n
  | k :: rest => modify (λ st, st <| chunks := rest |>);; mret (Z.min k n)
  end.

(** ** rpc-posix.c *)

(** [read(fd, buf, n)]: the bytes, or [None] for EINTR. *)
Definition sys_read (c n : Z) : M W (option (list Z)) :=
  x ← get_conn c;
  match c_in x with
  | [] => fail Blocked
  | _ =>
      k ← next_chunk n;
      if k <? 0 then mret None
      else
        let bs := take (Z.to_nat k) (c_in x) in
        put_conn c (x <| c_in := drop (Z.to_nat k) (c_in x) |>);;
        mret (Some bs)
  end.

(** [write(fd, bs, n)]: how many bytes, or [None] for EINTR. *)
Definition sys_write (c : Z) (bs : list Z) : M W (option nat) :=
  k ← next_chunk (Z.of_nat (length bs));
  if k <? 0 then mret None
  else
    x ← get_conn c;
    put_conn c (x <| c_out := c_out x ++ take (Z.to_nat k) bs |>);;
    mret (Some (Z.to_nat k)).

Fixpoint rpc_write (fuel : nat) (c : Z) (buf : list Z) : M W unit :=
  if (length buf =? 0)%nat then mret tt
  else
    match fuel with
    | O => fail OutOfFuel
    | S fuel =>
        r ← sys_write c buf;
        match r with
        | None => rpc_write fuel c buf
        | Some k =>
            usfstl_assert ((0 <? k) && (k <=? length buf))%nat;;
            rpc_write fuel c (drop k buf)
        end
    end.

(** [cbuf] is what was read already. *)
Fixpoint rpc_read_loop (fuel : nat) (c : Z) (cbuf : list Z) (nbyte : nat) : M W (list Z) :=
  if (nbyte =? 0)%nat then mret cbuf
  else
    match fuel with
    | O => fail OutOfFuel
    | S fuel =>
        r ← sys_read c (Z.of_nat nbyte);
        match r with
        | None => rpc_read_loop fuel c cbuf nbyte
        | Some bs =>
            usfstl_assert ((0 <? length bs) && (length bs <=? nbyte))%nat;;
            rpc_read_loop fuel c (cbuf ++ bs) (nbyte - length bs)
        end
    end.

(** Every round transfers a byte or uses up an EINTR. *)
Definition rpc_read (c : Z) (nbyte : nat) : M W (list Z) :=
  st ← get; rpc_read_loop (nbyte + length (chunks st)) c [] nbyte.

(** [_usfstl_rpc_advance_buffers] for writing: what is left of the buffers. *)
Fixpoint advance_write (nbyte : nat) (bufs : list (list Z)) : M W (list (list Z)) :=
  match bufs with
  | [] => if (nbyte =? 0)%nat then mret [] else fail OutOfBounds
  | b :: rest =>
      if (nbyte =? 0)%nat then mret bufs
      else
        let size := Nat.min nbyte (length b) in
        if (length b - size =? 0)%nat then advance_write (nbyte - size) rest
        else mret (drop size b :: rest)
  end.

Fixpoint writev_loop (fuel : nat) (c : Z) (bufs : list (list Z)) (bufsize : nat) : M W unit :=
  if (bufsize =? 0)%nat then mret tt
  else
    match fuel with
    | O => fail OutOfFuel
    | S fuel =>
        r ← sys_write c (concat bufs);
        match r with
        | None => writev_loop fuel c bufs bufsize
        | Some k =>
            usfstl_assert ((0 <? k) && (k <=? bufsize))%nat;;
            bufs ← advance_write k bufs;
            writev_loop fuel c bufs (bufsize - k)
        end
    end.

Definition rpc_writev (c : Z) (vectors : list (list Z)) : M W unit :=
  st ← get;
  let bufsize := length (concat vectors) in
  writev_loop (bufsize + length (chunks st)) c vectors bufsize.

(** Bytes go to the first buffers that have room; a buffer is what it holds and
    its room left.  [_usfstl_rpc_advance_buffers] moves past those it filled. *)
Fixpoint advance_read (bs : list Z) (bufs : list (list Z * nat)) : M W (list (list Z * nat)) :=
  match bufs with
  | [] => match bs with [] => mret [] | _ => fail OutOfBounds end
  | (b, room) :: rest =>
      match bs with
      | [] => mret bufs
      | _ =>
          let size := Nat.min (length bs) room in
          if (room - size =? 0)%nat
          then l ← advance_read (drop size bs) rest; mret ((b ++ take size bs, 0%nat) :: l)
          else mret ((b ++ take size bs, (room - size)%nat) :: rest)
      end
  end.

Fixpoint readv_loop (fuel : nat) (c : Z) (bufs : list (list Z * nat)) (bufsize : nat) : M W (list (list Z)) :=
  if (bufsize =? 0)%nat then mret (map fst bufs)
  else
    match fuel with
    | O => fail OutOfFuel
    | S fuel =>
        r ← sys_read c (Z.of_nat bufsize);
        match r with
        | None => readv_loop fuel c bufs bufsize
        | Some bs =>
            usfstl_assert ((0 <? length bs) && (length bs <=? bufsize))%nat;;
            bufs ← advance_read bs bufs;
            readv_loop fuel c bufs (bufsize - length bs)
        end
    end.

Definition rpc_readv (c : Z) (lens : list nat) : M W (list (list Z)) :=
  st ← get;
  let bufsize := list_sum lens in
  readv_loop (bufsize + length (chunks st)) c (map (λ n, ([], n)) lens) bufsize.
End io.

Section rpc.
Context {F U : Type} {RE : RpcEnv F U}.
Abbreviation W := (rpc_state F U).

Definition mask (n : Z) : Z := Z.ldiff n USFSTL_VAR_DATA_SIZE.
Definition is_var (n : Z) : bool := negb (Z.land n USFSTL_VAR_DATA_SIZE =? 0).

(** ** The callee *)
Definition _usfstl_rpc_send_response (c status : Z) (ret : list Z) : M W unit :=
  rpc_writev c [le_split 4 USFSTL_RPC_TAG_RESPONSE; le_split 4 status; ret];;
  modify (λ st, st <| rpc_stack := take (length (rpc_stack st) - 1) (rpc_stack st) |>).

Definition usfstl_rpc_send_void_response (c : Z) : M W unit := _usfstl_rpc_send_response c 0 [].

(** rpc-rpc.c: [rpc_init] and [rpc_disconnect]. *)
Definition _impl_rpc_init (c : Z) (arg : list Z) : M W (list Z) :=
  x ← get_conn c;
  put_conn c (x <| initialized := true |>);;
  usfstl_assert (le_combine (take 4 arg) =? extra_len x);;
  mret (le_split 4 (extra_len x)).

Definition loop_unregister (c : Z) : M W unit :=
  st ← get;
  if bool_decide (c ∈ loop_entries st)
  then modify (λ st, st <| loop_entries := usfstl_loop_unregister c (loop_entries st) |>)
  else fail NullDeref.

Definition loop_register (c : Z) : M W unit :=
  modify (λ st, st <| loop_entries :=
    usfstl_loop_register (λ c, match conns st !! c with Some x => priority x | None => 0 end) c (loop_entries st) |>).

Definition _impl_rpc_disconnect (c : Z) : M W (list Z) :=
  x ← get_conn c;
  put_conn c (x <| broken := true |>);;
  when (has_disconnected x) (loop_unregister c;; call_disconnected c);;
  mret [].

(** The stub's function gets what its kind of declaration says; all of them are
    called with the argument and the size of the result. *)
Definition usfstl_rpc_make_call (c : Z) (stub : usfstl_rpc_stub F) (arg : list Z) (retsz : Z) : M W (list Z) :=
  match stub_fn stub with
  | Rpc_init => _impl_rpc_init c arg
  | Rpc_disconnect => _impl_rpc_disconnect c
  | Rpc_user f => call_user f c arg retsz
  end.

(** The result buffer has [retsz] bytes, all of which are sent: the function may
    not write more, and bytes that it does not write are not initialised. *)
Definition ret_buffer (retsz : Z) (ret : list Z) : M W unit :=
  if Z.of_nat (length ret) >? retsz then fail OutOfBounds
  else if Z.of_nat (length ret) <? retsz then fail Uninitialized
  else mret tt.

Definition usfstl_rpc_handle_call (c : Z) (stub : usfstl_rpc_stub F) (argsz retsz : Z) : M W unit :=
  st ← get;
  usfstl_assert (malloc_ok st || ((argsz <=? USFSTL_MAX_RPC_SIZE_ON_STACK) && (retsz <=? USFSTL_MAX_RPC_SIZE_ON_STACK)));;
  arg ← rpc_read c (Z.to_nat argsz);
  ret ← usfstl_rpc_make_call c stub arg retsz;
  ret_buffer retsz ret;;
  _usfstl_rpc_send_response c 0 ret.

(** Does a stub match a request? *)
Definition stub_matches (hdr : usfstl_rpc_request) (stub : usfstl_rpc_stub F) : bool :=
  let r := stub_req stub in
  bool_decide (req_name r = req_name hdr) &&
  Bool.eqb (is_var (argsize hdr)) (is_var (argsize r)) &&
  (if is_var (argsize hdr) then mask (argsize r) <=? mask (argsize hdr) else mask (argsize hdr) =? argsize r) &&
  Bool.eqb (is_var (retsize hdr)) (is_var (retsize r)) &&
  (if is_var (retsize hdr) then mask (retsize r) <=? mask (retsize hdr) else mask (retsize hdr) =? retsize r).

Fixpoint find_stub (hdr : usfstl_rpc_request) (l : list (option (usfstl_rpc_stub F))) : option (usfstl_rpc_stub F) :=
  match l with
  | [] => None
  | Some stub :: l => if stub_matches hdr stub then Some stub else find_stub hdr l
  | None :: l => find_stub hdr l
  end.

Definition usfstl_rpc_find_stub (hdr : usfstl_rpc_request) : M W (option (usfstl_rpc_stub F)) :=
  st ← get; mret (find_stub hdr (rpc_stubs st)).

Definition usfstl_rpc_handle_one_call (c : Z) (hdr : usfstl_rpc_request) : M W unit :=
  st ← get;
  usfstl_assert (Z.of_nat (length (rpc_stack st)) <? USFSTL_MAX_RPC_STACK);;
  modify (λ st, st <| rpc_stack := rpc_stack st ++ [c] |>);;
  stub ← usfstl_rpc_find_stub hdr;
  match stub with
  | Some stub => usfstl_rpc_handle_call c stub (mask (argsize hdr)) (mask (retsize hdr))
  | None => _usfstl_rpc_send_response c (u32 (- ENOENT)) []
  end.

Definition usfstl_rpc_handle_one (c : Z) : M W Z :=
  x ← get_conn c;
  tagb ← rpc_read c 4;
  let tag := le_combine tagb in
  if (tag =? USFSTL_RPC_TAG_RESPONSE) || (tag =? swap32 USFSTL_RPC_TAG_RESPONSE) then mret tag
  else if negb ((tag =? USFSTL_RPC_TAG_REQUEST) || (tag =? swap32 USFSTL_RPC_TAG_REQUEST)) then fail Assertion
  else
    bufs ← rpc_readv c [request_size; Z.to_nat (extra_len x)];
    match bufs with
    | [h; extra] =>
        let hdr := request_of h in
        let hdr := if tag =? swap32 USFSTL_RPC_TAG_REQUEST
                   then Request (req_name hdr) (swap32 (retsize hdr)) (swap32 (argsize hdr)) else hdr in
        when (negb (extra_len x =? 0)) (extra_received c extra);;
        usfstl_rpc_handle_one_call c hdr;;
        mret 0
    | _ => fail OutOfBounds
    end.

(** ** The main loop *)
Definition usfstl_rpc_loop_handler (c : Z) : M W unit :=
  tag ← usfstl_rpc_handle_one c; usfstl_assert (tag =? 0).

Definition usfstl_rpc_loop_wait_handler (c : Z) : M W unit :=
  tag ← usfstl_rpc_handle_one c;
  when ((tag =? USFSTL_RPC_TAG_RESPONSE) || (tag =? swap32 USFSTL_RPC_TAG_RESPONSE))
    (modify (λ st, st <| rpc_wait_result := tag |>)).

(** [usfstl_loop_wait_and_handle] when the connections with input are readable. *)
Definition loop_wait_and_handle : M W unit :=
  st ← get;
  match loop_choose (λ c, match conns st !! c with
                          | Some x => negb (length (c_in x) =? 0)%nat
                          | None => false
                          end) (loop_entries st) with
  | None => fail Blocked
  | Some c =>
      x ← get_conn c;
      if wait_handler x then usfstl_rpc_loop_wait_handler c else usfstl_rpc_loop_handler c
  end.

Definition PRIORITY_MAX : Z := 2147483647.

Fixpoint wait_and_handle_loop (fuel : nat) (wait : option Z) : M W unit :=
  match fuel with
  | O => fail OutOfFuel
  | S fuel =>
      modify (λ st, st <| rpc_wait_result := 0 |>);;
      match wait with
      | None => loop_wait_and_handle
      | Some c =>
          st ← get;
          let wait_registered := bool_decide (c ∈ loop_entries st) in
          when wait_registered (loop_unregister c);;
          x ← get_conn c;
          put_conn c (x <| priority := PRIORITY_MAX |> <| wait_handler := true |>);;
          loop_register c;;
          loop_wait_and_handle;;
          loop_unregister c;;
          x' ← get_conn c;
          put_conn c (x' <| priority := priority x |> <| wait_handler := false |>);;
          when wait_registered (loop_register c);;
          st ← get;
          if rpc_wait_result st =? 0 then wait_and_handle_loop fuel wait else mret tt
      end
  end.

Definition usfstl_rpc_wait_and_handle (fuel : nat) (wait : option Z) : M W Z :=
  wait_and_handle_loop fuel wait;;
  st ← get;
  modify (λ st, st <| rpc_wait_result := 0 |>);;
  mret (rpc_wait_result st).

Definition usfstl_rpc_handle (fuel : nat) : M W unit :=
  r ← usfstl_rpc_wait_and_handle fuel None; usfstl_assert (r =? 0).

Definition usfstl_wait_for_response (fuel : nat) (c : Z) : M W Z := usfstl_rpc_wait_and_handle fuel (Some c).

(** ** The caller *)

(** [a ?: b]. *)
Definition elvis (a b : Z) : Z := if a =? 0 then b else a.

(** The name in a request. *)
Definition pad_name (name : list Z) : list Z := name ++ replicate (name_size - length name) 0.

(** [usfstl_rpc_call] on an initialized connection.  [arg] are the bytes at the
    argument pointer. *)
Definition rpc_call_initialized (fuel : nat) (c : Z) (name arg : list Z) (argmin argsz retmin retsz : Z)
    : M W (list Z) :=
  x ← get_conn c;
  let req_argsize := elvis argsz argmin in
  let req_retsize := if retsz =? 0 then retmin else Z.lor retsz USFSTL_VAR_DATA_SIZE in
  let argsize_masked := elvis (mask argsz) argmin in
  usfstl_assert (negb (broken x));;
  let retsz := elvis retsz retmin in
  (* strcpy to the 128 bytes of the request *)
  (if (length name <? name_size)%nat then mret tt else fail OutOfBounds);;
  let req := Request (pad_name name) req_retsize req_argsize in
  (if (Z.to_nat argsize_masked <=? length arg)%nat then mret tt else fail OutOfBounds);;
  let arg := take (Z.to_nat argsize_masked) arg in
  if c =? USFSTL_RPC_LOCAL then
    stub ← usfstl_rpc_find_stub req;
    match stub with
    | None => fail Assertion
    | Some stub =>
        when (negb (extra_len x =? 0)) (buf ← extra_transmit c; extra_received c buf);;
        usfstl_rpc_make_call c stub arg retsz
    end
  else
    buf ← (if negb (extra_len x =? 0) then extra_transmit c else mret []);
    rpc_writev c [le_split 4 USFSTL_RPC_TAG_REQUEST; request_bytes req; buf; arg];;
    tag ← usfstl_wait_for_response fuel c;
    respb ← rpc_read c 4;
    let error := le_combine respb in
    let error := if tag =? swap32 USFSTL_RPC_TAG_RESPONSE then swap32 error else error in
    usfstl_assert (error =? 0);;
    rpc_read c (Z.to_nat retsz).

(** The name of [rpc_init], as [USFSTL_RPC_VAR_METHOD_VAR] forms it. *)
Definition rpc_init_name : list Z :=
  map (λ a, Z.of_nat (Ascii.nat_of_ascii a))
    (String.list_ascii_of_string "rpc_init-struct usfstl_rpc_init*-struct usfstl_rpc_init*").

Definition usfstl_rpc_initialize (fuel : nat) (c : Z) : M W unit :=
  x ← get_conn c;
  put_conn c (x <| initialized := true |>);;
  rpc_call_initialized fuel c rpc_init_name (le_split 4 (extra_len x)) 4 (Z.lor 4 USFSTL_VAR_DATA_SIZE) 4 4;;
  mret tt.

Definition usfstl_rpc_call (fuel : nat) (c : Z) (name arg : list Z) (argmin argsz retmin retsz : Z) : M W (list Z) :=
  x ← get_conn c;
  when (negb (initialized x)) (usfstl_rpc_initialize fuel c);;
  rpc_call_initialized fuel c name arg argmin argsz retmin retsz.

(** ** Connections *)
Definition usfstl_rpc_add_connection (fuel : nat) (c : Z) : M W unit :=
  x ← get_conn c;
  when (negb (initialized x)) (usfstl_rpc_initialize fuel c);;
  x ← get_conn c;
  put_conn c (x <| wait_handler := false |>);;
  modify (λ st, st <| rpc_connections := rpc_connections st ++ [c] |>);;
  loop_register c.

Definition usfstl_rpc_del_connection_raw (c : Z) : M W unit :=
  loop_unregister c;;
  st ← get;
  if bool_decide (c ∈ rpc_connections st)
  then modify (λ st, st <| rpc_connections := List.filter (λ e, negb (e =? c)) (rpc_connections st) |>)
  else fail NullDeref.

Definition rpc_disconnect_name : list Z :=
  map (λ a, Z.of_nat (Ascii.nat_of_ascii a)) (String.list_ascii_of_string "rpc_disconnect--uint32_t").

Definition usfstl_rpc_del_connection (fuel : nat) (c : Z) : M W unit :=
  usfstl_rpc_call fuel c rpc_disconnect_name (le_split 4 0) 4 0 0 0;;
  usfstl_rpc_del_connection_raw c;;
  x ← get_conn c;
  put_conn c (x <| broken := true |>).
End rpc.

(** ** Methods (the macros of rpc.h)

    The kinds of method by whether argument and result are of variable size. *)
Inductive method_kind := METHOD | METHOD_VAR | VAR_METHOD | VAR_METHOD_VAR.

Definition var_in (k : method_kind) : bool := match k with METHOD_VAR | VAR_METHOD_VAR => true | _ => false end.
Definition var_out (k : method_kind) : bool := match k with VAR_METHOD | VAR_METHOD_VAR => true | _ => false end.

(** The request in the stub of the callee; a method without result has size 0. *)
Definition callee_request (k : method_kind) (name : list Z) (sizeof_in sizeof_out : Z) : usfstl_rpc_request :=
  Request (pad_name name)
    (if var_out k then Z.lor USFSTL_VAR_DATA_SIZE sizeof_out else sizeof_out)
    (if var_in k then Z.lor USFSTL_VAR_DATA_SIZE sizeof_in else sizeof_in).

(** The call that the stub of the caller makes; [argsz] and [retsz] are given by
    the program where they are variable. *)
Definition caller_stub {F U : Type} {RE : RpcEnv F U} (fuel : nat) (k : method_kind) (c : Z) (name arg : list Z)
    (sizeof_in sizeof_out argsz retsz : Z) : M (rpc_state F U) (list Z) :=
  usfstl_rpc_call fuel c name arg
    sizeof_in (if var_in k then Z.lor argsz USFSTL_VAR_DATA_SIZE else 0)
    sizeof_out (if var_out k then retsz else 0).
