(* ===== verification/RpcProps.v ===== *)
(** * Theorems on remote procedure calls (src/rpc.c, src/rpc-posix.c) *)
From S2P Require Import Prelude Bytes Loop Rpc.

(** ** Reading and writing *)
Section io.
Context {F U : Type}.
Abbreviation W := (rpc_state F U).

(** Connection [c] becomes [x], and the transfers to come [ch]. *)
Definition upd_io (st : W) (c : Z) (x : usfstl_rpc_connection) (ch : list Z) : W :=
  st <| conns := <[c := x]> (conns st) |> <| chunks := ch |>.

(** No call transfers nothing (which is the end of the connection). *)
Definition chunks_ok (ch : list Z) : Prop := Forall (λ k, k ≠ 0) ch.

Lemma upd_io_id (st : W) c x : conns st !! c = Some x → upd_io st c x (chunks st) = st.
Proof. intros H. unfold upd_io. destruct st. cbn in *. by rewrite insert_id. Qed.

Lemma upd_io_twice (st : W) c x ch x' ch' : upd_io (upd_io st c x ch) c x' ch' = upd_io st c x' ch'.
Proof. unfold upd_io. destruct st. cbn. by rewrite insert_insert_eq. Qed.

Lemma upd_io_lookup (st : W) c x ch : conns (upd_io st c x ch) !! c = Some x.
Proof. apply lookup_insert_eq. Qed.

Lemma get_conn_run (st : W) c x : conns st !! c = Some x → get_conn c st = Ok (x, st).
Proof. intros H. unfold get_conn. erewrite bind_ok by done. by rewrite H. Qed.

Lemma put_conn_run (st : W) c x : put_conn c x st = Ok (tt, upd_io st c x (chunks st)).
Proof. unfold put_conn, upd_io, modify. by destruct st. Qed.

(** One transfer of at most [n] bytes. *)
Lemma next_chunk_run (st : W) n : 0 < n → chunks_ok (chunks st) →
  ∃ k ch, next_chunk n st = Ok (k, st <| chunks := ch |>) ∧ chunks_ok ch ∧
    (k < 0 ∧ (length ch < length (chunks st))%nat ∨ 0 < k ≤ n ∧ (length ch ≤ length (chunks st))%nat).
Proof.
  intros Hn Hok. unfold next_chunk. erewrite bind_ok by done. destruct (chunks st) as [|k rest] eqn:E.
  - exists n, []. split_and!; [by destruct st; cbn in *; subst|constructor|]. right. cbn. lia.
  - inversion Hok as [|? ? Hk Hr]; subst. exists (Z.min k n), rest. split_and!; [done|done|]. cbn. lia.
Qed.

Lemma sys_read_run (st : W) c x n : conns st !! c = Some x → 0 < n ≤ Z.of_nat (length (c_in x)) →
  chunks_ok (chunks st) →
  ∃ ch, chunks_ok ch ∧
    ((length ch < length (chunks st))%nat ∧ sys_read c n st = Ok (None, upd_io st c x ch) ∨
     ∃ k, (0 < k ≤ Z.to_nat n)%nat ∧ (length ch ≤ length (chunks st))%nat ∧
       sys_read c n st = Ok (Some (take k (c_in x)), upd_io st c (x <| c_in := drop k (c_in x) |>) ch)).
Proof.
  intros Hx Hn Hok. unfold sys_read. erewrite bind_ok by (by apply get_conn_run).
  destruct (next_chunk_run st n ltac:(lia) Hok) as (k & ch & Hrun & Hch & Hk). exists ch. split; [done|].
  destruct (c_in x) as [|b bs] eqn:Hin; [cbn in Hn; lia|]. erewrite bind_ok by exact Hrun. destruct Hk as [[H1 H2]|[H1 H2]].
  - left. split; [done|]. replace (k <? 0) with true by lia. unfold mret, M_ret. do 2 f_equal.
    unfold upd_io. destruct st. cbn in *. by rewrite insert_id.
  - right. exists (Z.to_nat k). replace (k <? 0) with false by lia. split_and!; [lia..|].
    erewrite bind_ok by apply put_conn_run. done.
Qed.

Lemma sys_write_run (st : W) c x bs : conns st !! c = Some x → bs ≠ [] → chunks_ok (chunks st) →
  ∃ ch, chunks_ok ch ∧
    ((length ch < length (chunks st))%nat ∧ sys_write c bs st = Ok (None, upd_io st c x ch) ∨
     ∃ k, (0 < k ≤ length bs)%nat ∧ (length ch ≤ length (chunks st))%nat ∧
       sys_write c bs st = Ok (Some k, upd_io st c (x <| c_out := c_out x ++ take k bs |>) ch)).
Proof.
  intros Hx Hbs Hok. unfold sys_write.
  assert (0 < Z.of_nat (length bs)) as Hl by (destruct bs; [done|cbn; lia]).
  destruct (next_chunk_run st _ Hl Hok) as (k & ch & Hrun & Hch & Hk). exists ch. split; [done|].
  erewrite bind_ok by exact Hrun. destruct Hk as [[H1 H2]|[H1 H2]].
  - left. split; [done|]. replace (k <? 0) with true by lia. unfold mret, M_ret. do 2 f_equal.
    unfold upd_io. destruct st. cbn in *. by rewrite insert_id.
  - right. exists (Z.to_nat k). replace (k <? 0) with false by lia. split_and!; [lia..|].
    erewrite bind_ok by (by apply get_conn_run). by erewrite bind_ok by apply put_conn_run.
Qed.

(** [rpc_read] returns the next bytes, however they arrive. *)
Lemma rpc_read_loop_run fuel : ∀ (st : W) c x cbuf n,
  conns st !! c = Some x → (n ≤ length (c_in x))%nat → chunks_ok (chunks st) →
  (n + length (chunks st) ≤ fuel)%nat →
  ∃ ch, chunks_ok ch ∧
    rpc_read_loop fuel c cbuf n st =
    Ok (cbuf ++ take n (c_in x), upd_io st c (x <| c_in := drop n (c_in x) |>) ch).
Proof.
  induction fuel as [|fuel IH]; intros st c x cbuf n Hx Hn Hok Hf.
  all: cbn [rpc_read_loop]; destruct (Nat.eqb_spec n 0) as [->|Hn0]; [|try lia].
  1, 2: exists (chunks st); split; [done|]; rewrite take_0, app_nil_r, drop_0;
    replace (x <| c_in := c_in x |>) with x by (by destruct x); by rewrite upd_io_id.
  destruct (sys_read_run st c x (Z.of_nat n) Hx ltac:(lia) Hok) as (ch & Hch & [[Hl Hr]|(k & Hk & Hl & Hr)]).
  - erewrite bind_ok by exact Hr. cbv iota beta.
    destruct (IH (upd_io st c x ch) c x cbuf n (upd_io_lookup _ _ _ _) Hn Hch ltac:(cbn; lia)) as (ch' & H1 & H2).
    exists ch'. split; [done|]. by rewrite H2, upd_io_twice.
  - erewrite bind_ok by exact Hr. cbv iota beta. rewrite Nat2Z.id in Hk.
    assert (length (take k (c_in x)) = k) as Ht by (rewrite length_take; lia). rewrite Ht.
    rewrite (proj2 (Nat.ltb_lt 0 k)), (proj2 (Nat.leb_le k n)) by lia. erewrite bind_ok by done.
    set (x1 := x <| c_in := drop k (c_in x) |>).
    destruct (IH (upd_io st c x1 ch) c x1 (cbuf ++ take k (c_in x)) (n - k)%nat (upd_io_lookup _ _ _ _))
      as (ch' & H1 & H2); [cbn; rewrite length_drop; lia|done|cbn; lia|].
    exists ch'. split; [done|]. rewrite H2, upd_io_twice. subst x1. cbn. rewrite <- app_assoc, drop_drop.
    replace (take k (c_in x) ++ take (n - k) (drop k (c_in x)))%list with (take n (c_in x)).
    + by replace (k + (n - k))%nat with n by lia.
    + rewrite <- (take_drop k (take n (c_in x))) at 1. rewrite take_take, Nat.min_l by lia.
      rewrite skipn_firstn_comm. done.
Qed.

Lemma rpc_read_run (st : W) c x n : conns st !! c = Some x → (n ≤ length (c_in x))%nat → chunks_ok (chunks st) →
  ∃ ch, chunks_ok ch ∧ rpc_read c n st = Ok (take n (c_in x), upd_io st c (x <| c_in := drop n (c_in x) |>) ch).
Proof.
  intros Hx Hn Hok. unfold rpc_read. erewrite bind_ok by done. by apply (rpc_read_loop_run _ st c x []).
Qed.

Lemma advance_write_run bufs : ∀ k (st : W), (k ≤ length (concat bufs))%nat →
  ∃ bufs', advance_write k bufs st = Ok (bufs', st) ∧ concat bufs' = drop k (concat bufs).
Proof.
  induction bufs as [|b bufs IH]; intros k st Hk; cbn [advance_write].
  - cbn in Hk. replace k with 0%nat by lia. by exists [].
  - destruct (Nat.eqb_spec k 0) as [->|Hk0]; [by exists (b :: bufs)|]. cbn in Hk. rewrite length_app in Hk.
    destruct (Nat.eqb_spec (length b - Nat.min k (length b)) 0) as [H0|H0].
    + destruct (IH (k - Nat.min k (length b))%nat st ltac:(lia)) as (bufs' & H1 & H2). exists bufs'.
      split; [done|]. rewrite H2. cbn. rewrite drop_app, (drop_ge b) by lia.
      by replace (k - Nat.min k (length b))%nat with (k - length b)%nat by lia.
    + exists (drop (Nat.min k (length b)) b :: bufs). split; [done|]. cbn.
      rewrite Nat.min_l by lia. rewrite drop_app. by replace (k - length b)%nat with 0%nat by lia.
Qed.

Lemma writev_loop_run fuel : ∀ (st : W) c x bufs,
  conns st !! c = Some x → chunks_ok (chunks st) → (length (concat bufs) + length (chunks st) ≤ fuel)%nat →
  ∃ ch, chunks_ok ch ∧
    writev_loop fuel c bufs (length (concat bufs)) st =
    Ok (tt, upd_io st c (x <| c_out := c_out x ++ concat bufs |>) ch).
Proof.
  induction fuel as [|fuel IH]; intros st c x bufs Hx Hok Hf.
  all: cbn [writev_loop]; destruct (Nat.eqb_spec (length (concat bufs)) 0) as [H0|H0]; [|try lia].
  1, 2: exists (chunks st); split; [done|]; apply nil_length_inv in H0; rewrite H0, app_nil_r;
    replace (x <| c_out := c_out x |>) with x by (by destruct x); by rewrite upd_io_id.
  destruct (sys_write_run st c x (concat bufs) Hx ltac:(by intros E; rewrite E in H0) Hok)
    as (ch & Hch & [[Hl Hr]|(k & Hk & Hl & Hr)]).
  - erewrite bind_ok by exact Hr. cbv iota beta.
    destruct (IH (upd_io st c x ch) c x bufs (upd_io_lookup _ _ _ _) Hch ltac:(cbn; lia)) as (ch' & H1 & H2).
    exists ch'. split; [done|]. by rewrite H2, upd_io_twice.
  - erewrite bind_ok by exact Hr. cbv iota beta.
    rewrite (proj2 (Nat.ltb_lt 0 k)), (proj2 (Nat.leb_le k _)) by lia. erewrite bind_ok by done.
    set (x1 := x <| c_out := _ |>).
    destruct (advance_write_run bufs k (upd_io st c x1 ch) ltac:(lia)) as (bufs' & Ha & Hc).
    erewrite bind_ok by exact Ha. replace (length (concat bufs) - k)%nat with (length (concat bufs'))
      by (rewrite Hc, length_drop; lia).
    destruct (IH (upd_io st c x1 ch) c x1 bufs' (upd_io_lookup _ _ _ _) Hch) as (ch' & H1 & H2).
    { rewrite Hc, length_drop. cbn. lia. }
    exists ch'. split; [done|]. rewrite H2, upd_io_twice. subst x1. cbn. by rewrite Hc, <- app_assoc, take_drop.
Qed.

Lemma rpc_writev_run (st : W) c x bufs : conns st !! c = Some x → chunks_ok (chunks st) →
  ∃ ch, chunks_ok ch ∧ rpc_writev c bufs st = Ok (tt, upd_io st c (x <| c_out := c_out x ++ concat bufs |>) ch).
Proof. intros Hx Hok. unfold rpc_writev. erewrite bind_ok by done. by apply writev_loop_run. Qed.

(** What the buffers hold after [bs] arrived. *)
Fixpoint filled_bufs (bs : list Z) (bufs : list (list Z * nat)) : list (list Z * nat) :=
  match bufs with
  | [] => []
  | (b, room) :: rest => (b ++ take room bs, (room - length (take room bs))%nat) :: filled_bufs (drop room bs) rest
  end.

Definition room_of (bufs : list (list Z * nat)) : nat := list_sum (map snd bufs).

Lemma room_cons b r bufs : room_of ((b, r) :: bufs) = (r + room_of bufs)%nat.
Proof. done. Qed.

Lemma filled_nil bufs : filled_bufs [] bufs = bufs.
Proof.
  induction bufs as [|[b r] bufs IH]; cbn; [done|]. rewrite take_nil, app_nil_r, drop_nil, IH. cbn.
  by rewrite Nat.sub_0_r.
Qed.

Lemma advance_read_run bufs : ∀ bs (st : W), (length bs ≤ room_of bufs)%nat →
  advance_read bs bufs st = Ok (filled_bufs bs bufs, st).
Proof.
  induction bufs as [|[b r] bufs IH]; intros bs st Hl; cbn [advance_read].
  - destruct bs; [done|]. cbn in Hl. lia.
  - destruct bs as [|z bs]; [by rewrite filled_nil|]. cbv iota. set (l := z :: bs) in *.
    assert (length l ≤ r + room_of bufs)%nat as Hl' by exact Hl. clearbody l. cbn [filled_bufs].
    destruct (Nat.eqb_spec (r - Nat.min (length l) r) 0) as [H0|H0].
    + replace (Nat.min (length l) r) with r by lia. erewrite bind_ok by (apply IH; rewrite length_drop; lia).
      unfold mret, M_ret. do 4 f_equal. rewrite length_take. lia.
    + unfold mret, M_ret. rewrite Nat.min_l by lia. rewrite !take_ge, drop_ge, filled_nil by lia. done.
Qed.

Lemma filled_app bs1 : ∀ bs2 bufs, filled_bufs (bs1 ++ bs2) bufs = filled_bufs bs2 (filled_bufs bs1 bufs).
Proof.
  intros bs2 bufs. revert bs1 bs2. induction bufs as [|[b r] bufs IH]; intros bs1 bs2; cbn; [done|].
  rewrite take_app, drop_app, IH, length_app, length_take, <- app_assoc. f_equal.
  - f_equal; [|rewrite !length_take; lia]. f_equal. f_equal. f_equal. lia.
  - f_equal. f_equal. lia.
Qed.

Lemma filled_room bs : ∀ bufs, (length bs ≤ room_of bufs)%nat →
  room_of (filled_bufs bs bufs) = (room_of bufs - length bs)%nat.
Proof.
  intros bufs. revert bs. induction bufs as [|[b r] bufs IH]; intros bs Hl; [cbn in *; lia|].
  cbn [filled_bufs]. rewrite !room_cons in *.
  rewrite IH by (rewrite length_drop; lia). rewrite length_take, length_drop. lia.
Qed.

Lemma readv_loop_run fuel : ∀ (st : W) c x bufs,
  conns st !! c = Some x → chunks_ok (chunks st) → (room_of bufs ≤ length (c_in x))%nat →
  (room_of bufs + length (chunks st) ≤ fuel)%nat →
  ∃ ch, chunks_ok ch ∧
    readv_loop fuel c bufs (room_of bufs) st =
    Ok (map fst (filled_bufs (take (room_of bufs) (c_in x)) bufs),
        upd_io st c (x <| c_in := drop (room_of bufs) (c_in x) |>) ch).
Proof.
  induction fuel as [|fuel IH]; intros st c x bufs Hx Hok Hin Hf.
  all: cbn [readv_loop]; destruct (Nat.eqb_spec (room_of bufs) 0) as [H0|H0]; [|try lia].
  1, 2: exists (chunks st); split; [done|]; rewrite H0, take_0, drop_0, filled_nil;
    replace (x <| c_in := c_in x |>) with x by (by destruct x); by rewrite upd_io_id.
  destruct (sys_read_run st c x (Z.of_nat (room_of bufs)) Hx ltac:(lia) Hok)
    as (ch & Hch & [[Hl Hr]|(k & Hk & Hl & Hr)]).
  - erewrite bind_ok by exact Hr. cbv iota beta.
    destruct (IH (upd_io st c x ch) c x bufs (upd_io_lookup _ _ _ _) Hch Hin ltac:(cbn; lia)) as (ch' & H1 & H2).
    exists ch'. split; [done|]. by rewrite H2, upd_io_twice.
  - erewrite bind_ok by exact Hr. cbv iota beta. rewrite Nat2Z.id in Hk.
    assert (length (take k (c_in x)) = k) as Ht by (rewrite length_take; lia). rewrite Ht.
    rewrite (proj2 (Nat.ltb_lt 0 k)), (proj2 (Nat.leb_le k _)) by lia. erewrite bind_ok by done.
    erewrite bind_ok by (apply advance_read_run; rewrite Ht; lia). set (bufs1 := filled_bufs _ bufs).
    assert (room_of bufs1 = (room_of bufs - k)%nat) as Hr1 by (unfold bufs1; rewrite filled_room; lia).
    set (x1 := x <| c_in := drop k (c_in x) |>). rewrite <- Hr1.
    destruct (IH (upd_io st c x1 ch) c x1 bufs1 (upd_io_lookup _ _ _ _) Hch) as (ch' & H1 & H2);
      [cbn; rewrite length_drop; lia|cbn; lia|].
    exists ch'. split; [done|]. rewrite H2, upd_io_twice. unfold bufs1. rewrite <- filled_app. fold bufs1.
    subst x1. cbn. rewrite Hr1, drop_drop. replace (k + (room_of bufs - k))%nat with (room_of bufs) by lia.
    do 4 f_equal. rewrite <- (take_drop k (take (room_of bufs) (c_in x))). rewrite take_take, Nat.min_l by lia.
    by rewrite skipn_firstn_comm.
Qed.

Lemma rpc_readv_run (st : W) c x n1 n2 : conns st !! c = Some x → (n1 + n2 ≤ length (c_in x))%nat →
  chunks_ok (chunks st) →
  ∃ ch, chunks_ok ch ∧
    rpc_readv c [n1; n2] st =
    Ok ([take n1 (c_in x); take n2 (drop n1 (c_in x))],
        upd_io st c (x <| c_in := drop (n1 + n2) (c_in x) |>) ch).
Proof.
  intros Hx Hn Hok. unfold rpc_readv. erewrite bind_ok by done.
  set (bufs := map _ _). assert (room_of bufs = (n1 + n2)%nat) as Hr by (unfold room_of; cbn; lia).
  change (list_sum [n1; n2]) with (room_of bufs).
  destruct (readv_loop_run (room_of bufs + length (chunks st)) st c x bufs Hx Hok ltac:(lia) ltac:(lia))
    as (ch & H1 & H2).
  exists ch. split; [done|]. rewrite H2, Hr. do 2 f_equal. cbn. f_equal; [by rewrite take_take, Nat.min_l by lia|].
  f_equal. rewrite skipn_firstn_comm, take_take. f_equal. lia.
Qed.
End io.

(** ** States

    The state [st] with connection [c] as [x] and the other parts that a call
    changes. *)
Definition rs {F U : Type} (st : rpc_state F U) (c : Z) (x : usfstl_rpc_connection) (ch : list Z) (u : U)
    (stk : list Z) (le : list Z) (wr : Z) : rpc_state F U :=
  RpcState (<[c := x]> (conns st)) le (rpc_connections st) (rpc_stubs st) stk wr ch (malloc_ok st) u.

Section states.
Context {F U : Type}.
Abbreviation W := (rpc_state F U).

Lemma rs_id (st : W) c x : conns st !! c = Some x →
  rs st c x (chunks st) (user st) (rpc_stack st) (loop_entries st) (rpc_wait_result st) = st.
Proof. intros H. unfold rs. destruct st. cbn in *. by rewrite insert_id. Qed.

Lemma rs_upd_io (st : W) c x ch u stk le wr x' ch' :
  upd_io (rs st c x ch u stk le wr) c x' ch' = rs st c x' ch' u stk le wr.
Proof. unfold upd_io, rs. destruct st. cbn. by rewrite insert_insert_eq. Qed.

Lemma rs_lookup (st : W) c x ch u stk le wr : conns (rs st c x ch u stk le wr) !! c = Some x.
Proof. apply lookup_insert_eq. Qed.

Lemma rs_get (st : W) c x ch u stk le wr :
  get_conn c (rs st c x ch u stk le wr) = Ok (x, rs st c x ch u stk le wr).
Proof. apply get_conn_run, rs_lookup. Qed.

Lemma rs_put (st : W) c x ch u stk le wr x' :
  put_conn c x' (rs st c x ch u stk le wr) = Ok (tt, rs st c x' ch u stk le wr).
Proof. rewrite put_conn_run. by rewrite rs_upd_io. Qed.

Lemma rs_read (st : W) c x ch u stk le wr bs rest : chunks_ok ch → c_in x = bs ++ rest →
  ∃ ch', chunks_ok ch' ∧
    rpc_read c (length bs) (rs st c x ch u stk le wr) =
    Ok (bs, rs st c (x <| c_in := rest |>) ch' u stk le wr).
Proof.
  intros Hch Hin. destruct (rpc_read_run (rs st c x ch u stk le wr) c x (length bs) (rs_lookup _ _ _ _ _ _ _ _))
    as (ch' & H1 & H2); [rewrite Hin, length_app; lia|done|].
  exists ch'. split; [done|]. by rewrite H2, rs_upd_io, Hin, take_app_length, drop_app_length.
Qed.

Lemma rs_readv (st : W) c x ch u stk le wr b1 b2 rest : chunks_ok ch → c_in x = b1 ++ b2 ++ rest →
  ∃ ch', chunks_ok ch' ∧
    rpc_readv c [length b1; length b2] (rs st c x ch u stk le wr) =
    Ok ([b1; b2], rs st c (x <| c_in := rest |>) ch' u stk le wr).
Proof.
  intros Hch Hin.
  destruct (rpc_readv_run (rs st c x ch u stk le wr) c x (length b1) (length b2) (rs_lookup _ _ _ _ _ _ _ _))
    as (ch' & H1 & H2); [rewrite Hin, !length_app; lia|done|].
  exists ch'. split; [done|]. rewrite H2, rs_upd_io, Hin, take_app_length, <- drop_drop, drop_app_length.
  by rewrite take_app_length, drop_app_length.
Qed.

Lemma rs_writev (st : W) c x ch u stk le wr bufs : chunks_ok ch →
  ∃ ch', chunks_ok ch' ∧
    rpc_writev c bufs (rs st c x ch u stk le wr) =
    Ok (tt, rs st c (x <| c_out := c_out x ++ concat bufs |>) ch' u stk le wr).
Proof.
  intros Hch. destruct (rpc_writev_run (rs st c x ch u stk le wr) c x bufs (rs_lookup _ _ _ _ _ _ _ _) Hch)
    as (ch' & H1 & H2). exists ch'. split; [done|]. by rewrite H2, rs_upd_io.
Qed.
End states.

(** ** The callee *)

(** Requests that fit their fields. *)
Definition request_ok (r : usfstl_rpc_request) : Prop :=
  length (req_name r) = name_size ∧ 0 ≤ retsize r < 2^32 ∧ 0 ≤ argsize r < 2^32.

Lemma request_roundtrip r : request_ok r → request_of (request_bytes r) = r.
Proof.
  intros (Hn & Hr & Ha). unfold request_of, request_bytes.
  change 132%nat with (name_size + 4)%nat. change 128%nat with name_size.
  rewrite <- drop_drop, take_app_length', drop_app_length' by done.
  rewrite take_app_length', drop_app_length' by (by rewrite le_split_length).
  rewrite take_ge by (by rewrite le_split_length). rewrite !le_combine_split.
  change (8 * Z.of_nat 4) with 32. rewrite !Z.mod_small by done. by destruct r.
Qed.

Lemma request_length r : request_ok r → length (request_bytes r) = request_size.
Proof. intros (Hn & _). unfold request_bytes. by rewrite !length_app, !le_split_length, Hn. Qed.

(** The program's functions as functions of its state. *)
Record pure_env {F U : Type} (RE : RpcEnv F U) (g : F → U → list Z → Z → list Z * U)
    (rx : U → list Z → U) (tx : U → list Z) : Prop := {
  pe_call f c arg rsz st : call_user f c arg rsz st =
    Ok ((g f (user st) arg rsz).1, st <| user := (g f (user st) arg rsz).2 |>);
  pe_rx c e st : extra_received c e st = Ok (tt, st <| user := rx (user st) e |>);
  pe_tx c st : extra_transmit c st = Ok (tx (user st), st);
}.

Lemma tag_bytes t : 0 ≤ t < 2^32 → le_combine (le_split 4 t) = t.
Proof. intros. rewrite le_combine_split. change (8 * Z.of_nat 4) with 32. by apply Z.mod_small. Qed.

Definition response_bytes (ret : list Z) : list Z :=
  le_split 4 USFSTL_RPC_TAG_RESPONSE ++ le_split 4 0 ++ ret.

Section callee.
Context {F U : Type} {RE : RpcEnv F U} (g : F → U → list Z → Z → list Z * U) (rx : U → list Z → U) (tx : U → list Z).
Context (PE : pure_env RE g rx tx).
Abbreviation W := (rpc_state F U).

Lemma ret_buffer_run (st : W) rsz ret : Z.of_nat (length ret) = rsz → ret_buffer rsz ret st = Ok (tt, st).
Proof.
  intros <-. unfold ret_buffer. rewrite Z.ltb_irrefl. by replace (_ >? _) with false by lia.
Qed.

Lemma handle_call_run (st : W) c x ch u stk le wr sr f arg rsz rest :
  chunks_ok ch → malloc_ok st = true → c_in x = arg ++ rest →
  Z.of_nat (length (g f u arg rsz).1) = rsz →
  ∃ ch', chunks_ok ch' ∧
    usfstl_rpc_handle_call c (Stub sr (Rpc_user f)) (Z.of_nat (length arg)) rsz
      (rs st c x ch u (stk ++ [c]) le wr) =
    Ok (tt, rs st c (x <| c_in := rest |> <| c_out := c_out x ++ response_bytes (g f u arg rsz).1 |>)
              ch' (g f u arg rsz).2 stk le wr).
Proof.
  intros Hch Hm Hin Hlen. unfold usfstl_rpc_handle_call. erewrite bind_ok by done. cbn [malloc_ok rs]. rewrite Hm.
  erewrite bind_ok by done. rewrite Nat2Z.id.
  destruct (rs_read st c x ch u (stk ++ [c]) le wr arg rest Hch Hin) as (ch1 & Hch1 & Hr).
  erewrite bind_ok by exact Hr. unfold usfstl_rpc_make_call. cbn [stub_fn].
  erewrite bind_ok by apply (pe_call _ _ _ _ PE). unfold _usfstl_rpc_send_response.
  set (x1 := x <| c_in := rest |>). set (u2 := (g f u arg rsz).2).
  change (set_field _ (rs st c x1 ch1 u (stk ++ [c]) le wr)) with (rs st c x1 ch1 u2 (stk ++ [c]) le wr).
  destruct (rs_writev st c x1 ch1 u2 (stk ++ [c]) le wr
              [le_split 4 USFSTL_RPC_TAG_RESPONSE; le_split 4 0; (g f u arg rsz).1] Hch1) as (ch2 & Hch2 & Hw).
  exists ch2. split; [done|].
  erewrite bind_ok by (apply ret_buffer_run; exact Hlen). erewrite bind_ok by exact Hw. unfold modify. do 2 f_equal.
  unfold rs, set_field. cbn [conns loop_entries rpc_connections rpc_stubs rpc_stack rpc_wait_result chunks malloc_ok user].
  rewrite length_app, Nat.add_sub, take_app_length. do 2 f_equal. unfold x1, response_bytes. cbn [concat].
  rewrite app_nil_r. by destruct x.
Qed.

(** The state of the program when the request's extra data was received. *)
Definition u_extra (u : U) (x : usfstl_rpc_connection) (extra : list Z) : U :=
  if extra_len x =? 0 then u else rx u extra.

Lemma handle_one_run (st : W) c x req extra arg rest sr f :
  conns st !! c = Some x → chunks_ok (chunks st) → malloc_ok st = true → 0 ≤ extra_len x →
  Z.of_nat (length extra) = extra_len x → request_ok req → Z.of_nat (length arg) = mask (argsize req) →
  Z.of_nat (length (rpc_stack st)) < USFSTL_MAX_RPC_STACK →
  find_stub req (rpc_stubs st) = Some (Stub sr (Rpc_user f)) →
  c_in x = le_split 4 USFSTL_RPC_TAG_REQUEST ++ request_bytes req ++ extra ++ arg ++ rest →
  let r := g f (u_extra (user st) x extra) arg (mask (retsize req)) in
  Z.of_nat (length r.1) = mask (retsize req) →
  ∃ ch, chunks_ok ch ∧
    usfstl_rpc_handle_one c st =
    Ok (0, rs st c (x <| c_in := rest |> <| c_out := c_out x ++ response_bytes r.1 |>) ch r.2
             (rpc_stack st) (loop_entries st) (rpc_wait_result st)).
Proof.
  intros Hx Hch Hm He Hle Hreq Harg Hstk Hstub Hin r Hlen.
  replace (usfstl_rpc_handle_one c st) with (usfstl_rpc_handle_one c
    (rs st c x (chunks st) (user st) (rpc_stack st) (loop_entries st) (rpc_wait_result st))) by (by rewrite rs_id).
  unfold usfstl_rpc_handle_one. erewrite bind_ok by apply rs_get.
  destruct (rs_read st c x (chunks st) (user st) (rpc_stack st) (loop_entries st) (rpc_wait_result st) _ _ Hch Hin)
    as (ch1 & Hch1 & Hr1).
  rewrite le_split_length in Hr1. erewrite bind_ok by exact Hr1. cbv zeta. rewrite tag_bytes by done.
  change ((USFSTL_RPC_TAG_REQUEST =? USFSTL_RPC_TAG_RESPONSE) || (USFSTL_RPC_TAG_REQUEST =? swap32 USFSTL_RPC_TAG_RESPONSE))
    with false.
  change (USFSTL_RPC_TAG_REQUEST =? USFSTL_RPC_TAG_REQUEST) with true. cbn [orb negb].
  change (USFSTL_RPC_TAG_REQUEST =? swap32 USFSTL_RPC_TAG_REQUEST) with false.
  set (x1 := x <| c_in := request_bytes req ++ extra ++ arg ++ rest |>).
  destruct (rs_readv st c x1 ch1 (user st) (rpc_stack st) (loop_entries st) (rpc_wait_result st)
              (request_bytes req) extra (arg ++ rest) Hch1 eq_refl) as (ch2 & Hch2 & Hr2).
  rewrite request_length in Hr2 by done. rewrite <- Hle, Nat2Z.id. erewrite bind_ok by exact Hr2.
  cbv iota beta. rewrite request_roundtrip by done.
  set (x2 := x1 <| c_in := arg ++ rest |>). set (u1 := u_extra (user st) x extra) in *.
  set (st2 := rs st c x2 ch2 u1 (rpc_stack st) (loop_entries st) (rpc_wait_result st)).
  erewrite (bind_ok _ _ _ tt st2).
  2:{ unfold st2, u1, u_extra. rewrite <- Hle. destruct (Z.of_nat (length extra) =? 0); cbn [negb when]; [done|].
      apply (pe_rx _ _ _ _ PE). }
  assert (usfstl_rpc_handle_one_call c req st2 = usfstl_rpc_handle_call c (Stub sr (Rpc_user f)) (mask (argsize req))
    (mask (retsize req)) (rs st c x2 ch2 u1 (rpc_stack st ++ [c]) (loop_entries st) (rpc_wait_result st))) as Hone.
  { unfold usfstl_rpc_handle_one_call. erewrite bind_ok by done. cbn [rpc_stack st2 rs].
    rewrite (proj2 (Z.ltb_lt _ _) Hstk). erewrite bind_ok by done. erewrite bind_ok by done.
    unfold usfstl_rpc_find_stub. erewrite bind_ok by (by erewrite bind_ok by done). 
    change (find_stub req _) with (find_stub req (rpc_stubs st)). by rewrite Hstub. }
  rewrite <- Harg in Hone.
  destruct (handle_call_run st c x2 ch2 u1 (rpc_stack st) (loop_entries st) (rpc_wait_result st) sr f arg
              (mask (retsize req)) rest Hch2 Hm eq_refl Hlen) as (ch3 & Hch3 & Hr3).
  exists ch3. split; [done|]. erewrite bind_ok by (rewrite Hone; exact Hr3). unfold mret, M_ret. by destruct x.
Qed.
End callee.

(** ** Sizes *)
Lemma testbit_high n i : 0 ≤ n < 2^31 → 31 ≤ i → Z.testbit n i = false.
Proof. intros Hn Hi. rewrite <- (Z.mod_small n (2^31)) by done. apply Z.mod_pow2_bits_high. lia. Qed.

Lemma var_bits i : 0 ≤ i → Z.testbit USFSTL_VAR_DATA_SIZE i = (31 =? i).
Proof. intros Hi. change USFSTL_VAR_DATA_SIZE with (2^31). by apply Z.pow2_bits_eqb. Qed.

Lemma mask_small n : 0 ≤ n < 2^31 → mask n = n.
Proof.
  intros Hn. apply Z.bits_inj'. intros i Hi. unfold mask. rewrite Z.ldiff_spec, var_bits by done.
  destruct (Z.eqb_spec 31 i) as [<-|]; [|apply andb_true_r]. by rewrite testbit_high by lia.
Qed.

Lemma mask_var n : 0 ≤ n < 2^31 → mask (Z.lor n USFSTL_VAR_DATA_SIZE) = n.
Proof.
  intros Hn. apply Z.bits_inj'. intros i Hi. unfold mask. rewrite Z.ldiff_spec, Z.lor_spec, var_bits by done.
  destruct (Z.eqb_spec 31 i) as [<-|]; [|by rewrite orb_false_r, andb_true_r].
  by rewrite andb_false_r, testbit_high by lia.
Qed.

Lemma is_var_small n : 0 ≤ n < 2^31 → is_var n = false.
Proof.
  intros Hn. unfold is_var. apply negb_false_iff, Z.eqb_eq. apply Z.bits_inj'. intros i Hi.
  rewrite Z.land_spec, var_bits, Z.bits_0 by done. destruct (Z.eqb_spec 31 i) as [<-|]; [|apply andb_false_r].
  by rewrite testbit_high by lia.
Qed.

Lemma is_var_var n : 0 ≤ n → is_var (Z.lor n USFSTL_VAR_DATA_SIZE) = true.
Proof.
  intros Hn. unfold is_var. apply negb_true_iff, Z.eqb_neq. intros H0.
  assert (Z.testbit (Z.land (Z.lor n USFSTL_VAR_DATA_SIZE) USFSTL_VAR_DATA_SIZE) 31 = false) as H
    by (rewrite H0; apply Z.bits_0).
  rewrite Z.land_spec, Z.lor_spec, var_bits in H by lia. cbn in H. by rewrite orb_true_r in H.
Qed.

Lemma lor_var_range n : 0 ≤ n < 2^31 → 0 ≤ Z.lor n USFSTL_VAR_DATA_SIZE < 2^32.
Proof.
  intros Hn. assert (Z.lor n USFSTL_VAR_DATA_SIZE = n + 2^31) as ->; [|lia].
  change USFSTL_VAR_DATA_SIZE with (2^31). rewrite <- Z.lxor_lor, <- Z.add_nocarry_lxor; [done|..].
  all: apply Z.bits_inj'; intros i Hi; rewrite Z.land_spec, Z.pow2_bits_eqb, Z.bits_0 by done.
  all: destruct (Z.eqb_spec 31 i) as [<-|]; [|apply andb_false_r]; by rewrite testbit_high by lia.
Qed.

(** A call of a method: the sizes of its types, and those given by the caller
    where they are variable. *)
Record call_ok (k : method_kind) (name arg : list Z) (insz outsz argsz retsz : Z) : Prop := {
  co_name : (length name < name_size)%nat;
  co_in : 0 ≤ insz < 2^31;
  co_out : 0 ≤ outsz < 2^31;
  co_arg : Z.of_nat (length arg) = if var_in k then argsz else insz;
  co_argsz : var_in k = true → insz ≤ argsz < 2^31;
  co_retsz : var_out k = true → outsz ≤ retsz < 2^31 ∧ 0 < retsz;
}.

(** The request of a call. *)
Definition call_request (k : method_kind) (name : list Z) (insz outsz argsz retsz : Z) : usfstl_rpc_request :=
  Request (pad_name name)
    (if var_out k then Z.lor retsz USFSTL_VAR_DATA_SIZE else outsz)
    (if var_in k then Z.lor argsz USFSTL_VAR_DATA_SIZE else insz).

Definition result_size (k : method_kind) (outsz retsz : Z) : Z := if var_out k then retsz else outsz.

Section sizes.
Context (k : method_kind) (name arg : list Z) (insz outsz argsz retsz : Z).
Context (H : call_ok k name arg insz outsz argsz retsz).

Lemma call_request_ok : request_ok (call_request k name insz outsz argsz retsz).
Proof.
  destruct H as [H1 H2 H3 H4 H5 H6]. split_and!; cbn.
  - unfold pad_name. rewrite length_app, length_replicate. lia.
  - destruct (var_out k); [|lia]. destruct (H6 eq_refl). apply lor_var_range. lia.
  - destruct (var_out k); [|lia]. destruct (H6 eq_refl). apply lor_var_range. lia.
  - destruct (var_in k); [|lia]. apply lor_var_range. pose proof (H5 eq_refl). lia.
  - destruct (var_in k); [|lia]. apply lor_var_range. pose proof (H5 eq_refl). lia.
Qed.

Lemma call_argsize : mask (argsize (call_request k name insz outsz argsz retsz)) = Z.of_nat (length arg).
Proof.
  destruct H as [H1 H2 H3 H4 H5 H6]. cbn. rewrite H4. destruct (var_in k); [|by apply mask_small].
  apply mask_var. pose proof (H5 eq_refl). lia.
Qed.

Lemma call_retsize : mask (retsize (call_request k name insz outsz argsz retsz)) = result_size k outsz retsz.
Proof.
  destruct H as [H1 H2 H3 H4 H5 H6]. unfold result_size. cbn. destruct (var_out k); [|by apply mask_small].
  destruct (H6 eq_refl). apply mask_var. lia.
Qed.

(** The call that the caller's stub makes sends that request. *)
Lemma caller_argsize :
  elvis (mask (if var_in k then Z.lor argsz USFSTL_VAR_DATA_SIZE else 0)) insz = Z.of_nat (length arg) ∧
  elvis (if var_in k then Z.lor argsz USFSTL_VAR_DATA_SIZE else 0) insz =
    argsize (call_request k name insz outsz argsz retsz).
Proof.
  destruct H as [H1 H2 H3 H4 H5 H6]. rewrite H4. cbn. destruct (var_in k); [|done]. pose proof (H5 eq_refl) as Ha.
  rewrite mask_var by lia. unfold elvis. split.
  - destruct (Z.eqb_spec argsz 0); lia.
  - pose proof (is_var_var argsz ltac:(lia)) as Hv. destruct (Z.eqb_spec (Z.lor argsz USFSTL_VAR_DATA_SIZE) 0) as [E|]; [|done].
    rewrite E in Hv. discriminate Hv.
Qed.

Lemma caller_retsize :
  elvis (if var_out k then retsz else 0) outsz = result_size k outsz retsz ∧
  (if (if var_out k then retsz else 0) =? 0 then outsz
   else Z.lor (if var_out k then retsz else 0) USFSTL_VAR_DATA_SIZE) =
    retsize (call_request k name insz outsz argsz retsz).
Proof.
  destruct H as [H1 H2 H3 H4 H5 H6]. unfold result_size, elvis. cbn. destruct (var_out k); [|done].
  destruct (H6 eq_refl). replace (retsz =? 0) with false by lia. done.
Qed.

Lemma stub_matches_call {F} (fn : rpc_fn F) :
  stub_matches (call_request k name insz outsz argsz retsz) (Stub (callee_request k name insz outsz) fn) = true.
Proof.
  destruct H as [H1 H2 H3 H4 H5 H6]. unfold stub_matches. cbn [stub_req req_name callee_request call_request argsize retsize].
  rewrite bool_decide_true by done. cbn [andb]. rewrite !(Z.lor_comm USFSTL_VAR_DATA_SIZE).
  destruct (var_in k), (var_out k); try pose proof (H5 eq_refl); try destruct (H6 eq_refl);
    rewrite ?is_var_var, ?is_var_small by lia; cbn [Bool.eqb andb];
    rewrite ?mask_var, ?mask_small by lia; lia.
Qed.
End sizes.

Lemma find_stub_unique {F} hdr (l : list (option (usfstl_rpc_stub F))) s :
  Some s ∈ l → stub_matches hdr s = true →
  (∀ s', Some s' ∈ l → req_name (stub_req s') = req_name hdr → s' = s) → find_stub hdr l = Some s.
Proof.
  intros Hin Hm Hu. induction l as [|[s'|] l IH]; cbn; [set_solver| |].
  - destruct (stub_matches hdr s') eqn:E.
    + f_equal. apply Hu; [by left|]. unfold stub_matches in E.
      repeat (apply andb_prop in E as [E _]). by apply bool_decide_eq_true in E.
    + apply IH; [|intros; apply Hu; [by right|done]]. apply elem_of_cons in Hin as [[= ->]|]; [congruence|done].
  - apply IH; [set_solver|]. intros; apply Hu; [by right|done].
Qed.

(** ** The caller *)
Lemma unregister_notin c l : c ∉ l → usfstl_loop_unregister c l = l.
Proof.
  unfold usfstl_loop_unregister. induction l as [|e l IH]; cbn; intros H; [done|].
  replace (e =? c) with false by (symmetry; apply Z.eqb_neq; set_solver). cbn. rewrite IH by set_solver. done.
Qed.

Lemma unregister_head c l : usfstl_loop_unregister c (c :: l) = usfstl_loop_unregister c l.
Proof. unfold usfstl_loop_unregister. cbn. by rewrite Z.eqb_refl. Qed.

Lemma unregister_elem c l : c ∉ usfstl_loop_unregister c l.
Proof.
  unfold usfstl_loop_unregister. intros H. apply list_elem_of_In, filter_In in H as [_ H]. by rewrite Z.eqb_refl in H.
Qed.

Lemma register_top p c l : (∀ e, e ∈ l → p e ≤ p c) → usfstl_loop_register p c l = c :: l.
Proof. destruct l as [|e l]; cbn; intros H; [done|]. replace (p c >=? p e) with true; [done|]. specialize (H e). set_solver by lia. Qed.

Section caller.
Context {F U : Type} {RE : RpcEnv F U} (g : F → U → list Z → Z → list Z * U) (rx : U → list Z → U) (tx : U → list Z).
Context (PE : pure_env RE g rx tx).
Abbreviation W := (rpc_state F U).

Definition prio (cs : gmap Z usfstl_rpc_connection) (e : Z) : Z :=
  match cs !! e with Some y => priority y | None => 0 end.

(** Priorities are [int]s. *)
Definition prio_ok (st : W) : Prop := ∀ e, e ∈ loop_entries st → prio (conns st) e ≤ PRIORITY_MAX.

(** The entries of the loop after a call that had to wait. *)
Definition entries_after (st : W) (c : Z) (x : usfstl_rpc_connection) : list Z :=
  if bool_decide (c ∈ loop_entries st)
  then usfstl_loop_register (prio (<[c := x]> (conns st))) c (usfstl_loop_unregister c (loop_entries st))
  else loop_entries st.

Lemma loop_register_run (st : W) c x ch u stk le wr :
  loop_register c (rs st c x ch u stk le wr) =
  Ok (tt, rs st c x ch u stk (usfstl_loop_register (prio (<[c := x]> (conns st))) c le) wr).
Proof. done. Qed.

Lemma loop_unregister_run (st : W) c x ch u stk le wr : c ∈ le →
  loop_unregister c (rs st c x ch u stk le wr) = Ok (tt, rs st c x ch u stk (usfstl_loop_unregister c le) wr).
Proof. intros H. unfold loop_unregister. erewrite bind_ok by done. cbn [loop_entries rs]. by rewrite bool_decide_true. Qed.

Lemma wait_handler_run (st : W) c x ch u stk le wr rest : chunks_ok ch →
  c_in x = le_split 4 USFSTL_RPC_TAG_RESPONSE ++ rest →
  ∃ ch', chunks_ok ch' ∧
    usfstl_rpc_loop_wait_handler c (rs st c x ch u stk le wr) =
    Ok (tt, rs st c (x <| c_in := rest |>) ch' u stk le USFSTL_RPC_TAG_RESPONSE).
Proof.
  intros Hch Hin. destruct (rs_read st c x ch u stk le wr _ _ Hch Hin) as (ch' & Hch' & Hr).
  rewrite le_split_length in Hr. exists ch'. split; [done|]. unfold usfstl_rpc_loop_wait_handler.
  erewrite bind_ok.
  2:{ unfold usfstl_rpc_handle_one. erewrite bind_ok by apply rs_get. erewrite bind_ok by exact Hr.
      cbv zeta. rewrite tag_bytes by done. rewrite Z.eqb_refl. cbn [orb]. done. }
  rewrite Z.eqb_refl. done.
Qed.

(** While the response is the next thing to read, waiting takes one round. *)
Lemma wait_run fuel (st : W) c x ch u stk wr rest : chunks_ok ch → prio_ok st →
  c_in x = le_split 4 USFSTL_RPC_TAG_RESPONSE ++ rest →
  let x' := x <| c_in := rest |> <| wait_handler := false |> in
  ∃ ch', chunks_ok ch' ∧
    usfstl_wait_for_response (S fuel) c (rs st c x ch u stk (loop_entries st) wr) =
    Ok (USFSTL_RPC_TAG_RESPONSE, rs st c x' ch' u stk (entries_after st c x') 0).
Proof.
  intros Hch Hp Hin x'.
  set (e0 := if bool_decide (c ∈ loop_entries st) then usfstl_loop_unregister c (loop_entries st) else loop_entries st).
  assert (c ∉ e0) as Hc0 by (unfold e0; case_bool_decide; [apply unregister_elem|done]).
  assert (∀ e, e ∈ e0 → e ∈ loop_entries st) as Hsub.
  { intros e. unfold e0. case_bool_decide; [|done]. intros [He _]%list_elem_of_In%filter_In. by apply list_elem_of_In. }
  set (x1 := x <| priority := PRIORITY_MAX |> <| wait_handler := true |>).
  destruct (wait_handler_run st c x1 ch u stk (c :: e0) 0 rest Hch Hin) as (ch' & Hch' & Hh).
  exists ch'. split; [done|]. unfold usfstl_wait_for_response, usfstl_rpc_wait_and_handle.
  assert (wait_and_handle_loop (S fuel) (Some c) (rs st c x ch u stk (loop_entries st) wr) =
    Ok (tt, rs st c x' ch' u stk (entries_after st c x') USFSTL_RPC_TAG_RESPONSE)) as Hloop; [|by erewrite bind_ok by exact Hloop].
  cbn [wait_and_handle_loop]. erewrite bind_ok by done.
  change (set_field _ (rs st c x ch u stk (loop_entries st) wr)) with (rs st c x ch u stk (loop_entries st) 0).
  erewrite bind_ok by done. cbn [loop_entries rs]. cbv zeta.
  erewrite (bind_ok _ _ _ tt (rs st c x ch u stk e0 0)).
  2:{ unfold e0. case_bool_decide; cbn [when]; [by apply loop_unregister_run|done]. }
  erewrite bind_ok by apply rs_get. erewrite bind_ok by apply rs_put. erewrite bind_ok by apply loop_register_run.
  rewrite register_top.
  2:{ intros e He. unfold prio at 2. rewrite lookup_insert_eq. unfold prio. rewrite lookup_insert_ne by set_solver.
      apply (Hp e). auto. }
  erewrite bind_ok.
  2:{ unfold loop_wait_and_handle. erewrite bind_ok by done. cbn [conns rs loop_entries loop_choose find].
      rewrite lookup_insert_eq. change (c_in (set_field _ _)) with (c_in x1). change (c_in x1) with (c_in x).
      rewrite Hin. cbn [negb length app le_split Nat.eqb]. erewrite bind_ok by apply rs_get. exact Hh. }
  erewrite bind_ok by (apply loop_unregister_run; by left). rewrite unregister_head, (unregister_notin c e0) by done.
  erewrite bind_ok by apply rs_get. erewrite bind_ok by apply rs_put.
  erewrite (bind_ok _ _ _ tt (rs st c x' ch' u stk (entries_after st c x') USFSTL_RPC_TAG_RESPONSE)).
  2:{ unfold e0, entries_after. case_bool_decide; cbn [when]; [by rewrite loop_register_run; destruct x|by destruct x]. }
  erewrite bind_ok by done. done.
Qed.

(** The extra data of a request. *)
Definition extra_of (u : U) (x : usfstl_rpc_connection) : list Z := if extra_len x =? 0 then [] else tx u.

Definition wire_request (k : method_kind) (name arg : list Z) (insz outsz argsz retsz : Z) (extra : list Z) : list Z :=
  le_split 4 USFSTL_RPC_TAG_REQUEST ++ request_bytes (call_request k name insz outsz argsz retsz) ++ extra ++ arg.

Lemma caller_run fuel (st : W) c x k name arg insz outsz argsz retsz ret rest :
  conns st !! c = Some x → chunks_ok (chunks st) → prio_ok st → initialized x = true → broken x = false →
  c ≠ USFSTL_RPC_LOCAL → call_ok k name arg insz outsz argsz retsz →
  Z.of_nat (length ret) = result_size k outsz retsz → c_in x = response_bytes ret ++ rest →
  let x' := x <| c_in := rest |>
              <| c_out := c_out x ++ wire_request k name arg insz outsz argsz retsz (extra_of (user st) x) |>
              <| wait_handler := false |> in
  ∃ ch le, caller_stub (S fuel) k c name arg insz outsz argsz retsz st =
    Ok (ret, rs st c x' ch (user st) (rpc_stack st) le 0) ∧ chunks_ok ch.
Proof.
  intros Hx Hch Hp Hi Hb Hc Hok Hret Hin x'. pose proof (co_name _ _ _ _ _ _ _ Hok) as Hn.
  destruct (caller_argsize _ _ _ _ _ _ _ Hok) as [Ea1 Ea2]. destruct (caller_retsize _ _ _ _ _ _ _ Hok) as [Er1 Er2].
  unfold caller_stub, usfstl_rpc_call. erewrite bind_ok by (by apply get_conn_run). rewrite Hi. erewrite bind_ok by done.
  unfold rpc_call_initialized. erewrite bind_ok by (by apply get_conn_run). cbv zeta. rewrite Hb. erewrite bind_ok by done.
  rewrite (proj2 (Nat.ltb_lt _ _) Hn). erewrite bind_ok by done. rewrite Ea1, Ea2, Er1, Er2, Nat2Z.id, Nat.leb_refl.
  erewrite bind_ok by done. rewrite firstn_all. rewrite (proj2 (Z.eqb_neq _ _) Hc).
  erewrite (bind_ok _ _ _ (extra_of (user st) x) st).
  2:{ unfold extra_of. destruct (extra_len x =? 0); [done|]. apply (pe_tx _ _ _ _ PE). }
  change (Request _ _ _) with (call_request k name insz outsz argsz retsz).
  set (x1 := x <| c_out := c_out x ++ wire_request k name arg insz outsz argsz retsz (extra_of (user st) x) |>).
  assert (∃ ch1, chunks_ok ch1 ∧ rpc_writev c [le_split 4 USFSTL_RPC_TAG_REQUEST;
      request_bytes (call_request k name insz outsz argsz retsz); extra_of (user st) x; arg] st =
    Ok (tt, rs st c x1 ch1 (user st) (rpc_stack st) (loop_entries st) (rpc_wait_result st))) as (ch1 & Hch1 & Hw).
  { destruct (rpc_writev_run st c x [le_split 4 USFSTL_RPC_TAG_REQUEST;
      request_bytes (call_request k name insz outsz argsz retsz); extra_of (user st) x; arg] Hx Hch) as (ch1 & H1 & H2).
    exists ch1. split; [done|]. rewrite H2. cbn [concat]. rewrite app_nil_r. by destruct st. }
  erewrite bind_ok by exact Hw.
  unfold response_bytes in Hin. rewrite <- app_assoc in Hin.
  destruct (wait_run fuel st c x1 ch1 (user st) (rpc_stack st) (rpc_wait_result st) _ Hch1 Hp Hin)
    as (ch2 & Hch2 & Hwait).
  erewrite bind_ok by exact Hwait. set (x2 := set_field _ (set_field _ x1)).
  destruct (rs_read st c x2 ch2 (user st) (rpc_stack st) (entries_after st c x2) 0 (le_split 4 0) (ret ++ rest) Hch2)
    as (ch3 & Hch3 & Hr3); [done|].
  rewrite le_split_length in Hr3. erewrite bind_ok by exact Hr3. rewrite tag_bytes by done.
  change (USFSTL_RPC_TAG_RESPONSE =? swap32 USFSTL_RPC_TAG_RESPONSE) with false. erewrite bind_ok by done.
  rewrite <- Hret, Nat2Z.id.
  destruct (rs_read st c (x2 <| c_in := ret ++ rest |>) ch3 (user st) (rpc_stack st) (entries_after st c x2) 0
              ret rest Hch3) as (ch4 & Hch4 & Hr4); [done|].
  exists ch4, (entries_after st c x2). split; [|done]. rewrite Hr4. by destruct x.
Qed.
End caller.

(** C8. A remote call is the call of the function: the caller and the callee agree on
    the bytes of the request and of the response, for every kind of method and
    however the sockets split them.  The callee, with the request as the next
    input, runs the function of the stub on exactly the caller's argument and
    writes the response; the caller, to which this response arrives, has written
    the request and returns exactly the bytes of the result.  Both leave the
    input that follows untouched, and extra data go along with the request. *)
Theorem rpc_call_served {F1 U1 F2 U2 : Type} (RE1 : RpcEnv F1 U1) (RE2 : RpcEnv F2 U2) g1 rx1 tx1 g2 rx2 tx2
    fuel (A : rpc_state F1 U1) (B : rpc_state F2 U2) ca cb x y k name arg insz outsz argsz retsz f restx resty :
  pure_env RE1 g1 rx1 tx1 → pure_env RE2 g2 rx2 tx2 →
  conns A !! ca = Some x → chunks_ok (chunks A) → prio_ok A → initialized x = true → broken x = false →
  ca ≠ USFSTL_RPC_LOCAL →
  conns B !! cb = Some y → chunks_ok (chunks B) → malloc_ok B = true →
  Z.of_nat (length (rpc_stack B)) < USFSTL_MAX_RPC_STACK →
  0 ≤ extra_len x → extra_len y = extra_len x → Z.of_nat (length (extra_of tx1 (user A) x)) = extra_len x →
  call_ok k name arg insz outsz argsz retsz →
  Some (Stub (callee_request k name insz outsz) (Rpc_user f)) ∈ rpc_stubs B →
  (∀ s, Some s ∈ rpc_stubs B → req_name (stub_req s) = pad_name name →
    s = Stub (callee_request k name insz outsz) (Rpc_user f)) →
  let extra := extra_of tx1 (user A) x in
  let req := wire_request k name arg insz outsz argsz retsz extra in
  let r := g2 f (u_extra rx2 (user B) y extra) arg (result_size k outsz retsz) in
  Z.of_nat (length r.1) = result_size k outsz retsz →
  c_in y = req ++ resty → c_in x = response_bytes r.1 ++ restx →
  ∃ A' B' x' y',
    caller_stub (S fuel) k ca name arg insz outsz argsz retsz A = Ok (r.1, A') ∧
    usfstl_rpc_handle_one cb B = Ok (0, B') ∧
    conns A' !! ca = Some x' ∧ c_out x' = c_out x ++ req ∧ c_in x' = restx ∧
    conns B' !! cb = Some y' ∧ c_out y' = c_out y ++ response_bytes r.1 ∧ c_in y' = resty ∧
    user B' = r.2 ∧ user A' = user A ∧ rpc_stack B' = rpc_stack B.
Proof.
  intros P1 P2 Hx HchA HpA Hi Hb Hc Hy HchB Hm Hstk He0 Hey Hex Hok Hin Huniq extra req r Hlen Hiny Hinx.
  destruct (caller_run g1 rx1 tx1 P1 fuel A ca x k name arg insz outsz argsz retsz r.1 restx)
    as (chA & le & HA & _); [done..|].
  destruct (handle_one_run g2 rx2 tx2 P2 B cb y (call_request k name insz outsz argsz retsz) extra arg resty
              (callee_request k name insz outsz) f) as (chB & _ & HB); try done.
  - lia.
  - unfold extra. lia.
  - by apply call_request_ok with arg.
  - by rewrite (call_argsize _ _ _ _ _ _ _ Hok).
  - apply find_stub_unique; [done|by apply stub_matches_call with arg|done].
  - rewrite Hiny. unfold req, wire_request. by rewrite <- !app_assoc.
  - by rewrite (call_retsize _ _ _ _ _ _ _ Hok).
  - rewrite (call_retsize _ _ _ _ _ _ _ Hok) in HB. fold r in HB.
    eexists _, _, _, _. split_and!; [exact HA|exact HB|apply rs_lookup|done|done|apply rs_lookup|done..].
Qed.

(** Two processes with a counter each: the callee's function adds one to every
    byte and counts its calls; the counter of the caller goes along. *)
Definition demo_rpc : RpcEnv unit Z := {|
  call_user _ c arg rsz := λ st, Ok (map (λ b, b + 1) arg, st <| user := user st + 1 |>);
  extra_transmit c := λ st, Ok (le_split 8 (user st), st);
  extra_received c e := λ st, Ok (tt, st <| user := le_combine e |>);
  call_disconnected c := mret tt;
|}.

Lemma demo_rpc_pure : pure_env demo_rpc (λ _ u arg _, (map (λ b, b + 1) arg, u + 1)) (λ _ e, le_combine e)
  (λ u, le_split 8 u).
Proof. by constructor. Qed.

Definition demo_conn (bs : list Z) : usfstl_rpc_connection := Conn true false 8 false 0 false bs [].
Definition demo_stub : usfstl_rpc_stub unit := Stub (callee_request METHOD [105; 110; 99] 2 2) (Rpc_user tt).
Definition demo_process (u : Z) (bs ch : list Z) : rpc_state unit Z :=
  RpcState {[5 := demo_conn bs]} [5] [5] [None; Some demo_stub] [] 0 ch true u.

Lemma rpc_call_served_witness :
  let req := wire_request METHOD [105; 110; 99] [7; 8] 2 2 0 0 (le_split 8 41) in
  ∃ A' B',
    caller_stub (RE := demo_rpc) 1 METHOD 5 [105; 110; 99] [7; 8] 2 2 0 0
      (demo_process 41 (response_bytes [8; 9]) [3; -1; 5]) = Ok ([8; 9], A') ∧
    usfstl_rpc_handle_one (RE := demo_rpc) 5 (demo_process 0 req [1; -1; -1; 2]) = Ok (0, B') ∧ user B' = 42.
Proof.
  destruct (rpc_call_served demo_rpc demo_rpc _ _ _ _ _ _ 0
              (demo_process 41 (response_bytes [8; 9]) [3; -1; 5])
              (demo_process 0 (wire_request METHOD [105; 110; 99] [7; 8] 2 2 0 0 (le_split 8 41)) [1; -1; -1; 2])
              5 5 (demo_conn (response_bytes [8; 9]))
              (demo_conn (wire_request METHOD [105; 110; 99] [7; 8] 2 2 0 0 (le_split 8 41)))
              METHOD [105; 110; 99] [7; 8] 2 2 0 0 tt [] [] demo_rpc_pure demo_rpc_pure)
    as (A' & B' & x' & y' & H1 & H2 & _ & _ & _ & _ & _ & _ & H3 & _); try reflexivity.
  1, 4: unfold chunks_ok; cbn; repeat (constructor; [lia|]); constructor.
  - intros e He. assert (e = 5) as -> by set_solver. vm_compute. discriminate.
  - discriminate.
  - cbn. lia.
  - constructor; unfold name_size; cbn; try discriminate; lia.
  - set_solver.
  - intros s Hs _. set_solver.
  - exists A', B'. split_and!; [exact H1|exact H2|exact H3].
Defined.
