(* ===== verification/Pci.v ===== *)
(** * PCI devices over vhost-user (src/pci.c, include/usfstl/pci.h,
    include/linux/virtio_pcidev.h)

    The configuration space and its mask are in the memory of the process; the
    functions of the device are given. *)
From S2P Require Import Prelude Sched Util Bytes Vhost.

(** ** Data *)
Record usfstl_pci_device := PciDevice {
  config_space : Z;
  config_space_mask : Z;
  config_space_size : Z;
}.

Abbreviation VIRTIO_PCIDEV_OP_CFG_READ := 1%Z (only parsing).
Abbreviation VIRTIO_PCIDEV_OP_CFG_WRITE := 2%Z (only parsing).
Abbreviation VIRTIO_PCIDEV_OP_MMIO_READ := 3%Z (only parsing).
Abbreviation VIRTIO_PCIDEV_OP_MMIO_WRITE := 4%Z (only parsing).
Abbreviation VIRTIO_PCIDEV_OP_MMIO_MEMSET := 5%Z (only parsing).
Abbreviation VIRTIO_PCIDEV_OP_INT := 6%Z (only parsing).
Abbreviation VIRTIO_PCIDEV_OP_MSI := 7%Z (only parsing).
Abbreviation VIRTIO_PCIDEV_OP_PME := 8%Z (only parsing).

(** The fields of a message; [msg_data] is the address of its data. *)
Record virtio_pcidev_msg := PciMsg { op : Z; bar : Z; msg_size : Z; msg_addr : Z; msg_data : Z }.

Definition sizeof_pcidev_msg : Z := 16.

Definition load_msg (a : Z) : M VW virtio_pcidev_msg :=
  op ← ld 1 a;
  bar ← ld 1 (a + 1);
  size ← ld 4 (a + 4);
  addr ← ld 8 (a + 8);
  mret (PciMsg op bar size addr (a + sizeof_pcidev_msg)).

(** The bytes of a message without data. *)
Definition pcidev_msg_bytes (op size addr : Z) : list Z :=
  le_split 1 op ++ le_split 1 0 ++ le_split 2 0 ++ le_split 4 size ++ le_split 8 addr.

(** Functions that are NULL are [None]; the deferred ones get the buffer. *)
Record usfstl_pci_device_ops := PciOps {
  pci_disconnected : M VW unit;
  cfg_space_read : option (Z → Z → M VW Z);
  cfg_space_write : option (Z → Z → Z → M VW unit);
  cfg_space_read_deferred : option (Z → Z → Z → usfstl_vhost_user_buf → M VW unit);
  cfg_space_write_deferred : option (Z → Z → Z → usfstl_vhost_user_buf → M VW unit);
  mmio_read : option (Z → Z → Z → Z → M VW unit);
  mmio_write : option (Z → Z → Z → Z → M VW unit);
  mmio_set : option (Z → Z → Z → Z → M VW unit);
  mmio_read_deferred : option (Z → Z → Z → Z → usfstl_vhost_user_buf → M VW unit);
  mmio_write_deferred : option (Z → Z → Z → Z → usfstl_vhost_user_buf → M VW unit);
  mmio_set_deferred : option (Z → Z → Z → Z → usfstl_vhost_user_buf → M VW unit);
}.

Definition is_set {A : Type} (o : option A) : bool := match o with Some _ => true | None => false end.

Section pci.
Context `{VE : VhostEnv} (server : usfstl_vhost_user_server) (ops : usfstl_pci_device_ops).

(** [connected] of the device returned [pcidev]. *)
Definition usfstl_vhost_pci_connected (pcidev : option usfstl_pci_device) : M VW usfstl_pci_device :=
  match pcidev with
  | None => fail Assertion
  | Some p =>
      let sized := negb (config_space p =? 0) && negb (config_space_size p =? 0) in
      usfstl_assert (is_set (cfg_space_read ops) || is_set (cfg_space_read_deferred ops) || sized);;
      usfstl_assert (is_set (cfg_space_write ops) || is_set (cfg_space_write_deferred ops) ||
                     (sized && negb (config_space_mask p =? 0)));;
      mret p
  end.

Definition usfstl_pci_send_response (buf : usfstl_vhost_user_buf) : M VW unit :=
  usfstl_vhost_user_send_response server buf.

(** [memset], [memcpy]. *)
Definition pci_memset (a v n : Z) : M VW unit := on_mem (Str.store a (replicate (Z.to_nat n) v)).
Definition pci_memcpy (dst src n : Z) : M VW unit :=
  bs ← on_mem (Str.load (Z.to_nat n) src); on_mem (Str.store dst bs).

(** [in_sg[0]]: the vectors of an allocated buffer are one array, the ones to
    fill first; an entry not in use otherwise has no value of its own. *)
Definition in_sg0 (buf : usfstl_vhost_user_buf) : M VW iovec :=
  array_get (if allocated buf then in_sg buf ++ out_sg buf else in_sg buf) 0.

(** The sizes the [switch] of the accessors knows. *)
Definition size_ok (n : Z) : bool := (n =? 1) || (n =? 2) || (n =? 4) || (n =? 8).

Definition usfstl_vhost_pci_cfg_read (p : usfstl_pci_device) (m : virtio_pcidev_msg) (buf : usfstl_vhost_user_buf)
    : M VW unit :=
  v ← in_sg0 buf;
  let out := iov_base v in
  match cfg_space_read ops, cfg_space_read_deferred ops with
  | None, None =>
      if u64 (msg_addr m + msg_size m) >? config_space_size p then pci_memset out 0 (msg_size m)
      else
        pci_memcpy out (u64 (config_space p + msg_addr m)) (msg_size m);;
        usfstl_pci_send_response buf
  | _, Some f => f out (s32 (msg_addr m)) (s32 (msg_size m)) buf
  | Some f, None =>
      usfstl_assert (size_ok (msg_size m));;
      value ← f (s32 (msg_addr m)) (s32 (msg_size m));
      st (Z.to_nat (msg_size m)) out value;;
      usfstl_pci_send_response buf
  end.

(** The loop of [usfstl_vhost_pci_cfg_write], [n] bytes from [i]; the message
    is not part of the configuration space, so its fields are read once. *)
Fixpoint cfg_write_loop (n : nat) (i : Z) (p : usfstl_pci_device) (addr data : Z) : M VW unit :=
  match n with
  | O => mret tt
  | S n =>
      let a := u64 (config_space p + addr + i) in
      mask ← ld 1 (u64 (config_space_mask p + addr + i));
      val ← ld 1 a;
      st 1 a (Z.ldiff val mask);;
      d ← ld 1 (data + i);
      val ← ld 1 a;
      st 1 a (Z.lor val (Z.land d mask));;
      cfg_write_loop n (i + 1) p addr data
  end.

Definition usfstl_vhost_pci_cfg_write (p : usfstl_pci_device) (m : virtio_pcidev_msg) (buf : usfstl_vhost_user_buf)
    : M VW unit :=
  match cfg_space_write ops, cfg_space_write_deferred ops with
  | None, None =>
      if u64 (msg_addr m + msg_size m) >? config_space_size p then mret tt
      else
        cfg_write_loop (Z.to_nat (msg_size m)) 0 p (msg_addr m) (msg_data m);;
        usfstl_pci_send_response buf
  | _, Some f => f (s32 (msg_addr m)) (msg_data m) (s32 (msg_size m)) buf
  | Some f, None =>
      usfstl_assert (size_ok (msg_size m));;
      value ← ld (Z.to_nat (msg_size m)) (msg_data m);
      f (s32 (msg_addr m)) (s32 (msg_size m)) value;;
      usfstl_pci_send_response buf
  end.

(** The data of MMIO writes follow the message, or are in the second vector. *)
Definition write_buf (v0 : iovec) (m : virtio_pcidev_msg) (need : Z) (buf : usfstl_vhost_user_buf) : M VW Z :=
  if iov_len v0 >? sizeof_pcidev_msg then
    usfstl_assert (iov_len v0 >=? sizeof_pcidev_msg + need);; mret (msg_data m)
  else
    v1 ← array_get (out_sg buf) 1;
    usfstl_assert (iov_len v1 >=? need);;
    mret (iov_base v1).

Definition usfstl_vhost_pci_handle (p : usfstl_pci_device) (buf : usfstl_vhost_user_buf) : M VW unit :=
  usfstl_assert (n_out_sg buf >=? 1);;
  v0 ← array_get (out_sg buf) 0;
  usfstl_assert (iov_len v0 >=? sizeof_pcidev_msg);;
  m ← load_msg (iov_base v0);
  if op m =? VIRTIO_PCIDEV_OP_CFG_READ then
    usfstl_assert (negb (n_in_sg buf =? 0));;
    v ← in_sg0 buf;
    usfstl_assert (iov_len v >=? msg_size m);;
    usfstl_vhost_pci_cfg_read p m buf
  else if op m =? VIRTIO_PCIDEV_OP_CFG_WRITE then
    usfstl_assert (iov_len v0 >=? sizeof_pcidev_msg + msg_size m);;
    usfstl_vhost_pci_cfg_write p m buf
  else if op m =? VIRTIO_PCIDEV_OP_MMIO_READ then
    v ← in_sg0 buf;
    usfstl_assert (iov_len v >=? msg_size m);;
    pci_memset (iov_base v) 255 (msg_size m);;
    m ← load_msg (iov_base v0);
    match mmio_read ops, mmio_read_deferred ops with
    | Some f, _ => f (bar m) (iov_base v) (msg_addr m) (msg_size m);; usfstl_pci_send_response buf
    | None, Some f => f (bar m) (iov_base v) (msg_addr m) (msg_size m) buf
    | None, None => fail Assertion
    end
  else if op m =? VIRTIO_PCIDEV_OP_MMIO_WRITE then
    w ← write_buf v0 m (msg_size m) buf;
    match mmio_write ops, mmio_write_deferred ops with
    | Some f, _ => f (bar m) (msg_addr m) w (msg_size m);; usfstl_pci_send_response buf
    | None, Some f => f (bar m) (msg_addr m) w (msg_size m) buf
    | None, None => fail Assertion
    end
  else if op m =? VIRTIO_PCIDEV_OP_MMIO_MEMSET then
    w ← write_buf v0 m 1 buf;
    if negb (is_set (mmio_set ops) || is_set (mmio_set_deferred ops)) then fail Assertion
    else
      value ← ld 1 w;
      match mmio_set ops, mmio_set_deferred ops with
      | Some f, _ => f (bar m) (msg_addr m) value (msg_size m);; usfstl_pci_send_response buf
      | None, Some f => f (bar m) (msg_addr m) value (msg_size m) buf
      | None, None => fail Assertion
      end
  else mret tt.

Definition usfstl_vhost_pci_disconnected : M VW unit := pci_disconnected ops.

(** The device's part of the vhost-user operations; [connected] has run. *)
Definition usfstl_vhost_user_ops_pci (p : usfstl_pci_device) : VhostEnv := {|
  op_connected := usfstl_vhost_pci_connected (Some p);; mret tt;
  op_handle buf _ := usfstl_vhost_pci_handle p buf;; mret buf;
  op_disconnected := usfstl_vhost_pci_disconnected;
  ctrl_sync_to := ctrl_sync_to;
  ctrl_sync_from := ctrl_sync_from;
  loop_until_readable := loop_until_readable;
|}.

(** ** Interrupts *)
Definition usfstl_pci_send_int (cfuel : nat) (number : Z) : M VW unit :=
  usfstl_assert ((1 <=? number) && (number <=? 4));;
  usfstl_vhost_user_dev_notify server cfuel 1 (pcidev_msg_bytes VIRTIO_PCIDEV_OP_INT 0 number).

(** The structure is 24 bytes long, since its header is aligned to 8; the
    initialiser does not determine the four bytes [pad] at its end. *)
Definition usfstl_pci_send_msi (cfuel : nat) (pad : list Z) (addr : Z) (msix : bool) (data : Z) : M VW unit :=
  usfstl_vhost_user_dev_notify server cfuel 1
    (pcidev_msg_bytes VIRTIO_PCIDEV_OP_MSI (if msix then 4 else 2) addr ++
     (if msix then le_split 4 data else le_split 2 data ++ [0; 0]) ++ pad).

Definition usfstl_pci_send_pme (cfuel : nat) : M VW unit :=
  usfstl_vhost_user_dev_notify server cfuel 1 (pcidev_msg_bytes VIRTIO_PCIDEV_OP_PME 0 0).

(** ** DMA (pci.h) *)
Definition usfstl_pci_pa_to_va (physaddr : Z) : M VW Z := usfstl_vhost_user_to_va physaddr.
Definition usfstl_pci_dma_read (buf physaddr size : Z) : M VW unit :=
  a ← usfstl_pci_pa_to_va physaddr; pci_memcpy buf a size.
Definition usfstl_pci_dma_write (physaddr buf size : Z) : M VW unit :=
  a ← usfstl_pci_pa_to_va physaddr; pci_memcpy a buf size.
End pci.

(** [USFSTL_VHOST_USER_SERVER_PCI]: features are bit 30 and VIRTIO_F_VERSION_1. *)
Definition USFSTL_VHOST_USER_SERVER_PCI (scheduler : option Z) (ctrl : bool) : usfstl_vhost_user_server :=
  Server 0 2 true 1 scheduler ctrl (Z.lor (Z.shiftl 1 VHOST_USER_F_PROTOCOL_FEATURES) (Z.shiftl 1 32)) 0 None.
