(* ===== verification/PciProps.v ===== *)
(** * Properties of the PCI device: configuration space accesses *)
From S2P Require Import Prelude Sched Util Bytes Vhost VhostProps Pci.

(** ** Memory *)

(** A byte of the configuration space after a write. *)
Definition merge_byte (o k d : Z) : Z := Z.lor (Z.ldiff o k) (Z.land d k).

Fixpoint merged (m : mem) (c k d : Z) (n : nat) : list Z :=
  match n with
  | O => []
  | S n => merge_byte (rd m 1 c) (rd m 1 k) (rd m 1 d) :: merged m (c + 1) (k + 1) (d + 1) n
  end.

Definition mem_ok (m : mem) : Prop := map_Forall (λ _ b, is_byte b) m.

Definition disj (a n b k : Z) : Prop := a + n ≤ b ∨ b + k ≤ a.

Lemma byte_mod x : is_byte x → x mod 256 = x.
Proof. unfold is_byte. intros. by apply Z.mod_small. Qed.

Lemma mod_ones x : x mod 256 = Z.land x (Z.ones 8).
Proof. by rewrite Z.land_ones by lia. Qed.

Lemma byte_land x : is_byte x → Z.land x (Z.ones 8) = x.
Proof. intros H. by rewrite <- mod_ones, byte_mod. Qed.

Lemma ldiff_byte o k : is_byte o → Z.ldiff o k mod 256 = Z.ldiff o k.
Proof.
  intros Ho. rewrite mod_ones. rewrite <- (byte_land o Ho) at 2.
  apply Z.bits_inj'. intros n _. rewrite !Z.land_spec, !Z.ldiff_spec, Z.land_spec.
  destruct (Z.testbit o n), (Z.testbit k n), (Z.testbit (Z.ones 8) n); done.
Qed.

Lemma merge_byte_mod o k d : is_byte o → is_byte d → merge_byte o k d mod 256 = merge_byte o k d.
Proof.
  intros Ho Hd. unfold merge_byte. rewrite mod_ones. rewrite <- (byte_land o Ho), <- (byte_land d Hd).
  apply Z.bits_inj'. intros n _. repeat rewrite ?Z.land_spec, ?Z.lor_spec, ?Z.ldiff_spec.
  destruct (Z.testbit o n), (Z.testbit d n), (Z.testbit k n), (Z.testbit (Z.ones 8) n); done.
Qed.

Lemma rd1 m a b : m !! a = Some b → rd m 1 a = b.
Proof. intros H. unfold rd. cbn. rewrite H. cbn. lia. Qed.

Lemma rd1_byte m a : mem_ok m → range_mapped m a 1 → is_byte (rd m 1 a).
Proof.
  intros Hm Ha. destruct (Ha a ltac:(lia)) as [b Hb]. rewrite (rd1 _ _ _ Hb). exact (Hm a b Hb).
Qed.

Lemma rd1_insert_ne m a b c : a ≠ c → rd (<[a:=b]> m) 1 c = rd m 1 c.
Proof. intros H. unfold rd. cbn. by rewrite lookup_insert_ne. Qed.

Lemma merged_insert n : ∀ m a x c k d, a < c → disj a 1 k (Z.of_nat n) → disj a 1 d (Z.of_nat n) →
  merged (<[a:=x]> m) c k d n = merged m c k d n.
Proof.
  unfold disj. induction n as [|n IH]; intros m a x c k d Hc Hk Hd; cbn [merged]; [done|].
  rewrite !rd1_insert_ne by lia. f_equal. apply IH; lia.
Qed.

Lemma merged_length n : ∀ m c k d, length (merged m c k d n) = n.
Proof. induction n; intros; cbn; auto. Qed.

Lemma merged_lookup n : ∀ m c k d j, (j < n)%nat →
  merged m c k d n !! j =
  Some (merge_byte (rd m 1 (c + Z.of_nat j)) (rd m 1 (k + Z.of_nat j)) (rd m 1 (d + Z.of_nat j))).
Proof.
  induction n as [|n IH]; intros m c k d j Hj; [lia|]. destruct j as [|j]; cbn [merged lookup list_lookup].
  { by rewrite !Z.add_0_r. }
  rewrite IH by lia. by replace (c + 1 + Z.of_nat j) with (c + Z.of_nat (S j)) by lia;
    replace (k + 1 + Z.of_nat j) with (k + Z.of_nat (S j)) by lia;
    replace (d + 1 + Z.of_nat j) with (d + Z.of_nat (S j)) by lia.
Qed.

Lemma mem_ok_insert m a b : mem_ok m → is_byte b → mem_ok (<[a:=b]> m).
Proof. intros Hm Hb. by apply map_Forall_insert_2. Qed.

Lemma mod_byte x : is_byte (x mod 256).
Proof. unfold is_byte. lia. Qed.

Lemma with_mem_twice w m m' : with_mem (with_mem w m) m' = with_mem w m'.
Proof. by destruct w as [? ? []]. Qed.

Lemma with_mem_id w : with_mem w (v_mem (env w)) = w.
Proof. by destruct w as [? ? []]. Qed.

Lemma range_mapped_insert m a x b n : range_mapped m b n → range_mapped (<[a:=x]> m) b n.
Proof. intros H i Hi. apply lookup_insert_is_Some'. right. by apply H. Qed.

(** ** The loop that writes the configuration space *)
Lemma cfg_write_loop_run n : ∀ (w : VW) m i p addr data,
  let c := config_space p + addr + i in
  let k := config_space_mask p + addr + i in
  v_mem (env w) = m → mem_ok m →
  0 ≤ c → c + Z.of_nat n < 2 ^ 64 → 0 ≤ k → k + Z.of_nat n < 2 ^ 64 →
  range_mapped m c (Z.of_nat n) → range_mapped m k (Z.of_nat n) → range_mapped m (data + i) (Z.of_nat n) →
  disj c (Z.of_nat n) k (Z.of_nat n) → disj c (Z.of_nat n) (data + i) (Z.of_nat n) →
  cfg_write_loop n i p addr data w = Ok (tt, with_mem w (poke m c (merged m c k (data + i) n))).
Proof.
  induction n as [|n IH]; intros w m i p addr data c k Hw Hm Hc0 Hc1 Hk0 Hk1 Rc Rk Rd Dk Dd;
    unfold disj in Dk, Dd; cbn [cfg_write_loop merged poke].
  { cbn. rewrite <- Hw. by rewrite with_mem_id. }
  fold c k. unfold u64. rewrite !(Z.mod_small c), !(Z.mod_small k) by lia.
  assert (∀ x y, range_mapped m x (Z.of_nat (S n)) → range_mapped (<[c:=y]> m) x 1) as R1.
  { intros x y H. apply range_mapped_insert. eapply range_mapped_sub; [done|lia|lia]. }
  assert (∀ x, range_mapped m x (Z.of_nat (S n)) → range_mapped m x 1) as R0.
  { intros x H. eapply range_mapped_sub; [done|lia|lia]. }
  erewrite bind_ok by (apply ld_run; rewrite Hw; by apply R0).
  erewrite bind_ok by (apply ld_run; rewrite Hw; by apply R0).
  erewrite bind_ok by (apply st_run; rewrite Hw; by apply R0).
  rewrite Hw. cbn [le_split poke].
  pose proof (rd1_byte m c Hm (R0 _ Rc)) as Bc. pose proof (rd1_byte m (data + i) Hm (R0 _ Rd)) as Bd.
  rewrite ldiff_byte by done.
  erewrite bind_ok by (apply ld_run; cbn; by apply R1).
  erewrite bind_ok by (apply ld_run; cbn; by apply R1).
  erewrite bind_ok by (apply st_run; cbn; by apply R1).
  cbn [with_mem]. change (v_mem (env (with_mem w ?x))) with x. cbn [le_split poke].
  erewrite (rd1 (<[c:=_]> m) c) by apply lookup_insert_eq.
  rewrite (rd1_insert_ne m c _ (data + i)) by lia.
  change (Z.lor (Z.ldiff ?o ?k) (Z.land ?d ?k)) with (merge_byte o k d).
  rewrite with_mem_twice, insert_insert_eq, merge_byte_mod by done.
  set (x := merge_byte _ _ _).
  assert (is_byte x) as Bx by (subst x; rewrite <- merge_byte_mod by done; apply mod_byte).
  clearbody x.
  rewrite (IH _ (<[c:=x]> m)); unfold disj; replace (config_space p + addr + (i + 1)) with (c + 1) by lia;
    replace (config_space_mask p + addr + (i + 1)) with (k + 1) by lia;
    replace (data + (i + 1)) with (data + i + 1) by lia;
    [|done|by apply mem_ok_insert|lia..| | | |lia|lia].
  2: apply range_mapped_insert; eapply range_mapped_sub; [exact Rc|lia|lia].
  2: apply range_mapped_insert; eapply range_mapped_sub; [exact Rk|lia|lia].
  2: apply range_mapped_insert; eapply range_mapped_sub; [exact Rd|lia|lia].
  by rewrite with_mem_twice, merged_insert by (unfold disj; lia).
Qed.

(** ** Requests *)

(** The message at [a]. *)
Definition msg_at (m : mem) (a o sz ad : Z) : Prop :=
  range_mapped m a sizeof_pcidev_msg ∧ rd m 1 a = o ∧ rd m 4 (a + 4) = sz ∧ rd m 8 (a + 8) = ad.

(** The queue the device answers on. *)
Record answers_on (w : VW) (d : usfstl_vhost_user_dev_int) (i : Z) (q : virtq) : Prop := {
  ao_dev : v_dev (env w) = Some d;
  ao_virtq : virtq_at d i q;
  ao_num : 0 < num (virtq_ q);
  ao_used : used_mapped (v_mem (env w)) (virtq_ q);
  ao_call : 0 ≤ call_fd q;
}.

(** The configuration space and its mask are in memory, apart from each other. *)
Record config_ok (m : mem) (p : usfstl_pci_device) : Prop := {
  co_space : 0 ≤ config_space p ∧ config_space p + config_space_size p < 2 ^ 64;
  co_mask : 0 ≤ config_space_mask p ∧ config_space_mask p + config_space_size p < 2 ^ 64;
  co_size : config_space_size p < 2 ^ 32;
  co_space_mapped : range_mapped m (config_space p) (config_space_size p);
  co_mask_mapped : range_mapped m (config_space_mask p) (config_space_size p);
  co_apart : disj (config_space p) (config_space_size p) (config_space_mask p) (config_space_size p);
}.

(** The device uses the accesses of the library. *)
Definition library_cfg (ops : usfstl_pci_device_ops) : Prop :=
  cfg_space_read ops = None ∧ cfg_space_read_deferred ops = None ∧
  cfg_space_write ops = None ∧ cfg_space_write_deferred ops = None.

(** A buffer of queue [i] whose request is the message at [a]. *)
Record request_buf (m : mem) (buf : usfstl_vhost_user_buf) (i a len o sz ad : Z) : Prop := {
  rb_n : 1 ≤ n_out_sg buf;
  rb_out : out_sg buf !! 0%nat = Some (Iovec a len);
  rb_queue : buf_virtq_idx buf = i;
  rb_len : sizeof_pcidev_msg ≤ len;
  rb_msg : msg_at m a o sz ad;
}.

(** Where the answer goes. *)
Record reply_buf (m : mem) (buf : usfstl_vhost_user_buf) (out sz : Z) : Prop := {
  pb_n : n_in_sg buf ≠ 0;
  pb_in : ∃ len, in_sg buf !! 0%nat = Some (Iovec out len) ∧ sz ≤ len;
  pb_mapped : range_mapped m out sz;
}.

Lemma load_msg_run (w : VW) a o sz ad : msg_at (v_mem (env w)) a o sz ad →
  load_msg a w = Ok (PciMsg o (rd (v_mem (env w)) 1 (a + 1)) sz ad (a + sizeof_pcidev_msg), w).
Proof.
  intros (Hm & <- & <- & <-). unfold load_msg, sizeof_pcidev_msg in *.
  do 4 (erewrite bind_ok by (apply ld_run; eapply range_mapped_sub; [done|lia|lia])). done.
Qed.

Lemma in_sg0_run {w : VW} buf v : in_sg buf !! 0%nat = Some v → in_sg0 buf w = Ok (v, w).
Proof.
  intros H. unfold in_sg0. apply array_get_ok; [done|]. cbn.
  destruct (in_sg buf); [done|]. by destruct (allocated buf).
Qed.

Lemma memcpy_run (w : VW) dst src n : 0 ≤ n →
  range_mapped (v_mem (env w)) src n → range_mapped (v_mem (env w)) dst n →
  pci_memcpy dst src n w =
  Ok (tt, with_mem w (poke (v_mem (env w)) dst (peek (v_mem (env w)) src (Z.to_nat n)))).
Proof.
  intros Hn Hs Hd. assert (Z.of_nat (Z.to_nat n) = n) as E by lia. unfold pci_memcpy.
  erewrite bind_ok by (apply on_mem_run, load_peek; by rewrite E). rewrite set_mem_id.
  apply on_mem_run, store_poke. rewrite peek_length by (by rewrite E). by rewrite E.
Qed.

Lemma memset_run (w : VW) a v n : 0 ≤ n → range_mapped (v_mem (env w)) a n →
  pci_memset a v n w = Ok (tt, with_mem w (poke (v_mem (env w)) a (replicate (Z.to_nat n) v))).
Proof.
  intros Hn H. apply on_mem_run, store_poke. rewrite length_replicate. by replace (Z.of_nat (Z.to_nat n)) with n by lia.
Qed.

Section cfg.
Context `{VE : VhostEnv} (server : usfstl_vhost_user_server) (ops : usfstl_pci_device_ops).
Context (Hctrl : server_has_ctrl server = false) (Hops : library_cfg ops).

(** Memory and events after a response. *)
Definition answered (w : VW) (q : virtq) (buf : usfstl_vhost_user_buf) (m : mem) : VW :=
  notified (with_mem w (used_put m (virtq_ q) (buf_idx buf) (written buf))) (call_fd q).

Lemma response_run (w : VW) d i q buf m : answers_on w d i q → buf_virtq_idx buf = i →
  (∀ a, is_Some (v_mem (env w) !! a) → is_Some (m !! a)) →
  usfstl_pci_send_response server buf (with_mem w m) = Ok (tt, answered w q buf m).
Proof.
  intros [Hd Hq Hn Hu Hc] Hi Hm. unfold usfstl_pci_send_response, usfstl_vhost_user_send_response.
  rewrite Hi, (send_virtq_buf_run server _ d i q); try done.
  intros a Ha. cbn. by apply Hm, Hu.
Qed.

Lemma poke_keeps m a bs b : is_Some (m !! b) → is_Some (poke m a bs !! b).
Proof.
  intros H. apply (poke_mapped m a bs b 1); [|lia]. intros i Hi. by replace i with b by lia.
Qed.

(** The request is loaded and dispatched. *)
Lemma handle_cfg_write (w : VW) p buf i a len sz ad :
  request_buf (v_mem (env w)) buf i a len VIRTIO_PCIDEV_OP_CFG_WRITE sz ad → sizeof_pcidev_msg + sz ≤ len →
  ∃ b, usfstl_vhost_pci_handle server ops p buf w =
    usfstl_vhost_pci_cfg_write server ops p
      (PciMsg VIRTIO_PCIDEV_OP_CFG_WRITE b sz ad (a + sizeof_pcidev_msg)) buf w.
Proof.
  intros [Bn Bo Bq Bl Bm] Hl. eexists. unfold usfstl_vhost_pci_handle.
  replace (n_out_sg buf >=? 1) with true by lia. erewrite bind_ok by done.
  erewrite bind_ok by (apply array_get_ok; [done|exact Bo]). cbn [iov_len iov_base].
  replace (len >=? sizeof_pcidev_msg) with true by lia. erewrite bind_ok by done.
  erewrite bind_ok by (apply load_msg_run; exact Bm). cbn [op msg_size].
  change (VIRTIO_PCIDEV_OP_CFG_WRITE =? VIRTIO_PCIDEV_OP_CFG_READ) with false.
  change (VIRTIO_PCIDEV_OP_CFG_WRITE =? VIRTIO_PCIDEV_OP_CFG_WRITE) with true. cbv iota.
  replace (len >=? sizeof_pcidev_msg + sz) with true by lia. by erewrite bind_ok by done.
Qed.

Lemma handle_cfg_read (w : VW) p buf i a len sz ad out :
  request_buf (v_mem (env w)) buf i a len VIRTIO_PCIDEV_OP_CFG_READ sz ad →
  reply_buf (v_mem (env w)) buf out sz →
  ∃ b, usfstl_vhost_pci_handle server ops p buf w =
    usfstl_vhost_pci_cfg_read server ops p
      (PciMsg VIRTIO_PCIDEV_OP_CFG_READ b sz ad (a + sizeof_pcidev_msg)) buf w.
Proof.
  intros [Bn Bo Bq Bl Bm] [Pn (olen & Pi & Hol) Pm]. eexists. unfold usfstl_vhost_pci_handle.
  replace (n_out_sg buf >=? 1) with true by lia. erewrite bind_ok by done.
  erewrite bind_ok by (apply array_get_ok; [done|exact Bo]). cbn [iov_len iov_base].
  replace (len >=? sizeof_pcidev_msg) with true by lia. erewrite bind_ok by done.
  erewrite bind_ok by (apply load_msg_run; exact Bm). cbn [op msg_size].
  change (VIRTIO_PCIDEV_OP_CFG_READ =? VIRTIO_PCIDEV_OP_CFG_READ) with true. cbv iota.
  replace (negb (n_in_sg buf =? 0)) with true by lia. erewrite bind_ok by done.
  erewrite bind_ok by (by apply in_sg0_run). cbn [iov_len].
  replace (olen >=? sz) with true by lia. by erewrite bind_ok by done.
Qed.

Lemma handle_write_run (w : VW) d i q p buf a len sz ad :
  let m := v_mem (env w) in
  let c := config_space p + ad in
  let k := config_space_mask p + ad in
  answers_on w d i q → config_ok m p → mem_ok m →
  request_buf m buf i a len VIRTIO_PCIDEV_OP_CFG_WRITE sz ad →
  sizeof_pcidev_msg + sz ≤ len → range_mapped m (a + sizeof_pcidev_msg) sz →
  0 ≤ ad → 0 ≤ sz → ad + sz ≤ config_space_size p →
  disj (config_space p) (config_space_size p) a (sizeof_pcidev_msg + sz) →
  usfstl_vhost_pci_handle server ops p buf w =
  Ok (tt, answered w q buf (poke m c (merged m c k (a + sizeof_pcidev_msg) (Z.to_nat sz)))).
Proof.
  intros m c k Ha [Hs Hk Hz Ms Mk Dk] Hm Hb Hl Hdm Had Hsz Hin Dm.
  destruct (handle_cfg_write w p buf i a len sz ad Hb Hl) as [b ->].
  destruct Hops as (O1 & O2 & O3 & O4). unfold disj in Dm, Dk.
  unfold usfstl_vhost_pci_cfg_write. rewrite O3, O4. cbn [msg_size msg_addr msg_data].
  unfold u64. rewrite Z.mod_small by lia. replace (ad + sz >? config_space_size p) with false by lia.
  assert (Z.of_nat (Z.to_nat sz) = sz) as E by lia.
  assert (0 ≤ sizeof_pcidev_msg) as Hp by done.
  erewrite bind_ok; [apply (response_run w d i q); [done|apply Hb|intros; by apply poke_keeps]|].
  rewrite (cfg_write_loop_run _ w m); rewrite ?Z.add_0_r, ?E; unfold disj; try done; try lia.
  - eapply range_mapped_sub; [exact Ms|lia|lia].
  - eapply range_mapped_sub; [exact Mk|lia|lia].
Qed.

Lemma handle_read_run (w : VW) d i q p buf a len sz ad out :
  let m := v_mem (env w) in
  answers_on w d i q → config_ok m p →
  request_buf m buf i a len VIRTIO_PCIDEV_OP_CFG_READ sz ad → reply_buf m buf out sz →
  0 ≤ ad → 0 ≤ sz → ad + sz ≤ config_space_size p →
  usfstl_vhost_pci_handle server ops p buf w =
  Ok (tt, answered w q buf (poke m out (peek m (config_space p + ad) (Z.to_nat sz)))).
Proof.
  intros m Ha [Hs Hk Hz Ms Mk Dk] Hb Hr Had Hsz Hin.
  destruct (handle_cfg_read w p buf i a len sz ad out Hb Hr) as [b ->].
  destruct Hops as (O1 & O2 & O3 & O4), Hr as [Pn (olen & Pi & Hol) Pm].
  unfold usfstl_vhost_pci_cfg_read. erewrite bind_ok by (by apply in_sg0_run).
  rewrite O1, O2. cbn [msg_size msg_addr msg_data iov_base].
  unfold u64. rewrite !Z.mod_small by lia. replace (ad + sz >? config_space_size p) with false by lia.
  erewrite bind_ok; [apply (response_run w d i q); [done|apply Hb|intros; by apply poke_keeps]|].
  apply memcpy_run; [done| |done]. eapply range_mapped_sub; [exact Ms|lia|lia].
Qed.
End cfg.

Lemma peek_lookup m n : ∀ a j, range_mapped m a (Z.of_nat n) → (j < n)%nat →
  peek m a n !! j = m !! (a + Z.of_nat j).
Proof.
  induction n as [|n IH]; intros a j Hm Hj; [lia|]. destruct (Hm a ltac:(lia)) as [b Hb].
  cbn. rewrite Hb. destruct j as [|j]; [by rewrite Z.add_0_r|]. cbn. rewrite IH; [f_equal; lia| |lia].
  intros x Hx. apply Hm. lia.
Qed.

(** The used ring of a queue. *)
Definition apart_used (q : virtq) (a n : Z) : Prop := disj a n (used (virtq_ q)) (4 + 8 * num (virtq_ q)).

Lemma rd_ext m m' n a : (∀ x, a ≤ x < a + Z.of_nat n → m !! x = m' !! x) → rd m n a = rd m' n a.
Proof. intros H. unfold rd. f_equal. by apply peek_ext. Qed.

Lemma msg_at_ext m m' a o sz ad : (∀ x, a ≤ x < a + sizeof_pcidev_msg → m' !! x = m !! x) →
  msg_at m a o sz ad → msg_at m' a o sz ad.
Proof.
  unfold sizeof_pcidev_msg. intros H (Hm & <- & <- & <-). unfold msg_at, sizeof_pcidev_msg in *.
  split_and!; [intros x Hx; rewrite H by lia; by apply Hm|apply rd_ext..]; intros x Hx; apply H; lia.
Qed.

(** What a response leaves as it was, and what it adds. *)
Lemma answered_keeps w q buf m x : is_Some (m !! x) → is_Some (v_mem (env (answered w q buf m)) !! x).
Proof. apply used_put_mapped. Qed.

Lemma answered_outside w q buf m x : 0 < num (virtq_ q) →
  ¬ (used (virtq_ q) ≤ x < used (virtq_ q) + (4 + 8 * num (virtq_ q))) →
  v_mem (env (answered w q buf m)) !! x = m !! x.
Proof. apply used_put_outside. Qed.

Lemma answers_on_answered w d i q buf m : answers_on w d i q →
  (∀ x, is_Some (v_mem (env w) !! x) → is_Some (m !! x)) → answers_on (answered w q buf m) d i q.
Proof.
  intros [Hd Hq Hn Hu Hc] Hm. split; try done. intros x Hx. by apply answered_keeps, Hm, Hu.
Qed.

Lemma config_ok_mono m m' p : (∀ x, is_Some (m !! x) → is_Some (m' !! x)) → config_ok m p → config_ok m' p.
Proof.
  intros H [Hs Hk Hz Ms Mk Dk]. split; try done; intros x Hx; apply H; [by apply Ms|by apply Mk].
Qed.

Lemma reply_buf_mono m m' buf out sz : (∀ x, is_Some (m !! x) → is_Some (m' !! x)) →
  reply_buf m buf out sz → reply_buf m' buf out sz.
Proof. intros H [Pn Pi Pm]. split; try done. intros x Hx. by apply H, Pm. Qed.

Lemma request_buf_ext m m' buf i a len o sz ad :
  (∀ x, a ≤ x < a + sizeof_pcidev_msg → m' !! x = m !! x) →
  request_buf m buf i a len o sz ad → request_buf m' buf i a len o sz ad.
Proof. intros H [Bn Bo Bq Bl Bm]. split; try done. by eapply msg_at_ext. Qed.

(** C23. A write followed by a read of the same bytes, which lie inside the
    configuration space, each handled by a call of the device's handler
    ([usfstl_vhost_pci_handle], with the library's own accesses and no time control),
    puts in the buffer of the reader, byte by byte, the old value where the mask is
    clear and the written one where it is set; each call signals the guest once.
    (With a scheduler these are the only answers; without one, and for accesses
    behind the configuration space, see [pci_without_scheduler_answers_twice] and
    [pci_read_out_of_range].) *)
Theorem pci_config_write_read `{VE : VhostEnv} server ops (w : VW) d i q p bw br aw lw ar lr sz ad out :
  let m := v_mem (env w) in
  server_has_ctrl server = false → library_cfg ops →
  answers_on w d i q → config_ok m p → mem_ok m →
  0 ≤ ad → 0 ≤ sz → ad + sz ≤ config_space_size p →
  request_buf m bw i aw lw VIRTIO_PCIDEV_OP_CFG_WRITE sz ad →
  sizeof_pcidev_msg + sz ≤ lw → range_mapped m (aw + sizeof_pcidev_msg) sz →
  request_buf m br i ar lr VIRTIO_PCIDEV_OP_CFG_READ sz ad → reply_buf m br out sz →
  disj (config_space p) (config_space_size p) aw (sizeof_pcidev_msg + sz) →
  disj (config_space p) (config_space_size p) ar sizeof_pcidev_msg →
  apart_used q (config_space p) (config_space_size p) → apart_used q ar sizeof_pcidev_msg → apart_used q out sz →
  ∃ w', (usfstl_vhost_pci_handle server ops p bw;; usfstl_vhost_pci_handle server ops p br) w = Ok (tt, w') ∧
    (∀ j, 0 ≤ j < sz → v_mem (env w') !! (out + j) =
       Some (merge_byte (rd m 1 (config_space p + ad + j)) (rd m 1 (config_space_mask p + ad + j))
                        (rd m 1 (aw + sizeof_pcidev_msg + j)))) ∧
    v_calls (env w') = v_calls (env w) ++ [call_fd q] ++ [call_fd q].
Proof.
  intros m Hc Ho Ha Hco Hm Had Hsz Hin Hbw Hlw Hdw Hbr Hpr Dw Dr Uc Ur Uo.
  pose proof (ao_num _ _ _ _ Ha) as Hn.
  set (c := config_space p + ad). set (k := config_space_mask p + ad).
  set (bs := merged m c k (aw + sizeof_pcidev_msg) (Z.to_nat sz)).
  set (w1 := answered w q bw (poke m c bs)).
  assert (length bs = Z.to_nat sz) as Lbs by apply merged_length.
  assert (∀ x, is_Some (m !! x) → is_Some (v_mem (env w1) !! x)) as Hmap
    by (intros x Hx; by apply answered_keeps, poke_keeps).
  unfold apart_used, disj in Uc, Ur, Uo, Dr.
  assert (config_ok (v_mem (env w1)) p) as Hco1 by (by eapply config_ok_mono).
  erewrite bind_ok by (by eapply handle_write_run). fold c k bs w1.
  eexists. split; [eapply (handle_read_run server ops Hc Ho w1 d i q p br ar lr sz ad out); try done|].
  - apply answers_on_answered; [done|]. intros x Hx. by apply poke_keeps.
  - eapply request_buf_ext; [|done]. intros x Hx. unfold w1. rewrite answered_outside by lia.
    rewrite poke_lookup, bool_decide_false by lia. done.
  - by eapply reply_buf_mono.
  - fold c. split; [|by cbn; rewrite <- app_assoc].
    intros j Hj. rewrite answered_outside by lia.
    assert (range_mapped (v_mem (env w1)) c (Z.of_nat (Z.to_nat sz))) as Mc
      by (eapply range_mapped_sub; [apply Hco1|lia|lia]).
    rewrite poke_lookup_in by (rewrite peek_length by done; lia).
    rewrite peek_lookup by (done || lia). unfold w1. rewrite answered_outside by lia.
    rewrite poke_lookup_in by lia. unfold bs. rewrite merged_lookup by lia.
    by replace (Z.of_nat (Z.to_nat (c + Z.of_nat (Z.to_nat (out + j - out)) - c))) with j by lia.
Qed.

(** A device with four bytes of configuration space at 1000, its mask at 2000,
    and one queue with its rings at 6000, 6064 and 6080. *)
#[local] Instance pci_demo_env : VhostEnv := {|
  op_connected := mret tt;
  op_handle b _ := mret b;
  op_disconnected := mret tt;
  ctrl_sync_to := mret tt;
  ctrl_sync_from := mret tt;
  loop_until_readable _ := mret tt;
|}.

Definition pci_ops : usfstl_pci_device_ops :=
  PciOps (mret tt) None None None None None None None None None None.
Definition pci_server : usfstl_vhost_user_server := USFSTL_VHOST_USER_SERVER_PCI None false.
Definition pci_device : usfstl_pci_device := PciDevice 1000 2000 4.
Definition pci_queue : virtq := Virtq (-1) false true false (Vring 4 6000 6064 6080) 7 0.
Definition pci_dev : usfstl_vhost_user_dev_int :=
  Dev 100 3 true 0 0 1 [Region 0 1000 3000 0; Region 0 0 0 0] [5; -1] [3000; 0] (-1) [pci_queue; pci_queue].
Definition pci_mem : mem :=
  poke (poke (poke (poke (poke (poke ∅ 1000 [17; 34; 51; 68]) 2000 [255; 15; 0; 240])
    3000 (pcidev_msg_bytes VIRTIO_PCIDEV_OP_CFG_WRITE 4 0 ++ [170; 187; 204; 221]))
    4000 (pcidev_msg_bytes VIRTIO_PCIDEV_OP_CFG_READ 4 0)) 5000 (replicate 4 0)) 6000 (replicate 116 0).
Definition pci_world (m : mem) : VW := World ∅ ∅ (VEnv (Some pci_dev) m [] [] [] true [] [] []).
Definition pci_write_buf : usfstl_vhost_user_buf := Buf 0 1 [] [Iovec 3000 20] 0 0 0 true.
Definition pci_read_buf : usfstl_vhost_user_buf := Buf 1 1 [Iovec 5000 4] [Iovec 4000 16] 0 0 1 true.

Ltac mapped_compute := apply range_mapped_b_true; vm_compute; reflexivity.

Lemma pci_answers : answers_on (pci_world pci_mem) pci_dev 0 pci_queue.
Proof. split; [reflexivity|split; [lia|reflexivity]|cbn; lia|mapped_compute|cbn; lia]. Qed.

Lemma pci_config : config_ok pci_mem pci_device.
Proof. split; [cbn; lia|cbn; lia|cbn; lia|mapped_compute|mapped_compute|left; cbn; lia]. Qed.

Lemma pci_mem_ok : mem_ok pci_mem.
Proof. apply map_Forall_to_list. vm_compute. repeat constructor; vm_compute; discriminate. Qed.

Lemma pci_write_request : request_buf pci_mem pci_write_buf 0 3000 20 VIRTIO_PCIDEV_OP_CFG_WRITE 4 0.
Proof.
  split; [cbn; lia|reflexivity|reflexivity|vm_compute; discriminate|].
  split; [mapped_compute|vm_compute; done].
Qed.

Lemma pci_read_request : request_buf pci_mem pci_read_buf 0 4000 16 VIRTIO_PCIDEV_OP_CFG_READ 4 0.
Proof.
  split; [cbn; lia|reflexivity|reflexivity|vm_compute; discriminate|].
  split; [mapped_compute|vm_compute; done].
Qed.

Lemma pci_reply : reply_buf pci_mem pci_read_buf 5000 4.
Proof. split; [discriminate|exists 4; split; [reflexivity|lia]|mapped_compute]. Qed.

(** The server with a scheduler. *)
Definition pci_sched_server : usfstl_vhost_user_server := USFSTL_VHOST_USER_SERVER_PCI (Some 9) false.

Lemma pci_config_write_read_witness :
  ∃ w', (usfstl_vhost_pci_handle pci_sched_server pci_ops pci_device pci_write_buf;;
         usfstl_vhost_pci_handle pci_sched_server pci_ops pci_device pci_read_buf) (pci_world pci_mem) = Ok (tt, w') ∧
    v_mem (env w') !! 5001 = Some 43 ∧ v_calls (env w') = [7; 7].
Proof.
  destruct (pci_config_write_read pci_sched_server pci_ops (pci_world pci_mem) pci_dev 0 pci_queue pci_device
    pci_write_buf pci_read_buf 3000 20 4000 16 4 0 5000 eq_refl
    (conj eq_refl (conj eq_refl (conj eq_refl eq_refl))) pci_answers pci_config pci_mem_ok
    ltac:(lia) ltac:(lia) ltac:(cbn; lia) pci_write_request ltac:(vm_compute; discriminate) ltac:(mapped_compute)
    pci_read_request pci_reply ltac:(left; vm_compute; discriminate) ltac:(left; vm_compute; discriminate)
    ltac:(left; vm_compute; discriminate) ltac:(left; vm_compute; discriminate) ltac:(left; vm_compute; discriminate)) as (w' & Hrun & Hm & Hc).
  exists w'. split; [exact Hrun|]. split; [exact (Hm 1 ltac:(lia))|exact Hc].
Defined.

(** ** Requests that are answered wrongly *)

(** An access that ends behind the configuration space is not answered at all:
    the zeroes are in the buffer of the reader, but no event tells of them and
    the used ring stays as it was. *)
Theorem pci_read_out_of_range `{VE : VhostEnv} server ops (w : VW) d i q p buf a len sz ad out :
  let m := v_mem (env w) in
  library_cfg ops → answers_on w d i q →
  request_buf m buf i a len VIRTIO_PCIDEV_OP_CFG_READ sz ad → reply_buf m buf out sz →
  0 ≤ ad → 0 ≤ sz → config_space_size p < ad + sz < 2 ^ 64 → apart_used q out sz →
  ∃ w', usfstl_vhost_pci_handle server ops p buf w = Ok (tt, w') ∧
    (∀ j, 0 ≤ j < sz → v_mem (env w') !! (out + j) = Some 0) ∧
    rd (v_mem (env w')) 2 (used (virtq_ q) + 2) = rd m 2 (used (virtq_ q) + 2) ∧
    v_calls (env w') = v_calls (env w).
Proof.
  intros m (O1 & O2 & O3 & O4) Ha Hb Hr Had Hsz Hin Hu.
  destruct (handle_cfg_read server ops w p buf i a len sz ad out Hb Hr) as [b ->].
  destruct Hr as [Pn (olen & Pi & Hol) Pm]. pose proof (ao_num _ _ _ _ Ha).
  unfold usfstl_vhost_pci_cfg_read. erewrite bind_ok by (by apply in_sg0_run).
  rewrite O1, O2. cbn [msg_size msg_addr msg_data iov_base]. unfold u64. rewrite Z.mod_small by lia.
  replace (ad + sz >? config_space_size p) with true by lia. rewrite memset_run by done.
  eexists. split; [done|]. split_and!; [|apply rd_ext|done]; intros x Hx; cbn [with_mem].
  - change (poke m out (replicate (Z.to_nat sz) 0) !! (out + x) = Some 0).
    rewrite poke_lookup_in by (rewrite length_replicate; lia). apply lookup_replicate. split; [done|lia].
  - change (poke m out (replicate (Z.to_nat sz) 0) !! x = m !! x). unfold apart_used, disj in Hu.
    rewrite poke_lookup, length_replicate, bool_decide_false by lia. done.
Qed.

Definition pci_small : usfstl_pci_device := PciDevice 1000 2000 2.

Lemma pci_read_out_of_range_witness :
  ∃ w', usfstl_vhost_pci_handle pci_server pci_ops pci_small pci_read_buf (pci_world pci_mem) = Ok (tt, w') ∧
    v_mem (env w') !! 5003 = Some 0 ∧ v_calls (env w') = [].
Proof.
  destruct (pci_read_out_of_range pci_server pci_ops (pci_world pci_mem) pci_dev 0 pci_queue pci_small
    pci_read_buf 4000 16 4 0 5000 (conj eq_refl (conj eq_refl (conj eq_refl eq_refl))) pci_answers
    pci_read_request pci_reply ltac:(lia) ltac:(lia) ltac:(cbn; lia) ltac:(left; vm_compute; discriminate))
    as (w' & Hrun & Hm & _ & Hc).
  exists w'. split; [exact Hrun|]. split; [exact (Hm 3 ltac:(lia))|exact Hc].
Defined.

(** The request of [pci_write_buf] is available in the first queue; the job of the
    device is not scheduled. *)
Definition pci_kick_mem : mem :=
  poke (poke pci_mem 6000 (demo_desc 3000 20 0 0)) 6066 [1; 0; 0; 0].
Definition pci_kick_world : VW :=
  World {[100 := Job 0 0 0 "vhost-user-irq" 0 None None false false]} ∅
    (VEnv (Some pci_dev) pci_kick_mem [] [] [] true [] [] []).

(** A device without a scheduler: the kick of one request leads to two elements
    in the used ring and two events, since the handler of the device answers and
    [usfstl_vhost_user_handle_queue] answers again. *)
Theorem pci_without_scheduler_answers_twice :
  match usfstl_vhost_user_virtq_kick (VE := usfstl_vhost_user_ops_pci pci_server pci_ops pci_device)
          pci_server env_bottom 5 5 0 pci_kick_world with
  | Ok (_, w') => rd (v_mem (env w')) 2 6082 = 2 ∧ v_calls (env w') = [7; 7] ∧ peek (v_mem (env w')) 1000 4 = [170; 43; 51; 212]
  | Err _ => False
  end.
Proof. vm_compute. done. Qed.
