(* ===== verification/Sort.v ===== *)
(** * Sorting (src/dwarf/sort.c)

    The array is a sequence of cells, an element of it [size] cells in a row.
    The cells are the bytes of the array, or, for an array of structures that
    are not laid out, the structures themselves ([size] is then 1).  The
    comparison function is given and depends on the elements only.  Sizes and
    indices are natural numbers: an array fits the address space, so that no
    [size_t] overflows. *)
From S2P Require Import Prelude.

Section cells.
Context {Cell : Type}.

Section sort.
Context (compar : list Cell → list Cell → Z).

Definition byte_at (i : nat) : M (list Cell) Cell :=
  l ← get; match l !! i with Some b => mret b | None => fail OutOfBounds end.
Definition set_byte (i : nat) (b : Cell) : M (list Cell) unit :=
  l ← get; if (i <? length l)%nat then modify (λ l, <[i:=b]> l) else fail OutOfBounds.

(** The loop of [swap], [n] bytes to go. *)
Fixpoint swap (a b n : nat) : M (list Cell) unit :=
  match n with
  | O => mret tt
  | S n =>
      t ← byte_at a;
      x ← byte_at b;
      set_byte a x;;
      set_byte b t;;
      swap (S a) (S b) n
  end.

(** The comparison of the elements at two addresses. *)
Definition call_compar (a b size : nat) : M (list Cell) Z :=
  l ← get;
  if (a + size <=? length l)%nat && (b + size <=? length l)%nat
  then mret (compar (take size (drop a l)) (take size (drop b l)))
  else fail OutOfBounds.

(** The loop that compares with the pivot, from [i] on, [n] elements to go. *)
Fixpoint partition_loop (n i mid base size : nat) : M (list Cell) nat :=
  match n with
  | O => mret mid
  | S n =>
      r ← call_compar base (base + i * size) size;
      if 0 <? r then
        when (negb (i =? S mid)%nat) (swap (base + S mid * size) (base + i * size) size);;
        partition_loop n (S i) (S mid) base size
      else partition_loop n (S i) mid base size
  end.

(** [goto tail_recurse] is a call. *)
Fixpoint backtrace_qsort (fuel base count size : nat) : M (list Cell) unit :=
  match fuel with
  | O => fail OutOfFuel
  | S fuel =>
      if (count <? 2)%nat then mret tt
      else
        swap base (base + (count / 2) * size) size;;
        mid ← partition_loop (count - 1) 1 0 base size;
        when (0 <? mid)%nat (swap base (base + mid * size) size);;
        if (2 * mid <? count)%nat then
          backtrace_qsort fuel base mid size;;
          backtrace_qsort fuel (base + (mid + 1) * size) (count - (mid + 1)) size
        else
          backtrace_qsort fuel (base + (mid + 1) * size) (count - (mid + 1)) size;;
          backtrace_qsort fuel base mid size
  end.
End sort.

(** ** The array as a list of elements *)

Definition rows (size : nat) (l : list (list Cell)) : Prop := Forall (λ r, length r = size) l.

Lemma rows_length size l : rows size l → length (concat l) = (length l * size)%nat.
Proof. induction 1 as [|r l Hr _ IH]; cbn; [done|]. rewrite length_app, IH, Hr. lia. Qed.

Lemma byte_at_run pre x post i : i = length pre → byte_at i (pre ++ x :: post) = Ok (x, pre ++ x :: post).
Proof. intros ->. unfold byte_at. erewrite bind_ok by done. by rewrite list_lookup_middle. Qed.

Lemma set_byte_run pre x y post i : i = length pre →
  set_byte i y (pre ++ x :: post) = Ok (tt, pre ++ y :: post).
Proof.
  intros ->. unfold set_byte. erewrite bind_ok by done. rewrite length_app. cbn [length].
  replace (_ <? _)%nat with true by lia. unfold modify. do 2 f_equal. rewrite <- (Nat.add_0_r (length pre)). by rewrite insert_app_r.
Qed.

(** The two blocks trade places. *)
Lemma swap_bytes u : ∀ v pre mid post a b, length u = length v → a = length pre →
  b = (length pre + length u + length mid)%nat →
  swap a b (length u) (pre ++ u ++ mid ++ v ++ post) = Ok (tt, pre ++ v ++ mid ++ u ++ post).
Proof.
  induction u as [|x u IH]; intros [|y v] pre mid post a b Hl Ha Hb; cbn in Hl; try lia; cbn [length swap]; [done|].
  assert (∀ p q : Cell, pre ++ p :: u ++ mid ++ q :: v ++ post = (pre ++ p :: u ++ mid) ++ q :: v ++ post) as E
    by (intros; rewrite <- !app_assoc; cbn; by rewrite <- !app_assoc).
  assert (∀ p : Cell, b = length (pre ++ p :: u ++ mid)) as Lb
    by (intros; cbn in Hb; rewrite length_app; cbn; rewrite length_app; lia).
  cbn [app]. erewrite bind_ok by (by apply byte_at_run).
  rewrite E. erewrite bind_ok by (apply byte_at_run, Lb).
  rewrite <- E. erewrite bind_ok by (by apply set_byte_run).
  rewrite E. erewrite bind_ok by (apply set_byte_run, Lb).
  replace ((pre ++ y :: u ++ mid) ++ x :: v ++ post) with ((pre ++ [y]) ++ u ++ (mid ++ [x]) ++ v ++ post)
    by (repeat (rewrite <- !app_assoc; cbn); done).
  rewrite IH; [|lia|rewrite length_app; cbn; lia|rewrite !length_app; cbn in *; lia].
  do 2 f_equal. by rewrite <- !app_assoc.
Qed.

Lemma swap_rows size X x Y y Z' a b : rows size (X ++ x :: Y ++ y :: Z') →
  a = (length X * size)%nat → b = ((length X + 1 + length Y) * size)%nat →
  swap a b size (concat (X ++ x :: Y ++ y :: Z')) = Ok (tt, concat (X ++ y :: Y ++ x :: Z')).
Proof.
  unfold rows. rewrite Forall_app, Forall_cons, Forall_app, Forall_cons. intros (HX & Hx & HY & Hy & HZ) Ha Hb.
  rewrite !concat_app. cbn [concat]. rewrite !concat_app. cbn [concat].
  rewrite <- Hx. apply swap_bytes; [congruence|by rewrite (rows_length size) by done|].
  rewrite (rows_length size X), (rows_length size Y), Hx by done. lia.
Qed.

Lemma take_row size X x Y : length x = size → rows size X →
  take size (drop (length X * size) (concat (X ++ x :: Y))) = x.
Proof.
  intros Hx HX. rewrite concat_app, <- (rows_length size X) by done. rewrite drop_app_length. cbn [concat].
  by rewrite <- Hx, take_app_length.
Qed.

Section sort_proof.
Context (compar : list Cell → list Cell → Z).

Lemma compar_run size X x Y y Z' a b : rows size (X ++ x :: Y ++ y :: Z') →
  a = (length X * size)%nat → b = ((length X + 1 + length Y) * size)%nat →
  call_compar compar a b size (concat (X ++ x :: Y ++ y :: Z')) =
  Ok (compar x y, concat (X ++ x :: Y ++ y :: Z')).
Proof.
  intros Hr Ha Hb. pose proof (rows_length size _ Hr) as Hl. unfold rows in Hr.
  rewrite Forall_app, Forall_cons, Forall_app, Forall_cons in Hr. destruct Hr as (HX & Hx & HY & Hy & HZ).
  unfold call_compar. erewrite bind_ok by done. rewrite !length_app in Hl. cbn in Hl. rewrite length_app in Hl. cbn in Hl.
  rewrite Hl, (proj2 (Nat.leb_le _ _)), (proj2 (Nat.leb_le _ _)) by nia. cbn [andb]. rewrite Ha, take_row by done.
  replace (X ++ x :: Y ++ y :: Z') with ((X ++ x :: Y) ++ y :: Z') by (by rewrite <- app_assoc).
  replace b with (length (X ++ x :: Y) * size)%nat by (rewrite length_app; cbn; lia).
  rewrite take_row; [done|done|]. apply Forall_app. split; [done|by constructor].
Qed.

(** Elements before and not before the pivot. *)
Definition low (p x : list Cell) : Prop := 0 < compar p x.
Definition high (p x : list Cell) : Prop := compar p x ≤ 0.

Lemma trade_perm (x y : list Cell) (A B R : list (list Cell)) :
  A ++ (y :: B) ++ x :: R ≡ₚ (A ++ [x]) ++ (B ++ [y]) ++ R.
Proof.
  rewrite <- !app_assoc. cbn. apply Permutation_app_head. rewrite <- !Permutation_middle. constructor.
Qed.

Lemma rows_trade size X (x y : list Cell) Y Z' :
  rows size (X ++ x :: Y ++ y :: Z') → rows size (X ++ y :: Y ++ x :: Z').
Proof. unfold rows. rewrite !Forall_app, !Forall_cons, !Forall_app, !Forall_cons. tauto. Qed.

Lemma partition_run size P p Q : ∀ R A B,
  rows size (P ++ p :: A ++ B ++ R ++ Q) → Forall (low p) A → Forall (high p) B →
  ∃ A' B', partition_loop compar (length R) (1 + length A + length B) (length A) (length P * size) size
      (concat (P ++ p :: A ++ B ++ R ++ Q)) = Ok (length A', concat (P ++ p :: A' ++ B' ++ Q)) ∧
    A ++ B ++ R ≡ₚ A' ++ B' ∧ Forall (low p) A' ∧ Forall (high p) B'.
Proof.
  induction R as [|x R IH]; intros A B Hr HA HB; cbn [length partition_loop].
  { exists A, B. by rewrite app_nil_r. }
  replace (P ++ p :: A ++ B ++ (x :: R) ++ Q) with (P ++ p :: (A ++ B) ++ x :: R ++ Q) in * by (by rewrite <- app_assoc).
  erewrite bind_ok by (apply compar_run; [done|done|rewrite length_app; lia]).
  destruct (Z.ltb_spec 0 (compar p x)) as [Hlt|Hge].
  - assert (Forall (low p) (A ++ [x])) as HA' by (apply Forall_app; auto).
    replace (S (length A)) with (length (A ++ [x])) by (rewrite length_app; cbn; lia).
    destruct B as [|y B].
    + replace (_ =? _)%nat with true by (rewrite length_app; cbn [length]; lia). erewrite bind_ok by done.
      replace (P ++ p :: (A ++ []) ++ x :: R ++ Q) with (P ++ p :: (A ++ [x]) ++ [] ++ R ++ Q) in *
        by (rewrite app_nil_r, <- app_assoc; done).
      destruct (IH (A ++ [x]) [] Hr HA' HB) as (A' & B' & Hrun & HP & H).
      exists A', B'. split_and!; [|by rewrite <- HP, <- app_assoc|apply H..].
      rewrite <- Hrun. f_equal. rewrite length_app. cbn [length]. lia.
    + replace (_ =? _)%nat with false by (rewrite length_app; cbn [length]; lia). cbn [negb when].
      replace (P ++ p :: (A ++ y :: B) ++ x :: R ++ Q) with ((P ++ p :: A) ++ y :: B ++ x :: R ++ Q) in *
        by (repeat (rewrite <- !app_assoc; cbn); done).
      erewrite bind_ok by (apply swap_rows; [done|rewrite !length_app; cbn; lia|rewrite length_app; cbn; lia]).
      apply rows_trade in Hr. apply Forall_cons in HB as [Hy HB].
      replace ((P ++ p :: A) ++ x :: B ++ y :: R ++ Q) with (P ++ p :: (A ++ [x]) ++ (B ++ [y]) ++ R ++ Q) in *
        by (repeat (rewrite <- !app_assoc; cbn); done).
      destruct (IH (A ++ [x]) (B ++ [y]) Hr HA') as (A' & B' & Hrun & HP & H); [apply Forall_app; auto|].
      exists A', B'. split_and!; [|by rewrite <- HP, trade_perm|apply H..].
      rewrite <- Hrun. f_equal. rewrite !length_app. cbn [length]. lia.
  - replace (P ++ p :: (A ++ B) ++ x :: R ++ Q) with (P ++ p :: A ++ (B ++ [x]) ++ R ++ Q) in *
      by (repeat (rewrite <- !app_assoc; cbn); done).
    destruct (IH A (B ++ [x]) Hr HA) as (A' & B' & Hrun & HP & H); [apply Forall_app; auto|].
    exists A', B'. split_and!; [|by rewrite <- HP, <- app_assoc|apply H..].
    rewrite <- Hrun. f_equal. rewrite length_app. cbn [length]. lia.
Qed.

Lemma rows_perm size l l' : l ≡ₚ l' → rows size l → rows size l'.
Proof. unfold rows. by intros ->. Qed.

Lemma rows_segment size P s s' Q : s ≡ₚ s' → rows size (P ++ s ++ Q) → rows size (P ++ s' ++ Q).
Proof. intros Hp. apply rows_perm. by rewrite Hp. Qed.

(** The pivot is chosen and put where it belongs. *)
Definition split_at_pivot (base count size : nat) : M (list Cell) nat :=
  swap base (base + (count / 2) * size) size;;
  mid ← partition_loop compar (count - 1) 1 0 base size;
  when (0 <? mid)%nat (swap base (base + mid * size) size);;
  mret mid.

Lemma pivot_to_front size P s Q : (2 ≤ length s)%nat → rows size (P ++ s ++ Q) →
  ∃ p R, s ≡ₚ p :: R ∧
    swap (length P * size) (length P * size + (length s / 2) * size) size (concat (P ++ s ++ Q)) =
    Ok (tt, concat (P ++ p :: R ++ Q)).
Proof.
  intros Hs Hr. destruct s as [|a s]; [cbn in Hs; lia|].
  assert (1 ≤ length (a :: s) / 2 ≤ length s)%nat as Hk.
  { cbn [length] in *. pose proof (Nat.div_mod (S (length s)) 2). pose proof (Nat.mod_upper_bound (S (length s)) 2). lia. }
  destruct (lookup_lt_is_Some_2 s (length (a :: s) / 2 - 1)) as [y Hy]; [lia|].
  apply list_elem_of_split_length in Hy as (Y & T & -> & HY).
  exists y, (Y ++ a :: T). split; [rewrite <- !Permutation_middle; constructor|].
  replace (P ++ (a :: Y ++ y :: T) ++ Q) with (P ++ a :: Y ++ y :: T ++ Q) in * by (cbn; by rewrite <- app_assoc).
  rewrite <- app_assoc. cbn [app]. apply swap_rows; [done|done|].
  rewrite <- HY, <- Nat.mul_add_distr_r. f_equal. lia.
Qed.

Lemma split_run size P s Q : (2 ≤ length s)%nat → rows size (P ++ s ++ Q) →
  ∃ L p H, split_at_pivot (length P * size) (length s) size (concat (P ++ s ++ Q)) =
      Ok (length L, concat (P ++ L ++ p :: H ++ Q)) ∧
    s ≡ₚ L ++ p :: H ∧ Forall (low p) L ∧ Forall (high p) H.
Proof.
  intros Hs Hr. destruct (pivot_to_front size P s Q Hs Hr) as (p & R & HP & Hsw).
  unfold split_at_pivot. erewrite bind_ok by exact Hsw.
  assert (rows size (P ++ p :: [] ++ [] ++ R ++ Q)) as Hr1 by exact (rows_segment size P s (p :: R) Q HP Hr).
  destruct (partition_run size P p Q R [] [] Hr1 (Forall_nil_2 _) (Forall_nil_2 _)) as (A & H & Hrun & HAP & HA & HH).
  replace (length s - 1)%nat with (length R) by (rewrite HP; cbn; lia).
  erewrite bind_ok by exact Hrun. cbn [app] in HAP.
  destruct A as [|z A _] using rev_ind.
  - cbn [length when Nat.ltb Nat.leb]. exists [], p, H. erewrite bind_ok by done. split_and!; try done. by rewrite HP, HAP.
  - replace (0 <? length (A ++ [z]))%nat with true by (rewrite length_app; cbn [length]; lia). cbn [when].
    assert (rows size (P ++ p :: A ++ z :: H ++ Q)) as Hr2.
    { eapply (rows_segment size P (p :: R) (p :: A ++ z :: H) Q) in Hr1; [cbn in Hr1; by rewrite <- app_assoc in Hr1|].
      rewrite HAP. by rewrite <- app_assoc. }
    rewrite <- !app_assoc. cbn [app].
    erewrite bind_ok by (apply swap_rows; [done|done|rewrite length_app; cbn [length]; lia]).
    exists (z :: A), p, H. split_and!.
    + unfold mret, M_ret. do 2 f_equal. rewrite length_app. cbn. lia.
    + rewrite HP, HAP. rewrite <- app_assoc. cbn. rewrite <- !Permutation_middle. constructor.
    + apply Forall_app in HA as [HA Hz]. apply Forall_cons in Hz as [Hz _]. by constructor.
    + done.
Qed.

Lemma qsort_step fuel base count size l : (2 ≤ count)%nat →
  backtrace_qsort compar (S fuel) base count size l =
  (mid ← split_at_pivot base count size;
   if (2 * mid <? count)%nat then
     backtrace_qsort compar fuel base mid size;;
     backtrace_qsort compar fuel (base + (mid + 1) * size) (count - (mid + 1)) size
   else
     backtrace_qsort compar fuel (base + (mid + 1) * size) (count - (mid + 1)) size;;
     backtrace_qsort compar fuel base mid size) l.
Proof.
  intros Hc. cbn [backtrace_qsort]. replace (count <? 2)%nat with false by lia.
  unfold split_at_pivot, mbind, M_bind. destruct (swap base _ size l) as [[[] l1]|]; [|done].
  destruct (partition_loop _ _ _ _ _ _ l1) as [[mid l2]|]; [|done].
  destruct (when _ _ l2) as [[[] l3]|]; done.
Qed.

(** Not after. *)
Definition le (x y : list Cell) : Prop := compar x y ≤ 0.

(** What the C library asks of a comparison function. *)
Record consistent : Prop := {
  compar_asym : ∀ x y, 0 < compar x y → compar y x ≤ 0;
  compar_trans : ∀ x y z, compar x y ≤ 0 → compar y z ≤ 0 → compar x z ≤ 0;
}.

Lemma sorted_around L p H : consistent → StronglySorted le L → StronglySorted le H →
  Forall (low p) L → Forall (high p) H → StronglySorted le (L ++ p :: H).
Proof.
  intros [Ha Ht] HL HH Hl Hh. induction HL as [|x L HL IH Hx]; cbn.
  { by constructor. }
  apply Forall_cons in Hl as [Hxp Hl]. constructor; [by apply IH|].
  assert (le x p) as Hle by (by apply Ha).
  apply Forall_app. split; [done|]. constructor; [done|].
  eapply Forall_impl; [exact Hh|]. intros y Hy. by apply (Ht x p y).
Qed.

(** What sorting a part of the array does to it. *)
Definition sorts (fuel base size : nat) (P s Q : list (list Cell)) (s' : list (list Cell)) : Prop :=
  backtrace_qsort compar fuel base (length s) size (concat (P ++ s ++ Q)) = Ok (tt, concat (P ++ s' ++ Q)) ∧
  s ≡ₚ s' ∧ (consistent → StronglySorted le s').

Section parts.
Context (size fuel : nat) (P L : list (list Cell)) (p : list Cell) (H Q : list (list Cell)).
Context (IH : ∀ s P Q, (length s < fuel)%nat → rows size (P ++ s ++ Q) →
  ∃ s', sorts fuel (length P * size) size P s Q s').
Context (HL : (length L < fuel)%nat) (HH : (length H < fuel)%nat).

Lemma sort_left H' : rows size (P ++ (L ++ p :: H') ++ Q) → ∃ L', L ≡ₚ L' ∧ (consistent → StronglySorted le L') ∧
  backtrace_qsort compar fuel (length P * size) (length L) size (concat (P ++ L ++ p :: H' ++ Q)) =
  Ok (tt, concat (P ++ L' ++ p :: H' ++ Q)).
Proof.
  intros Hr. rewrite <- app_assoc in Hr. destruct (IH L P ((p :: H') ++ Q) HL Hr) as (L' & Hrun & HP & HS).
  by exists L'.
Qed.

Lemma sort_right L' : L ≡ₚ L' → rows size (P ++ (L' ++ p :: H) ++ Q) →
  ∃ H', H ≡ₚ H' ∧ (consistent → StronglySorted le H') ∧
  backtrace_qsort compar fuel (length P * size + (length L + 1) * size) (length H) size
    (concat (P ++ L' ++ p :: H ++ Q)) = Ok (tt, concat (P ++ L' ++ p :: H' ++ Q)).
Proof.
  intros HP Hr. assert (∀ K, P ++ L' ++ p :: K ++ Q = (P ++ L' ++ [p]) ++ K ++ Q) as E
    by (intros; by rewrite <- !app_assoc).
  rewrite <- app_assoc in Hr. cbn [app] in Hr. rewrite E in Hr.
  destruct (IH H (P ++ L' ++ [p]) Q HH Hr) as (H' & Hrun & HPH & HS). exists H'. split_and!; [done|done|].
  rewrite !E, <- Hrun. f_equal. rewrite !length_app, HP. cbn [length]. lia.
Qed.

(** Both parts around the pivot, in either order. *)
Lemma sort_parts (b : bool) : rows size (P ++ (L ++ p :: H) ++ Q) →
  ∃ L' H', L ≡ₚ L' ∧ H ≡ₚ H' ∧ (consistent → StronglySorted le L' ∧ StronglySorted le H') ∧
    (if b then backtrace_qsort compar fuel (length P * size) (length L) size;;
               backtrace_qsort compar fuel (length P * size + (length L + 1) * size) (length H) size
     else backtrace_qsort compar fuel (length P * size + (length L + 1) * size) (length H) size;;
          backtrace_qsort compar fuel (length P * size) (length L) size)
    (concat (P ++ L ++ p :: H ++ Q)) = Ok (tt, concat (P ++ L' ++ p :: H' ++ Q)).
Proof.
  intros Hr. destruct b.
  - destruct (sort_left H Hr) as (L' & HPL & HSL & Hl).
    destruct (sort_right L' HPL) as (H' & HPH & HSH & Hh); [eapply rows_segment; [|exact Hr]; by rewrite HPL|].
    exists L', H'. split_and!; [done|done|auto|]. by erewrite bind_ok by exact Hl.
  - destruct (sort_right L (Permutation_refl L) Hr) as (H' & HPH & HSH & Hh).
    destruct (sort_left H') as (L' & HPL & HSL & Hl); [eapply rows_segment; [|exact Hr]; by rewrite HPH|].
    exists L', H'. split_and!; [done|done|auto|]. by erewrite bind_ok by exact Hh.
Qed.
End parts.

Lemma qsort_run size : ∀ fuel s P Q, (length s < fuel)%nat → rows size (P ++ s ++ Q) →
  ∃ s', sorts fuel (length P * size) size P s Q s'.
Proof.
  induction fuel as [|fuel IH]; intros s P Q Hf Hr; [lia|]. unfold sorts.
  destruct (decide (2 ≤ length s)%nat) as [Hs|Hs].
  2:{ exists s. cbn [backtrace_qsort]. replace (length s <? 2)%nat with true by lia. split_and!; [done|done|].
      intros _. destruct s as [|a [|b s]]; cbn in Hs; [constructor|repeat constructor|lia]. }
  rewrite qsort_step by done. destruct (split_run size P s Q Hs Hr) as (L & p & H & Hsp & HP & HL & HH).
  erewrite bind_ok by exact Hsp. assert (length s = length L + S (length H))%nat as Hlen by (by rewrite HP, length_app).
  replace (length s - (length L + 1))%nat with (length H) by lia.
  apply (rows_segment size P s (L ++ p :: H) Q HP) in Hr.
  destruct (sort_parts size fuel P L p H Q IH ltac:(lia) ltac:(lia) (2 * length L <? length s)%nat Hr)
    as (L' & H' & HPL & HPH & HS & Hrun).
  exists (L' ++ p :: H'). split_and!.
  - rewrite Hrun. do 3 f_equal. by rewrite <- app_assoc.
  - by rewrite HP, HPL, HPH.
  - intros Hc. destruct (HS Hc). apply sorted_around; [done..|by rewrite <- HPL|by rewrite <- HPH].
Qed.
End sort_proof.
End cells.

(** ** Arrays of structures

    [backtrace_qsort(base, count, sizeof *base, cmp)] on an array of
    structures.  Every element is one structure; the other cases of
    [cmp_struct] are never met. *)
Definition cmp_struct {A} (cmp : A → A → Z) (x y : list A) : Z :=
  match x, y with
  | [a], [b] => cmp a b
  | [_], _ => 1
  | _, [_] => -1
  | _, _ => 0
  end.

Definition qsort_structs {A} (cmp : A → A → Z) (l : list A) : res (list A) :=
  match backtrace_qsort (cmp_struct cmp) (S (length l)) 0 (length l) 1 l with
  | Ok (_, l') => Ok l'
  | Err f => Err f
  end.

Lemma rows_singletons {A} (l : list A) : rows 1 ((λ a, [a]) <$> l).
Proof. apply Forall_fmap, Forall_true. done. Qed.

Lemma concat_singletons {A} (l : list A) : concat ((λ a, [a]) <$> l) = l.
Proof. induction l; cbn; [done|]. by f_equal. Qed.

Lemma rows_1_inv {A} (l : list (list A)) : rows 1 l → l = (λ a, [a]) <$> concat l.
Proof.
  induction 1 as [|r l Hr _ IH]; [done|]. destruct r as [|a [|]]; try discriminate. cbn. by f_equal.
Qed.

(** The comparison orders the structures: a total preorder by its sign. *)
Record orders {A} (cmp : A → A → Z) : Prop := mk_orders {
  ord_trans : ∀ x y z, cmp x y ≤ 0 → cmp y z ≤ 0 → cmp x z ≤ 0;
  ord_total : ∀ x y, 0 < cmp x y → cmp y x ≤ 0;
}.

Lemma cmp_struct_consistent {A} (cmp : A → A → Z) : orders cmp → consistent (cmp_struct cmp).
Proof.
  intros [Ht Hto]. split.
  - intros [|a [|]] [|b [|]]; cbn; try lia. apply Hto.
  - intros [|a [|]] [|b [|]] [|c [|]]; cbn; try lia. apply Ht.
Qed.

Lemma qsort_structs_sorts {A} (cmp : A → A → Z) (l : list A) :
  ∃ l', qsort_structs cmp l = Ok l' ∧ l ≡ₚ l' ∧
    (orders cmp → StronglySorted (λ x y, cmp x y ≤ 0) l').
Proof.
  destruct (qsort_run (cmp_struct cmp) 1 (S (length l)) ((λ a, [a]) <$> l) [] []) as (l' & Hrun & HP & HS).
  { rewrite length_fmap. lia. }
  { rewrite app_nil_r. apply rows_singletons. }
  assert (rows 1 l') as Hr' by (eapply rows_perm; [exact HP|apply rows_singletons]).
  cbn [app length Nat.mul] in Hrun. rewrite !app_nil_r, length_fmap, concat_singletons in Hrun.
  exists (concat l'). unfold qsort_structs. rewrite Hrun. split; [done|]. split.
  - rewrite <-(concat_singletons l). by rewrite HP.
  - intros Ho. specialize (HS (cmp_struct_consistent _ Ho)). rewrite (rows_1_inv l' Hr') in HS.
    revert HS. generalize (concat l'). intros k. induction k as [|a k IH]; [constructor|].
    cbn [fmap list_fmap]. intros [HS HF]%StronglySorted_inv. constructor; [by apply IH|].
    exact (proj1 (Forall_fmap _ _ _) HF).
Qed.

(** C31. [backtrace_qsort] sorts: on the bytes of any array of elements of one size
    it returns, having called the comparison only inside the array, and leaves
    the bytes of a permutation of the elements in which, if the comparison is
    consistent, none is after a later one.  Fuel for one more call than there
    are elements is enough. *)
Theorem backtrace_qsort_sorts {Cell} (compar : list Cell → list Cell → Z) size l fuel :
  rows size l → (length l < fuel)%nat →
  ∃ l', backtrace_qsort compar fuel 0 (length l) size (concat l) = Ok (tt, concat l') ∧
    l ≡ₚ l' ∧ rows size l' ∧ (consistent compar → StronglySorted (le compar) l').
Proof.
  intros Hr Hf. assert (rows size ([] ++ l ++ [])) as Hr' by (by rewrite app_nil_r).
  destruct (qsort_run compar size fuel l [] [] Hf Hr') as (l' & Hrun & HP & HS).
  exists l'. cbn [app length Nat.mul] in Hrun. rewrite !app_nil_r in Hrun.
  split_and!; [done|done|by eapply rows_perm|done].
Qed.

(** Two-byte elements, compared by their first byte. *)
Definition compar_first (x y : list Z) : Z := default 0 (head x) - default 0 (head y).

Lemma compar_first_consistent : consistent compar_first.
Proof. unfold compar_first. split; intros; lia. Qed.

Lemma backtrace_qsort_sorts_witness :
  ∃ l', backtrace_qsort compar_first 6 0 5 2 [3; 0; 1; 1; 9; 2; 1; 3; 5; 4] = Ok (tt, concat l') ∧
    StronglySorted (le compar_first) l'.
Proof.
  destruct (backtrace_qsort_sorts compar_first 2 [[3; 0]; [1; 1]; [9; 2]; [1; 3]; [5; 4]] 6
    ltac:(repeat constructor) ltac:(cbn; lia)) as (l' & Hrun & _ & _ & HS).
  exists l'. split; [exact Hrun|exact (HS compar_first_consistent)].
Defined.
