(* ===== verification/Wallclock.v ===== *)
(** * Schedulers on the wall clock (src/wallclock.c)

    A scheduler whose external scheduler is the monotonic clock of the system.
    The environment has that clock, the armed timers and the entries of the main
    loop; the loop entry of a scheduler's timer has the scheduler's address.
    Each wait of the main loop is an event: how long it takes and which readable
    entry is served; what the handlers of other entries do is given. *)
From S2P Require Import Prelude Sched Loop.

(** ** Data *)
Inductive wallclock_fn (U : Type) := Wc_request | Wc_wait | Wc_user (f : U).
Arguments Wc_request {U}.
Arguments Wc_wait {U}.
Arguments Wc_user {U} f.

(** [pre_handler] is [g_usfstl_loop_pre_handler_fn] with its data: the scheduler
    that [usfstl_sched_wallclock_sync_real] is called for.  [timers] has the time
    each armed timer expires at. *)
Record wcenv := WcEnv {
  mono : Z;
  timers : gmap Z Z;
  loop_entries : list Z;
  loop_events : list (Z * Z);
  pre_handler : option Z;
  next_timerfd : Z;
}.
#[export] Instance wcenv_settable : Settable wcenv := λ r,
  WcEnv (mono r) (timers r) (loop_entries r) (loop_events r) (pre_handler r) (next_timerfd r).

Section wallclock.
Context {U : Type}.
Abbreviation WW := (world wcenv (wallclock_fn U)).
Context (env0 : SchedEnv wcenv (wallclock_fn U)) (loop_priority : Z → Z) (other_handler : Z → M WW unit).
#[local] Existing Instance env0.

Definition upd_wcenv (f : wcenv → wcenv) : M WW unit := modify (λ w, w <| env := f (env w) |>).
Definition upd_wallclock (s : Z) (f : sched_wallclock → sched_wallclock) : M WW unit :=
  upd_sched s (λ sc, sc <| wallclock := f (wallclock sc) |>).

(** [clock_gettime(CLOCK_MONOTONIC)], in nanoseconds. *)
Definition clock_gettime : M WW Z := w ← get; mret (mono (env w)).

(** [timerfd_settime]: zero disarms. *)
Definition timerfd_settime (fd waketime : Z) : M WW unit :=
  upd_wcenv (λ e, e <| timers := if waketime =? 0 then delete fd (timers e) else <[fd := waketime]> (timers e) |>).

(** The timer does not repeat: when read it is not readable any more. *)
Definition usfstl_sched_wallclock_handle_fd (s : Z) : M WW unit :=
  sc ← get_sched s;
  upd_wcenv (λ e, e <| timers := delete (wc_fd (wallclock sc)) (timers e) |>);;
  upd_wallclock s (λ wc, wc <| wc_timer_triggered := true |>).

Definition usfstl_sched_wallclock_initialize (s : Z) : M WW unit :=
  now ← clock_gettime;
  upd_wallclock s (λ wc, wc <| wc_start := u64 now |> <| wc_initialized := true |>).

Definition usfstl_sched_wallclock_request (s time : Z) : M WW usfstl_sched_req_status :=
  sc ← get_sched s;
  let nsec_per_tick := wc_nsec_per_tick (wallclock sc) in
  usfstl_assert (negb (nsec_per_tick =? 0));;
  when (negb (wc_initialized (wallclock sc))) (usfstl_sched_wallclock_initialize s);;
  sc ← get_sched s;
  let waketime := u64 (wc_start (wallclock sc) + u64 (nsec_per_tick * time)) in
  timerfd_settime (wc_fd (wallclock sc)) waketime;;
  mret USFSTL_SCHED_REQ_STATUS_WAIT.

Definition _usfstl_sched_wallclock_sync_real (s : Z) : M WW unit :=
  now ← clock_gettime;
  sc ← get_sched s;
  let nowns := u64 (u64 now - wc_start (wallclock sc)) in
  (if wc_nsec_per_tick (wallclock sc) =? 0 then fail DivByZero else mret tt);;
  usfstl_sched_set_time s (nowns / wc_nsec_per_tick (wallclock sc)).

Definition usfstl_sched_wallclock_sync_real (data : Z) : M WW unit := _usfstl_sched_wallclock_sync_real data.

(** Is the entry readable?  A timer is when it has expired. *)
Definition readable (w : WW) (e : Z) : bool :=
  match scheds w !! e with
  | Some sc => match timers (env w) !! wc_fd (wallclock sc) with Some t => t <=? mono (env w) | None => false end
  | None => true
  end.

(** [usfstl_loop_wait_and_handle]. *)
Definition loop_wait_and_handle : M WW unit :=
  w ← get;
  match loop_events (env w) with
  | [] => fail Blocked
  | (dt, e) :: rest =>
      upd_wcenv (λ v, v <| mono := mono v + dt |> <| loop_events := rest |>);;
      w ← get;
      if bool_decide (e ∈ loop_entries (env w)) && readable w e then
        match pre_handler (env w) with Some s => usfstl_sched_wallclock_sync_real s | None => mret tt end;;
        match scheds w !! e with
        | Some _ => usfstl_sched_wallclock_handle_fd e
        | None => other_handler e
        end
      else fail Blocked
  end.

Definition loop_register (e : Z) : M WW unit :=
  upd_wcenv (λ v, v <| loop_entries := usfstl_loop_register loop_priority e (loop_entries v) |>).
Definition loop_unregister (e : Z) : M WW unit :=
  w ← get;
  if bool_decide (e ∈ loop_entries (env w))
  then upd_wcenv (λ v, v <| loop_entries := usfstl_loop_unregister e (loop_entries v) |>)
  else fail NullDeref.

(** The loop of [usfstl_sched_wallclock_wait]; every round takes an event. *)
Fixpoint wallclock_wait_loop (fuel : nat) (s : Z) : M WW unit :=
  sc ← get_sched s;
  if wc_timer_triggered (wallclock sc) then mret tt
  else
    match fuel with
    | O => fail OutOfFuel
    | S fuel => loop_wait_and_handle;; wallclock_wait_loop fuel s
    end.

Definition usfstl_sched_wallclock_wait (s : Z) : M WW unit :=
  upd_wallclock s (λ wc, wc <| wc_timer_triggered := false |>);;
  loop_register s;;
  w ← get;
  wallclock_wait_loop (S (length (loop_events (env w)))) s;;
  loop_unregister s;;
  sc ← get_sched s;
  usfstl_sched_set_time s (prev_external_sync sc).

Definition usfstl_sched_wallclock_init (s ns_per_tick : Z) : M WW unit :=
  sc ← get_sched s;
  usfstl_assert (match external_request sc, external_wait sc with None, None => true | _, _ => false end);;
  w ← get;
  let fd := next_timerfd (env w) in
  put_sched s (sc <| external_request := Some Wc_request |> <| external_wait := Some Wc_wait |>);;
  upd_wallclock s (λ wc, wc <| wc_fd := fd |>);;
  usfstl_assert (0 <=? fd);;
  upd_wallclock s (λ wc, wc <| wc_nsec_per_tick := u32 ns_per_tick |>).

Definition usfstl_sched_wallclock_exit (s : Z) : M WW unit :=
  sc ← get_sched s;
  usfstl_assert (match external_request sc, external_wait sc with
                 | Some Wc_request, Some Wc_wait => true | _, _ => false end);;
  put_sched s (sc <| external_request := None |> <| external_wait := None |>);;
  upd_wcenv (λ e, e <| timers := delete (wc_fd (wallclock sc)) (timers e) |>).

Definition usfstl_sched_wallclock_wait_and_handle (s : Z) : M WW unit :=
  job ← usfstl_sched_next_pending s None;
  match job with
  | Some _ => mret tt
  | None =>
      sc ← get_sched s;
      if negb (wc_initialized (wallclock sc)) then loop_wait_and_handle
      else
        w ← get;
        let old := pre_handler (env w) in
        upd_wcenv (λ e, e <| pre_handler := Some s |>);;
        loop_wait_and_handle;;
        upd_wcenv (λ e, e <| pre_handler := old |>)
  end.
End wallclock.

(** The functions of wallclock.c as those of the scheduler. *)
Definition wallclock_env {U} (env0 : SchedEnv wcenv (wallclock_fn U)) (loop_priority : Z → Z)
    (other_handler : Z → M (world wcenv (wallclock_fn U)) unit) : SchedEnv wcenv (wallclock_fn U) := {|
  disable_skip_external_request := @disable_skip_external_request _ _ env0;
  call_request f s time :=
    match f with Wc_request => usfstl_sched_wallclock_request s time | _ => call_request f s time end;
  call_wait f s :=
    match f with
    | Wc_wait => usfstl_sched_wallclock_wait env0 loop_priority other_handler s
    | _ => call_wait f s
    end;
  call_get_time := @call_get_time _ _ env0;
  call_set_time := @call_set_time _ _ env0;
  call_time_advanced := @call_time_advanced _ _ env0;
  call_next_time_changed := @call_next_time_changed _ _ env0;
  call_callback := @call_callback _ _ env0;
|}.
