(* ===== verification/WallclockProps.v ===== *)
(** * Theorems on the wall clock (src/wallclock.c) *)
From S2P Require Import Prelude Sched SchedQueue SchedProps Loop Wallclock.

Lemma unregister_absent e l : e ∉ l → usfstl_loop_unregister e l = l.
Proof.
  unfold usfstl_loop_unregister. induction l as [|y l IH]; intros H; cbn; [done|].
  apply not_elem_of_cons in H as [Hne H]. replace (y =? e) with false by lia. cbn. by rewrite IH.
Qed.

Lemma unregister_register prio e l : e ∉ l → usfstl_loop_unregister e (usfstl_loop_register prio e l) = l.
Proof.
  induction l as [|y l IH]; intros H.
  { unfold usfstl_loop_unregister. cbn. by rewrite Z.eqb_refl. }
  pose proof H as [Hne Hl]%not_elem_of_cons. cbn [usfstl_loop_register]. destruct (_ >=? _).
  - unfold usfstl_loop_unregister. cbn [List.filter]. rewrite Z.eqb_refl. cbn [negb].
    by apply (unregister_absent e (y :: l)).
  - unfold usfstl_loop_unregister in *. cbn [List.filter]. replace (y =? e) with false by lia. cbn [negb].
    by rewrite IH.
Qed.

Section wallclock_proof.
Context {U : Type}.
Abbreviation WW := (world wcenv (wallclock_fn U)).
Context (env0 : SchedEnv wcenv (wallclock_fn U)) (prio : Z → Z) (other : Z → M WW unit).
Implicit Types w : WW.
Implicit Types sc : usfstl_scheduler (wallclock_fn U).

(** The world with another state of scheduler [s] and of the environment. *)
Definition wst w (s : Z) sc (v : wcenv) : WW := World (jobs w) (<[s:=sc]> (scheds w)) v.

Lemma wst_id w s sc : scheds w !! s = Some sc → wst w s sc (env w) = w.
Proof. intros H. unfold wst. rewrite insert_id by done. by destruct w. Qed.
Lemma wst_get w s sc v : get_sched s (wst w s sc v) = Ok (sc, wst w s sc v).
Proof. unfold get_sched, wst. erewrite bind_ok by done. cbn [scheds]. by rewrite lookup_insert_eq. Qed.
Lemma wst_put w s sc sc' v : put_sched s sc' (wst w s sc v) = Ok (tt, wst w s sc' v).
Proof. unfold put_sched, wst, modify, set_field. cbn. by rewrite insert_insert_eq. Qed.
Lemma wst_upd w s sc v f : upd_sched s f (wst w s sc v) = Ok (tt, wst w s (f sc) v).
Proof. unfold upd_sched. erewrite bind_ok by apply wst_get. apply wst_put. Qed.
Lemma wst_env w s sc v f : upd_wcenv f (wst w s sc v) = Ok (tt, wst w s sc (f v)).
Proof. done. Qed.
Lemma wst_other w s sc v e : scheds w !! e = None → scheds w !! s = Some sc → scheds (wst w s sc v) !! e = None.
Proof. intros He Hs. unfold wst. cbn. rewrite lookup_insert_ne; [done|]. intros ->. congruence. Qed.

(** An event of another entry. *)
Definition other_event w (l : list Z) (x : Z * Z) : Prop := scheds w !! x.2 = None ∧ x.2 ∈ l.

(** What the handlers of other entries may not touch while scheduler [s] waits: the
    scheduler, its timer and the jobs on its list, and the entries of the main
    loop.  Time may pass. *)
Record leaves_alone (s : Z) w w' : Prop := {
  la_sched : scheds w' !! s = scheds w !! s;
  la_jobs sc j : scheds w !! s = Some sc → j ∈ joblist sc → jobs w' !! j = jobs w !! j;
  la_timer sc : scheds w !! s = Some sc →
    timers (env w') !! wc_fd (wallclock sc) = timers (env w) !! wc_fd (wallclock sc);
  la_others e : scheds w !! e = None → scheds w' !! e = None;
  la_entries : loop_entries (env w') = loop_entries (env w);
  la_events : loop_events (env w') = loop_events (env w);
  la_pre : pre_handler (env w') = pre_handler (env w);
  la_mono : mono (env w) ≤ mono (env w');
}.

(** Scheduler [s] waits for its timer, which is armed for [t]. *)
Record awaits (s : Z) sc (t : Z) (ents : list Z) w : Prop := {
  aw_sched : scheds w !! s = Some sc;
  aw_timer : timers (env w) !! wc_fd (wallclock sc) = Some t;
  aw_entries : loop_entries (env w) = ents;
  aw_others e : e ∈ ents → e ≠ s → scheds w !! e = None;
  aw_pre : pre_handler (env w) = None;
}.

Definition triggered sc : usfstl_scheduler (wallclock_fn U) :=
  sc <| wallclock := (wallclock sc) <| wc_timer_triggered := true |> |>.

(** Its timer has expired, at the earliest at [t], and was served. *)
Record awoken (s : Z) sc (t : Z) (ents : list Z) w : Prop := {
  ak_sched : scheds w !! s = Some (triggered sc);
  ak_timer : timers (env w) !! wc_fd (wallclock sc) = None;
  ak_entries : loop_entries (env w) = ents;
  ak_time : t ≤ mono (env w);
}.

Definition jobs_kept sc w w' : Prop := ∀ j, j ∈ joblist sc → jobs w' !! j = jobs w !! j.

(** One event passes. *)
Definition after_event d (rest : list (Z * Z)) w : WW :=
  w <| env := (env w) <| mono := mono (env w) + d |> <| loop_events := rest |> |>.

Lemma serve_eq w d e rest : pre_handler (env w) = None → loop_events (env w) = (d, e) :: rest →
  loop_wait_and_handle env0 other w =
  (if bool_decide (e ∈ loop_entries (env w)) && readable (after_event d rest w) e
   then match scheds w !! e with Some _ => usfstl_sched_wallclock_handle_fd e | None => other e end (after_event d rest w)
   else Err Blocked).
Proof.
  intros Hp Hev. unfold loop_wait_and_handle. erewrite bind_ok by done. rewrite Hev. erewrite bind_ok by done.
  erewrite bind_ok by done. fold (after_event d rest w).
  change (loop_entries (env (after_event d rest w))) with (loop_entries (env w)).
  change (scheds (after_event d rest w)) with (scheds w).
  destruct (_ && _); [|done]. change (pre_handler (env (after_event d rest w))) with (pre_handler (env w)).
  rewrite Hp. by erewrite bind_ok by done.
Qed.

Lemma awaits_after s sc t ents w d rest : awaits s sc t ents w → awaits s sc t ents (after_event d rest w).
Proof. by intros []. Qed.

Lemma awaits_kept s sc t ents w w' : awaits s sc t ents w → leaves_alone s w w' → awaits s sc t ents w'.
Proof. intros [] []. split; [congruence|rewrite la_timer0; done|congruence|eauto|congruence]. Qed.

(** The handler of the timer. *)
Lemma handle_fd_run s sc t ents w : awaits s sc t ents w → t ≤ mono (env w) →
  ∃ w', usfstl_sched_wallclock_handle_fd s w = Ok (tt, w') ∧ awoken s sc t ents w' ∧ jobs w' = jobs w ∧
    loop_events (env w') = loop_events (env w).
Proof.
  intros [] Hle. eexists. split.
  { rewrite <- (wst_id w s sc aw_sched0) at 1. unfold usfstl_sched_wallclock_handle_fd, upd_wallclock.
    erewrite bind_ok by apply wst_get. erewrite bind_ok by apply wst_env. by rewrite wst_upd. }
  split; [|done]. split; [apply lookup_insert_eq|apply lookup_delete_eq|done|done].
Qed.

(** Serving an event: the timer is only served when it has expired. *)
Lemma serve_cases s sc t ents w w' : (∀ e w w', other e w = Ok (tt, w') → leaves_alone s w w') →
  awaits s sc t ents w → loop_wait_and_handle env0 other w = Ok (tt, w') →
  (awaits s sc t ents w' ∨ awoken s sc t ents w') ∧ jobs_kept sc w w'.
Proof.
  intros Hot Haw Hrun. pose proof Haw as [].
  destruct (loop_events (env w)) as [|[d e] rest] eqn:Hev.
  { unfold loop_wait_and_handle in Hrun. erewrite bind_ok in Hrun by done. by rewrite Hev in Hrun. }
  rewrite (serve_eq w d e rest) in Hrun by done. set (w1 := after_event d rest w) in *.
  assert (awaits s sc t ents w1) as Haw1 by (by apply awaits_after).
  destruct (bool_decide_reflect (e ∈ loop_entries (env w))) as [Hin|]; [|done].
  destruct (readable w1 e) eqn:Hr; [|done]. cbn [andb] in Hrun. destruct (decide (e = s)) as [->|Hne].
  - rewrite aw_sched0 in Hrun. unfold readable in Hr. rewrite (aw_sched _ _ _ _ _ Haw1), (aw_timer _ _ _ _ _ Haw1) in Hr.
    destruct (handle_fd_run s sc t ents w1 Haw1 ltac:(lia)) as (w2 & Hw2 & Hak & Hjb & _).
    rewrite Hrun in Hw2. injection Hw2 as ->. split; [by right|]. intros k _. by rewrite Hjb.
  - rewrite aw_others0 in Hrun by congruence. apply Hot in Hrun.
    split; [left; by eapply awaits_kept|]. intros k Hk. by apply (la_jobs _ _ _ Hrun sc).
Qed.

Lemma wait_loop_awoken s sc t ents : (∀ e w w', other e w = Ok (tt, w') → leaves_alone s w w') →
  wc_timer_triggered (wallclock sc) = false → ∀ fuel w w', awaits s sc t ents w →
  wallclock_wait_loop env0 other fuel s w = Ok (tt, w') → awoken s sc t ents w' ∧ jobs_kept sc w w'.
Proof.
  intros Hot Htr. induction fuel as [|fuel IH]; intros w w' Haw Hrun; cbn [wallclock_wait_loop] in Hrun;
    (erewrite bind_ok in Hrun by (eapply get_sched_run, Haw)); rewrite Htr in Hrun; [done|].
  apply bind_inv in Hrun as ([] & w1 & Hs & Hrun). destruct (serve_cases s sc t ents w w1 Hot Haw Hs) as [[Hw1|Hw1] Hj1].
  - apply IH in Hrun as [Hak Hj]; [|done]. split; [done|]. intros j Hin. by rewrite Hj, Hj1.
  - assert (w' = w1) as ->; [|done].
    destruct fuel; cbn [wallclock_wait_loop] in Hrun; (erewrite bind_ok in Hrun by (eapply get_sched_run, Hw1));
      by injection Hrun.
Qed.

(** The time that passes with some events. *)
Definition elapsed (evs : list (Z * Z)) : Z := foldr (λ x a, x.1 + a) 0 evs.

(** Once the timer is served when it has expired, the loop ends. *)
Lemma wait_loop_ends s sc t ents d rest : (∀ e w w', other e w = Ok (tt, w') → leaves_alone s w w') →
  (∀ e w, ∃ w', other e w = Ok (tt, w')) → wc_timer_triggered (wallclock sc) = false → s ∈ ents →
  ∀ evs w fuel, awaits s sc t ents w → loop_events (env w) = evs ++ (d, s) :: rest →
  Forall (λ x, x.2 ∈ ents ∧ x.2 ≠ s) evs → t ≤ mono (env w) + elapsed evs + d → (length evs < fuel)%nat →
  ∃ w', wallclock_wait_loop env0 other fuel s w = Ok (tt, w') ∧ loop_events (env w') = rest.
Proof.
  intros Hot Hret Htr Hin. induction evs as [|[d1 e] evs IH]; intros w fuel Haw Hev Hoe Hle Hf;
    (destruct fuel as [|fuel]; [cbn in Hf; lia|]); cbn [wallclock_wait_loop]; pose proof Haw as [];
    (erewrite bind_ok by (by apply get_sched_run)); rewrite Htr; cbn [app elapsed foldr fst] in *.
  - set (w1 := after_event d rest w). destruct (handle_fd_run s sc t ents w1) as (w2 & Hw2 & Hak & _ & Hev2).
    { by apply awaits_after. }
    { change (mono (env w1)) with (mono (env w) + d). lia. }
    exists w2. split; [|by rewrite Hev2]. erewrite bind_ok.
    2:{ rewrite (serve_eq w d s rest) by done. rewrite bool_decide_true by congruence.
        unfold readable. change (scheds (after_event d rest w)) with (scheds w). rewrite aw_sched0.
        change (timers _) with (timers (env w)). rewrite aw_timer0, (proj2 (Z.leb_le _ _)); [exact Hw2|].
        change (mono _) with (mono (env w) + d). lia. }
    destruct fuel; cbn [wallclock_wait_loop]; by erewrite bind_ok by (eapply get_sched_run, Hak).
  - apply Forall_cons in Hoe as [[He Hne] Hoe]. cbn [snd] in He, Hne.
    set (w1 := after_event d1 (evs ++ (d, s) :: rest) w). destruct (Hret e w1) as [w2 Hw2].
    pose proof (Hot _ _ _ Hw2) as Hla. erewrite bind_ok.
    2:{ rewrite (serve_eq w d1 e (evs ++ (d, s) :: rest)) by done. rewrite bool_decide_true by congruence.
        unfold readable. change (scheds (after_event _ _ w)) with (scheds w). rewrite aw_others0 by done. exact Hw2. }
    apply IH; [eapply awaits_kept; [by apply awaits_after|exact Hla]|by rewrite (la_events _ _ _ Hla)|done| |cbn in Hf; lia].
    pose proof (la_mono _ _ _ Hla) as Hm. change (mono (env w1)) with (mono (env w) + d1) in Hm. unfold elapsed. lia.
Qed.

(** A scheduler on the wall clock that does not wait at the moment. *)
Record on_wallclock sc : Prop := {
  ow_request : external_request sc = Some Wc_request;
  ow_wait : external_wait sc = Some Wc_wait;
  ow_get : external_get_time sc = None;
  ow_set : external_set_time sc = None;
  ow_idle : waiting sc = false;
  ow_nosync : next_external_sync_set sc = false;
  ow_tick : 0 < wc_nsec_per_tick (wallclock sc) < 2 ^ 32;
}.

(** The first job is not before [t]. *)
Definition first_not_before w sc (t : Z) : Prop :=
  ∀ j, head (joblist sc) = Some j → ∃ jb, jobs w !! j = Some jb ∧ usfstl_time_cmp t Z.leb (start jb) = true.

Lemma wc_set_time_run w s sc v t : external_get_time sc = None → external_set_time sc = None →
  first_not_before w sc t → usfstl_time_cmp t Z.geb (current_time sc) = true →
  usfstl_sched_set_time s t (wst w s sc v) = Ok (tt, wst w s (sc <| current_time := t |>) v).
Proof.
  intros Hg Hst Hj Hge. unfold usfstl_sched_set_time.
  erewrite bind_ok by (unfold usfstl_sched_next_pending; by erewrite bind_ok by apply wst_get).
  erewrite (bind_ok _ _ _ tt (wst w s sc v)).
  2:{ destruct (head (joblist sc)) as [j|] eqn:E; [|done]. destruct (Hj j E) as (jb & Hjb & Hc).
      unfold get_job. erewrite bind_ok; [|erewrite bind_ok by done; cbn [jobs wst]; by rewrite Hjb]. by rewrite Hc. }
  unfold _usfstl_sched_set_time. erewrite bind_ok by apply wst_get. rewrite Hst. erewrite bind_ok by done.
  erewrite bind_ok by apply wst_get. rewrite Hg, Hge.
  erewrite bind_ok by (erewrite bind_ok by done; by erewrite bind_ok by apply wst_put).
  by rewrite Z.eqb_refl.
Qed.

(** When the scheduler's clock started. *)
Definition clock_start sc (v : wcenv) : Z :=
  if wc_initialized (wallclock sc) then wc_start (wallclock sc) else u64 (mono v).

Definition initialized sc (v : wcenv) : usfstl_scheduler (wallclock_fn U) :=
  if wc_initialized (wallclock sc) then sc
  else sc <| wallclock := (wallclock sc) <| wc_start := u64 (mono v) |> <| wc_initialized := true |> |>.

Lemma wc_request_run w s sc v time : 0 < wc_nsec_per_tick (wallclock sc) →
  0 ≤ wc_nsec_per_tick (wallclock sc) * time →
  0 < clock_start sc v + wc_nsec_per_tick (wallclock sc) * time < 2 ^ 64 → 0 ≤ clock_start sc v →
  usfstl_sched_wallclock_request s time (wst w s sc v) =
  Ok (USFSTL_SCHED_REQ_STATUS_WAIT, wst w s (initialized sc v)
        (v <| timers := <[wc_fd (wallclock sc) := clock_start sc v + wc_nsec_per_tick (wallclock sc) * time]> (timers v) |>)).
Proof.
  intros Hn H0 Hfit Hst. unfold usfstl_sched_wallclock_request. erewrite bind_ok by apply wst_get.
  replace (wc_nsec_per_tick (wallclock sc) =? 0) with false by lia. erewrite bind_ok by done.
  erewrite (bind_ok _ _ _ tt (wst w s (initialized sc v) v)).
  2:{ unfold initialized. destruct (wc_initialized (wallclock sc)); [done|]. cbn [negb when].
      unfold usfstl_sched_wallclock_initialize, upd_wallclock. erewrite bind_ok by done. by rewrite wst_upd. }
  erewrite bind_ok by apply wst_get.
  assert (wc_start (wallclock (initialized sc v)) = clock_start sc v) as ->
    by (unfold initialized, clock_start; by destruct (wc_initialized _)).
  assert (wc_fd (wallclock (initialized sc v)) = wc_fd (wallclock sc)) as ->
    by (unfold initialized; by destruct (wc_initialized _)).
  unfold u64. rewrite (Z.mod_small (_ * time)), Z.mod_small by lia.
  unfold timerfd_settime. erewrite bind_ok by apply wst_env.
  by replace (clock_start sc v + wc_nsec_per_tick (wallclock sc) * time =? 0) with false by lia.
Qed.

(** The end of [usfstl_sched_wallclock_wait]. *)
Lemma wait_end s w sc : scheds w !! s = Some sc → s ∈ loop_entries (env w) →
  external_get_time sc = None → external_set_time sc = None → first_not_before w sc (prev_external_sync sc) →
  usfstl_time_cmp (prev_external_sync sc) Z.geb (current_time sc) = true →
  (loop_unregister s;; sc ← get_sched s; usfstl_sched_set_time s (prev_external_sync sc)) w =
  Ok (tt, wst w s (sc <| current_time := prev_external_sync sc |>)
            ((env w) <| loop_entries := usfstl_loop_unregister s (loop_entries (env w)) |>)).
Proof.
  intros Hs Hin Hg Hst Hj Hge. rewrite <- (wst_id w s sc Hs) at 1. unfold loop_unregister.
  erewrite bind_ok; [|erewrite bind_ok by done; cbn [env wst]; rewrite bool_decide_true by done; apply wst_env].
  erewrite bind_ok by apply wst_get. by rewrite wc_set_time_run.
Qed.

(** The state in which [usfstl_sched_forward] waits for its timer. *)
Definition armed sc (v : wcenv) (t : Z) : usfstl_scheduler (wallclock_fn U) :=
  let sc1 := initialized (sc <| prev_external_sync := t |> <| prev_external_sync_set := true |>) v in
  sc1 <| prev_external_sync_set := false |> <| waiting := true |>
      <| wallclock := (wallclock sc1) <| wc_timer_triggered := false |> |>.
Definition armed_env s sc (v : wcenv) (t : Z) : wcenv :=
  v <| timers := <[wc_fd (wallclock sc) := clock_start sc v + wc_nsec_per_tick (wallclock sc) * t]> (timers v) |>
    <| loop_entries := usfstl_loop_register prio s (loop_entries v) |>.

Lemma armed_fields sc v t :
  external_wait (armed sc v t) = external_wait sc ∧ external_request (armed sc v t) = external_request sc ∧
  external_get_time (armed sc v t) = external_get_time sc ∧ external_set_time (armed sc v t) = external_set_time sc ∧
  joblist (armed sc v t) = joblist sc ∧ prev_external_sync (armed sc v t) = t ∧
  current_time (armed sc v t) = current_time sc ∧ next_external_sync_set (armed sc v t) = next_external_sync_set sc ∧
  wc_fd (wallclock (armed sc v t)) = wc_fd (wallclock sc) ∧
  wc_nsec_per_tick (wallclock (armed sc v t)) = wc_nsec_per_tick (wallclock sc) ∧
  wc_start (wallclock (armed sc v t)) = clock_start sc v ∧ wc_initialized (wallclock (armed sc v t)) = true ∧
  wc_timer_triggered (wallclock (armed sc v t)) = false.
Proof.
  unfold armed, initialized, clock_start.
  change (wallclock (sc <| prev_external_sync := t |> <| prev_external_sync_set := true |>)) with (wallclock sc).
  destruct (wc_initialized (wallclock sc)) eqn:Hi; cbn; rewrite ?Hi; by split_and!.
Qed.

(** [usfstl_sched_forward] arms the timer and waits in the main loop. *)
Lemma wc_forward_eq w s sc until : scheds w !! s = Some sc → on_wallclock sc →
  usfstl_time_cmp until Z.geb (current_time sc) = true → 0 ≤ until →
  0 ≤ clock_start sc (env w) → 0 < clock_start sc (env w) + wc_nsec_per_tick (wallclock sc) * until < 2 ^ 64 →
  usfstl_sched_forward (SE := wallclock_env env0 prio other) s until w =
  ((wallclock_wait_loop env0 other (S (length (loop_events (env w)))) s;;
    loop_unregister s;; sc ← get_sched s; usfstl_sched_set_time (SE := env0) s (prev_external_sync sc));;
   upd_sched s (λ sc, sc <| waiting := false |>))
    (wst w s (armed sc (env w) until) (armed_env s sc (env w) until)).
Proof.
  intros Hs [] Hge Hu Hcs Hwake. rewrite <- (wst_id w s sc Hs) at 1. set (v := env w) in *.
  unfold usfstl_sched_forward, usfstl_sched_current_time.
  erewrite bind_ok by (erewrite bind_ok by apply wst_get; by rewrite ow_get0). rewrite Hge. erewrite bind_ok by done.
  set (sc1 := sc <| prev_external_sync := until |> <| prev_external_sync_set := true |>).
  assert (wallclock sc1 = wallclock sc) as Hwc by done. assert (clock_start sc1 v = clock_start sc v) as Hcs1 by done.
  unfold usfstl_sched_external_request. erewrite bind_ok.
  2:{ erewrite bind_ok by apply wst_get. rewrite ow_request0, ow_idle0, ow_nosync0, andb_false_r. cbn [andb].
      erewrite bind_ok by apply wst_put. fold sc1. cbn [call_request wallclock_env].
      apply wc_request_run; rewrite ?Hwc, ?Hcs1; [lia|nia|done|done]. }
  cbv iota beta. rewrite Hwc, Hcs1.
  unfold usfstl_sched_external_wait. erewrite bind_ok by apply wst_upd. erewrite bind_ok by apply wst_get.
  assert (external_wait (initialized sc1 v) = Some Wc_wait) as Hw
    by (unfold initialized; by destruct (wc_initialized (wallclock sc1))).
  set (sc3 := (initialized sc1 v) <| prev_external_sync_set := _ |> <| waiting := _ |>).
  change (external_wait sc3) with (external_wait (initialized sc1 v)). rewrite Hw. erewrite bind_ok by done.
  cbn [call_wait wallclock_env]. unfold usfstl_sched_wallclock_wait, upd_wallclock, mbind, M_bind.
  erewrite wst_upd. unfold loop_register. by erewrite wst_env.
Qed.

(** While it waits. *)
Lemma armed_awaits w s sc until : s ∉ loop_entries (env w) → (∀ e, e ∈ loop_entries (env w) → scheds w !! e = None) →
  pre_handler (env w) = None →
  awaits s (armed sc (env w) until) (clock_start sc (env w) + wc_nsec_per_tick (wallclock sc) * until)
    (usfstl_loop_register prio s (loop_entries (env w)))
    (wst w s (armed sc (env w) until) (armed_env s sc (env w) until)).
Proof.
  intros Hin Ho Hp. pose proof (armed_fields sc (env w) until) as (_ & _ & _ & _ & _ & _ & _ & _ & Hfd & _).
  split; [apply lookup_insert_eq|rewrite Hfd; apply lookup_insert_eq|done| |done].
  intros e He Hne. cbn. rewrite lookup_insert_ne by done. apply Ho. by apply loop_register_elem in He as [|].
Qed.

(** What happens once the timer was served. *)
Lemma awoken_end w w1 s sc until t : on_wallclock sc → s ∉ loop_entries (env w) →
  awoken s (armed sc (env w) until) t (usfstl_loop_register prio s (loop_entries (env w))) w1 →
  jobs_kept sc w w1 → first_not_before w sc until → usfstl_time_cmp until Z.geb (current_time sc) = true →
  ∃ w2 sc2, ((loop_unregister s;; sc ← get_sched s; usfstl_sched_set_time (SE := env0) s (prev_external_sync sc));;
             upd_sched s (λ sc, sc <| waiting := false |>)) w1 = Ok (tt, w2) ∧
    mono (env w2) = mono (env w1) ∧ jobs w2 = jobs w1 ∧ loop_events (env w2) = loop_events (env w1) ∧
    scheds w2 !! s = Some sc2 ∧ current_time sc2 = until ∧ joblist sc2 = joblist sc ∧ on_wallclock sc2 ∧
    clock_start sc2 (env w2) = clock_start sc (env w) ∧ loop_entries (env w2) = loop_entries (env w) ∧
    timers (env w2) !! wc_fd (wallclock sc) = None.
Proof.
  intros [] Hin [Hsc Htm Hents _] Hjk Hj Hge. set (sca := armed sc (env w) until) in *.
  pose proof (armed_fields sc (env w) until) as (F1 & F2 & F3 & F4 & F5 & F6 & F7 & F8 & F9 & F10 & F11 & F12 & F13).
  fold sca in F1, F2, F3, F4, F5, F6, F7, F8, F9, F10, F11, F12, F13. clearbody sca.
  eexists _, _. split.
  { erewrite bind_ok.
    2:{ apply (wait_end s w1 (triggered sca) Hsc).
        - rewrite Hents. apply loop_register_elem. by left.
        - by change (external_get_time (triggered sca)) with (external_get_time sca); rewrite F3.
        - by change (external_set_time (triggered sca)) with (external_set_time sca); rewrite F4.
        - change (prev_external_sync (triggered sca)) with (prev_external_sync sca). rewrite F6. intros j Hhd.
          change (joblist (triggered sca)) with (joblist sca) in Hhd. rewrite F5 in Hhd.
          rewrite Hjk; [by apply Hj|]. destruct (joblist sc); [done|]. injection Hhd as ->. by left.
        - change (prev_external_sync (triggered sca)) with (prev_external_sync sca).
          change (current_time (triggered sca)) with (current_time sca). by rewrite F6, F7. }
    apply wst_upd. }
  cbn. rewrite lookup_insert_eq, Hents, unregister_register by done.
  split_and!; try done; [| |by rewrite <- F9].
  - split; cbn; congruence.
  - unfold clock_start at 1. cbn. by rewrite F12.
Qed.
End wallclock_proof.


Lemma time_ge_small a b : 0 ≤ a ≤ b → b < 2 ^ 63 → usfstl_time_cmp b Z.geb a = true.
Proof.
  intros Ha Hb. unfold usfstl_time_cmp, s64. destruct (decide (a = b)) as [->|Hne].
  - by rewrite Z.sub_diag.
  - replace ((a - b) mod 2 ^ 64) with (2 ^ 64 - (b - a)) by (apply (Z.mod_unique _ _ (-1)); lia).
    replace (_ <? _) with false by lia. lia.
Qed.

(** With no job to run, waiting for an event moves the scheduler to the real
    time first: the handler of the entry that is served runs with the scheduler's
    clock at the last full tick before the present, and the function called
    before handlers is restored afterwards. *)
Theorem wallclock_event_time {U} (env0 : SchedEnv wcenv (wallclock_fn U)) other
    (w : world wcenv (wallclock_fn U)) s sc d e rest :
  scheds w !! s = Some sc → on_wallclock sc → wc_initialized (wallclock sc) = true → joblist sc = [] →
  loop_events (env w) = (d, e) :: rest → other_event w (loop_entries (env w)) (d, e) →
  let start := wc_start (wallclock sc) in
  let nsec := wc_nsec_per_tick (wallclock sc) in
  let now := mono (env w) + d in
  0 ≤ d → 0 ≤ start → 0 ≤ current_time sc → start + nsec * current_time sc ≤ mono (env w) →
  now < 2 ^ 64 → now - start < 2 ^ 63 →
  let tick := (now - start) / nsec in
  let w1 := wst w s (sc <| current_time := tick |>)
              ((env w) <| pre_handler := Some s |> <| mono := now |> <| loop_events := rest |>) in
  usfstl_sched_wallclock_wait_and_handle env0 other s w =
    (other e;; upd_wcenv (λ v, v <| pre_handler := pre_handler (env w) |>)) w1 ∧
  start + nsec * tick ≤ now < start + nsec * (tick + 1) ∧ current_time sc ≤ tick.
Proof.
  intros Hs [] Hi Hj Hev [He Hin] start nsec now Hd Hst Hct Hle Hfit Hwin tick w1.
  assert (start + nsec * tick ≤ now < start + nsec * (tick + 1) ∧ current_time sc ≤ tick) as (Ht1 & Ht2).
  { subst tick. pose proof (Z.div_mod (now - start) nsec ltac:(lia)). pose proof (Z.mod_pos_bound (now - start) nsec ltac:(lia)).
    split; [lia|]. apply Z.div_le_lower_bound; lia. }
  split; [|done]. unfold usfstl_sched_wallclock_wait_and_handle.
  rewrite <- (wst_id w s sc Hs) at 1. set (v := env w) in *.
  erewrite bind_ok by (unfold usfstl_sched_next_pending; by erewrite bind_ok by apply wst_get). rewrite Hj. cbn [head].
  erewrite bind_ok by apply wst_get. rewrite Hi. cbn [negb].
  erewrite bind_ok by done. erewrite bind_ok by apply wst_env.
  set (v2 := v <| pre_handler := Some s |> <| mono := now |> <| loop_events := rest |>).
  assert (loop_wait_and_handle env0 other (wst w s sc (v <| pre_handler := Some s |>)) = other e w1) as Hloop.
  { unfold loop_wait_and_handle. erewrite bind_ok by done. cbn [env wst].
    change (loop_events (v <| pre_handler := Some s |>)) with (loop_events v). rewrite Hev.
    rewrite (bind_ok _ _ _ tt (wst w s sc v2)) by done. erewrite bind_ok by done.
    assert (scheds (wst w s sc v2) !! e = None) as Hn.
    { unfold wst. cbn [scheds]. rewrite lookup_insert_ne; [done|]. intros ->. cbn in He. congruence. }
    unfold readable. rewrite Hn. cbn [env wst]. rewrite bool_decide_true by done. cbn [andb].
    change (pre_handler v2) with (Some s). unfold usfstl_sched_wallclock_sync_real, _usfstl_sched_wallclock_sync_real.
    erewrite bind_ok; [done|]. erewrite bind_ok by done. erewrite bind_ok by apply wst_get.
    change (mono (env (wst w s sc v2))) with now. fold start nsec.
    replace (nsec =? 0) with false by lia. erewrite bind_ok by done.
    assert (0 ≤ nsec * current_time sc) by nia.
    unfold u64. rewrite (Z.mod_small now), Z.mod_small by lia. fold tick.
    apply wc_set_time_run; [done|done|intros j; by rewrite Hj|].
    apply time_ge_small; [lia|]. apply Z.div_lt_upper_bound; nia. }
  unfold mbind, M_bind. by rewrite Hloop.
Qed.

(** A scheduler with ticks of a microsecond, another entry 9 in the main loop. *)
Definition wc_sched (now : Z) : usfstl_scheduler (wallclock_fn unit) :=
  (USFSTL_SCHEDULER "wallclock" 100) <| external_request := Some Wc_request |> <| external_wait := Some Wc_wait |>
    <| current_time := now |> <| wallclock := Wallclock 4 5000 1000 false true |>.
Definition wc_world (now clock : Z) (evs : list (Z * Z)) : world wcenv (wallclock_fn unit) :=
  World ∅ {[1 := wc_sched now]} (WcEnv clock ∅ [9] evs None 4).

(** The handler of the other entry takes some time. *)
Definition wc_other (e : Z) : M (world wcenv (wallclock_fn unit)) unit :=
  upd_wcenv (λ v, v <| mono := mono v + 300 |>).

Lemma wc_other_alone e w w' : wc_other e w = Ok (tt, w') → leaves_alone 1 w w'.
Proof. intros [= <-]. split; try done. cbn. lia. Qed.

Lemma wc_on now : on_wallclock (wc_sched now).
Proof. by split. Qed.


Lemma wallclock_event_time_witness :
  ∃ w', usfstl_sched_wallclock_wait_and_handle env_bottom wc_other 1 (wc_world 2 7500 [(1800, 9)]) = Ok (tt, w') ∧
    current_time <$> scheds w' !! 1 = Some 4 ∧ pre_handler (env w') = None.
Proof.
  destruct (wallclock_event_time env_bottom wc_other (wc_world 2 7500 [(1800, 9)]) 1 (wc_sched 2) 1800 9 []
    eq_refl (wc_on 2) eq_refl eq_refl eq_refl) as [Hrun _].
  - split; [reflexivity|cbn; set_solver].
  - lia.
  - cbn. lia.
  - cbn. lia.
  - cbn. lia.
  - cbn. lia.
  - cbn. lia.
  - eexists. split; [exact Hrun|]. split; vm_compute; reflexivity.
Defined.
