(* ===== verification/NetProps.v ===== *)
(** * Theorems on the virtual network (control/net.c) *)
From S2P Require Import Prelude Sched SchedQueue SchedProps Util Bytes Vhost Timetravel Control ControlProps ControlRun Net.

(** Notifications are recorded. *)
#[local] Instance record_notify {E F} `{Network E F} : NetNotify E F := λ dv q data,
  upd_net (λ e, e <| notified := notified e ++ [(dv, q, data)] |>).

(** The destination of a packet, and whether it is for everyone. *)
Definition dst (data : list Z) : list Z := take 6 (drop 10 data).
Definition multicast (data : list Z) : bool := negb (Z.land (le_combine (take 1 (drop 10 data))) 1 =? 0).

(** Does client [c] get a packet of client [tr]? *)
Definition receives (cl : gmap Z usfstl_net_client) (tr : Z) (data : list Z) (c : Z) : bool :=
  negb (c =? tr) &&
  (multicast data ||
   match cl !! c with Some x => addrvalid x && bool_decide (addr x = dst data) | None => false end).

(** The device of a client. *)
Definition dev_of (cl : gmap Z usfstl_net_client) (c : Z) : Z :=
  match cl !! c with Some x => net_dev x | None => 0 end.

Definition deliveries (v : netenv) (tr : Z) (data : list Z) (l : list Z) : list (Z * Z * list Z) :=
  map (λ c, (dev_of (net_clients v) c, 0, data)) (List.filter (receives (net_clients v) tr data) l).

(** Every client on the list is there, once. *)
Definition clients_ok (v : netenv) : Prop :=
  NoDup (client_list v) ∧ ∀ c, c ∈ client_list v → is_Some (net_clients v !! c).

Definition logged (v : netenv) (log : list (Z * Z * list Z)) : netenv := v <| notified := log |>.

Section delivery.
Context {E F : Type} `{NT : Network E F}.
Abbreviation NW := (world E F).

(** [w] with another network. *)
Definition nst (w : NW) (v : netenv) : NW := World (jobs w) (scheds w) (set_net v (env w)).

Lemma get_client_net (w : NW) v c x : net_clients v !! c = Some x → get_client c (nst w v) = Ok (x, nst w v).
Proof. intros H. unfold get_client. erewrite bind_ok by done. cbn [env nst]. by rewrite net_set_net, H. Qed.
Lemma get_packet_net (w : NW) v p x : packets v !! p = Some x → get_packet p (nst w v) = Ok (x, nst w v).
Proof. intros H. unfold get_packet. erewrite bind_ok by done. cbn [env nst]. by rewrite net_set_net, H. Qed.
Lemma upd_net_run (w : NW) v f : upd_net f (nst w v) = Ok (tt, nst w (f v)).
Proof. unfold upd_net, modify, nst. cbn. by rewrite net_set_net, set_net_set_net. Qed.
Lemma nst_id (w : NW) : nst w (net (env w)) = w.
Proof. unfold nst. rewrite set_net_net. by destruct w. Qed.

Lemma for_client_run (w : NW) v pkt tr data c : packets v !! pkt = Some (NetPacket tr (Z.of_nat (length data)) data) →
  (16 ≤ length data)%nat → is_Some (net_clients v !! c) →
  for_client pkt c (nst w v) = Ok (receives (net_clients v) tr data c, nst w v).
Proof.
  intros Hp Hl [x Hx]. unfold for_client. erewrite bind_ok by (by apply get_packet_net).
  cbn [transmitter]. unfold receives. destruct (c =? tr); [done|]. cbn [negb andb].
  unfold pkt_bytes, ETHOFFS. cbn [pkt_buf]. rewrite (proj2 (Z.leb_le (10 + 1) _)) by lia.
  erewrite bind_ok by done. change (Z.to_nat 10) with 10%nat. change (Z.to_nat 1) with 1%nat.
  fold (multicast data). destruct (multicast data); [done|]. cbn [orb].
  erewrite bind_ok by (by apply get_client_net). rewrite Hx.
  destruct (addrvalid x); [|done]. cbn [andb]. rewrite (proj2 (Z.leb_le (10 + 6) _)) by lia. by erewrite bind_ok by done.
Qed.

Lemma net_successor c pre l : c ∉ pre → successor c (pre ++ c :: l) = head l.
Proof.
  induction pre as [|y pre IH]; intros H; cbn; [by rewrite Z.eqb_refl|].
  apply not_elem_of_cons in H as [Hne H]. replace (y =? c) with false by lia. auto.
Qed.

Lemma deliver_run (w : NW) pkt tr data v : packets v !! pkt = Some (NetPacket tr (Z.of_nat (length data)) data) →
  (16 ≤ length data)%nat → clients_ok v → ∀ l pre log fuel, client_list v = pre ++ l → (length l ≤ fuel)%nat →
  deliver_loop fuel pkt (head l) (nst w (logged v log)) =
  Ok (tt, nst w (logged v (log ++ deliveries v tr data l))).
Proof.
  intros Hp Hlen [Hnd Hcl]. induction l as [|c l IH]; intros pre log fuel Hl Hf.
  { unfold deliveries. cbn. rewrite app_nil_r. by destruct fuel. }
  destruct fuel as [|fuel]; [cbn in Hf; lia|]. cbn [head deliver_loop].
  assert (c ∈ client_list v) as Hin by (rewrite Hl; set_solver).
  destruct (Hcl c Hin) as [x Hx].
  erewrite bind_ok by (by apply (for_client_run w (logged v log) pkt tr data c)).
  change (net_clients (logged v log)) with (net_clients v).
  set (log' := if receives (net_clients v) tr data c then log ++ [(net_dev x, 0, data)] else log).
  erewrite (bind_ok _ _ _ tt (nst w (logged v log'))).
  2:{ subst log'. destruct (receives _ _ _ c); [|done]. cbn [when].
      erewrite bind_ok by (by apply get_client_net). erewrite bind_ok by (by apply get_packet_net).
      cbn [pkt_len pkt_buf]. rewrite Nat2Z.id, firstn_all. apply upd_net_run. }
  erewrite bind_ok by done. cbn [env nst]. rewrite net_set_net. change (client_list (logged v log')) with (client_list v).
  rewrite bool_decide_true by done. rewrite Hl in Hnd |- *. rewrite net_successor.
  2:{ apply NoDup_app in Hnd as (_ & Hd & _). intros Hc. apply (Hd c Hc). by left. }
  rewrite (IH (pre ++ [c])); [|by rewrite <- app_assoc|cbn in Hf; lia].
  do 4 f_equal. subst log'. unfold deliveries. cbn [List.filter]. destruct (receives _ _ _ c); [|done].
  cbn [map]. rewrite <- app_assoc. unfold dev_of at 2. by rewrite Hx.
Qed.

Lemma logged_id v : logged v (notified v) = v.
Proof. by destruct v. Qed.

(** The network once the packet is delivered. *)
Definition delivered (v : netenv) (pkt tr : Z) (data : list Z) : netenv :=
  (logged v (notified v ++ deliveries v tr data (client_list v))) <| packets := delete pkt (packets v) |>.

Lemma callback_run (w : NW) v pkt tr data fuel :
  packets v !! pkt = Some (NetPacket tr (Z.of_nat (length data)) data) → (16 ≤ length data)%nat →
  clients_ok v → (length (client_list v) ≤ fuel)%nat →
  packet_job_callback fuel pkt (nst w v) =
  Ok (tt, World (delete pkt (jobs w)) (scheds w) (set_net (delivered v pkt tr data) (env w))).
Proof.
  intros Hp Hl Hc Hf. unfold packet_job_callback. erewrite bind_ok by done. cbn [env nst]. rewrite net_set_net.
  pose proof (deliver_run w pkt tr data v Hp Hl Hc (client_list v) [] (notified v) fuel eq_refl Hf) as H.
  rewrite logged_id in H. erewrite bind_ok by exact H. erewrite bind_ok by done.
  exact (upd_net_run (World (delete pkt (jobs w)) (scheds w) (env w)) (logged v _) _).
Qed.

End delivery.

(** The network's jobs do not change the other calls. *)
Lemma net_env_time {E F} `{Network E F} `{EqDecision F} fuel (env0 : SchedEnv E F) s :
  usfstl_sched_current_time (SE := net_env fuel env0) s = usfstl_sched_current_time (SE := env0) s.
Proof. done. Qed.
Lemma net_env_set_time {E F} `{Network E F} `{EqDecision F} fuel (env0 : SchedEnv E F) s t :
  _usfstl_sched_set_time (SE := net_env fuel env0) s t = _usfstl_sched_set_time (SE := env0) s t.
Proof. done. Qed.

(** ** The controller's scheduler when no client is running *)

Definition now (w : KW) : Z := shm_time (g_schedshm_mem (env w)).

(** The scheduler is set up as [main] does ([control_ready]) and it is the
    controller's turn, as it is whenever it runs a job. *)
Record no_client_runs (w : KW) (sc : usfstl_scheduler control_fn) : Prop := {
  nc_ready : control_ready w sc;
  nc_client : running_client (env w) = None;
  nc_id : running_id (g_schedshm_mem (env w)) = CTRL_CLIENT_ID;
  nc_shm : ∃ cl, shm_clients (g_schedshm_mem (env w)) !! 0%nat = Some cl ∧ has_time_share cl = false;
}.

(** The time up to which clients may run freely is [u]. *)
Definition free_to (u : Z) (w : KW) : KW :=
  w <| env := (env w) <| g_schedshm_mem := (g_schedshm_mem (env w)) <| free_until := u |> |> |>.

Lemma free_to_id w : free_to (free_until (g_schedshm_mem (env w))) w = w.
Proof. destruct w as [js ss e]. unfold free_to. cbn. destruct e as [? ? ? ? ? ? g]. by destruct g. Qed.

Definition packet_job (t : Z) : usfstl_job control_fn :=
  Job t 0 0 "packet" 0 (Some packet_job_callback_fn) None false false.

Section scheduling.
Context (e : SchedEnv kenv control_fn) (l : M KW unit).
Abbreviation env1 := (control_env e l).
Abbreviation env2 := (control_env (control_env e l) (usfstl_loop_wait_and_handle e l)).
Implicit Types w : KW.

Lemma sync_time_ok w sc : control_ready w sc → (∀ j, head (joblist sc) = Some j → is_Some (jobs w !! j)) →
  ∃ u, usfstl_sched_get_sync_time (SE := env1) scheduler w = Ok (u, w).
Proof.
  intros Hr Hj. pose proof Hr as []. unfold usfstl_sched_get_sync_time.
  erewrite bind_ok by (by eapply control_time_run). erewrite bind_ok by (by apply get_sched_run).
  erewrite bind_ok by (by eapply next_pending_run). destruct (head (joblist sc)) as [j|]; [|by eexists].
  destruct (Hj j eq_refl) as [jb Hjb]. erewrite bind_ok by (by apply get_job_run). by eexists.
Qed.

Lemma changed_run w sc : no_client_runs w sc → (∀ j, head (joblist sc) = Some j → is_Some (jobs w !! j)) →
  ∃ u, update_sync env1 (usfstl_loop_wait_and_handle e l) None w = Ok (tt, free_to u w).
Proof.
  intros [Hr Hc _ _] Hj. destruct (sync_time_ok w sc Hr Hj) as [u Hu]. unfold update_sync.
  erewrite bind_ok by exact Hu. erewrite bind_ok by (by apply (fmap_run running_client), get_env_run).
  rewrite Hc. erewrite bind_ok by apply get_env_run. destruct (started_scheduling (env w)); cbn [negb].
  - exists u. by erewrite bind_ok by apply upd_kenv_run.
  - eexists. by rewrite free_to_id.
Qed.

(** A job that is due before all others is put first on the list. *)
Lemma add_first w sc j jb : no_client_runs w sc → jobs w !! j = Some jb →
  entry jb = None → blocked jb = false → group jb = 0 → has_bit (blocked_groups sc) 0 = false →
  usfstl_time_cmp (start jb) Z.geb (now w) = true →
  (∀ k, head (joblist sc) = Some k → ∃ kb, jobs w !! k = Some kb ∧ usfstl_time_cmp (start kb) Z.gtb (start jb) = true) →
  ∃ u, usfstl_sched_add_job (SE := env2) scheduler j w =
    Ok (tt, free_to u (World (<[j := jb <| entry := Some (scheduler, QJobs) |>]> (jobs w))
                         (<[scheduler := sc <| joblist := j :: joblist sc |>]> (scheds w)) (env w))).
Proof.
  intros Hn Hj He Hb Hg Hbg Hge Hk. pose proof (nc_ready _ _ Hn) as Hr. pose proof Hr as [].
  set (w1 := World _ _ _).
  assert (no_client_runs w1 (sc <| joblist := j :: joblist sc |>)) as Hn1.
  { destruct Hn. split; [|done..]. split; [apply lookup_insert_eq|done..]. }
  destruct (changed_run w1 _ Hn1) as [u Hu].
  { intros k [= <-]. exists (jb <| entry := Some (scheduler, QJobs) |>). apply lookup_insert_eq. }
  exists u. unfold usfstl_sched_add_job. erewrite bind_ok by (by apply get_job_run).
  erewrite bind_ok by (by eapply control_time_run). fold (now w). rewrite Hge. erewrite bind_ok by done.
  erewrite bind_ok by (by apply job_scheduled_run). rewrite He. erewrite bind_ok by done.
  erewrite bind_ok by (by apply get_job_run). rewrite Hg. erewrite bind_ok by done.
  erewrite bind_ok by (by apply get_sched_run). rewrite Hb, Hbg. cbn [andb]. erewrite bind_ok by done.
  assert (insert_job (jobs w) jb j (joblist sc) = Some (j :: joblist sc)) as ->.
  { destruct (joblist sc) as [|k ks]; [done|]. destruct (Hk k eq_refl) as (kb & Hkb & Hgt). cbn [insert_job].
    rewrite Hkb. cbn. unfold add_job_stops. by rewrite Hgt. }
  erewrite bind_ok by done. erewrite bind_ok by apply put_sched_run. erewrite bind_ok by apply put_job_run.
  assert (get_sched scheduler w1 = Ok (sc <| joblist := j :: joblist sc |>, w1)) as Gs
    by apply get_sched_run, lookup_insert_eq.
  assert (Sched.next_time_changed (sc <| joblist := j :: joblist sc |>) = Some next_time_changed_fn) as Hc by done.
  assert (external_request (sc <| joblist := j :: joblist sc |>) = None) as Hq by done.
  unfold usfstl_sched_external_request. erewrite bind_ok.
  2:{ erewrite bind_ok by exact Gs. by rewrite Hq. }
  erewrite bind_ok by exact Gs. rewrite Hc. exact Hu.
Qed.

Lemma filter_head j js : j ∉ js → List.filter (λ x, negb (x =? j)) (j :: js) = js.
Proof.
  intros Hj. cbn [List.filter]. rewrite Z.eqb_refl. cbn [negb]. clear -Hj.
  induction js as [|k js IH]; [done|]. apply not_elem_of_cons in Hj as [Hne Hj]. cbn [List.filter].
  replace (k =? j) with false by lia. cbn [negb]. f_equal. by apply IH.
Qed.

(** The first job is run at its time. *)
Lemma next_first fuel n w sc j jb f js : no_client_runs w sc → joblist sc = j :: js → j ∉ js →
  jobs w !! j = Some jb → entry jb = Some (scheduler, QJobs) → callback jb = Some f →
  usfstl_time_cmp (start jb) Z.gtb (now w) = true → usfstl_time_cmp (start jb) Z.geb (now w) = true →
  usfstl_sched_next (SE := net_env fuel env2) (S n) scheduler w =
  (call_callback (SchedEnv := net_env fuel env2) f j;; mret j)
    (at_time (start jb) (World (<[j := jb <| entry := None |>]> (jobs w))
                           (<[scheduler := sc <| joblist := js |>]> (scheds w)) (env w))).
Proof.
  intros Hn Hl Hnj Hj He Hf Hgt Hge. destruct Hn as [Hr Hc Hid (cl & Hcl & Hns)]. pose proof Hr as [].
  assert (usfstl_sched_current_time (SE := net_env fuel env2) scheduler w = Ok (now w, w)) as Ht
    by (rewrite net_env_time; by eapply control_time_run).
  assert (_usfstl_sched_set_time (SE := net_env fuel env2) scheduler (start jb) w = Ok (tt, at_time (start jb) w)) as Hset.
  { rewrite net_env_set_time. eapply control_set_clock_run; [done|by rewrite Hid|by rewrite Hid|done]. }
  cbn [usfstl_sched_next]. erewrite bind_ok by (by eapply next_pending_run). rewrite Hl. cbn [head].
  erewrite bind_ok by (by apply get_job_run).
  erewrite bind_ok by exact Ht. rewrite Hgt. cbn [when].
  erewrite bind_ok.
  2:{ unfold usfstl_sched_forward.
      erewrite bind_ok by exact Ht. rewrite Hge.
      erewrite bind_ok by done. unfold usfstl_sched_external_request.
      erewrite bind_ok by (erewrite bind_ok by (by apply get_sched_run); by rewrite cr_request).
      exact Hset. }
  erewrite bind_ok by (by eapply next_pending_run). rewrite Hl. cbn [head]. rewrite bool_decide_true by done.
  unfold usfstl_sched_del_job. erewrite bind_ok.
  2:{ erewrite bind_ok by (by apply job_scheduled_run). rewrite He. cbn [negb].
      erewrite bind_ok by (by apply get_job_run). rewrite He.
      erewrite bind_ok by (by eapply upd_sched_run). by eapply upd_job_run. }
  erewrite bind_ok by (apply get_job_run, lookup_insert_eq).
  change (callback (jb <| entry := None |>)) with (callback jb). rewrite Hf. erewrite bind_ok by done.
  cbn [queue set_queue]. by rewrite Hl, filter_head.
Qed.
End scheduling.

(** ** A packet from its sender to its receivers *)

Lemma delay_s64 now d : 0 < d < 2 ^ 63 → s64 (now - u64 (now + d)) = - d.
Proof.
  intros Hd. unfold s64, u64.
  replace ((now - (now + d) mod 2 ^ 64) mod 2 ^ 64) with (2 ^ 64 - d).
  - replace (_ <? _) with false by lia. lia.
  - rewrite Zminus_mod_idemp_r. apply (Z.mod_unique _ _ (-1)); lia.
Qed.

(** What the network knows of a client after a packet of it. *)
Definition learned (x : usfstl_net_client) (data : list Z) : usfstl_net_client :=
  if negb (addrvalid x) && (22 <=? Z.of_nat (length data))
  then x <| addr := take 6 (drop 16 data) |> <| addrvalid := true |> else x.

(** A buffer whose contents are [data]. *)
Record holds (m : mem) (buf : usfstl_vhost_user_buf) (data : list Z) : Prop := {
  ho_n : n_out_sg buf ≠ 0;
  ho_len : iov_len_ (out_sg buf) = Z.of_nat (length data);
  ho_read : iov_read (Z.of_nat (length data)) (out_sg buf) m = Ok (data, m);
  ho_size : 16 ≤ Z.of_nat (length data) < 2 ^ 32;
}.

(** The network with the packet [data] of [client] at [pkt]. *)
Definition with_packet (v : netenv) (pkt client : Z) (x : usfstl_net_client) (data : list Z) (rest : list (option Z)) : netenv :=
  v <| allocs := rest |> <| packets := <[pkt := NetPacket client (Z.of_nat (length data)) data]> (packets v) |>
    <| net_clients := <[client := learned x data]> (net_clients v) |>.

Section learning.
Context {E F : Type} `{NT : Network E F}.

Lemma learn_run (w : world E F) v client x pkt data : net_clients v !! client = Some x →
  packets v !! pkt = Some (NetPacket client (Z.of_nat (length data)) data) →
  (x ← get_client client;
   if addrvalid x then mret tt
   else
     p ← get_packet pkt;
     when (ETHOFFS + 12 <=? pkt_len p)
       (src ← pkt_bytes p (ETHOFFS + 6) 6;
        upd_net (λ e, e <| net_clients := <[client := x <| addr := src |> <| addrvalid := true |>]> (net_clients e) |>)))
    (nst w v) = Ok (tt, nst w (v <| net_clients := <[client := learned x data]> (net_clients v) |>)).
Proof.
  intros Hx Hp. unfold learned.
  assert (v = v <| net_clients := <[client := x]> (net_clients v) |>) as Hid.
  { rewrite insert_id by done. by destruct v. }
  erewrite bind_ok by (by apply get_client_net).
  destruct (addrvalid x); cbn [negb andb]; [by rewrite <- Hid|].
  erewrite bind_ok by (by apply get_packet_net). cbn [pkt_len].
  change (ETHOFFS + 12) with 22. destruct (Z.leb_spec 22 (Z.of_nat (length data))); cbn [when]; [|by rewrite <- Hid].
  unfold pkt_bytes. cbn [pkt_buf]. change (ETHOFFS + 6) with 16. rewrite (proj2 (Z.leb_le (16 + 6) _)) by lia.
  erewrite bind_ok by done. exact (upd_net_run w v _).
Qed.

End learning.

Lemma learned_dev x data : net_dev (learned x data) = net_dev x.
Proof. unfold learned. by destruct (_ && _). Qed.

Lemma deliveries_learned v pkt client x data rest l : net_clients v !! client = Some x →
  deliveries (with_packet v pkt client x data rest) client data l = deliveries v client data l.
Proof.
  intros Hx. unfold deliveries. change (net_clients (with_packet _ _ _ _ _ _)) with (<[client := learned x data]> (net_clients v)).
  assert (∀ c, dev_of (<[client := learned x data]> (net_clients v)) c = dev_of (net_clients v) c) as Hd.
  { intros c. unfold dev_of. destruct (decide (c = client)) as [->|Hne].
    - by rewrite lookup_insert_eq, Hx, learned_dev.
    - by rewrite lookup_insert_ne. }
  rewrite (map_ext _ (λ c, (dev_of (net_clients v) c, 0, data))) by (intros c; by rewrite Hd).
  f_equal. apply List.filter_ext. intros c. unfold receives. destruct (Z.eqb_spec c client) as [->|Hne]; [done|].
  by rewrite lookup_insert_ne.
Qed.

Lemma clients_ok_packet v pkt client x data rest : clients_ok v → clients_ok (with_packet v pkt client x data rest).
Proof.
  intros [Hnd Hc]. split; [done|]. intros c H. apply lookup_insert_is_Some'. right. by apply Hc.
Qed.

(** ** Handling a packet, and the run of its job *)

(** A job of [pkt] at time [t] would be the first to run. *)
Record due_first (js : gmap Z (usfstl_job control_fn)) (sc : usfstl_scheduler control_fn) (pkt t : Z) : Prop := {
  df_new : pkt ∉ joblist sc;
  df_later k : head (joblist sc) = Some k →
    ∃ kb, js !! k = Some kb ∧ usfstl_time_cmp (start kb) Z.gtb t = true;
}.

Lemma due_first_insert js sc pkt t jb : due_first js sc pkt t → due_first (<[pkt := jb]> js) sc pkt t.
Proof.
  intros [Hnew Hl]. split; [done|]. intros k Hk. destruct (Hl k Hk) as (kb & Hkb & Hgt). exists kb. split; [|done].
  rewrite lookup_insert_ne; [done|]. intros <-. apply Hnew. destruct (joblist sc); [done|]. injection Hk as ->. by left.
Qed.

Section handling.
Context (e : SchedEnv kenv control_fn) (l : M KW unit).
Abbreviation env2 := (control_env (control_env e l) (usfstl_loop_wait_and_handle e l)).
Implicit Types w : KW.

Lemma schedule_run w sc client pkt x d : no_client_runs w sc → has_bit (blocked_groups sc) 0 = false →
  jobs w !! pkt = Some job_zero → net_clients (network (env w)) !! client = Some x → 0 < d < 2 ^ 32 →
  due_first (jobs w) sc pkt (u64 (now w + d)) →
  ∃ u, (t ← usfstl_sched_current_time (SE := env2) scheduler;
        upd_job pkt (λ jb, jb <| start := u64 (t + d) |> <| callback := Some packet_job_callback_fn |>);;
        get_client client;;
        upd_job pkt (λ jb, jb <| name := "packet" |>);;
        usfstl_sched_add_job (SE := env2) scheduler pkt) w =
    Ok (tt, free_to u (World (<[pkt := (packet_job (u64 (now w + d))) <| entry := Some (scheduler, QJobs) |>]> (jobs w))
                         (<[scheduler := sc <| joblist := pkt :: joblist sc |>]> (scheds w)) (env w))).
Proof.
  intros Hn Hbg Hj Hx Hd Hdue. set (t := u64 (now w + d)) in *.
  set (w1 := w <| jobs := <[pkt := packet_job t]> (jobs w) |>).
  destruct (add_first e l w1 sc pkt (packet_job t)) as [u Hadd]; try done.
  { destruct Hn as [[] ? ? ?]. by repeat split. }
  { apply lookup_insert_eq. }
  { cbn [start packet_job]. unfold usfstl_time_cmp, t. change (now w1) with (now w). rewrite delay_s64 by lia. lia. }
  { apply (due_first_insert (jobs w) sc pkt t (packet_job t) Hdue). }
  exists u. erewrite bind_ok by (by eapply control_time_run, nc_ready). fold (now w) t.
  erewrite bind_ok by (by eapply upd_job_run).
  erewrite bind_ok; [|unfold get_client; erewrite bind_ok by done; cbn; by rewrite Hx].
  erewrite (bind_ok _ _ _ tt w1).
  2:{ erewrite upd_job_run by apply lookup_insert_eq. unfold w1. cbn. by rewrite insert_insert_eq. }
  rewrite Hadd. change (jobs w1) with (<[pkt := packet_job t]> (jobs w)). by rewrite insert_insert_eq.
Qed.

(** The network with a packet on its way. *)
Definition with_packet_net w pkt client x data rest : KW :=
  nst w (with_packet (network (env w)) pkt client x data rest).

Lemma net_handle_run fuel w m sc dev client x buf data pkt rest :
  no_client_runs w sc → has_bit (blocked_groups sc) 0 = false →
  dev_data (network (env w)) !! dev = Some client → net_clients (network (env w)) !! client = Some x →
  allocs (network (env w)) = Some pkt :: rest → holds m buf data → 0 < pktdelay (network (env w)) < 2 ^ 32 →
  let t := u64 (now w + pktdelay (network (env w))) in
  due_first (jobs w) sc pkt t →
  ∃ u, vu_net_client_handle env2 scheduler fuel m dev buf w =
    Ok (tt, with_packet_net
              (free_to u (World (<[pkt := (packet_job t) <| entry := Some (scheduler, QJobs) |>]> (jobs w))
                            (<[scheduler := sc <| joblist := pkt :: joblist sc |>]> (scheds w)) (env w)))
              pkt client x data rest).
Proof.
  intros Hn Hbg Hdev Hx Hal [Hsg Hlen Hread Hsz] Hdly t Hdue. unfold vu_net_client_handle.
  set (v := network (env w)) in *. change (net (env w)) with v.
  set (v1 := v <| allocs := rest |> <| packets := <[pkt := NetPacket client (Z.of_nat (length data)) data]> (packets v) |>).
  set (w1 := nst (w <| jobs := <[pkt := job_zero]> (jobs w) |>) v1).
  destruct (schedule_run w1 sc client pkt x (pktdelay v)) as [u Hsch]; try done.
  { destruct Hn as [[] ? ? ?]. by repeat split. }
  { apply lookup_insert_eq. }
  { apply (due_first_insert (jobs w) sc pkt t job_zero Hdue). }
  exists u. erewrite bind_ok by done. change (net (env w)) with v.
  rewrite (proj2 (Z.eqb_neq _ 0) Hsg), Hdev, Hlen. erewrite bind_ok by done.
  unfold alloc. erewrite bind_ok; [|erewrite bind_ok by done; change (net (env w)) with v; rewrite Hal; by erewrite bind_ok by done].
  erewrite bind_ok by done. erewrite bind_ok by (by rewrite Hread). erewrite bind_ok by done.
  replace (u32 (Z.of_nat (length data))) with (Z.of_nat (length data)) by (unfold u32; rewrite Z.mod_small; lia).
  rewrite (bind_ok _ _ _ tt (nst w v1)) by done. rewrite (bind_ok _ _ _ tt w1) by done.
  erewrite bind_ok by done. change (pktdelay (net (env w1))) with (pktdelay v).
  replace (pktdelay v =? 0) with false by lia. cbn [negb]. erewrite bind_ok by exact Hsch.
  change (jobs w1) with (<[pkt := job_zero]> (jobs w)). rewrite insert_insert_eq.
  exact (learn_run (free_to u (World _ _ (env w))) v1 client x pkt data Hx (lookup_insert_eq _ _ _)).
Qed.
End handling.

Lemma control_env_at_two n : ∃ e l,
  control_env_at (S (S n)) = control_env (control_env e l) (usfstl_loop_wait_and_handle e l).
Proof.
  unfold control_env_at. cbn [control_level]. destruct (control_level n) as [e l]. by exists e, l.
Qed.

(** C30. A packet of at least 16 bytes, sent by a client in a network with a delay
    while the controller runs its jobs (its scheduler is set up as [main] does, and
    no client is running and the group of packets, 0, is not blocked): if no other job is due by the time of sending plus the
    delay, the scheduler's next step is at exactly that time and delivers the
    packet, to every other client if it is a multicast and to the clients with its
    destination address if not, to each once, in order and whole, and to no one
    else.  The packet is freed, the other jobs are as before, and the address of the
    sender is learned if it was not known. *)
Theorem net_packet_delivered n k fuel (w : KW) m sc dev client x buf data pkt rest :
  no_client_runs w sc → has_bit (blocked_groups sc) 0 = false →
  dev_data (network (env w)) !! dev = Some client → net_clients (network (env w)) !! client = Some x →
  clients_ok (network (env w)) → allocs (network (env w)) = Some pkt :: rest →
  holds m buf data → 0 < pktdelay (network (env w)) < 2 ^ 32 →
  (length (client_list (network (env w))) ≤ fuel)%nat →
  let v := network (env w) in
  let t := u64 (now w + pktdelay v) in
  due_first (jobs w) sc pkt t →
  ∃ w1 w2 sc2, vu_net_client_handle (control_env_at (S (S n))) scheduler fuel m dev buf w = Ok (tt, w1) ∧
    notified (network (env w1)) = notified v ∧
    usfstl_sched_next (SE := net_env fuel (control_env_at (S (S n)))) (S k) scheduler w1 = Ok (pkt, w2) ∧
    now w2 = t ∧
    notified (network (env w2)) = notified v ++ deliveries v client data (client_list v) ∧
    scheds w2 !! scheduler = Some sc2 ∧ joblist sc2 = joblist sc ∧ jobs w2 = delete pkt (jobs w) ∧
    packets (network (env w2)) = delete pkt (packets v) ∧
    net_clients (network (env w2)) = <[client := learned x data]> (net_clients v).
Proof.
  intros Hn Hbg Hdev Hx Hcl Hal Hh Hdly Hf v t Hdue. destruct (control_env_at_two n) as (e & l & ->).
  pose proof (ho_size _ _ _ Hh) as Hsz. fold v in Hdly.
  destruct (net_handle_run e l fuel w m sc dev client x buf data pkt rest) as [u Hrun]; try done.
  set (w1 := with_packet_net _ _ _ _ _ _) in Hrun. set (sc1 := sc <| joblist := pkt :: joblist sc |>).
  assert (s64 (now w - t) = - pktdelay v) as Hs64 by (apply delay_s64; lia).
  pose proof (next_first e l fuel k w1 sc1 pkt ((packet_job t) <| entry := Some (scheduler, QJobs) |>)
    packet_job_callback_fn (joblist sc)) as Hnext.
  set (w2 := at_time _ _) in Hnext.
  pose proof (callback_run w2 (with_packet v pkt client x data rest) pkt client data fuel (lookup_insert_eq _ _ _)
    ltac:(lia) (clients_ok_packet v pkt client x data rest Hcl) Hf) as Hcb.
  eexists w1, _, _. split; [exact Hrun|]. split; [done|]. split.
  { rewrite Hnext; [|..|done|done| |]; [by erewrite bind_ok by exact Hcb|..].
    - destruct Hn as [[] ? ? ?]. split; [|done..]. split; [apply lookup_insert_eq|done..].
    - done.
    - apply Hdue.
    - apply lookup_insert_eq.
    - change (Z.gtb 0 (s64 (now w - t)) = true). rewrite Hs64. lia.
    - change (Z.geb 0 (s64 (now w - t)) = true). rewrite Hs64. lia. }
  split; [done|]. split; [apply (f_equal (app _)), deliveries_learned, Hx|].
  split; [apply lookup_insert_eq|]. split; [done|].
  split; [cbn; by rewrite delete_insert_eq, delete_insert_eq|]. split; [|done]. cbn. by rewrite delete_insert_eq.
Qed.

(** Three clients at 11 to 13, with the devices 1 to 3; the second one's address
    is known, the others' are not. *)
Definition net_demo_env (delay : Z) : netenv :=
  NetEnvSt [11; 12; 13]
    (list_to_map [(11, NetClient 1 (replicate 6 0) false 1); (12, NetClient 2 [2; 4; 6; 8; 10; 12] true 2);
                  (13, NetClient 3 (replicate 6 0) false 3)])
    3 delay ∅ (list_to_map [(1, 11); (2, 12); (3, 13)]) [Some 50] [].
(** The controller running its jobs: the next one is a client's, at 5000. *)
Definition net_sched : usfstl_scheduler control_fn := control_sched <| joblist := [52] |>.
Definition net_demo (delay : Z) : KW :=
  let w := controller ∅ [] in
  World (<[52 := client_job <| start := 5000 |> <| entry := Some (scheduler, QJobs) |>]> (jobs w))
    {[scheduler := net_sched]}
    ((env w) <| running_client := None |> <| g_schedshm_mem := control_mem |> <| network := net_demo_env delay |>).
Definition net_data : list Z := replicate 10 0 ++ [2; 4; 6; 8; 10; 12] ++ [3; 3; 3; 3; 3; 3] ++ [1; 2].
Definition net_mem : mem := poke ∅ 1000 net_data.
Definition net_buf : usfstl_vhost_user_buf := Buf 0 2 [] [Iovec 1000 20; Iovec 1020 4] 0 1 0 false.

Lemma net_holds : holds net_mem net_buf net_data.
Proof. split; [discriminate|reflexivity|vm_compute; reflexivity|cbn; lia]. Qed.

Lemma net_clients_ok delay : clients_ok (net_demo_env delay).
Proof.
  split; [apply (bool_decide_unpack _); vm_compute; reflexivity|]. intros c Hc.
  assert (c = 11 ∨ c = 12 ∨ c = 13) as [->|[->| ->]] by (cbn in Hc; set_solver); vm_compute; by eexists.
Qed.

Lemma net_packet_delivered_witness :
  ∃ w1 w2, vu_net_client_handle (control_env_at 2) scheduler 3 net_mem 1 net_buf (net_demo 1000) = Ok (tt, w1) ∧
    usfstl_sched_next (SE := net_env 3 (control_env_at 2)) 1 scheduler w1 = Ok (50, w2) ∧
    now w2 = 1030 ∧ notified (network (env w2)) = [(2, 0, net_data)].
Proof.
  destruct (net_packet_delivered 0 0 3 (net_demo 1000) net_mem net_sched 1 11
    (NetClient 1 (replicate 6 0) false 1) net_buf net_data 50 [])
    as (w1 & w2 & sc2 & H1 & _ & H2 & H3 & H4 & _).
  - split; [by constructor|reflexivity|reflexivity|by eexists].
  - reflexivity.
  - reflexivity.
  - reflexivity.
  - apply net_clients_ok.
  - reflexivity.
  - exact net_holds.
  - cbn. lia.
  - cbn. lia.
  - split; [cbn; set_solver|]. intros k [= <-]. eexists. split; reflexivity.
  - exists w1, w2. split; [exact H1|]. split; [exact H2|]. split; [rewrite H3; reflexivity|].
    rewrite H4. vm_compute. reflexivity.
Defined.

(** Without a delay the packet is gone when the sender's address is learned: the
    first packet of a client ends in an access to freed memory. *)
Theorem net_no_delay_use_after_free :
  vu_net_client_handle (control_env_at 2) scheduler 3 net_mem 1 net_buf (net_demo 0) = Err NullDeref.
Proof. vm_compute. reflexivity. Qed.
