(* ===== verification/DwarfBuf.v ===== *)
(** * Reading DWARF data (src/dwarf/dwarf.c)

    The buffer every DWARF section is read through, the fixed-width, address,
    string and LEB128 readers, and the errors they report.  A [dwarf_buf] keeps
    the bytes of the section it reads ([db_start]) with the offset of the next
    byte ([db_buf], the source's [buf - start]) and the number of bytes it may
    still read.  A read outside the section is the fault [OutOfBounds].

    The calls of [error_callback] are logged in the state ([errs]); the
    formatted text of [dwarf_buf_error] is kept as its parts. *)

From S2P Require Import Prelude Util Bytes.

(** ** Sections, buffers and the reader's state *)

(** [enum dwarf_section], internal.h. *)
Inductive dwarf_section :=
  | DEBUG_INFO
  | DEBUG_LINE
  | DEBUG_ABBREV
  | DEBUG_RANGES
  | DEBUG_STR
  | DEBUG_ADDR
  | DEBUG_STR_OFFSETS
  | DEBUG_LINE_STR
  | DEBUG_RNGLISTS.

#[export] Instance dwarf_section_eq_dec : EqDecision dwarf_section.
Proof. solve_decision. Defined.

(** [struct dwarf_sections], internal.h: [size[s]] is the length of [data s]. *)
Definition dwarf_sections := dwarf_section → list Z.
Definition sec_size (d : dwarf_sections) (s : dwarf_section) : Z := Z.of_nat (length (d s)).

Record dwarf_buf := mk_dwarf_buf {
  db_name : dwarf_section;
  db_start : list Z;
  db_buf : Z;
  db_left : Z;
  db_is_bigendian : bool;
  db_reported_underflow : bool;
}.
#[export] Instance dwarf_buf_eta : Settable dwarf_buf := λ b,
  mk_dwarf_buf (db_name b) (db_start b) (db_buf b) (db_left b) (db_is_bigendian b)
    (db_reported_underflow b).

(** One call of the error callback: the message, for [dwarf_buf_error] the
    buffer and the offset in it, and the error number. *)
Record derr := mk_derr {
  e_msg : string;
  e_at : option (dwarf_section * Z);
  e_num : Z;
}.

(** The state of a reader: the buffer it reads, the errors reported so far, the
    answers of the memory allocator still to come ([Some errno] is a failure; an
    allocation succeeds when the list is empty) and the number of strings built
    on the heap. *)
Record dstate := mk_dstate {
  db : dwarf_buf;
  errs : list derr;
  allocs : list (option Z);
  heap : nat;
}.
#[export] Instance dstate_eta : Settable dstate := λ s,
  mk_dstate (db s) (errs s) (allocs s) (heap s).

Abbreviation D := (M dstate).

Definition error_callback (msg : string) (errnum : Z) : D unit :=
  modify (λ s, s <| errs := errs s ++ [mk_derr msg None errnum] |>).

(** [backtrace_alloc], as its callers see it: it succeeds, or reports the failure
    of [mmap] and returns NULL. *)
Definition alloc_answer : D bool := λ s,
  match allocs s with
  | [] => Ok (true, s)
  | None :: r => Ok (true, s <| allocs := r |>)
  | Some errno :: r => (error_callback "mmap" errno;; mret false) (s <| allocs := r |>)
  end.

(** Run [m] on another buffer, [struct dwarf_buf b = ...; m(&b)]. *)
Definition on_buf {A} (b : dwarf_buf) (m : D A) : D (A * dwarf_buf) := λ s,
  match m (s <| db := b |>) with
  | Ok (a, s') => Ok ((a, db s'), s' <| db := db s |>)
  | Err f => Err f
  end.

(** ** The readers *)

Definition dwarf_buf_error (msg : string) (errnum : Z) : D unit :=
  modify (λ s, s <| errs :=
    errs s ++ [mk_derr msg (Some (db_name (db s), s32 (db_buf (db s)))) errnum] |>).

Definition require (count : Z) : D bool :=
  b ← gets db;
  if count <=? db_left b then mret true
  else
    (when (negb (db_reported_underflow b))
      (dwarf_buf_error "DWARF underflow" 0;;
       modify (λ s, s <| db := (db s) <| db_reported_underflow := true |> |>)));;
    mret false.

Definition advance (count : Z) : D bool :=
  ok ← require count;
  if negb ok then mret false
  else
    modify (λ s, s <| db := ((db s) <| db_buf := db_buf (db s) + count |>)
                              <| db_left := db_left (db s) - count |> |>);;
    mret true.

(** [*p] at the offset [p] of the section. *)
Definition byte_at (p : Z) : D Z := b ← gets db; array_get (db_start b) p.

(** [xstrnlen(s, maxlen)] on the bytes that follow [s]. *)
Fixpoint xstrnlen (s : list Z) (maxlen : Z) : res Z :=
  if maxlen <=? 0 then Ok 0
  else match s with
  | [] => Err OutOfBounds
  | c :: s =>
      if c =? 0 then Ok 0
      else match xstrnlen s (maxlen - 1) with Ok n => Ok (1 + n) | Err f => Err f end
  end.

Definition strnlen_at (p maxlen : Z) : D Z := λ s,
  match xstrnlen (drop (Z.to_nat p) (db_start (db s))) maxlen with
  | Ok n => Ok (n, s)
  | Err f => Err f
  end.

(** The offset of the string, [None] for NULL. *)
Definition read_string : D (option Z) :=
  b ← gets db;
  let p := db_buf b in
  len ← strnlen_at p (db_left b);
  let count := u64 (len + 1) in
  ok ← advance count;
  mret (if (ok : bool) then Some p else None).

Definition read_byte : D Z :=
  b ← gets db;
  let p := db_buf b in
  ok ← advance 1;
  if negb ok then mret 0 else byte_at p.

Definition read_sbyte : D Z :=
  b ← gets db;
  let p := db_buf b in
  ok ← advance 1;
  if negb ok then mret 0 else (c ← byte_at p; mret (Z.lxor c 0x80 - 0x80)).

Definition read_uint16 : D Z :=
  b ← gets db;
  let p := db_buf b in
  ok ← advance 2;
  if negb ok then mret 0
  else
    p0 ← byte_at p; p1 ← byte_at (p + 1);
    if db_is_bigendian b then mret (Z.lor (Z.shiftl p0 8) p1)
    else mret (Z.lor (Z.shiftl p1 8) p0).

Definition read_uint24 : D Z :=
  b ← gets db;
  let p := db_buf b in
  ok ← advance 3;
  if negb ok then mret 0
  else
    p0 ← byte_at p; p1 ← byte_at (p + 1); p2 ← byte_at (p + 2);
    if db_is_bigendian b
    then mret (Z.lor (Z.lor (Z.shiftl p0 16) (Z.shiftl p1 8)) p2)
    else mret (Z.lor (Z.lor (Z.shiftl p2 16) (Z.shiftl p1 8)) p0).

Definition read_uint32 : D Z :=
  b ← gets db;
  let p := db_buf b in
  ok ← advance 4;
  if negb ok then mret 0
  else
    p0 ← byte_at p; p1 ← byte_at (p + 1); p2 ← byte_at (p + 2); p3 ← byte_at (p + 3);
    if db_is_bigendian b
    then mret (Z.lor (Z.lor (Z.lor (Z.shiftl p0 24) (Z.shiftl p1 16)) (Z.shiftl p2 8)) p3)
    else mret (Z.lor (Z.lor (Z.lor (Z.shiftl p3 24) (Z.shiftl p2 16)) (Z.shiftl p1 8)) p0).

Definition read_uint64 : D Z :=
  b ← gets db;
  let p := db_buf b in
  ok ← advance 8;
  if negb ok then mret 0
  else
    p0 ← byte_at p; p1 ← byte_at (p + 1); p2 ← byte_at (p + 2); p3 ← byte_at (p + 3);
    p4 ← byte_at (p + 4); p5 ← byte_at (p + 5); p6 ← byte_at (p + 6); p7 ← byte_at (p + 7);
    if db_is_bigendian b
    then mret (Z.lor (Z.lor (Z.lor (Z.lor (Z.lor (Z.lor (Z.lor
      (Z.shiftl p0 56) (Z.shiftl p1 48)) (Z.shiftl p2 40)) (Z.shiftl p3 32))
      (Z.shiftl p4 24)) (Z.shiftl p5 16)) (Z.shiftl p6 8)) p7)
    else mret (Z.lor (Z.lor (Z.lor (Z.lor (Z.lor (Z.lor (Z.lor
      (Z.shiftl p7 56) (Z.shiftl p6 48)) (Z.shiftl p5 40)) (Z.shiftl p4 32))
      (Z.shiftl p3 24)) (Z.shiftl p2 16)) (Z.shiftl p1 8)) p0).

Definition read_offset (is_dwarf64 : bool) : D Z :=
  if is_dwarf64 then read_uint64 else read_uint32.

Definition read_address (addrsize : Z) : D Z :=
  if addrsize =? 1 then read_byte
  else if addrsize =? 2 then read_uint16
  else if addrsize =? 4 then read_uint32
  else if addrsize =? 8 then read_uint64
  else dwarf_buf_error "unrecognized address size" 0;; mret 0.

Definition is_highest_address (address addrsize : Z) : bool :=
  if addrsize =? 1 then address =? u8 (-1)
  else if addrsize =? 2 then address =? u16 (-1)
  else if addrsize =? 4 then address =? u32 (-1)
  else if addrsize =? 8 then address =? u64 (-1)
  else false.

(** The [do ... while ((b & 0x80) != 0)] loop of both LEB128 readers, which
    differ in the message of the overflow error.  [None] is the early
    [return 0]; otherwise the value, the final [shift] and the last byte.
    Every round but the last reads a byte of the section. *)
Fixpoint leb128_loop (fuel : nat) (msg : string) (ret shift : Z) (overflow : bool)
    : D (option (Z * Z * Z)) :=
  match fuel with
  | O => fail OutOfFuel
  | S fuel =>
      bf ← gets db;
      let p := db_buf bf in
      ok ← advance 1;
      if negb ok then mret None
      else
        b ← byte_at p;
        '(ret, overflow) ←
          (if shift <? 64 then
             mret (Z.lor ret (u64 (Z.shiftl (Z.land b 0x7f) shift)), overflow)
           else if negb overflow then dwarf_buf_error msg 0;; mret (ret, true)
           else mret (ret, overflow));
        let shift := u32 (shift + 7) in
        if negb (Z.land b 0x80 =? 0) then leb128_loop fuel msg ret shift overflow
        else mret (Some (ret, shift, b))
  end.

Definition leb128_fuel (b : dwarf_buf) : nat := S (length (db_start b)).

Definition read_uleb128 : D Z :=
  bf ← gets db;
  r ← leb128_loop (leb128_fuel bf) "LEB128 overflows uint64_t" 0 0 false;
  match r with
  | None => mret 0
  | Some (ret, _, _) => mret ret
  end.

Definition read_sleb128 : D Z :=
  bf ← gets db;
  r ← leb128_loop (leb128_fuel bf) "signed LEB128 overflows uint64_t" 0 0 false;
  match r with
  | None => mret 0
  | Some (val, shift, b) =>
      let val :=
        if negb (Z.land b 0x40 =? 0) && (shift <? 64)
        then Z.lor val (u64 (Z.shiftl (u64 (-1)) shift)) else val in
      mret (s64 val)
  end.

(** [leb128_len(p)] on the bytes that follow [p]; it has no bound of its own. *)
Fixpoint leb128_len_bytes (p : list Z) : res Z :=
  match p with
  | [] => Err OutOfBounds
  | c :: p =>
      if Z.land c 0x80 =? 0 then Ok 1
      else match leb128_len_bytes p with Ok n => Ok (1 + n) | Err f => Err f end
  end.

Definition leb128_len (p : Z) : D Z := λ s,
  match leb128_len_bytes (drop (Z.to_nat p) (db_start (db s))) with
  | Ok n => Ok (n, s)
  | Err f => Err f
  end.

(** The length and [is_dwarf64]. *)
Definition read_initial_length : D (Z * bool) :=
  len ← read_uint32;
  if len =? 0xffffffff then (len ← read_uint64; mret (len, true))
  else mret (len, false).

(** ** What every reader keeps

    A buffer is well formed when the bytes it may still read are inside its
    section.  [dstep s s'] holds when reading has gone from [s] to [s'] and only
    read: the end of the buffer stays, an underflow stays noted and errors are
    only added. *)
Definition wf_buf (b : dwarf_buf) : Prop :=
  bytes_ok (db_start b) ∧ 0 ≤ db_buf b ∧ 0 ≤ db_left b ∧
  db_buf b + db_left b ≤ Z.of_nat (length (db_start b)) < 2^63.

Record dstep (s s' : dstate) : Prop := mk_dstep {
  st_name : db_name (db s') = db_name (db s);
  st_start : db_start (db s') = db_start (db s);
  st_endian : db_is_bigendian (db s') = db_is_bigendian (db s);
  st_end : db_buf (db s') + db_left (db s') = db_buf (db s) + db_left (db s);
  st_mono : db_buf (db s) ≤ db_buf (db s');
  st_left : 0 ≤ db_left (db s');
  st_underflow : db_reported_underflow (db s) = true → db_reported_underflow (db s') = true;
  st_errs : errs s `prefix_of` errs s';
}.

Lemma dstep_refl s : 0 ≤ db_left (db s) → dstep s s.
Proof. intros. split; done || lia. Qed.

Lemma dstep_trans s1 s2 s3 : dstep s1 s2 → dstep s2 s3 → dstep s1 s3.
Proof.
  intros [A1 A2 A3 A4 A5 A6 A7 A8] [B1 B2 B3 B4 B5 B6 B7 B8].
  split; try congruence; try lia; [auto|by etrans].
Qed.

Lemma dstep_wf s s' : wf_buf (db s) → dstep s s' → wf_buf (db s').
Proof.
  intros (H1 & H2 & H3 & H4) [A1 A2 A3 A4 A5 A6 A7 A8]. unfold wf_buf.
  rewrite A2, A4. repeat split; try done; lia.
Qed.

(** [reads R m]: from every well-formed buffer [m] returns (no fault), the value
    is in [R], and only reading happened. *)
Definition reads {A} (R : A → Prop) (m : D A) : Prop :=
  ∀ s, wf_buf (db s) → ∃ a s', m s = Ok (a, s') ∧ R a ∧ dstep s s'.

Section reads_lemmas.
Context {A B : Type}.

Lemma reads_ret (R : A → Prop) a : R a → reads R (mret a).
Proof. intros HR s (_ & _ & H & _). exists a, s. repeat split; try done. all: by apply dstep_refl. Qed.

Lemma reads_bind (R : A → Prop) (R' : B → Prop) m k :
  reads R m → (∀ a, R a → reads R' (k a)) → reads R' (m ≫= k).
Proof.
  intros Hm Hk s Hs. destruct (Hm s Hs) as (a & s1 & E1 & Ha & S1).
  destruct (Hk a Ha s1 (dstep_wf _ _ Hs S1)) as (b & s2 & E2 & Hb & S2).
  exists b, s2. rewrite (bind_ok _ _ _ _ _ E1). eauto using dstep_trans.
Qed.

Lemma reads_weaken (R R' : A → Prop) m : (∀ a, R a → R' a) → reads R m → reads R' m.
Proof. intros HR Hm s Hs. destruct (Hm s Hs) as (a & s' & ? & ? & ?). exists a, s'. eauto. Qed.

Lemma reads_if (c : bool) (R : A → Prop) m1 m2 :
  (c = true → reads R m1) → (c = false → reads R m2) → reads R (if c then m1 else m2).
Proof. destruct c; auto. Qed.
End reads_lemmas.

Lemma reads_gets_db : reads (λ b, wf_buf b) (gets db).
Proof. intros s Hs. exists (db s), s. split; [done|]. split; [done|]. apply dstep_refl, Hs. Qed.

Lemma reads_error msg n : reads (λ _, True) (dwarf_buf_error msg n).
Proof.
  intros s (_ & _ & Hs & _). eexists _, _. split; [done|]. split; [done|].
  split; cbn; try done; try lia. by apply prefix_app_r.
Qed.

Lemma reads_callback msg n : reads (λ _, True) (error_callback msg n).
Proof.
  intros s (_ & _ & Hs & _). eexists _, _. split; [done|]. split; [done|].
  split; cbn; try done; try lia. by apply prefix_app_r.
Qed.

(** Reading another buffer leaves this one as it is. *)
Lemma on_buf_ok {A} (m : D A) b s a s1 :
  m (s <| db := b |>) = Ok (a, s1) → dstep (s <| db := b |>) s1 → 0 ≤ db_left (db s) →
  on_buf b m s = Ok ((a, db s1), s1 <| db := db s |>) ∧ dstep s (s1 <| db := db s |>).
Proof.
  intros E S Hl. unfold on_buf. rewrite E. split; [done|]. destruct S as [_ _ _ _ _ _ _ S8].
  split; cbn; try done; try lia.
Qed.

Lemma on_buf_reads {A} (R : A → Prop) (m : D A) b s :
  reads R m → wf_buf b → 0 ≤ db_left (db s) →
  ∃ a b' s', on_buf b m s = Ok ((a, b'), s') ∧ R a ∧ wf_buf b' ∧ db s' = db s ∧ dstep s s'.
Proof.
  intros Hm Hb Hl. assert (wf_buf (db (s <| db := b |>))) as Hb1 by (unfold set_field; cbn; exact Hb). destruct (Hm _ Hb1) as (a & s1 & E & Ha & S).
  destruct (on_buf_ok m b s a s1 E S Hl) as [E' S']. exists a, (db s1), (s1 <| db := db s |>).
  repeat split; try done; try apply S'; apply (dstep_wf _ _ Hb1 S).
Qed.

(** The state after an underflow, and after moving on. *)
Definition report_underflow (s : dstate) : dstate :=
  if db_reported_underflow (db s) then s
  else (s <| errs := errs s ++ [mk_derr "DWARF underflow"
                        (Some (db_name (db s), s32 (db_buf (db s)))) 0] |>)
         <| db := (db s) <| db_reported_underflow := true |> |>.

Definition moved (n : Z) (s : dstate) : dstate :=
  s <| db := ((db s) <| db_buf := db_buf (db s) + n |>) <| db_left := db_left (db s) - n |> |>.

Lemma advance_ok n s : n ≤ db_left (db s) → advance n s = Ok (true, moved n s).
Proof.
  intros Hn. unfold advance, require. rewrite bind_ok with (a := true) (s1 := s); [done|].
  rewrite bind_ok with (a := db s) (s1 := s) by done. by replace (n <=? db_left (db s)) with true by lia.
Qed.

Lemma advance_underflow n s : db_left (db s) < n → advance n s = Ok (false, report_underflow s).
Proof.
  intros Hn. unfold advance, require. rewrite bind_ok with (a := false) (s1 := report_underflow s); [done|].
  rewrite bind_ok with (a := db s) (s1 := s) by done. replace (n <=? db_left (db s)) with false by lia.
  unfold report_underflow. by destruct (db_reported_underflow (db s)).
Qed.

Lemma moved_step n s : 0 ≤ n ≤ db_left (db s) → dstep s (moved n s).
Proof.
  intros Hn. split; cbn; done || lia.
Qed.

Lemma report_underflow_step s : 0 ≤ db_left (db s) → dstep s (report_underflow s).
Proof.
  intros Hn. unfold report_underflow. destruct (db_reported_underflow (db s)) eqn:E.
  - by apply dstep_refl.
  - split; cbn; try done; try lia. by apply prefix_app_r.
Qed.

Lemma advance_reads n : 0 ≤ n → reads (λ _, True) (advance n).
Proof.
  intros Hn s Hs. pose proof Hs as (_ & _ & Hl & _). destruct (Z_le_gt_dec n (db_left (db s))).
  - eexists _, _. split; [by apply advance_ok|]. split; [done|]. by apply moved_step.
  - eexists _, _. split; [by apply advance_underflow; lia|]. split; [done|]. by apply report_underflow_step.
Qed.

(** ** Fixed-width values

    [unread s] are the bytes still to be read; a fixed-width reader returns the
    number its first bytes denote in the buffer's byte order. *)
Definition unread (s : dstate) : list Z :=
  take (Z.to_nat (db_left (db s))) (drop (Z.to_nat (db_buf (db s))) (db_start (db s))).

Definition value_of (bigendian : bool) (bs : list Z) : Z :=
  le_combine (if bigendian then reverse bs else bs).

Lemma unread_length s : wf_buf (db s) → length (unread s) = Z.to_nat (db_left (db s)).
Proof. intros (_ & ? & ? & ?). unfold unread. rewrite length_take, length_drop. lia. Qed.

Lemma unread_ok s : wf_buf (db s) → bytes_ok (unread s).
Proof. intros (H & _). by apply Forall_take, Forall_drop. Qed.

Lemma unread_moved s n : 0 ≤ db_buf (db s) → 0 ≤ n ≤ db_left (db s) →
  unread (moved n s) = drop (Z.to_nat n) (unread s).
Proof.
  intros Hb Hn. unfold unread. cbn. rewrite skipn_firstn_comm, drop_drop.
  f_equal; [lia|]. f_equal. lia.
Qed.

Lemma byte_unread i b s s' :
  0 ≤ db_buf (db s) → unread s !! i = Some b → db_start (db s') = db_start (db s) →
  byte_at (db_buf (db s) + Z.of_nat i) s' = Ok (b, s').
Proof.
  intros Hb Hi Hst. unfold byte_at, gets. unfold mbind, M_bind, array_get. rewrite Hst.
  replace (_ + _ <? 0) with false by lia. unfold unread in Hi.
  apply lookup_take_Some in Hi as [Hi _]. rewrite lookup_drop in Hi.
  replace (Z.to_nat _) with (Z.to_nat (db_buf (db s)) + i)%nat by lia. by rewrite Hi.
Qed.

(** The bytes a reader of [n] bytes gets, and the bound of the number they
    denote. *)
Lemma unread_front n s : wf_buf (db s) → Z.of_nat n ≤ db_left (db s) →
  ∃ bs rest, unread s = bs ++ rest ∧ length bs = n ∧ bytes_ok bs.
Proof.
  intros Hs Hn. exists (take n (unread s)), (drop n (unread s)).
  rewrite take_drop, length_take, unread_length by done. repeat split; [lia|].
  by apply Forall_take, unread_ok.
Qed.

Lemma value_of_range e bs : bytes_ok bs → 0 ≤ value_of e bs < 2 ^ (8 * Z.of_nat (length bs)).
Proof.
  intros H. unfold value_of. destruct e; [|by apply le_combine_range].
  rewrite <-length_reverse. apply le_combine_range. by apply Forall_reverse.
Qed.

Lemma byte0 s b bs s' : wf_buf (db s) → unread s = b :: bs → db_start (db s') = db_start (db s) →
  byte_at (db_buf (db s)) s' = Ok (b, s').
Proof.
  intros Hs Hu Hst. rewrite <-(Z.add_0_r (db_buf (db s))). apply (byte_unread 0 b); [apply Hs| by rewrite Hu|done].
Qed.

(** [run_bytes s Hs Hu]: read the bytes of [unread s], known by [Hu], one after
    the other. *)
Ltac run_bytes s Hs Hu :=
  let go i := (erewrite bind_ok by (apply (byte_unread i _ s); [apply Hs|by rewrite Hu|done])) in
  erewrite bind_ok by (eapply byte0; [exact Hs|exact Hu|done]);
  go 1%nat; try go 2%nat; try go 3%nat; try go 4%nat; try go 5%nat; try go 6%nat; try go 7%nat.

(** The disjoint [lor]s of shifted bytes are a sum; [n] is the lowest shift of
    the first two. *)
Ltac lor_bytes n :=
  rewrite !Z.shiftl_mul_pow2 by lia;
  rewrite (lor_disj n (_ * _)) by lia;
  try rewrite (lor_disj (n - 8) (_ + _)) by lia;
  try rewrite (lor_disj (n - 16) (_ + _)) by lia;
  try rewrite (lor_disj (n - 24) (_ + _)) by lia;
  try rewrite (lor_disj (n - 32) (_ + _)) by lia;
  try rewrite (lor_disj (n - 40) (_ + _)) by lia;
  try rewrite (lor_disj (n - 48) (_ + _)) by lia.

Lemma unread_cons_left s rest bs : wf_buf (db s) → unread s = bs ++ rest → Z.of_nat (length bs) ≤ db_left (db s).
Proof.
  intros Hs Hu. pose proof (unread_length s Hs) as Hl. rewrite Hu, length_app in Hl.
  pose proof Hs as (_ & _ & ? & _). lia.
Qed.

(** The proof of a fixed-width reader. *)
Ltac solve_fixed s Hs Hu n :=
  let Hl := fresh "Hl" in let Hb := fresh "Hb" in
  pose proof (unread_cons_left s _ _ Hs Hu) as Hl; cbn in Hl;
  pose proof (unread_ok s Hs) as Hb; rewrite Hu in Hb; apply Forall_app in Hb as [Hb _];
  rewrite bind_ok with (a := db s) (s1 := s) by done;
  erewrite bind_ok by (apply advance_ok; lia); cbn [negb]; run_bytes s Hs Hu;
  decompose_Forall_hyps; unfold is_byte in *; unfold value_of;
  destruct (db_is_bigendian (db s)); unfold mret, M_ret; do 2 f_equal; lor_bytes n; cbn; lia.

Section fixed.
Variable s : dstate.
Hypothesis Hs : wf_buf (db s).
Variable rest : list Z.

Lemma read_byte_at b0 : unread s = [b0] ++ rest → read_byte s = Ok (b0, moved 1 s).
Proof.
  intros Hu. pose proof (unread_cons_left s _ [b0] Hs Hu) as Hl. cbn in Hl. unfold read_byte.
  rewrite bind_ok with (a := db s) (s1 := s) by done.
  erewrite bind_ok by (apply advance_ok; lia). cbn [negb]. by eapply byte0.
Qed.

Lemma read_uint16_at b0 b1 : unread s = [b0; b1] ++ rest →
  read_uint16 s = Ok (value_of (db_is_bigendian (db s)) [b0; b1], moved 2 s).
Proof. intros Hu. unfold read_uint16. solve_fixed s Hs Hu 8. Qed.

Lemma read_uint24_at b0 b1 b2 : unread s = [b0; b1; b2] ++ rest →
  read_uint24 s = Ok (value_of (db_is_bigendian (db s)) [b0; b1; b2], moved 3 s).
Proof. intros Hu. unfold read_uint24. solve_fixed s Hs Hu 16. Qed.

Lemma read_uint32_at b0 b1 b2 b3 : unread s = [b0; b1; b2; b3] ++ rest →
  read_uint32 s = Ok (value_of (db_is_bigendian (db s)) [b0; b1; b2; b3], moved 4 s).
Proof. intros Hu. unfold read_uint32. solve_fixed s Hs Hu 24. Qed.

Lemma read_uint64_at b0 b1 b2 b3 b4 b5 b6 b7 : unread s = [b0; b1; b2; b3; b4; b5; b6; b7] ++ rest →
  read_uint64 s = Ok (value_of (db_is_bigendian (db s)) [b0; b1; b2; b3; b4; b5; b6; b7], moved 8 s).
Proof. intros Hu. unfold read_uint64. solve_fixed s Hs Hu 56. Qed.
End fixed.

(** Every fixed-width reader returns, with a value of its width. *)
Definition in_width (n : Z) (z : Z) : Prop := 0 ≤ z < 2 ^ n.

Lemma reads_fixed k (m : D Z) (v : bool → list Z → Z) :
  (0 < k)%nat →
  (∀ s bs rest, wf_buf (db s) → unread s = bs ++ rest → length bs = k →
     m s = Ok (v (db_is_bigendian (db s)) bs, moved (Z.of_nat k) s)) →
  (∀ s, db_left (db s) < Z.of_nat k → m s = Ok (0, report_underflow s)) →
  (∀ e bs, bytes_ok bs → length bs = k → in_width (8 * Z.of_nat k) (v e bs)) →
  reads (in_width (8 * Z.of_nat k)) m.
Proof.
  intros Hk Hr Hu Hv s Hs. pose proof Hs as (_ & _ & Hl & _).
  destruct (Z_le_gt_dec (Z.of_nat k) (db_left (db s))) as [Hle|Hgt].
  - destruct (unread_front k s Hs Hle) as (bs & rest & E & Hlen & Hb).
    eexists _, _. split; [by eapply Hr|]. split; [by apply Hv|]. apply moved_step. lia.
  - eexists _, _. split; [apply Hu; lia|]. split; [|by apply report_underflow_step].
    split; [done|]. apply Z.pow_pos_nonneg; lia.
Qed.

Ltac underflow_run := intros s ?; unfold read_byte, read_sbyte, read_uint16, read_uint24, read_uint32, read_uint64;
  rewrite bind_ok with (a := db s) (s1 := s) by done;
  erewrite bind_ok by (apply advance_underflow; lia); done.

Lemma read_byte_underflow s : db_left (db s) < 1 → read_byte s = Ok (0, report_underflow s).
Proof. revert s. underflow_run. Qed.
Lemma read_uint16_underflow s : db_left (db s) < 2 → read_uint16 s = Ok (0, report_underflow s).
Proof. revert s. underflow_run. Qed.
Lemma read_uint24_underflow s : db_left (db s) < 3 → read_uint24 s = Ok (0, report_underflow s).
Proof. revert s. underflow_run. Qed.
Lemma read_uint32_underflow s : db_left (db s) < 4 → read_uint32 s = Ok (0, report_underflow s).
Proof. revert s. underflow_run. Qed.
Lemma read_uint64_underflow s : db_left (db s) < 8 → read_uint64 s = Ok (0, report_underflow s).
Proof. revert s. underflow_run. Qed.

Lemma read_sbyte_underflow s : db_left (db s) < 1 → read_sbyte s = Ok (0, report_underflow s).
Proof. revert s. underflow_run. Qed.

Lemma value_of_width e bs k : bytes_ok bs → length bs = k → in_width (8 * Z.of_nat k) (value_of e bs).
Proof. intros ? <-. by apply value_of_range. Qed.

Ltac list_of_length bs :=
  repeat (destruct bs as [|? bs]; try discriminate).

Lemma reads_byte : reads (in_width 8) read_byte.
Proof.
  apply (reads_fixed 1 read_byte value_of); [lia| |apply read_byte_underflow|by intros; apply value_of_width].
  intros s bs rest Hs Hu Hl. list_of_length bs. erewrite read_byte_at by done.
  unfold value_of. destruct (db_is_bigendian (db s)); cbn; do 3 f_equal; lia.
Qed.

Lemma reads_uint16 : reads (in_width 16) read_uint16.
Proof.
  apply (reads_fixed 2 read_uint16 value_of); [lia| |apply read_uint16_underflow|by intros; apply value_of_width].
  intros s bs rest Hs Hu Hl. list_of_length bs. by erewrite read_uint16_at.
Qed.

Lemma reads_uint24 : reads (in_width 24) read_uint24.
Proof.
  apply (reads_fixed 3 read_uint24 value_of); [lia| |apply read_uint24_underflow|by intros; apply value_of_width].
  intros s bs rest Hs Hu Hl. list_of_length bs. by erewrite read_uint24_at.
Qed.

Lemma reads_uint32 : reads (in_width 32) read_uint32.
Proof.
  apply (reads_fixed 4 read_uint32 value_of); [lia| |apply read_uint32_underflow|by intros; apply value_of_width].
  intros s bs rest Hs Hu Hl. list_of_length bs. by erewrite read_uint32_at.
Qed.

Lemma reads_uint64 : reads (in_width 64) read_uint64.
Proof.
  apply (reads_fixed 8 read_uint64 value_of); [lia| |apply read_uint64_underflow|by intros; apply value_of_width].
  intros s bs rest Hs Hu Hl. list_of_length bs. by erewrite read_uint64_at.
Qed.

Lemma in_width_mono n m z : 0 ≤ n ≤ m → in_width n z → in_width m z.
Proof. intros ? [? ?]. split; [done|]. pose proof (Z.pow_le_mono_r 2 n m). lia. Qed.

Lemma reads_offset d : reads (in_width 64) (read_offset d).
Proof.
  destruct d; [apply reads_uint64|]. apply (reads_weaken (in_width 32)), reads_uint32.
  intros. by apply (in_width_mono 32).
Qed.

Lemma reads_address n : reads (in_width 64) (read_address n).
Proof.
  unfold read_address. repeat (apply reads_if; intros ?).
  - apply (reads_weaken (in_width 8)), reads_byte. intros. by apply (in_width_mono 8).
  - apply (reads_weaken (in_width 16)), reads_uint16. intros. by apply (in_width_mono 16).
  - apply (reads_weaken (in_width 32)), reads_uint32. intros. by apply (in_width_mono 32).
  - apply reads_uint64.
  - eapply reads_bind; [by apply reads_error|]. intros _ _. apply reads_ret. done.
Qed.

Lemma reads_initial_length : reads (λ r, in_width 64 r.1) read_initial_length.
Proof.
  eapply reads_bind; [apply reads_uint32|]. intros len Hl. apply reads_if; intros.
  - eapply reads_bind; [apply reads_uint64|]. intros len' Hl'. by apply reads_ret.
  - apply reads_ret. by apply (in_width_mono 32).
Qed.

Lemma lxor_sbyte c : 0 ≤ c < 256 → Z.lxor c 0x80 - 0x80 = if c <? 128 then c else c - 256.
Proof.
  intros Hc. assert (forallb (λ c, Z.lxor c 128 - 128 =? (if c <? 128 then c else c - 256))
    (seqZ 0 256) = true) as H by (vm_compute; reflexivity).
  rewrite forallb_forall in H. apply Z.eqb_eq, H, list_elem_of_In, elem_of_seqZ. lia.
Qed.

Lemma read_sbyte_run s : wf_buf (db s) → 0 < db_left (db s) →
  ∃ c rest, unread s = c :: rest ∧ 0 ≤ c < 256 ∧
    read_sbyte s = Ok (if c <? 128 then c else c - 256, moved 1 s).
Proof.
  intros Hs Hl. destruct (unread_front 1 s Hs ltac:(lia)) as (bs & rest & E & Hlen & Hb).
  list_of_length bs. apply Forall_cons in Hb as [Hz _]. exists z, rest. split; [done|]. split; [done|].
  unfold read_sbyte. rewrite bind_ok with (a := db s) (s1 := s) by done.
  erewrite bind_ok by (apply advance_ok; lia). cbn [negb].
  erewrite bind_ok by (by eapply byte0). by rewrite lxor_sbyte.
Qed.

Lemma reads_sbyte : reads (λ z, -128 ≤ z < 128) read_sbyte.
Proof.
  intros s Hs. pose proof Hs as (_ & _ & Hl & _). destruct (Z_lt_le_dec 0 (db_left (db s))) as [Hp|Hz].
  - destruct (read_sbyte_run s Hs Hp) as (c & rest & _ & Hc & E). eexists _, _. split; [exact E|].
    split; [destruct (Z.ltb_spec c 128); lia|]. apply moved_step. lia.
  - eexists _, _. split; [apply read_sbyte_underflow; lia|]. split; [lia|]. by apply report_underflow_step.
Qed.

(** *** Strings *)
Lemma xstrnlen_found str rest n : Forall (λ c, c ≠ 0) str → Z.of_nat (length str) < n →
  xstrnlen (str ++ 0 :: rest) n = Ok (Z.of_nat (length str)).
Proof.
  intros Hs. revert n. induction Hs as [|c str Hc Hs IH]; intros n Hn; cbn in *.
  - by replace (n <=? 0) with false by lia.
  - replace (n <=? 0) with false by lia. replace (c =? 0) with false by lia.
    rewrite IH by lia. f_equal. lia.
Qed.

Lemma xstrnlen_bound l : ∀ n, 0 ≤ n ≤ Z.of_nat (length l) → ∃ k, xstrnlen l n = Ok k ∧ 0 ≤ k ≤ n.
Proof.
  induction l as [|c l IH]; intros n Hn; cbn in *.
  - exists 0. replace (n <=? 0) with true by lia. split; [done|lia].
  - destruct (Z.leb_spec n 0); [exists 0; split; [done|lia]|].
    destruct (c =? 0); [exists 0; split; [done|lia]|].
    destruct (IH (n - 1)) as (k & -> & ?); [lia|]. exists (1 + k). split; [done|lia].
Qed.

Lemma strnlen_reads s p n : wf_buf (db s) → 0 ≤ p → 0 ≤ n → p + n ≤ Z.of_nat (length (db_start (db s))) →
  ∃ k, strnlen_at p n s = Ok (k, s) ∧ 0 ≤ k ≤ n.
Proof.
  intros Hs Hp Hn Hl. unfold strnlen_at.
  destruct (xstrnlen_bound (drop (Z.to_nat p) (db_start (db s))) n) as (k & -> & ?); [|eauto].
  rewrite length_drop. lia.
Qed.

(** The string a non-NULL result points to starts at the reader's position. *)
Lemma reads_string : reads (λ _, True) read_string.
Proof.
  intros s Hs. pose proof Hs as (_ & Hb & Hl & Hlen). unfold read_string.
  rewrite bind_ok with (a := db s) (s1 := s) by done.
  destruct (strnlen_reads s (db_buf (db s)) (db_left (db s))) as (k & E & Hk); [done|lia..|].
  rewrite (bind_ok _ _ _ _ _ E).
  destruct (advance_reads (u64 (k + 1)) (proj1 (u64_range _)) s Hs) as (ok & s1 & E1 & _ & S1).
  rewrite (bind_ok _ _ _ _ _ E1). eexists _, _. split; [done|]. done.
Qed.

Lemma read_string_at s str rest : wf_buf (db s) → Forall (λ c, c ≠ 0) str → unread s = str ++ 0 :: rest →
  read_string s = Ok (Some (db_buf (db s)), moved (Z.of_nat (length str) + 1) s).
Proof.
  intros Hs Hstr Hu. pose proof Hs as (_ & Hb & Hl & Hlen). unfold read_string.
  pose proof (unread_length s Hs) as Hul. rewrite Hu, length_app in Hul. cbn in Hul.
  rewrite bind_ok with (a := db s) (s1 := s) by done.
  erewrite bind_ok with (a := Z.of_nat (length str)) (s1 := s).
  - rewrite u64_small by lia. erewrite bind_ok by (apply advance_ok; lia). done.
  - unfold strnlen_at.
    assert (drop (Z.to_nat (db_buf (db s))) (db_start (db s)) =
            str ++ 0 :: (rest ++ drop (Z.to_nat (db_left (db s)))
                           (drop (Z.to_nat (db_buf (db s))) (db_start (db s))))) as ->.
    { rewrite app_comm_cons, app_assoc, <-Hu. unfold unread. by rewrite take_drop. }
    rewrite xstrnlen_found; [done..|lia].
Qed.

Lemma read_string_inv s o s' : wf_buf (db s) → read_string s = Ok (Some o, s') →
  0 ≤ o < Z.of_nat (length (db_start (db s))).
Proof.
  intros Hs E. pose proof Hs as (_ & ? & ? & ?). unfold read_string in E.
  rewrite bind_ok with (a := db s) (s1 := s) in E by done.
  destruct (strnlen_reads s (db_buf (db s)) (db_left (db s))) as (k & Ek & Hk); [done|lia..|].
  rewrite (bind_ok _ _ _ _ _ Ek), u64_small in E by lia.
  destruct (Z_le_gt_dec (k + 1) (db_left (db s))).
  - rewrite (bind_ok _ _ _ _ _ (advance_ok (k + 1) s ltac:(lia))) in E. apply mret_inv in E. simplify_eq. lia.
  - rewrite (bind_ok _ _ _ _ _ (advance_underflow (k + 1) s ltac:(lia))) in E. by apply mret_inv in E.
Qed.

(** ** LEB128

    An encoding is a list of bytes of which all but the last have bit 7 set;
    its value is the number the 7-bit groups denote, least significant first. *)
Fixpoint is_leb (bs : list Z) : bool :=
  match bs with
  | [] => false
  | [b] => (0 <=? b) && (b <? 128)
  | b :: bs => (128 <=? b) && (b <? 256) && is_leb bs
  end.

Fixpoint uleb_val (bs : list Z) : Z :=
  match bs with
  | [] => 0
  | b :: bs => b mod 128 + 128 * uleb_val bs
  end.

Definition sleb_val (bs : list Z) : Z :=
  uleb_val bs - (if has_bit (default 0 (last bs)) 6 then 2 ^ (7 * Z.of_nat (length bs)) else 0).

Definition logged (e : list derr) (s : dstate) : dstate := s <| errs := errs s ++ e |>.

(** What reading [bs] reports: an error after the eleventh byte. *)
Definition leb_errs (msg : string) (s : dstate) (k : nat) (bs : list Z) : list derr :=
  if ((k <=? 10) && (10 <? k + length bs))%nat
  then [mk_derr msg (Some (db_name (db s), s32 (db_buf (db s) + 11 - Z.of_nat k))) 0]
  else [].

Lemma is_leb_cons b bs : is_leb (b :: bs) = true →
  (bs = [] ∧ 0 ≤ b < 128) ∨ (bs ≠ [] ∧ 128 ≤ b < 256 ∧ is_leb bs = true).
Proof.
  destruct bs as [|b' bs]; cbn [is_leb].
  - intros H. left. split; [done|lia].
  - intros [? ?]%andb_true_iff. right. split; [done|]. split; [lia|done].
Qed.

Lemma uleb_val_nonneg bs : 0 ≤ uleb_val bs.
Proof. induction bs; cbn [uleb_val]; lia. Qed.

Lemma land_127 b : Z.land b 0x7f = b mod 128.
Proof. change 0x7f with (Z.ones 7). by rewrite Z.land_ones. Qed.

Lemma land_128 b : 0 ≤ b < 256 → (Z.land b 0x80 =? 0) = (b <? 128).
Proof.
  intros Hb. assert (forallb (λ c, Bool.eqb (Z.land c 128 =? 0) (c <? 128)) (seqZ 0 256) = true) as H
    by (vm_compute; reflexivity).
  rewrite forallb_forall in H. apply eqb_prop, H, list_elem_of_In, elem_of_seqZ. lia.
Qed.

(** One group, at a shift below 64, extends the value read so far. *)
Lemma leb_group ret b v shift : 0 ≤ shift < 64 → 0 ≤ ret < 2^shift →
  Z.lor ret (u64 (Z.shiftl (Z.land b 0x7f) shift)) = (ret + 2^shift * (b mod 128)) mod 2^64 ∧
  0 ≤ (ret + 2^shift * (b mod 128)) mod 2^64 < 2 ^ (Z.min (shift + 7) 64) ∧
  ((ret + 2^shift * (b mod 128)) mod 2^64 + 2^(shift + 7) * v) mod 2^64
    = (ret + 2^shift * (b mod 128 + 128 * v)) mod 2^64.
Proof.
  intros Hs Hr. rewrite land_127, Z.shiftl_mul_pow2, (Z.mul_comm _ (2^shift)) by lia. unfold u64.
  assert (2^64 = 2^shift * 2^(64 - shift)) as H64 by (rewrite <-Z.pow_add_r by lia; f_equal; lia).
  assert ((2^shift * (b mod 128)) mod 2^64 = 2^shift * ((b mod 128) mod 2^(64-shift))) as Hm.
  { rewrite H64. apply Z.mul_mod_distr_l; apply Z.pow_nonzero; lia. }
  assert ((ret + 2^shift * (b mod 128)) mod 2^64 = ret + 2^shift * ((b mod 128) mod 2^(64-shift))) as He.
  { rewrite <-Z.add_mod_idemp_r by lia. rewrite Hm. apply Z.mod_small.
    pose proof (Z.mod_pos_bound (b mod 128) (2^(64-shift)) ltac:(apply Z.pow_pos_nonneg; lia)). nia. }
  split; [|split].
  - rewrite Hm, He, Z.lor_comm. rewrite (lor_disj shift); [lia|lia| |done].
    rewrite Z.mul_comm. apply Z.mod_mul, Z.pow_nonzero; lia.
  - rewrite He. destruct (Z.min_spec (shift + 7) 64) as [[? ->]|[? ->]].
    + rewrite (Z.pow_add_r 2 shift 7) by lia.
      pose proof (Z.mod_le (b mod 128) (2^(64-shift)) ltac:(lia) ltac:(apply Z.pow_pos_nonneg; lia)).
      pose proof (Z.mod_pos_bound (b mod 128) (2^(64-shift)) ltac:(apply Z.pow_pos_nonneg; lia)).
      change (2^7) with 128. nia.
    + pose proof (Z.mod_pos_bound (b mod 128) (2^(64-shift)) ltac:(apply Z.pow_pos_nonneg; lia)). nia.
  - rewrite Z.add_mod_idemp_l by lia. f_equal. rewrite Z.pow_add_r by lia. change (2^7) with 128. lia.
Qed.

Lemma moved_moved a b s : moved a (moved b s) = moved (b + a) s.
Proof. unfold moved, set_field. destruct s as [[] ? ? ?]; cbn. do 2 f_equal; lia. Qed.

Lemma logged_moved e n s : logged e (moved n s) = moved n (logged e s).
Proof. done. Qed.

Lemma logged_logged e e' s : logged e' (logged e s) = logged (e ++ e') s.
Proof. unfold logged, set_field. destruct s; cbn. by rewrite app_assoc. Qed.

Lemma logged_nil s : logged [] s = s.
Proof. unfold logged, set_field. destruct s; cbn. by rewrite app_nil_r. Qed.

Lemma wf_moved n s : wf_buf (db s) → 0 ≤ n ≤ db_left (db s) → wf_buf (db (moved n s)).
Proof. intros Hs Hn. eapply dstep_wf; [done|]. by apply moved_step. Qed.

(** One round of the loop: the byte read, the value and the error of the
    eleventh round. *)
Lemma leb128_round fuel msg b bs k ret s rest :
  wf_buf (db s) → 0 ≤ b < 256 → unread s = b :: bs ++ rest → 7 * (Z.of_nat k + 1) < 2^32 →
  leb128_loop (S fuel) msg ret (7 * Z.of_nat k) (10 <? k)%nat s =
    (let ret' := if (k <? 10)%nat
                 then Z.lor ret (u64 (Z.shiftl (Z.land b 0x7f) (7 * Z.of_nat k))) else ret in
     if 128 <=? b
     then leb128_loop fuel msg ret' (7 * Z.of_nat (S k)) (10 <? S k)%nat
     else mret (Some (ret', 7 * Z.of_nat (S k), b)))
    (moved 1 (logged (leb_errs msg s k [b]) s)).
Proof.
  intros Hs Hb Hu Hk. pose proof (unread_cons_left s (bs ++ rest) [b] Hs Hu) as Hl. cbn in Hl.
  cbn [leb128_loop]. rewrite bind_ok with (a := db s) (s1 := s) by done.
  erewrite bind_ok by (apply advance_ok; lia). cbn [negb].
  erewrite bind_ok by (by eapply byte0).
  replace (7 * Z.of_nat k <? 64) with (k <? 10)%nat by lia.
  assert (u32 (7 * Z.of_nat k + 7) = 7 * Z.of_nat (S k)) as Hsh by (unfold u32; lia).
  rewrite land_128 by done. replace (negb (b <? 128)) with (128 <=? b) by lia.
  unfold leb_errs. cbn [length]. destruct (Nat.ltb_spec k 10) as [Hlt|Hge].
  - erewrite bind_ok by done. cbv beta iota zeta. rewrite Hsh.
    replace ((k <=? 10) && (10 <? k + 1))%nat with false by lia. rewrite logged_nil.
    by replace (10 <? k)%nat with (10 <? S k)%nat by lia.
  - replace ((k <=? 10) && (10 <? k + 1))%nat with (negb (10 <? k)%nat) by lia.
    replace (10 <? S k)%nat with true by lia.
    destruct (Nat.ltb_spec 10 k); cbn [negb].
    + erewrite bind_ok by done. cbv beta iota zeta. by rewrite Hsh, logged_nil.
    + erewrite bind_ok by (erewrite bind_ok by done; done). cbv beta iota zeta. rewrite Hsh.
      rewrite <-logged_moved. cbn [moved logged db db_buf db_name set_field].
      replace (db_buf (db s) + 11 - Z.of_nat k) with (db_buf (db s) + 1) by lia. done.
Qed.

Lemma leb_errs_split msg s k b bs : bs ≠ [] →
  leb_errs msg s k [b] ++ leb_errs msg (moved 1 (logged (leb_errs msg s k [b]) s)) (S k) bs
    = leb_errs msg s k (b :: bs).
Proof.
  intros Hne. destruct bs as [|b' bs]; [done|]. unfold leb_errs. cbn [length moved logged db db_buf db_name set_field].
  destruct (decide (k < 10)%nat); [|destruct (decide (k = 10)%nat)].
  - replace ((k <=? 10) && (10 <? k + 1))%nat with false by lia.
    replace ((S k <=? 10) && (10 <? S k + S (length bs)))%nat
      with ((k <=? 10) && (10 <? k + S (S (length bs))))%nat by lia.
    destruct (_ && _); [|done]. cbn. do 5 f_equal. lia.
  - replace ((S k <=? 10) && (10 <? S k + S (length bs)))%nat with false by lia.
    replace ((k <=? 10) && (10 <? k + 1))%nat with true by lia.
    by replace ((k <=? 10) && (10 <? k + S (S (length bs))))%nat with true by lia.
  - replace ((S k <=? 10) && (10 <? S k + S (length bs)))%nat with false by lia.
    replace ((k <=? 10) && (10 <? k + 1))%nat with false by lia.
    by replace ((k <=? 10) && (10 <? k + S (S (length bs))))%nat with false by lia.
Qed.

Lemma pow64_dvd_mod r k v : 64 ≤ k → 0 ≤ r < 2^64 → (r + 2^k * v) mod 2^64 = r.
Proof.
  intros Hk Hr. replace (2^k) with (2^64 * 2^(k-64)) by (rewrite <-Z.pow_add_r by lia; f_equal; lia).
  rewrite <-Z.mul_assoc, (Z.mul_comm (2^64)), Z.mod_add by lia. by apply Z.mod_small.
Qed.

Lemma leb_step_value ret b k :
  0 ≤ ret < 2 ^ Z.min (7 * Z.of_nat k) 64 →
  let ret' := if (k <? 10)%nat
              then Z.lor ret (u64 (Z.shiftl (Z.land b 0x7f) (7 * Z.of_nat k))) else ret in
  0 ≤ ret' < 2 ^ Z.min (7 * Z.of_nat (S k)) 64 ∧
  ∀ v, (ret' + 2 ^ (7 * Z.of_nat (S k)) * v) mod 2^64
         = (ret + 2 ^ (7 * Z.of_nat k) * (b mod 128 + 128 * v)) mod 2^64.
Proof.
  intros Hr. cbv zeta. destruct (Nat.ltb_spec k 10) as [Hlt|Hge].
  - replace (Z.min (7 * Z.of_nat k) 64) with (7 * Z.of_nat k) in Hr by lia.
    replace (7 * Z.of_nat (S k)) with (7 * Z.of_nat k + 7) by lia.
    split; [|intros v].
    + by destruct (leb_group ret b 0 (7 * Z.of_nat k)) as (-> & ? & _); [lia| |].
    + by destruct (leb_group ret b v (7 * Z.of_nat k)) as (-> & _ & ?); [lia| |].
  - replace (Z.min (7 * Z.of_nat k) 64) with 64 in Hr by lia.
    replace (Z.min (7 * Z.of_nat (S k)) 64) with 64 by lia. split; [done|]. intros v.
    by rewrite !pow64_dvd_mod by lia.
Qed.

Lemma leb128_loop_run msg bs : ∀ fuel k ret s rest,
  wf_buf (db s) → is_leb bs = true → unread s = bs ++ rest →
  (length bs ≤ fuel)%nat → 7 * (Z.of_nat k + Z.of_nat (length bs)) < 2^32 →
  0 ≤ ret < 2 ^ Z.min (7 * Z.of_nat k) 64 →
  leb128_loop fuel msg ret (7 * Z.of_nat k) (10 <? k)%nat s =
    Ok (Some ((ret + 2 ^ (7 * Z.of_nat k) * uleb_val bs) mod 2^64,
              7 * Z.of_nat (k + length bs), default 0 (last bs)),
        moved (Z.of_nat (length bs)) (logged (leb_errs msg s k bs) s)).
Proof.
  induction bs as [|b bs IH]; [done|]. intros fuel k ret s rest Hs Hleb Hu Hf Hk Hr.
  destruct fuel as [|fuel]; [cbn in Hf; lia|]. cbn [length] in *.
  pose proof (unread_cons_left s (bs ++ rest) [b] Hs Hu) as Hl. cbn in Hl.
  apply is_leb_cons in Hleb as Hc. assert (0 ≤ b < 256) as Hb256 by (destruct Hc as [[_ ?]|(_ & ? & _)]; lia).
  erewrite leb128_round; [|done|done|exact Hu|lia].
  destruct (leb_step_value ret b k Hr) as [Hr' Hv]. revert Hr' Hv.
  generalize (if (k <? 10)%nat then Z.lor ret (u64 (Z.shiftl (Z.land b 0x7f) (7 * Z.of_nat k))) else ret) as ret'.
  intros ret' Hr' Hv.
  cbv zeta. destruct Hc as [(-> & Hb)|(Hne & Hb & Hleb')].
  - replace (128 <=? b) with false by lia. specialize (Hv 0). rewrite Z.mul_0_r, Z.add_0_r in Hv.
    cbn [uleb_val]. rewrite <-Hv, Z.mod_small; [|pose proof (Z.pow_le_mono_r 2 (Z.min (7 * Z.of_nat (S k)) 64) 64); lia].
    unfold mret, M_ret. cbn [length]. by replace (k + 1)%nat with (S k) by lia.
  - replace (128 <=? b) with true by lia.
    erewrite IH with (rest := rest); [|apply wf_moved; [done|cbn; lia]|done| |lia|lia|done].
    + rewrite Hv, <-(leb_errs_split msg s k b bs Hne). do 2 f_equal.
      * do 3 f_equal; [lia|]. by destruct bs.
      * rewrite (logged_moved _ 1), moved_moved, logged_logged. f_equal. lia.
    + rewrite unread_moved; [|apply Hs|cbn; lia]. cbn [db logged set_field]. unfold unread in *. cbn [db logged set_field]. by rewrite Hu.
Qed.

Lemma read_uleb128_run s bs rest :
  wf_buf (db s) → is_leb bs = true → unread s = bs ++ rest → 7 * Z.of_nat (length bs) < 2^32 →
  read_uleb128 s =
    Ok (uleb_val bs mod 2^64,
        moved (Z.of_nat (length bs)) (logged (leb_errs "LEB128 overflows uint64_t" s 0 bs) s)).
Proof.
  intros Hs Hl Hu Hn. pose proof (unread_cons_left _ _ _ Hs Hu). pose proof Hs as (_ & ? & ? & ?).
  unfold read_uleb128. rewrite bind_ok with (a := db s) (s1 := s) by done.
  erewrite bind_ok; [|apply (leb128_loop_run _ bs _ 0 0 s rest); try done; unfold leb128_fuel; lia].
  cbv beta iota. by rewrite Z.mul_0_r, Z.pow_0_r, Z.mul_1_l, Z.add_0_l.
Qed.

Lemma uleb_val_range bs : 0 ≤ uleb_val bs < 2 ^ (7 * Z.of_nat (length bs)).
Proof.
  induction bs as [|b bs IH]; cbn [uleb_val length]; [done|].
  replace (7 * Z.of_nat (S (length bs))) with (7 * Z.of_nat (length bs) + 7) by lia.
  rewrite Z.pow_add_r by lia. change (2^7) with 128. lia.
Qed.

Lemma leb_last_byte bs : is_leb bs = true → 0 ≤ default 0 (last bs) < 128.
Proof.
  induction bs as [|b bs IH]; [done|]. intros [(-> & ?)|(Hne & ? & ?)]%is_leb_cons; [done|].
  destruct bs; [done|]. apply IH. done.
Qed.

Lemma land_64 b : 0 ≤ b → negb (Z.land b 0x40 =? 0) = has_bit b 6.
Proof. intros. unfold has_bit. by rewrite Z.land_comm. Qed.

Lemma ones_shifted sh : 0 ≤ sh < 64 → u64 (Z.shiftl (u64 (-1)) sh) = 2^64 - 2^sh.
Proof.
  intros Hsh. unfold u64. rewrite Z.shiftl_mul_pow2 by lia.
  replace ((-1) mod 2^64) with (2^64 - 1) by done.
  pose proof (Z.pow_pos_nonneg 2 sh). pose proof (Z.pow_lt_mono_r 2 sh 64).
  replace ((2^64 - 1) * 2^sh) with (2^64 - 2^sh + (2^sh - 1) * 2^64) by lia.
  rewrite Z.mod_add by lia. apply Z.mod_small. lia.
Qed.

Lemma s64_wrap z : s64 (z mod 2^64) = s64 z.
Proof. unfold s64. by rewrite Z.mod_mod. Qed.

(** Sign extension gives the signed value, whatever the length. *)
Lemma sign_extend bs : is_leb bs = true →
  let val := uleb_val bs mod 2^64 in
  let shift := 7 * Z.of_nat (length bs) in
  s64 (if negb (Z.land (default 0 (last bs)) 0x40 =? 0) && (shift <? 64)
       then Z.lor val (u64 (Z.shiftl (u64 (-1)) shift)) else val) = s64 (sleb_val bs).
Proof.
  intros Hl. cbv zeta. pose proof (leb_last_byte bs Hl). pose proof (uleb_val_range bs) as Hv.
  rewrite land_64 by lia. unfold sleb_val. destruct (has_bit (default 0 (last bs)) 6); cbn [andb].
  - destruct (Z.ltb_spec (7 * Z.of_nat (length bs)) 64) as [Hlt|Hge].
    + rewrite ones_shifted by lia. pose proof (Z.pow_lt_mono_r 2 (7 * Z.of_nat (length bs)) 64 ltac:(lia) ltac:(lia) Hlt).
      rewrite (Z.mod_small (uleb_val bs)) by lia. rewrite Z.lor_comm, (lor_disj (7 * Z.of_nat (length bs))); [|lia| |done].
      * rewrite <-(s64_wrap (_ + _)), <-(s64_wrap (_ - _)). f_equal.
        rewrite <-(Z.mod_add (uleb_val bs - _) 1) by lia. f_equal. lia.
      * replace (2^64) with (2^(64 - 7 * Z.of_nat (length bs)) * 2^(7 * Z.of_nat (length bs)))
          by (rewrite <-Z.pow_add_r by lia; f_equal; lia).
        rewrite <-(Z.mul_1_l (2^(7 * Z.of_nat (length bs)))) at 2. rewrite <-Z.mul_sub_distr_r.
        apply Z.mod_mul, Z.pow_nonzero; lia.
    + rewrite s64_wrap, <-(s64_wrap (_ - _)), <-(s64_wrap (uleb_val bs)). f_equal.
      replace (uleb_val bs - 2 ^ (7 * Z.of_nat (length bs)))
        with (uleb_val bs + (- 2 ^ (7 * Z.of_nat (length bs) - 64)) * 2^64).
      * by rewrite Z.mod_add.
      * replace (2 ^ (7 * Z.of_nat (length bs))) with (2 ^ (7 * Z.of_nat (length bs) - 64) * 2^64)
          by (rewrite <-Z.pow_add_r by lia; f_equal; lia). lia.
  - by rewrite s64_wrap, Z.sub_0_r.
Qed.

Lemma read_sleb128_run s bs rest :
  wf_buf (db s) → is_leb bs = true → unread s = bs ++ rest → 7 * Z.of_nat (length bs) < 2^32 →
  read_sleb128 s =
    Ok (s64 (sleb_val bs),
        moved (Z.of_nat (length bs)) (logged (leb_errs "signed LEB128 overflows uint64_t" s 0 bs) s)).
Proof.
  intros Hs Hl Hu Hn. pose proof (unread_cons_left _ _ _ Hs Hu). pose proof Hs as (_ & ? & ? & ?).
  unfold read_sleb128. rewrite bind_ok with (a := db s) (s1 := s) by done.
  erewrite bind_ok; [|apply (leb128_loop_run _ bs _ 0 0 s rest); try done; unfold leb128_fuel; lia].
  cbv beta iota zeta. rewrite Z.mul_0_r, Z.pow_0_r, Z.mul_1_l, Z.add_0_l.
  change (0 + length bs)%nat with (length bs). by rewrite (sign_extend bs Hl).
Qed.

(** The encoders of the DWARF standard (appendix C). *)
Fixpoint uleb128_enc (fuel : nat) (z : Z) : list Z :=
  match fuel with
  | O => [z mod 128]
  | S fuel => if z <? 128 then [z] else (z mod 128 + 128) :: uleb128_enc fuel (z / 128)
  end.

Fixpoint sleb128_enc (fuel : nat) (z : Z) : list Z :=
  match fuel with
  | O => [z mod 128]
  | S fuel =>
      let b := z mod 128 in
      let z' := z / 128 in
      if ((z' =? 0) && (b <? 64)) || ((z' =? -1) && (64 <=? b)) then [b]
      else (b + 128) :: sleb128_enc fuel z'
  end.

Lemma is_leb_more b bs : 0 ≤ b < 128 → is_leb bs = true → is_leb (b + 128 :: bs) = true.
Proof. intros Hb Hl. destruct bs; [done|]. cbn [is_leb] in *. rewrite Hl. lia. Qed.

Lemma uleb128_enc_leb fuel : ∀ z, 0 ≤ z → is_leb (uleb128_enc fuel z) = true.
Proof.
  induction fuel as [|fuel IH]; intros z Hz; cbn [uleb128_enc]; [cbn; lia|].
  destruct (Z.ltb_spec z 128); [cbn; lia|]. apply is_leb_more; [lia|]. apply IH. lia.
Qed.

Lemma uleb128_enc_val fuel : ∀ z, 0 ≤ z < 2 ^ (7 * Z.of_nat (S fuel)) → uleb_val (uleb128_enc fuel z) = z.
Proof.
  induction fuel as [|fuel IH]; intros z Hz; cbn [uleb128_enc].
  - cbn in *. lia.
  - destruct (Z.ltb_spec z 128); cbn [uleb_val]; [lia|].
    replace (7 * Z.of_nat (S (S fuel))) with (7 * Z.of_nat (S fuel) + 7) in Hz by lia.
    rewrite Z.pow_add_r in Hz by lia. change (2^7) with 128 in Hz. rewrite IH by lia. lia.
Qed.

Lemma uleb128_enc_length fuel : ∀ z, (length (uleb128_enc fuel z) ≤ S fuel)%nat.
Proof. induction fuel as [|fuel IH]; intros z; cbn [uleb128_enc]; [done|]. destruct (z <? 128); cbn; [lia|]. specialize (IH (z / 128)). lia. Qed.

Lemma sleb128_enc_leb fuel : ∀ z, is_leb (sleb128_enc fuel z) = true.
Proof.
  induction fuel as [|fuel IH]; intros z; cbn [sleb128_enc]; cbv zeta; [cbn; lia|].
  destruct (_ || _); [cbn; lia|]. apply is_leb_more; [lia|]. apply IH.
Qed.

Lemma sleb128_enc_length fuel : ∀ z, (length (sleb128_enc fuel z) ≤ S fuel)%nat.
Proof. induction fuel as [|fuel IH]; intros z; cbn [sleb128_enc]; cbv zeta; [done|]. destruct (_ || _); cbn; [lia|]. specialize (IH (z / 128)). lia. Qed.

Lemma bit6_spec b : 0 ≤ b < 128 → has_bit b 6 = (64 <=? b).
Proof.
  intros Hb. assert (forallb (λ c, Bool.eqb (has_bit c 6) (64 <=? c)) (seqZ 0 128) = true) as H
    by (vm_compute; reflexivity).
  rewrite forallb_forall in H. apply eqb_prop, H, list_elem_of_In, elem_of_seqZ. lia.
Qed.

Lemma sleb_val_one b : 0 ≤ b < 128 → sleb_val [b] = if b <? 64 then b else b - 128.
Proof. intros Hb. unfold sleb_val. cbn [uleb_val last default length]. rewrite bit6_spec by done. cbn. destruct (Z.ltb_spec b 64); [replace (64 <=? b) with false by lia|replace (64 <=? b) with true by lia]; lia. Qed.

Lemma sleb_val_more b bs : is_leb bs = true → sleb_val (b + 128 :: bs) = b mod 128 + 128 * sleb_val bs.
Proof.
  intros Hl. destruct bs as [|c bs]; [done|]. unfold sleb_val. cbn [uleb_val length].
  change (last (b + 128 :: c :: bs)) with (last (c :: bs)).
  replace (7 * Z.of_nat (S (S (length bs)))) with (7 * Z.of_nat (S (length bs)) + 7) by lia.
  rewrite Z.pow_add_r by lia. change (2^7) with 128.
  destruct (has_bit _ 6); lia.
Qed.

Lemma sleb128_enc_val fuel : ∀ z, - 2 ^ (7 * Z.of_nat fuel + 6) ≤ z < 2 ^ (7 * Z.of_nat fuel + 6) →
  sleb_val (sleb128_enc fuel z) = z.
Proof.
  induction fuel as [|fuel IH]; intros z Hz; cbn [sleb128_enc]; cbv zeta.
  - rewrite sleb_val_one by lia. cbn in Hz. destruct (Z.ltb_spec (z mod 128) 64); lia.
  - destruct (_ || _) eqn:E.
    + rewrite sleb_val_one by lia. destruct (Z.ltb_spec (z mod 128) 64); lia.
    + rewrite sleb_val_more by apply sleb128_enc_leb.
      replace (7 * Z.of_nat (S fuel) + 6) with (7 * Z.of_nat fuel + 6 + 7) in Hz by lia.
      rewrite (Z.pow_add_r 2 (7 * Z.of_nat fuel + 6) 7) in Hz by lia. change (2^7) with 128 in Hz.
      rewrite IH by lia. lia.
Qed.

Lemma leb_errs_short msg s bs : (length bs ≤ 10)%nat → leb_errs msg s 0 bs = [].
Proof. intros. unfold leb_errs. by replace ((0 <=? 10) && (10 <? 0 + length bs))%nat with false by lia. Qed.

(** *** Any buffer

    Whatever the bytes, the LEB128 readers return: at the end of the encoding,
    or at the end of the buffer. *)
Definition leb_result (r : option (Z * Z * Z)) : Prop :=
  match r with
  | None => True
  | Some (v, sh, b) => in_width 64 v ∧ 0 ≤ sh < 2^32 ∧ 0 ≤ b < 256
  end.

Lemma lor_u64 a b : in_width 64 a → in_width 64 b → in_width 64 (Z.lor a b).
Proof.
  intros Ha Hb. assert (0 ≤ Z.lor a b) by (apply Z.lor_nonneg; split; [apply Ha|apply Hb]).
  split; [done|]. destruct (Z.eq_dec (Z.lor a b) 0) as [->|]; [done|].
  apply Z.log2_lt_pow2; [lia|]. rewrite Z.log2_lor by (apply Ha || apply Hb).
  destruct (Z.eq_dec a 0) as [->|]; destruct (Z.eq_dec b 0) as [->|]; unfold in_width in *;
    try (pose proof (Z.log2_lt_pow2 a 64)); try (pose proof (Z.log2_lt_pow2 b 64)); cbn [Z.log2]; lia.
Qed.

Lemma reads_byte_at s p : wf_buf (db s) → 0 ≤ p < Z.of_nat (length (db_start (db s))) →
  ∃ b, byte_at p s = Ok (b, s) ∧ 0 ≤ b < 256.
Proof.
  intros (Hb & _) Hp. destruct (lookup_lt_is_Some_2 (db_start (db s)) (Z.to_nat p)) as [b E]; [lia|].
  exists b. split; [|exact (proj1 (Forall_lookup _ _) Hb _ _ E)].
  unfold byte_at, gets, mbind, M_bind, array_get. replace (p <? 0) with false by lia. by rewrite E.
Qed.

Lemma reads_leb128_loop msg fuel :
  ∀ ret shift ov s, in_width 64 ret → 0 ≤ shift < 2^32 → wf_buf (db s) →
  (Z.to_nat (db_left (db s)) < fuel)%nat →
  ∃ r s', leb128_loop fuel msg ret shift ov s = Ok (r, s') ∧ leb_result r ∧ dstep s s' ∧
    (is_Some r ∨ 0 < db_left (db s) → db_left (db s') < db_left (db s)).
Proof.
  induction fuel as [|fuel IH]; intros ret shift ov s Hr Hsh Hs Hf; [lia|].
  pose proof Hs as (_ & Hb & Hl & Hlen). cbn [leb128_loop].
  rewrite bind_ok with (a := db s) (s1 := s) by done.
  destruct (Z_lt_le_dec (db_left (db s)) 1) as [Hlt|Hge].
  { erewrite bind_ok by (by apply advance_underflow). eexists _, _. split; [done|]. split; [done|].
    split; [by apply report_underflow_step|]. intros [[]|]; [done|lia]. }
  erewrite bind_ok by (by apply advance_ok). cbn [negb].
  pose proof (moved_step 1 s ltac:(lia)) as S1. pose proof (dstep_wf _ _ Hs S1) as Hs1.
  destruct (reads_byte_at (moved 1 s) (db_buf (db s)) Hs1) as (b & E & Hb8); [cbn; lia|].
  rewrite (bind_ok _ _ _ _ _ E).
  assert (∃ ret' ov' s2,
    (if shift <? 64 then mret (Z.lor ret (u64 (Z.shiftl (Z.land b 0x7f) shift)), ov)
     else if negb ov then dwarf_buf_error msg 0;; mret (ret, true) else mret (ret, ov)) (moved 1 s)
      = Ok ((ret', ov'), s2) ∧ in_width 64 ret' ∧ dstep (moved 1 s) s2 ∧
    db_left (db s2) = db_left (db s) - 1) as (ret' & ov' & s2 & E2 & Hr' & S2 & Hl2).
  { destruct (shift <? 64); [|destruct ov]; cbn [negb].
    - eexists _, _, _. split; [done|]. split; [apply lor_u64; [done|apply u64_range]|].
      split; [|done]. apply dstep_refl. cbn. lia.
    - eexists _, _, _. split; [done|]. split; [done|]. split; [|done]. apply dstep_refl. cbn. lia.
    - destruct (reads_error msg 0 (moved 1 s) Hs1) as (? & s2 & E2 & _ & S2).
      erewrite bind_ok by exact E2. eexists _, _, _. split; [done|]. split; [done|]. split; [done|].
      unfold dwarf_buf_error, modify in E2. by inversion E2. }
  rewrite (bind_ok _ _ _ _ _ E2). cbv beta iota zeta. pose proof (dstep_trans _ _ _ S1 S2) as S12.
  destruct (negb (Z.land b 0x80 =? 0)).
  - destruct (IH ret' (u32 (shift + 7)) ov' s2) as (r & s3 & E3 & Hr3 & S3 & _);
      [done|apply u32_range|by eapply dstep_wf|lia|].
    exists r, s3. split; [done|]. split; [done|]. split; [by eapply dstep_trans|]. intros _.
    pose proof (st_end _ _ S3). pose proof (st_mono _ _ S3). lia.
  - eexists _, _. split; [done|]. split; [|split; [done|intros _; lia]].
    split; [done|]. split; [apply u32_range|done].
Qed.

Lemma leb128_fuel_enough s : wf_buf (db s) → (Z.to_nat (db_left (db s)) < leb128_fuel (db s))%nat.
Proof. intros (_ & ? & ? & ?). unfold leb128_fuel. lia. Qed.

(** A number other than 0 takes at least a byte. *)
Lemma read_uleb128_progress s : wf_buf (db s) →
  ∃ v s', read_uleb128 s = Ok (v, s') ∧ in_width 64 v ∧ dstep s s' ∧
    (v ≠ 0 → db_left (db s') < db_left (db s)).
Proof.
  intros Hs. unfold read_uleb128. rewrite bind_ok with (a := db s) (s1 := s) by done.
  destruct (reads_leb128_loop "LEB128 overflows uint64_t" (leb128_fuel (db s)) 0 0 false s)
    as (r & s' & E & Hr & S & HP); [done..|by apply leb128_fuel_enough|].
  rewrite (bind_ok _ _ _ _ _ E). destruct r as [[[v sh] b]|]; eexists _, _; (split; [done|]).
  - split; [apply Hr|]. split; [done|]. intros _. apply HP. by left.
  - by split.
Qed.

(** Where a byte is left, one is taken. *)
Lemma read_uleb128_byte s v s' : wf_buf (db s) → 0 < db_left (db s) → read_uleb128 s = Ok (v, s') →
  db_left (db s') < db_left (db s).
Proof.
  intros Hs Hl E. unfold read_uleb128 in E. rewrite bind_ok with (a := db s) (s1 := s) in E by done.
  destruct (reads_leb128_loop "LEB128 overflows uint64_t" (leb128_fuel (db s)) 0 0 false s)
    as (r & s1 & E1 & _ & _ & HP); [done..|by apply leb128_fuel_enough|].
  rewrite (bind_ok _ _ _ _ _ E1) in E. destruct r as [[[? ?] ?]|]; injection E as _ <-; apply HP; by right.
Qed.

Lemma reads_uleb128 : reads (in_width 64) read_uleb128.
Proof. intros s Hs. destruct (read_uleb128_progress s Hs) as (v & s' & ? & ? & ? & _). eauto. Qed.

Lemma reads_sleb128 : reads (λ z, -2^63 ≤ z < 2^63) read_sleb128.
Proof.
  intros s Hs. unfold read_sleb128. rewrite bind_ok with (a := db s) (s1 := s) by done.
  destruct (reads_leb128_loop "signed LEB128 overflows uint64_t" (leb128_fuel (db s)) 0 0 false s)
    as (r & s' & E & Hr & S & _); [done..|by apply leb128_fuel_enough|].
  rewrite (bind_ok _ _ _ _ _ E). destruct r as [[[v sh] b]|]; eexists _, _; (split; [done|]); (split; [|done]).
  - apply s64_range.
  - done.
Qed.

Create HintDb dwarf_reads discriminated.
#[export] Hint Resolve reads_byte reads_sbyte reads_uint16 reads_uint24 reads_uint32 reads_uint64
  reads_offset reads_address reads_uleb128 reads_sleb128 reads_string reads_initial_length : dwarf_reads.

(** ** Locality

    What a reader returns and where it stops depend on the buffer only. *)
Definition local {A} (m : D A) : Prop :=
  ∀ s1 s2 a s1', db s1 = db s2 → m s1 = Ok (a, s1') →
    ∃ s2', m s2 = Ok (a, s2') ∧ db s2' = db s1'.

Lemma local_ret {A} (a : A) : local (mret a).
Proof. intros s1 s2 b s1' Hd E. apply mret_inv in E. simplify_eq. by exists s2. Qed.

Lemma local_bind {A B} (m : D A) (k : A → D B) : local m → (∀ a, local (k a)) → local (m ≫= k).
Proof.
  intros Hm Hk s1 s2 b s1' Hd E. apply bind_inv in E as (a & t1 & E1 & E2).
  destruct (Hm _ _ _ _ Hd E1) as (t2 & E1' & Ht). destruct (Hk a _ _ _ _ (eq_sym Ht) E2) as (s2' & E2' & Hs).
  exists s2'. by rewrite (bind_ok _ _ _ _ _ E1').
Qed.

Lemma local_if {A} (c : bool) (m1 m2 : D A) : local m1 → local m2 → local (if c then m1 else m2).
Proof. by destruct c. Qed.

Lemma local_gets : local (gets db).
Proof. intros s1 s2 b s1' Hd [= <- <-]. exists s2. unfold gets. by rewrite Hd. Qed.

Lemma local_fail {A} f : local (A := A) (fail f).
Proof. by intros s1 s2 a s1' _ E. Qed.

Lemma local_error msg n : local (dwarf_buf_error msg n).
Proof. intros s1 s2 b s1' Hd [= <- <-]. eexists. split; [reflexivity|]. cbn. congruence. Qed.

Lemma local_callback msg n : local (error_callback msg n).
Proof. intros s1 s2 b s1' Hd [= <- <-]. eexists. split; [reflexivity|]. cbn. congruence. Qed.

Lemma local_modify_db (f : dwarf_buf → dwarf_buf) : local (modify (λ s, s <| db := f (db s) |>)).
Proof.
  intros s1 s2 b s1' Hd [= <- <-]. eexists. split; [reflexivity|]. cbn. by rewrite Hd.
Qed.

Create HintDb dwarf_local discriminated.
#[export] Hint Resolve local_ret local_bind local_if local_gets local_fail local_error local_callback
  : dwarf_local.

Lemma local_advance n : local (advance n).
Proof.
  unfold advance, require, when. apply local_bind.
  - apply local_bind; [apply local_gets|]. intros b. apply local_if; [apply local_ret|].
    apply local_bind; [|intros; apply local_ret]. apply local_if; [|apply local_ret].
    apply local_bind; [apply local_error|]. intros _. apply (local_modify_db (λ b, b <| db_reported_underflow := true |>)).
  - intros ok. apply local_if; [apply local_ret|].
    apply local_bind; [|intros; apply local_ret].
    apply (local_modify_db (λ b, (b <| db_buf := db_buf b + n |>) <| db_left := db_left b - n |>)).
Qed.

Lemma local_array_get {A} (l : list A) i : local (array_get l i).
Proof. unfold array_get. apply local_if; [apply local_fail|]. destruct (_ !! _); [apply local_ret|apply local_fail]. Qed.

Lemma local_byte_at p : local (byte_at p).
Proof. apply local_bind; [apply local_gets|]. intros b. apply local_array_get. Qed.

#[export] Hint Resolve local_advance local_byte_at : dwarf_local.

Lemma local_leb128_loop fuel msg : ∀ ret shift ov, local (leb128_loop fuel msg ret shift ov).
Proof.
  induction fuel as [|fuel IH]; intros ret shift ov; cbn [leb128_loop]; [apply local_fail|].
  apply local_bind; [apply local_gets|]. intros bf. apply local_bind; [apply local_advance|]. intros ok.
  apply local_if; [apply local_ret|]. apply local_bind; [apply local_byte_at|]. intros b.
  apply local_bind.
  - apply local_if; [apply local_ret|]. apply local_if; [|apply local_ret].
    apply local_bind; [apply local_error|]. intros _. apply local_ret.
  - intros [r o]. apply local_if; [apply IH|apply local_ret].
Qed.

Lemma local_uleb128 : local read_uleb128.
Proof.
  apply local_bind; [apply local_gets|]. intros bf. apply local_bind; [apply local_leb128_loop|].
  intros [[[v sh] b]|]; apply local_ret.
Qed.

Lemma local_sleb128 : local read_sleb128.
Proof.
  apply local_bind; [apply local_gets|]. intros bf. apply local_bind; [apply local_leb128_loop|].
  intros [[[v sh] b]|]; apply local_ret.
Qed.

Lemma local_byte : local read_byte.
Proof.
  apply local_bind; [apply local_gets|]. intros bf. apply local_bind; [apply local_advance|]. intros ok.
  apply local_if; [apply local_ret|apply local_byte_at].
Qed.
#[export] Hint Resolve local_uleb128 local_sleb128 local_byte : dwarf_local.

Lemma uleb128_at s z rest : wf_buf (db s) → 0 ≤ z < 2^64 → unread s = uleb128_enc 9 z ++ rest →
  read_uleb128 s = Ok (z, moved (Z.of_nat (length (uleb128_enc 9 z))) s).
Proof.
  intros Hs Hz Hu. pose proof (uleb128_enc_length 9 z).
  rewrite (read_uleb128_run s (uleb128_enc 9 z) rest Hs) by first [apply uleb128_enc_leb; lia | exact Hu | lia].
  rewrite leb_errs_short, logged_nil, uleb128_enc_val by (done || (cbn; lia)). by rewrite Z.mod_small.
Qed.

Lemma sleb128_at s z rest : wf_buf (db s) → -2^63 ≤ z < 2^63 → unread s = sleb128_enc 9 z ++ rest →
  read_sleb128 s = Ok (z, moved (Z.of_nat (length (sleb128_enc 9 z))) s).
Proof.
  intros Hs Hz Hu. pose proof (sleb128_enc_length 9 z).
  rewrite (read_sleb128_run s (sleb128_enc 9 z) rest Hs) by first [apply sleb128_enc_leb | exact Hu | lia].
  rewrite leb_errs_short, logged_nil, sleb128_enc_val by (done || (cbn; lia)).
  do 2 f_equal. unfold s64. destruct (Z.ltb_spec (z mod 2^64) (2^63)); lia.
Qed.

(** After the bytes [bs]. *)
Lemma unread_after s bs rest : wf_buf (db s) → unread s = bs ++ rest →
  wf_buf (db (moved (Z.of_nat (length bs)) s)) ∧ unread (moved (Z.of_nat (length bs)) s) = rest.
Proof.
  intros Hs Hu. pose proof (unread_cons_left _ _ _ Hs Hu). split; [apply wf_moved; [done|lia]|].
  rewrite unread_moved; [|apply Hs|lia]. by rewrite Hu, Nat2Z.id, drop_app_length.
Qed.

(** ** Reading what was encoded *)

Lemma u32_small z : 0 ≤ z < 2^32 → u32 z = z.
Proof. unfold u32. lia. Qed.

(** [reads_as bs v m]: where the bytes [bs] stand, [m] returns [v], consumes
    exactly them and changes nothing else. *)
Definition reads_as {A} (bs : list Z) (v : A) (m : D A) : Prop :=
  ∀ s rest, wf_buf (db s) → unread s = bs ++ rest → m s = Ok (v, moved (Z.of_nat (length bs)) s).

Lemma reads_as_bind {A B} bs1 bs2 (v : A) (w : B) m k :
  reads_as bs1 v m → reads_as bs2 w (k v) → reads_as (bs1 ++ bs2) w (m ≫= k).
Proof.
  intros H1 H2 s rest Hs Hu. rewrite <-app_assoc in Hu. rewrite (bind_ok _ _ _ _ _ (H1 s _ Hs Hu)).
  destruct (unread_after s bs1 _ Hs Hu) as [Hs1 Hu1]. rewrite (H2 _ _ Hs1 Hu1), moved_moved, length_app.
  do 3 f_equal. lia.
Qed.

Lemma moved_0 s : moved 0 s = s.
Proof. unfold moved, set_field. destruct s as [[] ? ? ?]; cbn. do 2 f_equal; lia. Qed.

Lemma reads_as_ret {A} (v : A) : reads_as [] v (mret v).
Proof. intros s rest Hs Hu. cbn. by rewrite moved_0. Qed.

Lemma reads_as_uleb z : 0 ≤ z < 2^64 → reads_as (uleb128_enc 9 z) z read_uleb128.
Proof. intros Hz s rest Hs Hu. by eapply uleb128_at. Qed.

Lemma reads_as_sleb z : -2^63 ≤ z < 2^63 → reads_as (sleb128_enc 9 z) z read_sleb128.
Proof. intros Hz s rest Hs Hu. by eapply sleb128_at. Qed.

Lemma reads_as_byte b : reads_as [b] b read_byte.
Proof. intros s rest Hs Hu. by eapply read_byte_at. Qed.

Lemma reads_as_zero : reads_as [0] 0 read_uleb128.
Proof. apply (reads_as_uleb 0). lia. Qed.

(** LEB128 round trip: wherever the standard's encoding of a 64-bit number
    stands in a section, the reader returns that number, consumes exactly the
    encoding and reports nothing; for unsigned and signed numbers alike. *)
Theorem leb128_roundtrip s z rest :
  wf_buf (db s) →
  (0 ≤ z < 2^64 → unread s = uleb128_enc 9 z ++ rest →
     read_uleb128 s = Ok (z, moved (Z.of_nat (length (uleb128_enc 9 z))) s)) ∧
  (-2^63 ≤ z < 2^63 → unread s = sleb128_enc 9 z ++ rest →
     read_sleb128 s = Ok (z, moved (Z.of_nat (length (sleb128_enc 9 z))) s)).
Proof. intros Hs. split; intros Hz Hu; [by eapply uleb128_at|by eapply sleb128_at]. Qed.

Definition witness_state (bs : list Z) : dstate :=
  mk_dstate (mk_dwarf_buf DEBUG_LINE bs 0 (Z.of_nat (length bs)) false false) [] [] 0.

Lemma leb128_roundtrip_witness :
  read_sleb128 (witness_state (sleb128_enc 9 (-123456) ++ [7]))
    = Ok (-123456, moved 3 (witness_state (sleb128_enc 9 (-123456) ++ [7]))).
Proof.
  refine (proj2 (leb128_roundtrip (witness_state (sleb128_enc 9 (-123456) ++ [7])) (-123456) [7] _) _ _).
  - repeat split; [|done..]. vm_compute. repeat (constructor; [split; [discriminate|reflexivity]|]). constructor.
  - done.
  - vm_compute. reflexivity.
Defined.

(** C37. Every reader of DWARF data is well typed and safe: from any buffer whose
    unread bytes are inside its section it returns (whatever the bytes, so in
    particular it ends) a value of its C type, the buffer ends where it ended
    before, and errors are only added. *)
Theorem readers_typed :
  reads (in_width 8) read_byte ∧ reads (λ z, -128 ≤ z < 128) read_sbyte ∧
  reads (in_width 16) read_uint16 ∧ reads (in_width 24) read_uint24 ∧
  reads (in_width 32) read_uint32 ∧ reads (in_width 64) read_uint64 ∧
  (∀ d, reads (in_width 64) (read_offset d)) ∧ (∀ n, reads (in_width 64) (read_address n)) ∧
  reads (in_width 64) read_uleb128 ∧ reads (λ z, -2^63 ≤ z < 2^63) read_sleb128 ∧
  reads (λ _, True) read_string ∧ reads (λ r, in_width 64 r.1) read_initial_length.
Proof. repeat split_and; eauto with dwarf_reads. Qed.
