(* ===== verification/DwarfAttr.v ===== *)
(** * DWARF attributes and abbreviations (src/dwarf/dwarf.c)

    The attribute forms ([read_attribute], [read_location_attr]), the string and
    address tables they may point into ([resolve_string],
    [resolve_addr_index]), and the abbreviation table of a compilation unit
    ([read_abbrevs], [lookup_abbrev]). *)

From S2P Require Import Prelude Util Bytes DwarfBuf.

(** ** Constants *)
Abbreviation DW_FORM_addr := 0x01%Z (only parsing).
Abbreviation DW_FORM_block2 := 0x03%Z (only parsing).
Abbreviation DW_FORM_block4 := 0x04%Z (only parsing).
Abbreviation DW_FORM_data2 := 0x05%Z (only parsing).
Abbreviation DW_FORM_data4 := 0x06%Z (only parsing).
Abbreviation DW_FORM_data8 := 0x07%Z (only parsing).
Abbreviation DW_FORM_string := 0x08%Z (only parsing).
Abbreviation DW_FORM_block := 0x09%Z (only parsing).
Abbreviation DW_FORM_block1 := 0x0a%Z (only parsing).
Abbreviation DW_FORM_data1 := 0x0b%Z (only parsing).
Abbreviation DW_FORM_flag := 0x0c%Z (only parsing).
Abbreviation DW_FORM_sdata := 0x0d%Z (only parsing).
Abbreviation DW_FORM_strp := 0x0e%Z (only parsing).
Abbreviation DW_FORM_udata := 0x0f%Z (only parsing).
Abbreviation DW_FORM_ref_addr := 0x10%Z (only parsing).
Abbreviation DW_FORM_ref1 := 0x11%Z (only parsing).
Abbreviation DW_FORM_ref2 := 0x12%Z (only parsing).
Abbreviation DW_FORM_ref4 := 0x13%Z (only parsing).
Abbreviation DW_FORM_ref8 := 0x14%Z (only parsing).
Abbreviation DW_FORM_ref_udata := 0x15%Z (only parsing).
Abbreviation DW_FORM_indirect := 0x16%Z (only parsing).
Abbreviation DW_FORM_sec_offset := 0x17%Z (only parsing).
Abbreviation DW_FORM_exprloc := 0x18%Z (only parsing).
Abbreviation DW_FORM_flag_present := 0x19%Z (only parsing).
Abbreviation DW_FORM_strx := 0x1a%Z (only parsing).
Abbreviation DW_FORM_addrx := 0x1b%Z (only parsing).
Abbreviation DW_FORM_ref_sup4 := 0x1c%Z (only parsing).
Abbreviation DW_FORM_strp_sup := 0x1d%Z (only parsing).
Abbreviation DW_FORM_data16 := 0x1e%Z (only parsing).
Abbreviation DW_FORM_line_strp := 0x1f%Z (only parsing).
Abbreviation DW_FORM_ref_sig8 := 0x20%Z (only parsing).
Abbreviation DW_FORM_implicit_const := 0x21%Z (only parsing).
Abbreviation DW_FORM_loclistx := 0x22%Z (only parsing).
Abbreviation DW_FORM_rnglistx := 0x23%Z (only parsing).
Abbreviation DW_FORM_ref_sup8 := 0x24%Z (only parsing).
Abbreviation DW_FORM_strx1 := 0x25%Z (only parsing).
Abbreviation DW_FORM_strx2 := 0x26%Z (only parsing).
Abbreviation DW_FORM_strx3 := 0x27%Z (only parsing).
Abbreviation DW_FORM_strx4 := 0x28%Z (only parsing).
Abbreviation DW_FORM_addrx1 := 0x29%Z (only parsing).
Abbreviation DW_FORM_addrx2 := 0x2a%Z (only parsing).
Abbreviation DW_FORM_addrx3 := 0x2b%Z (only parsing).
Abbreviation DW_FORM_addrx4 := 0x2c%Z (only parsing).
Abbreviation DW_FORM_GNU_addr_index := 0x1f01%Z (only parsing).
Abbreviation DW_FORM_GNU_str_index := 0x1f02%Z (only parsing).
Abbreviation DW_FORM_GNU_ref_alt := 0x1f20%Z (only parsing).
Abbreviation DW_FORM_GNU_strp_alt := 0x1f21%Z (only parsing).

Abbreviation DW_AT_invalid := 0x00%Z (only parsing).
Abbreviation DW_AT_location := 0x02%Z (only parsing).
Abbreviation DW_OP_addr := 0x3%Z (only parsing).

(** ** Values *)

(** A [const char *]: a string literal, a place in a section of the file (or of
    its [.gnu_debugaltlink] file), or a string built on the heap.  Pointers are
    compared for equality; NULL is [None] of [option cptr]. *)
Inductive cptr :=
  | Literal (s : string)
  | InSection (alt : bool) (sec : dwarf_section) (off : Z)
  | OnHeap (id : nat) (bytes : list Z).

#[export] Instance cptr_eq_dec : EqDecision cptr.
Proof. solve_decision. Defined.

Inductive attr_val_encoding :=
  | ATTR_VAL_NONE
  | ATTR_VAL_ADDRESS
  | ATTR_VAL_ADDRESS_INDEX
  | ATTR_VAL_UINT
  | ATTR_VAL_SINT
  | ATTR_VAL_STRING
  | ATTR_VAL_STRING_INDEX
  | ATTR_VAL_REF_UNIT
  | ATTR_VAL_REF_INFO
  | ATTR_VAL_REF_ALT_INFO
  | ATTR_VAL_REF_SECTION
  | ATTR_VAL_REF_TYPE
  | ATTR_VAL_RNGLISTS_INDEX
  | ATTR_VAL_BLOCK
  | ATTR_VAL_EXPR.

#[export] Instance attr_val_encoding_eq_dec : EqDecision attr_val_encoding.
Proof. solve_decision. Defined.

(** [struct attr_val], its union [u] as the member last written. *)
Inductive attr_u :=
  | U_uint (z : Z)
  | U_sint (z : Z)
  | U_string (p : option cptr).

Record attr_val := mk_attr_val { encoding : attr_val_encoding; u : attr_u }.

Record attr := mk_attr { at_name : Z; at_form : Z; at_val : Z }.

Record abbrev := mk_abbrev {
  ab_code : Z;
  ab_tag : Z;
  ab_has_children : Z;
  ab_attrs : list attr;
}.

(** [memset(val, 0, sizeof *val)]. *)
Definition val0 : attr_val := mk_attr_val ATTR_VAL_NONE (U_uint 0).
Definition val_uint (e : attr_val_encoding) (z : Z) : attr_val := mk_attr_val e (U_uint z).

(** ** Reading attribute values

    The readers return 1 or 0 and the value. *)
Definition read_location_attr (val : attr_val) (addrsize : Z) : D (bool * attr_val) :=
  buffer_length ← read_byte;
  if buffer_length =? 0 then mret (true, val_uint ATTR_VAL_NONE 0)
  else
    operation ← read_byte;
    let buffer_length := u8 (buffer_length - 1) in
    if negb (operation =? DW_OP_addr) || negb (buffer_length =? addrsize) then
      ok ← advance buffer_length;
      mret (ok, mk_attr_val ATTR_VAL_EXPR (u val))
    else
      a ← read_address addrsize;
      mret (true, val_uint ATTR_VAL_ADDRESS a).

(** [return advance (buf, read (buf))], with the encoding [ATTR_VAL_BLOCK]. *)
Definition read_block (read : D Z) : D (bool * attr_val) :=
  n ← read; ok ← advance n; mret (ok, mk_attr_val ATTR_VAL_BLOCK (u val0)).

Definition read_number (e : attr_val_encoding) (read : D Z) : D (bool * attr_val) :=
  z ← read; mret (true, val_uint e z).

(** [DW_FORM_string]: the string is in the section being read. *)
Definition read_inline_string : D (bool * attr_val) :=
  p ← read_string;
  sec ← gets (λ s, db_name (db s));
  match p with
  | None => mret (false, mk_attr_val ATTR_VAL_STRING (U_string None))
  | Some o => mret (true, mk_attr_val ATTR_VAL_STRING (U_string (Some (InSection false sec o))))
  end.

Section attributes.
Variable dwarf_sections : dwarf_sections.
Variable altlink : option DwarfBuf.dwarf_sections.

(** A string at an offset of a string section, [alt] or not. *)
Definition section_string (d : DwarfBuf.dwarf_sections) (alt : bool) (sec : dwarf_section)
    (msg : string) (offset : Z) : D (bool * attr_val) :=
  if sec_size d sec <=? offset then dwarf_buf_error msg 0;; mret (false, val0)
  else mret (true, mk_attr_val ATTR_VAL_STRING (U_string (Some (InSection alt sec offset)))).

(** The forms that [switch] lists behind [DW_FORM_exprloc]. *)
Definition read_late_form (form implicit_val : Z) (is_dwarf64 : bool) : D (bool * attr_val) :=
  let num := read_number in
  if form =? DW_FORM_flag_present then mret (true, val_uint ATTR_VAL_UINT 1)
  else if form =? DW_FORM_ref_sig8 then num ATTR_VAL_REF_TYPE read_uint64
  else if form =? DW_FORM_strx then num ATTR_VAL_STRING_INDEX read_uleb128
  else if form =? DW_FORM_strx1 then num ATTR_VAL_STRING_INDEX read_byte
  else if form =? DW_FORM_strx2 then num ATTR_VAL_STRING_INDEX read_uint16
  else if form =? DW_FORM_strx3 then num ATTR_VAL_STRING_INDEX read_uint24
  else if form =? DW_FORM_strx4 then num ATTR_VAL_STRING_INDEX read_uint32
  else if form =? DW_FORM_addrx then num ATTR_VAL_ADDRESS_INDEX read_uleb128
  else if form =? DW_FORM_addrx1 then num ATTR_VAL_ADDRESS_INDEX read_byte
  else if form =? DW_FORM_addrx2 then num ATTR_VAL_ADDRESS_INDEX read_uint16
  else if form =? DW_FORM_addrx3 then num ATTR_VAL_ADDRESS_INDEX read_uint24
  else if form =? DW_FORM_addrx4 then num ATTR_VAL_ADDRESS_INDEX read_uint32
  else if form =? DW_FORM_ref_sup4 then num ATTR_VAL_REF_SECTION read_uint32
  else if form =? DW_FORM_ref_sup8 then num ATTR_VAL_REF_SECTION read_uint64
  else if form =? DW_FORM_implicit_const then mret (true, val_uint ATTR_VAL_UINT implicit_val)
  else if form =? DW_FORM_loclistx then num ATTR_VAL_REF_SECTION read_uleb128
  else if form =? DW_FORM_rnglistx then num ATTR_VAL_RNGLISTS_INDEX read_uleb128
  else if form =? DW_FORM_GNU_addr_index then num ATTR_VAL_REF_SECTION read_uleb128
  else if form =? DW_FORM_GNU_str_index then num ATTR_VAL_REF_SECTION read_uleb128
  else if form =? DW_FORM_GNU_ref_alt then
    z ← read_offset is_dwarf64;
    mret (true, val_uint (match altlink with None => ATTR_VAL_NONE | Some _ => ATTR_VAL_REF_ALT_INFO end) z)
  else if (form =? DW_FORM_strp_sup) || (form =? DW_FORM_GNU_strp_alt) then
    offset ← read_offset is_dwarf64;
    match altlink with
    | None => mret (true, val0)
    | Some alt => section_string alt true DEBUG_STR "DW_FORM_strp_sup out of range" offset
    end
  else dwarf_buf_error "unrecognized DWARF form" (-1);; mret (false, val0).

(** The fuel bounds the chain of [DW_FORM_indirect]s. *)
Fixpoint read_attribute_fuel (fuel : nat) (attr_name form implicit_val : Z)
    (is_dwarf64 : bool) (version addrsize : Z) : D (bool * attr_val) :=
  let num := read_number in
  if form =? DW_FORM_addr then num ATTR_VAL_ADDRESS (read_address addrsize)
  else if form =? DW_FORM_block2 then read_block read_uint16
  else if form =? DW_FORM_block4 then read_block read_uint32
  else if form =? DW_FORM_data2 then num ATTR_VAL_UINT read_uint16
  else if form =? DW_FORM_data4 then num ATTR_VAL_UINT read_uint32
  else if form =? DW_FORM_data8 then num ATTR_VAL_UINT read_uint64
  else if form =? DW_FORM_data16 then read_block (mret 16)
  else if form =? DW_FORM_string then read_inline_string
  else if form =? DW_FORM_block then read_block read_uleb128
  else if form =? DW_FORM_block1 then
    if attr_name =? DW_AT_location then read_location_attr val0 addrsize
    else read_block read_byte
  else if form =? DW_FORM_data1 then num ATTR_VAL_UINT read_byte
  else if form =? DW_FORM_flag then num ATTR_VAL_UINT read_byte
  else if form =? DW_FORM_sdata then
    z ← read_sleb128; mret (true, mk_attr_val ATTR_VAL_SINT (U_sint z))
  else if form =? DW_FORM_strp then
    offset ← read_offset is_dwarf64;
    section_string dwarf_sections false DEBUG_STR "DW_FORM_strp out of range" offset
  else if form =? DW_FORM_line_strp then
    offset ← read_offset is_dwarf64;
    section_string dwarf_sections false DEBUG_LINE_STR "DW_FORM_line_strp out of range" offset
  else if form =? DW_FORM_udata then num ATTR_VAL_UINT read_uleb128
  else if form =? DW_FORM_ref_addr then
    num ATTR_VAL_REF_INFO (if version =? 2 then read_address addrsize else read_offset is_dwarf64)
  else if form =? DW_FORM_ref1 then num ATTR_VAL_REF_UNIT read_byte
  else if form =? DW_FORM_ref2 then num ATTR_VAL_REF_UNIT read_uint16
  else if form =? DW_FORM_ref4 then num ATTR_VAL_REF_UNIT read_uint32
  else if form =? DW_FORM_ref8 then num ATTR_VAL_REF_UNIT read_uint64
  else if form =? DW_FORM_ref_udata then num ATTR_VAL_REF_UNIT read_uleb128
  else if form =? DW_FORM_indirect then
    form ← read_uleb128;
    if form =? DW_FORM_implicit_const then
      dwarf_buf_error "DW_FORM_indirect to DW_FORM_implicit_const" 0;; mret (false, val0)
    else match fuel with
    | O => fail OutOfFuel
    | S fuel => read_attribute_fuel fuel attr_name (u32 form) 0 is_dwarf64 version addrsize
    end
  else if form =? DW_FORM_sec_offset then num ATTR_VAL_REF_SECTION (read_offset is_dwarf64)
  else if form =? DW_FORM_exprloc then read_location_attr val0 addrsize
  else read_late_form form implicit_val is_dwarf64.

(** Every [DW_FORM_indirect] reads a byte of the section, or meets its end and
    the form 0. *)
Definition read_attribute (attr_name form implicit_val : Z) (is_dwarf64 : bool)
    (version addrsize : Z) : D (bool * attr_val) :=
  b ← gets db;
  read_attribute_fuel (S (length (db_start b))) attr_name form implicit_val is_dwarf64 version addrsize.

(** A buffer over a section, from an offset on. *)
Definition section_buf (d : DwarfBuf.dwarf_sections) (sec : dwarf_section) (offset : Z)
    (is_bigendian : bool) : dwarf_buf :=
  mk_dwarf_buf sec (d sec) offset (u64 (sec_size d sec - offset)) is_bigendian false.

(** 1 or 0, and the string: [string] stays when the value is not known. *)
Definition resolve_string (is_dwarf64 is_bigendian : bool) (str_offsets_base : Z)
    (val : attr_val) (string : option cptr) : D (bool * option cptr) :=
  match encoding val, u val with
  | ATTR_VAL_STRING, U_string p => mret (true, p)
  | ATTR_VAL_STRING_INDEX, U_uint z =>
      let sz := if is_dwarf64 then 8 else 4 in
      let offset := u64 (z * sz + str_offsets_base) in
      if sec_size dwarf_sections DEBUG_STR_OFFSETS <? u64 (offset + sz) then
        error_callback "DW_FORM_strx value out of range" 0;; mret (false, string)
      else
        '(r, _) ← on_buf (section_buf dwarf_sections DEBUG_STR_OFFSETS offset is_bigendian)
          (offset ← read_offset is_dwarf64;
           if sec_size dwarf_sections DEBUG_STR <=? offset then
             dwarf_buf_error "DW_FORM_strx offset out of range" 0;; mret (false, string)
           else mret (true, Some (InSection false DEBUG_STR offset)));
        mret r
  | _, _ => mret (true, string)
  end.

(** The address, [None] for the result 0. *)
Definition resolve_addr_index (addr_base addrsize : Z) (is_bigendian : bool) (addr_index : Z)
    : D (option Z) :=
  let offset := u64 (addr_index * addrsize + addr_base) in
  if sec_size dwarf_sections DEBUG_ADDR <? u64 (offset + addrsize) then
    error_callback "DW_FORM_addrx value out of range" 0;; mret None
  else
    '(a, _) ← on_buf (section_buf dwarf_sections DEBUG_ADDR offset is_bigendian)
      (read_address addrsize);
    mret (Some a).
End attributes.

(** ** Attribute reading is safe

    The buffer reads a section of the file [d].  Numbers are in the range of
    their type and strings start inside their section. *)
Definition of_section (d : dwarf_sections) (b : dwarf_buf) : Prop := db_start b = d (db_name b).

Definition ptr_ok (d : dwarf_sections) (altlink : option dwarf_sections) (p : cptr) : Prop :=
  match p with
  | InSection false sec off => 0 ≤ off < sec_size d sec
  | InSection true sec off => ∃ alt, altlink = Some alt ∧ 0 ≤ off < sec_size alt sec
  | _ => True
  end.

Definition val_ok (d : dwarf_sections) (altlink : option dwarf_sections) (r : bool * attr_val) : Prop :=
  match u r.2 with
  | U_uint z => in_width 64 z
  | U_sint z => -2^63 ≤ z < 2^63
  | U_string (Some p) => ptr_ok d altlink p
  | U_string None => r.1 = false
  end.

(** [reads], for a buffer over one of the sections. *)
Definition reads_in {A} (d : dwarf_sections) (R : A → Prop) (m : D A) : Prop :=
  ∀ s, wf_buf (db s) → of_section d (db s) → ∃ a s', m s = Ok (a, s') ∧ R a ∧ dstep s s'.

Lemma dstep_section d s s' : of_section d (db s) → dstep s s' → of_section d (db s').
Proof. unfold of_section. intros H S. by rewrite (st_start _ _ S), (st_name _ _ S). Qed.

Lemma reads_in_of {A} d (R : A → Prop) m : reads R m → reads_in d R m.
Proof. intros H s Hs _. by apply H. Qed.

Lemma reads_in_bind {A B} d (R : A → Prop) (R' : B → Prop) m k :
  reads_in d R m → (∀ a, R a → reads_in d R' (k a)) → reads_in d R' (m ≫= k).
Proof.
  intros Hm Hk s Hs Hd. destruct (Hm s Hs Hd) as (a & s1 & E1 & Ha & S1).
  destruct (Hk a Ha s1 (dstep_wf _ _ Hs S1) (dstep_section _ _ _ Hd S1)) as (b & s2 & E2 & Hb & S2).
  exists b, s2. rewrite (bind_ok _ _ _ _ _ E1). eauto using dstep_trans.
Qed.

Lemma reads_in_if {A} d (c : bool) (R : A → Prop) m1 m2 :
  reads_in d R m1 → reads_in d R m2 → reads_in d R (if c then m1 else m2).
Proof. by destruct c. Qed.

Lemma reads_in_ret {A} d (R : A → Prop) a : R a → reads_in d R (mret a).
Proof. intros. by apply reads_in_of, reads_ret. Qed.

Lemma in_width_64 n z : 0 ≤ n ≤ 64 → in_width n z → in_width 64 z.
Proof. apply in_width_mono. Qed.

Section attribute_lemmas.
Variables (d : dwarf_sections) (altlink : option dwarf_sections).

Lemma reads_number n e m : 0 ≤ n ≤ 64 → reads (in_width n) m → reads_in d (val_ok d altlink) (read_number e m).
Proof.
  intros Hn Hm. eapply reads_in_bind; [by apply reads_in_of|]. intros z Hz. apply reads_in_ret.
  by apply (in_width_64 n).
Qed.

Lemma reads_block n m : 0 ≤ n ≤ 64 → reads (in_width n) m → reads_in d (val_ok d altlink) (read_block m).
Proof.
  intros Hn Hm. eapply reads_in_bind; [by apply reads_in_of|]. intros z Hz.
  eapply reads_in_bind; [apply reads_in_of, advance_reads, Hz|]. intros ok _. by apply reads_in_ret.
Qed.

Lemma reads_location n : reads_in d (val_ok d altlink) (read_location_attr val0 n).
Proof.
  eapply reads_in_bind; [apply reads_in_of, reads_byte|]. intros l Hl. apply reads_in_if; [by apply reads_in_ret|].
  eapply reads_in_bind; [apply reads_in_of, reads_byte|]. intros op Hop. apply reads_in_if.
  - eapply reads_in_bind; [apply reads_in_of, advance_reads; unfold u8; lia|]. intros ok _. by apply reads_in_ret.
  - eapply reads_in_bind; [apply reads_in_of, reads_address|]. intros a Ha. by apply reads_in_ret.
Qed.

Lemma reads_error_value msg n :
  reads_in d (val_ok d altlink) (dwarf_buf_error msg n;; mret (false, val0)).
Proof. eapply reads_in_bind; [by apply reads_in_of, reads_error|]. intros _ _. by apply reads_in_ret. Qed.

Lemma reads_section_string d' (alt : bool) sec msg off : 0 ≤ off →
  (if alt then altlink = Some d' else d' = d) →
  reads_in d (val_ok d altlink) (section_string d' alt sec msg off).
Proof.
  intros Ho Hd. unfold section_string. destruct (Z.leb_spec (sec_size d' sec) off); [by apply reads_error_value|].
  apply reads_in_ret. destruct alt; cbn; [eauto|]. subst. lia.
Qed.

Lemma reads_inline_string : reads_in d (val_ok d altlink) read_inline_string.
Proof.
  intros s Hs Hd. unfold read_inline_string. destruct (reads_string s Hs) as (p & s1 & E & _ & S).
  rewrite (bind_ok _ _ _ _ _ E). rewrite bind_ok with (a := db_name (db s1)) (s1 := s1) by done.
  destruct p as [o|]; eexists _, _; (split; [done|]); (split; [|done]); [|done].
  apply read_string_inv in E as Ho; [|done]. cbn. rewrite (st_name _ _ S). unfold sec_size.
  by rewrite <-Hd.
Qed.

Lemma reads_sdata : reads_in d (val_ok d altlink)
  (z ← read_sleb128; mret (true, mk_attr_val ATTR_VAL_SINT (U_sint z))).
Proof. eapply reads_in_bind; [apply reads_in_of, reads_sleb128|]. intros z Hz. by apply reads_in_ret. Qed.

Lemma reads_strp (d64 : bool) (alt : bool) sec msg d' :
  (if alt then altlink = Some d' else d' = d) →
  reads_in d (val_ok d altlink) (offset ← read_offset d64; section_string d' alt sec msg offset).
Proof.
  intros Hd. eapply reads_in_bind; [apply reads_in_of, reads_offset|]. intros o [Ho _].
  by apply reads_section_string.
Qed.

Lemma reads_strp_sup (d64 : bool) : reads_in d (val_ok d altlink)
  (offset ← read_offset d64;
   match altlink with
   | None => mret (true, val0)
   | Some alt => section_string alt true DEBUG_STR "DW_FORM_strp_sup out of range" offset
   end).
Proof.
  destruct altlink eqn:E; rewrite <-E.
  - by apply (reads_strp d64 true).
  - eapply reads_in_bind; [apply reads_in_of, reads_offset|]. intros o _. by apply reads_in_ret.
Qed.

Ltac attr_reads :=
  first
    [ solve [apply (reads_number 8); [lia|]; auto with dwarf_reads]
    | solve [apply (reads_number 16); [lia|]; auto with dwarf_reads]
    | solve [apply (reads_number 24); [lia|]; auto with dwarf_reads]
    | solve [apply (reads_number 32); [lia|]; auto with dwarf_reads]
    | solve [apply (reads_number 64); [lia|]; auto with dwarf_reads]
    | solve [apply (reads_number 64); [lia|]; apply reads_if; auto with dwarf_reads]
    | solve [apply (reads_block 8); [lia|]; by apply reads_ret]
    | solve [apply (reads_block 8); [lia|]; auto with dwarf_reads]
    | solve [apply (reads_block 16); [lia|]; auto with dwarf_reads]
    | solve [apply (reads_block 32); [lia|]; auto with dwarf_reads]
    | solve [apply (reads_block 64); [lia|]; auto with dwarf_reads]
    | apply reads_location
    | apply reads_inline_string
    | apply reads_sdata
    | by apply (reads_strp _ false)
    | apply reads_strp_sup
    | by apply reads_error_value
    | by apply reads_in_ret
    | apply reads_in_if; attr_reads ].

Lemma read_attribute_form0 fuel attr_name iv d64 version addrsize :
  read_attribute_fuel d altlink fuel attr_name 0 iv d64 version addrsize
    = (dwarf_buf_error "unrecognized DWARF form" (-1);; mret (false, val0)).
Proof. by destruct fuel. Qed.

(** All the forms but [DW_FORM_indirect]. *)
Lemma read_attribute_direct fuel attr_name form iv d64 version addrsize :
  form ≠ DW_FORM_indirect → in_width 64 iv →
  reads_in d (val_ok d altlink) (read_attribute_fuel d altlink fuel attr_name form iv d64 version addrsize).
Proof.
  intros Hf Hi. destruct fuel; cbn [read_attribute_fuel]; rewrite (proj2 (Z.eqb_neq _ _) Hf);
    repeat (apply reads_in_if; [attr_reads|]); attr_reads.
Qed.

Lemma read_attribute_fuel_reads fuel : ∀ attr_name form iv d64 version addrsize s,
  in_width 64 iv → wf_buf (db s) → of_section d (db s) → (Z.to_nat (db_left (db s)) < fuel)%nat →
  ∃ r s', read_attribute_fuel d altlink fuel attr_name form iv d64 version addrsize s
            = Ok (r, s') ∧ val_ok d altlink r ∧ dstep s s'.
Proof.
  induction fuel as [|fuel IH]; intros attr_name form iv d64 version addrsize s Hi Hs Hd Hf; [lia|].
  destruct (decide (form = DW_FORM_indirect)) as [->|Hne]; [|by apply read_attribute_direct].
  change (read_attribute_fuel _ _ (S fuel) _ DW_FORM_indirect _ _ _ _) with
    (form ← read_uleb128;
     if form =? DW_FORM_implicit_const then
       dwarf_buf_error "DW_FORM_indirect to DW_FORM_implicit_const" 0;; mret (false, val0)
     else read_attribute_fuel d altlink fuel attr_name (u32 form) 0 d64 version addrsize).
  destruct (read_uleb128_progress s Hs) as (v & s1 & E1 & Hv & S1 & HP).
  rewrite (bind_ok _ _ _ _ _ E1). pose proof (dstep_wf _ _ Hs S1) as Hs1.
  pose proof (dstep_section _ _ _ Hd S1) as Hd1.
  assert (∃ r s', (if v =? DW_FORM_implicit_const then
       dwarf_buf_error "DW_FORM_indirect to DW_FORM_implicit_const" 0;; mret (false, val0)
     else read_attribute_fuel d altlink fuel attr_name (u32 v) 0 d64 version addrsize) s1 = Ok (r, s')
     ∧ val_ok d altlink r ∧ dstep s1 s') as (r & s' & E & Hr & S').
  { destruct (v =? DW_FORM_implicit_const); [by apply reads_error_value|].
    destruct (decide (v = 0)) as [->|Hv0].
    - change (u32 0) with 0. rewrite read_attribute_form0. by apply reads_error_value.
    - apply IH; try done. specialize (HP Hv0). pose proof (st_left _ _ S1). lia. }
  exists r, s'. eauto using dstep_trans.
Qed.

Lemma reads_attribute attr_name form iv d64 version addrsize : in_width 64 iv →
  reads_in d (val_ok d altlink) (read_attribute d altlink attr_name form iv d64 version addrsize).
Proof.
  intros Hi s Hs Hd. unfold read_attribute. rewrite bind_ok with (a := db s) (s1 := s) by done.
  apply read_attribute_fuel_reads; try done. destruct Hs as (_ & ? & ? & ?). lia.
Qed.
End attribute_lemmas.

(** ** Tables of strings and addresses *)

(** The sections hold bytes, and fit the address space. *)
Definition sections_ok (d : dwarf_sections) : Prop :=
  ∀ sec, bytes_ok (d sec) ∧ sec_size d sec < 2^63.

Lemma section_buf_wf d sec off e : sections_ok d → 0 ≤ off ≤ sec_size d sec →
  wf_buf (section_buf d sec off e).
Proof.
  intros Hd Ho. destruct (Hd sec) as [Hb Hs]. unfold sec_size in *. split; [done|]. cbn.
  rewrite u64_small by (unfold sec_size; lia). unfold sec_size. lia.
Qed.

Lemma reads_resolve_addr_index d addr_base addrsize e addr_index :
  sections_ok d → 0 ≤ addrsize → 0 ≤ addr_index → 0 ≤ addr_base →
  addr_index * addrsize + addr_base + addrsize < 2^64 →
  reads (λ r, ∀ a, r = Some a → in_width 64 a) (resolve_addr_index d addr_base addrsize e addr_index).
Proof.
  intros Hd H1 H2 H3 H4 s Hs. unfold resolve_addr_index. rewrite (u64_small (_ + addr_base)) by nia.
  cbv zeta. rewrite u64_small by nia.
  destruct (Z.ltb_spec (sec_size d DEBUG_ADDR) (addr_index * addrsize + addr_base + addrsize)).
  - destruct (reads_callback "DW_FORM_addrx value out of range" 0 s Hs) as (? & s1 & E & _ & S).
    rewrite (bind_ok _ _ _ _ _ E). eexists _, _. split; [done|]. by split.
  - destruct (on_buf_reads (in_width 64) (read_address addrsize)
      (section_buf d DEBUG_ADDR (addr_index * addrsize + addr_base) e) s (reads_address _))
      as (a & b' & s' & E & Ha & _ & _ & S); [apply section_buf_wf; [done|nia]|apply Hs|].
    rewrite (bind_ok _ _ _ _ _ E). eexists _, _. split; [done|]. split; [|done]. by intros ? [= <-].
Qed.

Lemma reads_resolve_string d altlink d64 e base val string :
  sections_ok d → 0 ≤ base → val_ok d altlink (true, val) →
  (∀ z, encoding val = ATTR_VAL_STRING_INDEX → u val = U_uint z → z * 8 + base + 8 < 2^64) →
  (∀ p, string = Some p → ptr_ok d altlink p) →
  reads (λ r, ∀ p, r.2 = Some p → ptr_ok d altlink p) (resolve_string d d64 e base val string).
Proof.
  intros Hd Hb Hv Hz Hp. unfold resolve_string. unfold val_ok in Hv. cbn [fst snd] in Hv.
  destruct (encoding val) eqn:Ee; try by apply reads_ret.
  - destruct (u val) as [z|z|[p|]]; try by apply reads_ret. by apply reads_ret; intros ? [= <-].
  - destruct (u val) as [z|z|p] eqn:Eu; try by apply reads_ret. specialize (Hz z eq_refl eq_refl).
    set (sz := if d64 then 8 else 4). assert (4 ≤ sz ≤ 8) by (subst sz; destruct d64; lia). destruct Hv as [Hv _].
    cbv zeta. rewrite (u64_small (z * sz + base)) by nia. rewrite u64_small by nia.
    intros s Hs. destruct (Z.ltb_spec (sec_size d DEBUG_STR_OFFSETS) (z * sz + base + sz)).
    + destruct (reads_callback "DW_FORM_strx value out of range" 0 s Hs) as (? & s1 & E & _ & S).
      rewrite (bind_ok _ _ _ _ _ E). eexists _, _. split; [done|]. by split.
    + set (m := (offset ← read_offset d64; _)).
      assert (reads (λ r, ∀ p, r.2 = Some p → ptr_ok d altlink p) m) as Hm.
      { eapply reads_bind; [apply reads_offset|]. intros o [Ho _].
        destruct (Z.leb_spec (sec_size d DEBUG_STR) o).
        - eapply reads_bind; [apply reads_error|]. intros _ _. by apply reads_ret.
        - apply reads_ret. cbn. intros p [= <-]. cbn. lia. }
      destruct (on_buf_reads _ m (section_buf d DEBUG_STR_OFFSETS (z * sz + base) e) s Hm)
        as (a & b' & s' & E & Ha & _ & _ & S); [apply section_buf_wf; [done|nia]|apply Hs|].
      rewrite (bind_ok _ _ _ _ _ E). eexists _, _. split; [done|]. by split.
Qed.

(** The bound of [resolve_addr_index] is computed modulo 2^64: a large enough
    index passes it and the address is read in front of the section. *)
Lemma addr_index_wraps d e s : sections_ok d →
  resolve_addr_index d 0 8 e (2^61 - 1) s = Err OutOfBounds.
Proof.
  intros Hd. destruct (Hd DEBUG_ADDR) as [_ Hs]. unfold resolve_addr_index.
  change (u64 ((2^61 - 1) * 8 + 0)) with (2^64 - 8). cbv zeta. change (u64 (2^64 - 8 + 8)) with 0.
  unfold sec_size in *. replace (Z.of_nat (length (d DEBUG_ADDR)) <? 0) with false by lia.
  apply bind_err. unfold on_buf.
  assert (u64 (Z.of_nat (length (d DEBUG_ADDR)) - (2^64 - 8)) = Z.of_nat (length (d DEBUG_ADDR)) + 8) as Hl
    by (unfold u64; lia).
  unfold section_buf, sec_size. rewrite Hl. set (s1 := s <| db := _ |>).
  assert (read_address 8 s1 = Err OutOfBounds) as ->; [|done].
  change (read_address 8 s1) with (read_uint64 s1). unfold read_uint64.
  rewrite bind_ok with (a := db s1) (s1 := s1) by done.
  erewrite bind_ok by (apply advance_ok; cbn; lia). cbn [negb]. apply bind_err.
  unfold byte_at, gets, mbind, M_bind, array_get. replace (db_buf (db s1) <? 0) with false by done.
  by rewrite lookup_ge_None_2 by (cbn [s1 moved set_field db db_start db_buf]; lia).
Qed.

(** ** Location expressions

    [read_location_attr] takes the length of the expression from one byte.
    That is the encoding of [DW_FORM_block1]; the length of [DW_FORM_exprloc] is
    an unsigned LEB128 number. *)
Lemma advance_any n s : wf_buf (db s) → 0 ≤ n →
  ∃ ok s', advance n s = Ok (ok, s') ∧
    (db_buf (db s') = db_buf (db s) + n ∨ db_buf (db s') = db_buf (db s) ∧ db_left (db s) < n).
Proof.
  intros Hs Hn. destruct (Z_le_gt_dec n (db_left (db s))).
  - eexists _, _. split; [by apply advance_ok|]. by left.
  - eexists _, _. split; [apply advance_underflow; lia|]. right. split; [|lia].
    unfold report_underflow. by destruct (db_reported_underflow (db s)).
Qed.

Lemma location_not_addr s l op rest addrsize :
  wf_buf (db s) → unread s = l :: op :: rest → 0 < l < 256 → (op ≠ DW_OP_addr ∨ l - 1 ≠ addrsize) →
  l - 1 ≤ Z.of_nat (length rest) →
  read_location_attr val0 addrsize s = Ok ((true, mk_attr_val ATTR_VAL_EXPR (U_uint 0)), moved (l + 1) s).
Proof.
  intros Hs Hu Hl Hop Hr. pose proof (unread_length s Hs) as Hlen. rewrite Hu in Hlen. cbn in Hlen.
  pose proof Hs as (_ & ? & ? & ?). unfold read_location_attr.
  erewrite bind_ok by (by apply (read_byte_at s Hs (op :: rest))).
  replace (l =? 0) with false by lia.
  assert (unread (moved 1 s) = op :: rest) as Hu1 by (rewrite unread_moved by lia; by rewrite Hu).
  erewrite bind_ok by (apply (read_byte_at (moved 1 s) (wf_moved 1 s Hs ltac:(lia)) rest), Hu1).
  assert (u8 (l - 1) = l - 1) as -> by (unfold u8; lia). cbv zeta.
  replace (negb (op =? DW_OP_addr) || negb (l - 1 =? addrsize)) with true by (destruct Hop; lia).
  erewrite bind_ok by (apply advance_ok; cbn; lia). rewrite !moved_moved. unfold mret, M_ret.
  do 3 f_equal. lia.
Qed.

Section exprloc.
Variables (d : dwarf_sections) (altlink : option dwarf_sections).

Lemma read_exprloc attr_name iv d64 version addrsize s :
  read_attribute d altlink attr_name DW_FORM_exprloc iv d64 version addrsize s
    = read_location_attr val0 addrsize s.
Proof. done. Qed.
End exprloc.

(** [DW_FORM_exprloc] is read exactly up to 127 bytes: an expression shorter
    than 128 bytes (other than an address) is skipped exactly, but for no
    length from 128 to 16383 does the reader stop at the end of the attribute,
    so that every later attribute of the entry is misread. *)
Theorem exprloc_length_one_byte d altlink attr_name iv d64 version addrsize s n block rest :
  wf_buf (db s) → 0 ≤ addrsize ≤ 8 → Z.of_nat (length block) = n → 0 < n < 16384 →
  head block ≠ Some DW_OP_addr → (256 ≤ length rest)%nat →
  unread s = uleb128_enc 9 n ++ block ++ rest →
  ∃ r s', read_attribute d altlink attr_name DW_FORM_exprloc iv d64 version addrsize s = Ok (r, s') ∧
    (n < 128 → s' = moved (1 + n) s) ∧
    (128 ≤ n → db_buf (db s') ≠ db_buf (db s) + Z.of_nat (length (uleb128_enc 9 n)) + n).
Proof.
  intros Hs Ha Hn Hr Hh Hrest Hu. rewrite read_exprloc.
  destruct (Z_lt_le_dec n 128) as [Hlt|Hge].
  - assert (uleb128_enc 9 n = [n]) as He by (cbn [uleb128_enc]; by replace (n <? 128) with true by lia).
    rewrite He in Hu. destruct block as [|op block]; [cbn in Hn; lia|]. cbn in Hu, Hn.
    eexists _, _. split; [apply (location_not_addr s n op (block ++ rest)); try done|].
    + lia.
    + left. intros ->. by apply Hh.
    + rewrite length_app. lia.
    + split; [intros _; f_equal; lia|lia].
  - assert (uleb128_enc 9 n = [n mod 128 + 128; n / 128]) as He.
    { cbn [uleb128_enc]. replace (n <? 128) with false by lia. by replace (n / 128 <? 128) with true by lia. }
    rewrite He in *. cbn in Hu.
    eexists _, _. split; [apply (location_not_addr s (n mod 128 + 128) (n / 128) (block ++ rest)); try done|].
    + lia.
    + right. lia.
    + rewrite length_app. lia.
    + split; [lia|]. intros _. cbn. lia.
Qed.

Lemma exprloc_length_one_byte_witness :
  ∃ r s', read_attribute (λ _, []) None 0 DW_FORM_exprloc 0 false 4 8
      (witness_state (uleb128_enc 9 130 ++ replicate 130 0 ++ replicate 256 0)) = Ok (r, s') ∧
    db_buf (db s') ≠ 132.
Proof.
  destruct (exprloc_length_one_byte (λ _, []) None 0 0 false 4 8
    (witness_state (uleb128_enc 9 130 ++ replicate 130 0 ++ replicate 256 0)) 130 (replicate 130 0)
    (replicate 256 0)) as (r & s' & E & _ & H).
  - apply (bool_decide_unpack _). vm_compute. exact I.
  - done.
  - reflexivity.
  - done.
  - discriminate.
  - vm_compute. lia.
  - vm_compute. reflexivity.
  - exists r, s'. split; [exact E|]. apply H. discriminate.
Defined.
