(* ===== verification/Search.v ===== *)
(** * Binary search ([bsearch] of the C library, as src/dwarf/ uses it)

    The comparison is given by the index of the element, since the comparisons
    of dwarf.c and elf.c look at the next element too; it may fault. *)
From S2P Require Import Prelude.

(** Elements [l] (included) to [h] (excluded) are left. *)
Fixpoint bsearch_loop (fuel : nat) (compar : nat → res Z) (l h : nat) : res (option nat) :=
  if (l <? h)%nat then
    match fuel with
    | O => Err OutOfFuel
    | S fuel =>
        let idx := ((l + h) / 2)%nat in
        match compar idx with
        | Err f => Err f
        | Ok comparison =>
            if comparison <? 0 then bsearch_loop fuel compar l idx
            else if 0 <? comparison then bsearch_loop fuel compar (S idx) h
            else Ok (Some idx)
        end
    end
  else Ok None.

(** The rounds halve the range, so [nmemb] of them are more than enough. *)
Definition bsearch (compar : nat → res Z) (nmemb : nat) : res (option nat) :=
  bsearch_loop nmemb compar 0 nmemb.

(** What the C standard asks of the array: first the elements the key is after,
    then those it matches, then those it is before. *)
Record partitioned (c : nat → Z) (n : nat) : Prop := mk_partitioned {
  part_below : ∀ i j, (i < j < n)%nat → c i < 0 → c j < 0;
  part_above : ∀ i j, (i < j < n)%nat → 0 < c j → 0 < c i;
}.

Lemma bsearch_loop_spec compar c n : (∀ i, (i < n)%nat → compar i = Ok (c i)) → partitioned c n →
  ∀ fuel l h, (h - l ≤ fuel)%nat → (h ≤ n)%nat →
    (∀ i, (i < l)%nat → 0 < c i) → (∀ i, (h ≤ i < n)%nat → c i < 0) →
    ∃ r, bsearch_loop fuel compar l h = Ok r ∧
      match r with
      | Some i => (i < n)%nat ∧ c i = 0
      | None => ∀ i, (i < n)%nat → c i ≠ 0
      end.
Proof.
  intros Hc [Hb Ha]. induction fuel as [|fuel IH]; intros l h Hf Hn Hl Hh; cbn [bsearch_loop].
  - replace (l <? h)%nat with false by lia. exists None. split; [done|]. intros i Hi.
    destruct (decide (i < l)%nat); [specialize (Hl i); lia|specialize (Hh i); lia].
  - destruct (Nat.ltb_spec l h).
    + set (idx := ((l + h) / 2)%nat). assert (l ≤ idx < h)%nat as Hidx by (subst idx; lia). cbv zeta.
      rewrite Hc by lia. destruct (Z.ltb_spec (c idx) 0); [|destruct (Z.ltb_spec 0 (c idx))].
      * apply IH; [lia..|done|]. intros i Hi. destruct (decide (i = idx)) as [->|]; [done|].
        apply (Hb idx); [lia|done].
      * apply IH; [lia..| |done]. intros i Hi. destruct (decide (i = idx)) as [->|]; [done|].
        apply (Ha _ idx); [lia|done].
      * exists (Some idx). split; [done|]. lia.
    + exists None. split; [done|]. intros i Hi.
      destruct (decide (i < l)%nat); [specialize (Hl i); lia|specialize (Hh i); lia].
Qed.

Lemma bsearch_spec compar c n : (∀ i, (i < n)%nat → compar i = Ok (c i)) → partitioned c n →
  ∃ r, bsearch compar n = Ok r ∧
    match r with
    | Some i => (i < n)%nat ∧ c i = 0
    | None => ∀ i, (i < n)%nat → c i ≠ 0
    end.
Proof. intros Hc Hp. apply (bsearch_loop_spec compar c n Hc Hp); lia. Qed.
