(* ===== verification/DwarfAbbrev.v ===== *)
(** * The abbreviation table of a compilation unit (src/dwarf/dwarf.c)

    [read_abbrevs] passes over the table twice: once to count the entries, and
    once to read them into an array of that size; the attributes of each entry
    are counted the same way before they are read.  The array is sorted by code
    and searched by [lookup_abbrev]. *)

From S2P Require Import Prelude Util Bytes DwarfBuf DwarfAttr Sort Search.

Definition abbrev_compare (a1 a2 : abbrev) : Z :=
  if ab_code a1 <? ab_code a2 then -1
  else if ab_code a2 <? ab_code a1 then 1
  else 0.

(** The loop that passes over the attributes of an entry; their number. *)
Fixpoint count_attrs (fuel : nat) : D Z :=
  name ← read_uleb128;
  if name =? 0 then mret 0
  else match fuel with
  | O => fail OutOfFuel
  | S fuel =>
      form ← read_uleb128;
      (if u32 form =? DW_FORM_implicit_const then read_sleb128;; mret tt else mret tt);;
      n ← count_attrs fuel;
      mret (n + 1)
  end.

(** The counting pass; [None] is [return 0]. *)
Fixpoint count_abbrevs (fuel : nat) (num_abbrevs : Z) : D (option Z) :=
  code ← read_uleb128;
  if code =? 0 then mret (Some num_abbrevs)
  else
    b ← gets db;
    if db_reported_underflow b then mret None
    else match fuel with
    | O => fail OutOfFuel
    | S fuel =>
        read_uleb128;;
        read_byte;;
        count_attrs (S (length (db_start b)));;
        read_uleb128;;
        count_abbrevs fuel (num_abbrevs + 1)
    end.

(** [attrs[num_attrs] = ...; ++num_attrs] in an array of [cap] entries, until
    the name 0. *)
Fixpoint read_attrs (fuel : nat) (cap : Z) (attrs : list attr) : D (list attr) :=
  name ← read_uleb128;
  form ← read_uleb128;
  if name =? 0 then mret attrs
  else match fuel with
  | O => fail OutOfFuel
  | S fuel =>
      if cap <=? Z.of_nat (length attrs) then fail OutOfBounds
      else
        val ← (if u32 form =? DW_FORM_implicit_const then read_sleb128 else mret 0);
        read_attrs fuel cap (attrs ++ [mk_attr (u32 name) (u32 form) val])
  end.

(** One entry, after its code; [None] is [goto fail]. *)
Definition read_abbrev (code : Z) : D (option abbrev) :=
  tag ← read_uleb128;
  has_children ← read_byte;
  count_buf ← gets db;
  '(num_attrs, _) ← on_buf count_buf (count_attrs (S (length (db_start count_buf))));
  if num_attrs =? 0 then
    read_uleb128;;
    read_uleb128;;
    mret (Some (mk_abbrev code (u32 tag) has_children []))
  else
    ok ← alloc_answer;
    if negb ok then mret None
    else
      attrs ← read_attrs (S (length (db_start count_buf))) num_attrs [];
      mret (Some (mk_abbrev code (u32 tag) has_children attrs)).

(** The reading pass, into an array of [cap] entries; [None] is [goto fail]. *)
Fixpoint read_entries (fuel : nat) (cap : Z) (abbrevs : list abbrev) : D (option (list abbrev)) :=
  b ← gets db;
  if db_reported_underflow b then mret None
  else
    code ← read_uleb128;
    if code =? 0 then mret (Some abbrevs)
    else match fuel with
    | O => fail OutOfFuel
    | S fuel =>
        a ← read_abbrev code;
        match a with
        | None => mret None
        | Some a =>
            if cap <=? Z.of_nat (length abbrevs) then fail OutOfBounds
            else read_entries fuel cap (abbrevs ++ [a])
        end
    end.

Definition lift_res {A} (r : res A) : D A := λ s,
  match r with Ok a => Ok (a, s) | Err f => Err f end.

(** 1 or 0, and the sorted array ([memset] to 0 before it is filled). *)
Definition read_abbrevs (abbrev_offset : Z) (dwarf_abbrev : list Z) (is_bigendian : bool)
    : D (bool * list abbrev) :=
  let dwarf_abbrev_size := Z.of_nat (length dwarf_abbrev) in
  if dwarf_abbrev_size <=? abbrev_offset then
    error_callback "abbrev offset out of range" 0;; mret (false, [])
  else
    let abbrev_buf := mk_dwarf_buf DEBUG_ABBREV dwarf_abbrev abbrev_offset
                        (dwarf_abbrev_size - abbrev_offset) is_bigendian false in
    '(n, count_buf) ← on_buf abbrev_buf (count_abbrevs (length dwarf_abbrev) 0);
    match n with
    | None => mret (false, [])
    | Some num_abbrevs =>
        if db_reported_underflow count_buf then mret (false, [])
        else if num_abbrevs =? 0 then mret (true, [])
        else
          ok ← alloc_answer;
          if negb ok then mret (false, [])
          else
            '(r, _) ← on_buf abbrev_buf (read_entries (length dwarf_abbrev) num_abbrevs []);
            match r with
            | None => mret (false, [])
            | Some abbrevs =>
                sorted ← lift_res (qsort_structs abbrev_compare
                  (abbrevs ++ replicate (Z.to_nat num_abbrevs - length abbrevs) (mk_abbrev 0 0 0 [])));
                mret (true, sorted)
            end
    end.

(** The entry found, [None] for NULL. *)
Definition lookup_abbrev (abbrevs : list abbrev) (code : Z) : D (option abbrev) :=
  let search :=
    p ← lift_res (bsearch (λ i, match abbrevs !! i with
                               | Some a => Ok (abbrev_compare (mk_abbrev code 0 0 []) a)
                               | None => Err OutOfBounds
                               end) (length abbrevs));
    match p with
    | None => error_callback "invalid abbreviation code" 0;; mret None
    | Some i => mret (abbrevs !! i)
    end in
  if u64 (code - 1) <? Z.of_nat (length abbrevs) then
    a ← array_get abbrevs (u64 (code - 1));
    if ab_code a =? code then mret (Some a) else search
  else search.

(** ** The passes end

    Each round of a pass reads a number that is not 0, and so a byte. *)
Lemma reads_skip_const form : reads (λ _, True)
  (if u32 form =? DW_FORM_implicit_const then read_sleb128;; mret tt else mret tt).
Proof.
  apply reads_if; intros _; [|by apply reads_ret].
  eapply reads_bind; [apply reads_sleb128|]. intros _ _. by apply reads_ret.
Qed.

Lemma dstep_left s s' : dstep s s' → db_left (db s') ≤ db_left (db s).
Proof. intros S. pose proof (st_end _ _ S). pose proof (st_mono _ _ S). lia. Qed.

Lemma count_attrs_runs fuel : ∀ s, wf_buf (db s) → (Z.to_nat (db_left (db s)) < fuel)%nat →
  ∃ n s', count_attrs fuel s = Ok (n, s') ∧ 0 ≤ n ∧ dstep s s'.
Proof.
  induction fuel as [|fuel IH]; intros s Hs Hf; [lia|]. cbn [count_attrs].
  destruct (read_uleb128_progress s Hs) as (v & s1 & E1 & _ & S1 & HP). rewrite (bind_ok _ _ _ _ _ E1).
  destruct (Z.eqb_spec v 0) as [->|Hv]; [eexists _, _; split; [done|]; split; [lia|done]|].
  pose proof (dstep_wf _ _ Hs S1) as Hs1. specialize (HP Hv).
  destruct (reads_uleb128 s1 Hs1) as (f & s2 & E2 & _ & S2). rewrite (bind_ok _ _ _ _ _ E2).
  pose proof (dstep_wf _ _ Hs1 S2) as Hs2.
  destruct (reads_skip_const f s2 Hs2) as ([] & s3 & E3 & _ & S3). rewrite (bind_ok _ _ _ _ _ E3).
  pose proof (dstep_wf _ _ Hs2 S3) as Hs3.
  pose proof (dstep_left _ _ S2). pose proof (dstep_left _ _ S3). pose proof (st_left _ _ S1).
  destruct (IH s3 Hs3 ltac:(lia)) as (n & s4 & E4 & Hn & S4). rewrite (bind_ok _ _ _ _ _ E4).
  eexists _, _. split; [done|]. split; [lia|]. eauto using dstep_trans.
Qed.

(** The part of a round of [count_abbrevs] after the code. *)
Definition count_entry (b : dwarf_buf) : D Z :=
  read_uleb128;; read_byte;; count_attrs (S (length (db_start b)));; read_uleb128.

Lemma count_entry_runs b s : wf_buf (db s) → db_start b = db_start (db s) →
  ∃ z s', count_entry b s = Ok (z, s') ∧ dstep s s'.
Proof.
  intros Hs Hb. unfold count_entry.
  destruct (reads_uleb128 s Hs) as (? & s1 & E1 & _ & S1). rewrite (bind_ok _ _ _ _ _ E1).
  pose proof (dstep_wf _ _ Hs S1) as Hs1.
  destruct (reads_byte s1 Hs1) as (? & s2 & E2 & _ & S2). rewrite (bind_ok _ _ _ _ _ E2).
  pose proof (dstep_wf _ _ Hs1 S2) as Hs2.
  destruct (count_attrs_runs (S (length (db_start b))) s2 Hs2) as (n & s3 & E3 & _ & S3).
  { rewrite Hb, <-(st_start _ _ S1), <-(st_start _ _ S2). destruct Hs2 as (_ & ? & ? & ?). lia. }
  rewrite (bind_ok _ _ _ _ _ E3). pose proof (dstep_wf _ _ Hs2 S3) as Hs3.
  destruct (reads_uleb128 s3 Hs3) as (z & s4 & E4 & _ & S4).
  exists z, s4. eauto 6 using dstep_trans.
Qed.

Lemma count_abbrevs_step fuel n s :
  count_abbrevs (S fuel) n s =
    (code ← read_uleb128;
     if code =? 0 then mret (Some n)
     else b ← gets db;
          if db_reported_underflow b then mret None
          else count_entry b;; count_abbrevs fuel (n + 1)) s.
Proof.
  cbn [count_abbrevs]. apply bind_ext. intros code s1 _. destruct (code =? 0); [done|].
  apply bind_ext. intros b s2 _. destruct (db_reported_underflow b); [done|].
  unfold count_entry, mbind, M_bind. destruct (read_uleb128 s2) as [[? s3]|]; [|done].
  destruct (read_byte s3) as [[? s4]|]; [|done].
  destruct (count_attrs _ s4) as [[? s5]|]; [|done]. by destruct (read_uleb128 s5) as [[? ?]|].
Qed.

Lemma count_abbrevs_runs fuel : ∀ n s, wf_buf (db s) → db_left (db s) ≤ Z.of_nat fuel →
  ∃ r s', count_abbrevs fuel n s = Ok (r, s') ∧ dstep s s' ∧
    (∀ m, r = Some m → n ≤ m).
Proof.
  induction fuel as [|fuel IH]; intros n s Hs Hf.
  - destruct (read_uleb128_progress s Hs) as (v & s1 & E1 & _ & S1 & HP).
    cbn [count_abbrevs]. rewrite (bind_ok _ _ _ _ _ E1).
    assert (v = 0) as -> by (destruct (decide (v = 0)); [done|]; pose proof (st_left _ _ S1); lia).
    eexists _, _. split; [done|]. split; [done|]. intros m [= <-]. lia.
  - rewrite count_abbrevs_step. destruct (read_uleb128_progress s Hs) as (v & s1 & E1 & _ & S1 & HP).
    rewrite (bind_ok _ _ _ _ _ E1). destruct (Z.eqb_spec v 0) as [->|Hv].
    { eexists _, _. split; [done|]. split; [done|]. intros m [= <-]. lia. }
    rewrite bind_ok with (a := db s1) (s1 := s1) by done.
    destruct (db_reported_underflow (db s1)); [eexists _, _; done|].
    destruct (count_entry_runs (db s1) s1 (dstep_wf _ _ Hs S1) eq_refl) as (z & s2 & E2 & S2).
    rewrite (bind_ok _ _ _ _ _ E2). pose proof (dstep_left _ _ S2). specialize (HP Hv).
    destruct (IH (n + 1) s2) as (r & s3 & E3 & S3 & Hr); [by eapply dstep_wf, S2; eapply dstep_wf|lia|].
    exists r, s3. split; [done|]. split; [eauto using dstep_trans|]. intros m Hm. specialize (Hr m Hm). lia.
Qed.

(** ** The reading pass follows the counting pass

    From the same buffer the two passes read the same numbers, so that the
    reading pass finds as many attributes and entries as were counted. *)
Lemma local_skip form : local
  (if u32 form =? DW_FORM_implicit_const then read_sleb128;; mret tt else mret tt).
Proof. apply local_if; [|apply local_ret]. apply local_bind; [apply local_sleb128|]. intros. apply local_ret. Qed.

Lemma read_attrs_follow fuel : ∀ acc cap s1 s2 n t1 z t1',
  wf_buf (db s1) → (Z.to_nat (db_left (db s1)) < fuel)%nat →
  db s1 = db s2 → count_attrs fuel s1 = Ok (n, t1) → read_uleb128 t1 = Ok (z, t1') →
  Z.of_nat (length acc) + n ≤ cap →
  ∃ l t2, read_attrs fuel cap acc s2 = Ok (acc ++ l, t2) ∧ Z.of_nat (length l) = n ∧ db t2 = db t1'.
Proof.
  induction fuel as [|fuel IH]; intros acc cap s1 s2 n t1 z t1' Hs Hf Hd Hc Hz Hcap; [lia|].
  cbn [count_attrs read_attrs] in *. destruct (read_uleb128_progress s1 Hs) as (v & u1 & E1 & _ & S1 & HP).
  rewrite (bind_ok _ _ _ _ _ E1) in Hc. destruct (local_uleb128 _ _ _ _ Hd E1) as (u2 & E1' & Hd1).
  rewrite (bind_ok _ _ _ _ _ E1'). destruct (Z.eqb_spec v 0) as [->|Hv].
  - apply mret_inv in Hc. simplify_eq. destruct (local_uleb128 _ _ _ _ (eq_sym Hd1) Hz) as (t2 & E2' & Hd2).
    rewrite (bind_ok _ _ _ _ _ E2'). exists [], t2. rewrite app_nil_r. done.
  - pose proof (dstep_wf _ _ Hs S1) as Hs1. specialize (HP Hv). pose proof (st_left _ _ S1).
    destruct (reads_uleb128 u1 Hs1) as (f & v1 & E2 & _ & S2). rewrite (bind_ok _ _ _ _ _ E2) in Hc.
    destruct (local_uleb128 _ _ _ _ (eq_sym Hd1) E2) as (v2 & E2' & Hd2). rewrite (bind_ok _ _ _ _ _ E2').
    pose proof (dstep_wf _ _ Hs1 S2) as Hs2. pose proof (dstep_left _ _ S2).
    destruct (reads_skip_const f v1 Hs2) as ([] & w1 & E3 & _ & S3). rewrite (bind_ok _ _ _ _ _ E3) in Hc.
    pose proof (dstep_wf _ _ Hs2 S3) as Hs3. pose proof (dstep_left _ _ S3).
    apply bind_inv in Hc as (n' & x1 & E4 & Hn). apply mret_inv in Hn. simplify_eq.
    destruct (count_attrs_runs fuel w1 Hs3 ltac:(lia)) as (n'' & x2 & E4' & Hn' & _).
    rewrite E4 in E4'. simplify_eq E4'. intros <- <-.
    replace (cap <=? Z.of_nat (length acc)) with false by lia.
    assert (∃ val w2, (if u32 f =? DW_FORM_implicit_const then read_sleb128 else mret 0) v2 = Ok (val, w2)
      ∧ db w2 = db w1) as (val & w2 & E3' & Hd3).
    { destruct (u32 f =? DW_FORM_implicit_const).
      - apply bind_inv in E3 as (val & w1' & E3 & E3b). apply mret_inv in E3b. simplify_eq.
        destruct (local_sleb128 _ _ _ _ (eq_sym Hd2) E3) as (w2 & ? & ?). eauto.
      - apply mret_inv in E3. simplify_eq. by exists 0, v2. }
    rewrite (bind_ok _ _ _ _ _ E3').
    destruct (IH (acc ++ [mk_attr (u32 v) (u32 f) val]) cap w1 w2 n' x1 z t1') as (l & t2 & E & Hl & Hdt); try done; try lia.
    { rewrite length_app. cbn. lia. }
    exists (mk_attr (u32 v) (u32 f) val :: l), t2. rewrite E, <-app_assoc. cbn. split; [done|]. split; [lia|done].
Qed.

Lemma local_count_attrs fuel : local (count_attrs fuel).
Proof.
  induction fuel as [|fuel IH]; cbn [count_attrs]; (apply local_bind; [apply local_uleb128|]); intros name;
    (apply local_if; [apply local_ret|]); [apply local_fail|].
  apply local_bind; [apply local_uleb128|]. intros form. apply local_bind; [apply local_skip|]. intros _.
  apply local_bind; [apply IH|]. intros. apply local_ret.
Qed.

(** No attribute: the name read is 0. *)
Lemma count_attrs_0 fuel s t : wf_buf (db s) → (Z.to_nat (db_left (db s)) < fuel)%nat →
  count_attrs fuel s = Ok (0, t) → read_uleb128 s = Ok (0, t).
Proof.
  intros Hs Hf E. destruct fuel as [|fuel]; [lia|]. cbn [count_attrs] in E.
  destruct (read_uleb128_progress s Hs) as (v & u1 & E1 & _ & S1 & HP). rewrite (bind_ok _ _ _ _ _ E1) in E.
  destruct (Z.eqb_spec v 0) as [->|Hv]; [by apply mret_inv in E as [= ->]|].
  pose proof (dstep_wf _ _ Hs S1) as Hs1. specialize (HP Hv). pose proof (st_left _ _ S1).
  apply bind_inv in E as (f & u2 & E2 & E). destruct (reads_uleb128 u1 Hs1) as (f' & u2' & E2' & _ & S2).
  rewrite E2 in E2'. simplify_eq E2'. intros <- <-. pose proof (dstep_wf _ _ Hs1 S2) as Hs2. pose proof (dstep_left _ _ S2).
  apply bind_inv in E as ([] & u3 & E3 & E). destruct (reads_skip_const f u2 Hs2) as ([] & u3' & E3' & _ & S3).
  rewrite E3 in E3'. simplify_eq E3'. intros <-. pose proof (dstep_wf _ _ Hs2 S3) as Hs3. pose proof (dstep_left _ _ S3).
  apply bind_inv in E as (n & u4 & E4 & E). apply mret_inv in E.
  destruct (count_attrs_runs fuel u3 Hs3 ltac:(lia)) as (n' & u4' & E4' & Hn & _).
  rewrite E4 in E4'. simplify_eq E4'. intros <- <-. simplify_eq E. lia.
Qed.

Lemma on_buf_self {A} (m : D A) s a s1 b : b = db s → m s = Ok (a, s1) →
  on_buf b m s = Ok ((a, db s1), s1 <| db := db s |>).
Proof.
  intros -> E. unfold on_buf. replace (s <| db := db s |>) with s by (by destruct s). by rewrite E.
Qed.

Lemma alloc_answer_run s : ∃ ok s', alloc_answer s = Ok (ok, s') ∧ db s' = db s.
Proof. unfold alloc_answer. destruct (allocs s) as [|[e|] r]; eexists _, _; done. Qed.

Lemma read_abbrev_follow code b s1 s2 z t1 :
  wf_buf (db s1) → db s1 = db s2 → db_start b = db_start (db s1) → count_entry b s1 = Ok (z, t1) →
  ∃ r t2, read_abbrev code s2 = Ok (r, t2) ∧ ∀ a, r = Some a → db t2 = db t1.
Proof.
  intros Hs Hd Hb E. unfold count_entry in E.
  destruct (reads_uleb128 s1 Hs) as (tag & u1 & E1 & _ & S1). rewrite (bind_ok _ _ _ _ _ E1) in E.
  destruct (local_uleb128 _ _ _ _ Hd E1) as (u2 & E1' & Hd1).
  pose proof (dstep_wf _ _ Hs S1) as Hs1.
  destruct (reads_byte u1 Hs1) as (hc & v1 & E2 & _ & S2). rewrite (bind_ok _ _ _ _ _ E2) in E.
  destruct (local_byte _ _ _ _ (eq_sym Hd1) E2) as (v2 & E2' & Hd2).
  pose proof (dstep_wf _ _ Hs1 S2) as Hs2.
  assert (Hst : db_start b = db_start (db v1)) by (by rewrite (st_start _ _ S2), (st_start _ _ S1)).
  assert (Hf : (Z.to_nat (db_left (db v1)) < S (length (db_start b)))%nat)
    by (rewrite Hst; destruct Hs2 as (_ & ? & ? & ?); lia).
  destruct (count_attrs_runs _ v1 Hs2 Hf) as (n & w1 & E3 & Hn & S3). rewrite (bind_ok _ _ _ _ _ E3) in E.
  destruct (local_count_attrs _ _ _ _ _ (eq_sym Hd2) E3) as (w2 & E3' & Hd3).
  unfold read_abbrev. rewrite (bind_ok _ _ _ _ _ E1'), (bind_ok _ _ _ _ _ E2').
  rewrite bind_ok with (a := db v2) (s1 := v2) by done. rewrite Hst, <-Hd2 in E3'.
  erewrite bind_ok by (apply on_buf_self; [done|exact E3']). cbv beta iota.
  set (v2' := w2 <| db := db v2 |>). assert (db v2' = db v1) as Hd2' by done.
  destruct (Z.eqb_spec n 0) as [->|Hn0].
  - pose proof (count_attrs_0 _ _ _ Hs2 Hf E3) as E3b.
    destruct (local_uleb128 _ _ _ _ (eq_sym Hd2') E3b) as (x2 & E4 & Hd4). rewrite (bind_ok _ _ _ _ _ E4).
    destruct (local_uleb128 _ _ _ _ (eq_sym Hd4) E) as (y2 & E5 & Hd5). rewrite (bind_ok _ _ _ _ _ E5).
    eexists _, _. split; [done|]. done.
  - destruct (alloc_answer_run v2') as (ok & x2 & E4 & Hd4). rewrite (bind_ok _ _ _ _ _ E4).
    destruct ok; cbn [negb]; [|eexists _, _; split; [done|]; done].
    destruct (read_attrs_follow (S (length (db_start b))) [] n v1 x2 n w1 z t1) as (l & y2 & E5 & _ & Hd5);
      try done; try (cbn; lia); [by rewrite Hd4|].
    replace (db_start (db v2)) with (db_start b) by (by rewrite Hst, Hd2).
    rewrite (bind_ok _ _ _ _ _ E5). eexists _, _. split; [done|]. done.
Qed.

Lemma not_reported s s' : dstep s s' → db_reported_underflow (db s') = false → db_reported_underflow (db s) = false.
Proof. intros S H. destruct (db_reported_underflow (db s)) eqn:E; [|done]. by rewrite (st_underflow _ _ S E) in H. Qed.

Lemma read_entries_follow fuel : ∀ k acc cap s1 s2 m t1,
  wf_buf (db s1) → db_left (db s1) ≤ Z.of_nat fuel → db s1 = db s2 →
  count_abbrevs fuel k s1 = Ok (Some m, t1) → db_reported_underflow (db t1) = false →
  Z.of_nat (length acc) + (m - k) ≤ cap →
  ∃ r t2, read_entries fuel cap acc s2 = Ok (r, t2) ∧
    ∀ l, r = Some l → Z.of_nat (length l) = Z.of_nat (length acc) + (m - k).
Proof.
  induction fuel as [|fuel IH]; intros k acc cap s1 s2 m t1 Hs Hf Hd Hc Hu Hcap;
    pose proof (count_abbrevs_runs _ k s1 Hs Hf) as (r0 & t0 & E0 & S0 & Hm);
    rewrite Hc in E0; simplify_eq E0; intros <- <-;
    pose proof (not_reported _ _ S0 Hu) as Hu1;
    destruct (read_uleb128_progress s1 Hs) as (v & u1 & E1 & _ & S1 & HP);
    destruct (local_uleb128 _ _ _ _ Hd E1) as (u2 & E1' & Hd1);
    cbn [read_entries]; rewrite bind_ok with (a := db s2) (s1 := s2) by done;
    rewrite <-Hd, Hu1, (bind_ok _ _ _ _ _ E1').
  - cbn [count_abbrevs] in Hc. rewrite (bind_ok _ _ _ _ _ E1) in Hc.
    assert (v = 0) as -> by (destruct (decide (v = 0)); [done|]; pose proof (st_left _ _ S1); lia).
    apply mret_inv in Hc. simplify_eq. eexists _, _. split; [done|]. intros l [= <-]. lia.
  - rewrite count_abbrevs_step, (bind_ok _ _ _ _ _ E1) in Hc. destruct (Z.eqb_spec v 0) as [->|Hv].
    { apply mret_inv in Hc. simplify_eq. eexists _, _. split; [done|]. intros l [= <-]. lia. }
    rewrite bind_ok with (a := db u1) (s1 := u1) in Hc by done.
    destruct (db_reported_underflow (db u1)); [by apply mret_inv in Hc|].
    pose proof (dstep_wf _ _ Hs S1) as Hs1.
    destruct (count_entry_runs (db u1) u1 Hs1 eq_refl) as (z & v1 & E2 & S2). rewrite (bind_ok _ _ _ _ _ E2) in Hc.
    destruct (read_abbrev_follow v (db u1) u1 u2 z v1 Hs1 (eq_sym Hd1) eq_refl E2) as ([a|] & v2 & E2' & Ha);
      rewrite (bind_ok _ _ _ _ _ E2'); [|by eexists _, _].
    pose proof (dstep_wf _ _ Hs1 S2) as Hs2. pose proof (dstep_left _ _ S2). specialize (HP Hv).
    destruct (count_abbrevs_runs fuel (k + 1) v1 Hs2 ltac:(lia)) as (r1 & t2 & E3 & _ & Hm').
    rewrite Hc in E3. simplify_eq E3. intros <- <-. specialize (Hm' m eq_refl).
    replace (cap <=? Z.of_nat (length acc)) with false by lia.
    destruct (IH (k + 1) (acc ++ [a]) cap v1 v2 m t1) as (r & t2 & E & Hl); try done; try lia.
    { by rewrite (Ha a). }
    { rewrite length_app. cbn. lia. }
    exists r, t2. split; [done|]. intros l Hl'. rewrite (Hl l Hl'), length_app. cbn. lia.
Qed.

Lemma abbrev_compare_orders : orders abbrev_compare.
Proof.
  unfold abbrev_compare. split; intros *; repeat case_match; lia.
Qed.

(** Sorted by code. *)
Definition by_code (l : list abbrev) : Prop := StronglySorted (λ a b, ab_code a ≤ ab_code b) l.

Lemma sorted_by_code l : StronglySorted (λ a b, abbrev_compare a b ≤ 0) l → by_code l.
Proof.
  induction 1 as [|a l _ IH HF]; constructor; [done|]. eapply Forall_impl; [exact HF|].
  intros b. unfold abbrev_compare. repeat case_match; lia.
Qed.

Lemma read_abbrevs_returns abbrev_offset dwarf_abbrev is_bigendian s :
  bytes_ok dwarf_abbrev → Z.of_nat (length dwarf_abbrev) < 2^63 → 0 ≤ abbrev_offset →
  0 ≤ db_left (db s) →
  ∃ ok l s', read_abbrevs abbrev_offset dwarf_abbrev is_bigendian s = Ok ((ok, l), s') ∧ by_code l.
Proof.
  intros Hb Hl Ho Hs. unfold read_abbrevs. cbv zeta.
  destruct (Z.leb_spec (Z.of_nat (length dwarf_abbrev)) abbrev_offset).
  { eexists _, _, _. split; [done|]. constructor. }
  set (ab := mk_dwarf_buf _ _ _ _ _ _). assert (wf_buf ab) as Hw by (repeat split; try done; cbn; lia).
  assert (wf_buf (db (s <| db := ab |>))) as Hw1 by exact Hw.
  destruct (count_abbrevs_runs (length dwarf_abbrev) 0 _ Hw1 ltac:(cbn; lia)) as (r & t1 & E1 & S1 & Hm).
  destruct (on_buf_ok _ _ _ _ _ E1 S1 Hs) as [E1' _]. rewrite (bind_ok _ _ _ _ _ E1'). cbv beta iota.
  destruct r as [m|]; [|eexists _, _, _; split; [done|]; constructor].
  destruct (db_reported_underflow (db t1)) eqn:Hu; [eexists _, _, _; split; [done|]; constructor|].
  destruct (m =? 0); [eexists _, _, _; split; [done|]; constructor|].
  destruct (alloc_answer_run (t1 <| db := db s |>)) as (ok & s2 & E2 & Hd2). rewrite (bind_ok _ _ _ _ _ E2).
  destruct ok; cbn [negb]; [|eexists _, _, _; split; [done|]; constructor].
  destruct (read_entries_follow (length dwarf_abbrev) 0 [] m (s <| db := ab |>) (s2 <| db := ab |>) m t1)
    as (r & t2 & E3 & _); try done; [cbn; lia..|].
  unfold on_buf. unfold mbind at 1, M_bind at 1. rewrite E3.
  destruct r as [l|]; [|eexists _, _, _; split; [done|]; constructor].
  destruct (qsort_structs_sorts abbrev_compare (l ++ replicate (Z.to_nat m - length l) (mk_abbrev 0 0 0 [])))
    as (l' & E4 & _ & HS). rewrite E4. eexists _, _, _. split; [done|].
  apply sorted_by_code, HS, abbrev_compare_orders.
Qed.

(** [read_abbrevs] is safe on any input: whatever the bytes of
    [.debug_abbrev], the offset and the allocator's answers, it returns without
    reading outside the section or writing outside the arrays sized by its
    counting pass, and on success the table is sorted by code. *)
Theorem read_abbrevs_safe abbrev_offset dwarf_abbrev is_bigendian s :
  bytes_ok dwarf_abbrev → Z.of_nat (length dwarf_abbrev) < 2^63 → 0 ≤ abbrev_offset →
  0 ≤ db_left (db s) →
  ∃ ok l s', read_abbrevs abbrev_offset dwarf_abbrev is_bigendian s = Ok ((ok, l), s') ∧ by_code l.
Proof. apply read_abbrevs_returns. Qed.

(** ** Searching the table *)
Definition code_sign (l : list abbrev) (code : Z) (i : nat) : Z :=
  match l !! i with Some a => abbrev_compare (mk_abbrev code 0 0 []) a | None => 0 end.

Lemma abbrev_partitioned l code : by_code l → partitioned (code_sign l code) (length l).
Proof.
  unfold code_sign. intros Hs. assert (∀ i j a b, (i < j)%nat → l !! i = Some a → l !! j = Some b → ab_code a ≤ ab_code b) as Hle.
  { induction Hs as [|c l _ IH HF]; intros i j a b Hij Hi Hj; [done|]. destruct i, j; cbn in *; try lia; simplify_eq.
    - exact (proj1 (Forall_lookup _ _) HF _ _ Hj).
    - eapply (IH i j); eauto; lia. }
  split; intros i j Hij; destruct (l !! i) as [a|] eqn:Ei; destruct (l !! j) as [b|] eqn:Ej;
    try (apply lookup_ge_None in Ei; lia); try (apply lookup_ge_None in Ej; lia);
    specialize (Hle i j a b ltac:(lia) Ei Ej); unfold abbrev_compare; cbn; repeat case_match; lia.
Qed.

(** [lookup_abbrev] finds: in a table sorted by code it returns an entry with
    the code exactly when there is one, reporting nothing, and otherwise NULL
    with one error, by the direct index or by the search. *)
Theorem lookup_abbrev_correct l code s : by_code l → 0 ≤ code < 2^64 →
  ∃ r s', lookup_abbrev l code s = Ok (r, s') ∧
    match r with
    | Some a => a ∈ l ∧ ab_code a = code ∧ s' = s
    | None => (∀ a, a ∈ l → ab_code a ≠ code) ∧
        s' = s <| errs := errs s ++ [mk_derr "invalid abbreviation code" None 0] |>
    end.
Proof.
  intros Hs Hc. unfold lookup_abbrev. set (search := (p ← lift_res _; _ : D (option abbrev))).
  assert (∃ r s', search s = Ok (r, s') ∧
    match r with
    | Some a => a ∈ l ∧ ab_code a = code ∧ s' = s
    | None => (∀ a, a ∈ l → ab_code a ≠ code) ∧
        s' = s <| errs := errs s ++ [mk_derr "invalid abbreviation code" None 0] |>
    end) as Hsearch.
  { subst search. destruct (bsearch_spec (λ i, match l !! i with
        | Some a => Ok (abbrev_compare (mk_abbrev code 0 0 []) a) | None => Err OutOfBounds end)
        (code_sign l code) (length l)) as (r & E & Hr); [|by apply abbrev_partitioned|].
    { intros i Hi. unfold code_sign. by destruct (lookup_lt_is_Some_2 l i Hi) as [a ->]. }
    unfold code_sign in Hr. unfold mbind at 1, M_bind at 1, lift_res. rewrite E. destruct r as [i|].
    - destruct Hr as [Hi Hz]. destruct (lookup_lt_is_Some_2 l i Hi) as [a Ea]. rewrite Ea in *.
      exists (Some a), s. split; [done|]. split; [by eapply list_elem_of_lookup_2|]. split; [|done].
      unfold abbrev_compare in Hz. cbn in Hz. repeat case_match; lia.
    - eexists None, _. split; [done|]. split; [|done]. intros a [i Ei]%list_elem_of_lookup Hcode.
      apply (Hr i); [by eapply lookup_lt_Some|]. rewrite Ei. unfold abbrev_compare. cbn.
      by rewrite Hcode, Z.ltb_irrefl. }
  destruct (Z.ltb_spec (u64 (code - 1)) (Z.of_nat (length l))) as [Hlt|]; [|done].
  pose proof (u64_range (code - 1)). unfold array_get.
  replace (u64 (code - 1) <? 0) with false by lia.
  destruct (lookup_lt_is_Some_2 l (Z.to_nat (u64 (code - 1))) ltac:(lia)) as [a Ea]. rewrite Ea.
  rewrite bind_ok with (a := a) (s1 := s) by done. destruct (Z.eqb_spec (ab_code a) code); [|done].
  exists (Some a), s. split; [done|]. split; [by eapply list_elem_of_lookup_2|done].
Qed.

(** ** Round trip

    The encoding of a table (DWARF 5, section 7.5.3). *)
Definition enc_attr (a : attr) : list Z :=
  uleb128_enc 9 (at_name a) ++ uleb128_enc 9 (at_form a) ++
  (if at_form a =? DW_FORM_implicit_const then sleb128_enc 9 (at_val a) else []).
Definition enc_attrs (l : list attr) : list Z := concat (enc_attr <$> l).
Definition enc_abbrev (a : abbrev) : list Z :=
  uleb128_enc 9 (ab_code a) ++ uleb128_enc 9 (ab_tag a) ++ [ab_has_children a] ++
  enc_attrs (ab_attrs a) ++ [0; 0].
Definition enc_abbrevs (l : list abbrev) : list Z := concat (enc_abbrev <$> l) ++ [0].

Definition attr_valid (a : attr) : Prop :=
  0 < at_name a < 2^32 ∧ 0 ≤ at_form a < 2^32 ∧
  (if at_form a =? DW_FORM_implicit_const then -2^63 ≤ at_val a < 2^63 else at_val a = 0).
Definition abbrev_valid (a : abbrev) : Prop :=
  0 < ab_code a < 2^64 ∧ 0 ≤ ab_tag a < 2^32 ∧ 0 ≤ ab_has_children a < 256 ∧
  Forall attr_valid (ab_attrs a).

Lemma count_attrs_enc l : Forall attr_valid l → ∀ fuel, (length l ≤ fuel)%nat →
  reads_as (enc_attrs l ++ [0]) (Z.of_nat (length l)) (count_attrs fuel).
Proof.
  induction 1 as [|a l (Hn & Hf & Hv) Hl IH]; intros fuel Hle.
  - destruct fuel; cbn [count_attrs]; apply (reads_as_bind [0] [] 0); auto using reads_as_zero, reads_as_ret.
  - destruct fuel as [|fuel]; cbn [length] in Hle; [lia|]. cbn [count_attrs].
    unfold enc_attrs. cbn [fmap list_fmap concat]. unfold enc_attr at 1. rewrite <-!app_assoc.
    eapply reads_as_bind; [apply reads_as_uleb; lia|]. replace (at_name a =? 0) with false by lia.
    eapply reads_as_bind; [apply reads_as_uleb; lia|]. rewrite u32_small by done.
    eapply reads_as_bind with (v := tt).
    + destruct (at_form a =? DW_FORM_implicit_const); [|apply reads_as_ret].
      rewrite <-(app_nil_r (sleb128_enc _ _)). eapply reads_as_bind; [by apply reads_as_sleb|apply reads_as_ret].
    + rewrite <-(app_nil_r (_ ++ [0])). eapply reads_as_bind; [apply (IH fuel); lia|].
      cbn [length]. replace (Z.of_nat (S (length l))) with (Z.of_nat (length l) + 1) by lia. apply reads_as_ret.
Qed.

Lemma read_attrs_enc l : Forall attr_valid l → ∀ fuel cap acc, (length l ≤ fuel)%nat →
  Z.of_nat (length acc + length l) ≤ cap →
  reads_as (enc_attrs l ++ [0; 0]) (acc ++ l) (read_attrs fuel cap acc).
Proof.
  induction 1 as [|a l (Hn & Hf & Hv) Hl IH]; intros fuel cap acc Hle Hcap.
  - rewrite app_nil_r. destruct fuel; cbn [read_attrs];
      (apply (reads_as_bind [0] [0] 0); [apply reads_as_zero|]);
      apply (reads_as_bind [0] [] 0); auto using reads_as_zero, reads_as_ret.
  - destruct fuel as [|fuel]; cbn [length] in Hle, Hcap; [lia|]. cbn [read_attrs].
    unfold enc_attrs. cbn [fmap list_fmap concat]. unfold enc_attr at 1. rewrite <-!app_assoc.
    eapply reads_as_bind; [apply reads_as_uleb; lia|].
    eapply reads_as_bind; [apply reads_as_uleb; lia|]. replace (at_name a =? 0) with false by lia.
    replace (cap <=? Z.of_nat (length acc)) with false by lia. rewrite !u32_small by lia.
    eapply reads_as_bind with (v := at_val a).
    + destruct (at_form a =? DW_FORM_implicit_const); [by apply reads_as_sleb|rewrite Hv; apply reads_as_ret].
    + replace (mk_attr (at_name a) (at_form a) (at_val a)) with a by (by destruct a).
      replace (acc ++ a :: l) with ((acc ++ [a]) ++ l) by (by rewrite <-app_assoc).
      apply (IH fuel cap); [lia|]. rewrite length_app. cbn. lia.
Qed.

Lemma unread_start s bs rest : wf_buf (db s) → unread s = bs ++ rest → (length bs ≤ length (db_start (db s)))%nat.
Proof. intros Hs Hu. pose proof (unread_cons_left _ _ _ Hs Hu). destruct Hs as (_ & ? & ? & ?). lia. Qed.

Lemma uleb128_enc_nonempty z : (1 ≤ length (uleb128_enc 9 z))%nat.
Proof. cbn [uleb128_enc]. destruct (z <? 128); cbn; lia. Qed.

Lemma enc_attrs_length l : (length l ≤ length (enc_attrs l))%nat.
Proof.
  induction l as [|a l IH]; [done|]. unfold enc_attrs in *. cbn [fmap list_fmap concat length]. rewrite length_app. unfold enc_attr at 1.
  rewrite length_app. pose proof (uleb128_enc_nonempty (at_name a)). lia.
Qed.

Lemma enc_abbrevs_length l : (length l ≤ length (concat (enc_abbrev <$> l)))%nat.
Proof.
  induction l as [|a l IH]; [done|]. cbn [fmap list_fmap concat length]. rewrite length_app. unfold enc_abbrev at 1.
  rewrite length_app. pose proof (uleb128_enc_nonempty (ab_code a)). lia.
Qed.

(** The part of an entry after its code. *)
Definition enc_entry (a : abbrev) : list Z :=
  uleb128_enc 9 (ab_tag a) ++ [ab_has_children a] ++ enc_attrs (ab_attrs a) ++ [0; 0].

Lemma count_entry_enc a b s rest : abbrev_valid a → wf_buf (db s) → db_start b = db_start (db s) →
  unread s = enc_entry a ++ rest →
  count_entry b s = Ok (0, moved (Z.of_nat (length (enc_entry a))) s).
Proof.
  intros (Hc & Ht & Hh & Ha) Hs Hb Hu. pose proof (unread_start _ _ _ Hs Hu) as Hlen.
  assert (reads_as (enc_entry a) 0 (count_entry b)) as H; [|by eapply H].
  unfold enc_entry, count_entry in *. eapply reads_as_bind; [apply reads_as_uleb; lia|].
  eapply reads_as_bind; [apply reads_as_byte|].
  replace (enc_attrs (ab_attrs a) ++ [0; 0]) with ((enc_attrs (ab_attrs a) ++ [0]) ++ [0]) by (by rewrite <-app_assoc).
  eapply reads_as_bind; [|apply reads_as_zero]. apply count_attrs_enc; [done|].
  rewrite !length_app in Hlen. pose proof (enc_attrs_length (ab_attrs a)). rewrite Hb. lia.
Qed.

Lemma read_abbrev_enc a s rest : abbrev_valid a → wf_buf (db s) → allocs s = [] →
  unread s = enc_entry a ++ rest →
  read_abbrev (ab_code a) s = Ok (Some a, moved (Z.of_nat (length (enc_entry a))) s).
Proof.
  intros (Hc & Ht & Hh & Ha) Hs Hal Hu. pose proof (unread_start _ _ _ Hs Hu) as Hlen. unfold enc_entry in *.
  rewrite <-!app_assoc in Hu. unfold read_abbrev.
  rewrite (bind_ok _ _ _ _ _ (reads_as_uleb (ab_tag a) ltac:(lia) s _ Hs Hu)).
  destruct (unread_after _ _ _ Hs Hu) as [Hs1 Hu1]. set (s1 := moved _ s) in *.
  rewrite (bind_ok _ _ _ _ _ (reads_as_byte _ s1 _ Hs1 Hu1)).
  destruct (unread_after _ _ _ Hs1 Hu1) as [Hs2 Hu2]. set (s2 := moved _ s1) in *.
  rewrite bind_ok with (a := db s2) (s1 := s2) by done.
  assert ((length (ab_attrs a) ≤ S (length (db_start (db s2))))%nat) as Hf.
  { change (db_start (db s2)) with (db_start (db s)). rewrite !length_app in Hlen.
    pose proof (enc_attrs_length (ab_attrs a)). lia. }
  assert (unread s2 = (enc_attrs (ab_attrs a) ++ [0]) ++ 0 :: rest) as Hu2' by (rewrite Hu2, <-!app_assoc; done).
  erewrite bind_ok by (apply on_buf_self; [done|by apply (count_attrs_enc _ Ha _ Hf s2 _ Hs2 Hu2')]). cbv beta iota.
  match goal with |- context [?x <| db := db s2 |>] => replace (x <| db := db s2 |>) with s2 by done end.
  assert (moved (Z.of_nat (length (enc_attrs (ab_attrs a) ++ [0; 0]))) s2 =
    moved (Z.of_nat (length (uleb128_enc 9 (ab_tag a) ++ [ab_has_children a] ++ enc_attrs (ab_attrs a) ++ [0; 0]))) s) as Hend.
  { subst s1 s2. rewrite !moved_moved, !length_app. f_equal. cbn [length]. lia. }
  destruct (Z.eqb_spec (Z.of_nat (length (ab_attrs a))) 0) as [H0|H0].
  - assert (ab_attrs a = []) as Hnil by (destruct (ab_attrs a); [done|cbn in H0; lia]). rewrite Hnil in *.
    change (enc_attrs [] ++ [0; 0]) with [0; 0] in *. change (enc_attrs [] ++ [0; 0] ++ rest) with ([0; 0] ++ rest) in Hu2.
    assert (reads_as [0; 0] (Some a) (read_uleb128;; read_uleb128;;
      mret (Some (mk_abbrev (ab_code a) (u32 (ab_tag a)) (ab_has_children a) [])))) as H.
    { apply (reads_as_bind [0] [0] 0); [apply reads_as_zero|]. apply (reads_as_bind [0] [] 0); [apply reads_as_zero|].
      rewrite u32_small, <-Hnil by done. replace (mk_abbrev _ _ _ _) with a by (by destruct a). apply reads_as_ret. }
    by rewrite (H s2 rest Hs2 Hu2), Hend.
  - rewrite bind_ok with (a := true) (s1 := s2) by (unfold alloc_answer; by replace (allocs s2) with (@nil (option Z))).
    cbn [negb]. rewrite app_assoc in Hu2.
    erewrite bind_ok by (apply (read_attrs_enc _ Ha _ (Z.of_nat (length (ab_attrs a))) [] Hf ltac:(cbn; lia) s2 rest Hs2 Hu2)).
    unfold mret, M_ret. rewrite Hend, u32_small by done. do 3 f_equal. by destruct a.
Qed.

Lemma enc_abbrev_split a : enc_abbrev a = uleb128_enc 9 (ab_code a) ++ enc_entry a.
Proof. done. Qed.

Lemma count_abbrevs_enc l : Forall abbrev_valid l → ∀ fuel k s rest, (length l ≤ fuel)%nat →
  wf_buf (db s) → db_reported_underflow (db s) = false → unread s = enc_abbrevs l ++ rest →
  count_abbrevs fuel k s = Ok (Some (k + Z.of_nat (length l)), moved (Z.of_nat (length (enc_abbrevs l))) s).
Proof.
  induction 1 as [|a l Ha Hl IH]; intros fuel k s rest Hf Hs Hr Hu.
  - change (enc_abbrevs []) with [0] in *.
    assert (reads_as [0] (Some (k + Z.of_nat (length (@nil abbrev)))) (count_abbrevs fuel k)) as H; [|by eapply H].
    destruct fuel; cbn [count_abbrevs]; apply (reads_as_bind [0] [] 0); try apply reads_as_zero;
      (cbn; rewrite Z.add_0_r; apply reads_as_ret).
  - destruct fuel as [|fuel]; cbn [length] in Hf; [lia|]. rewrite count_abbrevs_step.
    unfold enc_abbrevs in *. cbn [fmap list_fmap concat] in *. rewrite enc_abbrev_split in Hu |- *. rewrite <-!app_assoc in Hu. rewrite <-!app_assoc.
    destruct Ha as (Hc & Ha). rewrite (bind_ok _ _ _ _ _ (reads_as_uleb (ab_code a) ltac:(lia) s _ Hs Hu)).
    replace (ab_code a =? 0) with false by lia.
    destruct (unread_after _ _ _ Hs Hu) as [Hs1 Hu1]. set (s1 := moved _ s) in *.
    rewrite bind_ok with (a := db s1) (s1 := s1) by done. replace (db_reported_underflow (db s1)) with false by done.
    rewrite (bind_ok _ _ _ _ _ (count_entry_enc a (db s1) s1 _ (conj Hc Ha) Hs1 eq_refl Hu1)).
    destruct (unread_after _ _ _ Hs1 Hu1) as [Hs2 Hu2]. set (s2 := moved _ s1) in *.
    rewrite app_assoc in Hu2. rewrite (IH fuel (k + 1) s2 rest ltac:(lia) Hs2 Hr Hu2). subst s1 s2.
    rewrite !moved_moved, !length_app. cbn [length]. do 2 f_equal; [f_equal; lia|]. f_equal. lia.
Qed.

Lemma read_entries_enc l : Forall abbrev_valid l → ∀ fuel cap acc s rest, (length l ≤ fuel)%nat →
  Z.of_nat (length acc + length l) ≤ cap → allocs s = [] →
  wf_buf (db s) → db_reported_underflow (db s) = false → unread s = enc_abbrevs l ++ rest →
  read_entries fuel cap acc s = Ok (Some (acc ++ l), moved (Z.of_nat (length (enc_abbrevs l))) s).
Proof.
  induction 1 as [|a l Ha Hl IH]; intros fuel cap acc s rest Hf Hcap Hal Hs Hr Hu.
  - change (enc_abbrevs []) with [0] in *. rewrite app_nil_r.
    destruct fuel; cbn [read_entries]; rewrite bind_ok with (a := db s) (s1 := s) by done; rewrite Hr;
      by rewrite (bind_ok _ _ _ _ _ (reads_as_zero s _ Hs Hu)).
  - destruct fuel as [|fuel]; cbn [length] in Hf, Hcap; [lia|]. cbn [read_entries].
    rewrite bind_ok with (a := db s) (s1 := s) by done. rewrite Hr.
    unfold enc_abbrevs in *. cbn [fmap list_fmap concat] in *. rewrite enc_abbrev_split in Hu |- *. rewrite <-!app_assoc in Hu. rewrite <-!app_assoc.
    destruct Ha as (Hc & Ha). rewrite (bind_ok _ _ _ _ _ (reads_as_uleb (ab_code a) ltac:(lia) s _ Hs Hu)).
    replace (ab_code a =? 0) with false by lia.
    destruct (unread_after _ _ _ Hs Hu) as [Hs1 Hu1]. set (s1 := moved _ s) in *.
    rewrite (bind_ok _ _ _ _ _ (read_abbrev_enc a s1 _ (conj Hc Ha) Hs1 Hal Hu1)).
    destruct (unread_after _ _ _ Hs1 Hu1) as [Hs2 Hu2]. set (s2 := moved _ s1) in *.
    replace (cap <=? Z.of_nat (length acc)) with false by lia.
    rewrite app_assoc in Hu2. rewrite (IH fuel cap (acc ++ [a]) s2 rest ltac:(lia)) by
      (done || (rewrite length_app; cbn; lia)). subst s1 s2.
    rewrite <-app_assoc, !moved_moved, !length_app. do 2 f_equal. cbn [length]. f_equal. lia.
Qed.

(** C19. Round trip of abbreviation tables: where the encoding of a table stands in
    [.debug_abbrev], [read_abbrevs] succeeds, reports nothing and returns
    exactly the entries of the table, sorted by code. *)
Theorem abbrevs_roundtrip l pre post is_bigendian s :
  Forall abbrev_valid l → bytes_ok (pre ++ enc_abbrevs l ++ post) →
  Z.of_nat (length (pre ++ enc_abbrevs l ++ post)) < 2^63 → allocs s = [] → 0 ≤ db_left (db s) →
  ∃ l', read_abbrevs (Z.of_nat (length pre)) (pre ++ enc_abbrevs l ++ post) is_bigendian s = Ok ((true, l'), s) ∧
    l ≡ₚ l' ∧ by_code l'.
Proof.
  intros Hl Hb Hlen Hal Hs. unfold read_abbrevs. cbv zeta.
  assert (1 ≤ length (enc_abbrevs l))%nat as H1 by (unfold enc_abbrevs; rewrite length_app; cbn; lia).
  replace (Z.of_nat (length (pre ++ enc_abbrevs l ++ post)) <=? Z.of_nat (length pre)) with false
    by (rewrite !length_app; lia).
  set (data := pre ++ enc_abbrevs l ++ post) in *. set (ab := mk_dwarf_buf _ _ _ _ _ _).
  assert (wf_buf ab) as Hw.
  { repeat split; try done; cbn; try lia. subst data. rewrite !length_app. lia. }
  set (s0 := s <| db := ab |>). assert (unread s0 = enc_abbrevs l ++ post) as Hu.
  { unfold unread. cbn. subst data. rewrite Nat2Z.id, drop_app_length. apply take_ge. rewrite !length_app. lia. }
  assert (length l ≤ length data)%nat as Hf.
  { subst data. unfold enc_abbrevs. rewrite !length_app. pose proof (enc_abbrevs_length l). lia. }
  unfold on_buf. unfold mbind at 1, M_bind at 1. fold s0.
  rewrite (count_abbrevs_enc l Hl _ 0 s0 post Hf Hw eq_refl Hu). cbv beta iota. cbn [db_reported_underflow moved set_field db s0 ab].
  replace (_ <| db := db s |>) with s by (by destruct s).
  destruct (Z.eqb_spec (0 + Z.of_nat (length l)) 0) as [H0|H0].
  { exists []. split; [done|]. destruct l; [|cbn in H0; lia]. split; [done|constructor]. }
  rewrite bind_ok with (a := true) (s1 := s) by (unfold alloc_answer; by rewrite Hal). cbn [negb].
  unfold mbind at 1, M_bind at 1. fold s0.
  rewrite (read_entries_enc l Hl _ (0 + Z.of_nat (length l)) [] s0 post Hf ltac:(cbn; lia) Hal Hw eq_refl Hu).
  cbv beta iota. cbn [app]. replace (Z.to_nat (0 + Z.of_nat (length l)) - length l)%nat with 0%nat by lia.
  cbn [replicate]. rewrite app_nil_r. replace (_ <| db := db s |>) with s by (by destruct s).
  destruct (qsort_structs_sorts abbrev_compare l) as (l' & E & HP & HS).
  exists l'. unfold mbind, M_bind, lift_res. rewrite E. split; [done|]. split; [done|].
  apply sorted_by_code, HS, abbrev_compare_orders.
Qed.

Definition witness_abbrevs : list abbrev :=
  [mk_abbrev 2 0x2e 0 [mk_attr 0x03 0x0e 0; mk_attr 0x3a 0x21 (-5)]; mk_abbrev 1 0x11 1 [mk_attr 0x25 0x0e 0]].

Lemma read_abbrevs_safe_witness :
  ∃ ok l s', read_abbrevs 1 [7; 1; 17; 1; 37; 14; 0; 0; 2; 46] false (witness_state []) = Ok ((ok, l), s') ∧ by_code l.
Proof.
  refine (read_abbrevs_safe 1 [7; 1; 17; 1; 37; 14; 0; 0; 2; 46] false (witness_state []) _ _ _ _).
  - apply (bool_decide_unpack _). vm_compute. exact I.
  - reflexivity.
  - discriminate.
  - discriminate.
Defined.

Lemma abbrevs_roundtrip_witness :
  ∃ l', read_abbrevs 2 ([9; 9] ++ enc_abbrevs witness_abbrevs ++ [5]) false (witness_state [])
    = Ok ((true, l'), witness_state []) ∧ witness_abbrevs ≡ₚ l' ∧ by_code l'.
Proof.
  refine (abbrevs_roundtrip witness_abbrevs [9; 9] [5] false (witness_state []) _ _ _ eq_refl _).
  - repeat constructor; vm_compute; congruence || lia.
  - apply (bool_decide_unpack _). vm_compute. exact I.
  - vm_compute. reflexivity.
  - discriminate.
Defined.

Lemma lookup_abbrev_correct_witness :
  ∃ r s', lookup_abbrev [mk_abbrev 1 0x11 1 []; mk_abbrev 7 0x2e 0 []] 7 (witness_state []) = Ok (r, s') ∧
    match r with
    | Some a => a ∈ [mk_abbrev 1 0x11 1 []; mk_abbrev 7 0x2e 0 []] ∧ ab_code a = 7 ∧ s' = witness_state []
    | None => (∀ a, a ∈ [mk_abbrev 1 0x11 1 []; mk_abbrev 7 0x2e 0 []] → ab_code a ≠ 7) ∧
        s' = (witness_state []) <| errs := [mk_derr "invalid abbreviation code" None 0] |>
    end.
Proof.
  refine (lookup_abbrev_correct [mk_abbrev 1 0x11 1 []; mk_abbrev 7 0x2e 0 []] 7 (witness_state []) _ _).
  - repeat constructor; vm_compute; congruence.
  - split; [discriminate|reflexivity].
Defined.
