(* ===== verification/BtMmap.v ===== *)
(** * The memory allocator of the backtrace library (src/dwarf/mmap.c)

    Memory comes from anonymous [mmap]ings; blocks given back are kept on a
    free list of at most 16 entries, or handed back with [munmap] when they are
    large and aligned.  A block is its address and size; the list nodes live in
    the free blocks themselves, which the invariant keeps apart from all memory
    in use.  What the kernel does is given: the answers of [mmap] and [munmap]
    still to come are in the state. *)
From S2P Require Import Prelude.

Record block := mk_block { b_addr : Z; b_size : Z }.

#[export] Instance block_eq_dec : EqDecision block.
Proof. solve_decision. Defined.

(** The part of [struct backtrace_state] the allocator uses, and the kernel's
    answers: the address of a new mapping ([None] is [MAP_FAILED]) and whether
    [munmap] succeeds. *)
Record bt_state := mk_bt_state {
  threaded : bool;
  lock_alloc : bool;
  freelist : list block;
  mmaps : list (option Z);
  munmaps : list bool;
}.
#[export] Instance bt_state_eta : Settable bt_state := λ s,
  mk_bt_state (threaded s) (lock_alloc s) (freelist s) (mmaps s) (munmaps s).

Abbreviation B := (M bt_state).

(** [sizeof (struct backtrace_freelist_struct)]. *)
Definition freelist_struct_size : Z := 16.

Definition mmap : B (option Z) := λ s,
  match mmaps s with
  | [] => Ok (None, s)
  | a :: r => Ok (a, s <| mmaps := r |>)
  end.

Definition munmap : B bool := λ s,
  match munmaps s with
  | [] => Ok (true, s)
  | a :: r => Ok (a, s <| munmaps := r |>)
  end.

(** The index of the first smallest entry: the loop that sets [ppsmall]. *)
Fixpoint find_small (l : list block) (i : nat) (small : option (nat * Z)) : option (nat * Z) :=
  match l with
  | [] => small
  | b :: l =>
      find_small l (S i)
        (match small with
         | None => Some (i, b_size b)
         | Some (_, sz) => if b_size b <? sz then Some (i, b_size b) else small
         end)
  end.

Definition backtrace_free_locked (addr size : Z) : B unit :=
  if freelist_struct_size <=? size then
    l ← gets freelist;
    let ppsmall := find_small l 0 None in
    let c := Z.of_nat (length l) in
    let push := λ l,
      if addr =? 0 then fail NullDeref
      else modify (λ s, s <| freelist := mk_block addr size :: l |>) in
    if 16 <=? c then
      '(i, small_size) ← deref ppsmall;
      if size <=? small_size then mret tt
      else push (delete i l)
    else push l
  else mret tt.

(** [__sync_lock_test_and_set(&state->lock_alloc, 1) == 0]. *)
Definition take_lock : B bool :=
  t ← gets threaded;
  if negb t then mret true
  else
    old ← gets lock_alloc;
    modify (λ s, s <| lock_alloc := true |>);;
    mret (negb old).

Definition drop_lock : B unit :=
  t ← gets threaded;
  when t (modify (λ s, s <| lock_alloc := false |>)).

Section allocator.
(** [getpagesize ()]. *)
Variable pagesize : Z.

Definition backtrace_free (addr size : Z) : B unit :=
  unmapped ←
    (if 16 * 4096 <=? size then
       if (Z.land addr (pagesize - 1) =? 0) && (Z.land size (pagesize - 1) =? 0)
       then munmap else mret false
     else mret false);
  if (unmapped : bool) then mret tt
  else
    locked ← take_lock;
    when locked (backtrace_free_locked addr size;; drop_lock).

(** The first entry of at least [size] bytes, and its index. *)
Fixpoint first_fit (l : list block) (i : nat) (size : Z) : option (nat * block) :=
  match l with
  | [] => None
  | b :: l => if size <=? b_size b then Some (i, b) else first_fit l (S i) size
  end.

(** [(size + 7) & ~ (size_t) 7]. *)
Definition round8 (size : Z) : Z := Z.land (u64 (size + 7)) (u64 (Z.lnot 7)).

Definition alloc_locked (size : Z) : B (option Z) :=
  l ← gets freelist;
  match first_fit l 0 size with
  | None => mret None
  | Some (i, p) =>
      modify (λ s, s <| freelist := delete i l |>);;
      let size := round8 size in
      when (size <? b_size p) (backtrace_free_locked (b_addr p + size) (b_size p - size));;
      mret (Some (b_addr p))
  end.

(** [(size + pagesize - 1) & ~ (pagesize - 1)]. *)
Definition page_round (size : Z) : Z :=
  Z.land (u64 (size + pagesize - 1)) (u64 (Z.lnot (pagesize - 1))).

(** The address, [None] for NULL. *)
Definition backtrace_alloc (size : Z) : B (option Z) :=
  locked ← take_lock;
  ret ← (if (locked : bool) then (r ← alloc_locked size; drop_lock;; mret r) else mret None);
  match ret with
  | Some a => mret (Some a)
  | None =>
      let asksize := page_round size in
      page ← mmap;
      match page with
      | None => mret None
      | Some page =>
          let size := round8 size in
          when (size <? asksize) (backtrace_free (page + size) (asksize - size));;
          mret (Some page)
      end
  end.

(** [struct backtrace_vector]. *)
Record backtrace_vector := mk_vector { v_base : option Z; v_size : Z; v_alc : Z }.

(** The size of the new allocation of a vector that must grow. *)
Definition grow_alc (vsize size : Z) : Z :=
  let alc := u64 (vsize + size) in
  if vsize =? 0 then u64 (16 * size)
  else if alc <? pagesize then
    let alc := u64 (alc * 2) in
    if pagesize <? alc then pagesize else alc
  else
    page_round (u64 (alc * 2)).

(** The new bytes, [None] for NULL, and the vector. *)
Definition backtrace_vector_grow (size : Z) (vec : backtrace_vector)
    : B (option Z * backtrace_vector) :=
  grown ←
    (if v_alc vec <? size then
       let alc := grow_alc (v_size vec) size in
       base ← backtrace_alloc alc;
       match base with
       | None => mret None
       | Some base =>
           match v_base vec with
           | None => mret tt
           | Some old => backtrace_free old (u64 (v_size vec + v_alc vec))
           end;;
           mret (Some (mk_vector (Some base) (v_size vec) (u64 (alc - v_size vec))))
       end
     else mret (Some vec));
  match grown with
  | None => mret (None, vec)
  | Some vec =>
      base ← deref (v_base vec);
      mret (Some (base + v_size vec),
            mk_vector (v_base vec) (u64 (v_size vec + size)) (u64 (v_alc vec - size)))
  end.

(** The finished bytes, and the vector. *)
Definition backtrace_vector_finish (vec : backtrace_vector) : option Z * backtrace_vector :=
  (v_base vec, mk_vector ((λ b, b + v_size vec) <$> v_base vec) 0 (v_alc vec)).

(** [base + aligned] of a NULL base is the address [aligned]. *)
Definition backtrace_vector_release (vec : backtrace_vector) : B backtrace_vector :=
  let size := v_size vec in
  let aligned := round8 size in
  let alc := u64 (v_alc vec - u64 (aligned - size)) in
  backtrace_free (default 0 (v_base vec) + aligned) alc;;
  mret (mk_vector (if size =? 0 then None else v_base vec) size 0).

(** internal.h *)
Definition backtrace_vector_free (vec : backtrace_vector) : B backtrace_vector :=
  backtrace_vector_release (mk_vector (v_base vec) 0 (u64 (v_alc vec + v_size vec))).
End allocator.

(** ** Arithmetic of the roundings *)
Lemma round_down_mask x k : 0 ≤ k ≤ 64 → 0 ≤ x < 2^64 →
  Z.land x (u64 (Z.lnot (2^k - 1))) = x - x mod 2^k.
Proof.
  intros Hk Hx. assert (2^64 = 2^k * 2^(64 - k)) as H64 by (rewrite <-Z.pow_add_r by lia; f_equal; lia).
  assert (u64 (Z.lnot (2^k - 1)) = Z.shiftl (Z.ones (64 - k)) k) as ->.
  { unfold u64, Z.lnot. rewrite Z.shiftl_mul_pow2, Z.ones_equiv by lia.
    replace (Z.pred (- (2^k - 1))) with (2^64 - 2^k + (-1) * 2^64) by lia.
    rewrite Z.mod_add by lia. pose proof (Z.pow_pos_nonneg 2 k). pose proof (Z.pow_pos_nonneg 2 (64 - k)).
    rewrite Z.mod_small by nia. nia. }
  replace (x - x mod 2^k) with (Z.shiftl (Z.shiftr x k) k)
    by (rewrite Z.shiftl_mul_pow2, Z.shiftr_div_pow2 by lia; pose proof (Z.pow_pos_nonneg 2 k); pose proof (Z_div_mod_eq_full x (2^k)); lia).
  apply Z.bits_inj'. intros n Hn. rewrite Z.land_spec.
  destruct (Z_lt_le_dec n k).
  - rewrite !(Z.shiftl_spec_low _ _ n) by lia. apply andb_false_r.
  - rewrite !Z.shiftl_spec, Z.shiftr_spec by lia. replace (n - k + k) with n by lia.
    destruct (Z_lt_le_dec n 64).
    + rewrite Z.ones_spec_low by lia. apply andb_true_r.
    + rewrite <-(Z.mod_small x (2^64)) by done. by rewrite Z.mod_pow2_bits_high by lia.
Qed.

Lemma round8_spec size : 0 ≤ size < 2^63 → size ≤ round8 size < size + 8 ∧ round8 size mod 8 = 0.
Proof.
  intros Hs. unfold round8. rewrite u64_small by lia.
  change (Z.lnot 7) with (Z.lnot (2^3 - 1)). rewrite !round_down_mask by lia. change (2^3) with 8. lia.
Qed.

Lemma page_round_spec k size : 4 ≤ k ≤ 30 → 0 ≤ size < 2^62 →
  size ≤ page_round (2^k) size < size + 2^k ∧ page_round (2^k) size mod 2^k = 0.
Proof.
  intros Hk Hs. unfold page_round.
  assert (2^4 ≤ 2^k ≤ 2^30) by (split; apply Z.pow_le_mono_r; lia).
  rewrite (u64_small (size + _ - 1)) by lia. rewrite round_down_mask by lia.
  split; [pose proof (Z.mod_pos_bound (size + 2^k - 1) (2^k)); lia|].
  rewrite Zminus_mod_idemp_r. by rewrite Z.sub_diag.
Qed.

(** ** Blocks *)
Definition apart (b1 b2 : block) : Prop :=
  b_addr b1 + b_size b1 ≤ b_addr b2 ∨ b_addr b2 + b_size b2 ≤ b_addr b1 ∨
  b_size b1 ≤ 0 ∨ b_size b2 ≤ 0.

Lemma apart_sym b1 b2 : apart b1 b2 → apart b2 b1.
Proof. unfold apart. lia. Qed.

(** A part of a block. *)
Definition inside (b1 b2 : block) : Prop :=
  b_addr b2 ≤ b_addr b1 ∧ b_addr b1 + b_size b1 ≤ b_addr b2 + b_size b2.

Lemma apart_inside b1 b2 b : inside b1 b2 → apart b2 b → apart b1 b.
Proof. unfold inside, apart. lia. Qed.

Fixpoint all_apart (l : list block) : Prop :=
  match l with
  | [] => True
  | b :: l => Forall (apart b) l ∧ all_apart l
  end.

Lemma all_apart_perm l l' : l ≡ₚ l' → all_apart l → all_apart l'.
Proof.
  induction 1 as [|b l l' HP IH|b c l|l1 l2 l3 _ IH1 _ IH2]; cbn; [done| | |by auto].
  - intros [HF Ha]. split; [by rewrite <-HP|auto].
  - rewrite !Forall_cons. intros ((Hbc & Hb) & Hc & Ha). auto using apart_sym.
Qed.

Lemma Forall_of_sublist {A} (P : A → Prop) l l' : sublist l l' → Forall P l' → Forall P l.
Proof. induction 1; intros HF; [done| |]; apply Forall_cons in HF as [? ?]; auto. Qed.

Lemma all_apart_sublist l l' : sublist l l' → all_apart l' → all_apart l.
Proof.
  induction 1 as [|b l l' HS IH|b l l' HS IH]; cbn; [done| |by intros [_ ?]; auto].
  intros [HF Ha]. split; [by eapply Forall_of_sublist|auto].
Qed.

Lemma all_apart_cons_inside b b' l : inside b' b → all_apart (b :: l) → all_apart (b' :: l).
Proof. intros Hi [HF Ha]. split; [|done]. eapply Forall_impl; [exact HF|]. intros c. by apply apart_inside. Qed.

(** A block of the free list can hold its list node; all free blocks and all
    blocks in use are apart. *)
Definition free_ok (b : block) : Prop := 0 < b_addr b ∧ freelist_struct_size ≤ b_size b.

Record inv (s : bt_state) (live : list block) : Prop := mk_inv {
  inv_apart : all_apart (freelist s ++ live);
  inv_free : Forall free_ok (freelist s);
  inv_length : (length (freelist s) ≤ 16)%nat;
}.

Lemma inv_ext s s' live : freelist s' = freelist s → inv s live → inv s' live.
Proof. intros E [? ? ?]. split; by rewrite E. Qed.

(** *** Giving a block back *)
Lemma find_small_some l : ∀ i small, (l ≠ [] ∨ is_Some small) → is_Some (find_small l i small).
Proof.
  induction l as [|b l IH]; intros i small H; cbn; [by destruct H|]. apply IH. right.
  destruct small as [[? ?]|]; [|by eexists]. destruct (_ <? _); by eexists.
Qed.

Lemma find_small_lt l : ∀ i small j z, find_small l i small = Some (j, z) →
  (j < i + length l)%nat ∨ small = Some (j, z).
Proof.
  induction l as [|b l IH]; intros i small j z E; cbn in *; [by right|].
  apply IH in E as [?|E]; [left; lia|]. destruct small as [[k y]|].
  - destruct (_ <? _); [injection E as <- <-; left; lia|by right].
  - injection E as <- <-. left. lia.
Qed.

Lemma free_locked_ok addr size s live : 0 < addr →
  inv s live → all_apart (mk_block addr size :: freelist s ++ live) →
  ∃ s', backtrace_free_locked addr size s = Ok (tt, s') ∧ inv s' live ∧
    s' = s <| freelist := freelist s' |>.
Proof.
  intros Ha [H1 H2 H3] Hnew. unfold backtrace_free_locked.
  assert (Hsame : s = s <| freelist := freelist s |>) by (by destruct s).
  destruct (Z.leb_spec freelist_struct_size size) as [Hsz|]; [|by exists s].
  rewrite bind_ok with (a := freelist s) (s1 := s) by done. cbv zeta. replace (addr =? 0) with false by lia.
  assert (∀ l', sublist l' (freelist s) → (length l' < 16)%nat →
    inv (s <| freelist := mk_block addr size :: l' |>) live) as Hpush.
  { intros l' Hl' Hlen. split.
    - change (all_apart (mk_block addr size :: l' ++ live)). eapply all_apart_sublist; [|exact Hnew]. apply sublist_skip. by apply sublist_app.
    - constructor; [split; cbn; lia|]. by eapply Forall_of_sublist.
    - cbn. lia. }
  destruct (Z.leb_spec 16 (Z.of_nat (length (freelist s)))).
  - destruct (find_small_some (freelist s) 0 None) as [[i sz] E].
    { left. intros H0. rewrite H0 in H. cbn in H. lia. }
    rewrite E. rewrite bind_ok with (a := (i, sz)) (s1 := s) by done.
    destruct (size <=? sz); [by exists s|].
    eexists. split; [done|]. split; [|done]. apply Hpush; [apply sublist_delete|].
    assert (i < length (freelist s))%nat by (by apply find_small_lt in E as [?|?]).
    rewrite length_delete by (by apply lookup_lt_is_Some). lia.
  - eexists. split; [done|]. split; [|done]. apply Hpush; [done|lia].
Qed.

Lemma inv_drop s b live : inv s (b :: live) → inv s live.
Proof.
  intros [H1 H2 H3]. split; [|done..]. eapply all_apart_sublist; [|exact H1].
  apply sublist_app; [done|]. by apply sublist_cons.
Qed.

Lemma inv_front s b live : inv s (b :: live) → all_apart (b :: freelist s ++ live).
Proof. intros [H1 _ _]. eapply all_apart_perm; [|exact H1]. by rewrite Permutation_middle. Qed.

(** The steps that leave the free list and the answers of [mmap] alone. *)
Definition same_lists (s s' : bt_state) : Prop := freelist s' = freelist s ∧ mmaps s' = mmaps s.

Lemma take_lock_run s : ∃ b s', take_lock s = Ok (b, s') ∧ same_lists s s'.
Proof.
  unfold take_lock. rewrite bind_ok with (a := threaded s) (s1 := s) by done.
  destruct (threaded s); eexists _, _; split; done.
Qed.

Lemma drop_lock_run s : ∃ s', drop_lock s = Ok (tt, s') ∧ same_lists s s'.
Proof.
  unfold drop_lock. rewrite bind_ok with (a := threaded s) (s1 := s) by done.
  destruct (threaded s); eexists; split; done.
Qed.

Lemma free_run pagesize a n s live : 0 < a → inv s (mk_block a n :: live) →
  ∃ s', backtrace_free pagesize a n s = Ok (tt, s') ∧ inv s' live ∧ mmaps s' = mmaps s.
Proof.
  intros Ha Hinv. unfold backtrace_free.
  assert (∃ b s1, (if 16 * 4096 <=? n then
       if (Z.land a (pagesize - 1) =? 0) && (Z.land n (pagesize - 1) =? 0)
       then munmap else mret false else mret false) s = Ok (b, s1) ∧ same_lists s s1)
    as (b & s1 & E1 & Hf1 & Hm1).
  { destruct (16 * 4096 <=? n); [|by eexists _, _]. destruct (_ && _); [|by eexists _, _].
    unfold munmap. destruct (munmaps s); by eexists _, _. }
  rewrite (bind_ok _ _ _ _ _ E1). apply (inv_ext _ s1 _ Hf1) in Hinv.
  destruct b; [exists s1; split; [done|]; split; [by eapply inv_drop|done]|].
  destruct (take_lock_run s1) as (b & s2 & E2 & Hf2 & Hm2). rewrite (bind_ok _ _ _ _ _ E2).
  apply (inv_ext _ s2 _ Hf2) in Hinv. unfold when. destruct b; [|exists s2; split; [done|]; split; [by eapply inv_drop|congruence]].
  destruct (free_locked_ok a n s2 live Ha (inv_drop _ _ _ Hinv) (inv_front _ _ _ Hinv)) as (s3 & E3 & Hinv3 & Hs3).
  rewrite (bind_ok _ _ _ _ _ E3). destruct (drop_lock_run s3) as (s4 & E4 & Hf4 & Hm4). exists s4.
  split; [done|]. split; [by eapply inv_ext|]. rewrite Hm4, Hs3. cbn. congruence.
Qed.

(** *** Taking a block *)
Lemma first_fit_spec l size : ∀ i j b, first_fit l i size = Some (j, b) →
  ∃ k, j = (i + k)%nat ∧ l !! k = Some b ∧ size ≤ b_size b.
Proof.
  induction l as [|c l IH]; intros i j b E; cbn in E; [done|].
  destruct (Z.leb_spec size (b_size c)).
  - injection E as <- <-. exists 0%nat. split; [lia|done].
  - apply IH in E as (k & -> & ? & ?). exists (S k). split; [lia|done].
Qed.

(** A block cut in two: its first bytes, and what is left after them. *)
Lemma all_apart_cut b n m live : 0 ≤ n ≤ m → m ≤ b_size b → all_apart (b :: live) →
  all_apart (mk_block (b_addr b + m) (b_size b - m) :: mk_block (b_addr b) n :: live).
Proof.
  intros Hn Hm Ha. split.
  - constructor; [unfold apart; cbn; lia|]. destruct Ha as [HF _]. eapply Forall_impl; [exact HF|].
    intros c. apply apart_inside. split; cbn; lia.
  - eapply all_apart_cons_inside; [|exact Ha]. split; cbn; lia.
Qed.

Lemma alloc_locked_ok size s live : 0 ≤ size < 2^63 → inv s live →
  ∃ r s', alloc_locked size s = Ok (r, s') ∧ mmaps s' = mmaps s ∧
    match r with
    | Some a => 0 < a ∧ inv s' (mk_block a size :: live)
    | None => s' = s
    end.
Proof.
  intros Hsz Hinv. unfold alloc_locked. rewrite bind_ok with (a := freelist s) (s1 := s) by done.
  destruct (first_fit (freelist s) 0 size) as [[i p]|] eqn:E; [|by exists None, s].
  apply first_fit_spec in E as (k & Hk & Hp & Hfit). cbn in Hk. subst i.
  rewrite bind_ok with (a := tt) (s1 := s <| freelist := delete k (freelist s) |>) by done.
  set (s1 := s <| freelist := _ |>). destruct Hinv as [H1 H2 H3].
  pose proof (proj1 (Forall_lookup _ _) H2 _ _ Hp) as [Hpa Hps].
  assert (freelist s ≡ₚ p :: delete k (freelist s)) as HP by (by apply delete_Permutation).
  assert (all_apart (p :: delete k (freelist s) ++ live)) as Hap.
  { eapply all_apart_perm; [|exact H1]. rewrite app_comm_cons. by apply Permutation_app_tail. }
  destruct (round8_spec size Hsz) as [Hr _].
  assert (∀ n, 0 ≤ n ≤ b_size p → inv s1 (mk_block (b_addr p) n :: live)) as Hinv1.
  { intros n Hn. split.
    - change (freelist s1) with (delete k (freelist s)).
      eapply all_apart_perm; [apply Permutation_middle|].
      eapply all_apart_cons_inside; [|exact Hap]. split; cbn; lia.
    - eapply Forall_of_sublist; [apply sublist_delete|done].
    - change (freelist s1) with (delete k (freelist s)).
      pose proof (sublist_length _ _ (sublist_delete (freelist s) k)). lia. }
  unfold when. destruct (Z.ltb_spec (round8 size) (b_size p)).
  - destruct (free_locked_ok (b_addr p + round8 size) (b_size p - round8 size) s1
      (mk_block (b_addr p) size :: live)) as (s2 & E2 & Hinv2 & Hs2); [lia|by apply Hinv1; lia| |].
    + change (freelist s1) with (delete k (freelist s)).
      eapply all_apart_perm; [|apply (all_apart_cut p size (round8 size) (delete k (freelist s) ++ live)); [lia..|done]].
      apply perm_skip, Permutation_middle.
    + rewrite (bind_ok _ _ _ _ _ E2). eexists _, _. split; [done|]. split; [by rewrite Hs2|]. done.
  - rewrite bind_ok with (a := tt) (s1 := s1) by done. eexists _, _. split; [done|]. split; [done|].
    split; [done|]. apply Hinv1. lia.
Qed.

(** What [mmap] promises of a new mapping of [n] bytes: it is page aligned, not
    at 0, and apart from all the memory that is mapped already. *)
Definition mmap_fresh (pagesize n : Z) (s : bt_state) (live : list block) : Prop :=
  ∀ a r, mmaps s = Some a :: r →
    0 < a ∧ a mod pagesize = 0 ∧ Forall (apart (mk_block a n)) (freelist s ++ live).

Lemma mmap_fresh_ext pagesize n s s' live : same_lists s s' →
  mmap_fresh pagesize n s live → mmap_fresh pagesize n s' live.
Proof. intros [Hf Hm] H a r E. rewrite Hf. apply (H a r). congruence. Qed.

Section allocator_ok.
Variable k : Z.
Hypothesis Hk : 4 ≤ k ≤ 30.

Lemma round8_page size : 0 ≤ size < 2^62 → round8 size ≤ page_round (2^k) size.
Proof.
  intros Hsz. destruct (round8_spec size ltac:(lia)) as [Hr8 Hm8].
  destruct (page_round_spec k size Hk Hsz) as [Hp Hpm].
  assert (2^k = 8 * 2^(k-3)) as H8 by (change 8 with (2^3); rewrite <-Z.pow_add_r by lia; f_equal; lia).
  assert (page_round (2^k) size mod 8 = 0); [|lia].
  apply Z.mod_divide in Hpm; [|pose proof (Z.pow_pos_nonneg 2 k); lia].
  apply Z.mod_divide; [lia|]. etrans; [|exact Hpm]. rewrite H8. apply Z.divide_factor_l.
Qed.

(** The part after [mmap]: the end of the new pages is given back. *)
Lemma new_pages_ok a size s live : 0 ≤ size < 2^62 → inv s live → 0 < a →
  Forall (apart (mk_block a (page_round (2^k) size))) (freelist s ++ live) →
  ∃ s', (when (round8 size <? page_round (2^k) size)
           (backtrace_free (2^k) (a + round8 size) (page_round (2^k) size - round8 size));;
         mret (Some a)) s = Ok (Some a, s') ∧ inv s' (mk_block a size :: live).
Proof.
  intros Hsz Hinv Ha HF. destruct (round8_spec size ltac:(lia)) as [Hr8 _].
  destruct (page_round_spec k size Hk Hsz) as [Hp _]. pose proof (round8_page size Hsz) as Hle.
  assert (all_apart (mk_block a (page_round (2^k) size) :: freelist s ++ live)) as Hap by (split; [done|apply Hinv]).
  assert (∀ l, all_apart (l ++ freelist s ++ live) → inv s (l ++ live)) as Hadd.
  { intros bs Hbs. split; [|apply Hinv..]. eapply all_apart_perm; [|exact Hbs].
    rewrite !app_assoc. by apply Permutation_app_tail, Permutation_app_comm. }
  unfold when. destruct (Z.ltb_spec (round8 size) (page_round (2^k) size)).
  - destruct (free_run (2^k) (a + round8 size) (page_round (2^k) size - round8 size) s
      (mk_block a size :: live) ltac:(lia)) as (s4 & E4 & Hinv4 & _).
    { apply (Hadd [mk_block (a + round8 size) (page_round (2^k) size - round8 size); mk_block a size]).
      apply (all_apart_cut (mk_block a (page_round (2^k) size))); cbn [b_size]; [lia..|done]. }
    rewrite (bind_ok _ _ _ _ _ E4). by eexists.
  - rewrite bind_ok with (a := tt) (s1 := s) by done. eexists. split; [done|].
    apply (Hadd [mk_block a size]). eapply all_apart_cons_inside; [|exact Hap]. split; cbn; lia.
Qed.

Lemma alloc_run size s live : 0 ≤ size < 2^62 → inv s live →
  mmap_fresh (2^k) (page_round (2^k) size) s live →
  ∃ r s', backtrace_alloc (2^k) size s = Ok (r, s') ∧
    match r with
    | Some a => 0 < a ∧ inv s' (mk_block a size :: live)
    | None => inv s' live
    end.
Proof.
  intros Hsz Hinv Hfresh. unfold backtrace_alloc.
  destruct (take_lock_run s) as (b & s1 & E1 & HL1). rewrite (bind_ok _ _ _ _ _ E1).
  apply (inv_ext _ s1 _ (proj1 HL1)) in Hinv. apply (mmap_fresh_ext _ _ _ _ _ HL1) in Hfresh.
  assert (∃ r s2, (if b then (r ← alloc_locked size; drop_lock;; mret r) else mret None) s1 = Ok (r, s2) ∧
    match r with
    | Some a => 0 < a ∧ inv s2 (mk_block a size :: live)
    | None => same_lists s1 s2
    end) as (r & s2 & E2 & Hr).
  { destruct b; [|by eexists None, s1].
    destruct (alloc_locked_ok size s1 live ltac:(lia) Hinv) as (r & s2 & E2 & Hm & Hr).
    rewrite (bind_ok _ _ _ _ _ E2). destruct (drop_lock_run s2) as (s3 & E3 & HL3).
    rewrite (bind_ok _ _ _ _ _ E3). eexists r, s3. split; [done|]. destruct r as [a|].
    - destruct Hr as [Ha Hr]. split; [done|]. by apply (inv_ext s2); [apply HL3|].
    - by subst s2. }
  rewrite (bind_ok _ _ _ _ _ E2). destruct r as [a|]; [by eexists (Some a), _|].
  apply (inv_ext _ s2 _ (proj1 Hr)) in Hinv. apply (mmap_fresh_ext _ _ _ _ _ Hr) in Hfresh.
  cbv zeta. unfold mmap. destruct (mmaps s2) as [|[a|] l] eqn:Em.
  - rewrite bind_ok with (a := None) (s1 := s2) by (by rewrite Em). by eexists None, _.
  - set (s3 := s2 <| mmaps := l |>). rewrite bind_ok with (a := Some a) (s1 := s3) by (by rewrite Em).
    destruct (Hfresh a l Em) as (Ha & _ & HF).
    destruct (new_pages_ok a size s3 live Hsz (inv_ext s2 s3 _ eq_refl Hinv) Ha HF) as (s4 & E4 & Hinv4).
    rewrite E4. by eexists (Some a), _.
  - rewrite bind_ok with (a := None) (s1 := s2 <| mmaps := l |>) by (by rewrite Em). eexists None, _.
    split; [done|]. by apply (inv_ext s2).
Qed.
End allocator_ok.

(** ** Clients of the allocator

    What can happen: a block is asked for, a block in use is given back with its
    size, or the world moves on (another thread takes or leaves the lock, the
    kernel makes up its mind). *)
Inductive client_step (k : Z) : bt_state * list block → bt_state * list block → Prop :=
  | client_alloc s live size a s' :
      0 ≤ size < 2^62 → mmap_fresh (2^k) (page_round (2^k) size) s live →
      backtrace_alloc (2^k) size s = Ok (Some a, s') →
      client_step k (s, live) (s', mk_block a size :: live)
  | client_alloc_fails s live size s' :
      0 ≤ size < 2^62 → mmap_fresh (2^k) (page_round (2^k) size) s live →
      backtrace_alloc (2^k) size s = Ok (None, s') →
      client_step k (s, live) (s', live)
  | client_free s l1 b l2 s' :
      backtrace_free (2^k) (b_addr b) (b_size b) s = Ok (tt, s') →
      client_step k (s, l1 ++ b :: l2) (s', l1 ++ l2)
  | client_world s live lock ms us :
      client_step k (s, live)
        (((s <| lock_alloc := lock |>) <| mmaps := ms |>) <| munmaps := us |>, live).

Definition client_inv (c : bt_state * list block) : Prop :=
  inv c.1 c.2 ∧ Forall (λ b, 0 < b_addr b) c.2.

Lemma client_step_inv k c c' : 4 ≤ k ≤ 30 → client_inv c → client_step k c c' → client_inv c'.
Proof.
  intros Hk [Hinv HF] Hstep. destruct Hstep as [s live size a s' Hsz Hm E|s live size s' Hsz Hm E|s l1 b l2 s' E|];
    cbn [fst snd] in *.
  - destruct (alloc_run k Hk size s live Hsz Hinv Hm) as (r & s1 & E1 & Hr). rewrite E in E1. simplify_eq E1.
    intros <- <-. destruct Hr as [Ha Hr]. split; [done|]. by constructor.
  - destruct (alloc_run k Hk size s live Hsz Hinv Hm) as (r & s1 & E1 & Hr). rewrite E in E1. simplify_eq E1.
    intros <- <-. done.
  - apply Forall_app in HF as [HF1 HF2]. apply Forall_cons in HF2 as [Hb HF2].
    destruct (free_run (2^k) (b_addr b) (b_size b) s (l1 ++ l2) Hb) as (s1 & E1 & Hinv1 & _).
    { destruct Hinv as [H1 H2 H3]. split; [|done..]. replace (mk_block (b_addr b) (b_size b)) with b by (by destruct b).
      eapply all_apart_perm; [|exact H1]. by rewrite Permutation_middle. }
    rewrite E in E1. simplify_eq E1. intros <-. split; [done|]. by apply Forall_app.
  - split; [|done]. by apply (inv_ext s).
Qed.

(** C22. The allocator never hands out memory twice: in every state a client can
    reach from an empty free list, all the blocks in use and all the blocks of
    the free list (at most 16) are apart; every further request and every free
    of a block in use returns; threaded or not, whether or not the lock can be
    taken and whatever the kernel answers. *)
Theorem allocator_safe k th s live :
  4 ≤ k ≤ 30 →
  rtc (client_step k) (mk_bt_state th false [] [] [], []) (s, live) →
  all_apart (freelist s ++ live) ∧ (length (freelist s) ≤ 16)%nat ∧
  (∀ size, 0 ≤ size < 2^62 → mmap_fresh (2^k) (page_round (2^k) size) s live →
     ∃ r s', backtrace_alloc (2^k) size s = Ok (r, s')) ∧
  (∀ b, b ∈ live → ∃ s', backtrace_free (2^k) (b_addr b) (b_size b) s = Ok (tt, s')).
Proof.
  intros Hk Hreach.
  assert (client_inv (s, live)) as [Hinv HF].
  { remember (mk_bt_state th false [] [] [], []) as c0. assert (client_inv c0) as H0 by (subst; repeat constructor; cbn; lia).
    clear Heqc0. revert H0. induction Hreach as [c|c c1 c2 Hs _ IH]; [done|]. intros H0. by apply IH, (client_step_inv k c). }
  cbn [fst snd] in *. split; [apply Hinv|]. split; [apply Hinv|]. split.
  - intros size Hsz Hm. destruct (alloc_run k Hk size s live Hsz Hinv Hm) as (r & s' & E & _). eauto.
  - intros b Hb. apply list_elem_of_split in Hb as (l1 & l2 & ->). apply Forall_app in HF as [_ HF].
    apply Forall_cons in HF as [Hb _].
    destruct (free_run (2^k) (b_addr b) (b_size b) s (l1 ++ l2) Hb) as (s1 & E1 & _); [|eauto].
    destruct Hinv as [H1 H2 H3]. split; [|done..]. replace (mk_block (b_addr b) (b_size b)) with b by (by destruct b).
    eapply all_apart_perm; [|exact H1]. by rewrite Permutation_middle.
Qed.

Lemma allocator_safe_witness :
  let s := mk_bt_state false false [mk_block 4128 4064] [] [] in
  all_apart (freelist s ++ [mk_block 4096 30]).
Proof.
  intros s. refine (proj1 (allocator_safe 12 false s [mk_block 4096 30] _ _)).
  - split; discriminate.
  - eapply rtc_l; [apply (client_world 12 _ _ false [Some 4096] [])|].
    eapply rtc_l; [|apply rtc_refl].
    eapply (client_alloc 12 _ [] 30 4096).
    + split; [discriminate|reflexivity].
    + intros a r [= <- <-]. split; [reflexivity|]. split; [reflexivity|constructor].
    + vm_compute. reflexivity.
Defined.

(** ** Vectors *)

(** The vector owns one block, of its bytes and the bytes still free. *)
Definition vec_block (v : backtrace_vector) : list block :=
  match v_base v with
  | Some a => [mk_block a (v_size v + v_alc v)]
  | None => []
  end.
Definition vec_ok (v : backtrace_vector) : Prop :=
  0 ≤ v_size v ∧ 0 ≤ v_alc v ∧ v_size v + v_alc v < 2^60 ∧
  match v_base v with Some a => 0 < a | None => v_size v = 0 ∧ v_alc v = 0 end.

Lemma grow_alc_enough k vsize size : 4 ≤ k ≤ 30 → 0 ≤ vsize < 2^59 → 0 < size < 2^30 →
  vsize + size ≤ grow_alc (2^k) vsize size < 2 * (vsize + 16 * size) + 2^k.
Proof.
  intros Hk Hv Hs. assert (2^4 ≤ 2^k ≤ 2^30) by (split; apply Z.pow_le_mono_r; lia). unfold grow_alc. cbv zeta.
  rewrite (u64_small (vsize + size)) by lia. destruct (Z.eqb_spec vsize 0); [rewrite u64_small; lia|].
  rewrite u64_small by lia. destruct (Z.ltb_spec (vsize + size) (2^k)).
  - destruct (Z.ltb_spec (2^k) ((vsize + size) * 2)); lia.
  - destruct (page_round_spec k ((vsize + size) * 2) Hk) as [? _]; lia.
Qed.

(** [backtrace_vector_grow]: when it succeeds the vector is one element longer
    and owns a block with room for it, apart from all other blocks; when the
    allocation fails it returns NULL and the vector is as it was. *)
Theorem vector_grow_ok k size vec s live :
  4 ≤ k ≤ 30 → 0 < size < 2^30 → vec_ok vec → v_size vec < 2^57 → inv s (vec_block vec ++ live) →
  mmap_fresh (2^k) (page_round (2^k) (grow_alc (2^k) (v_size vec) size)) s (vec_block vec ++ live) →
  ∃ p vec' s', backtrace_vector_grow (2^k) size vec s = Ok ((p, vec'), s') ∧
    inv s' (vec_block vec' ++ live) ∧ vec_ok vec' ∧
    match p with
    | Some p => ∃ base, v_base vec' = Some base ∧ p = base + v_size vec ∧ v_size vec' = v_size vec + size
    | None => vec' = vec
    end.
Proof.
  intros Hk Hsz Hv Hv57 Hinv Hm. assert (2^4 ≤ 2^k ≤ 2^30) by (split; apply Z.pow_le_mono_r; lia).
  destruct vec as [base vs va]. destruct Hv as (H1 & H2 & H3 & H4). cbn [v_base v_size v_alc] in *.
  unfold backtrace_vector_grow. cbn [v_base v_size v_alc].
  destruct (Z.ltb_spec va size) as [Hlt|Hge].
  - pose proof (grow_alc_enough k vs size Hk ltac:(lia) Hsz) as Halc. cbv zeta.
    set (alc := grow_alc (2^k) vs size) in *.
    destruct (alloc_run k Hk alc s _ ltac:(lia) Hinv Hm) as (r & s1 & E1 & Hr).
    destruct r as [a|].
    + destruct Hr as [Ha Hr].
      assert (∃ s2, match base with None => mret tt | Some old => backtrace_free (2^k) old (u64 (vs + va)) end s1
        = Ok (tt, s2) ∧ inv s2 (mk_block a alc :: live)) as (s2 & E2 & Hinv2).
      { destruct base as [old|]; [|by exists s1]. rewrite u64_small by lia.
        destruct (free_run (2^k) old (vs + va) s1 (mk_block a alc :: live) H4) as (s2 & E2 & ? & _); [|eauto].
        destruct Hr as [Hr1 Hr2 Hr3]. split; [|done..]. eapply all_apart_perm; [|exact Hr1].
        apply Permutation_app_head, perm_swap. }
      erewrite bind_ok by (rewrite (bind_ok _ _ _ _ _ E1), (bind_ok _ _ _ _ _ E2); done).
      cbn [v_base v_size v_alc]. rewrite bind_ok with (a := a) (s1 := s2) by done.
      rewrite (u64_small (alc - vs)), (u64_small (vs + size)), u64_small by lia.
      eexists _, _, _. split; [done|]. cbn. replace (vs + size + (alc - vs - size)) with alc by lia.
      split; [done|]. split; [repeat split; cbn; lia|]. eauto.
    + erewrite bind_ok by (rewrite (bind_ok _ _ _ _ _ E1); done). eexists _, _, _. split; [done|].
      split; [done|]. split; [|done]. done.
  - destruct base as [old|]; [|lia]. rewrite bind_ok with (a := Some (mk_vector (Some old) vs va)) (s1 := s) by done.
    cbn [v_base v_size v_alc]. rewrite bind_ok with (a := old) (s1 := s) by done.
    rewrite (u64_small (vs + size)), u64_small by lia. eexists _, _, _. split; [done|]. cbn.
    replace (vs + size + (va - size)) with (vs + va) by lia. split; [done|]. split; [repeat split; cbn; lia|]. eauto.
Qed.

Lemma vector_grow_ok_witness :
  ∃ p vec' s', backtrace_vector_grow (2^12) 24 (mk_vector None 0 0)
      (mk_bt_state false false [] [Some 4096] []) = Ok ((p, vec'), s') ∧
    inv s' (vec_block vec' ++ []) ∧ vec_ok vec'.
Proof.
  destruct (vector_grow_ok 12 24 (mk_vector None 0 0) (mk_bt_state false false [] [Some 4096] []) [])
    as (p & v & s' & E & H1 & H2 & _).
  - split; discriminate.
  - split; reflexivity.
  - repeat split; discriminate.
  - reflexivity.
  - split; [exact I|constructor|apply Nat.le_0_l].
  - intros a r [= <- <-]. split; [reflexivity|]. split; [reflexivity|constructor].
  - exists p, v, s'. exact (conj E (conj H1 H2)).
Defined.

(** [backtrace_vector_release] computes the bytes to give back modulo 2^64: with
    less room left than the padding to 8 bytes it gives back almost all of the
    address space. *)
Lemma vector_release_wraps base s : 0 < base → threaded s = false → freelist s = [] →
  ∃ s', backtrace_vector_release 4096 (mk_vector (Some base) 17 3) s = Ok (mk_vector (Some base) 17 0, s') ∧
    freelist s' = [mk_block (base + 24) (2^64 - 4)].
Proof.
  intros Hb Ht Hf. unfold backtrace_vector_release. cbn [v_base v_size v_alc default].
  change (round8 17) with 24. change (u64 (3 - u64 (24 - 17))) with (2^64 - 4). cbv zeta.
  assert (backtrace_free_locked (base + 24) (2^64 - 4) s
    = Ok (tt, s <| freelist := [mk_block (base + 24) (2^64 - 4)] |>)) as E.
  { unfold backtrace_free_locked. change (freelist_struct_size <=? 2^64 - 4) with true. cbv iota.
    rewrite bind_ok with (a := []) (s1 := s) by (by rewrite <-Hf). cbn [length Z.of_nat find_small].
    change (16 <=? 0) with false. cbv zeta iota. by replace (base + 24 =? 0) with false by lia. }
  exists (s <| freelist := [mk_block (base + 24) (2^64 - 4)] |>). split; [|done]. erewrite bind_ok; [reflexivity|].
  unfold backtrace_free. change (Z.land (2^64 - 4) (4096 - 1) =? 0) with false. rewrite andb_false_r.
  change (16 * 4096 <=? 2^64 - 4) with true. cbv iota. rewrite bind_ok with (a := false) (s1 := s) by done.
  cbv iota. rewrite bind_ok with (a := true) (s1 := s).
  - cbn [when]. rewrite (bind_ok _ _ _ _ _ E). unfold drop_lock. unfold mbind, M_bind, gets. cbn [threaded set_field].
    by rewrite Ht.
  - unfold take_lock, mbind, M_bind, gets. by rewrite Ht.
Qed.
