(* ===== verification/DwarfLine.v ===== *)
(** * Line number tables (src/dwarf/dwarf.c)

    The header of a unit's line number program ([read_line_header], with the
    path tables of DWARF 2-4 and 5), the program itself ([read_line_program],
    [add_line]) and the sorted table made of it ([read_line_info]).

    Memory that is given back ([free_line_header], [backtrace_vector_free]) is
    not part of the state. *)

From S2P Require Import Prelude Util Bytes Sort BtMmap DwarfBuf DwarfAttr.

(** ** Constants *)
Abbreviation DW_LNS_extended_op := 0x0%Z (only parsing).
Abbreviation DW_LNS_copy := 0x1%Z (only parsing).
Abbreviation DW_LNS_advance_pc := 0x2%Z (only parsing).
Abbreviation DW_LNS_advance_line := 0x3%Z (only parsing).
Abbreviation DW_LNS_set_file := 0x4%Z (only parsing).
Abbreviation DW_LNS_set_column := 0x5%Z (only parsing).
Abbreviation DW_LNS_negate_stmt := 0x6%Z (only parsing).
Abbreviation DW_LNS_set_basic_block := 0x7%Z (only parsing).
Abbreviation DW_LNS_const_add_pc := 0x8%Z (only parsing).
Abbreviation DW_LNS_fixed_advance_pc := 0x9%Z (only parsing).
Abbreviation DW_LNS_set_prologue_end := 0xa%Z (only parsing).
Abbreviation DW_LNS_set_epilogue_begin := 0xb%Z (only parsing).
Abbreviation DW_LNS_set_isa := 0xc%Z (only parsing).
Abbreviation DW_LNE_end_sequence := 0x1%Z (only parsing).
Abbreviation DW_LNE_set_address := 0x2%Z (only parsing).
Abbreviation DW_LNE_define_file := 0x3%Z (only parsing).
Abbreviation DW_LNE_set_discriminator := 0x4%Z (only parsing).
Abbreviation DW_LNCT_path := 0x1%Z (only parsing).
Abbreviation DW_LNCT_directory_index := 0x2%Z (only parsing).

(** ** Data *)

(** [struct line_header]; [opcode_lengths] is an offset in the section, a path
    table its array, with its count as the length. *)
Record line_header := mk_line_header {
  version : Z;
  addrsize : Z;
  min_insn_len : Z;
  max_ops_per_insn : Z;
  line_base : Z;
  line_range : Z;
  opcode_base : Z;
  opcode_lengths : Z;
  dirs : list (option cptr);
  filenames : list (option cptr);
}.
#[export] Instance line_header_eta : Settable line_header := λ h,
  mk_line_header (version h) (addrsize h) (min_insn_len h) (max_ops_per_insn h) (line_base h)
    (line_range h) (opcode_base h) (opcode_lengths h) (dirs h) (filenames h).

Record line := mk_line { ln_pc : Z; ln_filename : option cptr; ln_lineno : Z; ln_idx : Z }.

#[export] Instance line_eq_dec : EqDecision line.
Proof. solve_decision. Defined.

(** [struct line_vector]: the lines, and the bytes used and free of [vec]. *)
Record line_vector := mk_line_vector { lv_lines : list line; lv_size : Z; lv_alc : Z }.
Definition sizeof_line : Z := 24.

(** The fields of [struct unit] the line reader uses. *)
Record unit_info := mk_unit_info {
  u_version : Z;
  u_is_dwarf64 : bool;
  u_addrsize : Z;
  u_lineoff : Z;
  u_str_offsets_base : Z;
  u_filename : option cptr;
  u_comp_dir : option cptr;
}.

(** ** Strings *)
Fixpoint string_bytes (s : string) : list Z :=
  match s with
  | EmptyString => []
  | String c s => Z.of_nat (Ascii.nat_of_ascii c) :: string_bytes s
  end.

(** The bytes before the terminator. *)
Fixpoint until_nul (l : list Z) : res (list Z) :=
  match l with
  | [] => Err OutOfBounds
  | c :: l => if c =? 0 then Ok [] else match until_nul l with Ok r => Ok (c :: r) | Err f => Err f end
  end.

(** The answer of [vec]'s growth: the bytes used and free after it, [None] for
    NULL (see [backtrace_vector_grow]). *)
Definition vec_grow (pagesize size vsize valc : Z) : D (option (Z * Z)) :=
  if valc <? size then
    ok ← alloc_answer;
    if negb ok then mret None
    else mret (Some (u64 (vsize + size), u64 (u64 (grow_alc pagesize vsize size - vsize) - size)))
  else mret (Some (u64 (vsize + size), u64 (valc - size))).

Section lines.
Variable dwarf_sections : dwarf_sections.
Variable altlink : option DwarfBuf.dwarf_sections.
Variable is_bigendian : bool.
Variable base_address : Z.
Variable pagesize : Z.

(** The string at [p]. *)
Definition c_string (p : cptr) : res (list Z) :=
  match p with
  | Literal s => Ok (string_bytes s)
  | InSection false sec off => until_nul (drop (Z.to_nat off) (dwarf_sections sec))
  | InSection true sec off =>
      match altlink with
      | Some alt => until_nul (drop (Z.to_nat off) (alt sec))
      | None => Err NullDeref
      end
  | OnHeap _ bytes => Ok bytes
  end.

Definition string_of (p : cptr) : D (list Z) := λ s,
  match c_string p with Ok l => Ok (l, s) | Err f => Err f end.

(** [p[0]] *)
Definition c_first (p : cptr) : D Z :=
  match p with
  | Literal s => mret (default 0 (head (string_bytes s)))
  | InSection false sec off => array_get (dwarf_sections sec) off
  | InSection true sec off =>
      match altlink with
      | Some alt => array_get (alt sec) off
      | None => fail NullDeref
      end
  | OnHeap _ bytes => mret (default 0 (head bytes))
  end.

Definition IS_ABSOLUTE_PATH (p : cptr) : D bool := c ← c_first p; mret (c =? 47).

(** [dir] + "/" + [name] in new memory; [None] for NULL. *)
Definition join_path (dir name : cptr) : D (option cptr) :=
  d ← string_of dir;
  n ← string_of name;
  ok ← alloc_answer;
  if negb ok then mret None
  else
    id ← gets heap;
    modify (λ s, s <| heap := S id |>);;
    mret (Some (OnHeap id (d ++ [47] ++ n))).

(** ** The line vector *)
Definition line_compare (ln1 ln2 : line) : Z :=
  if ln_pc ln1 <? ln_pc ln2 then -1
  else if ln_pc ln2 <? ln_pc ln1 then 1
  else if ln_idx ln1 <? ln_idx ln2 then -1
  else if ln_idx ln2 <? ln_idx ln1 then 1
  else 0.

(** 1 or 0, and the vector. *)
Definition add_line (pc : Z) (filename : option cptr) (lineno : Z) (vec : line_vector)
    : D (bool * line_vector) :=
  let same :=
    match last (lv_lines vec) with
    | Some ln => (pc =? ln_pc ln) && bool_decide (filename = ln_filename ln) && (lineno =? ln_lineno ln)
    | None => false
    end in
  if (same : bool) then mret (true, vec)
  else
    g ← vec_grow pagesize sizeof_line (lv_size vec) (lv_alc vec);
    match g with
    | None => mret (false, vec)
    | Some (size, alc) =>
        let ln := mk_line (u64 (pc + base_address)) filename lineno
                    (s32 (Z.of_nat (length (lv_lines vec)))) in
        mret (true, mk_line_vector (lv_lines vec ++ [ln]) size alc)
    end.

(** ** The header: path tables before DWARF 5 *)

(** The number of strings from [p] to [pend] or an empty one. *)
Fixpoint count_strings (fuel : nat) (p pend : Z) : D Z :=
  if p <? pend then
    c ← byte_at p;
    if c =? 0 then mret 0
    else match fuel with
    | O => fail OutOfFuel
    | S fuel =>
        len ← strnlen_at p (pend - p);
        n ← count_strings fuel (p + (len + 1)) pend;
        mret (n + 1)
    end
  else mret 0.

(** The number of file entries: a string and three LEB128 numbers each. *)
Fixpoint count_files (fuel : nat) (p pend : Z) : D Z :=
  if p <? pend then
    c ← byte_at p;
    if c =? 0 then mret 0
    else match fuel with
    | O => fail OutOfFuel
    | S fuel =>
        len ← strnlen_at p (pend - p);
        let p := p + (len + 1) in
        l1 ← leb128_len p;
        l2 ← leb128_len (p + l1);
        l3 ← leb128_len (p + l1 + l2);
        n ← count_files fuel (p + l1 + l2 + l3) pend;
        mret (n + 1)
    end
  else mret 0.

(** [dirs[i] = read_string (hdr_buf)] until an empty string, in an array of
    [cap] entries; [None] is [return 0]. *)
Fixpoint read_dirs (fuel : nat) (cap : Z) (dirs : list (option cptr)) : D (option (list (option cptr))) :=
  b ← gets db;
  c ← byte_at (db_buf b);
  if c =? 0 then mret (Some dirs)
  else if db_reported_underflow b then mret None
  else match fuel with
  | O => fail OutOfFuel
  | S fuel =>
      p ← read_string;
      if cap <=? Z.of_nat (length dirs) then fail OutOfBounds
      else match p with
      | None => mret None
      | Some o => read_dirs fuel cap (dirs ++ [Some (InSection false (db_name b) o)])
      end
  end.

(** [NULL] or the entry for a file of directory [dir_index]. *)
Definition file_entry (dirs : list (option cptr)) (filename : cptr) (dir_index : Z) : D (option cptr) :=
  abs ← IS_ABSOLUTE_PATH filename;
  let dir := if dir_index <? Z.of_nat (length dirs) then dirs !! Z.to_nat dir_index else None in
  if abs || bool_decide (dir = Some None) then mret (Some filename)
  else match dir with
  | Some (Some dir) => join_path dir filename
  | _ =>
      dwarf_buf_error "invalid directory index in line number program header" 0;;
      mret None
  end.

Fixpoint read_files (fuel : nat) (cap : Z) (dirs filenames : list (option cptr))
    : D (option (list (option cptr))) :=
  b ← gets db;
  c ← byte_at (db_buf b);
  if c =? 0 then mret (Some filenames)
  else if db_reported_underflow b then mret None
  else match fuel with
  | O => fail OutOfFuel
  | S fuel =>
      p ← read_string;
      match p with
      | None => mret None
      | Some o =>
          dir_index ← read_uleb128;
          f ← file_entry dirs (InSection false (db_name b) o) dir_index;
          match f with
          | None => mret None
          | Some f =>
              if cap <=? Z.of_nat (length filenames) then fail OutOfBounds
              else
                read_uleb128;;
                read_uleb128;;
                read_files fuel cap dirs (filenames ++ [Some f])
          end
      end
  end.

(** The directories and the file names; [None] is [return 0]. *)
Definition read_v2_paths (u : unit_info) : D (option (list (option cptr) * list (option cptr))) :=
  b ← gets db;
  let fuel := S (length (db_start b)) in
  n ← count_strings fuel (db_buf b) (db_buf b + db_left b);
  let dirs_count := n + 1 in
  ok ← alloc_answer;
  if negb ok then mret None
  else
    dirs ← read_dirs fuel dirs_count [u_comp_dir u];
    match dirs with
    | None => mret None
    | Some dirs =>
        ok ← advance 1;
        if negb ok then mret None
        else
          b ← gets db;
          n ← count_files fuel (db_buf b) (db_buf b + db_left b);
          let filenames_count := n + 1 in
          ok ← alloc_answer;
          if negb ok then mret None
          else
            files ← read_files fuel filenames_count dirs [u_filename u];
            match files with
            | None => mret None
            | Some files => mret (Some (dirs, files))
            end
    end.
(** ** The header: path tables of DWARF 5 *)

(** [struct line_header_format]. *)
Record line_header_format := mk_format { lnct : Z; lform : Z }.

(** The loop of [read_lnct]: the directory and the path, [None] is [return 0]. *)
Fixpoint read_lnct_loop (u : unit_info) (hdr_addrsize : Z) (hdr_dirs : list (option cptr))
    (formats : list line_header_format) (dir path : option cptr) : D (option (option cptr * option cptr)) :=
  match formats with
  | [] => mret (Some (dir, path))
  | f :: formats =>
      '(ok, val) ← read_attribute dwarf_sections altlink DW_AT_invalid (lform f) 0
        (u_is_dwarf64 u) (u_version u) hdr_addrsize;
      if negb ok then mret None
      else if lnct f =? DW_LNCT_path then
        '(ok, path) ← resolve_string dwarf_sections (u_is_dwarf64 u) is_bigendian
          (u_str_offsets_base u) val path;
        if negb ok then mret None
        else read_lnct_loop u hdr_addrsize hdr_dirs formats dir path
      else if lnct f =? DW_LNCT_directory_index then
        match encoding val, DwarfAttr.u val with
        | ATTR_VAL_UINT, U_uint z =>
            if Z.of_nat (length hdr_dirs) <=? z then
              dwarf_buf_error "invalid directory index in line number program header" 0;;
              mret None
            else
              dir ← array_get hdr_dirs z;
              read_lnct_loop u hdr_addrsize hdr_dirs formats dir path
        | _, _ => read_lnct_loop u hdr_addrsize hdr_dirs formats dir path
        end
      else read_lnct_loop u hdr_addrsize hdr_dirs formats dir path
  end.

Definition read_lnct (u : unit_info) (hdr_addrsize : Z) (hdr_dirs : list (option cptr))
    (formats : list line_header_format) : D (option cptr) :=
  r ← read_lnct_loop u hdr_addrsize hdr_dirs formats None None;
  match r with
  | None => mret None
  | Some (dir, path) =>
      match path with
      | None =>
          dwarf_buf_error "missing file name in line number program header" 0;;
          mret None
      | Some path =>
          match dir with
          | None => mret (Some path)
          | Some dir => join_path dir path
          end
      end
  end.

Fixpoint read_formats (n : nat) : D (list line_header_format) :=
  match n with
  | O => mret []
  | S n =>
      l ← read_uleb128;
      f ← read_uleb128;
      r ← read_formats n;
      mret (mk_format (s32 l) (u32 f) :: r)
  end.

(** The loop over the paths, in the array of [8 * paths_count]
    bytes (modulo 2^64); [None] is the result 0.  The fuel bounds the number of
    paths. *)
Fixpoint read_paths (fuel : nat) (paths_count : Z) (u : unit_info) (hdr_addrsize : Z)
    (hdr_dirs : list (option cptr)) (formats : list line_header_format) (paths : list (option cptr))
    : D (option (list (option cptr))) :=
  if Z.of_nat (length paths) <? paths_count then
    match fuel with
    | O => fail OutOfFuel
    | S fuel =>
        p ← read_lnct u hdr_addrsize hdr_dirs formats;
        match p with
        | None => mret None
        | Some p =>
            if u64 (paths_count * 8) <? 8 * (Z.of_nat (length paths) + 1) then fail OutOfBounds
            else read_paths fuel paths_count u hdr_addrsize hdr_dirs formats (paths ++ [Some p])
        end
    end
  else mret (Some paths).

Definition read_line_header_format_entries (fuel : nat) (u : unit_info) (hdr_addrsize : Z)
    (hdr_dirs : list (option cptr)) : D (option (list (option cptr))) :=
  formats_count ← read_byte;
  ok ← (if formats_count =? 0 then mret true else alloc_answer);
  if negb ok then mret None
  else
    formats ← read_formats (Z.to_nat formats_count);
    paths_count ← read_uleb128;
    if paths_count =? 0 then mret (Some [])
    else
      ok ← alloc_answer;
      if negb ok then mret None
      else read_paths fuel paths_count u hdr_addrsize hdr_dirs formats [].

(** ** The header *)

(** The part read from [hdr_buf]. *)
Definition read_header_fields (fuel : nat) (u : unit_info) (hdr : line_header) : D (option line_header) :=
  min_insn_len ← read_byte;
  max_ops ← (if version hdr <? 4 then mret 1 else read_byte);
  read_byte;;
  line_base ← read_sbyte;
  line_range ← read_byte;
  opcode_base ← read_byte;
  b ← gets db;
  let hdr := mk_line_header (version hdr) (addrsize hdr) min_insn_len max_ops line_base line_range
               opcode_base (db_buf b) [] [] in
  ok ← advance (u32 (opcode_base - 1));
  if negb ok then mret None
  else
    paths ←
      (if version hdr <? 5 then read_v2_paths u
       else
         d ← read_line_header_format_entries fuel u (addrsize hdr) [];
         match d with
         | None => mret None
         | Some d =>
             f ← read_line_header_format_entries fuel u (addrsize hdr) d;
             match f with
             | None => mret None
             | Some f => mret (Some (d, f))
             end
         end);
    match paths with
    | None => mret None
    | Some (d, f) =>
        b ← gets db;
        if db_reported_underflow b then mret None
        else mret (Some ((hdr <| dirs := d |>) <| filenames := f |>))
    end.

(** Reads from [line_buf]; [None] is [return 0]. *)
Definition read_line_header (fuel : nat) (u : unit_info) (is_dwarf64 : bool) : D (option line_header) :=
  version ← read_uint16;
  if (version <? 2) || (5 <? version) then
    dwarf_buf_error "unsupported line number version" (-1);; mret None
  else
    addrsize ←
      (if version <? 5 then mret (Some (u_addrsize u))
       else
         a ← read_byte;
         seg ← read_byte;
         if negb (seg =? 0) then
           dwarf_buf_error "non-zero segment_selector_size not supported" (-1);; mret None
         else mret (Some a));
    match addrsize with
    | None => mret None
    | Some addrsize =>
        hdrlen ← read_offset is_dwarf64;
        b ← gets db;
        let hdr_buf := b <| db_left := hdrlen |> in
        ok ← advance hdrlen;
        if negb ok then mret None
        else
          '(r, _) ← on_buf hdr_buf (read_header_fields fuel u (mk_line_header version addrsize 0 0 0 0 0 0 [] []));
          mret r
    end.

(** ** The program *)

(** The registers of the program, and the vector. *)
Record regs := mk_regs {
  address : Z;
  op_index : Z;
  filename : option cptr;
  lineno : Z;
  vec : line_vector;
}.
#[global] Instance regs_eta : Settable regs := λ r,
  mk_regs (address r) (op_index r) (filename r) (lineno r) (vec r).

Definition reset_filename (hdr : line_header) : option cptr :=
  match filenames hdr with
  | _ :: f :: _ => f
  | _ => Some (Literal EmptyString)
  end.

(** [address += min_insn_len * (op_index + advance) / max_ops_per_insn] and
    [op_index = (op_index + advance) % max_ops_per_insn], with [advance] an
    [unsigned int] or ([wide]) a [uint64_t]. *)
Definition advance_pc (hdr : line_header) (wide : bool) (advance : Z) (r : regs) : D regs :=
  let wrap := if wide then u64 else u32 in
  let sum := wrap (op_index r + advance) in
  q ← div_by (wrap (min_insn_len hdr * sum)) (max_ops_per_insn hdr);
  mret ((r <| address := u64 (address r + q) |>) <| op_index := sum mod max_ops_per_insn hdr |>).

(** [lineno += z] *)
Definition advance_line (z : Z) (r : regs) : D regs :=
  l ← int_arith (lineno r + z); mret (r <| lineno := l |>).

(** A row; the result of [add_line] is not looked at. *)
Definition emit (r : regs) : D regs :=
  '(_, v) ← add_line (address r) (filename r) (lineno r) (vec r);
  mret (r <| vec := v |>).

Definition special_opcode (hdr : line_header) (op : Z) (r : regs) : D regs :=
  let op := op - opcode_base hdr in
  adv ← div_by op (line_range hdr);
  r ← advance_pc hdr false adv r;
  d ← int_arith (line_base hdr + op mod line_range hdr);
  r ← advance_line d r;
  emit r.

(** [DW_LNE_define_file]; [None] is [return 0]. *)
Definition define_file (hdr : line_header) (r : regs) : D (option regs) :=
  b ← gets db;
  f ← read_string;
  match f with
  | None => mret None
  | Some o =>
      let f := InSection false (db_name b) o in
      dir_index ← read_uleb128;
      let dir_index := u32 dir_index in
      read_uleb128;;
      read_uleb128;;
      abs ← IS_ABSOLUTE_PATH f;
      if (abs : bool) then mret (Some (r <| filename := Some f |>))
      else if dir_index <? Z.of_nat (length (dirs hdr)) then
        dir ← array_get (dirs hdr) dir_index;
        dir ← deref dir;
        p ← join_path dir f;
        match p with
        | None => mret None
        | Some p => mret (Some (r <| filename := Some p |>))
        end
      else
        dwarf_buf_error "invalid directory index in line number program" 0;; mret None
  end.

Definition extended_opcode (hdr : line_header) (r : regs) : D (option regs) :=
  len ← read_uleb128;
  op ← read_byte;
  if op =? DW_LNE_end_sequence then
    mret (Some (mk_regs 0 0 (reset_filename hdr) 1 (vec r)))
  else if op =? DW_LNE_set_address then
    a ← read_address (addrsize hdr); mret (Some (r <| address := a |>))
  else if op =? DW_LNE_define_file then define_file hdr r
  else if op =? DW_LNE_set_discriminator then read_uleb128;; mret (Some r)
  else
    ok ← advance (u64 (len - 1));
    mret (if (ok : bool) then Some r else None).

Fixpoint skip_uleb128s (n : nat) : D unit :=
  match n with
  | O => mret tt
  | S n => read_uleb128;; skip_uleb128s n
  end.

Definition standard_opcode (hdr : line_header) (op : Z) (r : regs) : D (option regs) :=
  if op =? DW_LNS_copy then Some <$> emit r
  else if op =? DW_LNS_advance_pc then
    adv ← read_uleb128; Some <$> advance_pc hdr true adv r
  else if op =? DW_LNS_advance_line then
    z ← read_sleb128; Some <$> advance_line (s32 z) r
  else if op =? DW_LNS_set_file then
    fileno ← read_uleb128;
    if Z.of_nat (length (filenames hdr)) <=? fileno then
      dwarf_buf_error "invalid file number in line number program" 0;; mret None
    else
      f ← array_get (filenames hdr) fileno;
      mret (Some (r <| filename := f |>))
  else if op =? DW_LNS_set_column then read_uleb128;; mret (Some r)
  else if op =? DW_LNS_negate_stmt then mret (Some r)
  else if op =? DW_LNS_set_basic_block then mret (Some r)
  else if op =? DW_LNS_const_add_pc then
    let op := u32 (255 - opcode_base hdr) in
    adv ← div_by op (line_range hdr);
    Some <$> advance_pc hdr false adv r
  else if op =? DW_LNS_fixed_advance_pc then
    z ← read_uint16;
    mret (Some ((r <| address := u64 (address r + z) |>) <| op_index := 0 |>))
  else if op =? DW_LNS_set_prologue_end then mret (Some r)
  else if op =? DW_LNS_set_epilogue_begin then mret (Some r)
  else if op =? DW_LNS_set_isa then read_uleb128;; mret (Some r)
  else
    n ← byte_at (opcode_lengths hdr + (op - 1));
    skip_uleb128s (Z.to_nat n);;
    mret (Some r).

(** One round of the loop; [None] is [return 0]. *)
Definition line_step (hdr : line_header) (r : regs) : D (option regs) :=
  op ← read_byte;
  if opcode_base hdr <=? op then Some <$> special_opcode hdr op r
  else if op =? DW_LNS_extended_op then extended_opcode hdr r
  else standard_opcode hdr op r.

Fixpoint line_loop (fuel : nat) (hdr : line_header) (r : regs) : D (option regs) :=
  b ← gets db;
  if 0 <? db_left b then
    match fuel with
    | O => fail OutOfFuel
    | S fuel =>
        r ← line_step hdr r;
        match r with
        | None => mret None
        | Some r => line_loop fuel hdr r
        end
    end
  else mret (Some r).

(** 1 or 0, and the vector.  Each round reads a byte of the section. *)
Definition read_line_program (hdr : line_header) (v : line_vector) : D (option line_vector) :=
  b ← gets db;
  r ← line_loop (length (db_start b)) hdr (mk_regs 0 0 (reset_filename hdr) 1 v);
  mret (vec <$> r).

(** ** The table of a unit

    The header, the lines sorted and, at the end, the extra entry; [None] is
    [return 0]. *)
Definition read_line_info (fuel : nat) (u : unit_info) : D (option (line_header * list line)) :=
  if sec_size dwarf_sections DEBUG_LINE <=? u64 (u_lineoff u) then
    error_callback "unit line offset out of range" 0;; mret None
  else
    '(r, _) ← on_buf (section_buf dwarf_sections DEBUG_LINE (u_lineoff u) is_bigendian)
      ('(len, is_dwarf64) ← read_initial_length;
       modify (λ s, s <| db := (db s) <| db_left := len |> |>);;
       hdr ← read_line_header fuel u is_dwarf64;
       match hdr with
       | None => mret None
       | Some hdr =>
           v ← read_line_program hdr (mk_line_vector [] 0 0);
           b ← gets db;
           match v with
           | None => mret None
           | Some v => if db_reported_underflow b then mret None else mret (Some (hdr, v))
           end
       end);
    match r with
    | None => mret None
    | Some (hdr, v) =>
        if (length (lv_lines v) =? 0)%nat then mret None
        else
          g ← vec_grow pagesize sizeof_line (lv_size v) (lv_alc v);
          match g with
          | None => mret None
          | Some _ =>
              match qsort_structs line_compare (lv_lines v) with
              | Ok sorted => mret (Some (hdr, sorted ++ [mk_line (u64 (-1)) None 0 0]))
              | Err f => fail f
              end
          end
    end.
End lines.

(** ** The line number machine of the standard

    DWARF 5, section 6.2: the operations, the registers this reader keeps, and
    the rows they make. *)
Inductive lop :=
  | L_special (op : Z)
  | L_copy
  | L_advance_pc (n : Z)
  | L_advance_line (z : Z)
  | L_set_file (k : Z)
  | L_set_column (n : Z)
  | L_negate_stmt
  | L_set_basic_block
  | L_const_add_pc
  | L_fixed_advance_pc (n : Z)
  | L_set_prologue_end
  | L_set_epilogue_begin
  | L_set_isa (n : Z)
  | L_end_sequence
  | L_set_address (a : Z)
  | L_set_discriminator (n : Z).

Record lregs := mk_lregs { l_address : Z; l_op_index : Z; l_file : option cptr; l_line : Z }.

(** A row of the matrix; [end_sequence] rows only end a sequence. *)
Record row := mk_row { r_address : Z; r_file : option cptr; r_line : Z; r_end : bool }.

Section machine.
Variable hdr : line_header.

Definition l_init : lregs := mk_lregs 0 0 (reset_filename hdr) 1.

(** The operation advance of section 6.2.5.1. *)
Definition op_advance (n : Z) (r : lregs) : lregs :=
  mk_lregs (u64 (l_address r + min_insn_len hdr * ((l_op_index r + n) / max_ops_per_insn hdr)))
    ((l_op_index r + n) mod max_ops_per_insn hdr) (l_file r) (l_line r).
Definition line_advance (z : Z) (r : lregs) : lregs :=
  mk_lregs (l_address r) (l_op_index r) (l_file r) (l_line r + z).

Definition l_row (e : bool) (r : lregs) : row := mk_row (l_address r) (l_file r) (l_line r) e.

(** One operation: the registers after it, and the rows it makes. *)
Definition l_step (o : lop) (r : lregs) : lregs * list row :=
  match o with
  | L_special op =>
      let a := op - opcode_base hdr in
      let r := line_advance (line_base hdr + a mod line_range hdr) (op_advance (a / line_range hdr) r) in
      (r, [l_row false r])
  | L_copy => (r, [l_row false r])
  | L_advance_pc n => (op_advance n r, [])
  | L_advance_line z => (line_advance z r, [])
  | L_set_file k => (mk_lregs (l_address r) (l_op_index r) (default None (filenames hdr !! Z.to_nat k)) (l_line r), [])
  | L_const_add_pc => (op_advance ((255 - opcode_base hdr) / line_range hdr) r, [])
  | L_fixed_advance_pc n => (mk_lregs (u64 (l_address r + n)) 0 (l_file r) (l_line r), [])
  | L_end_sequence => (l_init, [l_row true r])
  | L_set_address a => (mk_lregs a (l_op_index r) (l_file r) (l_line r), [])
  | L_set_column _ | L_negate_stmt | L_set_basic_block | L_set_prologue_end | L_set_epilogue_begin
  | L_set_isa _ | L_set_discriminator _ => (r, [])
  end.

Fixpoint l_run (os : list lop) (r : lregs) : list row :=
  match os with
  | [] => []
  | o :: os => let '(r', rows) := l_step o r in rows ++ l_run os r'
  end.

(** The line register stays an [int] and the opcodes and operands are ones the
    header allows. *)
Definition lop_valid (o : lop) (r : lregs) : Prop :=
  -2^31 ≤ l_line (l_step o r).1 < 2^31 ∧
  match o with
  | L_special op => opcode_base hdr ≤ op < 256
  | L_copy => DW_LNS_copy < opcode_base hdr
  | L_advance_pc n => DW_LNS_advance_pc < opcode_base hdr ∧ 0 ≤ n < 2^63
  | L_advance_line z => DW_LNS_advance_line < opcode_base hdr ∧ -2^31 ≤ z < 2^31
  | L_set_file k => DW_LNS_set_file < opcode_base hdr ∧ 0 ≤ k < Z.of_nat (length (filenames hdr)) ∧ k < 2^63
  | L_set_column n => DW_LNS_set_column < opcode_base hdr ∧ 0 ≤ n < 2^64
  | L_negate_stmt => DW_LNS_negate_stmt < opcode_base hdr
  | L_set_basic_block => DW_LNS_set_basic_block < opcode_base hdr
  | L_const_add_pc => DW_LNS_const_add_pc < opcode_base hdr
  | L_fixed_advance_pc n => DW_LNS_fixed_advance_pc < opcode_base hdr ∧ 0 ≤ n < 2^16
  | L_set_prologue_end => DW_LNS_set_prologue_end < opcode_base hdr
  | L_set_epilogue_begin => DW_LNS_set_epilogue_begin < opcode_base hdr
  | L_set_isa n => DW_LNS_set_isa < opcode_base hdr ∧ 0 ≤ n < 2^64
  | L_end_sequence => True
  | L_set_address a => addrsize hdr = 8 ∧ 0 ≤ a < 2^64
  | L_set_discriminator n => 0 ≤ n < 2^64
  end.

Fixpoint lops_valid (os : list lop) (r : lregs) : Prop :=
  match os with
  | [] => True
  | o :: os => lop_valid o r ∧ lops_valid os (l_step o r).1
  end.

(** *** The encoding of a program *)
Definition enc_fixed (bigendian : bool) (n : nat) (z : Z) : list Z :=
  if bigendian then reverse (le_split n z) else le_split n z.

Definition enc_lop (e : bool) (o : lop) : list Z :=
  match o with
  | L_special op => [op]
  | L_copy => [DW_LNS_copy]
  | L_advance_pc n => [DW_LNS_advance_pc] ++ uleb128_enc 9 n
  | L_advance_line z => [DW_LNS_advance_line] ++ sleb128_enc 9 z
  | L_set_file k => [DW_LNS_set_file] ++ uleb128_enc 9 k
  | L_set_column n => [DW_LNS_set_column] ++ uleb128_enc 9 n
  | L_negate_stmt => [DW_LNS_negate_stmt]
  | L_set_basic_block => [DW_LNS_set_basic_block]
  | L_const_add_pc => [DW_LNS_const_add_pc]
  | L_fixed_advance_pc n => [DW_LNS_fixed_advance_pc] ++ enc_fixed e 2 n
  | L_set_prologue_end => [DW_LNS_set_prologue_end]
  | L_set_epilogue_begin => [DW_LNS_set_epilogue_begin]
  | L_set_isa n => [DW_LNS_set_isa] ++ uleb128_enc 9 n
  | L_end_sequence => [DW_LNS_extended_op] ++ uleb128_enc 9 1 ++ [DW_LNE_end_sequence]
  | L_set_address a =>
      [DW_LNS_extended_op] ++ uleb128_enc 9 9 ++ [DW_LNE_set_address] ++ enc_fixed e 8 a
  | L_set_discriminator n =>
      [DW_LNS_extended_op] ++ uleb128_enc 9 (1 + Z.of_nat (length (uleb128_enc 9 n))) ++
      [DW_LNE_set_discriminator] ++ uleb128_enc 9 n
  end.

Definition enc_program (e : bool) (os : list lop) : list Z := concat (enc_lop e <$> os).
End machine.

(** *** The table of the rows

    The rows that map addresses, and the lines for them at load address [base]. *)
Definition code_rows (rows : list row) : list row := List.filter (λ r, negb (r_end r)) rows.
Definition table (base : Z) (rows : list row) : list line :=
  imap (λ i r, mk_line (u64 (r_address r + base)) (r_file r) (r_line r) (s32 (Z.of_nat i))) rows.

#[export] Instance row_eq_dec : EqDecision row.
Proof. solve_decision. Defined.

(** The rows without those that repeat the one before. *)
Definition add_distinct (kept : list row) (r : row) : list row :=
  if decide (last kept = Some r) then kept else kept ++ [r].
Definition distinct_rows (rows : list row) : list row := foldl add_distinct [] rows.

(** No row is exactly [base] bytes behind the row before it and has its file and
    line. *)
Definition no_row_at (base : Z) (rows : list row) : Prop :=
  ∀ l1 p r l2, rows = l1 ++ p :: r :: l2 →
    ¬ (r_address r = u64 (r_address p + base) ∧ r_file r = r_file p ∧ r_line r = r_line p).

(** What [add_line] makes of a row. *)
Definition push_row (base : Z) (lines : list line) (r : row) : list line :=
  if r_end r then lines
  else
    match last lines with
    | Some ln =>
        if (r_address r =? ln_pc ln) && bool_decide (r_file r = ln_filename ln) && (r_line r =? ln_lineno ln)
        then lines
        else lines ++ [mk_line (u64 (r_address r + base)) (r_file r) (r_line r) (s32 (Z.of_nat (length lines)))]
    | None => lines ++ [mk_line (u64 (r_address r + base)) (r_file r) (r_line r) (s32 (Z.of_nat (length lines)))]
    end.

Definition lines_of (base : Z) (rows : list row) : list line := foldl (push_row base) [] rows.

(** ** The reader runs the machine *)
Record hdr_ok (hdr : line_header) : Prop := mk_hdr_ok {
  ho_min : 0 ≤ min_insn_len hdr < 256;
  ho_max : 0 < max_ops_per_insn hdr < 256;
  ho_base : -128 ≤ line_base hdr < 128;
  ho_range : 0 < line_range hdr < 256;
  ho_opcode : 0 < opcode_base hdr < 256;
  ho_vliw : max_ops_per_insn hdr = 1 ∨ min_insn_len hdr = 1;
}.

(** [runs_as e bs v m]: [reads_as] with no allocation failing, in byte order
    [e]. *)
Definition runs_as {A} (e : bool) (bs : list Z) (v : A) (m : D A) : Prop :=
  ∀ s rest, wf_buf (db s) → allocs s = [] → db_is_bigendian (db s) = e → unread s = bs ++ rest →
    m s = Ok (v, moved (Z.of_nat (length bs)) s).

Lemma runs_as_of {A} e bs (v : A) m : reads_as bs v m → runs_as e bs v m.
Proof. intros H s rest Hs _ _ Hu. by eapply H. Qed.

Lemma runs_as_bind {A B} e bs1 bs2 (v : A) (w : B) m k :
  runs_as e bs1 v m → runs_as e bs2 w (k v) → runs_as e (bs1 ++ bs2) w (m ≫= k).
Proof.
  intros H1 H2 s rest Hs Ha He Hu. rewrite <-app_assoc in Hu. rewrite (bind_ok _ _ _ _ _ (H1 s _ Hs Ha He Hu)).
  destruct (unread_after s bs1 _ Hs Hu) as [Hs1 Hu1].
  rewrite (H2 _ _ Hs1 Ha He Hu1), moved_moved, length_app. do 3 f_equal. lia.
Qed.

Lemma runs_as_ret {A} e (v : A) : runs_as e [] v (mret v).
Proof. apply runs_as_of, reads_as_ret. Qed.

(** A step that reads nothing. *)
Lemma runs_as_pure {A} e (v : A) m : (∀ s, allocs s = [] → m s = Ok (v, s)) → runs_as e [] v m.
Proof. intros H s rest Hs Ha _ _. cbn. rewrite moved_0. auto. Qed.

Lemma runs_as_bind_pure {A B} e bs (v : A) (w : B) m k :
  (∀ s, allocs s = [] → m s = Ok (v, s)) → runs_as e bs w (k v) → runs_as e bs w (m ≫= k).
Proof. intros Hm Hk. change bs with ([] ++ bs). eapply runs_as_bind; [by apply runs_as_pure|done]. Qed.

Lemma runs_as_last {A B} e bs (v : A) (w : B) m k :
  runs_as e bs v m → (∀ s, allocs s = [] → k v s = Ok (w, s)) → runs_as e bs w (m ≫= k).
Proof. intros Hm Hk. rewrite <-(app_nil_r bs). eapply runs_as_bind; [done|by apply runs_as_pure]. Qed.

Lemma value_of_enc e n z : 0 ≤ z < 2 ^ (8 * Z.of_nat n) → value_of e (enc_fixed e n z) = z.
Proof.
  intros Hz. unfold value_of, enc_fixed. destruct e; rewrite ?reverse_involutive, le_combine_split; by apply Z.mod_small.
Qed.

Lemma enc_fixed_length e n z : length (enc_fixed e n z) = n.
Proof. unfold enc_fixed. destruct e; rewrite ?length_reverse; apply le_split_length. Qed.

Lemma runs_as_uint16 e z : 0 ≤ z < 2^16 → runs_as e (enc_fixed e 2 z) z read_uint16.
Proof.
  intros Hz s rest Hs _ He Hu. pose proof (enc_fixed_length e 2 z) as Hl. pose proof (value_of_enc e 2 z Hz) as Hv.
  destruct (enc_fixed e 2 z) as [|b0 [|b1 [|]]]; try discriminate.
  by rewrite (read_uint16_at s Hs rest b0 b1 Hu), He, Hv.
Qed.

Lemma runs_as_uint64 e z : 0 ≤ z < 2^64 → runs_as e (enc_fixed e 8 z) z read_uint64.
Proof.
  intros Hz s rest Hs _ He Hu. pose proof (enc_fixed_length e 8 z) as Hl. pose proof (value_of_enc e 8 z Hz) as Hv.
  destruct (enc_fixed e 8 z) as [|b0 [|b1 [|b2 [|b3 [|b4 [|b5 [|b6 [|b7 [|]]]]]]]]]; try discriminate.
  by rewrite (read_uint64_at s Hs rest b0 b1 b2 b3 b4 b5 b6 b7 Hu), He, Hv.
Qed.

Section run.
Variables (d : dwarf_sections) (altlink : option dwarf_sections) (base pagesize : Z).
Variable hdr : line_header.
Hypothesis Hhdr : hdr_ok hdr.

(** The registers of the reader and of the machine, and the lines so far. *)
Record rel (r : regs) (l : lregs) (lines : list line) : Prop := mk_rel {
  rel_address : address r = l_address l;
  rel_op_index : op_index r = l_op_index l;
  rel_file : filename r = l_file l;
  rel_line : lineno r = l_line l;
  rel_lines : lv_lines (vec r) = lines;
  rel_op_range : 0 ≤ l_op_index l < max_ops_per_insn hdr;
}.

Lemma u64_add_u64 a b : u64 (a + u64 b) = u64 (a + b).
Proof. unfold u64. by rewrite Z.add_mod_idemp_r. Qed.

Lemma advance_pc_run (wide : bool) n r l lines :
  rel r l lines → 0 ≤ n < (if wide then 2^63 else 2^8) →
  ∃ r', rel r' (op_advance hdr n l) lines ∧ ∀ s, advance_pc hdr wide n r s = Ok (r', s).
Proof.
  intros [R1 R2 R3 R4 R5 R6] Hn. destruct Hhdr as [H1 H2 H3 H4 H5 H6].
  set (wrap := if wide then u64 else u32).
  assert (Hsum : wrap (op_index r + n) = op_index r + n)
    by (subst wrap; destruct wide; [apply u64_small|apply u32_small]; lia).
  assert (Hq : u64 (address r + wrap (min_insn_len hdr * (op_index r + n)) / max_ops_per_insn hdr) =
               u64 (address r + min_insn_len hdr * ((op_index r + n) / max_ops_per_insn hdr))).
  { destruct H6 as [H6|H6]; rewrite H6 in *.
    - rewrite !Z.div_1_r. subst wrap. destruct wide; [apply u64_add_u64|]. rewrite u32_small by nia. done.
    - rewrite !Z.mul_1_l, Hsum. done. }
  eexists. split; [|intros s; unfold advance_pc; fold wrap; unfold div_by; rewrite Hsum;
    replace (max_ops_per_insn hdr =? 0) with false by lia; cbn; reflexivity].
  split; cbn; rewrite ?Hq, ?R1, ?R2; try done. apply Z.mod_pos_bound. lia.
Qed.

Lemma advance_line_run z r l lines :
  rel r l lines → -2^31 ≤ l_line l + z < 2^31 →
  ∃ r', rel r' (line_advance z l) lines ∧ ∀ s, advance_line z r s = Ok (r', s).
Proof.
  intros [R1 R2 R3 R4 R5 R6] Hz. eexists. split; cycle 1.
  - intros s. unfold advance_line. rewrite R4. erewrite bind_ok by (by apply int_arith_ok). done.
  - by split.
Qed.

Lemma vec_grow_run vs va s : allocs s = [] → ∃ p, vec_grow pagesize sizeof_line vs va s = Ok (Some p, s) ∧
  ∀ s', allocs s' = [] → vec_grow pagesize sizeof_line vs va s' = Ok (Some p, s').
Proof.
  intros Ha. unfold vec_grow. destruct (va <? sizeof_line).
  - unfold alloc_answer. eexists. split; [|intros s' Ha']; erewrite bind_ok by (by rewrite ?Ha, ?Ha'); done.
  - eexists. by split.
Qed.

Lemma emit_run r l lines :
  rel r l lines →
  ∃ r', rel r' l (push_row base lines (l_row false l)) ∧ ∀ s, allocs s = [] → emit base pagesize r s = Ok (r', s).
Proof.
  intros [R1 R2 R3 R4 R5 R6]. unfold emit, add_line, push_row, l_row. cbn [r_end r_address r_file r_line].
  rewrite R5, R1, R3, R4.
  set (same := match last lines with
    | Some ln => (l_address l =? ln_pc ln) && bool_decide (l_file l = ln_filename ln) && (l_line l =? ln_lineno ln)
    | None => false end).
  destruct (vec_grow_run (lv_size (vec r)) (lv_alc (vec r))
    (mk_dstate (mk_dwarf_buf DEBUG_LINE [] 0 0 false false) [] [] 0) eq_refl) as ([sz alc] & _ & Hg).
  destruct same eqn:Es.
  - exists (r <| vec := vec r |>). split; [|by intros s Ha].
    split; try done. cbn. rewrite R5. subst same. destruct (last lines) as [ln|]; [|done]. by rewrite Es.
  - eexists. split; [|intros s Ha; rewrite (bind_ok _ _ _ _ _ (bind_ok _ _ _ _ _ (Hg s Ha))); reflexivity].
    split; try done. cbn. subst same. destruct (last lines) as [ln|]; [by rewrite Es|done].
Qed.

(** Takes the branch of a constant opcode. *)
Ltac op_branch :=
  unfold standard_opcode, extended_opcode;
  repeat match goal with
  | |- context [?a =? ?b] =>
      let v := eval vm_compute in (a =? b) in
      lazymatch v with
      | true => change (a =? b) with true
      | false => change (a =? b) with false
      end
  end; cbv iota.

Lemma runs_as_fmap {A B} e bs (f : A → B) v m : runs_as e bs v m → runs_as e bs (f v) (f <$> m).
Proof. intros H s rest Hs Ha He Hu. unfold fmap, M_fmap. by rewrite (H s rest Hs Ha He Hu). Qed.

(** A standard or an extended opcode. *)
Lemma step_standard e op bs r v : op ≠ DW_LNS_extended_op → op < opcode_base hdr →
  runs_as e bs v (standard_opcode base pagesize hdr op r) →
  runs_as e ([op] ++ bs) v (line_step d altlink base pagesize hdr r).
Proof.
  intros Hne Hlt H. eapply runs_as_bind; [apply runs_as_of, reads_as_byte|].
  replace (opcode_base hdr <=? op) with false by lia.
  replace (op =? DW_LNS_extended_op) with false by lia. done.
Qed.

Lemma step_extended e bs r v :
  runs_as e bs v (extended_opcode d altlink hdr r) →
  runs_as e ([DW_LNS_extended_op] ++ bs) v (line_step d altlink base pagesize hdr r).
Proof.
  intros H. eapply runs_as_bind; [apply runs_as_of, reads_as_byte|]. destruct Hhdr as [_ _ _ _ H5 _].
  replace (opcode_base hdr <=? DW_LNS_extended_op) with false by (lia). done.
Qed.

Lemma special_run op r l lines : rel r l lines → lop_valid hdr (L_special op) l →
  ∃ r', rel r' (l_step hdr (L_special op) l).1 (foldl (push_row base) lines (l_step hdr (L_special op) l).2) ∧
    ∀ s, allocs s = [] → special_opcode base pagesize hdr op r s = Ok (r', s).
Proof.
  intros HR [Hline Hop]. cbn [l_step fst snd foldl] in *. cbv zeta in *. destruct Hhdr as [H1 H2 H3 H4 H5 H6].
  set (a := op - opcode_base hdr) in *.
  destruct (advance_pc_run false (a / line_range hdr) r l lines HR) as (r1 & HR1 & E1).
  { pose proof (Z.div_pos a (line_range hdr)). pose proof (Z.div_le_upper_bound a (line_range hdr) a). nia. }
  destruct (advance_line_run (line_base hdr + a mod line_range hdr) r1 _ lines HR1) as (r2 & HR2 & E2).
  { exact Hline. }
  destruct (emit_run r2 _ lines HR2) as (r3 & HR3 & E3). exists r3. split; [done|]. intros s Ha.
  unfold special_opcode. fold a. cbv zeta.
  rewrite bind_ok with (a := a / line_range hdr) (s1 := s)
    by (unfold div_by; by replace (line_range hdr =? 0) with false by lia).
  rewrite (bind_ok _ _ _ _ _ (E1 s)). erewrite bind_ok.
  2: { apply int_arith_ok. pose proof (Z.mod_pos_bound a (line_range hdr)). lia. }
  by rewrite (bind_ok _ _ _ _ _ (E2 s)), E3.
Qed.

Lemma runs_as_uleb e z : 0 ≤ z < 2^64 → runs_as e (uleb128_enc 9 z) z read_uleb128.
Proof. intros. by apply runs_as_of, reads_as_uleb. Qed.

Lemma runs_as_sleb e z : -2^63 ≤ z < 2^63 → runs_as e (sleb128_enc 9 z) z read_sleb128.
Proof. intros. by apply runs_as_of, reads_as_sleb. Qed.

(** The opcodes that leave the registers alone. *)
Lemma skip_one e n r : 0 ≤ n < 2^64 →
  runs_as e (uleb128_enc 9 n) (Some r) (read_uleb128;; mret (Some r) : D (option regs)).
Proof. intros Hn. eapply runs_as_last; [by apply runs_as_uleb|done]. Qed.

(** What [line_step] must do for the operation [o]. *)
Definition steps_as (e : bool) (o : lop) (r : regs) (l : lregs) (lines : list line) : Prop :=
  ∃ r', rel r' (l_step hdr o l).1 (foldl (push_row base) lines (l_step hdr o l).2) ∧
    runs_as e (enc_lop e o) (Some r') (line_step d altlink base pagesize hdr r).

Lemma standard_steps e o op bs r l lines r' :
  enc_lop e o = [op] ++ bs → op ≠ DW_LNS_extended_op → op < opcode_base hdr →
  rel r' (l_step hdr o l).1 (foldl (push_row base) lines (l_step hdr o l).2) →
  runs_as e bs (Some r') (standard_opcode base pagesize hdr op r) → steps_as e o r l lines.
Proof. intros He Hne Hlt HR H. exists r'. split; [done|]. rewrite He. by apply step_standard. Qed.

Lemma extended_steps e o bs r l lines r' :
  enc_lop e o = [DW_LNS_extended_op] ++ bs →
  rel r' (l_step hdr o l).1 (foldl (push_row base) lines (l_step hdr o l).2) →
  runs_as e bs (Some r') (extended_opcode d altlink hdr r) → steps_as e o r l lines.
Proof. intros He HR H. exists r'. split; [done|]. rewrite He. by apply step_extended. Qed.

(** Registers, program counter and line. *)
Lemma step_registers e o r l lines : rel r l lines → lop_valid hdr o l →
  match o with
  | L_copy | L_special _ | L_advance_pc _ | L_advance_line _ | L_const_add_pc | L_fixed_advance_pc _
  | L_set_file _ => steps_as e o r l lines
  | _ => True
  end.
Proof.
  intros HR HV. pose proof HR as [R1 R2 R3 R4 R5 R6]. pose proof Hhdr as [H1 H2 H3 H4 H5 H6].
  destruct o; try exact I.
  - destruct (special_run op r l lines HR HV) as (r' & HR' & E). destruct HV as [_ Hop]. exists r'. split; [done|].
    eapply (runs_as_last e [op] op); [apply runs_as_of, reads_as_byte|]. intros s Ha.
    replace (opcode_base hdr <=? op) with true by lia. unfold fmap, M_fmap. by rewrite E.
  - destruct (emit_run r l lines HR) as (r' & HR' & E). destruct HV as [_ Hop].
    apply (standard_steps e _ DW_LNS_copy [] r l lines r'); try done. op_branch.
    apply runs_as_fmap, runs_as_pure. done.
  - destruct HV as [_ [Hop Hn]]. destruct (advance_pc_run true n r l lines HR Hn) as (r' & HR' & E).
    apply (standard_steps e _ DW_LNS_advance_pc (uleb128_enc 9 n) r l lines r'); try done. op_branch.
    eapply runs_as_last; [apply runs_as_uleb; lia|]. intros s _. unfold fmap, M_fmap. by rewrite E.
  - destruct HV as [Hl [Hop Hz]]. destruct (advance_line_run z r l lines HR Hl) as (r' & HR' & E).
    apply (standard_steps e _ DW_LNS_advance_line (sleb128_enc 9 z) r l lines r'); try done. op_branch.
    eapply runs_as_last; [apply runs_as_sleb; lia|]. intros s _.
    assert (s32 z = z) as -> by (unfold s32; destruct (Z.ltb_spec (z mod 2^32) (2^31)); lia).
    unfold fmap, M_fmap. by rewrite E.
  - destruct HV as [_ (Hop & Hk & Hk63)].
    apply (standard_steps e _ DW_LNS_set_file (uleb128_enc 9 k) r l lines
      (r <| filename := default None (filenames hdr !! Z.to_nat k) |>)); try done. op_branch.
    eapply runs_as_last; [apply runs_as_uleb; lia|]. intros s _.
    replace (Z.of_nat (length (filenames hdr)) <=? k) with false by lia.
    destruct (lookup_lt_is_Some_2 (filenames hdr) (Z.to_nat k)) as [f Ef]; [lia|]. rewrite Ef.
    erewrite bind_ok; [reflexivity|]. unfold array_get. replace (k <? 0) with false by lia. by rewrite Ef.
  - destruct HV as [_ Hop]. destruct (advance_pc_run false ((255 - opcode_base hdr) / line_range hdr) r l lines HR)
      as (r' & HR' & E).
    { pose proof (Z.div_pos (255 - opcode_base hdr) (line_range hdr)).
      pose proof (Z.div_le_upper_bound (255 - opcode_base hdr) (line_range hdr) (255 - opcode_base hdr)). nia. }
    apply (standard_steps e _ DW_LNS_const_add_pc [] r l lines r'); try done. op_branch.
    apply runs_as_pure. intros s _. rewrite u32_small by lia.
    rewrite bind_ok with (a := (255 - opcode_base hdr) / line_range hdr) (s1 := s)
      by (unfold div_by; by replace (line_range hdr =? 0) with false by lia).
    unfold fmap, M_fmap. by rewrite E.
  - destruct HV as [_ [Hop Hn]].
    apply (standard_steps e _ DW_LNS_fixed_advance_pc (enc_fixed e 2 n) r l lines
      ((r <| address := u64 (address r + n) |>) <| op_index := 0 |>)); try done.
    { split; cbn; try done; [by rewrite R1|lia]. }
    op_branch. eapply runs_as_last; [by apply runs_as_uint16|done].
Qed.

(** The other opcodes. *)
Lemma step_others e o r l lines : rel r l lines → lop_valid hdr o l →
  match o with
  | L_copy | L_special _ | L_advance_pc _ | L_advance_line _ | L_const_add_pc | L_fixed_advance_pc _
  | L_set_file _ => True
  | _ => steps_as e o r l lines
  end.
Proof.
  intros HR HV. pose proof HR as [R1 R2 R3 R4 R5 R6]. pose proof Hhdr as [H1 H2 H3 H4 H5 H6].
  destruct o as [| | | | |n| | | | | | |n| |a|n]; try exact I; destruct HV as [_ HV].
  - apply (standard_steps e _ DW_LNS_set_column (uleb128_enc 9 n) r l lines r); try done; [by destruct HV|].
    op_branch. apply skip_one, HV.
  - apply (standard_steps e _ DW_LNS_negate_stmt [] r l lines r); try done. op_branch. apply runs_as_ret.
  - apply (standard_steps e _ DW_LNS_set_basic_block [] r l lines r); try done. op_branch. apply runs_as_ret.
  - apply (standard_steps e _ DW_LNS_set_prologue_end [] r l lines r); try done. op_branch. apply runs_as_ret.
  - apply (standard_steps e _ DW_LNS_set_epilogue_begin [] r l lines r); try done. op_branch. apply runs_as_ret.
  - apply (standard_steps e _ DW_LNS_set_isa (uleb128_enc 9 n) r l lines r); try done; [by destruct HV|].
    op_branch. apply skip_one, HV.
  - eapply (extended_steps e _ (uleb128_enc 9 1 ++ [DW_LNE_end_sequence])); [done| |].
    2: { eapply runs_as_bind; [by apply runs_as_uleb|]. eapply runs_as_last; [apply runs_as_of, reads_as_byte|done]. }
    split; cbn; try done. lia.
  - destruct HV as [Ha8 Ha]. eapply (extended_steps e _ (uleb128_enc 9 9 ++ [DW_LNE_set_address] ++ enc_fixed e 8 a)); [done| |].
    2: { eapply runs_as_bind; [by apply runs_as_uleb|]. eapply runs_as_bind; [apply runs_as_of, reads_as_byte|].
         op_branch. eapply runs_as_last; [rewrite Ha8; by apply runs_as_uint64|done]. }
    by split.
  - eapply (extended_steps e _ (uleb128_enc 9 (1 + Z.of_nat (length (uleb128_enc 9 n))) ++
      [DW_LNE_set_discriminator] ++ uleb128_enc 9 n)); [done|exact HR|].
    pose proof (uleb128_enc_length 9 n).
    eapply runs_as_bind; [apply runs_as_uleb; lia|]. eapply runs_as_bind; [apply runs_as_of, reads_as_byte|].
    op_branch. by apply skip_one.
Qed.

Lemma line_step_run e o r l lines : rel r l lines → lop_valid hdr o l → steps_as e o r l lines.
Proof.
  intros HR HV. pose proof (step_registers e o r l lines HR HV). pose proof (step_others e o r l lines HR HV).
  by destruct o.
Qed.

Lemma enc_lop_nonempty e o : (1 ≤ length (enc_lop e o))%nat.
Proof. destruct o; cbn [enc_lop]; rewrite ?length_app; cbn; lia. Qed.

Lemma line_loop_run e os : ∀ fuel r l lines s,
  rel r l lines → lops_valid hdr os l → (length os ≤ fuel)%nat →
  wf_buf (db s) → allocs s = [] → db_is_bigendian (db s) = e → unread s = enc_program e os →
  ∃ r', line_loop d altlink base pagesize fuel hdr r s
          = Ok (Some r', moved (Z.of_nat (length (enc_program e os))) s) ∧
    lv_lines (vec r') = foldl (push_row base) lines (l_run hdr os l).
Proof.
  induction os as [|o os IH]; intros fuel r l lines s HR HV Hf Hs Ha He Hu.
  - pose proof (unread_length s Hs) as Hl. rewrite Hu in Hl. pose proof Hs as (_ & _ & ? & _).
    exists r. split; [|apply HR]. cbn [enc_program fmap list_fmap concat length].
    change (Z.of_nat 0) with 0. rewrite moved_0.
    destruct fuel; cbn [line_loop]; rewrite bind_ok with (a := db s) (s1 := s) by done;
      by replace (0 <? db_left (db s)) with false by (cbn in Hl; lia).
  - destruct fuel as [|fuel]; cbn [length] in Hf; [lia|]. destruct HV as [HV HVs].
    unfold enc_program in Hu |- *. cbn [fmap list_fmap concat] in Hu |- *. fold (enc_program e os) in *.
    destruct (line_step_run e o r l lines HR HV) as (r1 & HR1 & E1).
    pose proof (unread_cons_left _ _ _ Hs Hu) as Hl. pose proof (enc_lop_nonempty e o).
    destruct (unread_after _ _ _ Hs Hu) as [Hs1 Hu1].
    destruct (IH fuel r1 _ _ _ HR1 HVs ltac:(lia) Hs1 Ha He Hu1) as (r' & E2 & Hr').
    exists r'. split.
    + cbn [line_loop]. rewrite bind_ok with (a := db s) (s1 := s) by done.
      replace (0 <? db_left (db s)) with true by lia.
      rewrite (bind_ok _ _ _ _ _ (E1 s _ Hs Ha He Hu)). rewrite E2, moved_moved, length_app. do 3 f_equal. lia.
    + rewrite Hr'. cbn [l_run]. destruct (l_step hdr o l) as [l' rows]. cbn [fst snd]. by rewrite foldl_app.
Qed.

Lemma enc_program_length e os : (length os ≤ length (enc_program e os))%nat.
Proof.
  induction os as [|o os IH]; [done|]. unfold enc_program in *. cbn [fmap list_fmap concat length].
  rewrite length_app. pose proof (enc_lop_nonempty e o). lia.
Qed.
End run.

(** *** The lines that are kept *)

Lemma table_snoc base rows r : table base (rows ++ [r]) =
  table base rows ++ [mk_line (u64 (r_address r + base)) (r_file r) (r_line r) (s32 (Z.of_nat (length rows)))].
Proof. unfold table. rewrite imap_app. cbn. by rewrite Nat.add_0_r. Qed.

Lemma push_row_table base kept r : r_end r = false →
  push_row base (table base kept) r =
  match last kept with
  | Some p => if decide (r_address r = u64 (r_address p + base) ∧ r_file r = r_file p ∧ r_line r = r_line p)
              then table base kept else table base (kept ++ [r])
  | None => table base (kept ++ [r])
  end.
Proof.
  intros He. unfold push_row. rewrite He. destruct kept as [|p kept _] using rev_ind; [done|].
  rewrite !table_snoc, !last_snoc. cbn [ln_pc ln_filename ln_lineno]. rewrite <- table_snoc.
  assert (length (table base (kept ++ [p])) = length (kept ++ [p])) as -> by (unfold table; apply length_imap).
  case_decide as Hd.
  - destruct Hd as (-> & -> & ->). by rewrite !Z.eqb_refl, bool_decide_true.
  - destruct (Z.eqb_spec (r_address r) (u64 (r_address p + base))); [|done].
    destruct (bool_decide_reflect (r_file r = r_file p)); [|done].
    destruct (Z.eqb_spec (r_line r) (r_line p)); [|done]. by destruct Hd.
Qed.

Lemma lines_of_code base rows lines : foldl (push_row base) lines rows = foldl (push_row base) lines (code_rows rows).
Proof.
  revert lines. induction rows as [|r rows IH]; intros lines; [done|]. cbn [foldl code_rows List.filter].
  unfold push_row at 2. destruct (r_end r) eqn:He; cbn [negb]; [apply IH|]. cbn [foldl]. unfold push_row at 3. rewrite He. apply IH.
Qed.

Lemma code_rows_false rows : Forall (λ r, r_end r = false) (code_rows rows).
Proof. apply Forall_forall. intros r [_ H]%list_elem_of_In%filter_In. by destruct (r_end r). Qed.

Definition address_ok (r : row) : Prop := 0 ≤ r_address r < 2^64.

(** Without a load address, repeated rows are dropped. *)
Lemma lines_distinct rows : ∀ kept, Forall (λ r, r_end r = false) (kept ++ rows) → Forall address_ok (kept ++ rows) →
  foldl (push_row 0) (table 0 kept) rows = table 0 (foldl add_distinct kept rows).
Proof.
  induction rows as [|r rows IH]; intros kept He Ha; [done|]. cbn [foldl].
  pose proof He as [He1 [Her _]%Forall_cons]%Forall_app. pose proof Ha as [Ha1 [Har _]%Forall_cons]%Forall_app.
  rewrite push_row_table by done. unfold add_distinct at 2.
  assert (foldl (push_row 0) (table 0 (kept ++ [r])) rows = table 0 (foldl add_distinct (kept ++ [r]) rows)) as Hadd.
  { apply IH; by rewrite <- app_assoc. }
  destruct (last kept) as [p|] eqn:Hl; [|by rewrite decide_False].
  assert (p ∈ kept) as Hp by (by apply last_Some_elem_of).
  rewrite Forall_forall in He1, Ha1. pose proof (He1 p Hp) as Hep. pose proof (Ha1 p Hp) as Hap. unfold address_ok in Hap.
  case_decide as Hd.
  - rewrite decide_True; [apply IH; [apply Forall_app; split|apply Forall_app; split]|].
    all: try (apply Forall_forall; assumption).
    + by apply Forall_app, proj2, Forall_cons in He as [_ ?].
    + by apply Forall_app, proj2, Forall_cons in Ha as [_ ?].
    + destruct Hd as (H1 & H2 & H3). f_equal. destruct r, p. cbn in *. f_equal; try congruence.
      rewrite H1. unfold u64. rewrite Z.add_0_r, Z.mod_small by lia. done.
  - rewrite decide_False; [done|]. intros [= ->]. destruct Hd. unfold u64. rewrite Z.add_0_r, Z.mod_small by lia. done.
Qed.

(** With one, they are kept. *)
Lemma lines_all base rows : ∀ kept, Forall (λ r, r_end r = false) rows → no_row_at base (kept ++ rows) →
  foldl (push_row base) (table base kept) rows = table base (kept ++ rows).
Proof.
  induction rows as [|r rows IH]; intros kept He Hn; cbn [foldl]; [by rewrite app_nil_r|].
  apply Forall_cons in He as [Her He]. rewrite push_row_table by done.
  assert (foldl (push_row base) (table base (kept ++ [r])) rows = table base (kept ++ r :: rows)) as Hadd.
  { rewrite IH; [by rewrite <- app_assoc|done|by rewrite <- app_assoc]. }
  destruct kept as [|p kept _] using rev_ind; [done|]. rewrite last_snoc. rewrite decide_False; [done|].
  apply (Hn kept p r rows). by rewrite <- app_assoc.
Qed.

(** The addresses of the machine are addresses. *)
Lemma rows_address hdr os : ∀ l, 0 ≤ l_address l < 2^64 → lops_valid hdr os l → Forall address_ok (l_run hdr os l).
Proof.
  induction os as [|o os IH]; intros l Hl HV; [constructor|]. destruct HV as [[_ HV] HVs]. cbn [l_run].
  assert (0 ≤ l_address (l_step hdr o l).1 < 2^64 ∧ Forall address_ok (l_step hdr o l).2) as [H1 H2].
  { destruct o; cbn in *; unfold u64; (split; [first [done|lia|by destruct HV]|]); repeat constructor; unfold address_ok; cbn; unfold u64; lia. }
  destruct (l_step hdr o l) as [l' rows]. apply Forall_app. split; [done|by apply IH].
Qed.


Definition witness_hdr : line_header :=
  mk_line_header 4 8 1 1 (-5) 14 13 20 [None] [Some (Literal "a.c"); Some (Literal "b.c")].
Definition witness_program : list lop :=
  [L_set_address 0x401000; L_advance_line 9; L_copy; L_special 75; L_set_file 0; L_special 76;
   L_advance_pc 4; L_end_sequence].


(** ** Where the reader leaves the standard *)

(** The address advances by [min_insn_len * n / max_ops], not by
    [min_insn_len * (n / max_ops)]: inside an instruction bundle it moves. *)
Lemma vliw_advance_wrong :
  let hdr := mk_line_header 4 8 4 3 (-5) 14 13 0 [] [] in
  ∀ s, (address <$> advance_pc hdr true 1 (mk_regs 0 0 None 1 (mk_line_vector [] 0 0))) s = Ok (1, s) ∧
    l_address (op_advance hdr 1 (mk_lregs 0 0 None 1)) = 0.
Proof. intros hdr s. by split. Qed.

(** With a load address, the same row is added again: the address of the row is
    compared with the address of the line, which has the load address added. *)
Lemma duplicates_kept base r : 0 < base < 2^64 → address_ok r → r_end r = false →
  length (lines_of base [r; r]) = 2%nat.
Proof.
  intros Hb Hr He. unfold lines_of. cbn [foldl]. change [] with (table base []) at 1. rewrite (push_row_table base [] r He). cbn [last app]. rewrite push_row_table by done. cbn [last app].
  rewrite decide_False; [done|]. intros [H _]. unfold address_ok, u64 in *. lia.
Qed.

(** And a row is lost if it is exactly as far behind the one before as the load
    address, with the same file and line. *)
Lemma row_at_load_address_lost base a f n :
  length (lines_of base [mk_row a f n false; mk_row (u64 (a + base)) f n false]) = 1%nat.
Proof.
  unfold lines_of. cbn [foldl]. change [] with (table base []) at 1. rewrite (push_row_table base [] (mk_row a f n false)) by done. cbn [last app]. rewrite push_row_table by done.
  cbn [last app]. by rewrite decide_True.
Qed.

Definition line_section (bs : list Z) : dwarf_sections :=
  λ sec, match sec with DEBUG_LINE => bs | _ => [] end.
Definition line_info (bs : list Z) : res (option (line_header * list line)) :=
  match read_line_info (line_section bs) None false 0 4096 8
          (mk_unit_info 4 false 8 0 0 None None) (witness_state []) with
  | Ok (r, _) => Ok r
  | Err f => Err f
  end.

(** A well-formed table of one line. *)
Lemma line_info_example :
  ∃ hdr, line_info [28;0;0;0; 2;0; 7;0;0;0; 1;1;251;14;1; 0;0; 0;9;2; 0;16;64;0;0;0;0;0; 6; 0;1;1; 7;7;7]
    = Ok (Some (hdr, [mk_line 0x401000 (Some (Literal EmptyString)) 1 0; mk_line (2^64 - 1) None 0 0])).
Proof. eexists. vm_compute. reflexivity. Qed.

(** The length of a unit is not compared with the size of the section: the
    program is read past its end. *)
Lemma unit_length_unchecked :
  line_info [0;16;0;0; 2;0; 7;0;0;0; 1;1;251;14;1; 0;0; 6;6;6;6] = Err OutOfBounds.
Proof. vm_compute. reflexivity. Qed.

(** A directory table that ends with the header and has no terminator: NULL is
    written behind the array sized by the counting pass. *)
Lemma dirs_overflow :
  line_info [30;0;0;0; 2;0; 7;0;0;0; 1;1;251;14;1; 97;0; 6;6;6;6;6;6;6;6;6;6;6;6;6;6;6;6;6;6;6;6] = Err OutOfBounds.
Proof. vm_compute. reflexivity. Qed.

(** The size of the path table of DWARF 5 is computed modulo 2^64: a count of
    2^61 + 1 allocates one entry, and the second path is written behind it. *)
Lemma paths_count_wraps :
  line_info ([60;0;0;0; 5;0;8;0; 40;0;0;0; 1;1;1;251;14;1; 1;1;8] ++ uleb128_enc 9 (2^61 + 1) ++
             [97;0; 98;0; 99;0; 100;0;100;0; 100;0; 100;0; 100;0; 100;0; 100;0; 100;0; 100;0; 100;0; 100;0]) = Err OutOfBounds.
Proof. vm_compute. reflexivity. Qed.

(** [DW_LNE_define_file] in directory 0 of a unit without [DW_AT_comp_dir]. *)
Lemma define_file_null_dir :
  line_info [30;0;0;0; 2;0; 16;0;0;0; 1;1;251;14;10; 0;0;0;0;0;0;0;0;0; 0;0; 0;6;3; 97;0; 0;0;0] = Err NullDeref.
Proof. vm_compute. reflexivity. Qed.

(** ** The program ends

    [ends m]: [m] never runs out of fuel and only reads (it may fault: a bad
    header divides by zero, a line number may overflow). *)
Definition ends {A} (m : D A) : Prop :=
  ∀ s, wf_buf (db s) → m s ≠ Err OutOfFuel ∧ ∀ a s', m s = Ok (a, s') → dstep s s'.

Lemma ends_reads {A} (R : A → Prop) m : reads R m → ends m.
Proof.
  intros H s Hs. destruct (H s Hs) as (a & s' & E & _ & S). rewrite E. split; [done|]. intros ? ? [= <- <-]. done.
Qed.

Lemma ends_ret {A} (a : A) : ends (mret a).
Proof. apply (ends_reads (λ _, True)). by apply reads_ret. Qed.

Lemma ends_bind {A B} (m : D A) (k : A → D B) : ends m → (∀ a, ends (k a)) → ends (m ≫= k).
Proof.
  intros Hm Hk s Hs. destruct (Hm s Hs) as [Hf Hok]. unfold mbind, M_bind.
  destruct (m s) as [[a s1]|f]; [|split; [congruence|done]].
  pose proof (Hok a s1 eq_refl) as S1. destruct (Hk a s1 (dstep_wf _ _ Hs S1)) as [Hf2 Hok2].
  split; [done|]. intros b s' E. eauto using dstep_trans.
Qed.

Lemma ends_fmap {A B} (f : A → B) (m : D A) : ends m → ends (f <$> m).
Proof.
  intros Hm s Hs. destruct (Hm s Hs) as [Hf Hok]. unfold fmap, M_fmap.
  destruct (m s) as [[a s1]|g]; [|split; [congruence|done]]. split; [done|]. intros ? ? [= <- <-]. by eapply Hok.
Qed.

Lemma ends_if {A} (c : bool) (m1 m2 : D A) : ends m1 → ends m2 → ends (if c then m1 else m2).
Proof. by destruct c. Qed.

Lemma ends_fail {A} f : f ≠ OutOfFuel → ends (A := A) (fail f).
Proof. intros Hf s Hs. split; [|done]. unfold fail. congruence. Qed.

Lemma ends_gets {A} (f : dstate → A) : ends (gets f).
Proof.
  intros s Hs. split; [done|]. intros a s' [= <- <-]. apply dstep_refl, Hs.
Qed.

Lemma ends_array_get {A} (l : list A) i : ends (array_get l i).
Proof. unfold array_get. apply ends_if; [by apply ends_fail|]. destruct (_ !! _); [apply ends_ret|by apply ends_fail]. Qed.

Lemma ends_byte_at p : ends (byte_at p).
Proof. apply ends_bind; [apply ends_gets|]. intros b. apply ends_array_get. Qed.

Lemma ends_deref {A} (o : option A) : ends (deref o).
Proof. destruct o; [apply ends_ret|by apply ends_fail]. Qed.

Lemma ends_div_by a b : ends (div_by a b).
Proof. unfold div_by. apply ends_if; [by apply ends_fail|apply ends_ret]. Qed.

Lemma ends_int_arith z : ends (int_arith z).
Proof. unfold int_arith. apply ends_if; [apply ends_ret|by apply ends_fail]. Qed.

Lemma ends_error msg n : ends (dwarf_buf_error msg n).
Proof. eapply ends_reads, reads_error. Qed.

Lemma ends_advance n : 0 ≤ n → ends (advance n).
Proof. intros. by eapply ends_reads, advance_reads. Qed.

Lemma ends_alloc : ends alloc_answer.
Proof.
  intros s Hs. destruct Hs as (_ & _ & Hl & _). unfold alloc_answer.
  destruct (allocs s) as [|[e|] r]; (split; [done|]); intros a s' [= <- <-]; split; cbn; try done; try lia.
  by apply prefix_app_r.
Qed.

Lemma ends_heap n : ends (modify (λ s, s <| heap := n |>)).
Proof. intros s (_ & _ & Hl & _). split; [done|]. intros a s' [= <- <-]. split; cbn; done || lia. Qed.

Lemma until_nul_fault l : until_nul l ≠ Err OutOfFuel.
Proof. induction l as [|c l IH]; cbn; [done|]. destruct (c =? 0); [done|]. destruct (until_nul l); congruence. Qed.

Create HintDb dwarf_ends discriminated.
#[export] Hint Resolve ends_ret ends_bind ends_fmap ends_if ends_gets ends_array_get ends_byte_at ends_deref
  ends_div_by ends_int_arith ends_error ends_alloc ends_heap : dwarf_ends.

Section ends.
Variables (d : dwarf_sections) (altlink : option dwarf_sections) (base pagesize : Z) (hdr : line_header).

Lemma ends_string_of p : ends (string_of d altlink p).
Proof.
  intros s Hs. unfold string_of. assert (c_string d altlink p ≠ Err OutOfFuel) as Hc.
  { destruct p as [|[] sec off|]; cbn; try done; try apply until_nul_fault. destruct altlink; [apply until_nul_fault|done]. }
  destruct (c_string d altlink p); [|split; [congruence|done]]. split; [done|]. intros ? ? [= <- <-]. apply dstep_refl, Hs.
Qed.

Lemma ends_c_first p : ends (c_first d altlink p).
Proof.
  destruct p as [|[] sec off|]; cbn; [apply ends_ret| |apply ends_array_get|apply ends_ret].
  destruct altlink; [apply ends_array_get|by apply ends_fail].
Qed.

Lemma ends_uleb128 : ends read_uleb128.
Proof. eapply ends_reads, reads_uleb128. Qed.
Lemma ends_sleb128 : ends read_sleb128.
Proof. eapply ends_reads, reads_sleb128. Qed.
Lemma ends_byte : ends read_byte.
Proof. eapply ends_reads, reads_byte. Qed.
Lemma ends_uint16 : ends read_uint16.
Proof. eapply ends_reads, reads_uint16. Qed.
Lemma ends_address n : ends (read_address n).
Proof. eapply ends_reads, reads_address. Qed.
Lemma ends_string : ends read_string.
Proof. eapply ends_reads, reads_string. Qed.
Hint Resolve ends_uleb128 ends_sleb128 ends_byte ends_uint16 ends_address ends_string ends_string_of ends_c_first
  : dwarf_ends.

Lemma ends_join dir name : ends (join_path d altlink dir name).
Proof. unfold join_path. eauto 15 with dwarf_ends. Qed.

Lemma ends_vec_grow sz vs va : ends (vec_grow pagesize sz vs va).
Proof. unfold vec_grow. eauto 10 with dwarf_ends. Qed.

Lemma ends_emit r : ends (emit base pagesize r).
Proof.
  unfold emit. apply ends_bind; [|intros []; apply ends_ret]. unfold add_line. apply ends_if; [apply ends_ret|].
  apply ends_bind; [apply ends_vec_grow|]. intros [[? ?]|]; apply ends_ret.
Qed.

Lemma ends_advance_pc wide n r : ends (advance_pc hdr wide n r).
Proof. unfold advance_pc. eauto with dwarf_ends. Qed.

Lemma ends_advance_line z r : ends (advance_line z r).
Proof. unfold advance_line. eauto with dwarf_ends. Qed.
Hint Resolve ends_join ends_emit ends_advance_pc ends_advance_line : dwarf_ends.

Lemma ends_define_file r : ends (define_file d altlink hdr r).
Proof.
  unfold define_file, IS_ABSOLUTE_PATH. apply ends_bind; [apply ends_gets|]. intros b.
  apply ends_bind; [apply ends_string|]. intros [o|]; [|apply ends_ret].
  do 3 (apply ends_bind; [apply ends_uleb128|]; intros ?).
  apply ends_bind; [eauto with dwarf_ends|]. intros abs. apply ends_if; [apply ends_ret|].
  apply ends_if; [|eauto with dwarf_ends].
  apply ends_bind; [apply ends_array_get|]. intros dir. apply ends_bind; [apply ends_deref|]. intros dir'.
  apply ends_bind; [apply ends_join|]. intros [p|]; apply ends_ret.
Qed.

Lemma ends_skip n : ends (skip_uleb128s n).
Proof. induction n; cbn; eauto with dwarf_ends. Qed.
Hint Resolve ends_define_file ends_skip : dwarf_ends.

Lemma ends_extended r : ends (extended_opcode d altlink hdr r).
Proof.
  unfold extended_opcode. apply ends_bind; [apply ends_uleb128|]. intros len. apply ends_bind; [apply ends_byte|].
  intros op. repeat (apply ends_if; [eauto with dwarf_ends|]).
  apply ends_bind; [apply ends_advance, u64_range|]. intros ok. apply ends_ret.
Qed.

Lemma ends_special op r : ends (special_opcode base pagesize hdr op r).
Proof. unfold special_opcode. eauto 15 with dwarf_ends. Qed.

Lemma ends_standard op r : ends (standard_opcode base pagesize hdr op r).
Proof. unfold standard_opcode. repeat (apply ends_if; [eauto 10 with dwarf_ends|]). eauto 10 with dwarf_ends. Qed.

(** A round reads at least the opcode. *)
Lemma line_step_progress r s : wf_buf (db s) → 0 < db_left (db s) →
  line_step d altlink base pagesize hdr r s ≠ Err OutOfFuel ∧
  ∀ a s', line_step d altlink base pagesize hdr r s = Ok (a, s') → dstep s s' ∧ db_left (db s') < db_left (db s).
Proof.
  intros Hs Hl. destruct (unread_front 1 s Hs ltac:(lia)) as (bs & rest & Hu & Hlen & _).
  list_of_length bs. unfold line_step. rewrite (bind_ok _ _ _ _ _ (read_byte_at s Hs rest z Hu)).
  pose proof (moved_step 1 s ltac:(lia)) as S1. pose proof (dstep_wf _ _ Hs S1) as Hs1.
  set (m := if opcode_base hdr <=? z then _ else _).
  assert (ends m) as Hm.
  { subst m. apply ends_if; [apply ends_fmap, ends_special|]. apply ends_if; [apply ends_extended|apply ends_standard]. }
  destruct (Hm _ Hs1) as [Hf Hok]. split; [done|]. intros a s' E. specialize (Hok a s' E).
  split; [by eapply dstep_trans|]. pose proof (st_end _ _ Hok). pose proof (st_mono _ _ Hok). cbn in *. lia.
Qed.

Lemma line_loop_ends fuel : ∀ r s, wf_buf (db s) → db_left (db s) ≤ Z.of_nat fuel →
  line_loop d altlink base pagesize fuel hdr r s ≠ Err OutOfFuel.
Proof.
  induction fuel as [|fuel IH]; intros r s Hs Hf; cbn [line_loop];
    rewrite bind_ok with (a := db s) (s1 := s) by done;
    destruct (Z.ltb_spec 0 (db_left (db s))); [lia|done| |done].
  destruct (line_step_progress r s Hs ltac:(lia)) as [Hne Hok].
  destruct (line_step d altlink base pagesize hdr r s) as [[[r'|] s']|f] eqn:E.
  - rewrite (bind_ok _ _ _ _ _ E). destruct (Hok _ _ eq_refl) as [S Hlt].
    apply IH; [by eapply dstep_wf|lia].
  - by rewrite (bind_ok _ _ _ _ _ E).
  - rewrite (bind_err _ _ _ _ E). congruence.
Qed.
End ends.

(** Every line number program ends: whatever the header and the bytes, the
    loop of [read_line_program] makes at most as many rounds as there are bytes
    left (the fuel is never used up). *)
Theorem line_program_ends d altlink base pagesize hdr v s :
  wf_buf (db s) → read_line_program d altlink base pagesize hdr v s ≠ Err OutOfFuel.
Proof.
  intros Hs. unfold read_line_program. rewrite bind_ok with (a := db s) (s1 := s) by done.
  pose proof Hs as (_ & ? & ? & ?).
  pose proof (line_loop_ends d altlink base pagesize hdr (length (db_start (db s)))
    (mk_regs 0 0 (reset_filename hdr) 1 v) s Hs ltac:(lia)) as Hne.
  destruct (line_loop d altlink base pagesize (length (db_start (db s))) hdr _ s) as [[r s']|f] eqn:E.
  - by rewrite (bind_ok _ _ _ _ _ E).
  - rewrite (bind_err _ _ _ _ E). congruence.
Qed.

Lemma line_program_ends_witness :
  read_line_program (λ _, []) None 0 4096 witness_hdr (mk_line_vector [] 0 0)
    (witness_state [1; 2; 200; 0; 0; 9; 255; 128]) ≠ Err OutOfFuel.
Proof.
  apply (line_program_ends (λ _, []) None 0 4096 witness_hdr (mk_line_vector [] 0 0)
    (witness_state [1; 2; 200; 0; 0; 9; 255; 128])).
  apply (bool_decide_unpack _). vm_compute. exact I.
Defined.
