(* ===== verification/DwarfRange.v ===== *)
(** * Address ranges (src/dwarf/dwarf.c)

    The ranges of addresses an entry covers: [update_pcrange] gathers the
    attributes, [add_ranges] gives each range, from the low and high address or
    from a list in .debug_ranges (DWARF 2-4) or .debug_rnglists (DWARF 5), to a
    function that adds it to a vector; [add_unit_addr] and [add_function_range]
    are these functions. *)

From S2P Require Import Prelude Util Bytes Sort BtMmap DwarfBuf DwarfAttr DwarfAbbrev DwarfLine.

(** ** Constants *)
Abbreviation DW_AT_low_pc := 0x11%Z (only parsing).
Abbreviation DW_AT_high_pc := 0x12%Z (only parsing).
Abbreviation DW_AT_ranges := 0x55%Z (only parsing).
Abbreviation DW_RLE_end_of_list := 0x00%Z (only parsing).
Abbreviation DW_RLE_base_addressx := 0x01%Z (only parsing).
Abbreviation DW_RLE_startx_endx := 0x02%Z (only parsing).
Abbreviation DW_RLE_startx_length := 0x03%Z (only parsing).
Abbreviation DW_RLE_offset_pair := 0x04%Z (only parsing).
Abbreviation DW_RLE_base_address := 0x05%Z (only parsing).
Abbreviation DW_RLE_start_end := 0x06%Z (only parsing).
Abbreviation DW_RLE_start_length := 0x07%Z (only parsing).

(** ** Data *)

(** The fields of [struct unit] that are set when the file is loaded. *)
Record dwarf_unit := mk_unit {
  unit_data : Z;
  unit_data_len : Z;
  unit_data_offset : Z;
  low_offset : Z;
  high_offset : Z;
  version : Z;
  is_dwarf64 : bool;
  addrsize : Z;
  lineoff : Z;
  str_offsets_base : Z;
  addr_base : Z;
  rnglists_base : Z;
  unit_filename : option cptr;
  comp_dir : option cptr;
  abs_filename : option cptr;
  abbrevs : list abbrev;
}.
#[export] Instance dwarf_unit_eta : Settable dwarf_unit := λ u,
  mk_unit (unit_data u) (unit_data_len u) (unit_data_offset u) (low_offset u) (high_offset u)
    (version u) (is_dwarf64 u) (addrsize u) (lineoff u) (str_offsets_base u) (addr_base u)
    (rnglists_base u) (unit_filename u) (comp_dir u) (abs_filename u) (abbrevs u).

Record pcrange := mk_pcrange {
  lowpc : Z;
  have_lowpc : bool;
  lowpc_is_addr_index : bool;
  highpc : Z;
  have_highpc : bool;
  highpc_is_relative : bool;
  highpc_is_addr_index : bool;
  ranges : Z;
  have_ranges : bool;
  ranges_is_index : bool;
}.
#[export] Instance pcrange_eta : Settable pcrange := λ p,
  mk_pcrange (lowpc p) (have_lowpc p) (lowpc_is_addr_index p) (highpc p) (have_highpc p)
    (highpc_is_relative p) (highpc_is_addr_index p) (ranges p) (have_ranges p) (ranges_is_index p).

Definition pcrange0 : pcrange := mk_pcrange 0 false false 0 false false false 0 false false.

(** [struct unit_addrs] and [struct function_addrs]: a range and what it belongs
    to, the number of a unit or of a function; [None] for NULL. *)
Record addrs := mk_addrs { low : Z; high : Z; owner : option nat }.
#[export] Instance addrs_eq_dec : EqDecision addrs.
Proof. solve_decision. Defined.
Definition sizeof_addrs : Z := 24.

(** A growable vector: its elements, and the bytes used and free. *)
Record vector (A : Type) := mk_vec { items : list A; vbytes : Z; vfree : Z }.
Arguments mk_vec {A}. Arguments items {A}. Arguments vbytes {A}. Arguments vfree {A}.
Definition vec_empty {A} : vector A := mk_vec [] 0 0.

(** A new element at the end of a vector; [None] for NULL. *)
Definition vec_push {A} (pagesize size : Z) (v : vector A) (x : A) : D (option (vector A)) :=
  g ← vec_grow pagesize size (vbytes v) (vfree v);
  match g with
  | None => mret None
  | Some (bytes, free) => mret (Some (mk_vec (items v ++ [x]) bytes free))
  end.

(** [val.u.uint]; it is read for values that hold a number. *)
Definition u_uint (val : attr_val) : Z :=
  match u val with U_uint z => z | U_sint z => u64 z | U_string _ => 0 end.

(** ** Gathering the attributes *)
Definition update_pcrange (name : Z) (val : attr_val) (p : pcrange) : pcrange :=
  let z := u_uint val in
  if name =? DW_AT_low_pc then
    match encoding val with
    | ATTR_VAL_ADDRESS => (p <| lowpc := z |>) <| have_lowpc := true |>
    | ATTR_VAL_ADDRESS_INDEX =>
        ((p <| lowpc := z |>) <| have_lowpc := true |>) <| lowpc_is_addr_index := true |>
    | _ => p
    end
  else if name =? DW_AT_high_pc then
    match encoding val with
    | ATTR_VAL_ADDRESS => (p <| highpc := z |>) <| have_highpc := true |>
    | ATTR_VAL_UINT =>
        ((p <| highpc := z |>) <| have_highpc := true |>) <| highpc_is_relative := true |>
    | ATTR_VAL_ADDRESS_INDEX =>
        ((p <| highpc := z |>) <| have_highpc := true |>) <| highpc_is_addr_index := true |>
    | _ => p
    end
  else if name =? DW_AT_ranges then
    match encoding val with
    | ATTR_VAL_UINT | ATTR_VAL_REF_SECTION => (p <| ranges := z |>) <| have_ranges := true |>
    | ATTR_VAL_RNGLISTS_INDEX =>
        ((p <| ranges := z |>) <| have_ranges := true |>) <| ranges_is_index := true |>
    | _ => p
    end
  else p.

(** ** Adding the ranges

    [add_range lowpc highpc vec] is [add_range (state, rdata, lowpc, highpc, ...,
    vec)]: 1 or 0, and the vector. *)
Section ranges.
Variable dwarf_sections : dwarf_sections.
Variable base_address : Z.
Variable is_bigendian : bool.
Variable u : dwarf_unit.
Context {V : Type}.
Variable add_range : Z → Z → V → D (bool * V).

Definition addr_index (i : Z) : D (option Z) :=
  resolve_addr_index dwarf_sections (addr_base u) (addrsize u) is_bigendian i.

(** An address that may be an index. *)
Definition addr_or_index (is_index : bool) (a : Z) : D (option Z) :=
  if is_index then addr_index a else mret (Some a).

Definition add_low_high_range (p : pcrange) (v : V) : D (bool * V) :=
  lo ← addr_or_index (lowpc_is_addr_index p) (lowpc p);
  match lo with
  | None => mret (false, v)
  | Some lo =>
      hi ← addr_or_index (highpc_is_addr_index p) (highpc p);
      match hi with
      | None => mret (false, v)
      | Some hi =>
          let hi := if highpc_is_relative p then u64 (hi + lo) else hi in
          add_range (u64 (lo + base_address)) (u64 (hi + base_address)) v
      end
  end.

(** [while (1)]: every round but the last reads at least one byte. *)
Fixpoint ranges_loop (fuel : nat) (base : Z) (v : V) : D (bool * V) :=
  b ← gets db;
  if db_reported_underflow b then mret (false, v)
  else
    lo ← read_address (addrsize u);
    hi ← read_address (addrsize u);
    if (lo =? 0) && (hi =? 0) then
      b ← gets db;
      mret (negb (db_reported_underflow b), v)
    else
      match fuel with
      | O => fail OutOfFuel
      | S fuel =>
          if is_highest_address lo (addrsize u) then ranges_loop fuel hi v
          else
            '(ok, v) ← add_range (u64 (lo + base + base_address)) (u64 (hi + base + base_address)) v;
            if negb ok then mret (false, v) else ranges_loop fuel base v
      end.

Definition add_ranges_from_ranges (base : Z) (p : pcrange) (v : V) : D (bool * V) :=
  if sec_size dwarf_sections DEBUG_RANGES <=? ranges p then
    error_callback "ranges offset out of range" 0;; mret (false, v)
  else
    '(r, _) ← on_buf (section_buf dwarf_sections DEBUG_RANGES (ranges p) is_bigendian)
      (ranges_loop (length (dwarf_sections DEBUG_RANGES)) base v);
    mret r.

(** One entry of a list other than its end: 1 or 0, the base and the vector. *)
Definition rle_entry (rle base : Z) (v : V) : D (bool * Z * V) :=
  let add lo hi := '(ok, v) ← add_range lo hi v; mret (ok, base, v) in
  let fails := mret (false, base, v) in
  if rle =? DW_RLE_base_addressx then
    index ← read_uleb128;
    b ← addr_index index;
    match b with None => fails | Some b => mret (true, b, v) end
  else if rle =? DW_RLE_startx_endx then
    index ← read_uleb128;
    lo ← addr_index index;
    match lo with
    | None => fails
    | Some lo =>
        index ← read_uleb128;
        hi ← addr_index index;
        match hi with
        | None => fails
        | Some hi => add (u64 (lo + base_address)) (u64 (hi + base_address))
        end
    end
  else if rle =? DW_RLE_startx_length then
    index ← read_uleb128;
    lo ← addr_index index;
    match lo with
    | None => fails
    | Some lo =>
        len ← read_uleb128;
        let lo := u64 (lo + base_address) in
        add lo (u64 (lo + len))
    end
  else if rle =? DW_RLE_offset_pair then
    lo ← read_uleb128;
    hi ← read_uleb128;
    add (u64 (lo + base + base_address)) (u64 (hi + base + base_address))
  else if rle =? DW_RLE_base_address then
    b ← read_address (addrsize u);
    mret (true, b, v)
  else if rle =? DW_RLE_start_end then
    lo ← read_address (addrsize u);
    hi ← read_address (addrsize u);
    add (u64 (lo + base_address)) (u64 (hi + base_address))
  else if rle =? DW_RLE_start_length then
    lo ← read_address (addrsize u);
    len ← read_uleb128;
    let lo := u64 (lo + base_address) in
    add lo (u64 (lo + len))
  else dwarf_buf_error "unrecognized DW_RLE value" (-1);; fails.

(** [while (1)]: every round reads at least the kind of the entry. *)
Fixpoint rnglists_loop (fuel : nat) (base : Z) (v : V) : D (bool * V) :=
  rle ← read_byte;
  if rle =? DW_RLE_end_of_list then
    b ← gets db;
    mret (negb (db_reported_underflow b), v)
  else
    match fuel with
    | O => fail OutOfFuel
    | S fuel =>
        '(ok, base, v) ← rle_entry rle base v;
        if negb ok then mret (false, v) else rnglists_loop fuel base v
    end.

Definition add_ranges_from_rnglists (base : Z) (p : pcrange) (v : V) : D (bool * V) :=
  let offset :=
    if negb (ranges_is_index p) then ranges p
    else u64 (rnglists_base u + ranges p * (if is_dwarf64 u then 8 else 4)) in
  let size := sec_size dwarf_sections DEBUG_RNGLISTS in
  let loop := rnglists_loop (length (dwarf_sections DEBUG_RNGLISTS)) base v in
  if size <=? offset then
    error_callback "rnglists offset out of range" 0;; mret (false, v)
  else
    '(r, _) ← on_buf (section_buf dwarf_sections DEBUG_RNGLISTS offset is_bigendian)
      (if negb (ranges_is_index p) then loop
       else
         o ← read_offset (is_dwarf64 u);
         let offset := u64 (o + rnglists_base u) in
         if size <=? offset then
           error_callback "rnglists index offset out of range" 0;; mret (false, v)
         else
           modify (λ s, s <| db := ((db s) <| db_buf := offset |>) <| db_left := size - offset |> |>);;
           loop);
    mret r.

Definition add_ranges (base : Z) (p : pcrange) (v : V) : D (bool * V) :=
  if have_lowpc p && have_highpc p then add_low_high_range p v
  else if negb (have_ranges p) then mret (true, v)
  else if version u <? 5 then add_ranges_from_ranges base p v
  else add_ranges_from_rnglists base p v.
End ranges.

(** ** The vectors of ranges

    [add_unit_addr] and [add_function_range] are the same on a unit and on a
    function: [rdata] is the number of it. *)
Definition add_addrs (pagesize : Z) (rdata : nat) (lowpc highpc : Z) (vec : vector addrs)
    : D (bool * vector addrs) :=
  let grow :=
    v ← vec_push pagesize sizeof_addrs vec (mk_addrs lowpc highpc (Some rdata));
    match v with None => mret (false, vec) | Some vec => mret (true, vec) end in
  match last (items vec) with
  | None => grow
  | Some p =>
      if ((lowpc =? high p) || (lowpc =? u64 (high p + 1))) && bool_decide (owner p = Some rdata) then
        if high p <? highpc then
          mret (true, mk_vec (removelast (items vec) ++ [mk_addrs (low p) highpc (owner p)])
                        (vbytes vec) (vfree vec))
        else mret (true, vec)
      else grow
  end.

Definition add_unit_addr := add_addrs.
Definition add_function_range := add_addrs.

(** ** The readers make progress

    A reader that returns a number other than 0 has consumed a byte. *)
Definition consumes (m : D Z) : Prop :=
  ∀ s v s', wf_buf (db s) → m s = Ok (v, s') → v ≠ 0 → db_left (db s') < db_left (db s).

Lemma fixed_consumes k m :
  (0 < k)%nat →
  (∀ s, db_left (db s) < Z.of_nat k → m s = Ok (0, report_underflow s)) →
  (∀ s bs rest, wf_buf (db s) → length bs = k → unread s = bs ++ rest →
     ∃ v, m s = Ok (v, moved (Z.of_nat k) s)) →
  consumes m.
Proof.
  intros Hk Hu Hm s v s' Hs E Hv. destruct (Z_lt_le_dec (db_left (db s)) (Z.of_nat k)) as [Hl|Hl].
  - rewrite Hu in E by done. simplify_eq.
  - destruct (unread_front k s Hs Hl) as (bs & rest & Hur & Hlen & _).
    destruct (Hm s bs rest Hs Hlen Hur) as [v' E']. rewrite E' in E. simplify_eq. cbn. lia.
Qed.

Lemma byte_consumes : consumes read_byte.
Proof.
  apply (fixed_consumes 1); [lia|apply read_byte_underflow|]. intros s bs rest Hs Hl Hu. list_of_length bs.
  eexists. by eapply read_byte_at.
Qed.

Lemma address_consumes n : consumes (read_address n).
Proof.
  unfold read_address. repeat case_match.
  - apply byte_consumes.
  - apply (fixed_consumes 2); [lia|apply read_uint16_underflow|]. intros s bs rest Hs Hl Hu. list_of_length bs.
    eexists. by eapply read_uint16_at.
  - apply (fixed_consumes 4); [lia|apply read_uint32_underflow|]. intros s bs rest Hs Hl Hu. list_of_length bs.
    eexists. by eapply read_uint32_at.
  - apply (fixed_consumes 8); [lia|apply read_uint64_underflow|]. intros s bs rest Hs Hl Hu. list_of_length bs.
    eexists. by eapply read_uint64_at.
  - intros s v s' Hs [= <- <-] Hv. done.
Qed.

(** ** The loops end

    [logs m]: on any buffer, [m] does not run out of fuel and only adds
    errors. *)
Definition logs {A} (m : D A) : Prop :=
  ∀ s, m s ≠ Err OutOfFuel ∧ ∀ a s', m s = Ok (a, s') → errs s `prefix_of` errs s'.

Definition logs_at {A} (s : dstate) (m : D A) : Prop :=
  m s ≠ Err OutOfFuel ∧ ∀ a s', m s = Ok (a, s') → errs s `prefix_of` errs s'.

Lemma logs_ret {A} (a : A) : logs (mret a).
Proof. intros s. split; [done|]. by intros ? ? [= <- <-]. Qed.

Lemma logs_bind {A B} (m : D A) (k : A → D B) : logs m → (∀ a, logs (k a)) → logs (m ≫= k).
Proof.
  intros Hm Hk s. destruct (Hm s) as [Hf Hok]. unfold mbind, M_bind.
  destruct (m s) as [[a s1]|f]; [|split; [congruence|done]].
  destruct (Hk a s1) as [Hf2 Hok2]. split; [done|]. intros b s' E. etrans; [by eapply Hok|by eapply Hok2].
Qed.

Lemma logs_if {A} (c : bool) (m1 m2 : D A) : logs m1 → logs m2 → logs (if c then m1 else m2).
Proof. by destruct c. Qed.

Lemma logs_fail {A} f : f ≠ OutOfFuel → logs (A := A) (fail f).
Proof. intros Hf s. split; [|done]. unfold fail. congruence. Qed.

Lemma logs_gets {A} (f : dstate → A) : logs (gets f).
Proof. intros s. split; [done|]. by intros ? ? [= <- <-]. Qed.

Lemma logs_modify f : (∀ s, errs s `prefix_of` errs (f s)) → logs (modify f).
Proof. intros H s. split; [done|]. intros ? ? [= <- <-]. apply H. Qed.

Lemma logs_error msg n : logs (dwarf_buf_error msg n).
Proof. apply logs_modify. intros s. by apply prefix_app_r. Qed.

Lemma logs_callback msg n : logs (error_callback msg n).
Proof. apply logs_modify. intros s. by apply prefix_app_r. Qed.

Lemma logs_advance n : logs (advance n).
Proof.
  unfold advance, require, when. apply logs_bind.
  - apply logs_bind; [apply logs_gets|]. intros b. apply logs_if; [apply logs_ret|].
    apply logs_bind; [|intros; apply logs_ret]. apply logs_if; [|apply logs_ret].
    apply logs_bind; [apply logs_error|]. intros _. by apply logs_modify.
  - intros ok. apply logs_if; [apply logs_ret|]. apply logs_bind; [by apply logs_modify|]. intros; apply logs_ret.
Qed.

Lemma logs_byte_at p : logs (byte_at p).
Proof.
  apply logs_bind; [apply logs_gets|]. intros b. unfold array_get. apply logs_if; [by apply logs_fail|].
  destruct (_ !! _); [apply logs_ret|by apply logs_fail].
Qed.

Ltac logs_steps :=
  repeat first
    [ apply logs_ret | apply logs_gets | apply logs_error | apply logs_callback | apply logs_advance
    | apply logs_byte_at | apply logs_if | apply logs_bind; [|intros ?] ].

Lemma logs_address n : logs (read_address n).
Proof.
  unfold read_address, read_byte, read_uint16, read_uint32, read_uint64. logs_steps.
Qed.

Lemma logs_offset d64 : logs (read_offset d64).
Proof. unfold read_offset, read_uint32, read_uint64. logs_steps. Qed.

Lemma ends_on_any_buf {A} b (m : D A) : logs m → ends (on_buf b m).
Proof.
  intros Hm s (_ & _ & Hl & _). unfold on_buf. destruct (Hm (s <| db := b |>)) as [Hf Hok].
  destruct (m _) as [[a s1]|f]; [|split; [congruence|done]]. split; [done|]. intros ? ? [= <- <-].
  split; cbn; try done; try lia. by apply (Hok a s1).
Qed.

Lemma ends_on_buf {A} b (m : D A) : wf_buf b → ends m → ends (on_buf b m).
Proof.
  intros Hb Hm s (_ & _ & Hl & _). unfold on_buf. destruct (Hm (s <| db := b |>)) as [Hf Hok]; [done|].
  destruct (m _) as [[a s1]|f]; [|split; [congruence|done]]. split; [done|]. intros ? ? [= <- <-].
  pose proof (Hok a s1 eq_refl) as [_ _ _ _ _ _ _ He]. split; cbn; try done; lia.
Qed.

Lemma ends_on_wf_buf {A} b (m : D A) : wf_buf b →
  (∀ s, wf_buf (db s) → db s = b → logs_at s m) → ends (on_buf b m).
Proof.
  intros Hb Hm s (_ & _ & Hl & _). unfold on_buf. destruct (Hm (s <| db := b |>)) as [Hf Hok]; [done..|].
  destruct (m _) as [[a s1]|f]; [|split; [congruence|done]]. split; [done|]. intros ? ? [= <- <-].
  split; cbn; try done; try lia. by apply (Hok a s1).
Qed.

Lemma ends_callback msg n : ends (error_callback msg n).
Proof. eapply ends_reads, reads_callback. Qed.

Lemma ends_offset d64 : ends (read_offset d64).
Proof. eapply ends_reads, reads_offset. Qed.
#[export] Hint Resolve ends_callback ends_offset ends_uleb128 ends_byte ends_uint16 ends_address : dwarf_ends.

(** [ends], from one state. *)
Definition ends_at {A} (s : dstate) (m : D A) : Prop :=
  m s ≠ Err OutOfFuel ∧ ∀ a s', m s = Ok (a, s') → dstep s s'.

Lemma ends_at_of {A} s (m : D A) : wf_buf (db s) → ends m → ends_at s m.
Proof. intros Hs H. by apply H. Qed.

(** The step [m] keeps the buffer well formed and consumes no more than there
    is; [k] continues with less fuel. *)
Lemma ends_at_bind {A B} s (m : D A) (k : A → D B) : wf_buf (db s) → ends_at s m →
  (∀ a s', m s = Ok (a, s') → dstep s s' → wf_buf (db s') → ends_at s' (k a)) → ends_at s (m ≫= k).
Proof.
  intros Hs [Hf Hok] Hk. unfold ends_at, mbind, M_bind.
  destruct (m s) as [[a s1]|f]; [|split; [congruence|done]].
  pose proof (Hok a s1 eq_refl) as S1. destruct (Hk a s1 eq_refl S1 (dstep_wf _ _ Hs S1)) as [Hf2 Hok2].
  split; [done|]. intros b s' E. eauto using dstep_trans.
Qed.

Lemma ends_logs_at {A} s (m : D A) : ends_at s m → logs_at s m.
Proof. intros [Hf Hok]. split; [done|]. intros a s' E. apply st_errs. eauto. Qed.

Lemma logs_at_bind {A B} s (m : D A) (k : A → D B) : logs_at s m →
  (∀ a s', m s = Ok (a, s') → logs_at s' (k a)) → logs_at s (m ≫= k).
Proof.
  intros [Hf Hok] Hk. unfold logs_at, mbind, M_bind. destruct (m s) as [[a s1]|f]; [|split; [congruence|done]].
  destruct (Hk a s1 eq_refl) as [Hf2 Hok2]. split; [done|]. intros b s' E. etrans; [by eapply Hok|by eapply Hok2].
Qed.

Section ranges_end.
Variables (d : dwarf_sections) (base_address : Z) (is_bigendian : bool) (u : dwarf_unit).
Context {V : Type} (add_range : Z → Z → V → D (bool * V)).
Hypothesis Hd : sections_ok d.
Hypothesis Hadd : ∀ lo hi v, ends (add_range lo hi v).

Lemma ends_addr_index i : ends (addr_index d is_bigendian u i).
Proof.
  apply ends_if; [eauto with dwarf_ends|]. apply ends_bind; [|intros []; apply ends_ret].
  apply ends_on_any_buf, logs_address.
Qed.
Hint Resolve ends_addr_index : dwarf_ends.

Lemma ends_addr_or_index c a : ends (addr_or_index d is_bigendian u c a).
Proof. unfold addr_or_index. eauto with dwarf_ends. Qed.

Lemma ends_add_low_high p v : ends (add_low_high_range d base_address is_bigendian u add_range p v).
Proof.
  apply ends_bind; [apply ends_addr_or_index|]. intros [lo|]; [|apply ends_ret].
  apply ends_bind; [apply ends_addr_or_index|]. intros [hi|]; [|apply ends_ret]. apply Hadd.
Qed.

Lemma ends_rle_entry rle base v : ends (rle_entry d base_address is_bigendian u add_range rle base v).
Proof.
  assert (∀ lo hi, ends ('(ok, v) ← add_range lo hi v; mret (ok, base, v))) as Ha.
  { intros lo hi. apply ends_bind; [apply Hadd|]. intros []. apply ends_ret. }
  unfold rle_entry. repeat (apply ends_if; [apply ends_bind; [eauto with dwarf_ends|]; intros ?|]).
  - apply ends_bind; [apply ends_addr_index|]. intros []; apply ends_ret.
  - apply ends_bind; [apply ends_addr_index|]. intros [lo|]; [|apply ends_ret].
    apply ends_bind; [eauto with dwarf_ends|]. intros i. apply ends_bind; [apply ends_addr_index|]. intros [hi|]; [|apply ends_ret].
    apply Ha.
  - apply ends_bind; [apply ends_addr_index|]. intros [lo|]; [|apply ends_ret].
    apply ends_bind; [eauto with dwarf_ends|]. intros i. apply Ha.
  - apply ends_bind; [eauto with dwarf_ends|]. intros i. apply Ha.
  - apply ends_ret.
  - apply ends_bind; [eauto with dwarf_ends|]. intros i. apply Ha.
  - apply ends_bind; [eauto with dwarf_ends|]. intros i. apply Ha.
  - apply ends_bind; [eauto with dwarf_ends|]. intros _. apply ends_ret.
Qed.

Lemma ranges_loop_ends fuel : ∀ base v s, wf_buf (db s) → db_left (db s) ≤ Z.of_nat fuel →
  ends_at s (ranges_loop base_address u add_range fuel base v).
Proof.
  induction fuel as [|fuel IH]; intros base v s Hs Hf; cbn [ranges_loop];
    (apply ends_at_bind; [done|by apply ends_gets|]; intros b s0 [= <- <-] _ _;
     destruct (db_reported_underflow (db s)); [by apply ends_ret|];
     apply ends_at_bind; [done|by apply ends_address|]; intros lo s1 E1 S1 Hs1;
     apply ends_at_bind; [done|by apply ends_address|]; intros hi s2 E2 S2 Hs2;
     destruct ((lo =? 0) && (hi =? 0)) eqn:E; [apply ends_at_of; [done|by eauto with dwarf_ends]|];
     assert (db_left (db s2) < db_left (db s)) as Hlt
       by (pose proof (st_end _ _ S1); pose proof (st_end _ _ S2); pose proof (st_mono _ _ S1);
           pose proof (st_mono _ _ S2);
           destruct (decide (lo = 0)); [assert (hi ≠ 0) by lia;
             pose proof (address_consumes _ _ _ _ Hs1 E2); lia
           | pose proof (address_consumes _ _ _ _ Hs E1); lia])).
  - pose proof (st_left _ _ S2). lia.
  - destruct (is_highest_address lo (addrsize u)); [apply IH; [done|lia]|].
    apply ends_at_bind; [done|by apply Hadd|]. intros [[] v'] s3 _ S3 Hs3; [|by apply ends_ret].
    pose proof (st_end _ _ S3). pose proof (st_mono _ _ S3). apply IH; [done|lia].
Qed.

Lemma rnglists_loop_ends fuel : ∀ base v s, wf_buf (db s) → db_left (db s) ≤ Z.of_nat fuel →
  ends_at s (rnglists_loop d base_address is_bigendian u add_range fuel base v).
Proof.
  induction fuel as [|fuel IH]; intros base v s Hs Hf; cbn [rnglists_loop];
    (apply ends_at_bind; [done|by apply ends_byte|]; intros rle s1 E1 S1 Hs1;
     destruct (Z.eqb_spec rle 0); [apply ends_at_of; [done|by eauto with dwarf_ends]|];
     pose proof (byte_consumes _ _ _ Hs E1 ltac:(done))).
  - pose proof (st_left _ _ S1). lia.
  - apply ends_at_bind; [done|by apply ends_rle_entry|]. intros [[[] b'] v'] s2 _ S2 Hs2; [|by apply ends_ret].
    pose proof (st_end _ _ S2). pose proof (st_mono _ _ S2). apply IH; [done|lia].
Qed.

Lemma ends_from_ranges base p v : 0 ≤ ranges p →
  ends (add_ranges_from_ranges d base_address is_bigendian u add_range base p v).
Proof.
  intros Hp. unfold add_ranges_from_ranges.
  destruct (Z.leb_spec (sec_size d DEBUG_RANGES) (ranges p)); [eauto with dwarf_ends|].
  pose proof (section_buf_wf d DEBUG_RANGES (ranges p) is_bigendian Hd ltac:(lia)) as Hb.
  apply ends_bind; [|intros []; apply ends_ret]. apply ends_on_wf_buf; [done|].
  intros s Hs Hdb. apply ends_logs_at, ranges_loop_ends; [done|]. rewrite Hdb. destruct Hb as (_ & ? & ? & ?).
  unfold section_buf in *. cbn in *. lia.
Qed.

Lemma ends_from_rnglists base p v : 0 ≤ ranges p →
  ends (add_ranges_from_rnglists d base_address is_bigendian u add_range base p v).
Proof.
  intros Hp. unfold add_ranges_from_rnglists. set (off := if negb _ then _ else _).
  assert (0 ≤ off) by (subst off; destruct (ranges_is_index p); cbn; [apply u64_range|done]). cbv zeta.
  destruct (Z.leb_spec (sec_size d DEBUG_RNGLISTS) off); [eauto with dwarf_ends|].
  pose proof (section_buf_wf d DEBUG_RNGLISTS off is_bigendian Hd ltac:(lia)) as Hb.
  apply ends_bind; [|intros []; apply ends_ret]. apply ends_on_wf_buf; [done|].
  intros s Hs Hdb. destruct (negb (ranges_is_index p)).
  { apply ends_logs_at, rnglists_loop_ends; [done|]. rewrite Hdb. destruct Hb as (_ & ? & ? & ?).
    unfold section_buf in *. cbn in *. lia. }
  apply logs_at_bind; [by apply ends_logs_at, ends_offset|]. intros o s1 E1. pose proof (proj2 (ends_offset _ s Hs) _ _ E1) as S1.
  cbv zeta. pose proof (u64_range (o + rnglists_base u)). set (off2 := u64 (o + _)) in *.
  destruct (Z.leb_spec (sec_size d DEBUG_RNGLISTS) off2).
  - apply logs_at_bind; [apply logs_callback|]. intros ? ? _. apply logs_ret.
  - apply logs_at_bind; [by apply logs_modify|]. intros ? s2 [= <- <-].
    assert (db_start (db s1) = d DEBUG_RNGLISTS) as Hst by (rewrite (st_start _ _ S1), Hdb; done).
    destruct (Hd DEBUG_RNGLISTS). unfold sec_size in *.
    apply ends_logs_at, rnglists_loop_ends; [unfold set_field; split; cbn; rewrite ?Hst; [done|lia]|unfold set_field; cbn; lia].
Qed.

Definition pcrange_ok (p : pcrange) : Prop := in_width 64 (lowpc p) ∧ in_width 64 (highpc p) ∧ in_width 64 (ranges p).

Lemma ends_add_ranges base p v : pcrange_ok p →
  ends (add_ranges d base_address is_bigendian u add_range base p v).
Proof.
  intros (_ & _ & [? _]). unfold add_ranges. apply ends_if; [apply ends_add_low_high|].
  apply ends_if; [apply ends_ret|]. apply ends_if; [by apply ends_from_ranges|by apply ends_from_rnglists].
Qed.
End ranges_end.

(** ** What the range lists mean

    DWARF 5, section 2.17.3: the entries of a range list, and the ranges they
    stand for when the base address is [base] and [addr] is the unit's part of
    .debug_addr. *)
Inductive rle :=
  | R_base_addressx (i : Z)
  | R_startx_endx (i j : Z)
  | R_startx_length (i n : Z)
  | R_offset_pair (lo hi : Z)
  | R_base_address (a : Z)
  | R_start_end (lo hi : Z)
  | R_start_length (lo n : Z).

(** The entry's new base and its range. *)
Definition rle_means (addr : list Z) (base : Z) (r : rle) : Z * list (Z * Z) :=
  let at_ i := addr !!! Z.to_nat i in
  match r with
  | R_base_addressx i => (at_ i, [])
  | R_startx_endx i j => (base, [(at_ i, at_ j)])
  | R_startx_length i n => (base, [(at_ i, at_ i + n)])
  | R_offset_pair lo hi => (base, [(base + lo, base + hi)])
  | R_base_address a => (a, [])
  | R_start_end lo hi => (base, [(lo, hi)])
  | R_start_length lo n => (base, [(lo, lo + n)])
  end.

Fixpoint rle_ranges (addr : list Z) (base : Z) (l : list rle) : list (Z * Z) :=
  match l with
  | [] => []
  | r :: l => (rle_means addr base r).2 ++ rle_ranges addr (rle_means addr base r).1 l
  end.

(** The lists of DWARF 2-4, section 2.17.3: pairs of offsets, or a base. *)
Inductive pair_entry := P_range (lo hi : Z) | P_base (a : Z).

Fixpoint pair_ranges (base : Z) (l : list pair_entry) : list (Z * Z) :=
  match l with
  | [] => []
  | P_range lo hi :: l => (base + lo, base + hi) :: pair_ranges base l
  | P_base a :: l => pair_ranges a l
  end.

Section enc.
Variables (e : bool) (sz : Z).

Definition enc_addr (a : Z) : list Z := enc_fixed e (Z.to_nat sz) a.

Definition enc_rle (r : rle) : list Z :=
  let n := uleb128_enc 9 in
  match r with
  | R_base_addressx i => DW_RLE_base_addressx :: n i
  | R_startx_endx i j => DW_RLE_startx_endx :: n i ++ n j
  | R_startx_length i k => DW_RLE_startx_length :: n i ++ n k
  | R_offset_pair lo hi => DW_RLE_offset_pair :: n lo ++ n hi
  | R_base_address a => DW_RLE_base_address :: enc_addr a
  | R_start_end lo hi => DW_RLE_start_end :: enc_addr lo ++ enc_addr hi
  | R_start_length lo k => DW_RLE_start_length :: enc_addr lo ++ n k
  end.

Definition enc_pair (p : pair_entry) : list Z :=
  match p with
  | P_range lo hi => enc_addr lo ++ enc_addr hi
  | P_base a => enc_addr (2 ^ (8 * sz) - 1) ++ enc_addr a
  end.

(** Numbers and addresses in range, indices inside the table; a pair is neither
    the end of the list nor a base. *)
Definition rle_ok (addr : list Z) (r : rle) : Prop :=
  let idx i := 0 ≤ i < Z.of_nat (length addr) in
  match r with
  | R_base_addressx i => idx i
  | R_startx_endx i j => idx i ∧ idx j
  | R_startx_length i n => idx i ∧ in_width 64 n
  | R_offset_pair lo hi => in_width 64 lo ∧ in_width 64 hi
  | R_base_address a => in_width (8 * sz) a
  | R_start_end lo hi => in_width (8 * sz) lo ∧ in_width (8 * sz) hi
  | R_start_length lo n => in_width (8 * sz) lo ∧ in_width 64 n
  end.

Definition pair_ok (p : pair_entry) : Prop :=
  match p with
  | P_range lo hi => in_width (8 * sz) lo ∧ in_width (8 * sz) hi ∧ ¬ (lo = 0 ∧ hi = 0) ∧ lo ≠ 2 ^ (8 * sz) - 1
  | P_base a => in_width (8 * sz) a
  end.
End enc.

Definition size_ok (sz : Z) : Prop := sz = 1 ∨ sz = 2 ∨ sz = 4 ∨ sz = 8.

Lemma runs_as_uint32 e z : 0 ≤ z < 2^32 → runs_as e (enc_fixed e 4 z) z read_uint32.
Proof.
  intros Hz s rest Hs _ He Hu. pose proof (enc_fixed_length e 4 z) as Hl. pose proof (value_of_enc e 4 z Hz) as Hv.
  destruct (enc_fixed e 4 z) as [|b0 [|b1 [|b2 [|b3 [|]]]]]; try discriminate.
  by rewrite (read_uint32_at s Hs rest b0 b1 b2 b3 Hu), He, Hv.
Qed.

Lemma runs_as_address e sz a : size_ok sz → in_width (8 * sz) a → runs_as e (enc_addr e sz a) a (read_address sz).
Proof.
  intros [->|[->|[->| ->]]] Ha.
  - intros s rest Hs _ He Hu. assert (enc_addr e 1 a = [a]) as Hen.
    { pose proof (value_of_enc e 1 a Ha) as Hv. pose proof (enc_fixed_length e 1 a) as Hl. unfold enc_addr.
      change (Z.to_nat 1) with 1%nat. destruct (enc_fixed e 1 a) as [|b [|]]; try discriminate. f_equal.
      revert Hv. unfold value_of. destruct e; cbn; lia. }
    rewrite Hen in *. by eapply read_byte_at.
  - by apply runs_as_uint16.
  - by apply runs_as_uint32.
  - by apply runs_as_uint64.
Qed.

Lemma highest_spec sz a : size_ok sz → is_highest_address a sz = (a =? 2 ^ (8 * sz) - 1).
Proof. by intros [->|[->|[->| ->]]]. Qed.

Lemma u64_add_l a b : u64 (u64 a + b) = u64 (a + b).
Proof. unfold u64. lia. Qed.

Section ranges_run.
Variables (d : dwarf_sections) (base_address : Z) (e : bool) (u : dwarf_unit) (addr : list Z).
Context {V : Type} (add_range : Z → Z → V → D (bool * V)) (addf : Z → Z → V → V).
Hypothesis Hsz : size_ok (addrsize u).
Hypothesis Haddr : ∀ i s, allocs s = [] → 0 ≤ i < Z.of_nat (length addr) → addr_index d e u i s = Ok (Some (addr !!! Z.to_nat i), s).
Hypothesis Hadd : ∀ lo hi v s, allocs s = [] → add_range lo hi v s = Ok ((true, addf lo hi v), s).
Hypothesis Htable : Z.of_nat (length addr) < 2^64.

(** A range of the list, where the file is loaded. *)
Definition add_loaded (v : V) (r : Z * Z) : V := addf (u64 (r.1 + base_address)) (u64 (r.2 + base_address)) v.

Lemma rle_entry_run r base v : rle_ok (addrsize u) addr r →
  runs_as e (tail (enc_rle e (addrsize u) r)) (true, (rle_means addr base r).1,
      foldl add_loaded v (rle_means addr base r).2)
    (rle_entry d base_address e u add_range (hd 0 (enc_rle e (addrsize u) r)) base v).
Proof.
  assert (∀ lo hi s, allocs s = [] → ('(ok, v) ← add_range lo hi v; mret (ok, base, v)) s = Ok ((true, base, addf lo hi v), s)) as Ha.
  { intros lo hi s Hs. by rewrite (bind_ok _ _ _ _ _ (Hadd lo hi v s Hs)). }
  intros Hr. destruct r; cbn [tail hd enc_rle rle_means fst snd foldl] in *; unfold rle_ok in Hr; unfold rle_entry;
    cbn [Z.eqb Pos.eqb].
  - apply (runs_as_last _ _ i); [apply runs_as_of, reads_as_uleb; lia|]. intros s Hs.
    by rewrite (bind_ok _ _ _ _ _ (Haddr i s Hs Hr)).
  - destruct Hr as [H1 H2]. eapply (runs_as_bind _ _ _ i); [apply runs_as_of, reads_as_uleb; lia|].
    eapply runs_as_bind_pure; [intros s Hs; by apply Haddr|]. cbv beta iota.
    apply (runs_as_last _ _ j); [apply runs_as_of, reads_as_uleb; lia|]. intros s Hs.
    rewrite (bind_ok _ _ _ _ _ (Haddr j s Hs H2)). by apply Ha.
  - destruct Hr as [H1 H2]. eapply (runs_as_bind _ _ _ i); [apply runs_as_of, reads_as_uleb; lia|].
    eapply runs_as_bind_pure; [intros s Hs; by apply Haddr|]. cbv beta iota.
    apply (runs_as_last _ _ n); [apply runs_as_of, reads_as_uleb, H2|]. intros s Hs. cbv zeta.
    rewrite Ha by done. unfold add_loaded. cbn [fst snd]. rewrite u64_add_l. do 4 f_equal. f_equal. lia.
  - destruct Hr as [H1 H2]. eapply (runs_as_bind _ _ _ lo); [apply runs_as_of, reads_as_uleb, H1|].
    apply (runs_as_last _ _ hi); [apply runs_as_of, reads_as_uleb, H2|]. intros s Hs. rewrite Ha by done.
    unfold add_loaded. cbn [fst snd]. do 4 f_equal; f_equal; lia.
  - apply (runs_as_last _ _ a); [by apply runs_as_address|]. done.
  - destruct Hr as [H1 H2]. eapply (runs_as_bind _ _ _ lo); [by apply runs_as_address|].
    apply (runs_as_last _ _ hi); [by apply runs_as_address|]. intros s Hs. by rewrite Ha.
  - destruct Hr as [H1 H2]. eapply (runs_as_bind _ _ _ lo); [by apply runs_as_address|].
    apply (runs_as_last _ _ n); [apply runs_as_of, reads_as_uleb, H2|]. intros s Hs. cbv zeta.
    rewrite Ha by done. unfold add_loaded. cbn [fst snd]. rewrite u64_add_l. do 4 f_equal. f_equal. lia.
Qed.

Lemma enc_rle_cons r : enc_rle e (addrsize u) r
  = hd 0 (enc_rle e (addrsize u) r) :: tail (enc_rle e (addrsize u) r) ∧ hd 0 (enc_rle e (addrsize u) r) ≠ 0.
Proof. by destruct r. Qed.

Definition enc_rles (l : list rle) : list Z := concat (enc_rle e (addrsize u) <$> l) ++ [DW_RLE_end_of_list].

Definition noted (s : dstate) : Prop := db_reported_underflow (db s) = false.

Lemma rnglists_loop_run l : ∀ fuel base v s rest,
  Forall (rle_ok (addrsize u) addr) l → (length l ≤ fuel)%nat → noted s →
  wf_buf (db s) → allocs s = [] → db_is_bigendian (db s) = e → unread s = enc_rles l ++ rest →
  rnglists_loop d base_address e u add_range fuel base v s
    = Ok ((true, foldl add_loaded v (rle_ranges addr base l)), moved (Z.of_nat (length (enc_rles l))) s).
Proof.
  induction l as [|r l IH]; intros fuel base v s rest Hl Hf Hn Hs Ha He Hu.
  - destruct fuel; cbn [rnglists_loop]; rewrite (bind_ok _ _ _ _ _ (reads_as_byte 0 s _ Hs Hu));
      cbn [Z.eqb length Z.of_nat]; rewrite bind_ok with (a := db (moved 1 s)) (s1 := moved 1 s) by done;
      unfold noted in Hn; unfold moved, set_field in *; cbn in *; by rewrite Hn.
  - apply Forall_cons in Hl as [Hr Hl]. cbn [length] in Hf. destruct fuel as [|fuel]; [lia|]. cbn [rnglists_loop].
    destruct (enc_rle_cons r) as [Hen Hne]. set (k := hd 0 _) in *. set (bs := tail _) in *.
    assert (enc_rles (r :: l) = [k] ++ bs ++ enc_rles l) as Hel.
    { unfold enc_rles. cbn [fmap list_fmap concat]. rewrite Hen. cbn. by rewrite <-app_assoc. }
    rewrite Hel in *. rewrite <-!app_assoc in Hu.
    rewrite (bind_ok _ _ _ _ _ (reads_as_byte k s _ Hs Hu)). replace (k =? 0) with false by lia.
    destruct (unread_after s [k] _ Hs Hu) as [Hs1 Hu1]. change (Z.of_nat (length [k])) with 1 in *.
    rewrite (bind_ok _ _ _ _ _ (rle_entry_run r base v Hr _ _ Hs1 Ha He Hu1)). fold bs. cbn [negb].
    destruct (unread_after _ bs _ Hs1 Hu1) as [Hs2 Hu2].
    erewrite IH; [|done|lia|done|done|done|done|done].
    cbn [rle_ranges]. rewrite foldl_app. do 2 f_equal. rewrite !moved_moved, !length_app. f_equal. cbn [length]. lia.
Qed.

Definition enc_pairs (l : list pair_entry) : list Z :=
  concat (enc_pair e (addrsize u) <$> l) ++ enc_addr e (addrsize u) 0 ++ enc_addr e (addrsize u) 0.

Lemma read_two_addresses a b s bs : in_width (8 * addrsize u) a → in_width (8 * addrsize u) b →
  wf_buf (db s) → allocs s = [] → db_is_bigendian (db s) = e →
  unread s = (enc_addr e (addrsize u) a ++ enc_addr e (addrsize u) b) ++ bs →
  ∃ s1 s2, read_address (addrsize u) s = Ok (a, s1) ∧ read_address (addrsize u) s1 = Ok (b, s2) ∧
    s2 = moved (Z.of_nat (length (enc_addr e (addrsize u) a ++ enc_addr e (addrsize u) b))) s ∧
    wf_buf (db s2) ∧ unread s2 = bs.
Proof.
  intros Wa Wb Hs Ha He Hu. rewrite <-app_assoc in Hu.
  destruct (unread_after s _ _ Hs Hu) as [Hs1 Hu1]. destruct (unread_after _ _ _ Hs1 Hu1) as [Hs2 Hu2].
  eexists _, _. split; [by eapply runs_as_address|]. split; [by eapply runs_as_address|].
  split; [rewrite moved_moved, length_app; f_equal; lia|]. done.
Qed.

Lemma ranges_loop_run l : ∀ fuel base v s rest,
  Forall (pair_ok (addrsize u)) l → (length l ≤ fuel)%nat → noted s →
  wf_buf (db s) → allocs s = [] → db_is_bigendian (db s) = e → unread s = enc_pairs l ++ rest →
  ranges_loop base_address u add_range fuel base v s
    = Ok ((true, foldl add_loaded v (pair_ranges base l)), moved (Z.of_nat (length (enc_pairs l))) s).
Proof.
  assert (0 < 2 ^ (8 * addrsize u)) as Hpow by (apply Z.pow_pos_nonneg; [lia|]; destruct Hsz; lia).
  assert (in_width (8 * addrsize u) 0) as W0 by (unfold in_width; lia).
  assert (in_width (8 * addrsize u) (2 ^ (8 * addrsize u) - 1)) as W1 by (unfold in_width; lia).
  induction l as [|p l IH]; intros fuel base v s rest Hl Hf Hn Hs Ha He Hu.
  - destruct (read_two_addresses 0 0 s rest W0 W0 Hs Ha He Hu) as (s1 & s2 & E1 & E2 & -> & Hs2 & Hu2).
    destruct fuel; cbn [ranges_loop]; rewrite bind_ok with (a := db s) (s1 := s) by done; rewrite Hn;
      rewrite (bind_ok _ _ _ _ _ E1), (bind_ok _ _ _ _ _ E2); cbn [Z.eqb andb];
      set (n := Z.of_nat _); rewrite bind_ok with (a := db (moved n s)) (s1 := moved n s) by done; unfold noted in Hn;
      subst n; unfold moved, set_field in *; cbn in *; by rewrite Hn.
  - apply Forall_cons in Hl as [Hp Hl]. cbn [length] in Hf. destruct fuel as [|fuel]; [lia|]. cbn [ranges_loop].
    rewrite bind_ok with (a := db s) (s1 := s) by done; rewrite Hn.
    assert (enc_pairs (p :: l) = enc_pair e (addrsize u) p ++ enc_pairs l) as Hel
      by (unfold enc_pairs; cbn; by rewrite <-!app_assoc).
    rewrite Hel in *. destruct p as [lo hi|a]; cbn [enc_pair pair_ok] in *.
    + destruct Hp as (Hlo & Hhi & H0 & H1). rewrite <-app_assoc in Hu.
      destruct (read_two_addresses lo hi s _ Hlo Hhi Hs Ha He Hu) as (s1 & s2 & E1 & E2 & -> & Hs2 & Hu2).
      rewrite (bind_ok _ _ _ _ _ E1), (bind_ok _ _ _ _ _ E2). replace ((lo =? 0) && (hi =? 0)) with false by lia.
      rewrite highest_spec by done. replace (lo =? _) with false by lia.
      erewrite bind_ok; [|by apply Hadd]. cbn [negb]. erewrite IH; [|done|lia|done|done|done|done|done].
      cbn [pair_ranges foldl]. unfold add_loaded at 2. cbn [fst snd].
      rewrite (Z.add_comm lo base), (Z.add_comm hi base). rewrite moved_moved, !length_app. do 3 f_equal. lia.
    + rewrite <-app_assoc in Hu. destruct (read_two_addresses _ a s _ W1 Hp Hs Ha He Hu) as (s1 & s2 & E1 & E2 & -> & Hs2 & Hu2).
      rewrite (bind_ok _ _ _ _ _ E1), (bind_ok _ _ _ _ _ E2).
      replace ((2 ^ (8 * addrsize u) - 1 =? 0)) with false by (destruct Hsz as [->|[->|[->| ->]]]; done). cbn [andb].
      rewrite highest_spec, Z.eqb_refl by done. erewrite IH; [|done|lia|done|done|done|done|done].
      cbn [pair_ranges]. rewrite moved_moved, !length_app. do 3 f_equal. lia.
Qed.
End ranges_run.

(** ** The ranges of an entry *)

(** Reading another buffer when it is read as it was written. *)
Lemma on_buf_runs {A} e bs (v : A) m b s rest :
  runs_as e bs v m → wf_buf b → allocs s = [] → db_is_bigendian b = e →
  unread (s <| db := b |>) = bs ++ rest → ∃ b', on_buf b m s = Ok ((v, b'), s).
Proof.
  intros Hm Hb Ha He Hu. unfold on_buf. assert (wf_buf (db (s <| db := b |>))) as Hb1 by done.
  rewrite (Hm (s <| db := b |>) rest Hb1 Ha He Hu). eexists. do 2 f_equal. by destruct s.
Qed.

Lemma unread_section d sec off e s : sections_ok d → 0 ≤ off ≤ sec_size d sec →
  unread (s <| db := section_buf d sec off e |>) = drop (Z.to_nat off) (d sec).
Proof.
  intros Hd Ho. destruct (Hd sec) as [_ Hs]. unfold unread, section_buf, set_field, sec_size in *. cbn.
  apply take_ge. rewrite length_drop. rewrite u64_small by lia. lia.
Qed.

(** A block of a table of blocks of [n] bytes. *)
Lemma drop_table {A} (f : A → list Z) n (l : list A) i x (pre post : list Z) :
  (∀ y, length (f y) = n) → l !! i = Some x →
  ∃ rest, drop (length pre + i * n) (pre ++ concat (f <$> l) ++ post) = f x ++ rest.
Proof.
  intros Hf Hi. assert (length (concat (f <$> take i l)) = i * n)%nat as Hlen.
  { apply lookup_lt_Some in Hi. assert (length (take i l) = i) as Ht by (rewrite length_take; lia).
    rewrite <-Ht at 2. clear Ht. generalize (take i l). intros k. induction k as [|y k IH]; [done|].
    cbn [fmap list_fmap concat length]. rewrite length_app, Hf. cbn in IH. lia. }
  exists (concat (f <$> drop (S i) l) ++ post). rewrite <-(take_drop_middle l i x Hi) at 1.
  rewrite fmap_app, concat_app, <-drop_drop, drop_app_length, <-!app_assoc. rewrite <-Hlen, drop_app_length. cbn. by rewrite app_assoc.
Qed.

Section entry.
Variables (d : dwarf_sections) (base_address : Z) (e : bool) (u : dwarf_unit) (addr : list Z).
Context {V : Type} (add_range : Z → Z → V → D (bool * V)) (addf : Z → Z → V → V).
Hypothesis Hd : sections_ok d.
Hypothesis Hsz : size_ok (addrsize u).
Hypothesis Haddr : Forall (in_width (8 * addrsize u)) addr.
Hypothesis Htable : ∃ pre post, d DEBUG_ADDR = pre ++ concat (enc_addr e (addrsize u) <$> addr) ++ post ∧
  addr_base u = Z.of_nat (length pre).
Hypothesis Hadd : ∀ lo hi v s, allocs s = [] → add_range lo hi v s = Ok ((true, addf lo hi v), s).

Lemma enc_addr_length a : length (enc_addr e (addrsize u) a) = Z.to_nat (addrsize u).
Proof. apply enc_fixed_length. Qed.

Lemma addr_index_run i s : allocs s = [] → 0 ≤ i < Z.of_nat (length addr) →
  addr_index d e u i s = Ok (Some (addr !!! Z.to_nat i), s).
Proof.
  intros Ha Hi. destruct Htable as (pre & post & Ht & Hb). destruct (lookup_lt_is_Some_2 addr (Z.to_nat i) ltac:(lia)) as [a Hia].
  rewrite (list_lookup_total_correct _ _ _ Hia).
  destruct (drop_table (enc_addr e (addrsize u)) (Z.to_nat (addrsize u)) addr (Z.to_nat i) a pre post enc_addr_length Hia) as [rest Hr].
  assert (0 < addrsize u ≤ 8) as Hs8 by (destruct Hsz as [->|[->|[->| ->]]]; lia). rewrite <-Ht in Hr.
  replace (length pre + Z.to_nat i * Z.to_nat (addrsize u))%nat with (Z.to_nat (i * addrsize u + addr_base u)) in Hr by nia.
  destruct (Hd DEBUG_ADDR) as [_ Hlt]. set (off := i * addrsize u + addr_base u) in *.
  assert (0 ≤ off) by (subst off; nia).
  assert (off + addrsize u ≤ sec_size d DEBUG_ADDR) as Hle.
  { apply (f_equal length) in Hr. rewrite length_drop, length_app, enc_addr_length in Hr. unfold sec_size. lia. }
  unfold addr_index, resolve_addr_index. fold off. rewrite (u64_small off) by lia. cbv zeta.
  rewrite (u64_small (off + addrsize u)) by lia. replace (_ <? _) with false by lia.
  destruct (on_buf_runs e (enc_addr e (addrsize u) a) a (read_address (addrsize u)) (section_buf d DEBUG_ADDR off e) s rest)
    as [b' E]; [apply runs_as_address; [done|]|apply section_buf_wf; [done|lia]|done|done|rewrite unread_section; [done|done|lia]|].
  { by apply (proj1 (Forall_lookup _ _) Haddr _ _ Hia). }
  by rewrite (bind_ok _ _ _ _ _ E).
Qed.

(** The address an attribute gives: itself, or the one at an index. *)
Definition attr_addr (is_index : bool) (z : Z) : Z := if is_index then addr !!! Z.to_nat z else z.
Definition attr_addr_ok (is_index : bool) (z : Z) : Prop := is_index = true → 0 ≤ z < Z.of_nat (length addr).

(** Where the range list of [p] starts in .debug_rnglists: at the offset, or at
    the offset that stands at an index of the unit's table. *)
Definition list_start (p : pcrange) (off : Z) : Prop :=
  let n := if is_dwarf64 u then 8%nat else 4%nat in
  if ranges_is_index p then
    0 ≤ ranges p ∧ 0 ≤ off - rnglists_base u < 2 ^ (8 * Z.of_nat n) ∧ 0 ≤ rnglists_base u ∧
    ∃ rest, drop (Z.to_nat (rnglists_base u + ranges p * Z.of_nat n)) (d DEBUG_RNGLISTS)
              = enc_fixed e n (off - rnglists_base u) ++ rest
  else ranges p = off.

(** [entry_ranges p base l]: [l] are the ranges of an entry with the attributes
    [p] and the base address [base]. *)
Inductive entry_ranges (p : pcrange) (base : Z) : list (Z * Z) → Prop :=
  | ER_low_high :
      have_lowpc p = true → have_highpc p = true →
      attr_addr_ok (lowpc_is_addr_index p) (lowpc p) → attr_addr_ok (highpc_is_addr_index p) (highpc p) →
      let lo := attr_addr (lowpc_is_addr_index p) (lowpc p) in
      let hi := attr_addr (highpc_is_addr_index p) (highpc p) in
      entry_ranges p base [(lo, if highpc_is_relative p then lo + hi else hi)]
  | ER_none :
      have_lowpc p && have_highpc p = false → have_ranges p = false → entry_ranges p base []
  | ER_pairs l rest :
      have_lowpc p && have_highpc p = false → have_ranges p = true → version u < 5 →
      0 ≤ ranges p → Forall (pair_ok (addrsize u)) l →
      drop (Z.to_nat (ranges p)) (d DEBUG_RANGES) = enc_pairs e u l ++ rest →
      entry_ranges p base (pair_ranges base l)
  | ER_list l off rest :
      have_lowpc p && have_highpc p = false → have_ranges p = true → 5 ≤ version u →
      0 ≤ off → list_start p off → Forall (rle_ok (addrsize u) addr) l →
      drop (Z.to_nat off) (d DEBUG_RNGLISTS) = enc_rles e u l ++ rest →
      entry_ranges p base (rle_ranges addr base l).

Lemma addr_or_index_run c z s : allocs s = [] → attr_addr_ok c z →
  addr_or_index d e u c z s = Ok (Some (attr_addr c z), s).
Proof. intros Ha Hz. destruct c; [|done]. apply addr_index_run; auto. Qed.

Lemma drop_nonempty_lt (l : list Z) n x r : drop n l = x :: r → (n < length l)%nat.
Proof. intros E. apply (f_equal length) in E. rewrite length_drop in E. cbn in E. lia. Qed.

Lemma concat_length_le {A} (f : A → list Z) l : (∀ x, f x ≠ []) → (length l ≤ length (concat (f <$> l)))%nat.
Proof.
  intros Hf. induction l as [|x l IH]; [done|]. cbn [fmap list_fmap concat length]. rewrite length_app. cbn in IH.
  specialize (Hf x). destruct (f x); [done|]. cbn. lia.
Qed.

Lemma on_buf_back {A} (v : A) m b s s1 : m (s <| db := b |>) = Ok (v, s1) → s1 <| db := db s |> = s →
  ∃ b', on_buf b m s = Ok ((v, b'), s).
Proof. intros E H. unfold on_buf. rewrite E, H. by eexists. Qed.

Lemma set_db_moved n b s : (moved n (s <| db := b |>)) <| db := db s |> = s.
Proof. by destruct s. Qed.

Lemma from_ranges_run base p v l rest s :
  0 ≤ ranges p → Forall (pair_ok (addrsize u)) l → allocs s = [] →
  drop (Z.to_nat (ranges p)) (d DEBUG_RANGES) = enc_pairs e u l ++ rest →
  add_ranges_from_ranges d base_address e u add_range base p v s
    = Ok ((true, foldl (add_loaded base_address addf) v (pair_ranges base l)), s).
Proof.
  intros Hp Hl Ha Hdr. destruct (Hd DEBUG_RANGES) as [_ Hlt].
  assert (∀ a, enc_addr e (addrsize u) a ≠ []) as Hne.
  { intros a E. apply (f_equal length) in E. rewrite enc_addr_length in E. destruct Hsz as [Hz|[Hz|[Hz|Hz]]]; rewrite Hz in E; done. }
  assert (length l ≤ length (concat (enc_pair e (addrsize u) <$> l)))%nat as Hfl.
  { apply concat_length_le. intros []; cbn; intros E; apply app_eq_nil in E as [E _]; by eapply Hne. }
  assert (Z.to_nat (ranges p) < length (d DEBUG_RANGES) ∧ length l ≤ length (d DEBUG_RANGES))%nat as [Hlen Hlen2].
  { apply (f_equal length) in Hdr. rewrite length_drop in Hdr. unfold enc_pairs in Hdr. rewrite !length_app, !enc_addr_length in Hdr.
    destruct Hsz as [Hz|[Hz|[Hz|Hz]]]; rewrite Hz in *; lia. }
  unfold add_ranges_from_ranges, sec_size in *. replace (_ <=? _) with false by lia.
  assert (0 ≤ ranges p ≤ sec_size d DEBUG_RANGES) as Hr by (unfold sec_size; lia).
  edestruct (on_buf_back (true, foldl (add_loaded base_address addf) v (pair_ranges base l))
    (ranges_loop base_address u add_range (length (d DEBUG_RANGES)) base v) (section_buf d DEBUG_RANGES (ranges p) e) s)
    as [b' E]; [|apply set_db_moved|].
  { eapply (ranges_loop_run base_address e u addr add_range addf Hsz Hadd); try done; [by apply section_buf_wf|].
    by rewrite unread_section. }
  by rewrite (bind_ok _ _ _ _ _ E).
Qed.

(** The loop over a list that starts at [off]. *)
Lemma rnglists_loop_at base v l off rest s n :
  0 ≤ off ≤ sec_size d DEBUG_RNGLISTS → (length l ≤ n)%nat → Forall (rle_ok (addrsize u) addr) l → allocs s = [] →
  drop (Z.to_nat off) (d DEBUG_RNGLISTS) = enc_rles e u l ++ rest →
  rnglists_loop d base_address e u add_range n base v (s <| db := section_buf d DEBUG_RNGLISTS off e |>)
    = Ok ((true, foldl (add_loaded base_address addf) v (rle_ranges addr base l)),
          moved (Z.of_nat (length (enc_rles e u l))) (s <| db := section_buf d DEBUG_RNGLISTS off e |>)).
Proof.
  intros Hoff Hn Hl Ha Hdr.
  assert (Z.of_nat (length addr) < 2^64) as Ht.
  { destruct Htable as (pre & post & Ht & _). destruct (Hd DEBUG_ADDR) as [_ Hlt]. unfold sec_size in Hlt.
    rewrite Ht, !length_app in Hlt. pose proof (concat_length_le (enc_addr e (addrsize u)) addr) as Hc.
    assert (∀ a, enc_addr e (addrsize u) a ≠ []) as Hne.
    { intros a E. apply (f_equal length) in E. rewrite enc_addr_length in E. destruct Hsz as [Hz|[Hz|[Hz|Hz]]]; rewrite Hz in E; done. }
    specialize (Hc Hne). lia. }
  eapply (rnglists_loop_run d base_address e u addr add_range addf Hsz addr_index_run Hadd Ht); try done.
  - by apply section_buf_wf.
  - by rewrite unread_section.
Qed.

Lemma enc_rles_bounds l off rest : 0 ≤ off → drop (Z.to_nat off) (d DEBUG_RNGLISTS) = enc_rles e u l ++ rest →
  off < sec_size d DEBUG_RNGLISTS ∧ (length l ≤ length (d DEBUG_RNGLISTS))%nat.
Proof.
  intros Ho E. apply (f_equal length) in E. unfold enc_rles in E. rewrite length_drop, !length_app in E. cbn [length] in E.
  pose proof (concat_length_le (enc_rle e (addrsize u)) l) as Hc. unfold sec_size. specialize (Hc ltac:(by intros [])). lia.
Qed.

(** The offset at an index of the unit's table. *)
Lemma read_offset_run n z : n = (if is_dwarf64 u then 8%nat else 4%nat) → 0 ≤ z < 2 ^ (8 * Z.of_nat n) →
  runs_as e (enc_fixed e n z) z (read_offset (is_dwarf64 u)).
Proof. intros -> Hz. unfold read_offset. destruct (is_dwarf64 u); [by apply runs_as_uint64|by apply runs_as_uint32]. Qed.

Lemma from_rnglists_run base p v l off rest s :
  0 ≤ off → list_start p off → Forall (rle_ok (addrsize u) addr) l → allocs s = [] →
  drop (Z.to_nat off) (d DEBUG_RNGLISTS) = enc_rles e u l ++ rest →
  add_ranges_from_rnglists d base_address e u add_range base p v s
    = Ok ((true, foldl (add_loaded base_address addf) v (rle_ranges addr base l)), s).
Proof.
  intros Ho Hst Hl Ha Hdr. destruct (enc_rles_bounds l off rest Ho Hdr) as [Hlt Hn]. destruct (Hd DEBUG_RNGLISTS) as [_ Hmax].
  unfold add_ranges_from_rnglists, list_start in *. destruct (ranges_is_index p); cbn [negb] in *.
  - set (n := if is_dwarf64 u then 8%nat else 4%nat) in *. destruct Hst as (Hp & Hoff & Hb & rest2 & Hd2).
    assert ((if is_dwarf64 u then 8 else 4) = Z.of_nat n) as -> by (subst n; by destruct (is_dwarf64 u)).
    set (o1 := rnglists_base u + ranges p * Z.of_nat n) in *. assert (0 ≤ o1) by (subst o1; lia).
    assert (o1 < sec_size d DEBUG_RNGLISTS) as Ho1.
    { apply (f_equal length) in Hd2. rewrite length_drop, length_app, enc_fixed_length in Hd2. unfold sec_size.
      assert (4 ≤ n)%nat by (subst n; destruct (is_dwarf64 u); lia). lia. }
    rewrite u64_small by lia. cbv zeta. replace (sec_size d DEBUG_RNGLISTS <=? o1) with false by lia.
    set (s1 := s <| db := section_buf d DEBUG_RNGLISTS o1 e |>).
    assert (wf_buf (db s1)) as Hs1 by (apply section_buf_wf; [done|lia]).
    edestruct (on_buf_back (true, foldl (add_loaded base_address addf) v (rle_ranges addr base l))) as [b' E];
      [| |by rewrite (bind_ok _ _ _ _ _ E)].
    + fold s1. erewrite bind_ok; [|eapply (read_offset_run n (off - rnglists_base u) eq_refl Hoff s1 rest2 Hs1 Ha eq_refl); subst s1; rewrite unread_section; [done|done|lia]].
      replace (off - rnglists_base u + rnglists_base u) with off by lia. rewrite u64_small by lia.
      replace (sec_size d DEBUG_RNGLISTS <=? off) with false by lia. erewrite bind_ok by reflexivity.
      etrans; [|apply (rnglists_loop_at base v l off rest s (length (d DEBUG_RNGLISTS))); try done; lia].
      f_equal. subst s1. unfold section_buf, moved, set_field. cbn. by rewrite u64_small by lia.
    + apply set_db_moved.
  - subst off. cbv zeta. replace (sec_size d DEBUG_RNGLISTS <=? ranges p) with false by lia.
    edestruct (on_buf_back (true, foldl (add_loaded base_address addf) v (rle_ranges addr base l))) as [b' E];
      [eapply (rnglists_loop_at base v l (ranges p) rest s); try done; lia|apply set_db_moved|].
    by rewrite (bind_ok _ _ _ _ _ E).
Qed.

Lemma add_ranges_run p base l v s : entry_ranges p base l → allocs s = [] →
  add_ranges d base_address e u add_range base p v s = Ok ((true, foldl (add_loaded base_address addf) v l), s).
Proof.
  intros Hl Ha. unfold add_ranges. destruct Hl as [H1 H2 Hlo Hhi lo hi|H1 H2|l rest H1 H2 Hv Hr Hl Hdr|l off rest H1 H2 Hv Ho Hst Hl Hdr].
  - rewrite H1, H2. cbn [andb]. unfold add_low_high_range.
    rewrite (bind_ok _ _ _ _ _ (addr_or_index_run _ _ s Ha Hlo)), (bind_ok _ _ _ _ _ (addr_or_index_run _ _ s Ha Hhi)).
    fold lo hi. cbv zeta. rewrite Hadd by done. cbn [foldl]. unfold add_loaded. cbn [fst snd].
    destruct (highpc_is_relative p); [|done]. rewrite u64_add_l. by rewrite (Z.add_comm hi lo).
  - by rewrite H1, H2.
  - rewrite H1, H2. cbn [negb]. replace (version u <? 5) with true by lia. by eapply from_ranges_run.
  - rewrite H1, H2. cbn [negb]. replace (version u <? 5) with false by lia. by eapply from_rnglists_run.
Qed.
End entry.

(** ** The vector covers the ranges *)

(** [add_addrs] when no allocation fails. *)
Definition push_addrs (pagesize : Z) (n : nat) (lo hi : Z) (v : vector addrs) : vector addrs :=
  let push :=
    let '(bytes, free) :=
      if vfree v <? sizeof_addrs then
        (u64 (vbytes v + sizeof_addrs), u64 (u64 (grow_alc pagesize (vbytes v) sizeof_addrs - vbytes v) - sizeof_addrs))
      else (u64 (vbytes v + sizeof_addrs), u64 (vfree v - sizeof_addrs)) in
    mk_vec (items v ++ [mk_addrs lo hi (Some n)]) bytes free in
  match last (items v) with
  | None => push
  | Some p =>
      if ((lo =? high p) || (lo =? u64 (high p + 1))) && bool_decide (owner p = Some n) then
        if high p <? hi then mk_vec (removelast (items v) ++ [mk_addrs (low p) hi (owner p)]) (vbytes v) (vfree v) else v
      else push
  end.

Lemma add_addrs_run pagesize n lo hi v s : allocs s = [] →
  add_addrs pagesize n lo hi v s = Ok ((true, push_addrs pagesize n lo hi v), s).
Proof.
  intros Ha. unfold add_addrs, push_addrs, vec_push, vec_grow, alloc_answer, mret, M_ret, mbind, M_bind.
  assert (alloc_answer s = Ok (true, s)) as Hal by (unfold alloc_answer; by rewrite Ha).
  destruct (last (items v)) as [p|]; [destruct (_ && _); [by destruct (_ <? _)|]|];
    (destruct (vfree v <? sizeof_addrs); [rewrite Ha; cbn|]; done).
Qed.

(** A byte inside an entry of [n]; or inside it or right behind it. *)
Definition covers (l : list addrs) (n : nat) (pc : Z) : Prop :=
  ∃ a, a ∈ l ∧ owner a = Some n ∧ low a ≤ pc < high a.
Definition touches (l : list addrs) (n : nat) (pc : Z) : Prop :=
  ∃ a, a ∈ l ∧ owner a = Some n ∧ low a ≤ pc ≤ high a.

Lemma covers_snoc l a n pc : covers (l ++ [a]) n pc ↔ covers l n pc ∨ owner a = Some n ∧ low a ≤ pc < high a.
Proof.
  split.
  - intros (b & [Hb|Hb%list_elem_of_singleton]%elem_of_app & ?); [left; exists b; eauto|right; by subst].
  - intros [(b & ? & ?)|?]; [exists b|exists a]; set_solver.
Qed.

Lemma touches_snoc l a n pc : touches (l ++ [a]) n pc ↔ touches l n pc ∨ owner a = Some n ∧ low a ≤ pc ≤ high a.
Proof.
  split.
  - intros (b & [Hb|Hb%list_elem_of_singleton]%elem_of_app & ?); [left; exists b; eauto|right; by subst].
  - intros [(b & ? & ?)|?]; [exists b|exists a]; set_solver.
Qed.

Definition addrs_ok (a : addrs) : Prop := 0 ≤ low a ≤ high a ∧ high a < 2^64 - 1.

Lemma push_addrs_items pagesize n lo hi v :
  items (push_addrs pagesize n lo hi v) = items v ++ [mk_addrs lo hi (Some n)] ∨
  ∃ l p, items v = l ++ [p] ∧ owner p = Some n ∧ (lo = high p ∨ lo = u64 (high p + 1)) ∧
    (high p < hi ∧ items (push_addrs pagesize n lo hi v) = l ++ [mk_addrs (low p) hi (Some n)] ∨
     hi ≤ high p ∧ push_addrs pagesize n lo hi v = v).
Proof.
  unfold push_addrs. destruct (last (items v)) as [p|] eqn:El; [|left; by destruct (vfree v <? sizeof_addrs)].
  destruct (((lo =? high p) || (lo =? u64 (high p + 1))) && bool_decide (owner p = Some n)) eqn:Em;
    [|left; by destruct (vfree v <? sizeof_addrs)].
  right. apply andb_true_iff in Em as [Em Eo%bool_decide_eq_true]. apply last_Some in El as [l El]. exists l, p.
  split; [done|]. split; [done|]. split; [lia|].
  destruct (Z.ltb_spec (high p) hi); [left|right; by split; [lia|]]. split; [done|]. cbn. rewrite El, Eo.
  by rewrite removelast_last.
Qed.

(** A new range: its bytes are covered, the bytes inside or right behind an entry
    are those of the entries before and of the range, and the entries of other
    units stay. *)
Lemma push_addrs_cover pagesize n lo hi v : 0 ≤ lo ≤ hi → hi < 2^64 - 1 → Forall addrs_ok (items v) →
  let l' := items (push_addrs pagesize n lo hi v) in
  Forall addrs_ok l' ∧
  (∀ pc, covers (items v) n pc ∨ lo ≤ pc < hi → covers l' n pc) ∧
  (∀ pc, touches l' n pc ↔ touches (items v) n pc ∨ lo ≤ pc ≤ hi) ∧
  (∀ m pc, m ≠ n → covers l' m pc ↔ covers (items v) m pc).
Proof.
  intros Hlo Hhi Hv l'.
  destruct (push_addrs_items pagesize n lo hi v) as [Ei|(l & p & Ei & Eo & El & Hcase)]; subst l'.
  - rewrite Ei. split; [apply Forall_app; split; [done|]; constructor; [split; cbn; lia|constructor]|].
    split; [intros pc Hpc; apply covers_snoc; cbn; tauto|].
    split; [intros pc; rewrite touches_snoc; cbn; tauto|]. intros m pc Hm. rewrite covers_snoc. cbn. naive_solver.
  - rewrite Ei in Hv |- *. apply Forall_app in Hv as [Hl Hp]. apply Forall_cons in Hp as [[Hp1 Hp2] _].
    rewrite u64_small in El by lia. destruct Hcase as [[Hh Ei']|[Hh Ev]].
    + rewrite Ei'. split; [apply Forall_app; split; [done|]; constructor; [split; cbn; lia|constructor]|].
      split; [intros pc; rewrite !covers_snoc; cbn; rewrite Eo; intros [[?|[_ ?]]|?]; [by left|right; split; [done|lia]..]|].
      split.
      * intros pc. rewrite !touches_snoc. cbn. rewrite Eo. split; [intros [?|[_ ?]]; [tauto|]|intros [[?|[_ ?]]|?]; [tauto|right; split; [done|lia]..]].
        destruct (Z_le_gt_dec pc (high p)); [left; right; split; [done|lia]|right; lia].
      * intros m pc Hm. rewrite !covers_snoc. cbn. rewrite Eo. naive_solver.
    + rewrite Ev, Ei. split; [apply Forall_app; split; [done|]; by constructor|].
      split; [intros pc [?|?]; [done|lia]|]. split; [|done]. intros pc. rewrite touches_snoc, Eo. split; [tauto|].
      intros [?|?]; [tauto|]. right. split; [done|lia].
Qed.

(** A range where the file is loaded at [b]. *)
Definition range_ok (b : Z) (r : Z * Z) : Prop := 0 ≤ r.1 + b ≤ r.2 + b ∧ r.2 + b < 2^64 - 1.

Lemma push_ranges_cover pagesize n b l : ∀ v, Forall (range_ok b) l → Forall addrs_ok (items v) →
  let l' := items (foldl (add_loaded b (push_addrs pagesize n)) v l) in
  Forall addrs_ok l' ∧
  (∀ pc, covers (items v) n pc ∨ (∃ r, r ∈ l ∧ r.1 + b ≤ pc < r.2 + b) → covers l' n pc) ∧
  (∀ pc, touches l' n pc ↔ touches (items v) n pc ∨ ∃ r, r ∈ l ∧ r.1 + b ≤ pc ≤ r.2 + b) ∧
  (∀ m pc, m ≠ n → covers l' m pc ↔ covers (items v) m pc).
Proof.
  induction l as [|r l IH]; intros v Hl Hv; cbn [foldl].
  - split; [done|]. split; [intros pc [?|(? & ?%elem_of_nil & _)]; done|]. split; [|done].
    intros pc. split; [by left|]. intros [?|(? & ?%elem_of_nil & _)]; done.
  - apply Forall_cons in Hl as [[Hr1 Hr2] Hl]. unfold add_loaded at 2 4 6 8. rewrite !u64_small by lia.
    destruct (push_addrs_cover pagesize n (r.1 + b) (r.2 + b) v) as (Hok & Hc & Ht & Ho); [lia..|done|].
    destruct (IH (push_addrs pagesize n (r.1 + b) (r.2 + b) v) Hl Hok) as (Hok' & Hc' & Ht' & Ho'). cbv zeta in *.
    split; [done|]. split; [|split].
    + intros pc [Hpc|(r' & [->|Hr']%elem_of_cons & Hpc)]; apply Hc'; [left; apply Hc; tauto..|]. right. eauto.
    + intros pc. rewrite Ht', Ht. split.
      * intros [[?|?]|(r' & ? & ?)]; [tauto|right; exists r; set_solver|right; exists r'; set_solver].
      * intros [?|(r' & [->|Hr']%elem_of_cons & ?)]; [tauto..|]. right. eauto.
    + intros m pc Hm. rewrite Ho', Ho by done. done.
Qed.

(** C17. The ranges of an entry of the debug information, given by a low and a
    high address, a list of .debug_ranges or a list of .debug_rnglists (directly
    or by index, with all the kinds of entries, addresses also by index), are
    added to the unit's ranges: every byte of them is covered, no byte is
    covered that is not inside or right behind a range, and other units keep
    theirs. *)
Theorem unit_ranges_covered d b e u addr p base l pagesize n v s :
  sections_ok d → size_ok (addrsize u) → Forall (in_width (8 * addrsize u)) addr →
  (∃ pre post, d DEBUG_ADDR = pre ++ concat (enc_addr e (addrsize u) <$> addr) ++ post ∧
     addr_base u = Z.of_nat (length pre)) →
  entry_ranges d e u addr p base l → Forall (range_ok b) l → Forall addrs_ok (items v) → allocs s = [] →
  ∃ v', add_ranges d b e u (add_unit_addr pagesize n) base p v s = Ok ((true, v'), s) ∧
    (∀ pc, covers (items v) n pc ∨ (∃ r, r ∈ l ∧ r.1 + b ≤ pc < r.2 + b) → covers (items v') n pc) ∧
    (∀ pc, covers (items v') n pc → touches (items v) n pc ∨ ∃ r, r ∈ l ∧ r.1 + b ≤ pc ≤ r.2 + b) ∧
    (∀ m pc, m ≠ n → covers (items v') m pc ↔ covers (items v) m pc).
Proof.
  intros Hd Hsz Hw Ht He Hl Hv Ha.
  destruct (push_ranges_cover pagesize n b l v Hl Hv) as (_ & Hc & Hto & Ho).
  exists (foldl (add_loaded b (push_addrs pagesize n)) v l).
  split; [apply (add_ranges_run d b e u addr); try done; intros; by apply add_addrs_run|].
  split; [done|]. split; [|done]. intros pc (a & ? & ? & ?). apply Hto. exists a. split; [done|]. split; [done|]. lia.
Qed.

(** A unit with the addresses 256 and 512, and a list with a base, an offset
    pair and a start with a length. *)
Definition witness_rles : list rle := [R_base_addressx 1; R_offset_pair 4 8; R_startx_length 0 16].
Definition witness_unit : dwarf_unit :=
  mk_unit 0 0 0 0 0 5 false 8 0 0 0 0 None None None [].
Definition witness_sections : dwarf_sections := λ sec,
  match sec with
  | DEBUG_ADDR => concat (enc_addr false 8 <$> [256; 512])
  | DEBUG_RNGLISTS => enc_rles false witness_unit witness_rles
  | _ => []
  end.
Definition witness_pcrange : pcrange := (pcrange0 <| ranges := 0 |>) <| have_ranges := true |>.

Lemma witness_sections_ok : sections_ok witness_sections.
Proof. intros []; (split; [|done]); apply (bool_decide_unpack _); vm_compute; exact I. Qed.

Lemma unit_ranges_covered_witness :
  ∃ v', add_ranges witness_sections 0x1000 false witness_unit (add_unit_addr 4096 0) 0 witness_pcrange vec_empty
          (witness_state []) = Ok ((true, v'), witness_state []) ∧ covers (items v') 0 (0x1000 + 518).
Proof.
  destruct (unit_ranges_covered witness_sections 0x1000 false witness_unit [256; 512] witness_pcrange 0
    (rle_ranges [256; 512] 0 witness_rles) 4096 0 vec_empty (witness_state [])) as (v' & E & H & _).
  - exact witness_sections_ok.
  - do 3 right. reflexivity.
  - apply (bool_decide_unpack _). vm_compute. exact I.
  - exists [], []. split; [vm_compute; reflexivity|reflexivity].
  - apply (ER_list _ _ _ _ _ _ witness_rles 0 []); try reflexivity; try done.
    repeat constructor; discriminate.
  - apply (bool_decide_unpack _). vm_compute. exact I.
  - constructor.
  - reflexivity.
  - exists v'. split; [exact E|]. apply H. right. exists (512 + 4, 512 + 8). split; [vm_compute; left|cbn; lia].
Defined.
