(* ===== verification/DwarfUnit.v ===== *)
(** * Compilation units (src/dwarf/dwarf.c)

    [build_address_map] reads the units of .debug_info: their headers, their
    abbreviations and, with [find_address_ranges], the attributes of the unit
    and the address ranges it covers; [build_dwarf_data] sorts the ranges.
    [find_unit] finds the unit at an offset of .debug_info.

    The tag that [find_address_ranges] stores through [unit_tag] is not used by
    its caller and not part of the result.  The memory that [goto fail] and
    [backtrace_vector_release] give back is not part of the state. *)

From S2P Require Import Prelude Util Bytes Sort Search BtMmap DwarfBuf DwarfAttr DwarfAbbrev DwarfLine DwarfRange.

(** ** Constants *)
Abbreviation DW_TAG_compile_unit := 0x11%Z (only parsing).
Abbreviation DW_TAG_subprogram := 0x2e%Z (only parsing).
Abbreviation DW_TAG_skeleton_unit := 0x4a%Z (only parsing).
Abbreviation DW_AT_name := 0x03%Z (only parsing).
Abbreviation DW_AT_stmt_list := 0x10%Z (only parsing).
Abbreviation DW_AT_comp_dir := 0x1b%Z (only parsing).
Abbreviation DW_AT_str_offsets_base := 0x72%Z (only parsing).
Abbreviation DW_AT_addr_base := 0x73%Z (only parsing).
Abbreviation DW_AT_rnglists_base := 0x74%Z (only parsing).
Abbreviation DW_UT_type := 0x02%Z (only parsing).
Abbreviation DW_UT_skeleton := 0x04%Z (only parsing).
Abbreviation DW_UT_split_compile := 0x05%Z (only parsing).
Abbreviation DW_UT_split_type := 0x06%Z (only parsing).
Definition sizeof_unit_ptr : Z := 8.

(** What the attributes of an entry have set. *)
Record unit_attrs := mk_unit_attrs {
  ua_unit : dwarf_unit;
  ua_pcrange : pcrange;
  ua_name : option attr_val;
  ua_comp_dir : option attr_val;
}.
#[export] Instance unit_attrs_eta : Settable unit_attrs := λ a,
  mk_unit_attrs (ua_unit a) (ua_pcrange a) (ua_name a) (ua_comp_dir a).

(** The last entry of [addrs]. *)
Definition trailing_addrs : addrs := mk_addrs (u64 (0 - 1)) (u64 (0 - 1)) None.

Section units.
Variable dwarf_sections : dwarf_sections.
Variable altlink : option DwarfBuf.dwarf_sections.
Variable base_address : Z.
Variable is_bigendian : bool.
Variable pagesize : Z.

(** [for (i = 0; i < abbrev->num_attrs; ++i)], with [read_attribute] and a
    [switch] on the name; [inl] is an early return, with the value [bad] when an
    attribute cannot be read. *)
Fixpoint for_attrs {A B} (u : dwarf_unit) (bad : B) (step : attr → attr_val → A → D (B + A))
    (attrs : list attr) (st : A) : D (B + A) :=
  match attrs with
  | [] => mret (inr st)
  | a :: attrs =>
      '(ok, val) ← read_attribute dwarf_sections altlink (at_name a) (at_form a) (u64 (at_val a))
                     (is_dwarf64 u) (version u) (addrsize u);
      if negb ok then mret (inl bad)
      else
        st ← step a val st;
        match st with
        | inl b => mret (inl b)
        | inr st => for_attrs u bad step attrs st
        end
  end.

(** The tags of an entry that describes a unit. *)
Definition is_unit_tag (tag : Z) : bool := (tag =? DW_TAG_compile_unit) || (tag =? DW_TAG_skeleton_unit).

(** The [switch] of [find_address_ranges]. *)
Definition unit_attr (tag : Z) (a : attr) (val : attr_val) (st : unit_attrs) : unit_attrs :=
  let name := at_name a in
  let is_enc enc := bool_decide (encoding val = enc) in
  let set_unit f := st <| ua_unit := f (ua_unit st) |> in
  if (name =? DW_AT_low_pc) || (name =? DW_AT_high_pc) || (name =? DW_AT_ranges) then
    st <| ua_pcrange := update_pcrange name val (ua_pcrange st) |>
  else if name =? DW_AT_stmt_list then
    if is_unit_tag tag && (is_enc ATTR_VAL_UINT || is_enc ATTR_VAL_REF_SECTION) then
      set_unit (λ u, u <| lineoff := s64 (u_uint val) |>)
    else st
  else if name =? DW_AT_name then
    if is_unit_tag tag then st <| ua_name := Some val |> else st
  else if name =? DW_AT_comp_dir then
    if is_unit_tag tag then st <| ua_comp_dir := Some val |> else st
  else if name =? DW_AT_str_offsets_base then
    if is_unit_tag tag && is_enc ATTR_VAL_REF_SECTION then
      set_unit (λ u, u <| str_offsets_base := u_uint val |>)
    else st
  else if name =? DW_AT_addr_base then
    if is_unit_tag tag && is_enc ATTR_VAL_REF_SECTION then
      set_unit (λ u, u <| addr_base := u_uint val |>)
    else st
  else if name =? DW_AT_rnglists_base then
    if is_unit_tag tag && is_enc ATTR_VAL_REF_SECTION then
      set_unit (λ u, u <| rnglists_base := u_uint val |>)
    else st
  else st.

(** [if (have_val && !resolve_string (..., &string)) return 0]. *)
Definition resolve_unit_string (u : dwarf_unit) (val : option attr_val) (string : option cptr)
    : D (bool * option cptr) :=
  match val with
  | None => mret (true, string)
  | Some val =>
      resolve_string dwarf_sections (is_dwarf64 u) is_bigendian (str_offsets_base u) val string
  end.

(** What an entry ends in: failure, the end of the search, or its children. *)
Inductive entry_end := Entry_fails | Entry_returns | Entry_goes_on.

(** One entry after its abbreviation is found, up to its children: [n] is the
    number of the unit [u]. *)
Definition unit_entry (n : nat) (abbrev : abbrev) (u : dwarf_unit) (vec : vector addrs)
    : D (entry_end * dwarf_unit * vector addrs) :=
  r ← for_attrs u tt (λ a val st, mret (inr (unit_attr (ab_tag abbrev) a val st))) (ab_attrs abbrev)
        (mk_unit_attrs u pcrange0 None None);
  match r with
  | inl _ => mret (Entry_fails, u, vec)
  | inr st =>
      let u := ua_unit st in
      let p := ua_pcrange st in
      '(ok, f) ← resolve_unit_string u (ua_name st) (unit_filename u);
      if negb ok then mret (Entry_fails, u, vec)
      else
        let u := u <| unit_filename := f |> in
        '(ok, c) ← resolve_unit_string u (ua_comp_dir st) (comp_dir u);
        if negb ok then mret (Entry_fails, u, vec)
        else
          let u := u <| comp_dir := c |> in
          let tag := ab_tag abbrev in
          if is_unit_tag tag || (tag =? DW_TAG_subprogram) then
            '(ok, vec) ← add_ranges dwarf_sections base_address is_bigendian u (add_unit_addr pagesize n)
                           (lowpc p) p vec;
            if negb ok then mret (Entry_fails, u, vec)
            else if is_unit_tag tag && (have_ranges p || (have_lowpc p && have_highpc p)) then
              mret (Entry_returns, u, vec)
            else mret (Entry_goes_on, u, vec)
          else mret (Entry_goes_on, u, vec)
  end.

(** 1 or 0, the unit and its ranges.  Every entry read, here or in the calls for
    the children, starts with a code other than 0. *)
Fixpoint find_address_ranges (fuel : nat) (n : nat) (u : dwarf_unit) (vec : vector addrs)
    : D (bool * dwarf_unit * vector addrs) :=
  b ← gets db;
  if negb (0 <? db_left b) then mret (true, u, vec)
  else
    code ← read_uleb128;
    if code =? 0 then mret (true, u, vec)
    else
      abbrev ← lookup_abbrev (abbrevs u) code;
      match abbrev, fuel with
      | None, _ => mret (false, u, vec)
      | Some _, O => fail OutOfFuel
      | Some abbrev, S fuel =>
          '(e, u, vec) ← unit_entry n abbrev u vec;
          match e with
          | Entry_fails => mret (false, u, vec)
          | Entry_returns => mret (true, u, vec)
          | Entry_goes_on =>
              '(ok, u, vec) ←
                (if negb (ab_has_children abbrev =? 0) then find_address_ranges fuel n u vec
                 else mret (true, u, vec));
              if negb ok then mret (false, u, vec) else find_address_ranges fuel n u vec
          end
      end.

(** What the data of a unit ends in: [goto fail], [continue] for a unit that is
    not needed, or the vectors with the unit. *)
Inductive unit_end :=
  | Unit_fails
  | Unit_skipped
  | Unit_read (units : vector dwarf_unit) (vec : vector addrs).

(** A round of [build_address_map] on [unit_buf], for a unit that starts at
    [unit_data_start] and is [len] bytes long after its length. *)
Definition read_unit (unit_data_start len unit_offset : Z) (d64 : bool) (units : vector dwarf_unit)
    (vec : vector addrs) : D unit_end :=
  version ← read_uint16;
  if (version <? 2) || (5 <? version) then
    dwarf_buf_error "unrecognized DWARF version" (-1);; mret Unit_fails
  else
    unit_type ← (if version <? 5 then mret 0 else read_byte);
    if (unit_type =? DW_UT_type) || (unit_type =? DW_UT_split_type) then mret Unit_skipped
    else
      pu ← vec_grow pagesize sizeof_unit_ptr (vbytes units) (vfree units);
      match pu with
      | None => mret Unit_fails
      | Some (bytes, free) =>
          ok ← alloc_answer;
          if negb ok then mret Unit_fails
          else
            addrsize ← (if version <? 5 then mret 0 else read_byte);
            abbrev_offset ← read_offset d64;
            '(ok, ab) ← read_abbrevs abbrev_offset (dwarf_sections DEBUG_ABBREV) is_bigendian;
            if negb ok then mret Unit_fails
            else
              addrsize ← (if version <? 5 then read_byte else mret addrsize);
              (if (unit_type =? DW_UT_skeleton) || (unit_type =? DW_UT_split_compile) then read_uint64
               else mret 0);;
              b ← gets db;
              let high_offset := u64 (unit_offset + len + (if d64 then 12 else 4)) in
              let u := mk_unit (db_buf b) (db_left b) (db_buf b - unit_data_start) unit_offset high_offset
                         version d64 addrsize 0 0 0 0 None None None ab in
              '(ok, u, vec) ← find_address_ranges (length (dwarf_sections DEBUG_INFO))
                                (length (items units)) u vec;
              b ← gets db;
              if negb ok || db_reported_underflow b then mret Unit_fails
              else mret (Unit_read (mk_vec (items units ++ [u]) bytes free) vec)
      end.

(** [while (info.left > 4)], with the test of the underflow after it; [None] is
    [goto fail].  Every round reads at least four bytes. *)
Fixpoint units_loop (fuel : nat) (unit_offset : Z) (units : vector dwarf_unit) (vec : vector addrs)
    : D (option (vector dwarf_unit * vector addrs)) :=
  info ← gets db;
  let end_ :=
    info ← gets db;
    mret (if db_reported_underflow info then None else Some (units, vec)) in
  if negb (4 <? db_left info) then end_
  else if db_reported_underflow info then mret None
  else
    '(len, d64) ← read_initial_length;
    unit_buf ← gets (λ s, (db s) <| db_left := len |>);
    ok ← advance len;
    if negb ok then end_
    else if len =? 0 then end_
    else
      '(r, _) ← on_buf unit_buf (read_unit (db_buf info) len unit_offset d64 units vec);
      match r, fuel with
      | Unit_fails, _ => mret None
      | _, O => fail OutOfFuel
      | Unit_skipped, S fuel => units_loop fuel unit_offset units vec
      | Unit_read units vec, S fuel =>
          units_loop fuel (u64 (unit_offset + len + (if (d64 : bool) then 12 else 4))) units vec
      end.

(** The units and the ranges; [None] is the result 0. *)
Definition build_address_map : D (option (vector dwarf_unit * vector addrs)) :=
  '(r, _) ← on_buf (section_buf dwarf_sections DEBUG_INFO 0 is_bigendian)
    (units_loop (length (dwarf_sections DEBUG_INFO)) 0 vec_empty vec_empty);
  match r with
  | None => mret None
  | Some (units, vec) =>
      v ← vec_push pagesize sizeof_addrs vec trailing_addrs;
      match v with
      | None => mret None
      | Some vec => mret (Some (units, vec))
      end
  end.

(** ** Sorting the ranges *)
Definition unit_lineoff (units : list dwarf_unit) (a : addrs) : Z :=
  match owner a with
  | Some n => from_option lineoff 0 (units !! n)
  | None => 0
  end.

(** Every range that is compared belongs to a unit. *)
Definition unit_addrs_compare (units : list dwarf_unit) (a1 a2 : addrs) : Z :=
  if low a1 <? low a2 then -1
  else if low a2 <? low a1 then 1
  else if high a1 <? high a2 then 1
  else if high a2 <? high a1 then -1
  else if unit_lineoff units a1 <? unit_lineoff units a2 then -1
  else if unit_lineoff units a2 <? unit_lineoff units a1 then 1
  else 0.

(** [struct dwarf_data], as far as it is set here: the ranges end with the
    trailing entry. *)
Record dwarf_data := mk_dwarf_data {
  dd_base_address : Z;
  dd_addrs : list addrs;
  dd_units : list dwarf_unit;
}.

(** [None] is NULL. *)
Definition build_dwarf_data : D (option dwarf_data) :=
  m ← build_address_map;
  match m with
  | None => mret None
  | Some (units, vec) =>
      sorted ← lift_res (qsort_structs (unit_addrs_compare (items units)) (removelast (items vec)));
      ok ← alloc_answer;
      if negb ok then mret None
      else mret (Some (mk_dwarf_data base_address (sorted ++ [trailing_addrs]) (items units)))
  end.
End units.

(** ** The unit at an offset *)
Definition units_search (offset : Z) (entry : dwarf_unit) : Z :=
  if offset <? low_offset entry then -1
  else if high_offset entry <=? offset then 1
  else 0.

Definition find_unit (pu : list dwarf_unit) (offset : Z) : res (option nat) :=
  bsearch (λ i, match pu !! i with
                | Some u => Ok (units_search offset u)
                | None => Err OutOfBounds
                end) (length pu).

(** ** Tables that are sorted

    By the low address, and the smaller of two ranges that start at the same
    address last. *)
Definition nested_order (a b : addrs) : Prop := low a < low b ∨ low a = low b ∧ high b ≤ high a.
Definition sorted_ranges (l : list addrs) : Prop :=
  ∀ i j a b, (i < j)%nat → l !! i = Some a → l !! j = Some b → nested_order a b.

Lemma sorted_ranges_of (cmp : addrs → addrs → Z) l :
  (∀ a b, cmp a b ≤ 0 → nested_order a b) → StronglySorted (λ a b, cmp a b ≤ 0) l → sorted_ranges l.
Proof.
  intros Hc. induction 1 as [|x l Hl IH Hx]; intros i j a b Hij Ha Hb; [by rewrite lookup_nil in Ha|].
  destruct j as [|j]; [lia|]. cbn in Hb. destruct i as [|i]; cbn in Ha.
  - simplify_eq. rewrite Forall_forall in Hx. eapply Hc, Hx. by eapply list_elem_of_lookup_2.
  - apply (IH i j); [lia|done|done].
Qed.

Lemma unit_addrs_compare_orders units : orders (unit_addrs_compare units).
Proof. unfold unit_addrs_compare. split; intros *; repeat case_match; lia. Qed.

Lemma unit_addrs_nested units a b : unit_addrs_compare units a b ≤ 0 → nested_order a b.
Proof. unfold unit_addrs_compare, nested_order. repeat case_match; lia. Qed.

(** ** Reading an entry

    [runs_in d R m]: over a section of [d], [m] does not run out of fuel, and if
    it returns, its result is in [R] and it only read. *)
Definition run_at {A} (s : dstate) (R : A → Prop) (m : D A) : Prop :=
  m s ≠ Err OutOfFuel ∧ ∀ a s', m s = Ok (a, s') → R a ∧ dstep s s'.

Definition runs_in {A} (d : dwarf_sections) (R : A → Prop) (m : D A) : Prop :=
  ∀ s, wf_buf (db s) → of_section d (db s) → run_at s R m.

Lemma run_at_ends {A} s (m : D A) : ends m → wf_buf (db s) → run_at s (λ _, True) m.
Proof. intros H Hs. destruct (H s Hs) as [Hf Hok]. split; [done|]. eauto. Qed.

Lemma run_at_reads {A} s (R : A → Prop) m : reads R m → wf_buf (db s) → run_at s R m.
Proof.
  intros H Hs. destruct (H s Hs) as (a & s' & E & HR & S). unfold run_at. rewrite E. split; [done|]. by intros ? ? [= <- <-].
Qed.

Section runs_in_lemmas.
Context (d : dwarf_sections) {A B : Type}.

Lemma runs_in_reads (R : A → Prop) m : reads_in d R m → runs_in d R m.
Proof.
  intros H s Hs Hd. destruct (H s Hs Hd) as (a & s' & E & HR & S). unfold run_at. rewrite E. split; [done|].
  by intros ? ? [= <- <-].
Qed.

Lemma runs_in_ends (m : D A) : ends m → runs_in d (λ _, True) m.
Proof. intros H s Hs _. destruct (H s Hs) as [Hf Hok]. split; [done|]. eauto. Qed.

Lemma runs_in_ret (R : A → Prop) a : R a → runs_in d R (mret a).
Proof. intros. by apply runs_in_reads, reads_in_ret. Qed.

Lemma runs_in_weaken (R R' : A → Prop) m : (∀ a, R a → R' a) → runs_in d R m → runs_in d R' m.
Proof. intros HR Hm s Hs Hd. destruct (Hm s Hs Hd) as [Hf Hok]. split; [done|]. intros a s' E. destruct (Hok a s' E). eauto. Qed.

Lemma run_at_weaken (R R' : A → Prop) s m : (∀ a, R a → R' a) → run_at s R m → run_at s R' m.
Proof. intros HR [Hf Hok]. split; [done|]. intros a s' E. destruct (Hok a s' E). eauto. Qed.

Lemma run_at_bind (R : A → Prop) (R' : B → Prop) s m k :
  wf_buf (db s) → of_section d (db s) → run_at s R m →
  (∀ a s', m s = Ok (a, s') → R a → dstep s s' → wf_buf (db s') → of_section d (db s') → run_at s' R' (k a)) →
  run_at s R' (m ≫= k).
Proof.
  intros Hs Hd [Hf Hok] Hk. unfold run_at, mbind, M_bind. destruct (m s) as [[a s1]|f]; [|split; [congruence|done]].
  destruct (Hok a s1 eq_refl) as [Ha S1].
  destruct (Hk a s1 eq_refl Ha S1 (dstep_wf _ _ Hs S1) (dstep_section _ _ _ Hd S1)) as [Hf2 Hok2].
  split; [done|]. intros b s' E. destruct (Hok2 b s' E). eauto using dstep_trans.
Qed.

Lemma runs_in_bind (R : A → Prop) (R' : B → Prop) m k :
  runs_in d R m → (∀ a, R a → runs_in d R' (k a)) → runs_in d R' (m ≫= k).
Proof. intros Hm Hk s Hs Hd. eapply run_at_bind; eauto. intros a s' _ Ha _ Hs' Hd'. by apply Hk. Qed.

Lemma runs_in_if (c : bool) (R : A → Prop) m1 m2 : runs_in d R m1 → runs_in d R m2 → runs_in d R (if c then m1 else m2).
Proof. by destruct c. Qed.
End runs_in_lemmas.

(** [bsearch] ends whatever the array. *)
Lemma bsearch_loop_fuel compar : (∀ i, compar i ≠ Err OutOfFuel) → ∀ fuel l h, (h - l ≤ fuel)%nat →
  bsearch_loop fuel compar l h ≠ Err OutOfFuel.
Proof.
  intros Hc. induction fuel as [|fuel IH]; intros l h Hf; cbn [bsearch_loop].
  - by replace (l <? h)%nat with false by lia.
  - destruct (Nat.ltb_spec l h); [|done]. cbv zeta. set (i := ((l + h) / 2)%nat).
    assert (l ≤ i < h)%nat by (subst i; lia). pose proof (Hc i). destruct (compar i); [|congruence].
    destruct (_ <? 0); [apply IH; lia|]. destruct (0 <? _); [apply IH; lia|done].
Qed.

Lemma bsearch_fuel compar n : (∀ i, compar i ≠ Err OutOfFuel) → bsearch compar n ≠ Err OutOfFuel.
Proof. intros Hc. apply bsearch_loop_fuel; [done|lia]. Qed.

Lemma ends_lift_res {A} (r : res A) : r ≠ Err OutOfFuel → ends (lift_res r).
Proof.
  intros Hr s Hs. unfold lift_res. destruct r; [|split; [congruence|done]]. split; [done|].
  intros ? ? [= <- <-]. apply dstep_refl, Hs.
Qed.

Lemma ends_lookup_abbrev l code : ends (lookup_abbrev l code).
Proof.
  unfold lookup_abbrev. set (search := p ← lift_res _; _ : D (option abbrev)).
  assert (ends search) as Hs.
  { apply ends_bind; [apply ends_lift_res, bsearch_fuel; intros i; by case_match|].
    intros [i|]; [apply ends_ret|]. eauto with dwarf_ends. }
  apply ends_if; [|done]. apply ends_bind; [apply ends_array_get|]. intros a. by apply ends_if; [apply ends_ret|].
Qed.

Section attrs.
Variables (d : dwarf_sections) (altlink : option dwarf_sections).

Lemma u_uint_ok val : val_ok d altlink (true, val) → in_width 64 (u_uint val).
Proof.
  unfold val_ok, u_uint. cbn. destruct (DwarfAttr.u val); intros H; [done|apply u64_range|]. split; done.
Qed.

(** A loop over the attributes keeps what every round keeps. *)
Lemma for_attrs_keeps {A B} u (bad : B) (f : attr → attr_val → A → D (B + A)) (P : A → Prop) attrs : ∀ st,
  (∀ a val st, val_ok d altlink (true, val) → P st → runs_in d (λ r, ∀ st', r = inr st' → P st') (f a val st)) → P st →
  runs_in d (λ r, ∀ st', r = inr st' → P st') (for_attrs d altlink u bad f attrs st).
Proof.
  induction attrs as [|a attrs IH]; intros st Hf Hst; cbn [for_attrs]; [apply runs_in_ret; by intros ? [= <-]|].
  eapply runs_in_bind; [apply runs_in_reads, reads_attribute, u64_range|]. intros [[] val] Hv; [|by apply runs_in_ret].
  cbn [negb]. eapply runs_in_bind; [by apply Hf|]. intros [b|st'] Hr; [by apply runs_in_ret|]. apply IH; [done|].
  by apply Hr.
Qed.

Lemma update_pcrange_ok name val p : val_ok d altlink (true, val) → pcrange_ok p → pcrange_ok (update_pcrange name val p).
Proof.
  intros Hv%u_uint_ok (H1 & H2 & H3). unfold update_pcrange, pcrange_ok, set_field.
  destruct (name =? 17); [destruct (encoding val); cbn; tauto|].
  destruct (name =? 18); [destruct (encoding val); cbn; tauto|].
  destruct (name =? 85); [destruct (encoding val); cbn; tauto|tauto].
Qed.
End attrs.

Lemma ends_vec_push {A} pagesize sz (v : vector A) x : ends (vec_push pagesize sz v x).
Proof. apply ends_bind; [apply ends_vec_grow|]. intros [[? ?]|]; apply ends_ret. Qed.

Lemma ends_add_addrs pagesize n lo hi v : ends (add_addrs pagesize n lo hi v).
Proof.
  unfold add_addrs. set (grow := v' ← vec_push _ _ _ _; _ : D (bool * vector addrs)).
  assert (ends grow) as Hg by (apply ends_bind; [apply ends_vec_push|intros []; apply ends_ret]).
  destruct (last (items v)); [|done]. apply ends_if; [|done]. apply ends_if; apply ends_ret.
Qed.

Lemma ends_resolve_string d d64 e base val string : ends (resolve_string d d64 e base val string).
Proof.
  unfold resolve_string. destruct (encoding val), (DwarfAttr.u val); try apply ends_ret.
  cbv zeta. apply ends_if; [eauto with dwarf_ends|]. apply ends_bind; [|intros []; apply ends_ret].
  apply ends_on_any_buf, logs_bind; [apply logs_offset|]. intros o. logs_steps.
Qed.

(** ** What a reader gives

    [gives R m]: where [m] returns, its result is in [R]. *)
Definition gives {A} (R : A → Prop) (m : D A) : Prop := ∀ s a s', m s = Ok (a, s') → R a.

Section gives_lemmas.
Context {A B : Type}.

Lemma gives_ret (R : A → Prop) a : R a → gives R (mret a).
Proof. by intros Ha s ? ? [= <- <-]. Qed.

Lemma gives_fail (R : A → Prop) f : gives R (fail f).
Proof. done. Qed.

Lemma gives_any (m : D A) : gives (λ _, True) m.
Proof. done. Qed.

Lemma gives_bind (R : A → Prop) (R' : B → Prop) m k : gives R m → (∀ a, R a → gives R' (k a)) → gives R' (m ≫= k).
Proof. intros Hm Hk s b s' (a & s1 & E1 & E2)%bind_inv. by eapply Hk; [eapply Hm|]. Qed.

Lemma gives_then (R' : B → Prop) (m : D A) k : (∀ a, gives R' (k a)) → gives R' (m ≫= k).
Proof. intros Hk. apply (gives_bind (λ _, True)); [done|]. intros a _. apply Hk. Qed.

Lemma gives_if (c : bool) (R : A → Prop) m1 m2 : gives R m1 → gives R m2 → gives R (if c then m1 else m2).
Proof. by destruct c. Qed.

Lemma gives_weaken (R R' : A → Prop) m : (∀ a, R a → R' a) → gives R m → gives R' m.
Proof. intros HR Hm s a s' E. eapply HR, Hm, E. Qed.

Lemma gives_on_buf (R : A → Prop) b m : gives R m → gives (λ r, R r.1) (on_buf b m).
Proof. intros Hm s [a b'] s' E. unfold on_buf in E. destruct (m _) as [[a1 s1]|] eqn:E1; [|done]. simplify_eq. by eapply Hm. Qed.

Lemma gives_lift_res (R : A → Prop) r : (∀ a, r = Ok a → R a) → gives R (lift_res r).
Proof. intros HR s a s'. unfold lift_res. destruct r; [|done]. intros [= <- <-]. by apply HR. Qed.

Lemma gives_deref (o : option A) : gives (λ a, o = Some a) (deref o).
Proof. intros s a s'. destruct o; [|done]. by intros [= <- <-]. Qed.
End gives_lemmas.

(** A loop over the attributes keeps what every round keeps. *)
Lemma gives_for_attrs {A B} d altlink u (bad : B) (f : attr → attr_val → A → D (B + A)) (P : A → Prop) attrs : ∀ st,
  (∀ a val st, P st → gives (λ r, ∀ st', r = inr st' → P st') (f a val st)) → P st →
  gives (λ r, ∀ st', r = inr st' → P st') (for_attrs d altlink u bad f attrs st).
Proof.
  induction attrs as [|a attrs IH]; intros st Hf Hst; cbn [for_attrs]; [apply gives_ret; by intros ? [= <-]|].
  apply gives_then. intros [ok val]. apply gives_if; [by apply gives_ret|].
  eapply gives_bind; [by apply Hf|]. intros [b|st'] Hr; [by apply gives_ret|]. apply IH; [done|]. by apply Hr.
Qed.

(** Adding ranges keeps what adding one keeps. *)
Section ranges_give.
Context {V : Type} (P : V → Prop) (add_range : Z → Z → V → D (bool * V)).
Hypothesis Hadd : ∀ lo hi v, P v → gives (λ r : bool * V, P r.2) (add_range lo hi v).
Variables (d : dwarf_sections) (base_address : Z) (e : bool) (u : dwarf_unit).

Lemma gives_add_low_high p v : P v → gives (λ r : bool * V, P r.2) (add_low_high_range d base_address e u add_range p v).
Proof.
  intros Hv. apply gives_then. intros [lo|]; [|by apply gives_ret]. apply gives_then. intros [hi|]; [|by apply gives_ret].
  by apply Hadd.
Qed.

Lemma gives_ranges_loop fuel : ∀ base v, P v → gives (λ r : bool * V, P r.2) (ranges_loop base_address u add_range fuel base v).
Proof.
  induction fuel as [|fuel IH]; intros base v Hv; cbn [ranges_loop]; apply gives_then; intros b;
    (apply gives_if; [by apply gives_ret|]); apply gives_then; intros lo; apply gives_then; intros hi;
    (apply gives_if; [apply gives_then; intros b'; by apply gives_ret|]); [apply gives_fail|].
  apply gives_if; [by apply IH|]. eapply gives_bind; [by apply Hadd|]. intros [ok v'] Hv'. apply gives_if; [by apply gives_ret|].
  by apply IH.
Qed.

Lemma gives_rle_entry rle base v : P v → gives (λ r : bool * Z * V, P r.2) (rle_entry d base_address e u add_range rle base v).
Proof.
  intros Hv. unfold rle_entry. cbv zeta.
  assert (∀ lo hi, gives (λ r : bool * Z * V, P r.2) ('(ok, v) ← add_range lo hi v; mret (ok, base, v))) as Ha.
  { intros lo hi. eapply gives_bind; [by apply Hadd|]. intros [ok v'] Hv'. by apply gives_ret. }
  repeat first [ apply gives_if | apply Ha | apply gives_ret; exact Hv | apply gives_then; intros [?|] | apply gives_then; intros ? ].
Qed.

Lemma gives_rnglists_loop fuel : ∀ base v, P v →
  gives (λ r : bool * V, P r.2) (rnglists_loop d base_address e u add_range fuel base v).
Proof.
  induction fuel as [|fuel IH]; intros base v Hv; cbn [rnglists_loop]; apply gives_then; intros rle;
    (apply gives_if; [apply gives_then; intros b'; by apply gives_ret|]); [apply gives_fail|].
  eapply gives_bind; [by apply gives_rle_entry|]. intros [[ok b] v'] Hv'. apply gives_if; [by apply gives_ret|]. by apply IH.
Qed.

Lemma gives_add_ranges base p v : P v → gives (λ r : bool * V, P r.2) (add_ranges d base_address e u add_range base p v).
Proof.
  intros Hv. unfold add_ranges. apply gives_if; [by apply gives_add_low_high|]. apply gives_if; [by apply gives_ret|].
  apply gives_if.
  - unfold add_ranges_from_ranges. apply gives_if; [apply gives_then; intros _; by apply gives_ret|].
    eapply gives_bind; [by apply gives_on_buf, gives_ranges_loop|]. intros [r b] Hr. by apply gives_ret.
  - unfold add_ranges_from_rnglists. cbv zeta. apply gives_if; [apply gives_then; intros _; by apply gives_ret|].
    apply (gives_bind (λ r : (bool * V) * dwarf_buf, P r.1.2)); [apply (gives_on_buf (λ r : bool * V, P r.2))|intros [r b] Hr; by apply gives_ret].
    apply gives_if; [by apply gives_rnglists_loop|]. apply gives_then. intros o.
    apply gives_if; [apply gives_then; intros _; by apply gives_ret|]. apply gives_then. intros _. by apply gives_rnglists_loop.
Qed.
End ranges_give.

Lemma gives_vec_push {A} pagesize sz (v : vector A) x :
  gives (λ r, ∀ v', r = Some v' → items v' = items v ++ [x]) (vec_push pagesize sz v x).
Proof. apply gives_then. intros [[b f]|]; apply gives_ret; by intros ? [= <-]. Qed.

(** The ranges belong to units or functions in [Q]. *)
Definition owners (Q : nat → Prop) (l : list addrs) : Prop := Forall (λ e, ∃ j, owner e = Some j ∧ Q j) l.

#[export] Instance owners_proper Q : Proper (Permutation ==> iff) (owners Q).
Proof. intros l l' HP. unfold owners. by rewrite HP. Qed.

Lemma owners_impl (Q Q' : nat → Prop) l : (∀ j, Q j → Q' j) → owners Q l → owners Q' l.
Proof. intros HQ H. eapply Forall_impl; [exact H|]. intros e (j & Ho & Hj). eauto. Qed.

Lemma gives_add_addrs (Q : nat → Prop) pagesize i lowpc highpc v : Q i → owners Q (items v) →
  gives (λ r : bool * vector addrs, owners Q (items r.2)) (add_addrs pagesize i lowpc highpc v).
Proof.
  intros Hi Hv. unfold add_addrs. cbv zeta. set (grow := v' ← vec_push _ _ _ _; _ : D (bool * vector addrs)).
  assert (gives (λ r : bool * vector addrs, owners Q (items r.2)) grow) as Hg.
  { eapply gives_bind; [apply gives_vec_push|]. intros [v'|] Hv'; [|by apply gives_ret]. apply gives_ret. cbn.
    rewrite (Hv' v' eq_refl). apply Forall_app. split; [done|]. apply Forall_singleton. eauto. }
  destruct (last (items v)) as [p|] eqn:El; [|exact Hg]. apply last_Some in El as [l El]. unfold owners in Hv.
  rewrite El in Hv. pose proof Hv as [Hl Hp]%Forall_app. apply gives_if; [|exact Hg]. apply gives_if; apply gives_ret.
  - cbn. rewrite El, removelast_last. apply Forall_app. split; [done|]. apply Forall_cons in Hp as [Hp _]. apply Forall_singleton. exact Hp.
  - cbn. unfold owners. by rewrite El.
Qed.

(** ** The ranges of the units that are read *)
Section units_give.
Variables (d : dwarf_sections) (altlink : option dwarf_sections) (base_address : Z) (e : bool) (pagesize : Z).

Lemma gives_unit_entry Q n abbrev u vec : Q n → owners Q (items vec) →
  gives (λ r : entry_end * dwarf_unit * vector addrs, owners Q (items r.2))
    (unit_entry d altlink base_address e pagesize n abbrev u vec).
Proof.
  intros Hn Hv. unfold unit_entry. apply gives_then. intros [|st]; [by apply gives_ret|]. cbv zeta.
  apply gives_then. intros [ok f]. apply gives_if; [by apply gives_ret|].
  apply gives_then. intros [ok' c]. apply gives_if; [by apply gives_ret|]. apply gives_if; [|by apply gives_ret].
  eapply gives_bind; [apply (gives_add_ranges (λ v, owners Q (items v))); [intros; by apply gives_add_addrs|done]|].
  intros [ok2 v] H. do 2 (apply gives_if; [by apply gives_ret|]). by apply gives_ret.
Qed.

Lemma gives_find_address_ranges Q n fuel : Q n → ∀ u vec, owners Q (items vec) →
  gives (λ r : bool * dwarf_unit * vector addrs, owners Q (items r.2))
    (find_address_ranges d altlink base_address e pagesize fuel n u vec).
Proof.
  intros Hn. induction fuel as [|fuel IH]; intros u vec Hv; cbn [find_address_ranges]; apply gives_then; intros b;
    (apply gives_if; [by apply gives_ret|]); apply gives_then; intros code; (apply gives_if; [by apply gives_ret|]);
    apply gives_then; intros [abbrev|]; try (by apply gives_ret); [apply gives_fail|].
  eapply gives_bind; [by apply gives_unit_entry|]. intros [[en u'] v'] Hv'. cbn in Hv'. destruct en; [by apply gives_ret..|].
  apply (gives_bind (λ r : bool * dwarf_unit * vector addrs, owners Q (items r.2))).
  { apply gives_if; [by apply IH|by apply gives_ret]. }
  intros [[ok u2] v2] H2. apply gives_if; [by apply gives_ret|by apply IH].
Qed.

(** The ranges belong to the units so far. *)
Definition of_units (units : list dwarf_unit) (l : list addrs) : Prop := owners (λ j, (j < length units)%nat) l.

Lemma gives_read_unit start len off d64 units vec : of_units (items units) (items vec) →
  gives (λ r, ∀ us v, r = Unit_read us v → of_units (items us) (items v))
    (read_unit d altlink base_address e pagesize start len off d64 units vec).
Proof.
  intros Hv. unfold read_unit. apply gives_then. intros ver. apply gives_if; [apply gives_then; intros _; by apply gives_ret|].
  apply gives_then. intros ty. apply gives_if; [by apply gives_ret|]. apply gives_then. intros [[bytes free]|]; [|by apply gives_ret].
  apply gives_then. intros ok. apply gives_if; [by apply gives_ret|]. do 2 (apply gives_then; intros ?).
  apply gives_then. intros [ok' ab]. apply gives_if; [by apply gives_ret|]. do 3 (apply gives_then; intros ?). cbv zeta.
  eapply gives_bind; [apply (gives_find_address_ranges (λ j, (j < S (length (items units)))%nat)); [lia|]|].
  { eapply owners_impl; [|exact Hv]. cbn. lia. }
  intros [[ok2 u2] v2] H2. cbn in H2. apply gives_then. intros b2. apply gives_if; [by apply gives_ret|].
  apply gives_ret. intros us v [= <- <-]. cbn. unfold of_units. by rewrite length_app, Nat.add_1_r.
Qed.

Lemma gives_units_loop fuel : ∀ off units vec, of_units (items units) (items vec) →
  gives (λ r, ∀ us v, r = Some (us, v) → of_units (items us) (items v))
    (units_loop d altlink base_address e pagesize fuel off units vec).
Proof.
  assert (∀ units vec, of_units (items units) (items vec) →
    gives (λ r, ∀ us v, r = Some (us, v) → of_units (items us) (items v))
      (info ← gets db; mret (if db_reported_underflow info then None else Some (units, vec)))) as Hend.
  { intros units vec Hv. apply gives_then. intros b. apply gives_ret. intros us v E. case_match; by simplify_eq. }
  induction fuel as [|fuel IH]; intros off units vec Hv; cbn [units_loop]; apply gives_then; intros b; cbv zeta;
    (apply gives_if; [by apply Hend|]); (apply gives_if; [by apply gives_ret|]); apply gives_then; intros [len d64];
    apply gives_then; intros ub; apply gives_then; intros ok; do 2 (apply gives_if; [by apply Hend|]);
    (eapply gives_bind; [by apply gives_on_buf, gives_read_unit|]); intros [r b'] Hr; cbn in Hr;
    destruct r as [| |us v]; try (by apply gives_ret); try apply gives_fail; apply IH; [done|by apply Hr].
Qed.

(** The ranges of the data that are built. *)
Lemma gives_build_dwarf_data :
  gives (λ r, ∀ dd, r = Some dd → ∃ l, dd_addrs dd = l ++ [trailing_addrs] ∧ sorted_ranges l ∧ of_units (dd_units dd) l)
    (build_dwarf_data d altlink base_address e pagesize).
Proof.
  unfold build_dwarf_data.
  apply (gives_bind (λ r, ∀ us v, r = Some (us, v) → of_units (items us) (removelast (items v)))).
  { unfold build_address_map. eapply gives_bind; [apply gives_on_buf, gives_units_loop; constructor|]. intros [r b] Hr. cbn in Hr.
    destruct r as [[us v]|]; [|by apply gives_ret]. eapply gives_bind; [apply gives_vec_push|].
    intros [v'|] Hv'; apply gives_ret; [|done]. intros ? ? [= <- <-]. rewrite (Hv' v' eq_refl), removelast_last. by apply Hr. }
  intros [[us v]|] Hv; [|by apply gives_ret].
  destruct (qsort_structs_sorts (unit_addrs_compare (items us)) (removelast (items v))) as (l & E & HP & HS).
  eapply gives_bind; [apply gives_lift_res; intros a Ea; exact Ea|]. intros l' El. rewrite E in El. simplify_eq.
  apply gives_then. intros ok. apply gives_if; [by apply gives_ret|]. apply gives_ret. intros dd [= <-]. exists l'.
  split; [done|]. split; [|unfold of_units; cbn; rewrite <-HP; by apply Hv].
  eapply sorted_ranges_of; [apply unit_addrs_nested|]. apply HS, unit_addrs_compare_orders.
Qed.
End units_give.

(** The fields of a unit that its entries do not change. *)
Definition same_unit (u u' : dwarf_unit) : Prop :=
  unit_data u' = unit_data u ∧ unit_data_len u' = unit_data_len u ∧ unit_data_offset u' = unit_data_offset u ∧
  low_offset u' = low_offset u ∧ high_offset u' = high_offset u ∧ version u' = version u ∧
  is_dwarf64 u' = is_dwarf64 u ∧ addrsize u' = addrsize u ∧ abbrevs u' = abbrevs u.

Lemma same_unit_trans u1 u2 u3 : same_unit u1 u2 → same_unit u2 u3 → same_unit u1 u3.
Proof. unfold same_unit. naive_solver congruence. Qed.

(** ** [read_abbrevs] keeps the buffer

    [outside m]: where [m] returns, the buffer is as before and errors are only
    added; [adds m]: errors are only added. *)
Definition adds {A} (m : D A) : Prop := ∀ s a s', m s = Ok (a, s') → errs s `prefix_of` errs s'.
Definition outside {A} (m : D A) : Prop :=
  ∀ s a s', m s = Ok (a, s') → db s' = db s ∧ errs s `prefix_of` errs s'.

Lemma adds_ret {A} (a : A) : adds (mret a).
Proof. by intros s ? ? [= <- <-]. Qed.
Lemma adds_bind {A B} (m : D A) (k : A → D B) : adds m → (∀ a, adds (k a)) → adds (m ≫= k).
Proof. intros Hm Hk s b s' (a & s1 & E1 & E2)%bind_inv. etrans; [by eapply Hm|by eapply Hk]. Qed.
Lemma adds_if {A} (c : bool) (m1 m2 : D A) : adds m1 → adds m2 → adds (if c then m1 else m2).
Proof. by destruct c. Qed.
Lemma adds_fail {A} f : adds (A := A) (fail f).
Proof. done. Qed.
Lemma adds_logs {A} (m : D A) : logs m → adds m.
Proof. intros H s a s' E. by apply (proj2 (H s) a). Qed.
Lemma adds_alloc : adds alloc_answer.
Proof.
  intros s a s'. unfold alloc_answer. destruct (allocs s) as [|[err|] r]; intros [= <- <-]; cbn; try done.
  by apply prefix_app_r.
Qed.
Lemma adds_on_buf {A} b (m : D A) : adds m → adds (on_buf b m).
Proof.
  intros H s a s' E. unfold on_buf in E. destruct (m _) as [[a1 s1]|] eqn:E1; [|done]. simplify_eq. by apply (H _ _ _ E1).
Qed.

Lemma adds_leb_loop fuel msg : ∀ ret shift ov, adds (leb128_loop fuel msg ret shift ov).
Proof.
  induction fuel as [|fuel IH]; intros ret shift ov; cbn [leb128_loop]; [apply adds_fail|].
  apply adds_bind; [apply adds_logs, logs_gets|]. intros bf. apply adds_bind; [apply adds_logs, logs_advance|]. intros ok.
  apply adds_if; [apply adds_ret|]. apply adds_bind; [apply adds_logs, logs_byte_at|]. intros b.
  apply adds_bind; [apply adds_if; [apply adds_ret|]; apply adds_if; [|apply adds_ret]; apply adds_logs; logs_steps|].
  intros [r o]. apply adds_if; [apply IH|apply adds_ret].
Qed.

Lemma adds_uleb128 : adds read_uleb128.
Proof.
  apply adds_bind; [apply adds_logs, logs_gets|]. intros bf. apply adds_bind; [apply adds_leb_loop|].
  intros [[[v sh] b]|]; apply adds_ret.
Qed.
Lemma adds_sleb128 : adds read_sleb128.
Proof.
  apply adds_bind; [apply adds_logs, logs_gets|]. intros bf. apply adds_bind; [apply adds_leb_loop|].
  intros [[[v sh] b]|]; apply adds_ret.
Qed.
Lemma adds_byte : adds read_byte.
Proof. apply adds_logs. unfold read_byte. logs_steps. Qed.

Ltac adds_steps :=
  repeat first
    [ apply adds_ret | apply adds_fail | apply adds_uleb128 | apply adds_sleb128 | apply adds_byte | apply adds_alloc
    | apply adds_logs, logs_gets | apply adds_logs, logs_callback | apply adds_on_buf | apply adds_if
    | apply adds_bind; [|intros ?] ].

Lemma adds_count_attrs fuel : adds (count_attrs fuel).
Proof. induction fuel; cbn [count_attrs]; adds_steps; done. Qed.
Lemma adds_count_abbrevs fuel : ∀ n, adds (count_abbrevs fuel n).
Proof. induction fuel; intros n; cbn [count_abbrevs]; adds_steps; try done. apply adds_count_attrs. Qed.
Lemma adds_read_attrs fuel cap : ∀ l, adds (read_attrs fuel cap l).
Proof. induction fuel; intros l; cbn [read_attrs]; adds_steps; done. Qed.
Lemma adds_read_abbrev code : adds (read_abbrev code).
Proof.
  unfold read_abbrev. adds_steps; [apply adds_count_attrs|]. destruct _ as [n b]. adds_steps. apply adds_read_attrs.
Qed.
Lemma adds_read_entries fuel cap : ∀ l, adds (read_entries fuel cap l).
Proof.
  induction fuel as [|fuel IH]; intros l; cbn [read_entries];
    (apply adds_bind; [apply adds_logs, logs_gets|]; intros b; apply adds_if; [apply adds_ret|];
     apply adds_bind; [apply adds_uleb128|]; intros code; apply adds_if; [apply adds_ret|]); [apply adds_fail|].
  apply adds_bind; [apply adds_read_abbrev|]. intros [a|]; [|apply adds_ret]. by apply adds_if; [apply adds_fail|].
Qed.

Lemma outside_bind {A B} (m : D A) (k : A → D B) : outside m → (∀ a, outside (k a)) → outside (m ≫= k).
Proof.
  intros Hm Hk s b s' (a & s1 & E1 & E2)%bind_inv. destruct (Hm _ _ _ E1) as [H1 H2]. destruct (Hk _ _ _ _ E2) as [H3 H4].
  split; [congruence|by etrans].
Qed.
Lemma outside_ret {A} (a : A) : outside (mret a).
Proof. by intros s ? ? [= <- <-]. Qed.
Lemma outside_if {A} (c : bool) (m1 m2 : D A) : outside m1 → outside m2 → outside (if c then m1 else m2).
Proof. by destruct c. Qed.
Lemma outside_on_buf {A} b (m : D A) : adds m → outside (on_buf b m).
Proof.
  intros H s a s' E. split; [|by eapply (adds_on_buf b m)]. unfold on_buf in E. by destruct (m _) as [[a1 s1]|]; simplify_eq.
Qed.
Lemma outside_alloc : outside alloc_answer.
Proof.
  intros s a s' E. split; [|by eapply adds_alloc]. unfold alloc_answer in E.
  revert E. destruct (allocs s) as [|[err|] r]; by intros [= <- <-].
Qed.
Lemma outside_callback msg n : outside (error_callback msg n).
Proof. intros s a s' [= <- <-]. split; [done|]. by apply prefix_app_r. Qed.

Lemma outside_read_abbrevs off bs e : outside (read_abbrevs off bs e).
Proof.
  unfold read_abbrevs. cbv zeta. apply outside_if; [apply outside_bind; [apply outside_callback|intros; apply outside_ret]|].
  apply outside_bind; [apply outside_on_buf, adds_count_abbrevs|]. intros [[n|] b]; [|apply outside_ret].
  do 2 (apply outside_if; [apply outside_ret|]). apply outside_bind; [apply outside_alloc|]. intros ok.
  apply outside_if; [apply outside_ret|]. apply outside_bind; [apply outside_on_buf, adds_read_entries|].
  intros [[l|] b']; [|apply outside_ret]. apply outside_bind; [|intros; apply outside_ret].
  intros s a s'. unfold lift_res. case_match; [|done]. by intros [= <- <-].
Qed.

Lemma ends_read_abbrevs off bs e : bytes_ok bs → Z.of_nat (length bs) < 2^63 → 0 ≤ off → ends (read_abbrevs off bs e).
Proof.
  intros Hb Hl Ho s (_ & _ & Hs & _). destruct (read_abbrevs_returns off bs e s Hb Hl Ho Hs) as (ok & l & s' & E & _).
  rewrite E. split; [done|]. intros ? ? [= <- <-]. destruct (outside_read_abbrevs _ _ _ _ _ _ E) as [H1 H2].
  split; rewrite ?H1; try done; lia.
Qed.

(** ** The units are contiguous *)
Fixpoint contiguous (o : Z) (l : list dwarf_unit) (o' : Z) : Prop :=
  match l with
  | [] => o = o'
  | u :: l => low_offset u = o ∧ o < high_offset u ∧ contiguous (high_offset u) l o'
  end.

Lemma contiguous_snoc o l u : ∀ o', contiguous o l o' → low_offset u = o' → o' < high_offset u →
  contiguous o (l ++ [u]) (high_offset u).
Proof.
  revert o. induction l as [|v l IH]; intros o o'; cbn.
  - intros -> Hl Hh. repeat split; [done|lia].
  - intros (Hl & Hh & Hc) Hu Hlt. split; [done|]. split; [done|]. by eapply IH.
Qed.

Lemma uint32_moves s v s' : wf_buf (db s) → read_uint32 s = Ok (v, s') → v ≠ 0 → s' = moved 4 s.
Proof.
  intros Hs E Hv. destruct (Z_lt_le_dec (db_left (db s)) 4) as [Hl|Hl].
  - rewrite read_uint32_underflow in E by done. simplify_eq.
  - destruct (unread_front 4 s Hs Hl) as (bs & rest & Hur & Hlen & _). list_of_length bs.
    rewrite (read_uint32_at s Hs rest _ _ _ _ Hur) in E. by simplify_eq.
Qed.

Lemma uint64_moves s v s' : wf_buf (db s) → read_uint64 s = Ok (v, s') → v ≠ 0 → s' = moved 8 s.
Proof.
  intros Hs E Hv. destruct (Z_lt_le_dec (db_left (db s)) 8) as [Hl|Hl].
  - rewrite read_uint64_underflow in E by done. simplify_eq.
  - destruct (unread_front 8 s Hs Hl) as (bs & rest & Hur & Hlen & _). list_of_length bs.
    rewrite (read_uint64_at s Hs rest _ _ _ _ _ _ _ _ Hur) in E. by simplify_eq.
Qed.

Lemma initial_length_moves s len (d64 : bool) s' : wf_buf (db s) → read_initial_length s = Ok ((len, d64), s') → len ≠ 0 →
  db_buf (db s') = db_buf (db s) + (if d64 then 12 else 4).
Proof.
  intros Hs E Hl. unfold read_initial_length in E. apply bind_inv in E as (v & s1 & E1 & E).
  destruct (Z.eqb_spec v 0xffffffff) as [->|].
  - pose proof (uint32_moves _ _ _ Hs E1 ltac:(done)) as ->. apply bind_inv in E as (w & s2 & E2 & E3%mret_inv). simplify_eq.
    assert (wf_buf (db (moved 4 s))) as Hs1.
    { eapply dstep_wf; [exact Hs|]. eapply (proj2 (ends_reads _ _ reads_uint32 s Hs)). exact E1. }
    pose proof (uint64_moves _ _ _ Hs1 E2 Hl) as ->. cbn. lia.
  - apply mret_inv in E. simplify_eq. by pose proof (uint32_moves _ _ _ Hs E1 Hl) as ->.
Qed.

Section units_end.
Variables (d : dwarf_sections) (altlink : option dwarf_sections) (base_address : Z) (e : bool) (pagesize : Z).
Hypothesis Hd : sections_ok d.

Lemma unit_attr_keeps tag a val st u : val_ok d altlink (true, val) →
  same_unit u (ua_unit st) ∧ pcrange_ok (ua_pcrange st) →
  same_unit u (ua_unit (unit_attr tag a val st)) ∧ pcrange_ok (ua_pcrange (unit_attr tag a val st)).
Proof.
  intros Hv [Hs Hp]. unfold unit_attr. cbv zeta.
  destruct (_ || _ || _); [split; [done|]; by eapply update_pcrange_ok|].
  repeat match goal with |- context [if ?c then _ else _] => destruct c end; done.
Qed.

Lemma unit_entry_runs n abbrev u vec :
  runs_in d (λ r : entry_end * dwarf_unit * vector addrs, same_unit u r.1.2)
    (unit_entry d altlink base_address e pagesize n abbrev u vec).
Proof.
  assert (same_unit u u) as Hu by done. unfold unit_entry.
  eapply runs_in_bind; [apply (for_attrs_keeps d altlink u tt _ (λ st, same_unit u (ua_unit st) ∧ pcrange_ok (ua_pcrange st)))|].
  { intros. apply runs_in_ret. intros ? [= <-]. by apply unit_attr_keeps. }
  { by split. }
  intros [|st] Hst; [by apply runs_in_ret|]. destruct (Hst st eq_refl) as [Hs Hp]. clear Hst. cbv zeta.
  assert (∀ u0 val str, runs_in d (λ _, True) (resolve_unit_string d e u0 val str)) as Hres.
  { intros u0 [val|] str; apply runs_in_ends; [apply ends_resolve_string|apply ends_ret]. }
  eapply runs_in_bind; [apply Hres|]. intros [[] f] _; [|by apply runs_in_ret]. cbn [negb].
  eapply runs_in_bind; [apply Hres|]. intros [[] c] _; [|by apply runs_in_ret]. cbn [negb].
  apply runs_in_if; [|by apply runs_in_ret].
  eapply runs_in_bind; [apply runs_in_ends, ends_add_ranges; [done|apply ends_add_addrs|done]|].
  intros [[] v] _; cbn [negb]; [apply runs_in_if|]; by apply runs_in_ret.
Qed.

Lemma find_address_ranges_runs fuel : ∀ n u vec s, wf_buf (db s) → of_section d (db s) → db_left (db s) ≤ Z.of_nat fuel →
  run_at s (λ r : bool * dwarf_unit * vector addrs, same_unit u r.1.2)
    (find_address_ranges d altlink base_address e pagesize fuel n u vec).
Proof.
  induction fuel as [|fuel IH]; intros n u vec s Hs Hsec Hf; cbn [find_address_ranges];
    (eapply run_at_bind; [done..|apply run_at_ends; [apply ends_gets|done]|]; intros b s0 [= <- <-] _ _ _ _;
     destruct (Z.ltb_spec 0 (db_left (db s))); cbn [negb]; [|by apply (runs_in_ret d)];
     destruct (read_uleb128_progress s Hs) as (code & s1 & E1 & _ & S1 & HP);
     eapply run_at_bind; [done..|apply run_at_ends; [apply ends_uleb128|done]|]; intros c s1' E1' _ _ Hs1 Hsec1;
     rewrite E1 in E1'; injection E1' as <- <-;
     destruct (Z.eqb_spec code 0); [by apply (runs_in_ret d)|]; specialize (HP ltac:(done));
     eapply run_at_bind; [done..|apply run_at_ends; [apply ends_lookup_abbrev|done]|]; intros abbrev s2 _ _ S2 Hs2 Hsec2;
     pose proof (dstep_left _ _ S2); pose proof (st_left _ _ S2);
     destruct abbrev as [abbrev|]; [|by apply (runs_in_ret d)]).
  - lia.
  - eapply run_at_bind; [done..|by apply unit_entry_runs|]. intros [[en u'] v'] s3 _ Hu S3 Hs3 Hsec3. cbn in Hu.
    pose proof (dstep_left _ _ S3). destruct en; [by apply (runs_in_ret d)..|].
    eapply (run_at_bind d (λ r : bool * dwarf_unit * vector addrs, same_unit u r.1.2)); [done..| |].
    { destruct (negb _); [|by apply (runs_in_ret d)].
      eapply run_at_weaken; [|apply IH; [done..|lia]]. intros r Hr. by eapply same_unit_trans. }
    intros [[[] u''] v''] s4 _ Hu' S4 Hs4 Hsec4; cbn in Hu'; cbn [negb]; [|by apply (runs_in_ret d)].
    pose proof (dstep_left _ _ S4). eapply run_at_weaken; [|apply IH; [done..|lia]]. intros r Hr. by eapply same_unit_trans.
Qed.

(** The data of a unit are inside the section, behind its header. *)
Definition placed (u : dwarf_unit) : Prop :=
  0 ≤ unit_data u ∧ 0 ≤ unit_data_len u ∧ unit_data u + unit_data_len u ≤ sec_size d DEBUG_INFO ∧
  0 ≤ unit_data_offset u < 2^63.

(** What a unit that is read has. *)
Definition unit_read (units : vector dwarf_unit) (lo hi : Z) (r : unit_end) : Prop :=
  match r with
  | Unit_read units' _ => ∃ u, items units' = items units ++ [u] ∧ low_offset u = lo ∧ high_offset u = hi ∧ placed u
  | _ => True
  end.

Lemma run_at_last {A} s (R : A → Prop) a : wf_buf (db s) → R a → run_at s R (mret a).
Proof. intros (_ & _ & Hl & _) HR. split; [done|]. intros ? ? [= <- <-]. split; [done|]. by apply dstep_refl. Qed.

Ltac ends_step lem :=
  eapply run_at_bind; [done|done|apply run_at_ends; [lem|done]|].

Lemma read_unit_runs start len off (d64 : bool) units vec s :
  wf_buf (db s) → of_section d (db s) → db_name (db s) = DEBUG_INFO → 0 ≤ start ≤ db_buf (db s) →
  run_at s (unit_read units off (u64 (off + len + (if d64 then 12 else 4))))
    (read_unit d altlink base_address e pagesize start len off d64 units vec).
Proof.
  intros Hs Hsec Hn Hstart. unfold read_unit.
  eapply run_at_bind; [done|done|apply run_at_reads; [apply reads_uint16|done]|]. intros ver s1 _ _ S1 Hs1 Hsec1.
  destruct (_ || _). { ends_step ltac:(apply ends_error). intros _ s2 _ _ _ Hs2 _. by apply run_at_last. }
  ends_step ltac:(apply ends_if; [apply ends_ret|apply ends_byte]). intros ty s2 _ _ S2 Hs2 Hsec2.
  destruct (_ || _); [by apply run_at_last|].
  ends_step ltac:(apply ends_vec_grow). intros [[bytes free]|] s3 _ _ S3 Hs3 Hsec3; [|by apply run_at_last].
  ends_step ltac:(apply ends_alloc). intros ok s4 _ _ S4 Hs4 Hsec4. destruct ok; cbn [negb]; [|by apply run_at_last].
  ends_step ltac:(apply ends_if; [apply ends_ret|apply ends_byte]). intros az s5 _ _ S5 Hs5 Hsec5.
  eapply run_at_bind; [done|done|apply run_at_reads; [apply reads_offset|done]|]. intros ao s6 _ [Hao _] S6 Hs6 Hsec6.
  ends_step ltac:(apply ends_read_abbrevs; [apply Hd|apply Hd|done]). intros [ok ab] s7 _ _ S7 Hs7 Hsec7.
  destruct ok; cbn [negb]; [|by apply run_at_last].
  ends_step ltac:(apply ends_if; [apply ends_byte|apply ends_ret]). intros az' s8 _ _ S8 Hs8 Hsec8.
  ends_step ltac:(apply ends_if; [eapply ends_reads, reads_uint64|apply ends_ret]). intros _ s9 _ _ S9 Hs9 Hsec9.
  ends_step ltac:(apply ends_gets). intros b s10 [= <- <-] _ S10 Hs10 Hsec10. cbv zeta.
  assert (dstep s s9) as S by eauto 20 using dstep_trans.
  assert (db_start (db s9) = d DEBUG_INFO) as Hsec' by (unfold of_section in Hsec9; by rewrite (st_name _ _ S), Hn in Hsec9).
  eapply run_at_bind; [done|done|apply find_address_ranges_runs; [done|done|]|].
  { rewrite <-Hsec'. destruct Hs10 as (_ & ? & ? & ?). lia. }
  intros [[ok u] v'] s11 _ Hu S11 Hs11 Hsec11. cbn in Hu.
  ends_step ltac:(apply ends_gets). intros b' s12 _ _ _ Hs12 _. destruct (_ || _); [by apply run_at_last|].
  apply run_at_last; [done|]. exists u. destruct Hu as (H1 & H2 & H3 & Hlo & Hhi & _).
  split; [done|]. split; [done|]. split; [done|]. unfold placed. rewrite H1, H2, H3. cbn. unfold sec_size. rewrite <-Hsec'.
  pose proof (st_mono _ _ S). destruct Hs9 as (_ & ? & ? & ?). destruct (Hd DEBUG_INFO) as [_ Hlt]. unfold sec_size in Hlt.
  rewrite <-Hsec' in Hlt. lia.
Qed.

Definition map_read (r : option (vector dwarf_unit * vector addrs)) : Prop :=
  ∀ units vec, r = Some (units, vec) → (∃ o, contiguous 0 (items units) o ∧ o < 2^63) ∧ Forall placed (items units).

Lemma run_at_on_buf {A} b (R : A → Prop) m s : (∀ s0, db s0 = b → run_at s0 R m) → 0 ≤ db_left (db s) →
  run_at s (λ r, R r.1) (on_buf b m).
Proof.
  intros Hm Hl. unfold run_at, on_buf. destruct (Hm (s <| db := b |>) ltac:(done)) as [Hf Hok].
  destruct (m _) as [[a s1]|f]; [|split; [congruence|done]]. split; [done|]. intros ? ? [= <- <-].
  destruct (Hok a s1 eq_refl) as [HR [_ _ _ _ _ _ _ He]]. split; [done|]. split; cbn; try done; lia.
Qed.

(** The end of the loop, or leaving it with [break]. *)
Lemma units_end_runs off units vec s : wf_buf (db s) → contiguous 0 (items units) off → off < 2^63 → Forall placed (items units) →
  run_at s map_read (info ← gets db; mret (if db_reported_underflow info then None else Some (units, vec))).
Proof.
  intros Hs Hc Ho Hp. split; [done|]. intros r s' [= <- <-]. split; [|apply dstep_refl, Hs].
  intros us v E. destruct (db_reported_underflow (db s)); simplify_eq. eauto.
Qed.

Lemma advance_true n s s' : 0 ≤ n → advance n s = Ok (true, s') → n ≤ db_left (db s) ∧ s' = moved n s.
Proof.
  intros Hn E. destruct (Z_le_gt_dec n (db_left (db s))) as [Hl|Hl].
  - rewrite advance_ok in E by done. by simplify_eq.
  - rewrite advance_underflow in E by lia. simplify_eq.
Qed.

Lemma units_loop_runs fuel : ∀ off units vec s, wf_buf (db s) → of_section d (db s) → db_name (db s) = DEBUG_INFO →
  db_left (db s) ≤ Z.of_nat fuel → contiguous 0 (items units) off → 0 ≤ off ≤ db_buf (db s) → Forall placed (items units) →
  run_at s map_read (units_loop d altlink base_address e pagesize fuel off units vec).
Proof.
  induction fuel as [|fuel IH]; intros off units vec s Hs Hsec Hn Hf Hc Hoff Hp; cbn [units_loop];
    (assert (off < 2^63) as Ho by (destruct Hs as (_ & ? & ? & ?); lia);
     ends_step ltac:(apply ends_gets); intros b s0 [= <- <-] _ _ _ _;
     destruct (Z.ltb_spec 4 (db_left (db s))); cbn [negb]; [|by eapply units_end_runs];
     destruct (db_reported_underflow (db s)); [by apply run_at_last|];
     eapply run_at_bind; [done|done|apply run_at_reads; [apply reads_initial_length|done]|];
     intros [len d64] s1 E1 [Hlen _] S1 Hs1 Hsec1; cbn in Hlen;
     ends_step ltac:(apply ends_gets); intros ub s1' [= <- <-] _ _ _ _;
     ends_step ltac:(by apply ends_advance); intros ok s2 E2 _ S2 Hs2 Hsec2;
     destruct ok; cbn [negb]; [|by eapply units_end_runs];
     destruct (Z.eqb_spec len 0); [by eapply units_end_runs|];
     pose proof (initial_length_moves _ _ _ _ Hs E1 ltac:(done)) as Hm;
     destruct (advance_true _ _ _ Hlen E2) as [Hle ->]);
    pose proof (dstep_left _ _ S1); pose proof (st_end _ _ S1); pose proof (st_end _ _ S2).
  - destruct d64; cbn in *; lia.
  - eapply run_at_bind; [done|done|apply run_at_on_buf; [|apply Hs2]|].
    { intros s0 Hs0. apply (read_unit_runs (db_buf (db s)) len off d64 units vec s0); rewrite Hs0.
      - unfold set_field. destruct Hs1 as (? & ? & ? & ?). split; [done|]. cbn. lia.
      - done.
      - cbn. by rewrite (st_name _ _ S1).
      - cbn. pose proof (st_mono _ _ S1). destruct Hs as (_ & ? & _). lia. }
    intros [r b'] s3 _ Hr S3 Hs3 Hsec3. cbn in Hr. pose proof (dstep_left _ _ S3). pose proof (st_mono _ _ S3).
    assert (db_name (db s3) = DEBUG_INFO) as Hn3 by (rewrite (st_name _ _ S3), (st_name _ _ S2), (st_name _ _ S1); done).
    cbn in *. destruct r as [| |us vs]; [by apply run_at_last| |].
    + apply IH; try done; [lia|]. destruct d64; lia.
    + destruct Hr as (u & Hus & Hlo & Hhi & Hpu). destruct Hs3 as (? & ? & ? & ?).
      rewrite u64_small in * by (destruct d64; lia). apply IH; try done; [lia| |destruct d64; lia|rewrite Hus; apply Forall_app; split; [done|by apply Forall_singleton]].
      rewrite Hus, <-Hhi. eapply contiguous_snoc; [done|done|]. rewrite Hhi. destruct d64; lia.
Qed.

Lemma build_address_map_runs s : 0 ≤ db_left (db s) → wf_buf (db s) → run_at s map_read
  (build_address_map d altlink base_address e pagesize).
Proof.
  intros Hl Hs. destruct (Hd DEBUG_INFO) as [_ Hlt]. unfold sec_size in Hlt.
  assert (wf_buf (section_buf d DEBUG_INFO 0 e)) as Hb by (apply section_buf_wf; [done|unfold sec_size; lia]).
  unfold build_address_map, run_at, mbind, M_bind.
  destruct (run_at_on_buf (section_buf d DEBUG_INFO 0 e) map_read
    (units_loop d altlink base_address e pagesize (length (d DEBUG_INFO)) 0 vec_empty vec_empty) s) as [Hf Hok]; [|done|].
  { intros s0 Hs0. apply units_loop_runs; rewrite ?Hs0; try done. cbn. unfold sec_size. rewrite u64_small; lia. }
  destruct (on_buf _ _ s) as [[[r b] s1]|f]; [|split; [congruence|done]]. destruct (Hok _ _ eq_refl) as [Hr S1]. cbn in Hr.
  pose proof (dstep_wf _ _ Hs S1) as Hs1. destruct r as [[units vec]|].
  - destruct (ends_vec_push pagesize sizeof_addrs vec trailing_addrs s1 Hs1) as [Hf2 Hok2].
    destruct (vec_push _ _ _ _ s1) as [[[v|] s2]|f]; [| |split; [congruence|done]]; (split; [done|]); intros r s' [= <- <-];
      (split; [|eauto using dstep_trans]); [|done]. intros us v' [= <- <-]. by apply (Hr units vec).
  - split; [done|]. intros r s' [= <- <-]. split; [done|]. done.
Qed.

Lemma build_dwarf_data_runs s : wf_buf (db s) →
  run_at s (λ r, ∀ dd, r = Some dd → (∃ o, contiguous 0 (dd_units dd) o) ∧ Forall placed (dd_units dd)) (build_dwarf_data d altlink base_address e pagesize).
Proof.
  intros Hs. unfold build_dwarf_data, run_at, mbind, M_bind.
  destruct (build_address_map_runs s) as [Hf Hok]; [apply Hs|done|].
  destruct (build_address_map d altlink base_address e pagesize s) as [[r s1]|f]; [|split; [congruence|done]].
  destruct (Hok _ _ eq_refl) as [Hr S1]. destruct r as [[units vec]|]; [|split; [done|]; intros ? ? [= <- <-]; by split].
  destruct (qsort_structs_sorts (unit_addrs_compare (items units)) (removelast (items vec))) as (l' & E4 & _).
  unfold lift_res. rewrite E4. destruct (ends_alloc s1 (dstep_wf _ _ Hs S1)) as [Hf2 Hok2].
  destruct (alloc_answer s1) as [[[] s2]|f]; [| |split; [congruence|done]]; (split; [done|]); intros r s' [= <- <-];
    (split; [|eauto using dstep_trans]); [|done].
  intros dd [= <-]. destruct (Hr units vec eq_refl) as [(o & Hc & _) Hp]. split; [by exists o|done].
Qed.
End units_end.

(** C34. Loading the debug information ends: whatever the bytes of the sections and
    the answers of the allocator, [build_dwarf_data] (the units, their
    abbreviations, the tree of entries down to any depth, their address ranges
    and the sort) returns or faults; fuel for the number of bytes of
    .debug_info is enough. *)
Theorem build_dwarf_data_ends d altlink base_address e pagesize s :
  sections_ok d → wf_buf (db s) → build_dwarf_data d altlink base_address e pagesize s ≠ Err OutOfFuel.
Proof. intros Hd Hs. by apply (build_dwarf_data_runs d altlink base_address e pagesize Hd s Hs). Qed.

(** ** [find_unit] *)
Lemma contiguous_lookup l : ∀ o o' i j u v, contiguous o l o' → l !! i = Some u → l !! j = Some v → (i < j)%nat →
  high_offset u ≤ low_offset v.
Proof.
  assert (∀ l o o' j v, contiguous o l o' → l !! j = Some v → o ≤ low_offset v) as Hge.
  { clear l. induction l as [|w l IH]; intros o o' j v Hc Hj; [done|]. destruct Hc as (Hl & Hh & Hc).
    destruct j; cbn in Hj; simplify_eq; [lia|]. specialize (IH _ _ _ _ Hc Hj). lia. }
  induction l as [|w l IH]; intros o o' i j u v Hc Hi Hj Hij; [done|]. destruct Hc as (Hl & Hh & Hc).
  destruct j; [lia|]. destruct i; cbn in *; simplify_eq; [by eapply Hge|]. eapply (IH _ _ i j); eauto. lia.
Qed.

Lemma contiguous_nonempty l : ∀ o o' i u, contiguous o l o' → l !! i = Some u → low_offset u < high_offset u.
Proof.
  induction l as [|w l IH]; intros o o' i u Hc Hi; [done|]. destruct Hc as (Hl & Hh & Hc).
  destruct i; cbn in Hi; simplify_eq; [lia|eauto].
Qed.

Lemma find_unit_spec l o o' offset : contiguous o l o' →
  ∃ r, find_unit l offset = Ok r ∧
    match r with
    | Some i => ∃ u, l !! i = Some u ∧ low_offset u ≤ offset < high_offset u
    | None => ∀ u, u ∈ l → ¬ low_offset u ≤ offset < high_offset u
    end.
Proof.
  intros Hc. set (c i := match l !! i with Some u => units_search offset u | None => 0 end).
  destruct (bsearch_spec (λ i, match l !! i with Some u => Ok (units_search offset u) | None => Err OutOfBounds end) c (length l))
    as (r & E & Hr).
  - intros i [u Hu]%lookup_lt_is_Some_2. subst c. cbn. by rewrite Hu.
  - split; intros i j [Hij Hj]; subst c; cbn;
      destruct (lookup_lt_is_Some_2 l i ltac:(lia)) as [u Hu], (lookup_lt_is_Some_2 l j Hj) as [v Hv]; rewrite Hu, Hv;
      pose proof (contiguous_lookup _ _ _ _ _ _ _ Hc Hu Hv Hij); pose proof (contiguous_nonempty _ _ _ _ _ Hc Hu);
      pose proof (contiguous_nonempty _ _ _ _ _ Hc Hv); unfold units_search; repeat case_match; lia.
  - exists r. split; [done|]. destruct r as [i|].
    + destruct Hr as [Hi Hci]. destruct (lookup_lt_is_Some_2 l i Hi) as [u Hu]. exists u. split; [done|].
      subst c. cbn in Hci. rewrite Hu in Hci. unfold units_search in Hci. repeat case_match; lia.
    + intros u [i Hi]%list_elem_of_lookup Hin. specialize (Hr i (lookup_lt_Some _ _ _ Hi)). subst c. cbn in Hr.
      rewrite Hi in Hr. unfold units_search in Hr. repeat case_match; lia.
Qed.

(** The units are found by offset: whatever the bytes of the sections, when
    loading succeeds the units follow each other, so that [find_unit] returns
    the unit whose range holds an offset if there is one, and NULL otherwise
    ("no qsort for units required, already sorted"). *)
Theorem find_unit_correct d altlink base_address e pagesize s dd s' offset :
  sections_ok d → wf_buf (db s) → build_dwarf_data d altlink base_address e pagesize s = Ok (Some dd, s') →
  ∃ r, find_unit (dd_units dd) offset = Ok r ∧
    match r with
    | Some i => ∃ u, dd_units dd !! i = Some u ∧ low_offset u ≤ offset < high_offset u
    | None => ∀ u, u ∈ dd_units dd → ¬ low_offset u ≤ offset < high_offset u
    end.
Proof.
  intros Hd Hs E. destruct (build_dwarf_data_runs d altlink base_address e pagesize Hd s Hs) as [_ Hok].
  destruct (Hok _ _ E) as [Hr _]. destruct (Hr dd eq_refl) as [[o Hc] _]. by eapply find_unit_spec.
Qed.

(** ** Examples *)

(** A compile unit with a name, a low address, the number of bytes and the
    offset of its lines; a type unit. *)
Definition example_abbrevs : list Z := [1;0x11;0;3;8;0x11;1;0x12;6;0x10;0x17;0;0;0].
Definition example_unit (lo n : Z) : list Z :=
  [27;0;0;0; 5;0; 1; 8; 0;0;0;0; 1; 97;0; lo;0;0;0;0;0;0;0; n;0;0;0; 0;0;0;0].
Definition example_type_unit : list Z := [20;0;0;0; 5;0; 2; 8; 0;0;0;0; 1;2;3;4;5;6;7;8; 24;0;0;0].
Definition example_sections (info : list Z) : dwarf_sections := λ sec,
  match sec with DEBUG_INFO => info | DEBUG_ABBREV => example_abbrevs | _ => [] end.
Definition example_load (info : list Z) : res (option dwarf_data) :=
  match build_dwarf_data (example_sections info) None 0 false 4096 (witness_state []) with
  | Ok (r, _) => Ok r
  | Err f => Err f
  end.

Lemma load_example :
  (λ r, from_option (λ dd, (dd_addrs dd, (λ u, (low_offset u, high_offset u)) <$> dd_units dd)) ([], []) <$> r)
    (match example_load (example_unit 32 8 ++ example_unit 16 4) with Ok r => Some r | Err _ => None end)
  = Some ([mk_addrs 16 20 (Some 1%nat); mk_addrs 32 40 (Some 0%nat); trailing_addrs], [(0, 31); (31, 62)]).
Proof. vm_compute. reflexivity. Qed.

(** A type unit is skipped without counting its bytes: the unit behind it, at
    the offset 55 of .debug_info, is recorded at the offset 31, so that
    [find_unit] does not find it by its offset. *)
Lemma type_unit_shifts_offsets :
  match example_load (example_unit 16 4 ++ example_type_unit ++ example_unit 32 8) with
  | Ok (Some dd) =>
      (unit_data <$> dd_units dd, low_offset <$> dd_units dd, find_unit (dd_units dd) 70) = ([12; 67], [0; 31], Ok None)
  | _ => False
  end.
Proof. vm_compute. reflexivity. Qed.

Lemma sections_ok_example info : bytes_ok info → Z.of_nat (length info) < 2^63 → sections_ok (example_sections info).
Proof.
  intros Hb Hl []; (split; [|done]); cbn; try done; try constructor; apply (bool_decide_unpack _); vm_compute; exact I.
Qed.

Lemma build_dwarf_data_ends_witness :
  build_dwarf_data (example_sections [255; 255; 255; 255; 1; 2; 3]) None 0 false 4096 (witness_state []) ≠ Err OutOfFuel.
Proof.
  apply build_dwarf_data_ends; [apply sections_ok_example; [|done]|]; apply (bool_decide_unpack _); vm_compute; exact I.
Defined.

Lemma find_unit_correct_witness :
  ∃ dd, example_load (example_unit 32 8 ++ example_unit 16 4) = Ok (Some dd) ∧
    ∃ r, find_unit (dd_units dd) 40 = Ok r ∧
      match r with
      | Some i => ∃ u, dd_units dd !! i = Some u ∧ low_offset u ≤ 40 < high_offset u
      | None => ∀ u, u ∈ dd_units dd → ¬ low_offset u ≤ 40 < high_offset u
      end.
Proof.
  unfold example_load.
  destruct (build_dwarf_data (example_sections (example_unit 32 8 ++ example_unit 16 4)) None 0 false 4096 (witness_state []))
    as [[[dd|] s']|] eqn:E; [|exfalso; revert E; vm_compute; discriminate..].
  exists dd. split; [done|]. eapply (find_unit_correct _ _ _ _ _ _ _ _ 40); [| |exact E].
  - apply sections_ok_example; [|done]. apply (bool_decide_unpack _); vm_compute; exact I.
  - apply (bool_decide_unpack _). vm_compute. exact I.
Defined.
