(* ===== verification/DwarfFunc.v ===== *)
(** * Functions (src/dwarf/dwarf.c)

    [read_function_entry] walks the entries of a unit for its functions and the
    functions inlined in them, with their names ([read_referenced_name]) and
    address ranges; [read_function_info] sorts the ranges, and
    [dwarf_read_function_info] reads the lines and the functions of a unit when
    they are needed first.

    A [struct function *] is the number of the function among all that have been
    allocated.  Memory given back is not part of the state. *)

From S2P Require Import Prelude Util Bytes Sort Search BtMmap DwarfBuf DwarfAttr DwarfAbbrev DwarfLine DwarfRange DwarfUnit.

(** ** Constants *)
Abbreviation DW_TAG_entry_point := 0x3%Z (only parsing).
Abbreviation DW_TAG_inlined_subroutine := 0x1d%Z (only parsing).
Abbreviation DW_AT_prototyped := 0x27%Z (only parsing).
Abbreviation DW_AT_abstract_origin := 0x31%Z (only parsing).
Abbreviation DW_AT_specification := 0x47%Z (only parsing).
Abbreviation DW_AT_call_file := 0x58%Z (only parsing).
Abbreviation DW_AT_call_line := 0x59%Z (only parsing).
Abbreviation DW_AT_linkage_name := 0x6e%Z (only parsing).
Abbreviation DW_AT_MIPS_linkage_name := 0x2007%Z (only parsing).
Definition sizeof_function_ptr : Z := 8.

(** ** Data *)

(** [struct function]; [fn_addrs] holds the ranges of the functions inlined in it,
    with the trailing entry, and is empty for NULL. *)
Record function := mk_function {
  fn_name : option cptr;
  caller_filename : option cptr;
  caller_lineno : Z;
  fn_addrs : list addrs;
  function_data : Z;
  function_data_len : Z;
  low_pc : Z;
  fn_args : option (list Z);
  fn_ret : option (list Z);
  fn_unit : nat;
}.
#[export] Instance function_eta : Settable function := λ f,
  mk_function (fn_name f) (caller_filename f) (caller_lineno f) (fn_addrs f) (function_data f)
    (function_data_len f) (low_pc f) (fn_args f) (fn_ret f) (fn_unit f).

(** The file that [.gnu_debugaltlink] names; it has no such file of its own. *)
Record altfile := mk_altfile { af_sections : dwarf_sections; af_units : list dwarf_unit; af_bigendian : bool }.

(** A pointer into the alternate file's own sections, seen from the file. *)
Definition in_alt (p : cptr) : cptr :=
  match p with InSection _ sec off => InSection true sec off | _ => p end.

(** The vectors that reading functions fills: [vec_function], [vec_inlined]
    ([None] when it is the same vector), the pointers to functions with a
    prototype, and all functions allocated. *)
Record func_state := mk_func_state {
  fs_function : vector addrs;
  fs_inlined : option (vector addrs);
  fs_ptrs : vector nat;
  fs_all : list function;
}.
#[export] Instance func_state_eta : Settable func_state := λ s,
  mk_func_state (fs_function s) (fs_inlined s) (fs_ptrs s) (fs_all s).

(** What the attributes of an entry have set; [ea_function] is meaningful if the
    entry is a function. *)
Record entry_attrs := mk_entry_attrs {
  ea_base : Z;
  ea_function : function;
  ea_pcrange : pcrange;
  ea_have_linkage_name : bool;
  ea_prototyped : bool;
}.
#[export] Instance entry_attrs_eta : Settable entry_attrs := λ a,
  mk_entry_attrs (ea_base a) (ea_function a) (ea_pcrange a) (ea_have_linkage_name a) (ea_prototyped a).

(** ** Comparisons *)

(** [strcmp] of the C library, by the bytes before the terminators; the standard
    says its sign. *)
Fixpoint strcmp (s1 s2 : list Z) : Z :=
  match s1, s2 with
  | [], [] => 0
  | [], _ :: _ => -1
  | _ :: _, [] => 1
  | c1 :: s1, c2 :: s2 => if c1 <? c2 then -1 else if c2 <? c1 then 1 else strcmp s1 s2
  end.

Section functions.
Variable dwarf_sections : dwarf_sections.
Variable alt : option altfile.
Variable units : list dwarf_unit.
Variable base_address : Z.
Variable is_bigendian : bool.
Variable pagesize : Z.

Definition altlink : option DwarfBuf.dwarf_sections := af_sections <$> alt.

(** The name of a function that is in a table; where the string is not terminated
    inside its section, it is taken to be empty. *)
Definition name_of (all : list function) (i : option nat) : list Z :=
  match f ← i ≫= (λ i, all !! i); fn_name f with
  | Some p => match c_string dwarf_sections altlink p with Ok l => l | Err _ => [] end
  | None => []
  end.

Definition function_addrs_compare (all : list function) (a1 a2 : addrs) : Z :=
  if low a1 <? low a2 then -1
  else if low a2 <? low a1 then 1
  else if high a1 <? high a2 then 1
  else if high a2 <? high a1 then -1
  else strcmp (name_of all (owner a1)) (name_of all (owner a2)).

Definition function_ptr_compare (all : list function) (f1 f2 : nat) : Z :=
  strcmp (name_of all (Some f1)) (name_of all (Some f2)).

(** ** The names of other entries *)

(** [unit_buf], over the data of a unit from an offset on. *)
Definition unit_buf_at (sections : DwarfBuf.dwarf_sections) (big : bool) (u : dwarf_unit) (offset : Z)
    : dwarf_buf :=
  mk_dwarf_buf DEBUG_INFO (sections DEBUG_INFO) (unit_data u + offset) (unit_data_len u - offset) big false.

(** The unit of a list that holds an offset. *)
Definition unit_at (us : list dwarf_unit) (offset : Z) : D (option dwarf_unit) :=
  i ← lift_res (find_unit us offset);
  mret (i ≫= (us !!.)).

(** [read_referenced_name_from_attr], for an entry of the file ([is_alt] for the
    alternate one); [rec] is [read_referenced_name]. *)
Definition name_from_attr (rec : bool → dwarf_unit → Z → D (option cptr)) (is_alt : bool) (u : dwarf_unit)
    (a : attr) (val : attr_val) : D (option cptr) :=
  let from us is_alt :=
    unit ← unit_at us (u_uint val);
    match unit with
    | None => mret None
    | Some unit => rec is_alt unit (u64 (u_uint val - low_offset unit))
    end in
  if negb ((at_name a =? DW_AT_abstract_origin) || (at_name a =? DW_AT_specification)) then mret None
  else if at_form a =? DW_FORM_ref_sig8 then mret None
  else match encoding val with
  | ATTR_VAL_REF_INFO => from (if is_alt then from_option af_units [] alt else units) is_alt
  | ATTR_VAL_UINT | ATTR_VAL_REF_UNIT => rec is_alt u (u_uint val)
  | ATTR_VAL_REF_ALT_INFO =>
      match (if is_alt then None else alt) with
      | None => fail NullDeref
      | Some f => from (af_units f) true
      end
  | _ => mret None
  end.

(** The [switch] of [read_referenced_name]. *)
Definition name_attr (sections : DwarfBuf.dwarf_sections) (big : bool)
    (from_attr : attr → attr_val → D (option cptr)) (here : option cptr → option cptr)
    (u : dwarf_unit) (a : attr) (val : attr_val) (ret : option cptr) : D (option cptr + option cptr) :=
  let resolve := resolve_string sections (is_dwarf64 u) big (str_offsets_base u) val None in
  if at_name a =? DW_AT_name then
    if negb (bool_decide (ret = None)) then mret (inr ret)
    else
      '(ok, s) ← resolve;
      mret (if (ok : bool) then inr (here s) else inl None)
  else if (at_name a =? DW_AT_linkage_name) || (at_name a =? DW_AT_MIPS_linkage_name) then
    '(ok, s) ← resolve;
    mret (if negb ok then inl None
          else match s with Some _ => inl (here s) | None => inr ret end)
  else if at_name a =? DW_AT_specification then
    name ← from_attr a val;
    mret (inr (match name with Some _ => name | None => ret end))
  else mret (inr ret).

(** The name of the entry at [offset] of the unit [u] of the file ([is_alt] for the
    alternate one); [None] for NULL.  The fuel bounds the chain of
    DW_AT_specification. *)
Fixpoint read_referenced_name (fuel : nat) (is_alt : bool) (u : dwarf_unit) (offset : Z)
    : D (option cptr) :=
  if (offset <? unit_data_offset u) || (unit_data_len u <=? u64 (offset - unit_data_offset u)) then
    error_callback "abstract origin or specification out of range" 0;; mret None
  else
    let offset := u64 (offset - unit_data_offset u) in
    let sections := if is_alt then from_option af_sections dwarf_sections alt else dwarf_sections in
    let link := if is_alt then None else altlink in
    let big := if is_alt then from_option af_bigendian is_bigendian alt else is_bigendian in
    let here p := if is_alt then in_alt <$> p else p in
    let from_attr :=
      match fuel with
      | O => λ _ _, fail OutOfFuel
      | S fuel => name_from_attr (read_referenced_name fuel) is_alt u
      end in
    '(r, _) ← on_buf (unit_buf_at sections big u offset)
      (code ← read_uleb128;
       if code =? 0 then
         dwarf_buf_error "invalid abstract origin or specification" 0;; mret None
       else
         abbrev ← lookup_abbrev (abbrevs u) code;
         match abbrev with
         | None => mret None
         | Some abbrev =>
             r ← for_attrs sections link u None (name_attr sections big from_attr here u) (ab_attrs abbrev) None;
             mret (match r with inl p => p | inr p => p end)
         end);
    mret r.

Definition read_referenced_name_from_attr (fuel : nat) (u : dwarf_unit) (a : attr) (val : attr_val)
    : D (option cptr) :=
  name_from_attr (read_referenced_name fuel) false u a val.

(** ** Function entries *)
Variable lhdr : line_header.
Variable rfuel : nat.

(** The base address, which the entry of the unit sets. *)
Definition base_attr (tag : Z) (u : dwarf_unit) (a : attr) (val : attr_val) (st : entry_attrs)
    : D (unit + entry_attrs) :=
  if is_unit_tag tag && (at_name a =? DW_AT_low_pc) then
    match encoding val with
    | ATTR_VAL_ADDRESS => mret (inr (st <| ea_base := u_uint val |>))
    | ATTR_VAL_ADDRESS_INDEX =>
        b ← addr_index dwarf_sections is_bigendian u (u_uint val);
        mret (match b with None => inl tt | Some b => inr (st <| ea_base := b |>) end)
    | _ => mret (inr st)
    end
  else mret (inr st).

(** The [switch] of [read_function_entry]. *)
Definition function_attr (u : dwarf_unit) (a : attr) (val : attr_val) (st : entry_attrs)
    : D (unit + entry_attrs) :=
  let name := at_name a in
  let f := ea_function st in
  let is_uint := bool_decide (encoding val = ATTR_VAL_UINT) in
  let resolve := resolve_string dwarf_sections (is_dwarf64 u) is_bigendian (str_offsets_base u) val None in
  if name =? DW_AT_call_file then
    if is_uint then
      if Z.of_nat (length (filenames lhdr)) <=? u_uint val then
        dwarf_buf_error "invalid file number in DW_AT_call_file attribute" 0;; mret (inl tt)
      else
        file ← array_get (filenames lhdr) (u_uint val);
        mret (inr (st <| ea_function := f <| caller_filename := file |> |>))
    else mret (inr st)
  else if name =? DW_AT_call_line then
    mret (inr (if is_uint then st <| ea_function := f <| caller_lineno := s32 (u_uint val) |> |> else st))
  else if (name =? DW_AT_abstract_origin) || (name =? DW_AT_specification) then
    if ea_have_linkage_name st then mret (inr st)
    else
      s ← read_referenced_name_from_attr rfuel u a val;
      mret (inr (match s with Some _ => st <| ea_function := f <| fn_name := s |> |> | None => st end))
  else if name =? DW_AT_name then
    if negb (bool_decide (fn_name f = None)) then mret (inr st)
    else
      '(ok, s) ← resolve;
      mret (if (ok : bool) then inr (st <| ea_function := f <| fn_name := s |> |>) else inl tt)
  else if (name =? DW_AT_linkage_name) || (name =? DW_AT_MIPS_linkage_name) then
    '(ok, s) ← resolve;
    mret (if negb ok then inl tt
          else match s with
          | Some _ => inr ((st <| ea_function := f <| fn_name := s |> |>) <| ea_have_linkage_name := true |>)
          | None => inr st
          end)
  else if (name =? DW_AT_low_pc) || (name =? DW_AT_high_pc) || (name =? DW_AT_ranges) then
    mret (inr (st <| ea_pcrange := update_pcrange name val (ea_pcrange st) |>))
  else if name =? DW_AT_prototyped then mret (inr (st <| ea_prototyped := true |>))
  else mret (inr st).

Definition entry_attr (tag : Z) (is_function : bool) (u : dwarf_unit) (a : attr) (val : attr_val)
    (st : entry_attrs) : D (unit + entry_attrs) :=
  r ← base_attr tag u a val st;
  match r with
  | inl x => mret (inl x)
  | inr st => if is_function then function_attr u a val st else mret (inr st)
  end.

Definition add_function_ptr (i : nat) (v : vector nat) : D (vector nat) :=
  r ← vec_push pagesize sizeof_function_ptr v i;
  mret (default v r).

(** The ranges of function [i], into [vec_inlined] for an inlined one. *)
Definition add_function_ranges (u : dwarf_unit) (base : Z) (p : pcrange) (inlined : bool) (i : nat)
    (st : func_state) : D (bool * func_state) :=
  let add := add_ranges dwarf_sections base_address is_bigendian u (add_function_range pagesize i) base p in
  match inlined, fs_inlined st with
  | true, Some v => '(ok, v) ← add v; mret (ok, st <| fs_inlined := Some v |>)
  | _, _ => '(ok, v) ← add (fs_function st); mret (ok, st <| fs_function := v |>)
  end.

Definition set_function (i : nat) (f : function) (st : func_state) : func_state :=
  st <| fs_all := <[i := f]> (fs_all st) |>.

(** What comes after the attributes, up to the children: the function with its
    ranges, [None] if the entry is no function (any more); [inl] is [return 0]. *)
Definition finish_function (u : dwarf_unit) (tag : Z) (i : nat) (e : entry_attrs) (st : func_state)
    : D (bool * option nat * func_state) :=
  let f := ea_function e in
  let p := ea_pcrange e in
  if bool_decide (fn_name f = None) then mret (true, None, st)
  else
    ptrs ← (if ea_prototyped e then add_function_ptr i (fs_ptrs st) else mret (fs_ptrs st));
    let f := if have_lowpc p then f <| low_pc := u64 (lowpc p + base_address) |> else f in
    let st := set_function i f (st <| fs_ptrs := ptrs |>) in
    if have_ranges p || (have_lowpc p && have_highpc p) then
      '(ok, st) ← add_function_ranges u (ea_base e) p (tag =? DW_TAG_inlined_subroutine) i st;
      mret (ok, Some i, st)
    else mret (true, None, st).

(** The functions inlined in function [i], sorted; 1 or 0. *)
Definition finish_inlined (i : nat) (fvec : vector addrs) (st : func_state) : D (bool * func_state) :=
  if (length (items fvec) =? 0)%nat then mret (true, st)
  else
    v ← vec_push pagesize sizeof_addrs fvec trailing_addrs;
    match v with
    | None => mret (false, st)
    | Some _ =>
        sorted ← lift_res (qsort_structs (function_addrs_compare (fs_all st)) (items fvec));
        f ← deref (fs_all st !! i);
        mret (true, set_function i (f <| fn_addrs := sorted ++ [trailing_addrs] |>) st)
    end.

Definition is_function_tag (tag : Z) : bool :=
  (tag =? DW_TAG_subprogram) || (tag =? DW_TAG_entry_point) || (tag =? DW_TAG_inlined_subroutine).

(** 1 or 0, and the vectors; [un] is the number of the unit [u].  Every entry
    read, here or in the calls for the children, starts with a code other than
    0. *)
Fixpoint read_function_entry (fuel : nat) (un : nat) (u : dwarf_unit) (base : Z) (st : func_state)
    : D (bool * func_state) :=
  b ← gets db;
  if negb (0 <? db_left b) then mret (true, st)
  else
    code ← read_uleb128;
    if code =? 0 then mret (true, st)
    else
      abbrev ← lookup_abbrev (abbrevs u) code;
      match abbrev, fuel with
      | None, _ => mret (false, st)
      | Some _, O => fail OutOfFuel
      | Some abbrev, S fuel =>
          let tag := ab_tag abbrev in
          let is_function := is_function_tag tag in
          let i := length (fs_all st) in
          let f0 := mk_function None None 0 [] (db_buf b) (db_left b) 0 None None un in
          ok ← (if is_function then alloc_answer else mret true);
          if negb ok then mret (false, st)
          else
            let st := if is_function then st <| fs_all := fs_all st ++ [f0] |> else st in
            r ← for_attrs dwarf_sections altlink u tt (entry_attr tag is_function u) (ab_attrs abbrev)
                  (mk_entry_attrs base f0 pcrange0 false false);
            match r with
            | inl _ => mret (false, st)
            | inr e =>
                let base := ea_base e in
                '(ok, fn, st) ← (if is_function then finish_function u tag i e st else mret (true, None, st));
                if negb ok then mret (false, st)
                else
                  '(ok, st) ←
                    (if ab_has_children abbrev =? 0 then mret (true, st)
                     else match fn with
                     | None => read_function_entry fuel un u base st
                     | Some i =>
                         '(ok, st') ← read_function_entry fuel un u base (st <| fs_inlined := Some vec_empty |>);
                         let fvec := default vec_empty (fs_inlined st') in
                         let st := st' <| fs_inlined := fs_inlined st |> in
                         if negb ok then mret (false, st) else finish_inlined i fvec st
                     end);
                  if negb ok then mret (false, st) else read_function_entry fuel un u base st
            end
      end.

(** [while (unit_buf.left > 0)]: every call reads a byte. *)
Fixpoint function_entries (fuel : nat) (un : nat) (u : dwarf_unit) (st : func_state) : D (bool * func_state) :=
  b ← gets db;
  if negb (0 <? db_left b) then mret (true, st)
  else match fuel with
  | O => fail OutOfFuel
  | S fuel =>
      '(ok, st) ← read_function_entry (length (db_start b)) un u 0 st;
      if negb ok then mret (false, st) else function_entries fuel un u st
  end.

(** [*ret_addrs] with the trailing entry ([[]] for NULL), the vector [fvec] after it
    (a new one when [fvec] is NULL), and what was read. *)
Definition read_function_info (un : nat) (u : dwarf_unit) (fvec : option (vector addrs)) (all : list function)
    : D (list addrs * vector addrs * func_state) :=
  '(r, _) ← on_buf (unit_buf_at dwarf_sections is_bigendian u 0)
    (b ← gets db;
     function_entries (length (db_start b)) un u
       (mk_func_state (default vec_empty fvec) None vec_empty all));
  let '(ok, st) := r in
  let v := fs_function st in
  if negb ok || (length (items v) =? 0)%nat then mret ([], v, st)
  else
    g ← vec_push pagesize sizeof_addrs v trailing_addrs;
    match g with
    | None => mret ([], v, st)
    | Some v' =>
        sorted ← lift_res (qsort_structs (function_addrs_compare (fs_all st)) (items v));
        mret (sorted ++ [trailing_addrs], mk_vec [] 0 (vfree v'), st)
    end.
End functions.

(** ** What is read as needed *)

(** A pointer that is NULL before it is read and -1 if that failed. *)
Inductive lazy (A : Type) := NotRead | ReadFailed | Have (a : A).
Arguments NotRead {A}. Arguments ReadFailed {A}. Arguments Have {A}.

(** The fields of [struct unit] "read in as needed". *)
Record unit_lazy := mk_unit_lazy {
  ul_lines : lazy (list line);
  ul_function_addrs : list addrs;
  ul_functions : lazy (list nat);
  ul_abs_filename : option cptr;
}.
#[export] Instance unit_lazy_eta : Settable unit_lazy := λ u,
  mk_unit_lazy (ul_lines u) (ul_function_addrs u) (ul_functions u) (ul_abs_filename u).
Definition unit_lazy0 : unit_lazy := mk_unit_lazy NotRead [] NotRead None.

(** The part of [struct dwarf_data] that changes: these fields of its units, its
    [fvec], and all functions. *)
Record ddata := mk_ddata {
  da_units : list unit_lazy;
  da_fvec : vector addrs;
  da_all : list function;
}.
#[export] Instance ddata_eta : Settable ddata := λ d, mk_ddata (da_units d) (da_fvec d) (da_all d).

Definition line_unit (u : dwarf_unit) : unit_info :=
  mk_unit_info (version u) (is_dwarf64 u) (addrsize u) (lineoff u) (str_offsets_base u) (unit_filename u) (comp_dir u).

Section read_as_needed.
Variable dwarf_sections : dwarf_sections.
Variable alt : option altfile.
Variable units : list dwarf_unit.
Variable base_address : Z.
Variable is_bigendian : bool.
Variable pagesize : Z.
Variable threaded : bool.
(** Fuel for the path tables of the line header and for chains of references. *)
Variables lfuel rfuel : nat.

(** [new_data], [*lines], and the data. *)
Definition dwarf_read_function_info (un : nat) (u : dwarf_unit) (da : ddata)
    : D (bool * lazy (list line) * ddata) :=
  r ← read_line_info dwarf_sections (af_sections <$> alt) is_bigendian base_address pagesize lfuel (line_unit u);
  '(lines, new_data, (faddrs, fvec, ptrs, all)) ←
    match r with
    | None => mret (ReadFailed, false, ([], da_fvec da, [], da_all da))
    | Some (lhdr, lines) =>
        '(faddrs, fvec, st) ← read_function_info dwarf_sections alt units base_address is_bigendian pagesize
          lhdr rfuel un u (if threaded then None else Some (da_fvec da)) (da_all da);
        mret (Have lines, true,
              (faddrs, if threaded then da_fvec da else fvec, items (fs_ptrs st), fs_all st))
    end;
  sorted ← lift_res (qsort_structs (function_ptr_compare dwarf_sections alt all) ptrs);
  let functions := match sorted with [] => ReadFailed | _ => Have sorted end in
  ul ← deref (da_units da !! un);
  mret (new_data, lines,
        mk_ddata (<[un := mk_unit_lazy lines faddrs functions (ul_abs_filename ul)]> (da_units da)) fvec all).
End read_as_needed.

(** ** The orders of the tables *)
Lemma strcmp_orders : orders strcmp.
Proof.
  split.
  - induction x as [|a x IH]; intros [|b y] [|c z]; cbn; try lia. specialize (IH y z). repeat case_match; lia.
  - induction x as [|a x IH]; intros [|b y]; cbn; try lia. specialize (IH y). repeat case_match; lia.
Qed.

Lemma function_addrs_compare_orders d alt all : orders (function_addrs_compare d alt all).
Proof.
  destruct strcmp_orders as [Ht Hto]. unfold function_addrs_compare. split.
  - intros x y z. specialize (Ht (name_of d alt all (owner x)) (name_of d alt all (owner y)) (name_of d alt all (owner z))).
    repeat case_match; lia.
  - intros x y. specialize (Hto (name_of d alt all (owner x)) (name_of d alt all (owner y))). repeat case_match; lia.
Qed.

Lemma function_addrs_nested d alt all a b : function_addrs_compare d alt all a b ≤ 0 → nested_order a b.
Proof. unfold function_addrs_compare, nested_order. repeat case_match; lia. Qed.

Lemma function_ptr_compare_orders d alt all : orders (function_ptr_compare d alt all).
Proof. destruct strcmp_orders as [Ht Hto]. unfold function_ptr_compare. split; intros *; [apply Ht|apply Hto]. Qed.

(** ** The functions that are read

    [named all j]: function [j] has a name. [owned lo all l]: the ranges [l] are
    of functions from [lo] on that have a name.  A table of ranges is NULL or
    sorted, with the trailing entry; the functions inlined in function [i] come
    after it. *)
Definition named (all : list function) (j : nat) : Prop := ∃ p, (fn_name <$> all) !! j = Some (Some p).
Definition owned (lo : nat) (all : list function) (l : list addrs) : Prop :=
  owners (λ j, (lo ≤ j)%nat ∧ named all j) l.
Definition table_ok (lo : nat) (all : list function) (t : list addrs) : Prop :=
  t = [] ∨ ∃ l, t = l ++ [trailing_addrs] ∧ sorted_ranges l ∧ owned lo all l.
Definition funcs_ok (all : list function) : Prop :=
  ∀ i f, all !! i = Some f → table_ok (S i) all (fn_addrs f).

Record fs_ok (lo : nat) (st : func_state) : Prop := mk_fs_ok {
  ok_funcs : funcs_ok (fs_all st);
  ok_function : owned 0 (fs_all st) (items (fs_function st));
  ok_inlined : ∀ v, fs_inlined st = Some v → owned lo (fs_all st) (items v);
  ok_ptrs : Forall (named (fs_all st)) (items (fs_ptrs st));
}.

(** Functions keep their names. *)
Definition keeps_names (all all' : list function) : Prop := ∀ j, named all j → named all' j.

Lemma owned_mono lo lo' all all' l : (lo' ≤ lo)%nat → keeps_names all all' → owned lo all l → owned lo' all' l.
Proof. intros Hlo Hn H. eapply Forall_impl; [exact H|]. intros e (j & Ho & Hj & Hnm). exists j. split; [done|]. split; [lia|by apply Hn]. Qed.

Lemma table_mono lo all all' t : keeps_names all all' → table_ok lo all t → table_ok lo all' t.
Proof. intros Hn [->|(l & -> & Hs & Ho)]; [by left|right]. exists l. split; [done|]. split; [done|]. by eapply owned_mono. Qed.

Lemma keeps_names_app all fs : keeps_names all (all ++ fs).
Proof. intros j [p Hp]. exists p. rewrite fmap_app. by apply lookup_app_l_Some. Qed.

Lemma keeps_names_insert all i f f' : all !! i = Some f → (fn_name f = None ∨ fn_name f' = fn_name f) →
  keeps_names all (<[i := f']> all).
Proof.
  intros Hi Hf j [p Hp]. rewrite list_lookup_fmap in Hp. destruct (all !! j) as [g|] eqn:Hg; [|done]. cbn in Hp.
  destruct (decide (j = i)) as [->|].
  - exists p. rewrite list_lookup_fmap, list_lookup_insert_eq by (by eapply lookup_lt_Some). cbn. simplify_eq.
    destruct Hf; congruence.
  - exists p. by rewrite list_lookup_fmap, list_lookup_insert_ne, Hg by done.
Qed.

(** A function with the table [t] in place of function [i], whose name it keeps. *)
Lemma funcs_ok_insert all i f f' : funcs_ok all → all !! i = Some f → (fn_name f = None ∨ fn_name f' = fn_name f) →
  table_ok (S i) all (fn_addrs f') → funcs_ok (<[i := f']> all).
Proof.
  intros Ha Hi Hf Ht j g Hg. pose proof (keeps_names_insert all i f f' Hi Hf) as Hn.
  destruct (decide (j = i)) as [->|].
  - rewrite list_lookup_insert_eq in Hg by (by eapply lookup_lt_Some). simplify_eq. by eapply table_mono.
  - rewrite list_lookup_insert_ne in Hg by done. eapply table_mono; [exact Hn|]. by apply Ha.
Qed.

Lemma fs_ok_insert lo st i f f' : fs_ok lo st → fs_all st !! i = Some f → (fn_name f = None ∨ fn_name f' = fn_name f) →
  table_ok (S i) (fs_all st) (fn_addrs f') → fs_ok lo (set_function i f' st).
Proof.
  intros [Ha Hf Hi Hp] E Hn Ht. pose proof (keeps_names_insert _ i f f' E Hn) as Hk. split; cbn.
  - by eapply funcs_ok_insert.
  - by eapply owned_mono.
  - intros v Hv. eapply owned_mono; [done|exact Hk|]. by apply Hi.
  - eapply Forall_impl; [exact Hp|]. intros j. apply Hk.
Qed.

Lemma fs_ok_app lo st f : fs_ok lo st → fn_addrs f = [] → fs_ok lo (st <| fs_all := fs_all st ++ [f] |>).
Proof.
  intros [Ha Hf Hi Hp] E. pose proof (keeps_names_app (fs_all st) [f]) as Hk. split; unfold set_field; cbn.
  - intros i g Hg. rewrite lookup_app in Hg. destruct (fs_all st !! i) as [h|] eqn:Eh.
    + simplify_eq. eapply table_mono; [exact Hk|]. by apply Ha.
    + apply list_lookup_singleton_Some in Hg as [_ <-]. by left.
  - by eapply owned_mono.
  - intros v Hv. eapply owned_mono; [done|exact Hk|]. by apply Hi.
  - eapply Forall_impl; [exact Hp|]. intros j. apply Hk.
Qed.

Section functions_give.
Variables (d : dwarf_sections) (alt : option altfile) (units : list dwarf_unit) (base_address : Z) (e : bool) (pagesize : Z).
Variables (lhdr : line_header) (rfuel : nat).

(** The attributes do not touch the table of the functions inlined. *)
Lemma gives_entry_attr tag is_function u a val st : fn_addrs (ea_function st) = [] →
  gives (λ r, ∀ st', r = inr st' → fn_addrs (ea_function st') = [])
    (entry_attr d alt units e lhdr rfuel tag is_function u a val st).
Proof.
  intros Hst. unfold entry_attr.
  apply (gives_bind (λ r : unit + entry_attrs, ∀ st', r = inr st' → fn_addrs (ea_function st') = [])).
  - unfold base_attr. apply gives_if; [|apply gives_ret; by intros ? [= <-]].
    destruct (encoding val); try (apply gives_ret; by intros ? [= <-]).
    apply gives_then. intros [b|]; apply gives_ret; by intros ? [= <-].
  - intros [|st1] H1; [by apply gives_ret|]. specialize (H1 st1 eq_refl). apply gives_if; [|apply gives_ret; by intros ? [= <-]].
    unfold function_attr. cbv zeta.
    repeat first
      [ apply gives_if | apply gives_ret; intros ? E; repeat case_match; by simplify_eq
      | apply gives_then; intros [[] [?|]] | apply gives_then; intros ? ].
Qed.

Lemma gives_add_function_ranges lo u base p inlined i st : fs_ok lo st → (lo ≤ i)%nat → named (fs_all st) i →
  gives (λ r : bool * func_state, fs_ok lo r.2 ∧ fs_all r.2 = fs_all st ∧ (fs_inlined r.2 = None ↔ fs_inlined st = None))
    (add_function_ranges d base_address e pagesize u base p inlined i st).
Proof.
  intros [Ha Hf Hi Hp] Hlo Hn. unfold add_function_ranges. cbv zeta.
  assert (gives (λ r : bool * func_state, fs_ok lo r.2 ∧ fs_all r.2 = fs_all st ∧ (fs_inlined r.2 = None ↔ fs_inlined st = None))
    ('(ok, v) ← add_ranges d base_address e u (add_function_range pagesize i) base p (fs_function st);
     mret (ok, st <| fs_function := v |>))) as H1.
  { eapply gives_bind; [apply (gives_add_ranges (λ v, owned 0 (fs_all st) (items v)))|].
    - intros. apply gives_add_addrs; [split; [lia|done]|done].
    - done.
    - intros [ok v] Hv. apply gives_ret. by repeat split. }
  destruct inlined; [|exact H1]. destruct (fs_inlined st) as [v|] eqn:E; [|exact H1].
  eapply gives_bind; [apply (gives_add_ranges (λ v, owned lo (fs_all st) (items v)))|].
  - intros. by apply gives_add_addrs.
  - by apply Hi.
  - intros [ok v'] Hv'. apply gives_ret. cbn. repeat split; try done. cbn. by intros ? [= <-].
Qed.

(** The function [i] just allocated gets its name and ranges. *)
Lemma gives_finish_function lo u tag ea st all f0 : fs_ok lo st → fs_all st = all ++ [f0] → fn_name f0 = None →
  fn_addrs (ea_function ea) = [] → fn_addrs f0 = [] → (lo ≤ length all)%nat →
  gives (λ r : bool * option nat * func_state, fs_ok lo r.2 ∧ (∃ f, fs_all r.2 = all ++ [f] ∧ fn_addrs f = []) ∧
           (fs_inlined r.2 = None ↔ fs_inlined st = None) ∧ ∀ j, r.1.2 = Some j → j = length all ∧ named (fs_all r.2) j)
    (finish_function d base_address e pagesize u tag (length all) ea st).
Proof.
  intros Hok Hall Hf0 Hea Hf0a Hlo. unfold finish_function. cbv zeta.
  case_bool_decide as Hn; [apply gives_ret; split; [done|]; split; [by exists f0|]; by split|].
  set (f1 := if have_lowpc (ea_pcrange ea) then _ else ea_function ea).
  assert (fn_name f1 = fn_name (ea_function ea) ∧ fn_addrs f1 = []) as [Hn1 Ha1] by (subst f1; by destruct (have_lowpc _)).
  set (R := λ v : vector nat, ∀ j, j ∈ items v → named (fs_all st) j ∨ j = length all).
  apply (gives_bind R).
  { assert (R (fs_ptrs st)) as H0 by (intros j Hj; left; by eapply Forall_forall in Hj; [|apply Hok]).
    apply gives_if; [|by apply gives_ret]. eapply gives_bind; [apply gives_vec_push|]. intros [v|] Hv; apply gives_ret; [|done].
    cbn. intros j. rewrite (Hv v eq_refl). intros [Hj|Hj%list_elem_of_singleton]%elem_of_app; [by apply H0|by right]. }
  intros ptrs Hptrs. set (st1 := set_function _ _ _).
  assert (fs_all st !! length all = Some f0) as Hi by (rewrite Hall; by apply list_lookup_middle).
  assert (fs_all st1 = all ++ [f1]) as Hall1.
  { cbn. rewrite Hall. by rewrite insert_app_r_alt, Nat.sub_diag by lia. }
  assert (named (fs_all st1) (length all)) as Hnm.
  { rewrite Hall1. destruct (fn_name f1) as [p|] eqn:E; [|congruence]. exists p. rewrite fmap_app. cbn.
    rewrite lookup_app_r; rewrite length_fmap; [|done]. rewrite Nat.sub_diag. cbn. by rewrite E. }
  assert (fs_ok lo st1) as Hok1.
  { destruct (fs_ok_insert lo st (length all) f0 f1 Hok Hi) as [H1 H2 H3 H4]; [by left|by left|]. split; try done.
    apply Forall_forall. intros j Hj. destruct (Hptrs j Hj) as [Hj'| ->]; [|done].
    by apply (keeps_names_insert _ _ _ f1 Hi (or_introl Hf0)). }
  apply gives_if; [|apply gives_ret; split; [done|]; split; [by exists f1|]; by split].
  eapply gives_bind; [apply gives_add_function_ranges; [exact Hok1|done|done]|].
  intros [ok st2] (Hok2 & Hall2 & Hin). cbn in Hok2, Hall2, Hin. apply gives_ret. cbn [snd fst]. rewrite Hall2.
  repeat split; [apply Hok2..|eauto|apply Hin|apply Hin|by simplify_eq|by simplify_eq].
Qed.

Lemma gives_sorted lo all l : owned lo all l →
  gives (λ l', sorted_ranges l' ∧ owned lo all l') (lift_res (qsort_structs (function_addrs_compare d alt all) l)).
Proof.
  intros Hl. apply gives_lift_res. intros l' E.
  destruct (qsort_structs_sorts (function_addrs_compare d alt all) l) as (l1 & E1 & HP & HS). rewrite E1 in E. simplify_eq.
  split; [|unfold owned; by rewrite <-HP].
  eapply sorted_ranges_of; [apply (function_addrs_nested d alt all)|]. apply HS, function_addrs_compare_orders.
Qed.

Lemma gives_finish_inlined lo i fvec st : fs_ok lo st → owned (S i) (fs_all st) (items fvec) →
  gives (λ r : bool * func_state, fs_ok lo r.2 ∧ fs_inlined r.2 = fs_inlined st ∧
           ∃ f, (fs_all r.2 = fs_all st ∨ fs_all r.2 = <[i := f]> (fs_all st)))
    (finish_inlined d alt pagesize i fvec st).
Proof.
  intros Hok Hv. unfold finish_inlined. assert (∃ f : function, True) as [f0 _] by (by exists (mk_function None None 0 [] 0 0 0 None None 0)).
  apply gives_if; [apply gives_ret; split; [done|]; split; [done|]; exists f0; by left|].
  apply gives_then. intros [v|]; [|apply gives_ret; split; [done|]; split; [done|]; exists f0; by left].
  eapply gives_bind; [by apply gives_sorted|]. intros l [Hs Ho].
  eapply gives_bind; [apply gives_deref|]. intros f Hf. apply gives_ret. cbn [snd].
  split; [|split; [done|by eexists; right]]. apply (fs_ok_insert lo st i f); [done|done|by right|]. right. by exists l.
Qed.

(** Reading entries keeps the state well formed, and the functions there were. *)
Definition fs_step (lo : nat) (st : func_state) (r : bool * func_state) : Prop :=
  fs_ok lo r.2 ∧ fs_all st `prefix_of` fs_all r.2 ∧ (fs_inlined r.2 = None ↔ fs_inlined st = None).

Lemma fs_step_refl lo st ok : fs_ok lo st → fs_step lo st (ok, st).
Proof. by intros H. Qed.

Lemma fs_step_trans lo st st' ok r : fs_step lo st (ok, st') → fs_step lo st' r → fs_step lo st r.
Proof. intros (_ & Hp & Hi) (Hok & Hp' & Hi'). cbn in *. split; [done|]. split; [by etrans|tauto]. Qed.

(** The children of function [i], into a vector of their own. *)
Lemma gives_function_children lo i st rec : fs_ok lo st → (i < length (fs_all st))%nat →
  (∀ lo st, fs_ok lo st → (lo ≤ length (fs_all st))%nat → gives (fs_step lo st) (rec st)) →
  gives (fs_step lo (st <| fs_all := take i (fs_all st) |>))
    ('(ok, st') ← rec (st <| fs_inlined := Some vec_empty |>);
     let fvec := default vec_empty (fs_inlined st') in
     let st := st' <| fs_inlined := fs_inlined st |> in
     if negb ok then mret (false, st) else finish_inlined d alt pagesize i fvec st).
Proof.
  intros Hok Hi Hrec.
  assert (fs_ok (S i) (st <| fs_inlined := Some vec_empty |>)) as Hok0.
  { destruct Hok. split; try done. cbn. intros v [= <-]. constructor. }
  eapply gives_bind; [apply (Hrec (S i)); [exact Hok0|cbn; lia]|]. intros [ok st1] (Hok1 & Hp1 & Hi1). cbn in Hp1, Hi1, Hok1.
  cbv zeta. assert (keeps_names (fs_all st) (fs_all st1)) as Hk by (destruct Hp1 as [k ->]; apply keeps_names_app).
  assert (fs_ok lo (st1 <| fs_inlined := fs_inlined st |>)) as Hok2.
  { destruct Hok1. split; try done. cbn. intros v Hv. eapply owned_mono; [done|exact Hk|]. by apply Hok. }
  assert (take i (fs_all st) `prefix_of` fs_all st1) as Hp2.
  { etrans; [|exact Hp1]. exists (drop i (fs_all st)). by rewrite take_drop. }
  apply gives_if; [by apply gives_ret|].
  eapply gives_weaken; [|apply gives_finish_inlined; [exact Hok2|]].
  - intros [ok' st2] (Hok3 & Hin & f & Hall). cbn in *. split; [done|]. split; [|cbn; by rewrite Hin]. cbn.
    destruct Hall as [->| ->]; [done|]. destruct Hp2 as [k ->]. exists (<[0%nat := f]> k).
    assert (length (take i (fs_all st)) = i) as Hl by (rewrite length_take; lia).
    rewrite <-Hl at 1. by rewrite insert_app_r_alt, Nat.sub_diag by lia.
  - cbn. destruct (fs_inlined st1) as [v|] eqn:E; [|by destruct Hi1 as [Hi1 _]; specialize (Hi1 eq_refl)]. cbn. by apply Hok1.
Qed.

Lemma gives_read_function_entry un u fuel : ∀ lo base st, fs_ok lo st → (lo ≤ length (fs_all st))%nat →
  gives (fs_step lo st) (read_function_entry d alt units base_address e pagesize lhdr rfuel fuel un u base st).
Proof.
  induction fuel as [|fuel IH]; intros lo base st Hok Hlo; cbn [read_function_entry]; apply gives_then; intros b;
    (apply gives_if; [by apply gives_ret|]); apply gives_then; intros code; (apply gives_if; [by apply gives_ret|]);
    apply gives_then; intros [abbrev|]; try (by apply gives_ret); [apply gives_fail|].
  cbv zeta. set (f0 := mk_function None None 0 [] _ _ 0 None None un). apply gives_then. intros ok.
  apply gives_if; [by apply gives_ret|]. set (is_f := is_function_tag (ab_tag abbrev)).
  set (st1 := if is_f then _ else st). assert (fs_ok lo st1) as Hok1 by (subst st1; destruct is_f; [by apply fs_ok_app|done]).
  assert (fs_step lo st (true, st1)) as Hst1.
  { subst st1. destruct is_f; [|done]. split; [done|]. split; [|done]. by apply prefix_app_r. }
  eapply gives_bind; [apply (gives_for_attrs _ _ _ _ _ (λ st, fn_addrs (ea_function st) = []))|].
  { intros. by apply gives_entry_attr. }
  { done. }
  intros [|ea] Hea; [apply gives_ret; by eapply fs_step_trans|]. specialize (Hea ea eq_refl).
  apply (gives_bind (λ r : bool * option nat * func_state, fs_step lo st (r.1.1, r.2) ∧
    ∀ j, r.1.2 = Some j → j = length (fs_all st) ∧ (j < length (fs_all r.2))%nat)).
  { subst st1. destruct is_f; [|by apply gives_ret].
    eapply gives_weaken; [|eapply (gives_finish_function lo u _ ea _ (fs_all st) f0); done].
    intros [[ok2 fn] st2] (H1 & (f & H2 & _) & H3 & H4). cbn in *. split.
    - split; [done|]. cbn. split; [|done]. rewrite H2. by apply prefix_app_r.
    - intros j Hj. destruct (H4 j Hj) as [-> _]. rewrite H2, length_app. cbn. lia. }
  intros [[ok2 fn] st2] [Hst2 Hfn]. cbn [fst snd] in Hst2, Hfn. apply gives_if; [by apply gives_ret|].
  pose proof Hst2 as (Hok2 & Hp2 & Hi2). cbn in Hok2, Hp2, Hi2. pose proof (prefix_length _ _ Hp2) as Hl2.
  apply (gives_bind (fs_step lo st)).
  { apply gives_if; [by apply gives_ret|]. destruct fn as [i|].
    - destruct (Hfn i eq_refl) as [-> Hlt].
      eapply gives_weaken; [|apply (gives_function_children lo (length (fs_all st)) st2); [done|done|]].
      + intros r (H1 & H2 & H3). split; [done|]. cbn in H2, H3. split; [|by rewrite H3].
        destruct Hp2 as [k Hk]. rewrite Hk, take_app_length in H2. done.
      + intros lo' st' Hok' Hlo'. by apply IH.
    - eapply gives_weaken; [|by apply (IH lo (ea_base ea) st2); [|lia]]. intros r Hr. by eapply fs_step_trans. }
  intros [ok3 st3] Hst3. apply gives_if; [by apply gives_ret|]. pose proof Hst3 as (Hok3 & Hp3 & _). cbn in Hok3, Hp3.
  pose proof (prefix_length _ _ Hp3). eapply gives_weaken; [|apply IH; [done|lia]]. intros r Hr. by eapply fs_step_trans.
Qed.

Lemma gives_function_entries un u fuel : ∀ st, fs_ok 0 st →
  gives (fs_step 0 st) (function_entries d alt units base_address e pagesize lhdr rfuel fuel un u st).
Proof.
  induction fuel as [|fuel IH]; intros st Hok; cbn [function_entries]; apply gives_then; intros b;
    (apply gives_if; [by apply gives_ret|]); [apply gives_fail|].
  eapply gives_bind; [apply gives_read_function_entry; [done|lia]|]. intros [ok st1] Hst1. apply gives_if; [by apply gives_ret|].
  eapply gives_weaken; [|apply IH, Hst1]. intros r Hr. by eapply fs_step_trans.
Qed.

(** The table and the vectors of [read_function_info]. *)
Lemma gives_read_function_info un u fvec all : funcs_ok all → owned 0 all (items (default vec_empty fvec)) →
  gives (λ r : list addrs * vector addrs * func_state,
           all `prefix_of` fs_all r.2 ∧ funcs_ok (fs_all r.2) ∧ table_ok 0 (fs_all r.2) r.1.1 ∧
           owned 0 (fs_all r.2) (items r.1.2) ∧ Forall (named (fs_all r.2)) (items (fs_ptrs r.2)))
    (read_function_info d alt units base_address e pagesize lhdr rfuel un u fvec all).
Proof.
  intros Ha Hf. unfold read_function_info.
  set (st0 := mk_func_state (default vec_empty fvec) None vec_empty all). assert (fs_ok 0 st0) as Hok0 by (split; try done; constructor).
  apply (gives_bind (λ r : (bool * func_state) * dwarf_buf, fs_step 0 st0 r.1)).
  { apply gives_on_buf, gives_then. intros b. by apply gives_function_entries. }
  intros [[ok st] b] (Hok & Hp & _). cbn in Hok, Hp. pose proof Hok as [H1 H2 _ H4]. cbv zeta.
  apply gives_if; [apply gives_ret; cbn; repeat split; try done; by left|].
  apply gives_then. intros [v'|]; [|apply gives_ret; cbn; repeat split; try done; by left].
  eapply gives_bind; [apply gives_sorted, H2|]. intros l [Hs Ho]. apply gives_ret. cbn.
  repeat split; try done; [|constructor]. right. by exists l.
Qed.
End functions_give.

(** ** What is read is well formed

    Lines are sorted by their address, and there is one at least. *)
Definition trailing_line : line := mk_line (u64 (-1)) None 0 0.
Definition lines_ok (t : list line) : Prop :=
  ∃ l, t = l ++ [trailing_line] ∧ ∀ i j a b, (i < j)%nat → l !! i = Some a → l !! j = Some b → ln_pc a ≤ ln_pc b.

(** The functions by their names. *)
Definition by_name (d : dwarf_sections) (alt : option altfile) (all : list function) (l : list nat) : Prop :=
  Forall (named all) l ∧ StronglySorted (λ i j, function_ptr_compare d alt all i j ≤ 0) l.

Record unit_ok (d : dwarf_sections) (alt : option altfile) (all : list function) (ul : unit_lazy) : Prop := mk_unit_ok {
  uok_lines : ∀ t, ul_lines ul = Have t → lines_ok t;
  uok_addrs : table_ok 0 all (ul_function_addrs ul);
  uok_functions : ∀ l, ul_functions ul = Have l → by_name d alt all l;
}.

Record da_ok (d : dwarf_sections) (alt : option altfile) (da : ddata) : Prop := mk_da_ok {
  dok_funcs : funcs_ok (da_all da);
  dok_fvec : owned 0 (da_all da) (items (da_fvec da));
  dok_units : ∀ un ul, da_units da !! un = Some ul → unit_ok d alt (da_all da) ul;
}.

Lemma line_compare_orders : orders line_compare.
Proof. unfold line_compare. split; intros *; repeat case_match; lia. Qed.

Lemma gives_read_line_info d altlink e base_address pagesize fuel u :
  gives (λ r, ∀ hdr t, r = Some (hdr, t) → lines_ok t) (read_line_info d altlink e base_address pagesize fuel u).
Proof.
  unfold read_line_info. apply gives_if; [apply gives_then; intros _; by apply gives_ret|]. apply gives_then. intros [r b].
  destruct r as [[hdr v]|]; [|by apply gives_ret]. apply gives_if; [by apply gives_ret|]. apply gives_then.
  intros [g|]; [|by apply gives_ret]. destruct (qsort_structs_sorts line_compare (lv_lines v)) as (l & E & _ & HS). rewrite E.
  apply gives_ret. intros ? ? [= <- <-]. exists l. split; [done|]. specialize (HS line_compare_orders). clear E.
  induction HS as [|x l Hl IH Hx]; intros i j a b' Hij Ha Hb; [by rewrite lookup_nil in Ha|].
  destruct j as [|j]; [lia|]. cbn in Hb. destruct i as [|i]; cbn in Ha.
  - simplify_eq. rewrite Forall_forall in Hx. specialize (Hx b' ltac:(by eapply list_elem_of_lookup_2)).
    unfold line_compare in Hx. repeat case_match; lia.
  - apply (IH i j); [lia|done|done].
Qed.

(** More functions do not change what there is. *)
Lemma prefix_names all all' : all `prefix_of` all' → keeps_names all all'.
Proof. intros [k ->]. apply keeps_names_app. Qed.

Lemma name_of_prefix d alt all all' i : all `prefix_of` all' → named all i →
  name_of d alt all' (Some i) = name_of d alt all (Some i).
Proof.
  intros [k ->] [p Hp]. rewrite list_lookup_fmap in Hp. unfold name_of. cbn [mbind option_bind].
  destruct (all !! i) as [f|] eqn:E; [|done]. by rewrite lookup_app, E.
Qed.

Lemma by_name_prefix d alt all all' l : all `prefix_of` all' → by_name d alt all l → by_name d alt all' l.
Proof.
  intros Hp [Hn Hs]. split; [eapply Forall_impl; [exact Hn|]; apply (prefix_names _ _ Hp)|].
  induction Hs as [|i l Hl IH Hi]; [constructor|]. apply Forall_cons in Hn as [Hni Hn]. constructor; [by apply IH|].
  rewrite Forall_forall in *. intros j Hj. unfold function_ptr_compare. rewrite !(name_of_prefix d alt all all') by eauto.
  by apply Hi.
Qed.

Lemma unit_ok_prefix d alt all all' ul : all `prefix_of` all' → unit_ok d alt all ul → unit_ok d alt all' ul.
Proof.
  intros Hp [H1 H2 H3]. split; [done| |].
  - eapply table_mono; [by apply prefix_names|done].
  - intros l Hl. eapply by_name_prefix; [done|]. by apply H3.
Qed.

(** [dwarf_read_function_info]: the lines of the unit are there or marked as
    useless; the rest is kept. *)
Definition unit_was_read (d : dwarf_sections) (alt : option altfile) (un : nat) (da : ddata)
    (r : bool * lazy (list line) * ddata) : Prop :=
  let '(new_data, lines, da') := r in
  da_ok d alt da' ∧ da_all da `prefix_of` da_all da' ∧ length (da_units da') = length (da_units da) ∧
  (∀ un', un' ≠ un → da_units da' !! un' = da_units da !! un') ∧
  (∃ ul, da_units da' !! un = Some ul ∧ ul_lines ul = lines) ∧
  match lines with NotRead => False | ReadFailed => new_data = false | Have _ => new_data = true end.

Lemma gives_dwarf_read_function_info d alt units base_address e pagesize threaded lfuel rfuel un u da : da_ok d alt da →
  gives (unit_was_read d alt un da)
    (dwarf_read_function_info d alt units base_address e pagesize threaded lfuel rfuel un u da).
Proof.
  intros [Ha Hf Hu]. unfold dwarf_read_function_info.
  eapply gives_bind; [apply gives_read_line_info|]. intros r Hr.
  set (R := λ r : lazy (list line) * bool * (list addrs * vector addrs * list nat * list function),
    let '(lines, new_data, (faddrs, fvec, ptrs, all)) := r in
    da_all da `prefix_of` all ∧ funcs_ok all ∧ table_ok 0 all faddrs ∧ owned 0 all (items fvec) ∧ Forall (named all) ptrs ∧
    match lines with NotRead => False | ReadFailed => new_data = false | Have t => new_data = true ∧ lines_ok t end).
  apply (gives_bind R).
  { destruct r as [[lhdr lines]|].
    - eapply gives_bind; [apply gives_read_function_info; [done|by destruct threaded; [constructor|]]|].
      intros [[faddrs fvec] st] (H1 & H2 & H3 & H4 & H5). cbn in *. apply gives_ret. cbn.
      split; [done|]. split; [done|]. split; [done|]. split; [destruct threaded; [|done]|].
      + eapply owned_mono; [done|by apply prefix_names|done].
      + split; [done|]. split; [done|]. by eapply Hr.
    - apply gives_ret. cbn. repeat split; try done. by left. }
  intros [[lines new_data] [[[faddrs fvec] ptrs] all]] (H1 & H2 & H3 & H4 & H5 & H6).
  destruct (qsort_structs_sorts (function_ptr_compare d alt all) ptrs) as (l & E & HP & HS).
  eapply gives_bind; [apply gives_lift_res; intros a Ea; exact Ea|]. intros sorted Es. rewrite E in Es. simplify_eq.
  eapply gives_bind; [apply gives_deref|]. intros ul Hul. apply gives_ret.
  pose proof (lookup_lt_Some _ _ _ Hul) as Hlt. split; [|split; [done|]; split; [cbn; by rewrite length_insert|]].
  - split; cbn; try done. intros un' ul' Hul'. destruct (decide (un' = un)) as [->|].
    + rewrite list_lookup_insert_eq in Hul' by done. simplify_eq. split; cbn; [by destruct lines; [| |destruct H6]; intros ? [= <-]|done|].
      intros fs Hfs. assert (fs = sorted) as -> by (destruct sorted; by simplify_eq).
      split; [by rewrite <-HP|]. apply HS, function_ptr_compare_orders.
    + rewrite list_lookup_insert_ne in Hul' by done. eapply unit_ok_prefix; [done|]. by eapply Hu.
  - cbn. split; [intros un' Hne; by rewrite list_lookup_insert_ne|]. split; [|by destruct lines; [| |destruct H6]].
    eexists. split; [by apply list_lookup_insert_eq|]. done.
Qed.
