(* ===== verification/DwarfVars.v ===== *)
(** * Trees of entries, and global variables (src/dwarf/dwarf.c)

    [consume_children] passes over the children of an entry, and
    [_dwarf_iter_global_variables] reports the variables of a unit that have a
    fixed address.

    The tree of entries of a unit is modelled as [die]; [enc_dies] is its
    encoding in .debug_info, for any forms of the attributes. *)

From S2P Require Import Prelude Util Bytes Sort Search BtMmap DwarfBuf DwarfAttr DwarfAbbrev DwarfLine DwarfRange DwarfUnit DwarfFunc.

(** ** Constants *)
Abbreviation DW_TAG_variable := 0x34%Z (only parsing).
Abbreviation DW_AT_sibling := 0x01%Z (only parsing).

Section walk.
Variable dwarf_sections : dwarf_sections.
Variable altlink : option DwarfBuf.dwarf_sections.
Variable base_address : Z.
Variable is_bigendian : bool.

(** The attribute DW_AT_sibling of an entry, 0 if there is none. *)
Definition sibling_attr (a : attr) (val : attr_val) (sibling : Z) : Z :=
  if (at_name a =? DW_AT_sibling) && bool_decide (encoding val = ATTR_VAL_REF_UNIT) then u_uint val else sibling.

(** The result is not used by the callers.  Every entry read starts with a code
    other than 0. *)
Fixpoint consume_children (fuel : nat) (u : dwarf_unit) (sibling_delta : Z) : D Z :=
  b ← gets db;
  if negb (sibling_delta =? 0) then
    let already_consumed := u64 (db_buf b - unit_data u + unit_data_offset u) in
    advance (u64 (sibling_delta - already_consumed));;
    mret 0
  else if negb (0 <? db_left b) then mret 0
  else
    code ← read_uleb128;
    if code =? 0 then mret 0
    else
      abbrev ← lookup_abbrev (abbrevs u) code;
      match abbrev, fuel with
      | None, _ => mret (-1)
      | Some _, O => fail OutOfFuel
      | Some abbrev, S fuel =>
          r ← for_attrs dwarf_sections altlink u tt (λ a val sib, mret (inr (sibling_attr a val sib)))
                (ab_attrs abbrev) 0;
          match r with
          | inl _ => mret 0
          | inr sibling =>
              (if negb (ab_has_children abbrev =? 0) then consume_children fuel u sibling else mret 0);;
              consume_children fuel u 0
          end
      end.

(** ** Global variables

    A call of the callback: the name, the file of the unit and the address. *)
Record variable := mk_variable { var_name : cptr; var_file : option cptr; var_addr : Z }.

(** [variable_name] and [variable_ptr]; an address of 0 is NULL. *)
Record var_regs := mk_var_regs { v_name : option cptr; v_ptr : Z }.
#[export] Instance var_regs_eta : Settable var_regs := λ v, mk_var_regs (v_name v) (v_ptr v).

(** The body of the loop over the attributes. *)
Definition variable_attr (is_variable : bool) (a : attr) (val : attr_val) (v : var_regs) : var_regs :=
  if negb is_variable then v
  else if at_name a =? DW_AT_name then
    match encoding val, DwarfAttr.u val with
    | ATTR_VAL_STRING, U_string (Some p) => v <| v_name := Some p |>
    | _, _ => v
    end
  else if at_name a =? DW_AT_location then
    if bool_decide (encoding val = ATTR_VAL_ADDRESS) then v <| v_ptr := u64 (u_uint val + base_address) |> else v
  else v.

(** [_parse_variable_abbreviation] up to the children; [None] for the result 0. *)
Definition parse_variable_attrs (u : dwarf_unit) (abbrev : abbrev) (v : var_regs) : D (option var_regs) :=
  let is_variable := ab_tag abbrev =? DW_TAG_variable in
  r ← for_attrs dwarf_sections altlink u tt (λ a val v, mret (inr (variable_attr is_variable a val v)))
        (ab_attrs abbrev) v;
  mret (match r with
        | inl _ => None
        | inr v => Some (if is_variable then v else mk_var_regs None 0)
        end).

(** The loop of [_dwarf_iter_global_variables]; the calls of the callback, in
    order.  [_parse_variable_abbreviation] calls it for the children. *)
Fixpoint iter_variables (fuel : nat) (u : dwarf_unit) (v : var_regs) (cb : list variable) : D (list variable) :=
  b ← gets db;
  if negb (0 <? db_left b) then mret cb
  else
    code ← read_uleb128;
    if code =? 0 then mret cb
    else
      abbrev ← lookup_abbrev (abbrevs u) code;
      match abbrev, fuel with
      | None, _ => mret cb
      | Some _, O => fail OutOfFuel
      | Some abbrev, S fuel =>
          r ← parse_variable_attrs u abbrev v;
          match r with
          | None => mret cb
          | Some v =>
              cb ← (if negb (ab_has_children abbrev =? 0) then iter_variables fuel u (mk_var_regs None 0) cb
                    else mret cb);
              let is_variable := ab_tag abbrev =? DW_TAG_variable in
              let cb :=
                match v_name v with
                | Some name =>
                    if is_variable && negb (v_ptr v =? 0) then cb ++ [mk_variable name (unit_filename u) (v_ptr v)] else cb
                | None => cb
                end in
              iter_variables fuel u v cb
          end
      end.

(** The call for a whole unit, [buf_ptr == NULL]. *)
Definition _dwarf_iter_global_variables (u : dwarf_unit) (cb : list variable) : D (list variable) :=
  '(cb, _) ← on_buf (unit_buf_at dwarf_sections is_bigendian u 0)
    (iter_variables (length (dwarf_sections DEBUG_INFO)) u (mk_var_regs None 0) cb);
  mret cb.

(** [dwarf_iter_global_variables] for the units of one file. *)
Fixpoint iter_units_variables (us : list dwarf_unit) (cb : list variable) : D (list variable) :=
  match us with
  | [] => mret cb
  | u :: us => cb ← _dwarf_iter_global_variables u cb; iter_units_variables us cb
  end.

Definition dwarf_iter_global_variables (us : list dwarf_unit) : D (list variable) := iter_units_variables us [].
End walk.

(** ** Trees of entries

    The entries of one level: the first entry with its abbreviation and the
    bytes and values of its attributes, its children, and the entries after
    it. *)
Inductive dies :=
  | No_dies
  | Die (a : abbrev) (vals : list (list Z * attr_val)) (children siblings : dies).

Fixpoint enc_dies (t : dies) : list Z :=
  match t with
  | No_dies => []
  | Die a vals children siblings =>
      uleb128_enc 9 (ab_code a) ++ concat (vals.*1) ++
      (if ab_has_children a =? 0 then [] else enc_dies children ++ [0]) ++ enc_dies siblings
  end.

Fixpoint dies_count (t : dies) : nat :=
  match t with
  | No_dies => 0
  | Die _ _ children siblings => S (dies_count children + dies_count siblings)
  end.

(** What a loop over the attributes computes from the values. *)
Fixpoint fold_attrs {A} (f : attr → attr_val → A → A) (attrs : list attr) (vals : list attr_val) (st : A) : A :=
  match attrs, vals with
  | a :: attrs, v :: vals => fold_attrs f attrs vals (f a v st)
  | _, _ => st
  end.

Section trees.
Variables (d : dwarf_sections) (altlink : option dwarf_sections) (e : bool) (u : dwarf_unit).

(** [runs_at p bs v m]: where the bytes [bs] stand at the offset [p] of .debug_info,
    [m] returns [v] and consumes exactly them. *)
Definition runs_at {A} (p : Z) (bs : list Z) (v : A) (m : D A) : Prop :=
  ∀ s rest, wf_buf (db s) → allocs s = [] → db_is_bigendian (db s) = e → db_name (db s) = DEBUG_INFO →
    db_buf (db s) = p → unread s = bs ++ rest → m s = Ok (v, moved (Z.of_nat (length bs)) s).

Lemma runs_at_of {A} p bs (v : A) m : runs_as e bs v m → runs_at p bs v m.
Proof. intros H s rest Hs Ha He _ _ Hu. by eapply H. Qed.

Lemma runs_at_bind {A B} p bs1 bs2 (v : A) (w : B) m k :
  runs_at p bs1 v m → runs_at (p + Z.of_nat (length bs1)) bs2 w (k v) → runs_at p (bs1 ++ bs2) w (m ≫= k).
Proof.
  intros H1 H2 s rest Hs Ha He Hn Hp Hu. rewrite <-app_assoc in Hu. rewrite (bind_ok _ _ _ _ _ (H1 s _ Hs Ha He Hn Hp Hu)).
  destruct (unread_after s bs1 _ Hs Hu) as [Hs1 Hu1]. rewrite (H2 _ _ Hs1 Ha He Hn ltac:(cbn; lia) Hu1), moved_moved, length_app.
  do 3 f_equal. lia.
Qed.

(** The bytes of each attribute, from the offset [p] on, are read as its value. *)
Fixpoint vals_ok (p : Z) (attrs : list attr) (vals : list (list Z * attr_val)) : Prop :=
  match attrs, vals with
  | [], [] => True
  | a :: attrs, (bs, v) :: vals =>
      runs_at p bs (true, v)
        (read_attribute d altlink (at_name a) (at_form a) (u64 (at_val a)) (is_dwarf64 u) (version u) (addrsize u)) ∧
      vals_ok (p + Z.of_nat (length bs)) attrs vals
  | _, _ => False
  end.

(** The entries, from the offset [p] on. *)
Fixpoint dies_ok (p : Z) (t : dies) : Prop :=
  match t with
  | No_dies => True
  | Die a vals children siblings =>
      let p1 := p + Z.of_nat (length (uleb128_enc 9 (ab_code a))) in
      let p2 := p1 + Z.of_nat (length (concat (vals.*1))) in
      0 < ab_code a < 2^64 ∧ (∀ s, lookup_abbrev (abbrevs u) (ab_code a) s = Ok (Some a, s)) ∧
      vals_ok p1 (ab_attrs a) vals ∧
      (if ab_has_children a =? 0 then children = No_dies ∧ dies_ok p2 siblings
       else dies_ok p2 children ∧ dies_ok (p2 + Z.of_nat (length (enc_dies children)) + 1) siblings)
  end.

Lemma for_attrs_run {A B} (bad : B) (step : attr → attr_val → A → D (B + A)) (f : attr → attr_val → A → A) attrs :
  (∀ a val st s, allocs s = [] → step a val st s = Ok (inr (f a val st), s)) →
  ∀ p vals st, vals_ok p attrs vals →
  runs_at p (concat (vals.*1)) (inr (fold_attrs f attrs (vals.*2) st)) (for_attrs d altlink u bad step attrs st).
Proof.
  intros Hstep. induction attrs as [|a attrs IH]; intros p vals st Hv; destruct vals as [|[bs v] vals]; try done.
  - apply runs_at_of, runs_as_ret.
  - destruct Hv as [Ha Hvs]. cbn [for_attrs fmap list_fmap concat fst snd fold_attrs].
    eapply (runs_at_bind _ _ _ (true, v)); [exact Ha|]. cbn [negb]. intros s rest Hs Hal He Hn Hp Hu.
    rewrite (bind_ok _ _ _ _ _ (Hstep a v st s Hal)). by eapply IH.
Qed.
End trees.

(** ** What is reported *)

Section variables.
Variables (d : dwarf_sections) (altlink : option dwarf_sections) (base_address : Z) (e : bool) (u : dwarf_unit).

(** The registers after an entry. *)
Definition regs_after (a : abbrev) (vals : list (list Z * attr_val)) (v : var_regs) : var_regs :=
  let is_variable := ab_tag a =? DW_TAG_variable in
  if is_variable then fold_attrs (variable_attr base_address is_variable) (ab_attrs a) (vals.*2) v
  else mk_var_regs None 0.

(** The call for an entry. *)
Definition report (a : abbrev) (v : var_regs) : list variable :=
  match v_name v with
  | Some name =>
      if (ab_tag a =? DW_TAG_variable) && negb (v_ptr v =? 0) then [mk_variable name (unit_filename u) (v_ptr v)] else []
  | None => []
  end.

(** The calls of the code, where the registers of an entry start from those of
    the entry before. *)
Fixpoint reported (v : var_regs) (t : dies) : list variable :=
  match t with
  | No_dies => []
  | Die a vals children siblings =>
      let v := regs_after a vals v in
      (if ab_has_children a =? 0 then [] else reported (mk_var_regs None 0) children) ++ report a v ++ reported v siblings
  end.

(** The variables of the tree: the entries that have a name and an address of
    their own. *)
Fixpoint variables_of (t : dies) : list variable :=
  match t with
  | No_dies => []
  | Die a vals children siblings =>
      (if ab_has_children a =? 0 then [] else variables_of children) ++
      report a (regs_after a vals (mk_var_regs None 0)) ++ variables_of siblings
  end.

(** Every variable has a name and an address other than NULL. *)
Fixpoint complete (t : dies) : Prop :=
  match t with
  | No_dies => True
  | Die a vals children siblings =>
      (ab_tag a = DW_TAG_variable →
         v_name (regs_after a vals (mk_var_regs None 0)) ≠ None ∧ v_ptr (regs_after a vals (mk_var_regs None 0)) ≠ 0) ∧
      complete children ∧ complete siblings
  end.

(** A register set by the entry itself does not depend on the one before. *)
Lemma variable_attrs_set attrs vals v v' :
  let r := fold_attrs (variable_attr base_address true) attrs vals v in
  let r' := fold_attrs (variable_attr base_address true) attrs vals v' in
  (v_name r = v_name r' ∨ v_name r = v_name v ∧ v_name r' = v_name v') ∧
  (v_ptr r = v_ptr r' ∨ v_ptr r = v_ptr v ∧ v_ptr r' = v_ptr v').
Proof.
  revert vals v v'. induction attrs as [|a attrs IH]; intros vals v v'; [cbn; tauto|]. destruct vals as [|val vals]; [cbn; tauto|].
  cbn [fold_attrs]. specialize (IH vals (variable_attr base_address true a val v) (variable_attr base_address true a val v')).
  cbv zeta in *. destruct IH as [Hn Hp].
  assert ((v_name (variable_attr base_address true a val v) = v_name (variable_attr base_address true a val v') ∨
           v_name (variable_attr base_address true a val v) = v_name v ∧ v_name (variable_attr base_address true a val v') = v_name v') ∧
          (v_ptr (variable_attr base_address true a val v) = v_ptr (variable_attr base_address true a val v') ∨
           v_ptr (variable_attr base_address true a val v) = v_ptr v ∧ v_ptr (variable_attr base_address true a val v') = v_ptr v')) as [Hn' Hp'].
  { unfold variable_attr. cbn [negb]. destruct (at_name a =? 3); [destruct (encoding val), (DwarfAttr.u val) as [| |[]]; cbn; tauto|].
    destruct (at_name a =? 2); [case_bool_decide; cbn; tauto|tauto]. }
  split; [destruct Hn as [|[-> ->]]|destruct Hp as [|[-> ->]]]; tauto.
Qed.

Lemma regs_after_complete a vals v :
  (ab_tag a = DW_TAG_variable →
     v_name (regs_after a vals (mk_var_regs None 0)) ≠ None ∧ v_ptr (regs_after a vals (mk_var_regs None 0)) ≠ 0) →
  regs_after a vals v = regs_after a vals (mk_var_regs None 0).
Proof.
  unfold regs_after. destruct (Z.eqb_spec (ab_tag a) DW_TAG_variable); [|done]. intros H. destruct (H e0) as [H1 H2].
  destruct (variable_attrs_set (ab_attrs a) (vals.*2) v (mk_var_regs None 0)) as [Hn Hp]. cbv zeta in *.
  destruct (fold_attrs _ _ _ v) as [n1 p1], (fold_attrs _ _ _ (mk_var_regs None 0)) as [n2 p2]. cbn in *.
  f_equal; [destruct Hn as [?|[_ ?]]|destruct Hp as [?|[_ ?]]]; done.
Qed.

Lemma reported_complete t : ∀ v, complete t → reported v t = variables_of t.
Proof.
  induction t as [|a vals c IHc s IHs]; intros v; [done|]. cbn [complete reported variables_of]. intros (H & Hc & Hs).
  rewrite (regs_after_complete a vals v H), IHs by done. by rewrite IHc by done.
Qed.

Lemma uleb128_enc_ne fuel z : uleb128_enc fuel z ≠ [].
Proof. destruct fuel; cbn; [done|]. by destruct (z <? 128). Qed.

(** The attributes of an entry, where they stand. *)
Lemma parse_variable_run p a vals v : vals_ok d altlink e u p (ab_attrs a) vals →
  runs_at e p (concat (vals.*1)) (Some (regs_after a vals v)) (parse_variable_attrs d altlink base_address u a v).
Proof.
  intros Hv s rest Hs Ha He Hn Hp Hu. unfold parse_variable_attrs.
  rewrite (bind_ok _ _ _ _ _ (for_attrs_run d altlink e u tt _ (variable_attr base_address (ab_tag a =? DW_TAG_variable))
    (ab_attrs a) (λ _ _ _ _ _, eq_refl) p vals v Hv s rest Hs Ha He Hn Hp Hu)).
  unfold regs_after. by destruct (ab_tag a =? 52).
Qed.

(** The end of a level: a code 0. *)
Lemma iter_variables_zero fuel v cb s rest : wf_buf (db s) → unread s = 0 :: rest →
  iter_variables d altlink base_address fuel u v cb s = Ok (cb, moved 1 s).
Proof.
  intros Hs Hu. pose proof (unread_length s Hs) as Hl. rewrite Hu in Hl. cbn in Hl.
  destruct fuel; cbn [iter_variables]; rewrite bind_ok with (a := db s) (s1 := s) by done;
    replace (0 <? db_left (db s)) with true by lia; cbn [negb];
    by rewrite (bind_ok _ _ _ _ _ (reads_as_zero s rest Hs Hu)).
Qed.

(** The loop over the entries of a level. *)
Lemma iter_variables_run t : ∀ fuel v cb s rest,
  dies_ok d altlink e u (db_buf (db s)) t → (dies_count t ≤ fuel)%nat → wf_buf (db s) → allocs s = [] →
  db_is_bigendian (db s) = e → db_name (db s) = DEBUG_INFO → unread s = enc_dies t ++ rest →
  ∃ fuel' v', iter_variables d altlink base_address fuel u v cb s
    = iter_variables d altlink base_address fuel' u v' (cb ++ reported v t)
        (moved (Z.of_nat (length (enc_dies t))) s).
Proof.
  induction t as [|a vals c IHc sb IHs]; intros fuel v cb s rest Hok Hf Hs Ha He Hn Hu.
  { exists fuel, v. cbn. by rewrite app_nil_r, moved_0. }
  destruct Hok as (Hcode & Hlk & Hv & Hk). cbn [dies_count] in Hf. destruct fuel as [|fuel]; [lia|].
  cbn [enc_dies] in Hu |- *. rewrite <-!app_assoc in Hu. cbn [iter_variables].
  rewrite bind_ok with (a := db s) (s1 := s) by done.
  assert (0 < db_left (db s)) as Hl.
  { pose proof (unread_length s Hs) as Hl. rewrite Hu, length_app in Hl.
    pose proof (uleb128_enc_ne 9 (ab_code a)). destruct (uleb128_enc 9 (ab_code a)); [done|]. cbn in Hl. lia. }
  replace (0 <? db_left (db s)) with true by lia. cbn [negb].
  rewrite (bind_ok _ _ _ _ _ (reads_as_uleb (ab_code a) ltac:(lia) s _ Hs Hu)). replace (ab_code a =? 0) with false by lia.
  destruct (unread_after s _ _ Hs Hu) as [Hs1 Hu1]. set (s1 := moved _ s) in *.
  rewrite (bind_ok _ _ _ _ _ (Hlk s1)).
  rewrite (bind_ok _ _ _ _ _ (parse_variable_run _ a vals v Hv s1 _ Hs1 Ha He Hn eq_refl Hu1)).
  destruct (unread_after s1 _ _ Hs1 Hu1) as [Hs2 Hu2]. set (s2 := moved _ s1) in *.
  set (v1 := regs_after a vals v).
  set (kids := if ab_has_children a =? 0 then [] else enc_dies c ++ [0]) in *.
  assert (∃ s3, (if negb (ab_has_children a =? 0) then iter_variables d altlink base_address fuel u (mk_var_regs None 0) cb
      else mret cb) s2 = Ok (cb ++ (if ab_has_children a =? 0 then [] else reported (mk_var_regs None 0) c), s3) ∧
      s3 = moved (Z.of_nat (length kids)) s2) as (s3 & E3 & Es3).
  { subst kids. destruct (ab_has_children a =? 0); cbn [negb].
    - eexists. split; [by rewrite app_nil_r|]. cbn. by rewrite moved_0.
    - rewrite <-app_assoc in Hu2. destruct Hk as [Hc _].
      destruct (IHc fuel (mk_var_regs None 0) cb s2 _ Hc ltac:(lia) Hs2 Ha He Hn Hu2) as (f' & v' & ->).
      destruct (unread_after s2 _ _ Hs2 Hu2) as [Hs3 Hu3].
      eexists. split; [by erewrite iter_variables_zero|]. rewrite moved_moved, length_app. cbn. f_equal. lia. }
  rewrite (bind_ok _ _ _ _ _ E3). destruct (unread_after s2 kids _ Hs2 Hu2) as [Hs3 Hu3]. rewrite <-Es3 in Hs3, Hu3. subst s3.
  cbv zeta. set (cb1 := match v_name v1 with Some _ => _ | None => _ end).
  assert (dies_ok d altlink e u (db_buf (db (moved (Z.of_nat (length kids)) s2))) sb) as Hsb.
  { subst kids. cbv zeta in Hk. destruct (ab_has_children a =? 0); destruct Hk as [_ Hk]; subst s2 s1; cbn in *.
    - by rewrite Z.add_0_r.
    - rewrite length_app. cbn. by rewrite Nat2Z.inj_add, Z.add_assoc. }
  destruct (IHs fuel v1 cb1 _ rest Hsb ltac:(lia) Hs3 Ha He Hn Hu3) as (f' & v' & ->). exists f', v'.
  f_equal.
  - subst cb1. cbn [reported]. fold v1. unfold report. destruct (v_name v1); [|by rewrite <-!app_assoc].
    destruct (_ && _); by rewrite <-!app_assoc.
  - subst s2 s1. rewrite !moved_moved, !length_app. f_equal. lia.
Qed.

Lemma dies_count_le t : ∀ p, dies_ok d altlink e u p t → (dies_count t ≤ length (enc_dies t))%nat.
Proof.
  induction t as [|a vals c IHc sb IHs]; [done|]. intros p (_ & _ & _ & Hk). cbn [dies_count enc_dies]. rewrite !length_app.
  pose proof (uleb128_enc_ne 9 (ab_code a)) as Hne. destruct (uleb128_enc 9 (ab_code a)); [done|]. cbn [length].
  destruct (ab_has_children a =? 0); destruct Hk as [Hc Hs]; specialize (IHs _ Hs).
  - subst c. cbn. lia.
  - specialize (IHc _ Hc). rewrite length_app. lia.
Qed.

(** The data of the unit are the entries [t]. *)
Definition unit_holds (t : dies) : Prop :=
  0 ≤ unit_data u ∧ 0 ≤ unit_data_len u ∧ unit_data u + unit_data_len u ≤ sec_size d DEBUG_INFO ∧
  take (Z.to_nat (unit_data_len u)) (drop (Z.to_nat (unit_data u)) (d DEBUG_INFO)) = enc_dies t.

Lemma iter_unit_run t cb s :
  sections_ok d → unit_holds t → dies_ok d altlink e u (unit_data u) t → allocs s = [] →
  _dwarf_iter_global_variables d altlink base_address e u cb s = Ok (cb ++ reported (mk_var_regs None 0) t, s).
Proof.
  intros Hd (H1 & H2 & H3 & Ht) Hok Ha. unfold _dwarf_iter_global_variables.
  set (b := unit_buf_at d e u 0). destruct (Hd DEBUG_INFO) as [Hb Hlt].
  assert (wf_buf b) as Hw by (subst b; unfold unit_buf_at, sec_size in *; split; [done|]; cbn; lia).
  set (s1 := s <| db := b |>). assert (unread s1 = enc_dies t ++ []) as Hu.
  { rewrite app_nil_r. unfold unread. subst s1 b. cbn. by rewrite Z.sub_0_r, Z.add_0_r. }
  assert (dies_count t ≤ length (d DEBUG_INFO))%nat as Hf.
  { pose proof (dies_count_le t _ Hok) as Hle. apply (f_equal length) in Ht. rewrite length_take, length_drop in Ht. lia. }
  destruct (iter_variables_run t (length (d DEBUG_INFO)) (mk_var_regs None 0) cb s1 []) as (f' & v' & E); try done.
  { subst s1 b. cbn. by rewrite Z.add_0_r. }
  edestruct (on_buf_back (cb ++ reported (mk_var_regs None 0) t)
    (iter_variables d altlink base_address (length (d DEBUG_INFO)) u (mk_var_regs None 0) cb) b s) as [b' E'].
  - fold s1. rewrite E. assert (db_left (db (moved (Z.of_nat (length (enc_dies t))) s1)) = 0) as Hl.
    { pose proof (unread_length s1 Hw) as Hl. rewrite Hu, app_nil_r in Hl. subst s1 b. cbn in *. lia. }
    destruct f'; cbn [iter_variables]; (erewrite bind_ok by reflexivity); rewrite Hl; reflexivity.
  - subst s1. apply set_db_moved.
  - by rewrite (bind_ok _ _ _ _ _ E').
Qed.
End variables.

(** C15. The global variables of a unit are reported: for a unit whose data encode
    a tree of entries, in any forms of attributes and nested to any depth, the
    callback is called as [reported] says, children before their entry, siblings
    in order; and if every variable of the tree has a name and an address, that is
    exactly for the variables, each with its own name and address, moved to where
    the file is loaded. *)
Theorem global_variables_reported d altlink base_address e u t cb s :
  sections_ok d → unit_holds d u t → dies_ok d altlink e u (unit_data u) t → allocs s = [] →
  _dwarf_iter_global_variables d altlink base_address e u cb s = Ok (cb ++ reported base_address u (mk_var_regs None 0) t, s) ∧
  (complete base_address t → reported base_address u (mk_var_regs None 0) t = variables_of base_address u t).
Proof.
  intros Hd Hu Ht Ha. split; [exact (iter_unit_run d altlink base_address e u t cb s Hd Hu Ht Ha)|].
  exact (reported_complete base_address u t _).
Qed.

(** ** Examples *)
Section forms.
Variables (d : dwarf_sections) (altlink : option dwarf_sections) (e : bool) (name : Z) (d64 : bool) (ver asz : Z).

Lemma form_string_run p str : Forall (λ c, c ≠ 0) str →
  runs_at e p (str ++ [0]) (true, mk_attr_val ATTR_VAL_STRING (U_string (Some (InSection false DEBUG_INFO p))))
    (read_attribute d altlink name DW_FORM_string 0 d64 ver asz).
Proof.
  intros Hstr s rest Hs Ha He Hn Hp Hu. rewrite <-app_assoc in Hu. cbn in Hu.
  change (read_attribute d altlink name DW_FORM_string 0 d64 ver asz s) with (read_inline_string s). unfold read_inline_string.
  rewrite (bind_ok _ _ _ _ _ (read_string_at s str rest Hs Hstr Hu)). erewrite bind_ok by reflexivity. cbn. rewrite Hn, Hp.
  by rewrite length_app, Nat2Z.inj_add.
Qed.

Lemma form_exprloc_addr_run p a : 0 ≤ a < 2^64 →
  runs_at e p ([9; DW_OP_addr] ++ enc_fixed e 8 a) (true, val_uint ATTR_VAL_ADDRESS a)
    (read_attribute d altlink name DW_FORM_exprloc 0 d64 ver 8).
Proof.
  intros Ha. apply runs_at_of.
  change (read_attribute d altlink name DW_FORM_exprloc 0 d64 ver 8) with (read_location_attr val0 8). unfold read_location_attr.
  change ([9; 3] ++ enc_fixed e 8 a) with ([9] ++ [3] ++ enc_fixed e 8 a).
  eapply (runs_as_bind _ _ _ 9); [apply runs_as_of, reads_as_byte|]. cbn [Z.eqb].
  eapply (runs_as_bind _ _ _ 3); [apply runs_as_of, reads_as_byte|]. cbn [Z.eqb negb orb].
  change (u8 (9 - 1)) with 8. cbv zeta. cbn [Z.eqb Pos.eqb negb orb].
  eapply runs_as_last; [by apply runs_as_uint64|]. done.
Qed.
End forms.

(** A unit with the variable "a" at 0x1000; and one that has behind it the
    variable "b" on the stack. *)
Definition var_abbrev : abbrev := mk_abbrev 2 DW_TAG_variable 0 [mk_attr DW_AT_name DW_FORM_string 0; mk_attr DW_AT_location DW_FORM_exprloc 0].
Definition unit_abbrev : abbrev := mk_abbrev 1 DW_TAG_compile_unit 1 [].
Definition val_a (p : Z) : list (list Z * attr_val) :=
  [([97; 0], mk_attr_val ATTR_VAL_STRING (U_string (Some (InSection false DEBUG_INFO p))));
   ([9; DW_OP_addr] ++ enc_fixed false 8 0x1000, val_uint ATTR_VAL_ADDRESS 0x1000)].
Definition val_b (p : Z) : list (list Z * attr_val) :=
  [([98; 0], mk_attr_val ATTR_VAL_STRING (U_string (Some (InSection false DEBUG_INFO p))));
   ([2; 0x91; 100], mk_attr_val ATTR_VAL_EXPR (U_uint 0))].
Definition example_dies : dies := Die unit_abbrev [] (Die var_abbrev (val_a 2) No_dies No_dies) No_dies.
Definition stale_dies : dies :=
  Die unit_abbrev [] (Die var_abbrev (val_a 2) No_dies (Die var_abbrev (val_b 15) No_dies No_dies)) No_dies.

Definition dies_unit (t : dies) : dwarf_unit :=
  mk_unit 0 (Z.of_nat (length (enc_dies t))) 0 0 0 5 false 8 0 0 0 0 None None None [unit_abbrev; var_abbrev].
Definition dies_sections (t : dies) : dwarf_sections := example_sections (enc_dies t).

Lemma example_dies_ok :
  dies_ok (dies_sections example_dies) None false (dies_unit example_dies) 0 example_dies.
Proof.
  cbn [dies_ok]. repeat split; try done. apply form_string_run with (str := [97]); by repeat constructor.
  by apply form_exprloc_addr_run.
Qed.

Lemma global_variables_reported_witness :
  _dwarf_iter_global_variables (dies_sections example_dies) None 0x400000 false (dies_unit example_dies) [] (witness_state []) =
    Ok ([] ++ reported 0x400000 (dies_unit example_dies) (mk_var_regs None 0) example_dies, witness_state []) ∧
  reported 0x400000 (dies_unit example_dies) (mk_var_regs None 0) example_dies =
    [mk_variable (InSection false DEBUG_INFO 2) None 0x401000].
Proof.
  destruct (global_variables_reported (dies_sections example_dies) None 0x400000 false (dies_unit example_dies) example_dies []
    (witness_state [])) as [E1 E2].
  - apply sections_ok_example; [|done]. apply (bool_decide_unpack _). vm_compute. exact I.
  - by vm_compute.
  - apply example_dies_ok.
  - done.
  - split; [exact E1|]. rewrite E2; [by vm_compute|]. by vm_compute.
Defined.

(** The variable "b", on the stack, is reported with the address of "a". *)
Lemma variable_on_stack_reported :
  (λ r, match r with Ok (vs, _) => vs | Err _ => [] end)
    (_dwarf_iter_global_variables (dies_sections stale_dies) None 0x400000 false (dies_unit stale_dies) [] (witness_state [])) =
  [mk_variable (InSection false DEBUG_INFO 2) None 0x401000; mk_variable (InSection false DEBUG_INFO 15) None 0x401000].
Proof. vm_compute. reflexivity. Qed.
