(* ===== verification/DwarfTypes.v ===== *)
(** * The types of functions as strings (src/dwarf/dwarf.c)

    [dwarf_form_type_strings] writes the type of a function's result and the types
    of its parameters into two buffers, following the references between the
    entries ([form_type_string], [form_array], [form_args_string]).

    A buffer is the list of its bytes, and a pointer into it is an offset.  The
    room left, [rem], is counted by the caller of each routine on its own. *)

From S2P Require Import Prelude Util Bytes Sort Search BtMmap DwarfBuf DwarfAttr DwarfAbbrev DwarfLine DwarfRange DwarfUnit DwarfFunc DwarfVars.

(** ** Constants *)
Abbreviation DW_TAG_array_type := 0x01%Z (only parsing).
Abbreviation DW_TAG_enumeration_type := 0x04%Z (only parsing).
Abbreviation DW_TAG_formal_parameter := 0x05%Z (only parsing).
Abbreviation DW_TAG_pointer_type := 0x0f%Z (only parsing).
Abbreviation DW_TAG_structure_type := 0x13%Z (only parsing).
Abbreviation DW_TAG_subroutine_type := 0x15%Z (only parsing).
Abbreviation DW_TAG_typedef := 0x16%Z (only parsing).
Abbreviation DW_TAG_union_type := 0x17%Z (only parsing).
Abbreviation DW_TAG_lexical_block := 0x0b%Z (only parsing).
Abbreviation DW_TAG_subrange_type := 0x21%Z (only parsing).
Abbreviation DW_TAG_unspecified_parameters := 0x18%Z (only parsing).
Abbreviation DW_TAG_base_type := 0x24%Z (only parsing).
Abbreviation DW_TAG_const_type := 0x26%Z (only parsing).
Abbreviation DW_TAG_volatile_type := 0x35%Z (only parsing).
Abbreviation DW_AT_upper_bound := 0x2f%Z (only parsing).
Abbreviation DW_AT_type := 0x49%Z (only parsing).

(** ** Appending *)

(** The string at an offset of a buffer. *)
Definition string_at (b : list Z) (p : nat) : D (list Z) := lift_res (until_nul (drop p b)).

(** [strcpy (b + p, str)] *)
Definition strcpy (b : list Z) (p : nat) (str : list Z) : D (list Z) :=
  if (p + length str + 1 <=? length b)%nat then mret (take p b ++ str ++ [0] ++ drop (p + length str + 1) b)
  else fail OutOfBounds.

(** A buffer, a pointer into it and the room left. *)
Record cursor := mk_cursor { c_buf : list Z; c_ptr : nat; c_rem : Z }.
#[export] Instance cursor_eta : Settable cursor := λ c, mk_cursor (c_buf c) (c_ptr c) (c_rem c).

Definition append (str : list Z) (c : cursor) : D cursor :=
  if Z.of_nat (length str) <? c_rem c then
    here ← string_at (c_buf c) (c_ptr c);
    b ← strcpy (c_buf c) (c_ptr c + length here) str;
    mret (mk_cursor b (c_ptr c + length str) (u32 (c_rem c - Z.of_nat (length str))))
  else fail Assertion.

(** A string that may be NULL. *)
Definition append_name (sections : dwarf_sections) (altlink : option dwarf_sections) (name : option cptr) (c : cursor)
    : D cursor :=
  match name with
  | None => fail NullDeref
  | Some p => str ← string_of sections altlink p; append str c
  end.

(** [n] in base [base], at most [fuel] + 1 digits. *)
Fixpoint digits (fuel : nat) (base n : Z) : list Z :=
  let d := if n mod base <? 10 then 48 + n mod base else 87 + n mod base in
  match fuel with
  | O => [d]
  | S fuel => if n <? base then [d] else digits fuel base (n / base) ++ [d]
  end.

(** [sprintf (buf, "%ld", n)] and [sprintf (buf, "<tag:%x>", tag)] *)
Definition dec_string (n : Z) : list Z := if n <? 0 then 45 :: digits 19 10 (- n) else digits 19 10 n.
Definition tag_string (tag : Z) : list Z := string_bytes "<tag:" ++ digits 7 16 (u32 tag) ++ [62].

(** ** Attributes *)

(** What an entry of a type or a parameter has: [ref] and [size] are -1 and
    [sibling] is 0 if there is none. *)
Record type_attrs := mk_type_attrs { ta_name : option cptr; ta_ref : Z; ta_size : Z; ta_sibling : Z }.
#[export] Instance type_attrs_eta : Settable type_attrs := λ t, mk_type_attrs (ta_name t) (ta_ref t) (ta_size t) (ta_sibling t).
Definition type_attrs0 : type_attrs := mk_type_attrs None (-1) (-1) 0.

Definition type_attr (a : attr) (val : attr_val) (st : type_attrs) : type_attrs :=
  let is_ref := bool_decide (encoding val = ATTR_VAL_REF_UNIT) in
  if at_name a =? DW_AT_name then
    match encoding val, DwarfAttr.u val with
    | ATTR_VAL_STRING, U_string (Some p) => st <| ta_name := Some p |>
    | _, _ => st
    end
  else if at_name a =? DW_AT_type then if is_ref then st <| ta_ref := s64 (u_uint val) |> else st
  else if at_name a =? DW_AT_upper_bound then
    if bool_decide (encoding val = ATTR_VAL_UINT) then st <| ta_size := s64 (u_uint val) |> else st
  else if at_name a =? DW_AT_sibling then if is_ref then st <| ta_sibling := u_uint val |> else st
  else st.

Section types.
Variable dwarf_sections : dwarf_sections.
Variable altlink : option DwarfBuf.dwarf_sections.
Variable is_bigendian : bool.
Variable u : dwarf_unit.

Definition read_type_attrs (abbrev : abbrev) : D (unit + type_attrs) :=
  for_attrs dwarf_sections altlink u tt (λ a val st, mret (inr (type_attr a val st))) (ab_attrs abbrev) type_attrs0.

(** Over the children of a child. *)
Definition skip_children (abbrev : abbrev) (sibling : Z) : D unit :=
  if ab_has_children abbrev =? 0 then mret tt
  else
    b ← gets db;
    consume_children dwarf_sections altlink (length (db_start b)) u sibling;;
    mret tt.

(** The loops are given [form_type_string (ddata, u, offset, ret, ret, rem)] as
    [rec offset c]. *)
Section loops.
Variable rec : Z → cursor → D (list Z).

(** The bounds of an array; every round reads a code other than 0. *)
Fixpoint form_array (fuel : nat) (c : cursor) : D (list Z) :=
  b ← gets db;
  if negb (0 <? db_left b) then mret (c_buf c)
  else
    code ← read_uleb128;
    if code =? 0 then mret (c_buf c)
    else
      abbrev ← lookup_abbrev (abbrevs u) code;
      match abbrev, fuel with
      | None, _ => mret (c_buf c)
      | Some _, O => fail OutOfFuel
      | Some abbrev, S fuel =>
          r ← read_type_attrs abbrev;
          match r with
          | inl _ => mret (c_buf c)
          | inr t =>
              b ← (if negb (ta_ref t =? -1) then rec (u64 (ta_ref t)) c else mret (c_buf c));
              c ← append [91] (c <| c_buf := b |>);
              c ← (if negb (ta_size t =? -1) then
                     if ta_size t =? 2^63 - 1 then fail SignedOverflow else append (dec_string (ta_size t + 1)) c
                   else mret c);
              c ← append [93] c;
              skip_children abbrev (ta_sibling t);;
              form_array fuel c
          end
      end.

(** ", " from the second parameter on. *)
Definition args_separator (first : bool) (c : cursor) : D cursor :=
  if first then mret c else append [44; 32] c.

(** [if (!*args) append(&args, &args_maxlen, "void")] *)
Definition args_end (c : cursor) : D (list Z) :=
  ch ← array_get (c_buf c) (Z.of_nat (c_ptr c));
  if ch =? 0 then c ← append (string_bytes "void") c; mret (c_buf c) else mret (c_buf c).

(** The [switch] over the parameters: [first] and the cursor after it. *)
Definition arg_string (abbrev : abbrev) (t : type_attrs) (first : bool) (c : cursor) : D (bool * cursor) :=
  if ab_tag abbrev =? DW_TAG_formal_parameter then
    c ← args_separator first c;
    b ← (if negb (ta_ref t =? -1) then rec (u64 (ta_ref t)) c else mret (c_buf c));
    mret (false, c <| c_buf := b |>)
  else if ab_tag abbrev =? DW_TAG_unspecified_parameters then
    c ← args_separator first c;
    c ← append (string_bytes "...") c;
    mret (false, c)
  else mret (first, c).

(** The parameters; every round reads a code other than 0. *)
Fixpoint form_args_string (fuel : nat) (first : bool) (c : cursor) : D (list Z) :=
  b ← gets db;
  if negb (0 <? db_left b) then args_end c
  else
    code ← read_uleb128;
    if code =? 0 then args_end c
    else
      abbrev ← lookup_abbrev (abbrevs u) code;
      match abbrev, fuel with
      | None, _ => mret (c_buf c)
      | Some _, O => fail OutOfFuel
      | Some abbrev, S fuel =>
          r ← read_type_attrs abbrev;
          match r with
          | inl _ => mret (c_buf c)
          | inr t =>
              '(first, c) ← arg_string abbrev t first c;
              skip_children abbrev (ta_sibling t);;
              form_args_string fuel first c
          end
      end.

(** The first [switch] of [form_type_string]: the cursor to go on with, or the
    buffer of a type that is complete. *)
Definition type_prefix (abbrev : abbrev) (t : type_attrs) (c : cursor) : D (list Z + cursor) :=
  let tag := ab_tag abbrev in
  let name := append_name dwarf_sections altlink (ta_name t) in
  let named kw := c ← append (string_bytes kw) c; c ← name c; mret (inl (c_buf c)) in
  if tag =? DW_TAG_const_type then c ← append (string_bytes "const ") c; mret (inr c)
  else if (tag =? DW_TAG_pointer_type) || (tag =? DW_TAG_subroutine_type) then mret (inr c)
  else if tag =? DW_TAG_array_type then
    if ab_has_children abbrev =? 0 then c ← append [91; 93] c; mret (inl (c_buf c))
    else
      b ← gets db;
      b ← form_array (length (db_start b)) c;
      mret (inl b)
  else if tag =? DW_TAG_union_type then named "union "
  else if tag =? DW_TAG_structure_type then named "struct "
  else if (tag =? DW_TAG_base_type) || (tag =? DW_TAG_typedef) then c ← name c; mret (inl (c_buf c))
  else if tag =? DW_TAG_enumeration_type then named "enum "
  else if tag =? DW_TAG_volatile_type then c ← append (string_bytes "volatile ") c; mret (inr c)
  else
    c ← append (tag_string tag) c;
    c ← (if bool_decide (ta_name t = None) then mret c else name c);
    mret (inr c).

(** The second [switch]. *)
Definition type_suffix (abbrev : abbrev) (c : cursor) : D (list Z) :=
  let tag := ab_tag abbrev in
  if tag =? DW_TAG_pointer_type then c ← append (string_bytes " *") c; mret (c_buf c)
  else if tag =? DW_TAG_subroutine_type then
    c ← append (string_bytes "(") c;
    c ← append (string_bytes ")(") c;
    c ← (if ab_has_children abbrev =? 0 then append (string_bytes "void") c
         else
           b ← gets db;
           b ← form_args_string (length (db_start b)) true c;
           mret (c <| c_buf := b |>));
    c ← append (string_bytes ")") c;
    mret (c_buf c)
  else mret (c_buf c).
End loops.

(** The type at [offset] of the unit, appended at the cursor; the buffer after it.
    The fuel bounds the chain of references. *)
Fixpoint form_type_string (fuel : nat) (offset : Z) (c : cursor) : D (list Z) :=
  if (offset <? unit_data_offset u) || (unit_data_len u <=? u64 (offset - unit_data_offset u)) then
    error_callback "abstract origin or specification out of range" 0;; mret (c_buf c)
  else
    let offset := u64 (offset - unit_data_offset u) in
    let rec := match fuel with O => λ _ _, fail OutOfFuel | S fuel => form_type_string fuel end in
    '(r, _) ← on_buf (unit_buf_at dwarf_sections is_bigendian u offset)
      (code ← read_uleb128;
       if code =? 0 then
         dwarf_buf_error "invalid abstract origin or specification" 0;; mret (c_buf c)
       else
         abbrev ← lookup_abbrev (abbrevs u) code;
         match abbrev with
         | None => mret (c_buf c)
         | Some abbrev =>
             t ← read_type_attrs abbrev;
             match t with
             | inl _ => mret (c_buf c)
             | inr t =>
                 r ← type_prefix rec abbrev t c;
                 match r with
                 | inl b => mret b
                 | inr c =>
                     c ← (if negb (ta_ref t =? -1) then
                            b ← rec (u64 (ta_ref t)) c; mret (c <| c_buf := b |>)
                          else append (string_bytes "void") c);
                     type_suffix rec abbrev c
                 end
             end
         end);
    mret r.

(** ** The strings of a function *)

(** The loop over the attributes: DW_AT_type is written into the buffer of the
    result; false if reading failed. *)
Fixpoint ret_attrs (fuel : nat) (maxlen : Z) (attrs : list attr) (ret : list Z) : D (bool * list Z) :=
  match attrs with
  | [] => mret (true, ret)
  | a :: attrs =>
      '(ok, val) ← read_attribute dwarf_sections altlink (at_name a) (at_form a) (u64 (at_val a))
                     (is_dwarf64 u) (version u) (addrsize u);
      if negb ok then mret (false, ret)
      else
        ret ← (if (at_name a =? DW_AT_type) && bool_decide (encoding val = ATTR_VAL_REF_UNIT) then
                 form_type_string fuel (u_uint val) (mk_cursor ret 0 maxlen)
               else mret ret);
        ret_attrs fuel maxlen attrs ret
  end.

(** The buffers of the result and of the parameters, all zero before. *)
Definition dwarf_form_type_strings (fuel : nat) (fn_buf : dwarf_buf) (ret_maxlen args_maxlen : Z)
    : D (list Z * list Z) :=
  let ret := replicate (Z.to_nat ret_maxlen) 0 in
  let args := replicate (Z.to_nat args_maxlen) 0 in
  '(r, _) ← on_buf fn_buf
    (code ← read_uleb128;
     if code =? 0 then mret (ret, args)
     else
       abbrev ← lookup_abbrev (abbrevs u) code;
       match abbrev with
       | None => mret (ret, args)
       | Some abbrev =>
           '(ok, ret) ← ret_attrs fuel ret_maxlen (ab_attrs abbrev) ret;
           if negb ok then mret (ret, args)
           else
             args ←
               (if ab_has_children abbrev =? 0 then mret args
                else
                  b ← gets db;
                  form_args_string (form_type_string fuel) (length (db_start b)) true (mk_cursor args 0 args_maxlen));
             ret ← args_end (mk_cursor ret 0 ret_maxlen);
             mret (ret, args)
       end);
  mret r.
End types.

(** [dwarf_info_by_iterdata], for a function of a unit of the file: the function
    with the strings remembered, [*ptr], [*rettype] and [*args] ([None] if not
    set), if the caller asks for them. *)
Section info.
Variable dwarf_sections : dwarf_sections.
Variable altlink : option DwarfBuf.dwarf_sections.
Variable is_bigendian : bool.

(** [backtrace_strdup]; new memory is needed. *)
Definition backtrace_strdup (str : list Z) : D (list Z) :=
  ok ← alloc_answer;
  if negb ok then fail Assertion else mret str.

(** A string that is not empty is given out. *)
Definition give_string (wanted : bool) (str : option (list Z)) : D (option (list Z)) :=
  if wanted then
    str ← deref str;
    match str with
    | [] => mret None
    | _ => str ← backtrace_strdup str; mret (Some str)
    end
  else mret None.

Definition dwarf_info_by_iterdata (fuel : nat) (u : dwarf_unit) (want_ret want_args : bool) (f : function)
    : D (function * Z * option (list Z) * option (list Z)) :=
  let unread (wanted : bool) (str : option (list Z)) := wanted && bool_decide (str = None) in
  f ← (if unread want_ret (fn_ret f) || unread want_args (fn_args f) then
         let fn_buf := mk_dwarf_buf DEBUG_INFO (dwarf_sections DEBUG_INFO) (function_data f) (function_data_len f)
                         is_bigendian false in
         '(ret, args) ← dwarf_form_type_strings dwarf_sections altlink is_bigendian u fuel fn_buf 1000 1000;
         ret ← string_at ret 0;
         ret ← backtrace_strdup ret;
         args ← string_at args 0;
         args ← backtrace_strdup args;
         mret ((f <| fn_ret := Some ret |>) <| fn_args := Some args |>)
       else mret f);
  ret ← give_string want_ret (fn_ret f);
  args ← give_string want_args (fn_args f);
  mret (f, low_pc f, ret, args).
End info.

(** ** Writing into a buffer

    [textbuf n w]: [n] bytes that hold the string [w] and zeros. *)
Definition nonzero (str : list Z) : Prop := Forall (λ c, c ≠ 0) str.
Definition textbuf (n : nat) (w : list Z) : list Z := w ++ replicate (n - length w) 0.

Lemma until_nul_nonzero str t : nonzero str → until_nul (str ++ 0 :: t) = Ok str.
Proof. induction 1 as [|c str Hc _ IH]; [done|]. cbn. replace (c =? 0) with false by lia. by rewrite IH. Qed.

(** A constant string. *)
Ltac const_nonzero := apply (bool_decide_unpack _); vm_compute; exact I.

Lemma textbuf_end n w : (length w < n)%nat → textbuf n w !! length w = Some 0.
Proof.
  intros Hn. unfold textbuf. rewrite lookup_app_r, Nat.sub_diag by lia.
  by replace (n - length w)%nat with (S (n - length w - 1)) by lia.
Qed.

Lemma textbuf_lookup n w i c : w !! i = Some c → textbuf n w !! i = Some c.
Proof. intros Hi. unfold textbuf. by rewrite lookup_app, Hi. Qed.

(** The cursors over [textbuf n w]: the pointer is into the string, and the room
    left is counted too high if at all. *)
Record at_text (n : nat) (w : list Z) (c : cursor) : Prop := mk_at_text {
  at_buf : c_buf c = textbuf n w;
  at_ptr : (c_ptr c ≤ length w)%nat;
  at_rem : Z.of_nat n - Z.of_nat (length w) ≤ c_rem c < 2^32;
  at_nonzero : nonzero w;
  at_room : (length w < n)%nat;
}.

Lemma string_at_text n w p s : nonzero w → (length w < n)%nat → (p ≤ length w)%nat →
  string_at (textbuf n w) p s = Ok (drop p w, s).
Proof.
  intros Hw Hn Hp. unfold string_at, textbuf, lift_res. rewrite drop_app_le by done.
  replace (n - length w)%nat with (S (n - length w - 1)) by lia. cbn [replicate].
  rewrite until_nul_nonzero; [done|]. by apply Forall_drop.
Qed.

Lemma append_text n w str c s : at_text n w c → nonzero str → (length w + length str < n)%nat →
  ∃ c', append str c s = Ok (c', s) ∧ at_text n (w ++ str) c' ∧ c_ptr c' = (c_ptr c + length str)%nat.
Proof.
  intros [Hb Hp Hr Hw Hn] Hs Hl. unfold append. replace (_ <? _) with true by lia.
  rewrite Hb, (bind_ok _ _ _ _ _ (string_at_text n w (c_ptr c) s Hw Hn Hp)). rewrite length_drop.
  replace (c_ptr c + (length w - c_ptr c))%nat with (length w) by lia.
  assert (strcpy (textbuf n w) (length w) str s = Ok (textbuf n (w ++ str), s)) as E.
  { unfold strcpy, textbuf. rewrite length_app, length_replicate.
    replace (_ <=? _)%nat with true by lia. rewrite take_app_length, length_app. rewrite drop_app_ge by lia.
    replace (length w + length str + 1 - length w)%nat with (S (length str)) by lia. rewrite drop_replicate.
    replace (n - (length w + length str))%nat with (S (n - length w - S (length str))) by lia. cbn. by rewrite <-app_assoc. }
  rewrite (bind_ok _ _ _ _ _ E). eexists. split; [done|]. split; [|done]. split; cbn.
  - done.
  - rewrite length_app. lia.
  - rewrite length_app, u32_small by lia. lia.
  - by apply Forall_app.
  - rewrite length_app. lia.
Qed.

(** [writes_to str m]: [m] appends [str] where it fits. *)
Definition writes_to (str : list Z) (m : cursor → D cursor) : Prop :=
  ∀ n w c s, at_text n w c → (length w + length str < n)%nat → allocs s = [] →
    ∃ c', m c s = Ok (c', s) ∧ at_text n (w ++ str) c'.
Definition writes (str : list Z) (m : cursor → D (list Z)) : Prop :=
  ∀ n w c s, at_text n w c → (length w + length str < n)%nat → allocs s = [] → m c s = Ok (textbuf n (w ++ str), s).

(** The buffer behind a cursor has been written. *)
Lemma at_text_behind n w str c : at_text n w c → nonzero str → (length w + length str < n)%nat →
  at_text n (w ++ str) (c <| c_buf := textbuf n (w ++ str) |>).
Proof.
  intros [Hb Hp Hr Hw Hn] Hs Hl. split; unfold set_field; cbn; try rewrite length_app; try done; try lia. by apply Forall_app.
Qed.

(** ** The types that the entries stand for *)
Definition keyword (tag : Z) : option (list Z) :=
  if (tag =? DW_TAG_base_type) || (tag =? DW_TAG_typedef) then Some []
  else if tag =? DW_TAG_structure_type then Some (string_bytes "struct ")
  else if tag =? DW_TAG_union_type then Some (string_bytes "union ")
  else if tag =? DW_TAG_enumeration_type then Some (string_bytes "enum ")
  else None.

Definition qualifier (tag : Z) : option (list Z) :=
  if tag =? DW_TAG_const_type then Some (string_bytes "const ")
  else if tag =? DW_TAG_volatile_type then Some (string_bytes "volatile ")
  else None.

(** The parameters, separated by commas; [first] if none has been written. *)
Definition joined (first : bool) (strs : list (list Z)) : list Z :=
  match first, strs with
  | true, [] => string_bytes "void"
  | true, str :: strs => str ++ concat ((λ str, [44; 32] ++ str) <$> strs)
  | false, strs => concat ((λ str, [44; 32] ++ str) <$> strs)
  end.

Section type_trees.
Variables (d : dwarf_sections) (altlink : option dwarf_sections) (e : bool) (u : dwarf_unit).

Definition type_attrs_of (a : abbrev) (vals : list (list Z * attr_val)) : type_attrs :=
  fold_attrs type_attr (ab_attrs a) (vals.*2) type_attrs0.

(** An entry's code and attributes, from the position [p] of .debug_info on. *)
Definition enc_entry (a : abbrev) (vals : list (list Z * attr_val)) : list Z :=
  uleb128_enc 9 (ab_code a) ++ concat (vals.*1).
Definition entry_ok (p : Z) (a : abbrev) (vals : list (list Z * attr_val)) : Prop :=
  0 < ab_code a < 2^64 ∧ (∀ s, lookup_abbrev (abbrevs u) (ab_code a) s = Ok (Some a, s)) ∧
  vals_ok d altlink e u (p + Z.of_nat (length (uleb128_enc 9 (ab_code a)))) (ab_attrs a) vals.

Definition info_pos (off : Z) : Z := unit_data u + (off - unit_data_offset u).

(** The entry at an offset of the unit, and the bytes behind it. *)
Definition entry_at (off : Z) (a : abbrev) (vals : list (list Z * attr_val)) (rest : list Z) : Prop :=
  unit_data_offset u ≤ off ∧ off - unit_data_offset u < unit_data_len u ∧
  take (Z.to_nat (unit_data_len u - (off - unit_data_offset u))) (drop (Z.to_nat (info_pos off)) (d DEBUG_INFO))
    = enc_entry a vals ++ rest ∧ entry_ok (info_pos off) a vals.

(** The children of an entry, up to the code 0. *)
Definition enc_kids (a : abbrev) (kids : dies) : list Z := if ab_has_children a =? 0 then [] else enc_dies kids ++ [0].

(** The attribute DW_AT_sibling of an entry leads behind its children, which end
    at the position [q]. *)
Definition entry_sibling (a : abbrev) (vals : list (list Z * attr_val)) : Z := fold_attrs sibling_attr (ab_attrs a) (vals.*2) 0.
Definition leads_behind (a : abbrev) (vals : list (list Z * attr_val)) (q : Z) : Prop :=
  entry_sibling a vals = 0 ∨ entry_sibling a vals = q - unit_data u + unit_data_offset u.
Fixpoint siblings_ok (p : Z) (t : dies) : Prop :=
  match t with
  | No_dies => True
  | Die a vals kids t =>
      let p2 := p + Z.of_nat (length (enc_entry a vals)) in
      let p3 := p2 + Z.of_nat (length (enc_kids a kids)) in
      (ab_has_children a ≠ 0 → leads_behind a vals p3 ∧ siblings_ok p2 kids) ∧ siblings_ok p3 t
  end.
(** The entries [t] stand at [p]. *)
Definition entries_ok (p : Z) (t : dies) : Prop := dies_ok d altlink e u p t ∧ siblings_ok p t.

(** [type_at off str]: the entry at [off] is a type that is written [str]. *)
Inductive type_at : Z → list Z → Prop :=
  | Type_named off a vals rest kw p name :
      entry_at off a vals rest → keyword (ab_tag a) = Some kw → ta_name (type_attrs_of a vals) = Some p →
      c_string d altlink p = Ok name → nonzero name → type_at off (kw ++ name)
  | Type_qualified off a vals rest q str :
      entry_at off a vals rest → qualifier (ab_tag a) = Some q → ref_at (ta_ref (type_attrs_of a vals)) str →
      type_at off (q ++ str)
  | Type_pointer off a vals rest str :
      entry_at off a vals rest → ab_tag a = DW_TAG_pointer_type → ref_at (ta_ref (type_attrs_of a vals)) str →
      type_at off (str ++ string_bytes " *")
  | Type_function_void off a vals rest str :
      entry_at off a vals rest → ab_tag a = DW_TAG_subroutine_type → ab_has_children a = 0 →
      ref_at (ta_ref (type_attrs_of a vals)) str → type_at off (str ++ string_bytes "()(void)")
  | Type_function off a vals t rest str strs :
      entry_at off a vals (enc_kids a t ++ rest) → ab_tag a = DW_TAG_subroutine_type → ab_has_children a ≠ 0 →
      ref_at (ta_ref (type_attrs_of a vals)) str →
      entries_ok (info_pos off + Z.of_nat (length (enc_entry a vals))) t → params_at true t strs → strs ≠ [] →
      type_at off (str ++ string_bytes "()(" ++ joined true strs ++ string_bytes ")")
with ref_at : Z → list Z → Prop :=
  | Ref_void : ref_at (-1) (string_bytes "void")
  | Ref_type r str : r ≠ -1 → type_at (u64 r) str → ref_at r str
with params_at : bool → dies → list (list Z) → Prop :=
  | Params_nil first : params_at first No_dies []
  | Params_cons first a vals kids t str strs :
      ab_tag a = DW_TAG_formal_parameter → ta_ref (type_attrs_of a vals) ≠ -1 →
      type_at (u64 (ta_ref (type_attrs_of a vals))) str → str ≠ [] →
      params_at false t strs → params_at first (Die a vals kids t) (str :: strs)
  | Params_more a vals kids t strs :
      ab_tag a = DW_TAG_unspecified_parameters →
      params_at false t strs → params_at false (Die a vals kids t) (string_bytes "..." :: strs)
  | Params_other first a vals kids t strs :
      ab_tag a ≠ DW_TAG_formal_parameter → ab_tag a ≠ DW_TAG_unspecified_parameters →
      params_at first t strs → params_at first (Die a vals kids t) strs.

Scheme type_at_mind := Minimality for type_at Sort Prop
  with ref_at_mind := Minimality for ref_at Sort Prop
  with params_at_mind := Minimality for params_at Sort Prop.
Combined Scheme types_ind from type_at_mind, ref_at_mind, params_at_mind.

(** Strings of types have no zero byte. *)
Lemma types_nonzero :
  (∀ off str, type_at off str → nonzero str) ∧ (∀ r str, ref_at r str → nonzero str) ∧
  (∀ first t strs, params_at first t strs → Forall nonzero strs).
Proof.
  apply types_ind.
  - intros off a vals rest kw p name _ Hk _ _ Hn. apply Forall_app. split; [|done]. unfold keyword in Hk.
    repeat case_match; simplify_eq; const_nonzero.
  - intros off a vals rest q str _ Hq _ Hs. apply Forall_app. split; [|done]. unfold qualifier in Hq.
    repeat case_match; simplify_eq; const_nonzero.
  - intros. apply Forall_app. split; [done|]. const_nonzero.
  - intros. apply Forall_app. split; [done|]. const_nonzero.
  - intros off a vals t rest str strs _ _ _ _ Hs _ _ Hstrs _. apply Forall_app. split; [done|].
    apply Forall_app. split; [const_nonzero|]. apply Forall_app. split; [|const_nonzero].
    destruct Hstrs as [|str' strs' H1 H2]; [const_nonzero|]. apply Forall_app. split; [done|].
    apply Forall_concat, Forall_fmap. eapply Forall_impl; [exact H2|]. intros x Hx. apply Forall_app. split; [by repeat constructor|done].
  - const_nonzero.
  - done.
  - constructor.
  - by constructor.
  - constructor; [const_nonzero|done].
  - done.
Qed.
Hypothesis Hd : sections_ok d.
Hypothesis Hunit0 : 0 ≤ unit_data u.
Hypothesis Hunit1 : unit_data u + unit_data_len u ≤ sec_size d DEBUG_INFO.
Hypothesis Hunit2 : 0 ≤ unit_data_offset u < 2^63.

(** Reading an entry. *)
Lemma read_entry_run p a vals rest s : entry_ok p a vals → wf_buf (db s) → allocs s = [] → db_is_bigendian (db s) = e →
  db_name (db s) = DEBUG_INFO → db_buf (db s) = p → unread s = enc_entry a vals ++ rest →
  ∃ s1, read_uleb128 s = Ok (ab_code a, s1) ∧ ab_code a ≠ 0 ∧ lookup_abbrev (abbrevs u) (ab_code a) s1 = Ok (Some a, s1) ∧
    read_type_attrs d altlink u a s1 = Ok (inr (type_attrs_of a vals), moved (Z.of_nat (length (enc_entry a vals))) s).
Proof.
  intros (Hcode & Hlk & Hv) Hs Ha He Hn Hp Hun. unfold enc_entry in Hun. rewrite <-app_assoc in Hun.
  exists (moved (Z.of_nat (length (uleb128_enc 9 (ab_code a)))) s).
  split; [apply (reads_as_uleb (ab_code a) ltac:(lia) s _ Hs Hun)|]. split; [lia|]. split; [done|].
  destruct (unread_after s _ _ Hs Hun) as [Hs1 Hu1].
  pose proof (for_attrs_run d altlink e u tt (λ a val st, mret (inr (type_attr a val st))) type_attr (ab_attrs a)
    ltac:(done) _ vals type_attrs0 Hv _ _ Hs1 Ha He Hn ltac:(cbn; lia) Hu1) as E.
  unfold read_type_attrs. rewrite E, moved_moved. unfold enc_entry. rewrite length_app. do 3 f_equal. lia.
Qed.

Lemma entry_left a vals rest s : wf_buf (db s) → unread s = enc_entry a vals ++ rest → 0 < db_left (db s).
Proof.
  intros Hs Hun. pose proof (unread_length s Hs) as Hl. rewrite Hun in Hl. unfold enc_entry in Hl. rewrite !length_app in Hl.
  pose proof (uleb128_enc_ne 9 (ab_code a)). destruct (uleb128_enc 9 (ab_code a)); [done|]. cbn in Hl. lia.
Qed.

(** The children of an entry are passed over. *)
Definition consumes (t : dies) : Prop :=
  ∀ fuel s rest, entries_ok (db_buf (db s)) t → (dies_count t ≤ fuel)%nat → wf_buf (db s) → allocs s = [] →
    db_is_bigendian (db s) = e → db_name (db s) = DEBUG_INFO → unread s = enc_dies t ++ 0 :: rest →
    consume_children d altlink fuel u 0 s = Ok (0, moved (Z.of_nat (length (enc_dies t ++ [0]))) s).

Lemma consume_kids fuel a vals kids s rest : consumes kids → ab_has_children a ≠ 0 → entries_ok (db_buf (db s)) kids →
  leads_behind a vals (db_buf (db s) + Z.of_nat (length (enc_kids a kids))) → (dies_count kids ≤ fuel)%nat → wf_buf (db s) →
  allocs s = [] → db_is_bigendian (db s) = e → db_name (db s) = DEBUG_INFO → unread s = enc_kids a kids ++ rest →
  consume_children d altlink fuel u (entry_sibling a vals) s = Ok (0, moved (Z.of_nat (length (enc_kids a kids))) s).
Proof.
  intros Hk Hch Hok Hsib Hf Hs Ha He Hn Hun. unfold leads_behind in Hsib. destruct (Z.eq_dec (entry_sibling a vals) 0) as [E0|Hne].
  - rewrite E0. unfold enc_kids in *. destruct (Z.eqb_spec (ab_has_children a) 0); [lia|]. rewrite <-app_assoc in Hun. by eapply Hk.
  - destruct Hsib as [?|Hsib]; [done|]. pose proof (unread_length s Hs) as Hl. rewrite Hun, length_app in Hl.
    pose proof Hs as (_ & ? & ? & Hlt). set (n := Z.of_nat (length (enc_kids a kids))) in *.
    assert (0 ≤ n ≤ db_left (db s)) as Hn1 by (subst n; lia).
    assert (u64 (entry_sibling a vals - u64 (db_buf (db s) - unit_data u + unit_data_offset u)) = n) as En.
    { rewrite Hsib. unfold u64. rewrite Zminus_mod_idemp_r. transitivity (n mod 2^64); [f_equal; lia|apply Z.mod_small; lia]. }
    destruct fuel; cbn [consume_children]; rewrite bind_ok with (a := db s) (s1 := s) by done;
      (replace (entry_sibling a vals =? 0) with false by lia); cbn [negb]; cbv zeta; rewrite En;
      by rewrite (bind_ok _ _ _ _ _ (advance_ok n s ltac:(lia))).
Qed.

(** The parts of the entries at [p]. *)
Lemma entries_cons p a vals kids t : entries_ok p (Die a vals kids t) →
  let p2 := p + Z.of_nat (length (enc_entry a vals)) in let p3 := p2 + Z.of_nat (length (enc_kids a kids)) in
  entry_ok p a vals ∧ entries_ok p3 t ∧ (ab_has_children a ≠ 0 → entries_ok p2 kids ∧ leads_behind a vals p3).
Proof.
  intros [(Hcode & Hlk & Hv & Hk) [Hsk Hst]]. cbv zeta in *. split; [done|].
  assert (p + Z.of_nat (length (uleb128_enc 9 (ab_code a))) + Z.of_nat (length (concat vals.*1))
    = p + Z.of_nat (length (enc_entry a vals))) as Ep by (unfold enc_entry; rewrite length_app; lia).
  rewrite Ep in Hk. unfold entries_ok, enc_kids in *. destruct (Z.eqb_spec (ab_has_children a) 0) as [E0|Hne].
  - destruct Hk as [-> Hk]. cbn [length] in *. rewrite Z.add_0_r in *. split; [done|]. by intros ?.
  - destruct Hk as [Hk1 Hk2]. rewrite length_app in *. cbn [length] in *.
    rewrite Nat2Z.inj_add, Z.add_assoc in *. split; [done|]. intros _. destruct (Hsk Hne). done.
Qed.

Lemma enc_dies_cons a vals kids t : enc_dies (Die a vals kids t) = enc_entry a vals ++ enc_kids a kids ++ enc_dies t.
Proof. cbn [enc_dies]. unfold enc_entry, enc_kids. by rewrite <-app_assoc. Qed.

Lemma consume_run t : consumes t.
Proof.
  induction t as [|a vals kids IHk t IHt]; intros fuel s rest Hok Hf Hs Ha He Hn Hun.
  { cbn [enc_dies app] in Hun |- *. pose proof (unread_length s Hs) as Hl. rewrite Hun in Hl. cbn in Hl.
    destruct fuel; cbn [consume_children]; rewrite bind_ok with (a := db s) (s1 := s) by done;
      (replace (0 <? db_left (db s)) with true by lia); cbn [negb Z.eqb]; by rewrite (bind_ok _ _ _ _ _ (reads_as_zero s rest Hs Hun)). }
  destruct (entries_cons _ _ _ _ _ Hok) as ((Hcode & Hlk & Hv) & Ht & Hkids). cbn [dies_count] in Hf. destruct fuel as [|fuel]; [lia|].
  rewrite enc_dies_cons, <-!app_assoc in Hun. pose proof (entry_left _ _ _ _ Hs Hun) as Hl.
  destruct (unread_after s _ _ Hs Hun) as [Hs2 Hu2]. set (s2 := moved (Z.of_nat (length (enc_entry a vals))) s) in *.
  unfold enc_entry in Hun at 1. rewrite <-app_assoc in Hun. destruct (unread_after s _ _ Hs Hun) as [Hs1 Hu1].
  set (s1 := moved (Z.of_nat (length (uleb128_enc 9 (ab_code a)))) s) in *.
  assert (moved (Z.of_nat (length (concat vals.*1))) s1 = s2) as E12
    by (subst s1 s2; rewrite moved_moved; unfold enc_entry; rewrite length_app; f_equal; lia).
  cbn [consume_children]. rewrite bind_ok with (a := db s) (s1 := s) by done. cbn [Z.eqb negb].
  replace (0 <? db_left (db s)) with true by lia. cbn [negb].
  rewrite (bind_ok _ _ _ _ _ (reads_as_uleb (ab_code a) ltac:(lia) s _ Hs Hun)). fold s1. replace (ab_code a =? 0) with false by lia.
  rewrite (bind_ok _ _ _ _ _ (Hlk s1)).
  rewrite (bind_ok _ _ _ _ _ (for_attrs_run d altlink e u tt _ sibling_attr (ab_attrs a) (λ _ _ _ _ _, eq_refl) _ vals 0 Hv s1 _ Hs1 Ha He Hn eq_refl Hu1)).
  rewrite E12. fold (entry_sibling a vals). destruct (unread_after s2 _ _ Hs2 Hu2) as [Hs3 Hu3].
  set (s3 := moved (Z.of_nat (length (enc_kids a kids))) s2) in *.
  rewrite bind_ok with (a := 0) (s1 := s3).
  2: { subst s3. destruct (Z.eqb_spec (ab_has_children a) 0) as [E0|Hne]; cbn [negb].
    - unfold enc_kids. rewrite E0. cbn. by rewrite moved_0.
    - destruct (Hkids Hne). by eapply consume_kids; [..|lia| | | | |]. }
  rewrite (IHt fuel s3 rest); try done; [|lia]. subst s3 s2. rewrite !moved_moved, enc_dies_cons, !length_app. do 3 f_equal. lia.
Qed.

(** [skip_children] behind an entry read by [read_type_attrs]. *)
Lemma entry_sibling_attrs a vals : ta_sibling (type_attrs_of a vals) = entry_sibling a vals.
Proof.
  unfold type_attrs_of, entry_sibling. change 0 with (ta_sibling type_attrs0). generalize type_attrs0 (vals.*2).
  induction (ab_attrs a) as [|x attrs IH]; intros t vs; [done|]. destruct vs as [|v vs]; [done|]. cbn [fold_attrs]. rewrite IH. f_equal.
  unfold type_attr, sibling_attr. cbv zeta. repeat (destruct (Z.eqb_spec _ _); [try lia|]); repeat case_match; try done; lia.
Qed.

Lemma enc_kids_some a kids : ab_has_children a ≠ 0 → enc_kids a kids = enc_dies kids ++ [0].
Proof. intros Hne. unfold enc_kids. by destruct (Z.eqb_spec (ab_has_children a) 0). Qed.

Lemma kids_fit p a kids rest s : ab_has_children a ≠ 0 → wf_buf (db s) → entries_ok p kids → unread s = enc_kids a kids ++ rest →
  (dies_count kids ≤ length (db_start (db s)))%nat.
Proof.
  intros Hne Hs [Hk _] Hun. pose proof (unread_length s Hs) as Hl. rewrite Hun, length_app in Hl. pose proof (dies_count_le d altlink e u kids p Hk).
  unfold enc_kids in Hl. replace (ab_has_children a =? 0) with false in Hl by lia. rewrite length_app in Hl. destruct Hs as (_ & ? & ? & ?). lia.
Qed.

Lemma skip_run a vals kids s rest :
  (ab_has_children a ≠ 0 → entries_ok (db_buf (db s)) kids ∧ leads_behind a vals (db_buf (db s) + Z.of_nat (length (enc_kids a kids)))) →
  wf_buf (db s) → allocs s = [] → db_is_bigendian (db s) = e → db_name (db s) = DEBUG_INFO → unread s = enc_kids a kids ++ rest →
  skip_children d altlink u a (ta_sibling (type_attrs_of a vals)) s = Ok (tt, moved (Z.of_nat (length (enc_kids a kids))) s).
Proof.
  intros Hk Hs Ha He Hn Hun. unfold skip_children. destruct (Z.eqb_spec (ab_has_children a) 0) as [E0|Hne].
  - unfold enc_kids. rewrite E0. cbn. by rewrite moved_0.
  - destruct (Hk Hne) as [Hok Hsib]. rewrite bind_ok with (a := db s) (s1 := s) by done. rewrite entry_sibling_attrs.
    by rewrite (bind_ok _ _ _ _ _ (consume_kids _ a vals kids s rest (consume_run kids) Hne Hok Hsib (kids_fit _ _ _ _ _ Hne Hs Hok Hun) Hs Ha He Hn Hun)).
Qed.

(** The parameters among the entries [t], which stand at [p]. *)
Definition args_run (first : bool) (t : dies) (strs : list (list Z)) (rec : Z → cursor → D (list Z)) : Prop :=
  ∀ lf n w c s rest, at_text n w c → (length w + length (joined first strs) < n)%nat → allocs s = [] → wf_buf (db s) →
    db_is_bigendian (db s) = e → db_name (db s) = DEBUG_INFO → entries_ok (db_buf (db s)) t → unread s = enc_dies t ++ 0 :: rest →
    (dies_count t ≤ lf)%nat → (if first then strs = [] → c_ptr c = length w else (c_ptr c < length w)%nat) →
    form_args_string d altlink u rec lf first c s =
      Ok (textbuf n (w ++ joined first strs), moved (Z.of_nat (length (enc_dies t ++ [0]))) s).

Lemma args_end_empty n w c s : at_text n w c → (length w + 4 < n)%nat → c_ptr c = length w →
  args_end c s = Ok (textbuf n (w ++ string_bytes "void"), s).
Proof.
  intros Hc Hl Hp. pose proof Hc as [Hb _ _ _ Hn]. unfold args_end, array_get. rewrite Hp, Hb.
  replace (Z.of_nat _ <? 0) with false by lia. rewrite Nat2Z.id. rewrite (textbuf_end n w Hn).
  erewrite bind_ok by reflexivity. cbn [Z.eqb].
  destruct (append_text n w (string_bytes "void") c s Hc ltac:(const_nonzero) ltac:(cbn; lia)) as (c' & E & Hc' & _).
  rewrite (bind_ok _ _ _ _ _ E). unfold mret, M_ret. by rewrite (at_buf _ _ _ Hc').
Qed.

Lemma args_end_written n w c s : at_text n w c → (c_ptr c < length w)%nat → args_end c s = Ok (textbuf n w, s).
Proof.
  intros [Hb _ _ Hw Hn] Hp. unfold args_end, array_get. rewrite Hb.
  replace (Z.of_nat _ <? 0) with false by lia. rewrite Nat2Z.id.
  destruct (lookup_lt_is_Some_2 w (c_ptr c) Hp) as [ch Hch]. rewrite (textbuf_lookup n w _ _ Hch). erewrite bind_ok by reflexivity.
  eapply Forall_lookup in Hw; [|exact Hch]. cbn in Hw. replace (ch =? 0) with false by lia. done.
Qed.

(** ", " unless it is the first. *)
Lemma args_separator_run (first : bool) n w c s : at_text n w c → (length w + (if first then 0 else 2) < n)%nat →
  (if first then True else (c_ptr c < length w)%nat) →
  ∃ c', args_separator first c s = Ok (c', s) ∧ at_text n (w ++ (if first then [] else [44; 32])) c' ∧
    (if first then True else (c_ptr c' < length (w ++ [44; 32]%Z))%nat).
Proof.
  intros Hc Hl Hp. destruct first; [exists c; by rewrite app_nil_r|].
  destruct (append_text n w [44; 32] c s Hc ltac:(by repeat constructor) ltac:(cbn; lia)) as (c' & E & Hc' & Hp').
  exists c'. split; [done|]. split; [done|]. rewrite Hp', length_app. cbn. lia.
Qed.

Lemma joined_cons (first : bool) str strs : joined first (str :: strs) = (if first then [] else [44; 32]) ++ str ++ joined false strs.
Proof. by destruct first. Qed.

(** A parameter is written: the pointer is inside the string after it. *)
Definition arg_run (first : bool) (a : abbrev) (vals : list (list Z * attr_val)) (str : list Z)
    (rec : Z → cursor → D (list Z)) : Prop :=
  ∀ n w c s, at_text n w c → let w' := w ++ (if first then [] else [44; 32]) ++ str in
    (length w' < n)%nat → (if first then True else (c_ptr c < length w)%nat) → allocs s = [] →
    ∃ c', arg_string rec a (type_attrs_of a vals) first c s = Ok ((false, c'), s) ∧ at_text n w' c' ∧ (c_ptr c' < length w')%nat.

Lemma arg_run_param (first : bool) a vals str rec : ab_tag a = DW_TAG_formal_parameter → nonzero str → str ≠ [] →
  ta_ref (type_attrs_of a vals) ≠ -1 → writes str (rec (u64 (ta_ref (type_attrs_of a vals)))) → arg_run first a vals str rec.
Proof.
  intros Htag Hnz Hne Href Hrec n w c s Hc w' Hl Hptr Ha. unfold arg_string. rewrite Htag. cbn [Z.eqb Pos.eqb].
  assert (length w' = length w + length (if first then [] else [44; 32]%Z) + length str)%nat as Hw' by (subst w'; rewrite !length_app; lia).
  destruct (args_separator_run first n w c s Hc) as (c1 & E & Hc1 & _); [destruct first; cbn in Hw'; lia|done|].
  erewrite bind_ok by exact E. set (w1 := w ++ (if first then [] else [44; 32])) in *.
  assert (length w1 = length w + length (if first then [] else [44; 32]%Z))%nat as Hw1 by apply length_app.
  replace (ta_ref (type_attrs_of a vals) =? -1) with false by lia. cbn [negb].
  erewrite bind_ok by (apply (Hrec n w1); [done|lia|done]). eexists. split; [done|].
  assert (w' = w1 ++ str) as -> by (subst w' w1; by rewrite app_assoc).
  split; [apply at_text_behind; [done|done|lia]|]. pose proof (at_ptr _ _ _ Hc1). rewrite length_app. unfold set_field. cbn.
  destruct str; [done|]. cbn. lia.
Qed.

Lemma arg_run_more a vals rec : ab_tag a = DW_TAG_unspecified_parameters → arg_run false a vals (string_bytes "...") rec.
Proof.
  intros Htag n w c s Hc w' Hl Hptr Ha. unfold arg_string. rewrite Htag. cbn [Z.eqb Pos.eqb].
  assert (length w' = length w + 5)%nat as Hw' by (subst w'; rewrite !length_app; cbn; lia).
  destruct (args_separator_run false n w c s Hc ltac:(cbn; lia) Hptr) as (c1 & E & Hc1 & Hp1). erewrite bind_ok by exact E.
  destruct (append_text n _ (string_bytes "...") c1 s Hc1) as (c2 & E2 & Hc2 & Hp2); [const_nonzero|rewrite length_app; cbn; lia|].
  erewrite bind_ok by exact E2. exists c2. split; [done|]. subst w'. rewrite app_assoc. split; [done|].
  rewrite Hp2, length_app. cbn. lia.
Qed.

(** One entry, and the rest. *)
Lemma args_round (first : bool) lf a vals kids t rec c first1 c1 s rest : allocs s = [] → wf_buf (db s) →
  db_is_bigendian (db s) = e → db_name (db s) = DEBUG_INFO → entries_ok (db_buf (db s)) (Die a vals kids t) →
  unread s = enc_dies (Die a vals kids t) ++ 0 :: rest →
  (let s2 := moved (Z.of_nat (length (enc_entry a vals))) s in
   arg_string rec a (type_attrs_of a vals) first c s2 = Ok ((first1, c1), s2)) →
  ∃ s', form_args_string d altlink u rec (S lf) first c s = form_args_string d altlink u rec lf first1 c1 s' ∧
    s' = moved (Z.of_nat (length (enc_entry a vals ++ enc_kids a kids))) s ∧ wf_buf (db s') ∧ entries_ok (db_buf (db s')) t ∧
    unread s' = enc_dies t ++ 0 :: rest.
Proof.
  intros Ha Hs He Hn Hok Hun Harg. destruct (entries_cons _ _ _ _ _ Hok) as (Hent & Ht & Hkids).
  rewrite enc_dies_cons, <-!app_assoc in Hun. cbn [form_args_string]. rewrite bind_ok with (a := db s) (s1 := s) by done.
  pose proof (entry_left _ _ _ _ Hs Hun). replace (0 <? db_left (db s)) with true by lia. cbn [negb].
  destruct (read_entry_run _ a vals _ s Hent Hs Ha He Hn eq_refl Hun) as (s1 & E1 & Hcode & E2 & E3).
  rewrite (bind_ok _ _ _ _ _ E1). replace (ab_code a =? 0) with false by lia.
  rewrite (bind_ok _ _ _ _ _ E2), (bind_ok _ _ _ _ _ E3). destruct (unread_after s _ _ Hs Hun) as [Hs2 Hu2].
  set (s2 := moved (Z.of_nat (length (enc_entry a vals))) s) in *. rewrite (bind_ok _ _ _ _ _ Harg).
  destruct (unread_after s2 _ _ Hs2 Hu2) as [Hs3 Hu3]. eexists. split.
  { by rewrite (bind_ok _ _ _ _ _ (skip_run a vals kids s2 _ Hkids Hs2 Ha He Hn Hu2)). }
  assert (moved (Z.of_nat (length (enc_kids a kids))) s2 = moved (Z.of_nat (length (enc_entry a vals ++ enc_kids a kids))) s) as E
    by (subst s2; rewrite moved_moved, length_app; f_equal; lia).
  split; [exact E|]. split; [exact Hs3|]. split; [exact Ht|exact Hu3].
Qed.

Lemma args_run_cons (first : bool) a vals kids t str strs rec :
  arg_run first a vals str rec → args_run false t strs rec → args_run first (Die a vals kids t) (str :: strs) rec.
Proof.
  intros Harg Hrest lf n w c s rest Hc Hl Ha Hs He Hn Hok Hun Hlf Hptr.
  rewrite joined_cons, !length_app in Hl. cbn [dies_count] in Hlf. destruct lf as [|lf]; [lia|].
  destruct (Harg n w c (moved (Z.of_nat (length (enc_entry a vals))) s) Hc) as (c1 & E1 & Hc1 & Hp1);
    [rewrite !length_app; lia|by destruct first|done|].
  destruct (args_round first lf a vals kids t rec c false c1 s rest) as (s' & -> & Es & Hs' & Hok' & Hu'); try done.
  rewrite (Hrest lf n _ c1 s' rest Hc1); try done; try (subst s'; done).
  - subst s'. rewrite joined_cons, moved_moved, enc_dies_cons, !length_app, <-!app_assoc. do 3 f_equal. lia.
  - rewrite !length_app. lia.
  - lia.
Qed.

Lemma args_run_other (first : bool) a vals kids t strs rec :
  ab_tag a ≠ DW_TAG_formal_parameter → ab_tag a ≠ DW_TAG_unspecified_parameters →
  args_run first t strs rec → args_run first (Die a vals kids t) strs rec.
Proof.
  intros Ht1 Ht2 Hrest lf n w c s rest Hc Hl Ha Hs He Hn Hok Hun Hlf Hptr. cbn [dies_count] in Hlf. destruct lf as [|lf]; [lia|].
  destruct (args_round first lf a vals kids t rec c first c s rest) as (s' & -> & Es & Hs' & Hok' & Hu'); try done.
  { cbv zeta. unfold arg_string. replace (ab_tag a =? DW_TAG_formal_parameter) with false by lia.
    by replace (ab_tag a =? DW_TAG_unspecified_parameters) with false by lia. }
  rewrite (Hrest lf n w c s' rest Hc); try done; try (subst s'; done); [|lia].
  subst s'. rewrite moved_moved, enc_dies_cons, !length_app. do 3 f_equal. lia.
Qed.

Lemma args_run_nil first rec : args_run first No_dies [] rec.
Proof.
  intros lf n w c s rest Hc Hl Ha Hs He Hn Hok Hun Hlf Hptr. cbn in Hun. pose proof (unread_length s Hs) as Hll. rewrite Hun in Hll.
  cbn in Hll.
  assert (args_end c (moved 1 s) = Ok (textbuf n (w ++ joined first []), moved 1 s)) as E.
  { destruct first; [apply args_end_empty; [done|cbn in Hl; lia|by apply Hptr]|].
    cbn [joined fmap list_fmap concat]. rewrite app_nil_r. by apply args_end_written. }
  destruct lf; cbn [form_args_string]; rewrite bind_ok with (a := db s) (s1 := s) by done;
    replace (0 <? db_left (db s)) with true by lia; cbn [negb]; by rewrite (bind_ok _ _ _ _ _ (reads_as_zero s rest Hs Hun)).
Qed.

(** What [form_type_string] does behind the attributes. *)
Definition type_body (rec : Z → cursor → D (list Z)) (a : abbrev) (t : type_attrs) (c : cursor) : D (list Z) :=
  r ← type_prefix d altlink u rec a t c;
  match r with
  | inl b => mret b
  | inr c =>
      c ← (if negb (ta_ref t =? -1) then b ← rec (u64 (ta_ref t)) c; mret (c <| c_buf := b |>)
           else append (string_bytes "void") c);
      type_suffix d altlink u rec a c
  end.

Definition rec_of (fuel : nat) : Z → cursor → D (list Z) :=
  match fuel with O => λ _ _, fail OutOfFuel | S fuel => form_type_string d altlink e u fuel end.

(** The state behind the attributes of the entry at [off]. *)
Definition behind_entry (off : Z) (a : abbrev) (vals : list (list Z * attr_val)) (rest : list Z) (s : dstate) : Prop :=
  wf_buf (db s) ∧ allocs s = [] ∧ db_is_bigendian (db s) = e ∧ db_name (db s) = DEBUG_INFO ∧
  db_buf (db s) = info_pos off + Z.of_nat (length (enc_entry a vals)) ∧ unread s = rest ∧ db_start (db s) = d DEBUG_INFO.

Lemma form_type_entry fuel off a vals rest c b s : entry_at off a vals rest → allocs s = [] →
  (∀ s2, behind_entry off a vals rest s2 → ∃ k, type_body (rec_of fuel) a (type_attrs_of a vals) c s2 = Ok (b, moved k s2)) →
  form_type_string d altlink e u fuel off c s = Ok (b, s).
Proof.
  intros (Hlo & Hhi & Hbytes & Hok) Ha Hbody. destruct (Hd DEBUG_INFO) as [Hby Hlt].
  assert (u64 (off - unit_data_offset u) = off - unit_data_offset u) as Hu64 by (apply u64_small; unfold sec_size in *; lia).
  set (ub := unit_buf_at d e u (off - unit_data_offset u)).
  assert (wf_buf ub) as Hw by (subst ub; unfold unit_buf_at, sec_size in *; split; [done|]; cbn; lia).
  set (s0 := s <| db := ub |>). assert (unread s0 = enc_entry a vals ++ rest) as Hun by (subst s0 ub; unfold unread; cbn; exact Hbytes).
  destruct (read_entry_run (info_pos off) a vals rest s0 Hok Hw Ha eq_refl eq_refl eq_refl Hun) as (s1 & E1 & Hcode & E2 & E3).
  destruct (unread_after s0 _ _ Hw Hun) as [Hs2 Hu2]. 
  destruct (Hbody _ ltac:(split; [exact Hs2|]; split; [exact Ha|]; do 3 (split; [done|]); by split)) as [k Ek].
  assert (∃ b', on_buf ub (code ← read_uleb128;
     if code =? 0 then dwarf_buf_error "invalid abstract origin or specification" 0;; mret (c_buf c)
     else abbrev ← lookup_abbrev (abbrevs u) code;
       match abbrev with
       | None => mret (c_buf c)
       | Some abbrev => t ← read_type_attrs d altlink u abbrev;
           match t with inl _ => mret (c_buf c) | inr t => type_body (rec_of fuel) abbrev t c end
       end) s = Ok ((b, b'), s)) as [b' Eb].
  { eapply on_buf_back.
    - fold s0. rewrite (bind_ok _ _ _ _ _ E1). replace (ab_code a =? 0) with false by lia.
      rewrite (bind_ok _ _ _ _ _ E2), (bind_ok _ _ _ _ _ E3). exact Ek.
    - subst s0. by destruct s. }
  destruct fuel; cbn [form_type_string]; rewrite Hu64;
    (replace ((off <? unit_data_offset u) || (unit_data_len u <=? off - unit_data_offset u)) with false by lia);
    cbv zeta; fold ub; unfold type_body, rec_of in Eb; by rewrite (bind_ok _ _ _ _ _ Eb).
Qed.

(** ** The two switches *)
Lemma keyword_nonzero tag kw : keyword tag = Some kw → nonzero kw.
Proof. unfold keyword. intros H. repeat case_match; simplify_eq; const_nonzero. Qed.
Lemma qualifier_nonzero tag q : qualifier tag = Some q → nonzero q.
Proof. unfold qualifier. intros H. repeat case_match; simplify_eq; const_nonzero. Qed.

Lemma append_name_text n w name p c s : at_text n w c → c_string d altlink p = Ok name → nonzero name →
  (length w + length name < n)%nat → ∃ c', append_name d altlink (Some p) c s = Ok (c', s) ∧ at_text n (w ++ name) c'.
Proof.
  intros Hc Hp Hn Hl. unfold append_name. erewrite bind_ok by (unfold string_of; rewrite Hp; done).
  destruct (append_text n w name c s Hc Hn Hl) as (c' & E & Hc' & _). eauto.
Qed.

Lemma named_text n w kw name p c s : at_text n w c → nonzero (string_bytes kw) → c_string d altlink p = Ok name → nonzero name →
  (length w + length (string_bytes kw ++ name) < n)%nat →
  (c ← append (string_bytes kw) c; c ← append_name d altlink (Some p) c; mret (inl (B := cursor) (c_buf c))) s =
    Ok (inl (textbuf n (w ++ string_bytes kw ++ name)), s).
Proof.
  intros Hc Hkw Hp Hn Hl. rewrite length_app in Hl.
  destruct (append_text n w (string_bytes kw) c s Hc Hkw ltac:(lia)) as (c1 & E1 & Hc1 & _). rewrite (bind_ok _ _ _ _ _ E1).
  destruct (append_name_text n _ name p c1 s Hc1 Hp Hn ltac:(rewrite length_app; lia)) as (c2 & E2 & Hc2).
  rewrite (bind_ok _ _ _ _ _ E2). unfold mret, M_ret. by rewrite (at_buf _ _ _ Hc2), app_assoc.
Qed.

Lemma prefix_named rec a t kw p name n w c s : keyword (ab_tag a) = Some kw → ta_name t = Some p →
  c_string d altlink p = Ok name → nonzero name → at_text n w c → (length w + length (kw ++ name) < n)%nat →
  type_prefix d altlink u rec a t c s = Ok (inl (textbuf n (w ++ kw ++ name)), s).
Proof.
  intros Hkw Ht Hp Hn Hc Hl. unfold type_prefix. rewrite Ht. cbv zeta. unfold keyword in Hkw.
  destruct ((ab_tag a =? 36) || (ab_tag a =? 22)) eqn:E1.
  - simplify_eq. rewrite app_nil_l in *. assert (ab_tag a = 36 ∨ ab_tag a = 22) as [->| ->] by lia; cbn [Z.eqb Pos.eqb orb];
      (destruct (append_name_text n w name p c s Hc Hp Hn Hl) as (c' & E & Hc'); rewrite (bind_ok _ _ _ _ _ E);
       unfold mret, M_ret; by rewrite (at_buf _ _ _ Hc')).
  - destruct (Z.eqb_spec (ab_tag a) 19) as [->|]; [|destruct (Z.eqb_spec (ab_tag a) 23) as [->|];
      [|destruct (Z.eqb_spec (ab_tag a) 4) as [->|]; [|done]]]; simplify_eq; cbn [Z.eqb Pos.eqb orb];
      apply named_text; try done; const_nonzero.
Qed.

Lemma prefix_qualified rec a t q n w c s : qualifier (ab_tag a) = Some q → at_text n w c → (length w + length q < n)%nat →
  ∃ c', type_prefix d altlink u rec a t c s = Ok (inr c', s) ∧ at_text n (w ++ q) c'.
Proof.
  intros Hq Hc Hl. pose proof (qualifier_nonzero _ _ Hq) as Hnz. unfold qualifier in Hq.
  destruct (append_text n w q c s Hc Hnz Hl) as (c' & E & Hc' & _). exists c'. split; [|done]. unfold type_prefix.
  destruct (Z.eqb_spec (ab_tag a) 38) as [Ht|]; [|destruct (Z.eqb_spec (ab_tag a) 53) as [Ht|]; [|done]]; simplify_eq;
    rewrite ?Ht; cbn [Z.eqb Pos.eqb orb]; by rewrite (bind_ok _ _ _ _ _ E).
Qed.

(** The type that an entry refers to, or "void". *)
Definition ref_step (rec : Z → cursor → D (list Z)) (r : Z) (c : cursor) : D cursor :=
  if negb (r =? -1) then b ← rec (u64 r) c; mret (c <| c_buf := b |>) else append (string_bytes "void") c.

Lemma ref_void rec : writes_to (string_bytes "void") (ref_step rec (-1)).
Proof.
  intros n w c s Hc Hl _. destruct (append_text n w (string_bytes "void") c s Hc ltac:(const_nonzero) Hl) as (c' & E & Hc' & _).
  exists c'. done.
Qed.

Lemma ref_type rec r str : r ≠ -1 → nonzero str → writes str (rec (u64 r)) → writes_to str (ref_step rec r).
Proof.
  intros Hr Hs Hrec n w c s Hc Hl Ha. unfold ref_step. replace (r =? -1) with false by lia. cbn [negb].
  rewrite (bind_ok _ _ _ _ _ (Hrec n w c s Hc Hl Ha)). eexists. split; [done|]. by apply at_text_behind.
Qed.

Lemma suffix_pointer rec a n w c s : ab_tag a = DW_TAG_pointer_type → at_text n w c → (length w + 2 < n)%nat →
  type_suffix d altlink u rec a c s = Ok (textbuf n (w ++ string_bytes " *"), s).
Proof.
  intros Ht Hc Hl. unfold type_suffix. rewrite Ht. cbn [Z.eqb Pos.eqb].
  destruct (append_text n w (string_bytes " *") c s Hc ltac:(const_nonzero) ltac:(cbn; lia)) as (c' & E & Hc' & _).
  rewrite (bind_ok _ _ _ _ _ E). unfold mret, M_ret. by rewrite (at_buf _ _ _ Hc').
Qed.

Lemma suffix_none rec a q n w c s : qualifier (ab_tag a) = Some q → at_text n w c →
  type_suffix d altlink u rec a c s = Ok (textbuf n w, s).
Proof.
  intros Hq Hc. unfold type_suffix, qualifier in *.
  destruct (Z.eqb_spec (ab_tag a) 38) as [Ht|]; [|destruct (Z.eqb_spec (ab_tag a) 53) as [Ht|]; [|done]];
    rewrite ?Ht; cbn [Z.eqb Pos.eqb]; unfold mret, M_ret; by rewrite (at_buf _ _ _ Hc).
Qed.

Lemma suffix_function_void rec a n w c s : ab_tag a = DW_TAG_subroutine_type → ab_has_children a = 0 → at_text n w c →
  (length w + 8 < n)%nat → type_suffix d altlink u rec a c s = Ok (textbuf n (w ++ string_bytes "()(void)"), s).
Proof.
  intros Ht Hch Hc Hl. unfold type_suffix. rewrite Ht, Hch. cbn [Z.eqb Pos.eqb].
  destruct (append_text n w (string_bytes "(") c s Hc ltac:(const_nonzero) ltac:(cbn; lia)) as (c1 & E1 & Hc1 & _).
  rewrite (bind_ok _ _ _ _ _ E1).
  destruct (append_text n _ (string_bytes ")(") c1 s Hc1 ltac:(const_nonzero) ltac:(rewrite length_app; cbn; lia)) as (c2 & E2 & Hc2 & _).
  rewrite (bind_ok _ _ _ _ _ E2).
  destruct (append_text n _ (string_bytes "void") c2 s Hc2 ltac:(const_nonzero) ltac:(rewrite !length_app; cbn; lia)) as (c3 & E3 & Hc3 & _).
  rewrite (bind_ok _ _ _ _ _ E3).
  destruct (append_text n _ (string_bytes ")") c3 s Hc3 ltac:(const_nonzero) ltac:(rewrite !length_app; cbn; lia)) as (c4 & E4 & Hc4 & _).
  rewrite (bind_ok _ _ _ _ _ E4). unfold mret, M_ret. rewrite (at_buf _ _ _ Hc4). by rewrite <-!app_assoc.
Qed.

Lemma joined_nonzero first strs : Forall nonzero strs → nonzero (joined first strs).
Proof.
  intros H. assert (∀ strs, Forall nonzero strs → nonzero (concat ((λ str, [44; 32] ++ str) <$> strs))) as Hc.
  { clear. intros strs H. apply Forall_concat, Forall_fmap. eapply Forall_impl; [exact H|]. intros x Hx.
    apply Forall_app. split; [by repeat constructor|done]. }
  destruct first; [|by apply Hc]. destruct H as [|str strs H1 H2]; [const_nonzero|]. apply Forall_app. split; [done|by apply Hc].
Qed.

Lemma suffix_function rec a vals off t rest strs n w c s : ab_tag a = DW_TAG_subroutine_type → ab_has_children a ≠ 0 → at_text n w c →
  args_run true t strs rec → strs ≠ [] → Forall nonzero strs →
  entries_ok (info_pos off + Z.of_nat (length (enc_entry a vals))) t → behind_entry off a vals (enc_kids a t ++ rest) s →
  (length w + length (string_bytes "()(" ++ joined true strs ++ string_bytes ")") < n)%nat →
  ∃ k, type_suffix d altlink u rec a c s =
    Ok (textbuf n (w ++ string_bytes "()(" ++ joined true strs ++ string_bytes ")"), moved k s).
Proof.
  intros Ht Hch Hc Hargs Hne Hnz Hok (Hs & Ha & He & Hn & Hp & Hun & Hst) Hl. rewrite !length_app in Hl.
  change (length (string_bytes "()(")) with 3%nat in Hl. change (length (string_bytes ")")) with 1%nat in Hl.
  unfold type_suffix. rewrite Ht. cbn [Z.eqb Pos.eqb]. replace (ab_has_children a =? 0) with false by lia.
  destruct (append_text n w (string_bytes "(") c s Hc ltac:(const_nonzero) ltac:(cbn; lia)) as (c1 & E1 & Hc1 & _).
  rewrite (bind_ok _ _ _ _ _ E1).
  destruct (append_text n _ (string_bytes ")(") c1 s Hc1 ltac:(const_nonzero) ltac:(rewrite length_app; cbn; lia)) as (c2 & E2 & Hc2 & _).
  rewrite (bind_ok _ _ _ _ _ E2). set (w2 := (w ++ _) ++ _) in *.
  assert (length w2 = length w + 3)%nat as Hw2 by (subst w2; rewrite !length_app; cbn; lia).
  pose proof (kids_fit _ _ _ _ _ Hch Hs Hok Hun) as Hfit. rewrite <-Hp in Hok. rewrite (enc_kids_some a t Hch), <-app_assoc in Hun.
  pose proof (Hargs (length (db_start (db s))) n w2 c2 s rest Hc2 ltac:(lia) Ha Hs He Hn Hok Hun Hfit ltac:(by intros ->)) as E3.
  set (s3 := moved _ s) in E3. pose proof (joined_nonzero true strs Hnz) as Hj.
  assert (at_text n (w2 ++ joined true strs) (c2 <| c_buf := textbuf n (w2 ++ joined true strs) |>)) as Hc3
    by (apply at_text_behind; [done|done|lia]).
  destruct (append_text n _ (string_bytes ")") _ s3 Hc3 ltac:(const_nonzero) ltac:(rewrite length_app; change (length (string_bytes ")")) with 1%nat; lia)) as (c4 & E4 & Hc4 & _).
  eexists. erewrite bind_ok by (erewrite bind_ok by reflexivity; erewrite bind_ok by exact E3; reflexivity).
  rewrite (bind_ok _ _ _ _ _ E4). unfold mret, M_ret. rewrite (at_buf _ _ _ Hc4). subst w2. by rewrite <-!app_assoc.
Qed.

(** ** The strings are the types *)
Lemma body_run fuel a t str0 str1 n w c s b : allocs s = [] →
  (∃ c1, type_prefix d altlink u (rec_of fuel) a t c s = Ok (inr c1, s) ∧ at_text n (w ++ str0) c1) →
  writes_to str1 (ref_step (rec_of fuel) (ta_ref t)) → (length w + length (str0 ++ str1) < n)%nat →
  (∀ c2, at_text n (w ++ str0 ++ str1) c2 → ∃ k, type_suffix d altlink u (rec_of fuel) a c2 s = Ok (b, moved k s)) →
  ∃ k, type_body (rec_of fuel) a t c s = Ok (b, moved k s).
Proof.
  intros Ha (c1 & E1 & Hc1) Href Hl Hsuf. unfold type_body. rewrite (bind_ok _ _ _ _ _ E1). rewrite length_app in Hl.
  destruct (Href n _ c1 s Hc1 ltac:(rewrite length_app; lia) Ha) as (c2 & E2 & Hc2). rewrite <-app_assoc in Hc2.
  destruct (Hsuf c2 Hc2) as [k Ek]. exists k. unfold ref_step in E2. by rewrite (bind_ok _ _ _ _ _ E2).
Qed.

Lemma rec_of_writes n0 str r : (∀ fuel, (n0 ≤ fuel)%nat → writes str (form_type_string d altlink e u fuel r)) →
  ∀ fuel, (S n0 ≤ fuel)%nat → writes str (rec_of fuel r).
Proof. intros H fuel Hf. destruct fuel as [|fuel]; [lia|]. apply H. lia. Qed.

Lemma types_run :
  (∀ off str, type_at off str → ∃ n0, ∀ fuel, (n0 ≤ fuel)%nat → writes str (form_type_string d altlink e u fuel off)) ∧
  (∀ r str, ref_at r str → ∃ n0, ∀ fuel, (n0 ≤ fuel)%nat → writes_to str (ref_step (rec_of fuel) r)) ∧
  (∀ first t strs, params_at first t strs → ∃ n0, ∀ fuel, (n0 ≤ fuel)%nat → args_run first t strs (rec_of fuel)).
Proof.
  apply types_ind.
  - intros off a vals rest kw p name He Hkw Ht Hp Hn. exists 0%nat. intros fuel _ n w c s Hc Hl Ha.
    eapply form_type_entry; [done|done|]. intros s2 _. exists 0. rewrite moved_0. unfold type_body.
    by erewrite bind_ok by (by apply (prefix_named _ _ _ kw p name)).
  - intros off a vals rest q str He Hq Href [n0 IH]. exists n0. intros fuel Hf n w c s Hc Hl Ha.
    eapply form_type_entry; [done|done|]. intros s2 (_ & Ha2 & _). rewrite length_app in Hl.
    eapply (body_run _ _ _ q str n w); [done|apply (prefix_qualified _ _ _ q); [done|done|lia]|by apply IH|rewrite length_app; lia|].
    intros c2 Hc2. exists 0. rewrite moved_0. by eapply suffix_none.
  - intros off a vals rest str He Ht Href [n0 IH]. exists n0. intros fuel Hf n w c s Hc Hl Ha.
    eapply form_type_entry; [done|done|]. intros s2 (_ & Ha2 & _). rewrite length_app in Hl. cbn in Hl.
    eapply (body_run _ _ _ [] str n w); [done| |by apply IH|cbn; lia|].
    + exists c. rewrite app_nil_r. unfold type_prefix. by rewrite Ht.
    + intros c2 Hc2. exists 0. rewrite moved_0, app_assoc. apply suffix_pointer; [done|done|rewrite length_app; lia].
  - intros off a vals rest str He Ht Hch Href [n0 IH]. exists n0. intros fuel Hf n w c s Hc Hl Ha.
    eapply form_type_entry; [done|done|]. intros s2 (_ & Ha2 & _). rewrite length_app in Hl. cbn in Hl.
    eapply (body_run _ _ _ [] str n w); [done| |by apply IH|cbn; lia|].
    + exists c. rewrite app_nil_r. unfold type_prefix. by rewrite Ht.
    + intros c2 Hc2. exists 0. rewrite moved_0, app_assoc. apply suffix_function_void; [done|done|done|rewrite length_app; lia].
  - intros off a vals t rest str strs He Ht Hch Href [n0 IH] Hok Hpar [n1 IHp] Hne. exists (n0 + n1)%nat. intros fuel Hf n w c s Hc Hl Ha.
    eapply form_type_entry; [done|done|]. intros s2 Hs2. rewrite length_app in Hl.
    eapply (body_run _ _ _ [] str n w); [apply Hs2| |apply IH; lia|cbn; lia|].
    + exists c. rewrite app_nil_r. unfold type_prefix. by rewrite Ht.
    + intros c2 Hc2. rewrite app_nil_l in Hc2. rewrite app_assoc.
      eapply (suffix_function _ a vals off t rest strs); [done|done|done|apply IHp; lia|done| |done|done|rewrite length_app; lia].
      exact (proj2 (proj2 types_nonzero) _ _ _ Hpar).
  - exists 0%nat. intros fuel _. apply ref_void.
  - intros r str Hr Hty [n0 IH]. exists (S n0). intros fuel Hf. apply ref_type; [done|exact (proj1 types_nonzero _ _ Hty)|].
    by apply (rec_of_writes n0).
  - intros first. exists 0%nat. intros fuel _. apply args_run_nil.
  - intros first a vals kids t str strs Ht Hr Hty [n0 IH] Hne Hpar [n1 IHp]. exists (S (n0 + n1)). intros fuel Hf.
    apply args_run_cons; [|apply IHp; lia]. apply arg_run_param; [done|exact (proj1 types_nonzero _ _ Hty)|done|done|].
    apply (rec_of_writes n0); [done|lia].
  - intros a vals kids t strs Ht Hpar [n1 IHp]. exists n1. intros fuel Hf.
    apply args_run_cons; [by apply arg_run_more|by apply IHp].
  - intros first a vals kids t strs Ht1 Ht2 Hpar [n1 IHp]. exists n1. intros fuel Hf. by apply args_run_other, IHp.
Qed.

(** ** A function *)

(** The references of the attributes DW_AT_type. *)
Fixpoint ret_refs (attrs : list attr) (vals : list attr_val) : list Z :=
  match attrs, vals with
  | a :: attrs, v :: vals =>
      (if (at_name a =? DW_AT_type) && bool_decide (encoding v = ATTR_VAL_REF_UNIT) then [u_uint v] else []) ++ ret_refs attrs vals
  | _, _ => []
  end.

(** What is written for the result: its type, "void" if there is none. *)
Definition ret_text (strs : list (list Z)) : list Z :=
  match concat strs with [] => string_bytes "void" | str => str end.

Lemma at_text_start n w maxlen : nonzero w → (length w < n)%nat → Z.of_nat n ≤ maxlen < 2^32 →
  at_text n w (mk_cursor (textbuf n w) 0 maxlen).
Proof. intros Hw Hl Hm. split; cbn; try done; lia. Qed.

Lemma ret_attrs_run fuel n maxlen attrs : Z.of_nat n ≤ maxlen < 2^32 → ∀ p vals strs w s rest,
  vals_ok d altlink e u p attrs vals → Forall2 (λ r str, writes str (form_type_string d altlink e u fuel r)) (ret_refs attrs (vals.*2)) strs →
  Forall nonzero strs → nonzero w → (length w + length (concat strs) < n)%nat → wf_buf (db s) → allocs s = [] →
  db_is_bigendian (db s) = e → db_name (db s) = DEBUG_INFO → db_buf (db s) = p → unread s = concat (vals.*1) ++ rest →
  ret_attrs d altlink e u fuel maxlen attrs (textbuf n w) s =
    Ok ((true, textbuf n (w ++ concat strs)), moved (Z.of_nat (length (concat (vals.*1)))) s).
Proof.
  intros Hm. induction attrs as [|a attrs IH]; intros p vals strs w s rest Hv Hstrs Hnz Hw Hl Hs Ha He Hn Hp Hun;
    destruct vals as [|[bs v] vals]; try done.
  - apply Forall2_nil_inv_l in Hstrs as ->. cbn. by rewrite app_nil_r, moved_0.
  - destruct Hv as [Hv Hvs]. cbn [ret_attrs fmap list_fmap concat fst snd] in *. rewrite <-app_assoc in Hun.
    rewrite (bind_ok _ _ _ _ _ (Hv s _ Hs Ha He Hn Hp Hun)). cbn [negb].
    destruct (unread_after s _ _ Hs Hun) as [Hs1 Hu1]. set (s1 := moved (Z.of_nat (length bs)) s) in *.
    cbn [ret_refs] in Hstrs. assert (db_buf (db s1) = p + Z.of_nat (length bs)) as Hp1 by (subst s1; cbn; lia).
    assert (moved (Z.of_nat (length (bs ++ concat (vals.*1)))) s = moved (Z.of_nat (length (concat (vals.*1)))) s1) as Em
      by (subst s1; rewrite moved_moved, length_app; f_equal; lia).
    rewrite Em. destruct ((at_name a =? 73) && bool_decide (encoding v = ATTR_VAL_REF_UNIT)).
    + apply Forall2_cons_inv_l in Hstrs as (str & strs' & Hstr & Hstrs & ->). apply Forall_cons in Hnz as [Hnz1 Hnz].
      cbn [concat] in *. rewrite length_app in Hl.
      erewrite bind_ok by (apply (Hstr n w); [apply at_text_start; [done|lia|done]|lia|done]).
      rewrite (IH (p + Z.of_nat (length bs)) vals strs' (w ++ str) s1 rest); try done; [by rewrite <-app_assoc|by apply Forall_app|rewrite length_app; lia].
    + erewrite bind_ok by reflexivity. by eapply IH.
Qed.

Lemma ret_end n w maxlen s : nonzero w → (length w < n)%nat → (4 < n)%nat → Z.of_nat n ≤ maxlen < 2^32 →
  args_end (mk_cursor (textbuf n w) 0 maxlen) s = Ok (textbuf n (match w with [] => string_bytes "void" | _ => w end), s).
Proof.
  intros Hw Hl Hn Hm. pose proof (at_text_start n w maxlen Hw Hl Hm) as Hc. destruct w as [|ch w].
  - by rewrite (args_end_empty n [] _ s Hc) by (cbn; lia).
  - rewrite (args_end_written n (ch :: w) _ s Hc); [done|cbn; lia].
Qed.

(** The function's entry stands where [fn_buf] points, and its parameters behind
    it; the texts of its result and its parameters. *)
Definition function_at (fn_buf : dwarf_buf) (ret args : list Z) : Prop :=
  ∃ a vals rest strs, wf_buf fn_buf ∧ db_is_bigendian fn_buf = e ∧ db_name fn_buf = DEBUG_INFO ∧
    take (Z.to_nat (db_left fn_buf)) (drop (Z.to_nat (db_buf fn_buf)) (db_start fn_buf)) = enc_entry a vals ++ rest ∧
    entry_ok (db_buf fn_buf) a vals ∧ Forall2 type_at (ret_refs (ab_attrs a) (vals.*2)) strs ∧ ret = ret_text strs ∧
    if ab_has_children a =? 0 then args = []
    else ∃ t rest' pstrs, rest = enc_dies t ++ 0 :: rest' ∧ args = joined true pstrs ∧
      entries_ok (db_buf fn_buf + Z.of_nat (length (enc_entry a vals))) t ∧ params_at true t pstrs.

Lemma refs_run refs strs : Forall2 type_at refs strs →
  ∃ n0, ∀ fuel, (n0 ≤ fuel)%nat → Forall2 (λ r str, writes str (form_type_string d altlink e u fuel r)) refs strs.
Proof.
  induction 1 as [|r str refs strs Hr _ [n1 IH]]; [exists 0%nat; constructor|].
  destruct (proj1 types_run _ _ Hr) as [n0 Hn0]. exists (n0 + n1)%nat. intros fuel Hf. constructor; [apply Hn0; lia|apply IH; lia].
Qed.

(** The parameters of the function, where its attributes end. *)
Lemma function_args_run (p : Z) (has_children : Z) rest args n s : wf_buf (db s) → allocs s = [] → db_is_bigendian (db s) = e →
  db_name (db s) = DEBUG_INFO → db_buf (db s) = p → unread s = rest → Z.of_nat n < 2^32 → (length args < n)%nat →
  (if has_children =? 0 then args = []
   else ∃ t rest' pstrs, rest = enc_dies t ++ 0 :: rest' ∧ args = joined true pstrs ∧ entries_ok p t ∧ params_at true t pstrs) →
  nonzero args ∧ ∃ n0, ∀ fuel, (n0 ≤ fuel)%nat → ∃ k,
    (if has_children =? 0 then mret (textbuf n [])
     else b ← gets db;
       form_args_string d altlink u (form_type_string d altlink e u fuel) (length (db_start b)) true
         (mk_cursor (textbuf n []) 0 (Z.of_nat n))) s = Ok (textbuf n args, moved k s).
Proof.
  intros Hs Ha He Hn Hp Hun Hn32 Hl Hargs. destruct (has_children =? 0).
  { subst args. split; [constructor|]. exists 0%nat. intros fuel _. exists 0. by rewrite moved_0. }
  destruct Hargs as (t & rest' & pstrs & -> & -> & Hok & Hpar). split; [apply joined_nonzero, (proj2 (proj2 types_nonzero) _ _ _ Hpar)|].
  destruct (proj2 (proj2 types_run) _ _ _ Hpar) as [n0 Hn0]. exists n0. intros fuel Hf. eexists.
  rewrite bind_ok with (a := db s) (s1 := s) by done.
  apply (Hn0 (S fuel) ltac:(lia) (length (db_start (db s))) n [] _ s rest'); try done.
  - apply at_text_start; [by apply Forall_nil|cbn; lia|lia].
  - by rewrite Hp.
  - pose proof (unread_length s Hs) as Hlen. rewrite Hun, length_app in Hlen. pose proof (dies_count_le d altlink e u t p (proj1 Hok)).
    destruct Hs as (_ & ? & ? & ?). lia.
Qed.

Lemma form_type_strings_run fn_buf ret args n s : function_at fn_buf ret args → allocs s = [] → (4 < n)%nat → Z.of_nat n < 2^32 →
  (length ret < n)%nat → (length args < n)%nat →
  nonzero ret ∧ nonzero args ∧ ∃ n0, ∀ fuel, (n0 ≤ fuel)%nat →
    dwarf_form_type_strings d altlink e u fuel fn_buf (Z.of_nat n) (Z.of_nat n) s = Ok ((textbuf n ret, textbuf n args), s).
Proof.
  intros (a & vals & rest & strs & Hw & He & Hn & Hun & (Hcode & Hlk & Hv) & Hrefs & -> & Hargs) Ha Hn4 Hn32 Hlr Hla.
  destruct (refs_run _ _ Hrefs) as [n0 Hn0].
  assert (Forall nonzero strs) as Hnz.
  { clear -Hrefs. induction Hrefs as [|r str refs strs Hr _ IH]; constructor; [exact (proj1 types_nonzero _ _ Hr)|exact IH]. }
  assert (length (concat strs) < n)%nat as Hlc by (unfold ret_text in Hlr; destruct (concat strs); cbn in *; lia).
  assert (nonzero (concat strs)) as Hnzc by (by apply Forall_concat).
  split; [unfold ret_text; destruct (concat strs); [const_nonzero|done]|].
  set (s0 := s <| db := fn_buf |>). assert (unread s0 = enc_entry a vals ++ rest) as Hun0 by exact Hun.
  unfold enc_entry in Hun0. rewrite <-app_assoc in Hun0. destruct (unread_after s0 _ _ Hw Hun0) as [Hs1 Hu1].
  set (s1 := moved (Z.of_nat (length (uleb128_enc 9 (ab_code a)))) s0) in *. destruct (unread_after s1 _ _ Hs1 Hu1) as [Hs2 Hu2].
  set (s2 := moved (Z.of_nat (length (concat (vals.*1)))) s1) in *.
  destruct (function_args_run _ (ab_has_children a) rest args n s2 Hs2 Ha He Hn eq_refl Hu2 Hn32 Hla) as (Hnza & n1 & Hn1).
  { replace (db_buf (db s2)) with (db_buf fn_buf + Z.of_nat (length (enc_entry a vals))); [done|].
    subst s2 s1 s0. unfold enc_entry. rewrite length_app. cbn. lia. }
  split; [done|]. exists (n0 + n1)%nat. intros fuel Hf. destruct (Hn1 fuel ltac:(lia)) as [k Ek].
  pose proof (ret_attrs_run fuel n (Z.of_nat n) (ab_attrs a) ltac:(lia) _ vals strs [] s1 rest Hv (Hn0 fuel ltac:(lia)) Hnz
    ltac:(by apply Forall_nil) Hlc Hs1 Ha He Hn eq_refl Hu1) as Er. fold s2 in Er.
  assert (textbuf n [] = replicate n 0) as Ez by (unfold textbuf; cbn; by rewrite Nat.sub_0_r). rewrite Ez in *.
  unfold dwarf_form_type_strings. rewrite Nat2Z.id. cbv zeta.
  edestruct (on_buf_back (textbuf n (ret_text strs), textbuf n args)) as [b' Eb]; [| |by erewrite bind_ok by exact Eb].
  - fold s0. erewrite bind_ok by (apply (reads_as_uleb (ab_code a) ltac:(lia) s0 _ Hw Hun0)). fold s1.
    replace (ab_code a =? 0) with false by lia. rewrite (bind_ok _ _ _ _ _ (Hlk s1)), (bind_ok _ _ _ _ _ Er). cbn [negb].
    rewrite (bind_ok _ _ _ _ _ Ek). erewrite bind_ok by (apply ret_end; [done|done|done|lia]). cbn [app]. unfold ret_text. by destruct (concat strs).
  - subst s2 s1 s0. by destruct s.
Qed.
End type_trees.

(** ** The strings given out *)
Definition given (str : list Z) : option (list Z) := match str with [] => None | _ => Some str end.

Lemma strdup_run str s : allocs s = [] → backtrace_strdup str s = Ok (str, s).
Proof. intros Ha. unfold backtrace_strdup. by rewrite (bind_ok _ _ _ true s) by (unfold alloc_answer; by rewrite Ha). Qed.

Lemma give_string_run str s : allocs s = [] → give_string true (Some str) s = Ok (given str, s).
Proof.
  intros Ha. unfold give_string. erewrite bind_ok by reflexivity. destruct str; [done|].
  by rewrite (bind_ok _ _ _ _ _ (strdup_run _ s Ha)).
Qed.

(** The function with its strings remembered: no more of the file is read. *)
Lemma info_remembered d altlink e fuel u f ret args s : allocs s = [] → fn_ret f = Some ret → fn_args f = Some args →
  dwarf_info_by_iterdata d altlink e fuel u true true f s = Ok ((f, low_pc f, given ret, given args), s).
Proof.
  intros Ha Hr Hg. unfold dwarf_info_by_iterdata. rewrite Hr, Hg. cbn [bool_decide andb orb]. erewrite bind_ok by reflexivity.
  rewrite Hr, Hg. by rewrite (bind_ok _ _ _ _ _ (give_string_run ret s Ha)), (bind_ok _ _ _ _ _ (give_string_run args s Ha)).
Qed.

Definition function_buf (d : dwarf_sections) (e : bool) (f : function) : dwarf_buf :=
  mk_dwarf_buf DEBUG_INFO (d DEBUG_INFO) (function_data f) (function_data_len f) e false.

(** C13. The type of a function as strings: where the function's entry and what it
    refers to are of the shape [function_at] says, and the strings have less than
    1000 bytes, [dwarf_info_by_iterdata] ends, with the fuel the nesting needs, and
    gives out the address of the function, the text of its result ("void" if there
    is none) and the texts of its parameters separated by commas; the function
    remembers them, so that the next call gives the same with nothing read at all,
    whatever the sections hold by then.  The shape: types are base types, typedefs,
    structs, unions and enums that have a name, const and volatile types, pointers,
    and function types, nested to any depth; "..." comes behind a parameter; among
    the parameters may be entries of other kinds, with children of any depth, which
    are passed over by DW_AT_sibling or entry by entry.  Not of the shape are
    arrays ([array_element_lost]), structs without a name ([struct_without_name])
    and functions with "..." only ([only_dots_void]). *)
Theorem function_strings_correct d altlink e u f ret args s :
  sections_ok d → 0 ≤ unit_data u → unit_data u + unit_data_len u ≤ sec_size d DEBUG_INFO → 0 ≤ unit_data_offset u < 2^63 →
  fn_ret f = None → fn_args f = None → function_at d altlink e u (function_buf d e f) ret args →
  (length ret < 1000)%nat → (length args < 1000)%nat → allocs s = [] →
  ∃ f', fn_ret f' = Some ret ∧ fn_args f' = Some args ∧ fn_name f' = fn_name f ∧ low_pc f' = low_pc f ∧
    (∃ n0, ∀ fuel, (n0 ≤ fuel)%nat →
      dwarf_info_by_iterdata d altlink e fuel u true true f s = Ok ((f', low_pc f, given ret, given args), s)) ∧
    (∀ d', dwarf_info_by_iterdata d' altlink e 0 u true true f' s = Ok ((f', low_pc f, given ret, given args), s)).
Proof.
  intros Hd Hu0 Hu1 Hu2 Hr Hg Hf Hlr Hla Ha.
  destruct (form_type_strings_run d altlink e u Hd Hu0 Hu1 Hu2 _ _ _ 1000 s Hf Ha) as (Hnr & Hng & n0 & Hn0); try lia.
  exists ((f <| fn_ret := Some ret |>) <| fn_args := Some args |>). repeat (split; [done|]). split.
  - exists n0. intros fuel Hfuel. specialize (Hn0 fuel Hfuel). change (Z.of_nat 1000) with 1000 in Hn0.
    unfold dwarf_info_by_iterdata. rewrite Hr, Hg, bool_decide_eq_true_2 by done. cbn [andb orb].
    rewrite bind_ok with (a := (f <| fn_ret := Some ret |>) <| fn_args := Some args |>) (s1 := s); [cbn [fn_ret fn_args set_field]|].
    2: { cbv zeta. fold (function_buf d e f). rewrite (bind_ok _ _ _ _ _ Hn0).
      rewrite (bind_ok _ _ _ _ _ (string_at_text 1000 ret 0 s Hnr Hlr ltac:(lia))), (bind_ok _ _ _ _ _ (strdup_run _ s Ha)).
      by rewrite (bind_ok _ _ _ _ _ (string_at_text 1000 args 0 s Hng Hla ltac:(lia))), (bind_ok _ _ _ _ _ (strdup_run _ s Ha)). }
    by rewrite (bind_ok _ _ _ _ _ (give_string_run ret s Ha)), (bind_ok _ _ _ _ _ (give_string_run args s Ha)).
  - intros d'. by rewrite info_remembered with (ret := ret) (args := args).
Qed.

(** ** Examples

    [int *f(int)], with a variable in a block of its body: the entries of int and
    int * stand in front of the function's. *)
Section ref_form.
Variables (d : dwarf_sections) (altlink : option dwarf_sections) (e : bool) (name : Z) (d64 : bool) (ver asz : Z).

Lemma form_ref1_run p r : runs_at e p [r] (true, val_uint ATTR_VAL_REF_UNIT r) (read_attribute d altlink name DW_FORM_ref1 0 d64 ver asz).
Proof.
  apply runs_at_of. change (read_attribute d altlink name DW_FORM_ref1 0 d64 ver asz) with (read_number ATTR_VAL_REF_UNIT read_byte).
  unfold read_number. eapply runs_as_last; [apply runs_as_of, reads_as_byte|]. done.
Qed.
End ref_form.

Definition ref1 (r : Z) : list Z * attr_val := ([r], val_uint ATTR_VAL_REF_UNIT r).
Definition name_val (p : Z) (str : list Z) : list Z * attr_val :=
  (str ++ [0], mk_attr_val ATTR_VAL_STRING (U_string (Some (InSection false DEBUG_INFO p)))).
Definition base_abbrev : abbrev := mk_abbrev 1 DW_TAG_base_type 0 [mk_attr DW_AT_name DW_FORM_string 0].
Definition ref_abbrev (code tag children : Z) : abbrev := mk_abbrev code tag children [mk_attr DW_AT_type DW_FORM_ref1 0].
Definition type_abbrevs : list abbrev :=
  [base_abbrev; ref_abbrev 2 DW_TAG_pointer_type 0; ref_abbrev 3 DW_TAG_subprogram 1; ref_abbrev 4 DW_TAG_formal_parameter 0;
   mk_abbrev 5 DW_TAG_unspecified_parameters 0 []; mk_abbrev 6 DW_TAG_structure_type 0 [];
   ref_abbrev 7 DW_TAG_array_type 1; mk_abbrev 8 DW_TAG_subrange_type 0 [mk_attr DW_AT_type DW_FORM_ref1 0; mk_attr DW_AT_upper_bound DW_FORM_data1 0];
   mk_abbrev 9 DW_TAG_lexical_block 1 [mk_attr DW_AT_sibling DW_FORM_ref1 0]; mk_abbrev 10 DW_TAG_variable 0 []].

Definition types_info : list Z := [1; 105; 110; 116; 0; 2; 0; 3; 5; 4; 0; 9; 15; 10; 0; 0].
Definition types_unit (info : list Z) : dwarf_unit :=
  mk_unit 0 (Z.of_nat (length info)) 0 0 0 5 false 8 0 0 0 0 None None None type_abbrevs.
Definition types_function (info : list Z) (off : Z) : function :=
  mk_function None None 0 [] off (Z.of_nat (length info) - off) 0x1000 None None 0.
Definition types_strings (info : list Z) (off : Z) : res (option (list Z) * option (list Z)) :=
  match dwarf_info_by_iterdata (example_sections info) None false 20 (types_unit info) true true (types_function info off)
          (witness_state []) with
  | Ok ((_, _, ret, args), _) => Ok (ret, args)
  | Err f => Err f
  end.

Lemma types_abbrev_found s : Forall (λ a, lookup_abbrev type_abbrevs (ab_code a) s = Ok (Some a, s)) type_abbrevs.
Proof. repeat constructor; reflexivity. Qed.

Section example.
Let d := example_sections types_info.
Let u := types_unit types_info.

Lemma ref_entry_ok p code tag children r : ref_abbrev code tag children ∈ type_abbrevs →
  entry_ok d None false u p (ref_abbrev code tag children) [ref1 r].
Proof.
  intros Ha. split; [|split].
  - cbn. unfold type_abbrevs in Ha. set_unfold in Ha. naive_solver lia.
  - intros s. pose proof (types_abbrev_found s) as Hall. rewrite Forall_forall in Hall. by apply Hall in Ha.
  - split; [|done]. apply form_ref1_run.
Qed.

Lemma int_type : type_at d None false u 0 (string_bytes "int").
Proof.
  apply (Type_named d None false u 0 base_abbrev [name_val 1 [105; 110; 116]] (drop 5 types_info) [] (InSection false DEBUG_INFO 1));
    [|done|done|done|const_nonzero].
  repeat (split; [done|]). split; [|done].
  apply form_string_run with (str := [105; 110; 116]). const_nonzero.
Qed.

Lemma pointer_type : type_at d None false u 5 (string_bytes "int" ++ string_bytes " *").
Proof.
  apply (Type_pointer d None false u 5 (ref_abbrev 2 DW_TAG_pointer_type 0) [ref1 0] (drop 7 types_info)); [|done|].
  - repeat (split; [done|]). apply ref_entry_ok. unfold type_abbrevs. set_solver.
  - apply Ref_type; [done|]. exact int_type.
Qed.

Definition body_dies : dies :=
  Die (ref_abbrev 4 DW_TAG_formal_parameter 0) [ref1 0] No_dies
    (Die (mk_abbrev 9 DW_TAG_lexical_block 1 [mk_attr DW_AT_sibling DW_FORM_ref1 0]) [ref1 15]
      (Die (mk_abbrev 10 DW_TAG_variable 0 []) [] No_dies No_dies) No_dies).
Lemma body_ok : entries_ok d None false u 9 body_dies.
Proof.
  assert (∀ a s, a ∈ type_abbrevs → lookup_abbrev (abbrevs u) (ab_code a) s = Ok (Some a, s)) as Hlk.
  { intros a s Ha. pose proof (types_abbrev_found s) as Hall. rewrite Forall_forall in Hall. by apply Hall in Ha. }
  split.
  - repeat first [apply form_ref1_run | apply Hlk; unfold type_abbrevs; set_solver | split | done].
  - cbn. repeat split; try done. by right.
Qed.

Lemma example_function : function_at d None false u (function_buf d false (types_function types_info 7))
  (string_bytes "int *") (string_bytes "int").
Proof.
  exists (ref_abbrev 3 DW_TAG_subprogram 1), [ref1 5], (drop 9 types_info), [string_bytes "int" ++ string_bytes " *"].
  split; [apply (bool_decide_unpack _); vm_compute; exact I|]. repeat (split; [done|]).
  split; [apply ref_entry_ok; unfold type_abbrevs; set_solver|]. split; [constructor; [exact pointer_type|constructor]|]. split; [done|].
  exists body_dies, [], [string_bytes "int"]. split; [done|]. split; [done|]. split; [exact body_ok|].
  apply Params_cons; [done|done|exact int_type|done|]. apply Params_other; [done|done|constructor].
Qed.
End example.

Lemma function_strings_correct_witness :
  ∃ f', fn_ret f' = Some (string_bytes "int *") ∧ fn_args f' = Some (string_bytes "int") ∧ fn_name f' = None ∧ low_pc f' = 0x1000 ∧
    (∃ n0, ∀ fuel, (n0 ≤ fuel)%nat →
      dwarf_info_by_iterdata (example_sections types_info) None false fuel (types_unit types_info) true true
        (types_function types_info 7) (witness_state []) =
      Ok ((f', 0x1000, Some (string_bytes "int *"), Some (string_bytes "int")), witness_state [])) ∧
    (∀ d', dwarf_info_by_iterdata d' None false 0 (types_unit types_info) true true f' (witness_state []) =
      Ok ((f', 0x1000, Some (string_bytes "int *"), Some (string_bytes "int")), witness_state [])).
Proof.
  apply (function_strings_correct (example_sections types_info) None false (types_unit types_info) (types_function types_info 7)
    (string_bytes "int *") (string_bytes "int") (witness_state [])); try done.
  - apply sections_ok_example; [|done]. apply (bool_decide_unpack _). vm_compute. exact I.
  - exact example_function.
  - cbn. lia.
  - cbn. lia.
Defined.

(** Two parameters whose type has a name of 600 bytes: the second is written
    behind the end of the buffer of 1000. *)
Definition long_info : list Z := [1] ++ replicate 600 105 ++ [0] ++ [3; 0; 4; 0; 4; 0; 0].
Lemma long_types_overflow : types_strings long_info 602 = Err OutOfBounds.
Proof. vm_compute. reflexivity. Qed.

(** A function with "..." only, and one that returns a struct that has no name. *)
Lemma only_dots_void : types_strings [1; 105; 0; 3; 0; 5; 0] 3 = Ok (Some (string_bytes "i"), Some (string_bytes "...void")).
Proof. vm_compute. reflexivity. Qed.
Lemma struct_without_name : types_strings [6; 3; 0; 0] 1 = Err NullDeref.
Proof. vm_compute. reflexivity. Qed.

(** An array of ten elements of the type "c", with an index of the type "i": the
    type of the index is written, the one of the elements is not. *)
Lemma array_element_lost :
  types_strings [1; 105; 0; 1; 99; 0; 7; 3; 8; 0; 9; 0; 3; 6; 0] 12 = Ok (Some (string_bytes "i[10]"), Some (string_bytes "void")).
Proof. vm_compute. reflexivity. Qed.
