(* ===== verification/DwarfPath.v ===== *)
(** * The absolute name of a unit's file (src/dwarf/dwarf.c)

    [dwarf_make_abs_filename] joins the directory of the compilation and the
    relative name of a unit, taking away a directory for each leading "../".  The
    separator is '/', as on any system but Windows and DOS. *)

From S2P Require Import Prelude Util Bytes Sort Search BtMmap DwarfBuf DwarfAttr DwarfAbbrev DwarfLine DwarfRange DwarfUnit DwarfFunc.

(** [s[i]] of new memory; what has not been written is [None]. *)
Definition char_at (s : list (option Z)) (i : Z) : D Z :=
  c ← array_get s i;
  match c with Some c => mret c | None => fail Uninitialized end.

Definition IS_DIR_SEPARATOR (c : Z) : bool := c =? 47.

(** [memcpy (s + at, bytes, ...)] *)
Definition copy_chars (s : list (option Z)) (at_ : Z) (bytes : list Z) : D (list (option Z)) :=
  if (0 <=? at_) && (at_ + Z.of_nat (length bytes) <=? Z.of_nat (length s)) then
    mret (take (Z.to_nat at_) s ++ (Some <$> bytes) ++ drop (Z.to_nat at_ + length bytes) s)
  else fail OutOfBounds.

(** [while (dir_len && !IS_DIR_SEPARATOR(s[dir_len])) dir_len--;], with [n] for
    the low bits of [dir_len]. *)
Fixpoint back_to_separator (s : list (option Z)) (n : nat) : D Z :=
  match n with
  | O => mret 0
  | S m =>
      c ← char_at s (Z.of_nat n);
      if IS_DIR_SEPARATOR c then mret (Z.of_nat n) else back_to_separator s m
  end.

(** The loop over leading "../"; it ends with the characters of [filename]. *)
Fixpoint collapse (s : list (option Z)) (filename : list Z) (dir_len : Z) : D (list Z * Z) :=
  match filename with
  | c0 :: c1 :: c2 :: rest =>
      if (c0 =? 46) && (c1 =? 46) && IS_DIR_SEPARATOR c2 then
        let dir_len := u64 (dir_len - 1) in
        dir_len ← (if dir_len <? Z.of_nat (length s) then back_to_separator s (Z.to_nat dir_len) else fail OutOfBounds);
        collapse s rest dir_len
      else mret (filename, dir_len)
  | _ => mret (filename, dir_len)
  end.

(** [while (dir_len--)]: every separator is written as '/'. *)
Fixpoint normalize (s : list (option Z)) (n : nat) : D (list (option Z)) :=
  match n with
  | O => mret s
  | S m =>
      c ← char_at s (Z.of_nat m);
      normalize (if IS_DIR_SEPARATOR c then <[m := Some 47]> s else s) m
  end.

(** The string in [s]. *)
Fixpoint chars_string (s : list (option Z)) : res (list Z) :=
  match s with
  | [] => Err OutOfBounds
  | None :: _ => Err Uninitialized
  | Some c :: s =>
      if c =? 0 then Ok [] else match chars_string s with Ok l => Ok (c :: l) | Err f => Err f end
  end.

(** The bytes of the new name, for the directory [dir] and the name [filename]. *)
Definition abs_filename_bytes (dir filename : list Z) : D (list Z) :=
  let dir_len := Z.of_nat (length dir) in
  let s := replicate (length dir + length filename + 2) None in
  s ← copy_chars s 0 dir;
  s ← copy_chars s dir_len [47];
  c ← char_at s (dir_len - 1);
  let dir_len := if IS_DIR_SEPARATOR c then dir_len - 1 else dir_len in
  '(filename, dir_len) ← collapse s filename dir_len;
  s ← copy_chars s (dir_len + 1) (filename ++ [0]);
  s ← normalize s (Z.to_nat dir_len);
  lift_res (chars_string s).

Section abs_filename.
Variable dwarf_sections : dwarf_sections.
Variable alt : option altfile.

(** 1 or 0, and [u->abs_filename]. *)
Definition dwarf_make_abs_filename (u : dwarf_unit) (ul : unit_lazy) : D (bool * unit_lazy) :=
  let altlink := af_sections <$> alt in
  let keep := mret (false, ul <| ul_abs_filename := unit_filename u |>) in
  match unit_filename u, comp_dir u with
  | Some filename, Some dir =>
      abs ← IS_ABSOLUTE_PATH dwarf_sections altlink filename;
      if (abs : bool) then keep
      else
        name ← string_of dwarf_sections altlink filename;
        dir ← string_of dwarf_sections altlink dir;
        ok ← alloc_answer;
        if negb ok then mret (true, ul)
        else
          bytes ← abs_filename_bytes dir name;
          id ← gets heap;
          modify (λ s, s <| heap := S id |>);;
          mret (false, ul <| ul_abs_filename := Some (OnHeap id bytes) |>)
  | Some filename, None =>
      IS_ABSOLUTE_PATH dwarf_sections altlink filename;; keep
  | None, _ => keep
  end.
End abs_filename.

(** ** Paths *)

(** A path of names; every name is preceded by a separator. *)
Definition path (names : list (list Z)) : list Z := concat ((λ n, 47 :: n) <$> names).
Definition is_name (n : list Z) : Prop := n ≠ [] ∧ Forall (λ c, c ≠ 47 ∧ c ≠ 0) n.
(** "../" [k] times. *)
Definition ups (k : nat) : list Z := concat (replicate k [46; 46; 47]).
Definition no_up (name : list Z) : Prop := ∀ l, name ≠ [46; 46; 47] ++ l.

Lemma path_snoc names n : path (names ++ [n]) = path names ++ 47 :: n.
Proof. unfold path. rewrite fmap_app, concat_app. cbn. by rewrite app_nil_r. Qed.

(** What has been written. *)
Definition written (s : list (option Z)) (p : list Z) : Prop := ∃ t, s = (Some <$> p) ++ t.

Lemma written_lookup s p i c : written s p → p !! i = Some c → s !! i = Some (Some c).
Proof. intros [t ->] Hi. rewrite lookup_app, list_lookup_fmap, Hi. done. Qed.

Lemma char_at_written s p i c st : written s p → p !! i = Some c → char_at s (Z.of_nat i) st = Ok (c, st).
Proof.
  intros Hw Hi. unfold char_at, array_get. replace (Z.of_nat i <? 0) with false by lia.
  rewrite Nat2Z.id, (written_lookup _ _ _ _ Hw Hi). by erewrite bind_ok by reflexivity.
Qed.

(** Back over a name to the separator before it. *)
Lemma back_spec s p q st : written s p → ∀ n, (q ≤ n)%nat → (∀ i, (q < i ≤ n)%nat → ∃ c, p !! i = Some c ∧ c ≠ 47) →
  (q = 0%nat ∨ p !! q = Some 47) → back_to_separator s n st = Ok (Z.of_nat q, st).
Proof.
  intros Hw. induction n as [|n IH]; intros Hq Hn Hs; cbn [back_to_separator]; [by replace q with 0%nat by lia|].
  destruct (decide (q = S n)) as [->|].
  - destruct Hs as [|Hs]; [done|]. erewrite bind_ok by (by eapply char_at_written). done.
  - destruct (Hn (S n) ltac:(lia)) as (c & Hc & Hne). erewrite bind_ok by (by eapply char_at_written).
    unfold IS_DIR_SEPARATOR. replace (c =? 47) with false by lia. apply IH; [lia| |done]. intros i Hi. apply Hn. lia.
Qed.

Lemma normalize_spec s p st : written s p → ∀ n, (n ≤ length p)%nat → normalize s n st = Ok (s, st).
Proof.
  intros Hw. induction n as [|n IH]; intros Hn; cbn [normalize]; [done|].
  destruct (lookup_lt_is_Some_2 p n ltac:(lia)) as [c Hc]. erewrite bind_ok by (by eapply char_at_written).
  unfold IS_DIR_SEPARATOR. destruct (Z.eqb_spec c 47) as [->|]; [|apply IH; lia].
  rewrite list_insert_id by (by eapply written_lookup). apply IH. lia.
Qed.

Lemma path_length_pos names : names ≠ [] → (0 < length (path names))%nat.
Proof. destruct names; cbn; [done|]. lia. Qed.

Lemma path_app l1 l2 : path (l1 ++ l2) = path l1 ++ path l2.
Proof. unfold path. by rewrite fmap_app, concat_app. Qed.

(** One "../": back over the last name. *)
Lemma back_over_name s l1 nm l2 st : written s (path (l1 ++ nm :: l2) ++ [47]) → is_name nm →
  back_to_separator s (length (path l1) + length nm) st = Ok (Z.of_nat (length (path l1)), st).
Proof.
  intros Hw [_ Hnm]. rewrite path_app in Hw. set (p := (path l1 ++ path (nm :: l2)) ++ [47]) in Hw.
  assert (∀ i, p !! (length (path l1) + i)%nat = (47 :: nm ++ path l2 ++ [47]) !! i) as Hp.
  { intros i. subst p. rewrite <-app_assoc, lookup_app_r by lia. replace (_ + i - _)%nat with i by lia.
    unfold path at 1. cbn. by rewrite <-app_assoc. }
  apply (back_spec s p _ st Hw); [lia| |].
  - intros i Hi. replace i with (length (path l1) + (i - length (path l1)))%nat by lia. rewrite Hp.
    destruct (i - length (path l1))%nat as [|j] eqn:E; [lia|].
    change ((47 :: ?l) !! S j) with (l !! j). destruct (lookup_lt_is_Some_2 nm j ltac:(lia)) as [c Hc].
    exists c. split; [by rewrite lookup_app, Hc|]. eapply Forall_lookup in Hnm; [|exact Hc]. lia.
  - right. replace (length (path l1)) with (length (path l1) + 0)%nat by lia. by rewrite Hp.
Qed.

Section collapse_proof.
Variables (s : list (option Z)) (names : list (list Z)) (rest : list Z) (st : dstate).
Hypothesis Hw : written s (path names ++ [47]).
Hypothesis Hn : Forall is_name names.
Hypothesis Hr : no_up rest.
Hypothesis Hlen : Z.of_nat (length s) < 2^64.

Lemma written_length : (length (path names) < length s)%nat.
Proof. destruct Hw as [t ->]. rewrite length_app, length_fmap, length_app. cbn. lia. Qed.

(** One round. *)
Lemma collapse_up k m : (m < length names)%nat →
  collapse s (ups (S k) ++ rest) (Z.of_nat (length (path (take (S m) names)))) st =
  collapse s (ups k ++ rest) (Z.of_nat (length (path (take m names)))) st.
Proof.
  intros Hm. pose proof written_length. destruct (lookup_lt_is_Some_2 names m ltac:(lia)) as [nm Hnm].
  change (ups (S k) ++ rest) with (46 :: 46 :: 47 :: (ups k ++ rest)). cbn [collapse]. cbn [Z.eqb Pos.eqb andb IS_DIR_SEPARATOR].
  rewrite (take_S_r _ _ _ Hnm), path_app, length_app. cbv zeta. change (path [nm]) with (47 :: nm ++ []). rewrite app_nil_r. cbn [length].
  assert (names = take m names ++ nm :: drop (S m) names) as Esplit by (by rewrite (take_drop_middle _ _ _ Hnm)).
  assert (length (path (take m names)) + S (length nm) ≤ length (path names))%nat.
  { rewrite Esplit at 2. rewrite path_app, length_app. change (path (nm :: ?l)) with ((47 :: nm) ++ path l). rewrite length_app. cbn. lia. }
  rewrite u64_small by lia. replace (_ <? _) with true by lia.
  replace (Z.to_nat _) with (length (path (take m names)) + length nm)%nat by lia.
  pose proof Hw as Hw'. rewrite Esplit in Hw' at 1.
  by rewrite (bind_ok _ _ _ _ _ (back_over_name _ _ _ _ st Hw' ltac:(by eapply Forall_lookup_1))).
Qed.

(** The loop over "../", as far as there are directories; one more reads [s[-1]]. *)
Lemma collapse_spec k : ∀ m, (m ≤ length names)%nat →
  collapse s (ups k ++ rest) (Z.of_nat (length (path (take m names)))) st =
  if (k <=? m)%nat then Ok ((rest, Z.of_nat (length (path (take (m - k) names)))), st) else Err OutOfBounds.
Proof.
  induction k as [|k IH]; intros m Hm.
  - cbn [ups replicate concat app Nat.leb]. rewrite Nat.sub_0_r. destruct rest as [|c0 [|c1 [|c2 rest']]]; try done. cbn [collapse].
    destruct ((c0 =? 46) && (c1 =? 46) && IS_DIR_SEPARATOR c2) eqn:E; [|done]. exfalso. apply (Hr rest'). unfold IS_DIR_SEPARATOR in E.
    assert (c0 = 46 ∧ c1 = 46 ∧ c2 = 47) as (-> & -> & ->) by lia. done.
  - destruct m as [|m]; [|by rewrite collapse_up, IH by lia].
    change (ups (S k) ++ rest) with (46 :: 46 :: 47 :: (ups k ++ rest)). cbn [collapse]. cbn [Z.eqb Pos.eqb andb IS_DIR_SEPARATOR].
    cbv zeta. change (u64 (Z.of_nat (length (path (take 0 names))) - 1)) with (2^64 - 1).
    by replace (2^64 - 1 <? Z.of_nat (length s)) with false by lia.
Qed.
End collapse_proof.

Lemma chars_string_written str t : Forall (λ c, c ≠ 0) str → chars_string ((Some <$> str) ++ Some 0 :: t) = Ok str.
Proof.
  induction 1 as [|c str Hc _ IH]; [done|]. cbn. replace (c =? 0) with false by lia. by rewrite IH.
Qed.

Lemma copy_chars_ok s1 s2 s3 bytes at_ st : at_ = Z.of_nat (length s1) → length s2 = length bytes →
  copy_chars (s1 ++ s2 ++ s3) at_ bytes st = Ok (s1 ++ (Some <$> bytes) ++ s3, st).
Proof.
  intros -> Hl. unfold copy_chars. rewrite !length_app. replace (_ && _) with true by lia.
  rewrite Nat2Z.id, take_app_length, (app_assoc s1 s2 s3), drop_app_length'; [done|]. rewrite length_app. lia.
Qed.

Lemma path_nonzero names : Forall is_name names → Forall (λ c, c ≠ 0) (path names).
Proof.
  induction 1 as [|n names [_ Hn] _ IH]; [constructor|]. change (path (n :: names)) with ((47 :: n) ++ path names).
  apply Forall_app. split; [|done]. constructor; [done|]. eapply Forall_impl; [exact Hn|]. naive_solver.
Qed.

Lemma path_last names : names ≠ [] → Forall is_name names → ∃ l c, path names = l ++ [c] ∧ c ≠ 47.
Proof.
  intros Hne Hn. destruct names as [|nm names _] using rev_ind; [done|]. apply Forall_app in Hn as [_ [[Hnm Hc] _]%Forall_cons].
  rewrite path_snoc. destruct nm as [|c nm _] using rev_ind; [done|]. apply Forall_app in Hc as [_ [[Hc _] _]%Forall_cons].
  exists (path names ++ 47 :: nm), c. by rewrite <-app_assoc.
Qed.

(** The rest of the name behind the directories that are left. *)
Lemma finish_name s names rest st : written s (path names ++ [47]) → (length (path names) + length rest + 2 ≤ length s)%nat →
  Forall is_name names → Forall (λ c, c ≠ 0) rest →
  (s ← copy_chars s (Z.of_nat (length (path names)) + 1) (rest ++ [0]);
   s ← normalize s (Z.to_nat (Z.of_nat (length (path names))));
   lift_res (chars_string s)) st = Ok (path names ++ 47 :: rest, st).
Proof.
  intros [t ->] Hlen Hn Hr. rewrite length_app, length_fmap, length_app in Hlen. cbn in Hlen.
  rewrite <-(take_drop (length rest + 1) t).
  erewrite bind_ok by (apply copy_chars_ok; [rewrite length_fmap, length_app; cbn; lia|rewrite length_take, length_app; cbn; lia]).
  set (s' := _ ++ _ ++ drop _ t).
  assert (s' = (Some <$> path names ++ 47 :: rest) ++ Some 0 :: drop (length rest + 1) t) as ->.
  { subst s'. rewrite !fmap_app, <-!app_assoc. done. }
  rewrite Nat2Z.id. erewrite bind_ok by (apply (normalize_spec _ (path names ++ 47 :: rest)); [by eexists|rewrite length_app; lia]).
  unfold lift_res. rewrite chars_string_written; [done|]. apply Forall_app. split; [by apply path_nonzero|]. by constructor.
Qed.

(** The directory in the buffer, and a separator behind it. *)
Lemma written_prefix s names m : written s (path names ++ [47]) → written s (path (take m names) ++ [47]).
Proof.
  intros [t ->]. rewrite <-(take_drop m names) at 1. rewrite path_app. destruct (drop m names) as [|nm l].
  - rewrite app_nil_r. by exists t.
  - exists ((Some <$> (nm ++ path l) ++ [47]) ++ t). rewrite app_assoc, <-fmap_app. do 2 f_equal.
    rewrite <-!app_assoc. cbn. by rewrite <-!app_assoc.
Qed.

Lemma path_take_length names m : (length (path (take m names)) ≤ length (path names))%nat.
Proof. rewrite <-(take_drop m names) at 2. rewrite path_app, length_app. lia. Qed.

Lemma ups_length k : length (ups k) = (3 * k)%nat.
Proof. unfold ups. induction k as [|k IH]; [done|]. cbn [replicate concat]. rewrite length_app, IH. cbn. lia. Qed.

(** C36. The absolute name of a unit's file: the directory of the compilation,
    written with or without a separator at its end, less its last name for each
    leading "../" of the file's name, and the rest of the file's name; as long as
    there are as many directories.  One "../" more reads before the buffer. *)
Theorem abs_filename_correct names (slash : bool) k rest st :
  names ≠ [] → Forall is_name names → no_up rest → Forall (λ c, c ≠ 0) rest →
  Z.of_nat (length (path names) + 3 * k + length rest) < 2^63 →
  abs_filename_bytes (path names ++ (if slash then [47] else [])) (ups k ++ rest) st =
  if (k <=? length names)%nat then Ok (path (take (length names - k) names) ++ 47 :: rest, st) else Err OutOfBounds.
Proof.
  intros Hne Hn Hr Hrz Hlen. set (dir := path names ++ _). unfold abs_filename_bytes. pose proof (ups_length k) as Hk.
  assert (length dir = length (path names) + (if slash then 1 else 0))%nat as Hd by (subst dir; rewrite length_app; by destruct slash).
  set (lf := length (ups k ++ rest)). assert (lf = 3 * k + length rest)%nat as Hlf by (subst lf; rewrite length_app; lia).
  rewrite <-Nat.add_assoc, replicate_add. cbv zeta. change (replicate (length dir) None) with ([] ++ replicate (length dir) (@None Z)).
  rewrite <-app_assoc. erewrite bind_ok by (apply copy_chars_ok; [done|by rewrite length_replicate]). rewrite app_nil_l.
  replace (lf + 2)%nat with (1 + (lf + 1))%nat by lia. rewrite replicate_add.
  erewrite bind_ok by (apply copy_chars_ok; [by rewrite length_fmap|done]). set (s := _ ++ _ ++ _ : list (option Z)).
  assert (length s = length dir + 1 + (lf + 1))%nat as Hs
    by (subst s; rewrite !length_app, !length_fmap, length_replicate; cbn; lia).
  assert (written s (dir ++ [47])) as Hwd by (exists (replicate (lf + 1) None); subst s; by rewrite fmap_app, <-app_assoc).
  assert (written s (path names ++ [47])) as Hw.
  { destruct slash; [|subst dir; by rewrite app_nil_r in Hwd]. destruct Hwd as [t ->]. exists (Some 47 :: t). subst dir.
    by rewrite fmap_app, <-app_assoc. }
  assert (∃ c, char_at s (Z.of_nat (length dir) - 1) st = Ok (c, st) ∧
    (if IS_DIR_SEPARATOR c then Z.of_nat (length dir) - 1 else Z.of_nat (length dir)) = Z.of_nat (length (path (take (length names) names))))
    as (c & Ec & El).
  { pose proof (path_length_pos names Hne). replace (Z.of_nat (length dir) - 1) with (Z.of_nat (length dir - 1)) by lia.
    rewrite take_ge by lia. destruct slash.
    - exists 47. split; [|cbn; lia]. apply (char_at_written _ _ _ _ _ Hw).
      rewrite lookup_app_r by lia. by replace (length dir - 1 - length (path names))%nat with 0%nat by lia.
    - destruct (path_last names Hne Hn) as (l & c & Hp & Hc). exists c. split.
      + apply (char_at_written _ _ _ _ _ Hw). rewrite Hp in Hd |- *. rewrite length_app in Hd. cbn in Hd.
        rewrite <-app_assoc, lookup_app_r by lia. by replace (length dir - 1 - length l)%nat with 0%nat by lia.
      + unfold IS_DIR_SEPARATOR. replace (c =? 47) with false by lia. lia. }
  rewrite (bind_ok _ _ _ _ _ Ec), El.
  pose proof (collapse_spec s names rest st Hw Hn Hr ltac:(destruct slash; lia) k (length names) ltac:(lia)) as Ecol.
  destruct (Nat.leb_spec k (length names)).
  - rewrite (bind_ok _ _ _ _ _ Ecol). apply finish_name; [by apply written_prefix| |by apply Forall_take|done].
    pose proof (path_take_length names (length names - k)). destruct slash; lia.
  - by rewrite (bind_err _ _ _ _ Ecol).
Qed.

Lemma abs_filename_correct_witness :
  abs_filename_bytes [47; 97; 47; 98; 47] [46; 46; 47; 99] (witness_state []) = Ok ([47; 97; 47; 99], witness_state []) ∧
  abs_filename_bytes [47; 97] [46; 46; 47; 46; 46; 47; 99] (witness_state []) = Err OutOfBounds.
Proof.
  split.
  - apply (abs_filename_correct [[97]; [98]] true 1 [99]); try done; repeat constructor; try done; by intros [].
  - apply (abs_filename_correct [[97]] false 2 [99]); try done; repeat constructor; try done; by intros [].
Defined.
