(* ===== verification/DwarfLookup.v ===== *)
(** * Looking up an address (src/dwarf/dwarf.c)

    [dwarf_lookup_pc] finds the unit, the line and the function of an address, and
    the functions inlined there; [dwarf_fileline] asks the files loaded one after
    the other.

    The callback may keep a state of its own: what it answers is a function of all
    calls so far. *)

From S2P Require Import Prelude Util Bytes Sort Search BtMmap DwarfBuf DwarfAttr DwarfAbbrev DwarfLine DwarfRange DwarfUnit DwarfFunc DwarfPath.

(** ** Searching a table

    A table ends with the trailing entry, which is not counted. *)
Definition function_addrs_search (pc : Z) (t : list addrs) (i : nat) : res Z :=
  match t !! i with
  | None => Err OutOfBounds
  | Some entry =>
      if pc <? low entry then Ok (-1)
      else match t !! S i with
      | None => Err OutOfBounds
      | Some next => Ok (if low next <? pc then 1 else 0)
      end
  end.

Definition unit_addrs_search (pc : Z) (t : list addrs) (i : nat) : res Z := function_addrs_search pc t i.

Definition line_search (pc : Z) (t : list line) (i : nat) : res Z :=
  match t !! i with
  | None => Err OutOfBounds
  | Some entry =>
      if pc <? ln_pc entry then Ok (-1)
      else match t !! S i with
      | None => Err OutOfBounds
      | Some next => Ok (if ln_pc next <=? pc then 1 else 0)
      end
  end.

(** [while (pc == (p + 1)->low) ++p;] *)
Fixpoint walk_forward (fuel : nat) (pc : Z) (t : list addrs) (p : nat) : res nat :=
  match t !! S p with
  | None => Err OutOfBounds
  | Some next =>
      if pc =? low next then
        match fuel with O => Err OutOfFuel | S fuel => walk_forward fuel pc t (S p) end
      else Ok p
  end.

(** [while (1)]: back to the first range that includes [pc], among those with the
    same low address. *)
Fixpoint walk_back (pc : Z) (t : list addrs) (p : nat) : res (option nat) :=
  match t !! p with
  | None => Err OutOfBounds
  | Some e =>
      if pc <? high e then Ok (Some p)
      else match p with
      | O => Ok None
      | S q =>
          match t !! q with
          | None => Err OutOfBounds
          | Some prev => if low prev <? low e then Ok None else walk_back pc t q
          end
      end
  end.

(** The search with the two walks behind it, which the source has three times. *)
Definition find_range (search : Z → list addrs → nat → res Z) (pc : Z) (t : list addrs) : res (option nat) :=
  match bsearch (search pc t) (pred (length t)) with
  | Err f => Err f
  | Ok None => Ok None
  | Ok (Some p) =>
      match walk_forward (length t) pc t p with
      | Err f => Err f
      | Ok p => walk_back pc t p
      end
  end.

(** ** The calls *)

(** A call of the callback, [callback (data, pc, filename, lineno, function)]. *)
Record pc_call := mk_pc_call { pc_pc : Z; pc_filename : option cptr; pc_lineno : Z; pc_function : option cptr }.

Section lookup.
Variable answer : list pc_call → Z.

(** What it returns, and the calls with this one. *)
Definition callback (c : pc_call) (log : list pc_call) : Z * list pc_call := (answer (log ++ [c]), log ++ [c]).

(** The value returned, [*filename] and [*lineno], and the calls.  The fuel bounds
    the depth of inlining. *)
Fixpoint report_inlined_functions (fuel : nat) (all : list function) (pc : Z) (f : function)
    (filename : option cptr) (lineno : Z) (log : list pc_call)
    : D (Z * option cptr * Z * list pc_call) :=
  if (pred (length (fn_addrs f)) =? 0)%nat then mret (0, filename, lineno, log)
  else if u64 (pc + 1) =? 0 then mret (0, filename, lineno, log)
  else
    m ← lift_res (find_range function_addrs_search pc (fn_addrs f));
    match m, fuel with
    | None, _ => mret (0, filename, lineno, log)
    | Some _, O => fail OutOfFuel
    | Some m, S fuel =>
        entry ← deref (fn_addrs f !! m);
        i ← deref (owner entry);
        inlined ← deref (all !! i);
        '(ret, filename, lineno, log) ← report_inlined_functions fuel all pc inlined filename lineno log;
        if negb (ret =? 0) then mret (ret, filename, lineno, log)
        else
          let '(ret, log) := callback (mk_pc_call pc filename lineno (fn_name inlined)) log in
          if negb (ret =? 0) then mret (ret, filename, lineno, log)
          else mret (0, caller_filename inlined, caller_lineno inlined, log)
    end.

Variable dwarf_sections : dwarf_sections.
Variable alt : option altfile.
Variable is_bigendian : bool.
Variable pagesize : Z.
Variable threaded : bool.
Variables lfuel rfuel : nat.

(** ** The lookup *)

(** The unit of the range [entry]: its number and what has been read of it. *)
Definition unit_of (dd : dwarf_data) (da : ddata) (entry : nat) : D (nat * unit_lazy) :=
  e ← deref (dd_addrs dd !! entry);
  un ← deref (owner e);
  ul ← deref (da_units da !! un);
  mret (un, ul).

(** Back over the units without useful lines whose range includes [pc] too. *)
Fixpoint skip_useless (dd : dwarf_data) (da : ddata) (pc : Z) (entry : nat) : D nat :=
  match entry with
  | O => mret O
  | S prev =>
      p ← deref (dd_addrs dd !! prev);
      if (low p <=? pc) && (pc <? high p) then
        '(_, ul) ← unit_of dd da entry;
        match ul_lines ul with
        | ReadFailed => skip_useless dd da pc prev
        | _ => mret entry
        end
      else mret entry
  end.

(** The unit whose range includes [pc]: up to [*found = 0; return 0]. *)
Definition choose_unit (dd : dwarf_data) (da : ddata) (pc : Z) : D (option (nat * unit_lazy)) :=
  if (pred (length (dd_addrs dd)) =? 0)%nat || (u64 (pc + 1) =? 0) then mret None
  else
    m ← lift_res (find_range unit_addrs_search pc (dd_addrs dd));
    match m with
    | None => mret None
    | Some entry => entry ← skip_useless dd da pc entry; r ← unit_of dd da entry; mret (Some r)
    end.

(** [*lines] and the data, read if they have not been; with [new_data]. *)
Definition unit_lines (dd : dwarf_data) (un : nat) (ul : unit_lazy) (da : ddata)
    : D (bool * lazy (list line) * ddata) :=
  match ul_lines ul with
  | NotRead =>
      u ← deref (dd_units dd !! un);
      dwarf_read_function_info dwarf_sections alt (dd_units dd) (dd_base_address dd) is_bigendian pagesize threaded
        lfuel rfuel un u da
  | l => mret (false, l, da)
  end.

(** The value returned, [*found], the data and the calls. *)
Definition lookup_result : Type := Z * bool * ddata * list pc_call.

(** The callback's answer is returned. *)
Definition answered (da : ddata) (c : pc_call) (log : list pc_call) : lookup_result :=
  let '(ret, log) := callback c log in (ret, true, da, log).

(** In the unit [un], with the line table [lines]. *)
Definition lookup_in_unit (dd : dwarf_data) (un : nat) (lines : list line) (pc : Z) (da : ddata) (log : list pc_call)
    : D lookup_result :=
  u ← deref (dd_units dd !! un);
  ul ← deref (da_units da !! un);
  ln ← lift_res (bsearch (line_search pc lines) (pred (length lines)));
  match ln with
  | None =>
      '(failed, da) ←
        (if bool_decide (ul_abs_filename ul = None) then
           '(failed, ul) ← dwarf_make_abs_filename dwarf_sections alt u ul;
           mret (failed, da <| da_units := <[un := ul]> (da_units da) |>)
         else mret (false, da));
      if (failed : bool) then mret (0, false, da, log)
      else
        ul ← deref (da_units da !! un);
        mret (answered da (mk_pc_call pc (ul_abs_filename ul) 0 None) log)
  | Some ln =>
      ln ← deref (lines !! ln);
      let only_line := answered da (mk_pc_call pc (ln_filename ln) (ln_lineno ln) None) log in
      let t := ul_function_addrs ul in
      if (pred (length t) =? 0)%nat then mret only_line
      else
        m ← lift_res (find_range function_addrs_search pc t);
        match m with
        | None => mret only_line
        | Some m =>
            e ← deref (t !! m);
            i ← deref (owner e);
            f ← deref (da_all da !! i);
            '(ret, filename, lineno, log) ← report_inlined_functions (length (da_all da)) (da_all da) pc f
              (ln_filename ln) (ln_lineno ln) log;
            if negb (ret =? 0) then mret (ret, true, da, log)
            else mret (answered da (mk_pc_call pc filename lineno (fn_name f)) log)
        end
  end.

(** The fuel bounds the retries after reading the lines of a unit. *)
Fixpoint dwarf_lookup_pc (fuel : nat) (dd : dwarf_data) (pc : Z) (da : ddata) (log : list pc_call) : D lookup_result :=
  r ← choose_unit dd da pc;
  match r with
  | None => mret (0, false, da, log)
  | Some (un, ul) =>
      '(new_data, lines, da) ← unit_lines dd un ul da;
      match lines with
      | NotRead => fail NullDeref
      | ReadFailed =>
          if (new_data : bool) then
            match fuel with O => fail OutOfFuel | S fuel => dwarf_lookup_pc fuel dd pc da log end
          else mret (answered da (mk_pc_call pc None 0 None) log)
      | Have lines => lookup_in_unit dd un lines pc da log
      end
  end.

End lookup.

(** ** The files *)

(** A file of [state->fileline_data], with what has been read of it. *)
Record dwarf_file := mk_dwarf_file {
  df_sections : DwarfBuf.dwarf_sections;
  df_alt : option altfile;
  df_bigendian : bool;
  df_data : dwarf_data;
  df_read : ddata;
}.
#[export] Instance dwarf_file_eta : Settable dwarf_file := λ f,
  mk_dwarf_file (df_sections f) (df_alt f) (df_bigendian f) (df_data f) (df_read f).

Definition ddata0 (dd : dwarf_data) : ddata := mk_ddata (replicate (length (dd_units dd)) unit_lazy0) vec_empty [].

(** 1 or 0, and the list with the new file at its end. *)
Definition backtrace_dwarf_add (pagesize base_address : Z) (sections : DwarfBuf.dwarf_sections) (is_bigendian : bool)
    (fileline_altlink : option altfile) (fileline_data : list dwarf_file) : D (bool * list dwarf_file) :=
  fdata ← build_dwarf_data sections (af_sections <$> fileline_altlink) base_address is_bigendian pagesize;
  match fdata with
  | None => mret (false, fileline_data)
  | Some dd => mret (true, fileline_data ++ [mk_dwarf_file sections fileline_altlink is_bigendian dd (ddata0 dd)])
  end.

Section fileline.
Variable answer : list pc_call → Z.
Variable pagesize : Z.
Variable threaded : bool.
Variables lfuel rfuel : nat.

(** The value returned, the files and the calls. *)
Fixpoint dwarf_fileline (fileline_data : list dwarf_file) (pc : Z) (log : list pc_call)
    : D (Z * list dwarf_file * list pc_call) :=
  match fileline_data with
  | [] => let '(ret, log) := callback answer (mk_pc_call pc None 0 None) log in mret (ret, [], log)
  | f :: next =>
      '(ret, found, da, log) ← dwarf_lookup_pc answer (df_sections f) (df_alt f) (df_bigendian f) pagesize threaded
        lfuel rfuel 0 (df_data f) pc (df_read f) log;
      let f := f <| df_read := da |> in
      if negb (ret =? 0) || found then mret (ret, f :: next, log)
      else
        '(ret, next, log) ← dwarf_fileline next pc log;
        mret (ret, f :: next, log)
  end.
End fileline.

(** ** Searching a sorted table *)

(** The range at [pc] that is found: none that starts at [pc] or before starts
    later, and it is the last in the table, hence the smallest, of those that start
    there and include [pc]. *)
Definition innermost (l : list addrs) (pc : Z) (i : nat) : Prop :=
  ∃ a, l !! i = Some a ∧ low a ≤ pc < high a ∧
    ∀ j b, l !! j = Some b → low b ≤ pc → low b ≤ low a ∧ (pc < high b → (j ≤ i)%nat).

(** A range inside [a] starts before [pc], and has ended. *)
Definition hidden (l : list addrs) (pc : Z) (a : addrs) : Prop :=
  ∃ b, b ∈ l ∧ low a < low b ≤ pc ∧ high b ≤ pc.

(** A list sorted by [f] starts with the elements up to [x]. *)
Lemma split_sorted {A} (f : A → Z) (x : Z) (l : list A) :
  (∀ i j a b, (i < j)%nat → l !! i = Some a → l !! j = Some b → f a ≤ f b) →
  ∃ k, (k ≤ length l)%nat ∧ ∀ i a, l !! i = Some a → f a ≤ x ↔ (i < k)%nat.
Proof.
  induction l as [|y l IH] using rev_ind; intros H; [exists 0%nat; split; [done|]; by intros ? ? ?|].
  destruct (decide (f y ≤ x)).
  - exists (length (l ++ [y])). split; [done|]. intros i a Ha. split; [intros _; by eapply lookup_lt_Some|intros _].
    rewrite lookup_app in Ha. destruct (l !! i) as [|] eqn:E; simplify_eq.
    + assert (f a ≤ f y); [|lia]. apply (H i (length l)).
      * by eapply lookup_lt_Some.
      * by rewrite lookup_app, E.
      * by rewrite lookup_app_r, Nat.sub_diag by lia.
    + apply list_lookup_singleton_Some in Ha as [_ <-]. done.
  - destruct IH as (k & Hk & Hs).
    { intros i j a b Hij Ha Hb. apply (H i j); [done|by apply lookup_app_l_Some..]. }
    exists k. rewrite length_app. split; [lia|]. intros i a Ha. rewrite lookup_app in Ha.
    destruct (l !! i) as [|] eqn:E; simplify_eq; [by apply Hs|].
    apply list_lookup_singleton_Some in Ha as [Hi <-]. apply lookup_ge_None in E. lia.
Qed.

Section search.
Variables (l : list addrs) (tr : addrs) (pc : Z).
Hypothesis Hl : sorted_ranges l.
Hypothesis Htr : pc < low tr.

Lemma sorted_low i j a b : (i ≤ j)%nat → l !! i = Some a → l !! j = Some b → low a ≤ low b.
Proof.
  intros Hij Ha Hb. destruct (decide (i = j)) as [->|]; [simplify_eq; lia|].
  destruct (Hl i j a b) as [|[]]; [lia|done|done|lia|lia].
Qed.

(** The low addresses of the table, up to the trailing entry. *)
Lemma table_low i : (i ≤ length l)%nat → ∃ a, (l ++ [tr]) !! i = Some a ∧ (l !! i = Some a ∨ i = length l ∧ a = tr).
Proof.
  intros Hi. destruct (decide (i < length l)%nat) as [H|].
  - destruct (lookup_lt_is_Some_2 l i H) as [a Ha]. exists a. rewrite lookup_app, Ha. eauto.
  - exists tr. assert (i = length l) as -> by lia. rewrite lookup_app_r, Nat.sub_diag by lia. eauto.
Qed.

(** The number of entries that start at [pc] or before it. *)
Variable k : nat.
Hypothesis Hk : (k ≤ length l)%nat.
Hypothesis Hsplit : ∀ i a, l !! i = Some a → low a ≤ pc ↔ (i < k)%nat.

Lemma table_split i a : (l ++ [tr]) !! i = Some a → low a ≤ pc ↔ (i < k)%nat.
Proof.
  intros Ha. destruct (decide (i < length l)%nat).
  - rewrite lookup_app_l in Ha by done. by apply Hsplit.
  - pose proof (lookup_lt_Some _ _ _ Ha) as Hi. rewrite length_app in Hi. cbn in Hi. assert (i = length l) as -> by lia.
    rewrite lookup_app_r, Nat.sub_diag in Ha by lia. cbn in Ha. simplify_eq. lia.
Qed.

Lemma walk_forward_spec fuel p : (S p ≤ k)%nat → (k - p ≤ fuel)%nat →
  (∀ j a, l !! j = Some a → (p < j < k)%nat → low a = pc) → walk_forward fuel pc (l ++ [tr]) p = Ok (pred k).
Proof.
  revert p. induction fuel as [|fuel IH]; intros p Hp Hf Heq; [lia|]. cbn [walk_forward].
  destruct (table_low (S p) ltac:(lia)) as (a & Ha & Hin). rewrite Ha. pose proof (table_split _ _ Ha) as Hs.
  destruct (decide (S p = k)) as [<-|].
  - replace (pc =? low a) with false by lia. done.
  - destruct Hin as [Hin|[]]; [|lia]. rewrite (Heq (S p) a Hin) by lia. rewrite Z.eqb_refl.
    apply IH; [lia..|]. intros j b Hb Hj. apply (Heq j b Hb). lia.
Qed.

Lemma here_innermost p e : l !! p = Some e → (p < k)%nat → pc < high e →
  (∀ j a, l !! j = Some a → (p < j < k)%nat → low a = low e ∧ high a ≤ pc) → innermost l pc p.
Proof.
  intros He Hp Hpc Hhigh. exists e. pose proof (proj2 (Hsplit _ _ He) Hp). split; [done|]. split; [lia|].
  intros j b Hj Hb. pose proof (proj1 (Hsplit _ _ Hj) Hb) as Hjk.
  destruct (decide (j ≤ p)%nat) as [H'|]; [pose proof (sorted_low _ _ _ _ H' Hj He); lia|].
  destruct (Hhigh j b Hj) as [??]; lia.
Qed.

(** Back from the last entry that starts at [pc] or before it. *)
Lemma walk_back_spec a0 : (0 < k)%nat → l !! pred k = Some a0 → ∀ p, (p < k)%nat →
  (∀ j a, l !! j = Some a → (p ≤ j < k)%nat → low a = low a0) →
  (∀ j a, l !! j = Some a → (p < j < k)%nat → high a ≤ pc) →
  ∃ r, walk_back pc (l ++ [tr]) p = Ok r ∧
    match r with
    | Some i => innermost l pc i
    | None => ∀ a, a ∈ l → low a ≤ pc < high a → hidden l pc a
    end.
Proof.
  intros Hk0 Ha0. assert (low a0 ≤ pc) as Hlow by (apply (Hsplit _ _ Ha0); lia).
  induction p as [|q IH]; intros Hp Heq Hhigh; cbn [walk_back];
    destruct (lookup_lt_is_Some_2 l _ (Nat.lt_le_trans _ _ _ Hp Hk)) as [e He]; rewrite lookup_app, He;
    destruct (Z.ltb_spec pc (high e)) as [Hpc|Hpc].
  1,3: eexists; split; [done|]; eapply here_innermost; [done..|]; intros j a Hj Hjk; split; [|by eapply Hhigh];
      rewrite (Heq _ _ Hj), (Heq _ _ He) by lia; done.
  - eexists. split; [done|]. intros a [j Hj]%list_elem_of_lookup Ha. exfalso.
    pose proof (proj1 (Hsplit _ _ Hj)) as Hjk. destruct (decide (j = 0%nat)) as [->|]; [simplify_eq; lia|].
    specialize (Hhigh j a Hj ltac:(lia)). lia.
  - destruct (lookup_lt_is_Some_2 l q ltac:(lia)) as [prev Hprev]. rewrite lookup_app, Hprev.
    destruct (Z.ltb_spec (low prev) (low e)) as [Hlt|Hge].
    + eexists. split; [done|]. intros a [j Hj]%list_elem_of_lookup Ha. exists e.
      pose proof (proj1 (Hsplit _ _ Hj)) as Hjk. pose proof (proj2 (Hsplit _ _ He) Hp).
      split; [by eapply list_elem_of_lookup_2|]. split; [|done].
      destruct (decide (j ≤ q)%nat) as [Hjq|]; [pose proof (sorted_low _ _ _ _ Hjq Hj Hprev); lia|].
      destruct (decide (j = S q)) as [->|]; [simplify_eq; lia|]. specialize (Hhigh j a Hj ltac:(lia)). lia.
    + apply IH; [lia| |].
      * intros j a Hj Hjk. destruct (decide (j = q)) as [->|]; [|apply (Heq j a Hj); lia].
        assert (a = prev) as -> by congruence.
        pose proof (Heq (S q) e He ltac:(lia)). pose proof (sorted_low q (S q) prev e ltac:(lia) Hj He). lia.
      * intros j a Hj Hjk. destruct (decide (j = S q)) as [->|]; [simplify_eq; lia|]. apply (Hhigh j a Hj). lia.
Qed.
End search.

(** [bsearch] stops at an entry that starts at [pc] or before it, and so that the
    later ones of them start at [pc]. *)
Lemma bsearch_range l tr pc k : sorted_ranges l → pc < low tr →
  (k ≤ length l)%nat → (∀ i a, l !! i = Some a → low a ≤ pc ↔ (i < k)%nat) →
  ∃ r, bsearch (function_addrs_search pc (l ++ [tr])) (length l) = Ok r ∧
    match r with
    | Some p => (p < k)%nat ∧ ∀ j a, l !! j = Some a → (p < j < k)%nat → low a = pc
    | None => k = 0%nat
    end.
Proof.
  intros Hl Htr Hk Hs.
  set (t := l ++ [tr]). set (lo i := from_option low 0 (t !! i)).
  assert (∀ i, (i ≤ length l)%nat → ∃ a, t !! i = Some a ∧ lo i = low a) as Ht.
  { intros i Hi. destruct (table_low l tr i Hi) as (a & Ha & _). exists a. subst lo. cbn. fold t in Ha. by rewrite Ha. }
  assert (∀ i, (i ≤ length l)%nat → lo i ≤ pc ↔ (i < k)%nat) as Hlo.
  { intros i Hi. destruct (Ht i Hi) as (a & Ha & ->). by eapply table_split. }
  assert (∀ i j, (i ≤ j < length l)%nat → lo i ≤ lo j) as Hmono.
  { intros i j Hij. subst lo t. cbn. rewrite !lookup_app_l by lia.
    destruct (lookup_lt_is_Some_2 l i ltac:(lia)) as [a Ha], (lookup_lt_is_Some_2 l j ltac:(lia)) as [b Hb].
    rewrite Ha, Hb. apply (sorted_low l Hl i j); [lia|done|done]. }
  set (c i := if pc <? lo i then -1 else if lo (S i) <? pc then 1 else 0).
  destruct (bsearch_spec (function_addrs_search pc t) c (length l)) as (r & E & Hr).
  - intros i Hi. destruct (Ht i ltac:(lia)) as (a & Ha & Ea), (Ht (S i) ltac:(lia)) as (b & Hb & Eb).
    unfold function_addrs_search, c. rewrite Ha, Hb, Ea, Eb. by case_match.
  - split; intros i j Hij; unfold c; pose proof (Hlo i ltac:(lia)); pose proof (Hlo j ltac:(lia));
      pose proof (Hlo (S i) ltac:(lia)); pose proof (Hlo (S j) ltac:(lia)); pose proof (Hmono i j ltac:(lia)).
    + repeat case_match; lia.
    + destruct (decide (S j < length l)%nat) as [Hj|]; [pose proof (Hmono (S i) (S j) ltac:(lia))|]; repeat case_match; lia.
  - exists r. split; [done|]. destruct r as [p|].
    + destruct Hr as [Hp Hc]. unfold c in Hc. pose proof (Hlo p ltac:(lia)). split; [repeat case_match; lia|].
      intros j a Ha Hj. pose proof (proj2 (Hs _ _ Ha) ltac:(lia)). pose proof (lookup_lt_Some _ _ _ Ha).
      assert (lo j = low a) as Elo by (subst lo t; cbn; by rewrite lookup_app_l, Ha by done).
      pose proof (Hmono (S p) j ltac:(lia)). repeat case_match; lia.
    + destruct k as [|k]; [done|]. specialize (Hr k ltac:(lia)). unfold c in Hr.
      pose proof (Hlo k ltac:(lia)). pose proof (Hlo (S k) ltac:(lia)). repeat case_match; lia.
Qed.

(** The search with its walks finds the innermost of the ranges at [pc], if it
    finds one. *)
Lemma find_range_spec l tr pc : sorted_ranges l → pc < low tr →
  ∃ r, find_range function_addrs_search pc (l ++ [tr]) = Ok r ∧
    match r with
    | Some i => innermost l pc i
    | None => ∀ a, a ∈ l → low a ≤ pc < high a → hidden l pc a
    end.
Proof.
  intros Hl Htr. destruct (split_sorted low pc l) as (k & Hk & Hs).
  { intros i j a b Hij. apply (sorted_low l Hl). lia. }
  unfold find_range. rewrite length_app, Nat.add_1_r. cbn [pred].
  destruct (bsearch_range l tr pc k Hl Htr Hk Hs) as (r & -> & Hr). destruct r as [p|].
  - destruct Hr as [Hp Heq]. rewrite (walk_forward_spec l tr pc Htr k Hk Hs) by (lia || done).
    destruct (lookup_lt_is_Some_2 l (pred k) ltac:(lia)) as [a0 Ha0].
    eapply (walk_back_spec l tr pc Hl k Hk Hs a0); [lia|done|lia| |].
    + intros j a Hj Hjk. assert (j = pred k) as -> by lia. by simplify_eq.
    + intros j a Hj Hjk. lia.
  - subst k. exists None. split; [done|]. intros a [j Hj]%list_elem_of_lookup Ha.
    pose proof (proj1 (Hs _ _ Hj)). lia.
Qed.

(** Where no two ranges that start at different addresses overlap, a range at [pc]
    is found if there is one. *)
Definition disjoint_ranges (l : list addrs) : Prop :=
  ∀ a b, a ∈ l → b ∈ l → low a < low b → high a ≤ low b.

Lemma not_hidden l pc a : disjoint_ranges l → a ∈ l → low a ≤ pc < high a → ¬ hidden l pc a.
Proof. intros Hd Ha Hpc (b & Hb & Hlow & _). specialize (Hd a b Ha Hb). lia. Qed.

(** ** The line at an address: the last one that starts at it or before. *)
Definition last_line (l : list line) (pc : Z) (i : nat) : Prop :=
  ∃ ln, l !! i = Some ln ∧ ln_pc ln ≤ pc ∧ ∀ j b, l !! j = Some b → (i < j)%nat → pc < ln_pc b.

Lemma line_search_spec l pc : lines_ok (l ++ [trailing_line]) → pc < u64 (-1) →
  ∃ r, bsearch (line_search pc (l ++ [trailing_line])) (length l) = Ok r ∧
    match r with
    | Some i => last_line l pc i
    | None => ∀ ln, ln ∈ l → pc < ln_pc ln
    end.
Proof.
  intros (l' & E & Hs) Hpc. apply app_inj_tail in E as [<- _].
  set (t := l ++ [trailing_line]). set (at_ i := from_option ln_pc 0 (t !! i)).
  assert (∀ i, (i ≤ length l)%nat → ∃ a, t !! i = Some a ∧ at_ i = ln_pc a) as Ht.
  { intros i Hi. destruct (lookup_lt_is_Some_2 t i) as [a Ha]; [subst t; rewrite length_app; cbn; lia|].
    exists a. subst at_. cbn. by rewrite Ha. }
  assert (at_ (length l) = u64 (-1)) as Hend by (subst at_ t; cbn; by rewrite lookup_app_r, Nat.sub_diag by lia).
  assert (∀ i ln, l !! i = Some ln → at_ i = ln_pc ln) as Hat.
  { intros i ln Hi. subst at_ t. cbn. by rewrite lookup_app, Hi. }
  assert (∀ i j, (i ≤ j < length l)%nat → at_ i ≤ at_ j) as Hmono.
  { intros i j Hij. destruct (decide (i = j)) as [->|]; [lia|].
    destruct (lookup_lt_is_Some_2 l i ltac:(lia)) as [a Ha], (lookup_lt_is_Some_2 l j ltac:(lia)) as [b Hb].
    rewrite (Hat _ _ Ha), (Hat _ _ Hb). apply (Hs i j); [lia|done|done]. }
  set (c i := if pc <? at_ i then -1 else if at_ (S i) <=? pc then 1 else 0).
  destruct (bsearch_spec (line_search pc t) c (length l)) as (r & E & Hr).
  - intros i Hi. destruct (Ht i ltac:(lia)) as (a & Ha & Ea), (Ht (S i) ltac:(lia)) as (b & Hb & Eb).
    unfold line_search, c. rewrite Ha, Hb, Ea, Eb. by case_match.
  - split; intros i j Hij; unfold c; pose proof (Hmono i j ltac:(lia)); pose proof (Hmono (S i) j ltac:(lia)); [repeat case_match; lia|].
    destruct (decide (S j < length l)%nat); [pose proof (Hmono j (S j) ltac:(lia))|assert (S j = length l) as Ej by lia; rewrite Ej];
      repeat case_match; lia.
  - exists r. split; [done|]. destruct r as [i|].
    + destruct Hr as [Hi Hc]. destruct (lookup_lt_is_Some_2 l i Hi) as [ln Hln]. exists ln. unfold c in Hc.
      rewrite (Hat _ _ Hln) in Hc. split; [done|]. split; [repeat case_match; lia|]. intros j b Hb Hj.
      pose proof (lookup_lt_Some _ _ _ Hb). pose proof (Hmono (S i) j ltac:(lia)). rewrite (Hat _ _ Hb) in *. repeat case_match; lia.
    + destruct (split_sorted ln_pc pc l Hs) as (k & Hk & Hsp). intros ln [i Hi]%list_elem_of_lookup.
      destruct k as [|k]; [pose proof (Hsp _ _ Hi); lia|]. exfalso. apply (Hr k ltac:(lia)). unfold c.
      destruct (lookup_lt_is_Some_2 l k ltac:(lia)) as [a Ha]. pose proof (proj2 (Hsp _ _ Ha) ltac:(lia)). rewrite (Hat _ _ Ha).
      destruct (decide (S k < length l)%nat) as [H'|].
      * destruct (lookup_lt_is_Some_2 l (S k) H') as [b Hb]. pose proof (Hsp _ _ Hb). rewrite (Hat _ _ Hb). repeat case_match; lia.
      * assert (S k = length l) as -> by lia. rewrite Hend. repeat case_match; lia.
Qed.

(** ** The frames at an address

    The search finds no range at [pc]: there is none that includes it, or a range
    inside each of them starts before [pc] and has ended (see
    [nested_range_hidden]). *)
Definition none_found (t : list addrs) (pc : Z) : Prop :=
  ∀ a, a ∈ removelast t → low a ≤ pc < high a → hidden (removelast t) pc a.
Definition range_of (t : list addrs) (pc : Z) (j : nat) : Prop :=
  ∃ i a, innermost (removelast t) pc i ∧ removelast t !! i = Some a ∧ owner a = Some j.

(** The functions inlined into [f] at [pc], the innermost first. *)
Inductive inlined_stack (all : list function) (pc : Z) : function → list function → Prop :=
  | Stack_end f : none_found (fn_addrs f) pc → inlined_stack all pc f []
  | Stack_inlined f j g gs :
      range_of (fn_addrs f) pc j → all !! j = Some g → inlined_stack all pc g gs → inlined_stack all pc f (gs ++ [g]).

(** The calls for functions from the inside to the outside, when the line at [pc]
    is [line] of [file]: a function inlined tells where its caller is. *)
Fixpoint frames (pc : Z) (file : option cptr) (line : Z) (fs : list function) : list pc_call :=
  match fs with
  | [] => []
  | f :: fs => mk_pc_call pc file line (fn_name f) :: frames pc (caller_filename f) (caller_lineno f) fs
  end.

Lemma frames_snoc pc f gs : ∀ file line,
  frames pc file line (gs ++ [f]) =
  frames pc file line gs ++ [mk_pc_call pc (from_option caller_filename file (last gs))
                               (from_option caller_lineno line (last gs)) (fn_name f)].
Proof.
  induction gs as [|g gs IH]; intros file line; [done|]. cbn [frames app]. rewrite IH. rewrite last_cons. by destruct (last gs).
Qed.

(** A table of functions, as [find_range] sees it. *)
Lemma find_range_table lo all t pc : table_ok lo all t → pc < u64 (-1) → (pred (length t) ≠ 0)%nat →
  ∃ r, find_range function_addrs_search pc t = Ok r ∧
    match r with
    | Some i => ∃ a j, t !! i = Some a ∧ owner a = Some j ∧ (lo ≤ j)%nat ∧ named all j ∧ range_of t pc j
    | None => none_found t pc
    end.
Proof.
  intros [->|(l & -> & Hs & Ho)] Hpc Hlen; [done|].
  destruct (find_range_spec l trailing_addrs pc Hs Hpc) as (r & E & Hr). exists r. split; [done|].
  unfold none_found, range_of. rewrite removelast_last. destruct r as [i|]; [|done].
  pose proof Hr as (a & Ha & _). pose proof (proj1 (Forall_lookup _ _) Ho i a Ha) as (j & Hj & Hlo & Hn).
  exists a, j. rewrite lookup_app, Ha. eauto 10.
Qed.

Lemma empty_table lo all t pc : table_ok lo all t → (pred (length t) = 0)%nat → none_found t pc.
Proof.
  intros [->|(l & -> & _)] Hlen a; [by intros ?%elem_of_nil|]. rewrite length_app, Nat.add_1_r in Hlen. cbn in Hlen.
  destruct l; [|done]. by intros ?%elem_of_nil.
Qed.

Lemma named_lookup all j : named all j → ∃ f, all !! j = Some f.
Proof. intros [p Hp]. rewrite list_lookup_fmap in Hp. destruct (all !! j); [eauto|done]. Qed.

Section frames_proof.
Variable answer : list pc_call → Z.
Hypothesis Hans : ∀ log, answer log = 0.
Variables (all : list function) (pc : Z).
Hypothesis Hall : funcs_ok all.
Hypothesis Hpc : 0 ≤ pc < u64 (-1).

Lemma report_inlined_spec fuel : ∀ i f file line log s, all !! i = Some f → (length all ≤ fuel + i)%nat →
  ∃ gs, inlined_stack all pc f gs ∧
    report_inlined_functions answer fuel all pc f file line log s =
    Ok ((0, from_option caller_filename file (last gs), from_option caller_lineno line (last gs),
         log ++ frames pc file line gs), s).
Proof.
  assert (u64 (pc + 1) ≠ 0) as Hu by (change (u64 (-1)) with (2^64 - 1) in Hpc; rewrite u64_small; lia).
  induction fuel as [|fuel IH]; intros i f file line log s Hf Hfuel; pose proof (Hall i f Hf) as Ht;
    cbn [report_inlined_functions]; pose proof (lookup_lt_Some _ _ _ Hf).
  { lia. }
  destruct (Nat.eqb_spec (pred (length (fn_addrs f))) 0) as [Hz|Hz].
  { exists []. split; [constructor; by eapply empty_table|]. cbn. by rewrite app_nil_r. }
  replace (u64 (pc + 1) =? 0) with false by lia.
  destruct (find_range_table _ _ _ pc Ht ltac:(lia) Hz) as (r & E & Hr).
  erewrite bind_ok by (unfold lift_res; rewrite E; done). destruct r as [m|].
  - destruct Hr as (a & j & Ha & Hj & Hij & Hn & Hrange). rewrite Ha. erewrite bind_ok by reflexivity. rewrite Hj. erewrite bind_ok by reflexivity.
    destruct (named_lookup _ _ Hn) as [g Hg]. rewrite Hg. erewrite bind_ok by reflexivity.
    destruct (IH j g file line log s Hg ltac:(lia)) as (gs & Hgs & Eg). erewrite bind_ok by exact Eg. cbn.
    rewrite Hans. cbn. exists (gs ++ [g]). split; [by eapply Stack_inlined|].
    by rewrite last_snoc, frames_snoc, app_assoc.
  - exists []. split; [by constructor|]. cbn. by rewrite app_nil_r.
Qed.
End frames_proof.

(** ** What is reported for a unit *)
Inductive unit_report (all : list function) (ul : unit_lazy) (pc : Z) : list pc_call → Prop :=
  | Report_useless : ul_lines ul = ReadFailed → unit_report all ul pc [mk_pc_call pc None 0 None]
  | Report_before l :
      ul_lines ul = Have (l ++ [trailing_line]) → (∀ ln, ln ∈ l → pc < ln_pc ln) →
      unit_report all ul pc [mk_pc_call pc (ul_abs_filename ul) 0 None]
  | Report_line l i ln :
      ul_lines ul = Have (l ++ [trailing_line]) → last_line l pc i → l !! i = Some ln →
      none_found (ul_function_addrs ul) pc →
      unit_report all ul pc [mk_pc_call pc (ln_filename ln) (ln_lineno ln) None]
  | Report_frames l i ln j f gs :
      ul_lines ul = Have (l ++ [trailing_line]) → last_line l pc i → l !! i = Some ln →
      range_of (ul_function_addrs ul) pc j → all !! j = Some f → inlined_stack all pc f gs →
      unit_report all ul pc (frames pc (ln_filename ln) (ln_lineno ln) (gs ++ [f])).

(** The data of a file that is loaded: the ranges of its units are sorted. *)
Record file_ok (d : DwarfBuf.dwarf_sections) (alt : option altfile) (dd : dwarf_data) (da : ddata) : Prop := mk_file_ok {
  fok_data : da_ok d alt da;
  fok_addrs : ∃ l, dd_addrs dd = l ++ [trailing_addrs] ∧ sorted_ranges l ∧ of_units (dd_units dd) l;
  fok_units : length (da_units da) = length (dd_units dd);
}.

(** The unit [un] is chosen for [pc]: its range includes [pc], and the units of the
    ranges from it up to the innermost one have no useful lines. *)
Definition chosen (dd : dwarf_data) (da : ddata) (pc : Z) (un : nat) : Prop :=
  ∃ i j a, innermost (removelast (dd_addrs dd)) pc j ∧ (i ≤ j)%nat ∧
    removelast (dd_addrs dd) !! i = Some a ∧ low a ≤ pc < high a ∧ owner a = Some un ∧
    ∀ k b, (i < k ≤ j)%nat → removelast (dd_addrs dd) !! k = Some b →
      ∃ un' ul', owner b = Some un' ∧ da_units da !! un' = Some ul' ∧ ul_lines ul' = ReadFailed.

Section lookup_proof.
Variable answer : list pc_call → Z.
Hypothesis Hans : ∀ log, answer log = 0.
Variables (d : DwarfBuf.dwarf_sections) (alt : option altfile) (e : bool) (pagesize : Z) (threaded : bool) (lfuel rfuel : nat).
Variables (dd : dwarf_data) (pc : Z).
Hypothesis Hpc : 0 ≤ pc < u64 (-1).

(** Every entry of the table has its unit. *)
Lemma unit_of_spec da l i a s : file_ok d alt dd da → dd_addrs dd = l ++ [trailing_addrs] → of_units (dd_units dd) l →
  l !! i = Some a → ∃ un ul, owner a = Some un ∧ da_units da !! un = Some ul ∧ (un < length (dd_units dd))%nat ∧
    unit_of dd da i s = Ok ((un, ul), s).
Proof.
  intros Hok Hl Ho Ha. pose proof (proj1 (Forall_lookup _ _) Ho i a Ha) as (un & Hun & Hlt).
  destruct (lookup_lt_is_Some_2 (da_units da) un) as [ul Hul]; [by rewrite (fok_units _ _ _ _ Hok)|].
  exists un, ul. split; [done|]. split; [done|]. split; [done|]. unfold unit_of. rewrite Hl, lookup_app, Ha.
  erewrite bind_ok by reflexivity. rewrite Hun. erewrite bind_ok by reflexivity. rewrite Hul. by erewrite bind_ok by reflexivity.
Qed.

Lemma skip_useless_spec da l s : file_ok d alt dd da → dd_addrs dd = l ++ [trailing_addrs] → of_units (dd_units dd) l →
  ∀ i a, l !! i = Some a → low a ≤ pc < high a →
  ∃ i' a', skip_useless dd da pc i s = Ok (i', s) ∧ (i' ≤ i)%nat ∧ l !! i' = Some a' ∧ low a' ≤ pc < high a' ∧
    ∀ k b, (i' < k ≤ i)%nat → l !! k = Some b →
      ∃ un ul, owner b = Some un ∧ da_units da !! un = Some ul ∧ ul_lines ul = ReadFailed.
Proof.
  intros Hok Hl Ho. induction i as [|i IH]; intros a Ha Hap; cbn [skip_useless].
  - exists 0%nat, a. split; [done|]. split; [done|]. split; [done|]. split; [done|]. intros; lia.
  - assert (i < length l)%nat as Hi by (apply lookup_lt_Some in Ha; lia).
    destruct (lookup_lt_is_Some_2 l i Hi) as [p Hp]. rewrite Hl, lookup_app, Hp. erewrite bind_ok by reflexivity.
    assert (∃ i' a', (mret (S i) : D nat) s = Ok (i', s) ∧ (i' ≤ S i)%nat ∧ l !! i' = Some a' ∧ low a' ≤ pc < high a' ∧
      ∀ k b, (i' < k ≤ S i)%nat → l !! k = Some b →
      ∃ un ul, owner b = Some un ∧ da_units da !! un = Some ul ∧ ul_lines ul = ReadFailed) as Hstay.
    { exists (S i), a. split; [done|]. split; [done|]. split; [done|]. split; [done|]. intros; lia. }
    destruct ((low p <=? pc) && (pc <? high p)) eqn:E; [|exact Hstay].
    destruct (unit_of_spec da l (S i) a s Hok Hl Ho Ha) as (un & ul & Hun & Hul & _ & Eu). rewrite (bind_ok _ _ _ _ _ Eu).
    destruct (ul_lines ul) eqn:El; [exact Hstay| |exact Hstay].
    destruct (IH p Hp ltac:(lia)) as (i' & a' & -> & Hi' & Ha' & Hap' & Hk). exists i', a'. split; [done|]. split; [lia|].
    split; [done|]. split; [done|]. intros k b Hkb Hb. destruct (decide (k = S i)) as [->|]; [simplify_eq; eauto|].
    apply (Hk k b); [lia|done].
Qed.

Lemma choose_unit_spec da s : file_ok d alt dd da →
  ∃ r, choose_unit dd da pc s = Ok (r, s) ∧
    match r with
    | Some (un, ul) => chosen dd da pc un ∧ da_units da !! un = Some ul ∧ (un < length (dd_units dd))%nat
    | None => none_found (dd_addrs dd) pc
    end.
Proof.
  intros Hok. pose proof Hok as [_ (l & Hl & Hs & Ho) _]. unfold choose_unit.
  assert (u64 (pc + 1) ≠ 0) as Hu by (change (u64 (-1)) with (2^64 - 1) in Hpc; rewrite u64_small; lia).
  replace (u64 (pc + 1) =? 0) with false by lia. rewrite orb_false_r.
  destruct (Nat.eqb_spec (pred (length (dd_addrs dd))) 0) as [Hz|Hz].
  { exists None. split; [done|]. intros a. rewrite Hl, removelast_last in *. rewrite length_app, Nat.add_1_r in Hz. cbn in Hz.
    destruct l; [|done]. by intros ?%elem_of_nil. }
  destruct (find_range_spec l trailing_addrs pc Hs) as (r & E & Hr); [exact (proj2 Hpc)|].
  erewrite bind_ok by (unfold lift_res; rewrite Hl; change unit_addrs_search with function_addrs_search; rewrite E; done).
  destruct r as [j|].
  - pose proof Hr as (a & Ha & Hap & _).
    destruct (skip_useless_spec da l s Hok Hl Ho j a Ha Hap) as (i & a' & Ei & Hij & Ha' & Hap' & Hk). rewrite (bind_ok _ _ _ _ _ Ei).
    destruct (unit_of_spec da l i a' s Hok Hl Ho Ha') as (un & ul & Hun & Hul & Hlt & Eu). rewrite (bind_ok _ _ _ _ _ Eu).
    eexists. split; [done|]. cbn. split; [|done]. exists i, j, a'. rewrite Hl, removelast_last. done.
  - exists None. split; [done|]. unfold none_found. by rewrite Hl, removelast_last.
Qed.

(** The unit's lines, from the data. *)
Lemma unit_ok_lines da un ul t : da_ok d alt da → da_units da !! un = Some ul → ul_lines ul = Have t →
  ∃ l, t = l ++ [trailing_line] ∧ lines_ok (l ++ [trailing_line]).
Proof. intros Hok Hul Ht. pose proof (uok_lines _ _ _ _ (dok_units _ _ _ Hok un ul Hul) t Ht) as Hl. pose proof Hl as (l & -> & _). eauto. Qed.

(** A line is found: the function and the functions inlined are reported. *)
Lemma lookup_line_found da un ul u l i log s : da_ok d alt da → dd_units dd !! un = Some u → da_units da !! un = Some ul →
  ul_lines ul = Have (l ++ [trailing_line]) → bsearch (line_search pc (l ++ [trailing_line])) (length l) = Ok (Some i) →
  last_line l pc i →
  ∃ calls, unit_report (da_all da) ul pc calls ∧
    lookup_in_unit answer d alt dd un (l ++ [trailing_line]) pc da log s = Ok ((0, true, da, log ++ calls), s).
Proof.
  intros Hok Hu Hul Hlines Eb Hlast. pose proof (uok_addrs _ _ _ _ (dok_units _ _ _ Hok un ul Hul)) as Ht.
  pose proof Hlast as (ln & Hln & _). unfold lookup_in_unit. rewrite Hu, Hul. do 2 (erewrite bind_ok by reflexivity).
  rewrite length_app, Nat.add_1_r. cbn [pred]. erewrite bind_ok by (unfold lift_res; rewrite Eb; done).
  cbn beta iota. rewrite lookup_app, Hln. erewrite bind_ok by reflexivity. cbv zeta. unfold answered, callback. rewrite Hans.
  destruct (Nat.eqb_spec (pred (length (ul_function_addrs ul))) 0) as [Hz|Hz].
  { eexists. split; [eapply Report_line; [done..|by eapply empty_table]|done]. }
  destruct (find_range_table _ _ _ pc Ht ltac:(lia) Hz) as (r & E & Hr). erewrite bind_ok by (unfold lift_res; rewrite E; done).
  destruct r as [m|]; [|eexists; split; [by eapply Report_line|done]].
  destruct Hr as (a & j & Ha & Hj & _ & Hn & Hrange). destruct (named_lookup _ _ Hn) as [f Hf].
  rewrite Ha. erewrite bind_ok by reflexivity. rewrite Hj. erewrite bind_ok by reflexivity. rewrite Hf. erewrite bind_ok by reflexivity.
  destruct (report_inlined_spec answer Hans (da_all da) pc (dok_funcs _ _ _ Hok) Hpc (length (da_all da)) j f (ln_filename ln)
    (ln_lineno ln) log s Hf ltac:(lia)) as (gs & Hgs & Eg). erewrite bind_ok by exact Eg. cbn. rewrite Hans.
  eexists. split; [by eapply Report_frames|]. by rewrite frames_snoc, app_assoc.
Qed.

(** The result of a lookup in the unit [un]. *)
Definition looked_up (da : ddata) (un : nat) (log : list pc_call) (r : lookup_result) : Prop :=
  let '(ret, found, da', log') := r in
  ret = 0 ∧ file_ok d alt dd da' ∧
  ∃ ul, da_units da' !! un = Some ul ∧
    if (found : bool) then ∃ calls, log' = log ++ calls ∧ unit_report (da_all da') ul pc calls
    else log' = log ∧ ul_abs_filename ul = None ∧
         ∃ l, ul_lines ul = Have (l ++ [trailing_line]) ∧ ∀ ln, ln ∈ l → pc < ln_pc ln.

Lemma gives_make_abs u ul : gives (λ r : bool * unit_lazy,
    ul_lines r.2 = ul_lines ul ∧ ul_function_addrs r.2 = ul_function_addrs ul ∧ ul_functions r.2 = ul_functions ul ∧
    (r.1 = true → r.2 = ul)) (dwarf_make_abs_filename d alt u ul).
Proof.
  unfold dwarf_make_abs_filename. cbv zeta.
  repeat first [ apply gives_ret; by cbn | case_match | apply gives_if | apply gives_then; intros ? ].
Qed.

Lemma file_ok_abs da un ul ul' : file_ok d alt dd da → da_units da !! un = Some ul →
  ul_lines ul' = ul_lines ul → ul_function_addrs ul' = ul_function_addrs ul → ul_functions ul' = ul_functions ul →
  file_ok d alt dd (da <| da_units := <[un := ul']> (da_units da) |>).
Proof.
  intros [[H1 H2 H3] H4 H5] Hul E1 E2 E3. split; [|done|unfold set_field; cbn; by rewrite length_insert].
  split; unfold set_field; cbn; [done|done|]. intros un' ul1 Hul1. destruct (decide (un' = un)) as [->|].
  - rewrite list_lookup_insert_eq in Hul1 by (by eapply lookup_lt_Some). simplify_eq. destruct (H3 un ul Hul) as [A B C].
    split; [by rewrite E1|by rewrite E2|by rewrite E3].
  - rewrite list_lookup_insert_ne in Hul1 by done. by eapply H3.
Qed.

Lemma gives_lookup_in_unit da un ul u t log : file_ok d alt dd da → dd_units dd !! un = Some u → da_units da !! un = Some ul →
  ul_lines ul = Have t → gives (looked_up da un log) (lookup_in_unit answer d alt dd un t pc da log).
Proof.
  intros Hok Hu Hul Ht. pose proof (fok_data _ _ _ _ Hok) as Hda. destruct (unit_ok_lines da un ul t Hda Hul Ht) as (l & -> & Hl).
  destruct (line_search_spec l pc Hl ltac:(lia)) as (r & E & Hr). destruct r as [i|].
  - intros s a s' Ea. destruct (lookup_line_found da un ul u l i log s Hda Hu Hul Ht E Hr) as (calls & Hc & E1).
    rewrite E1 in Ea. simplify_eq. split; [done|]. split; [done|]. eauto.
  - unfold lookup_in_unit. rewrite Hu, Hul. apply gives_then. intros u0. rewrite length_app, Nat.add_1_r. cbn [pred].
    eapply gives_bind; [apply gives_deref|]. intros ul0 [= <-].
    eapply gives_bind; [apply gives_lift_res; intros a Ea; exact Ea|]. intros m Em. rewrite E in Em. simplify_eq.
    apply (gives_bind (λ r : bool * ddata, file_ok d alt dd r.2 ∧ ∃ ul', da_units r.2 !! un = Some ul' ∧
      ul_lines ul' = ul_lines ul ∧ (r.1 = true → ul_abs_filename ul' = None))).
    + case_bool_decide as Habs; [|apply gives_ret; split; [done|]; by exists ul].
      eapply gives_bind; [apply gives_make_abs|]. intros [failed ul'] (E1 & E2 & E3 & E4). apply gives_ret. cbn in *.
      split; [by eapply file_ok_abs|]. exists ul'. rewrite list_lookup_insert_eq by (by eapply lookup_lt_Some).
      split; [done|]. split; [done|]. intros Hf. by rewrite E4.
    + intros [failed da'] (Hok' & ul' & Hul' & E1 & E2). cbn in *. destruct failed.
      * apply gives_ret. split; [done|]. split; [done|]. exists ul'. split; [done|]. split; [done|]. split; [by apply E2|].
        exists l. by rewrite E1.
      * rewrite Hul'. eapply gives_bind; [apply gives_deref|]. intros ul0 [= <-]. apply gives_ret. cbn. rewrite Hans.
        split; [done|]. split; [done|]. exists ul'. split; [done|]. eexists. split; [done|].
        apply (Report_before _ _ _ l); [by rewrite E1|done].
Qed.

(** The unit is read if it has not been. *)
Lemma gives_unit_lines da un ul : file_ok d alt dd da → da_units da !! un = Some ul →
  gives (λ r : bool * lazy (list line) * ddata, file_ok d alt dd r.2 ∧
           (∃ ul', da_units r.2 !! un = Some ul' ∧ ul_lines ul' = r.1.2) ∧
           match r.1.2 with NotRead => False | ReadFailed => r.1.1 = false | Have _ => True end)
    (unit_lines d alt e pagesize threaded lfuel rfuel dd un ul da).
Proof.
  intros Hok Hul. unfold unit_lines. destruct (ul_lines ul) eqn:El; [|apply gives_ret; cbn; split; [done|]; split; [by exists ul|done]..].
  apply gives_then. intros u. eapply gives_weaken; [|apply gives_dwarf_read_function_info, (fok_data _ _ _ _ Hok)].
  intros [[new_data lines] da'] (H1 & _ & H3 & _ & H5 & H6). cbn. split; [|split; [done|by destruct lines]].
  destruct Hok as [_ H7 H8]. split; [done|done|congruence].
Qed.

(** A lookup in one file. *)
Definition lookup_report (da : ddata) (log : list pc_call) (r : lookup_result) : Prop :=
  let '(ret, found, da', log') := r in
  ret = 0 ∧ file_ok d alt dd da' ∧
  if (found : bool) then
    ∃ un ul calls, chosen dd da pc un ∧ da_units da' !! un = Some ul ∧ log' = log ++ calls ∧ unit_report (da_all da') ul pc calls
  else
    log' = log ∧
    (none_found (dd_addrs dd) pc ∨
     ∃ un ul l, chosen dd da pc un ∧ da_units da' !! un = Some ul ∧ ul_abs_filename ul = None ∧
       ul_lines ul = Have (l ++ [trailing_line]) ∧ ∀ ln, ln ∈ l → pc < ln_pc ln).

Lemma gives_dwarf_lookup_pc fuel da log : file_ok d alt dd da →
  gives (lookup_report da log) (dwarf_lookup_pc answer d alt e pagesize threaded lfuel rfuel fuel dd pc da log).
Proof.
  intros Hok s a s' E. destruct (choose_unit_spec da s Hok) as (r & Er & Hr).
  assert (∀ m, dwarf_lookup_pc answer d alt e pagesize threaded lfuel rfuel fuel dd pc da log = choose_unit dd da pc ≫= m →
    gives (lookup_report da log) (m r) → lookup_report da log a) as Hstep.
  { intros m Em Hm. rewrite Em, (bind_ok _ _ _ _ _ Er) in E. by eapply Hm. }
  destruct fuel; (eapply Hstep; [reflexivity|]); clear Hstep E Er;
    (destruct r as [[un ul]|]; [|apply gives_ret; split; [done|]; split; [done|]; split; [done|by left]]);
    destruct Hr as (Hch & Hul & Hlt);
    (eapply gives_bind; [by eapply gives_unit_lines|]); intros [[new_data lines] da'] (Hok' & (ul' & Hul' & El) & Hnew); cbn in *;
    (destruct lines as [| |t]; [done| |]).
  1,3: subst new_data; apply gives_ret; unfold answered, callback; rewrite Hans; split; [done|]; split; [done|];
    eexists un, ul', _; split; [done|]; split; [done|]; split; [done|by constructor].
  all: destruct (lookup_lt_is_Some_2 (dd_units dd) un Hlt) as [u Hu];
    (eapply gives_weaken; [|by eapply gives_lookup_in_unit]); intros [[[ret found] da2] log2] (-> & Hok2 & ul2 & Hul2 & Hf);
    (split; [done|]); (split; [done|]); destruct found;
    [destruct Hf as (calls & -> & Hc); by eexists un, ul2, _|destruct Hf as (-> & Habs & l & Hl1 & Hl2); split; [done|]; right; by exists un, ul2, l].
Qed.

(** ** Where all has been read

    The unit's lines have been read, and so has its absolute name unless a line
    starts at [pc] or before. *)
Definition settled (ul : unit_lazy) : Prop :=
  match ul_lines ul with
  | NotRead => False
  | ReadFailed => True
  | Have t => is_Some (ul_abs_filename ul) ∨ ∃ ln, ln ∈ removelast t ∧ ln_pc ln ≤ pc
  end.

Lemma lookup_in_unit_settled da un ul u t log s : da_ok d alt da → dd_units dd !! un = Some u → da_units da !! un = Some ul →
  ul_lines ul = Have t → settled ul →
  ∃ calls, unit_report (da_all da) ul pc calls ∧
    lookup_in_unit answer d alt dd un t pc da log s = Ok ((0, true, da, log ++ calls), s).
Proof.
  intros Hda Hu Hul Ht Hset. destruct (unit_ok_lines da un ul t Hda Hul Ht) as (l & -> & Hl).
  destruct (line_search_spec l pc Hl ltac:(lia)) as (r & E & Hr). destruct r as [i|]; [by eapply lookup_line_found|].
  unfold settled in Hset. rewrite Ht, removelast_last in Hset. destruct Hset as [[p Hp]|(ln & Hin & Hle)]; [|specialize (Hr ln Hin); lia].
  exists [mk_pc_call pc (ul_abs_filename ul) 0 None]. split; [by apply (Report_before _ _ _ l)|].
  unfold lookup_in_unit. rewrite Hu, Hul. do 2 (erewrite bind_ok by reflexivity). rewrite length_app, Nat.add_1_r. cbn [pred].
  erewrite bind_ok by (unfold lift_res; rewrite E; done). cbn beta iota. rewrite bool_decide_eq_false_2 by (by rewrite Hp).
  erewrite bind_ok by reflexivity. cbn beta iota. rewrite Hul. erewrite bind_ok by reflexivity. unfold answered, callback. by rewrite Hans.
Qed.

Lemma lookup_pc_settled fuel da log s : file_ok d alt dd da → Forall settled (da_units da) →
  ∃ found calls, dwarf_lookup_pc answer d alt e pagesize threaded lfuel rfuel fuel dd pc da log s = Ok ((0, found, da, log ++ calls), s) ∧
    if (found : bool) then ∃ un ul, chosen dd da pc un ∧ da_units da !! un = Some ul ∧ unit_report (da_all da) ul pc calls
    else calls = [] ∧ none_found (dd_addrs dd) pc.
Proof.
  intros Hok Hset. destruct (choose_unit_spec da s Hok) as (r & Er & Hr).
  destruct r as [[un ul]|]; [|exists false, []; split; [|done]; rewrite app_nil_r; destruct fuel; cbn [dwarf_lookup_pc]; by rewrite (bind_ok _ _ _ _ _ Er)].
  destruct Hr as (Hch & Hul & Hlt). pose proof (proj1 (Forall_lookup _ _) Hset un ul Hul) as Hs.
  destruct (lookup_lt_is_Some_2 (dd_units dd) un Hlt) as [u Hu].
  assert (unit_lines d alt e pagesize threaded lfuel rfuel dd un ul da s = Ok ((false, ul_lines ul, da), s)) as Eu.
  { unfold unit_lines. unfold settled in Hs. by destruct (ul_lines ul). }
  destruct (ul_lines ul) as [| |t] eqn:El.
  - unfold settled in Hs. by rewrite El in Hs.
  - exists true, [mk_pc_call pc None 0 None]. split; [|exists un, ul; by eauto using Report_useless].
    destruct fuel; cbn [dwarf_lookup_pc]; rewrite (bind_ok _ _ _ _ _ Er), (bind_ok _ _ _ _ _ Eu);
      unfold answered, callback; by rewrite Hans.
  - destruct (lookup_in_unit_settled da un ul u t log s (fok_data _ _ _ _ Hok) Hu Hul El Hs) as (calls & Hc & Ec).
    exists true, calls. split; [|by eauto].
    destruct fuel; cbn [dwarf_lookup_pc]; by rewrite (bind_ok _ _ _ _ _ Er), (bind_ok _ _ _ _ _ Eu).
Qed.
End lookup_proof.

(** ** The files *)
Definition files_ok (fs : list dwarf_file) : Prop := Forall (λ f, file_ok (df_sections f) (df_alt f) (df_data f) (df_read f)) fs.

Lemma funcs_ok_nil : funcs_ok [].
Proof. by intros i f ?. Qed.

Lemma gives_backtrace_dwarf_add pagesize base_address sections e alt fs : files_ok fs →
  gives (λ r : bool * list dwarf_file, files_ok r.2) (backtrace_dwarf_add pagesize base_address sections e alt fs).
Proof.
  intros Hfs. eapply gives_bind; [apply gives_build_dwarf_data|]. intros [dd|] Hdd; apply gives_ret; [|done].
  apply Forall_app. split; [done|]. apply Forall_singleton. cbn. split; [|by apply Hdd|cbn; by rewrite length_replicate].
  split; cbn; [apply funcs_ok_nil|constructor|]. intros un ul [-> _]%lookup_replicate. split; [done|by left|done].
Qed.

(** The calls for [pc], with the files before and after: from the first file whose
    unit tells, or one that nothing is known. *)
Inductive fileline_report (pc : Z) : list dwarf_file → list dwarf_file → list pc_call → Prop :=
  | Report_unknown : fileline_report pc [] [] [mk_pc_call pc None 0 None]
  | Report_found f da fs un ul calls :
      chosen (df_data f) (df_read f) pc un → da_units da !! un = Some ul → unit_report (da_all da) ul pc calls →
      fileline_report pc (f :: fs) (f <| df_read := da |> :: fs) calls
  | Report_next f da fs fs' calls :
      none_found (dd_addrs (df_data f)) pc ∨
      (∃ un ul l, chosen (df_data f) (df_read f) pc un ∧ da_units da !! un = Some ul ∧ ul_abs_filename ul = None ∧
         ul_lines ul = Have (l ++ [trailing_line]) ∧ ∀ ln, ln ∈ l → pc < ln_pc ln) →
      fileline_report pc fs fs' calls →
      fileline_report pc (f :: fs) (f <| df_read := da |> :: fs') calls.

Lemma gives_dwarf_fileline answer pagesize threaded lfuel rfuel pc : (∀ log, answer log = 0) → 0 ≤ pc < u64 (-1) →
  ∀ fs log, files_ok fs →
  gives (λ r : Z * list dwarf_file * list pc_call, r.1.1 = 0 ∧ files_ok r.1.2 ∧
           ∃ calls, r.2 = log ++ calls ∧ fileline_report pc fs r.1.2 calls)
    (dwarf_fileline answer pagesize threaded lfuel rfuel fs pc log).
Proof.
  intros Hans Hpc. induction fs as [|f fs IH]; intros log Hfs; cbn [dwarf_fileline].
  - unfold callback. rewrite Hans. apply gives_ret. cbn. split; [done|]. split; [constructor|]. eexists. split; [done|constructor].
  - apply Forall_cons in Hfs as [Hf Hfs]. eapply gives_bind; [by apply gives_dwarf_lookup_pc|].
    intros [[[ret found] da] log1] (-> & Hok & Hr). cbn [negb Z.eqb orb]. destruct found.
    + apply gives_ret. destruct Hr as (un & ul & calls & H1 & H2 & -> & H3). cbn. split; [done|].
      split; [by constructor|]. exists calls. split; [done|]. by econstructor.
    + destruct Hr as [-> Hr]. eapply gives_bind; [by apply IH|]. intros [[ret fs'] log'] (Hret & Hfs' & calls & Hlog & Hrep).
      apply gives_ret. cbn in *. subst. split; [done|]. split; [by constructor|]. exists calls. split; [done|]. by econstructor.
Qed.

(** With everything read, a lookup returns, and changes nothing. *)
Definition file_settled (pc : Z) (f : dwarf_file) : Prop := Forall (settled pc) (da_units (df_read f)).

Lemma dwarf_fileline_settled answer pagesize threaded lfuel rfuel pc s : (∀ log, answer log = 0) → 0 ≤ pc < u64 (-1) →
  ∀ fs log, files_ok fs → Forall (file_settled pc) fs →
  ∃ calls, dwarf_fileline answer pagesize threaded lfuel rfuel fs pc log s = Ok ((0, fs, log ++ calls), s) ∧ fileline_report pc fs fs calls.
Proof.
  intros Hans Hpc. induction fs as [|f fs IH]; intros log Hfs Hset; cbn [dwarf_fileline].
  - unfold callback. rewrite Hans. eexists. split; [done|constructor].
  - apply Forall_cons in Hfs as [Hf Hfs]. apply Forall_cons in Hset as [Hs Hset].
    assert (f <| df_read := df_read f |> = f) as Hself by (by destruct f).
    destruct (lookup_pc_settled answer Hans (df_sections f) (df_alt f) (df_bigendian f) pagesize threaded lfuel rfuel (df_data f) pc Hpc
      0 (df_read f) log s Hf Hs) as (found & calls & E & Hr). rewrite (bind_ok _ _ _ _ _ E). cbn [negb Z.eqb orb]. rewrite Hself.
    destruct found.
    + destruct Hr as (un & ul & Hc & Hul & Hrep). exists calls. split; [done|]. rewrite <-Hself at 2. by econstructor.
    + destruct Hr as [-> Hno]. rewrite app_nil_r. destruct (IH log Hfs Hset) as (calls & E2 & Hrep). exists calls.
      rewrite (bind_ok _ _ _ _ _ E2). split; [done|]. rewrite <-Hself at 2. apply Report_next; [by left|done].
Qed.

(** The files, as loading files and looking up addresses make them. *)
Inductive reachable_files (answer : list pc_call → Z) (pagesize : Z) : list dwarf_file → Prop :=
  | Files_init : reachable_files answer pagesize []
  | Files_add fs base_address sections e alt s ok fs' s' :
      reachable_files answer pagesize fs →
      backtrace_dwarf_add pagesize base_address sections e alt fs s = Ok ((ok, fs'), s') →
      reachable_files answer pagesize fs'
  | Files_lookup fs threaded lfuel rfuel pc log s ret fs' log' s' :
      reachable_files answer pagesize fs → 0 ≤ pc < u64 (-1) →
      dwarf_fileline answer pagesize threaded lfuel rfuel fs pc log s = Ok ((ret, fs', log'), s') →
      reachable_files answer pagesize fs'.

Lemma reachable_files_ok answer pagesize fs : (∀ log, answer log = 0) → reachable_files answer pagesize fs → files_ok fs.
Proof.
  intros Hans. induction 1 as [|fs base sec e alt s ok fs' s' _ IH E|fs th lf rf pc log s ret fs' log' s' _ IH Hpc E]; [constructor| |].
  - exact (gives_backtrace_dwarf_add _ _ _ _ _ _ IH _ _ _ E).
  - exact (proj1 (proj2 (gives_dwarf_fileline answer pagesize th lf rf pc Hans Hpc fs log IH _ _ _ E))).
Qed.


(** ** Examples

    A file "a" with the function "f" at 16 to 48, into which "g" is inlined at 24
    to 32 from line 7; line 5 starts at 16 and line 9 at 24. *)
Definition addr8 (a : Z) : list Z := [a; 0; 0; 0; 0; 0; 0; 0].
Definition example_file_abbrev : list Z :=
  [1; 0x11; 1; 0x03; 0x08; 0x10; 0x17; 0x11; 0x01; 0x12; 0x0b; 0; 0;
   2; 0x2e; 1; 0x03; 0x08; 0x11; 0x01; 0x12; 0x0b; 0; 0;
   3; 0x1d; 0; 0x03; 0x08; 0x11; 0x01; 0x12; 0x0b; 0x59; 0x0b; 0; 0; 0].
Definition example_file_info : list Z :=
  let entries :=
    [1; 97; 0; 0; 0; 0; 0] ++ addr8 16 ++ [32] ++
    [2; 102; 0] ++ addr8 16 ++ [32] ++
    [3; 103; 0] ++ addr8 24 ++ [8; 7] ++ [0; 0] in
  [Z.of_nat (length entries) + 7; 0; 0; 0; 4; 0; 0; 0; 0; 0; 8] ++ entries.
Definition example_file_line : list Z :=
  let header := [1; 1; 251; 14; 10; 0; 1; 1; 1; 1; 0; 0; 0; 1; 0; 97; 0; 0; 0; 0; 0] in
  let program := [0; 9; 2] ++ addr8 16 ++ [3; 4; 1; 2; 8; 3; 4; 1; 2; 24; 0; 1; 1] in
  [Z.of_nat (length header + length program) + 6; 0; 0; 0; 3; 0; Z.of_nat (length header); 0; 0; 0] ++ header ++ program.
Definition example_file_sections : DwarfBuf.dwarf_sections := λ sec,
  match sec with
  | DEBUG_INFO => example_file_info | DEBUG_ABBREV => example_file_abbrev | DEBUG_LINE => example_file_line | _ => []
  end.

Definition example_files : list dwarf_file :=
  match backtrace_dwarf_add 4096 0 example_file_sections false None [] (witness_state []) with
  | Ok ((_, fs), _) => fs
  | Err _ => []
  end.

(** The files after the address 28 has been looked up. *)
Definition example_lookup (fs : list dwarf_file) (pc : Z) : list dwarf_file * list pc_call :=
  match dwarf_fileline (λ _, 0) 4096 false 100 100 fs pc [] (witness_state []) with
  | Ok ((_, fs, log), _) => (fs, log)
  | Err _ => ([], [])
  end.

Lemma example_reachable : reachable_files (λ _, 0) 4096 example_files.
Proof.
  eapply (Files_add _ _ [] 0 example_file_sections false None (witness_state []) true); [constructor|]. vm_compute. reflexivity.
Qed.


(** An address of the outer of two ranges, behind the inner one, is not found. *)
Lemma nested_range_hidden :
  find_range function_addrs_search 50 [mk_addrs 0 100 (Some 0%nat); mk_addrs 10 20 (Some 1%nat); trailing_addrs] = Ok None.
Proof. vm_compute. reflexivity. Qed.
