(* ===== verification/DwarfFuncEnds.v ===== *)
(** * Reading the functions of a unit ends (src/dwarf/dwarf.c)

    [read_function_entry] calls itself for children and goes on with siblings; every
    call reads a byte of the unit.  The names of other entries are followed along
    DW_AT_specification, without a bound: the claim is about units whose
    abbreviations do not have that attribute, as those of C have not. *)

From S2P Require Import Prelude Util Bytes Sort Search BtMmap DwarfBuf DwarfAttr DwarfAbbrev DwarfLine DwarfRange DwarfUnit DwarfFunc DwarfPath DwarfLookup.

(** The data of a unit are inside .debug_info. *)
Definition unit_in (d : dwarf_sections) (u : dwarf_unit) : Prop :=
  0 ≤ unit_data u ∧ unit_data u + unit_data_len u ≤ sec_size d DEBUG_INFO.
Definition no_specification (u : dwarf_unit) : Prop :=
  Forall (λ a, Forall (λ at_, at_name at_ ≠ DW_AT_specification) (ab_attrs a)) (abbrevs u).
Definition plain_unit (d : dwarf_sections) (u : dwarf_unit) : Prop := unit_in d u ∧ no_specification u.

(** A loop over attributes whose names are in [N]. *)
Lemma for_attrs_named d altlink {A B} u (bad : B) (f : attr → attr_val → A → D (B + A)) (N : attr → Prop) (P : A → Prop) attrs : ∀ st,
  Forall N attrs →
  (∀ a val st, N a → val_ok d altlink (true, val) → P st → runs_in d (λ r, ∀ st', r = inr st' → P st') (f a val st)) → P st →
  runs_in d (λ r, ∀ st', r = inr st' → P st') (for_attrs d altlink u bad f attrs st).
Proof.
  induction attrs as [|a attrs IH]; intros st HN Hf Hst; cbn [for_attrs]; [apply runs_in_ret; by intros ? [= <-]|].
  apply Forall_cons in HN as [Ha HN].
  eapply runs_in_bind; [apply runs_in_reads, reads_attribute, u64_range|]. intros [[] val] Hv; [|by apply runs_in_ret].
  cbn [negb]. eapply runs_in_bind; [by apply Hf|]. intros [b|st'] Hr; [by apply runs_in_ret|]. apply IH; [done|done|].
  by apply Hr.
Qed.

Lemma gives_lookup_abbrev l code : gives (λ r, ∀ a, r = Some a → a ∈ l) (lookup_abbrev l code).
Proof.
  unfold lookup_abbrev. cbv zeta.
  match goal with |- context [if _ then _ else ?x] => assert (gives (λ r, ∀ a, r = Some a → a ∈ l) x) as Hs end.
  { apply gives_then. intros [i|]; [|apply gives_then; intros _; by apply gives_ret].
    apply gives_ret. intros a Ha. by eapply list_elem_of_lookup_2. }
  apply gives_if; [|done]. apply (gives_bind (λ a, a ∈ l)).
  - intros s a s'. unfold array_get. destruct (_ <? 0); [done|]. destruct (l !! _) eqn:E; [|done].
    intros [= <- <-]. by eapply list_elem_of_lookup_2.
  - intros a Ha. apply gives_if; [|done]. apply gives_ret. by intros ? [= <-].
Qed.

(** A run and what it gives, together. *)
Lemma run_at_gives {A} s (R : A → Prop) m : wf_buf (db s) → ends m → gives R m → run_at s R m.
Proof. intros Hs He Hg. destruct (He s Hs) as [Hf Hok]. split; [done|]. intros a s' E. split; [by eapply Hg|by eapply Hok]. Qed.

Lemma ends_on_run {A} (d : dwarf_sections) b (R : A → Prop) m : wf_buf b → of_section d b → 
  (∀ s, wf_buf (db s) → of_section d (db s) → db s = b → run_at s R m) → ends (on_buf b m).
Proof.
  intros Hb Hsec Hm. apply ends_on_wf_buf; [done|]. intros s Hs Hdb. apply ends_logs_at.
  destruct (Hm s Hs ltac:(by rewrite Hdb) Hdb) as [Hf Hok]. split; [done|]. intros a s' E. by destruct (Hok a s' E).
Qed.

Section names.
Variables (d : dwarf_sections) (alt : option altfile) (units : list dwarf_unit) (e : bool).
Hypothesis Hd : sections_ok d.
Hypothesis Halt : ∀ f, alt = Some f → sections_ok (af_sections f).

Definition sections_of (is_alt : bool) : dwarf_sections := if is_alt then from_option af_sections d alt else d.

Lemma sections_of_ok is_alt : sections_ok (sections_of is_alt).
Proof. destruct is_alt; [|done]. unfold sections_of. destruct alt as [f|] eqn:E; cbn; [by apply Halt|done]. Qed.

Lemma unit_buf_ok is_alt big u off : unit_in (sections_of is_alt) u → 0 ≤ off ≤ unit_data_len u →
  wf_buf (unit_buf_at (sections_of is_alt) big u off).
Proof.
  intros [Hu0 Hu1] Hoff. destruct (sections_of_ok is_alt DEBUG_INFO) as [Hb Hl]. split; cbn; [done|].
  unfold sec_size in *. lia.
Qed.

Lemma name_attr_runs sections big from here u a val ret : at_name a ≠ DW_AT_specification →
  ends (name_attr sections big from here u a val ret).
Proof.
  intros Ha. unfold name_attr. cbv zeta. apply ends_if.
  - apply ends_if; [apply ends_ret|]. apply ends_bind; [apply ends_resolve_string|]. intros []. apply ends_ret.
  - apply ends_if.
    + apply ends_bind; [apply ends_resolve_string|]. intros []. apply ends_ret.
    + replace (at_name a =? 71) with false by lia. apply ends_ret.
Qed.

Lemma read_referenced_name_ends fuel is_alt u off : plain_unit (sections_of is_alt) u → 0 ≤ unit_data_offset u → off < 2^64 →
  ends (read_referenced_name d alt units e fuel is_alt u off).
Proof.
  intros [Hin Hspec] Hoff0 Hoff. destruct fuel; cbn [read_referenced_name]; fold (sections_of is_alt); cbv zeta;
    (destruct (Z.ltb_spec off (unit_data_offset u)); cbn [orb]; [apply ends_bind; [apply ends_callback|]; intros _; apply ends_ret|]);
    (destruct (Z.leb_spec (unit_data_len u) (u64 (off - unit_data_offset u))); [apply ends_bind; [apply ends_callback|]; intros _; apply ends_ret|]);
    (apply ends_bind; [|intros []; apply ends_ret]);
    (eapply (ends_on_run (sections_of is_alt) _ (λ _, True));
      [apply unit_buf_ok; [done|pose proof (u64_range (off - unit_data_offset u)); lia]|done|]);
    intros s Hs Hsec _;
    (eapply run_at_bind; [done|done|apply run_at_ends; [apply ends_uleb128|done]|]); intros code s1 _ _ _ Hs1 Hsec1;
    (destruct (code =? 0); [apply run_at_ends; [|done]; apply ends_bind; [apply ends_error|]; intros _; apply ends_ret|]);
    (eapply run_at_bind; [done|done|apply run_at_gives; [done|apply ends_lookup_abbrev|apply gives_lookup_abbrev]|]);
    intros [ab|] s2 _ Hab _ Hs2 Hsec2; [|by apply (runs_in_ret (sections_of is_alt))| |by apply (runs_in_ret (sections_of is_alt))];
    (eapply run_at_bind; [done|done|eapply (for_attrs_named _ _ _ _ _ (λ a, at_name a ≠ 71) (λ _, True)); [|intros a val st Ha _ _|done..]|
       intros r s3 _ _ _ Hs3 Hsec3; by apply (runs_in_ret (sections_of is_alt))]).
  all: try (exact (proj1 (Forall_forall _ _) Hspec ab (Hab ab eq_refl))).
  all: eapply runs_in_weaken; [|apply runs_in_ends; by apply name_attr_runs]; done.
Qed.
End names.

(** ** Functions *)
Section functions.
Variables (d : dwarf_sections) (alt : option altfile) (units : list dwarf_unit) (base_address : Z) (e : bool) (pagesize : Z).
Variables (lhdr : line_header) (rfuel : nat).
Hypothesis Hd : sections_ok d.
Hypothesis Halt : ∀ f, alt = Some f → sections_ok (af_sections f).

(** The units of a list can be referred to. *)
Definition plain_units (sections : dwarf_sections) (us : list dwarf_unit) : Prop :=
  Forall (λ u, plain_unit sections u ∧ 0 ≤ unit_data_offset u) us.
Hypothesis Hunits : plain_units d units.
Hypothesis Haunits : ∀ f, alt = Some f → plain_units (af_sections f) (af_units f).

Lemma ends_find_unit us off : ends (unit_at us off).
Proof.
  apply ends_bind; [|intros i; apply ends_ret]. apply ends_lift_res. unfold find_unit. apply bsearch_fuel. intros i. by case_match.
Qed.

Lemma gives_unit_at us off : gives (λ r, ∀ u, r = Some u → u ∈ us) (unit_at us off).
Proof. apply gives_then. intros [i|]; apply gives_ret; [|done]. cbn. intros u Hu. by eapply list_elem_of_lookup_2. Qed.

Lemma ends_gives_bind {A B} (R : A → Prop) (m : D A) (k : A → D B) : ends m → gives R m → (∀ a, R a → ends (k a)) → ends (m ≫= k).
Proof.
  intros Hm Hg Hk s Hs. destruct (Hm s Hs) as [Hf Hok]. unfold mbind, M_bind.
  destruct (m s) as [[a s1]|f] eqn:E; [|split; [congruence|done]]. pose proof (Hok a s1 eq_refl) as S1.
  destruct (Hk a (Hg _ _ _ E) s1 (dstep_wf _ _ Hs S1)) as [Hf2 Hok2]. split; [done|]. intros b s' E'. eauto using dstep_trans.
Qed.

Lemma ends_name_from_attr u a val : plain_unit d u → 0 ≤ unit_data_offset u → in_width 64 (u_uint val) →
  ends (read_referenced_name_from_attr d alt units e rfuel u a val).
Proof.
  intros Hu Hoff [_ Hval]. unfold read_referenced_name_from_attr, name_from_attr. cbv zeta.
  assert (∀ is_alt us, plain_units (sections_of d alt is_alt) us → ends
    (unit ← unit_at us (u_uint val);
     match unit with
     | Some unit => read_referenced_name d alt units e rfuel is_alt unit (u64 (u_uint val - low_offset unit))
     | None => mret None
     end)) as Hfrom.
  { intros is_alt us Hus. eapply ends_gives_bind; [apply ends_find_unit|apply gives_unit_at|]. intros [u'|] Hu'; [|apply ends_ret].
    pose proof (proj1 (Forall_forall _ _) Hus u' (Hu' u' eq_refl)) as [? ?].
    apply read_referenced_name_ends; try done. apply u64_range. }
  apply ends_if; [apply ends_ret|]. apply ends_if; [apply ends_ret|].
  destruct (encoding val); try apply ends_ret; try (by apply read_referenced_name_ends).
  - by apply (Hfrom false).
  - destruct alt as [f|] eqn:E; [|by apply ends_fail]. rewrite <-E in *. apply (Hfrom true). unfold sections_of. rewrite E. cbn.
    by apply Haunits.
Qed.

(** Attributes keep the ranges typed. *)
Definition keeps_range (m : D (unit + entry_attrs)) : Prop := runs_in d (λ r, ∀ st', r = inr st' → pcrange_ok (ea_pcrange st')) m.

Lemma keeps_ret st : pcrange_ok (ea_pcrange st) → keeps_range (mret (inr st)).
Proof. intros H. apply runs_in_ret. by intros ? [= <-]. Qed.
Lemma keeps_stop : keeps_range (mret (inl tt)).
Proof. by apply runs_in_ret. Qed.
Lemma keeps_then {A} (m : D A) k : ends m → (∀ a, keeps_range (k a)) → keeps_range (m ≫= k).
Proof. intros Hm Hk. eapply runs_in_bind; [by apply runs_in_ends|]. intros a _. apply Hk. Qed.

Ltac keeps :=
  repeat first
    [ apply keeps_ret; first [done | cbn; by repeat case_match]
    | apply keeps_stop
    | apply runs_in_if
    | apply keeps_then; [first [apply ends_error | apply ends_array_get | apply ends_addr_index | apply ends_resolve_string]|intros ?]
    | case_match ].

Lemma base_attr_runs tag u a val st : pcrange_ok (ea_pcrange st) → keeps_range (base_attr d e tag u a val st).
Proof. intros Hst. unfold base_attr. keeps. Qed.

Lemma function_attr_runs u a val st : plain_unit d u → 0 ≤ unit_data_offset u → val_ok d (altlink alt) (true, val) →
  pcrange_ok (ea_pcrange st) → keeps_range (function_attr d alt units e lhdr rfuel u a val st).
Proof.
  intros Hu Hoff Hval Hst. pose proof (u_uint_ok _ _ _ Hval) as Hw. unfold function_attr. cbv zeta.
  apply runs_in_if; [keeps|]. apply runs_in_if; [keeps|].
  apply runs_in_if.
  { apply runs_in_if; [keeps|]. apply keeps_then; [by apply ends_name_from_attr|]. intros [name|]; keeps. }
  apply runs_in_if; [keeps|]. apply runs_in_if; [keeps|].
  apply runs_in_if; [apply keeps_ret; cbn; by eapply update_pcrange_ok|]. keeps.
Qed.

Lemma entry_attr_runs tag is_function u a val st : plain_unit d u → 0 ≤ unit_data_offset u → val_ok d (altlink alt) (true, val) →
  pcrange_ok (ea_pcrange st) → keeps_range (entry_attr d alt units e lhdr rfuel tag is_function u a val st).
Proof.
  intros Hu Hoff Hval Hst. unfold entry_attr. eapply runs_in_bind; [by apply base_attr_runs|].
  intros [[]|st'] Hst'; [apply keeps_stop|]. specialize (Hst' st' eq_refl). apply runs_in_if; [by apply function_attr_runs|by apply keeps_ret].
Qed.

Lemma ends_finish_function u tag i en st : pcrange_ok (ea_pcrange en) →
  ends (finish_function d base_address e pagesize u tag i en st).
Proof.
  intros Hp. unfold finish_function. cbv zeta. apply ends_if; [apply ends_ret|].
  apply ends_bind; [apply ends_if; [|apply ends_ret]; apply ends_bind; [apply ends_vec_push|]; intros r; apply ends_ret|]. intros ptrs.
  apply ends_if; [|apply ends_ret]. apply ends_bind; [|intros []; apply ends_ret]. unfold add_function_ranges.
  cbv zeta. repeat case_match; (apply ends_bind; [apply ends_add_ranges; [done|apply ends_add_addrs|done]|intros []; apply ends_ret]).
Qed.

Lemma ends_sort {A} (compar : A → A → Z) l : ends (lift_res (qsort_structs compar l)).
Proof. apply ends_lift_res. destruct (qsort_structs_sorts compar l) as (l' & -> & _). done. Qed.

Lemma ends_finish_inlined i fvec st : ends (finish_inlined d alt pagesize i fvec st).
Proof.
  unfold finish_inlined. apply ends_if; [apply ends_ret|]. apply ends_bind; [apply ends_vec_push|]. intros [v|]; [|apply ends_ret].
  apply ends_bind; [apply ends_sort|]. intros l. apply ends_bind; [apply ends_deref|]. intros f. apply ends_ret.
Qed.

(** A run that takes a byte if there is one. *)
Definition progress_at {A} (s : dstate) (m : D A) : Prop :=
  run_at s (λ _, True) m ∧ (0 < db_left (db s) → ∀ a s', m s = Ok (a, s') → db_left (db s') < db_left (db s)).

Lemma progress_bind {A B} s s1 (a : A) (m : D A) (k : A → D B) : m s = Ok (a, s1) → dstep s s1 →
  db_left (db s1) < db_left (db s) → run_at s1 (λ _, True) (k a) → progress_at s (m ≫= k).
Proof.
  intros E S1 Hl [Hf Hok]. unfold progress_at, run_at, mbind, M_bind. rewrite E. split; [split; [done|]|].
  - intros b s' E'. split; [done|]. destruct (Hok b s' E'). eauto using dstep_trans.
  - intros _ b s' E'. destruct (Hok b s' E') as [_ S2]. pose proof (dstep_left _ _ S2). lia.
Qed.

Lemma read_function_entry_runs fuel un u : plain_unit d u → 0 ≤ unit_data_offset u → ∀ base st s,
  wf_buf (db s) → of_section d (db s) → db_left (db s) ≤ Z.of_nat fuel →
  progress_at s (read_function_entry d alt units base_address e pagesize lhdr rfuel fuel un u base st).
Proof.
  intros Hu Hoff. induction fuel as [|fuel IH]; intros base st s Hs Hsec Hf; unfold progress_at; cbn [read_function_entry];
    unfold run_at; rewrite bind_ok with (a := db s) (s1 := s) by done; fold (run_at (A := bool * func_state) s);
    (destruct (Z.ltb_spec 0 (db_left (db s))) as [Hl|]; cbn [negb];
      [|split; [apply (runs_in_ret d (λ _, True)); done|lia]]);
    destruct (read_uleb128_progress s Hs) as (code & s1 & E1 & _ & S1 & HP);
    pose proof (read_uleb128_byte s code s1 Hs Hl E1) as Hless;
    pose proof (dstep_wf _ _ Hs S1) as Hs1; pose proof (dstep_section _ _ _ Hsec S1) as Hsec1;
    (eapply (progress_bind s s1 code); [done..|]);
    (destruct (Z.eqb_spec code 0); [by apply (runs_in_ret d)|]);
    (eapply run_at_bind; [done..|apply run_at_ends; [apply ends_lookup_abbrev|done]|]); intros abbrev s2 _ _ S2 Hs2 Hsec2;
    pose proof (dstep_left _ _ S2); pose proof (st_left _ _ S2);
    (destruct abbrev as [abbrev|]; [|by apply (runs_in_ret d)]).
  - lia.
  - cbv zeta. set (isf := is_function_tag (ab_tag abbrev)).
    eapply run_at_bind; [done..|apply run_at_ends; [apply ends_if; [apply ends_alloc|apply ends_ret]|done]|].
    intros ok s3 _ _ S3 Hs3 Hsec3. pose proof (dstep_left _ _ S3). destruct ok; cbn [negb]; [|by apply (runs_in_ret d)].
    eapply run_at_bind; [done..|apply (for_attrs_keeps d (altlink alt) u tt _ (λ en, pcrange_ok (ea_pcrange en))); [|done..]|].
    { intros a val en Hval Hen. by apply entry_attr_runs. }
    intros [[]|en] s4 _ Hen S4 Hs4 Hsec4; [by apply (runs_in_ret d)|]. specialize (Hen en eq_refl). pose proof (dstep_left _ _ S4).
    eapply run_at_bind; [done..|apply run_at_ends; [apply ends_if; [by apply ends_finish_function|apply ends_ret]|done]|].
    intros [[ok fn] st'] s5 _ _ S5 Hs5 Hsec5. pose proof (dstep_left _ _ S5). destruct ok; cbn [negb]; [|by apply (runs_in_ret d)].
    eapply (run_at_bind d (λ _, True)); [done..| |].
    { destruct (_ =? 0); [by apply (runs_in_ret d)|]. destruct fn as [i|]; [|apply (IH _ _ _ ltac:(done) ltac:(done) ltac:(lia))].
      eapply run_at_bind; [done..|apply (IH _ _ _ ltac:(done) ltac:(done) ltac:(lia))|]. intros [ok st1] s6 _ _ _ Hs6 Hsec6.
      destruct ok; cbn [negb]; [|by apply (runs_in_ret d)]. apply run_at_ends; [apply ends_finish_inlined|done]. }
    intros [ok st1] s6 _ _ S6 Hs6 Hsec6. pose proof (dstep_left _ _ S6). destruct ok; cbn [negb]; [|by apply (runs_in_ret d)].
    apply (IH _ _ _ ltac:(done) ltac:(done) ltac:(lia)).
Qed.

Lemma function_entries_runs fuel un u : plain_unit d u → 0 ≤ unit_data_offset u → ∀ st s,
  wf_buf (db s) → of_section d (db s) → db_name (db s) = DEBUG_INFO → db_left (db s) ≤ Z.of_nat fuel →
  run_at s (λ _, True) (function_entries d alt units base_address e pagesize lhdr rfuel fuel un u st).
Proof.
  intros Hu Hoff. induction fuel as [|fuel IH]; intros st s Hs Hsec Hn Hf; cbn [function_entries];
    (eapply run_at_bind; [done..|apply run_at_ends; [apply ends_gets|done]|]; intros b s0 [= <- <-] _ _ _ _;
     destruct (Z.ltb_spec 0 (db_left (db s))) as [Hl|]; cbn [negb]; [|by apply (runs_in_ret d)]); [lia|].
  destruct (read_function_entry_runs (length (db_start (db s))) un u Hu Hoff 0 st s Hs Hsec) as [Hrun Hbyte].
  { destruct Hs as (_ & ? & ? & ?). lia. }
  eapply run_at_bind; [done..|]. intros [ok st'] s1 E1 _ S1 Hs1 Hsec1. destruct ok; cbn [negb]; [|by apply (runs_in_ret d)].
  apply IH; [done|done|by rewrite (st_name _ _ S1)|]. specialize (Hbyte Hl _ _ E1). lia.
Qed.
End functions.

(** C35. Reading the functions of a unit ends: in a file that was loaded from any
    bytes, whose units have no abbreviation with DW_AT_specification (nor those of
    its alternate file, loaded in the same way), for every unit and whatever the
    line header, the answers of the allocator and the functions read before,
    [read_function_info] returns or faults: the walk over the entries, nested to
    any depth, needs no more rounds than .debug_info has bytes, and names of other
    entries are found without a chain of references. *)
Theorem function_info_ends d alt base_address e pagesize dd s0 s0' lhdr rfuel un u fvec all s :
  sections_ok d → wf_buf (db s0) →
  build_dwarf_data d (altlink alt) base_address e pagesize s0 = Ok (Some dd, s0') →
  Forall no_specification (dd_units dd) → dd_units dd !! un = Some u →
  (∀ f, alt = Some f → sections_ok (af_sections f) ∧ Forall no_specification (af_units f) ∧ Forall (placed (af_sections f)) (af_units f)) →
  wf_buf (db s) →
  read_function_info d alt (dd_units dd) base_address e pagesize lhdr rfuel un u fvec all s ≠ Err OutOfFuel.
Proof.
  intros Hd Hs0 E0 Hspec Hu Halt Hs.
  destruct (build_dwarf_data_runs d (altlink alt) base_address e pagesize Hd s0 Hs0) as [_ Hok].
  destruct (Hok _ _ E0) as [Hr _]. destruct (Hr dd eq_refl) as [_ Hplaced].
  assert (∀ d us, Forall no_specification us → Forall (placed d) us → plain_units d us) as Hplain.
  { intros d1 us H1 H2. unfold plain_units. rewrite Forall_forall in *. intros x Hx. destruct (H2 x Hx) as (? & ? & ? & ?).
    split; [|lia]. split; [by split|by apply H1]. }
  pose proof (proj1 (Forall_lookup _ _) (Hplain _ _ Hspec Hplaced) un u Hu) as [Hpu Hoff].
  pose proof (proj1 (Forall_lookup _ _) Hplaced un u Hu) as (? & ? & ? & _).
  assert (wf_buf (unit_buf_at d e u 0)) as Hb by (apply (unit_buf_ok d None Hd (λ f (H : None = Some f), ltac:(done)) false); [done|lia]).
  unfold read_function_info.
  set (m := b ← gets db; function_entries _ _ _ _ _ _ _ _ _ _ _ _ : D (bool * func_state)).
  assert (ends (on_buf (unit_buf_at d e u 0) m)) as Hends.
  { apply (ends_on_run d _ (λ _, True)); [done..|]. intros s1 Hs1 Hsec1 Hdb. subst m.
    eapply run_at_bind; [done..|apply run_at_ends; [apply ends_gets|done]|]. intros b s2 [= <- <-] _ _ _ _.
    apply function_entries_runs; try done; [by apply Halt|by apply Hplain|intros f Hf; apply Hplain; by apply Halt|by rewrite Hdb|].
    destruct Hs1 as (_ & ? & ? & ?). lia. }
  refine (proj1 ((_ : ends _) s Hs)). apply ends_bind; [exact Hends|]. intros [[ok st] b']. apply ends_if; [apply ends_ret|].
  apply ends_bind; [apply ends_vec_push|]. intros [v|]; [|apply ends_ret]. apply ends_bind; [apply ends_sort|]. intros l. apply ends_ret.
Qed.

(** The file with the functions "f" and "g". *)
Definition example_data : dwarf_data := match example_files with f :: _ => df_data f | [] => mk_dwarf_data 0 [] [] end.

Lemma function_info_ends_witness :
  read_function_info example_file_sections None (dd_units example_data) 0 false 4096 witness_hdr 0 0
    (nth 0 (dd_units example_data) (mk_unit 0 0 0 0 0 0 false 0 0 0 0 0 None None None [])) None [] (witness_state []) ≠ Err OutOfFuel.
Proof.
  eapply (function_info_ends example_file_sections None 0 false 4096 example_data (witness_state [])).
  - intros []; (split; [|done]); cbn; try done; try constructor; apply (bool_decide_unpack _); vm_compute; exact I.
  - apply (bool_decide_unpack _). vm_compute. exact I.
  - vm_compute. reflexivity.
  - apply (bool_decide_unpack _). vm_compute. exact I.
  - vm_compute. reflexivity.
  - done.
  - apply (bool_decide_unpack _). vm_compute. exact I.
Defined.
