(* ===== verification/DwarfNames.v ===== *)
(** * Functions by name (src/dwarf/dwarf.c)

    [dwarf_iter_functions] calls back for the functions of a name, or for all, from
    the tables of the units the first time and from one table of all functions
    afterwards; [dwarf_info_by_name] finds a function by its name and the name of
    its file.

    A function is the number of its file in [state->fileline_data] and its number
    among the functions read from that file.  The callback works on the files and
    on a state of its own: it may remember the strings of a function. *)

From S2P Require Import Prelude Util Bytes Sort Search BtMmap DwarfBuf DwarfAttr DwarfAbbrev DwarfLine DwarfRange DwarfUnit DwarfFunc DwarfTypes DwarfPath DwarfLookup.

(** [struct function *] *)
Definition fref : Type := nat * nat.

Definition file_of (fs : list dwarf_file) (r : fref) : D dwarf_file := deref (fs !! r.1).
Definition func_of (fs : list dwarf_file) (r : fref) : D function := f ← file_of fs r; deref (da_all (df_read f) !! r.2).
(** [fn->unit->filename] *)
Definition filename_of (fs : list dwarf_file) (r : fref) : D (option cptr) :=
  file ← file_of fs r;
  fn ← func_of fs r;
  u ← deref (dd_units (df_data file) !! fn_unit fn);
  mret (unit_filename u).

(** [fn->name], as [strcmp] sees it. *)
Definition name_at (fs : list dwarf_file) (r : fref) : list Z :=
  match fs !! r.1 with
  | Some f => name_of (df_sections f) (df_alt f) (da_all (df_read f)) (Some r.2)
  | None => []
  end.

Definition function_name_search (fs : list dwarf_file) (key : list Z) (functions : list fref) (i : nat) : res Z :=
  match functions !! i with
  | Some r => Ok (strcmp key (name_at fs r))
  | None => Err OutOfBounds
  end.

Definition function_ref_compare (fs : list dwarf_file) (r1 r2 : fref) : Z := strcmp (name_at fs r1) (name_at fs r2).

Section iterate.
Context {A : Type}.
Variable callback : option cptr → option cptr → fref → list dwarf_file * A → D (list dwarf_file * A).

(** [callback(functions[i]->unit->filename, functions[i]->name, functions[i], cbdata)] *)
Definition call (r : fref) (st : list dwarf_file * A) : D (list dwarf_file * A) :=
  file ← filename_of st.1 r;
  fn ← func_of st.1 r;
  callback file (fn_name fn) r st.

Fixpoint call_all (rs : list fref) (st : list dwarf_file * A) : D (list dwarf_file * A) :=
  match rs with
  | [] => mret st
  | r :: rs => st ← call r st; call_all rs st
  end.

(** [for (i = ...; i >= 0; i--)], up to another name. *)
Fixpoint iter_down (key : list Z) (functions : list fref) (i : nat) (st : list dwarf_file * A) : D (list dwarf_file * A) :=
  r ← deref (functions !! i);
  if negb (strcmp key (name_at st.1 r) =? 0) then mret st
  else
    st ← call r st;
    match i with O => mret st | S i => iter_down key functions i st end.

(** [for (...; i < functions_count; i++)], over the rest of the table. *)
Fixpoint iter_up (key : list Z) (functions : list fref) (st : list dwarf_file * A) : D (list dwarf_file * A) :=
  match functions with
  | [] => mret st
  | r :: functions =>
      if negb (strcmp key (name_at st.1 r) =? 0) then mret st
      else st ← call r st; iter_up key functions st
  end.

Definition _dwarf_iter_funclist (functions : list fref) (function : option (list Z)) (st : list dwarf_file * A)
    : D (list dwarf_file * A) :=
  match function with
  | None => call_all functions st
  | Some key =>
      fn ← lift_res (bsearch (function_name_search st.1 key functions) (length functions));
      match fn with
      | None => mret st
      | Some i =>
          st ← iter_down key functions i st;
          iter_up key (drop (S i) functions) st
      end
  end.

Variables (pagesize : Z) (threaded : bool) (lfuel rfuel : nat).

Definition set_data (fs : list dwarf_file) (fi : nat) (f : dwarf_file) (da : ddata) : list dwarf_file :=
  <[fi := f <| df_read := da |>]> fs.

(** The functions of the unit [un] of file [fi], read if they have not been. *)
Definition unit_functions (fi un : nat) (fs : list dwarf_file) : D (list dwarf_file * lazy (list nat)) :=
  f ← deref (fs !! fi);
  ul ← deref (da_units (df_read f) !! un);
  match ul_functions ul with
  | NotRead =>
      u ← deref (dd_units (df_data f) !! un);
      '(_, _, da) ← dwarf_read_function_info (df_sections f) (df_alt f) (dd_units (df_data f)) (dd_base_address (df_data f))
        (df_bigendian f) pagesize threaded lfuel rfuel un u (df_read f);
      ul ← deref (da_units da !! un);
      mret (set_data fs fi f da, ul_functions ul)
  | l => mret (fs, l)
  end.

Fixpoint iter_units (fi : nat) (uns : list nat) (function : option (list Z)) (st : list dwarf_file * A)
    : D (list dwarf_file * A) :=
  match uns with
  | [] => mret st
  | un :: uns =>
      '(fs, functions) ← unit_functions fi un st.1;
      st ← match functions with
           | Have l => _dwarf_iter_funclist (pair fi <$> l) function (fs, st.2)
           | _ => mret (fs, st.2)
           end;
      iter_units fi uns function st
  end.

Definition _dwarf_iter_functions (fi : nat) (function : option (list Z)) (st : list dwarf_file * A)
    : D (list dwarf_file * A) :=
  f ← deref (st.1 !! fi);
  iter_units fi (seq 0 (length (dd_units (df_data f)))) function st.

Fixpoint iter_files (fis : list nat) (function : option (list Z)) (st : list dwarf_file * A) : D (list dwarf_file * A) :=
  match fis with
  | [] => mret st
  | fi :: fis => st ← _dwarf_iter_functions fi function st; iter_files fis function st
  end.

(** The functions of all units, file by file and unit by unit. *)
Definition file_functions (fi : nat) (f : dwarf_file) : list fref :=
  concat ((λ ul, match ul_functions ul with Have l => pair fi <$> l | _ => [] end) <$> da_units (df_read f)).
Definition all_functions (fs : list dwarf_file) : list fref := concat (imap file_functions fs).

(** [state->functions], [None] while it is NULL. *)
Definition dwarf_iter_functions (functions : option (list fref)) (function : option (list Z)) (st : list dwarf_file * A)
    : D (option (list fref) * (list dwarf_file * A)) :=
  match functions with
  | Some l => st ← _dwarf_iter_funclist l function st; mret (functions, st)
  | None =>
      st ← iter_files (seq 0 (length st.1)) function st;
      let l := all_functions st.1 in
      ok ← alloc_answer;
      if (ok : bool) then
        l ← lift_res (qsort_structs (function_ref_compare st.1) l);
        mret (Some l, st)
      else
        match l with [] => mret (None, st) | _ => fail NullDeref end
  end.
End iterate.

(** ** One function by name *)
Section by_name.
Variables (pagesize : Z) (threaded : bool) (lfuel rfuel tfuel : nat).

(** [ptr], [rettype] and [args] as they are set. *)
Record func_info := mk_func_info { fi_ptr : Z; fi_ret : option (list Z); fi_args : option (list Z) }.

(** [strcmp(filename, s)] for a string of the file. *)
Definition same_name (f : dwarf_file) (filename : list Z) (p : option cptr) : D bool :=
  p ← deref p;
  s ← string_of (df_sections f) (af_sections <$> df_alt f) p;
  mret (strcmp filename s =? 0).

(** Whether the unit is of the file asked for, with its absolute name made. *)
Definition unit_matches (fi un : nat) (filename : option (list Z)) (fs : list dwarf_file) : D (list dwarf_file * bool) :=
  match filename with
  | None => mret (fs, true)
  | Some filename =>
      f ← deref (fs !! fi);
      u ← deref (dd_units (df_data f) !! un);
      ul ← deref (da_units (df_read f) !! un);
      '(_, ul) ← (if bool_decide (ul_abs_filename ul = None) then dwarf_make_abs_filename (df_sections f) (df_alt f) u ul
                  else mret (false, ul));
      let fs := set_data fs fi f ((df_read f) <| da_units := <[un := ul]> (da_units (df_read f)) |>) in
      same ← same_name f filename (unit_filename u);
      if (same : bool) then mret (fs, true)
      else match ul_abs_filename ul with
      | None => mret (fs, false)
      | Some _ => same ← same_name f filename (ul_abs_filename ul); mret (fs, same)
      end
  end.

(** [dwarf_info_by_iterdata], with the strings remembered in the file. *)
Definition info_of (r : fref) (want_ret want_args : bool) (fs : list dwarf_file) : D (list dwarf_file * func_info) :=
  f ← file_of fs r;
  fn ← func_of fs r;
  u ← deref (dd_units (df_data f) !! fn_unit fn);
  '(fn, ptr, ret, args) ← dwarf_info_by_iterdata (df_sections f) (af_sections <$> df_alt f) (df_bigendian f) tfuel u
    want_ret want_args fn;
  mret (set_data fs r.1 f ((df_read f) <| da_all := <[r.2 := fn]> (da_all (df_read f)) |>), mk_func_info ptr ret args).

(** The result [None] is -1. *)
Fixpoint dwarf_lookup_function (fi : nat) (uns : list nat) (filename : option (list Z)) (function : list Z)
    (want_ret want_args : bool) (fs : list dwarf_file) : D (list dwarf_file * option func_info) :=
  match uns with
  | [] => mret (fs, None)
  | un :: uns =>
      let continue fs := dwarf_lookup_function fi uns filename function want_ret want_args fs in
      '(fs, matches) ← unit_matches fi un filename fs;
      if negb matches then continue fs
      else
        '(fs, functions) ← unit_functions pagesize threaded lfuel rfuel fi un fs;
        match functions with
        | Have l =>
            let functions := pair fi <$> l in
            fn ← lift_res (bsearch (function_name_search fs function functions) (length functions));
            match fn with
            | None => continue fs
            | Some i =>
                r ← deref (functions !! i);
                '(fs, info) ← info_of r want_ret want_args fs;
                mret (fs, Some info)
            end
        | _ => continue fs
        end
  end.

(** The files from [fi] on. *)
Fixpoint info_by_name_from (fis : list nat) (filename : option (list Z)) (function : list Z)
    (want_ret want_args : bool) (fs : list dwarf_file) : D (list dwarf_file * option func_info) :=
  match fis with
  | [] => mret (fs, None)
  | fi :: fis =>
      f ← deref (fs !! fi);
      '(fs, r) ← dwarf_lookup_function fi (seq 0 (length (dd_units (df_data f)))) filename function want_ret want_args fs;
      match r with
      | Some _ => mret (fs, r)
      | None => info_by_name_from fis filename function want_ret want_args fs
      end
  end.

Definition dwarf_info_by_name (filename : option (list Z)) (function : list Z) (want_ret want_args : bool)
    (fs : list dwarf_file) : D (list dwarf_file * option func_info) :=
  info_by_name_from (seq 0 (length fs)) filename function want_ret want_args fs.
End by_name.

Definition dwarf_get_base_address (fs : list dwarf_file) : D Z :=
  f ← deref (head fs);
  mret (dd_base_address (df_data f)).

(** ** The functions of a name are next to each other *)

(** The part of a list up to the first element that is not in [P]. *)
Fixpoint while {T} (P : T → bool) (l : list T) : list T :=
  match l with
  | x :: l => if P x then x :: while P l else []
  | [] => []
  end.

Lemma while_filter {T} (P : T → bool) l :
  (∀ i j x y, (i < j)%nat → l !! i = Some x → l !! j = Some y → P y = true → P x = true) →
  while P l = filter (λ x, P x = true) l.
Proof.
  induction l as [|x l IH]; intros H; [done|]. cbn [while].
  assert (∀ i j x y, (i < j)%nat → l !! i = Some x → l !! j = Some y → P y = true → P x = true) as H'.
  { intros i j a b Hij Ha Hb. apply (H (S i) (S j)); [lia|done|done]. }
  destruct (P x) eqn:E.
  - rewrite filter_cons_True by done. by rewrite IH.
  - rewrite filter_cons_False by congruence. symmetry. apply elem_of_nil_inv. intros y [Hy Hin]%list_elem_of_filter.
    apply list_elem_of_lookup in Hin as [j Hj]. rewrite (H 0%nat (S j) x y) in E; [done|lia|done|done|done].
Qed.

Section funclist.
Context {A : Type}.
Variable callback : option cptr → option cptr → fref → list dwarf_file * A → D (list dwarf_file * A).
Variable nm : fref → list Z.
Definition names_are (st : list dwarf_file * A) : Prop := ∀ r, name_at st.1 r = nm r.
Hypothesis Hkeep : ∀ file name r st s st' s', names_are st → callback file name r st s = Ok (st', s') → names_are st'.
Variable key : list Z.
Definition eqk (r : fref) : bool := strcmp key (nm r) =? 0.

Lemma call_keeps r st s st' s' : names_are st → call callback r st s = Ok (st', s') → names_are st'.
Proof.
  intros Hn E. unfold call in E. apply bind_inv in E as (file & s1 & _ & E). apply bind_inv in E as (fn & s2 & _ & E). by eapply Hkeep.
Qed.

(** Two continuations that agree where the names are these. *)
Lemma call_then r st s (k1 k2 : list dwarf_file * A → D (list dwarf_file * A)) : names_are st →
  (∀ st' s', names_are st' → k1 st' s' = k2 st' s') → (call callback r st ≫= k1) s = (call callback r st ≫= k2) s.
Proof.
  intros Hn Hk. unfold mbind, M_bind. destruct (call callback r st s) as [[st' s']|] eqn:E; [|done]. apply Hk. by eapply call_keeps.
Qed.

Lemma call_all_app l1 l2 : ∀ st s, call_all callback (l1 ++ l2) st s = (call_all callback l1 st ≫= call_all callback l2) s.
Proof.
  induction l1 as [|r l1 IH]; intros st s; cbn [call_all app]; [done|].
  unfold mbind, M_bind. destruct (call callback r st s) as [[st' s']|]; [|done]. apply IH.
Qed.

Lemma iter_up_run l : ∀ st s, names_are st → iter_up callback key l st s = call_all callback (while eqk l) st s.
Proof.
  induction l as [|r l IH]; intros st s Hn; cbn [iter_up while]; [done|]. rewrite Hn. fold (eqk r). destruct (eqk r); cbn [negb]; [|done].
  cbn [call_all]. apply call_then; [done|]. intros st' s'. apply IH.
Qed.

Lemma iter_down_run l1 : ∀ x l2 st s, names_are st →
  iter_down callback key (l1 ++ x :: l2) (length l1) st s = call_all callback (while eqk (x :: reverse l1)) st s.
Proof.
  induction l1 as [|y l1 IH] using rev_ind; intros x l2 st s Hn.
  - cbn [length app iter_down while]. rewrite bind_ok with (a := x) (s1 := s) by done. rewrite Hn. fold (eqk x).
    destruct (eqk x); cbn [negb]; [|done]. done.
  - rewrite length_app, Nat.add_1_r. cbn [iter_down]. rewrite reverse_snoc. cbn [while].
    rewrite lookup_app_r by (rewrite length_app; cbn; lia). rewrite length_app, Nat.add_1_r, Nat.sub_diag.
    rewrite bind_ok with (a := x) (s1 := s) by done. rewrite Hn. fold (eqk x). destruct (eqk x); cbn [negb]; [|done].
    cbn [call_all]. apply call_then; [done|]. intros st' s' Hn'. rewrite <-app_assoc. cbn [app]. by apply IH.
Qed.

(** A table sorted by name. *)
Definition sorted_names (functions : list fref) : Prop := StronglySorted (λ r1 r2, strcmp (nm r1) (nm r2) ≤ 0) functions.

Lemma sorted_names_lookup functions i j r1 r2 : sorted_names functions → (i < j)%nat → functions !! i = Some r1 →
  functions !! j = Some r2 → strcmp (nm r1) (nm r2) ≤ 0.
Proof.
  intros Hs. revert i j. induction Hs as [|x l Hl IH Hx]; intros i j Hij H1 H2; [by rewrite lookup_nil in H1|].
  destruct j as [|j]; [lia|]. cbn in H2. destruct i as [|i]; cbn in H1.
  - simplify_eq. rewrite Forall_forall in Hx. eapply Hx. by eapply list_elem_of_lookup_2.
  - apply (IH i j); [lia|done|done].
Qed.

Lemma strcmp_eq x y : strcmp x y = 0 ↔ x = y.
Proof.
  revert y. induction x as [|a x IH]; intros [|b y]; cbn; try done.
  destruct (Z.ltb_spec a b); [split; [done|]; intros [= -> ->]; lia|]. destruct (Z.ltb_spec b a); [split; [done|]; intros [= -> ->]; lia|].
  assert (a = b) as -> by lia. rewrite IH. split; [by intros ->|by intros [= ->]].
Qed.

Lemma strcmp_lt x y z : strcmp y z ≤ 0 → strcmp x y < 0 → strcmp x z < 0.
Proof.
  revert y z. induction x as [|a x IH]; intros [|b y] [|c z]; cbn; try lia. specialize (IH y z). repeat case_match; lia.
Qed.
Lemma strcmp_gt x y z : strcmp y z ≤ 0 → 0 < strcmp x z → 0 < strcmp x y.
Proof.
  revert y z. induction x as [|a x IH]; intros [|b y] [|c z]; cbn; try lia. specialize (IH y z). repeat case_match; lia.
Qed.

Lemma bsearch_names functions fs : (∀ r, name_at fs r = nm r) → sorted_names functions →
  ∃ p, bsearch (function_name_search fs key functions) (length functions) = Ok p ∧
    match p with
    | Some i => ∃ r, functions !! i = Some r ∧ eqk r = true
    | None => ∀ r, r ∈ functions → eqk r = false
    end.
Proof.
  intros Hn Hs. set (c i := match functions !! i with Some r => strcmp key (nm r) | None => 0 end).
  destruct (bsearch_spec (function_name_search fs key functions) c (length functions)) as (p & E & Hp).
  - intros i Hi. destruct (lookup_lt_is_Some_2 functions i Hi) as [r Hr]. unfold function_name_search, c. rewrite Hr. by rewrite Hn.
  - split; intros i j Hij; unfold c; destruct (lookup_lt_is_Some_2 functions i ltac:(lia)) as [r1 H1],
      (lookup_lt_is_Some_2 functions j ltac:(lia)) as [r2 H2]; rewrite H1, H2;
      pose proof (sorted_names_lookup functions i j r1 r2 Hs ltac:(lia) H1 H2); [by eapply strcmp_lt|by eapply strcmp_gt].
  - exists p. split; [done|]. destruct p as [i|].
    + destruct Hp as [Hi Hc]. destruct (lookup_lt_is_Some_2 functions i Hi) as [r Hr]. exists r. split; [done|].
      unfold c in Hc. rewrite Hr in Hc. unfold eqk. lia.
    + intros r [i Hi]%list_elem_of_lookup. specialize (Hp i (lookup_lt_Some _ _ _ Hi)). unfold c in Hp. rewrite Hi in Hp.
      unfold eqk. lia.
Qed.

Lemma call_all_keeps l : ∀ st s st' s', names_are st → call_all callback l st s = Ok (st', s') → names_are st'.
Proof.
  induction l as [|r l IH]; intros st s st' s' Hn E; cbn [call_all] in E; [apply mret_inv in E; by simplify_eq|].
  apply bind_inv in E as (st1 & s1 & E1 & E2). eapply IH; [|exact E2]. by eapply call_keeps.
Qed.

Lemma eqk_eq r : eqk r = true ↔ nm r = key.
Proof. unfold eqk. rewrite Z.eqb_eq, strcmp_eq. by split. Qed.

(** Between two functions of the name are only functions of the name. *)
Lemma eqk_between functions i j k x y z : sorted_names functions → (i < j < k)%nat →
  functions !! i = Some x → functions !! j = Some y → functions !! k = Some z → eqk x = true → eqk z = true → eqk y = true.
Proof.
  intros Hs Hijk Hx Hy Hz. rewrite !eqk_eq. intros Ex Ez.
  pose proof (sorted_names_lookup functions i j x y Hs ltac:(lia) Hx Hy) as H1.
  pose proof (sorted_names_lookup functions j k y z Hs ltac:(lia) Hy Hz) as H2. rewrite Ex in H1. rewrite Ez in H2.
  destruct (decide (strcmp (nm y) key = 0)) as [E|]; [by apply strcmp_eq|].
  pose proof (strcmp_lt (nm y) key (nm y) H1 ltac:(lia)). pose proof (proj2 (strcmp_eq (nm y) (nm y)) eq_refl). lia.
Qed.

(** The functions of the name around one of them. *)
Lemma around_found l1 r l2 : sorted_names (l1 ++ r :: l2) → eqk r = true →
  while eqk (r :: reverse l1) ++ while eqk l2 ≡ₚ filter (λ r, eqk r = true) (l1 ++ r :: l2).
Proof.
  intros Hs Hk. assert ((l1 ++ r :: l2) !! length l1 = Some r) as Hr by (by rewrite lookup_app_r, Nat.sub_diag by lia).
  cbn [while]. rewrite Hk, filter_app, filter_cons_True by done. rewrite !while_filter.
  - cbn [app]. rewrite <-Permutation_middle. constructor. by rewrite filter_reverse, reverse_Permutation.
  - intros i j x y Hij Hx Hy Ey.
    apply (eqk_between (l1 ++ r :: l2) (length l1) (S (length l1) + i) (S (length l1) + j) r x y); try done; [lia|..];
      rewrite lookup_app_r by lia; [replace (_ - _)%nat with (S i) by lia|replace (_ - _)%nat with (S j) by lia]; done.
  - intros i j x y Hij Hx Hy Ey. pose proof (lookup_lt_Some _ _ _ Hy) as Hj. pose proof (lookup_lt_Some _ _ _ Hx) as Hi.
    rewrite length_reverse in Hi, Hj. rewrite reverse_lookup in Hx, Hy by done.
    apply (eqk_between (l1 ++ r :: l2) (length l1 - S j) (length l1 - S i) (length l1) y x r); try done; [lia|..];
      rewrite lookup_app_l by lia; done.
Qed.

(** [_dwarf_iter_funclist] on a sorted table calls back for the functions of the
    name, each once. *)
Lemma iter_funclist_run functions st : names_are st → sorted_names functions →
  ∃ vs, vs ≡ₚ filter (λ r, nm r = key) functions ∧
    ∀ s, _dwarf_iter_funclist callback functions (Some key) st s = call_all callback vs st s.
Proof.
  intros Hn Hs. destruct (bsearch_names functions st.1 Hn Hs) as (p & E & Hp).
  assert (∀ l : list fref, filter (λ r, nm r = key) l = filter (λ r, eqk r = true) l) as Hf.
  { intros l. apply list_filter_iff. intros r. by rewrite eqk_eq. }
  rewrite Hf. destruct p as [i|].
  - destruct Hp as (r & Hr & Hk). pose proof (take_drop_middle functions i r Hr) as Hsplit.
    assert (length (take i functions) = i) as Hi by (rewrite length_take; apply lookup_lt_Some in Hr; lia).
    set (l1 := take i functions) in *. set (l2 := drop (S i) functions) in *.
    exists (while eqk (r :: reverse l1) ++ while eqk l2). split; [rewrite <-Hsplit; apply around_found; [by rewrite Hsplit|done]|].
    intros s. unfold _dwarf_iter_funclist. erewrite bind_ok by (unfold lift_res; rewrite E; done). cbn beta iota. fold l2.
    rewrite call_all_app. unfold mbind, M_bind. rewrite <-Hsplit at 1. rewrite <-Hi at 1. rewrite iter_down_run by done.
    destruct (call_all callback _ st s) as [[st' s']|] eqn:E'; [|done]. apply iter_up_run. by eapply call_all_keeps.
  - exists []. split.
    + enough (filter (λ r, eqk r = true) functions = []) as -> by done. apply elem_of_nil_inv.
      intros r [Hr Hin]%list_elem_of_filter. rewrite Hp in Hr by done. done.
    + intros s. unfold _dwarf_iter_funclist. by erewrite bind_ok by (unfold lift_res; rewrite E; done).
Qed.
End funclist.

(** ** Functions know their unit *)
Section known.
Variables (d : dwarf_sections) (alt : option altfile) (units : list dwarf_unit) (base_address : Z) (e : bool) (pagesize : Z).
Variables (n : nat).
Definition known (f : function) : Prop := (fn_unit f < n)%nat.
Definition all_known (st : func_state) : Prop := Forall known (fs_all st).

Lemma insert_known l i f : Forall known l → known f → Forall known (<[i := f]> l).
Proof. intros Hl Hf. by apply Forall_insert. Qed.

Section entries.
Variables (lhdr : line_header) (rfuel : nat).

Lemma entry_attr_known tag is_function u a val st : known (ea_function st) →
  gives (λ r, ∀ st', r = inr st' → known (ea_function st')) (entry_attr d alt units e lhdr rfuel tag is_function u a val st).
Proof.
  intros Hst. unfold entry_attr.
  apply (gives_bind (λ r : unit + entry_attrs, ∀ st', r = inr st' → known (ea_function st'))).
  - unfold base_attr. apply gives_if; [|apply gives_ret; by intros ? [= <-]].
    destruct (encoding val); try (apply gives_ret; by intros ? [= <-]).
    apply gives_then. intros [b|]; apply gives_ret; by intros ? [= <-].
  - intros [|st1] H1; [by apply gives_ret|]. specialize (H1 st1 eq_refl). apply gives_if; [|apply gives_ret; by intros ? [= <-]].
    unfold function_attr. cbv zeta.
    repeat first
      [ apply gives_if | apply gives_ret; intros ? E; repeat case_match; by simplify_eq
      | apply gives_then; intros [[] [?|]] | apply gives_then; intros ? ].
Qed.

Lemma finish_function_known u tag i en st : all_known st → known (ea_function en) →
  gives (λ r : bool * option nat * func_state, all_known r.2) (finish_function d base_address e pagesize u tag i en st).
Proof.
  intros Hst Hen. unfold finish_function. cbv zeta. apply gives_if; [by apply gives_ret|]. apply gives_then. intros ptrs.
  set (st1 := set_function _ _ _). assert (all_known st1) as Hst1 by (apply insert_known; [done|by destruct (have_lowpc _)]).
  apply gives_if; [|by apply gives_ret].
  apply (gives_bind (λ r : bool * func_state, all_known r.2)).
  - unfold add_function_ranges. cbv zeta. repeat case_match; apply gives_then; intros []; by apply gives_ret.
  - intros [ok st2] Hst2. by apply gives_ret.
Qed.

Lemma finish_inlined_known i fvec st : all_known st → gives (λ r : bool * func_state, all_known r.2) (finish_inlined d alt pagesize i fvec st).
Proof.
  intros Hst. unfold finish_inlined. apply gives_if; [by apply gives_ret|]. apply gives_then. intros [v|]; [|by apply gives_ret].
  apply gives_then. intros sorted. eapply gives_bind; [apply gives_deref|]. intros f Hf. apply gives_ret. apply insert_known; [done|].
  exact (proj1 (Forall_lookup _ _) Hst i f Hf).
Qed.

Lemma read_function_entry_known un u fuel : (un < n)%nat → ∀ base st, all_known st →
  gives (λ r : bool * func_state, all_known r.2)
    (read_function_entry d alt units base_address e pagesize lhdr rfuel fuel un u base st).
Proof.
  intros Hun. induction fuel as [|fuel IH]; intros base st Hst; cbn [read_function_entry]; apply gives_then; intros b;
    (apply gives_if; [by apply gives_ret|]); apply gives_then; intros code; (apply gives_if; [by apply gives_ret|]);
    apply gives_then; intros [abbrev|]; try (by apply gives_ret); [apply gives_fail|].
  cbv zeta. set (f0 := mk_function None None 0 [] _ _ 0 None None un). apply gives_then. intros ok.
  apply gives_if; [by apply gives_ret|]. set (st1 := if is_function_tag _ then _ else st).
  assert (all_known st1) as Hst1.
  { subst st1. destruct (is_function_tag _); [|done]. apply Forall_app. split; [done|]. by apply Forall_singleton. }
  eapply gives_bind; [apply (gives_for_attrs _ _ _ _ _ (λ st, known (ea_function st))); [|done]|].
  { intros. by apply entry_attr_known. }
  intros [|en] Hen; [by apply gives_ret|]. specialize (Hen en eq_refl).
  apply (gives_bind (λ r : bool * option nat * func_state, all_known r.2)).
  { apply gives_if; [by apply finish_function_known|by apply gives_ret]. }
  intros [[ok2 fn] st2] Hst2. cbn in Hst2. apply gives_if; [by apply gives_ret|].
  apply (gives_bind (λ r : bool * func_state, all_known r.2)).
  { apply gives_if; [by apply gives_ret|]. destruct fn as [i|]; [|by apply IH].
    eapply gives_bind; [by apply IH|]. intros [ok3 st3] Hst3. cbn in Hst3.
    apply gives_if; [by apply gives_ret|]. by apply finish_inlined_known. }
  intros [ok4 st4] Hst4. apply gives_if; [by apply gives_ret|]. by apply IH.
Qed.

Lemma read_function_info_known un u fvec all : (un < n)%nat → Forall known all →
  gives (λ r : list addrs * vector addrs * func_state, all_known r.2)
    (read_function_info d alt units base_address e pagesize lhdr rfuel un u fvec all).
Proof.
  intros Hun Hall. unfold read_function_info.
  apply (gives_bind (λ r : bool * func_state * dwarf_buf, all_known r.1.2)).
  { apply (gives_on_buf (λ r : bool * func_state, all_known r.2)). apply gives_then. intros b.
    generalize (length (db_start b)) as fuel. intros fuel.
    assert (all_known (mk_func_state (default vec_empty fvec) None vec_empty all)) as Hst by done. revert Hst.
    generalize (mk_func_state (default vec_empty fvec) None vec_empty all) as st.
    induction fuel as [|fuel IH]; intros st Hst; cbn [function_entries]; apply gives_then; intros b0;
      (apply gives_if; [by apply gives_ret|]); [apply gives_fail|].
    eapply gives_bind; [by apply read_function_entry_known|]. intros [ok st1] Hst1. apply gives_if; [by apply gives_ret|]. by apply IH. }
  intros [[ok st] b] Hst. cbn in Hst. apply gives_if; [by apply gives_ret|]. apply gives_then. intros [v|]; [|by apply gives_ret].
  apply gives_then. intros l. by apply gives_ret.
Qed.
End entries.

Lemma read_info_known threaded lfuel rfuel un u da : (un < n)%nat → Forall known (da_all da) →
  gives (λ r : bool * lazy (list line) * ddata, Forall known (da_all r.2))
    (dwarf_read_function_info d alt units base_address e pagesize threaded lfuel rfuel un u da).
Proof.
  intros Hun Hall. unfold dwarf_read_function_info. apply gives_then. intros r.
  apply (gives_bind (λ r : lazy (list line) * bool * (list addrs * vector addrs * list nat * list function), Forall known r.2.2)).
  { destruct r as [[lhdr lines]|]; [|by apply gives_ret]. eapply gives_bind; [by apply read_function_info_known|].
    intros [[faddrs fvec] st] Hst. by apply gives_ret. }
  intros [[lines new_data] [[[faddrs fvec] ptrs] all]] Hr. apply gives_then. intros sorted. apply gives_then. intros ul. by apply gives_ret.
Qed.
End known.

(** ** The callbacks that are made

    A callback that records its arguments. *)
Record func_call := mk_func_call { fc_filename : option cptr; fc_name : option cptr; fc_function : fref }.
Definition recorder (filename name : option cptr) (r : fref) (st : list dwarf_file * list func_call)
    : D (list dwarf_file * list func_call) :=
  mret (st.1, st.2 ++ [mk_func_call filename name r]).

(** The arguments for a function. *)
Definition call_of (fs : list dwarf_file) (r : fref) : option func_call :=
  f ← fs !! r.1;
  fn ← da_all (df_read f) !! r.2;
  u ← dd_units (df_data f) !! fn_unit fn;
  Some (mk_func_call (unit_filename u) (fn_name fn) r).

Definition matching (fs : list dwarf_file) (function : option (list Z)) (r : fref) : Prop :=
  match function with None => True | Some key => name_at fs r = key end.
#[export] Instance matching_dec fs function r : Decision (matching fs function r).
Proof. unfold matching. destruct function; apply _. Defined.
Definition wanted (fs : list dwarf_file) (function : option (list Z)) (l : list fref) : list fref :=
  filter (matching fs function) l.

(** The callbacks [calls] are those for [rs], in some order. *)
Definition told (fs : list dwarf_file) (rs : list fref) (calls : list func_call) : Prop :=
  fc_function <$> calls ≡ₚ rs ∧ Forall (λ c, call_of fs (fc_function c) = Some c) calls.

Lemma told_app fs rs1 rs2 c1 c2 : told fs rs1 c1 → told fs rs2 c2 → told fs (rs1 ++ rs2) (c1 ++ c2).
Proof. intros [H1 H2] [H3 H4]. split; [by rewrite fmap_app, H1, H3|by apply Forall_app]. Qed.

Lemma call_recorder fs r log s c : call_of fs r = Some c →
  call recorder r (fs, log) s = Ok ((fs, log ++ [c]), s) ∧ fc_function c = r.
Proof.
  unfold call_of. intros H. apply bind_Some in H as (f & Hf & H). apply bind_Some in H as (fn & Hfn & H).
  apply bind_Some in H as (u & Hu & [= <-]). split; [|done]. unfold call, filename_of, func_of, file_of. cbn [fst snd].
  rewrite Hf. unfold mbind, M_bind. cbn. rewrite Hfn. cbn. by rewrite Hu.
Qed.

Lemma call_all_recorder fs rs : ∀ log s, Forall (λ r, is_Some (call_of fs r)) rs →
  ∃ calls, call_all recorder rs (fs, log) s = Ok ((fs, log ++ calls), s) ∧ told fs rs calls.
Proof.
  induction rs as [|r rs IH]; intros log s Hrs; cbn [call_all].
  - exists []. rewrite app_nil_r. split; [done|]. split; constructor.
  - apply Forall_cons in Hrs as [[c Hc] Hrs]. destruct (call_recorder fs r log s c Hc) as [E Er].
    destruct (IH (log ++ [c]) s Hrs) as (calls & E2 & H1 & H2). exists (c :: calls). rewrite (bind_ok _ _ _ _ _ E), E2.
    rewrite <-app_assoc. split; [done|]. split; [cbn; by rewrite Er, H1|]. constructor; [by rewrite Er|done].
Qed.

Lemma wanted_all fs l : wanted fs None l = l.
Proof. induction l as [|r l IH]; [done|]. unfold wanted in *. rewrite filter_cons_True by done. by rewrite IH. Qed.

Lemma funclist_recorded fs functions function log s :
  StronglySorted (λ r1 r2, strcmp (name_at fs r1) (name_at fs r2) ≤ 0) functions → Forall (λ r, is_Some (call_of fs r)) functions →
  ∃ calls, _dwarf_iter_funclist recorder functions function (fs, log) s = Ok ((fs, log ++ calls), s) ∧
    told fs (wanted fs function functions) calls.
Proof.
  intros Hs Hv. destruct function as [key|].
  - destruct (iter_funclist_run recorder (name_at fs)) with (key := key) (functions := functions) (st := (fs, log)) as (vs & Hvs & E).
    + intros file name r st s1 st' s2 Hn [= <- <-]. exact Hn.
    + done.
    + exact Hs.
    + rewrite E. destruct (call_all_recorder fs vs log s) as (calls & E2 & H1 & H2).
      { rewrite Hvs. apply Forall_forall. intros r [_ Hr]%list_elem_of_filter. exact (proj1 (Forall_forall _ _) Hv r Hr). }
      exists calls. split; [done|]. split; [by rewrite H1|done].
  - cbn [_dwarf_iter_funclist]. destruct (call_all_recorder fs functions log s Hv) as (calls & E & H).
    exists calls. split; [done|]. by rewrite wanted_all.
Qed.

(** ** The tables *)
Definition name_file_ok (f : dwarf_file) : Prop :=
  file_ok (df_sections f) (df_alt f) (df_data f) (df_read f) ∧ Forall (known (length (dd_units (df_data f)))) (da_all (df_read f)).
Definition names_ok (fs : list dwarf_file) : Prop := Forall name_file_ok fs.

(** The function is there and has a name. *)
Definition good (fs : list dwarf_file) (r : fref) : Prop :=
  ∃ f, fs !! r.1 = Some f ∧ named (da_all (df_read f)) r.2.

Lemma good_call fs r : names_ok fs → good fs r → is_Some (call_of fs r).
Proof.
  intros Hok (f & Hf & p & Hp). unfold call_of. rewrite Hf. cbn. rewrite list_lookup_fmap in Hp.
  destruct (da_all (df_read f) !! r.2) as [fn|] eqn:E; [|done]. cbn.
  destruct (proj1 (Forall_lookup _ _) Hok _ _ Hf) as [_ Hk]. pose proof (proj1 (Forall_lookup _ _) Hk _ _ E) as Hlt.
  destruct (lookup_lt_is_Some_2 _ _ Hlt) as [u ->]. eauto.
Qed.

(** The table of a unit. *)
Definition unit_table (fs : list dwarf_file) (fi un : nat) : list fref :=
  match f ← fs !! fi; ul ← da_units (df_read f) !! un; Some (ul_functions ul) with
  | Some (Have l) => pair fi <$> l
  | _ => []
  end.
Definition file_table (fs : list dwarf_file) (fi : nat) : list fref :=
  match fs !! fi with
  | Some f => concat (unit_table fs fi <$> seq 0 (length (dd_units (df_data f))))
  | None => []
  end.

Definition sorted_by_name (fs : list dwarf_file) : list fref → Prop := StronglySorted (λ r1 r2, strcmp (name_at fs r1) (name_at fs r2) ≤ 0).

Lemma unit_table_ok fs fi un : names_ok fs →
  sorted_by_name fs (unit_table fs fi un) ∧ Forall (good fs) (unit_table fs fi un).
Proof.
  intros Hok. unfold unit_table. destruct (fs !! fi) as [f|] eqn:Hf; [|split; constructor]. cbn.
  destruct (da_units (df_read f) !! un) as [ul|] eqn:Hul; [|split; constructor]. cbn.
  destruct (ul_functions ul) as [| |l] eqn:Hl; [split; constructor..|].
  destruct (proj1 (Forall_lookup _ _) Hok _ _ Hf) as [[Hda _ _] _].
  destruct (uok_functions _ _ _ _ (dok_units _ _ _ Hda un ul Hul) l Hl) as [Hn Hs]. split.
  - clear Hn Hl. induction Hs as [|i l' _ IH Hi]; cbn [fmap list_fmap]; [constructor|]. constructor; [done|].
    apply Forall_fmap. eapply Forall_impl; [exact Hi|]. intros j Hj. unfold name_at. cbn. by rewrite Hf.
  - apply Forall_fmap. eapply Forall_impl; [exact Hn|]. intros j Hj. exists f. done.
Qed.

(** ** Reading more

    The files stay what they are but for functions that are read. *)
Definition grows (f f' : dwarf_file) : Prop :=
  df_sections f' = df_sections f ∧ df_alt f' = df_alt f ∧ df_data f' = df_data f ∧
  da_all (df_read f) `prefix_of` da_all (df_read f').
Definition extends (fs fs' : list dwarf_file) : Prop := Forall2 grows fs fs'.

Lemma extends_refl fs : extends fs fs.
Proof. induction fs; constructor; [|done]. by repeat split. Qed.
Lemma extends_trans fs1 fs2 fs3 : extends fs1 fs2 → extends fs2 fs3 → extends fs1 fs3.
Proof.
  intros H. revert fs3. induction H as [|f1 f2 fs1 fs2 Hf _ IH]; intros fs3 H3; inversion H3 as [|? f3 ? fs3' Hf' H3']; subst; constructor; [|by apply IH].
  destruct Hf as (?&?&?&?), Hf' as (?&?&?&?). repeat split; try congruence. by etrans.
Qed.
Lemma extends_lookup fs fs' i f : extends fs fs' → fs !! i = Some f → ∃ f', fs' !! i = Some f' ∧ grows f f'.
Proof. intros H Hf. destruct (Forall2_lookup_l _ _ _ _ _ H Hf) as (f' & ? & ?). eauto. Qed.

Lemma good_extends fs fs' r : extends fs fs' → good fs r → good fs' r ∧ name_at fs' r = name_at fs r.
Proof.
  intros He (f & Hf & Hn). destruct (extends_lookup _ _ _ _ He Hf) as (f' & Hf' & H1 & H2 & _ & H4). split.
  - exists f'. split; [done|]. by eapply prefix_names.
  - unfold name_at. rewrite Hf, Hf', H1, H2. by apply name_of_prefix.
Qed.

Lemma call_of_extends fs fs' r c : extends fs fs' → call_of fs r = Some c → call_of fs' r = Some c.
Proof.
  intros He. unfold call_of. intros H. apply bind_Some in H as (f & Hf & H). apply bind_Some in H as (fn & Hfn & H).
  destruct (extends_lookup _ _ _ _ He Hf) as (f' & Hf' & _ & _ & H3 & [k Hk]). rewrite Hf'. cbn. rewrite Hk, lookup_app, Hfn. cbn.
  by rewrite H3.
Qed.

Lemma told_extends fs fs' function rs calls : extends fs fs' → Forall (good fs) rs →
  told fs (wanted fs function rs) calls → told fs' (wanted fs' function rs) calls.
Proof.
  intros He Hg [H1 H2]. split.
  - rewrite H1. enough (wanted fs' function rs = wanted fs function rs) as -> by done. unfold wanted. clear H1.
    induction Hg as [|r rs Hr _ IH]; [done|]. assert (matching fs' function r ↔ matching fs function r) as Hm.
    { destruct function; [|done]. cbn. by rewrite (proj2 (good_extends _ _ _ He Hr)). }
    destruct (decide (matching fs function r)).
    + rewrite !filter_cons_True by tauto. by rewrite IH.
    + rewrite !filter_cons_False by tauto. done.
  - eapply Forall_impl; [exact H2|]. intros c. by apply call_of_extends.
Qed.

Lemma gives_and {A} (R R' : A → Prop) m : gives R m → gives R' m → gives (λ a, R a ∧ R' a) m.
Proof. intros H H' s a s' E. split; [by eapply H|by eapply H']. Qed.

Section read_more.
Variables (pagesize : Z) (threaded : bool) (lfuel rfuel : nat).

Lemma gives_unit_functions fi un fs : names_ok fs →
  gives (λ r : list dwarf_file * lazy (list nat), names_ok r.1 ∧ extends fs r.1 ∧
           unit_table r.1 fi un = match r.2 with Have l => pair fi <$> l | _ => [] end ∧
           ∀ fi' un', fi' ≠ fi ∨ un' ≠ un → unit_table r.1 fi' un' = unit_table fs fi' un')
    (unit_functions pagesize threaded lfuel rfuel fi un fs).
Proof.
  intros Hok. unfold unit_functions. eapply gives_bind; [apply gives_deref|]. intros f Hf.
  eapply gives_bind; [apply gives_deref|]. intros ul Hul.
  cbn beta in Hf, Hul. destruct (proj1 (Forall_lookup _ _) Hok _ _ Hf) as [[Hda Ha Hlen] Hk]. destruct (ul_functions ul) eqn:Hfn.
  2,3: apply gives_ret; cbn; (split; [done|]); (split; [apply extends_refl|]); (split; [|done]); unfold unit_table; rewrite Hf; cbn;
    rewrite Hul; cbn; by rewrite Hfn.
  eapply gives_bind; [apply gives_deref|]. intros u Hu. pose proof (lookup_lt_Some _ _ _ Hu) as Hlt.
  eapply gives_bind; [apply gives_and; [by apply gives_dwarf_read_function_info|by eapply read_info_known]|].
  intros [[new_data lines] da] [(H1 & H2 & H3 & H4 & H5 & _) H6]. cbn in H6.
  eapply gives_bind; [apply gives_deref|]. intros ul' Hul'. cbn beta in Hul'. apply gives_ret. cbn.
  pose proof (lookup_lt_Some _ _ _ Hf) as Hfi.
  assert (∀ i, set_data fs fi f da !! i = if decide (i = fi) then Some (f <| df_read := da |>) else fs !! i) as Hset.
  { intros i. unfold set_data. case_decide as Hi; [subst; by rewrite list_lookup_insert_eq|by rewrite list_lookup_insert_ne]. }
  split; [|split; [|split]].
  - apply Forall_insert; [done|]. split; [|exact H6]. split; [exact H1|exact Ha|]. cbn. congruence.
  - apply Forall2_same_length_lookup. split; [unfold set_data; by rewrite length_insert|].
    intros i x y Hx Hy. rewrite Hset in Hy. case_decide; simplify_eq; (split; [done|]; split; [done|]; split; [done|]; first [exact H2|done]).
  - unfold unit_table. rewrite Hset, decide_True by done. cbn. by rewrite Hul'.
  - intros fi' un' Hne. unfold unit_table. rewrite Hset. case_decide as Hi; [|done]. subst fi'. rewrite Hf. cbn.
    by rewrite H4 by naive_solver.
Qed.

(** Units of a file, one after the other. *)
Lemma gives_iter_units fi function uns : NoDup uns → ∀ fs log, names_ok fs →
  gives (λ r : list dwarf_file * list func_call, names_ok r.1 ∧ extends fs r.1 ∧
           (∀ fi' un', fi' ≠ fi ∨ un' ∉ uns → unit_table r.1 fi' un' = unit_table fs fi' un') ∧
           ∃ calls, r.2 = log ++ calls ∧ told r.1 (wanted r.1 function (concat (unit_table r.1 fi <$> uns))) calls)
    (iter_units recorder pagesize threaded lfuel rfuel fi uns function (fs, log)).
Proof.
  induction uns as [|un uns IH]; intros Hnd fs log Hok; cbn [iter_units].
  { apply gives_ret. cbn. split; [done|]. split; [apply extends_refl|]. split; [done|]. exists []. rewrite app_nil_r.
    split; [done|]. split; constructor. }
  apply NoDup_cons in Hnd as [Hun Hnd]. eapply gives_bind; [by apply gives_unit_functions|].
  intros [fs1 functions] (Hok1 & He1 & Ht1 & Hfr1). cbn [fst snd] in Hok1, He1, Ht1, Hfr1.
  destruct (unit_table_ok fs1 fi un Hok1) as [Hs1 Hg1].
  apply (gives_bind (λ r : list dwarf_file * list func_call, r.1 = fs1 ∧ ∃ calls, r.2 = log ++ calls ∧
    told fs1 (wanted fs1 function (unit_table fs1 fi un)) calls)).
  { assert (∀ s, ∃ calls, (match functions with
      | Have l => _dwarf_iter_funclist recorder (pair fi <$> l) function (fs1, log)
      | _ => mret (fs1, log) end : D (list dwarf_file * list func_call)) s = Ok ((fs1, log ++ calls), s) ∧
      told fs1 (wanted fs1 function (unit_table fs1 fi un)) calls) as Hrun.
    { intros s. destruct functions as [| |l]; rewrite Ht1 in *.
      1,2: exists []; rewrite app_nil_r; split; [done|]; split; constructor.
      apply funclist_recorded; [done|]. eapply Forall_impl; [exact Hg1|]. intros r. by apply good_call. }
    intros s a s' E. destruct (Hrun s) as (calls & E' & Hc). cbn [snd] in E. rewrite E' in E. simplify_eq. cbn. eauto. }
  intros [fs1' log1] [Heq (calls1 & Hlog1 & Hc1)]. cbn in Heq, Hlog1. subst fs1' log1.
  eapply gives_weaken; [|by apply IH]. intros [fs2 log2] (Hok2 & He2 & Hfr2 & calls2 & Hlog2 & Hc2). cbn [fst snd] in *.
  split; [done|]. split; [by eapply extends_trans|]. split.
  - intros fi' un' Hne. rewrite Hfr2 by set_solver. apply Hfr1. set_solver.
  - exists (calls1 ++ calls2). split; [by rewrite Hlog2, app_assoc|]. cbn [fmap list_fmap concat]. unfold wanted. rewrite filter_app.
    apply told_app; [|exact Hc2]. rewrite Hfr2 by (by right). by eapply told_extends.
Qed.

Lemma file_table_good fs fi : names_ok fs → Forall (good fs) (file_table fs fi).
Proof.
  intros Hok. unfold file_table. destruct (fs !! fi); [|constructor]. apply Forall_concat, Forall_fmap, Forall_forall.
  intros un _. by apply unit_table_ok.
Qed.

Lemma file_table_frame fs fs' fi : extends fs fs' → (∀ un, unit_table fs' fi un = unit_table fs fi un) →
  file_table fs' fi = file_table fs fi.
Proof.
  intros He Ht. unfold file_table. destruct (fs !! fi) as [f|] eqn:Hf.
  - destruct (extends_lookup _ _ _ _ He Hf) as (f' & -> & _ & _ & Hd & _). rewrite Hd. f_equal. by apply list_fmap_ext.
  - apply lookup_ge_None in Hf. rewrite (Forall2_length _ _ _ He) in Hf. by apply lookup_ge_None in Hf as ->.
Qed.

(** The files, one after the other. *)
Lemma gives_iter_files function fis : NoDup fis → ∀ fs log, names_ok fs →
  gives (λ r : list dwarf_file * list func_call, names_ok r.1 ∧ extends fs r.1 ∧
           (∀ fi un, fi ∉ fis → unit_table r.1 fi un = unit_table fs fi un) ∧
           ∃ calls, r.2 = log ++ calls ∧ told r.1 (wanted r.1 function (concat (file_table r.1 <$> fis))) calls)
    (iter_files recorder pagesize threaded lfuel rfuel fis function (fs, log)).
Proof.
  induction fis as [|fi fis IH]; intros Hnd fs log Hok; cbn [iter_files].
  { apply gives_ret. cbn. split; [done|]. split; [apply extends_refl|]. split; [done|]. exists []. rewrite app_nil_r.
    split; [done|]. split; constructor. }
  apply NoDup_cons in Hnd as [Hfi Hnd].
  eapply (gives_bind (λ r : list dwarf_file * list func_call, names_ok r.1 ∧ extends fs r.1 ∧
    (∀ fi' un', fi' ≠ fi → unit_table r.1 fi' un' = unit_table fs fi' un') ∧
    ∃ calls, r.2 = log ++ calls ∧ told r.1 (wanted r.1 function (file_table r.1 fi)) calls)).
  { unfold _dwarf_iter_functions. cbn [fst]. eapply gives_bind; [apply gives_deref|]. intros f Hf. cbn beta in Hf.
    eapply gives_weaken; [|apply gives_iter_units; [apply NoDup_seq|done]].
    intros [fs1 log1] (H1 & H2 & H3 & calls & H4 & H5). cbn [fst snd] in *. split; [done|]. split; [done|].
    split; [intros fi' un' Hne; apply H3; by left|]. exists calls. split; [done|].
    unfold file_table. destruct (extends_lookup _ _ _ _ H2 Hf) as (f' & -> & _ & _ & -> & _). exact H5. }
  intros [fs1 log1] (Hok1 & He1 & Hfr1 & calls1 & Hlog1 & Hc1). cbn [fst snd] in *. subst log1.
  eapply gives_weaken; [|by apply IH]. intros [fs2 log2] (Hok2 & He2 & Hfr2 & calls2 & Hlog2 & Hc2). cbn [fst snd] in *.
  split; [done|]. split; [by eapply extends_trans|]. split.
  - intros fi' un' Hne. rewrite Hfr2, Hfr1 by set_solver. done.
  - exists (calls1 ++ calls2). split; [by rewrite Hlog2, app_assoc|]. cbn [fmap list_fmap concat]. unfold wanted. rewrite filter_app.
    apply told_app; [|exact Hc2]. rewrite (file_table_frame fs1 fs2 fi He2) by (intros un; by apply Hfr2).
    eapply told_extends; [done|by apply file_table_good|done].
Qed.

(** Where the units have been read. *)
Definition all_read (fs : list dwarf_file) : Prop :=
  Forall (λ f, Forall (λ ul, ul_functions ul ≠ NotRead) (da_units (df_read f))) fs.

Lemma iter_units_read fi f function uns : ∀ fs log s, names_ok fs → all_read fs → fs !! fi = Some f →
  Forall (λ un, un < length (dd_units (df_data f)))%nat uns →
  ∃ calls, iter_units recorder pagesize threaded lfuel rfuel fi uns function (fs, log) s = Ok ((fs, log ++ calls), s).
Proof.
  induction uns as [|un uns IH]; intros fs log s Hok Hr Hf Hu; cbn [iter_units]; [exists []; by rewrite app_nil_r|].
  apply Forall_cons in Hu as [Hun Hu]. destruct (proj1 (Forall_lookup _ _) Hok _ _ Hf) as [[_ _ Hlen] _].
  destruct (lookup_lt_is_Some_2 (da_units (df_read f)) un) as [ul Hul]; [by rewrite Hlen|].
  pose proof (proj1 (Forall_lookup _ _) (proj1 (Forall_lookup _ _) Hr _ _ Hf) _ _ Hul) as Hne. cbn beta in Hne.
  destruct (unit_table_ok fs fi un Hok) as [Hs Hg]. unfold unit_table in Hs, Hg. rewrite Hf in Hs, Hg. cbn in Hs, Hg. rewrite Hul in Hs, Hg.
  assert (unit_functions pagesize threaded lfuel rfuel fi un fs s = Ok ((fs, ul_functions ul), s)) as E.
  { unfold unit_functions. rewrite Hf. erewrite bind_ok by reflexivity. rewrite Hul. erewrite bind_ok by reflexivity. by destruct (ul_functions ul). }
  cbn [fst]. rewrite (bind_ok _ _ _ _ _ E). cbn [snd]. cbn in Hs, Hg. destruct (ul_functions ul) as [| |l]; [done| |].
  - rewrite bind_ok with (a := (fs, log)) (s1 := s) by done. by apply IH.
  - destruct (funclist_recorded fs (pair fi <$> l) function log s Hs) as (calls & E2 & _).
    { eapply Forall_impl; [exact Hg|]. intros r. by apply good_call. }
    rewrite (bind_ok _ _ _ _ _ E2). destruct (IH fs (log ++ calls) s Hok Hr Hf Hu) as (calls' & E3).
    exists (calls ++ calls'). by rewrite app_assoc.
Qed.

Lemma iter_files_read function fis : ∀ fs log s, names_ok fs → all_read fs → Forall (λ fi, fi < length fs)%nat fis →
  ∃ calls, iter_files recorder pagesize threaded lfuel rfuel fis function (fs, log) s = Ok ((fs, log ++ calls), s).
Proof.
  induction fis as [|fi fis IH]; intros fs log s Hok Hr Hfi; cbn [iter_files]; [exists []; by rewrite app_nil_r|].
  apply Forall_cons in Hfi as [Hlt Hfi]. destruct (lookup_lt_is_Some_2 _ _ Hlt) as [f Hf].
  destruct (iter_units_read fi f function (seq 0 (length (dd_units (df_data f)))) fs log s Hok Hr Hf) as (calls & E).
  { apply Forall_forall. intros un. rewrite elem_of_seq. lia. }
  destruct (IH fs (log ++ calls) s Hok Hr Hfi) as (calls' & E'). exists (calls ++ calls'). rewrite app_assoc, <-E'.
  apply bind_ok. unfold _dwarf_iter_functions. cbn [fst]. rewrite Hf. by erewrite bind_ok by reflexivity.
Qed.

Lemma all_functions_tables fs : names_ok fs → all_functions fs = concat (file_table fs <$> seq 0 (length fs)).
Proof.
  intros Hok. unfold all_functions. f_equal. apply list_eq. intros fi. rewrite list_lookup_imap, list_lookup_fmap.
  destruct (fs !! fi) as [f|] eqn:Hf; cbn.
  - rewrite lookup_seq_lt by (by eapply lookup_lt_Some). cbn. f_equal. unfold file_table, file_functions. rewrite Hf. f_equal.
    destruct (proj1 (Forall_lookup _ _) Hok _ _ Hf) as [[_ _ Hlen] _]. apply list_eq. intros un. rewrite !list_lookup_fmap, <-Hlen.
    destruct (da_units (df_read f) !! un) as [ul|] eqn:Hul; cbn.
    + rewrite lookup_seq_lt by (by eapply lookup_lt_Some). cbn. f_equal. unfold unit_table. rewrite Hf. cbn. by rewrite Hul.
    + rewrite lookup_seq_ge; [done|]. by apply lookup_ge_None.
  - rewrite lookup_seq_ge; [done|]. by apply lookup_ge_None.
Qed.
End read_more.

(** ** The table of all functions *)
Lemma function_ref_compare_orders fs : orders (function_ref_compare fs).
Proof.
  destruct strcmp_orders as [Ht Hto]. unfold function_ref_compare. split; [intros x y z; apply Ht|intros x y; apply Hto].
Qed.

Lemma told_perm fs function l l' calls : l ≡ₚ l' → told fs (wanted fs function l) calls → told fs (wanted fs function l') calls.
Proof. intros Hl [H1 H2]. split; [|done]. rewrite H1. unfold wanted. by rewrite Hl. Qed.

Lemma all_functions_good fs : names_ok fs → Forall (good fs) (all_functions fs).
Proof.
  intros Hok. rewrite all_functions_tables by done. apply Forall_concat, Forall_fmap, Forall_forall. intros fi _. by apply file_table_good.
Qed.

Section all_table.
Variables (pagesize : Z) (threaded : bool) (lfuel rfuel : nat).
Abbreviation iter := (dwarf_iter_functions recorder pagesize threaded lfuel rfuel).

Lemma cached_iter fs l function log s : names_ok fs → sorted_by_name fs l → l ≡ₚ all_functions fs →
  ∃ calls, iter (Some l) function (fs, log) s = Ok ((Some l, (fs, log ++ calls)), s) ∧
    told fs (wanted fs function (all_functions fs)) calls.
Proof.
  intros Hok Hs Hl. destruct (funclist_recorded fs l function log s Hs) as (calls & E & Hc).
  { rewrite Hl. eapply Forall_impl; [by apply all_functions_good|]. intros r. by apply good_call. }
  exists calls. split; [|by eapply told_perm]. unfold dwarf_iter_functions. by rewrite (bind_ok _ _ _ _ _ E).
Qed.

(** C14. The functions of a name: when [dwarf_iter_functions] returns, having read what
    units had not been read, it has called back exactly once for every function of
    the name in the tables of all units of all files (for all functions without a
    name to look for), with the name of its unit's file; and the table of all
    functions that it leaves answers every later call, which then always returns,
    with the same callbacks as the search through the units would make.  It does
    return if the units have been read and memory can be had. *)
Theorem functions_by_name fs function log s : names_ok fs →
  (∀ fns fs' log' s', iter None function (fs, log) s = Ok ((fns, (fs', log')), s') →
     names_ok fs' ∧ extends fs fs' ∧
     (∃ calls, log' = log ++ calls ∧ told fs' (wanted fs' function (all_functions fs')) calls) ∧
     ∀ l, fns = Some l → l ≡ₚ all_functions fs' ∧
       ∀ function2 log2 s2, ∃ calls, iter (Some l) function2 (fs', log2) s2 = Ok ((Some l, (fs', log2 ++ calls)), s2) ∧
         told fs' (wanted fs' function2 (all_functions fs')) calls) ∧
  (all_read fs → allocs s = [] → ∃ l calls, iter None function (fs, log) s = Ok ((Some l, (fs, log ++ calls)), s)).
Proof.
  intros Hok. split.
  - intros fns fs' log' s' E. unfold dwarf_iter_functions in E. apply bind_inv in E as ([fs1 log1] & s1 & E1 & E).
    destruct (gives_iter_files pagesize threaded lfuel rfuel function (seq 0 (length fs)) (NoDup_seq _ _) fs log Hok _ _ _ E1)
      as (Hok1 & He & _ & calls & Hlog & Hc). cbn [fst snd] in *.
    rewrite (Forall2_length _ _ _ He), <-all_functions_tables in Hc by done.
    apply bind_inv in E as (ok & s2 & _ & E). destruct ok.
    + destruct (qsort_structs_sorts (function_ref_compare fs1) (all_functions fs1)) as (l & El & Hp & Hs).
      unfold lift_res in E. rewrite El in E. apply bind_inv in E as (l0 & s3 & [= <- <-] & E). apply mret_inv in E. simplify_eq.
      split; [done|]. split; [done|]. split; [eauto|]. intros l0 [= <-]. split; [done|]. intros function2 log2 s2'.
      apply cached_iter; [done| |done]. apply Hs, function_ref_compare_orders.
    + destruct (all_functions fs1) eqn:Ef; [|done]. apply mret_inv in E. simplify_eq. split; [done|]. split; [done|].
      split; [|done]. exists calls. by rewrite Ef.
  - intros Hr Ha. unfold dwarf_iter_functions. cbn [fst].
    destruct (iter_files_read pagesize threaded lfuel rfuel function (seq 0 (length fs)) fs log s Hok Hr) as (calls & E).
    { apply Forall_forall. intros fi. rewrite elem_of_seq. lia. }
    rewrite (bind_ok _ _ _ _ _ E). cbn [fst]. rewrite bind_ok with (a := true) (s1 := s) by (unfold alloc_answer; by rewrite Ha).
    destruct (qsort_structs_sorts (function_ref_compare fs) (all_functions fs)) as (l & El & _). unfold lift_res. rewrite El.
    exists l, calls. done.
Qed.
End all_table.

(** ** Examples

    A unit "a" with the functions "g", "f" and "f". *)
Definition names_abbrev : list Z :=
  [1; 0x11; 1; 0x03; 0x08; 0x10; 0x17; 0x11; 0x01; 0x12; 0x0b; 0; 0;
   2; 0x2e; 0; 0x03; 0x08; 0x27; 0x19; 0x11; 0x01; 0x12; 0x0b; 0; 0; 0].
Definition names_info : list Z :=
  let entries :=
    [1; 97; 0; 0; 0; 0; 0] ++ addr8 16 ++ [32] ++
    [2; 103; 0] ++ addr8 16 ++ [8] ++ [2; 102; 0] ++ addr8 24 ++ [8] ++ [2; 102; 0] ++ addr8 32 ++ [8] ++ [0] in
  [Z.of_nat (length entries) + 7; 0; 0; 0; 4; 0; 0; 0; 0; 0; 8] ++ entries.
Definition names_sections : dwarf_sections := λ sec,
  match sec with DEBUG_INFO => names_info | DEBUG_ABBREV => names_abbrev | DEBUG_LINE => example_file_line | _ => [] end.
Definition names_files : list dwarf_file :=
  match backtrace_dwarf_add 4096 0 names_sections false None [] (witness_state []) with
  | Ok ((_, fs), _) => fs
  | Err _ => []
  end.

Lemma names_ok_add pagesize base_address sections e alt fs s ok fs' s' : names_ok fs →
  backtrace_dwarf_add pagesize base_address sections e alt fs s = Ok ((ok, fs'), s') → names_ok fs'.
Proof.
  intros Hok E. assert (files_ok fs) as Hfs by (eapply Forall_impl; [exact Hok|]; by intros f []).
  pose proof (gives_backtrace_dwarf_add pagesize base_address sections e alt fs Hfs _ _ _ E) as Hfs'. cbn in Hfs'.
  unfold backtrace_dwarf_add in E. apply bind_inv in E as (r & s1 & _ & E). destruct r as [dd|]; apply mret_inv in E; simplify_eq; [|done].
  apply Forall_app. split; [done|]. unfold files_ok in Hfs'. rewrite Forall_app in Hfs'. destruct Hfs' as [_ Hf].
  rewrite Forall_singleton in Hf. apply Forall_singleton. split; [exact Hf|constructor].
Qed.

Definition names_call (i name : Z) : func_call :=
  mk_func_call (Some (InSection false DEBUG_INFO 12)) (Some (InSection false DEBUG_INFO name)) (0%nat, Z.to_nat i).

Lemma functions_by_name_witness :
  ∃ fns fs' calls s',
    dwarf_iter_functions recorder 4096 false 100 100 None (Some [102]) (names_files, []) (witness_state []) = Ok ((fns, (fs', calls)), s') ∧
    calls = [names_call 2 52; names_call 1 40] ∧
    told fs' (wanted fs' (Some [102]) (all_functions fs')) calls.
Proof.
  assert (∃ fns fs' s',
    dwarf_iter_functions recorder 4096 false 100 100 None (Some [102]) (names_files, []) (witness_state []) =
      Ok ((fns, (fs', [names_call 2 52; names_call 1 40])), s')) as (fns & fs' & s' & E).
  { eexists _, _, _. vm_compute. reflexivity. }
  assert (names_ok names_files) as Hok.
  { eapply (names_ok_add 4096 0 names_sections false None [] (witness_state []) true); [constructor|vm_compute; reflexivity]. }
  destruct (functions_by_name 4096 false 100 100 names_files (Some [102]) [] (witness_state []) Hok) as [H _].
  destruct (H _ _ _ _ E) as (_ & _ & (calls & Hlog & Hc) & _). change ([] ++ calls) with calls in Hlog. rewrite <-Hlog in Hc.
  exists fns, fs', [names_call 2 52; names_call 1 40], s'. split; [exact E|]. split; [reflexivity|exact Hc].
Defined.
