(* ===== verification/StaticRef.v ===== *)
(** * Static functions and variables of the code under test (src/dwarf.c)

    USFSTL_STATIC_TEST_FN and USFSTL_STATIC_TEST_VARIABLE leave references to be
    filled in at the start: [usfstl_resolve_static_references] looks the names up
    in the debug information.  References are what the linker collects in
    [__start_static_reference_data], NULL for the dummy; [ptr] of a reference is
    the number of the pointer variable it fills in.

    [error_callback] of this file prints and aborts: what the library reports is
    a failing assertion here. *)

From S2P Require Import Prelude Util Bytes Sort Search BtMmap DwarfBuf DwarfAttr DwarfAbbrev DwarfLine DwarfRange DwarfUnit DwarfFunc DwarfVars DwarfTypes DwarfPath DwarfLookup DwarfNames.

Inductive usfstl_static_reference_type := USFSTL_STATIC_REFERENCE_FUNCTION | USFSTL_STATIC_REFERENCE_VARIABLE.
#[export] Instance reference_type_eq_dec : EqDecision usfstl_static_reference_type.
Proof. solve_decision. Defined.

Record usfstl_static_reference := mk_reference {
  sr_ptr : nat;
  sr_name : list Z;
  sr_filename : option (list Z);
  reference_type : usfstl_static_reference_type;
}.

(** [error_callback]: no error may be reported in [m]. *)
Definition error_asserts {A} (m : D A) : D A := λ s,
  match m s with
  | Ok (a, s') => if (length (errs s') =? length (errs s))%nat then Ok (a, s') else Err Assertion
  | Err f => Err f
  end.

(** [static_reference_data], and the pointers that are filled in. *)
Section references.
Variable static_reference_data : list (option usfstl_static_reference).

(** [*p->ptr], 0 for NULL. *)
Definition value_of (cells : list Z) (r : usfstl_static_reference) : D Z := deref (cells !! sr_ptr r).

Definition usfstl_compare_paths (s1 s2 : list Z) : Z := strcmp s1 s2.

(** [filename + strlen(filename) - strlen(tail)] *)
Definition file_tail (filename tail : list Z) : D (list Z) :=
  if (length tail <=? length filename)%nat then mret (drop (length filename - length tail) filename) else fail OutOfBounds.

Fixpoint resolve_variable (refs : list (option usfstl_static_reference)) (varname : list Z) (filename : option (list Z)) (varptr : Z)
    (cells : list Z) : D (list Z) :=
  match refs with
  | [] => mret cells
  | None :: refs => resolve_variable refs varname filename varptr cells
  | Some reference :: refs =>
      let continue cells := resolve_variable refs varname filename varptr cells in
      v ← value_of cells reference;
      if negb (v =? 0) then continue cells
      else if negb (bool_decide (reference_type reference = USFSTL_STATIC_REFERENCE_VARIABLE)) then continue cells
      else if negb (strcmp (sr_name reference) varname =? 0) then continue cells
      else
        file ← deref filename;
        tail ← deref (sr_filename reference);
        s ← file_tail file tail;
        if negb (usfstl_compare_paths s tail =? 0) then continue cells
        else
          usfstl_assert (negb (varptr =? 0));;
          continue (<[sr_ptr reference := varptr]> cells)
  end.

Definition usfstl_resolve_static_variable (varname : list Z) (filename : option (list Z)) (varptr : Z) (cells : list Z) : D (list Z) :=
  resolve_variable static_reference_data varname filename varptr cells.

(** The callbacks of [dwarf_iter_global_variables], with the strings they are given. *)
Fixpoint resolve_variables (f : dwarf_file) (vars : list variable) (cells : list Z) : D (list Z) :=
  match vars with
  | [] => mret cells
  | v :: vars =>
      let str p := string_of (df_sections f) (af_sections <$> df_alt f) p in
      name ← str (var_name v);
      file ← match var_file v with None => mret None | Some p => s ← str p; mret (Some s) end;
      cells ← usfstl_resolve_static_variable name file (var_addr v) cells;
      resolve_variables f vars cells
  end.

Fixpoint resolve_file_variables (fs : list dwarf_file) (cells : list Z) : D (list Z) :=
  match fs with
  | [] => mret cells
  | f :: fs =>
      vars ← error_asserts (dwarf_iter_global_variables (df_sections f) (af_sections <$> df_alt f) (dd_base_address (df_data f))
        (df_bigendian f) (dd_units (df_data f)));
      cells ← resolve_variables f vars cells;
      resolve_file_variables fs cells
  end.

(** ** Functions *)
Variables (pagesize : Z) (lfuel rfuel tfuel : nat).
(** [backtrace_create_state(self, 1, ...)] *)
Definition threaded : bool := true.

(** [struct usfstl_resolve_cbdata], with the pointers filled in. *)
Record usfstl_resolve_cbdata := mk_cbdata { cb_cells : list Z; cb_ret : option (list Z); cb_args : option (list Z) }.
#[export] Instance cbdata_eta : Settable usfstl_resolve_cbdata := λ c, mk_cbdata (cb_cells c) (cb_ret c) (cb_args c).

Definition usfstl_resolve_static_function (reference : usfstl_static_reference) (filename varname : option cptr) (fn : fref)
    (st : list dwarf_file * usfstl_resolve_cbdata) : D (list dwarf_file * usfstl_resolve_cbdata) :=
  let '(fs, cbd) := st in
  if negb (bool_decide (reference_type reference = USFSTL_STATIC_REFERENCE_FUNCTION)) then mret st
  else
    v ← value_of (cb_cells cbd) reference;
    if negb (v =? 0) && bool_decide (is_Some (cb_ret cbd)) && bool_decide (is_Some (cb_args cbd)) then mret st
    else
      let wanted := bool_decide (is_Some (sr_filename reference)) in
      '(fs, info) ← error_asserts (info_of tfuel fn wanted wanted fs);
      let or_else (new old : option (list Z)) := match new with Some _ => new | None => old end in
      let cells := if negb (fi_ptr info =? 0) then <[sr_ptr reference := fi_ptr info]> (cb_cells cbd) else cb_cells cbd in
      mret (fs, mk_cbdata cells (or_else (fi_ret info) (cb_ret cbd)) (or_else (fi_args info) (cb_args cbd))).

(** [while (buf[pos] == ' ')]: the spaces before [pos] are cut off; [buf] is given
    up to [pos]. *)
Fixpoint cut_spaces (buf : list Z) : D (list Z) :=
  match buf with
  | [] => fail OutOfBounds
  | c :: rest => if c =? 32 then cut_spaces rest else mret buf
  end.

Definition usfstl_check_proto (orig_ret fptr_ret orig_args fptr_args : list Z) : D unit :=
  match reverse fptr_ret with
  | [] => fail OutOfBounds
  | last :: front =>
      usfstl_assert (last =? 42);;
      b ← cut_spaces (32 :: front);
      let buf := reverse b in
      if (strcmp orig_ret buf =? 0) && (strcmp orig_args fptr_args =? 0) then mret tt
      else fail Assertion
  end.

(** 0 or -1 ([None]), and the strings. *)
Definition usfstl_get_func_info (filename : option (list Z)) (funcname : list Z) (fs : list dwarf_file)
    : D (list dwarf_file * option (list Z * list Z)) :=
  '(fs, r) ← error_asserts (dwarf_info_by_name pagesize threaded lfuel rfuel tfuel filename funcname true true fs);
  match r with
  | None => mret (fs, None)
  | Some info => mret (fs, Some (default (string_bytes "void") (fi_ret info), default (string_bytes "void") (fi_args info)))
  end.

Definition usfstl_check_static_prototype (reference : usfstl_static_reference) (cb : usfstl_resolve_cbdata) (fs : list dwarf_file)
    : D (list dwarf_file) :=
  match sr_filename reference with
  | None => mret fs
  | Some filename =>
      '(fs, r) ← usfstl_get_func_info (Some filename) (string_bytes "_usfstl_stf_proto_" ++ sr_name reference) fs;
      match r with
      | None => fail Assertion
      | Some (fptr_ret, fptr_args) =>
          usfstl_check_proto (default (string_bytes "void") (cb_ret cb)) fptr_ret
            (default (string_bytes "void") (cb_args cb)) fptr_args;;
          mret fs
      end
  end.

(** The second loop: the table of all functions, the files, the pointers and
    [all_resolved]. *)
Fixpoint resolve_functions (refs : list (option usfstl_static_reference)) (functions : option (list fref)) (fs : list dwarf_file)
    (cells : list Z) (all_resolved : bool) : D (option (list fref) * list dwarf_file * list Z * bool) :=
  match refs with
  | [] => mret (functions, fs, cells, all_resolved)
  | None :: refs => resolve_functions refs functions fs cells all_resolved
  | Some ref :: refs =>
      let is_function := bool_decide (reference_type ref = USFSTL_STATIC_REFERENCE_FUNCTION) in
      '(functions, (fs, cb)) ←
        (if is_function then
           error_asserts (dwarf_iter_functions (usfstl_resolve_static_function ref) pagesize threaded lfuel rfuel functions
             (Some (sr_name ref)) (fs, mk_cbdata cells None None))
         else mret (functions, (fs, mk_cbdata cells None None)));
      v ← value_of (cb_cells cb) ref;
      if negb (v =? 0) then
        fs ← (if is_function then usfstl_check_static_prototype ref cb fs else mret fs);
        resolve_functions refs functions fs (cb_cells cb) all_resolved
      else resolve_functions refs functions fs (cb_cells cb) false
  end.

(** The types of the references that are NULL: functions, variables. *)
Fixpoint unresolved_types (refs : list (option usfstl_static_reference)) (cells : list Z) : D (bool * bool) :=
  match refs with
  | [] => mret (false, false)
  | None :: refs => unresolved_types refs cells
  | Some ref :: refs =>
      v ← value_of cells ref;
      '(f, x) ← unresolved_types refs cells;
      mret (if negb (v =? 0) then (f, x)
            else match reference_type ref with
            | USFSTL_STATIC_REFERENCE_FUNCTION => (true, x)
            | USFSTL_STATIC_REFERENCE_VARIABLE => (f, true)
            end)
  end.

Definition usfstl_resolve_static_references (functions : option (list fref)) (fs : list dwarf_file) (cells : list Z)
    : D (option (list fref) * list dwarf_file * list Z) :=
  '(found_functions, found_variables) ← unresolved_types static_reference_data cells;
  if negb (found_functions || found_variables) then mret (functions, fs, cells)
  else
    cells ← (if (found_variables : bool) then resolve_file_variables fs cells else mret cells);
    '(functions, fs, cells, all_resolved) ← resolve_functions static_reference_data functions fs cells true;
    usfstl_assert all_resolved;;
    mret (functions, fs, cells).

(** ** The function at an address

    What [fileline_cb] leaves in [*funcname], [*filename] and [*lineno]. *)
Record func_data := mk_func_data { fd_filename : option cptr; fd_funcname : option cptr; fd_lineno : Z }.

Definition fileline_cb (c : pc_call) (data : func_data) : func_data :=
  mk_func_data (match pc_filename c with Some p => Some p | None => fd_filename data end)
    (match pc_function c with Some p => Some p | None => fd_funcname data end) (pc_lineno c).

Definition usfstl_get_function_info_ptr (fs : list dwarf_file) (fn : Z) (data : func_data) : D (list dwarf_file * func_data) :=
  '(_, fs, log) ← error_asserts (dwarf_fileline (λ _, 0) pagesize threaded lfuel rfuel fs fn []);
  mret (fs, fold_left (λ data c, fileline_cb c data) log data).
End references.

Definition usfstl_dwarf_get_base_address (fs : list dwarf_file) : D Z := dwarf_get_base_address fs.

(** ** Variables

    What a callback is given: the name, the file and the address. *)
Record reported_var := mk_reported { rv_name : list Z; rv_file : list Z; rv_addr : Z }.

Definition var_matches (r : usfstl_static_reference) (x : reported_var) : Prop :=
  reference_type r = USFSTL_STATIC_REFERENCE_VARIABLE ∧ sr_name r = rv_name x ∧
  ∃ tail, sr_filename r = Some tail ∧ tail `suffix_of` rv_file x.

Lemma suffix_drop (tail file : list Z) : (length tail ≤ length file)%nat →
  strcmp (drop (length file - length tail) file) tail = 0 ↔ tail `suffix_of` file.
Proof.
  intros Hl. rewrite strcmp_eq. split.
  - set (n := (length file - length tail)%nat). intros H. exists (take n file). rewrite <-H. by rewrite take_drop.
  - intros [k ->]. rewrite length_app. replace (length k + length tail - length tail)%nat with (length k) by lia. apply drop_app_length.
Qed.

(** The value of a reference after a variable is reported. *)
#[export] Instance var_matches_dec r x : Decision (var_matches r x).
Proof.
  unfold var_matches. destruct (sr_filename r) as [tail|] eqn:E.
  - destruct (decide (reference_type r = USFSTL_STATIC_REFERENCE_VARIABLE ∧ sr_name r = rv_name x ∧ tail `suffix_of` rv_file x)) as [H|H].
    + left. naive_solver.
    + right. naive_solver.
  - right. naive_solver.
Defined.

Definition value_after (r : usfstl_static_reference) (x : reported_var) (v : Z) : Z :=
  if decide (v = 0 ∧ var_matches r x) then rv_addr x else v.

Section variables.
Variable refs : list (option usfstl_static_reference).
Definition the_refs (l : list (option usfstl_static_reference)) : list usfstl_static_reference := omap id l.

(** Every reference has its own pointer, and those to variables name a file. *)
Definition refs_ok (l : list (option usfstl_static_reference)) (cells : list Z) : Prop :=
  NoDup (sr_ptr <$> the_refs l) ∧ Forall (λ r, sr_ptr r < length cells)%nat (the_refs l).

(** The file is long enough to be compared with the files that are named. *)
Definition comparable (l : list (option usfstl_static_reference)) (x : reported_var) : Prop :=
  rv_addr x ≠ 0 ∧ Forall (λ r, reference_type r = USFSTL_STATIC_REFERENCE_VARIABLE → sr_name r = rv_name x →
    ∃ tail, sr_filename r = Some tail ∧ (length tail ≤ length (rv_file x))%nat) (the_refs l).

Lemma resolve_variable_run l x : ∀ cells s, refs_ok l cells → comparable l x →
  ∃ cells', resolve_variable l (rv_name x) (Some (rv_file x)) (rv_addr x) cells s = Ok (cells', s) ∧ length cells' = length cells ∧
    (∀ r, r ∈ the_refs l → cells' !! sr_ptr r = value_after r x <$> cells !! sr_ptr r) ∧
    (∀ i, i ∉ sr_ptr <$> the_refs l → cells' !! i = cells !! i).
Proof.
  induction l as [|[r|] l IH]; intros cells s [Hnd Hlt] [Haddr Hcmp]; cbn [resolve_variable].
  - exists cells. split; [done|]. split; [done|]. split; [|done]. by intros r ?%elem_of_nil.
  - cbn in Hnd, Hlt, Hcmp. apply NoDup_cons in Hnd as [Hr Hnd]. apply Forall_cons in Hlt as [Hlr Hlt]. apply Forall_cons in Hcmp as [Hc Hcmp].
    assert (∀ cells1, length cells1 = length cells → cells1 !! sr_ptr r = value_after r x <$> cells !! sr_ptr r →
      (∀ i, i ≠ sr_ptr r → cells1 !! i = cells !! i) →
      ∃ cells', resolve_variable l (rv_name x) (Some (rv_file x)) (rv_addr x) cells1 s = Ok (cells', s) ∧ length cells' = length cells ∧
        (∀ r0, r0 ∈ the_refs (Some r :: l) → cells' !! sr_ptr r0 = value_after r0 x <$> cells !! sr_ptr r0) ∧
        (∀ i, i ∉ sr_ptr <$> the_refs (Some r :: l) → cells' !! i = cells !! i)) as Hgo.
    { intros cells1 Hl1 H1 H2. destruct (IH cells1 s) as (cells' & E & Hl & Hv & Ho).
      - split; [done|]. by rewrite Hl1.
      - by split.
      - exists cells'. split; [done|]. split; [congruence|]. split.
        + intros r0 [->|Hr0]%elem_of_cons; [by rewrite Ho|]. rewrite Hv by done. rewrite H2; [done|].
          intros Heq. apply Hr. rewrite <-Heq. by apply list_elem_of_fmap_2.
        + cbn. intros i [Hi1 Hi2]%not_elem_of_cons. rewrite Ho by done. by apply H2. }
    destruct (lookup_lt_is_Some_2 cells (sr_ptr r) Hlr) as [v Hv]. unfold value_of. rewrite Hv. erewrite bind_ok by reflexivity.
    rewrite Hv in Hgo. cbn in Hgo.
    assert (¬ (v = 0 ∧ var_matches r x) → value_after r x v = v) as Hsame by (intros Hn; unfold value_after; by rewrite decide_False).
    destruct (Z.eqb_spec v 0) as [->|Hv0]; cbn [negb]; [|apply Hgo; [done|rewrite Hsame; [done|naive_solver]|done]].
    case_bool_decide as Hty; cbn [negb]; [|apply Hgo; [done|rewrite Hsame; [done|unfold var_matches; naive_solver]|done]].
    destruct (Z.eqb_spec (strcmp (sr_name r) (rv_name x)) 0) as [Hn|Hn]; cbn [negb].
    2: { apply Hgo; [done| |done]. rewrite Hsame; [done|]. intros [_ (_ & Hnm & _)]. by apply Hn, strcmp_eq. }
    apply strcmp_eq in Hn. destruct (Hc Hty Hn) as (tail & Htail & Hlen). erewrite bind_ok by reflexivity. rewrite Htail.
    erewrite bind_ok by reflexivity. unfold file_tail. replace (_ <=? _)%nat with true by lia. erewrite bind_ok by reflexivity.
    unfold usfstl_compare_paths. destruct (Z.eqb_spec (strcmp (drop (length (rv_file x) - length tail) (rv_file x)) tail) 0) as [Hs|Hs]; cbn [negb].
    + replace (rv_addr x =? 0) with false by lia. erewrite bind_ok by reflexivity. apply suffix_drop in Hs; [|done].
      apply Hgo; [by rewrite length_insert| |intros i Hi; by rewrite list_lookup_insert_ne].
      rewrite list_lookup_insert_eq by done. unfold value_after. rewrite decide_True; [done|]. split; [done|]. unfold var_matches. eauto.
    + apply Hgo; [done| |done]. rewrite Hsame; [done|]. intros [_ (_ & _ & tail' & Ht' & Hsuf)]. simplify_eq.
      by apply Hs, suffix_drop.
  - apply IH; by split.
Qed.

(** The first of the reported variables that matches, 0 (NULL) if none does. *)
Definition resolved (r : usfstl_static_reference) (xs : list reported_var) : Z :=
  match filter (var_matches r) xs with x :: _ => rv_addr x | [] => 0 end.

Lemma resolved_fold r xs : Forall (λ x, rv_addr x ≠ 0) xs →
  ∀ v, fold_left (λ v x, value_after r x v) xs v = if v =? 0 then resolved r xs else v.
Proof.
  induction 1 as [|x xs Hx _ IH]; intros v; cbn [fold_left]; [unfold resolved; cbn; destruct (Z.eqb_spec v 0); congruence|].
  rewrite IH. unfold value_after, resolved. destruct (Z.eqb_spec v 0) as [->|Hv].
  - destruct (decide (var_matches r x)) as [Hm|Hm].
    + rewrite decide_True, filter_cons_True by done. by replace (rv_addr x =? 0) with false by lia.
    + rewrite decide_False, filter_cons_False by naive_solver. done.
  - rewrite decide_False by naive_solver. by replace (v =? 0) with false by lia.
Qed.

(** The strings of a variable that the callback gets. *)
Definition strings_of (f : dwarf_file) (v : variable) (x : reported_var) : Prop :=
  let str := c_string (df_sections f) (af_sections <$> df_alt f) in
  str (var_name v) = Ok (rv_name x) ∧ (∃ p, var_file v = Some p ∧ str p = Ok (rv_file x)) ∧ var_addr v = rv_addr x.

Lemma refs_ok_length cells cells' : length cells' = length cells → refs_ok refs cells → refs_ok refs cells'.
Proof. intros Hl [H1 H2]. split; [done|]. by rewrite Hl. Qed.

Lemma resolve_variables_run f vars xs : Forall2 (strings_of f) vars xs → ∀ cells s, refs_ok refs cells → Forall (comparable refs) xs →
  ∃ cells', resolve_variables refs f vars cells s = Ok (cells', s) ∧ length cells' = length cells ∧
    (∀ r, r ∈ the_refs refs → cells' !! sr_ptr r = fold_left (λ v x, value_after r x v) xs <$> cells !! sr_ptr r) ∧
    (∀ i, i ∉ sr_ptr <$> the_refs refs → cells' !! i = cells !! i).
Proof.
  induction 1 as [|v x vars xs (Hn & (p & Hp & Hfile) & Ha) _ IH]; intros cells s Hok Hc; cbn [resolve_variables].
  { exists cells. split; [done|]. split; [done|]. split; [|done]. intros r _. by destruct (cells !! sr_ptr r). }
  apply Forall_cons in Hc as [Hx Hc]. cbv zeta. rewrite bind_ok with (a := rv_name x) (s1 := s) by (unfold string_of; by rewrite Hn).
  rewrite bind_ok with (a := Some (rv_file x)) (s1 := s).
  2: { rewrite Hp. rewrite bind_ok with (a := rv_file x) (s1 := s) by (unfold string_of; by rewrite Hfile). done. }
  unfold usfstl_resolve_static_variable. rewrite Ha.
  destruct (resolve_variable_run refs x cells s Hok Hx) as (cells1 & E1 & Hl1 & Hv1 & Ho1). rewrite (bind_ok _ _ _ _ _ E1).
  destruct (IH cells1 s (refs_ok_length _ _ Hl1 Hok) Hc) as (cells' & E & Hl & Hv & Ho). exists cells'.
  split; [done|]. split; [congruence|]. split.
  - intros r Hr. rewrite Hv, Hv1 by done. cbn [fold_left]. by destruct (cells !! sr_ptr r).
  - intros i Hi. by rewrite Ho, Ho1.
Qed.
End variables.

(** The variables of the units of a file whose data encode trees of entries. *)
Definition units_hold (f : dwarf_file) (us : list dwarf_unit) (ts : list dies) : Prop :=
  let link := af_sections <$> df_alt f in
  Forall2 (λ u t, unit_holds (df_sections f) u t ∧ dies_ok (df_sections f) link (df_bigendian f) u (unit_data u) t) us ts.

Lemma iter_units_variables_run f us ts : sections_ok (df_sections f) → units_hold f us ts → ∀ cb s, allocs s = [] →
  iter_units_variables (df_sections f) (af_sections <$> df_alt f) (dd_base_address (df_data f)) (df_bigendian f) us cb s =
    Ok (cb ++ concat (zip_with (λ u t, reported (dd_base_address (df_data f)) u (mk_var_regs None 0) t) us ts), s).
Proof.
  intros Hd. induction 1 as [|u t us ts [Hu Ht] _ IH]; intros cb s Ha; cbn [iter_units_variables zip_with concat]; [by rewrite app_nil_r|].
  rewrite (bind_ok _ _ _ _ _ (iter_unit_run _ _ _ _ _ t cb s Hd Hu Ht Ha)). rewrite IH by done. by rewrite app_assoc.
Qed.

(** The variables of a file, in its order, as the callback gets them: its units
    encode trees of entries in which every variable has a name and an address of its
    own. *)
Definition file_variables (f : dwarf_file) (xs : list reported_var) : Prop :=
  let base := dd_base_address (df_data f) in
  ∃ ts, sections_ok (df_sections f) ∧ units_hold f (dd_units (df_data f)) ts ∧ Forall (complete base) ts ∧
    Forall2 (strings_of f) (concat (zip_with (variables_of base) (dd_units (df_data f)) ts)) xs.

Lemma zip_reported base us ts : Forall (complete base) ts →
  zip_with (λ u t, reported base u (mk_var_regs None 0) t) us ts = zip_with (variables_of base) us ts.
Proof.
  intros Hc. revert us. induction Hc as [|t ts Ht _ IH]; intros [|u us]; [done..|]. cbn [zip_with].
  rewrite IH. f_equal. by apply reported_complete.
Qed.

Lemma file_variables_run refs fs xss s : Forall2 file_variables fs xss → allocs s = [] → ∀ cells,
  refs_ok refs cells → Forall (comparable refs) (concat xss) →
  ∃ cells', resolve_file_variables refs fs cells s = Ok (cells', s) ∧
    (∀ r, r ∈ the_refs refs → cells' !! sr_ptr r = fold_left (λ v x, value_after r x v) (concat xss) <$> cells !! sr_ptr r) ∧
    (∀ i, i ∉ sr_ptr <$> the_refs refs → cells' !! i = cells !! i).
Proof.
  intros Hfs Ha. induction Hfs as [|f xs fs xss (ts & Hd & Hu & Hcm & Hx) _ IH]; intros cells Hr Hc; cbn [resolve_file_variables concat].
  { exists cells. split; [done|]. split; [|done]. intros r _. by destruct (cells !! sr_ptr r). }
  apply Forall_app in Hc as [Hc1 Hc2].
  destruct (resolve_variables_run refs f _ xs Hx cells s Hr Hc1) as (cells1 & E1 & Hl1 & Hv1 & Ho1).
  destruct (IH cells1 (refs_ok_length _ _ _ Hl1 Hr) Hc2) as (cells' & E & Hv & Ho). exists cells'. split.
  - set (vars := concat _) in *.
    assert (∀ m : D (list variable), m s = Ok (vars, s) → error_asserts m s = Ok (vars, s)) as Hm.
    { intros m Em. unfold error_asserts. by rewrite Em, Nat.eqb_refl. }
    rewrite (bind_ok _ _ _ vars s); [by rewrite (bind_ok _ _ _ _ _ E1)|]. apply Hm. unfold dwarf_iter_global_variables.
    rewrite (iter_units_variables_run f _ ts Hd Hu [] s Ha). by rewrite zip_reported.
  - split; [|intros i Hi; by rewrite Ho, Ho1]. intros r Hin. rewrite Hv, Hv1 by done.
    destruct (cells !! sr_ptr r); cbn; [|done]. by rewrite fold_left_app.
Qed.


(** ** Prototypes *)
Lemma cut_spaces_spec b s : 
  match cut_spaces b s with
  | Ok (r, s') => s' = s ∧ ∃ n, b = replicate n 32 ++ r ∧ head r ≠ Some 32 ∧ r ≠ []
  | Err f => f = OutOfBounds ∧ b = replicate (length b) 32
  end.
Proof.
  induction b as [|c b IH]; cbn [cut_spaces]; [done|]. destruct (Z.eqb_spec c 32) as [->|Hc].
  - destruct (cut_spaces b s) as [[r s']|f].
    + destruct IH as (-> & n & -> & H1 & H2). split; [done|]. by exists (S n).
    + destruct IH as [-> IH]. split; [done|]. cbn. by rewrite <-IH.
  - split; [done|]. exists 0%nat. split; [done|]. split; [cbn; congruence|done].
Qed.

Lemma cut_spaces_cons b s : cut_spaces (32 :: b) s = cut_spaces b s.
Proof. done. Qed.

Lemma cut_spaces_run n b s : head b ≠ Some 32 → b ≠ [] → cut_spaces (replicate n 32 ++ b) s = Ok (b, s).
Proof.
  intros H1 H2. induction n as [|n IH]; cbn [replicate app]; [|by rewrite cut_spaces_cons].
  destruct b as [|c b]; [done|]. cbn [cut_spaces]. destruct (Z.eqb_spec c 32) as [->|]; done.
Qed.

(** The check of a prototype is exact: it returns if and only if the type of the
    variable that stands for the function is a pointer to the function's result
    type, that is the result's string, spaces and a star, and the strings of the
    parameters are the same; in every other case the program is ended. *)
Theorem check_proto_exact orig_ret fptr_ret orig_args fptr_args s :
  usfstl_check_proto orig_ret fptr_ret orig_args fptr_args s = Ok (tt, s) ↔
  (∃ n, fptr_ret = orig_ret ++ replicate n 32 ++ [42]) ∧ orig_ret ≠ [] ∧ last orig_ret ≠ Some 32 ∧ orig_args = fptr_args.
Proof.
  unfold usfstl_check_proto. split.
  - destruct (reverse fptr_ret) as [|c front] eqn:Er; [done|]. intros E. apply bind_inv in E as ([] & s1 & Ea & E).
    apply assert_inv in Ea as [Hc Es]. injection Es as ->. apply bind_inv in E as (b & s2 & Eb & E).
    rewrite cut_spaces_cons in Eb. pose proof (cut_spaces_spec front s) as Hs. rewrite Eb in Hs. destruct Hs as (-> & n & Hf & Hb & Hn).
    destruct (Z.eqb_spec (strcmp orig_ret (reverse b)) 0) as [H1|]; [|done].
    destruct (Z.eqb_spec (strcmp orig_args fptr_args) 0) as [H2|]; [|done].
    apply strcmp_eq in H1 as ->. apply strcmp_eq in H2. apply (f_equal reverse) in Er. rewrite reverse_involutive in Er.
    split; [|split; [|by rewrite last_reverse]].
    + exists n. rewrite Er, Hf, reverse_cons, reverse_app, reverse_replicate, <-app_assoc. by replace c with 42 by lia.
    + intros H%(f_equal reverse). by rewrite reverse_involutive in H.
  - intros ([n ->] & Hne & Hlast & ->). rewrite !reverse_app, reverse_replicate, reverse_singleton. cbn [app].
    erewrite bind_ok by reflexivity. erewrite bind_ok; [|apply (cut_spaces_run (S n) (reverse orig_ret))].
    + cbv zeta. rewrite reverse_involutive. by rewrite !(proj2 (strcmp_eq _ _) eq_refl).
    + by rewrite <-last_reverse, reverse_involutive.
    + intros H%(f_equal reverse). by rewrite reverse_involutive in H.
Qed.

(** ** Examples *)
Definition named_unit : dwarf_unit := (dies_unit example_dies) <| unit_filename := Some (Literal "x/a.c") |>.
Definition named_file : dwarf_file :=
  mk_dwarf_file (dies_sections example_dies) None false (mk_dwarf_data 0x400000 [] [named_unit]) (mk_ddata [] vec_empty []).
Definition example_refs : list (option usfstl_static_reference) :=
  [None; Some (mk_reference 1 [97] (Some (string_bytes "a.c")) USFSTL_STATIC_REFERENCE_VARIABLE);
   Some (mk_reference 0 [98] (Some (string_bytes "a.c")) USFSTL_STATIC_REFERENCE_VARIABLE)].

