(* ===== verification/TestRun.v ===== *)
(** * Running tests (src/testrun.c, src/main.c)

    [usfstl_execute_test] runs one test case; [main] runs the selected cases of
    all tests and counts.  The functions of a test ([pre], [fn], [post]) are user
    code on a state [U] of its own; what they do to the runner is how they end:
    they return, or they end the test, which is a longjmp() back to the setjmp()
    in [usfstl_execute_test].  Calls of other parts of the framework are recorded
    in the order they happen. *)
From S2P Require Import Prelude.

(** [enum usfstl_testcase_status], with the numbers longjmp() is given. *)
Definition USFSTL_STATUS_SUCCESS : Z := 0.
Definition USFSTL_STATUS_ASSERTION_FAILED : Z := 1.
Definition USFSTL_STATUS_NEGATIVE_TEST_NO_ERROR : Z := 2.
Definition USFSTL_STATUS_WATCHDOG_TIMEOUT : Z := 3.
Definition USFSTL_STATUS_REMOTE_SUCCESS : Z := 4.
Definition USFSTL_STATUS_NEGATIVE_TEST_SUCCEEDED : Z := 5.
Definition USFSTL_STATUS_OUT_OF_CASES : Z := 6.
Definition USFSTL_STATUS_SKIPPED : Z := 7.
Definition USFSTL_STATUS_ABORT_TWICE : Z := 8.

(** How a function of the test ends: it returns; an assertion fails; it calls
    [usfstl_negative_test_succeeded]; the watchdog expires, in the main context or
    in another one; another participant ends the test with a reason. *)
Inductive ending :=
  | Returns
  | Fails
  | NegativeSucceeds
  | OutOfTime (main : bool)
  | RemoteEnds (reason : Z).
#[export] Instance ending_eq_dec : EqDecision ending.
Proof. solve_decision. Defined.

(** [struct usfstl_testcase]; pointers are kept as far as they are tested. *)
Record usfstl_testcase := mk_testcase {
  requirement : option string;
  tc_negative : bool;
  tc_failing : bool;
}.

(** What is called, in order. *)
Inductive event :=
  | RestoreGlobals
  | WatchdogStart (ms : Z)
  | WatchdogStop
  | MultiStart
  | Pre (test case : Z)
  | Fn
  | Post (test case status : Z)
  | AbortHandler
  | LogAsserts
  | MultiEnd (status : Z)
  | TaskCleanup
  | CtxCleanup
  | FreeAll
  | Requirement (test req : string) (pass fail : Z)
  | ProjectLine (project : string)
  | SummaryLine (name : string) (succ fail : Z)
  | MultiFinish
  | FreeGlobals
  | DwarfInit
  | AssertLogInit
  | CallInitializers
  | SaveGlobals
  | MultiInit
  | Listed (project name : string) (cases : Z)
  | Counted (n : Z)
  | Ran (n failed failing_succeeded : Z).
#[export] Instance event_eq_dec : EqDecision event.
Proof. solve_decision. Defined.

(** longjmp(), or a value. *)
Inductive jump A := Value (a : A) | Jump (status : Z).
Arguments Value {A} a.
Arguments Jump {A} status.

Section testrun.
(** The state of the code under test, and the cases of a test. *)
Context {U C : Type}.
Definition user : Type := U → U * ending.

(** [struct usfstl_test]: [testcase_count] is the length of [testcases], [generic]
    finds the [struct usfstl_testcase] inside a case ([testcase_generic_offset]),
    [controlled] holds for [g_usfstl_multi_controlled_test]. *)
Record usfstl_test := mk_test {
  fn : option C → user;
  name : string;
  projectname : string;
  testcases : list C;
  case_generator : option (Z → option C);
  generic : C → usfstl_testcase;
  failing : bool;
  case_generator_has_generic : bool;
  negative_data : bool;
  max_cpu_time_ms : Z;
  pre : option (option C → Z → Z → user);
  post : option (option C → Z → Z → Z → user);
  requirements : list string;
  controlled : bool;
}.

(** The global variables. *)
Record runner := mk_runner {
  ustate : U;
  g_usfstl_failure_reason : Z;
  g_usfstl_test_aborted : bool;
  g_usfstl_current_test : option usfstl_test;
  g_usfstl_current_testcase : option usfstl_testcase;
  g_usfstl_current_test_case_data : option C;
  g_usfstl_current_case_num : Z;
  g_usfstl_current_test_num : Z;
  events : list event;
}.
#[export] Instance runner_eta : Settable runner := λ r, mk_runner (ustate r) (g_usfstl_failure_reason r) (g_usfstl_test_aborted r)
  (g_usfstl_current_test r) (g_usfstl_current_testcase r) (g_usfstl_current_test_case_data r) (g_usfstl_current_case_num r)
  (g_usfstl_current_test_num r) (events r).

(** Options, set before tests run. *)
Variables (g_usfstl_abort_on_error g_usfstl_disable_wdt g_usfstl_skip_known_failing : bool).
(** [g_usfstl_assert_coverage_file] is given. *)
Variable coverage : bool.
(** [g_usfstl_abort_handler], if it is set; it returns. *)
Variable g_usfstl_abort_handler : option (U → U).
(** What restoring the globals does to the code under test, once [usfstl_init]
    saved them. *)
Variable saved : option (U → U).

Abbreviation R := (M runner).
Definition emit_event (e : event) : R unit := modify (λ s, s <| events := events s ++ [e] |>).

(** [usfstl_restore_globals]: the variables of this file that are not marked with
    USFSTL_NORESTORE_VAR get the values they had before the first test. *)
Definition usfstl_restore_globals : R unit :=
  emit_event RestoreGlobals;;
  match saved with
  | None => fail NullDeref
  | Some restore => modify (λ s, ((s <| ustate := restore (ustate s) |>) <| g_usfstl_failure_reason := 0 |>) <| g_usfstl_test_aborted := false |>)
  end.

(** longjmp(g_usfstl_jmp_buf, v): setjmp() returns 1 for 0. *)
Definition longjmp {A} (v : Z) : R (jump A) := mret (Jump (if v =? 0 then 1 else v)).

(** [usfstl_ctx_abort_test]: whatever the context is, the main context jumps with
    the reason. *)
Definition usfstl_ctx_abort_test {A} : R (jump A) :=
  v ← gets g_usfstl_failure_reason; longjmp v.

Definition call_handler (reason : Z) : R unit :=
  match g_usfstl_abort_handler with
  | Some h => when (negb (reason =? USFSTL_STATUS_ASSERTION_FAILED)) (emit_event AbortHandler;; modify (λ s, s <| ustate := h (ustate s) |>))
  | None => mret tt
  end.

Definition usfstl_abort {A} : R (jump A) :=
  reason ← gets g_usfstl_failure_reason;
  call_handler reason;;
  case_num ← gets g_usfstl_current_case_num;
  if g_usfstl_abort_on_error || (case_num <? 0) then fail Assertion
  else
    modify (λ s, s <| g_usfstl_test_aborted := true |>);;
    (if reason =? USFSTL_STATUS_ASSERTION_FAILED then modify (λ s, s <| g_usfstl_failure_reason := USFSTL_STATUS_ABORT_TWICE |>)
     else if reason =? USFSTL_STATUS_ABORT_TWICE then fail Assertion
     else modify (λ s, s <| g_usfstl_failure_reason := USFSTL_STATUS_ASSERTION_FAILED |>));;
    usfstl_ctx_abort_test.

Definition usfstl_negative_test_succeeded {A} : R (jump A) :=
  modify (λ s, (s <| g_usfstl_test_aborted := true |>) <| g_usfstl_failure_reason := USFSTL_STATUS_NEGATIVE_TEST_SUCCEEDED |>);;
  usfstl_ctx_abort_test.

Definition usfstl_out_of_time {A} (main : bool) : R (jump A) :=
  if g_usfstl_abort_on_error then fail Assertion
  else if main then longjmp USFSTL_STATUS_WATCHDOG_TIMEOUT
  else
    modify (λ s, (s <| g_usfstl_test_aborted := true |>) <| g_usfstl_failure_reason := USFSTL_STATUS_WATCHDOG_TIMEOUT |>);;
    usfstl_ctx_abort_test.

(** A function of the test is called. *)
Definition call_user (f : user) : R (jump unit) :=
  e ← (λ s, let '(u, e) := f (ustate s) in Ok (e, s <| ustate := u |>));
  match e with
  | Returns => mret (Value tt)
  | Fails => usfstl_abort
  | NegativeSucceeds => usfstl_negative_test_succeeded
  | OutOfTime main => usfstl_out_of_time main
  | RemoteEnds reason =>
      modify (λ s, (s <| g_usfstl_test_aborted := true |>) <| g_usfstl_failure_reason := reason |>);;
      usfstl_ctx_abort_test
  end.

(** [m], and what follows unless it jumps. *)
Definition then_ {A B} (m : R (jump A)) (k : A → R (jump B)) : R (jump B) :=
  r ← m; match r with Value a => k a | Jump v => mret (Jump v) end.

Definition no_jump {A} (m : R A) : R (jump A) := a ← m; mret (Value a).

(** ** usfstl_execute_test *)
Section execute.
Variables (test : usfstl_test) (test_num case_num : Z).

Definition negative : R bool :=
  c ← gets g_usfstl_current_testcase;
  mret (negative_data test || match c with Some c => tc_negative c | None => false end).

Definition call_pre (data : option C) : R (jump unit) :=
  match pre test with
  | Some f => then_ (no_jump (emit_event (Pre test_num case_num))) (λ _, call_user (f data test_num case_num))
  | None => mret (Value tt)
  end.

Definition run_body : R (jump unit) :=
  emit_event MultiStart;;
  data ← gets g_usfstl_current_test_case_data;
  then_ (call_pre data) (λ _, emit_event Fn;; call_user (fn test data)).

(** The case USFSTL_STATUS_SUCCESS of the switch; the status. *)
Definition run_test : R (jump Z) :=
  then_ run_body (λ _,
  neg ← negative;
  if (neg : bool) then
    if g_usfstl_abort_on_error then fail Assertion else mret (Value USFSTL_STATUS_NEGATIVE_TEST_NO_ERROR)
  else mret (Value USFSTL_STATUS_SUCCESS)).

(** The switch. *)
Definition status_switch (status : Z) : R (jump Z) :=
  if status =? USFSTL_STATUS_SUCCESS then run_test
  else if (status =? USFSTL_STATUS_REMOTE_SUCCESS) || (status =? USFSTL_STATUS_NEGATIVE_TEST_SUCCEEDED) then
    mret (Value USFSTL_STATUS_SUCCESS)
  else if (status =? USFSTL_STATUS_WATCHDOG_TIMEOUT) || (status =? USFSTL_STATUS_ABORT_TWICE) ||
          (status =? USFSTL_STATUS_ASSERTION_FAILED) then mret (Value status)
  else usfstl_abort.

Definition uses_watchdog : bool := negb g_usfstl_disable_wdt && negb (max_cpu_time_ms test =? 0).

Definition call_post (status : Z) : R (jump unit) :=
  match post test with
  | Some f =>
      if negb (status =? USFSTL_STATUS_ABORT_TWICE) then
        data ← gets g_usfstl_current_test_case_data;
        then_ (no_jump (emit_event (Post test_num case_num status))) (λ _, call_user (f data test_num case_num status))
      else mret (Value tt)
  | None => mret (Value tt)
  end.

(** What follows the switch. *)
Definition finish (status : Z) : R (jump Z) :=
  then_ (no_jump (when uses_watchdog (emit_event WatchdogStop);; when coverage (emit_event LogAsserts))) (λ _,
  then_ (call_post status) (λ _,
  emit_event (MultiEnd status);;
  emit_event TaskCleanup;;
  emit_event CtxCleanup;;
  emit_event FreeAll;;
  c ← gets g_usfstl_current_testcase;
  match c ≫= requirement with
  | Some req => emit_event (Requirement (name test) req (if status =? USFSTL_STATUS_SUCCESS then 1 else 0) (if status =? USFSTL_STATUS_SUCCESS then 0 else 1))
  | None => mret tt
  end;;
  mret (Value status))).

(** Everything behind the setjmp(), to which it may jump back. *)
Definition after_setjmp (status : Z) : R (jump Z) := then_ (status_switch status) finish.

Fixpoint setjmp_loop (fuel : nat) (status : Z) : R Z :=
  match fuel with
  | O => fail OutOfFuel
  | S fuel =>
      r ← after_setjmp status;
      match r with Value status => mret status | Jump status => setjmp_loop fuel status end
  end.

(** What to run, or the status without running. *)
Definition select_case : R (option Z) :=
  let skip_failing :=
    c ← gets g_usfstl_current_testcase;
    mret (if g_usfstl_skip_known_failing && match c with Some c => tc_failing c | None => false end
          then Some USFSTL_STATUS_SKIPPED else None) in
  if controlled test then modify (λ s, s <| g_usfstl_current_test_case_data := None |>);; mret None
  else match case_generator test with
  | Some g =>
      modify (λ s, s <| g_usfstl_current_test_case_data := g case_num |>);;
      match g case_num with
      | None => mret (Some USFSTL_STATUS_OUT_OF_CASES)
      | Some c =>
          if case_generator_has_generic test then
            modify (λ s, s <| g_usfstl_current_testcase := Some (generic test c) |>);; skip_failing
          else mret None
      end
  | None =>
      if negb (Z.of_nat (length (testcases test)) =? 0) then
        match testcases test !! Z.to_nat case_num with
        | None => mret (Some USFSTL_STATUS_OUT_OF_CASES)
        | Some c =>
            modify (λ s, (s <| g_usfstl_current_test_case_data := Some c |>) <| g_usfstl_current_testcase := Some (generic test c) |>);;
            skip_failing
        end
      else if 0 <? case_num then mret (Some USFSTL_STATUS_OUT_OF_CASES)
      else mret None
  end.

Definition usfstl_execute_test (fuel : nat) (execute : bool) : R Z :=
  when execute usfstl_restore_globals;;
  modify (λ s, ((((s <| g_usfstl_current_test := Some test |>) <| g_usfstl_current_case_num := case_num |>)
    <| g_usfstl_current_test_num := test_num |>) <| g_usfstl_test_aborted := false |>) <| g_usfstl_current_testcase := None |>);;
  sel ← select_case;
  status ←
    match sel with
    | Some status => mret status
    | None =>
        if negb execute then mret USFSTL_STATUS_SUCCESS
        else
          when uses_watchdog (emit_event (WatchdogStart (max_cpu_time_ms test)));;
          setjmp_loop fuel USFSTL_STATUS_SUCCESS
    end;
  modify (λ s, (((s <| g_usfstl_current_test := None |>) <| g_usfstl_current_case_num := -1 |>)
    <| g_usfstl_current_test_num := -1 |>) <| g_usfstl_current_test_case_data := None |>);;
  mret status.
End execute.

(** ** main *)
Record options := mk_options {
  g_usfstl_test : Z;
  g_usfstl_testfilter : option string;
  g_usfstl_testcase : Z;
  g_usfstl_testcase_last : Z;
  g_usfstl_count : bool;
  g_usfstl_list_tests : bool;
  g_usfstl_list_projnames : bool;
  g_usfstl_proj : option string;
}.
#[export] Instance options_eta : Settable options := λ o, mk_options (g_usfstl_test o) (g_usfstl_testfilter o) (g_usfstl_testcase o)
  (g_usfstl_testcase_last o) (g_usfstl_count o) (g_usfstl_list_tests o) (g_usfstl_list_projnames o) (g_usfstl_proj o).

(** The values before the command line is parsed. *)
Definition default_options : options := mk_options (-1) None (-1) (-1) false false false None.

(** [usfstl_init], with the options that parsing sets and its result. *)
Definition usfstl_init (parsed : options) (ret : Z) : R (Z * options) :=
  let single_case := (0 <=? g_usfstl_test default_options) && (0 <=? g_usfstl_testcase default_options) in
  let execute := negb (g_usfstl_count default_options) && negb (g_usfstl_list_tests default_options) in
  if negb (ret =? 0) then mret (ret, parsed)
  else
    let parsed := if g_usfstl_list_projnames parsed then parsed <| g_usfstl_list_tests := true |> else parsed in
    if g_usfstl_list_tests parsed then mret (0, parsed)
    else
      emit_event DwarfInit;;
      when coverage (emit_event AssertLogInit);;
      emit_event CallInitializers;;
      when (negb single_case && execute) (emit_event SaveGlobals);;
      emit_event MultiInit;;
      mret (0, parsed).

Variable opts : options.

(** The local variable [execute] of the inner loop. *)
Definition case_wanted (i : Z) : bool :=
  negb (g_usfstl_count opts) && negb (g_usfstl_list_tests opts) &&
  negb ((0 <=? g_usfstl_testcase opts) &&
    ((g_usfstl_testcase_last opts <? 0) && negb (i =? g_usfstl_testcase opts) ||
     (0 <=? g_usfstl_testcase_last opts) && ((i <? g_usfstl_testcase opts) || (g_usfstl_testcase_last opts <? i)))).

(** [ctr], [ret] and the counters of a test (unsigned int). *)
Record counts := mk_counts { ctr : Z; ret : Z; tc_succeeded : Z; tc_failed : Z; tc_failing_succeeded : Z }.
#[export] Instance counts_eta : Settable counts := λ c, mk_counts (ctr c) (ret c) (tc_succeeded c) (tc_failed c) (tc_failing_succeeded c).

(** The result of a case that was run. *)
Definition count_result (tc : usfstl_test) (c : option usfstl_testcase) (status : Z) (k : counts) : counts :=
  let marked := match c with Some c => tc_failing c | None => false end || failing tc in
  if negb (status =? USFSTL_STATUS_SUCCESS) then
    let k := k <| tc_failed := u32 (tc_failed k + 1) |> in
    if negb marked then k <| ret := 1 |> else k
  else if marked then (k <| ret := 1 |>) <| tc_failing_succeeded := u32 (tc_failing_succeeded k + 1) |>
  else k <| tc_succeeded := u32 (tc_succeeded k + 1) |>.

(** [for (i = 0; ; i++, ctr++)]; the number of cases. *)
Fixpoint cases_loop (fuel jumps : nat) (tc : usfstl_test) (test i : Z) (k : counts) : R (Z * counts) :=
  match fuel with
  | O => fail OutOfFuel
  | S fuel =>
      let execute := case_wanted i in
      status ← usfstl_execute_test tc test i jumps execute;
      if status =? USFSTL_STATUS_OUT_OF_CASES then mret (i, k)
      else
        c ← gets g_usfstl_current_testcase;
        let k := if negb execute || (status =? USFSTL_STATUS_SKIPPED) then k else count_result tc c status k in
        i ← int_arith (i + 1);
        n ← int_arith (ctr k + 1);
        cases_loop fuel jumps tc test i (k <| ctr := n |>)
  end.

Fixpoint write_requirements (tc : usfstl_test) (reqs : list string) (succ failed : Z) : R unit :=
  match reqs with
  | [] => mret tt
  | r :: reqs => emit_event (Requirement (name tc) r succ failed);; write_requirements tc reqs succ failed
  end.

(** The sums over all tests (int). *)
Record totals := mk_totals { m_ctr : Z; m_ret : Z; succeeded : Z; failed : Z; failing_succeeded : Z }.

(** [a += b] of an int and an unsigned int. *)
Definition add_int (a b : Z) : Z := s32 (u32 (a + b)).

(** The body of the loop for a test that is selected. *)
Definition run_cases (fuel jumps : nat) (tc : usfstl_test) (test : Z) (m : totals) : R totals :=
  '(i, k) ← cases_loop fuel jumps tc test 0 (mk_counts (m_ctr m) (m_ret m) 0 0 0);
  if g_usfstl_list_tests opts then
    emit_event (Listed (if g_usfstl_list_projnames opts then projectname tc else EmptyString) (name tc) i);;
    mret (mk_totals (ctr k) (ret k) (succeeded m) (failed m) (failing_succeeded m))
  else
    emit_event (SummaryLine (name tc) (tc_succeeded k) (tc_failed k));;
    write_requirements tc (requirements tc) (tc_succeeded k) (tc_failed k);;
    mret (mk_totals (ctr k) (ret k) (add_int (succeeded m) (tc_succeeded k)) (add_int (failed m) (tc_failed k))
      (add_int (failing_succeeded m) (tc_failing_succeeded k))).

(** The conditions of the outer loop behind [test++]. *)
Definition test_selected (tc : usfstl_test) (test : Z) : bool :=
  negb ((0 <=? g_usfstl_test opts) && negb (test =? g_usfstl_test opts)) &&
  match g_usfstl_testfilter opts with Some f => String.eqb f (name tc) | None => true end &&
  negb (g_usfstl_skip_known_failing && failing tc).

Definition in_project (tc : usfstl_test) : bool :=
  match g_usfstl_proj opts with Some p => String.eqb p (projectname tc) | None => true end.

Fixpoint tests_loop (fuel jumps : nat) (tests : list (option usfstl_test)) (test : Z) (prev_projectname : string) (m : totals) : R totals :=
  match tests with
  | [] => mret m
  | None :: tests => tests_loop fuel jumps tests test prev_projectname m
  | Some tc :: tests =>
      if negb (in_project tc) then tests_loop fuel jumps tests test prev_projectname m
      else
        let test := test + 1 in
        if negb (test_selected tc test) then tests_loop fuel jumps tests test prev_projectname m
        else
          when (negb (String.eqb prev_projectname (projectname tc))) (emit_event (ProjectLine (projectname tc)));;
          m ← run_cases fuel jumps tc test m;
          tests_loop fuel jumps tests test (projectname tc) m
  end.

(** [main] behind the initialisation of a process that is no participant; the exit
    status. *)
Definition main (fuel jumps : nat) (tests : list (option usfstl_test)) : R Z :=
  m ← tests_loop fuel jumps tests (-1) EmptyString (mk_totals 0 0 0 0 0);
  if g_usfstl_count opts then emit_event (Counted (m_ctr m));; mret 0
  else if g_usfstl_list_tests opts then mret 0
  else
    emit_event MultiFinish;;
    n ← int_arith (succeeded m + failed m);
    n ← int_arith (n + failing_succeeded m);
    emit_event (Ran n (failed m) (failing_succeeded m));;
    emit_event (SummaryLine "TOTAL" (succeeded m) (failed m));;
    emit_event FreeGlobals;;
    mret (m_ret m).

(** ** One test case *)
(** The variables that running a test changes. *)
Definition upd (s : runner) (u : U) (r : Z) (a : bool) (evs : list event) : runner :=
  mk_runner u r a (g_usfstl_current_test s) (g_usfstl_current_testcase s) (g_usfstl_current_test_case_data s)
    (g_usfstl_current_case_num s) (g_usfstl_current_test_num s) (events s ++ evs).

Lemma upd_upd s u r a evs u' r' a' evs' : upd (upd s u r a evs) u' r' a' evs' = upd s u' r' a' (evs ++ evs').
Proof. unfold upd. cbn. by rewrite app_assoc. Qed.
Lemma upd_id s : s = upd s (ustate s) (g_usfstl_failure_reason s) (g_usfstl_test_aborted s) [].
Proof. unfold upd. rewrite app_nil_r. by destruct s. Qed.
Lemma emit_upd e s : emit_event e s = Ok (tt, upd s (ustate s) (g_usfstl_failure_reason s) (g_usfstl_test_aborted s) [e]).
Proof. done. Qed.

(** Events before the end of a test case. *)
Definition quiet (e : event) : Prop :=
  match e with
  | MultiEnd _ | TaskCleanup | CtxCleanup | FreeAll | Requirement _ _ _ _ => False
  | Post _ _ status => status ≠ USFSTL_STATUS_ABORT_TWICE
  | _ => True
  end.

(** [m] ends with [r] in a state where only user state, reason and flag changed. *)
Definition steps {A} (m : R A) (s : runner) (r : A) (u : U) (reason : Z) (evs : list event) : Prop :=
  ∃ a, m s = Ok (r, upd s u reason a evs).

Lemma steps_bind {A B} (m : R A) (k : A → R B) s a u r evs b u' r' evs' :
  steps m s a u r evs → (∀ a', steps (k a) (upd s u r a' evs) b u' r' evs') →
  steps (m ≫= k) s b u' r' (evs ++ evs').
Proof.
  intros [a1 E1] H2. destruct (H2 a1) as [a2 E2]. exists a2. rewrite (bind_ok _ _ _ _ _ E1), E2. by rewrite upd_upd.
Qed.

Lemma steps_ret {A} (a : A) s : steps (mret a) s a (ustate s) (g_usfstl_failure_reason s) [].
Proof. exists (g_usfstl_test_aborted s). by rewrite <-upd_id. Qed.

Lemma steps_emit e s : steps (emit_event e) s tt (ustate s) (g_usfstl_failure_reason s) [e].
Proof. by exists (g_usfstl_test_aborted s). Qed.

Lemma steps_then {A B} (m : R (jump A)) (k : A → R (jump B)) s a u r evs b u' r' evs' :
  steps m s (Value a) u r evs → (∀ a', steps (k a) (upd s u r a' evs) b u' r' evs') →
  steps (then_ m k) s b u' r' (evs ++ evs').
Proof. intros H1 H2. unfold then_. eapply steps_bind; [exact H1|]. exact H2. Qed.

Lemma steps_jump {A B} (m : R (jump A)) (k : A → R (jump B)) s v u r evs :
  steps m s (Jump v) u r evs → steps (then_ m k) s (Jump v) u r evs.
Proof.
  intros H1. unfold then_. rewrite <-(app_nil_r evs). eapply steps_bind; [exact H1|]. intros a'. apply (steps_ret (Jump v)).
Qed.

Hypothesis no_abort : g_usfstl_abort_on_error = false.
(** The globals were saved. *)
Hypothesis is_saved : saved ≠ None.

(** The reason, and the value setjmp() returns, when an assertion fails. *)
Definition next_reason (r : Z) : Z :=
  if r =? USFSTL_STATUS_ASSERTION_FAILED then USFSTL_STATUS_ABORT_TWICE else USFSTL_STATUS_ASSERTION_FAILED.

Lemma abort_steps {A} s : 0 ≤ g_usfstl_current_case_num s → g_usfstl_failure_reason s ≠ USFSTL_STATUS_ABORT_TWICE →
  ∃ u evs, steps (usfstl_abort (A := A)) s (Jump (next_reason (g_usfstl_failure_reason s))) u (next_reason (g_usfstl_failure_reason s)) evs ∧
    Forall quiet evs.
Proof.
  intros Hn Hr.
  assert (∃ u evs, call_handler (g_usfstl_failure_reason s) s = Ok (tt, upd s u (g_usfstl_failure_reason s) (g_usfstl_test_aborted s) evs) ∧
    Forall quiet evs) as (u & evs & Eh & Hq).
  { unfold call_handler. destruct g_usfstl_abort_handler as [h|]; [|exists (ustate s), []; by rewrite <-upd_id].
    destruct (_ =? _); cbn [negb when]; [exists (ustate s), []; by rewrite <-upd_id|].
    exists (h (ustate s)), [AbortHandler]. split; [done|]. by repeat constructor. }
  exists u, evs. split; [|done]. exists true. unfold usfstl_abort. erewrite bind_ok by reflexivity. cbn beta.
  rewrite (bind_ok _ _ _ _ _ Eh). set (s1 := upd _ _ _ _ _). erewrite bind_ok by reflexivity. cbn beta.
  replace (g_usfstl_abort_on_error || (g_usfstl_current_case_num s1 <? 0)) with false by (rewrite no_abort; cbn; lia).
  erewrite bind_ok by reflexivity. unfold next_reason.
  destruct (Z.eqb_spec (g_usfstl_failure_reason s) USFSTL_STATUS_ASSERTION_FAILED).
  - by erewrite bind_ok by reflexivity.
  - replace (_ =? USFSTL_STATUS_ABORT_TWICE) with false by lia. by erewrite bind_ok by reflexivity.
Qed.

Lemma call_returns f s u r : f (ustate s) = (u, Returns) → g_usfstl_failure_reason s = r → steps (call_user f) s (Value tt) u r [].
Proof.
  intros E <-. exists (g_usfstl_test_aborted s). unfold call_user. erewrite bind_ok by (rewrite E; reflexivity). cbn. unfold upd.
  by rewrite app_nil_r.
Qed.

Lemma call_fails f s u r : f (ustate s) = (u, Fails) → g_usfstl_failure_reason s = r → 0 ≤ g_usfstl_current_case_num s →
  r ≠ USFSTL_STATUS_ABORT_TWICE →
  ∃ u' evs, steps (call_user f) s (Jump (next_reason r)) u' (next_reason r) evs ∧ Forall quiet evs.
Proof.
  intros E <- Hn Hr. pose (s1 := s <| ustate := u |>). destruct (abort_steps (A := unit) s1 Hn Hr) as (u' & evs & [a Ea] & Hq).
  exists u', evs. split; [|done]. exists a. unfold call_user. erewrite bind_ok by (rewrite E; reflexivity). exact Ea.
Qed.

Section one_case.
Variables (test : usfstl_test) (test_num case_num : Z).

(** The last calls of a test case that was run. *)
Definition cleanup (status : Z) (c : option usfstl_testcase) : list event :=
  [MultiEnd status; TaskCleanup; CtxCleanup; FreeAll] ++
  match c ≫= requirement with
  | Some req => [Requirement (name test) req (if status =? USFSTL_STATUS_SUCCESS then 1 else 0) (if status =? USFSTL_STATUS_SUCCESS then 0 else 1)]
  | None => []
  end.

(** How the function [post] ends, if it is called. *)
Definition post_of (status : Z) (data : option C) (u : U) : U * ending :=
  match post test with
  | Some f => if status =? USFSTL_STATUS_ABORT_TWICE then (u, Returns) else f data test_num case_num status u
  | None => (u, Returns)
  end.

Lemma steps_when b e s : steps (when b (emit_event e)) s tt (ustate s) (g_usfstl_failure_reason s) (if b then [e] else []).
Proof. destruct b; [apply steps_emit|apply (steps_ret tt)]. Qed.

Lemma stop_steps s : ∃ evs, Forall quiet evs ∧
  steps (no_jump (when (uses_watchdog test) (emit_event WatchdogStop);; when coverage (emit_event LogAsserts))) s (Value tt)
    (ustate s) (g_usfstl_failure_reason s) evs.
Proof.
  exists (((if uses_watchdog test then [WatchdogStop] else []) ++ (if coverage then [LogAsserts] else [])) ++ []).
  split; [destruct (uses_watchdog test), coverage; by repeat constructor|].
  eapply (steps_bind _ _ s tt (ustate s) (g_usfstl_failure_reason s)); [|intros a; exact (steps_ret (Value tt) (upd _ _ _ _ _))].
  eapply steps_bind; [apply steps_when|]. intros a. exact (steps_when coverage LogAsserts (upd _ _ _ _ _)).
Qed.

Lemma finish_returns st s u : post_of st (g_usfstl_current_test_case_data s) (ustate s) = (u, Returns) →
  ∃ evs, steps (finish test test_num case_num st) s (Value st) u (g_usfstl_failure_reason s) (evs ++ cleanup st (g_usfstl_current_testcase s)) ∧ Forall quiet evs.
Proof.
  intros Hp. destruct (stop_steps s) as (e1 & Hq1 & H1).
  assert (∃ e2, Forall quiet e2 ∧ ∀ a, steps (call_post test test_num case_num st) (upd s (ustate s) (g_usfstl_failure_reason s) a e1)
    (Value tt) u (g_usfstl_failure_reason s) e2) as (e2 & Hq2 & H2).
  { unfold post_of in Hp. unfold call_post. destruct (post test) as [f|]; [|exists []; split; [done|]; intros a; injection Hp as <-; exact (steps_ret (Value tt) (upd _ _ _ _ _))].
    destruct (Z.eqb_spec st USFSTL_STATUS_ABORT_TWICE) as [->|Hst]; cbn [negb].
    { exists []. split; [done|]. intros a. injection Hp as <-. exact (steps_ret (Value tt) (upd _ _ _ _ _)). }
    exists [Post test_num case_num st]. split; [by repeat constructor|]. intros a.
    change [Post test_num case_num st] with ([] ++ [Post test_num case_num st] ++ []).
    eapply steps_bind; [exists a; rewrite <-upd_id; reflexivity|]. intros a1.
    eapply steps_then; [exists a1; reflexivity|]. intros a2. by apply call_returns. }
  exists (e1 ++ e2). split; [|by apply Forall_app]. rewrite <-app_assoc. eapply steps_then; [exact H1|]. intros a1.
  eapply steps_then; [apply H2|]. intros a2. rewrite upd_upd. exists a2. unfold cleanup.
  do 4 (erewrite bind_ok by apply emit_upd; rewrite !upd_upd). erewrite bind_ok by reflexivity. cbn -[mbind].
  destruct (g_usfstl_current_testcase s ≫= requirement) as [req|].
  - erewrite bind_ok by apply emit_upd. rewrite upd_upd. unfold mret, M_ret. rewrite <-!app_assoc. reflexivity.
  - erewrite bind_ok by reflexivity. unfold mret, M_ret. rewrite <-!app_assoc. reflexivity.
Qed.

Lemma finish_fails st s u : post_of st (g_usfstl_current_test_case_data s) (ustate s) = (u, Fails) →
  0 ≤ g_usfstl_current_case_num s → g_usfstl_failure_reason s ≠ USFSTL_STATUS_ABORT_TWICE →
  ∃ u' evs, steps (finish test test_num case_num st) s (Jump (next_reason (g_usfstl_failure_reason s))) u'
    (next_reason (g_usfstl_failure_reason s)) evs ∧ Forall quiet evs.
Proof.
  intros Hp Hn Hr. destruct (stop_steps s) as (e1 & Hq1 & [a1 E1]). unfold post_of in Hp.
  destruct (post test) as [f|] eqn:Ep; [|done]. destruct (Z.eqb_spec st USFSTL_STATUS_ABORT_TWICE) as [|Hst]; [done|].
  set (r := g_usfstl_failure_reason s) in *. set (s1 := upd s (ustate s) r a1 (e1 ++ [Post test_num case_num st])).
  destruct (call_fails (f (g_usfstl_current_test_case_data s) test_num case_num st) s1 u r Hp eq_refl Hn Hr) as (u' & e2 & [a2 E2] & Hq2).
  exists u', (e1 ++ [Post test_num case_num st] ++ e2). split; [|rewrite !Forall_app; repeat split; try done; by repeat constructor].
  exists a2. unfold finish, then_ at 1. rewrite (bind_ok _ _ _ _ _ E1). cbn -[call_post mbind]. unfold then_ at 1, call_post. rewrite Ep.
  replace (st =? USFSTL_STATUS_ABORT_TWICE) with false by lia. cbn [negb].
  assert (∀ m : R (jump ()), m s1 = Ok (Jump (next_reason r), upd s1 u' (next_reason r) a2 e2) →
    then_ (no_jump (emit_event (Post test_num case_num st))) (λ _, m) (upd s (ustate s) r a1 e1)
      = Ok (Jump (next_reason r), upd s1 u' (next_reason r) a2 e2)) as Hm.
  { intros m Em. unfold then_. erewrite bind_ok; [|unfold no_jump; erewrite bind_ok by apply emit_upd; reflexivity].
    rewrite upd_upd. exact Em. }
  erewrite bind_ok; [|erewrite bind_ok by reflexivity; apply Hm; exact E2]. cbn. unfold s1. by rewrite upd_upd, <-app_assoc.
Qed.

(** The statuses that a test case that was run can have. *)
Definition run_status (status : Z) : Prop := status ∈ [0; 1; 2; 3; 8].

(** The loop ends with a clean-up that comes last and once; with success exactly
    if [P]. *)
Definition loop_ends (n : nat) (v : Z) (s : runner) (P : Prop) : Prop :=
  ∃ status u r evs, steps (setjmp_loop test test_num case_num n v) s status u r (evs ++ cleanup status (g_usfstl_current_testcase s)) ∧
    Forall quiet evs ∧ run_status status ∧ (status = USFSTL_STATUS_SUCCESS ↔ P).

Lemma loop_ends_iff n v s P Q : loop_ends n v s P → (P ↔ Q) → loop_ends n v s Q.
Proof. intros (st & u & r & evs & ? & ? & ? & HP) HPQ. exists st, u, r, evs. rewrite <-HPQ. eauto. Qed.

Lemma loop_jump n v v' s u r evs P :
  steps (after_setjmp test test_num case_num v) s (Jump v') u r evs → Forall quiet evs →
  (∀ a, loop_ends n v' (upd s u r a evs) P) → loop_ends (S n) v s P.
Proof.
  intros [a E] Hq H. destruct (H a) as (st & u' & r' & evs' & [a' E'] & Hq' & Hs & HP).
  exists st, u', r', (evs ++ evs'). split; [|split; [by apply Forall_app|done]]. exists a'. cbn [setjmp_loop].
  rewrite (bind_ok _ _ _ _ _ E). cbn beta iota. rewrite E', upd_upd. by rewrite <-app_assoc.
Qed.

Lemma loop_value n v st s u r u' evs :
  steps (status_switch test test_num case_num v) s (Value st) u r evs → Forall quiet evs → run_status st →
  post_of st (g_usfstl_current_test_case_data s) u = (u', Returns) → loop_ends (S n) v s (st = USFSTL_STATUS_SUCCESS).
Proof.
  intros [a E] Hq Hst Hp. destruct (finish_returns st (upd s u r a evs) u' Hp) as (e2 & [a2 E2] & Hq2).
  exists st, u', r, (evs ++ e2). split; [|split; [by apply Forall_app|done]]. exists a2. cbn [setjmp_loop]. unfold after_setjmp, then_.
  rewrite (bind_ok _ _ _ (Value st) (upd s u' r a2 ((evs ++ e2) ++ cleanup st (g_usfstl_current_testcase s)))); [done|].
  rewrite (bind_ok _ _ _ _ _ E). cbn beta iota. rewrite E2, upd_upd. by rewrite <-app_assoc.
Qed.

Lemma after_switch_fails v st s u r u' evs :
  steps (status_switch test test_num case_num v) s (Value st) u r evs → Forall quiet evs →
  post_of st (g_usfstl_current_test_case_data s) u = (u', Fails) → 0 ≤ g_usfstl_current_case_num s → r ≠ USFSTL_STATUS_ABORT_TWICE →
  ∃ u2 evs2, steps (after_setjmp test test_num case_num v) s (Jump (next_reason r)) u2 (next_reason r) evs2 ∧ Forall quiet evs2.
Proof.
  intros [a E] Hq Hp Hn Hr. destruct (finish_fails st (upd s u r a evs) u' Hp Hn Hr) as (u2 & e2 & [a2 E2] & Hq2).
  exists u2, (evs ++ e2). split; [|by apply Forall_app]. exists a2. unfold after_setjmp, then_.
  rewrite (bind_ok _ _ _ _ _ E). cbn beta iota. by rewrite E2, upd_upd.
Qed.

(** The function [post] of the test only returns or fails. *)
Hypothesis post_ok : ∀ st data u, (post_of st data u).2 = Returns ∨ (post_of st data u).2 = Fails.

Lemma switch_jumped v s : v ∈ [1; 3; 4; 5; 8] →
  steps (status_switch test test_num case_num v) s (Value (if bool_decide (v ∈ [4; 5]) then 0 else v)) (ustate s) (g_usfstl_failure_reason s) [].
Proof. intros Hv. repeat (apply elem_of_cons in Hv as [->|Hv]; [apply (steps_ret (Value _))|]). by apply elem_of_nil in Hv. Qed.

Lemma loop_twice n s : loop_ends (S n) 8 s False.
Proof.
  destruct (post_of 8 (g_usfstl_current_test_case_data s) (ustate s)) as [u' e] eqn:Ep.
  assert (e = Returns) as -> by (unfold post_of in Ep; destruct (post test); by injection Ep).
  eapply loop_ends_iff; [eapply loop_value; [apply (switch_jumped 8); set_solver|done| |exact Ep]|done]. cbn. set_solver.
Qed.

Lemma loop_once n s : 0 ≤ g_usfstl_current_case_num s → g_usfstl_failure_reason s = 1 → loop_ends (S (S n)) 1 s False.
Proof.
  intros Hn Hr.
  assert (steps (status_switch test test_num case_num 1) s (Value 1) (ustate s) (g_usfstl_failure_reason s) []) as Hsw
    by (apply (switch_jumped 1); set_solver).
  destruct (post_of 1 (g_usfstl_current_test_case_data s) (ustate s)) as [u' e] eqn:Ep.
  destruct (post_ok 1 (g_usfstl_current_test_case_data s) (ustate s)) as [He|He]; rewrite Ep in He; cbn in He; subst e.
  - eapply loop_ends_iff; [eapply loop_value; [exact Hsw|done| |exact Ep]|done]. cbn. set_solver.
  - destruct (after_switch_fails _ _ _ _ _ _ _ Hsw (List.Forall_nil _) Ep Hn) as (u2 & e2 & Hs & Hq); [by rewrite Hr|].
    rewrite Hr in Hs. eapply loop_jump; [exact Hs|done|]. intros a. apply loop_twice.
Qed.

Lemma loop_settled n v st s u r evs :
  steps (status_switch test test_num case_num v) s (Value st) u r evs → Forall quiet evs → run_status st →
  0 ≤ g_usfstl_current_case_num s → r ≠ USFSTL_STATUS_ABORT_TWICE →
  loop_ends (S (S (S n))) v s (st = USFSTL_STATUS_SUCCESS ∧ (post_of st (g_usfstl_current_test_case_data s) u).2 = Returns).
Proof.
  intros Hsw Hq Hst Hn Hr. destruct (post_of st (g_usfstl_current_test_case_data s) u) as [u' e] eqn:Ep.
  destruct (post_ok st (g_usfstl_current_test_case_data s) u) as [He|He]; rewrite Ep in He; cbn in He; subst e; cbn.
  - eapply loop_ends_iff; [eapply loop_value; done|]. naive_solver.
  - destruct (after_switch_fails _ _ _ _ _ _ _ Hsw Hq Ep Hn Hr) as (u2 & e2 & Hs & Hq2).
    eapply loop_jump; [exact Hs|done|]. intros a. eapply loop_ends_iff; [|instantiate (1 := False); naive_solver]. unfold next_reason.
    destruct (r =? _); [apply loop_twice|by apply loop_once].
Qed.

(** Behind a jump with the value that is the reason. *)
Lemma loop_jumped n v s : 0 ≤ g_usfstl_current_case_num s → v ≠ 0 → v = g_usfstl_failure_reason s ∨ v = 3 ∧ g_usfstl_failure_reason s = 0 ∨ v = 1 ∧ g_usfstl_failure_reason s = 0 →
  loop_ends (S (S (S n))) v s ((v = 4 ∨ v = 5) ∧ (post_of 0 (g_usfstl_current_test_case_data s) (ustate s)).2 = Returns).
Proof.
  intros Hn H0 Hv. destruct (decide (v ∈ [1; 3; 4; 5; 8])) as [Hin|Hnin].
  - destruct (decide (v = 8)) as [->|H8]; [eapply loop_ends_iff; [apply loop_twice|naive_solver]|].
    eapply loop_ends_iff; [eapply loop_settled; [by apply switch_jumped|done| |done|]|].
    + case_bool_decide; set_solver.
    + unfold USFSTL_STATUS_ABORT_TWICE. lia.
    + case_bool_decide as Hb; unfold USFSTL_STATUS_SUCCESS; [|set_solver].
      repeat (apply elem_of_cons in Hb as [->|Hb]; [naive_solver|]). by apply elem_of_nil in Hb.
  - destruct (abort_steps (A := Z) s Hn) as (u & evs & [a Ea] & Hq).
    { unfold USFSTL_STATUS_ABORT_TWICE. intros Hr. apply Hnin. set_solver. }
    eapply (loop_jump (S (S n)) v (next_reason (g_usfstl_failure_reason s)) s u (next_reason (g_usfstl_failure_reason s)) evs); [|done|].
    + exists a. unfold after_setjmp, then_, status_switch.
      rewrite (bind_ok _ _ _ (Jump (next_reason (g_usfstl_failure_reason s))) (upd s u (next_reason (g_usfstl_failure_reason s)) a evs)); [done|].
      unfold USFSTL_STATUS_SUCCESS, USFSTL_STATUS_REMOTE_SUCCESS, USFSTL_STATUS_NEGATIVE_TEST_SUCCEEDED, USFSTL_STATUS_WATCHDOG_TIMEOUT,
        USFSTL_STATUS_ABORT_TWICE, USFSTL_STATUS_ASSERTION_FAILED.
      do 6 (replace (v =? _) with false by (symmetry; apply Z.eqb_neq; set_solver)). exact Ea.
    + intros a'. unfold next_reason. replace (g_usfstl_failure_reason s =? _) with false by (symmetry; apply Z.eqb_neq; intros ?; apply Hnin; set_solver).
      eapply loop_ends_iff; [by apply loop_once|]. set_solver.
Qed.

(** How the functions [pre] and [fn] end. *)
Definition body_of (data : option C) (u : U) : U * ending :=
  let '(u, e) := match pre test with Some f => f data test_num case_num u | None => (u, Returns) end in
  match e with Returns => fn test data u | _ => (u, e) end.

(** The ending is the one that is expected. *)
Definition as_expected (neg : bool) (e : ending) : Prop :=
  match e with
  | Returns => neg = false
  | NegativeSucceeds => True
  | RemoteEnds r => r = USFSTL_STATUS_REMOTE_SUCCESS ∨ r = USFSTL_STATUS_NEGATIVE_TEST_SUCCEEDED
  | Fails | OutOfTime _ => False
  end.

Definition is_negative (c : option usfstl_testcase) : bool :=
  negative_data test || match c with Some c => tc_negative c | None => false end.

(** A jump with [v] and reason [r], for an ending that is not a return. *)
Definition jumps_for (e : ending) (u : U) (v r : Z) (u' : U) : Prop :=
  v ≠ 0 ∧ (v = r ∨ v = 3 ∧ r = 0 ∨ v = 1 ∧ r = 0) ∧ ((v = 4 ∨ v = 5) ↔ as_expected false e) ∧ (as_expected false e → u' = u).

Lemma call_jumps f s u e : f (ustate s) = (u, e) → e ≠ Returns → g_usfstl_failure_reason s = 0 → 0 ≤ g_usfstl_current_case_num s →
  ∃ v u' r evs, steps (call_user f) s (Jump v) u' r evs ∧ Forall quiet evs ∧ jumps_for e u v r u'.
Proof.
  intros E He Hr Hn. destruct e as [| | |main|reason]; [done| | | |].
  - destruct (call_fails f s u 0 E Hr Hn) as (u' & evs & Hs & Hq); [done|]. exists 1, u', 1, evs. do 2 (split; [done|]).
    unfold jumps_for. cbn. do 2 (split; [lia|]). split; [lia|done].
  - exists 5, u, 5, []. split; [|split; [done|unfold jumps_for; cbn; do 2 (split; [lia|]); split; [lia|done]]]. exists true. unfold call_user.
    erewrite bind_ok by (rewrite E; reflexivity). cbn. unfold upd. by rewrite app_nil_r.
  - exists 3, u, (if main then 0 else 3), []. split; [|split; [done|unfold jumps_for; cbn; split; [done|]; split; [destruct main; lia|]; split; [lia|done]]].
    exists (if main then g_usfstl_test_aborted s else true). unfold call_user.
    erewrite bind_ok by (rewrite E; reflexivity). unfold usfstl_out_of_time. rewrite no_abort. unfold upd. rewrite app_nil_r.
    destruct s; cbn in *; subst. by destruct main.
  - exists (if reason =? 0 then 1 else reason), u, reason, [].
    split; [|split; [done|unfold jumps_for; cbn; unfold USFSTL_STATUS_REMOTE_SUCCESS, USFSTL_STATUS_NEGATIVE_TEST_SUCCEEDED;
      destruct (Z.eqb_spec reason 0); (split; [lia|]); (split; [lia|]); (split; [lia|done])]].
    exists true. unfold call_user. erewrite bind_ok by (rewrite E; reflexivity). cbn. unfold upd. by rewrite app_nil_r.
Qed.

Lemma pre_steps data s : 0 ≤ g_usfstl_current_case_num s → g_usfstl_failure_reason s = 0 →
  let '(u, e) := match pre test with Some f => f data test_num case_num (ustate s) | None => (ustate s, Returns) end in
  (e = Returns → ∃ evs, steps (call_pre test test_num case_num data) s (Value tt) u 0 evs ∧ Forall quiet evs) ∧
  (e ≠ Returns → ∃ v u' r evs, steps (call_pre test test_num case_num data) s (Jump v) u' r evs ∧ Forall quiet evs ∧ jumps_for e u v r u').
Proof.
  intros Hn Hr. unfold call_pre. destruct (pre test) as [f|].
  2: { split; [|done]. intros _. exists []. split; [|done]. rewrite <-Hr. apply (steps_ret (Value tt)). }
  destruct (f data test_num case_num (ustate s)) as [u e] eqn:E. set (s1 := upd s (ustate s) 0 (g_usfstl_test_aborted s) [Pre test_num case_num]).
  assert (∀ (m : R (jump ())) r u' r' evs, (∀ s1, s1 = upd s (ustate s) 0 (g_usfstl_test_aborted s) [Pre test_num case_num] → steps m s1 r u' r' evs) →
    steps (then_ (no_jump (emit_event (Pre test_num case_num))) (λ _, m)) s r u' r' ([Pre test_num case_num] ++ evs)) as Hm.
  { intros m r u' r' evs Hm. destruct (Hm s1 eq_refl) as [a Ea]. exists a. unfold then_.
    erewrite bind_ok; [|unfold no_jump; erewrite bind_ok by apply emit_upd; reflexivity]. rewrite Hr. fold s1. cbn beta iota. rewrite Ea.
    unfold s1. by rewrite upd_upd. }
  split; intros He.
  - subst e. exists ([Pre test_num case_num] ++ []). split; [|by repeat constructor]. apply Hm. intros s2 ->. by apply call_returns.
  - destruct (call_jumps (f data test_num case_num) s1 u e E He eq_refl Hn) as (v & u' & r & evs & Hs & Hq & Hj).
    exists v, u', r, ([Pre test_num case_num] ++ evs). split; [apply Hm; by intros s2 ->|]. split; [by constructor|done].
Qed.

Lemma body_steps s u e : 0 ≤ g_usfstl_current_case_num s → g_usfstl_failure_reason s = 0 →
  body_of (g_usfstl_current_test_case_data s) (ustate s) = (u, e) →
  (e = Returns → ∃ evs, steps (run_body test test_num case_num) s (Value tt) u 0 evs ∧ Forall quiet evs) ∧
  (e ≠ Returns → ∃ v u' r evs, steps (run_body test test_num case_num) s (Jump v) u' r evs ∧ Forall quiet evs ∧ jumps_for e u v r u').
Proof.
  intros Hn Hr Hb. unfold body_of in Hb. set (data := g_usfstl_current_test_case_data s) in *.
  set (s1 := upd s (ustate s) 0 (g_usfstl_test_aborted s) [MultiStart]).
  pose proof (pre_steps data s1 Hn eq_refl) as Hpre. cbn [ustate s1] in Hpre. change (ustate s1) with (ustate s) in Hpre.
  assert (∀ r u' r' evs, steps (then_ (call_pre test test_num case_num data) (λ _, emit_event Fn;; call_user (fn test data))) s1 r u' r' evs →
    steps (run_body test test_num case_num) s r u' r' ([MultiStart] ++ evs)) as Hm.
  { intros r u' r' evs [a Ea]. exists a. unfold run_body. rewrite (bind_ok _ _ _ _ _ (emit_upd _ _)), Hr. fold s1.
    erewrite bind_ok by reflexivity. cbn beta. change (g_usfstl_current_test_case_data s1) with data. rewrite Ea. unfold s1. by rewrite upd_upd. }
  destruct (match pre test with Some f => _ | None => _ end) as [u1 e1]. destruct Hpre as [Hret Hjmp].
  destruct (decide (e1 = Returns)) as [->|He1].
  - destruct (Hret eq_refl) as (e2 & Hs2 & Hq2). split; intros He.
    + subst e. exists ([MultiStart] ++ e2 ++ [Fn] ++ []). split; [|constructor; [done|]; apply Forall_app; split; [done|by repeat constructor]].
      apply Hm. eapply steps_then; [exact Hs2|]. intros a. eapply steps_bind; [exists a; reflexivity|]. intros a2. by apply call_returns.
    + destruct Hs2 as [a2 E2]. set (s2 := upd s1 u1 0 a2 (e2 ++ [Fn])).
      destruct (call_jumps (fn test data) s2 u e Hb He eq_refl Hn) as (v & u' & r & e3 & [a3 E3] & Hq3 & Hj).
      exists v, u', r, ([MultiStart] ++ e2 ++ [Fn] ++ e3).
      split; [|split; [constructor; [done|]; apply Forall_app; split; [done|by constructor]|done]].
      apply Hm. exists a3. unfold then_. rewrite (bind_ok _ _ _ _ _ E2). cbn beta iota. erewrite bind_ok by apply emit_upd. rewrite upd_upd.
      etransitivity; [exact E3|]. unfold s2. by rewrite upd_upd, <-app_assoc.
  - assert ((u1, e1) = (u, e)) as [= <- <-] by (destruct e1; done). split; [done|]. intros _.
    destruct (Hjmp He1) as (v & u' & r & e2 & Hs2 & Hq2 & Hj). exists v, u', r, ([MultiStart] ++ e2).
    split; [apply Hm; by apply steps_jump|]. split; [by constructor|done].
Qed.

(** The whole loop, from the first pass. *)
Lemma loop_run n s u e : 0 ≤ g_usfstl_current_case_num s → g_usfstl_failure_reason s = 0 →
  body_of (g_usfstl_current_test_case_data s) (ustate s) = (u, e) →
  loop_ends (S (S (S (S n)))) 0 s (as_expected (is_negative (g_usfstl_current_testcase s)) e ∧
    (post_of USFSTL_STATUS_SUCCESS (g_usfstl_current_test_case_data s) u).2 = Returns).
Proof.
  intros Hn Hr Hb. destruct (body_steps s u e Hn Hr Hb) as [Hret Hjmp]. destruct (decide (e = Returns)) as [->|He].
  - destruct (Hret eq_refl) as (evs & [a Ea] & Hq). set (st := if is_negative (g_usfstl_current_testcase s) then 2 else 0).
    eapply loop_ends_iff; [apply (loop_settled (S n) 0 st s u 0 evs)|]; [|done| |done|done|].
    + exists a. change (status_switch test test_num case_num 0) with (run_test test test_num case_num). unfold run_test, then_.
      rewrite (bind_ok _ _ _ _ _ Ea). cbn beta iota. unfold negative. erewrite bind_ok; [|erewrite bind_ok by reflexivity; reflexivity].
      cbn beta. subst st. unfold is_negative. change (g_usfstl_current_testcase (upd s u 0 a evs)) with (g_usfstl_current_testcase s).
      destruct (_ || _); [by rewrite no_abort|done].
    + subst st. destruct (is_negative _); unfold run_status; set_solver.
    + subst st. cbn. destruct (is_negative _); unfold USFSTL_STATUS_SUCCESS; naive_solver.
  - destruct (Hjmp He) as (v & u' & r & evs & Hs & Hq & Hv0 & Hvr & Hexp & Hu).
    eapply (loop_jump _ 0 v s u' r evs); [|done|].
    + change (after_setjmp test test_num case_num 0) with (then_ (run_test test test_num case_num) (finish test test_num case_num)).
      by do 2 apply steps_jump.
    + intros a. eapply loop_ends_iff; [apply (loop_jumped n v (upd s u' r a evs)); done|]. cbn.
      assert (as_expected (is_negative (g_usfstl_current_testcase s)) e ↔ as_expected false e) as -> by (by destruct e).
      rewrite <-Hexp. split; (intros [Hx Hp]; split; [done|]); rewrite (Hu (proj1 Hexp Hx)) in *; done.
Qed.

(** The case to run and its generic part; or the status without running, if there
    is no such case or it is skipped. *)
Definition skip_or_run (c : C) (generic_part : option usfstl_testcase) : Z + option C * option usfstl_testcase :=
  if g_usfstl_skip_known_failing && match generic_part with Some g => tc_failing g | None => false end
  then inl USFSTL_STATUS_SKIPPED else inr (Some c, generic_part).

Definition case_of : Z + option C * option usfstl_testcase :=
  if controlled test then inr (None, None)
  else match case_generator test with
  | Some g =>
      match g case_num with
      | None => inl USFSTL_STATUS_OUT_OF_CASES
      | Some c => skip_or_run c (if case_generator_has_generic test then Some (generic test c) else None)
      end
  | None =>
      match testcases test with
      | [] => if 0 <? case_num then inl USFSTL_STATUS_OUT_OF_CASES else inr (None, None)
      | cases =>
          match cases !! Z.to_nat case_num with
          | None => inl USFSTL_STATUS_OUT_OF_CASES
          | Some c => skip_or_run c (Some (generic test c))
          end
      end
  end.

(** Between test cases. *)
Definition idle (s : runner) : Prop :=
  g_usfstl_current_test_case_data s = None.

(** The state of the code under test when a test case starts. *)
Definition restored (u : U) : U := match saved with Some restore => restore u | None => u end.

Lemma select_case_run s : g_usfstl_current_test_case_data s = None → g_usfstl_current_testcase s = None →
  match case_of with
  | inl st => ∃ data c, select_case test case_num s =
      Ok (Some st, (s <| g_usfstl_current_test_case_data := data |>) <| g_usfstl_current_testcase := c |>)
  | inr (data, c) => select_case test case_num s =
      Ok (None, (s <| g_usfstl_current_test_case_data := data |>) <| g_usfstl_current_testcase := c |>)
  end.
Proof.
  intros Hd Hc. destruct s as [u r a ct cc cd cn tn evs]. cbn in Hd, Hc. subst. unfold case_of, select_case, skip_or_run.
  destruct (controlled test); [done|]. destruct (case_generator test) as [g|].
  - erewrite bind_ok by reflexivity. destruct (g case_num) as [c|]; [|by exists None, None].
    destruct (case_generator_has_generic test); [|by rewrite andb_false_r].
    destruct (g_usfstl_skip_known_failing && tc_failing (generic test c)) eqn:E.
    + exists (Some c), (Some (generic test c)). do 2 (erewrite bind_ok by reflexivity). cbn. by rewrite E.
    + do 2 (erewrite bind_ok by reflexivity). cbn. by rewrite E.
  - destruct (testcases test) as [|c0 cases]; cbn [length]; [cbn; destruct (0 <? case_num); [by exists None, None|done]|].
    replace (Z.of_nat (S (length cases)) =? 0) with false by lia. cbn [negb].
    destruct ((c0 :: cases) !! Z.to_nat case_num) as [c|]; [|by exists None, None].
    destruct (g_usfstl_skip_known_failing && tc_failing (generic test c)) eqn:E.
    + exists (Some c), (Some (generic test c)). do 2 (erewrite bind_ok by reflexivity). cbn. by rewrite E.
    + do 2 (erewrite bind_ok by reflexivity). cbn. by rewrite E.
Qed.

(** What [usfstl_execute_test] sets at its start. *)
Definition started (s : runner) (evs : list event) (u : U) (r : Z) : runner :=
  mk_runner u r false (Some test) None (g_usfstl_current_test_case_data s) case_num test_num (events s ++ evs).

Lemma execute_start (n : nat) (execute : bool) (s : runner) : idle s →
  ∃ s1, s1 = started s (if execute then [RestoreGlobals] else []) (if execute then restored (ustate s) else ustate s)
                (if execute then 0 else g_usfstl_failure_reason s) ∧
  usfstl_execute_test test test_num case_num n execute s =
  ((sel ← select_case test case_num;
   status ←
     match sel with
     | Some status => mret status
     | None =>
         if negb execute then mret USFSTL_STATUS_SUCCESS
         else
           when (uses_watchdog test) (emit_event (WatchdogStart (max_cpu_time_ms test)));;
           setjmp_loop test test_num case_num n USFSTL_STATUS_SUCCESS
     end;
   modify (λ s : runner, (((s <| g_usfstl_current_test := None |>) <| g_usfstl_current_case_num := -1 |>)
     <| g_usfstl_current_test_num := -1 |>) <| g_usfstl_current_test_case_data := None |>);;
   mret status) : R Z) s1.
Proof.
  intros Hd. eexists. split; [reflexivity|]. unfold usfstl_execute_test.
  erewrite (bind_ok (when execute _) _ s tt) with (s1 := if execute then upd s (restored (ustate s)) 0 false [RestoreGlobals] else s).
  2: { destruct execute; [|done]. cbn [when]. unfold usfstl_restore_globals, restored. erewrite bind_ok by apply emit_upd.
       by destruct saved. }
  erewrite bind_ok by reflexivity. destruct execute; [done|]. unfold started. by rewrite app_nil_r.
Qed.

Lemma execute_selects (n : nat) (execute : bool) (s : runner) (st : Z) : idle s → case_of = inl st →
  ∃ s', usfstl_execute_test test test_num case_num n execute s = Ok (st, s') ∧ events s' = events s ++ (if execute then [RestoreGlobals] else []) ∧
    g_usfstl_current_test_case_data s' = None.
Proof.
  intros Hi Hc. destruct (execute_start n execute s Hi) as (s1 & Hs1 & ->).
  pose proof (select_case_run s1) as Hsel. rewrite Hc in Hsel. destruct Hsel as (data & c & E); [by rewrite Hs1|by rewrite Hs1|].
  rewrite (bind_ok _ _ _ _ _ E). eexists. split; [reflexivity|]. by rewrite Hs1.
Qed.

Lemma execute_lists n s data c : idle s → case_of = inr (data, c) →
  ∃ s', usfstl_execute_test test test_num case_num n false s = Ok (USFSTL_STATUS_SUCCESS, s') ∧ events s' = events s ∧
    g_usfstl_current_test_case_data s' = None ∧ g_usfstl_current_testcase s' = c.
Proof.
  intros Hi Hc. destruct (execute_start n false s Hi) as (s1 & Hs1 & ->).
  pose proof (select_case_run s1) as Hsel. rewrite Hc in Hsel. specialize (Hsel ltac:(by rewrite Hs1) ltac:(by rewrite Hs1)).
  rewrite (bind_ok _ _ _ _ _ Hsel). eexists. split; [reflexivity|]. rewrite Hs1. cbn. by rewrite app_nil_r.
Qed.

Lemma execute_runs n s data c u e : idle s → 0 ≤ case_num → case_of = inr (data, c) → body_of data (restored (ustate s)) = (u, e) →
  ∃ status s' evs, usfstl_execute_test test test_num case_num (S (S (S (S n)))) true s = Ok (status, s') ∧
    events s' = events s ++ evs ++ cleanup status c ∧ Forall quiet evs ∧ run_status status ∧
    (status = USFSTL_STATUS_SUCCESS ↔ as_expected (is_negative c) e ∧ (post_of USFSTL_STATUS_SUCCESS data u).2 = Returns) ∧
    g_usfstl_current_test_case_data s' = None ∧ g_usfstl_current_testcase s' = c.
Proof.
  intros Hi Hn Hc Hb. destruct (execute_start (S (S (S (S n)))) true s Hi) as (s1 & Hs1 & ->).
  pose proof (select_case_run s1) as Hsel. rewrite Hc in Hsel. specialize (Hsel ltac:(by rewrite Hs1) ltac:(by rewrite Hs1)).
  rewrite (bind_ok _ _ _ _ _ Hsel). set (s2 := _ <| g_usfstl_current_testcase := c |>). cbn beta iota.
  set (wd := if uses_watchdog test then [WatchdogStart (max_cpu_time_ms test)] else [] : list event).
  set (s3 := upd s2 (restored (ustate s)) 0 false wd).
  assert (when (uses_watchdog test) (emit_event (WatchdogStart (max_cpu_time_ms test))) s2 = Ok (tt, s3)) as E3.
  { subst s3 wd s2. rewrite Hs1. destruct (uses_watchdog test); [done|]. unfold upd. cbn. by rewrite !app_nil_r. }
  destruct (loop_run n s3 u e) as (status & u' & r & evs & [a Ea] & Hq & Hst & Hiff); [|done|by subst s3 s2|].
  { subst s3 s2. rewrite Hs1. done. }
  eexists status, _, (RestoreGlobals :: wd ++ evs). split.
  { rewrite (bind_ok _ _ _ status (upd s3 u' r a (evs ++ cleanup status (g_usfstl_current_testcase s3)))); [reflexivity|].
    cbn [negb]. by rewrite (bind_ok _ _ _ _ _ E3). }
  split; [subst s3 s2; rewrite Hs1; cbn; by rewrite <-!app_assoc|]. split; [|done].
  constructor; [done|]. apply Forall_app. split; [subst wd; destruct (uses_watchdog test); by repeat constructor|done].
Qed.

(** C10. A test case is run to its end: with the globals saved and without
    --abort-on-error, whatever [pre] and the test function do, as long as [post] only
    returns or fails, [usfstl_execute_test] returns, with success exactly if the
    functions ended as expected (returning, or for a negative test reporting the
    error) and [post] returned; the clean-up comes last and once, and no test case is
    current afterwards.
    Four passes behind the setjmp() are enough. *)
Theorem execute_test_verdict n s data c u e :
  idle s → 0 ≤ case_num → case_of = inr (data, c) → body_of data (restored (ustate s)) = (u, e) →
  ∃ status s' evs, usfstl_execute_test test test_num case_num (4 + n) true s = Ok (status, s') ∧
    events s' = events s ++ evs ++ cleanup status c ∧ Forall quiet evs ∧ run_status status ∧
    (status = USFSTL_STATUS_SUCCESS ↔ as_expected (is_negative c) e ∧ (post_of USFSTL_STATUS_SUCCESS data u).2 = Returns) ∧
    g_usfstl_current_test_case_data s' = None ∧ g_usfstl_current_testcase s' = c.
Proof. apply execute_runs. Qed.
End one_case.

(** ** The run of all tests *)
Definition marked (tc : usfstl_test) (i : Z) : bool :=
  match case_of tc i with inr (_, Some c) => tc_failing c | _ => false end || failing tc.

(** A test has [n] cases. *)
Definition has_cases (tc : usfstl_test) (n : nat) : Prop :=
  case_of tc (Z.of_nat n) = inl USFSTL_STATUS_OUT_OF_CASES ∧
  ∀ i, (i < n)%nat → case_of tc (Z.of_nat i) ≠ inl USFSTL_STATUS_OUT_OF_CASES.

(** The cases from [i] on that are run, of [n] more. *)
Fixpoint planned (tc : usfstl_test) (i : Z) (n : nat) : list (usfstl_test * Z) :=
  match n with
  | O => []
  | S n =>
      (if case_wanted i && match case_of tc i with inr _ => true | inl _ => false end then [(tc, i)] else []) ++ planned tc (i + 1) n
  end.

(** The final statuses of the cases that were run. *)
Definition ended (e : event) : option Z := match e with MultiEnd status => Some status | _ => None end.
Definition statuses (evs : list event) : list Z := omap ended evs.

(** A case did what it is marked to do. *)
Definition as_marked (p : usfstl_test * Z) (status : Z) : bool := Bool.eqb (status =? USFSTL_STATUS_SUCCESS) (negb (marked p.1 p.2)).

Lemma quiet_statuses evs : Forall quiet evs → statuses evs = [].
Proof. induction 1 as [|e evs He _ IH]; [done|]. unfold statuses in *. cbn. by destruct e. Qed.

Lemma cleanup_statuses tc status c : statuses (cleanup tc status c) = [status].
Proof. unfold cleanup, statuses. cbn. by destruct (c ≫= requirement). Qed.

Lemma statuses_app evs evs' : statuses (evs ++ evs') = statuses evs ++ statuses evs'.
Proof. apply omap_app. Qed.

Abbreviation result := (usfstl_test * Z * Z)%type.
Definition passes (l : list result) : Z := Z.of_nat (length (filter (λ x, x.2 = 0 ∧ marked x.1.1 x.1.2 = false) l)).
Definition failures (l : list result) : Z := Z.of_nat (length (filter (λ x, x.2 ≠ 0) l)).
Definition surprises (l : list result) : Z := Z.of_nat (length (filter (λ x, x.2 = 0 ∧ marked x.1.1 x.1.2 = true) l)).
Definition all_as_marked (l : list result) : bool := forallb (λ x, as_marked x.1 x.2) l.

(** The counters after [l]. *)
Definition counted (k : counts) (n : Z) (l : list result) : counts :=
  mk_counts (ctr k + n) (if all_as_marked l then ret k else 1) (tc_succeeded k + passes l) (tc_failed k + failures l)
    (tc_failing_succeeded k + surprises l).

Definition small (k : counts) (n : Z) : Prop :=
  0 ≤ ctr k ∧ ctr k + n < 2^31 ∧ 0 ≤ tc_succeeded k ∧ tc_succeeded k + n < 2^31 ∧ 0 ≤ tc_failed k ∧ tc_failed k + n < 2^31 ∧
  0 ≤ tc_failing_succeeded k ∧ tc_failing_succeeded k + n < 2^31.

Lemma count_result_counted tc i c status k data : case_of tc i = inr (data, c) → small k 1 →
  count_result tc c status k = counted k 0 [(tc, i, status)].
Proof.
  intros Hc Hk. unfold small in Hk. destruct k as [ct rt a b d]. cbn in Hk.
  assert (match c with Some c => tc_failing c | None => false end || failing tc = marked tc i) as Hm by (unfold marked; rewrite Hc; by destruct c).
  unfold count_result, counted, passes, failures, surprises, all_as_marked, as_marked. rewrite Hm, !filter_cons, !filter_nil.
  cbn [fst snd forallb]. unfold USFSTL_STATUS_SUCCESS.
  destruct (Z.eqb_spec status 0) as [->|Hst]; destruct (marked tc i); repeat case_decide; try (exfalso; clear -H H0 H1 Hst; intuition congruence); try (exfalso; clear -H H0 H1; intuition congruence); cbn; rewrite ?Z.add_0_r; unfold u32;
    by rewrite Z.mod_small by lia.
Qed.

Lemma case_of_inl tc i st : case_of tc i = inl st → st = USFSTL_STATUS_OUT_OF_CASES ∨ st = USFSTL_STATUS_SKIPPED.
Proof. unfold case_of, skip_or_run. intros H. repeat case_match; simplify_eq; auto. Qed.

Lemma counted_counted k n l n' l' : counted (counted k n l) n' l' = counted k (n + n') (l ++ l').
Proof.
  unfold counted, all_as_marked, passes, failures, surprises. cbn. rewrite forallb_app, !filter_app, !length_app.
  f_equal; try lia. destruct (forallb _ l), (forallb _ l'); done.
Qed.

Lemma tally_bounds l : 0 ≤ passes l ∧ 0 ≤ failures l ∧ 0 ≤ surprises l ∧ passes l + failures l + surprises l = Z.of_nat (length l).
Proof.
  unfold passes, failures, surprises. split; [lia|]. split; [lia|]. split; [lia|]. induction l as [|[[tc i] st] l IH]; [done|].
  rewrite !filter_cons. cbn [fst snd]. destruct (decide (st = 0)) as [->|Hst].
  - destruct (marked tc i) eqn:Hm.
    + rewrite decide_False, decide_False, decide_True by (intuition congruence). cbn [length]. lia.
    + rewrite decide_True, decide_False, decide_False by (intuition congruence). cbn [length]. lia.
  - rewrite decide_False, decide_True, decide_False by (intuition congruence). cbn [length]. lia.
Qed.

Lemma small_counted k n m l : small k (n + m) → (Z.of_nat (length l) ≤ n) → 0 ≤ m → small (counted k n l) m.
Proof. pose proof (tally_bounds l). unfold small, counted. cbn. lia. Qed.

(** [post] of the tests behaves. *)
Definition post_behaves (tc : usfstl_test) : Prop :=
  ∀ k i st data u, (post_of tc k i st data u).2 = Returns ∨ (post_of tc k i st data u).2 = Fails.

(** One round of the loop over the cases. *)
Lemma case_step jumps tc test i k s : idle s → post_behaves tc → 0 ≤ i → case_of tc i ≠ inl USFSTL_STATUS_OUT_OF_CASES → small k 1 →
  ∃ status s' sts evs, usfstl_execute_test tc test i (4 + jumps) (case_wanted i) s = Ok (status, s') ∧ idle s' ∧
    status ≠ USFSTL_STATUS_OUT_OF_CASES ∧ events s' = events s ++ evs ∧ statuses evs = sts ∧ length sts = length (planned tc i 1) ∧
    (if negb (case_wanted i) || (status =? USFSTL_STATUS_SKIPPED) then k else count_result tc (g_usfstl_current_testcase s') status k)
      = counted k 0 (zip (planned tc i 1) sts).
Proof.
  intros Hi Hp H0 Hc Hk. assert (counted k 0 [] = k) as Hk0 by (unfold counted; destruct k; cbn; by rewrite !Z.add_0_r).
  cbn [planned]. rewrite app_nil_r. destruct (case_of tc i) as [st|[data c]] eqn:Ec.
  - destruct (case_of_inl _ _ _ Ec) as [-> | ->]; [done|].
    destruct (execute_selects tc test i (4 + jumps) (case_wanted i) s _ Hi Ec) as (s' & E & Hev & Hd).
    eexists _, s', [], _. rewrite andb_false_r. split; [exact E|]. split; [done|]. do 2 (split; [done|]).
    split; [by destruct (case_wanted i)|]. split; [done|]. by rewrite orb_true_r.
  - rewrite andb_true_r. destruct (case_wanted i).
    + destruct (body_of tc test i data (restored (ustate s))) as [u e] eqn:Eb.
      destruct (execute_runs tc test i (Hp test i) jumps s data c u e Hi H0 Ec Eb) as (status & s' & evs & E & Hev & Hq & Hst & _ & Hd & Hcc).
      eexists status, s', [status], _. split; [exact E|]. split; [done|].
      assert (status ≠ USFSTL_STATUS_OUT_OF_CASES ∧ status ≠ USFSTL_STATUS_SKIPPED) as [H6 H7].
      { unfold run_status in Hst. split; intros ->; set_solver. }
      split; [done|]. split; [exact Hev|]. split; [by rewrite statuses_app, quiet_statuses, cleanup_statuses|]. split; [done|].
      replace (status =? USFSTL_STATUS_SKIPPED) with false by lia. cbn [negb orb zip_with]. rewrite Hcc. by eapply count_result_counted.
    + destruct (execute_lists tc test i (4 + jumps) s data c Hi Ec) as (s' & E & Hev & Hd & _).
      eexists _, s', [], []. split; [exact E|]. split; [done|]. do 3 (split; [by rewrite ?app_nil_r|]). split; done.
Qed.

Lemma cases_loop_run jumps tc test n : post_behaves tc → ∀ fuel i k s,
  (n < fuel)%nat → idle s → 0 ≤ i → i + Z.of_nat n < 2^31 → case_of tc (i + Z.of_nat n) = inl USFSTL_STATUS_OUT_OF_CASES →
  (∀ j, (j < n)%nat → case_of tc (i + Z.of_nat j) ≠ inl USFSTL_STATUS_OUT_OF_CASES) → small k (Z.of_nat n) →
  ∃ s' sts evs, cases_loop fuel (4 + jumps) tc test i k s = Ok ((i + Z.of_nat n, counted k (Z.of_nat n) (zip (planned tc i n) sts)), s') ∧
    idle s' ∧ events s' = events s ++ evs ∧ statuses evs = sts ∧ length sts = length (planned tc i n).
Proof.
  intros Hp. induction n as [|n IH]; intros fuel i k s Hf Hi H0 Hlt Hend Hin Hk; (destruct fuel as [|fuel]; [lia|]); cbn [cases_loop].
  - rewrite Z.add_0_r in *. destruct (execute_selects tc test i (4 + jumps) (case_wanted i) s _ Hi Hend) as (s' & E & Hev & Hd).
    exists s', [], (if case_wanted i then [RestoreGlobals] else []). rewrite (bind_ok _ _ _ _ _ E). rewrite Z.eqb_refl.
    split; [|split; [done|split; [done|split; [by destruct (case_wanted i)|done]]]].
    cbn. unfold counted, mret, M_ret. destruct k. cbn. by rewrite !Z.add_0_r.
  - destruct (case_step jumps tc test i k s Hi Hp H0) as (status & s1 & sts1 & evs1 & E1 & Hi1 & H6 & Hev1 & Hs1 & Hl1 & Hk1).
    { specialize (Hin O). rewrite Z.add_0_r in Hin. apply Hin. lia. }
    { unfold small in *. lia. }
    rewrite (bind_ok _ _ _ _ _ E1). replace (status =? USFSTL_STATUS_OUT_OF_CASES) with false by lia.
    erewrite bind_ok by reflexivity. cbn beta zeta. rewrite Hk1. set (k1 := counted k 0 _).
    rewrite bind_ok with (a := i + 1) (s1 := s1) by (apply int_arith_ok; lia).
    rewrite bind_ok with (a := ctr k1 + 1) (s1 := s1) by (apply int_arith_ok; unfold small in Hk; cbn; lia).
    assert (k1 <| ctr := ctr k1 + 1 |> = counted k 1 (zip (planned tc i 1) sts1)) as ->.
    { unfold k1, counted. cbn. by rewrite Z.add_0_r. }
    destruct (IH fuel (i + 1) (counted k 1 (zip (planned tc i 1) sts1)) s1) as (s2 & sts2 & evs2 & E2 & Hi2 & Hev2 & Hs2 & Hl2);
      [lia|done|lia|lia|by replace (i + 1 + Z.of_nat n) with (i + Z.of_nat (S n)) by lia| | |].
    { intros j Hj. replace (i + 1 + Z.of_nat j) with (i + Z.of_nat (S j)) by lia. apply Hin. lia. }
    { apply small_counted; [by replace (1 + Z.of_nat n) with (Z.of_nat (S n)) by lia| |lia].
      rewrite length_zip_with, Hl1, Nat.min_id. cbn. rewrite app_nil_r. by destruct (_ && _). }
    exists s2, (sts1 ++ sts2), (evs1 ++ evs2). rewrite E2. split.
    + do 3 f_equal; [lia|]. rewrite counted_counted. f_equal; [lia|]. rewrite <-zip_with_app by done. f_equal. cbn. by rewrite app_nil_r.
    + split; [done|]. split; [by rewrite Hev2, Hev1, app_assoc|]. split; [by rewrite statuses_app, Hs1, Hs2|].
      rewrite length_app, Hl1, Hl2. cbn. by rewrite app_nil_r, length_app.
Qed.

(** The numbers of cases. *)
Variable ncases : usfstl_test → nat.

(** All cases that are run, and the number of cases of the selected tests. *)
Fixpoint plan (tests : list (option usfstl_test)) (test : Z) : list (usfstl_test * Z) :=
  match tests with
  | [] => []
  | None :: tests => plan tests test
  | Some tc :: tests =>
      if negb (in_project tc) then plan tests test
      else (if test_selected tc (test + 1) then planned tc 0 (ncases tc) else []) ++ plan tests (test + 1)
  end.

Fixpoint selected_cases (tests : list (option usfstl_test)) (test : Z) : Z :=
  match tests with
  | [] => 0
  | None :: tests => selected_cases tests test
  | Some tc :: tests =>
      if negb (in_project tc) then selected_cases tests test
      else (if test_selected tc (test + 1) then Z.of_nat (ncases tc) else 0) + selected_cases tests (test + 1)
  end.

Definition totaled (m : totals) (n : Z) (l : list result) : totals :=
  mk_totals (m_ctr m + n) (if all_as_marked l then m_ret m else 1) (succeeded m + passes l) (failed m + failures l)
    (failing_succeeded m + surprises l).

Definition small_totals (m : totals) (n : Z) : Prop :=
  0 ≤ m_ctr m ∧ m_ctr m + n < 2^31 ∧ 0 ≤ succeeded m ∧ 0 ≤ failed m ∧ 0 ≤ failing_succeeded m ∧
  succeeded m + failed m + failing_succeeded m ≤ m_ctr m.

Lemma add_int_ok a b : 0 ≤ a → 0 ≤ b → a + b < 2^31 → add_int a b = a + b.
Proof. intros. unfold add_int, s32, u32. rewrite Z.mod_mod by lia. rewrite Z.mod_small by lia. by replace (a + b <? 2^31) with true by lia. Qed.

Lemma planned_length tc n : ∀ i, (length (planned tc i n) ≤ n)%nat.
Proof. induction n as [|n IH]; intros i; cbn; [lia|]. rewrite length_app. specialize (IH (i + 1)). destruct (_ && _); cbn; lia. Qed.

Lemma planned_listing tc n : g_usfstl_count opts = true ∨ g_usfstl_list_tests opts = true → ∀ i, planned tc i n = [].
Proof.
  intros Hl. induction n as [|n IH]; intros i; [done|]. cbn. rewrite IH. unfold case_wanted.
  destruct Hl as [-> | ->]; cbn; by rewrite ?andb_false_r.
Qed.

Lemma requirements_run tc reqs a b s : ∃ s' evs, write_requirements tc reqs a b s = Ok (tt, s') ∧ (idle s → idle s') ∧
  events s' = events s ++ evs ∧ statuses evs = [].
Proof.
  revert s. induction reqs as [|r reqs IH]; intros s; cbn [write_requirements].
  - exists s, []. by rewrite app_nil_r.
  - erewrite bind_ok by apply emit_upd. destruct (IH (upd s (ustate s) (g_usfstl_failure_reason s) (g_usfstl_test_aborted s)
      [Requirement (name tc) r a b])) as (s' & evs & E & Hi & Hev & Hs).
    exists s', ([Requirement (name tc) r a b] ++ evs). split; [exact E|]. split; [|split; [|by rewrite statuses_app, Hs]].
    + intros Hs0. apply Hi. exact Hs0.
    + rewrite Hev. cbn. by rewrite <-app_assoc.
Qed.

Lemma run_cases_run fuel jumps tc test m s : post_behaves tc → has_cases tc (ncases tc) → (ncases tc < fuel)%nat → idle s →
  small_totals m (Z.of_nat (ncases tc)) →
  ∃ s' sts evs, run_cases fuel (4 + jumps) tc test m s = Ok (totaled m (Z.of_nat (ncases tc)) (zip (planned tc 0 (ncases tc)) sts), s') ∧
    idle s' ∧ events s' = events s ++ evs ∧ statuses evs = sts ∧ length sts = length (planned tc 0 (ncases tc)).
Proof.
  intros Hp [Hend Hin] Hf Hi Hm. unfold small_totals in Hm.
  destruct (cases_loop_run jumps tc test (ncases tc) Hp fuel 0 (mk_counts (m_ctr m) (m_ret m) 0 0 0) s)
    as (s1 & sts & evs1 & E & Hi1 & Hev1 & Hs & Hl); [done|done|lia|lia|done|done|unfold small; cbn; lia|].
  unfold run_cases. rewrite (bind_ok _ _ _ _ _ E). cbn beta iota. set (l := zip _ sts) in *. pose proof (tally_bounds l) as Ht.
  assert (Z.of_nat (length l) ≤ Z.of_nat (ncases tc)) as Hll.
  { unfold l. rewrite length_zip_with. pose proof (planned_length tc (ncases tc) 0). lia. }
  destruct (g_usfstl_list_tests opts) eqn:El.
  - assert (l = []) as -> by (unfold l; by rewrite planned_listing by auto).
    set (ev := Listed _ _ _). erewrite bind_ok by apply emit_upd. eexists _, sts, (evs1 ++ [ev]). split; [|split].
    + rewrite (planned_listing tc (ncases tc)) by auto. unfold mret, M_ret, totaled, counted, passes, failures, surprises. cbn.
      by rewrite !Z.add_0_r.
    + exact Hi1.
    + cbn. rewrite Hev1, <-app_assoc. by rewrite statuses_app, app_nil_r.
  - erewrite bind_ok by apply emit_upd. destruct (requirements_run tc (requirements tc) (passes l) (failures l)
      (upd s1 (ustate s1) (g_usfstl_failure_reason s1) (g_usfstl_test_aborted s1) [SummaryLine (name tc) (passes l) (failures l)]))
      as (s2 & evs2 & E2 & Hi2 & Hev2 & Hs2).
    cbn [tc_succeeded tc_failed counted]. rewrite !Z.add_0_l. rewrite (bind_ok _ _ _ _ _ E2).
    exists s2, sts, (evs1 ++ [SummaryLine (name tc) (passes l) (failures l)] ++ evs2). split.
    + fold l. unfold mret, M_ret, totaled, counted. cbn. rewrite ?Z.add_0_l. by rewrite !add_int_ok by lia.
    + split; [apply Hi2, Hi1|]. split; [rewrite Hev2; cbn; by rewrite Hev1, <-!app_assoc|].
      rewrite !statuses_app, Hs2. cbn. by rewrite app_nil_r.
Qed.

Definition test_ok (fuel : nat) (t : option usfstl_test) : Prop :=
  match t with
  | Some tc => post_behaves tc ∧ has_cases tc (ncases tc) ∧ (ncases tc < fuel)%nat
  | None => True
  end.

Lemma selected_cases_nonneg tests : ∀ test, 0 ≤ selected_cases tests test.
Proof.
  induction tests as [|[tc|] tests IH]; intros test; cbn; [done| |done]. specialize (IH (test + 1)) as H1. specialize (IH test).
  destruct (negb _); [done|]. destruct (test_selected _ _); lia.
Qed.

Lemma plan_length tests : ∀ test, Z.of_nat (length (plan tests test)) ≤ selected_cases tests test.
Proof.
  induction tests as [|[tc|] tests IH]; intros test; cbn; [done| |done]. specialize (IH (test + 1)) as H1. specialize (IH test).
  destruct (negb _); [done|]. rewrite length_app. pose proof (planned_length tc (ncases tc) 0). destruct (test_selected _ _); cbn; lia.
Qed.

Lemma totaled_totaled m n l n' l' : totaled (totaled m n l) n' l' = totaled m (n + n') (l ++ l').
Proof.
  unfold totaled, all_as_marked, passes, failures, surprises. cbn. rewrite forallb_app, !filter_app, !length_app.
  f_equal; try lia. destruct (forallb _ l), (forallb _ l'); done.
Qed.

Lemma totaled_nil m : totaled m 0 [] = m.
Proof. unfold totaled, passes, failures, surprises. destruct m. cbn. by rewrite !Z.add_0_r. Qed.

Lemma tests_loop_run fuel jumps tests : Forall (test_ok fuel) tests → ∀ test prev m s, idle s → small_totals m (selected_cases tests test) →
  ∃ s' sts evs, tests_loop fuel (4 + jumps) tests test prev m s = Ok (totaled m (selected_cases tests test) (zip (plan tests test) sts), s') ∧
    idle s' ∧ events s' = events s ++ evs ∧ statuses evs = sts ∧ length sts = length (plan tests test).
Proof.
  induction 1 as [|[tc|] tests Htc _ IH]; intros test prev m s Hi Hm; cbn [tests_loop plan selected_cases].
  - exists s, [], []. rewrite app_nil_r. cbn. by rewrite totaled_nil.
  - destruct (in_project tc) eqn:Ep; cbn [negb]; [|apply IH; [done|]; cbn in Hm; by rewrite Ep in Hm]. cbn in Hm. rewrite Ep in Hm. cbn [negb] in Hm.
    destruct (test_selected tc (test + 1)); cbn [negb]; [|by apply IH]. destruct Htc as (Hp & Hcases & Hf).
    pose proof (selected_cases_nonneg tests (test + 1)) as Hnn. unfold small_totals in Hm.
    set (b := negb _). destruct (steps_when b (ProjectLine (projectname tc)) s) as [a Ea]. rewrite (bind_ok _ _ _ _ _ Ea). set (s1 := upd s _ _ a _).
    destruct (run_cases_run fuel jumps tc (test + 1) m s1) as (s2 & sts & evs & E & Hi2 & Hev & Hs & Hl);
      [done|done|done|exact Hi|unfold small_totals; lia|].
    rewrite (bind_ok _ _ _ _ _ E). set (l := zip (planned tc 0 (ncases tc)) sts) in *.
    assert (Z.of_nat (length l) ≤ Z.of_nat (ncases tc)) as Hll.
    { unfold l. rewrite length_zip_with. pose proof (planned_length tc (ncases tc) 0). lia. }
    destruct (IH (test + 1) (projectname tc) (totaled m (Z.of_nat (ncases tc)) l) s2) as (s3 & sts3 & evs3 & E3 & Hi3 & Hev3 & Hs3 & Hl3); [done| |].
    { pose proof (tally_bounds l). unfold small_totals, totaled. cbn. lia. }
    exists s3, (sts ++ sts3), ((if b then [ProjectLine (projectname tc)] else []) ++ evs ++ evs3). rewrite E3. split.
    + rewrite totaled_totaled. by rewrite zip_with_app.
    + split; [done|]. split; [rewrite Hev3, Hev; cbn; by rewrite <-!app_assoc|]. split; [|by rewrite !length_app, Hl, Hl3].
      rewrite !statuses_app, Hs, Hs3. by destruct b.
  - by apply IH.
Qed.

(** C9. The run of all tests is reported truthfully: [main] returns; every selected
    case is run once, in order; without --count and --list its exit status is 0
    exactly if every case did what it is marked to do (passed, or failed if it is
    marked as failing), and it prints the numbers of cases that were run, that
    failed and that passed unexpectedly.  Post functions only return or fail, tests
    have finitely many cases, and globals are restored between tests. *)
Theorem main_report fuel jumps tests s :
  Forall (test_ok fuel) tests → idle s → selected_cases tests (-1) < 2^31 →
  ∃ exit s' evs, main fuel (4 + jumps) tests s = Ok (exit, s') ∧ events s' = events s ++ evs ∧
    length (statuses evs) = length (plan tests (-1)) ∧
    let l := zip (plan tests (-1)) (statuses evs) in
    if g_usfstl_count opts then exit = 0 ∧ last evs = Some (Counted (selected_cases tests (-1)))
    else if g_usfstl_list_tests opts then exit = 0
    else
      (exit = 0 ∨ exit = 1) ∧
      (exit = 0 ↔ Forall (λ x, x.2 = USFSTL_STATUS_SUCCESS ↔ marked x.1.1 x.1.2 = false) l) ∧
      ∃ evs0, evs = evs0 ++ [MultiFinish; Ran (Z.of_nat (length l)) (failures l) (surprises l);
                             SummaryLine "TOTAL" (passes l) (failures l); FreeGlobals].
Proof.
  intros Ht Hi Hn. pose proof (selected_cases_nonneg tests (-1)) as H0.
  destruct (tests_loop_run fuel jumps tests Ht (-1) EmptyString (mk_totals 0 0 0 0 0) s Hi) as (s1 & sts & evs & E & Hi1 & Hev & Hs & Hl);
    [unfold small_totals; cbn; lia|].
  unfold main. rewrite (bind_ok _ _ _ _ _ E). set (l := zip (plan tests (-1)) sts) in *. cbn [m_ctr m_ret succeeded failed failing_succeeded totaled].
  rewrite !Z.add_0_l. destruct (g_usfstl_count opts); [|destruct (g_usfstl_list_tests opts)].
  - erewrite bind_ok by apply emit_upd. eexists _, _, (evs ++ [Counted (selected_cases tests (-1))]). split; [reflexivity|].
    cbn [events upd]. rewrite Hev, <-app_assoc. split; [done|]. rewrite statuses_app, Hs. cbn [statuses omap list_omap ended]. rewrite app_nil_r.
    split; [done|]. by rewrite last_snoc.
  - exists 0, s1, evs. by rewrite Hs.
  - erewrite bind_ok by apply emit_upd. pose proof (tally_bounds l) as Hb.
    assert (Z.of_nat (length l) ≤ selected_cases tests (-1)) as Hll.
    { unfold l. rewrite length_zip_with. pose proof (plan_length tests (-1)). lia. }
    rewrite bind_ok with (a := passes l + failures l) (s1 := upd s1 (ustate s1) (g_usfstl_failure_reason s1) (g_usfstl_test_aborted s1) [MultiFinish])
      by (apply int_arith_ok; lia).
    rewrite bind_ok with (a := passes l + failures l + surprises l)
      (s1 := upd s1 (ustate s1) (g_usfstl_failure_reason s1) (g_usfstl_test_aborted s1) [MultiFinish]) by (apply int_arith_ok; lia).
    do 3 (erewrite bind_ok by apply emit_upd). set (tail := [MultiFinish; Ran (passes l + failures l + surprises l) (failures l) (surprises l);
      SummaryLine "TOTAL" (passes l) (failures l); FreeGlobals]).
    eexists _, _, (evs ++ tail). split; [reflexivity|]. cbn [events upd]. rewrite <-!app_assoc, Hev, <-app_assoc. split; [reflexivity|].
    rewrite statuses_app, Hs. change (statuses tail) with (@nil Z). rewrite app_nil_r. fold l. split; [done|].
    split; [destruct (all_as_marked l); auto|]. split; [|exists evs; unfold tail; do 3 f_equal; f_equal; lia].
    unfold all_as_marked. split.
    + intros Hex. destruct (forallb _ l) eqn:Ef; [|done]. rewrite Forall_forall. intros x Hx.
      rewrite List.forallb_forall in Ef. specialize (Ef x (proj1 (list_elem_of_In _ _) Hx)). unfold as_marked in Ef. apply Bool.eqb_prop in Ef.
      destruct (Z.eqb_spec x.2 USFSTL_STATUS_SUCCESS), (marked x.1.1 x.1.2); naive_solver.
    + intros Hall. destruct (forallb _ l) eqn:Ef; [done|]. apply not_true_iff_false in Ef. destruct Ef. apply List.forallb_forall.
      intros x Hx%list_elem_of_In. rewrite Forall_forall in Hall. specialize (Hall x Hx). unfold as_marked.
      destruct (Z.eqb_spec x.2 USFSTL_STATUS_SUCCESS), (marked x.1.1 x.1.2); naive_solver.
Qed.
End testrun.

(** The globals are saved also when a single case is run or the cases are only
    counted: both conditions are evaluated before the command line is parsed. *)
Lemma init_always_saves {U C} (s : runner (U := U) (C := C)) parsed coverage :
  g_usfstl_list_tests parsed = false → g_usfstl_list_projnames parsed = false →
  ∃ s', usfstl_init coverage parsed 0 s = Ok ((0, parsed), s') ∧ SaveGlobals ∈ events s'.
Proof.
  intros H1 H2. unfold usfstl_init. cbn [Z.eqb negb]. rewrite H2, H1. destruct coverage; (eexists; split; [reflexivity|]); cbn; set_solver.
Qed.

(** ** Examples

    A test with a case that passes and one that is marked as failing and fails. *)
Definition example_test : usfstl_test (U := Z) (C := usfstl_testcase) :=
  mk_test (λ d u, match d with Some c => (u + 1, if tc_failing c then Fails else Returns) | None => (u, Returns) end) "t" "p"
    [mk_testcase None false false; mk_testcase (Some "r"%string) false true] None id false false false 30000
    None (Some (λ _ _ _ _ u, (u, Returns))) [] false.
Definition example_runner : runner (U := Z) (C := usfstl_testcase) := mk_runner 0 0 false None None None (-1) (-1) [].

Lemma execute_test_verdict_witness :
  ∃ status s' evs, usfstl_execute_test false false false false None (Some id) example_test 0 1 4 true example_runner = Ok (status, s') ∧
    events s' = evs ++ cleanup example_test status (Some (mk_testcase (Some "r"%string) false true)) ∧
    status ≠ USFSTL_STATUS_SUCCESS.
Proof.
  destruct (execute_test_verdict (U := Z) (C := usfstl_testcase) false false false false None (Some id) eq_refl ltac:(discriminate) example_test 0 1
    ltac:(intros st d u; left; cbn; by destruct (st =? _)) 0 example_runner (Some (mk_testcase (Some "r"%string) false true))
    (Some (mk_testcase (Some "r"%string) false true)) 1 Fails) as (status & s' & evs & E & Hev & _ & _ & Hiff & _).
  - done.
  - lia.
  - reflexivity.
  - reflexivity.
  - exists status, s', evs. split; [exact E|]. split; [exact Hev|]. intros H. by apply Hiff in H as [].
Defined.

Lemma main_report_witness :
  ∃ exit s' evs, main false false false false None (Some id) default_options 3 4 [None; Some example_test] example_runner = Ok (exit, s') ∧
    events s' = evs ∧ length (statuses evs) = 2%nat ∧ exit = 0.
Proof.
  destruct (main_report (U := Z) (C := usfstl_testcase) false false false false None (Some id) default_options eq_refl
    ltac:(discriminate) (λ _, 2%nat) 3 0 [None; Some example_test] example_runner) as (exit & s' & evs & E & Hev & Hlen & _).
  - apply Forall_cons. split; [done|]. apply Forall_cons. split; [|by apply Forall_nil]. split; [|split; [split; [done|]|lia]].
    + intros k i st d u. left. cbn. by destruct (st =? _).
    + intros i Hi. do 2 (destruct i as [|i]; [done|]). lia.
  - done.
  - done.
  - exists exit, s', evs. split; [exact E|]. split; [exact Hev|]. split; [exact Hlen|]. revert E. vm_compute. by intros [= <-].
Defined.
