(* ===== verification/ElfSum.v ===== *)
(** * Checksums of object files (src/dwarf/elf.c)

    [elf_crc32], the CRC of .gnu_debuglink, and the Adler-32 checksum at the end of
    a zlib stream.  Buffers are lists of bytes. *)
From S2P Require Import Prelude.

(** ** CRC-32 *)
Definition crc32_table : list Z :=
  [0x00000000; 0x77073096; 0xee0e612c; 0x990951ba; 0x076dc419; 0x706af48f; 0xe963a535; 0x9e6495a3;
   0x0edb8832; 0x79dcb8a4; 0xe0d5e91e; 0x97d2d988; 0x09b64c2b; 0x7eb17cbd; 0xe7b82d07; 0x90bf1d91;
   0x1db71064; 0x6ab020f2; 0xf3b97148; 0x84be41de; 0x1adad47d; 0x6ddde4eb; 0xf4d4b551; 0x83d385c7;
   0x136c9856; 0x646ba8c0; 0xfd62f97a; 0x8a65c9ec; 0x14015c4f; 0x63066cd9; 0xfa0f3d63; 0x8d080df5;
   0x3b6e20c8; 0x4c69105e; 0xd56041e4; 0xa2677172; 0x3c03e4d1; 0x4b04d447; 0xd20d85fd; 0xa50ab56b;
   0x35b5a8fa; 0x42b2986c; 0xdbbbc9d6; 0xacbcf940; 0x32d86ce3; 0x45df5c75; 0xdcd60dcf; 0xabd13d59;
   0x26d930ac; 0x51de003a; 0xc8d75180; 0xbfd06116; 0x21b4f4b5; 0x56b3c423; 0xcfba9599; 0xb8bda50f;
   0x2802b89e; 0x5f058808; 0xc60cd9b2; 0xb10be924; 0x2f6f7c87; 0x58684c11; 0xc1611dab; 0xb6662d3d;
   0x76dc4190; 0x01db7106; 0x98d220bc; 0xefd5102a; 0x71b18589; 0x06b6b51f; 0x9fbfe4a5; 0xe8b8d433;
   0x7807c9a2; 0x0f00f934; 0x9609a88e; 0xe10e9818; 0x7f6a0dbb; 0x086d3d2d; 0x91646c97; 0xe6635c01;
   0x6b6b51f4; 0x1c6c6162; 0x856530d8; 0xf262004e; 0x6c0695ed; 0x1b01a57b; 0x8208f4c1; 0xf50fc457;
   0x65b0d9c6; 0x12b7e950; 0x8bbeb8ea; 0xfcb9887c; 0x62dd1ddf; 0x15da2d49; 0x8cd37cf3; 0xfbd44c65;
   0x4db26158; 0x3ab551ce; 0xa3bc0074; 0xd4bb30e2; 0x4adfa541; 0x3dd895d7; 0xa4d1c46d; 0xd3d6f4fb;
   0x4369e96a; 0x346ed9fc; 0xad678846; 0xda60b8d0; 0x44042d73; 0x33031de5; 0xaa0a4c5f; 0xdd0d7cc9;
   0x5005713c; 0x270241aa; 0xbe0b1010; 0xc90c2086; 0x5768b525; 0x206f85b3; 0xb966d409; 0xce61e49f;
   0x5edef90e; 0x29d9c998; 0xb0d09822; 0xc7d7a8b4; 0x59b33d17; 0x2eb40d81; 0xb7bd5c3b; 0xc0ba6cad;
   0xedb88320; 0x9abfb3b6; 0x03b6e20c; 0x74b1d29a; 0xead54739; 0x9dd277af; 0x04db2615; 0x73dc1683;
   0xe3630b12; 0x94643b84; 0x0d6d6a3e; 0x7a6a5aa8; 0xe40ecf0b; 0x9309ff9d; 0x0a00ae27; 0x7d079eb1;
   0xf00f9344; 0x8708a3d2; 0x1e01f268; 0x6906c2fe; 0xf762575d; 0x806567cb; 0x196c3671; 0x6e6b06e7;
   0xfed41b76; 0x89d32be0; 0x10da7a5a; 0x67dd4acc; 0xf9b9df6f; 0x8ebeeff9; 0x17b7be43; 0x60b08ed5;
   0xd6d6a3e8; 0xa1d1937e; 0x38d8c2c4; 0x4fdff252; 0xd1bb67f1; 0xa6bc5767; 0x3fb506dd; 0x48b2364b;
   0xd80d2bda; 0xaf0a1b4c; 0x36034af6; 0x41047a60; 0xdf60efc3; 0xa867df55; 0x316e8eef; 0x4669be79;
   0xcb61b38c; 0xbc66831a; 0x256fd2a0; 0x5268e236; 0xcc0c7795; 0xbb0b4703; 0x220216b9; 0x5505262f;
   0xc5ba3bbe; 0xb2bd0b28; 0x2bb45a92; 0x5cb36a04; 0xc2d7ffa7; 0xb5d0cf31; 0x2cd99e8b; 0x5bdeae1d;
   0x9b64c2b0; 0xec63f226; 0x756aa39c; 0x026d930a; 0x9c0906a9; 0xeb0e363f; 0x72076785; 0x05005713;
   0x95bf4a82; 0xe2b87a14; 0x7bb12bae; 0x0cb61b38; 0x92d28e9b; 0xe5d5be0d; 0x7cdcefb7; 0x0bdbdf21;
   0x86d3d2d4; 0xf1d4e242; 0x68ddb3f8; 0x1fda836e; 0x81be16cd; 0xf6b9265b; 0x6fb077e1; 0x18b74777;
   0x88085ae6; 0xff0f6a70; 0x66063bca; 0x11010b5c; 0x8f659eff; 0xf862ae69; 0x616bffd3; 0x166ccf45;
   0xa00ae278; 0xd70dd2ee; 0x4e048354; 0x3903b3c2; 0xa7672661; 0xd06016f7; 0x4969474d; 0x3e6e77db;
   0xaed16a4a; 0xd9d65adc; 0x40df0b66; 0x37d83bf0; 0xa9bcae53; 0xdebb9ec5; 0x47b2cf7f; 0x30b5ffe9;
   0xbdbdf21c; 0xcabac28a; 0x53b39330; 0x24b4a3a6; 0xbad03605; 0xcdd70693; 0x54de5729; 0x23d967bf;
   0xb3667a2e; 0xc4614ab8; 0x5d681b02; 0x2a6f2b94; 0xb40bbe37; 0xc30c8ea1; 0x5a05df1b; 0x2d02ef8d].

(** The loop over [buf], and the result. *)
Definition crc_step (crc : Z) (b : Z) : M unit Z :=
  t ← array_get crc32_table (Z.land (Z.lxor crc b) 0xff); mret (Z.lxor t (Z.shiftr crc 8)).

Fixpoint crc_loop (crc : Z) (buf : list Z) : M unit Z :=
  match buf with
  | [] => mret crc
  | b :: buf => crc ← crc_step crc b; crc_loop crc buf
  end.

Definition elf_crc32 (crc : Z) (buf : list Z) : M unit Z :=
  crc ← crc_loop (u32 (Z.lnot crc)) buf; mret (u32 (Z.lnot crc)).

(** ** Adler-32 *)
(** [s1 = s1 + *p++; s2 = s2 + s1;], and that [n] times. *)
Definition sum_step (s : Z * Z) (b : Z) : Z * Z :=
  let s1 := u32 (s.1 + b) in (s1, u32 (s.2 + s1)).

Fixpoint sum_bytes (n : nat) (p : list Z) (s : Z * Z) : M unit (list Z * (Z * Z)) :=
  match n with
  | O => mret (p, s)
  | S n => match p with [] => fail OutOfBounds | b :: p => sum_bytes n p (sum_step s b) end
  end.

(** [while (hsz >= 5552)] *)
Fixpoint sum_blocks (fuel : nat) (hsz : Z) (p : list Z) (s : Z * Z) : M unit (Z * (list Z * (Z * Z))) :=
  match fuel with
  | O => fail OutOfFuel
  | S fuel =>
      if 5552 <=? hsz then
        '(p, s) ← sum_bytes (347 * 16) p s;
        sum_blocks fuel (hsz - 5552) p (s.1 mod 65521, s.2 mod 65521)
      else mret (hsz, (p, s))
  end.

(** [while (hsz >= 16)] *)
Fixpoint sum_sixteens (fuel : nat) (hsz : Z) (p : list Z) (s : Z * Z) : M unit (Z * (list Z * (Z * Z))) :=
  match fuel with
  | O => fail OutOfFuel
  | S fuel =>
      if 16 <=? hsz then
        '(p, s) ← sum_bytes 16 p s;
        sum_sixteens fuel (hsz - 16) p s
      else mret (hsz, (p, s))
  end.

(** [cksum], from four bytes. *)
Definition read_cksum (checkbytes : list Z) : Z :=
  foldl (λ cksum b, Z.lor (u32 (Z.shiftl cksum 8)) b) 0 (take 4 checkbytes).

Definition elf_zlib_verify_checksum (checkbytes uncompressed : list Z) : M unit Z :=
  if (length checkbytes <? 4)%nat then fail OutOfBounds
  else
    let cksum := read_cksum checkbytes in
    let size := length uncompressed in
    '(hsz, (p, s)) ← sum_blocks (S size) (Z.of_nat size) uncompressed (1, 0);
    '(hsz, (p, s)) ← sum_sixteens (S size) hsz p s;
    '(p, s) ← sum_bytes (Z.to_nat hsz) p s;
    let s1 := s.1 mod 65521 in
    let s2 := s.2 mod 65521 in
    mret (if negb (u32 (u32 (Z.shiftl s2 16) + s1) =? cksum) then 0 else 1).

(** ** The CRC bit by bit

    The remainder modulo the polynomial, bits in reverse order, as IEEE 802.3 has
    it. *)
Definition crc_bit (c : Z) : Z := Z.lxor (Z.shiftr c 1) (if Z.odd c then 0xEDB88320 else 0).
Fixpoint crc_bits (n : nat) (c : Z) : Z := match n with O => c | S n => crc_bits n (crc_bit c) end.
Definition crc_byte (c b : Z) : Z := crc_bits 8 (Z.lxor c b).
Definition crc32 (crc : Z) (buf : list Z) : Z :=
  Z.lxor (foldl crc_byte (Z.lxor crc 0xffffffff) buf) 0xffffffff.

Lemma crc_bit_lxor x y : crc_bit (Z.lxor x y) = Z.lxor (crc_bit x) (crc_bit y).
Proof.
  unfold crc_bit. rewrite Z.shiftr_lxor. assert (Z.odd (Z.lxor x y) = xorb (Z.odd x) (Z.odd y)) as ->.
  { rewrite <-!Z.bit0_odd. apply Z.lxor_spec. }
  set (k := 0xEDB88320). rewrite !Z.lxor_assoc. f_equal. destruct (Z.odd x), (Z.odd y); cbn [xorb].
  - rewrite Z.lxor_comm, <-!Z.lxor_assoc. rewrite (Z.lxor_comm k), (Z.lxor_assoc _ k k), Z.lxor_nilpotent. by rewrite Z.lxor_0_r, Z.lxor_0_l.
  - rewrite Z.lxor_0_r. by rewrite Z.lxor_comm.
  - by rewrite Z.lxor_0_l.
  - by rewrite !Z.lxor_0_r, Z.lxor_0_l.
Qed.

Lemma crc_bits_lxor n x y : crc_bits n (Z.lxor x y) = Z.lxor (crc_bits n x) (crc_bits n y).
Proof. revert x y. induction n as [|n IH]; intros x y; [done|]. cbn. by rewrite crc_bit_lxor, IH. Qed.

Lemma crc_bits_high n h : crc_bits n (Z.shiftl h (Z.of_nat n)) = h.
Proof.
  revert h. induction n as [|n IH]; intros h; [by rewrite Z.shiftl_0_r|].
  cbn [crc_bits]. rewrite <-(IH h) at 2. f_equal. unfold crc_bit.
  replace (Z.of_nat (S n)) with (Z.of_nat n + 1) by lia. rewrite <-Z.shiftl_shiftl by lia.
  rewrite Z.shiftl_mul_pow2 with (n := 1) by lia. change (2^1) with 2. rewrite Z.mul_comm, Z.odd_mul. cbn [Z.odd andb]. rewrite Z.lxor_0_r.
  rewrite Z.shiftr_div_pow2 by lia. change (2^1) with 2. rewrite Z.mul_comm. by rewrite Z.div_mul.
Qed.

Lemma crc_table_ok : forallb (λ i, bool_decide (crc32_table !! i = Some (crc_bits 8 (Z.of_nat i)))) (seq 0 256) = true.
Proof. by vm_compute. Qed.

Lemma crc_step_run c b s : 0 ≤ c < 2^32 → 0 ≤ b < 256 → crc_step c b s = Ok (crc_byte c b, s).
Proof.
  intros Hc Hb. unfold crc_step. set (i := Z.land (Z.lxor c b) 0xff).
  assert (0 ≤ i < 256) as Hi by (unfold i; change 0xff with (Z.ones 8); rewrite Z.land_ones by lia; lia).
  assert (array_get crc32_table i s = Ok (crc_bits 8 i, s)) as E.
  { unfold array_get. replace (i <? 0) with false by lia.
    pose proof (proj1 (List.forallb_forall _ _) crc_table_ok (Z.to_nat i) ltac:(apply in_seq; lia)) as H.
    apply bool_decide_eq_true in H. rewrite H. by rewrite Z2Nat.id by lia. }
  rewrite (bind_ok _ _ _ _ _ E). unfold crc_byte, mret, M_ret. do 2 f_equal.
  set (x := Z.lxor c b) in *. assert (x = Z.lxor i (Z.shiftl (Z.shiftr c 8) 8)) as Hx.
  { apply Z.bits_inj'. intros n Hn. unfold i, x. rewrite !Z.lxor_spec, Z.land_spec, Z.lxor_spec.
    change 0xff with (Z.ones 8). destruct (Z.lt_ge_cases n 8).
    - rewrite Z.ones_spec_low, Z.shiftl_spec_low by lia. by rewrite andb_true_r, xorb_false_r.
    - rewrite Z.ones_spec_high, Z.shiftl_spec, Z.shiftr_spec by lia. rewrite andb_false_r, xorb_false_l.
      assert (Z.testbit b n = false) as -> by (apply Z.bits_above_log2; [lia|]; destruct (decide (b = 0)) as [->|]; [cbn; lia|];
        enough (Z.log2 b < 8) by lia; apply Z.log2_lt_pow2; lia).
      rewrite xorb_false_r. f_equal. lia. }
  rewrite Hx at 1. rewrite crc_bits_lxor. f_equal. change 8 with (Z.of_nat 8) at 2. by rewrite crc_bits_high.
Qed.

Lemma lxor_range n x y : 0 ≤ n → 0 ≤ x < 2^n → 0 ≤ y < 2^n → 0 ≤ Z.lxor x y < 2^n.
Proof.
  intros Hn Hx Hy. assert (Z.lxor x y = Z.lxor x y mod 2^n) as ->; [|apply Z.mod_pos_bound; lia].
  apply Z.bits_inj'. intros k Hk. rewrite <-Z.land_ones, Z.land_spec by lia. destruct (Z.lt_ge_cases k n).
  - by rewrite Z.ones_spec_low, andb_true_r by lia.
  - rewrite Z.ones_spec_high, andb_false_r, Z.lxor_spec by lia.
    assert (∀ z, 0 ≤ z < 2^n → Z.testbit z k = false) as Hz.
    { intros z Hz. rewrite <-(Z.mod_small z (2^n)) by lia. by rewrite Z.mod_pow2_bits_high by lia. }
    by rewrite !Hz by lia.
Qed.

Lemma crc_byte_range c b : 0 ≤ c < 2^32 → 0 ≤ b < 256 → 0 ≤ crc_byte c b < 2^32.
Proof.
  intros Hc Hb. unfold crc_byte. assert (0 ≤ Z.lxor c b < 2^32) as Hx by (apply lxor_range; lia). revert Hx. generalize (Z.lxor c b). generalize 8%nat.
  intros n. induction n as [|n IH]; intros x Hx; [done|]. cbn. apply IH, lxor_range; [lia| |destruct (Z.odd x); lia].
  rewrite Z.shiftr_div_pow2 by lia. lia.
Qed.

Lemma lnot_lxor c : 0 ≤ c < 2^32 → u32 (Z.lnot c) = Z.lxor c 0xffffffff.
Proof.
  intros Hc. unfold u32. rewrite <-Z.land_ones by lia. change 0xffffffff with (Z.ones 32). apply Z.bits_inj'. intros k Hk.
  rewrite Z.land_spec, Z.lnot_spec, Z.lxor_spec by lia. destruct (Z.lt_ge_cases k 32).
  - rewrite Z.ones_spec_low by lia. by destruct (Z.testbit c k).
  - rewrite Z.ones_spec_high by lia. rewrite <-(Z.mod_small c (2^32)) by lia. by rewrite Z.mod_pow2_bits_high by lia.
Qed.

Lemma crc_loop_run buf : Forall (λ b, 0 ≤ b < 256) buf → ∀ c s, 0 ≤ c < 2^32 →
  crc_loop c buf s = Ok (foldl crc_byte c buf, s) ∧ 0 ≤ foldl crc_byte c buf < 2^32.
Proof.
  induction 1 as [|b buf Hb _ IH]; intros c s Hc; [done|]. cbn [crc_loop foldl]. rewrite (bind_ok _ _ _ _ _ (crc_step_run c b s Hc Hb)).
  apply IH. by apply crc_byte_range.
Qed.

(** C21. The table of [elf_crc32] is right: the checksum is the CRC-32 computed bit by
    bit, for any bytes and any start; no entry outside of the table is read. *)
Theorem crc32_correct crc buf s : 0 ≤ crc < 2^32 → Forall (λ b, 0 ≤ b < 256) buf → elf_crc32 crc buf s = Ok (crc32 crc buf, s).
Proof.
  intros Hc Hb. unfold elf_crc32, crc32. rewrite lnot_lxor by done.
  destruct (crc_loop_run buf Hb (Z.lxor crc 0xffffffff) s) as [E Hr]; [by apply lxor_range|].
  rewrite (bind_ok _ _ _ _ _ E). unfold mret, M_ret. by rewrite lnot_lxor.
Qed.

Lemma crc32_correct_witness : elf_crc32 0 [49; 50; 51; 52; 53; 54; 55; 56; 57] tt = Ok (0xcbf43926, tt).
Proof. etransitivity; [apply crc32_correct; [lia|by repeat constructor]|by vm_compute]. Defined.

(** ** Adler-32 as RFC 1950 defines it *)
Definition adler_step (ab : Z * Z) (x : Z) : Z * Z :=
  let a := (ab.1 + x) mod 65521 in (a, (ab.2 + a) mod 65521).
Definition adler32 (data : list Z) : Z :=
  let ab := foldl adler_step (1, 0) data in ab.2 * 65536 + ab.1.

(** The sums after [m] bytes since they were reduced, and what they stand for. *)
Definition sums (m : Z) (s ab : Z * Z) : Prop :=
  0 ≤ s.1 ≤ 65520 + 255 * m ∧ 0 ≤ s.2 ∧ 2 * s.2 ≤ 2 * 65520 + 2 * 65520 * m + 255 * m * (m + 1) ∧
  s.1 mod 65521 = ab.1 ∧ s.2 mod 65521 = ab.2.

Lemma sums_step m s ab x : 0 ≤ m < 5552 → 0 ≤ x < 256 → sums m s ab → sums (m + 1) (sum_step s x) (adler_step ab x).
Proof.
  destruct s as [s1 s2], ab as [a b]. intros Hm Hx (H1 & H2 & H3 & Ha & Hb). cbn in *. subst a b. unfold sums, sum_step, adler_step. cbn [fst snd].
  assert (u32 (s1 + x) = s1 + x) as -> by (unfold u32; rewrite Z.mod_small; lia).
  assert (255 * m * (m + 1) ≤ 255 * 5551 * 5552) by nia.
  assert (u32 (s2 + (s1 + x)) = s2 + (s1 + x)) as -> by (unfold u32; rewrite Z.mod_small; lia).
  split; [lia|]. split; [lia|]. split; [nia|]. split; [by rewrite Zplus_mod_idemp_l|].
  rewrite Zplus_mod_idemp_l, Zplus_mod_idemp_r. replace (s2 + (s1 mod 65521 + x)) with (s1 mod 65521 + (s2 + x)) by lia.
  rewrite Zplus_mod_idemp_l. f_equal. lia.
Qed.

Lemma sum_bytes_run l rest s : Forall (λ b, 0 ≤ b < 256) l → ∀ m sm ab, 0 ≤ m → m + Z.of_nat (length l) ≤ 5552 → sums m sm ab →
  ∃ sm', sum_bytes (length l) (l ++ rest) sm s = Ok ((rest, sm'), s) ∧ sums (m + Z.of_nat (length l)) sm' (foldl adler_step ab l).
Proof.
  induction 1 as [|x l Hx _ IH]; intros m sm ab Hm Hl Hs; cbn [length sum_bytes app foldl].
  - exists sm. by rewrite Z.add_0_r.
  - cbn in Hl. destruct (IH (m + 1) (sum_step sm x) (adler_step ab x)) as (sm' & E & Hs'); [lia|lia|by apply sums_step; [lia|..]|].
    exists sm'. split; [done|]. by replace (m + Z.of_nat (S (length l))) with (m + 1 + Z.of_nat (length l)) by lia.
Qed.

Lemma sums_reduced s ab m : sums m s ab → sums 0 (s.1 mod 65521, s.2 mod 65521) ab.
Proof.
  intros (H1 & H2 & H3 & Ha & Hb). unfold sums. cbn. pose proof (Z.mod_pos_bound s.1 65521 ltac:(lia)).
  pose proof (Z.mod_pos_bound s.2 65521 ltac:(lia)). split; [lia|]. split; [lia|]. split; [lia|]. by rewrite !Zmod_mod.
Qed.

Lemma split_at (n : nat) (p : list Z) : (n ≤ length p)%nat → ∃ l rest, p = l ++ rest ∧ length l = n.
Proof. intros. exists (take n p), (drop n p). rewrite take_drop, length_take. split; [done|lia]. Qed.

Lemma sum_blocks_run fuel : ∀ p s sm ab, (length p < fuel)%nat → Forall (λ b, 0 ≤ b < 256) p → sums 0 sm ab →
  ∃ rest sm' ab', sum_blocks fuel (Z.of_nat (length p)) p sm s = Ok ((Z.of_nat (length rest), (rest, sm')), s) ∧
    Z.of_nat (length rest) < 5552 ∧ (length rest ≤ length p)%nat ∧ sums 0 sm' ab' ∧ foldl adler_step ab p = foldl adler_step ab' rest ∧
    Forall (λ b, 0 ≤ b < 256) rest.
Proof.
  induction fuel as [|fuel IH]; intros p s sm ab Hf Hp Hs; [lia|]. cbn [sum_blocks]. destruct (Z.leb_spec 5552 (Z.of_nat (length p))) as [Hlen|Hlen].
  - assert (Z.of_nat (347 * 16) = 5552) as Hn by done. set (n := (347 * 16)%nat) in *. clearbody n.
    destruct (split_at n p) as (l & rest & -> & Hl); [lia|]. apply Forall_app in Hp as [Hp1 Hp2]. rewrite length_app in *.
    destruct (sum_bytes_run l rest s Hp1 0 sm ab) as (sm1 & E1 & Hs1); [lia|lia|done|]. rewrite Hl in E1. rewrite (bind_ok _ _ _ _ _ E1).
    replace (Z.of_nat (length l + length rest) - 5552) with (Z.of_nat (length rest)) by lia.
    destruct (IH rest s (sm1.1 mod 65521, sm1.2 mod 65521) (foldl adler_step ab l)) as (rest' & sm' & ab' & E & H0 & H1 & H2 & H3 & H4);
      [lia|done|by eapply sums_reduced|].
    exists rest', sm', ab'. rewrite foldl_app. repeat (split; [done || lia|]). done.
  - exists p, sm, ab. done.
Qed.

Lemma sum_sixteens_run fuel : ∀ p s m sm ab, (length p < fuel)%nat → Forall (λ b, 0 ≤ b < 256) p → 0 ≤ m → m + Z.of_nat (length p) ≤ 5552 → sums m sm ab →
  ∃ rest m' sm' ab', sum_sixteens fuel (Z.of_nat (length p)) p sm s = Ok ((Z.of_nat (length rest), (rest, sm')), s) ∧
    0 ≤ m' ∧ m' + Z.of_nat (length rest) ≤ 5552 ∧ sums m' sm' ab' ∧ foldl adler_step ab p = foldl adler_step ab' rest ∧ Forall (λ b, 0 ≤ b < 256) rest.
Proof.
  induction fuel as [|fuel IH]; intros p s m sm ab Hf Hp Hm Hb Hs; [lia|]. cbn [sum_sixteens].
  destruct (Z.leb_spec 16 (Z.of_nat (length p))) as [Hlen|Hlen]; [|by exists p, m, sm, ab].
  destruct (split_at 16 p) as (l & rest & -> & Hl); [lia|]. apply Forall_app in Hp as [Hp1 Hp2]. rewrite length_app in *.
  destruct (sum_bytes_run l rest s Hp1 m sm ab) as (sm1 & E1 & Hs1); [lia|lia|done|]. rewrite Hl in E1. rewrite (bind_ok _ _ _ _ _ E1).
  replace (Z.of_nat (length l + length rest) - 16) with (Z.of_nat (length rest)) by lia.
  destruct (IH rest s (m + Z.of_nat (length l)) sm1 (foldl adler_step ab l)) as (rest' & m' & sm' & ab' & E & H0 & H1 & H2 & H3 & H4);
    [lia|done|lia|lia|done|].
  exists rest', m', sm', ab'. rewrite foldl_app. done.
Qed.

(** The four bytes as a number, the first the most significant. *)
Definition be32 (b : list Z) : Z := match b with [b0; b1; b2; b3] => b0 * 2^24 + b1 * 2^16 + b2 * 2^8 + b3 | _ => 0 end.

Lemma read_cksum_be32 b0 b1 b2 b3 : Forall (λ b, 0 ≤ b < 256) [b0; b1; b2; b3] → read_cksum [b0; b1; b2; b3] = be32 [b0; b1; b2; b3].
Proof.
  rewrite !Forall_cons. intros (H0 & H1 & H2 & H3 & _). unfold read_cksum, be32. cbn [take foldl].
  assert (∀ c n b, 0 ≤ n ≤ 24 → 0 ≤ c < 2^n → 0 ≤ b < 256 → Z.lor (u32 (Z.shiftl c 8)) b = c * 256 + b) as H.
  { intros c n b Hn Hc Hb. rewrite Z.shiftl_mul_pow2 by lia. change (2^8) with 256. assert (2^n ≤ 2^24) by (apply Z.pow_le_mono_r; lia).
    unfold u32. rewrite Z.mod_small by lia. rewrite <-Z.add_lor_land.
    assert (Z.land (c * 256) b = 0) as ->; [|lia]. apply Z.bits_inj'. intros k Hk. rewrite Z.land_spec, Z.bits_0.
    change 256 with (2^8). rewrite <-Z.shiftl_mul_pow2 by lia. destruct (Z.lt_ge_cases k 8); [by rewrite Z.shiftl_spec_low by lia|].
    rewrite <-(Z.mod_small b (2^8)) by lia. rewrite Z.mod_pow2_bits_high by lia. apply andb_false_r. }
  rewrite (H 0 0 b0), (H _ 8 b1), (H _ 16 b2), (H _ 24 b3) by lia. lia.
Qed.

(** C20. The checksum at the end of a zlib stream is verified exactly: 1 is returned if
    and only if the four bytes are the Adler-32 checksum of the data.  Reducing the
    sums only every 5552 bytes never overflows 32 bits, and exactly the data are
    read. *)
Theorem verify_checksum_correct check data s : Forall (λ b, 0 ≤ b < 256) check → length check = 4%nat → Forall (λ b, 0 ≤ b < 256) data →
  elf_zlib_verify_checksum check data s = Ok (if be32 check =? adler32 data then 1 else 0, s).
Proof.
  intros Hc Hl Hd. destruct check as [|b0 [|b1 [|b2 [|b3 [|]]]]]; try done. unfold elf_zlib_verify_checksum. cbn [length Nat.ltb Nat.leb].
  rewrite read_cksum_be32 by done. set (ck := be32 _). set (n := length data).
  destruct (sum_blocks_run (S n) data s (1, 0) (1, 0)) as (r1 & s1 & ab1 & E1 & H1 & Hn & Hs1 & Hf1 & Hr1); [lia|done|unfold sums; cbn; lia|].
  rewrite (bind_ok _ _ _ _ _ E1). cbn beta iota.
  destruct (sum_sixteens_run (S n) r1 s 0 s1 ab1) as (r2 & m2 & s2 & ab2 & E2 & Hm2 & H2 & Hs2 & Hf2 & Hr2); [lia|done|lia|lia|done|].
  rewrite (bind_ok _ _ _ _ _ E2). cbn beta iota.
  destruct (sum_bytes_run r2 [] s Hr2 m2 s2 ab2) as (s3 & E3 & Hs3); [done|done|done|]. rewrite app_nil_r in E3.
  rewrite Nat2Z.id, (bind_ok _ _ _ _ _ E3). cbn beta iota zeta. unfold adler32. rewrite Hf1, Hf2.
  destruct Hs3 as (_ & _ & _ & Ha & Hb). rewrite Ha, Hb. set (ab := foldl adler_step ab2 r2) in *.
  pose proof (Z.mod_pos_bound s3.1 65521 ltac:(lia)). pose proof (Z.mod_pos_bound s3.2 65521 ltac:(lia)).
  rewrite Z.shiftl_mul_pow2 by lia. unfold u32. rewrite (Z.mod_small (ab.2 * 2^16)) by lia. rewrite Z.mod_small by lia.
  unfold mret, M_ret. rewrite (Z.eqb_sym ck). by destruct (_ =? _).
Qed.

Lemma verify_checksum_correct_witness : elf_zlib_verify_checksum [0x11; 0xe6; 0x03; 0x98] [87; 105; 107; 105; 112; 101; 100; 105; 97] tt = Ok (1, tt).
Proof. etransitivity; [apply verify_checksum_correct; [by repeat constructor|done|by repeat constructor]|by vm_compute]. Defined.
