(* ===== verification/ElfHuff.v ===== *)
(** * Huffman tables of the inflater (src/dwarf/elf.c)

    [elf_zlib_inflate_table] builds the table with which [elf_zlib_inflate] decodes
    symbols: a primary table for the next 8 bits, with secondary tables behind it
    for longer codes.  A function that returns 0 for an error gives [None]. *)
From S2P Require Import Prelude.

(** [m], and what follows if it does not return 0. *)
Definition try {S A B : Type} (m : M S (option A)) (k : A → M S (option B)) : M S (option B) :=
  r ← m; match r with Some a => k a | None => mret None end.
Notation "x ←? m ; k" := (try m (λ x, k)) (at level 20, m at level 100, k at level 200, right associativity).

Lemma try_ok {S A B} (m : M S (option A)) (k : A → M S (option B)) s a s1 : m s = Ok (Some a, s1) → try m k s = k a s1.
Proof. intros E. unfold try. by rewrite (bind_ok _ _ _ _ _ E). Qed.

(** [l[i] = v], inside the bounds of the array. *)
Definition array_set {S A : Type} (l : list A) (i : Z) (v : A) : M S (list A) := array_upd l i (λ _, v).

(** A local variable that must have been set. *)
Definition initialized {S A : Type} (o : option A) : M S A := match o with Some a => mret a | None => fail Uninitialized end.

Definition ZLIB_HUFFMAN_TABLE_SIZE : Z := 1024.
Definition ZLIB_HUFFMAN_VALUE_MASK : Z := 0x01ff.
Definition ZLIB_HUFFMAN_BITS_SHIFT : Z := 9.
Definition ZLIB_HUFFMAN_BITS_MASK : Z := 0x7.
Definition ZLIB_HUFFMAN_SECONDARY_SHIFT : Z := 12.

Section inflate_table.
Context {S : Type}.

(** The arrays of the first loop. *)
Record tally := mk_tally { count : list Z; start : list (option Z); prev : list (option Z); next : list Z }.
#[export] Instance tally_eta : Settable tally := λ t, mk_tally (count t) (start t) (prev t) (next t).

Definition tally_code (c i : Z) (t : tally) : M S tally :=
  n ← array_get (count t) c;
  t ← (if n =? 0 then
         st ← array_set (start t) c (Some (u16 i));
         mret (t <| start := st |>)
       else
         p ← array_get (prev t) c;
         p ← initialized p;
         nx ← array_set (next t) p (u16 i);
         mret (t <| next := nx |>));
  pr ← array_set (prev t) c (Some (u16 i));
  cn ← array_set (count t) c (u16 (n + 1));
  mret ((t <| prev := pr |>) <| count := cn |>).

Fixpoint count_codes (codes : list Z) (i : Z) (t : tally) : M S (option tally) :=
  match codes with
  | [] => mret (Some t)
  | c :: codes => if 16 <=? c then mret None else t ← tally_code c i t; count_codes codes (i + 1) t
  end.

(** [while ((code & incr) != 0) incr >>= 1]: [incr] is 0 after at most 16 rounds. *)
Fixpoint next_incr (n : nat) (code incr : Z) : Z :=
  match n with
  | O => incr
  | Datatypes.S n => if negb (Z.land code incr =? 0) then next_incr n code (Z.shiftr incr 1) else incr
  end.

(** [code] incremented in reverse order, as a number of [j] bits. *)
Definition next_code (j code : Z) : Z :=
  let incr := next_incr 16 code (Z.shiftl 1 (j - 1)) in
  if incr =? 0 then 0 else Z.land code (incr - 1) + incr.

(** [for (; ind < limit; ind += step)] with [table[base + ind]] set to [tval]. *)
Fixpoint fill (fuel : nat) (table : list Z) (base ind limit step tval : Z) : M S (option (list Z)) :=
  if limit <=? ind then mret (Some table)
  else match fuel with
  | O => fail OutOfFuel
  | Datatypes.S fuel =>
      v ← array_get table (base + ind);
      if negb (v =? 0) then mret None
      else table ← array_set table (base + ind) tval; fill fuel table base (ind + step) limit step tval
  end.

(** [if (i + 1 < jcnt) val = next[val]], with [n] the rounds that follow. *)
Definition next_val (n : nat) (next : list Z) (val : Z) : M S Z := if (n =? 0)%nat then mret val else array_get next val.

(** The [n] codes of length [j] up to 8, from [val] and [code]; the next code. *)
Fixpoint short_codes (n : nat) (j : Z) (next : list Z) (val code : Z) (table : list Z) : M S (option (Z * list Z)) :=
  match n with
  | O => mret (Some (code, table))
  | Datatypes.S n =>
      if negb (Z.ldiff val ZLIB_HUFFMAN_VALUE_MASK =? 0) then mret None
      else
        let tval := Z.lor val (Z.shiftl (j - 1) ZLIB_HUFFMAN_BITS_SHIFT) in
        table ←? fill 256 table 0 code 0x100 (Z.shiftl 1 j) tval;
        val ← next_val n next val;
        short_codes n j next val (next_code j code) table
  end.

Fixpoint short_lengths (js : list Z) (t : tally) (code : Z) (table : list Z) : M S (option (Z * list Z)) :=
  match js with
  | [] => mret (Some (code, table))
  | j :: js =>
      jcnt ← array_get (count t) j;
      if jcnt =? 0 then short_lengths js t code table
      else if Z.shiftl 1 j <? jcnt then mret None
      else
        val ← array_get (start t) j;
        val ← initialized val;
        r ←? short_codes (Z.to_nat jcnt) j (next t) val code table;
        short_lengths js t r.1 r.2
  end.

(** The loop over [m]: one bit of the count is added. *)
Fixpoint add_bit (n : nat) (code bit : Z) : Z :=
  match n with
  | O => code
  | Datatypes.S n => if Z.land code bit =? 0 then code + bit else add_bit n (Z.ldiff code bit) (Z.shiftr bit 1)
  end.

(** The loop over [k]; [code] and what is left of [jcnt]. *)
Fixpoint add_count (ks : list Z) (j code jcnt : Z) : Z * Z :=
  match ks with
  | [] => (code, jcnt)
  | k :: ks =>
      if negb (Z.land jcnt (Z.shiftl 1 k) =? 0) then
        add_count ks j (add_bit (Z.to_nat (j - k)) code (Z.shiftl 1 (j - k - 1))) (Z.ldiff jcnt (Z.shiftl 1 k))
      else add_count ks j code jcnt
  end.

(** The first codes of lengths 9 to 15. *)
Fixpoint first_codes (js : list Z) (t : tally) (code : Z) (firstcode : list (option Z)) : M S (option (list (option Z))) :=
  match js with
  | [] => mret (Some firstcode)
  | j :: js =>
      jcnt ← array_get (count t) j;
      if jcnt =? 0 then first_codes js t code firstcode
      else
        firstcode ← array_set firstcode (j - 9) (Some (u16 code));
        let '(code, jcnt) := add_count (seqZ 0 j) j code jcnt in
        if negb (jcnt =? 0) then mret None else first_codes js t code firstcode
  end.

(** [primary], [secondary], [secondary_bits], and [next_secondary]. *)
Record secondary_state := mk_secondary { primary : Z; secondary : Z; secondary_bits : Z; next_secondary : Z }.

(** The entry of the primary table for [code]. *)
Definition enter_primary (j code : Z) (p : secondary_state) (table : list Z) : M S (option (secondary_state * list Z)) :=
  if Z.land code 0xff =? primary p then mret (Some (p, table))
  else
    let primary := Z.land code 0xff in
    tprimary ← array_get table primary;
    if tprimary =? 0 then
      if negb (Z.land (next_secondary p) ZLIB_HUFFMAN_VALUE_MASK =? next_secondary p) then mret None
      else
        let secondary := next_secondary p in
        table ← array_set table primary
          (u16 (secondary + Z.shiftl (j - 8) ZLIB_HUFFMAN_BITS_SHIFT + Z.shiftl 1 ZLIB_HUFFMAN_SECONDARY_SHIFT));
        mret (Some (mk_secondary primary secondary (j - 8) (next_secondary p + Z.shiftl 1 (j - 8)), table))
    else if Z.land tprimary (Z.shiftl 1 ZLIB_HUFFMAN_SECONDARY_SHIFT) =? 0 then mret None
    else
      let secondary := Z.land tprimary ZLIB_HUFFMAN_VALUE_MASK in
      let secondary_bits := Z.land (Z.shiftr tprimary ZLIB_HUFFMAN_BITS_SHIFT) ZLIB_HUFFMAN_BITS_MASK in
      if secondary_bits <? j - 8 then mret None
      else mret (Some (mk_secondary primary secondary secondary_bits (next_secondary p), table)).

(** The [n] codes of length [j] from 9 on; [next_secondary] and the table. *)
Fixpoint long_codes (n : nat) (j : Z) (next : list Z) (val code : Z) (p : secondary_state) (table : list Z) : M S (option (Z * list Z)) :=
  match n with
  | O => mret (Some (next_secondary p, table))
  | Datatypes.S n =>
      r ←? enter_primary j code p table;
      let '(p, table) := r in
      let tval := u16 (Z.lor val (Z.shiftl (j - 8) ZLIB_HUFFMAN_BITS_SHIFT)) in
      table ←? fill 128 table (secondary p + 0x100) (Z.shiftr code 8) (Z.shiftl 1 (secondary_bits p)) (Z.shiftl 1 (j - 8)) tval;
      val ← next_val n next val;
      long_codes n j next val (next_code j code) p table
  end.

Fixpoint long_lengths (js : list Z) (t : tally) (firstcode : list (option Z)) (next_secondary : Z) (table : list Z) : M S (option (list Z)) :=
  match js with
  | [] => mret (Some table)
  | j :: js =>
      jcnt ← array_get (count t) j;
      if jcnt =? 0 then long_lengths js t firstcode next_secondary table
      else
        val ← array_get (start t) j;
        val ← initialized val;
        code ← array_get firstcode (j - 9);
        code ← initialized code;
        r ←? long_codes (Z.to_nat jcnt) j (next t) val code (mk_secondary 0x100 0 0 next_secondary) table;
        long_lengths js t firstcode r.1 r.2
  end.

(** The table and the array [next] in the work space, whose contents do not matter
    before. *)
Definition elf_zlib_inflate_table (codes : list Z) (work : list Z) : M S (option (list Z * list Z)) :=
  t ←? count_codes codes 0 (mk_tally (replicate 16 0) (replicate 16 None) (replicate 16 None) work);
  r ←? short_lengths (seqZ 1 8) t 0 (replicate 1024 0);
  firstcode ←? first_codes (seqZ 9 7) t r.1 (replicate 7 None);
  table ←? long_lengths (reverse (seqZ 9 7)) t firstcode 0 r.2;
  mret (Some (table, next t)).
End inflate_table.

(** Looking a symbol up in the next bits: the symbol and the number of its bits. *)
Definition table_lookup {S : Type} (table : list Z) (val : Z) : M S (Z * Z) :=
  t ← array_get table (Z.land val 0xff);
  let b := Z.land (Z.shiftr t ZLIB_HUFFMAN_BITS_SHIFT) ZLIB_HUFFMAN_BITS_MASK in
  let v := Z.land t ZLIB_HUFFMAN_VALUE_MASK in
  if Z.land t (Z.shiftl 1 ZLIB_HUFFMAN_SECONDARY_SHIFT) =? 0 then mret (v, b + 1)
  else
    t ← array_get table (v + 0x100 + Z.land (Z.shiftr val 8) (Z.shiftl 1 b - 1));
    let b := Z.land (Z.shiftr t ZLIB_HUFFMAN_BITS_SHIFT) ZLIB_HUFFMAN_BITS_MASK in
    mret (Z.land t ZLIB_HUFFMAN_VALUE_MASK, b + 8).

(** ** Reversed bits

    [mirror n x] has the [n] low bits of [x] in reverse order. *)
Fixpoint mirror (n : nat) (x : Z) : Z :=
  match n with O => 0 | S n => x mod 2 * 2^Z.of_nat n + mirror n (x / 2) end.

Lemma pow2_S n : 2^Z.of_nat (S n) = 2 * 2^Z.of_nat n.
Proof. by rewrite Nat2Z.inj_succ, Z.pow_succ_r by lia. Qed.

Lemma pow2_pos n : 0 < 2^Z.of_nat n.
Proof. apply Z.pow_pos_nonneg; lia. Qed.

Lemma mirror_range n : ∀ x, 0 ≤ mirror n x < 2^Z.of_nat n.
Proof.
  induction n as [|n IH]; intros x; [cbn; lia|]. rewrite pow2_S. cbn [mirror]. specialize (IH (x / 2)). pose proof (pow2_pos n).
  assert (x mod 2 = 0 ∨ x mod 2 = 1) as [-> | ->] by lia; lia.
Qed.

Lemma mirror_app a b : ∀ q r, 0 ≤ r < 2^Z.of_nat b →
  mirror (b + a) (q * 2^Z.of_nat b + r) = mirror a q + 2^Z.of_nat a * mirror b r.
Proof.
  induction b as [|b IH]; intros q r Hr.
  - change (2^Z.of_nat 0) with 1 in *. cbn [Nat.add mirror]. replace r with 0 by lia. rewrite Z.mul_1_r, Z.mul_0_r, !Z.add_0_r. done.
  - cbn [Nat.add mirror]. rewrite pow2_S in *. pose proof (pow2_pos b).
    replace (q * (2 * 2^Z.of_nat b) + r) with (r + q * 2^Z.of_nat b * 2) by lia.
    rewrite Z.mod_add, Z.div_add by done. rewrite (Z.add_comm (r / 2)), IH by lia.
    rewrite Nat2Z.inj_add, Z.pow_add_r by lia. lia.
Qed.

Lemma mirror_0 n : mirror n 0 = 0.
Proof. induction n as [|n IH]; [done|]. cbn [mirror]. by rewrite (IH : mirror n (0 / 2) = 0). Qed.

Lemma mirror_mirror n : ∀ x, 0 ≤ x < 2^Z.of_nat n → mirror n (mirror n x) = x.
Proof.
  induction n as [|n IH]; intros x Hx; [cbn in *; lia|]. rewrite pow2_S in Hx.
  transitivity (mirror (S n) (x mod 2 * 2^Z.of_nat n + mirror n (x / 2))); [done|].
  replace (S n) with (n + 1)%nat by lia. rewrite mirror_app by apply mirror_range. rewrite IH by lia. cbn [mirror].
  change (2^Z.of_nat 1) with 2. change (2^Z.of_nat 0) with 1. lia.
Qed.

Lemma mirror_inj n x y : 0 ≤ x < 2^Z.of_nat n → 0 ≤ y < 2^Z.of_nat n → mirror n x = mirror n y → x = y.
Proof. intros Hx Hy E. rewrite <-(mirror_mirror n x Hx), E. by apply mirror_mirror. Qed.

(** The low [a] bits of a reversed number are its high ones. *)
Lemma mirror_low n a x : (a ≤ n)%nat → mirror n x mod 2^Z.of_nat a = mirror a (x / 2^Z.of_nat (n - a)).
Proof.
  intros Ha. pose proof (pow2_pos (n - a)) as H. rewrite (Z.div_mod x (2^Z.of_nat (n - a))) at 1 by lia. rewrite Z.mul_comm.
  replace n with ((n - a) + a)%nat at 1 by lia. rewrite mirror_app by (apply Z.mod_pos_bound; lia).
  pose proof (pow2_pos a). rewrite Z.mul_comm, Z.mod_add by lia. apply Z.mod_small. apply mirror_range.
Qed.

Lemma mirror_high n a x : (a ≤ n)%nat → mirror n x / 2^Z.of_nat a = mirror (n - a) (x mod 2^Z.of_nat (n - a)).
Proof.
  intros Ha. pose proof (pow2_pos (n - a)) as H. rewrite (Z.div_mod x (2^Z.of_nat (n - a))) at 1 by lia. rewrite (Z.mul_comm (2^_)).
  replace n with ((n - a) + a)%nat at 1 by lia. rewrite mirror_app by (apply Z.mod_pos_bound; lia).
  pose proof (pow2_pos a). rewrite (Z.mul_comm (2^Z.of_nat a)), Z.div_add by lia. rewrite Z.div_small by apply mirror_range. lia.
Qed.

(** Adding zeros behind the number. *)
Lemma mirror_shift a b q : mirror (b + a) (q * 2^Z.of_nat b) = mirror a q.
Proof. pose proof (mirror_app a b q 0) as E. pose proof (pow2_pos b). rewrite Z.add_0_r, mirror_0, Z.mul_0_r, Z.add_0_r in E. apply E. lia. Qed.

(** ** The next code *)
Lemma land_pow2_testbit x k : 0 ≤ k → (Z.land x (2^k) =? 0) = negb (Z.testbit x k).
Proof.
  intros Hk. destruct (Z.testbit x k) eqn:E; cbn.
  - apply Z.eqb_neq. intros H. apply (f_equal (λ y, Z.testbit y k)) in H. rewrite Z.land_spec, Z.pow2_bits_true, E, Z.bits_0 in H by done. done.
  - apply Z.eqb_eq. apply Z.bits_inj'. intros i Hi. rewrite Z.land_spec, Z.bits_0, Z.pow2_bits_eqb by done.
    destruct (Z.eqb_spec k i) as [-> |]; [by rewrite E|apply andb_false_r].
Qed.

(** The top bit of [code] is the parity of the number it is the reverse of. *)
Lemma top_bit code k x : code mod 2^Z.of_nat (S k) = mirror (S k) x → Z.testbit code (Z.of_nat k) = Z.odd x ∧ code mod 2^Z.of_nat k = mirror k (x / 2).
Proof.
  intros E. pose proof (mirror_range k (x / 2)) as Hr. pose proof (pow2_pos k) as Hp. cbn [mirror] in E. split.
  - rewrite <-(Z.mod_pow2_bits_low code (Z.of_nat (S k))) by lia. rewrite E, Z.testbit_eqb by lia.
    rewrite Z.add_comm, Z.div_add, (Z.div_small (mirror _ _)) by lia. rewrite Z.add_0_l, Z.mod_mod, Zmod_odd by lia. by destruct (Z.odd x).
  - assert (code mod 2^Z.of_nat k = (code mod 2^Z.of_nat (S k)) mod 2^Z.of_nat k) as ->.
    { rewrite pow2_S, (Z.mul_comm 2), Z.rem_mul_r by lia. rewrite (Z.mul_comm (2^_)), Z.mod_add by lia. by rewrite Z.mod_mod by lia. }
    rewrite E, Z.add_comm, Z.mod_add by lia. by apply Z.mod_small.
Qed.

Lemma next_incr_run k : ∀ n code x, (k + 2 ≤ n)%nat → code mod 2^Z.of_nat (S k) = mirror (S k) x →
  let incr := next_incr n code (2^Z.of_nat k) in (if incr =? 0 then 0 else Z.land code (incr - 1) + incr) = mirror (S k) (x + 1).
Proof.
  induction k as [|k IH]; intros [|n] code x Hn E; try lia; apply top_bit in E as [Eb Em]; cbn [next_incr]; rewrite land_pow2_testbit, Eb, negb_involutive by lia.
  - change (2^Z.of_nat 0) with 1. cbn [mirror]. change (2^Z.of_nat 0) with 1. pose proof (Zmod_odd x) as Ho. destruct (Z.odd x).
    + destruct n as [|n]; [lia|]. change (1 ≫ 1) with 0. cbn [next_incr]. rewrite Z.land_0_r. cbn [Z.eqb negb]. lia.
    + cbn [Z.eqb Z.sub]. change (1 - 1) with 0. rewrite Z.land_0_r. lia.
  - pose proof (Zmod_odd x) as Ho. destruct (Z.odd x).
    + rewrite Z.shiftr_div_pow2 by lia. rewrite pow2_S. change (2^1) with 2. rewrite (Z.mul_comm 2), Z.div_mul by lia.
      rewrite (IH n code (x / 2)) by (done || lia). cbn [mirror]. replace ((x + 1) mod 2) with 0 by lia. replace ((x + 1) / 2) with (x / 2 + 1) by lia. done.
    + pose proof (pow2_pos (S k)) as Hp. replace (2^Z.of_nat (S k) =? 0) with false by lia.
      replace (2^Z.of_nat (S k) - 1) with (Z.ones (Z.of_nat (S k))) by (rewrite Z.ones_equiv; lia).
      rewrite Z.land_ones by lia. rewrite Em. transitivity ((x + 1) mod 2 * 2^Z.of_nat (S k) + mirror (S k) ((x + 1) / 2)); [|done].
      replace ((x + 1) mod 2) with 1 by lia. replace ((x + 1) / 2) with (x / 2) by lia. lia.
Qed.

(** A code of [j] bits is the reverse of a place [p] among 2^15 that is a multiple of
    2^(15 - j); incrementing it moves on to the next such place. *)
Lemma mirror_place j c : 0 ≤ j ≤ 15 → mirror 15 (c * 2^(15 - j)) = mirror (Z.to_nat j) c.
Proof.
  intros Hj. pose proof (mirror_shift (Z.to_nat j) (Z.to_nat (15 - j)) c) as E.
  replace (Z.of_nat (Z.to_nat (15 - j))) with (15 - j) in E by lia. rewrite <-E. f_equal. lia.
Qed.

Lemma place_mult j p : 0 ≤ j ≤ 15 → p mod 2^(15 - j) = 0 → p = p / 2^(15 - j) * 2^(15 - j).
Proof. intros Hj Hp. pose proof (Z.pow_pos_nonneg 2 (15 - j) ltac:(lia) ltac:(lia)). rewrite (Z.div_mod p (2^(15 - j))) at 1 by lia. lia. Qed.

Lemma next_code_run j p : 1 ≤ j ≤ 15 → p mod 2^(15 - j) = 0 → next_code j (mirror 15 p) = mirror 15 (p + 2^(15 - j)).
Proof.
  intros Hj Hp. rewrite (place_mult j p) by (done || lia). set (c := p / _). replace (c * 2^(15 - j) + 2^(15 - j)) with ((c + 1) * 2^(15 - j)) by lia.
  rewrite !mirror_place by lia. unfold next_code. rewrite Z.shiftl_mul_pow2, Z.mul_1_l by lia.
  replace (Z.to_nat j) with (S (Z.to_nat (j - 1))) by lia.
  pose proof (next_incr_run (Z.to_nat (j - 1)) 16 (mirror (S (Z.to_nat (j - 1))) c) c) as E. rewrite Z2Nat.id in E by lia.
  apply E; [lia|]. apply Z.mod_small. apply mirror_range.
Qed.

Lemma ldiff_pow2 x k : 0 ≤ k → Z.testbit x k = true → Z.ldiff x (2^k) = x - 2^k.
Proof.
  intros Hk E. rewrite Z.sub_nocarry_ldiff; [done|]. apply Z.bits_inj'. intros i Hi. rewrite Z.ldiff_spec, Z.bits_0, Z.pow2_bits_eqb by done.
  destruct (Z.eqb_spec k i) as [-> |]; [by rewrite E|done].
Qed.

Lemma add_bit_mirror n : ∀ q h, add_bit n (mirror n q + 2^Z.of_nat n * h) (Z.shiftr (2^Z.of_nat n) 1) = mirror n (q + 1) + 2^Z.of_nat n * h.
Proof.
  induction n as [|n IH]; intros q h; [done|]. cbn [add_bit]. pose proof (pow2_pos n) as Hp. pose proof (pow2_S n) as HS.
  assert (Z.shiftr (2^Z.of_nat (S n)) 1 = 2^Z.of_nat n) as -> by (rewrite Z.shiftr_div_pow2, HS by lia; change (2^1) with 2; lia).
  set (code := mirror (S n) q + _). assert (code mod 2^Z.of_nat (S n) = mirror (S n) q) as E.
  { unfold code. rewrite (Z.mul_comm (2^_)), Z.mod_add by lia. apply Z.mod_small, mirror_range. }
  apply top_bit in E as [Eb _]. rewrite land_pow2_testbit, Eb by lia. pose proof (Zmod_odd q) as Ho. destruct (Z.odd q); cbn [negb].
  - rewrite ldiff_pow2 by (done || lia). unfold code. cbn [mirror]. rewrite Ho.
    replace (1 * 2^Z.of_nat n + mirror n (q / 2) + 2^Z.of_nat (S n) * h - 2^Z.of_nat n) with (mirror n (q / 2) + 2^Z.of_nat n * (2 * h)) by lia.
    rewrite IH. replace ((q + 1) mod 2) with 0 by lia. replace ((q + 1) / 2) with (q / 2 + 1) by lia. lia.
  - unfold code. cbn [mirror]. rewrite Ho. replace ((q + 1) mod 2) with 1 by lia. replace ((q + 1) / 2) with (q / 2) by lia. lia.
Qed.

Lemma add_bit_run l p : 1 ≤ l ≤ 15 → add_bit (Z.to_nat l) (mirror 15 p) (Z.shiftl 1 (l - 1)) = mirror 15 (p + 2^(15 - l)).
Proof.
  intros Hl. set (a := Z.to_nat l). set (b := Z.to_nat (15 - l)). pose proof (pow2_pos b) as Hb.
  assert (2^(15 - l) = 2^Z.of_nat b) as -> by (f_equal; lia). rewrite (Z.div_mod p (2^Z.of_nat b)), (Z.mul_comm (2^_)) by lia.
  set (q := p / _). set (r := p mod _). assert (0 ≤ r < 2^Z.of_nat b) as Hr by (apply Z.mod_pos_bound; lia).
  replace (q * 2^Z.of_nat b + r + 2^Z.of_nat b) with ((q + 1) * 2^Z.of_nat b + r) by lia.
  replace 15%nat with (b + a)%nat by lia. rewrite !mirror_app by done.
  replace (Z.shiftl 1 (l - 1)) with (Z.shiftr (2^Z.of_nat a) 1); [apply add_bit_mirror|].
  rewrite Z.shiftl_mul_pow2, Z.mul_1_l, Z.shiftr_div_pow2 by lia. replace (Z.of_nat a) with (Z.succ (l - 1)) by lia.
  rewrite Z.pow_succ_r by lia. change (2^1) with 2. lia.
Qed.

(** The count is added bit by bit. *)
Lemma add_count_run j (n : nat) : ∀ k p cnt, 1 ≤ j ≤ 15 → 0 ≤ k → k + Z.of_nat n = j → 0 ≤ cnt < 2^j → cnt mod 2^k = 0 →
  add_count (seqZ k (Z.of_nat n)) j (mirror 15 p) cnt = (mirror 15 (p + cnt * 2^(15 - j)), 0).
Proof.
  induction n as [|n IH]; intros k p cnt Hj Hk Hn Hc Hm.
  - cbn [seqZ]. replace k with j in Hm by lia. rewrite Z.mod_small in Hm by done. subst cnt. change (seqZ k (Z.of_nat 0)) with (@nil Z). cbn [add_count]. do 2 f_equal. lia.
  - rewrite seqZ_cons by lia. cbn [add_count]. replace (Z.pred (Z.of_nat (S n))) with (Z.of_nat n) by lia.
    rewrite Z.shiftl_mul_pow2, Z.mul_1_l, land_pow2_testbit, negb_involutive by lia. pose proof (Z.pow_pos_nonneg 2 k ltac:(lia) Hk) as Hp.
    assert (2^Z.succ k = 2 * 2^k) as HS by (by rewrite Z.pow_succ_r). apply Z.div_exact in Hm; [|lia]. set (c := cnt / 2^k) in *.
    assert (Z.testbit cnt k = Z.odd c) as Hb by (rewrite Hm, Z.mul_comm, Z.mul_pow2_bits, Z.sub_diag, Z.bit0_odd; done).
    rewrite Hb. pose proof (Zmod_odd c) as Ho. destruct (Z.odd c).
    + rewrite ldiff_pow2, add_bit_run by (done || lia). rewrite IH; [|lia..|].
      * f_equal. f_equal. replace (15 - (j - k)) with (k + (15 - j)) by lia. rewrite Z.pow_add_r by lia. lia.
      * rewrite HS, Hm. replace (2^k * c - 2^k) with ((c / 2) * (2 * 2^k)) by lia. apply Z.mod_mul. lia.
    + apply IH; try lia. rewrite HS, Hm. replace (2^k * c) with ((c / 2) * (2 * 2^k)) by lia. apply Z.mod_mul. lia.
Qed.

(** ** Filling the table *)
Lemma array_set_ok {S A} (l : list A) i v (s : S) : 0 ≤ i < Z.of_nat (length l) → array_set l i v s = Ok (<[Z.to_nat i := v]> l, s).
Proof.
  intros Hi. unfold array_set, array_upd. destruct (lookup_lt_is_Some_2 l (Z.to_nat i) ltac:(lia)) as [x Hx].
  by erewrite bind_ok by (apply array_get_ok; [lia|done]).
Qed.

(** The entry at [i]. *)
Definition tab (l : list Z) (i : Z) : Z := default 0 (l !! Z.to_nat i).

Lemma tab_get {S} l i (s : S) : 0 ≤ i < Z.of_nat (length l) → array_get l i s = Ok (tab l i, s).
Proof.
  intros Hi. destruct (lookup_lt_is_Some_2 l (Z.to_nat i) ltac:(lia)) as [x Hx]. unfold tab. rewrite Hx. apply array_get_ok; [lia|done].
Qed.

Lemma tab_set l i v y : 0 ≤ i < Z.of_nat (length l) → 0 ≤ y → tab (<[Z.to_nat i := v]> l) y = if y =? i then v else tab l y.
Proof.
  intros Hi Hy. unfold tab. destruct (Z.eqb_spec y i) as [-> | Hn].
  - by rewrite list_lookup_insert_eq by lia.
  - by rewrite list_lookup_insert_ne by lia.
Qed.

(** The indices that a run of [fill] sets. *)
Definition filled (base ind limit step y : Z) : bool :=
  (ind <=? y - base) && (y - base <? limit) && ((y - base - ind) mod step =? 0).

Lemma fill_run {S} fuel base limit step tval (s : S) : 0 < step → 0 ≤ base → ∀ ind table, 0 ≤ ind → base + limit ≤ Z.of_nat (length table) →
  limit - ind ≤ step * Z.of_nat fuel → (∀ y, 0 ≤ y → filled base ind limit step y = true → tab table y = 0) →
  ∃ table', fill fuel table base ind limit step tval s = Ok (Some table', s) ∧ length table' = length table ∧
    ∀ y, 0 ≤ y → tab table' y = if filled base ind limit step y then tval else tab table y.
Proof.
  intros Hs Hb. induction fuel as [|fuel IH]; intros ind table Hi Hl Hf Hz; cbn [fill].
  - replace (limit <=? ind) with true by lia. exists table. split_and!; [done..|]. intros y Hy. unfold filled.
    by replace ((ind <=? y - base) && (y - base <? limit)) with false by lia.
  - rewrite Nat2Z.inj_succ, Z.mul_succ_r in Hf. destruct (Z.leb_spec limit ind).
    { exists table. split_and!; [done..|]. intros y Hy. unfold filled. by replace ((ind <=? y - base) && (y - base <? limit)) with false by lia. }
    assert (∀ y, filled base ind limit step y = (y =? base + ind) || filled base (ind + step) limit step y) as Hstep.
    { intros y. unfold filled. replace (y - base - (ind + step)) with (y - base - ind + (-1) * step) by lia. rewrite Z.mod_add by lia.
      destruct (Z.eqb_spec y (base + ind)) as [-> | Hy].
      - replace (base + ind - base - ind) with 0 by lia. rewrite Z.mod_0_l by lia. lia.
      - cbn [orb]. destruct (Z.eqb_spec ((y - base - ind) mod step) 0) as [E|]; [|by rewrite !andb_false_r]. rewrite !andb_true_r.
        apply Z.mod_divide in E as [k Ek]; [|lia]. f_equal. destruct (Z.leb_spec ind (y - base)), (Z.leb_spec (ind + step) (y - base)); try done; [|lia]. exfalso. assert (k = 0) by (destruct (Z.lt_trichotomy k 0) as [|[|]]; nia). nia. }
    erewrite bind_ok by (apply tab_get; lia). cbn beta. rewrite Hz by (lia || by (rewrite Hstep, Z.eqb_refl)). cbn [Z.eqb negb].
    erewrite bind_ok by (apply array_set_ok; lia). cbn beta.
    destruct (IH (ind + step) (<[Z.to_nat (base + ind) := tval]> table)) as (t' & E & Hlen & Ht); [lia|rewrite length_insert; lia|lia| |].
    { intros y Hy Hyf. rewrite tab_set by lia. destruct (Z.eqb_spec y (base + ind)) as [-> | Hn].
      - unfold filled in Hyf. lia.
      - apply Hz; [done|]. rewrite Hstep, Hyf. apply orb_true_r. }
    exists t'. rewrite E. split_and!; [done|by rewrite Hlen, length_insert|]. intros y Hy. rewrite Ht, tab_set, Hstep by lia.
    destruct (Z.eqb_spec y (base + ind)) as [-> | ]; cbn [orb]; [|done]. by destruct (filled _ _ _ _ _).
Qed.

(** ** Counting the codes *)

(** The symbols with codes of [j] bits, in order; the first has number [i]. *)
Fixpoint syms (lens : list Z) (i j : Z) : list Z :=
  match lens with [] => [] | l :: lens => (if l =? j then [i] else []) ++ syms lens (i + 1) j end.

Lemma syms_app a b i j : syms (a ++ b) i j = syms a i j ++ syms b (i + Z.of_nat (length a)) j.
Proof.
  revert i. induction a as [|x a IH]; intros i; [cbn; by rewrite Z.add_0_r|]. cbn [app syms length]. rewrite IH, <-app_assoc. do 3 f_equal. lia.
Qed.

Lemma syms_elem lens j s : ∀ i, s ∈ syms lens i j ↔ i ≤ s ∧ lens !! Z.to_nat (s - i) = Some j.
Proof.
  induction lens as [|l lens IH]; intros i; cbn [syms]; [rewrite elem_of_nil, lookup_nil; intuition done|].
  rewrite elem_of_app, IH. destruct (decide (s = i)) as [-> | Hn].
  - rewrite Z.sub_diag. cbn [Z.to_nat lookup list_lookup]. destruct (Z.eqb_spec l j) as [-> | ]; set_solver by lia.
  - split.
    + intros [H|[H1 H2]]; [destruct (l =? j); set_solver|]. split; [lia|]. replace (Z.to_nat (s - i)) with (S (Z.to_nat (s - (i + 1)))) by lia. done.
    + intros [H1 H2]. right. replace (Z.to_nat (s - i)) with (S (Z.to_nat (s - (i + 1)))) in H2 by lia. split; [lia|done].
Qed.

Lemma syms_NoDup lens j : ∀ i, NoDup (syms lens i j).
Proof.
  induction lens as [|l lens IH]; intros i; cbn [syms]; [constructor|]. apply NoDup_app. split_and!; [destruct (l =? j); repeat constructor; set_solver| |done].
  intros x Hx Hy. apply syms_elem in Hy as [Hy _]. destruct (l =? j); set_solver by lia.
Qed.

(** Each symbol leads to the next one. *)
Definition chain (next l : list Z) : Prop := ∀ k a b, l !! k = Some a → l !! S k = Some b → next !! Z.to_nat a = Some b.

Record tallied (done : list Z) (t : tally) : Prop := {
  ta_count : length (count t) = 16%nat;
  ta_start : length (start t) = 16%nat;
  ta_prev : length (prev t) = 16%nat;
  ta_next : (length done ≤ length (next t))%nat;
  ta_counts : ∀ j, 0 ≤ j < 16 → tab (count t) j = Z.of_nat (length (syms done 0 j));
  ta_starts : ∀ j, 0 ≤ j < 16 → start t !! Z.to_nat j = Some (head (syms done 0 j));
  ta_prevs : ∀ j, 0 ≤ j < 16 → prev t !! Z.to_nat j = Some (last (syms done 0 j));
  ta_chain : ∀ j, 0 ≤ j < 16 → chain (next t) (syms done 0 j) }.

Lemma chain_snoc next l x p : last l = Some p → NoDup l → (Z.to_nat p < length next)%nat → Forall (λ a, 0 ≤ a) l → chain next l → chain (<[Z.to_nat p := x]> next) (l ++ [x]).
Proof.
  intros Hp Hd Hl Hpos Hc k a b Ha Hb. rewrite last_lookup in Hp. rewrite Forall_forall in Hpos. destruct (decide (S k = length l)) as [Hk|Hk].
  - rewrite lookup_app_l in Ha by lia. rewrite lookup_app_r in Hb by lia. replace (S k - length l)%nat with O in Hb by lia. injection Hb as ->.
    replace (pred (length l)) with k in Hp by lia. rewrite Ha in Hp. injection Hp as ->. by rewrite list_lookup_insert_eq by lia.
  - assert (S k < length l)%nat as Hk'. { apply lookup_lt_Some in Hb. rewrite length_app in Hb. cbn in Hb. lia. }
    rewrite lookup_app_l in Ha, Hb by lia. rewrite list_lookup_insert_ne; [by apply (Hc k)|].
    intros E. assert (p = a) as -> by (apply list_elem_of_lookup_2 in Ha, Hp; apply Hpos in Ha, Hp; lia).
    pose proof (NoDup_lookup _ _ _ _ Hd Ha Hp). lia.
Qed.

Lemma chain_other next l x p : p ∉ l → 0 ≤ p → Forall (λ a, 0 ≤ a) l → chain next l → chain (<[Z.to_nat p := x]> next) l.
Proof.
  intros Hp Hp0 Hpos Hc k a b Ha Hb. rewrite Forall_forall in Hpos. pose proof (list_elem_of_lookup_2 _ _ _ Ha) as Hin. rewrite list_lookup_insert_ne; [by apply (Hc k)|].
  intros E. apply Hp. pose proof (Hpos _ Hin). by replace p with a by lia.
Qed.

Lemma syms_pos lens j : Forall (λ a, 0 ≤ a < Z.of_nat (length lens)) (syms lens 0 j).
Proof. apply Forall_forall. intros x [Hx Hl]%syms_elem. apply lookup_lt_Some in Hl. lia. Qed.

Lemma syms_snoc done c j : syms (done ++ [c]) 0 j = syms done 0 j ++ (if c =? j then [Z.of_nat (length done)] else []).
Proof. rewrite syms_app. cbn [syms]. by rewrite app_nil_r, Z.add_0_l. Qed.

Lemma tallied_step done c (t : tally) i nx :
  0 ≤ c < 16 → i = Z.of_nat (length done) → (length nx = length (next t))%nat → (length done < length (next t))%nat → tallied done t →
  (syms done 0 c = [] ∧ nx = next t ∨ ∃ p, last (syms done 0 c) = Some p ∧ nx = <[Z.to_nat p := i]> (next t)) →
  tallied (done ++ [c]) (mk_tally (<[Z.to_nat c := Z.of_nat (length (syms done 0 c)) + 1]> (count t))
    (if (length (syms done 0 c) =? 0)%nat then <[Z.to_nat c := Some i]> (start t) else start t) (<[Z.to_nat c := Some i]> (prev t)) nx).
Proof.
  intros Hc Hi Hnx Hlt [H1 H2 H3 H4 H5 H6 H7 H8] Hcase. split; cbn [count start prev next].
  - by rewrite length_insert.
  - destruct (_ =? _)%nat; [by rewrite length_insert|done].
  - by rewrite length_insert.
  - rewrite length_app. cbn. lia.
  - intros j Hj. rewrite syms_snoc, length_app, tab_set by lia. rewrite Z.eqb_sym. destruct (Z.eqb_spec c j) as [-> | ]; cbn [length]; [lia|]. rewrite H5 by done. lia.
  - intros j Hj. rewrite syms_snoc. destruct (Z.eqb_spec c j) as [-> | Hn].
    + destruct (syms done 0 j) eqn:E; cbn [length Nat.eqb app head]; [subst i; by rewrite list_lookup_insert_eq by lia|]. by rewrite H6, E by done.
    + rewrite app_nil_r. destruct (_ =? _)%nat; [rewrite list_lookup_insert_ne by lia|]; by apply H6.
  - intros j Hj. rewrite syms_snoc. destruct (Z.eqb_spec c j) as [-> | Hn].
    + rewrite last_snoc. subst i. by rewrite list_lookup_insert_eq by lia.
    + rewrite app_nil_r, list_lookup_insert_ne by lia. by apply H7.
  - intros j Hj. rewrite syms_snoc. pose proof (syms_pos done j) as Hpos.
    assert (Forall (λ a, 0 ≤ a) (syms done 0 j)) as Hp0 by (eapply Forall_impl; [exact Hpos|]; cbn; lia).
    destruct Hcase as [[E ->]|(p & Hp & ->)]; destruct (Z.eqb_spec c j) as [-> | Hn].
    + rewrite E. intros k a b Ha Hb. destruct k; done.
    + rewrite app_nil_r. by apply H8.
    + subst i. apply chain_snoc; [done|apply syms_NoDup| |done|by apply H8].
      apply last_Some_elem_of in Hp. rewrite Forall_forall in Hpos. specialize (Hpos p Hp). lia.
    + rewrite app_nil_r. pose proof (last_Some_elem_of _ _ Hp) as Hin. pose proof (proj1 (syms_elem _ _ _ _) Hin) as [Hin1 Hin2].
      apply chain_other; [|lia|done|by apply H8]. intros [_ Hin3]%syms_elem. congruence.
Qed.

Lemma tally_code_run {S} done c (t : tally) (s : S) : 0 ≤ c < 16 → (length done < length (next t))%nat → Z.of_nat (length done) + 1 < 2^16 → tallied done t →
  ∃ t', tally_code c (Z.of_nat (length done)) t s = Ok (t', s) ∧ tallied (done ++ [c]) t' ∧ length (next t') = length (next t).
Proof.
  intros Hc Hlt Hu Ht. pose proof Ht as [H1 H2 H3 H4 H5 H6 H7 H8]. set (i := Z.of_nat (length done)).
  assert (u16 i = i) as Eu by (apply Z.mod_small; lia). pose proof (syms_pos done c) as Hpos.
  assert (length (syms done 0 c) ≤ length done)%nat as Hle.
  { clear. generalize 0. induction done as [|x l IH]; intros i; [done|]. cbn. rewrite length_app. specialize (IH (i + 1)). destruct (x =? c); cbn; lia. }
  unfold tally_code. rewrite Eu. erewrite bind_ok by (apply tab_get; lia). cbn beta. rewrite (H5 c Hc). set (l := syms done 0 c) in *.
  assert (u16 (Z.of_nat (length l) + 1) = Z.of_nat (length l) + 1) as -> by (apply Z.mod_small; lia).
  destruct (Z.eqb_spec (Z.of_nat (length l)) 0) as [E0|E0].
  - assert (l = []) as El by (apply nil_length_inv; lia). eexists. split; [|split].
    + erewrite bind_ok by (erewrite bind_ok by (apply array_set_ok; lia); reflexivity). cbn beta.
      erewrite bind_ok by (apply array_set_ok; change (prev (t <| start := _ |>)) with (prev t); lia). cbn beta.
      erewrite bind_ok by (apply array_set_ok; change (count (t <| start := _ |>)) with (count t); lia). cbn beta. reflexivity.
    + pose proof (tallied_step done c t i (next t) Hc eq_refl eq_refl Hlt Ht (or_introl (conj El eq_refl))) as H. fold l in H.
      replace (length l =? 0)%nat with true in H by lia. destruct t. exact H.
    + by destruct t.
  - destruct (last l) as [p|] eqn:Ep; [|apply last_None in Ep; rewrite Ep in E0; done].
    pose proof (last_Some_elem_of _ _ Ep) as Hin. rewrite Forall_forall in Hpos. pose proof (Hpos p Hin) as Hp. eexists. split; [|split].
    + erewrite bind_ok by (erewrite bind_ok by (apply array_get_ok; [lia|apply H7; done]); cbn beta; fold l; rewrite Ep; cbn [initialized];
        erewrite bind_ok by reflexivity; cbn beta; erewrite bind_ok by (apply array_set_ok; lia); reflexivity). cbn beta.
      erewrite bind_ok by (apply array_set_ok; change (prev (t <| next := _ |>)) with (prev t); lia). cbn beta.
      erewrite bind_ok by (apply array_set_ok; change (count (t <| next := _ |>)) with (count t); lia). cbn beta. reflexivity.
    + pose proof (tallied_step done c t i (<[Z.to_nat p := i]> (next t)) Hc eq_refl (length_insert _ _ _) Hlt Ht (or_intror (ex_intro _ p (conj Ep eq_refl)))) as H. fold l in H.
      replace (length l =? 0)%nat with false in H by lia. destruct t. exact H.
    + destruct t. apply length_insert.
Qed.

Lemma count_codes_run {S} codes (s : S) : ∀ done (t : tally), Forall (λ c, 0 ≤ c < 16) codes → (length done + length codes ≤ length (next t))%nat →
  Z.of_nat (length done + length codes) < 2^16 → tallied done t →
  ∃ t', count_codes codes (Z.of_nat (length done)) t s = Ok (Some t', s) ∧ tallied (done ++ codes) t' ∧ length (next t') = length (next t).
Proof.
  induction codes as [|c codes IH]; intros done t Hc Hl Hu Ht; cbn [count_codes].
  - exists t. by rewrite app_nil_r.
  - apply Forall_cons in Hc as [Hc Hcs]. cbn [length] in *. replace (16 <=? c) with false by lia.
    destruct (tally_code_run done c t s) as (t1 & E1 & Ht1 & Hn1); [done|lia|lia|done|]. rewrite (bind_ok _ _ _ _ _ E1).
    destruct (IH (done ++ [c]) t1) as (t2 & E2 & Ht2 & Hn2); [done|rewrite length_app; cbn; lia|rewrite length_app; cbn; lia|done|].
    rewrite length_app in E2. cbn in E2. replace (Z.of_nat (length done) + 1) with (Z.of_nat (length done + 1)) by lia.
    exists t2. rewrite E2, <-app_assoc in *. split_and!; [done|done|congruence].
Qed.
