(* ===== verification/ElfHuffTable.v ===== *)
(** * The tables decode the codes (src/dwarf/elf.c)

    [elf_zlib_inflate_table] succeeds for every code that DEFLATE allows, and the
    table that it builds decodes each of its codes. *)
From S2P Require Import Prelude ElfHuff.

(** ** The codes

    A code of [h_len] bits owns an interval of the places from 0 to 2^15, in the
    order of lengths and symbols. *)
Record hcode := mk_hcode { h_sym : Z; h_len : Z; h_pos : Z }.

Definition inside (d : hcode) (w : Z) : Prop := h_pos d ≤ w < h_pos d + 2^(15 - h_len d).

(** The places of all codes of up to [n] bits. *)
Fixpoint places (lens : list Z) (n : nat) : Z :=
  match n with O => 0 | S m => places lens m + Z.of_nat (length (syms lens 0 (Z.of_nat n))) * 2^(15 - Z.of_nat n) end.

(** Symbols with consecutive codes of [j] bits from place [p]. *)
Fixpoint placed (j p : Z) (l : list Z) : list hcode :=
  match l with [] => [] | s :: l => mk_hcode s j p :: placed j (p + 2^(15 - j)) l end.

Definition codes_at (lens : list Z) (j : Z) : list hcode := placed j (places lens (Z.to_nat (j - 1))) (syms lens 0 j).

Definition codes_from (lens js : list Z) : list hcode := js ≫= codes_at lens.

Lemma pow_pos k : 0 ≤ k → 0 < 2^k.
Proof. intros. by apply Z.pow_pos_nonneg. Qed.

(** ** Codes of up to 8 bits *)
Definition short_entry (d : hcode) : Z := Z.lor (h_sym d) (Z.shiftl (h_len d - 1) 9).

(** The primary table holds exactly the codes of [D]. *)
Record short_table (D : list hcode) (table : list Z) : Prop := {
  st_length : length table = 1024%nat;
  st_codes : ∀ d q, d ∈ D → 0 ≤ q < 256 → inside d (128 * q) → tab table (mirror 8 q) = short_entry d;
  st_empty : ∀ q, 0 ≤ q < 256 → (∀ d, d ∈ D → ¬ inside d (128 * q)) → tab table (mirror 8 q) = 0;
  st_rest : ∀ x, 256 ≤ x → tab table x = 0 }.

Lemma filled_mod base code limit step y : 0 ≤ code < step → 0 ≤ y - base < limit → filled base code limit step y = ((y - base) mod step =? code).
Proof.
  intros Hc Hy. unfold filled. replace (y - base <? limit) with true by lia. rewrite andb_true_r. apply eq_true_iff_eq.
  rewrite andb_true_iff, Z.leb_le, !Z.eqb_eq. set (z := y - base) in *. split.
  - intros [H1 H2]. apply Z.mod_divide in H2 as [k Hk]; [|lia]. replace z with (code + k * step) by lia. rewrite Z.mod_add by lia. by apply Z.mod_small.
  - intros H. pose proof (Z.div_mod z step ltac:(lia)) as E. pose proof (Z.div_pos z step ltac:(lia) ltac:(lia)). split; [nia|].
    replace (z - code) with (z / step * step) by lia. apply Z.mod_mul. lia.
Qed.

Lemma filled_short d q : 1 ≤ h_len d ≤ 8 → h_pos d mod 2^(15 - h_len d) = 0 → 0 ≤ h_pos d < 2^15 → 0 ≤ q < 256 →
  filled 0 (mirror 15 (h_pos d)) 0x100 (2^h_len d) (mirror 8 q) = true ↔ inside d (128 * q).
Proof.
  destruct d as [s j p]. cbn [h_len h_pos]. intros Hj Hm Hp Hq. unfold inside. cbn [h_len h_pos]. rewrite (place_mult j p) by (done || lia).
  set (c := p / 2^(15 - j)). rewrite mirror_place by lia. pose proof (pow_pos j ltac:(lia)). pose proof (pow_pos (15 - j) ltac:(lia)).
  assert (2^15 = 2^j * 2^(15 - j)) as E15 by (rewrite <-Z.pow_add_r by lia; f_equal; lia).
  pose proof (mirror_range (Z.to_nat j) c) as Hr. rewrite Z2Nat.id in Hr by lia. pose proof (mirror_range 8 q) as Hr8. change (2^Z.of_nat 8) with 256 in Hr8.
  rewrite filled_mod, Z.sub_0_r, Z.eqb_eq by lia. pose proof (mirror_low 8 (Z.to_nat j) q ltac:(lia)) as El. rewrite Z2Nat.id in El by lia. rewrite El.
  assert (2^(15 - j) = 128 * 2^(8 - j)) as E8 by (change 128 with (2^7); rewrite <-Z.pow_add_r by lia; f_equal; lia).
  pose proof (pow_pos (8 - j) ltac:(lia)). replace (Z.of_nat (8 - Z.to_nat j)) with (8 - j) by lia.
  assert (256 = 2^j * 2^(8 - j)) as E256 by (change 256 with (2^8); rewrite <-Z.pow_add_r by lia; f_equal; lia).
  assert (0 ≤ q / 2^(8 - j) < 2^j) as Hq' by (split; [apply Z.div_pos; lia|apply Z.div_lt_upper_bound; lia]).
  assert (0 ≤ c < 2^j) as Hc by (split; [apply Z.div_pos; lia|apply Z.div_lt_upper_bound; lia]).
  pose proof (Z.div_mod q (2^(8 - j)) ltac:(lia)) as Eq. pose proof (Z.mod_pos_bound q (2^(8 - j)) ltac:(lia)). rewrite E8. split.
  - intros E. apply mirror_inj in E; [|rewrite Z2Nat.id; lia..]. rewrite E in Eq. lia.
  - intros [Hw1 Hw2]. f_equal. symmetry. apply (Z.div_unique _ _ _ (q - c * 2^(8 - j))); [left|]; lia.
Qed.

Lemma short_step {St} D table d (s : St) : short_table D table → 1 ≤ h_len d ≤ 8 → h_pos d mod 2^(15 - h_len d) = 0 → 0 ≤ h_pos d < 2^15 →
  Forall (λ d', ∀ w, inside d' w → ¬ inside d w) D →
  ∃ table', fill 256 table 0 (mirror 15 (h_pos d)) 0x100 (Z.shiftl 1 (h_len d)) (short_entry d) s = Ok (Some table', s) ∧ short_table (D ++ [d]) table'.
Proof.
  intros [H1 H2 H3 H4] Hj Hm Hp HD. rewrite Forall_forall in HD. pose proof (pow_pos (h_len d) ltac:(lia)) as Hpow.
  rewrite Z.shiftl_mul_pow2, Z.mul_1_l by lia. pose proof (mirror_range 15 (h_pos d)) as Hr.
  assert (∀ y, 0 ≤ y → filled 0 (mirror 15 (h_pos d)) 0x100 (2^h_len d) y = true → ∃ q, y = mirror 8 q ∧ 0 ≤ q < 256 ∧ inside d (128 * q)) as Hf.
  { intros y Hy E. assert (0 ≤ y < 256) as Hy' by (unfold filled in E; lia). exists (mirror 8 y). pose proof (mirror_range 8 y) as Hq.
    pose proof (mirror_mirror 8 y ltac:(done)) as Ey. split_and!; [done|apply Hq..|]. apply filled_short; [done..|]. by rewrite Ey. }
  destruct (fill_run 256 0 0x100 (2^h_len d) (short_entry d) s Hpow ltac:(done) (mirror 15 (h_pos d)) table) as (t' & E & Hl & Ht);
    [lia|lia|lia| |].
  { intros y Hy Hy'. apply Hf in Hy' as (q & -> & Hq & Hin); [|done]. apply H3; [done|]. intros d' Hd' Hin'. by apply (HD d' Hd' (128 * q)). }
  exists t'. split; [done|]. split.
  - lia.
  - intros d' q Hd' Hq Hin. rewrite Ht by apply mirror_range. apply elem_of_app in Hd' as [Hd'|Hd'].
    + destruct (filled _ _ _ _ _) eqn:Ef; [|by apply H2]. apply filled_short in Ef; [|done..]. by apply (HD d' Hd' (128 * q)) in Hin.
    + apply list_elem_of_singleton in Hd' as ->. apply filled_short in Hin as ->; done.
  - intros q Hq Hno. rewrite Ht by apply mirror_range. destruct (filled _ _ _ _ _) eqn:Ef.
    + apply filled_short in Ef; [|done..]. exfalso. eapply Hno; [|done]. apply elem_of_app. right. by apply list_elem_of_singleton.
    + apply H3; [done|]. intros d' Hd'. apply Hno. apply elem_of_app. by left.
  - intros x Hx. rewrite Ht, H4 by lia. unfold filled. by replace (x - 0 <? 0x100) with false by lia; rewrite andb_false_r.
Qed.

Lemma chain_tail nx a l : chain nx (a :: l) → chain nx l.
Proof. intros H k x y Hx Hy. by apply (H (S k)). Qed.

Lemma next_val_run {St} nx v l (s : St) : 0 ≤ v → chain nx (v :: l) → ∃ v', next_val (length l) nx v s = Ok (v', s) ∧ (l ≠ [] → head l = Some v').
Proof.
  intros Hv Hc. unfold next_val. destruct l as [|b l]; cbn [length Nat.eqb]; [by exists v|].
  exists b. split; [|done]. apply array_get_ok; [done|]. by apply (Hc O).
Qed.

Lemma sym_small v : 0 ≤ v < 512 → Z.ldiff v ZLIB_HUFFMAN_VALUE_MASK = 0.
Proof. intros Hv. change ZLIB_HUFFMAN_VALUE_MASK with (Z.ones 9). rewrite Z.ldiff_ones_r, Z.shiftr_div_pow2, Z.div_small by done. done. Qed.

(** Codes that end before [p]. *)
Definition ends_by (p : Z) (D : list hcode) : Prop := Forall (λ d, h_pos d + 2^(15 - h_len d) ≤ p) D.

Lemma short_codes_run {St} j nx (s : St) : 1 ≤ j ≤ 8 → ∀ l p v D table,
  chain nx l → Forall (λ a, 0 ≤ a < 512) l → p mod 2^(15 - j) = 0 → 0 ≤ p → p + Z.of_nat (length l) * 2^(15 - j) ≤ 2^15 →
  short_table D table → ends_by p D → (l ≠ [] → head l = Some v) →
  ∃ table', short_codes (length l) j nx v (mirror 15 p) table s = Ok (Some (mirror 15 (p + Z.of_nat (length l) * 2^(15 - j)), table'), s) ∧
    short_table (D ++ placed j p l) table' ∧ ends_by (p + Z.of_nat (length l) * 2^(15 - j)) (D ++ placed j p l).
Proof.
  intros Hj. pose proof (pow_pos (15 - j) ltac:(lia)) as Hpow. induction l as [|a l IH]; intros p v D table Hc Hs Hm Hp Hl Ht HD Hv.
  - cbn [length short_codes placed]. rewrite app_nil_r, Z.mul_0_l, Z.add_0_r. by exists table.
  - specialize (Hv ltac:(done)) as [= ->]. apply Forall_cons in Hs as [Ha Hs]. cbn [length short_codes placed] in *.
    rewrite sym_small by done. cbn [Z.eqb negb]. set (d := mk_hcode v j p).
    destruct (short_step D table d s Ht) as (t1 & E1 & Ht1); [done|done|cbn; nia| |].
    { eapply Forall_impl; [exact HD|]. intros d' Hd' w. unfold inside. cbn in *. lia. }
    rewrite (try_ok _ _ _ _ _ E1). destruct (next_val_run nx v l s ltac:(lia) Hc) as (v' & Ev & Hv'). rewrite (bind_ok _ _ _ _ _ Ev).
    rewrite next_code_run by (done || lia).
    destruct (IH (p + 2^(15 - j)) v' (D ++ [d]) t1) as (t2 & E2 & Ht2 & HD2).
    + by eapply chain_tail.
    + done.
    + replace (p + 2^(15 - j)) with (p + 1 * 2^(15 - j)) by lia. by rewrite Z.mod_add by lia.
    + lia.
    + lia.
    + done.
    + apply Forall_app. split; [eapply Forall_impl; [exact HD|]; cbn; lia|]. repeat constructor. cbn. lia.
    + done.
    + replace (p + 2^(15 - j) + Z.of_nat (length l) * 2^(15 - j)) with (p + Z.of_nat (S (length l)) * 2^(15 - j)) in * by lia.
      exists t2. rewrite <-app_assoc in *. done.
Qed.

Lemma places_S lens j : 1 ≤ j → places lens (Z.to_nat j) = places lens (Z.to_nat (j - 1)) + Z.of_nat (length (syms lens 0 j)) * 2^(15 - j).
Proof. intros Hj. replace (Z.to_nat j) with (S (Z.to_nat (j - 1))) by lia. cbn [places]. by replace (Z.of_nat (S (Z.to_nat (j - 1)))) with j by lia. Qed.

Lemma places_mod lens n : (n ≤ 15)%nat → places lens n mod 2^(15 - Z.of_nat n) = 0.
Proof.
  induction n as [|n IH]; intros Hn; [done|]. cbn [places]. pose proof (pow_pos (15 - Z.of_nat (S n)) ltac:(lia)) as Hp. rewrite Z.mod_add by lia.
  specialize (IH ltac:(lia)). replace (15 - Z.of_nat n) with (Z.succ (15 - Z.of_nat (S n))) in IH by lia. rewrite Z.pow_succ_r in IH by lia.
  apply Z.mod_divide in IH as [k ->]; [|lia]. rewrite Z.mul_assoc. apply Z.mod_mul. lia.
Qed.

Lemma places_mono lens n m : (n ≤ m ≤ 15)%nat → places lens n ≤ places lens m.
Proof.
  intros [Hn Hm]. induction Hn as [|m Hn IH]; [done|]. cbn [places]. pose proof (pow_pos (15 - Z.of_nat (S m)) ltac:(lia)). specialize (IH ltac:(lia)). nia.
Qed.

Lemma places_nonneg lens n : (n ≤ 15)%nat → 0 ≤ places lens n.
Proof. intros Hn. apply (places_mono lens 0 n). lia. Qed.

(** Where the codes of [j] bits start. *)
Lemma places_start lens j : 1 ≤ j ≤ 15 → places lens 15 ≤ 2^15 → let p := places lens (Z.to_nat (j - 1)) in
  p mod 2^(15 - j) = 0 ∧ 0 ≤ p ∧ p + Z.of_nat (length (syms lens 0 j)) * 2^(15 - j) ≤ 2^15 ∧ Z.of_nat (length (syms lens 0 j)) ≤ 2^j.
Proof.
  intros Hj HK p. pose proof (places_S lens j ltac:(lia)) as ES. fold p in ES. pose proof (places_mono lens (Z.to_nat j) 15 ltac:(lia)) as Hmo.
  pose proof (places_nonneg lens (Z.to_nat (j - 1)) ltac:(lia)) as H0. fold p in H0. pose proof (pow_pos (15 - j) ltac:(lia)) as Hp.
  assert (2^15 = 2^j * 2^(15 - j)) as E15 by (rewrite <-Z.pow_add_r by lia; f_equal; lia). split_and!; [|lia|lia|nia].
  pose proof (places_mod lens (Z.to_nat (j - 1)) ltac:(lia)) as Hm. fold p in Hm. replace (15 - Z.of_nat (Z.to_nat (j - 1))) with (Z.succ (15 - j)) in Hm by lia.
  rewrite Z.pow_succ_r in Hm by lia. apply Z.mod_divide in Hm as [k ->]; [|lia]. rewrite Z.mul_assoc. apply Z.mod_mul. lia.
Qed.

Lemma syms_small lens j : (length lens ≤ 512)%nat → Forall (λ a, 0 ≤ a < 512) (syms lens 0 j).
Proof. intros Hl. eapply Forall_impl; [apply syms_pos|]. cbn. lia. Qed.

Lemma codes_from_snoc lens js j : codes_from lens (js ++ [j]) = codes_from lens js ++ codes_at lens j.
Proof. unfold codes_from. rewrite bind_app. cbn. by rewrite app_nil_r. Qed.

Lemma seqZ_snoc m n : 0 ≤ n → seqZ m (n + 1) = seqZ m n ++ [m + n].
Proof. intros Hn. rewrite seqZ_app by lia. by rewrite (seqZ_cons (m + n) 1) by lia. Qed.

Lemma syms_cons lens j : syms lens 0 j ≠ [] → ∃ v, head (syms lens 0 j) = Some v.
Proof. destruct (syms lens 0 j) as [|v l]; [done|by exists v]. Qed.

Lemma short_lengths_run {St} lens t (s : St) (n : nat) : places lens 15 ≤ 2^15 → (length lens ≤ 512)%nat → tallied lens t → ∀ j table, 1 ≤ j → j + Z.of_nat n = 9 →
  let p := places lens (Z.to_nat (j - 1)) in let D := codes_from lens (seqZ 1 (j - 1)) in
  short_table D table → ends_by p D →
  ∃ table', short_lengths (seqZ j (Z.of_nat n)) t (mirror 15 p) table s = Ok (Some (mirror 15 (places lens 8), table'), s) ∧
    short_table (codes_from lens (seqZ 1 8)) table' ∧ ends_by (places lens 8) (codes_from lens (seqZ 1 8)).
Proof.
  intros HK Hlen Ht. induction n as [|n IH]; intros j table Hj Hn p D HT HD.
  - assert (j = 9) as -> by lia. exists table. split; [reflexivity|by split].
  - rewrite seqZ_cons by lia. cbn [short_lengths]. replace (Z.pred (Z.of_nat (S n))) with (Z.of_nat n) by lia.
    destruct (places_start lens j ltac:(lia) HK) as (Hm & H0 & Hl & Hc). fold p in Hm, H0, Hl.
    erewrite bind_ok by (apply tab_get; rewrite (ta_count _ _ Ht); lia). cbn beta. rewrite (ta_counts _ _ Ht) by lia.
    pose proof (places_S lens j ltac:(lia)) as ES. fold p in ES. specialize (IH (j + 1)). replace (j + 1 - 1) with j in IH by lia. rewrite ES in IH.
    assert (codes_from lens (seqZ 1 j) = D ++ codes_at lens j) as Ej.
    { unfold D. rewrite <-codes_from_snoc. f_equal. replace j with (j - 1 + 1) at 1 by lia. rewrite seqZ_snoc by lia. do 2 f_equal. lia. }
    rewrite Ej in IH. unfold codes_at in IH. fold p in IH.
    destruct (decide (syms lens 0 j = [])) as [El|El].
    + rewrite El in *. cbn [length Z.of_nat Z.eqb placed Z.mul]. cbn [length Z.of_nat placed Z.mul] in IH. rewrite Z.add_0_r, app_nil_r in IH. apply IH; [lia|lia|done|done].
    + destruct (syms_cons _ _ El) as [v Ev]. replace (Z.of_nat (length (syms lens 0 j)) =? 0) with false by (destruct (syms lens 0 j); [done|cbn; lia]).
      rewrite Z.shiftl_mul_pow2, Z.mul_1_l by lia. replace (2^j <? _) with false by lia.
      erewrite bind_ok by (apply array_get_ok; [lia|apply (ta_starts _ _ Ht); lia]). cbn beta. rewrite Ev. cbn [initialized].
      erewrite bind_ok by reflexivity. cbn beta. rewrite Nat2Z.id.
      destruct (short_codes_run j (next t) s ltac:(lia) (syms lens 0 j) p v D table) as (t1 & E1 & HT1 & HD1);
        [apply (ta_chain _ _ Ht); lia|by apply syms_small|done..|].
      rewrite (try_ok _ _ _ _ _ E1). cbn [fst snd]. by apply IH; [lia|lia|..].
Qed.

(** ** First codes of the longer lengths *)
Lemma syms_length lens j : (length (syms lens 0 j) ≤ length lens)%nat.
Proof.
  generalize 0. induction lens as [|x l IH]; intros i; [done|]. cbn [syms length]. rewrite length_app. specialize (IH (i + 1)). destruct (x =? j); cbn; lia.
Qed.

Definition starts_below (lens : list Z) (fc : list (option Z)) (j : Z) : Prop :=
  length fc = 7%nat ∧ ∀ j', 9 ≤ j' < j → syms lens 0 j' ≠ [] → fc !! Z.to_nat (j' - 9) = Some (Some (mirror 15 (places lens (Z.to_nat (j' - 1))))).

Lemma first_codes_run {St} lens t (s : St) (n : nat) : (length lens < 512)%nat → tallied lens t → ∀ j fc, 9 ≤ j → j + Z.of_nat n = 16 → starts_below lens fc j →
  ∃ fc', first_codes (seqZ j (Z.of_nat n)) t (mirror 15 (places lens (Z.to_nat (j - 1)))) fc s = Ok (Some fc', s) ∧ starts_below lens fc' 16.
Proof.
  intros Hlen Ht. induction n as [|n IH]; intros j fc Hj Hn Hfc.
  - assert (j = 16) as -> by lia. by exists fc.
  - rewrite seqZ_cons by lia. cbn [first_codes]. replace (Z.pred (Z.of_nat (S n))) with (Z.of_nat n) by lia.
    erewrite bind_ok by (apply tab_get; rewrite (ta_count _ _ Ht); lia). cbn beta. rewrite (ta_counts _ _ Ht) by lia.
    pose proof (places_S lens j ltac:(lia)) as ES. specialize (IH (Z.succ j)). replace (Z.succ j - 1) with j in IH by lia. rewrite ES in IH.
    set (p := places lens (Z.to_nat (j - 1))) in *. destruct (decide (syms lens 0 j = [])) as [El|El].
    + rewrite El in *. cbn [length Z.of_nat Z.eqb Z.mul]. cbn [length Z.of_nat Z.mul] in IH. rewrite Z.add_0_r in IH. apply IH; [lia|lia|].
      destruct Hfc as [Hl Hfc]. split; [done|]. intros j' Hj' Hs. apply Hfc; [|done]. destruct (decide (j' = j)) as [-> |]; [by rewrite El in Hs|lia].
    + replace (Z.of_nat (length (syms lens 0 j)) =? 0) with false by (destruct (syms lens 0 j); [done|cbn; lia]).
      destruct Hfc as [Hl Hfc]. erewrite bind_ok by (apply array_set_ok; lia). cbn beta. pose proof (syms_length lens j) as Hsl.
      pose proof (mirror_range 15 p) as Hr. assert (512 ≤ 2^j) as H512 by (change 512 with (2^9); apply Z.pow_le_mono_r; lia).
      assert (u16 (mirror 15 p) = mirror 15 p) as -> by (apply Z.mod_small; change (2^Z.of_nat 15) with 32768 in Hr; lia).
      pose proof (add_count_run j (Z.to_nat j) 0 p (Z.of_nat (length (syms lens 0 j)))) as E. rewrite Z2Nat.id in E by lia. rewrite E; [|lia..|apply Z.mod_1_r].
      cbn [Z.eqb negb]. apply IH; [lia|lia|]. split; [by rewrite length_insert|]. intros j' Hj' Hs. destruct (decide (j' = j)) as [-> |].
      * by rewrite list_lookup_insert_eq by lia.
      * rewrite list_lookup_insert_ne by lia. apply Hfc; [lia|done].
Qed.

(** ** Entries *)
Lemma lor_fields v b : 0 ≤ v < 512 → 0 ≤ b → Z.lor v (Z.shiftl b 9) = v + b * 512.
Proof.
  intros Hv Hb. rewrite Z.shiftl_mul_pow2, Z.lor_comm, (lor_disj 9) by (done || apply Z.mod_mul; done). change (2^9) with 512. lia.
Qed.

Definition fields (t : Z) : Z * Z * bool :=
  (Z.land t ZLIB_HUFFMAN_VALUE_MASK, Z.land (Z.shiftr t ZLIB_HUFFMAN_BITS_SHIFT) ZLIB_HUFFMAN_BITS_MASK, Z.land t (Z.shiftl 1 ZLIB_HUFFMAN_SECONDARY_SHIFT) =? 0).

Lemma fields_value v b : 0 ≤ v < 512 → 0 ≤ b < 8 → fields (v + b * 512) = (v, b, true).
Proof.
  intros Hv Hb. unfold fields. change ZLIB_HUFFMAN_VALUE_MASK with (Z.ones 9). change ZLIB_HUFFMAN_BITS_MASK with (Z.ones 3).
  rewrite !Z.land_ones, Z.shiftr_div_pow2 by done. change (Z.shiftl 1 ZLIB_HUFFMAN_SECONDARY_SHIFT) with (2^12). rewrite land_pow2_testbit by done.
  change (2^9) with 512. change (2^3) with 8. change (2^ZLIB_HUFFMAN_BITS_SHIFT) with 512. f_equal; [f_equal; lia|].
  rewrite Z.testbit_eqb by done. change (2^12) with 4096. rewrite Z.div_small by lia. done.
Qed.

Lemma fields_pointer v b : 0 ≤ v < 512 → 0 ≤ b < 8 → fields (v + b * 512 + 4096) = (v, b, false).
Proof.
  intros Hv Hb. unfold fields. change ZLIB_HUFFMAN_VALUE_MASK with (Z.ones 9). change ZLIB_HUFFMAN_BITS_MASK with (Z.ones 3).
  rewrite !Z.land_ones, Z.shiftr_div_pow2 by done. change (Z.shiftl 1 ZLIB_HUFFMAN_SECONDARY_SHIFT) with (2^12). rewrite land_pow2_testbit by done.
  change (2^9) with 512. change (2^3) with 8. change (2^ZLIB_HUFFMAN_BITS_SHIFT) with 512. f_equal; [f_equal; lia|].
  rewrite Z.testbit_eqb by done. change (2^12) with 4096. replace ((v + b * 512 + 4096) / 4096) with 1 by lia. done.
Qed.
