(* ===== verification/ElfHuffLong.v ===== *)
(** * Secondary tables (src/dwarf/elf.c)

    The part of [elf_zlib_inflate_table] for codes of more than 8 bits, and the
    correctness of the whole table. *)
From S2P Require Import Prelude ElfHuff ElfHuffTable.

(** A secondary table: for codes that start with the 8 bits [x_prefix], [x_bits] more
    bits decide. *)
Record second := mk_second { x_prefix : Z; x_off : Z; x_bits : Z }.
#[export] Instance second_eq_dec : EqDecision second.
Proof. solve_decision. Defined.

Definition pointer (x : second) : Z := x_off x + x_bits x * 512 + 4096.
Definition long_entry (d : hcode) : Z := h_sym d + (h_len d - 8) * 512.

(** The place that entry [z] of the table stands for, and where the entry is. *)
Definition place_of (x : second) (z : Z) : Z := 128 * x_prefix x + z * 2^(7 - x_bits x).
Definition entry_of (x : second) (z : Z) : Z := x_off x + 256 + mirror (Z.to_nat (x_bits x)) z.

Definition room (C : list second) : Z := foldr (λ x n, 2^x_bits x + n) 0 C.

Definition second_ok (ns : Z) (x : second) : Prop :=
  0 ≤ x_prefix x < 256 ∧ 1 ≤ x_bits x ≤ 7 ∧ 0 ≤ x_off x < 512 ∧ x_off x + 2^x_bits x ≤ ns.

(** The short codes [D0] are in the table, the long codes [D] in the secondary tables
    [C], which fill the space up to [ns]. *)
Record long_table (D0 D : list hcode) (C : list second) (ns : Z) (table : list Z) : Prop := {
  lt_length : length table = 1024%nat;
  lt_ns : 0 ≤ ns ≤ 768;
  lt_room : ns = room C;
  lt_prefix : NoDup (x_prefix <$> C);
  lt_second : Forall (second_ok ns) C;
  lt_apart : ∀ x y, x ∈ C → y ∈ C → x = y ∨ x_off x + 2^x_bits x ≤ x_off y ∨ x_off y + 2^x_bits y ≤ x_off x;
  lt_short : ∀ d q, d ∈ D0 → 0 ≤ q < 256 → inside d (128 * q) → tab table (mirror 8 q) = short_entry d;
  lt_pointer : ∀ x, x ∈ C → tab table (mirror 8 (x_prefix x)) = pointer x;
  lt_free : ∀ q, 0 ≤ q < 256 → (∀ d, d ∈ D0 → ¬ inside d (128 * q)) → q ∉ x_prefix <$> C → tab table (mirror 8 q) = 0;
  lt_codes : ∀ d, d ∈ D → ∃ x, x ∈ C ∧ x_prefix x = h_pos d / 128 ∧ h_len d - 8 ≤ x_bits x;
  lt_entries : ∀ d x z, d ∈ D → x ∈ C → 0 ≤ z < 2^x_bits x → inside d (place_of x z) → tab table (entry_of x z) = long_entry d;
  lt_empty : ∀ x z, x ∈ C → 0 ≤ z < 2^x_bits x → (∀ d, d ∈ D → ¬ inside d (place_of x z)) → tab table (entry_of x z) = 0;
  lt_rest : ∀ y, 256 + ns ≤ y → tab table y = 0 }.

Lemma filled_long d x z : 9 ≤ h_len d ≤ 15 → h_pos d mod 2^(15 - h_len d) = 0 → x_prefix x = h_pos d / 128 → h_len d - 8 ≤ x_bits x ≤ 7 → 0 ≤ z < 2^x_bits x →
  filled (x_off x + 256) (mirror 7 (h_pos d mod 128)) (2^x_bits x) (2^(h_len d - 8)) (entry_of x z) = true ↔ inside d (place_of x z).
Proof.
  destruct d as [s j p], x as [q off b]. unfold inside, place_of, entry_of. cbn [h_len h_pos x_prefix x_off x_bits]. intros Hj Hm Hq Hb Hz.
  pose proof (pow_pos (15 - j) ltac:(lia)) as P1. pose proof (pow_pos (j - 8) ltac:(lia)) as P2. pose proof (pow_pos (7 - b) ltac:(lia)) as P3.
  pose proof (pow_pos (b - (j - 8)) ltac:(lia)) as P4.
  assert (128 = 2^(j - 8) * 2^(15 - j)) as E7 by (change 128 with (2^7); rewrite <-Z.pow_add_r by lia; f_equal; lia).
  assert (2^(15 - j) = 2^(b - (j - 8)) * 2^(7 - b)) as Ej by (rewrite <-Z.pow_add_r by lia; f_equal; lia).
  assert (2^b = 2^(j - 8) * 2^(b - (j - 8))) as Eb by (rewrite <-Z.pow_add_r by lia; f_equal; lia).
  apply Z.mod_divide in Hm as [c Hc]; [|lia]. set (c' := c mod 2^(j - 8)). pose proof (Z.mod_pos_bound c (2^(j - 8)) P2) as Hc'. fold c' in Hc'.
  assert (p mod 128 = c' * 2^(15 - j)) as Epm by (rewrite Hc, E7, (Z.mul_comm (2^(j - 8))), (Z.mul_comm c), Z.mul_mod_distr_l by lia; fold c'; lia).
  pose proof (mirror_shift (Z.to_nat (j - 8)) (Z.to_nat (15 - j)) c') as E1. replace (Z.to_nat (15 - j) + Z.to_nat (j - 8))%nat with 7%nat in E1 by lia.
  rewrite Z2Nat.id in E1 by lia. rewrite Epm, E1. pose proof (mirror_range (Z.to_nat (j - 8)) c') as R1. pose proof (mirror_range (Z.to_nat b) z) as R2.
  rewrite Z2Nat.id in R1, R2 by lia. rewrite filled_mod, Z.eqb_eq by lia. replace (off + 256 + mirror (Z.to_nat b) z - (off + 256)) with (mirror (Z.to_nat b) z) by lia.
  pose proof (mirror_low (Z.to_nat b) (Z.to_nat (j - 8)) z ltac:(lia)) as E2. replace (Z.of_nat (Z.to_nat b - Z.to_nat (j - 8))) with (b - (j - 8)) in E2 by lia.
  rewrite Z2Nat.id in E2 by lia. rewrite E2.
  assert (p = 128 * q + c' * 2^(15 - j)) as Ep by (rewrite <-Epm, Hq; apply Z.div_mod; lia). clear Hc E1 E2 Epm Hq. clearbody c'.
  assert (0 ≤ z / 2^(b - (j - 8)) < 2^(j - 8)) as Hz' by (split; [apply Z.div_pos; lia|apply Z.div_lt_upper_bound; lia]).
  pose proof (Z.div_mod z (2^(b - (j - 8))) ltac:(lia)) as Edz. pose proof (Z.mod_pos_bound z (2^(b - (j - 8))) P4) as Hmz.
  rewrite Ep, Ej. generalize dependent (2^(b - (j - 8))). generalize dependent (2^(7 - b)). intros Y HY X HX. intros. split.
  - intros E. apply mirror_inj in E; [|rewrite Z2Nat.id; lia..]. rewrite E in Edz. clear - Edz Hmz HX HY. set (r := z mod X) in *. clearbody r. subst z.
    pose proof (Z.mul_nonneg_nonneg r Y). pose proof (Z.mul_le_mono_nonneg_r r (X - 1) Y). lia.
  - intros [Hw1 Hw2]. f_equal. symmetry. assert (c' * X ≤ z) by (apply (Z.mul_le_mono_pos_r _ _ Y); lia).
    assert (z < c' * X + X) by (apply (Z.mul_lt_mono_pos_r Y); lia). apply (Z.div_unique _ _ _ (z - c' * X)); [left; lia|lia].
Qed.

(** A long code, and the entries of a secondary table, lie in one block of 128
    places. *)
Definition long_code (d : hcode) : Prop := 9 ≤ h_len d ≤ 15 ∧ h_pos d mod 2^(15 - h_len d) = 0 ∧ 0 ≤ h_pos d < 2^15.

Lemma inside_block d w : long_code d → inside d w → w / 128 = h_pos d / 128.
Proof.
  intros (Hj & Hm & Hp) Hi. unfold inside in Hi. pose proof (pow_pos (15 - h_len d) ltac:(lia)) as P1. pose proof (pow_pos (h_len d - 8) ltac:(lia)) as P2.
  assert (128 = 2^(h_len d - 8) * 2^(15 - h_len d)) as E7 by (change 128 with (2^7); rewrite <-Z.pow_add_r by lia; f_equal; lia).
  apply Z.mod_divide in Hm as [c Hc]; [|lia]. rewrite Hc in *. revert E7 P1 P2 Hi. generalize (2^(15 - h_len d)), (2^(h_len d - 8)). intros Y X E7 HY HX Hi.
  symmetry. apply (Z.div_unique _ _ _ (w - 128 * (c * Y / 128))); [left|lia]. rewrite E7, Z.div_mul_cancel_r by lia.
  pose proof (Z.div_mod c X ltac:(lia)) as Ec. pose proof (Z.mod_pos_bound c X HX) as Hr. set (r := c mod X) in *. set (k := c / X) in *. clearbody r k. subst c.
  pose proof (Z.mul_nonneg_nonneg r Y). pose proof (Z.mul_le_mono_nonneg_r r (X - 1) Y). lia.
Qed.

Lemma place_block x z : 1 ≤ x_bits x ≤ 7 → 0 ≤ z < 2^x_bits x → place_of x z / 128 = x_prefix x.
Proof.
  intros Hb Hz. unfold place_of. pose proof (pow_pos (7 - x_bits x) ltac:(lia)) as P1.
  assert (128 = 2^x_bits x * 2^(7 - x_bits x)) as E7 by (change 128 with (2^7); rewrite <-Z.pow_add_r by lia; f_equal; lia).
  symmetry. apply (Z.div_unique _ _ _ (z * 2^(7 - x_bits x))); [left|lia]. revert E7 P1 Hz. generalize (2^(7 - x_bits x)), (2^x_bits x). intros Y X E7 HY Hz.
  pose proof (Z.mul_nonneg_nonneg z Y). pose proof (Z.mul_le_mono_nonneg_r z (X - 1) Y). lia.
Qed.

Lemma prefix_inj (C : list second) x y : NoDup (x_prefix <$> C) → x ∈ C → y ∈ C → x_prefix x = x_prefix y → x = y.
Proof.
  induction C as [|c C IH]; intros Hd Hx Hy E; [by apply not_elem_of_nil in Hx|]. cbn in Hd. apply NoDup_cons in Hd as [Hn Hd].
  apply elem_of_cons in Hx, Hy. destruct Hx as [-> | Hx], Hy as [-> | Hy]; [done|..|by apply IH].
  - destruct Hn. rewrite E. by apply list_elem_of_fmap_2.
  - destruct Hn. rewrite <-E. by apply list_elem_of_fmap_2.
Qed.

Lemma entry_range x z : 1 ≤ x_bits x ≤ 7 → x_off x + 256 ≤ entry_of x z < x_off x + 256 + 2^x_bits x.
Proof. intros Hb. unfold entry_of. pose proof (mirror_range (Z.to_nat (x_bits x)) z) as H. rewrite Z2Nat.id in H by lia. lia. Qed.

(** The entries of other tables are not filled. *)
Lemma filled_other base ind limit step y : 0 ≤ ind → y < base ∨ base + limit ≤ y → filled base ind limit step y = false.
Proof. intros Hi H. unfold filled. by replace ((ind <=? y - base) && (y - base <? limit)) with false by lia. Qed.

Definition apart_from (D : list hcode) (d : hcode) : Prop := ∀ d' w, d' ∈ D → inside d' w → ¬ inside d w.

(** What [fill] does for a long code. *)
Lemma long_fill_run {St} D0 D C ns table d x (s : St) : long_table D0 D C ns table → x ∈ C → long_code d → x_prefix x = h_pos d / 128 → h_len d - 8 ≤ x_bits x →
  apart_from D d →
  ∃ table', fill 128 table (x_off x + 256) (Z.shiftr (mirror 15 (h_pos d)) 8) (Z.shiftl 1 (x_bits x)) (Z.shiftl 1 (h_len d - 8)) (long_entry d) s = Ok (Some table', s) ∧
    length table' = length table ∧ (∀ y, 0 ≤ y → y < x_off x + 256 ∨ x_off x + 256 + 2^x_bits x ≤ y → tab table' y = tab table y) ∧
    (∀ z, 0 ≤ z < 2^x_bits x → inside d (place_of x z) → tab table' (entry_of x z) = long_entry d) ∧
    (∀ z, 0 ≤ z < 2^x_bits x → ¬ inside d (place_of x z) → tab table' (entry_of x z) = tab table (entry_of x z)).
Proof.
  intros HT Hx Hd Hq Hb HD. pose proof (proj1 (Forall_forall _ _) (lt_second _ _ _ _ _ HT) x Hx) as (Hx1 & Hx2 & Hx3 & Hx4).
  pose proof (lt_ns _ _ _ _ _ HT) as Hns. pose proof (lt_length _ _ _ _ _ HT) as Hlen. pose proof Hd as (Hj & Hm & Hp).
  rewrite Z.shiftr_div_pow2, !Z.shiftl_mul_pow2, !Z.mul_1_l by lia.
  pose proof (mirror_high 15 8 (h_pos d) ltac:(lia)) as Eh. change (Z.of_nat (15 - 8)) with 7 in Eh. change (Z.of_nat 8) with 8 in Eh. rewrite Eh. cbn [Nat.sub].
  change (2^7) with 128. set (ind := mirror 7 (h_pos d mod 128)). pose proof (mirror_range 7 (h_pos d mod 128)) as Hr. fold ind in Hr.
  pose proof (pow_pos (h_len d - 8) ltac:(lia)) as P1. pose proof (pow_pos (x_bits x) ltac:(lia)) as P2.
  assert (∀ z, 0 ≤ z < 2^x_bits x → filled (x_off x + 256) ind (2^x_bits x) (2^(h_len d - 8)) (entry_of x z) = true ↔ inside d (place_of x z)) as Hf
    by (intros z Hz; apply filled_long; try done; lia).
  assert (2^x_bits x ≤ 128) as P3 by (change 128 with (2^7); apply Z.pow_le_mono_r; lia).
  destruct (fill_run 128 (x_off x + 256) (2^x_bits x) (2^(h_len d - 8)) (long_entry d) s P1 ltac:(lia) ind table) as (t' & E & Hl & Ht); [lia|lia|nia| |].
  { intros y Hy Hy'. assert (x_off x + 256 ≤ y < x_off x + 256 + 2^x_bits x) as Hyr by (unfold filled in Hy'; lia).
    set (z := mirror (Z.to_nat (x_bits x)) (y - (x_off x + 256))). assert (y = entry_of x z) as Ey.
    { unfold entry_of, z. rewrite mirror_mirror by (rewrite Z2Nat.id; lia). lia. }
    assert (0 ≤ z < 2^x_bits x) as Hz. { pose proof (mirror_range (Z.to_nat (x_bits x)) (y - (x_off x + 256))) as H. rewrite Z2Nat.id in H by lia. done. }
    rewrite Ey in *. apply Hf in Hy'; [|done]. apply (lt_empty _ _ _ _ _ HT); [done..|]. intros d' Hd' Hi'. by apply (HD d' _ Hd' Hi'). }
  exists t'. split_and!; [done|done|..].
  - intros y Hy Hout. rewrite Ht by done. by rewrite filled_other by lia.
  - intros z Hz Hi. pose proof (entry_range x z Hx2). rewrite Ht by lia. apply Hf in Hi as ->; done.
  - intros z Hz Hi. pose proof (entry_range x z Hx2). rewrite Ht by lia. destruct (filled _ _ _ _ _) eqn:Ef; [|done]. by apply Hf in Ef.
Qed.

Lemma long_fill {St} D0 D C ns table d x (s : St) : long_table D0 D C ns table → x ∈ C → long_code d → x_prefix x = h_pos d / 128 → h_len d - 8 ≤ x_bits x →
  apart_from D d →
  ∃ table', fill 128 table (x_off x + 256) (Z.shiftr (mirror 15 (h_pos d)) 8) (Z.shiftl 1 (x_bits x)) (Z.shiftl 1 (h_len d - 8)) (long_entry d) s = Ok (Some table', s) ∧
    long_table D0 (D ++ [d]) C ns table'.
Proof.
  intros HT Hx Hd Hq Hb HD. destruct (long_fill_run _ _ _ _ _ _ _ s HT Hx Hd Hq Hb HD) as (t' & E & Hl & Hout & Hin & Hno). exists t'. split; [done|].
  pose proof HT as [H1 H2 H3 H4 H5 H6 H7 H8 H9 H10 H11 H12 H13]. pose proof (proj1 (Forall_forall _ _) H5) as H5'. pose proof (H5' x Hx) as (Hx1 & Hx2 & Hx3 & Hx4).
  assert (∀ q, 0 ≤ q < 256 → tab t' (mirror 8 q) = tab table (mirror 8 q)) as Hprim.
  { intros q Hq'. pose proof (mirror_range 8 q) as Hr. change (2^Z.of_nat 8) with 256 in Hr. apply Hout; [lia|left; lia]. }
  assert (∀ y z, y ∈ C → y ≠ x → tab t' (entry_of y z) = tab table (entry_of y z)) as Hother.
  { intros y z Hy Hne. destruct (H5' y Hy) as (Hy1 & Hy2 & Hy3 & Hy4). pose proof (entry_range y z Hy2). apply Hout; [lia|].
    destruct (H6 x y Hx Hy) as [-> |[|]]; [done|right; lia|left; lia]. }
  assert (∀ y z, y ∈ C → 0 ≤ z < 2^x_bits y → inside d (place_of y z) → y = x) as Hsame.
  { intros y z Hy Hz Hi. destruct (H5' y Hy) as (Hy1 & Hy2 & Hy3 & Hy4). apply (prefix_inj C); [done..|].
    rewrite Hq, <-(inside_block d _ Hd Hi). symmetry. by apply place_block. }
  split; try done.
  - lia.
  - intros d' q Hd' Hq' Hi. rewrite Hprim by done. by apply H7.
  - intros y Hy. rewrite Hprim by apply (H5' y Hy). by apply H8.
  - intros q Hq' Hno' Hn. rewrite Hprim by done. by apply H9.
  - intros d' [Hd'|Hd']%elem_of_app; [by apply H10|]. apply list_elem_of_singleton in Hd' as ->. by exists x.
  - intros d' y z [Hd'|Hd']%elem_of_app Hy Hz Hi.
    + destruct (decide (y = x)) as [-> |Hne]; [|rewrite Hother by done; by apply H11].
      rewrite Hno; [by apply H11|done|]. by apply (HD d').
    + apply list_elem_of_singleton in Hd' as ->. assert (y = x) as -> by (by eapply Hsame). by apply Hin.
  - intros y z Hy Hz Hnone. destruct (decide (y = x)) as [-> |Hne].
    + rewrite Hno; [|done|]; [|apply Hnone, elem_of_app; right; by apply list_elem_of_singleton]. apply H12; [done..|]. intros d' Hd'. apply Hnone, elem_of_app. by left.
    + rewrite Hother by done. apply H12; [done..|]. intros d' Hd'. apply Hnone, elem_of_app. by left.
  - intros y Hy. rewrite Hout by lia. by apply H13.
Qed.

(** ** The entry of the primary table *)
Lemma room_app C C' : room (C ++ C') = room C + room C'.
Proof. unfold room. induction C as [|x C IH]; [done|]. cbn. rewrite IH. lia. Qed.

Lemma add_second D0 D C ns table q b : long_table D0 D C ns table → Forall long_code D → 0 ≤ q < 256 → 1 ≤ b ≤ 7 → ns < 512 →
  q ∉ x_prefix <$> C → (∀ d, d ∈ D0 → ¬ inside d (128 * q)) →
  long_table D0 D (C ++ [mk_second q ns b]) (ns + 2^b) (<[Z.to_nat (mirror 8 q) := pointer (mk_second q ns b)]> table).
Proof.
  intros [H1 H2 H3 H4 H5 H6 H7 H8 H9 H10 H11 H12 H13] HD Hq Hb Hns Hn H0. set (x := mk_second q ns b). set (t' := <[_ := _]> table).
  rewrite Forall_forall in HD. rewrite Forall_forall in H5. pose proof (pow_pos b ltac:(lia)) as P1. assert (2^b ≤ 128) as P2 by (change 128 with (2^7); apply Z.pow_le_mono_r; lia).
  pose proof (mirror_range 8 q) as Hr. change (2^Z.of_nat 8) with 256 in Hr.
  assert (∀ y, 0 ≤ y → tab t' y = if y =? mirror 8 q then pointer x else tab table y) as Ht by (intros; apply tab_set; lia).
  assert (∀ q', 0 ≤ q' < 256 → q' ≠ q → tab t' (mirror 8 q') = tab table (mirror 8 q')) as Hprim.
  { intros q' Hq' Hne. rewrite Ht by apply mirror_range. destruct (Z.eqb_spec (mirror 8 q') (mirror 8 q)) as [E|]; [|done]. by apply mirror_inj in E. }
  assert (∀ y z, 1 ≤ x_bits y ≤ 7 → 0 ≤ x_off y → tab t' (entry_of y z) = tab table (entry_of y z)) as Hent.
  { intros y z Hy Hy'. pose proof (entry_range y z Hy). rewrite Ht by lia. by replace (_ =? _) with false by lia. }
  assert (∀ y, y ∈ C ++ [x] → y ∈ C ∨ y = x) as Hcase by (intros y [?|?%list_elem_of_singleton]%elem_of_app; auto).
  split.
  - unfold t'. by rewrite length_insert.
  - lia.
  - rewrite room_app. cbn. lia.
  - rewrite fmap_app. apply NoDup_app. split_and!; [done| |apply NoDup_singleton]. intros y Hy Hy'. cbn in Hy'. by apply list_elem_of_singleton in Hy' as ->.
  - apply Forall_forall. intros y [Hy| ->]%Hcase; [destruct (H5 y Hy) as (?&?&?&?); unfold second_ok; lia|]. unfold second_ok; cbn; lia.
  - intros y y' [Hy| ->]%Hcase [Hy'| ->]%Hcase; [by apply H6|..|by left]; right; [destruct (H5 y Hy) as (?&?&?&?)|destruct (H5 y' Hy') as (?&?&?&?)]; cbn; lia.
  - intros d q' Hd Hq' Hi. rewrite Hprim; [by apply H7|done|]. intros ->. by apply (H0 d).
  - intros y [Hy| ->]%Hcase.
    + rewrite Hprim; [by apply H8|apply (H5 y Hy)|]. intros E. apply Hn. rewrite <-E. by apply list_elem_of_fmap_2.
    + change (x_prefix x) with q. rewrite Ht by lia. by rewrite Z.eqb_refl.
  - intros q' Hq' Hn0 Hn'. rewrite fmap_app, elem_of_app in Hn'. rewrite Hprim; [apply H9; tauto|done|]. intros ->. apply Hn'. right. by apply list_elem_of_singleton.
  - intros d Hd. destruct (H10 d Hd) as (y & Hy & ?). exists y. split; [apply elem_of_app; by left|done].
  - intros d y z Hd [Hy| ->]%Hcase Hz Hi; [rewrite Hent by apply (H5 y Hy); by apply H11|]. destruct (H10 d Hd) as (y & Hy & Ey & _). destruct Hn.
    pose proof (inside_block d _ (HD d Hd) Hi) as E. rewrite place_block in E by (cbn; done). cbn in E. rewrite E, <-Ey. by apply list_elem_of_fmap_2.
  - intros y z [Hy| ->]%Hcase Hz Hnone; [rewrite Hent by apply (H5 y Hy); by apply H12|]. rewrite Hent by (cbn; lia).
    apply H13. pose proof (entry_range x z ltac:(cbn; lia)) as Hx. cbn [x_off x] in Hx. lia.
  - intros y Hy. rewrite Ht by lia. replace (_ =? _) with false by lia. apply H13. lia.
Qed.

(** What the loop remembers of the entry of the code before. *)
Definition cached (j : Z) (C : list second) (p : secondary_state) : Prop :=
  primary p = 256 ∨ ∃ x, x ∈ C ∧ primary p = mirror 8 (x_prefix x) ∧ secondary p = x_off x ∧ secondary_bits p = x_bits x ∧ j - 8 ≤ x_bits x.

Lemma enter_primary_run {St} D0 D C ns table d p (s : St) :
  long_table D0 D C ns table → Forall long_code D → long_code d → cached (h_len d) C p → next_secondary p = ns →
  (∀ d', d' ∈ D0 → ¬ inside d' (128 * (h_pos d / 128))) →
  (h_pos d / 128 ∉ x_prefix <$> C → ns < 512) → (∀ x, x ∈ C → h_len d - 8 ≤ x_bits x) →
  ∃ C' x ns' table', let p' := mk_secondary (mirror 8 (h_pos d / 128)) (x_off x) (x_bits x) ns' in
    enter_primary (h_len d) (mirror 15 (h_pos d)) p table s = Ok (Some (p', table'), s) ∧
    long_table D0 D C' ns' table' ∧ x ∈ C' ∧ x_prefix x = h_pos d / 128 ∧ h_len d - 8 ≤ x_bits x ∧ (C' = C ∨ C' = C ++ [x] ∧ x_bits x = h_len d - 8).
Proof.
  intros HT HD Hd Hca Hns H0 Hfit Hbits. pose proof Hd as (Hj & Hm & Hp). unfold enter_primary.
  pose proof (mirror_low 15 8 (h_pos d) ltac:(lia)) as El. change (2^Z.of_nat 8) with 256 in El. change (2^Z.of_nat (15 - 8)) with 128 in El.
  change 0xff with (Z.ones 8). rewrite Z.land_ones by done. change (2^8) with 256. rewrite El. set (q := h_pos d / 128) in *.
  assert (0 ≤ q < 256) as Hq by (unfold q; lia). pose proof (mirror_range 8 q) as Hr. change (2^Z.of_nat 8) with 256 in Hr.
  pose proof (lt_length _ _ _ _ _ HT) as Hlen. pose proof (proj1 (Forall_forall _ _) (lt_second _ _ _ _ _ HT)) as H5.
  destruct (Z.eqb_spec (mirror 8 q) (primary p)) as [E|_].
  - destruct Hca as [Hca|(x & Hx & E1 & E2 & E3 & E4)]; [lia|]. exists C, x, ns, table. assert (x_prefix x = q) as Eq.
    { rewrite E1 in E. apply mirror_inj in E; [done|done|apply (H5 x Hx)]. }
    split_and!; [|done..|by left]. rewrite <-E2, <-E3, <-Hns, E. by destruct p.
  - erewrite bind_ok by (apply tab_get; lia). cbn beta. destruct (decide (q ∈ x_prefix <$> C)) as [Hin|Hnin].
    + apply list_elem_of_fmap in Hin as (x & Eq & Hx). rewrite Eq, (lt_pointer _ _ _ _ _ HT x Hx). destruct (H5 x Hx) as (Hx1 & Hx2 & Hx3 & Hx4).
      pose proof (fields_pointer (x_off x) (x_bits x) ltac:(lia) ltac:(lia)) as [= F1 F2 F3]. fold (pointer x) in F1, F2, F3. rewrite F1, F2, F3.
      replace (pointer x =? 0) with false by (unfold pointer; lia). specialize (Hbits x Hx). replace (x_bits x <? h_len d - 8) with false by lia.
      exists C, x, ns, table. rewrite <-Eq, Hns. split_and!; try done. by left.
    + rewrite (lt_free _ _ _ _ _ HT) by done. cbn [Z.eqb]. specialize (Hfit Hnin). pose proof (lt_ns _ _ _ _ _ HT) as Hns0.
      rewrite Hns. change ZLIB_HUFFMAN_VALUE_MASK with (Z.ones 9). rewrite Z.land_ones, (Z.mod_small ns) by (done || lia). rewrite Z.eqb_refl. cbn [negb].
      rewrite !Z.shiftl_mul_pow2 by (done || lia). change (2^ZLIB_HUFFMAN_BITS_SHIFT) with 512. change (2^ZLIB_HUFFMAN_SECONDARY_SHIFT) with 4096. rewrite !Z.mul_1_l.
      set (x := mk_second q ns (h_len d - 8)). assert (u16 (ns + (h_len d - 8) * 512 + 4096) = pointer x) as -> by (change (pointer x) with (ns + (h_len d - 8) * 512 + 4096); apply Z.mod_small; lia).
      erewrite bind_ok by (apply array_set_ok; lia). cbn beta.
      exists (C ++ [x]), x, (ns + 2^(h_len d - 8)), (<[Z.to_nat (mirror 8 q) := pointer x]> table). split_and!; [reflexivity|..|done|cbn; lia|by right].
      * apply add_second; try done; lia.
      * apply elem_of_app. right. by apply list_elem_of_singleton.
Qed.

(** One code of [long_codes]. *)
Lemma long_step {St} D0 D C ns table d p (s : St) :
  long_table D0 D C ns table → Forall long_code D → long_code d → cached (h_len d) C p → next_secondary p = ns →
  (∀ d', d' ∈ D0 → ¬ inside d' (128 * (h_pos d / 128))) →
  (h_pos d / 128 ∉ x_prefix <$> C → ns < 512) → (∀ x, x ∈ C → h_len d - 8 ≤ x_bits x) → apart_from D d → 0 ≤ h_sym d < 512 →
  ∃ C' x ns' t1 t2, let p' := mk_secondary (mirror 8 (h_pos d / 128)) (x_off x) (x_bits x) ns' in
    enter_primary (h_len d) (mirror 15 (h_pos d)) p table s = Ok (Some (p', t1), s) ∧
    fill 128 t1 (x_off x + 256) (Z.shiftr (mirror 15 (h_pos d)) 8) (Z.shiftl 1 (x_bits x)) (Z.shiftl 1 (h_len d - 8))
      (u16 (Z.lor (h_sym d) (Z.shiftl (h_len d - 8) ZLIB_HUFFMAN_BITS_SHIFT))) s = Ok (Some t2, s) ∧
    long_table D0 (D ++ [d]) C' ns' t2 ∧ cached (h_len d) C' p' ∧ (C' = C ∨ C' = C ++ [x] ∧ x_bits x = h_len d - 8 ∧ x_prefix x = h_pos d / 128).
Proof.
  intros HT HD Hd Hca Hns H0 Hfit Hbits Hap Hsym. pose proof Hd as (Hj & _ & _).
  destruct (enter_primary_run D0 D C ns table d p s) as (C' & x & ns' & t1 & E1 & HT1 & Hx & Hq & Hb & HC'); [done..|].
  destruct (long_fill D0 D C' ns' t1 d x s) as (t2 & E2 & HT2); [done..|]. exists C', x, ns', t1, t2. split; [done|]. split.
  { assert (u16 (Z.lor (h_sym d) (Z.shiftl (h_len d - 8) ZLIB_HUFFMAN_BITS_SHIFT)) = long_entry d) as ->; [|exact E2].
    change ZLIB_HUFFMAN_BITS_SHIFT with 9. rewrite lor_fields by (done || lia). unfold u16, long_entry. by rewrite Z.mod_small by lia. }
  split; [done|]. split; [|destruct HC' as [|[]]; auto]. right. exists x. split_and!; [done|by rewrite Hq|done..].
Qed.
