(* ===== verification/ElfHuffCode.v ===== *)
(** * The correctness of the Huffman tables (src/dwarf/elf.c)

    The codes of RFC 1951, that the secondary tables always fit, and that the table
    built by [elf_zlib_inflate_table] decodes every code. *)
From S2P Require Import Prelude ElfHuff ElfHuffTable ElfHuffLong.

(** ** All codes *)
Lemma placed_elem j d : ∀ l p, d ∈ placed j p l ↔ ∃ (k : nat) s, l !! k = Some s ∧ d = mk_hcode s j (p + Z.of_nat k * 2^(15 - j)).
Proof.
  induction l as [|a l IH]; intros p; cbn [placed]; [split; [by intros ?%not_elem_of_nil|by intros (k & s & ? & _)]|]. rewrite elem_of_cons, IH. split.
  - intros [-> |(k & s & Hk & ->)]; [exists O, a; split; [done|f_equal; lia]|]. exists (S k), s. split; [done|]. f_equal. lia.
  - intros ([|k] & s & Hk & ->); [left; injection Hk as ->; f_equal; lia|]. right. exists k, s. split; [done|]. f_equal. lia.
Qed.

Section lengths.
Context (lens : list Z) (HK : places lens 15 ≤ 2^15).

Lemma code_at_facts j d : 1 ≤ j ≤ 15 → d ∈ codes_at lens j →
  h_len d = j ∧ h_pos d mod 2^(15 - j) = 0 ∧ places lens (Z.to_nat (j - 1)) ≤ h_pos d ∧ h_pos d + 2^(15 - j) ≤ places lens (Z.to_nat j) ∧
  0 ≤ h_sym d < Z.of_nat (length lens).
Proof using HK.
  intros Hj Hd. destruct (places_start lens j Hj HK) as (Hm & H0 & _). pose proof (pow_pos (15 - j) ltac:(lia)) as P1.
  apply placed_elem in Hd as (k & s & Hs & ->). cbn [h_len h_pos h_sym]. pose proof (lookup_lt_Some _ _ _ Hs) as Hk. rewrite (places_S lens j) by lia.
  split_and!; [done|by rewrite Z.mod_add by lia|nia|nia|..]; apply list_elem_of_lookup_2, syms_elem in Hs as [Hs1 Hs2]; [done|].
  apply lookup_lt_Some in Hs2. lia.
Qed.

Lemma codes_from_elem js d : d ∈ codes_from lens js ↔ ∃ j, j ∈ js ∧ d ∈ codes_at lens j.
Proof using Type. unfold codes_from. rewrite list_elem_of_bind. naive_solver. Qed.

Lemma place_code_aligned j d : 1 ≤ j ≤ 15 → d ∈ codes_at lens j → 0 ≤ h_pos d ∧ h_pos d + 2^(15 - j) ≤ 2^15.
Proof using HK.
  intros Hj Hd. destruct (code_at_facts j d Hj Hd) as (_ & _ & H1 & H2 & _). pose proof (places_nonneg lens (Z.to_nat (j - 1)) ltac:(lia)).
  pose proof (places_mono lens (Z.to_nat j) 15 ltac:(lia)). lia.
Qed.

Lemma code_is_long j d : 9 ≤ j ≤ 15 → d ∈ codes_at lens j → long_code d.
Proof using HK.
  intros Hj Hd. destruct (code_at_facts j d ltac:(lia) Hd) as (Hl & Hm & _). destruct (place_code_aligned j d ltac:(lia) Hd). pose proof (pow_pos (15 - j) ltac:(lia)).
  unfold long_code. rewrite Hl. split_and!; (done || lia).
Qed.

(** Longer codes come later. *)
Lemma longer_later j j' d d' : 1 ≤ j < j' → j' ≤ 15 → d ∈ codes_at lens j → d' ∈ codes_at lens j' → h_pos d + 2^(15 - j) ≤ h_pos d'.
Proof using HK.
  intros Hj Hj' Hd Hd'. destruct (code_at_facts j d ltac:(lia) Hd) as (_ & _ & _ & H1 & _). destruct (code_at_facts j' d' ltac:(lia) Hd') as (_ & _ & H2 & _).
  pose proof (places_mono lens (Z.to_nat j) (Z.to_nat (j' - 1)) ltac:(lia)). lia.
Qed.

(** Every place belongs to a code. *)
Lemma place_covered m n w : (m ≤ n ≤ 15)%nat → places lens m ≤ w < places lens n → ∃ j d, Z.of_nat m < j ≤ Z.of_nat n ∧ d ∈ codes_at lens j ∧ inside d w.
Proof using Type.
  intros [Hm Hn]. induction Hm as [|n Hm IH]; intros Hw; [lia|]. destruct (Z.lt_ge_cases w (places lens n)) as [Hlt|Hge].
  { destruct (IH ltac:(lia) ltac:(lia)) as (j & d & Hj & Hd). exists j, d. split; [lia|done]. }
  set (j := Z.of_nat (S n)). pose proof (pow_pos (15 - j) ltac:(lia)) as P1. cbn [places] in Hw. fold j in Hw. set (p := places lens n) in *.
  set (k := Z.to_nat ((w - p) / 2^(15 - j))). pose proof (Z.div_mod (w - p) (2^(15 - j)) ltac:(lia)) as Ew. pose proof (Z.mod_pos_bound (w - p) (2^(15 - j)) P1) as Hr.
  assert (0 ≤ (w - p) / 2^(15 - j)) as H0 by (apply Z.div_pos; lia).
  assert ((w - p) / 2^(15 - j) < Z.of_nat (length (syms lens 0 j))) as Hlt by (apply Z.div_lt_upper_bound; lia).
  destruct (lookup_lt_is_Some_2 (syms lens 0 j) k ltac:(lia)) as [s Hs]. exists j, (mk_hcode s j (p + Z.of_nat k * 2^(15 - j))). split; [lia|]. split.
  - apply placed_elem. exists k, s. split; [done|]. do 2 f_equal. unfold p. f_equal. lia.
  - unfold inside. cbn [h_pos h_len]. unfold k. rewrite Z2Nat.id by lia. lia.
Qed.
End lengths.

(** ** The room for secondary tables *)

(** The codes follow each other without a gap. *)
Fixpoint consecutive (p : Z) (A : list hcode) : Prop :=
  match A with [] => True | d :: A => h_pos d = p ∧ consecutive (p + 2^(15 - h_len d)) A end.

(** The room of the tables whose last code is in [A]. *)
Definition closes (d : hcode) : bool := (h_pos d + 2^(15 - h_len d)) mod 128 =? 0.
Definition closed_room (A : list hcode) : Z := foldr (λ d n, 2^(h_len d - 8) + n) 0 (filter closes A).

(** A table is no larger than the number of codes that follow it up to the end of the
    next one, so that all tables but the last have at most as many entries as there
    are codes. *)
Lemma closed_bound : ∀ A p b c, consecutive p A → Forall long_code A → StronglySorted (λ d d', h_len d ≤ h_len d') A →
  Forall (λ d, b ≤ 2^(h_len d - 8)) A → 0 ≤ b ≤ 128 → 0 ≤ c → b * (p mod 128) ≤ 128 * c → closed_room A + b ≤ c + Z.of_nat (length A) + 128.
Proof.
  induction A as [|d A IH]; intros p b c Hcon Hlong Hsort Hb Hb128 Hc Hbc; [cbn; lia|]. destruct Hcon as [Hp Hcon].
  apply Forall_cons in Hlong as [Hd Hlong]. apply StronglySorted_inv in Hsort as [Hsort Hle]. apply Forall_cons in Hb as [Hbd Hb].
  unfold closed_room in *. rewrite filter_cons. pose proof Hd as (Hj & Hm & Hr). pose proof (pow_pos (15 - h_len d) ltac:(lia)) as P1.
  assert (128 = 2^(h_len d - 8) * 2^(15 - h_len d)) as E7 by (change 128 with (2^7); rewrite <-Z.pow_add_r by lia; f_equal; lia).
  assert (2^(h_len d - 8) ≤ 128) as P2 by (change 128 with (2^7); apply Z.pow_le_mono_r; lia).
  pose proof (inside_block d (p + 2^(15 - h_len d) - 1) Hd ltac:(unfold inside; lia)) as Hblock. rewrite Hp in Hblock. cbn [length].
  assert (b * 2^(15 - h_len d) ≤ 128) as Hb7 by (rewrite E7; apply Z.mul_le_mono_nonneg_r; lia).
  set (sz := 2^(15 - h_len d)) in *. assert (closes d = ((p + sz) mod 128 =? 0)) as Ecl by (unfold closes; by rewrite Hp).
  destruct (decide (closes d)) as [Hcl|Hcl]; rewrite Is_true_true, Ecl in Hcl.
  - cbn [foldr]. assert (p mod 128 + sz = 128) as E by lia. assert (b ≤ c + 1) by nia.
    assert (Forall (λ d', 2^(h_len d - 8) ≤ 2^(h_len d' - 8)) A) as Hb' by (eapply Forall_impl; [exact Hle|]; intros d' Hd'; cbn in Hd'; apply Z.pow_le_mono_r; lia).
    specialize (IH (p + sz) (2^(h_len d - 8)) 0 Hcon Hlong Hsort Hb' ltac:(lia) ltac:(lia) ltac:(rewrite (proj1 (Z.eqb_eq _ _) Hcl); lia)). lia.
  - assert ((p + sz) mod 128 = p mod 128 + sz) as E by lia. specialize (IH (p + sz) b (c + 1) Hcon Hlong Hsort Hb Hb128). rewrite E in IH.
    specialize (IH ltac:(lia) ltac:(lia)). lia.
Qed.

(** Sums over lists with distinct keys. *)
Lemma sum_by_key {X E} (kx vx : X → Z) (ke ve : E → Z) (C : list X) : NoDup (kx <$> C) → ∀ L : list E,
  (∀ c, c ∈ C → ∃ e, e ∈ L ∧ ke e = kx c ∧ vx c ≤ ve e) → (∀ e, e ∈ L → 0 ≤ ve e) →
  foldr (λ c n, vx c + n) 0 C ≤ foldr (λ e n, ve e + n) 0 L.
Proof.
  assert (∀ L1 e L2, foldr (λ e n, ve e + n) 0 (L1 ++ e :: L2) = ve e + foldr (λ e n, ve e + n) 0 (L1 ++ L2)) as Hmid.
  { intros L1 e L2. induction L1 as [|a L1 IH]; cbn; [done|]. rewrite IH. lia. }
  induction C as [|c C IH]; intros Hd L Hex Hpos.
  - cbn. clear Hex. induction L as [|e L IHL]; cbn; [done|]. pose proof (Hpos e ltac:(by left)).
    assert (0 ≤ foldr (λ e n, ve e + n) 0 L); [|lia]. apply IHL. intros e' He'. apply Hpos. by right.
  - cbn [fmap list_fmap] in Hd. apply NoDup_cons in Hd as [Hn Hd]. destruct (Hex c ltac:(by left)) as (e & He & Hk & Hv).
    apply list_elem_of_split in He as (L1 & L2 & ->). rewrite Hmid. cbn [foldr]. apply Z.add_le_mono; [done|]. apply IH; [done|..].
    + intros c' Hc'. destruct (Hex c' ltac:(by right)) as (e' & He' & Hk' & Hv'). exists e'. split; [|done].
      apply elem_of_app in He' as [?|He']; [apply elem_of_app; by left|]. apply elem_of_cons in He' as [-> |?]; [|apply elem_of_app; by right].
      destruct Hn. rewrite <-Hk, Hk'. by apply list_elem_of_fmap_2.
    + intros e' He'. apply Hpos. apply elem_of_app in He' as [?|?]; apply elem_of_app; [by left|]. right. by right.
Qed.

Lemma consecutive_placed j l : ∀ p A, consecutive (p + Z.of_nat (length l) * 2^(15 - j)) A → consecutive p (placed j p l ++ A).
Proof.
  induction l as [|s l IH]; intros p A H; cbn [placed app length] in *; [by rewrite Z.mul_0_l, Z.add_0_r in H|]. split; [done|]. cbn [h_len].
  apply IH. replace (p + 2^(15 - j) + Z.of_nat (length l) * 2^(15 - j)) with (p + Z.of_nat (S (length l)) * 2^(15 - j)) by lia. done.
Qed.

Lemma placed_length j l : ∀ p, length (placed j p l) = length l.
Proof. induction l as [|s l IH]; intros p; cbn; [done|]. by rewrite IH. Qed.

Lemma consecutive_codes lens (n : nat) : ∀ j, 1 ≤ j → consecutive (places lens (Z.to_nat (j - 1))) (codes_from lens (seqZ j (Z.of_nat n))).
Proof.
  induction n as [|n IH]; intros j Hj; [done|]. rewrite seqZ_cons by lia. replace (Z.pred (Z.of_nat (S n))) with (Z.of_nat n) by lia.
  change (codes_from lens (j :: seqZ (Z.succ j) (Z.of_nat n))) with (codes_at lens j ++ codes_from lens (seqZ (Z.succ j) (Z.of_nat n))).
  apply consecutive_placed. specialize (IH (Z.succ j) ltac:(lia)). replace (Z.succ j - 1) with j in IH by lia. by rewrite (places_S lens j) in IH.
Qed.

Lemma StronglySorted_app_2 {A} (R : A → A → Prop) l1 l2 : StronglySorted R l1 → StronglySorted R l2 → (∀ x y, x ∈ l1 → y ∈ l2 → R x y) → StronglySorted R (l1 ++ l2).
Proof.
  induction l1 as [|a l1 IH]; intros H1 H2 H; [done|]. apply StronglySorted_inv in H1 as [H1 Ha]. cbn. constructor.
  - apply IH; [done..|]. intros x y Hx. apply H. by right.
  - apply Forall_app. split; [done|]. apply Forall_forall. intros y Hy. apply H; [by left|done].
Qed.

Lemma sorted_codes lens (n : nat) : ∀ j, StronglySorted (λ d d', h_len d ≤ h_len d') (codes_from lens (seqZ j (Z.of_nat n))).
Proof.
  assert (∀ j d, d ∈ codes_at lens j → h_len d = j) as Hl by (intros j d (k & s & _ & ->)%placed_elem; done).
  induction n as [|n IH]; intros j; [constructor|]. rewrite seqZ_cons by lia. replace (Z.pred (Z.of_nat (S n))) with (Z.of_nat n) by lia.
  change (codes_from lens (j :: seqZ (Z.succ j) (Z.of_nat n))) with (codes_at lens j ++ codes_from lens (seqZ (Z.succ j) (Z.of_nat n))).
  apply StronglySorted_app_2; [|done|].
  - unfold codes_at. generalize (places lens (Z.to_nat (j - 1))). induction (syms lens 0 j) as [|s l IHl]; intros p; cbn [placed]; constructor; [done|].
    apply Forall_forall. intros d (k & s' & _ & ->)%placed_elem. cbn. lia.
  - intros d d' Hd (j' & Hj' & Hd')%codes_from_elem. apply elem_of_seqZ in Hj'. rewrite (Hl _ _ Hd), (Hl _ _ Hd'). lia.
Qed.

Lemma codes_from_length lens js : NoDup js → (length (codes_from lens js) ≤ length lens)%nat.
Proof.
  intros Hd. set (L := js ≫= syms lens 0). assert (length (codes_from lens js) = length L) as ->.
  { unfold L. clear. induction js as [|j js IH]; [done|]. change (codes_from lens (j :: js)) with (codes_at lens j ++ codes_from lens js).
    cbn [mbind list_bind]. rewrite !length_app. unfold codes_at. rewrite placed_length. by f_equal. }
  assert (NoDup L) as HL.
  { unfold L. induction js as [|j js IH]; [constructor|]. apply NoDup_cons in Hd as [Hn Hd]. cbn [mbind list_bind]. apply NoDup_app. split_and!; [apply syms_NoDup| |by apply IH].
    intros s [_ Hs]%syms_elem (j' & [_ Hs']%syms_elem & Hj')%list_elem_of_bind. rewrite Hs in Hs'. by injection Hs' as ->. }
  assert (L ⊆+ seqZ 0 (Z.of_nat (length lens))) as Hsub.
  { apply NoDup_submseteq; [done|]. intros s (j & [Hs0 Hs]%syms_elem & _)%list_elem_of_bind. apply elem_of_seqZ. apply lookup_lt_Some in Hs. lia. }
  apply submseteq_length in Hsub. rewrite length_seqZ in Hsub. lia.
Qed.

(** ** The secondary tables fit *)
Section fits.
Context (lens : list Z) (HK : places lens 15 = 2^15) (Hlen : (length lens ≤ 383)%nat).

Definition long_codes_of : list hcode := codes_from lens (seqZ 9 7).

Lemma long_codes_long : Forall long_code long_codes_of.
Proof using HK Hlen.
  apply Forall_forall. intros d (j & Hj & Hd)%codes_from_elem. apply elem_of_seqZ in Hj. by eapply (code_is_long lens ltac:(lia) j d ltac:(lia)).
Qed.

(** The tables [C], each made for a code with its prefix, have room. *)
Lemma room_bound C : NoDup (x_prefix <$> C) → (∀ x, x ∈ C → ∃ d, d ∈ long_codes_of ∧ x_bits x = h_len d - 8 ∧ x_prefix x = h_pos d / 128) → room C ≤ 511.
Proof using HK Hlen.
  intros HC Horig. pose proof (Forall_forall long_code long_codes_of) as HF. pose proof (proj1 HF long_codes_long) as Hlong. clear HF.
  transitivity (closed_room long_codes_of).
  - unfold room, closed_room. apply (sum_by_key x_prefix _ (λ d, h_pos d / 128)); [done|..].
    + intros x Hx. destruct (Horig x Hx) as (d & Hd & Hb & Hq). pose proof (Hlong d Hd) as Hld. pose proof Hld as (Hj & Hm & Hp).
      set (w := 128 * (h_pos d / 128) + 127). assert (h_pos d / 128 < 256) as Hq256 by lia.
      apply codes_from_elem in Hd as (j & Hj' & Hd). apply elem_of_seqZ in Hj'. destruct (code_at_facts lens ltac:(lia) j d ltac:(lia) Hd) as (Hl & _ & H8 & _).
      pose proof (places_mono lens 8 (Z.to_nat (j - 1)) ltac:(lia)) as H8'.
      destruct (place_covered lens 8 15 w ltac:(lia)) as (j' & e & Hje & He & Hi); [unfold w; lia|].
      pose proof (code_is_long lens ltac:(lia) j' e ltac:(lia) He) as Hle. destruct (code_at_facts lens ltac:(lia) j' e ltac:(lia) He) as (Hl' & _).
      assert (j ≤ j') as Hjj.
      { destruct (Z.le_gt_cases j j') as [|Hgt]; [done|]. pose proof (longer_later lens ltac:(lia) j' j e d ltac:(lia) ltac:(lia) He Hd).
        unfold inside in Hi. rewrite Hl' in Hi. lia. }
      exists e. pose proof (inside_block e w Hle Hi) as Hbl. assert (w / 128 = h_pos d / 128) as Hw by (unfold w; lia).
      split; [|split; [by rewrite Hq, <-Hbl|rewrite Hb, Hl, Hl'; apply Z.pow_le_mono_r; lia]].
      apply list_elem_of_filter. split; [|apply codes_from_elem; exists j'; split; [apply elem_of_seqZ; lia|done]].
      apply Is_true_true. unfold closes. apply Z.eqb_eq. unfold inside in Hi. pose proof Hle as (Hje' & Hme & Hpe).
      pose proof (inside_block e (h_pos e + 2^(15 - h_len e) - 1) Hle ltac:(unfold inside; lia)) as Hend. lia.
    + intros e He. apply list_elem_of_filter in He as [_ He]. pose proof (Hlong e He) as (Hj & _). pose proof (pow_pos (h_len e - 8) ltac:(lia)). lia.
  - pose proof (consecutive_codes lens 7 9 ltac:(lia)) as Hcon. pose proof (sorted_codes lens 7 9) as Hsort.
    assert (length long_codes_of ≤ length lens)%nat by (apply codes_from_length, NoDup_seqZ).
    pose proof (closed_bound long_codes_of _ 0 0 Hcon long_codes_long Hsort) as Hb.
    assert (closed_room long_codes_of + 0 ≤ 0 + Z.of_nat (length long_codes_of) + 128); [|lia]. apply Hb; [|lia..].
    eapply Forall_impl; [exact long_codes_long|]. intros d (Hj & _). pose proof (pow_pos (h_len d - 8) ltac:(lia)). lia.
Qed.
End fits.

(** ** Codes of more than 8 bits *)
Section long.
Context (lens : list Z) (HK : places lens 15 = 2^15) (Hlen : (length lens ≤ 383)%nat).

(** The state of the loops, when codes of [j] or more bits are in the table. *)
Record long_inv (j : Z) (D : list hcode) (C : list second) (ns : Z) (table : list Z) : Prop := {
  li_table : long_table (codes_from lens (seqZ 1 8)) D C ns table;
  li_codes : ∀ d, d ∈ D → d ∈ long_codes_of lens;
  li_origin : ∀ x, x ∈ C → ∃ d, d ∈ long_codes_of lens ∧ x_bits x = h_len d - 8 ∧ x_prefix x = h_pos d / 128;
  li_bits : ∀ x, x ∈ C → j - 8 ≤ x_bits x }.

Lemma prefix_unused j d d' : 9 ≤ j ≤ 15 → d ∈ codes_at lens j → ends_by (places lens 8) (codes_from lens (seqZ 1 8)) → d' ∈ codes_from lens (seqZ 1 8) →
  ¬ inside d' (128 * (h_pos d / 128)).
Proof using HK Hlen.
  intros Hj Hd H0 Hd' Hi. destruct (code_at_facts lens ltac:(lia) j d ltac:(lia) Hd) as (_ & _ & Hpos & _).
  pose proof (places_mono lens 8 (Z.to_nat (j - 1)) ltac:(lia)) as H8. unfold ends_by in H0. rewrite Forall_forall in H0. specialize (H0 d' Hd'). unfold inside in Hi.
  pose proof (places_mod lens 8 ltac:(lia)) as Hm. change (2^(15 - Z.of_nat 8)) with 128 in Hm. lia.
Qed.

Lemma room_left j D C ns table d : 9 ≤ j ≤ 15 → d ∈ codes_at lens j → long_inv j D C ns table → h_pos d / 128 ∉ x_prefix <$> C → ns < 512.
Proof using HK Hlen.
  intros Hj Hd [HT HD Hor Hbits] Hn. destruct (code_at_facts lens ltac:(lia) j d ltac:(lia) Hd) as (Hl & _).
  assert (d ∈ long_codes_of lens) as Hdl by (apply codes_from_elem; exists j; split; [apply elem_of_seqZ; lia|done]).
  assert (room (C ++ [mk_second (h_pos d / 128) 0 (j - 8)]) ≤ 511) as Hr.
  - apply (room_bound lens HK Hlen).
    + rewrite fmap_app. apply NoDup_app. split_and!; [apply (lt_prefix _ _ _ _ _ HT)| |apply NoDup_singleton].
      intros y Hy Hy'. cbn in Hy'. by apply list_elem_of_singleton in Hy' as ->.
    + intros y [Hy| ->%list_elem_of_singleton]%elem_of_app; [by apply Hor|]. exists d. rewrite Hl. by split_and!.
  - rewrite room_app in Hr. change (room [mk_second (h_pos d / 128) 0 (j - 8)]) with (2^(j - 8) + 0) in Hr. rewrite (lt_room _ _ _ _ _ HT).
    pose proof (pow_pos (j - 8) ltac:(lia)). lia.
Qed.

Lemma inv_added j D C C' ns ns' table table' d x : 9 ≤ j ≤ 15 → d ∈ codes_at lens j → long_inv j D C ns table →
  long_table (codes_from lens (seqZ 1 8)) (D ++ [d]) C' ns' table' → (C' = C ∨ C' = C ++ [x] ∧ x_bits x = j - 8 ∧ x_prefix x = h_pos d / 128) →
  long_inv j (D ++ [d]) C' ns' table'.
Proof using HK Hlen.
  intros Hj Hd [HT HD Hor Hbits] HT' HC'. destruct (code_at_facts lens ltac:(lia) j d ltac:(lia) Hd) as (Hl & _).
  assert (d ∈ long_codes_of lens) as Hdl by (apply codes_from_elem; exists j; split; [apply elem_of_seqZ; lia|done]). split; [exact HT'|..].
  - intros d' [Hd'| ->%list_elem_of_singleton]%elem_of_app; [by apply HD|done].
  - intros y Hy. destruct HC' as [-> |(-> & Hb & Hq)]; [by apply Hor|].
    apply elem_of_app in Hy as [Hy| ->%list_elem_of_singleton]; [by apply Hor|]. exists d. rewrite Hl. by split_and!.
  - intros y Hy. destruct HC' as [-> |(-> & Hb & Hq)]; [by apply Hbits|]. apply elem_of_app in Hy as [Hy| ->%list_elem_of_singleton]; [by apply Hbits|lia].
Qed.

Lemma inv_step {St} j D C ns table d p (s : St) : 9 ≤ j ≤ 15 → d ∈ codes_at lens j → long_inv j D C ns table → cached j C p → next_secondary p = ns →
  ends_by (places lens 8) (codes_from lens (seqZ 1 8)) → apart_from D d →
  ∃ C' x ns' t1 t2, let p' := mk_secondary (mirror 8 (h_pos d / 128)) (x_off x) (x_bits x) ns' in
    enter_primary j (mirror 15 (h_pos d)) p table s = Ok (Some (p', t1), s) ∧
    fill 128 t1 (x_off x + 256) (Z.shiftr (mirror 15 (h_pos d)) 8) (Z.shiftl 1 (x_bits x)) (Z.shiftl 1 (j - 8))
      (u16 (Z.lor (h_sym d) (Z.shiftl (j - 8) ZLIB_HUFFMAN_BITS_SHIFT))) s = Ok (Some t2, s) ∧
    long_inv j (D ++ [d]) C' ns' t2 ∧ cached j C' p'.
Proof using HK Hlen.
  intros Hj Hd HI Hca Hns H0 Hap. destruct (code_at_facts lens ltac:(lia) j d ltac:(lia) Hd) as (Hl & _ & _ & _ & Hsym).
  pose proof (code_is_long lens ltac:(lia) j d ltac:(lia) Hd) as Hlong.
  pose proof (long_step (codes_from lens (seqZ 1 8)) D C ns table d p s (li_table _ _ _ _ _ HI)) as Hstep. rewrite Hl in Hstep.
  destruct Hstep as (C' & x & ns' & t1 & t2 & E1 & E2 & HT2 & Hca2 & HC').
  - apply Forall_forall. intros d' Hd'. exact (proj1 (Forall_forall _ _) (long_codes_long lens HK Hlen) d' (li_codes _ _ _ _ _ HI d' Hd')).
  - exact Hlong.
  - exact Hca.
  - exact Hns.
  - intros d'. by apply (prefix_unused j).
  - by apply (room_left j D C ns table).
  - apply (li_bits _ _ _ _ _ HI).
  - exact Hap.
  - lia.
  - exists C', x, ns', t1, t2. split; [exact E1|]. split; [exact E2|]. split; [|exact Hca2]. by apply (inv_added j D C C' ns ns' table t2 d x).
Qed.

(** Codes that lie before [p] or at or behind [q]. *)
Definition outside (p q : Z) (D : list hcode) : Prop := Forall (λ d, h_pos d + 2^(15 - h_len d) ≤ p ∨ q ≤ h_pos d) D.

Lemma long_codes_run {St} j nx (s : St) : 9 ≤ j ≤ 15 → ends_by (places lens 8) (codes_from lens (seqZ 1 8)) → ∀ l p v D C ns table ps,
  chain nx l → Forall (λ a, 0 ≤ a) l → p mod 2^(15 - j) = 0 → p + Z.of_nat (length l) * 2^(15 - j) = places lens (Z.to_nat j) →
  (∀ d, d ∈ placed j p l → d ∈ codes_at lens j) → long_inv j D C ns table → outside p (places lens (Z.to_nat j)) D →
  cached j C ps → next_secondary ps = ns → (l ≠ [] → head l = Some v) →
  ∃ C' ns' table', long_codes (length l) j nx v (mirror 15 p) ps table s = Ok (Some (ns', table'), s) ∧
    long_inv j (D ++ placed j p l) C' ns' table'.
Proof using HK Hlen.
  intros Hj H0. pose proof (pow_pos (15 - j) ltac:(lia)) as Hpow. induction l as [|a l IH]; intros p v D C ns table ps Hc Hs Hm Hl Hin HI HD Hca Hns Hv.
  - cbn [length long_codes placed]. rewrite app_nil_r, Hns. by exists C, ns, table.
  - specialize (Hv ltac:(done)) as [= ->]. apply Forall_cons in Hs as [Ha Hs]. cbn [length long_codes placed] in *. set (d := mk_hcode v j p) in *.
    destruct (inv_step j D C ns table d ps s) as (C1 & x & ns1 & t1 & t2 & E1 & E2 & HI2 & Hca2); [done|apply Hin; by left|done..| |].
    { intros d' w Hd' Hi Hi'. unfold outside in HD. rewrite Forall_forall in HD. specialize (HD d' Hd'). unfold inside in *. cbn in Hi'. nia. }
    rewrite (try_ok _ _ _ _ _ E1). cbn [secondary secondary_bits]. rewrite (try_ok _ _ _ _ _ E2).
    destruct (next_val_run nx v l s Ha Hc) as (v' & Ev & Hv'). rewrite (bind_ok _ _ _ _ _ Ev). rewrite next_code_run by (done || lia).
    destruct (IH (p + 2^(15 - j)) v' (D ++ [d]) C1 ns1 t2 (mk_secondary (mirror 8 (h_pos d / 128)) (x_off x) (x_bits x) ns1)) as (C2 & ns2 & t3 & E3 & HI3).
    + by eapply chain_tail.
    + done.
    + replace (p + 2^(15 - j)) with (p + 1 * 2^(15 - j)) by lia. by rewrite Z.mod_add by lia.
    + lia.
    + intros d' Hd'. apply Hin. by right.
    + done.
    + apply Forall_app. split; [eapply Forall_impl; [exact HD|]; cbn; lia|]. apply Forall_singleton. left. cbn [h_pos h_len d]. lia.
    + done.
    + done.
    + done.
    + exists C2, ns2, t3. rewrite <-app_assoc in HI3. done.
Qed.

Lemma inv_weaken j j' D C ns table : j' ≤ j → long_inv j D C ns table → long_inv j' D C ns table.
Proof using Hlen. intros Hj [H1 H2 H3 H4]. split; [done..|]. intros x Hx. specialize (H4 x Hx). lia. Qed.

Lemma long_lengths_run {St} t fc (s : St) (n : nat) : (n ≤ 7)%nat → tallied lens t → starts_below lens fc 16 →
  ends_by (places lens 8) (codes_from lens (seqZ 1 8)) → ∀ D C ns table,
  long_inv (9 + Z.of_nat n) D C ns table → Forall (λ d, places lens (8 + n) ≤ h_pos d) D →
  ∃ D' C' ns' table', long_lengths (reverse (seqZ 9 (Z.of_nat n))) t fc ns table s = Ok (Some table', s) ∧
    long_inv 9 D' C' ns' table' ∧ (∀ d, d ∈ D → d ∈ D') ∧ (∀ j d, 9 ≤ j < 9 + Z.of_nat n → d ∈ codes_at lens j → d ∈ D').
Proof using HK Hlen.
  intros Hn Ht [_ Hfc] H0. induction n as [|n IH]; intros D C ns table HI HD.
  { exists D, C, ns, table. split_and!; [done|done|done|]. intros j d Hj. lia. }
  replace (Z.of_nat (S n)) with (Z.of_nat n + 1) by lia. rewrite seqZ_snoc by lia. rewrite reverse_app. cbn [reverse rev_append app long_lengths].
  set (j := 9 + Z.of_nat n). assert (Z.to_nat j = (8 + S n)%nat) as Ej by lia. assert (Z.to_nat (j - 1) = (8 + n)%nat) as Ej' by lia.
  erewrite bind_ok by (apply tab_get; rewrite (ta_count _ _ Ht); lia). cbn beta. rewrite (ta_counts _ _ Ht) by lia.
  destruct (places_start lens j ltac:(lia) ltac:(lia)) as (Hm & Hp0 & Hpl & Hc). pose proof (places_S lens j ltac:(lia)) as ES. rewrite Ej, Ej' in *.
  assert (∀ D' : list hcode, (∀ d, d ∈ D' → d ∈ D ∨ d ∈ codes_at lens j) → Forall (λ d, places lens (8 + n) ≤ h_pos d) D') as HD'.
  { intros D' Hin. apply Forall_forall. intros d [Hd|Hd]%Hin.
    - rewrite Forall_forall in HD. specialize (HD d Hd). pose proof (places_mono lens (8 + n) (8 + S n) ltac:(lia)). lia.
    - destruct (code_at_facts lens ltac:(lia) j d ltac:(lia) Hd) as (_ & _ & H & _). by rewrite Ej' in H. }
  destruct (decide (syms lens 0 j = [])) as [El|El].
  - rewrite El. cbn [length Z.of_nat Z.eqb]. destruct (IH ltac:(lia) D C ns table) as (D' & C' & ns' & t' & E & HI' & Hsub & Hall).
    { eapply inv_weaken; [|exact HI]. lia. } { apply HD'. auto. }
    exists D', C', ns', t'. split_and!; [done..|]. intros j' d Hj' Hd. destruct (decide (j' = j)) as [-> |]; [|apply (Hall j'); [lia|done]].
    unfold codes_at in Hd. rewrite El in Hd. by apply not_elem_of_nil in Hd.
  - destruct (syms_cons _ _ El) as [v Ev]. replace (Z.of_nat (length (syms lens 0 j)) =? 0) with false by (destruct (syms lens 0 j); [done|cbn; lia]).
    erewrite bind_ok by (apply array_get_ok; [lia|apply (ta_starts _ _ Ht); lia]). cbn beta. rewrite Ev. cbn [initialized]. erewrite bind_ok by reflexivity. cbn beta.
    erewrite bind_ok by (apply array_get_ok; [lia|apply Hfc; [lia|done]]). cbn beta. cbn [initialized]. erewrite bind_ok by reflexivity. cbn beta. rewrite Nat2Z.id, Ej'.
    assert (placed j (places lens (8 + n)) (syms lens 0 j) = codes_at lens j) as Ec by (unfold codes_at; by rewrite Ej').
    destruct (long_codes_run j (next t) s ltac:(lia) H0 (syms lens 0 j) (places lens (8 + n)) v D C ns table (mk_secondary 0x100 0 0 ns)) as (C1 & ns1 & t1 & E1 & HI1).
    + apply (ta_chain _ _ Ht). lia.
    + eapply Forall_impl; [apply syms_pos|]. cbn. lia.
    + done.
    + by rewrite Ej.
    + intros d. by rewrite Ec.
    + eapply inv_weaken; [|exact HI]. lia.
    + eapply Forall_impl; [exact HD|]. intros d Hd. right. by rewrite Ej.
    + by left.
    + done.
    + done.
    + rewrite (try_ok _ _ _ _ _ E1). rewrite Ec in HI1. cbn [fst snd].
      destruct (IH ltac:(lia) (D ++ codes_at lens j) C1 ns1 t1 HI1) as (D' & C' & ns' & t' & E & HI' & Hsub & Hall); [apply HD'; intros d; by rewrite elem_of_app|].
      exists D', C', ns', t'. split_and!; [done..| |]; [intros d Hd; apply Hsub, elem_of_app; by left|]. intros j' d Hj' Hd.
      destruct (decide (j' = j)) as [-> |]; [apply Hsub, elem_of_app; by right|apply (Hall j'); [lia|done]].
Qed.
End long.

(** ** Decoding *)
Lemma table_lookup_fields {St} table val (s : St) t v b : 0 ≤ val → length table = 1024%nat → tab table (val mod 256) = t → fields t = (v, b, true) → table_lookup table val s = Ok ((v, b + 1), s).
Proof.
  intros Hv Hl Et [= E1 E2 E3]. unfold table_lookup. change 0xff with (Z.ones 8). rewrite Z.land_ones by done. change (2^8) with 256.
  erewrite bind_ok by (apply tab_get; lia). cbn beta. rewrite Et, E3, E1, E2. done.
Qed.

(** The bits that index a primary and a secondary table. *)
Lemma primary_bits val w : val mod 2^15 = mirror 15 w → val mod 256 = mirror 8 (w / 128).
Proof.
  intros Ev. pose proof (mirror_low 15 8 w ltac:(lia)) as El. change (2^Z.of_nat 8) with 256 in El. change (2^Z.of_nat (15 - 8)) with 128 in El. rewrite <-El, <-Ev. lia.
Qed.

Lemma lookup_short {St} D table d w val (s : St) : short_table D table ∨ (∃ D' C ns, long_table D D' C ns table) → d ∈ D → 1 ≤ h_len d ≤ 8 → h_pos d mod 2^(15 - h_len d) = 0 →
  0 ≤ h_sym d < 512 → inside d w → 0 ≤ w < 2^15 → 0 ≤ val → val mod 2^15 = mirror 15 w → table_lookup table val s = Ok ((h_sym d, h_len d), s).
Proof.
  intros HT Hd Hj Hm Hs Hi Hw Hval Ev. pose proof (primary_bits val w Ev) as Ei.
  assert (inside d (128 * (w / 128))) as Hi'.
  { unfold inside in *. pose proof (pow_pos (8 - h_len d) ltac:(lia)) as P1.
    assert (2^(15 - h_len d) = 2^(8 - h_len d) * 128) as E7 by (change 128 with (2^7); rewrite <-Z.pow_add_r by lia; f_equal; lia).
    rewrite E7 in *. apply Z.mod_divide in Hm as [c Hc]; [|lia]. rewrite Hc in *. clear Ei. revert P1 Hi. generalize (2^(8 - h_len d)). intros X. nia. }
  assert (length table = 1024%nat ∧ tab table (mirror 8 (w / 128)) = short_entry d) as [Hl Et].
  { destruct HT as [HT|(D' & C & ns & HT)]; [split; [apply (st_length _ _ HT)|apply (st_codes _ _ HT); (done || lia)]|].
    split; [apply (lt_length _ _ _ _ _ HT)|apply (lt_short _ _ _ _ _ HT); (done || lia)]. }
  replace (h_len d) with (h_len d - 1 + 1) at 1 by lia. apply (table_lookup_fields table val s (short_entry d)); [done|done|by rewrite Ei|].
  unfold short_entry. rewrite lor_fields by (done || lia). apply fields_value; [done|lia].
Qed.

Lemma secondary_index val w b : 1 ≤ b ≤ 7 → val mod 2^15 = mirror 15 w → (val / 256) mod 2^b = mirror (Z.to_nat b) ((w mod 128) / 2^(7 - b)).
Proof.
  intros Hb Ev. pose proof (pow_pos b ltac:(lia)) as P1. pose proof (pow_pos (7 - b) ltac:(lia)) as P2.
  assert (128 = 2^b * 2^(7 - b)) as E7 by (change 128 with (2^7); rewrite <-Z.pow_add_r by lia; f_equal; lia).
  assert ((val / 256) mod 128 = mirror 7 (w mod 128)) as E1.
  { pose proof (mirror_high 15 8 w ltac:(lia)) as El. change (2^Z.of_nat 8) with 256 in El. change (2^Z.of_nat (15 - 8)) with 128 in El.
    change (15 - 8)%nat with 7%nat in El. rewrite <-El, <-Ev. lia. }
  pose proof (mirror_low 7 (Z.to_nat b) (w mod 128) ltac:(lia)) as El. rewrite <-E1 in El. replace (Z.of_nat (7 - Z.to_nat b)) with (7 - b) in El by lia.
  rewrite Z2Nat.id in El by lia. rewrite <-El, E7, Z.rem_mul_r by lia. rewrite (Z.mul_comm (2^b)), Z.mod_add by lia. by rewrite Z.mod_mod by lia.
Qed.

Lemma inside_entry d x w : long_code d → x_prefix x = h_pos d / 128 → 1 ≤ x_bits x ≤ 7 → h_len d - 8 ≤ x_bits x → inside d w →
  inside d (place_of x ((w mod 128) / 2^(7 - x_bits x))).
Proof.
  intros Hlong Hq Hx Hb Hi. pose proof (inside_block d w Hlong Hi) as Hblock. destruct Hlong as (Hj & Hm & Hp). set (b := x_bits x) in *.
  unfold inside, place_of in *. fold b. pose proof (pow_pos (7 - b) ltac:(lia)) as P2. pose proof (pow_pos b ltac:(lia)) as P1.
  assert (128 = 2^b * 2^(7 - b)) as E7 by (change 128 with (2^7); rewrite <-Z.pow_add_r by lia; f_equal; lia).
  assert (2^(15 - h_len d) = 2^(b - (h_len d - 8)) * 2^(7 - b)) as Ej by (rewrite <-Z.pow_add_r by lia; f_equal; lia).
  apply Z.mod_divide in Hm as [c Hc]; [|pose proof (pow_pos (15 - h_len d)); lia]. rewrite Ej in *. rewrite Hq, <-Hblock.
  pose proof (Z.div_mod w 128 ltac:(lia)) as Ew. pose proof (Z.div_mod (w mod 128) (2^(7 - b)) ltac:(lia)) as Ew2.
  pose proof (Z.mod_pos_bound (w mod 128) (2^(7 - b)) P2) as Hr. set (z := (w mod 128) / 2^(7 - b)) in *. set (r := (w mod 128) mod 2^(7 - b)) in *.
  set (q := w / 128) in *. clearbody r q z. rewrite Hc in *. rewrite Ew2 in Ew. rewrite E7 in *. clear - Ew Hr Hi P1 P2. revert Ew Hr Hi P1 P2.
  generalize (2^b), (2^(7 - b)), (2^(b - (h_len d - 8))). intros X Y W. intros. subst w.
  assert (c * W ≤ X * q + z) as H1 by (apply Z.lt_succ_r, (Z.mul_lt_mono_pos_r Y); lia).
  assert (X * q + z < c * W + W) as H2 by (apply (Z.mul_lt_mono_pos_r Y); lia).
  apply (Z.mul_le_mono_pos_r _ _ Y) in H1; [|done]. apply (Z.mul_lt_mono_pos_r Y) in H2; [|done]. lia.
Qed.

Lemma lookup_long {St} D0 D C ns table d w val (s : St) : long_table D0 D C ns table → d ∈ D → long_code d → 0 ≤ h_sym d < 512 → inside d w → 0 ≤ w < 2^15 →
  0 ≤ val → val mod 2^15 = mirror 15 w → table_lookup table val s = Ok ((h_sym d, h_len d), s).
Proof.
  intros HT Hd Hlong Hs Hi Hw Hval Ev. pose proof Hlong as (Hj & _). destruct (lt_codes _ _ _ _ _ HT d Hd) as (x & Hx & Hq & Hb).
  pose proof (proj1 (Forall_forall _ _) (lt_second _ _ _ _ _ HT) x Hx) as (Hx1 & Hx2 & Hx3 & Hx4). pose proof (lt_ns _ _ _ _ _ HT) as Hns.
  pose proof (lt_length _ _ _ _ _ HT) as Hlen. pose proof (inside_entry d x w Hlong Hq Hx2 Hb Hi) as Hiz.
  pose proof (secondary_index val w (x_bits x) Hx2 Ev) as Ez. set (z := (w mod 128) / 2^(7 - x_bits x)) in *. set (b := x_bits x) in *.
  pose proof (pow_pos b ltac:(lia)) as P1. pose proof (pow_pos (7 - b) ltac:(lia)) as P2.
  assert (0 ≤ z < 2^b) as Hz.
  { assert (128 = 2^b * 2^(7 - b)) as E7 by (change 128 with (2^7); rewrite <-Z.pow_add_r by lia; f_equal; lia).
    unfold z. split; [apply Z.div_pos; lia|apply Z.div_lt_upper_bound; lia]. }
  pose proof (lt_entries _ _ _ _ _ HT d x z Hd Hx Hz Hiz) as Et. pose proof (entry_range x z Hx2) as Her. fold b in Her.
  unfold table_lookup. change 0xff with (Z.ones 8). rewrite Z.land_ones by done. change (2^8) with 256. erewrite bind_ok by (apply tab_get; lia). cbn beta.
  rewrite (primary_bits val w Ev), (inside_block d w Hlong Hi), <-Hq, (lt_pointer _ _ _ _ _ HT x Hx). unfold pointer. fold b.
  pose proof (fields_pointer (x_off x) b ltac:(lia) ltac:(lia)) as [= F1 F2 F3]. rewrite F3, F1, F2.
  rewrite Z.shiftl_mul_pow2, Z.mul_1_l by lia. replace (2^b - 1) with (Z.ones b) by (rewrite Z.ones_equiv; lia). rewrite Z.land_ones, Z.shiftr_div_pow2 by lia. change (2^8) with 256.
  rewrite Ez. change (x_off x + 256 + mirror (Z.to_nat b) z) with (entry_of x z). erewrite bind_ok by (apply tab_get; lia). cbn beta. rewrite Et. unfold long_entry.
  pose proof (fields_value (h_sym d) (h_len d - 8) ltac:(lia) ltac:(lia)) as [= G1 G2 G3]. rewrite G1, G2. by replace (h_len d - 8 + 8) with (h_len d) by lia.
Qed.

(** ** The codes of RFC 1951, 3.2.2 *)

(** The sum of Kraft's inequality, in units of 2^-15. *)
Definition kraft (lens : list Z) : Z := foldr (λ l n, (if l =? 0 then 0 else 2^(15 - l)) + n) 0 lens.

(** [next_code[bits]] of the RFC, and the code it assigns to symbol [i]. *)
Fixpoint rfc_next_code (lens : list Z) (bits : nat) : Z :=
  match bits with
  | O => 0
  | S m => (rfc_next_code lens m + (if (m =? 0)%nat then 0 else Z.of_nat (length (syms lens 0 (Z.of_nat m))))) * 2
  end.
Definition huffman_code (lens : list Z) (i : nat) : Z :=
  let l := lens !!! i in rfc_next_code lens (Z.to_nat l) + Z.of_nat (length (syms (take i lens) 0 l)).

(** Codes that DEFLATE allows: complete ones, and incomplete ones of short codes. *)
Definition code_ok (lens : list Z) : Prop :=
  Forall (λ l, 0 ≤ l < 16) lens ∧ (length lens ≤ 316)%nat ∧ (kraft lens = 2^15 ∨ kraft lens ≤ 2^15 ∧ Forall (λ l, l ≤ 8) lens).

Lemma places_kraft_upto lens n : (n ≤ 15)%nat →
  places lens n = foldr (λ l k, (if (1 <=? l) && (l <=? Z.of_nat n) then 2^(15 - l) else 0) + k) 0 lens.
Proof.
  induction n as [|n IH]; intros Hn.
  - induction lens as [|l lens IHl]; [done|]. cbn [places foldr] in *. rewrite <-IHl. by replace ((1 <=? l) && (l <=? Z.of_nat 0)) with false by lia.
  - cbn [places]. rewrite IH by lia. clear IH. change (syms lens 0) with (syms lens (0 + 0)).
    generalize (0 + 0). induction lens as [|l lens IHl]; intros i; [done|]. cbn [foldr syms].
    rewrite length_app, <-(IHl (i + 1)). destruct (Z.eqb_spec l (Z.of_nat (S n))) as [-> | Hne]; cbn [length].
    + replace ((1 <=? Z.of_nat (S n)) && (Z.of_nat (S n) <=? Z.of_nat n)) with false by lia.
      replace ((1 <=? Z.of_nat (S n)) && (Z.of_nat (S n) <=? Z.of_nat (S n))) with true by lia. lia.
    + replace ((1 <=? l) && (l <=? Z.of_nat n)) with ((1 <=? l) && (l <=? Z.of_nat (S n))) by lia. lia.
Qed.

Lemma places_kraft lens : Forall (λ l, 0 ≤ l < 16) lens → places lens 15 = kraft lens.
Proof.
  intros H. rewrite places_kraft_upto by lia. unfold kraft. induction H as [|l lens Hl H IH]; [done|]. cbn [foldr]. rewrite IH.
  destruct (Z.eqb_spec l 0); [by replace ((1 <=? l) && (l <=? Z.of_nat 15)) with false by lia|]. by replace ((1 <=? l) && (l <=? Z.of_nat 15)) with true by lia.
Qed.

Lemma rfc_next_code_places lens n : (n < 15)%nat → rfc_next_code lens (S n) * 2^(15 - Z.of_nat (S n)) = places lens n.
Proof.
  assert (∀ m, (m < 15)%nat → 2^(15 - Z.of_nat m) = 2 * 2^(15 - Z.of_nat (S m))) as Hp.
  { intros m Hm. replace (15 - Z.of_nat m) with (Z.succ (15 - Z.of_nat (S m))) by lia. by rewrite Z.pow_succ_r by lia. }
  induction n as [|n IH]; intros Hn; [done|]. specialize (IH ltac:(lia)). cbn [places]. rewrite <-IH. rewrite (Hp (S n)) by lia.
  change (rfc_next_code lens (S (S n))) with ((rfc_next_code lens (S n) + Z.of_nat (length (syms lens 0 (Z.of_nat (S n))))) * 2). lia.
Qed.

Lemma huffman_code_elem lens i l : lens !! i = Some l → 1 ≤ l ≤ 15 → mk_hcode (Z.of_nat i) l (huffman_code lens i * 2^(15 - l)) ∈ codes_at lens l.
Proof.
  intros Hi Hl. apply placed_elem. exists (length (syms (take i lens) 0 l)), (Z.of_nat i). pose proof (lookup_lt_Some _ _ _ Hi) as Hlt. split.
  - assert (syms lens 0 l = syms (take i lens ++ drop i lens) 0 l) as -> by (by rewrite take_drop). rewrite syms_app, lookup_app_r, Nat.sub_diag, length_take by lia. rewrite (drop_S _ _ _ Hi). cbn [syms]. rewrite Z.eqb_refl. cbn. f_equal. lia.
  - f_equal. unfold huffman_code. rewrite (list_lookup_total_correct _ _ _ Hi). rewrite Z.mul_add_distr_r.
    pose proof (rfc_next_code_places lens (Z.to_nat (l - 1)) ltac:(lia)) as E. replace (S (Z.to_nat (l - 1))) with (Z.to_nat l) in E by lia.
    rewrite Z2Nat.id in E by lia. by rewrite E.
Qed.

(** ** The whole table *)
Lemma tallied_start work : tallied [] (mk_tally (replicate 16 0) (replicate 16 None) (replicate 16 None) work).
Proof.
  split; try done; try (cbn; lia).
  - intros j Hj. unfold tab. cbn [count]. by rewrite lookup_replicate_2 by lia.
  - intros j Hj. cbn [start]. by rewrite lookup_replicate_2 by lia.
  - intros j Hj. cbn [prev]. by rewrite lookup_replicate_2 by lia.
Qed.

Lemma tab_zeros y : tab (replicate 1024 0) y = 0.
Proof. unfold tab. destruct (replicate 1024 0 !! Z.to_nat y) eqn:E; [|done]. by apply lookup_replicate in E as [-> _]. Qed.

Lemma short_start : short_table [] (replicate 1024 0).
Proof.
  split; [apply length_replicate| |intros; apply tab_zeros..]. intros d q Hd. by apply not_elem_of_nil in Hd.
Qed.

Lemma no_long_codes lens : Forall (λ l, l ≤ 8) lens → ∀ j, 9 ≤ j → syms lens 0 j = [].
Proof.
  intros H j Hj. destruct (syms lens 0 j) as [|a l] eqn:E; [done|]. assert (a ∈ syms lens 0 j) as Ha by (rewrite E; by left).
  apply syms_elem in Ha as [_ Ha]. rewrite Forall_forall in H. apply list_elem_of_lookup_2 in Ha. specialize (H j Ha). lia.
Qed.

Lemma long_lengths_none {St} lens t fc table (s : St) (js : list Z) : tallied lens t → Forall (λ l, l ≤ 8) lens → Forall (λ j, 9 ≤ j < 16) js →
  long_lengths js t fc 0 table s = Ok (Some table, s).
Proof.
  intros Ht H8. induction js as [|j js IH]; intros Hjs; [done|]. apply Forall_cons in Hjs as [Hj Hjs]. cbn [long_lengths].
  erewrite bind_ok by (apply tab_get; rewrite (ta_count _ _ Ht); lia). cbn beta. rewrite (ta_counts _ _ Ht) by lia. rewrite (no_long_codes lens H8 j) by lia. by apply IH.
Qed.

Lemma long_start D0 table : short_table D0 table → long_table D0 [] [] 0 table.
Proof.
  intros [H1 H2 H3 H4]. split; try done; try (intros; by match goal with H : _ ∈ [] |- _ => apply not_elem_of_nil in H end); try constructor; try lia.
  intros q Hq Hd _. by apply H3.
Qed.

(** All codes of [lens] are in the table. *)
Definition in_table (lens table : list Z) : Prop :=
  ∃ D C ns, long_table (codes_from lens (seqZ 1 8)) D C ns table ∧ ∀ j d, 9 ≤ j ≤ 15 → d ∈ codes_at lens j → d ∈ D.

Lemma inflate_table_run {St} lens work (s : St) : code_ok lens → (length lens ≤ length work)%nat →
  ∃ table work', elf_zlib_inflate_table lens work s = Ok (Some (table, work'), s) ∧ length work' = length work ∧ in_table lens table.
Proof.
  intros (Hl & Hlen & Hk) Hw. rewrite <-places_kraft in Hk by done. assert (places lens 15 ≤ 2^15) as HK by (destruct Hk as [|[]]; lia).
  unfold elf_zlib_inflate_table. set (t0 := mk_tally _ _ _ work).
  destruct (count_codes_run lens s [] t0 Hl Hw ltac:(cbn; lia) (tallied_start work)) as (t & E1 & Ht & Hwl).
  rewrite (try_ok _ _ _ _ _ E1). cbn [app] in Ht.
  destruct (short_lengths_run lens t s 8 HK ltac:(lia) Ht 1 (replicate 1024 0) ltac:(lia) ltac:(lia)) as (t8 & E8 & HT8 & Hend); [apply short_start|constructor|].
  rewrite (try_ok _ _ _ _ _ E8). cbn [fst snd].
  destruct (first_codes_run lens t s 7 ltac:(lia) Ht 9 (replicate 7 None) ltac:(lia) ltac:(lia)) as (fc & Ef & Hfc); [split; [done|lia]|].
  rewrite (try_ok _ _ _ _ _ Ef). destruct Hk as [Hk|[_ H8]].
  - destruct (long_lengths_run lens Hk ltac:(lia) t fc s 7 ltac:(lia) Ht Hfc Hend [] [] 0 t8) as (D & C & ns & t15 & E15 & HI & _ & Hall).
    + split; [by apply long_start|..]; intros ? Hx; by apply not_elem_of_nil in Hx.
    + constructor.
    + rewrite (try_ok _ _ _ _ _ E15). exists t15, (next t). split_and!; [done|done|]. exists D, C, ns. split; [apply (li_table _ _ _ _ _ _ HI)|].
      intros j d Hj. apply Hall. lia.
  - rewrite (try_ok _ _ _ _ _ (long_lengths_none lens t fc t8 s (reverse (seqZ 9 7)) Ht H8 ltac:(repeat (constructor; [lia|]); constructor))).
    exists t8, (next t). split_and!; [done|done|]. exists [], [], 0. split; [by apply long_start|].
    intros j d Hj Hd. unfold codes_at in Hd. by rewrite (no_long_codes lens H8) in Hd by lia.
Qed.

Lemma in_table_decodes {St} lens table (s : St) i l val : code_ok lens → in_table lens table → lens !! i = Some l → 0 < l → 0 ≤ val →
  val mod 2^l = mirror (Z.to_nat l) (huffman_code lens i) → table_lookup table val s = Ok ((Z.of_nat i, l), s).
Proof.
  intros (Hall & Hlen & Hk) (D & C & ns & HT & HD) Hi Hl Hv Ev. assert (places lens 15 ≤ 2^15) as HK by (rewrite places_kraft by done; destruct Hk as [|[]]; lia).
  assert (l < 16) as Hl16. { apply list_elem_of_lookup_2 in Hi. rewrite Forall_forall in Hall. specialize (Hall l Hi). lia. }
  pose proof (huffman_code_elem lens i l Hi ltac:(lia)) as Hd. set (c := huffman_code lens i) in *. set (d := mk_hcode _ l _) in *.
  destruct (code_at_facts lens HK l d ltac:(lia) Hd) as (_ & Hm & _ & _ & Hsym). destruct (place_code_aligned lens HK l d ltac:(lia) Hd) as [Hp0 Hp1].
  cbn [h_pos h_sym d] in Hp0, Hp1, Hsym. pose proof (pow_pos (15 - l) ltac:(lia)) as P1. pose proof (pow_pos l ltac:(lia)) as P2.
  assert (2^15 = 2^l * 2^(15 - l)) as E15 by (rewrite <-Z.pow_add_r by lia; f_equal; lia). assert (0 ≤ c < 2^l) as Hc by nia.
  set (w := mirror 15 (val mod 2^15)). assert (mirror 15 w = val mod 2^15) as Ew by (apply mirror_mirror, Z.mod_pos_bound; done).
  assert (0 ≤ w < 2^15) as Hw by apply (mirror_range 15). assert (inside d w) as Hin.
  { pose proof (mirror_low 15 (Z.to_nat l) w ltac:(lia)) as El. rewrite Z2Nat.id in El by lia. replace (Z.of_nat (15 - Z.to_nat l)) with (15 - l) in El by lia.
    assert ((val mod 2^15) mod 2^l = val mod 2^l) as Emm by (rewrite E15, Z.rem_mul_r by lia; rewrite Z.mul_comm, Z.mod_add by lia; by apply Z.mod_mod; lia).
    rewrite Ew, Emm, Ev in El. apply mirror_inj in El; [|by rewrite Z2Nat.id by lia|rewrite Z2Nat.id by lia].
    - unfold inside. cbn [h_pos h_len d]. rewrite El. pose proof (Z.div_mod w (2^(15 - l)) ltac:(lia)). pose proof (Z.mod_pos_bound w (2^(15 - l)) P1). lia.
    - split; [apply Z.div_pos; lia|apply Z.div_lt_upper_bound; lia]. }
  change (Z.of_nat i) with (h_sym d). change l with (h_len d). destruct (Z.le_gt_cases l 8) as [H8|H9].
  - eapply (lookup_short (codes_from lens (seqZ 1 8)) table d w val s); [right; by eauto| |cbn; lia|done|cbn; lia|done|done|done|done].
    apply codes_from_elem. exists l. split; [apply elem_of_seqZ; lia|done].
  - eapply (lookup_long _ D C ns table d w val s HT); [apply (HD l); [lia|done]|by apply (code_is_long lens HK l d ltac:(lia))|cbn; lia|done..].
Qed.

(** C18. For every complete code of up to 316 symbols, and every incomplete one whose codes
    have at most 8 bits, [elf_zlib_inflate_table] succeeds: the secondary tables fit
    into the 512 offsets that an entry can hold.  In the table that it builds every
    symbol is found by the code that RFC 1951 assigns to it, whatever bits follow;
    nothing outside the table and the work space is written. *)
Theorem inflate_table_decodes {St} lens work (s : St) : code_ok lens → (length lens ≤ length work)%nat →
  ∃ table work', elf_zlib_inflate_table lens work s = Ok (Some (table, work'), s) ∧ length table = 1024%nat ∧ length work' = length work ∧
    ∀ i l val, lens !! i = Some l → 0 < l → 0 ≤ val → val mod 2^l = mirror (Z.to_nat l) (huffman_code lens i) → table_lookup table val s = Ok ((Z.of_nat i, l), s).
Proof.
  intros Hok Hw. destruct (inflate_table_run lens work s Hok Hw) as (table & work' & E & Hl & Hin). exists table, work'. split_and!; [done| |done|].
  - destruct Hin as (D & C & ns & HT & _). apply (lt_length _ _ _ _ _ HT).
  - intros i l val. by apply in_table_decodes.
Qed.

(** A code with a secondary table: its longest code is nine ones. *)
Lemma inflate_table_decodes_witness : let lens := [1; 2; 3; 4; 5; 6; 7; 8; 9; 9] in
  ∃ table work, elf_zlib_inflate_table lens (replicate 316 0) tt = Ok (Some (table, work), tt) ∧
    table_lookup table 0x5ff tt = Ok ((9, 9), tt) ∧ table_lookup table 0x3fe tt = Ok ((0, 1), tt).
Proof.
  assert (code_ok [1; 2; 3; 4; 5; 6; 7; 8; 9; 9]) as Hok.
  { split_and!; [repeat (constructor; [lia|]); constructor|cbn; lia|left; reflexivity]. }
  destruct (inflate_table_decodes [1; 2; 3; 4; 5; 6; 7; 8; 9; 9] (replicate 316 0) tt Hok ltac:(rewrite length_replicate; cbn; lia)) as (table & work & E & _ & _ & H).
  exists table, work. split; [exact E|]. split.
  - apply (H 9%nat 9 0x5ff); reflexivity || lia.
  - apply (H 0%nat 1 0x3fe); reflexivity || lia.
Defined.
